(* ===== verification/_CoqProject ===== *)
-Q . S2P
Prelude.v
Errors.v
Serialization.v
Checksum.v
ByteString.v
Key.v
Deletes.v
CellCache.v
Scanner.v
MergeScanner.v
Selection.v
Schema.v
Wire.v
CommBuf.v
Protocol.v
ScanContext.v
BlockCodec.v
BufferedReader.v
BlockCache.v
CommitLog.v
CommitLogRuns.v
CommitLogWrites.v
CommitLogTorn.v
CommitLogSamples.v
CellStore.v
CellStoreScanner.v
AccessGroup.v
Compaction.v
Shrink.v
MasterGc.v
FileUse.v
StoreV0.v
GroupSamples.v
Range.v
RangeScan.v
RangeLoad.v
RangeSplit.v
RangeHalves.v
RangeSamples.v
BdbFs.v
Namespace.v
HyperMaster.v
HyperLocks.v
HyperRuns.v
HyperExpiry.v
HyperSamples.v
LinkedList.v
LocationCache.v
LocationCacheSpec.v
RequestCache.v
ScanBlock.v
ScanService.v
IntervalScanner.v
IntervalScan.v
ScanNet.v
MetaLog.v
MetaLogRanges.v
MetaLogFiles.v
MetaLogSplit.v
MetaLogSamples.v
ApplicationQueue.v
