(* ===== verification/Prelude.v ===== *)
(** * Hypertable: a verification of its data path

    Hypertable is a distributed table store in C++.  A client's updates reach a
    range server as a message; the server puts cells into the cell cache of an
    access group, compactions write them to cell stores, and a scan merges the
    cell cache and the cell stores, hiding deleted and surplus cells.  This
    development translates the parts of that path into executable definitions
    and proves what they compute.

    ** The files and what they model (paths under src/src/cc)

    - Prelude: machine integers, notations, tactics, lemmas on lists.
    - Errors: [Common/Error.{h,cc}]; the type [result] of code that can throw
      or do something undefined ([Fault]).
    - Serialization: [Common/Serialization.h] and [serialization-c.h].
    - Checksum: [Common/Checksum.cc].
    - ByteString: [Common/DynamicBuffer.h], [Common/ByteString.h].
    - Key: [Hypertable/Lib/Key.{h,cc}].
    - Deletes: the delete records as [CellCache.cc] and [MergeScanner.cc] treat
      them.
    - CellCache: [RangeServer/CellCache.{h,cc}], [MemoryTracker.h].
    - Scanner: [CellListScanner.h] as a type class, [CellCacheScanner.cc].
    - MergeScanner: [RangeServer/MergeScanner.{h,cc}].
    - Schema: [Hypertable/Lib/Schema.cc] and the actions of the HQL grammar that
      build a schema.
    - Wire: [Types.cc], [ScanSpec.cc], [RangeState.cc], [Stat.cc] and the other
      records that are sent.
    - CommBuf: [AsyncComm]: headers, buffers, dispatch of requests.
    - Protocol: the protocols of range server, master, Hyperspace and DFS broker,
      and the request handlers at the other end.
    - ScanContext: [RangeServer/ScanContext.cc].
    - BlockCodec: [Lib/BlockCompressionHeader*.cc] and the block codecs.
    - BufferedReader: [DfsBroker/Lib/ClientBufferedReaderHandler.cc].
    - BlockCache: [RangeServer/FileBlockCache.cc].
    - CellStore: [RangeServer/CellStoreV0.cc], [CellStoreTrailerV0.cc].
    - CellStoreScanner: [RangeServer/CellStoreScannerV0.cc].

    ** Conventions

    A [w]-bit integer is a [Z] with its wrap-around written out.  Memory is a
    list of bytes, and a pointer into it the bytes from there on; reading
    behind the end is [Fault].  Exceptions are [Throw] with the error code.
    Objects with member variables are records, and members that change them
    return the new record.  Definitions have the names of the source.

    Code that is not in the repository, or that only calls the system, is an
    argument: the compression functions (record [Compressor], law [Lossless]),
    the order [std::priority_queue] gives to equal keys (record
    [PriorityQueue]), the outcomes of file system calls and the times at which
    answers arrive (lists).

    ** What the theorems show

    - Encodings: every decoder gives back what the encoder wrote, for keys,
      numbers, strings, records, requests, blocks and whole cell stores, and the
      checked decoders never read outside their input.
    - Checksums: the unrolled, wrapping loops compute the mathematical sums.
    - Keys: comparing packed keys is comparing row, column, time and flag.
    - Deletes and the merge scanner: what a client sees of a sorted sequence of
      cells is a declarative rule on the whole sequence; the variables of the
      code implement it.
    - The cell cache frees every cell once, whoever owns it after a compaction.
    - A scan context bounds exactly the cells asked for, where it does.
    - Scanners: cell caches and cell stores give exactly the cells between the
      bounds, in order, whatever the cache holds and whenever answers arrive.
    - The block cache stays within its memory and never frees a pinned block.
    - A number of theorems state what the code does where it goes wrong: they
      are listed with the findings of the manifest.

    ** Fuel and bounds

    Loops whose recursion is not structural have a fuel argument, and what they
    return is proved for the fuel their callers give: the loops of the merge
    scanner get the number of cells left, those of the cell store scanner one
    more than the bytes that are left, those of the buffered reader the number
    of requests under way.  No theorem has running out of fuel as a way to be
    true: the conclusions name the result.

    ** Not modelled

    Range, RangeServer, the masters and Hyperspace (remote calls between
    processes; their messages are modelled), the commit log and the meta logs,
    the client library above the protocols, HQL but for schemas, sockets and
    threads, the brokers, and the command line tools.  [crc32] and the
    compressors are third-party code.
*)
From Stdlib Require Import ZArith Lia List Bool Sorted Permutation.
Import ListNotations.
#[export] Set Default Goal Selector "!".
Open Scope Z_scope.

(** ** Machine integers

    A [w]-bit unsigned integer of the code is a [Z] kept in [0, 2^w); the
    conversions of C++ between widths are the reductions below. *)

Definition wrap (w x : Z) : Z := x mod 2 ^ w.

Abbreviation u8 := (wrap 8).
Abbreviation u16 := (wrap 16).
Abbreviation u32 := (wrap 32).
Abbreviation u64 := (wrap 64).

(** Reading a [w]-bit pattern as a two's complement signed integer. *)
Definition signed (w x : Z) : Z :=
  let y := wrap w x in if y <? 2 ^ (w - 1) then y else y - 2 ^ w.

Abbreviation i32 := (signed 32).
Abbreviation i64 := (signed 64).

Definition in_range (w x : Z) : Prop := 0 <= x < 2 ^ w.

(** ** Automation of the development *)

Create HintDb hyper.
Create Rewrite HintDb hyper_rw.

(** Replaces boolean comparisons in the context and the goal by the
    propositions they decide. *)
Ltac bool_to_prop :=
  repeat match goal with
  | H : _ && _ = true |- _ => apply andb_true_iff in H; destruct H
  | H : _ || _ = false |- _ => apply orb_false_iff in H; destruct H
  | H : (_ <=? _) = true |- _ => apply Z.leb_le in H
  | H : (_ <=? _) = false |- _ => apply Z.leb_gt in H
  | H : (_ <? _) = true |- _ => apply Z.ltb_lt in H
  | H : (_ <? _) = false |- _ => apply Z.ltb_ge in H
  | H : (_ =? _) = true |- _ => apply Z.eqb_eq in H
  | H : (_ =? _) = false |- _ => apply Z.eqb_neq in H
  | H : negb _ = true |- _ => apply negb_true_iff in H
  | H : negb _ = false |- _ => apply negb_false_iff in H
  end.

(** Case analysis on the discriminee of the outermost [match] or [if] of the
    goal, keeping its equation. *)
Ltac case_goal :=
  match goal with
  | |- context [match ?x with _ => _ end] =>
      lazymatch x with
      | context [match _ with _ => _ end] => fail
      | _ => let E := fresh "E" in destruct x eqn:E
      end
  end.

(** The same on a hypothesis. *)
Ltac case_hyp H :=
  match type of H with
  | context [match ?x with _ => _ end] =>
      lazymatch x with
      | context [match _ with _ => _ end] => fail
      | _ => let E := fresh "E" in destruct x eqn:E
      end
  end.

Ltac inv H := inversion H; subst; clear H.

Ltac split_and := repeat match goal with H : _ /\ _ |- _ => destruct H | |- _ /\ _ => split end.

(** ** Arithmetic *)

Lemma wrap_small w x : in_range w x -> wrap w x = x.
Proof. intros H. apply Z.mod_small, H. Qed.

Lemma wrap_range w x : 0 <= w -> in_range w (wrap w x).
Proof. intros H. apply Z.mod_pos_bound. now apply Z.pow_pos_nonneg. Qed.

Lemma wrap_idem w x : 0 <= w -> wrap w (wrap w x) = wrap w x.
Proof. intros H. now apply wrap_small, wrap_range. Qed.

Lemma signed_small w x : 0 <= x < 2 ^ (w - 1) -> signed w x = x.
Proof.
  intros H. unfold signed.
  assert (Hw : 0 <= w - 1).
  { destruct (Z.neg_nonneg_cases (w - 1)) as [Hn|]; [|assumption].
    rewrite Z.pow_neg_r in H by assumption. lia. }
  assert (2 ^ w = 2 * 2 ^ (w - 1)) as E.
  { rewrite <- Z.pow_succ_r by assumption. f_equal. lia. }
  rewrite wrap_small by (unfold in_range; lia).
  now rewrite (proj2 (Z.ltb_lt _ _)) by lia.
Qed.

Lemma wrap_signed w x : 0 <= w -> wrap w (signed w x) = wrap w x.
Proof.
  intros H. unfold signed. case_goal; [now apply wrap_idem|].
  unfold wrap. rewrite Zminus_mod, Z_mod_same_full, Z.sub_0_r.
  now rewrite !Z.mod_mod by (apply Z.pow_nonzero; lia).
Qed.

(** A signed value survives the trip through its unsigned representation. *)
Lemma signed_wrap w x : 0 < w -> - 2 ^ (w - 1) <= x < 2 ^ (w - 1) -> signed w (wrap w x) = x.
Proof.
  intros Hw H. unfold signed. rewrite wrap_idem by lia.
  assert (E : 2 ^ w = 2 * 2 ^ (w - 1)) by (rewrite <- Z.pow_succ_r by lia; f_equal; lia).
  unfold wrap. destruct (Z.neg_nonneg_cases x) as [Hn|Hn].
  - replace (x mod 2 ^ w) with (x + 2 ^ w).
    + rewrite (proj2 (Z.ltb_ge _ _)) by lia. lia.
    + symmetry. rewrite <- (Z.mod_add x 1), Z.mul_1_l by lia. apply Z.mod_small. lia.
  - rewrite Z.mod_small by lia. now rewrite (proj2 (Z.ltb_lt _ _)) by lia.
Qed.

Lemma land_ones_low k x : 0 <= k -> Z.land x (Z.ones k) = wrap k x.
Proof. intros H. now apply Z.land_ones. Qed.

(** Disjoint bit ranges: [a] occupies the bits below [k]. *)
Lemma lor_low_shift k a b : 0 <= k -> in_range k a ->
  Z.lor a (Z.shiftl b k) = a + b * 2 ^ k.
Proof.
  intros Hk Ha. rewrite <- Z.shiftl_mul_pow2 by assumption.
  rewrite <- Z.add_lor_land. enough (Z.land a (Z.shiftl b k) = 0) as -> by lia.
  apply Z.bits_inj'. intros i Hi. rewrite Z.land_spec, Z.bits_0.
  destruct (Z.lt_ge_cases i k) as [Hlt|Hge].
  - rewrite Z.shiftl_spec_low by assumption. now rewrite andb_false_r.
  - rewrite <- (wrap_small k a Ha). unfold wrap.
    rewrite Z.mod_pow2_bits_high by lia. reflexivity.
Qed.

Lemma lor_range k a b : 0 <= k -> in_range k a -> in_range k b -> in_range k (Z.lor a b).
Proof.
  intros Hk Ha Hb. enough (Z.lor a b = wrap k (Z.lor a b)) as -> by now apply wrap_range.
  apply Z.bits_inj'. intros i Hi. unfold wrap.
  destruct (Z.lt_ge_cases i k) as [Hlt|Hge]; [now rewrite Z.mod_pow2_bits_low|].
  rewrite Z.mod_pow2_bits_high, Z.lor_spec by lia.
  rewrite <- (wrap_small k a Ha), <- (wrap_small k b Hb). unfold wrap.
  now rewrite !Z.mod_pow2_bits_high by lia.
Qed.

Lemma wrap_narrow w v x : 0 <= w <= v -> wrap w (wrap v x) = wrap w x.
Proof.
  intros H. unfold wrap. replace v with (w + (v - w)) by lia. rewrite Z.pow_add_r by lia.
  pose proof (Z.pow_pos_nonneg 2 w ltac:(lia) ltac:(lia)). pose proof (Z.pow_pos_nonneg 2 (v - w) ltac:(lia) ltac:(lia)).
  rewrite Z.rem_mul_r by lia. rewrite Z.mul_comm, Z.mod_add by lia. apply Z.mod_mod. lia.
Qed.

Lemma wrap_le w x : 0 <= w -> 0 <= x -> wrap w x <= x.
Proof. intros Hw Hx. apply Z.mod_le; [assumption|]. now apply Z.pow_pos_nonneg. Qed.

(** ** Byte strings

    Memory is a list of bytes, each a [Z]; a pointer into a buffer is the list
    of the bytes from it to the end of the buffer. *)

Definition is_byte (b : Z) : Prop := in_range 8 b.
Definition wf_bytes (l : list Z) : Prop := Forall is_byte l.

(** [bytes_cmp] is the sign of [memcmp] over the common prefix with the shorter
    string first on a tie, the order of [std::string::compare] and of
    [ByteString]'s [operator<]. *)
Fixpoint bytes_cmp (a b : list Z) : comparison :=
  match a, b with
  | [], [] => Eq
  | [], _ :: _ => Lt
  | _ :: _, [] => Gt
  | x :: a', y :: b' =>
      match x ?= y with
      | Eq => bytes_cmp a' b'
      | c => c
      end
  end.

Definition bytes_ltb (a b : list Z) : bool :=
  match bytes_cmp a b with Lt => true | _ => false end.
Definition bytes_leb (a b : list Z) : bool :=
  match bytes_cmp a b with Gt => false | _ => true end.
Definition bytes_eqb (a b : list Z) : bool :=
  match bytes_cmp a b with Eq => true | _ => false end.

Definition bytes_lt (a b : list Z) : Prop := bytes_cmp a b = Lt.

(** [memcmp a b n], on buffers that hold at least [n] bytes. *)
Definition memcmp (a b : list Z) (n : nat) : comparison :=
  bytes_cmp (firstn n a) (firstn n b).

(** [strlen] and the C string a pointer denotes: the bytes before the first
    NUL ([None] when the buffer has no NUL, where C reads out of bounds). *)
Fixpoint cstr (m : list Z) : option (list Z) :=
  match m with
  | [] => None
  | b :: m' => if b =? 0 then Some [] else option_map (cons b) (cstr m')
  end.

(** The bytes of a C string: no NUL among them. *)
Definition no_nul (s : list Z) : Prop := Forall (fun b => b <> 0) s.

Lemma bytes_cmp_refl a : bytes_cmp a a = Eq.
Proof. induction a as [|x a IH]; [reflexivity|]. cbn. now rewrite Z.compare_refl. Qed.

Lemma bytes_cmp_eq a b : bytes_cmp a b = Eq <-> a = b.
Proof.
  split; [|intros ->; apply bytes_cmp_refl].
  revert b. induction a as [|x a IH]; intros [|y b]; cbn; try discriminate; [reflexivity|].
  destruct (x ?= y) eqn:E; try discriminate.
  apply Z.compare_eq_iff in E as ->. intros H. now rewrite (IH b H).
Qed.

Lemma bytes_cmp_antisym a b : bytes_cmp b a = CompOpp (bytes_cmp a b).
Proof.
  revert b. induction a as [|x a IH]; intros [|y b]; cbn; try reflexivity.
  rewrite (Z.compare_antisym x y), (IH b). now destruct (x ?= y).
Qed.

Lemma bytes_lt_trans a b c : bytes_lt a b -> bytes_lt b c -> bytes_lt a c.
Proof.
  unfold bytes_lt. revert b c.
  induction a as [|x a IH]; intros [|y b] [|z c]; cbn; try discriminate; try reflexivity.
  destruct (Z.compare_spec x y) as [->|Hxy|Hxy]; try discriminate;
  destruct (Z.compare_spec y z) as [->|Hyz|Hyz]; try discriminate; intros H1 H2.
  - eauto.
  - reflexivity.
  - now rewrite (proj2 (Z.compare_lt_iff x z) Hxy).
  - now rewrite (proj2 (Z.compare_lt_iff x z) (Z.lt_trans _ _ _ Hxy Hyz)).
Qed.

Lemma bytes_lt_irrefl a : ~ bytes_lt a a.
Proof. unfold bytes_lt. now rewrite bytes_cmp_refl. Qed.

#[export] Instance bytes_lt_strict : RelationClasses.StrictOrder bytes_lt.
Proof. split; [exact bytes_lt_irrefl | exact bytes_lt_trans]. Qed.

Lemma bytes_cmp_gt a b : bytes_cmp a b = Gt <-> bytes_lt b a.
Proof. unfold bytes_lt. rewrite bytes_cmp_antisym. destruct (bytes_cmp b a); intuition discriminate. Qed.

Lemma bytes_trichotomy a b : bytes_lt a b \/ a = b \/ bytes_lt b a.
Proof.
  destruct (bytes_cmp a b) eqn:E; [right; left; now apply bytes_cmp_eq| now left |].
  right; right. now apply bytes_cmp_gt.
Qed.

Lemma bytes_ltb_lt a b : bytes_ltb a b = true <-> bytes_lt a b.
Proof. unfold bytes_ltb, bytes_lt. destruct (bytes_cmp a b); intuition discriminate. Qed.

Lemma bytes_ltb_ge a b : bytes_ltb a b = false <-> ~ bytes_lt a b.
Proof. rewrite <- bytes_ltb_lt. now destruct (bytes_ltb a b). Qed.

Lemma bytes_eqb_eq a b : bytes_eqb a b = true <-> a = b.
Proof. unfold bytes_eqb. rewrite <- bytes_cmp_eq. destruct (bytes_cmp a b); intuition discriminate. Qed.

Lemma bytes_eqb_neq a b : bytes_eqb a b = false <-> a <> b.
Proof. rewrite <- bytes_eqb_eq. now destruct (bytes_eqb a b). Qed.

Lemma bytes_leb_le a b : bytes_leb a b = true <-> (bytes_lt a b \/ a = b).
Proof.
  unfold bytes_leb, bytes_lt. rewrite <- (bytes_cmp_eq a b).
  destruct (bytes_cmp a b); intuition discriminate.
Qed.

Lemma bytes_leb_gt a b : bytes_leb a b = false <-> bytes_lt b a.
Proof.
  rewrite <- bytes_cmp_gt. unfold bytes_leb. destruct (bytes_cmp a b); intuition discriminate.
Qed.

(** A common prefix does not influence the order. *)
Lemma bytes_cmp_prefix p a b : bytes_cmp (p ++ a) (p ++ b) = bytes_cmp a b.
Proof. induction p as [|x p IH]; [reflexivity|]. cbn. now rewrite Z.compare_refl. Qed.

(** Strings of the same length compare before what follows them. *)
Lemma bytes_cmp_app_same_len a a' b b' : length a = length a' ->
  bytes_cmp (a ++ b) (a' ++ b') =
  match bytes_cmp a a' with Eq => bytes_cmp b b' | c => c end.
Proof.
  revert a'. induction a as [|x a IH]; intros [|y a'] H; try discriminate H; [reflexivity|].
  cbn. destruct (x ?= y); try reflexivity. apply IH. now injection H.
Qed.

(** NUL-terminated strings compare like the strings themselves, whatever
    follows the terminators of two different strings. *)
Lemma bytes_cmp_cstr s t x y :
  no_nul s -> no_nul t -> wf_bytes s -> wf_bytes t ->
  bytes_cmp (s ++ 0 :: x) (t ++ 0 :: y) =
  match bytes_cmp s t with Eq => bytes_cmp x y | c => c end.
Proof.
  intros Hs Ht Ws Wt. revert t Ht Wt.
  induction s as [|a s IH]; intros [|b t] Ht Wt; cbn.
  - reflexivity.
  - inv Wt. inv Ht. unfold is_byte, in_range in *.
    destruct b; [lia | reflexivity | lia].
  - inv Ws. inv Hs. unfold is_byte, in_range in *.
    destruct a; [lia | reflexivity | lia].
  - inv Hs; inv Ws; inv Ht; inv Wt. destruct (a ?= b); try reflexivity. now apply IH.
Qed.

Lemma cstr_app s m : no_nul s -> cstr (s ++ 0 :: m) = Some s.
Proof.
  induction 1 as [|b s Hb Hs IH]; [reflexivity|].
  cbn. rewrite (proj2 (Z.eqb_neq b 0) Hb). unfold option_map. now rewrite IH.
Qed.

Lemma cstr_no_nul m s : cstr m = Some s -> no_nul s.
Proof.
  revert s. induction m as [|b m IH]; intros s; [discriminate|].
  cbn. destruct (Z.eqb_spec b 0) as [->|Hb]; [intros [= <-]; constructor|].
  destruct (cstr m) as [t|]; [|discriminate]. intros [= <-]. constructor; [assumption|]. now apply IH.
Qed.

(** ** Decimal numerals *)

(** ["%d"] for an [int] *)
Fixpoint dec_digits (fuel : nat) (n : Z) : list Z :=
  match fuel with
  | O => []
  | S fuel => (if n <? 10 then [] else dec_digits fuel (n / 10)) ++ [48 + n mod 10]
  end.
Definition decimal (n : Z) : list Z := if n <? 0 then 45 :: dec_digits 10 (- n) else dec_digits 10 n.

(** [strtol] with base 10: the value, and the rest of the string the end pointer
    is left at; [atoi] is its value as an [int]. *)
Definition digit_char (c : Z) : bool := (48 <=? c) && (c <=? 57).
Definition space_char (c : Z) : bool := (c =? 32) || ((9 <=? c) && (c <=? 13)).

Fixpoint skip_spaces (s : list Z) : list Z :=
  match s with
  | c :: s' => if space_char c then skip_spaces s' else s
  | [] => []
  end.

Fixpoint digits_value (acc : Z) (s : list Z) : Z * list Z :=
  match s with
  | c :: s' => if digit_char c then digits_value (acc * 10 + (c - 48)) s' else (acc, s)
  | [] => (acc, [])
  end.

Definition strtol (s : list Z) : Z * list Z :=
  let '(neg, t) := match skip_spaces s with
                   | c :: t => if c =? 45 then (true, t) else if c =? 43 then (false, t) else (false, c :: t)
                   | [] => (false, [])
                   end in
  match t with
  | c :: _ =>
      if digit_char c then
        let '(v, e) := digits_value 0 t in
        (Z.max (- 2 ^ 63) (Z.min (2 ^ 63 - 1) (if neg then - v else v)), e)
      else (0, s)
  | [] => (0, s)
  end.
Definition c_atoi (s : list Z) : Z := i32 (fst (strtol s)).

Lemma digits_are fuel : forall n, 0 <= n -> Forall (fun c => digit_char c = true) (dec_digits fuel n).
Proof.
  induction fuel as [|fuel IH]; intros n Hn; cbn [dec_digits]; [constructor|]. apply Forall_app. split.
  - destruct (n <? 10); [constructor|]. apply IH. now apply Z.div_pos.
  - constructor; [|constructor]. pose proof (Z.mod_pos_bound n 10). unfold digit_char. lia.
Qed.

Lemma digits_value_app s : forall acc t, Forall (fun c => digit_char c = true) s ->
  digits_value acc (s ++ t) = digits_value (fst (digits_value acc s)) t.
Proof.
  induction s as [|c s IH]; intros acc t H; cbn [app digits_value]; [reflexivity|]. inv H. rewrite H2. now apply IH.
Qed.

Lemma digits_value_digits fuel : forall n, 0 <= n < 10 ^ Z.of_nat fuel -> digits_value 0 (dec_digits fuel n) = (n, []).
Proof.
  induction fuel as [|fuel IH]; intros n Hn; cbn [dec_digits]; [cbn in Hn; cbn; f_equal; lia|].
  pose proof (Z.mod_pos_bound n 10). pose proof (Z.div_mod n 10).
  assert (E : digit_char (48 + n mod 10) = true) by (unfold digit_char; lia).
  destruct (Z.ltb_spec n 10); [cbn [app digits_value]; rewrite E; f_equal; rewrite Z.mod_small by lia; lia|].
  assert (Hq : 0 <= n / 10 < 10 ^ Z.of_nat fuel).
  { rewrite Nat2Z.inj_succ, Z.pow_succ_r in Hn by lia. split; [apply Z.div_pos; lia|apply Z.div_lt_upper_bound; lia]. }
  rewrite digits_value_app, IH by (assumption || apply digits_are; lia). cbn [fst digits_value]. rewrite E. f_equal. lia.
Qed.

Lemma digits_head fuel n : 0 <= n -> exists c l, dec_digits (S fuel) n = c :: l /\ digit_char c = true.
Proof.
  intros Hn. pose proof (digits_are (S fuel) n Hn) as H. cbn [dec_digits] in *.
  destruct (_ ++ _) as [|c l] eqn:E; [now apply app_eq_nil in E|]. inv H. eauto.
Qed.

(** Reading back what ["%d"] printed. *)
Lemma strtol_digits n : 0 <= n < 2 ^ 32 -> strtol (dec_digits 10 n) = (n, []).
Proof.
  intros Hn. assert (V : digits_value 0 (dec_digits 10 n) = (n, [])) by (apply digits_value_digits; lia).
  destruct (digits_head 9 n) as (c & l & E & D); [lia|]. rewrite E in *. unfold strtol. cbn [skip_spaces].
  assert (R : 48 <= c <= 57) by (unfold digit_char in D; lia).
  replace (space_char c) with false by (unfold space_char; lia). rewrite (proj2 (Z.eqb_neq c 45)), (proj2 (Z.eqb_neq c 43)) by lia.
  rewrite D, V. f_equal. lia.
Qed.

Lemma decimal_digits n : 0 <= n -> decimal n = dec_digits 10 n.
Proof. intros H. unfold decimal. now rewrite (proj2 (Z.ltb_ge n 0)). Qed.

Lemma digits_inj n m : 0 <= n < 2 ^ 32 -> 0 <= m < 2 ^ 32 -> dec_digits 10 n = dec_digits 10 m -> n = m.
Proof. intros Hn Hm E. pose proof (strtol_digits n Hn) as E1. rewrite E, strtol_digits in E1 by assumption. congruence. Qed.

(** ** Lists *)

Lemma filter_none {A} (f : A -> bool) l : (forall x, In x l -> f x = false) -> filter f l = [].
Proof. induction l as [|x l IH]; intros H; [reflexivity|]. cbn [filter]. rewrite H by now left. apply IH. intros y Hy. apply H. now right. Qed.

Lemma sorted_app {A} (R : A -> A -> Prop) a b : StronglySorted R (a ++ b) <->
  StronglySorted R a /\ StronglySorted R b /\ forall x y, In x a -> In y b -> R x y.
Proof.
  induction a as [|x a IH]; cbn [app].
  - split; [intros H; split; [constructor|split; [assumption|intros ? ? []]]|tauto].
  - split.
    + intros H. inv H. apply IH in H2 as (Ha & Hb & Hab). apply Forall_app in H3 as [Fa Fb].
      split; [now constructor|]. split; [assumption|]. intros u v [<-|Hu] Hv; [|now apply Hab].
      rewrite Forall_forall in Fb. now apply Fb.
    + intros (Ha & Hb & Hab). inv Ha. constructor.
      * apply IH. split; [assumption|]. split; [assumption|]. intros u v Hu. apply Hab. now right.
      * apply Forall_app. split; [assumption|]. apply Forall_forall. intros v Hv. apply Hab; [now left|assumption].
Qed.

Lemma firstn_app_exact {A} (a b : list A) : firstn (length a) (a ++ b) = a.
Proof. rewrite firstn_app, firstn_all, Nat.sub_diag. cbn. apply app_nil_r. Qed.

Lemma skipn_app_exact {A} (a b : list A) : skipn (length a) (a ++ b) = b.
Proof. rewrite skipn_app, skipn_all, Nat.sub_diag. reflexivity. Qed.

Lemma wf_bytes_app a b : wf_bytes (a ++ b) <-> wf_bytes a /\ wf_bytes b.
Proof. apply Forall_app. Qed.

Lemma wrap8_byte x : is_byte (wrap 8 x).
Proof. now apply wrap_range. Qed.

#[export] Hint Resolve wrap8_byte : hyper.
#[export] Hint Rewrite @firstn_app_exact @skipn_app_exact bytes_cmp_refl : hyper_rw.
