(* ===== verification/Errors.v ===== *)
(** * Error codes, exceptions and results

    [Common/Error.h] and [Common/Error.cc]: the enumeration [Error::Code], the
    table [error_info] of their texts with [Error::get_text], and the type of
    results the rest of the development uses for code that throws. *)
From Stdlib Require Import String.
From S2P Require Import Prelude.
From Stdlib Require Import ZArith Lia List Bool.
Import ListNotations.
Open Scope Z_scope.

(** The enumeration [Error::Code]; [OK_] is [Error::OK]. *)
Inductive Code : Set :=
| UNPOSSIBLE
| EXTERNAL
| FAILED_EXPECTATION
| OK_
| PROTOCOL_ERROR
| REQUEST_TRUNCATED
| RESPONSE_TRUNCATED
| REQUEST_TIMEOUT
| LOCAL_IO_ERROR
| BAD_ROOT_LOCATION
| BAD_SCHEMA
| INVALID_METADATA
| BAD_KEY
| METADATA_NOT_FOUND
| HQL_PARSE_ERROR
| FILE_NOT_FOUND
| BLOCK_COMPRESSOR_UNSUPPORTED_TYPE
| BLOCK_COMPRESSOR_INVALID_ARG
| BLOCK_COMPRESSOR_TRUNCATED
| BLOCK_COMPRESSOR_BAD_HEADER
| BLOCK_COMPRESSOR_BAD_MAGIC
| BLOCK_COMPRESSOR_CHECKSUM_MISMATCH
| BLOCK_COMPRESSOR_DEFLATE_ERROR
| BLOCK_COMPRESSOR_INFLATE_ERROR
| BLOCK_COMPRESSOR_INIT_ERROR
| TABLE_DOES_NOT_EXIST
| MALFORMED_REQUEST
| TOO_MANY_COLUMNS
| BAD_DOMAIN_NAME
| PARSE_ERROR
| CONNECT_ERROR_MASTER
| CONNECT_ERROR_HYPERSPACE
| COMM_NOT_CONNECTED
| COMM_BROKEN_CONNECTION
| COMM_CONNECT_ERROR
| COMM_ALREADY_CONNECTED
| COMM_REQUEST_TIMEOUT
| COMM_SEND_ERROR
| COMM_RECEIVE_ERROR
| COMM_POLL_ERROR
| COMM_CONFLICTING_ADDRESS
| COMM_SOCKET_ERROR
| COMM_BIND_ERROR
| COMM_LISTEN_ERROR
| DFSBROKER_BAD_FILE_HANDLE
| DFSBROKER_IO_ERROR
| DFSBROKER_FILE_NOT_FOUND
| DFSBROKER_BAD_FILENAME
| DFSBROKER_PERMISSION_DENIED
| DFSBROKER_INVALID_ARGUMENT
| DFSBROKER_INVALID_CONFIG
| HYPERSPACE_IO_ERROR
| HYPERSPACE_CREATE_FAILED
| HYPERSPACE_FILE_NOT_FOUND
| HYPERSPACE_ATTR_NOT_FOUND
| HYPERSPACE_DELETE_ERROR
| HYPERSPACE_BAD_PATHNAME
| HYPERSPACE_PERMISSION_DENIED
| HYPERSPACE_EXPIRED_SESSION
| HYPERSPACE_FILE_EXISTS
| HYPERSPACE_IS_DIRECTORY
| HYPERSPACE_INVALID_HANDLE
| HYPERSPACE_REQUEST_CANCELLED
| HYPERSPACE_MODE_RESTRICTION
| HYPERSPACE_ALREADY_LOCKED
| HYPERSPACE_LOCK_CONFLICT
| HYPERSPACE_NOT_LOCKED
| HYPERSPACE_BAD_ATTRIBUTE
| HYPERSPACE_BERKELEYDB_ERROR
| HYPERSPACE_DIR_NOT_EMPTY
| HYPERSPACE_BERKELEYDB_DEADLOCK
| MASTER_TABLE_EXISTS
| MASTER_BAD_SCHEMA
| MASTER_NOT_RUNNING
| MASTER_NO_RANGESERVERS
| RANGESERVER_GENERATION_MISMATCH
| RANGESERVER_RANGE_ALREADY_LOADED
| RANGESERVER_RANGE_MISMATCH
| RANGESERVER_NONEXISTENT_RANGE
| RANGESERVER_OUT_OF_RANGE
| RANGESERVER_RANGE_NOT_FOUND
| RANGESERVER_INVALID_SCANNER_ID
| RANGESERVER_SCHEMA_PARSE_ERROR
| RANGESERVER_SCHEMA_INVALID_CFID
| RANGESERVER_INVALID_COLUMNFAMILY
| RANGESERVER_TRUNCATED_COMMIT_LOG
| RANGESERVER_NO_METADATA_FOR_RANGE
| RANGESERVER_SHUTTING_DOWN
| RANGESERVER_CORRUPT_COMMIT_LOG
| RANGESERVER_UNAVAILABLE
| RANGESERVER_TIMESTAMP_ORDER_ERROR
| RANGESERVER_ROW_OVERFLOW
| RANGESERVER_TABLE_NOT_FOUND
| RANGESERVER_BAD_SCAN_SPEC
| HQL_BAD_LOAD_FILE_FORMAT
| METALOG_VERSION_MISMATCH
| METALOG_BAD_RS_HEADER
| METALOG_BAD_M_HEADER
| METALOG_ENTRY_TRUNCATED
| METALOG_CHECKSUM_MISMATCH
| METALOG_ENTRY_BAD_TYPE
| METALOG_ENTRY_BAD_ORDER
| SERIALIZATION_INPUT_OVERRUN
| SERIALIZATION_BAD_VINT
| SERIALIZATION_BAD_VSTR.

(** The integer each enumerator stands for. *)
Definition code_value (c : Code) : Z :=
  match c with
  | UNPOSSIBLE => -3
  | EXTERNAL => -2
  | FAILED_EXPECTATION => -1
  | OK_ => 0
  | PROTOCOL_ERROR => 1
  | REQUEST_TRUNCATED => 2
  | RESPONSE_TRUNCATED => 3
  | REQUEST_TIMEOUT => 4
  | LOCAL_IO_ERROR => 5
  | BAD_ROOT_LOCATION => 6
  | BAD_SCHEMA => 7
  | INVALID_METADATA => 8
  | BAD_KEY => 9
  | METADATA_NOT_FOUND => 10
  | HQL_PARSE_ERROR => 11
  | FILE_NOT_FOUND => 12
  | BLOCK_COMPRESSOR_UNSUPPORTED_TYPE => 13
  | BLOCK_COMPRESSOR_INVALID_ARG => 14
  | BLOCK_COMPRESSOR_TRUNCATED => 15
  | BLOCK_COMPRESSOR_BAD_HEADER => 16
  | BLOCK_COMPRESSOR_BAD_MAGIC => 17
  | BLOCK_COMPRESSOR_CHECKSUM_MISMATCH => 18
  | BLOCK_COMPRESSOR_DEFLATE_ERROR => 19
  | BLOCK_COMPRESSOR_INFLATE_ERROR => 20
  | BLOCK_COMPRESSOR_INIT_ERROR => 21
  | TABLE_DOES_NOT_EXIST => 22
  | MALFORMED_REQUEST => 23
  | TOO_MANY_COLUMNS => 24
  | BAD_DOMAIN_NAME => 25
  | PARSE_ERROR => 26
  | CONNECT_ERROR_MASTER => 27
  | CONNECT_ERROR_HYPERSPACE => 28
  | COMM_NOT_CONNECTED => 0x00010001
  | COMM_BROKEN_CONNECTION => 0x00010002
  | COMM_CONNECT_ERROR => 0x00010003
  | COMM_ALREADY_CONNECTED => 0x00010004
  | COMM_REQUEST_TIMEOUT => 0x00010005
  | COMM_SEND_ERROR => 0x00010006
  | COMM_RECEIVE_ERROR => 0x00010007
  | COMM_POLL_ERROR => 0x00010008
  | COMM_CONFLICTING_ADDRESS => 0x00010009
  | COMM_SOCKET_ERROR => 0x0001000A
  | COMM_BIND_ERROR => 0x0001000B
  | COMM_LISTEN_ERROR => 0x0001000C
  | DFSBROKER_BAD_FILE_HANDLE => 0x00020001
  | DFSBROKER_IO_ERROR => 0x00020002
  | DFSBROKER_FILE_NOT_FOUND => 0x00020003
  | DFSBROKER_BAD_FILENAME => 0x00020004
  | DFSBROKER_PERMISSION_DENIED => 0x00020005
  | DFSBROKER_INVALID_ARGUMENT => 0x00020006
  | DFSBROKER_INVALID_CONFIG => 0x00020007
  | HYPERSPACE_IO_ERROR => 0x00030001
  | HYPERSPACE_CREATE_FAILED => 0x00030002
  | HYPERSPACE_FILE_NOT_FOUND => 0x00030003
  | HYPERSPACE_ATTR_NOT_FOUND => 0x00030004
  | HYPERSPACE_DELETE_ERROR => 0x00030005
  | HYPERSPACE_BAD_PATHNAME => 0x00030006
  | HYPERSPACE_PERMISSION_DENIED => 0x00030007
  | HYPERSPACE_EXPIRED_SESSION => 0x00030008
  | HYPERSPACE_FILE_EXISTS => 0x00030009
  | HYPERSPACE_IS_DIRECTORY => 0x0003000A
  | HYPERSPACE_INVALID_HANDLE => 0x0003000B
  | HYPERSPACE_REQUEST_CANCELLED => 0x0003000C
  | HYPERSPACE_MODE_RESTRICTION => 0x0003000D
  | HYPERSPACE_ALREADY_LOCKED => 0x0003000E
  | HYPERSPACE_LOCK_CONFLICT => 0x0003000F
  | HYPERSPACE_NOT_LOCKED => 0x00030010
  | HYPERSPACE_BAD_ATTRIBUTE => 0x00030011
  | HYPERSPACE_BERKELEYDB_ERROR => 0x00030012
  | HYPERSPACE_DIR_NOT_EMPTY => 0x00030013
  | HYPERSPACE_BERKELEYDB_DEADLOCK => 0x00030014
  | MASTER_TABLE_EXISTS => 0x00040001
  | MASTER_BAD_SCHEMA => 0x00040002
  | MASTER_NOT_RUNNING => 0x00040003
  | MASTER_NO_RANGESERVERS => 0x00040004
  | RANGESERVER_GENERATION_MISMATCH => 0x00050001
  | RANGESERVER_RANGE_ALREADY_LOADED => 0x00050002
  | RANGESERVER_RANGE_MISMATCH => 0x00050003
  | RANGESERVER_NONEXISTENT_RANGE => 0x00050004
  | RANGESERVER_OUT_OF_RANGE => 0x00050005
  | RANGESERVER_RANGE_NOT_FOUND => 0x00050006
  | RANGESERVER_INVALID_SCANNER_ID => 0x00050007
  | RANGESERVER_SCHEMA_PARSE_ERROR => 0x00050008
  | RANGESERVER_SCHEMA_INVALID_CFID => 0x00050009
  | RANGESERVER_INVALID_COLUMNFAMILY => 0x0005000A
  | RANGESERVER_TRUNCATED_COMMIT_LOG => 0x0005000B
  | RANGESERVER_NO_METADATA_FOR_RANGE => 0x0005000C
  | RANGESERVER_SHUTTING_DOWN => 0x0005000D
  | RANGESERVER_CORRUPT_COMMIT_LOG => 0x0005000E
  | RANGESERVER_UNAVAILABLE => 0x0005000F
  | RANGESERVER_TIMESTAMP_ORDER_ERROR => 0x00050010
  | RANGESERVER_ROW_OVERFLOW => 0x00050011
  | RANGESERVER_TABLE_NOT_FOUND => 0x00050012
  | RANGESERVER_BAD_SCAN_SPEC => 0x00050013
  | HQL_BAD_LOAD_FILE_FORMAT => 0x00060001
  | METALOG_VERSION_MISMATCH => 0x00070001
  | METALOG_BAD_RS_HEADER => 0x00070002
  | METALOG_BAD_M_HEADER => 0x00070003
  | METALOG_ENTRY_TRUNCATED => 0x00070004
  | METALOG_CHECKSUM_MISMATCH => 0x00070005
  | METALOG_ENTRY_BAD_TYPE => 0x00070006
  | METALOG_ENTRY_BAD_ORDER => 0x00070007
  | SERIALIZATION_INPUT_OVERRUN => 0x00080001
  | SERIALIZATION_BAD_VINT => 0x00080002
  | SERIALIZATION_BAD_VSTR => 0x00080003
  end.

(** Every code, in the order of the enumeration. *)
Definition all_codes : list Code :=
  [ UNPOSSIBLE; EXTERNAL; FAILED_EXPECTATION; OK_; PROTOCOL_ERROR;
    REQUEST_TRUNCATED; RESPONSE_TRUNCATED; REQUEST_TIMEOUT; LOCAL_IO_ERROR;
    BAD_ROOT_LOCATION; BAD_SCHEMA; INVALID_METADATA; BAD_KEY;
    METADATA_NOT_FOUND; HQL_PARSE_ERROR; FILE_NOT_FOUND;
    BLOCK_COMPRESSOR_UNSUPPORTED_TYPE; BLOCK_COMPRESSOR_INVALID_ARG;
    BLOCK_COMPRESSOR_TRUNCATED; BLOCK_COMPRESSOR_BAD_HEADER;
    BLOCK_COMPRESSOR_BAD_MAGIC; BLOCK_COMPRESSOR_CHECKSUM_MISMATCH;
    BLOCK_COMPRESSOR_DEFLATE_ERROR; BLOCK_COMPRESSOR_INFLATE_ERROR;
    BLOCK_COMPRESSOR_INIT_ERROR; TABLE_DOES_NOT_EXIST; MALFORMED_REQUEST;
    TOO_MANY_COLUMNS; BAD_DOMAIN_NAME; PARSE_ERROR; CONNECT_ERROR_MASTER;
    CONNECT_ERROR_HYPERSPACE; COMM_NOT_CONNECTED; COMM_BROKEN_CONNECTION;
    COMM_CONNECT_ERROR; COMM_ALREADY_CONNECTED; COMM_REQUEST_TIMEOUT;
    COMM_SEND_ERROR; COMM_RECEIVE_ERROR; COMM_POLL_ERROR;
    COMM_CONFLICTING_ADDRESS; COMM_SOCKET_ERROR; COMM_BIND_ERROR;
    COMM_LISTEN_ERROR; DFSBROKER_BAD_FILE_HANDLE; DFSBROKER_IO_ERROR;
    DFSBROKER_FILE_NOT_FOUND; DFSBROKER_BAD_FILENAME;
    DFSBROKER_PERMISSION_DENIED; DFSBROKER_INVALID_ARGUMENT;
    DFSBROKER_INVALID_CONFIG; HYPERSPACE_IO_ERROR; HYPERSPACE_CREATE_FAILED;
    HYPERSPACE_FILE_NOT_FOUND; HYPERSPACE_ATTR_NOT_FOUND;
    HYPERSPACE_DELETE_ERROR; HYPERSPACE_BAD_PATHNAME;
    HYPERSPACE_PERMISSION_DENIED; HYPERSPACE_EXPIRED_SESSION;
    HYPERSPACE_FILE_EXISTS; HYPERSPACE_IS_DIRECTORY;
    HYPERSPACE_INVALID_HANDLE; HYPERSPACE_REQUEST_CANCELLED;
    HYPERSPACE_MODE_RESTRICTION; HYPERSPACE_ALREADY_LOCKED;
    HYPERSPACE_LOCK_CONFLICT; HYPERSPACE_NOT_LOCKED;
    HYPERSPACE_BAD_ATTRIBUTE; HYPERSPACE_BERKELEYDB_ERROR;
    HYPERSPACE_DIR_NOT_EMPTY; HYPERSPACE_BERKELEYDB_DEADLOCK;
    MASTER_TABLE_EXISTS; MASTER_BAD_SCHEMA; MASTER_NOT_RUNNING;
    MASTER_NO_RANGESERVERS; RANGESERVER_GENERATION_MISMATCH;
    RANGESERVER_RANGE_ALREADY_LOADED; RANGESERVER_RANGE_MISMATCH;
    RANGESERVER_NONEXISTENT_RANGE; RANGESERVER_OUT_OF_RANGE;
    RANGESERVER_RANGE_NOT_FOUND; RANGESERVER_INVALID_SCANNER_ID;
    RANGESERVER_SCHEMA_PARSE_ERROR; RANGESERVER_SCHEMA_INVALID_CFID;
    RANGESERVER_INVALID_COLUMNFAMILY; RANGESERVER_TRUNCATED_COMMIT_LOG;
    RANGESERVER_NO_METADATA_FOR_RANGE; RANGESERVER_SHUTTING_DOWN;
    RANGESERVER_CORRUPT_COMMIT_LOG; RANGESERVER_UNAVAILABLE;
    RANGESERVER_TIMESTAMP_ORDER_ERROR; RANGESERVER_ROW_OVERFLOW;
    RANGESERVER_TABLE_NOT_FOUND; RANGESERVER_BAD_SCAN_SPEC;
    HQL_BAD_LOAD_FILE_FORMAT; METALOG_VERSION_MISMATCH;
    METALOG_BAD_RS_HEADER; METALOG_BAD_M_HEADER; METALOG_ENTRY_TRUNCATED;
    METALOG_CHECKSUM_MISMATCH; METALOG_ENTRY_BAD_TYPE;
    METALOG_ENTRY_BAD_ORDER; SERIALIZATION_INPUT_OVERRUN;
    SERIALIZATION_BAD_VINT; SERIALIZATION_BAD_VSTR ].

(** The table [error_info] (its terminating null entry left out). *)
Definition error_info : list (Z * string) :=
  [ (code_value UNPOSSIBLE, "But that's unpossible!"%string);
    (code_value EXTERNAL, "External error"%string);
    (code_value OK_, "HYPERTABLE ok"%string);
    (code_value PROTOCOL_ERROR, "HYPERTABLE protocol error"%string);
    (code_value REQUEST_TRUNCATED, "HYPERTABLE request truncated"%string);
    (code_value RESPONSE_TRUNCATED, "HYPERTABLE response truncated"%string);
    (code_value REQUEST_TIMEOUT, "HYPERTABLE request timeout"%string);
    (code_value LOCAL_IO_ERROR, "HYPERTABLE local i/o error"%string);
    (code_value BAD_ROOT_LOCATION, "HYPERTABLE bad root location"%string);
    (code_value BAD_SCHEMA, "HYPERTABLE bad schema"%string);
    (code_value INVALID_METADATA, "HYPERTABLE invalid metadata"%string);
    (code_value BAD_KEY, "HYPERTABLE bad key"%string);
    (code_value METADATA_NOT_FOUND, "HYPERTABLE metadata not found"%string);
    (code_value HQL_PARSE_ERROR, "HYPERTABLE HQL parse error"%string);
    (code_value FILE_NOT_FOUND, "HYPERTABLE file not found"%string);
    (code_value BLOCK_COMPRESSOR_UNSUPPORTED_TYPE, "HYPERTABLE block compressor unsupported type"%string);
    (code_value BLOCK_COMPRESSOR_INVALID_ARG, "HYPERTABLE block compressor invalid arg"%string);
    (code_value BLOCK_COMPRESSOR_TRUNCATED, "HYPERTABLE block compressor block truncated"%string);
    (code_value BLOCK_COMPRESSOR_BAD_HEADER, "HYPERTABLE block compressor bad block header"%string);
    (code_value BLOCK_COMPRESSOR_BAD_MAGIC, "HYPERTABLE block compressor bad magic string"%string);
    (code_value BLOCK_COMPRESSOR_CHECKSUM_MISMATCH, "HYPERTABLE block compressor block checksum mismatch"%string);
    (code_value BLOCK_COMPRESSOR_INFLATE_ERROR, "HYPERTABLE block compressor inflate error"%string);
    (code_value BLOCK_COMPRESSOR_INIT_ERROR, "HYPERTABLE block compressor initialization error"%string);
    (code_value TABLE_DOES_NOT_EXIST, "HYPERTABLE table does not exist"%string);
    (code_value PARSE_ERROR, "HYPERTABLE parse error"%string);
    (code_value CONNECT_ERROR_MASTER, "HYPERTABLE Master connect error"%string);
    (code_value CONNECT_ERROR_HYPERSPACE, "HYPERTABLE Hyperspace connect error"%string);
    (code_value TOO_MANY_COLUMNS, "HYPERTABLE too many columns"%string);
    (code_value BAD_DOMAIN_NAME, "HYPERTABLE bad domain name"%string);
    (code_value FAILED_EXPECTATION, "HYPERTABLE failed expectation"%string);
    (code_value MALFORMED_REQUEST, "HYPERTABLE malformed request"%string);
    (code_value COMM_NOT_CONNECTED, "COMM not connected"%string);
    (code_value COMM_BROKEN_CONNECTION, "COMM broken connection"%string);
    (code_value COMM_CONNECT_ERROR, "COMM connect error"%string);
    (code_value COMM_ALREADY_CONNECTED, "COMM already connected"%string);
    (code_value COMM_REQUEST_TIMEOUT, "COMM request timeout"%string);
    (code_value COMM_SEND_ERROR, "COMM send error"%string);
    (code_value COMM_RECEIVE_ERROR, "COMM receive error"%string);
    (code_value COMM_POLL_ERROR, "COMM poll error"%string);
    (code_value COMM_CONFLICTING_ADDRESS, "COMM conflicting address"%string);
    (code_value COMM_SOCKET_ERROR, "COMM socket error"%string);
    (code_value COMM_BIND_ERROR, "COMM bind error"%string);
    (code_value COMM_LISTEN_ERROR, "COMM listen error"%string);
    (code_value DFSBROKER_BAD_FILE_HANDLE, "DFS BROKER bad file handle"%string);
    (code_value DFSBROKER_IO_ERROR, "DFS BROKER i/o error"%string);
    (code_value DFSBROKER_FILE_NOT_FOUND, "DFS BROKER file not found"%string);
    (code_value DFSBROKER_BAD_FILENAME, "DFS BROKER bad filename"%string);
    (code_value DFSBROKER_PERMISSION_DENIED, "DFS BROKER permission denied"%string);
    (code_value DFSBROKER_INVALID_ARGUMENT, "DFS BROKER invalid argument"%string);
    (code_value DFSBROKER_INVALID_CONFIG, "DFS BROKER invalid config value"%string);
    (code_value HYPERSPACE_IO_ERROR, "HYPERSPACE i/o error"%string);
    (code_value HYPERSPACE_CREATE_FAILED, "HYPERSPACE create failed"%string);
    (code_value HYPERSPACE_FILE_NOT_FOUND, "HYPERSPACE file not found"%string);
    (code_value HYPERSPACE_ATTR_NOT_FOUND, "HYPERSPACE attribute not found"%string);
    (code_value HYPERSPACE_DELETE_ERROR, "HYPERSPACE delete error"%string);
    (code_value HYPERSPACE_BAD_PATHNAME, "HYPERSPACE bad pathname"%string);
    (code_value HYPERSPACE_PERMISSION_DENIED, "HYPERSPACE permission denied"%string);
    (code_value HYPERSPACE_EXPIRED_SESSION, "HYPERSPACE expired session"%string);
    (code_value HYPERSPACE_FILE_EXISTS, "HYPERSPACE file exists"%string);
    (code_value HYPERSPACE_IS_DIRECTORY, "HYPERSPACE is directory"%string);
    (code_value HYPERSPACE_INVALID_HANDLE, "HYPERSPACE invalid handle"%string);
    (code_value HYPERSPACE_REQUEST_CANCELLED, "HYPERSPACE request cancelled"%string);
    (code_value HYPERSPACE_MODE_RESTRICTION, "HYPERSPACE mode restriction"%string);
    (code_value HYPERSPACE_ALREADY_LOCKED, "HYPERSPACE already locked"%string);
    (code_value HYPERSPACE_LOCK_CONFLICT, "HYPERSPACE lock conflict"%string);
    (code_value HYPERSPACE_NOT_LOCKED, "HYPERSPACE not locked"%string);
    (code_value HYPERSPACE_BAD_ATTRIBUTE, "HYPERSPACE bad attribute"%string);
    (code_value HYPERSPACE_BERKELEYDB_ERROR, "HYPERSPACE Berkeley DB error"%string);
    (code_value HYPERSPACE_DIR_NOT_EMPTY, "HYPERSPACE directory not empty"%string);
    (code_value HYPERSPACE_BERKELEYDB_DEADLOCK, "HYPERSPACE Berkeley DB deadlock"%string);
    (code_value MASTER_TABLE_EXISTS, "MASTER table exists"%string);
    (code_value MASTER_BAD_SCHEMA, "MASTER bad schema"%string);
    (code_value MASTER_NOT_RUNNING, "MASTER not running"%string);
    (code_value MASTER_NO_RANGESERVERS, "MASTER no range servers"%string);
    (code_value RANGESERVER_GENERATION_MISMATCH, "RANGE SERVER generation mismatch"%string);
    (code_value RANGESERVER_RANGE_ALREADY_LOADED, "RANGE SERVER range already loaded"%string);
    (code_value RANGESERVER_RANGE_MISMATCH, "RANGE SERVER range mismatch"%string);
    (code_value RANGESERVER_NONEXISTENT_RANGE, "RANGE SERVER non-existent range"%string);
    (code_value RANGESERVER_OUT_OF_RANGE, "RANGE SERVER out of range"%string);
    (code_value RANGESERVER_RANGE_NOT_FOUND, "RANGE SERVER range not found"%string);
    (code_value RANGESERVER_INVALID_SCANNER_ID, "RANGE SERVER invalid scanner id"%string);
    (code_value RANGESERVER_SCHEMA_PARSE_ERROR, "RANGE SERVER schema parse error"%string);
    (code_value RANGESERVER_SCHEMA_INVALID_CFID, "RANGE SERVER invalid column family id"%string);
    (code_value RANGESERVER_INVALID_COLUMNFAMILY, "RANGE SERVER invalid column family"%string);
    (code_value RANGESERVER_TRUNCATED_COMMIT_LOG, "RANGE SERVER truncated commit log"%string);
    (code_value RANGESERVER_NO_METADATA_FOR_RANGE, "RANGE SERVER no metadata for range"%string);
    (code_value RANGESERVER_SHUTTING_DOWN, "RANGE SERVER shutting down"%string);
    (code_value RANGESERVER_CORRUPT_COMMIT_LOG, "RANGE SERVER corrupt commit log"%string);
    (code_value RANGESERVER_UNAVAILABLE, "RANGE SERVER unavailable"%string);
    (code_value RANGESERVER_TIMESTAMP_ORDER_ERROR, "RANGE SERVER supplied timestamp is not strictly increasing"%string);
    (code_value RANGESERVER_ROW_OVERFLOW, "RANGE SERVER row overflow"%string);
    (code_value RANGESERVER_TABLE_NOT_FOUND, "RANGE SERVER table not found"%string);
    (code_value RANGESERVER_BAD_SCAN_SPEC, "RANGE SERVER bad scan specification"%string);
    (code_value HQL_BAD_LOAD_FILE_FORMAT, "HQL bad load file format"%string);
    (code_value METALOG_BAD_RS_HEADER, "METALOG bad range server metalog header"%string);
    (code_value METALOG_BAD_M_HEADER, "METALOG bad master metalog header"%string);
    (code_value METALOG_ENTRY_TRUNCATED, "METALOG entry truncated"%string);
    (code_value METALOG_CHECKSUM_MISMATCH, "METALOG checksum mismatch"%string);
    (code_value METALOG_ENTRY_BAD_TYPE, "METALOG bad entry type"%string);
    (code_value METALOG_ENTRY_BAD_ORDER, "METALOG entry out of order"%string);
    (code_value SERIALIZATION_INPUT_OVERRUN, "SERIALIZATION input buffer overrun"%string);
    (code_value SERIALIZATION_BAD_VINT, "SERIALIZATION bad vint encoding"%string);
    (code_value SERIALIZATION_BAD_VSTR, "SERIALIZATION bad vstr encoding"%string) ].

(** [build_text_map]: the entries are stored in order into a hash map, so a
    later entry for a code replaces an earlier one. *)
Definition text_map_set (m : Z -> option string) (code : Z) (text : string)
  : Z -> option string :=
  fun k => if k =? code then Some text else m k.

Definition build_text_map : Z -> option string :=
  fold_left (fun m e => text_map_set m (fst e) (snd e)) error_info (fun _ => None).

(** [Error::get_text]. *)
Definition get_text (error : Z) : string :=
  match build_text_map error with
  | None => "ERROR NOT REGISTERED"%string
  | Some text => text
  end.

(** ** Results

    [Throw c] is an exception whose code is [c]; [Fault] is an access outside
    the memory the caller passed, which C++ leaves undefined. *)
Inductive result (A : Type) : Type :=
| Ok (a : A)
| Throw (c : Code)
| Fault.
Arguments Ok {A} _.
Arguments Throw {A} _.
Arguments Fault {A}.

Definition bind {A B} (m : result A) (f : A -> result B) : result B :=
  match m with
  | Ok a => f a
  | Throw c => Throw c
  | Fault => Fault
  end.

Declare Scope result_scope.
Delimit Scope result_scope with result.
Notation "x <- m ;; f" := (bind m (fun x => f))
  (at level 100, m at next level, f at level 200, right associativity) : result_scope.
Notation "' p <- m ;; f" := (bind m (fun p => f))
  (at level 100, p strict pattern, m at next level, right associativity) : result_scope.

Definition is_ok {A} (r : result A) : bool :=
  match r with Ok _ => true | _ => false end.

Lemma Ok_inj {A} (a b : A) : Ok a = Ok b -> a = b.
Proof. now intros [= ->]. Qed.

Lemma bind_ok {A B} (m : result A) (f : A -> result B) b :
  bind m f = Ok b <-> exists a, m = Ok a /\ f a = Ok b.
Proof.
  split.
  - destruct m; cbn; try discriminate. eauto.
  - now intros (a & -> & H).
Qed.

Lemma bind_not_fault {A B} (m : result A) (f : A -> result B) :
  m <> Fault -> (forall a, m = Ok a -> f a <> Fault) -> bind m f <> Fault.
Proof. destruct m; cbn; auto. discriminate. Qed.

Lemma all_codes_complete c : In c all_codes.
Proof. destruct c; cbn; tauto. Qed.

Definition code_of_value (v : Z) : option Code :=
  find (fun c => code_value c =? v) all_codes.

Lemma code_of_value_code c : code_of_value (code_value c) = Some c.
Proof. destruct c; vm_compute; reflexivity. Qed.

Lemma code_value_inj c d : code_value c = code_value d -> c = d.
Proof. intros H. pose proof (code_of_value_code c) as Hc.
  rewrite H, code_of_value_code in Hc. now injection Hc. Qed.

Definition Code_eq_dec (a b : Code) : {a = b} + {a <> b}.
Proof.
  refine (match Z.eq_dec (code_value a) (code_value b) with
          | left e => left (code_value_inj a b e)
          | right n => right (fun e => n (f_equal code_value e)) end).
Defined.

(** Each error code has a text of its own except
    [BLOCK_COMPRESSOR_DEFLATE_ERROR] and [METALOG_VERSION_MISMATCH]: these two
    enumerators are missing from the table, and [get_text] answers
    "ERROR NOT REGISTERED" for exactly them; the codes are pairwise distinct. *)
Theorem get_text_registered :
  (forall c, get_text (code_value c) = "ERROR NOT REGISTERED"%string <->
     c = BLOCK_COMPRESSOR_DEFLATE_ERROR \/ c = METALOG_VERSION_MISMATCH) /\
  (forall c d, code_value c = code_value d -> c = d).
Proof.
  split.
  - intros c.
    assert (A : forallb (fun x => Bool.eqb
              (String.eqb (get_text (code_value x)) "ERROR NOT REGISTERED")
              (match x with
               | BLOCK_COMPRESSOR_DEFLATE_ERROR | METALOG_VERSION_MISMATCH => true
               | _ => false end)) all_codes = true) by (vm_compute; reflexivity).
    rewrite forallb_forall in A. specialize (A c (all_codes_complete c)).
    apply Bool.eqb_prop in A. rewrite <- String.eqb_eq, A.
    destruct c; intuition discriminate.
  - exact code_value_inj.
Qed.
