(* ===== verification/Serialization.v ===== *)
(** * Wire encodings

    [Common/serialization-c.h] and [Common/Serialization.h]: fixed-width
    little-endian integers, the variable-length integers ([vint]), [bytes32],
    [str16] and [vstr].

    An encoder writes at [*bufp] and advances it: its model is the list of bytes
    written.  A decoder reads at [*bufp] and maintains [*remainp]: its state is
    the memory from the pointer on and the value of the [size_t] counter, which
    are separate because the code keeps them separate.  Reading past the memory
    is [Fault].  [size_t] has 64 bits. *)
From S2P Require Import Prelude Errors.
From Stdlib Require Import ZArith Lia List Bool.
Import ListNotations.
Open Scope Z_scope.
Open Scope result_scope.

(** ** Decoder state *)

Record dstate := { ip : list Z; remain : Z }.

Definition dec (A : Type) : Type := dstate -> result (A * dstate).

Definition dret {A} (a : A) : dec A := fun s => Ok (a, s).
Definition dbind {A B} (m : dec A) (f : A -> dec B) : dec B :=
  fun s => '(a, s') <- m s ;; f a s'.
Definition dthrow {A} (c : Code) : dec A := fun _ => Throw c.

Notation "x <~ m ;; f" := (dbind m (fun x => f))
  (at level 100, m at next level, f at level 200, right associativity) : result_scope.

(** [HT_DECODE_NEED(_r_, _l_)]. *)
Definition HT_DECODE_NEED (l : Z) : dec unit := fun s =>
  if remain s <? l then Throw SERIALIZATION_INPUT_OVERRUN
  else Ok (tt, {| ip := ip s; remain := remain s - l |}).

(** [*(_ip_)++]. *)
Definition deref_inc : dec Z := fun s =>
  match ip s with
  | [] => Fault
  | b :: m => Ok (b, {| ip := m; remain := remain s |})
  end.

(** [memcpy(&v, ip, n); ip += n], giving the bytes copied. *)
Definition read_n (n : nat) : dec (list Z) := fun s =>
  if (n <=? length (ip s))%nat
  then Ok (firstn n (ip s), {| ip := skipn n (ip s); remain := remain s |})
  else Fault.

(** ** Fixed-width integers *)

(** The object representation of an integer on a little-endian machine. *)
Fixpoint le_bytes (n : nat) (v : Z) : list Z :=
  match n with
  | O => []
  | S n' => wrap 8 v :: le_bytes n' (v / 256)
  end.

Fixpoint le_value (l : list Z) : Z :=
  match l with
  | [] => 0
  | b :: l' => b + 256 * le_value l'
  end.

(** [HT_ENCODE_I8], [HT_ENCODE_BOOL]. *)
Definition encode_i8 (val : Z) : list Z := [u8 val].
Definition encode_bool (bval : bool) : list Z := [if bval then 1 else 0].

(** The branch of [HT_ENCODE_I16] and of its siblings under
    [HT_LITTLE_ENDIAN]: a [memcpy] of the value. *)
Definition encode_i16 (val : Z) : list Z := le_bytes 2 (u16 val).
Definition encode_i32 (val : Z) : list Z := le_bytes 4 (u32 val).
Definition encode_i64 (val : Z) : list Z := le_bytes 8 (u64 val).

(** The portable branch: one byte per shift. *)
Definition encode_i16_generic (val : Z) : list Z :=
  let v := u16 val in [u8 v; u8 (Z.shiftr v 8)].
Definition encode_i32_generic (val : Z) : list Z :=
  let v := u32 val in
  [u8 v; u8 (Z.shiftr v 8); u8 (Z.shiftr v 16); u8 (Z.shiftr v 24)].
Definition encode_i64_generic (val : Z) : list Z :=
  let v := u64 val in
  [u8 v; u8 (Z.shiftr v 8); u8 (Z.shiftr v 16); u8 (Z.shiftr v 24);
   u8 (Z.shiftr v 32); u8 (Z.shiftr v 40); u8 (Z.shiftr v 48); u8 (Z.shiftr v 56)].

Definition decode_i8 : dec Z := _ <~ HT_DECODE_NEED 1 ;; deref_inc.
Definition decode_byte : dec Z := decode_i8.
Definition decode_bool : dec bool := b <~ decode_i8 ;; dret (negb (b =? 0)).

Definition decode_le (n : nat) : dec Z :=
  _ <~ HT_DECODE_NEED (Z.of_nat n) ;; l <~ read_n n ;; dret (le_value l).
Definition decode_i16 : dec Z := decode_le 2.
Definition decode_i32 : dec Z := decode_le 4.
Definition decode_i64 : dec Z := decode_le 8.

(** The portable branch of the decoders. *)
Definition decode_i16_generic : dec Z :=
  _ <~ HT_DECODE_NEED 2 ;;
  a <~ deref_inc ;; b <~ deref_inc ;;
  dret (Z.lor a (u16 (Z.shiftl b 8))).
Definition decode_i32_generic : dec Z :=
  _ <~ HT_DECODE_NEED 4 ;;
  a <~ deref_inc ;; b <~ deref_inc ;; c <~ deref_inc ;; d <~ deref_inc ;;
  dret (Z.lor (Z.lor (Z.lor a (u32 (Z.shiftl b 8)))
                     (u32 (Z.shiftl c 16))) (u32 (Z.shiftl d 24))).
Definition decode_i64_generic : dec Z :=
  _ <~ HT_DECODE_NEED 8 ;;
  a <~ deref_inc ;; b <~ deref_inc ;; c <~ deref_inc ;; d <~ deref_inc ;;
  e <~ deref_inc ;; f <~ deref_inc ;; g <~ deref_inc ;; h <~ deref_inc ;;
  dret (Z.lor (Z.lor (Z.lor (Z.lor (Z.lor (Z.lor (Z.lor a
          (u64 (Z.shiftl b 8))) (u64 (Z.shiftl c 16))) (u64 (Z.shiftl d 24)))
          (u64 (Z.shiftl e 32))) (u64 (Z.shiftl f 40))) (u64 (Z.shiftl g 48)))
          (u64 (Z.shiftl h 56))).

(** ** Variable-length integers *)

Definition HT_MAX_V1B : Z := 0x7f.
Definition HT_MAX_V2B : Z := 0x3fff.
Definition HT_MAX_V3B : Z := 0x1fffff.
Definition HT_MAX_V4B : Z := 0xfffffff.
Definition HT_MAX_V5B : Z := 0x7ffffffff.
Definition HT_MAX_V6B : Z := 0x3ffffffffff.
Definition HT_MAX_V7B : Z := 0x1ffffffffffff.
Definition HT_MAX_V8B : Z := 0xffffffffffffff.
Definition HT_MAX_V9B : Z := 0x7fffffffffffffff.

Definition encoded_length_vi32 (val : Z) : Z :=
  if val <=? HT_MAX_V1B then 1 else
  if val <=? HT_MAX_V2B then 2 else
  if val <=? HT_MAX_V3B then 3 else
  if val <=? HT_MAX_V4B then 4 else 5.

Definition encoded_length_vi64 (val : Z) : Z :=
  if val <=? HT_MAX_V1B then 1 else
  if val <=? HT_MAX_V2B then 2 else
  if val <=? HT_MAX_V3B then 3 else
  if val <=? HT_MAX_V4B then 4 else
  if val <=? HT_MAX_V5B then 5 else
  if val <=? HT_MAX_V6B then 6 else
  if val <=? HT_MAX_V7B then 7 else
  if val <=? HT_MAX_V8B then 8 else
  if val <=? HT_MAX_V9B then 9 else 10.

(** [HT_ENCODE_VINT0] followed by [n] times [HT_ENCODE_VINT_] and the throw
    that closes [HT_ENCODE_VI32] and [HT_ENCODE_VI64]. *)
Fixpoint encode_vint (n : nat) (v : Z) : result (list Z) :=
  if v <=? HT_MAX_V1B then Ok [u8 (Z.land v 0x7f)]
  else match n with
       | O => Throw UNPOSSIBLE
       | S n' => l <- encode_vint n' (Z.shiftr v 7) ;; Ok (u8 (Z.lor v 0x80) :: l)
       end.

Definition encode_vi32 (val : Z) : result (list Z) := encode_vint 5 (u32 val).
Definition encode_vi64 (val : Z) : result (list Z) := encode_vint 10 (u64 val).

(** [n] times [HT_DECODE_VINT_] and the closing throw, at type [uint<w>_t]:
    [b] is [(_ip_)[-1]], the byte read last.  The result carries that byte,
    which [HT_DECODE_VSTR] can look at again.  The last of the [n] shifts is past
    the width of the type (35 bits of 32, 70 of 64); its value is never used,
    because only the throw follows it. *)
Fixpoint decode_vint_ (w : Z) (n : nat) (shift v b : Z) : dec (Z * Z) :=
  match n with
  | O => dthrow SERIALIZATION_BAD_VINT
  | S n' =>
      let shift := shift + 7 in
      if Z.land b 0x80 =? 0 then dret (v, b)
      else _ <~ HT_DECODE_NEED 1 ;; c <~ deref_inc ;;
           decode_vint_ w n' shift
             (Z.lor v (wrap w (Z.shiftl (Z.land c 0x7f) shift))) c
  end.

(** [HT_DECODE_VINT0] and then [decode_vint_]. *)
Definition decode_vint (w : Z) (n : nat) : dec (Z * Z) :=
  _ <~ HT_DECODE_NEED 1 ;; b <~ deref_inc ;;
  decode_vint_ w n 0 (Z.land b 0x7f) b.

Definition decode_vi32 : dec Z := r <~ decode_vint 32 5 ;; dret (fst r).
Definition decode_vi64 : dec Z := r <~ decode_vint 64 10 ;; dret (fst r).

(** The overloads without [remainp] use a counter of their own, 6 for 32 bits
    and 12 for 64 bits, and advance only the pointer. *)
Definition decode_vi32_ptr (m : list Z) : result (Z * list Z) :=
  '(v, s) <- decode_vi32 {| ip := m; remain := 6 |} ;; Ok (v, ip s).
Definition decode_vi64_ptr (m : list Z) : result (Z * list Z) :=
  '(v, s) <- decode_vi64 {| ip := m; remain := 12 |} ;; Ok (v, ip s).

(** ** Byte arrays and strings *)

Definition zlen {A} (l : list A) : Z := Z.of_nat (length l).

Definition encoded_length_bytes32 (len : Z) : Z := u64 (len + 4).
Definition encode_bytes32 (data : list Z) : list Z :=
  encode_i32 (zlen data) ++ data.

(** [HT_DECODE_BYTES32]: [HT_DECODE_NEED] subtracts the length from [_r_] and
    the macro subtracts it once more. *)
Definition decode_bytes32 : dec (list Z) :=
  tmp <~ decode_i32 ;;
  _ <~ HT_DECODE_NEED tmp ;;
  fun s => let out := firstn (Z.to_nat tmp) (ip s) in
           Ok (out, {| ip := skipn (Z.to_nat tmp) (ip s);
                       remain := u64 (remain s - tmp) |}).

Definition encoded_length_str16 (str : list Z) : Z := 2 + zlen str + 1.

(** [HT_ENCODE_STR16]; the parameter [uint16_t len] truncates the length. *)
Definition encode_str16 (str : list Z) : list Z :=
  let len := u16 (zlen str) in
  encode_i16 len ++ (if 0 <? len then firstn (Z.to_nat len) str else []) ++ [0].

(** [HT_DECODE_STR16] gives a pointer into the buffer and the length; it moves
    the pointer and the counter without comparing them. *)
Definition decode_str16_ptr : dec (list Z * Z) :=
  len <~ decode_i16 ;;
  fun s => Ok ((ip s, len),
               {| ip := skipn (Z.to_nat (len + 1)) (ip s);
                  remain := u64 (remain s - (len + 1)) |}).

(** [decode_str16<String>]: the string made of the [len] bytes at the pointer. *)
Definition decode_str16 : dec (list Z) :=
  r <~ decode_str16_ptr ;;
  let '(str, len) := r in
  fun s => if len <=? zlen str then Ok (firstn (Z.to_nat len) str, s) else Fault.

Definition encoded_length_vstr (len : Z) : Z := encoded_length_vi64 len + len + 1.

Definition encode_vstr (buf : list Z) : result (list Z) :=
  let len := u64 (zlen buf) in
  l <- encode_vi64 len ;;
  Ok (l ++ (if len =? 0 then [] else firstn (Z.to_nat len) buf) ++ [0]).

(** [HT_DECODE_VSTR]: [_tmp_] is 64 bits wide and incremented after it is
    stored in [_len_]; the byte before the new pointer must be NUL. *)
Definition decode_vstr : dec (list Z) :=
  r <~ decode_vint 64 10 ;;
  let '(len, last) := r in
  if 2 ^ 64 - 1 <? len then dthrow SERIALIZATION_BAD_VSTR else
  let tmp := u64 (len + 1) in
  _ <~ HT_DECODE_NEED tmp ;;
  fun s =>
    let before := if tmp =? 0 then Some last else nth_error (ip s) (Z.to_nat (tmp - 1)) in
    match before with
    | None => Fault
    | Some b =>
        if b =? 0
        then Ok (firstn (Z.to_nat len) (ip s),
                 {| ip := skipn (Z.to_nat tmp) (ip s); remain := remain s |})
        else Throw SERIALIZATION_BAD_VSTR
    end.

(** ** Lemmas on fixed-width integers *)

Lemma length_le_bytes n v : length (le_bytes n v) = n.
Proof. revert v. induction n; intros v; cbn; auto. Qed.

Lemma wf_le_bytes n v : wf_bytes (le_bytes n v).
Proof. revert v. induction n; intros v; cbn; constructor; auto with hyper. apply IHn. Qed.

Lemma le_value_le_bytes n v : le_value (le_bytes n v) = wrap (8 * Z.of_nat n) v.
Proof.
  revert v. induction n as [|n IH]; intros v.
  - unfold wrap. cbn. symmetry. apply Z.mod_1_r.
  - cbn [le_bytes le_value]. rewrite IH. unfold wrap.
    replace (8 * Z.of_nat (S n)) with (8 + 8 * Z.of_nat n) by lia.
    rewrite Z.pow_add_r, Z.rem_mul_r by lia. reflexivity.
Qed.

Lemma le_value_range l : wf_bytes l -> in_range (8 * zlen l) (le_value l).
Proof.
  unfold zlen, in_range. induction 1 as [|b l Hb Hl IH]; [cbn; lia|].
  cbn [le_value length]. unfold is_byte, in_range in Hb.
  replace (8 * Z.of_nat (S (length l))) with (8 + 8 * Z.of_nat (length l)) by lia.
  rewrite Z.pow_add_r by lia. change (2 ^ 8) with 256 in *. nia.
Qed.

Lemma le_bytes_le_value l : wf_bytes l -> le_bytes (length l) (le_value l) = l.
Proof.
  induction 1 as [|b l Hb Hl IH]; [reflexivity|].
  unfold is_byte, in_range in Hb. change (2 ^ 8) with 256 in Hb.
  cbn [length le_bytes le_value]. f_equal.
  - unfold wrap. change (2 ^ 8) with 256.
    rewrite Z.mul_comm, Z.mod_add by lia. now apply Z.mod_small.
  - rewrite Z.mul_comm, Z.div_add, Z.div_small by lia. apply IH.
Qed.

(** The three monad steps on states in normal form. *)
Lemma need_ok l m r : l <= r ->
  HT_DECODE_NEED l {| ip := m; remain := r |} = Ok (tt, {| ip := m; remain := r - l |}).
Proof. intros H. unfold HT_DECODE_NEED. cbn. now rewrite (proj2 (Z.ltb_ge r l)). Qed.

Lemma read_n_app n l m r : length l = n ->
  read_n n {| ip := l ++ m; remain := r |} = Ok (l, {| ip := m; remain := r |}).
Proof.
  intros <-. unfold read_n. cbn [ip remain].
  rewrite length_app, (proj2 (Nat.leb_le _ _)) by lia.
  now rewrite firstn_app_exact, skipn_app_exact.
Qed.

Lemma decode_le_app n l m r : length l = n -> Z.of_nat n <= r ->
  decode_le n {| ip := l ++ m; remain := r |} =
  Ok (le_value l, {| ip := m; remain := r - Z.of_nat n |}).
Proof.
  intros Hl Hr. unfold decode_le, dbind. rewrite need_ok by assumption. cbn [bind].
  rewrite read_n_app by assumption. reflexivity.
Qed.

Lemma decode_le_bytes n v m r : Z.of_nat n <= r ->
  decode_le n {| ip := le_bytes n v ++ m; remain := r |} =
  Ok (wrap (8 * Z.of_nat n) v, {| ip := m; remain := r - Z.of_nat n |}).
Proof.
  intros H. rewrite decode_le_app by (auto using length_le_bytes).
  now rewrite le_value_le_bytes.
Qed.

Lemma decode_i16_encode v m r : 2 <= r ->
  decode_i16 {| ip := encode_i16 v ++ m; remain := r |} =
  Ok (u16 v, {| ip := m; remain := r - 2 |}).
Proof.
  intros H. unfold decode_i16, encode_i16. rewrite decode_le_bytes by assumption.
  now rewrite wrap_idem.
Qed.

Lemma decode_i32_encode v m r : 4 <= r ->
  decode_i32 {| ip := encode_i32 v ++ m; remain := r |} =
  Ok (u32 v, {| ip := m; remain := r - 4 |}).
Proof.
  intros H. unfold decode_i32, encode_i32. rewrite decode_le_bytes by assumption.
  now rewrite wrap_idem.
Qed.

Lemma decode_i64_encode v m r : 8 <= r ->
  decode_i64 {| ip := encode_i64 v ++ m; remain := r |} =
  Ok (u64 v, {| ip := m; remain := r - 8 |}).
Proof.
  intros H. unfold decode_i64, encode_i64. rewrite decode_le_bytes by assumption.
  now rewrite wrap_idem.
Qed.

Lemma decode_i8_encode v m r : 1 <= r ->
  decode_i8 {| ip := encode_i8 v ++ m; remain := r |} =
  Ok (u8 v, {| ip := m; remain := r - 1 |}).
Proof. intros H. unfold decode_i8, dbind. now rewrite need_ok. Qed.

Lemma decode_bool_encode b m r : 1 <= r ->
  decode_bool {| ip := encode_bool b ++ m; remain := r |} =
  Ok (b, {| ip := m; remain := r - 1 |}).
Proof.
  intros H. unfold decode_bool, decode_i8, dbind. rewrite need_ok by assumption.
  now destruct b.
Qed.

#[export] Hint Rewrite decode_i8_encode decode_bool_encode decode_i16_encode
  decode_i32_encode decode_i64_encode using lia : hyper_rw.

(** ** Lemmas on variable-length integers *)

Lemma land_127 x : Z.land x 0x7f = x mod 128.
Proof. exact (Z.land_ones x 7 ltac:(lia)). Qed.

Lemma u8_land x : u8 x = Z.land x 0xff.
Proof. symmetry. exact (Z.land_ones x 8 ltac:(lia)). Qed.

Lemma cont_byte_low v : Z.land (u8 (Z.lor v 0x80)) 0x7f = v mod 128.
Proof.
  rewrite u8_land, <- Z.land_assoc. change (Z.land 0xff 0x7f) with 0x7f.
  rewrite Z.land_lor_distr_l, land_127. apply Z.lor_0_r.
Qed.

Lemma cont_byte_high v : (Z.land (u8 (Z.lor v 0x80)) 0x80 =? 0) = false.
Proof.
  rewrite u8_land, <- Z.land_assoc. change (Z.land 0xff 0x80) with 0x80.
  enough (Z.land (Z.lor v 0x80) 0x80 = 0x80) as -> by reflexivity.
  apply Z.bits_inj'. intros i Hi. rewrite Z.land_spec, Z.lor_spec.
  now destruct (Z.testbit v i), (Z.testbit 0x80 i).
Qed.

Lemma last_byte v : 0 <= v <= HT_MAX_V1B ->
  u8 (Z.land v 0x7f) = v /\ Z.land v 0x7f = v /\ (Z.land v 0x80 =? 0) = true.
Proof.
  unfold HT_MAX_V1B. intros H. rewrite land_127. 
  rewrite !(Z.mod_small v) by lia. rewrite wrap_small by (unfold in_range; lia).
  repeat split. apply Z.eqb_eq. apply Z.bits_inj'. intros i Hi. rewrite Z.land_spec, Z.bits_0.
  destruct (Z.eq_dec i 7) as [->|Hne].
  - rewrite <- (Z.mod_small v (2 ^ 7)) by lia. now rewrite Z.mod_pow2_bits_high by lia.
  - enough (Z.testbit 0x80 i = false) as -> by apply andb_false_r.
    change 0x80 with (2 ^ 7). now apply Z.pow2_bits_false.
Qed.

Lemma encode_vint_total n v : 0 <= v < 2 ^ (7 * Z.of_nat (S n)) ->
  exists l, encode_vint n v = Ok l.
Proof.
  revert v. induction n as [|n IH]; intros v Hv; cbn [encode_vint].
  - rewrite (proj2 (Z.leb_le _ _)) by (unfold HT_MAX_V1B; lia). eauto.
  - destruct (v <=? HT_MAX_V1B); [eauto|].
    destruct (IH (Z.shiftr v 7)) as [l Hl].
    + rewrite Z.shiftr_div_pow2 by lia.
      replace (7 * Z.of_nat (S (S n))) with (7 + 7 * Z.of_nat (S n)) in Hv by lia.
      rewrite Z.pow_add_r in Hv by lia.
      split; [apply Z.div_pos; lia | apply Z.div_lt_upper_bound; lia].
    + rewrite Hl. eexists; reflexivity.
Qed.

(** The number of bytes: [k + 1] for a value of [7 k + 1] to [7 (k + 1)] bits. *)
Lemma encode_vint_length k n v l : 0 <= v -> v < 2 ^ (7 * Z.of_nat (S k)) ->
  (k = O \/ 2 ^ (7 * Z.of_nat k) <= v) -> encode_vint n v = Ok l -> length l = S k.
Proof.
  revert n v l. induction k as [|k IH]; intros n v l H0 Hlt Hge H.
  - destruct n; cbn [encode_vint] in H;
      rewrite (proj2 (Z.leb_le _ _)) in H by (unfold HT_MAX_V1B; lia); now inv H.
  - destruct Hge as [|Hge]; [discriminate|].
    replace (7 * Z.of_nat (S (S k))) with (7 + 7 * Z.of_nat (S k)) in Hlt by lia.
    assert (Hk : 7 * Z.of_nat (S k) = 7 + 7 * Z.of_nat k) by lia.
    rewrite Hk in Hge. rewrite Z.pow_add_r in Hlt, Hge by lia.
    assert (Hp : 1 <= 2 ^ (7 * Z.of_nat k)) by (apply (Z.pow_le_mono_r 2 0); lia).
    assert (Hc : (v <=? HT_MAX_V1B) = false) by (apply Z.leb_gt; unfold HT_MAX_V1B; lia).
    destruct n as [|n]; cbn [encode_vint] in H; rewrite Hc in H; [discriminate|].
    apply bind_ok in H as (l' & Hl' & [= <-]). cbn. f_equal.
    rewrite Z.shiftr_div_pow2 in Hl' by lia. apply (IH n (v / 2 ^ 7)); try assumption.
    + apply Z.div_pos; lia.
    + rewrite Hk. apply Z.div_lt_upper_bound; [lia|]. rewrite Hk in Hlt. lia.
    + right. apply Z.div_le_lower_bound; lia.
Qed.

Lemma encode_vint_head n v l : 0 <= v -> encode_vint n v = Ok l ->
  exists b l', l = b :: l' /\ Z.land b 0x7f = v mod 128.
Proof.
  intros Hv H. destruct n; cbn [encode_vint] in H;
    (destruct (v <=? HT_MAX_V1B) eqn:Hc; bool_to_prop; [|try discriminate]).
  1,2: inv H; destruct (last_byte v) as (E1 & E2 & _); [lia|]; rewrite E1;
       exists v, []; split; [reflexivity|]; rewrite land_127; reflexivity.
  apply bind_ok in H as (l' & _ & [= <-]). eexists _, _. split; [reflexivity|].
  apply cont_byte_low.
Qed.

(** The decoder loop undoes the encoder loop, from any accumulated low part. *)
Lemma decode_vint_encode w n : forall v b l, encode_vint n v = Ok (b :: l) -> 0 <= v ->
  forall m shift acc rest r, (S (length l) <= m)%nat -> 0 <= shift ->
  v * 2 ^ shift < 2 ^ w -> in_range shift acc -> zlen l <= r ->
  decode_vint_ w m shift (acc + Z.land b 0x7f * 2 ^ shift) b
    {| ip := l ++ rest; remain := r |} =
  Ok ((acc + v * 2 ^ shift, last (b :: l) 0), {| ip := rest; remain := r - zlen l |}).
Proof.
  induction n as [|n IH]; intros v b l H Hv [|m] shift acc rest r Hm Hs Hw Hacc Hr;
    try lia; cbn [encode_vint] in H;
    destruct (v <=? HT_MAX_V1B) eqn:Hc; bool_to_prop; try discriminate.
  1,2: injection H as <- <-; destruct (last_byte v) as (E1 & E2 & E3); [lia|];
       cbn [decode_vint_]; rewrite E1, E2, E3; unfold dret, zlen; cbn; now rewrite Z.sub_0_r.
  apply bind_ok in H as (l1 & Hl1 & [= <- <-]).
  rewrite Z.shiftr_div_pow2 in Hl1 by lia. change (2 ^ 7) with 128 in Hl1.
  assert (Hq : 0 <= v / 128) by (apply Z.div_pos; lia).
  destruct (encode_vint_head _ _ _ Hq Hl1) as (c & l2 & -> & Hlow).
  cbn [decode_vint_]. rewrite cont_byte_high, cont_byte_low.
  unfold dbind, zlen in *. cbn [app length] in *.
  rewrite need_ok by lia. cbn [bind deref_inc ip remain].
  assert (Hp : 0 < 2 ^ shift) by (apply Z.pow_pos_nonneg; lia).
  assert (Hp7 : 2 ^ (shift + 7) = 2 ^ shift * 128) by (rewrite Z.pow_add_r by lia; reflexivity).
  pose proof (Z.div_mod v 128 ltac:(lia)) as Hdm.
  pose proof (Z.mod_pos_bound v 128 ltac:(lia)) as Hmb.
  pose proof (Z.mod_pos_bound (v / 128) 128 ltac:(lia)) as Hmq.
  pose proof (Z.mod_le (v / 128) 128 Hq ltac:(lia)) as Hle.
  unfold in_range in Hacc.
  rewrite (wrap_small w) by
    (unfold in_range; rewrite Z.shiftl_mul_pow2, Hp7, Hlow by lia; nia).
  rewrite lor_low_shift by (unfold in_range; rewrite ?Hp7; nia).
  rewrite (IH _ _ _ Hl1) by (unfold in_range; rewrite ?Hp7; nia).
  do 3 f_equal; [rewrite Hp7; nia | lia].
Qed.

Lemma decode_vint_app w n k v l rest r : encode_vint n v = Ok l -> 0 <= v < 2 ^ w ->
  (length l <= k)%nat -> zlen l <= r ->
  decode_vint w k {| ip := l ++ rest; remain := r |} =
  Ok ((v, last l 0), {| ip := rest; remain := r - zlen l |}).
Proof.
  intros H Hv Hk Hr. destruct (encode_vint_head n v l) as (b & l' & -> & _); [lia|assumption|].
  unfold decode_vint, dbind, zlen in *. cbn [app length] in *.
  rewrite need_ok by lia. cbn [bind deref_inc ip remain].
  pose proof (decode_vint_encode w n v b l' H ltac:(lia) k 0 0 rest (r - 1)) as E.
  change (2 ^ 0) with 1 in E. rewrite !Z.mul_1_r, !Z.add_0_l in E.
  rewrite E by (unfold in_range, zlen; lia). do 3 f_equal. unfold zlen. lia.
Qed.

Lemma encode_vi64_length v l : in_range 64 v -> encode_vi64 v = Ok l ->
  zlen l = encoded_length_vi64 v.
Proof.
  intros Hv. unfold encode_vi64. rewrite wrap_small by assumption.
  unfold in_range in Hv. intros H. unfold encoded_length_vi64, zlen.
  unfold HT_MAX_V1B, HT_MAX_V2B, HT_MAX_V3B, HT_MAX_V4B, HT_MAX_V5B, HT_MAX_V6B,
    HT_MAX_V7B, HT_MAX_V8B, HT_MAX_V9B.
  repeat case_goal; bool_to_prop;
    [ rewrite (encode_vint_length 0 10 v l) | rewrite (encode_vint_length 1 10 v l)
    | rewrite (encode_vint_length 2 10 v l) | rewrite (encode_vint_length 3 10 v l)
    | rewrite (encode_vint_length 4 10 v l) | rewrite (encode_vint_length 5 10 v l)
    | rewrite (encode_vint_length 6 10 v l) | rewrite (encode_vint_length 7 10 v l)
    | rewrite (encode_vint_length 8 10 v l) | rewrite (encode_vint_length 9 10 v l) ];
    cbn; lia || assumption.
Qed.

Lemma encode_vi32_length v l : in_range 32 v -> encode_vi32 v = Ok l ->
  zlen l = encoded_length_vi32 v.
Proof.
  intros Hv. unfold encode_vi32. rewrite wrap_small by assumption.
  unfold in_range in Hv. intros H. unfold encoded_length_vi32, zlen.
  unfold HT_MAX_V1B, HT_MAX_V2B, HT_MAX_V3B, HT_MAX_V4B.
  repeat case_goal; bool_to_prop;
    [ rewrite (encode_vint_length 0 5 v l) | rewrite (encode_vint_length 1 5 v l)
    | rewrite (encode_vint_length 2 5 v l) | rewrite (encode_vint_length 3 5 v l)
    | rewrite (encode_vint_length 4 5 v l) ]; cbn; lia || assumption.
Qed.

Lemma encoded_length_vi32_range v : 1 <= encoded_length_vi32 v <= 5.
Proof. unfold encoded_length_vi32. repeat case_goal; lia. Qed.

Lemma encoded_length_vi64_range v : 1 <= encoded_length_vi64 v <= 10.
Proof. unfold encoded_length_vi64. repeat case_goal; lia. Qed.

(** ** Memory safety of the decoders

    A state is bounded when the counter does not exceed the memory behind the
    pointer.  A decoder is sound when from a bounded state it never reads
    outside the memory and on success has advanced the pointer and decreased
    the counter by the same amount, so that the state is bounded again. *)

Definition bounded (s : dstate) : Prop := 0 <= remain s <= zlen (ip s).

Definition advanced (s s' : dstate) : Prop :=
  exists k, 0 <= k <= remain s /\ remain s' = remain s - k /\
            ip s' = skipn (Z.to_nat k) (ip s).

Class DecSound {A} (d : dec A) : Prop :=
  dec_sound : forall s, bounded s ->
    d s <> Fault /\ forall a s', d s = Ok (a, s') -> advanced s s'.

Lemma advanced_refl s : bounded s -> advanced s s.
Proof. intros H. exists 0. unfold bounded in H. cbn. repeat split; lia. Qed.

Lemma advanced_trans s1 s2 s3 : advanced s1 s2 -> advanced s2 s3 -> advanced s1 s3.
Proof.
  intros (k & Hk & Hr & Hi) (j & Hj & Hr' & Hi'). exists (k + j).
  split; [lia|]. split; [lia|].
  rewrite Hi', Hi, skipn_skipn. f_equal. lia.
Qed.

Lemma advanced_bounded s s' : bounded s -> advanced s s' -> bounded s'.
Proof.
  unfold bounded, zlen. intros H (k & Hk & Hr & Hi). rewrite Hr, Hi, length_skipn. lia.
Qed.

#[export] Instance dret_sound {A} (a : A) : DecSound (dret a).
Proof. intros s Hs. split; [discriminate|]. intros a' s' [= <- <-]. now apply advanced_refl. Qed.

#[export] Instance dthrow_sound {A} c : DecSound (@dthrow A c).
Proof. intros s Hs. split; discriminate. Qed.

#[export] Instance dbind_sound {A B} (m : dec A) (f : A -> dec B) :
  DecSound m -> (forall a, DecSound (f a)) -> DecSound (dbind m f).
Proof.
  intros Hm Hf s Hs. unfold dbind. destruct (Hm s Hs) as [Hnf Hadv].
  destruct (m s) as [[a s1]|c|]; cbn; [|split; discriminate|now destruct Hnf].
  specialize (Hadv a s1 eq_refl).
  destruct (Hf a s1 (advanced_bounded _ _ Hs Hadv)) as [Hnf' Hadv'].
  split; [assumption|]. intros b s2 E. eauto using advanced_trans.
Qed.

(** The check and the reads it covers, as one step. *)
Lemma need_read_sound {A} (n : nat) (f : list Z -> A) :
  DecSound (_ <~ HT_DECODE_NEED (Z.of_nat n) ;; l <~ read_n n ;; dret (f l)).
Proof.
  intros s Hs. unfold dbind, HT_DECODE_NEED, read_n. unfold bounded, zlen in Hs.
  destruct (Z.ltb_spec (remain s) (Z.of_nat n)) as [|Hn]; cbn; [split; discriminate|].
  rewrite (proj2 (Nat.leb_le _ _)) by lia. cbn. split; [discriminate|].
  intros a s' [= <- <-]. exists (Z.of_nat n). cbn. rewrite Nat2Z.id. repeat split; lia.
Qed.

#[export] Instance decode_le_sound n : DecSound (decode_le n).
Proof. apply need_read_sound. Qed.
#[export] Instance decode_i16_sound : DecSound decode_i16 := decode_le_sound 2.
#[export] Instance decode_i32_sound : DecSound decode_i32 := decode_le_sound 4.
#[export] Instance decode_i64_sound : DecSound decode_i64 := decode_le_sound 8.

#[export] Instance decode_i8_sound : DecSound decode_i8.
Proof.
  intros s Hs. unfold decode_i8, dbind, HT_DECODE_NEED, deref_inc. unfold bounded, zlen in Hs.
  destruct (Z.ltb_spec (remain s) 1) as [|Hn]; cbn; [split; discriminate|].
  destruct (ip s) as [|b m] eqn:E; cbn in *; [lia|]. split; [discriminate|].
  intros a s' [= <- <-]. exists 1. cbn. rewrite E. repeat split; lia.
Qed.

Lemma decode_vint_loop w n shift v b : DecSound (decode_vint_ w n shift v b).
Proof.
  revert shift v b. induction n as [|n IH]; intros shift v b; cbn [decode_vint_].
  - apply dthrow_sound.
  - destruct (Z.land b 128 =? 0); [apply dret_sound|].
    pose proof (dbind_sound decode_i8 (fun c => decode_vint_ w n (shift + 7)
      (Z.lor v (wrap w (Z.shiftl (Z.land c 127) (shift + 7)))) c) _ (fun c => IH _ _ _)) as H.
    intros s Hs. specialize (H s Hs). unfold dbind, decode_i8, dbind in *.
    destruct (HT_DECODE_NEED 1 s) as [[[] s1]| |]; cbn in *; assumption.
Qed.

#[export] Instance decode_vint_sound w n : DecSound (decode_vint w n).
Proof.
  pose proof (dbind_sound decode_i8 (fun b => decode_vint_ w n 0 (Z.land b 127) b) _
    (fun b => decode_vint_loop w n 0 _ b)) as H.
  intros s Hs. specialize (H s Hs). unfold decode_vint, dbind, decode_i8, dbind in *.
  destruct (HT_DECODE_NEED 1 s) as [[[] s1]| |]; cbn in *; assumption.
Qed.

#[export] Instance decode_vi32_sound : DecSound decode_vi32 := _.
#[export] Instance decode_vi64_sound : DecSound decode_vi64 := _.
#[export] Instance decode_bool_sound : DecSound decode_bool := _.

(** A 64-bit vint whose last byte is zero is below [2^63]: the length
    [2^64 - 1], for which [_tmp_++] wraps to zero, has a nonzero last byte and
    [HT_DECODE_VSTR] rejects it. *)
Lemma decode_vint_last n : forall shift v b s v' last s',
  shift + 7 * Z.of_nat n = 70 -> 0 <= shift -> in_range (shift + 7) v ->
  (b = 0 -> in_range shift v) ->
  decode_vint_ 64 n shift v b s = Ok ((v', last), s') ->
  0 <= v' /\ (last = 0 -> v' < 2 ^ 63).
Proof.
  induction n as [|n IH]; intros shift v b s v' last s' Hn Hs Hv Hb H;
    cbn [decode_vint_] in H; [discriminate|].
  destruct (Z.land b 128 =? 0).
  - injection H as <- <- <-. split; [apply Hv|]. intros E. specialize (Hb E). unfold in_range in Hb.
    enough (2 ^ shift <= 2 ^ 63) by lia. apply Z.pow_le_mono_r; lia.
  - unfold dbind in H. apply bind_ok in H as ([[] s1] & _ & H).
    apply bind_ok in H as ([c s2] & _ & H).
    apply IH in H; [assumption|lia|lia| |].
    + apply lor_range; [lia| |].
      * unfold in_range in *. enough (2 ^ (shift + 7) <= 2 ^ (shift + 7 + 7)) by lia.
        apply Z.pow_le_mono_r; lia.
      * rewrite Z.shiftl_mul_pow2 by lia.
        assert (Hc : 0 <= Z.land c 127 < 2 ^ 7) by (rewrite land_127; apply Z.mod_pos_bound; lia).
        assert (0 < 2 ^ (shift + 7)) by (apply Z.pow_pos_nonneg; lia).
        unfold in_range. rewrite (Z.pow_add_r 2 (shift + 7) 7) by lia.
        pose proof (wrap_range 64 (Z.land c 127 * 2 ^ (shift + 7)) ltac:(lia)).
        pose proof (wrap_le 64 (Z.land c 127 * 2 ^ (shift + 7)) ltac:(lia) ltac:(nia)).
        unfold in_range in *. nia.
    + intros ->. cbn. rewrite Z.shiftl_0_l, Z.lor_0_r. assumption.
Qed.

Lemma decode_vint64_last s v last s' : decode_vint 64 10 s = Ok ((v, last), s') ->
  0 <= v /\ (last = 0 -> v < 2 ^ 63).
Proof.
  intros H. unfold decode_vint, dbind in H. apply bind_ok in H as ([[] s1] & _ & H).
  apply bind_ok in H as ([b s2] & _ & H). apply decode_vint_last in H; [assumption|lia|lia| |].
  - unfold in_range. rewrite land_127. apply Z.mod_pos_bound. lia.
  - intros ->. unfold in_range. cbn. lia.
Qed.

Lemma decode_vstr_inv s str s' : bounded s -> decode_vstr s = Ok (str, s') ->
  exists s1 v, decode_vi64 s = Ok (v, s1) /\ advanced s s1 /\ bounded s' /\
    zlen str = v /\ ip s1 = str ++ 0 :: ip s' /\ remain s1 = remain s' + v + 1.
Proof.
  intros Hs H. unfold decode_vstr, dbind in H. apply bind_ok in H as ([[v last] s1] & Hv & H).
  destruct (decode_vint64_last _ _ _ _ Hv) as [Hv0 Hlast].
  destruct (decode_vint_sound 64 10 s Hs) as [_ Hadv]. specialize (Hadv _ _ Hv).
  pose proof (advanced_bounded _ _ Hs Hadv) as Hs1. unfold bounded, zlen in Hs1.
  destruct (2 ^ 64 - 1 <? v) eqn:Hbig; [discriminate|]. bool_to_prop.
  apply bind_ok in H as ([[] s2] & Hneed & H).
  unfold HT_DECODE_NEED in Hneed. destruct (remain s1 <? u64 (v + 1)) eqn:Hr; [discriminate|].
  injection Hneed as <-. cbn [ip remain] in H. bool_to_prop.
  destruct (Z.eq_dec v (2 ^ 64 - 1)) as [->|Hne].
  - change (u64 (2 ^ 64 - 1 + 1)) with 0 in *. change (0 =? 0) with true in H. cbv iota in H.
    destruct (Z.eqb_spec last 0) as [->|]; [specialize (Hlast eq_refl); lia|discriminate].
  - rewrite wrap_small in * by (unfold in_range; lia).
    rewrite (proj2 (Z.eqb_neq _ _)) in H by lia.
    replace (Z.to_nat (v + 1 - 1)) with (Z.to_nat v) in H by lia.
    destruct (nth_error (ip s1) (Z.to_nat v)) as [b|] eqn:Hnth; [|discriminate].
    destruct (Z.eqb_spec b 0) as [->|]; [|discriminate]. injection H as <- <-. cbn [ip remain].
    replace (Z.to_nat (v + 1)) with (S (Z.to_nat v)) by lia.
    apply nth_error_split in Hnth as (l1 & l2 & E & Hl).
    exists s1, v. rewrite E, <- Hl, firstn_app_exact.
    replace (S (length l1)) with (length (l1 ++ [0])) by (rewrite length_app; cbn; lia).
    change (l1 ++ 0 :: l2) with (l1 ++ [0] ++ l2). rewrite app_assoc, skipn_app_exact, <- app_assoc.
    unfold zlen, decode_vi64, dbind. rewrite Hv. repeat split; try reflexivity; try lia; try assumption.
    all: unfold bounded, zlen; cbn [ip remain]; rewrite E, length_app in Hs1; cbn in Hs1; lia.
Qed.

#[export] Instance decode_vstr_sound : DecSound decode_vstr.
Proof.
  intros s Hs. split.
  - unfold decode_vstr, dbind. apply bind_not_fault; [apply decode_vint_sound, Hs|].
    intros [[v last] s1] Hv.
    destruct (decode_vint_sound 64 10 s Hs) as [_ Hadv]. specialize (Hadv _ _ Hv).
    pose proof (advanced_bounded _ _ Hs Hadv) as Hs1. unfold bounded, zlen in Hs1.
    case_goal; [discriminate|]. unfold HT_DECODE_NEED.
    case_goal; cbn [bind]; [discriminate|]. bool_to_prop. cbn [ip].
    pose proof (wrap_range 64 (v + 1) ltac:(lia)) as Hw. unfold in_range in Hw.
    destruct (Z.eqb_spec (u64 (v + 1)) 0); [case_goal; discriminate|].
    destruct (nth_error _ _) eqn:Hnth; [case_goal; discriminate|].
    apply nth_error_None in Hnth. lia.
  - intros str s' H. destruct (decode_vstr_inv _ _ _ Hs H)
      as (s1 & v & Hv & (k & Hk & Hrk & Hik) & Hs' & Hl & Hi & Hr).
    unfold bounded, zlen in *. exists (k + v + 1). split; [lia|]. split; [lia|].
    replace (Z.to_nat (k + v + 1)) with (length str + 1 + Z.to_nat k)%nat by lia.
    rewrite <- skipn_skipn, <- Hik, Hi.
    change (str ++ 0 :: ip s') with (str ++ [0] ++ ip s'). rewrite app_assoc.
    replace (length str + 1)%nat with (length (str ++ [0])) by (rewrite length_app; cbn; lia).
    now rewrite skipn_app_exact.
Qed.

(** ** Properties *)

Lemma vi64_encodes v : in_range 64 v ->
  exists l, encode_vi64 v = Ok l /\ zlen l = encoded_length_vi64 v /\
  forall rest r, zlen l <= r ->
    decode_vint 64 10 {| ip := l ++ rest; remain := r |} =
    Ok ((v, last l 0), {| ip := rest; remain := r - zlen l |}).
Proof.
  intros Hv. unfold encode_vi64. rewrite wrap_small by assumption. unfold in_range in Hv.
  destruct (encode_vint_total 10 v) as [l Hl]; [split; [lia|]; cbn; lia|].
  assert (Hlen : zlen l = encoded_length_vi64 v).
  { apply encode_vi64_length; [assumption|]. unfold encode_vi64. now rewrite wrap_small. }
  exists l. split; [assumption|]. split; [assumption|]. intros rest r Hr.
  pose proof (encoded_length_vi64_range v). unfold zlen in *.
  eapply decode_vint_app; eauto. lia.
Qed.

(** Variable-length 64-bit integers: encoding never reaches the
    [UNPOSSIBLE] throw, writes exactly [encoded_length_vi64] bytes, and decoding
    what was written, followed by anything, gives the value back and leaves the
    pointer and the counter just behind it. *)
Theorem vi64_roundtrip v rest r :
  in_range 64 v -> encoded_length_vi64 v <= r ->
  exists l, encode_vi64 v = Ok l /\ zlen l = encoded_length_vi64 v /\
    decode_vi64 {| ip := l ++ rest; remain := r |} =
    Ok (v, {| ip := rest; remain := r - encoded_length_vi64 v |}).
Proof.
  intros Hv Hr. destruct (vi64_encodes v Hv) as (l & Hl & Hlen & Hd).
  exists l. split; [assumption|]. split; [assumption|].
  unfold decode_vi64, dbind. rewrite Hd by lia. cbn. now rewrite Hlen.
Qed.

Lemma vi64_roundtrip_witness :
  exists l, encode_vi64 (2 ^ 64 - 1) = Ok l /\ zlen l = encoded_length_vi64 (2 ^ 64 - 1) /\
    decode_vi64 {| ip := l ++ [7]; remain := 11 |} =
    Ok (2 ^ 64 - 1, {| ip := [7]; remain := 11 - encoded_length_vi64 (2 ^ 64 - 1) |}).
Proof. apply (vi64_roundtrip (2 ^ 64 - 1) [7] 11); vm_compute; intuition discriminate. Defined.

Lemma vi32_encodes v : in_range 32 v ->
  exists l, encode_vi32 v = Ok l /\ zlen l = encoded_length_vi32 v /\
  forall rest r, zlen l <= r ->
    decode_vi32 {| ip := l ++ rest; remain := r |} =
    Ok (v, {| ip := rest; remain := r - zlen l |}).
Proof.
  intros Hv. unfold encode_vi32. rewrite wrap_small by assumption. unfold in_range in Hv.
  destruct (encode_vint_total 5 v) as [l Hl]; [split; [lia|]; cbn; lia|].
  assert (Hlen : zlen l = encoded_length_vi32 v).
  { apply encode_vi32_length; [assumption|]. unfold encode_vi32. now rewrite wrap_small. }
  exists l. split; [assumption|]. split; [assumption|]. intros rest r Hr.
  pose proof (encoded_length_vi32_range v). unfold zlen in *.
  unfold decode_vi32, dbind. now rewrite (decode_vint_app 32 5 5 v l) by (assumption || lia).
Qed.

(** Variable-length 32-bit integers round trip the same way, also through
    the overload [decode_vi32(bufp)] that has no counter and allows itself six
    bytes. *)
Theorem vi32_roundtrip v rest r :
  in_range 32 v -> encoded_length_vi32 v <= r ->
  exists l, encode_vi32 v = Ok l /\ zlen l = encoded_length_vi32 v /\
    decode_vi32 {| ip := l ++ rest; remain := r |} =
      Ok (v, {| ip := rest; remain := r - encoded_length_vi32 v |}) /\
    decode_vi32_ptr (l ++ rest) = Ok (v, rest).
Proof.
  intros Hv Hr. destruct (vi32_encodes v Hv) as (l & Hl & Hlen & Hd).
  pose proof (encoded_length_vi32_range v).
  exists l. split; [assumption|]. split; [assumption|]. split.
  - rewrite Hd by lia. now rewrite Hlen.
  - unfold decode_vi32_ptr. now rewrite Hd by lia.
Qed.

Lemma vi32_roundtrip_witness :
  exists l, encode_vi32 300 = Ok l /\ zlen l = encoded_length_vi32 300 /\
    decode_vi32 {| ip := l ++ [9]; remain := 3 |} =
      Ok (300, {| ip := [9]; remain := 3 - encoded_length_vi32 300 |}) /\
    decode_vi32_ptr (l ++ [9]) = Ok (300, [9]).
Proof. apply (vi32_roundtrip 300 [9] 3); vm_compute; intuition discriminate. Defined.

Lemma lor_step w k acc x : 0 <= k -> k + 8 <= w -> in_range k acc -> is_byte x ->
  Z.lor acc (wrap w (Z.shiftl x k)) = acc + x * 2 ^ k /\ in_range (k + 8) (acc + x * 2 ^ k).
Proof.
  unfold is_byte, in_range. intros Hk Hw Ha Hx.
  assert (0 < 2 ^ k) by (apply Z.pow_pos_nonneg; lia).
  assert (2 ^ (k + 8) <= 2 ^ w) by (apply Z.pow_le_mono_r; lia).
  rewrite Z.pow_add_r in * by lia. change (2 ^ 8) with 256 in *.
  rewrite wrap_small by (unfold in_range; rewrite Z.shiftl_mul_pow2 by lia; nia).
  rewrite lor_low_shift by assumption. nia.
Qed.

(** Splits the first byte off the memory [m], known to be long enough. *)
Ltac peel m Hw Hb :=
  destruct m as [|? m]; [cbn in Hb; lia|]; apply Forall_cons_iff in Hw as [? Hw].

Ltac lor_steps w :=
  repeat match goal with
  | |- context [Z.lor ?acc (wrap w (Z.shiftl ?x ?k))] =>
      lazymatch acc with
      | context [Z.lor _ _] => fail
      | _ => let E := fresh "E" in let R := fresh "R" in
             destruct (lor_step w k acc x) as [E R];
             [lia | lia | assumption | assumption | rewrite E; clear E; simpl Z.add in R ]
      end
  end.

Lemma decode_generic_16 s : wf_bytes (ip s) -> bounded s ->
  decode_i16_generic s = decode_i16 s.
Proof.
  destruct s as [m r]. unfold bounded, zlen. cbn [ip remain]. intros Hw Hb.
  unfold decode_i16_generic, decode_i16, decode_le, dbind, HT_DECODE_NEED. cbn [ip remain].
  change (Z.of_nat 2) with 2. destruct (Z.ltb_spec r 2); [reflexivity|].
  do 2 peel m Hw Hb. unfold read_n, deref_inc, dret. cbn -[Z.lor Z.shiftl Z.mul Z.add wrap].
  lor_steps 16. do 2 f_equal. lia.
Qed.

Lemma decode_generic_32 s : wf_bytes (ip s) -> bounded s ->
  decode_i32_generic s = decode_i32 s.
Proof.
  destruct s as [m r]. unfold bounded, zlen. cbn [ip remain]. intros Hw Hb.
  unfold decode_i32_generic, decode_i32, decode_le, dbind, HT_DECODE_NEED. cbn [ip remain].
  change (Z.of_nat 4) with 4. destruct (Z.ltb_spec r 4); [reflexivity|].
  do 4 peel m Hw Hb. unfold read_n, deref_inc, dret. cbn -[Z.lor Z.shiftl Z.mul Z.add wrap].
  lor_steps 32. do 2 f_equal. lia.
Qed.

Lemma decode_generic_64 s : wf_bytes (ip s) -> bounded s ->
  decode_i64_generic s = decode_i64 s.
Proof.
  destruct s as [m r]. unfold bounded, zlen. cbn [ip remain]. intros Hw Hb.
  unfold decode_i64_generic, decode_i64, decode_le, dbind, HT_DECODE_NEED. cbn [ip remain].
  change (Z.of_nat 8) with 8. destruct (Z.ltb_spec r 8); [reflexivity|].
  do 8 peel m Hw Hb. unfold read_n, deref_inc, dret. cbn -[Z.lor Z.shiftl Z.mul Z.add wrap].
  lor_steps 64. do 2 f_equal. lia.
Qed.

(** The portable branches of the fixed-width encoders and decoders agree
    with the little-endian [memcpy] branches on every value, and on every state
    whose memory holds bytes and whose counter is within the memory. *)
Theorem generic_branch_equiv v s : wf_bytes (ip s) -> bounded s ->
  (encode_i16_generic v = encode_i16 v /\ encode_i32_generic v = encode_i32 v /\
   encode_i64_generic v = encode_i64 v) /\
  (decode_i16_generic s = decode_i16 s /\ decode_i32_generic s = decode_i32 s /\
   decode_i64_generic s = decode_i64 s).
Proof.
  intros Hw Hb. split.
  - unfold encode_i16_generic, encode_i32_generic, encode_i64_generic,
      encode_i16, encode_i32, encode_i64. cbn [le_bytes].
    rewrite !Z.shiftr_div_pow2 by lia. rewrite !Z.div_div by lia. repeat split; reflexivity.
  - auto using decode_generic_16, decode_generic_32, decode_generic_64.
Qed.

Lemma generic_branch_equiv_witness :
  (encode_i16_generic 513 = encode_i16 513 /\ encode_i32_generic 513 = encode_i32 513 /\
   encode_i64_generic 513 = encode_i64 513) /\
  let s := {| ip := [1; 2; 3; 4; 5; 6; 7; 255]; remain := 8 |} in
  (decode_i16_generic s = decode_i16 s /\ decode_i32_generic s = decode_i32 s /\
   decode_i64_generic s = decode_i64 s).
Proof.
  apply (generic_branch_equiv 513 {| ip := [1; 2; 3; 4; 5; 6; 7; 255]; remain := 8 |}).
  - repeat constructor; vm_compute; intuition discriminate.
  - vm_compute; intuition discriminate.
Defined.

(** C30. Memory safety: from a state whose counter does not exceed the memory,
    the integer, vint and [vstr] decoders never read outside it; when they
    succeed, pointer and counter have moved by the same amount, so the next
    decoder starts from such a state again, and a decoded [vstr] lies in the
    buffer, has exactly the decoded length and is followed by its NUL. *)
Theorem decoders_memory_safe s :
  bounded s ->
  (DecSound decode_i8 /\ DecSound decode_i16 /\ DecSound decode_i32 /\
   DecSound decode_i64 /\ DecSound decode_vi32 /\ DecSound decode_vi64 /\
   DecSound decode_vstr) /\
  (forall str s', decode_vstr s = Ok (str, s') ->
     exists s1, decode_vi64 s = Ok (zlen str, s1) /\ ip s1 = str ++ 0 :: ip s' /\ bounded s').
Proof.
  intros Hs. split; [do 6 (apply conj; [exact _|]); exact _|].
  intros str s' H. destruct (decode_vstr_inv _ _ _ Hs H) as (s1 & v & Hv & _ & Hb & <- & Hi & _).
  eauto.
Qed.

Lemma decoders_memory_safe_witness :
  exists s1, decode_vi64 {| ip := [2; 104; 105; 0; 9]; remain := 4 |} = Ok (2, s1) /\
    ip s1 = [104; 105] ++ 0 :: [9] /\ bounded {| ip := [9]; remain := 0 |}.
Proof.
  apply (proj2 (decoders_memory_safe {| ip := [2; 104; 105; 0; 9]; remain := 4 |}
                  ltac:(vm_compute; intuition discriminate)) [104; 105]
           {| ip := [9]; remain := 0 |}).
  vm_compute. reflexivity.
Defined.

Lemma encode_vstr_eq buf : zlen buf < 2 ^ 64 ->
  exists l, encode_vi64 (zlen buf) = Ok l /\ encode_vstr buf = Ok (l ++ buf ++ [0]).
Proof.
  intros H. assert (Hr : in_range 64 (zlen buf)) by (unfold in_range, zlen in *; lia).
  destruct (vi64_encodes _ Hr) as (l & Hl & _). exists l. split; [assumption|].
  unfold encode_vstr. rewrite (wrap_small 64 (zlen buf)), Hl by assumption. cbn [bind].
  do 2 f_equal. destruct (Z.eqb_spec (zlen buf) 0) as [E|_].
  - unfold zlen in E. now destruct buf.
  - unfold zlen. now rewrite Nat2Z.id, firstn_all.
Qed.

(** The [vstr] round trip in the form the record encodings use. *)
Lemma decode_vstr_encode buf l m r : zlen buf < 2 ^ 64 - 1 ->
  encode_vstr buf = Ok l -> zlen l <= r ->
  decode_vstr {| ip := l ++ m; remain := r |} =
  Ok (buf, {| ip := m; remain := r - zlen l |}).
Proof.
  intros Hb Hl Hr. destruct (encode_vstr_eq buf) as (lv & Hlv & E); [lia|].
  rewrite E in Hl. injection Hl as <-.
  assert (Hrg : in_range 64 (zlen buf)) by (unfold in_range, zlen in *; lia).
  destruct (vi64_encodes _ Hrg) as (l' & Hl' & _ & Hd). rewrite Hlv in Hl'. injection Hl' as <-.
  unfold zlen in Hr. rewrite !length_app in Hr. cbn in Hr.
  unfold decode_vstr, dbind. rewrite <- !app_assoc, Hd by (unfold zlen; lia). cbn [bind].
  unfold in_range in Hrg. rewrite (proj2 (Z.ltb_ge _ _)) by lia.
  rewrite wrap_small by (unfold in_range; unfold zlen in *; lia).
  rewrite need_ok by (unfold zlen in *; lia). cbn [bind ip remain app].
  rewrite (proj2 (Z.eqb_neq _ _)) by (unfold zlen; lia).
  replace (Z.to_nat (zlen buf + 1 - 1)) with (length buf) by (unfold zlen; lia).
  rewrite nth_error_app2, Nat.sub_diag by lia. cbn [nth_error Z.eqb].
  do 3 f_equal.
  - unfold zlen. now rewrite Nat2Z.id, firstn_app_exact.
  - replace (Z.to_nat (zlen buf + 1)) with (length (buf ++ [0])) by
      (rewrite length_app; unfold zlen; cbn; lia).
    change (buf ++ 0 :: m) with (buf ++ [0] ++ m). now rewrite app_assoc, skipn_app_exact.
  - unfold zlen. rewrite !length_app. cbn. lia.
Qed.

(** Length-prefixed strings ([vstr]): any buffer of less than [2^64 - 1]
    bytes is encoded into exactly [encoded_length_vstr] bytes and decoded back
    unchanged, embedded NULs included. *)
Theorem vstr_roundtrip buf rest r :
  zlen buf < 2 ^ 64 - 1 -> encoded_length_vstr (zlen buf) <= r ->
  exists l, encode_vstr buf = Ok l /\ zlen l = encoded_length_vstr (zlen buf) /\
    decode_vstr {| ip := l ++ rest; remain := r |} =
    Ok (buf, {| ip := rest; remain := r - encoded_length_vstr (zlen buf) |}).
Proof.
  intros Hb Hr. destruct (encode_vstr_eq buf) as (lv & Hlv & E); [lia|].
  assert (Hlen : zlen (lv ++ buf ++ [0]) = encoded_length_vstr (zlen buf)).
  { unfold encoded_length_vstr. rewrite <- (encode_vi64_length _ lv); [|split|assumption].
    - unfold zlen. rewrite !length_app. cbn. lia.
    - unfold zlen. lia.
    - lia. }
  exists (lv ++ buf ++ [0]). split; [assumption|]. split; [assumption|].
  rewrite <- Hlen. apply decode_vstr_encode; [assumption|assumption|lia].
Qed.

Lemma vstr_roundtrip_witness :
  exists l, encode_vstr [104; 0; 105] = Ok l /\
    zlen l = encoded_length_vstr (zlen [104; 0; 105]) /\
    decode_vstr {| ip := l ++ [1]; remain := 6 |} =
    Ok ([104; 0; 105], {| ip := [1]; remain := 6 - encoded_length_vstr (zlen [104; 0; 105]) |}).
Proof. apply (vstr_roundtrip [104; 0; 105] [1] 6); vm_compute; intuition discriminate. Defined.

Lemma str16_bytes str : zlen str < 2 ^ 16 -> encode_str16 str = encode_i16 (zlen str) ++ str ++ [0].
Proof.
  intros H. unfold encode_str16. rewrite wrap_small by (unfold in_range, zlen in *; lia).
  f_equal. f_equal. destruct (Z.ltb_spec 0 (zlen str)) as [|H0].
  - unfold zlen. now rewrite Nat2Z.id, firstn_all.
  - unfold zlen in H0. destruct str; [reflexivity|cbn in H0; lia].
Qed.

(** [str16]: a string of less than [2^16] bytes is encoded into
    [encoded_length_str16] bytes and decoded back.  The decoder does not compare
    the decoded length with the counter: when only the two length bytes remain,
    it succeeds for every length and leaves the counter wrapped around to
    [2^64 - (len + 1)]. *)
Theorem str16_behaviour str rest r len :
  zlen str < 2 ^ 16 -> encoded_length_str16 str <= r < 2 ^ 64 -> in_range 16 len ->
  (zlen (encode_str16 str) = encoded_length_str16 str /\
   decode_str16 {| ip := encode_str16 str ++ rest; remain := r |} =
     Ok (str, {| ip := rest; remain := r - encoded_length_str16 str |})) /\
  decode_str16_ptr {| ip := encode_i16 len ++ rest; remain := 2 |} =
    Ok ((rest, len), {| ip := skipn (Z.to_nat (len + 1)) rest; remain := 2 ^ 64 - (len + 1) |}).
Proof.
  unfold encoded_length_str16. intros Hs Hr Hl. rewrite str16_bytes by assumption.
  assert (Hrg : in_range 16 (zlen str)) by (unfold in_range, zlen in *; lia).
  split; [split|].
  - unfold zlen, encode_i16. rewrite !length_app, length_le_bytes. cbn [length]. lia.
  - unfold decode_str16, decode_str16_ptr, dbind. rewrite <- app_assoc.
    rewrite decode_i16_encode by (unfold zlen in *; lia). cbn [bind ip remain].
    rewrite wrap_small by assumption. unfold zlen in *.
    rewrite !length_app, (proj2 (Z.leb_le _ _)) by lia.
    rewrite Nat2Z.id, <- app_assoc, firstn_app_exact. do 3 f_equal.
    + replace (Z.to_nat (Z.of_nat (length str) + 1)) with (length (str ++ [0])) by
        (rewrite length_app; cbn; lia).
      now rewrite app_assoc, skipn_app_exact.
    + rewrite wrap_small by (unfold in_range; lia). lia.
  - unfold decode_str16_ptr, dbind. rewrite decode_i16_encode by lia. cbn [bind ip remain].
    rewrite wrap_small by assumption. do 3 f_equal. unfold in_range in Hl.
    unfold wrap. rewrite <- (Z_mod_plus_full _ 1), Z.mod_small by lia. lia.
Qed.

Lemma str16_behaviour_witness :
  (zlen (encode_str16 [104; 105]) = encoded_length_str16 [104; 105] /\
   decode_str16 {| ip := encode_str16 [104; 105] ++ [1]; remain := 9 |} =
     Ok ([104; 105], {| ip := [1]; remain := 9 - encoded_length_str16 [104; 105] |})) /\
  decode_str16_ptr {| ip := encode_i16 40 ++ [1]; remain := 2 |} =
    Ok (([1], 40), {| ip := skipn (Z.to_nat (40 + 1)) [1]; remain := 2 ^ 64 - (40 + 1) |}).
Proof. apply (str16_behaviour [104; 105] [1] 9 40); vm_compute; intuition discriminate. Defined.

(** [bytes32]: the data come back, but the counter is decreased by the
    length twice, so it no longer says how many bytes are left and wraps around
    when the array fills more than half of the message. *)
Theorem bytes32_counter data rest r :
  zlen data < 2 ^ 32 -> 4 + zlen data <= r < 2 ^ 64 ->
  decode_bytes32 {| ip := encode_bytes32 data ++ rest; remain := r |} =
    Ok (data, {| ip := rest; remain := u64 (r - 4 - 2 * zlen data) |}).
Proof.
  intros Hd Hr. unfold decode_bytes32, encode_bytes32, dbind. rewrite <- app_assoc.
  rewrite decode_i32_encode by (unfold zlen in *; lia). cbn [bind ip remain].
  rewrite wrap_small by (unfold in_range, zlen in *; lia).
  rewrite need_ok by lia. cbn [bind ip remain].
  unfold zlen. rewrite Nat2Z.id, firstn_app_exact, skipn_app_exact.
  do 4 f_equal. lia.
Qed.

Lemma bytes32_counter_witness :
  decode_bytes32 {| ip := encode_bytes32 [1; 2; 3] ++ []; remain := 7 |} =
    Ok ([1; 2; 3], {| ip := []; remain := u64 (7 - 4 - 2 * zlen [1; 2; 3]) |}).
Proof. apply (bytes32_counter [1; 2; 3] [] 7); vm_compute; intuition discriminate. Defined.
