(* ===== verification/Checksum.v ===== *)
(** * Checksums

    [Common/Checksum.cc]: [fletcher32], [fletcher32a], [adler32],
    [adler32_update] and the unrolled and chunked loops they share, with the
    32-bit sums wrapping as [uint32_t] does.  The specification is the pair of
    running sums over unbounded integers, reduced at the end.  [crc32] and
    [crc32_update] only call zlib and are not modelled. *)
From S2P Require Import Prelude Errors Serialization.
From Stdlib Require Import ZArith Lia List Bool.
Import ListNotations.
Open Scope Z_scope.
Open Scope result_scope.

(** ** The loops

    The state is the data pointer and the two sums.  [fetch] reads the unit of
    data at the pointer and advances it. *)

Record sums := { data : list Z; sum1 : Z; sum2 : Z }.

Section Loops.
Variable fetch : list Z -> result (Z * list Z).

(** [HT_F32_DO1] and its variants. *)
Definition DO1 (s : sums) : result sums :=
  '(x, rest) <- fetch (data s) ;;
  let a := u32 (sum1 s + x) in
  Ok {| data := rest; sum1 := a; sum2 := u32 (sum2 s + a) |}.

Fixpoint do_n (n : nat) (s : sums) : result sums :=
  match n with
  | O => Ok s
  | S n' => s' <- DO1 s ;; do_n n' s'
  end.

(** [HT_F32_DO16]: DO2, DO4, DO8 and DO16 are nested repetitions. *)
Definition DO2 (s : sums) := s' <- DO1 s ;; DO1 s'.
Definition DO4 (s : sums) := s' <- DO2 s ;; DO2 s'.
Definition DO8 (s : sums) := s' <- DO4 s ;; DO4 s'.
Definition DO16 (s : sums) := s' <- DO8 s ;; DO8 s'.

(** [if (tlen >= 16) do ... while (tlen >= 16); if (tlen != 0) do ... while (--tlen)]. *)
Fixpoint unrolled (fuel tlen : nat) (s : sums) : result sums :=
  match fuel with
  | O => do_n tlen s
  | S fuel' =>
      if (16 <=? tlen)%nat then s' <- DO16 s ;; unrolled fuel' (tlen - 16) s'
      else do_n tlen s
  end.

(** At most [tlen] iterations. *)
Definition unrolled_loop (tlen : nat) (s : sums) : result sums := unrolled tlen tlen s.

Variable max_chunk : nat.
Variable chunk : nat -> sums -> result sums.
Variable reduce : Z -> Z.

(** [while (len) { tlen = len > max ? max : len; len -= tlen; ...; reduce }]. *)
Fixpoint chunks (fuel len : nat) (s : sums) : result sums :=
  match fuel with
  | O => if (len =? 0)%nat then Ok s else Fault
  | S fuel' =>
      if (len =? 0)%nat then Ok s
      else let tlen := if (max_chunk <? len)%nat then max_chunk else len in
           s' <- chunk tlen s ;;
           chunks fuel' (len - tlen)
             {| data := data s'; sum1 := reduce (sum1 s'); sum2 := reduce (sum2 s') |}
  end.
End Loops.

(** ** Fletcher *)

(** [((uint16_t)buf[i] << 8) | buf[i+1]]. *)
Definition fetch_be16 (d : list Z) : result (Z * list Z) :=
  match d with
  | hi :: lo :: rest => Ok (Z.lor (Z.shiftl hi 8) lo, rest)
  | _ => Fault
  end.

(** [ntohs] of the word at the pointer, on a little-endian machine. *)
Definition ntohs (x : Z) : Z := Z.lor (u16 (Z.shiftl x 8)) (Z.shiftr x 8).
Definition fetch_ntohs (d : list Z) : result (Z * list Z) :=
  match d with
  | x :: rest => Ok (ntohs x, rest)
  | [] => Fault
  end.

(** [(sum & 0xffff) + (sum >> 16)]. *)
Definition fold16 (s : Z) : Z := u32 (Z.land s 0xffff + Z.shiftr s 16).

Definition fletcher_result (s1 s2 : Z) : Z := Z.lor (u32 (Z.shiftl s2 16)) s1.

Definition fletcher32 (data8 : list Z) (len8 : nat) : result Z :=
  let len := Nat.div len8 2 in
  s <- chunks (Z.to_nat 360) (unrolled_loop fetch_be16) fold16 len len
         {| data := data8; sum1 := 0xffff; sum2 := 0xffff |} ;;
  s <- (if Nat.odd len8 then
          match data s with
          | [] => Fault
          | b :: _ =>
              let s1 := u32 (sum1 s + Z.shiftl b 8) in
              let s2 := u32 (sum2 s + s1) in
              Ok {| data := data s; sum1 := fold16 s1; sum2 := fold16 s2 |}
          end
        else Ok s) ;;
  Ok (fletcher_result (fold16 (sum1 s)) (fold16 (sum2 s))).

Definition fletcher32a (data16 : list Z) (len : nat) : result Z :=
  s <- chunks (Z.to_nat 360) (unrolled_loop fetch_ntohs) fold16 len len
         {| data := data16; sum1 := 0xffff; sum2 := 0xffff |} ;;
  Ok (fletcher_result (fold16 (sum1 s)) (fold16 (sum2 s))).

(** ** Adler *)

Definition MOD_ADLER : Z := 65521.

Definition fetch_byte (d : list Z) : result (Z * list Z) :=
  match d with
  | b :: rest => Ok (b, rest)
  | [] => Fault
  end.

(** [(a & 0xffff) + (a >> 16) * (65536 - MOD_ADLER)]. *)
Definition fold_wp (a : Z) : Z :=
  u32 (Z.land a 0xffff + u32 (Z.shiftr a 16 * (65536 - MOD_ADLER))).

Definition sub_once (a : Z) : Z := if MOD_ADLER <=? a then a - MOD_ADLER else a.

Definition adler32_update_wp (adler : Z) (data8 : list Z) (len : nat) : result Z :=
  let a := Z.land adler 0xffff in
  let b := Z.land (Z.shiftr adler 16) 0xffff in
  s <- chunks (Z.to_nat 5550) (do_n fetch_byte) fold_wp len len
         {| data := data8; sum1 := a; sum2 := b |} ;;
  let a := sub_once (sum1 s) in
  let b := sub_once (fold_wp (sum2 s)) in
  Ok (Z.lor (u32 (Z.shiftl b 16)) a).

Definition adler32_wp (d : list Z) (len : nat) : result Z := adler32_update_wp 1 d len.

Definition mod_adler (x : Z) : Z := x mod MOD_ADLER.

Definition adler32_update (adler : Z) (data8 : list Z) (len : nat) : result Z :=
  let a := Z.land adler 0xffff in
  let b := Z.land (Z.shiftr adler 16) 0xffff in
  s <- chunks (Z.to_nat 5552) (unrolled_loop fetch_byte) mod_adler len len
         {| data := data8; sum1 := a; sum2 := b |} ;;
  Ok (Z.lor (u32 (Z.shiftl (sum2 s) 16)) (sum1 s)).

Definition adler32 (d : list Z) (len : nat) : result Z := adler32_update 1 d len.

(** ** Specification: running sums over the integers *)

Definition accZ (s : Z * Z) (x : Z) : Z * Z := (fst s + x, snd s + (fst s + x)).

(** The big-endian 16-bit words of a byte string, an odd last byte padded. *)
Fixpoint be_words (l : list Z) : list Z :=
  match l with
  | hi :: lo :: rest => (256 * hi + lo) :: be_words rest
  | [hi] => [256 * hi]
  | [] => []
  end.

(** The representative of a residue modulo 65535 in [1, 65535]. *)
Definition ones_complement (x : Z) : Z :=
  let m := x mod 65535 in if m =? 0 then 65535 else m.

Definition fletcher32_spec (words : list Z) : Z :=
  let s := fold_left accZ words (65535, 65535) in
  ones_complement (snd s) * 65536 + ones_complement (fst s).

Definition adler32_spec (a b : Z) (bytes : list Z) : Z :=
  let s := fold_left accZ bytes (a, b) in
  (snd s mod MOD_ADLER) * 65536 + fst s mod MOD_ADLER.

(** ** The loops compute the running sums *)

Section LoopLemmas.
Variable fetch : list Z -> result (Z * list Z).

Lemma do_n_add n m s : do_n fetch (n + m) s = (s' <- do_n fetch n s ;; do_n fetch m s').
Proof.
  revert s. induction n as [|n IH]; intros s; cbn [Nat.add do_n]; [reflexivity|].
  destruct (DO1 fetch s); cbn; auto.
Qed.

Lemma DO16_do_n s : DO16 fetch s = do_n fetch 16 s.
Proof.
  assert (E2 : forall t, DO2 fetch t = do_n fetch 2 t).
  { intros t. unfold DO2. cbn [do_n]. destruct (DO1 fetch t) as [t'| |]; cbn; try reflexivity.
    now destruct (DO1 fetch t'). }
  assert (E4 : forall t, DO4 fetch t = do_n fetch 4 t).
  { intros t. unfold DO4. change 4%nat with (2 + 2)%nat. rewrite do_n_add, E2.
    destruct (do_n fetch 2 t); cbn -[do_n]; auto. }
  assert (E8 : forall t, DO8 fetch t = do_n fetch 8 t).
  { intros t. unfold DO8. change 8%nat with (4 + 4)%nat. rewrite do_n_add, E4.
    destruct (do_n fetch 4 t); cbn -[do_n]; auto. }
  unfold DO16. change 16%nat with (8 + 8)%nat. rewrite do_n_add, E8.
  destruct (do_n fetch 8 s); cbn -[do_n]; auto.
Qed.

Lemma unrolled_do_n fuel tlen s : unrolled fetch fuel tlen s = do_n fetch tlen s.
Proof.
  revert tlen s. induction fuel as [|fuel IH]; intros tlen s; cbn [unrolled]; [reflexivity|].
  destruct (Nat.leb_spec 16 tlen) as [H|]; [|reflexivity].
  transitivity (do_n fetch (16 + (tlen - 16)) s); [|f_equal; lia].
  rewrite do_n_add, DO16_do_n.
  destruct (do_n fetch 16 s); cbn -[do_n]; auto.
Qed.
End LoopLemmas.

(** A list of units read by [fetch] one after the other from [d]. *)
Inductive fetches (fetch : list Z -> result (Z * list Z)) : list Z -> list Z -> list Z -> Prop :=
| fetches_nil d : fetches fetch d [] d
| fetches_cons d x d' xs d'' :
    fetch d = Ok (x, d') -> fetches fetch d' xs d'' -> fetches fetch d (x :: xs) d''.

Lemma fetches_app fetch d xs ys d'' : fetches fetch d (xs ++ ys) d'' ->
  exists d', fetches fetch d xs d' /\ fetches fetch d' ys d''.
Proof.
  revert d. induction xs as [|x xs IH]; intros d H; cbn in H.
  - exists d. split; [constructor|assumption].
  - inv H. destruct (IH _ H5) as (d1 & H1 & H2). exists d1. split; [|assumption].
    econstructor; eauto.
Qed.

(** The triangle number the second sum is bounded with. *)
Definition tri (n : Z) : Z := n * (n + 1) / 2.

Lemma tri_succ n : tri (n + 1) = tri n + (n + 1).
Proof.
  unfold tri. replace ((n + 1) * (n + 1 + 1)) with (n * (n + 1) + (n + 1) * 2) by ring.
  now rewrite Z.div_add by lia.
Qed.

Lemma tri_nonneg n : 0 <= n -> 0 <= tri n.
Proof. intros H. apply Z.div_pos; nia. Qed.

Lemma accZ_bound X xs a b : Forall (fun x => 0 <= x <= X) xs -> 0 <= a -> 0 <= b ->
  let s := fold_left accZ xs (a, b) in
  a <= fst s <= a + zlen xs * X /\ b <= snd s <= b + zlen xs * a + X * tri (zlen xs).
Proof.
  intros H. revert a b. unfold zlen. induction H as [|x xs Hx Hxs IH]; intros a b Ha Hb.
  - cbn. lia.
  - cbn [fold_left accZ fst snd length].
    specialize (IH (a + x) (b + (a + x)) ltac:(lia) ltac:(lia)). cbn zeta in *.
    change (accZ (a, b) x) with (a + x, b + (a + x)).
    rewrite Nat2Z.inj_succ, <- Z.add_1_r, tri_succ. nia.
Qed.

(** Without overflow in the bound, the 32-bit loop is the running sum. *)
Lemma do_n_accZ fetch X xs : forall d d' a b, fetches fetch d xs d' ->
  Forall (fun x => 0 <= x <= X) xs -> 0 <= a -> 0 <= b ->
  a + zlen xs * X < 2 ^ 32 -> b + zlen xs * a + X * tri (zlen xs) < 2 ^ 32 ->
  do_n fetch (length xs) {| data := d; sum1 := a; sum2 := b |} =
  let s := fold_left accZ xs (a, b) in Ok {| data := d'; sum1 := fst s; sum2 := snd s |}.
Proof.
  unfold zlen. induction xs as [|x xs IH]; intros d d' a b Hf HX Ha Hb H1 H2.
  - inv Hf. reflexivity.
  - inv Hf. inv HX. cbn [do_n length]. unfold DO1. cbn [data sum1 sum2].
    rewrite H4. cbn [bind].
    cbn [length] in H1, H2. rewrite Nat2Z.inj_succ, <- Z.add_1_r in H1, H2.
    rewrite tri_succ in H2.
    pose proof (tri_nonneg (Z.of_nat (length xs)) ltac:(lia)).
    set (n := Z.of_nat (length xs)) in *. assert (0 <= n) by lia.
    assert (0 <= n * a) by nia. assert (0 <= n * X) by nia. assert (0 <= X * tri n) by nia.
    assert (n * x <= n * X) by nia.
    rewrite (wrap_small 32 (a + x)) by (unfold in_range; nia).
    rewrite (wrap_small 32 (b + (a + x))) by (unfold in_range; nia).
    rewrite (IH d'0 d') by (assumption || (fold n; nia)). reflexivity.
Qed.

(** Running sums respect congruence. *)
Definition congr (M x y : Z) : Prop := x mod M = y mod M.

Lemma congr_add M x y x' y' : congr M x x' -> congr M y y' -> congr M (x + y) (x' + y').
Proof. unfold congr. intros H1 H2. now rewrite (Zplus_mod x), H1, H2, <- Zplus_mod. Qed.

Lemma accZ_congr M xs : forall a b a' b', congr M a a' -> congr M b b' ->
  congr M (fst (fold_left accZ xs (a, b))) (fst (fold_left accZ xs (a', b'))) /\
  congr M (snd (fold_left accZ xs (a, b))) (snd (fold_left accZ xs (a', b'))).
Proof.
  induction xs as [|x xs IH]; intros a b a' b' Ha Hb; [now split|].
  cbn [fold_left accZ fst snd]. change (accZ (a, b) x) with (a + x, b + (a + x)).
  change (accZ (a', b') x) with (a' + x, b' + (a' + x)).
  apply IH; repeat apply congr_add; assumption || reflexivity.
Qed.

(** The chunked loop: one chunk preserves the bounds [A] and [B] and the
    congruence, so the whole loop computes the sums modulo [M]. *)
Section ChunkLemma.
Variables (fetch : list Z -> result (Z * list Z)) (max_chunk : nat).
Variables (chunk : nat -> sums -> result sums) (reduce : Z -> Z).
Variables (M X L A B : Z).
Hypothesis max_pos : (0 < max_chunk)%nat.
Hypothesis chunk_do_n : forall n s, chunk n s = do_n fetch n s.
Hypothesis reduce_congr : forall x, 0 <= x < 2 ^ 32 -> congr M (reduce x) x.
Hypothesis reduce_A : forall x, L <= x <= A + Z.of_nat max_chunk * X -> L <= reduce x <= A.
Hypothesis reduce_B : forall x, L <= x < 2 ^ 32 -> L <= reduce x <= B.
Hypothesis L_nonneg : 0 <= L.
Hypothesis X_nonneg : 0 <= X.
Hypothesis A_ok : A + Z.of_nat max_chunk * X < 2 ^ 32.
Hypothesis B_ok : B + Z.of_nat max_chunk * A + X * tri (Z.of_nat max_chunk) < 2 ^ 32.

Lemma tri_mono n m : 0 <= n <= m -> tri n <= tri m.
Proof. intros H. apply Z.div_le_mono; nia. Qed.

Lemma one_chunk xs d d' a b : fetches fetch d xs d' -> (length xs <= max_chunk)%nat ->
  Forall (fun x => 0 <= x <= X) xs -> L <= a <= A -> L <= b <= B ->
  exists a' b', chunk (length xs) {| data := d; sum1 := a; sum2 := b |} =
    Ok {| data := d'; sum1 := a'; sum2 := b' |} /\ (a', b') = fold_left accZ xs (a, b) /\
    L <= reduce a' <= A /\ L <= reduce b' <= B /\ congr M (reduce a') a' /\ congr M (reduce b') b'.
Proof.
  intros Hf Hl HX Ha Hb. rewrite chunk_do_n.
  pose proof (accZ_bound X xs a b HX ltac:(lia) ltac:(lia)) as Hbd. cbn zeta in Hbd.
  pose proof (tri_mono (zlen xs) (Z.of_nat max_chunk) ltac:(unfold zlen; lia)) as Htri.
  assert (zlen xs <= Z.of_nat max_chunk) by (unfold zlen; lia).
  assert (0 <= zlen xs) by (unfold zlen; lia).
  assert (H1 : a + zlen xs * X <= A + Z.of_nat max_chunk * X) by nia.
  assert (H2 : b + zlen xs * a + X * tri (zlen xs) < 2 ^ 32) by nia.
  rewrite (do_n_accZ fetch X xs d d') by (assumption || lia). cbn zeta.
  destruct (fold_left accZ xs (a, b)) as [a' b'] eqn:E. cbn [fst snd] in *.
  exists a', b'. split; [reflexivity|]. split; [reflexivity|].
  split; [apply reduce_A; lia|]. split; [apply reduce_B; lia|].
  split; apply reduce_congr; lia.
Qed.

Lemma chunks_spec fuel : forall xs d d' a b, fetches fetch d xs d' ->
  (length xs <= fuel)%nat -> Forall (fun x => 0 <= x <= X) xs -> L <= a <= A -> L <= b <= B ->
  exists a' b', chunks max_chunk chunk reduce fuel (length xs)
      {| data := d; sum1 := a; sum2 := b |} = Ok {| data := d'; sum1 := a'; sum2 := b' |} /\
    L <= a' <= A /\ L <= b' <= B /\
    congr M a' (fst (fold_left accZ xs (a, b))) /\ congr M b' (snd (fold_left accZ xs (a, b))).
Proof.
  induction fuel as [|fuel IH]; intros xs d d' a b Hf Hl HX Ha Hb; cbn [chunks];
    (destruct (Nat.eqb_spec (length xs) 0) as [E|E];
     [apply length_zero_iff_nil in E as ->; inv Hf; exists a, b; repeat split; tauto || lia|]);
    [lia|].
  set (tlen := if (max_chunk <? length xs)%nat then max_chunk else length xs).
  assert (Ht : (0 < tlen <= max_chunk)%nat /\ (tlen <= length xs)%nat).
  { subst tlen. destruct (Nat.ltb_spec max_chunk (length xs)); lia. }
  rewrite <- (firstn_skipn tlen xs) in Hf, HX. apply Forall_app in HX as [HX1 HX2].
  apply fetches_app in Hf as (d1 & Hf1 & Hf2).
  pose proof (length_firstn tlen xs) as L1. pose proof (length_skipn tlen xs) as L2.
  destruct (one_chunk _ _ _ a b Hf1) as (a1 & b1 & Hc & Hacc & HA & HB & Ca & Cb);
    [lia|assumption|assumption|assumption|].
  replace (length (firstn tlen xs)) with tlen in Hc by lia. rewrite Hc. cbn [bind data sum1 sum2].
  rewrite <- L2.
  destruct (IH _ _ _ (reduce a1) (reduce b1) Hf2) as (a2 & b2 & Hr & H1 & H2 & H3 & H4);
    [lia|assumption|assumption|assumption|].
  exists a2, b2. repeat split; try assumption || lia.
  all: rewrite <- (firstn_skipn tlen xs), fold_left_app, <- Hacc.
  all: destruct (accZ_congr M (skipn tlen xs) _ _ _ _ Ca Cb) as [G1 G2].
  - unfold congr in *. now rewrite H3.
  - unfold congr in *. now rewrite H4.
Qed.
End ChunkLemma.

(** ** The reductions *)

Lemma land_ffff x : Z.land x 0xffff = x mod 65536.
Proof. exact (Z.land_ones x 16 ltac:(lia)). Qed.

Lemma fold16_eq x : 0 <= x < 2 ^ 32 -> fold16 x = x mod 65536 + x / 65536.
Proof.
  intros H. unfold fold16. rewrite land_ffff, Z.shiftr_div_pow2 by lia. change (2 ^ 16) with 65536.
  apply wrap_small. unfold in_range.
  pose proof (Z.mod_pos_bound x 65536). pose proof (Z.div_mod x 65536). nia.
Qed.

Lemma fold16_congr x : 0 <= x < 2 ^ 32 -> congr 65535 (fold16 x) x.
Proof.
  intros H. rewrite fold16_eq by assumption. unfold congr.
  pose proof (Z.div_mod x 65536 ltac:(lia)) as E.
  replace x with (x mod 65536 + x / 65536 + (x / 65536) * 65535) at 3 by lia.
  now rewrite Z.mod_add.
Qed.

(** Arithmetic on quotient and remainder by a constant. *)
Ltac div_lia x k :=
  pose proof (Z.mod_pos_bound x k ltac:(lia)); pose proof (Z.div_mod x k ltac:(lia)); nia.

Lemma fold16_A x : 1 <= x <= 65896 + 360 * 65535 -> 1 <= fold16 x <= 65896.
Proof. intros H. rewrite fold16_eq by lia. div_lia x 65536. Qed.

Lemma fold16_B x : 1 <= x < 2 ^ 32 -> 1 <= fold16 x <= 131070.
Proof. intros H. rewrite fold16_eq by lia. div_lia x 65536. Qed.

Lemma ones_complement_congr x y : congr 65535 x y -> ones_complement x = ones_complement y.
Proof. unfold congr, ones_complement. now intros ->. Qed.

Lemma fold16_final x : 1 <= x <= 131070 -> fold16 x = ones_complement x.
Proof.
  intros H. rewrite fold16_eq by lia.
  destruct (Z.le_gt_cases x 65535) as [Hx|Hx].
  - rewrite Z.mod_small, Z.div_small by lia. unfold ones_complement.
    destruct (Z.eq_dec x 65535) as [->|Hne]; [reflexivity|].
    rewrite (Z.mod_small x) by lia. destruct (Z.eqb_spec x 0); lia.
  - assert (E : x mod 65536 = x - 65536 /\ x / 65536 = 1) by div_lia x 65536.
    destruct E as [-> ->]. rewrite (ones_complement_congr x (x - 65535)).
    2: { unfold congr. now rewrite <- (Z_mod_plus_full (x - 65535) 1), Z.mul_1_l, Z.sub_add. }
    unfold ones_complement. destruct (Z.eq_dec x 131070) as [->|Hne]; [reflexivity|].
    rewrite (Z.mod_small (x - 65535)) by lia. destruct (Z.eqb_spec (x - 65535) 0); lia.
Qed.

Lemma ones_complement_range x : 1 <= ones_complement x <= 65535.
Proof.
  unfold ones_complement. pose proof (Z.mod_pos_bound x 65535 ltac:(lia)).
  destruct (Z.eqb_spec (x mod 65535) 0); lia.
Qed.

Lemma pack16 hi lo : 0 <= hi <= 65535 -> 0 <= lo <= 65535 ->
  Z.lor (u32 (Z.shiftl hi 16)) lo = hi * 65536 + lo.
Proof.
  intros Hh Hl. rewrite wrap_small by (unfold in_range; rewrite Z.shiftl_mul_pow2 by lia; lia).
  rewrite Z.lor_comm, lor_low_shift by (unfold in_range; lia). change (2 ^ 16) with 65536. lia.
Qed.

Lemma fold_wp_eq x : 0 <= x < 2 ^ 32 -> fold_wp x = x mod 65536 + x / 65536 * 15.
Proof.
  intros H. unfold fold_wp, MOD_ADLER. rewrite land_ffff, Z.shiftr_div_pow2 by lia.
  change (2 ^ 16) with 65536. change (65536 - 65521) with 15.
  assert (0 <= x / 65536 <= 65535) by div_lia x 65536.
  pose proof (Z.mod_pos_bound x 65536 ltac:(lia)).
  rewrite !wrap_small; unfold in_range; [reflexivity|lia|rewrite wrap_small; unfold in_range; lia].
Qed.

Lemma fold_wp_congr x : 0 <= x < 2 ^ 32 -> congr MOD_ADLER (fold_wp x) x.
Proof.
  intros H. rewrite fold_wp_eq by assumption. unfold congr, MOD_ADLER.
  pose proof (Z.div_mod x 65536 ltac:(lia)) as E.
  replace x with (x mod 65536 + x / 65536 * 15 + (x / 65536) * 65521) at 3 by lia.
  now rewrite Z.mod_add.
Qed.

Lemma fold_wp_A x : 0 <= x <= 65850 + 5550 * 255 -> 0 <= fold_wp x <= 65850.
Proof. intros H. rewrite fold_wp_eq by lia. div_lia x 65536. Qed.

Lemma fold_wp_B x : 0 <= x < 2 ^ 32 -> 0 <= fold_wp x <= 1048560.
Proof. intros H. rewrite fold_wp_eq by lia. div_lia x 65536. Qed.

Lemma sub_once_mod x : 0 <= x < 2 * MOD_ADLER -> sub_once x = x mod MOD_ADLER.
Proof.
  unfold sub_once, MOD_ADLER. intros H. destruct (Z.leb_spec 65521 x).
  - rewrite <- (Z.mod_small (x - 65521) 65521) by lia.
    now rewrite <- (Z_mod_plus_full (x - 65521) 1), Z.mul_1_l, Z.sub_add.
  - symmetry. apply Z.mod_small. lia.
Qed.

(** ** The data the loops read *)

Lemma be16_value hi lo : is_byte hi -> is_byte lo ->
  Z.lor (Z.shiftl hi 8) lo = 256 * hi + lo /\ 0 <= 256 * hi + lo <= 65535.
Proof.
  unfold is_byte, in_range. intros Hh Hl. rewrite Z.lor_comm, lor_low_shift by (unfold in_range; lia).
  lia.
Qed.

Lemma fetches_be16 n : forall d rest, length d = (2 * n)%nat -> wf_bytes d ->
  fetches fetch_be16 (d ++ rest) (be_words d) rest /\ length (be_words d) = n /\
  Forall (fun x => 0 <= x <= 65535) (be_words d).
Proof.
  induction n as [|n IH]; intros d rest Hl Hw.
  - apply length_zero_iff_nil in Hl as ->. repeat split; constructor.
  - destruct d as [|hi [|lo d]]; cbn in Hl; try lia. inv Hw. inv H2.
    destruct (be16_value hi lo) as [E R]; [assumption|assumption|].
    destruct (IH d rest) as (Hf & Hn & HX); [lia|assumption|].
    cbn [be_words length app]. repeat split; [|now rewrite Hn|constructor; assumption].
    econstructor; [|exact Hf]. unfold fetch_be16. now rewrite E.
Qed.

Lemma be_words_snoc n d b : length d = (2 * n)%nat ->
  be_words (d ++ [b]) = be_words d ++ [256 * b].
Proof.
  revert d. induction n as [|n IH]; intros d Hl.
  - now apply length_zero_iff_nil in Hl as ->.
  - destruct d as [|hi [|lo d]]; cbn in Hl; try lia. cbn. rewrite IH by lia. reflexivity.
Qed.

Lemma fletcher_chunks fetch xs d d' fuel : fetches fetch d xs d' -> (length xs <= fuel)%nat ->
  Forall (fun x => 0 <= x <= 65535) xs ->
  exists a b, chunks (Z.to_nat 360) (unrolled_loop fetch) fold16 fuel (length xs)
      {| data := d; sum1 := 0xffff; sum2 := 0xffff |} = Ok {| data := d'; sum1 := a; sum2 := b |} /\
    1 <= a <= 65896 /\ 1 <= b <= 131070 /\
    congr 65535 a (fst (fold_left accZ xs (65535, 65535))) /\
    congr 65535 b (snd (fold_left accZ xs (65535, 65535))).
Proof.
  intros Hf Hl HX.
  apply (chunks_spec fetch (Z.to_nat 360) (unrolled_loop fetch) fold16 65535 65535 1 65896 131070);
    try assumption; try lia.
  - intros n s. apply unrolled_do_n.
  - exact fold16_congr.
  - intros x Hx. apply fold16_A. lia.
  - exact fold16_B.
  - vm_compute. reflexivity.
Qed.

Lemma fletcher_pack a b s1 s2 : 1 <= a <= 131070 -> 1 <= b <= 131070 ->
  congr 65535 a s1 -> congr 65535 b s2 ->
  fletcher_result (fold16 a) (fold16 b) = ones_complement s2 * 65536 + ones_complement s1.
Proof.
  intros Ha Hb Ca Cb. rewrite !fold16_final by assumption.
  rewrite (ones_complement_congr a s1), (ones_complement_congr b s2) by assumption.
  pose proof (ones_complement_range s1). pose proof (ones_complement_range s2).
  apply pack16; lia.
Qed.

Lemma fletcher32_app d rest :
  wf_bytes d -> fletcher32 (d ++ rest) (length d) = Ok (fletcher32_spec (be_words d)).
Proof.
  intros Hw. unfold fletcher32, fletcher32_spec.
  destruct (Nat.Even_or_Odd (length d)) as [[n Hn]|[n Hn]].
  - replace (Nat.div (length d) 2) with n by (rewrite Hn, Nat.mul_comm, Nat.div_mul; lia).
    replace (Nat.odd (length d)) with false by
      (rewrite Hn; symmetry; rewrite Nat.odd_mul; reflexivity).
    destruct (fetches_be16 n d rest Hn Hw) as (Hf & Hl & HX).
    destruct (fletcher_chunks _ _ _ _ n Hf) as (a & b & E & Ha & Hb & Ca & Cb); [lia|assumption|].
    rewrite Hl in E. rewrite E. cbn [bind sum1 sum2]. f_equal. apply fletcher_pack; lia || assumption.
  - destruct (exists_last (l := d)) as (d0 & x & ->); [intros ->; cbn in Hn; lia|].
    rewrite length_app in *. cbn [length] in *. rewrite <- app_assoc. cbn [app]. assert (Hl0 : length d0 = (2 * n)%nat) by lia.
    apply wf_bytes_app in Hw as [Hw Hx]. inv Hx. clear H2. unfold is_byte, in_range in H1.
    rewrite (be_words_snoc n), fold_left_app by assumption.
    replace (Nat.div (length d0 + 1) 2) with n by
      (rewrite Hl0, Nat.add_comm, Nat.mul_comm, Nat.div_add by lia; reflexivity).
    replace (Nat.odd (length d0 + 1)) with true by
      (rewrite Nat.add_1_r, Nat.odd_succ, Hl0; symmetry; rewrite Nat.even_mul; reflexivity).
    destruct (fetches_be16 n d0 (x :: rest) Hl0 Hw) as (Hf & Hl & HX).
    destruct (fletcher_chunks _ _ _ _ n Hf) as (a & b & E & Ha & Hb & Ca & Cb); [lia|assumption|].
    rewrite Hl in E. rewrite E. cbn [bind data sum1 sum2]. f_equal.
    destruct (fold_left accZ (be_words d0) (65535, 65535)) as [t1 t2]. cbn [fold_left accZ fst snd] in *.
    rewrite Z.shiftl_mul_pow2 by lia. change (2 ^ 8) with 256. change (2 ^ 8) with 256 in H1.
    rewrite !(wrap_small 32) by (unfold in_range; rewrite ?wrap_small by (unfold in_range; lia); lia).
    assert (C1 : congr 65535 (a + x * 256) (t1 + 256 * x)) by
      (rewrite Z.mul_comm; apply congr_add; [assumption|reflexivity]).
    pose proof (fold16_B (a + x * 256) ltac:(lia)). pose proof (fold16_B (b + (a + x * 256)) ltac:(lia)).
    apply fletcher_pack; try assumption.
    + unfold congr in *. now rewrite fold16_congr by lia.
    + unfold congr. rewrite fold16_congr by lia. now apply congr_add.
Qed.

Lemma fletcher32_eq d :
  wf_bytes d -> fletcher32 d (length d) = Ok (fletcher32_spec (be_words d)).
Proof. intros Hw. rewrite <- (app_nil_r d) at 1. now apply fletcher32_app. Qed.

(** [fletcher32] on a buffer of any length: the unrolled loops in chunks of
    360 words never overflow 32 bits (the bound the comment in the code claims),
    never read outside the buffer, and give the Fletcher checksum, that is the
    two running sums over the big-endian words, an odd last byte padded, reduced
    modulo 65535 into [1, 65535]. *)
Theorem fletcher32_correct d :
  wf_bytes d -> fletcher32 d (length d) = Ok (fletcher32_spec (be_words d)).
Proof. exact (fletcher32_eq d). Qed.

Lemma fletcher32_correct_witness :
  fletcher32 [1; 2; 255; 255; 9] (length [1; 2; 255; 255; 9]) =
  Ok (fletcher32_spec (be_words [1; 2; 255; 255; 9])).
Proof.
  apply (fletcher32_correct [1; 2; 255; 255; 9]).
  repeat constructor; vm_compute; intuition discriminate.
Defined.

(** ** Adler *)

Lemma fetches_bytes d rest : fetches fetch_byte (d ++ rest) d rest.
Proof. induction d; econstructor; eauto. reflexivity. Qed.

Lemma bytes_le_255 d : wf_bytes d -> Forall (fun x => 0 <= x <= 255) d.
Proof. apply Forall_impl. unfold is_byte, in_range. intros a H. lia. Qed.

Lemma split_adler a b : 0 <= a <= 65535 -> 0 <= b <= 65535 ->
  Z.land (b * 65536 + a) 0xffff = a /\ Z.land (Z.shiftr (b * 65536 + a) 16) 0xffff = b.
Proof.
  intros Ha Hb. rewrite !land_ffff, Z.shiftr_div_pow2 by lia. change (2 ^ 16) with 65536.
  rewrite Z.add_comm, Z.mod_add, Z.div_add, (Z.div_small a) by lia.
  split; apply Z.mod_small; lia.
Qed.

Lemma unpack_words x y : 0 <= x < 65536 ->
  (y * 65536 + x) mod 65536 = x /\ (y * 65536 + x) / 65536 = y.
Proof.
  intros H. rewrite Z.add_comm, Z.mod_add, Z.div_add, Z.mod_small, Z.div_small by lia. lia.
Qed.

Lemma mod_adler_range x : 0 <= x mod MOD_ADLER <= 65520.
Proof. unfold MOD_ADLER. pose proof (Z.mod_pos_bound x 65521 ltac:(lia)). lia. Qed.

Lemma mod_mod_adler x y : congr MOD_ADLER x y -> 0 <= x < MOD_ADLER -> x = y mod MOD_ADLER.
Proof. unfold congr. intros <- H. symmetry. now apply Z.mod_small. Qed.

Lemma chunks_mod_adler fuel xs d d' a b : fetches fetch_byte d xs d' -> (length xs <= fuel)%nat ->
  wf_bytes xs -> 0 <= a <= 65520 -> 0 <= b <= 65520 ->
  exists a' b', chunks (Z.to_nat 5552) (unrolled_loop fetch_byte) mod_adler fuel (length xs)
      {| data := d; sum1 := a; sum2 := b |} = Ok {| data := d'; sum1 := a'; sum2 := b' |} /\
    0 <= a' <= 65520 /\ 0 <= b' <= 65520 /\
    congr MOD_ADLER a' (fst (fold_left accZ xs (a, b))) /\
    congr MOD_ADLER b' (snd (fold_left accZ xs (a, b))).
Proof.
  intros Hf Hl HX Ha Hb.
  apply (chunks_spec fetch_byte (Z.to_nat 5552) (unrolled_loop fetch_byte) mod_adler
           MOD_ADLER 255 0 65520 65520); try assumption; try lia.
  - intros n s. apply unrolled_do_n.
  - intros x _. unfold congr, mod_adler. apply Z.mod_mod. unfold MOD_ADLER. lia.
  - intros x _. apply mod_adler_range.
  - intros x _. apply mod_adler_range.
  - vm_compute. reflexivity.
  - now apply bytes_le_255.
Qed.

Lemma chunks_fold_wp fuel xs d d' a b : fetches fetch_byte d xs d' -> (length xs <= fuel)%nat ->
  wf_bytes xs -> 0 <= a <= 65520 -> 0 <= b <= 65520 ->
  exists a' b', chunks (Z.to_nat 5550) (do_n fetch_byte) fold_wp fuel (length xs)
      {| data := d; sum1 := a; sum2 := b |} = Ok {| data := d'; sum1 := a'; sum2 := b' |} /\
    0 <= a' <= 65850 /\ 0 <= b' <= 1048560 /\
    congr MOD_ADLER a' (fst (fold_left accZ xs (a, b))) /\
    congr MOD_ADLER b' (snd (fold_left accZ xs (a, b))).
Proof.
  intros Hf Hl HX Ha Hb.
  apply (chunks_spec fetch_byte (Z.to_nat 5550) (do_n fetch_byte) fold_wp
           MOD_ADLER 255 0 65850 1048560); try assumption; try lia.
  - reflexivity.
  - exact fold_wp_congr.
  - intros x Hx. apply fold_wp_A. lia.
  - exact fold_wp_B.
  - vm_compute. reflexivity.
  - now apply bytes_le_255.
Qed.

Lemma adler32_update_spec a b d : 0 <= a <= 65520 -> 0 <= b <= 65520 -> wf_bytes d ->
  adler32_update (b * 65536 + a) d (length d) = Ok (adler32_spec a b d).
Proof.
  intros Ha Hb Hw. unfold adler32_update, adler32_spec.
  destruct (split_adler a b) as [-> ->]; [lia|lia|].
  pose proof (fetches_bytes d []) as Hf. rewrite app_nil_r in Hf.
  destruct (chunks_mod_adler (length d) d d [] a b Hf) as (a' & b' & -> & Ra & Rb & Ca & Cb);
    [lia|assumption|lia|lia|].
  cbn [bind sum1 sum2]. f_equal. rewrite pack16 by lia.
  now rewrite (mod_mod_adler _ _ Ca), (mod_mod_adler _ _ Cb) by (unfold MOD_ADLER; lia).
Qed.

Lemma adler32_update_wp_spec a b d : 0 <= a <= 65520 -> 0 <= b <= 65520 -> wf_bytes d ->
  adler32_update_wp (b * 65536 + a) d (length d) = Ok (adler32_spec a b d).
Proof.
  intros Ha Hb Hw. unfold adler32_update_wp, adler32_spec.
  destruct (split_adler a b) as [-> ->]; [lia|lia|].
  pose proof (fetches_bytes d []) as Hf. rewrite app_nil_r in Hf.
  destruct (chunks_fold_wp (length d) d d [] a b Hf) as (a' & b' & -> & Ra & Rb & Ca & Cb);
    [lia|assumption|lia|lia|].
  cbn [bind sum1 sum2]. f_equal.
  assert (Hfb : 0 <= fold_wp b' < 2 * MOD_ADLER) by
    (rewrite fold_wp_eq by lia; unfold MOD_ADLER; div_lia b' 65536).
  rewrite !sub_once_mod by (assumption || (unfold MOD_ADLER; lia)).
  pose proof (mod_adler_range a'). pose proof (mod_adler_range (fold_wp b')).
  rewrite pack16 by lia. unfold congr in *. rewrite fold_wp_congr by lia. now rewrite Ca, Cb.
Qed.

(** [adler32] and its variant [adler32_wp] (Wikipedia's, in chunks of 5550
    bytes and with shifts for the reduction) both compute the Adler-32 checksum
    modulo 65521 for a buffer of any length, without overflowing 32 bits, and so
    agree; the bounds the comments state for [a] and [b] are enough for the
    single subtraction at the end. *)
Theorem adler32_correct d : wf_bytes d ->
  adler32 d (length d) = Ok (adler32_spec 1 0 d) /\
  adler32_wp d (length d) = Ok (adler32_spec 1 0 d).
Proof.
  intros Hw. split; [apply (adler32_update_spec 1 0) | apply (adler32_update_wp_spec 1 0)];
    lia || assumption.
Qed.

Lemma adler32_correct_witness :
  adler32 [87; 105; 107; 105] (length [87; 105; 107; 105]) = Ok (adler32_spec 1 0 [87; 105; 107; 105]) /\
  adler32_wp [87; 105; 107; 105] (length [87; 105; 107; 105]) = Ok (adler32_spec 1 0 [87; 105; 107; 105]).
Proof.
  apply (adler32_correct [87; 105; 107; 105]).
  repeat constructor; vm_compute; intuition discriminate.
Defined.

(** The published checksum of the string "Wikipedia". *)
Example adler32_wikipedia :
  adler32 [87; 105; 107; 105; 112; 101; 100; 105; 97] 9 = Ok 0x11E60398.
Proof. vm_compute. reflexivity. Qed.

Lemma adler32_spec_app a b d1 d2 :
  let s := adler32_spec a b d1 in
  adler32_spec (s mod 65536) (s / 65536) d2 = adler32_spec a b (d1 ++ d2).
Proof.
  cbv zeta. unfold adler32_spec at 2 3. cbv zeta.
  pose proof (mod_adler_range (fst (fold_left accZ d1 (a, b)))) as R1.
  destruct (unpack_words (fst (fold_left accZ d1 (a, b)) mod MOD_ADLER)
              (snd (fold_left accZ d1 (a, b)) mod MOD_ADLER)) as [-> ->]; [lia|].
  unfold adler32_spec. rewrite fold_left_app.
  destruct (fold_left accZ d1 (a, b)) as [a1 b1]. cbn [fst snd] in *.
  destruct (accZ_congr MOD_ADLER d2 (a1 mod MOD_ADLER) (b1 mod MOD_ADLER) a1 b1) as [C1 C2];
    try (unfold congr; apply Z.mod_mod; unfold MOD_ADLER; lia).
  unfold congr in *. now rewrite C1, C2.
Qed.

(** Incremental update: checksumming [d1] and updating the result with [d2]
    gives the checksum of the concatenation, whatever the split. *)
Theorem adler32_incremental d1 d2 : wf_bytes d1 -> wf_bytes d2 ->
  (x <- adler32 d1 (length d1) ;; adler32_update x d2 (length d2)) =
  adler32 (d1 ++ d2) (length (d1 ++ d2)).
Proof.
  intros H1 H2. unfold adler32. change 1 with (0 * 65536 + 1).
  rewrite !adler32_update_spec by (lia || assumption || now apply wf_bytes_app). cbn [bind].
  rewrite <- (adler32_spec_app 1 0 d1 d2). cbv zeta.
  set (s := adler32_spec 1 0 d1).
  assert (R : 0 <= s mod 65536 <= 65520 /\ 0 <= s / 65536 <= 65520 ).
  { subst s. unfold adler32_spec. cbv zeta.
    pose proof (mod_adler_range (fst (fold_left accZ d1 (1, 0)))) as R1.
    pose proof (mod_adler_range (snd (fold_left accZ d1 (1, 0)))) as R2.
    edestruct unpack_words as [-> ->]; lia. }
  rewrite (Z.div_mod s 65536) at 1 by lia. rewrite (Z.mul_comm 65536).
  apply adler32_update_spec; tauto.
Qed.

Lemma adler32_incremental_witness :
  (x <- adler32 [87; 105] (length [87; 105]) ;; adler32_update x [107; 105; 255] (length [107; 105; 255])) =
  adler32 ([87; 105] ++ [107; 105; 255]) (length ([87; 105] ++ [107; 105; 255])).
Proof.
  apply (adler32_incremental [87; 105] [107; 105; 255]);
    repeat constructor; vm_compute; intuition discriminate.
Defined.

(** ** The aligned variant *)

(** The memory of a [uint16_t] array on a little-endian machine. *)
Fixpoint words_memory (ws : list Z) : list Z :=
  match ws with
  | [] => []
  | w :: ws' => le_bytes 2 w ++ words_memory ws'
  end.

Lemma fetches_ntohs ws : Forall (in_range 16) ws ->
  fetches fetch_ntohs ws (be_words (words_memory ws)) [].
Proof.
  induction 1 as [|w ws Hw Hws IH]; [constructor|]. cbn [words_memory le_bytes app be_words].
  econstructor; [|exact IH]. unfold fetch_ntohs. do 2 f_equal. unfold in_range in Hw.
  unfold ntohs. rewrite Z.shiftr_div_pow2, Z.shiftl_mul_pow2 by lia. change (2 ^ 8) with 256.
  assert (Hd : 0 <= w / 256 < 256) by div_lia w 256.
  assert (E : u16 (w * 256) = 256 * u8 w).
  { unfold wrap. change (2 ^ 16) with (256 * 256). change (2 ^ 8) with 256.
    rewrite (Z.mul_comm w), Z.mul_mod_distr_l; lia. }
  rewrite E, Z.lor_comm, Z.mul_comm.
  change 256 with (2 ^ 8) at 2. rewrite <- Z.shiftl_mul_pow2 by lia.
  rewrite lor_low_shift by (unfold in_range; lia). change (2 ^ 8) with 256.
  rewrite (wrap_small 8 (w / 256)) by (unfold in_range; lia). lia.
Qed.

(** [fletcher32a] counts its length in 16-bit words and agrees with
    [fletcher32] on the bytes of the array; its declaration says the length is in
    bytes. *)
Theorem fletcher32a_counts_words ws : Forall (in_range 16) ws ->
  fletcher32a ws (length ws) = fletcher32 (words_memory ws) (length (words_memory ws)) /\
  length (words_memory ws) = (2 * length ws)%nat.
Proof.
  intros Hw.
  assert (Hl : length (words_memory ws) = (2 * length ws)%nat).
  { clear Hw. induction ws; [reflexivity|]. cbn [words_memory]. rewrite length_app, length_le_bytes, IHws. cbn. lia. }
  assert (Hb : wf_bytes (words_memory ws)).
  { clear Hw Hl. induction ws; [constructor|]. apply wf_bytes_app. split; [apply wf_le_bytes|assumption]. }
  split; [|assumption]. rewrite fletcher32_eq by assumption.
  destruct (fetches_be16 (length ws) (words_memory ws) [] Hl Hb) as (_ & Hn & HX).
  unfold fletcher32a. rewrite <- Hn.
  destruct (fletcher_chunks _ _ _ _ (length (be_words (words_memory ws))) (fetches_ntohs ws Hw))
    as (a & b & E & Ha & Hb' & Ca & Cb); [lia|assumption|].
  rewrite E. cbn [bind sum1 sum2]. f_equal. apply fletcher_pack; lia || assumption.
Qed.

Lemma fletcher32a_counts_words_witness :
  fletcher32a [513; 65535] (length [513; 65535]) =
    fletcher32 (words_memory [513; 65535]) (length (words_memory [513; 65535])) /\
  length (words_memory [513; 65535]) = (2 * length [513; 65535]%Z)%nat.
Proof.
  apply (fletcher32a_counts_words [513; 65535]).
  repeat constructor; vm_compute; intuition discriminate.
Defined.
