(* ===== verification/ByteString.v ===== *)
(** * Buffers and length-prefixed byte strings

    [Common/DynamicBuffer.h] and [Common/ByteString.h].

    A [DynamicBuffer] is described by the bytes between [base] and [ptr], the
    number of bytes really allocated at [base], and the 32-bit member [size] in
    which the class records it.  A [ByteString] is a pointer that may be null;
    what it points at starts with a [vint32] length. *)
From S2P Require Import Prelude Errors Serialization.
From Stdlib Require Import ZArith Lia List Bool.
Import ListNotations.
Open Scope Z_scope.
Open Scope result_scope.

Module DynamicBuffer.

Record t := { data : list Z; cap : Z; size : Z; own : bool }.

(** [fill()] is [ptr - base]; [remaining()] is computed in [size_t]. *)
Definition fill (d : t) : Z := zlen (data d).
Definition remaining (d : t) : Z := u64 (size d - fill d).

Definition make (initialSize : Z) : t :=
  let size := u32 initialSize in {| data := []; cap := size; size := size; own := true |}.

(** [grow]: with [nocopy] the bytes before [ptr] are those of the new block,
    [fresh], about which nothing is known. *)
Definition grow (fresh : nat -> list Z) (new_size : Z) (nocopy : bool) (d : t) : result t :=
  if new_size <? fill d then Fault
  else Ok {| data := if nocopy then fresh (length (data d)) else data d;
             cap := new_size; size := u32 new_size; own := own d |}.

Definition no_fresh (n : nat) : list Z := repeat 0 n.

Definition ensure (len : Z) (d : t) : result t :=
  if remaining d <? len then grow no_fresh (u64 (u64 (fill d + len) * 3) / 2) false d else Ok d.

Definition reserve (fresh : nat -> list Z) (len : Z) (nocopy : bool) (d : t) : result t :=
  if remaining d <? len then grow fresh (u64 (fill d + len)) nocopy d else Ok d.

(** Writing at [ptr] and moving it. *)
Definition put (l : list Z) (d : t) : result t :=
  if fill d + zlen l <=? cap d
  then Ok {| data := data d ++ l; cap := cap d; size := size d; own := own d |} else Fault.

(** [*ptr = b], which does not move [ptr]. *)
Definition poke (d : t) : result t := if fill d + 1 <=? cap d then Ok d else Fault.

Definition add_unchecked (p : option (list Z)) (d : t) : result t :=
  match p with
  | None => Ok d
  | Some l => put l d
  end.

Definition add (p : list Z) (d : t) : result t :=
  d <- ensure (zlen p) d ;; add_unchecked (Some p) d.

Definition clear (d : t) : t := {| data := []; cap := cap d; size := size d; own := own d |}.

Definition set (p : list Z) (d : t) : result t :=
  d <- reserve no_fresh (zlen p) false (clear d) ;; add_unchecked (Some p) d.

Definition free (d : t) : t := {| data := []; cap := 0; size := 0; own := own d |}.

(** [release]: the buffer goes to the caller. *)
Definition release (d : t) : list Z * Z * t :=
  (data d, fill d, {| data := []; cap := 0; size := 0; own := own d |}).

(** The recorded size is the allocated one. *)
Definition wf (d : t) : Prop := size d = cap d /\ in_range 32 (cap d) /\ fill d <= cap d.

Lemma fill_nonneg d : 0 <= fill d.
Proof. apply Zle_0_nat. Qed.

Lemma wf_remaining d : wf d -> remaining d = cap d - fill d.
Proof.
  intros (Hs & Hc & Hf). pose proof (fill_nonneg d). unfold in_range in Hc.
  unfold remaining. rewrite Hs. apply wrap_small. unfold in_range. lia.
Qed.

Lemma ensure_ok len d : wf d -> 0 <= len -> (fill d + len) * 3 / 2 < 2 ^ 32 ->
  exists d', ensure len d = Ok d' /\ wf d' /\ data d' = data d /\ fill d + len <= cap d'.
Proof.
  intros Hw Hl Hb. pose proof (fill_nonneg d). unfold ensure. rewrite (wf_remaining d Hw).
  destruct Hw as (Hs & Hc & Hf). unfold in_range in Hc.
  destruct (Z.ltb_spec (cap d - fill d) len) as [Hlt|Hge].
  - assert (fill d + len < 2 ^ 33) by (pose proof (Z.div_mod ((fill d + len) * 3) 2 ltac:(lia));
      pose proof (Z.mod_pos_bound ((fill d + len) * 3) 2 ltac:(lia)); lia).
    rewrite (wrap_small 64 (fill d + len)) by (unfold in_range; lia).
    rewrite wrap_small by (unfold in_range; lia).
    set (n := (fill d + len) * 3 / 2) in *.
    assert (fill d + len <= n).
    { subst n. apply Z.div_le_lower_bound; lia. }
    unfold grow. rewrite (proj2 (Z.ltb_ge n (fill d))) by lia.
    eexists; split; [reflexivity|]. unfold wf, fill in *. cbn [size cap data].
    rewrite wrap_small by (unfold in_range; lia). unfold in_range. repeat split; lia.
  - exists d. unfold wf, in_range. repeat split; lia || reflexivity.
Qed.

Lemma put_ok l d : fill d + zlen l <= cap d -> wf d ->
  exists d', put l d = Ok d' /\ wf d' /\ data d' = data d ++ l /\ cap d' = cap d.
Proof.
  intros H (Hs & Hc & Hf). unfold put. rewrite (proj2 (Z.leb_le _ _)) by assumption.
  eexists; split; [reflexivity|]. unfold wf, fill in *. cbn [size cap data].
  unfold zlen in *. rewrite length_app. repeat split; try assumption; try apply Hc. lia.
Qed.

Lemma poke_ok d : fill d + 1 <= cap d -> poke d = Ok d.
Proof. intros H. unfold poke. now rewrite (proj2 (Z.leb_le _ _)). Qed.

(** [DynamicBuffer]: below the 4 GB its 32-bit [size] can record, [add] and
    [set] always find room, [add] appends, [set] replaces, and the recorded size
    stays the allocated one. *)
Theorem add_set_correct l d : wf d -> (fill d + zlen l) * 3 / 2 < 2 ^ 32 ->
  (exists d', add l d = Ok d' /\ data d' = data d ++ l /\ wf d') /\
  (exists d', set l d = Ok d' /\ data d' = l /\ wf d').
Proof.
  intros Hw Hb. assert (Hl : 0 <= zlen l) by apply Zle_0_nat. pose proof (fill_nonneg d) as Hf0. split.
  - destruct (ensure_ok (zlen l) d Hw Hl Hb) as (d1 & E1 & W1 & D1 & R1).
    unfold add. rewrite E1. cbn [bind add_unchecked]. unfold fill in R1. rewrite <- D1 in R1.
    destruct (put_ok l d1 R1 W1) as (d2 & E2 & W2 & D2 & _). exists d2. rewrite <- D1. auto.
  - assert (Hs : zlen l < 2 ^ 32).
    { pose proof (Z.div_mod ((fill d + zlen l) * 3) 2 ltac:(lia));
      pose proof (Z.mod_pos_bound ((fill d + zlen l) * 3) 2 ltac:(lia)); lia. }
    assert (Wc : wf (clear d)) by (destruct Hw as (? & ? & ?); unfold wf, fill in *; cbn in *;
      unfold in_range in *; repeat split; lia).
    unfold set, reserve. rewrite (wf_remaining _ Wc). change (fill (clear d)) with 0. cbn [clear cap].
    rewrite Z.add_0_l, (wrap_small 64) by (unfold in_range; lia). rewrite Z.sub_0_r.
    destruct (Z.ltb_spec (cap d) (zlen l)) as [Hlt|Hge]; cbn [bind].
    + unfold grow. change (fill _) with 0. rewrite (proj2 (Z.ltb_ge _ 0)) by lia. cbn [bind add_unchecked].
      rewrite wrap_small by (unfold in_range; lia).
      edestruct (put_ok l) as (d2 & E2 & W2 & D2 & _); [| |exists d2; split; [exact E2|]; auto].
      * change (0 + zlen l <= zlen l). lia.
      * unfold wf, fill, in_range. cbn. lia.
    + destruct (put_ok l (clear d)) as (d2 & E2 & W2 & D2 & _); [| assumption |exists d2; auto].
      change (0 + zlen l <= cap d). lia.
Qed.

Lemma add_set_correct_witness :
  (exists d', add [1; 2] (make 1) = Ok d' /\ data d' = data (make 1) ++ [1; 2] /\ wf d') /\
  (exists d', set [1; 2] (make 1) = Ok d' /\ data d' = [1; 2] /\ wf d').
Proof. apply (add_set_correct [1; 2] (make 1)); vm_compute; intuition discriminate. Defined.

(** Past 4 GB the member [size] is truncated: a buffer that was empty and got
    3 GB has 4.5 GB allocated and 0.5 GB recorded; [remaining()] is then close to
    2^64, and the next 2 GB are written past the end of the block. *)
Lemma size_truncated l l' : zlen l = 3 * 2 ^ 30 -> zlen l' = 2 ^ 31 ->
  exists d, add l (make 0) = Ok d /\ size d < fill d /\ add l' d = Fault.
Proof.
  intros Hl Hl'. unfold add, ensure.
  change (remaining (make 0)) with 0. change (fill (make 0)) with 0. rewrite Hl.
  change (0 <? 3 * 2 ^ 30) with true. cbv iota. unfold grow. change (fill (make 0)) with 0.
  change (u64 (u64 (0 + 3 * 2 ^ 30) * 3) / 2) with 4831838208.
  cbn [Z.ltb Z.compare bind add_unchecked data make].
  unfold put at 1. unfold fill at 1. cbn [data cap]. change (zlen []) with 0. rewrite Hl.
  change (0 + 3 * 2 ^ 30 <=? 4831838208) with true. cbv iota.
  eexists; split; [reflexivity|]. unfold fill. cbn [size data own]. rewrite app_nil_l, Hl.
  split; [vm_compute; reflexivity|].
  unfold remaining, fill. cbn [size data]. rewrite Hl, Hl'.
  change (u64 (u32 4831838208 - 3 * 2 ^ 30) <? 2 ^ 31) with false. cbn [bind add_unchecked].
  unfold put, fill. cbn [data cap]. now rewrite Hl, Hl'.
Qed.

End DynamicBuffer.

(** ** [ByteString] *)

(** A pointer, null or to the memory it starts. *)
Definition ByteString := option (list Z).

Definition decode_length (bs : ByteString) : result (Z * list Z) :=
  match bs with
  | None => Fault
  | Some p => decode_vi32_ptr p
  end.

(** [ByteString::length()]: the bytes of the prefix and of the content. *)
Definition bs_length (bs : ByteString) : result Z :=
  match bs with
  | None => Ok 1
  | Some p => '(len, tmp) <- decode_vi32_ptr p ;; Ok (zlen p - zlen tmp + len)
  end.

(** [next()]: where the string starts, and the pointer moved past it. *)
Definition next (bs : ByteString) : result (list Z * ByteString) :=
  match bs with
  | None => Fault
  | Some p =>
      '(len, p') <- decode_vi32_ptr p ;;
      if len <=? zlen p' then Ok (p, Some (skipn (Z.to_nat len) p')) else Fault
  end.

(** [write(dst)]: the bytes written and the length returned. *)
Definition write (bs : ByteString) : result (list Z * Z) :=
  len <- bs_length bs ;;
  match bs with
  | None => l <- encode_vi32 0 ;; Ok (l, len)
  | Some p => if len <=? zlen p then Ok (firstn (Z.to_nat len) p, len) else Fault
  end.

Definition str (bs : ByteString) : result (list Z) :=
  '(_, p) <- decode_length bs ;; Ok p.

(** [append_as_byte_string(dst_buf, value, value_len)]; the overload for C
    strings computes the length with [strlen]. *)
Definition append_as_byte_string (buf : DynamicBuffer.t) (value : list Z) (value_len : Z)
  : result DynamicBuffer.t :=
  buf <- DynamicBuffer.ensure (u32 (7 + value_len)) buf ;;
  l <- encode_vi32 value_len ;;
  buf <- DynamicBuffer.put l buf ;;
  if 0 <? value_len
  then if value_len <=? zlen value
       then buf <- DynamicBuffer.put (firstn (Z.to_nat value_len) value) buf ;; DynamicBuffer.poke buf
       else Fault
  else Ok buf.

Definition append_as_byte_string_cstr (buf : DynamicBuffer.t) (s : list Z) : result DynamicBuffer.t :=
  match cstr s with
  | None => Fault
  | Some v =>
      buf <- DynamicBuffer.ensure (7 + zlen v) buf ;;
      l <- encode_vi32 (zlen v) ;;
      buf <- DynamicBuffer.put l buf ;;
      if 0 <? zlen v
      then buf <- DynamicBuffer.put v buf ;; DynamicBuffer.poke buf
      else Ok buf
  end.

(** The content two strings are compared on: [len] bytes at a pointer. *)
Definition content (len : Z) (p : list Z) : result (list Z) :=
  if len <=? zlen p then Ok (firstn (Z.to_nat len) p) else Fault.

(** [operator<]: [memcmp] on the shorter length, then the lengths. *)
Definition bs_lt (bs1 bs2 : ByteString) : result bool :=
  '(len1, ptr1) <- decode_length bs1 ;;
  '(len2, ptr2) <- decode_length bs2 ;;
  let len := if len1 <? len2 then len1 else len2 in
  p1 <- content len ptr1 ;;
  p2 <- content len ptr2 ;;
  Ok (match bytes_cmp p1 p2 with
      | Eq => len1 <? len2
      | Lt => true
      | Gt => false
      end).

(** [operator==] and [operator!=]. *)
Definition bs_eq (bs1 bs2 : ByteString) : result bool :=
  '(len1, ptr1) <- decode_length bs1 ;;
  '(len2, ptr2) <- decode_length bs2 ;;
  if negb (len1 =? len2) then Ok false else
  p1 <- content len1 ptr1 ;;
  p2 <- content len1 ptr2 ;;
  Ok (bytes_eqb p1 p2).

Definition bs_neq (bs1 bs2 : ByteString) : result bool :=
  b <- bs_eq bs1 bs2 ;; Ok (negb b).

(** [m] is memory that starts with the encoding of the string [s]. *)
Definition holds (m s rest : list Z) : Prop :=
  exists l, encode_vi32 (zlen s) = Ok l /\ m = l ++ s ++ rest /\ zlen s < 2 ^ 32.

Lemma holds_decode m s rest : holds m s rest -> decode_vi32_ptr m = Ok (zlen s, s ++ rest).
Proof.
  intros (l & Hl & -> & Hs).
  assert (Hr : in_range 32 (zlen s)) by (split; [apply Zle_0_nat|assumption]).
  destruct (vi32_encodes _ Hr) as (l' & Hl' & Hlen & Hd). rewrite Hl in Hl'. injection Hl' as <-.
  unfold decode_vi32_ptr. rewrite Hd; [reflexivity|].
  pose proof (encoded_length_vi32_range (zlen s)). lia.
Qed.

Lemma zlen_app {A} (a b : list A) : zlen (a ++ b) = zlen a + zlen b.
Proof. unfold zlen. rewrite length_app. lia. Qed.

Lemma zlen_nonneg {A} (l : list A) : 0 <= zlen l.
Proof. apply Zle_0_nat. Qed.

Lemma content_app s rest n : n = zlen s -> content n (s ++ rest) = Ok s.
Proof.
  intros ->. unfold content. pose proof (zlen_nonneg rest).
  rewrite zlen_app, (proj2 (Z.leb_le _ _)) by lia.
  unfold zlen. now rewrite Nat2Z.id, firstn_app_exact.
Qed.

Lemma content_le s rest n : 0 <= n <= zlen s -> content n (s ++ rest) = Ok (firstn (Z.to_nat n) s).
Proof.
  intros H. unfold content. pose proof (zlen_nonneg rest).
  rewrite zlen_app, (proj2 (Z.leb_le _ _)) by lia.
  rewrite firstn_app. unfold zlen in H.
  replace (Z.to_nat n - length s)%nat with 0%nat by lia. now rewrite app_nil_r.
Qed.

(** The comparison on the common length followed by the lengths is the
    lexicographic order. *)
Lemma bytes_cmp_min a b n : n = Nat.min (length a) (length b) ->
  bytes_cmp a b =
  match bytes_cmp (firstn n a) (firstn n b) with
  | Eq => (zlen a ?= zlen b) | c => c
  end.
Proof.
  intros ->. revert b. induction a as [|x a IH]; intros [|y b]; try reflexivity.
  cbn [bytes_cmp length Nat.min firstn]. destruct (x ?= y); try reflexivity.
  rewrite IH. destruct (bytes_cmp _ _); try reflexivity.
  unfold zlen. cbn [length]. rewrite !Nat2Z.inj_succ, <- !Z.add_1_l.
  symmetry. apply Z.add_compare_mono_l.
Qed.

Lemma bs_lt_holds m1 s1 r1 m2 s2 r2 : holds m1 s1 r1 -> holds m2 s2 r2 ->
  bs_lt (Some m1) (Some m2) = Ok (bytes_ltb s1 s2).
Proof.
  intros H1 H2. unfold bs_lt. cbn [decode_length].
  rewrite (holds_decode _ _ _ H1), (holds_decode _ _ _ H2). cbn [bind].
  pose proof (zlen_nonneg s1). pose proof (zlen_nonneg s2).
  set (len := if zlen s1 <? zlen s2 then zlen s1 else zlen s2).
  assert (Hlen : len = Z.min (zlen s1) (zlen s2)).
  { subst len. destruct (Z.ltb_spec (zlen s1) (zlen s2)); lia. }
  clearbody len. rewrite !content_le by lia. cbn [bind]. f_equal.
  unfold bytes_ltb. rewrite (bytes_cmp_min s1 s2 (Z.to_nat len)) by (unfold zlen in *; lia).
  destruct (bytes_cmp _ _); reflexivity.
Qed.

Lemma bs_eq_holds m1 s1 r1 m2 s2 r2 : holds m1 s1 r1 -> holds m2 s2 r2 ->
  bs_eq (Some m1) (Some m2) = Ok (bytes_eqb s1 s2).
Proof.
  intros H1 H2. unfold bs_eq. cbn [decode_length].
  rewrite (holds_decode _ _ _ H1), (holds_decode _ _ _ H2). cbn [bind].
  destruct (Z.eqb_spec (zlen s1) (zlen s2)) as [E|E]; cbn [negb].
  - now rewrite !content_app by congruence.
  - f_equal. symmetry. apply bytes_eqb_neq. congruence.
Qed.

(** On memory that holds encoded strings, the operators [<] and [==] of
    [ByteString] are the lexicographic order and the equality of the contents,
    whatever lies behind them; [length] is the size of the encoding and [next]
    moves to what follows it. *)
Theorem bytestring_order m1 s1 r1 m2 s2 r2 : holds m1 s1 r1 -> holds m2 s2 r2 ->
  bs_lt (Some m1) (Some m2) = Ok (bytes_ltb s1 s2) /\
  bs_eq (Some m1) (Some m2) = Ok (bytes_eqb s1 s2) /\
  bs_length (Some m1) = Ok (encoded_length_vi32 (zlen s1) + zlen s1) /\
  next (Some m1) = Ok (m1, Some r1).
Proof.
  intros H1 H2. split; [|split; [|split]].
  - now apply bs_lt_holds with r1 r2.
  - now apply bs_eq_holds with r1 r2.
  - cbn [bs_length]. rewrite (holds_decode _ _ _ H1). cbn [bind]. f_equal.
    destruct H1 as (l & Hl & -> & Hs). rewrite !zlen_app.
    rewrite <- (encode_vi32_length (zlen s1) l) by (assumption || (split; [apply zlen_nonneg|assumption])).
    lia.
  - cbn [next]. rewrite (holds_decode _ _ _ H1). cbn [bind].
    pose proof (zlen_nonneg r1). rewrite zlen_app, (proj2 (Z.leb_le _ _)) by lia.
    unfold zlen. now rewrite Nat2Z.id, skipn_app_exact.
Qed.

Lemma bytestring_order_witness :
  bs_lt (Some [2; 97; 98; 7]) (Some [3; 97; 98; 99]) = Ok (bytes_ltb [97; 98] [97; 98; 99]) /\
  bs_eq (Some [2; 97; 98; 7]) (Some [3; 97; 98; 99]) = Ok (bytes_eqb [97; 98] [97; 98; 99]) /\
  bs_length (Some [2; 97; 98; 7]) = Ok (encoded_length_vi32 (zlen [97; 98]) + zlen [97; 98]) /\
  next (Some [2; 97; 98; 7]) = Ok ([2; 97; 98; 7], Some [7]).
Proof.
  apply (bytestring_order [2; 97; 98; 7] [97; 98] [7] [3; 97; 98; 99] [97; 98; 99] []).
  - exists [2]. vm_compute. intuition discriminate.
  - exists [3]. vm_compute. intuition discriminate.
Defined.

Lemma append_as_byte_string_ok buf v : DynamicBuffer.wf buf -> zlen v < 2 ^ 32 - 7 ->
  (DynamicBuffer.fill buf + 7 + zlen v) * 3 / 2 < 2 ^ 32 ->
  exists l buf', encode_vi32 (zlen v) = Ok l /\ append_as_byte_string buf v (zlen v) = Ok buf' /\
    DynamicBuffer.data buf' = DynamicBuffer.data buf ++ l ++ v /\ DynamicBuffer.wf buf'.
Proof.
  intros Hw Hv Hb. pose proof (zlen_nonneg v). unfold append_as_byte_string.
  rewrite wrap_small by (unfold in_range; lia).
  destruct (DynamicBuffer.ensure_ok (7 + zlen v) buf) as (b1 & E1 & W1 & D1 & R1);
    [assumption|lia|now rewrite Z.add_assoc|].
  assert (Hr : in_range 32 (zlen v)) by (unfold in_range; lia).
  destruct (vi32_encodes _ Hr) as (l & Hl & Hlen & _).
  pose proof (encoded_length_vi32_range (zlen v)) as Hrange.
  rewrite E1, Hl. cbn [bind]. exists l.
  assert (Hf : DynamicBuffer.fill b1 = DynamicBuffer.fill buf) by (unfold DynamicBuffer.fill; now rewrite D1).
  destruct (DynamicBuffer.put_ok l b1) as (b2 & E2 & W2 & D2 & C2); [lia|assumption|].
  rewrite E2. cbn [bind]. rewrite D1 in D2.
  assert (Hf2 : DynamicBuffer.fill b2 = DynamicBuffer.fill buf + zlen l)
    by (unfold DynamicBuffer.fill; rewrite D2, zlen_app; reflexivity).
  destruct (Z.ltb_spec 0 (zlen v)) as [Hpos|Hz].
  - rewrite Z.leb_refl. replace (firstn (Z.to_nat (zlen v)) v) with v by (unfold zlen; now rewrite Nat2Z.id, firstn_all).
    destruct (DynamicBuffer.put_ok v b2) as (b3 & E3 & W3 & D3 & C3); [lia|assumption|].
    rewrite E3. cbn [bind]. rewrite DynamicBuffer.poke_ok.
    + exists b3. rewrite D3, D2, app_assoc. auto.
    + unfold DynamicBuffer.fill in *. rewrite D3, zlen_app. lia.
  - exists b2. rewrite D2. assert (v = []) as -> by (destruct v; [reflexivity|unfold zlen in *; cbn [length] in *; lia]).
    rewrite app_nil_r. auto.
Qed.

(** [append_as_byte_string] puts the encoding of the value behind what the
    buffer holds, and reading the byte string back there gives the value. *)
Theorem append_as_byte_string_roundtrip buf v : DynamicBuffer.wf buf -> zlen v < 2 ^ 32 - 7 ->
  (DynamicBuffer.fill buf + 7 + zlen v) * 3 / 2 < 2 ^ 32 ->
  exists buf' m, append_as_byte_string buf v (zlen v) = Ok buf' /\
    DynamicBuffer.data buf' = DynamicBuffer.data buf ++ m /\ DynamicBuffer.wf buf' /\
    decode_length (Some m) = Ok (zlen v, v) /\ next (Some m) = Ok (m, Some []).
Proof.
  intros Hw Hv Hb. destruct (append_as_byte_string_ok buf v Hw Hv Hb) as (l & buf' & Hl & E & D & W).
  exists buf', (l ++ v). do 3 (split; [assumption|]).
  assert (Hh : holds (l ++ v) v []) by (exists l; rewrite app_nil_r; split; [assumption|split; [reflexivity|lia]]).
  cbn [decode_length next]. rewrite (holds_decode _ _ _ Hh), app_nil_r. cbn [bind].
  rewrite Z.leb_refl. unfold zlen. rewrite Nat2Z.id, skipn_all. auto.
Qed.

Lemma append_as_byte_string_roundtrip_witness :
  exists buf' m, append_as_byte_string (DynamicBuffer.make 4) [114; 111; 119] (zlen [114; 111; 119]) = Ok buf' /\
    DynamicBuffer.data buf' = DynamicBuffer.data (DynamicBuffer.make 4) ++ m /\ DynamicBuffer.wf buf' /\
    decode_length (Some m) = Ok (zlen [114; 111; 119], [114; 111; 119]) /\ next (Some m) = Ok (m, Some []).
Proof.
  apply (append_as_byte_string_roundtrip (DynamicBuffer.make 4) [114; 111; 119]);
    vm_compute; intuition discriminate.
Defined.
