(* ===== verification/Key.v ===== *)
(** * Keys

    [Hypertable/Lib/Key.cc] and [Key.h]: the packed key
    row NUL family qualifier NUL flag ~BIGENDIAN(timestamp)
    behind a [vint32] length, how it is built, parsed and updated in place, and
    the order that comparing packed keys as byte strings gives. *)
From S2P Require Import Prelude Errors Serialization ByteString.
From Stdlib Require Import ZArith Lia List Bool.
Import ListNotations.
Open Scope Z_scope.
Open Scope result_scope.

Definition FLAG_DELETE_ROW : Z := 0x00.
Definition FLAG_DELETE_COLUMN_FAMILY : Z := 0x01.
Definition FLAG_DELETE_CELL : Z := 0x02.
Definition FLAG_INSERT : Z := 0xFF.

(** [Key::END_ROW_MARKER] and [Key::END_ROOT_ROW], without the NUL. *)
Definition END_ROW_MARKER : list Z := [0xff; 0xff].
Definition END_ROOT_ROW : list Z := [48; 58; 0xff; 0xff].

(** ** Timestamps *)

(** [~val] on [uint64_t]. *)
Definition not64 (val : Z) : Z := u64 (Z.lnot val).

Definition encode_ts64 (val : Z) : list Z :=
  let val := not64 val in
  [u8 (Z.shiftr val 56); u8 (Z.shiftr val 48); u8 (Z.shiftr val 40); u8 (Z.shiftr val 32);
   u8 (Z.shiftr val 24); u8 (Z.shiftr val 16); u8 (Z.shiftr val 8); u8 val].

Definition decode_ts64 (p : list Z) : result (Z * list Z) :=
  match p with
  | b7 :: b6 :: b5 :: b4 :: b3 :: b2 :: b1 :: b0 :: rest =>
      let val := u64 (Z.shiftl b7 56) in
      let val := Z.lor val (u64 (Z.shiftl b6 48)) in
      let val := Z.lor val (u64 (Z.shiftl b5 40)) in
      let val := Z.lor val (u64 (Z.shiftl b4 32)) in
      let val := Z.lor val (u64 (Z.shiftl b3 24)) in
      let val := Z.lor val (Z.shiftl b2 16) in
      let val := Z.lor val (Z.shiftl b1 8) in
      let val := Z.lor val b0 in
      Ok (not64 val, rest)
  | _ => Fault
  end.

(** ** Building keys *)

(** [write_key]: the bytes it writes.  [row] and [qualifier] are C strings
    without their NUL; the timestamp zero has a branch of its own, and for the
    others the bytes of the complement are copied from the last to the first. *)
Definition write_key (flag : Z) (row : list Z) (column_family_code : Z)
    (column_qualifier : option (list Z)) (timestamp : Z) : list Z :=
  row ++ [0] ++ [column_family_code] ++
  (match column_qualifier with Some q => q ++ [0] | None => [0] end) ++
  [flag] ++
  (if timestamp =? 0 then repeat 0xFF 8
   else rev (le_bytes 8 (not64 timestamp))).

Definition key_len (row : list Z) (column_qualifier : option (list Z)) : Z :=
  let len := zlen row + 4 + 8 in
  match column_qualifier with Some q => len + zlen q | None => len end.

(** [create_key]: the new block; the signed timestamp becomes [uint64_t]. *)
Definition create_key (flag : Z) (row : list Z) (column_family_code : Z)
    (column_qualifier : option (list Z)) (timestamp : Z) : result (list Z) :=
  let len := key_len row column_qualifier in
  l <- encode_vi32 len ;;
  let written := write_key flag row column_family_code column_qualifier (u64 timestamp) in
  if zlen l + zlen written <=? len + encoded_length_vi32 len then Ok (l ++ written) else Fault.

Definition create_key_and_append (buf : DynamicBuffer.t) (flag : Z) (row : list Z)
    (column_family_code : Z) (column_qualifier : option (list Z)) (timestamp : Z)
  : result DynamicBuffer.t :=
  let len := key_len row column_qualifier in
  buf <- DynamicBuffer.ensure (len + encoded_length_vi32 len) buf ;;
  l <- encode_vi32 len ;;
  buf <- DynamicBuffer.put l buf ;;
  DynamicBuffer.put (write_key flag row column_family_code column_qualifier (u64 timestamp)) buf.

(** ** Parsing keys *)

(** The members of [Key]; pointers into the key are the memory from there on,
    except [timestamp_ptr] and [end_ptr], which are kept as offsets from the
    start of the [ByteString]. *)
Record Key := {
  row : list Z;
  column_qualifier : list Z;
  timestamp : Z;
  column_family_code : Z;
  flag : Z;
  timestamp_off : nat;
  end_off : nat }.

(** [while (key.ptr < endptr && *key.ptr != 0) key.ptr++]: [m] is the memory at
    [key.ptr], [n] is [endptr - key.ptr]; the result is the memory and the
    distance when the loop stops. *)
Fixpoint scan_nul (n : nat) (m : list Z) : result (nat * list Z) :=
  match n with
  | O => Ok (O, m)
  | S n' => match m with
            | [] => Fault
            | b :: m' => if b =? 0 then Ok (n, m) else scan_nul n' m'
            end
  end.

(** [Key::load].  The first scan starts at the length prefix, not behind it.
    [n] counts what is left before [endptr]; [key.ptr++] past it makes the
    comparison [key.ptr >= endptr] true, which is [n <= 1] before the increment. *)
Definition load (key : list Z) : result (option Key) :=
  '(len, rowp) <- decode_length (Some key) ;;
  let total := (length key - length rowp + Z.to_nat len)%nat in
  '(n, m) <- scan_nul total key ;;
  if (n <=? 1)%nat then Ok None else
  match tl m with
  | [] => Fault
  | fam :: qual =>
      let n := (n - 2)%nat in
      '(n, m) <- scan_nul n qual ;;
      if (n <=? 1)%nat then Ok None else
      let n := (n - 1)%nat in
      let m := tl m in
      if negb (n =? 9)%nat then Ok None else
      match m with
      | [] => Fault
      | fl :: tsp =>
          '(ts, m') <- decode_ts64 tsp ;;
          Ok (Some {| row := rowp; column_qualifier := qual; timestamp := signed 64 ts;
                      column_family_code := fam; flag := fl;
                      timestamp_off := (length key - length tsp)%nat;
                      end_off := (length key - length m')%nat |})
      end
  end.

(** [Key::update_ts] writes through [timestamp_ptr]. *)
Definition update_ts (k : Key) (ts : Z) (key : list Z) : result (list Z) :=
  if (timestamp_off k + 8 <=? length key)%nat
  then Ok (firstn (timestamp_off k) key ++ encode_ts64 (u64 ts) ++ skipn (timestamp_off k + 8) key)
  else Fault.

(** ** Timestamps, proofs *)

Lemma not64_eq v : in_range 64 v -> not64 v = 2 ^ 64 - 1 - v.
Proof.
  unfold in_range, not64. intros H.
  replace (Z.lnot v) with ((2 ^ 64 - 1 - v) + (-1) * 2 ^ 64) by (unfold Z.lnot; lia).
  unfold wrap. rewrite Z.mod_add by lia. apply Z.mod_small. lia.
Qed.

Lemma not64_range v : in_range 64 v -> in_range 64 (not64 v).
Proof. intros H. rewrite not64_eq by assumption. unfold in_range in *. lia. Qed.

Lemma not64_invol v : in_range 64 v -> not64 (not64 v) = v.
Proof.
  intros H. rewrite not64_eq by now apply not64_range. rewrite not64_eq by assumption. lia.
Qed.

Lemma encode_ts64_be v : encode_ts64 v = rev (le_bytes 8 (not64 v)).
Proof.
  unfold encode_ts64. cbn [le_bytes rev app].
  rewrite !Z.shiftr_div_pow2 by lia. rewrite !Z.div_div by lia. reflexivity.
Qed.

Lemma lor_horner V b k : 0 <= k -> 0 <= b < 256 ->
  Z.lor (Z.shiftl V (k + 8)) (Z.shiftl b k) = Z.shiftl (b + 256 * V) k.
Proof.
  intros Hk Hb. rewrite Z.add_comm, <- Z.shiftl_shiftl, <- Z.shiftl_lor, Z.lor_comm by lia.
  rewrite lor_low_shift by (unfold in_range; lia). f_equal. lia.
Qed.

Lemma wrap_shiftl_byte b k : 0 <= k <= 56 -> 0 <= b < 256 -> u64 (Z.shiftl b k) = Z.shiftl b k.
Proof.
  intros Hk Hb. apply wrap_small. rewrite Z.shiftl_mul_pow2 by lia. unfold in_range.
  assert (0 < 2 ^ k <= 2 ^ 56) by (split; [apply Z.pow_pos_nonneg; lia|apply Z.pow_le_mono_r; lia]).
  change (2 ^ 64) with (256 * 2 ^ 56). nia.
Qed.

Lemma decode_ts64_value p rest : wf_bytes p -> length p = 8%nat ->
  decode_ts64 (rev p ++ rest) = Ok (not64 (le_value p), rest).
Proof.
  intros Hw Hl. do 8 (destruct p as [|? p]; [discriminate Hl|]).
  destruct p; [|discriminate Hl]. clear Hl.
  repeat match goal with H : wf_bytes (_ :: _) |- _ => inversion H; subst; clear H end.
  repeat match goal with H : Forall _ (_ :: _) |- _ => inversion H; subst; clear H end.
  unfold is_byte, in_range in *. change (2 ^ 8) with 256 in *.
  cbn [rev app decode_ts64 le_value]. rewrite !wrap_shiftl_byte by lia.
  do 3 f_equal. rewrite <- (Z.shiftl_0_r z) at 1.
  change 56 with (48 + 8). rewrite (lor_horner _ _ 48) by lia.
  change 48 with (40 + 8). rewrite (lor_horner _ _ 40) by lia.
  change 40 with (32 + 8). rewrite (lor_horner _ _ 32) by lia.
  change 32 with (24 + 8). rewrite (lor_horner _ _ 24) by lia.
  change 24 with (16 + 8). rewrite (lor_horner _ _ 16) by lia.
  change 16 with (8 + 8). rewrite (lor_horner _ _ 8) by lia.
  match goal with |- context [Z.shiftl ?V 8] => change (Z.shiftl V 8) with (Z.shiftl V (0 + 8)) end.
  rewrite (lor_horner _ _ 0), Z.shiftl_0_r by lia. lia.
Qed.

Lemma decode_encode_ts64 v rest : in_range 64 v ->
  decode_ts64 (encode_ts64 v ++ rest) = Ok (v, rest).
Proof.
  intros H. rewrite encode_ts64_be, decode_ts64_value by (apply wf_le_bytes || apply length_le_bytes).
  rewrite le_value_le_bytes. change (8 * Z.of_nat 8) with 64.
  now rewrite wrap_small, not64_invol by (try apply not64_range; assumption).
Qed.

Lemma length_encode_ts64 v : length (encode_ts64 v) = 8%nat.
Proof. reflexivity. Qed.

(** ** Shape of a packed key *)

(** The qualifier in the key: the empty string when there is none. *)
Definition qual_or_empty (q : option (list Z)) : list Z := match q with Some q => q | None => [] end.

(** The branch for the timestamp zero writes what the other one would. *)
Lemma write_key_shape fl r fam q ts :
  write_key fl r fam q ts = r ++ 0 :: fam :: qual_or_empty q ++ 0 :: fl :: encode_ts64 ts.
Proof.
  unfold write_key. rewrite encode_ts64_be.
  assert (E : (if ts =? 0 then repeat 255 8 else rev (le_bytes 8 (not64 ts))) = rev (le_bytes 8 (not64 ts))).
  { destruct (Z.eqb_spec ts 0) as [->|]; reflexivity. }
  rewrite E. cbn [app]. destruct q; cbn [qual_or_empty app]; [now rewrite <- app_assoc|reflexivity].
Qed.

Lemma zlen_cons {A} (a : A) l : zlen (a :: l) = 1 + zlen l.
Proof. unfold zlen. cbn [length]. lia. Qed.

Lemma zlen_write_key fl r fam q ts : zlen (write_key fl r fam q ts) = key_len r q.
Proof.
  rewrite write_key_shape. rewrite zlen_app, !zlen_cons, zlen_app, !zlen_cons.
  change (zlen (encode_ts64 ts)) with 8. unfold key_len.
  destruct q; cbn [qual_or_empty]; [lia|]. change (zlen []) with 0. lia.
Qed.

Lemma encode_vint_nonzero n : forall v l, 0 < v -> encode_vint n v = Ok l -> no_nul l.
Proof.
  induction n as [|n IH]; intros v l Hv H; cbn [encode_vint] in H;
    (destruct (v <=? HT_MAX_V1B) eqn:Hc; bool_to_prop; [|try discriminate]).
  1,2: inv H; destruct (last_byte v) as (E1 & _ & _); [lia|]; rewrite E1;
       constructor; [lia|constructor].
  apply bind_ok in H as (l' & H & [= <-]). unfold HT_MAX_V1B in Hc. constructor.
  - intros E. pose proof (cont_byte_high v) as C. now rewrite E in C.
  - apply (IH (Z.shiftr v 7)); [|assumption]. rewrite Z.shiftr_div_pow2 by lia.
    apply Z.div_str_pos. lia.
Qed.

Lemma scan_nul_app s m n : no_nul s -> (length s < n)%nat ->
  scan_nul n (s ++ 0 :: m) = Ok ((n - length s)%nat, 0 :: m).
Proof.
  intros Hs. revert n. induction Hs as [|b s Hb Hs IH]; intros n Hn; cbn [length app] in *.
  - destruct n; [lia|]. cbn. reflexivity.
  - destruct n; [lia|]. cbn [scan_nul]. rewrite (proj2 (Z.eqb_neq b 0) Hb).
    apply IH. lia.
Qed.

Lemma no_nul_app a b : no_nul a -> no_nul b -> no_nul (a ++ b).
Proof. intros. now apply Forall_app. Qed.

(** What [load] makes of a packed key, at any place of a buffer. *)
Lemma load_packed l fl r fam q ts rest :
  encode_vi32 (key_len r q) = Ok l -> key_len r q < 2 ^ 32 ->
  no_nul r -> no_nul (qual_or_empty q) -> in_range 64 ts ->
  load (l ++ write_key fl r fam q ts ++ rest) =
  Ok (Some {| row := write_key fl r fam q ts ++ rest;
              column_qualifier := qual_or_empty q ++ 0 :: fl :: encode_ts64 ts ++ rest;
              timestamp := signed 64 ts; column_family_code := fam; flag := fl;
              timestamp_off := (length l + length (write_key fl r fam q ts) - 8)%nat;
              end_off := (length l + length (write_key fl r fam q ts))%nat |}).
Proof.
  intros Hl Hlen Hr Hq Hts. set (w := write_key fl r fam q ts).
  assert (Hw : zlen w = key_len r q) by apply zlen_write_key.
  assert (Hh : holds (l ++ w ++ rest) w rest) by (exists l; rewrite Hw; auto).
  unfold load, decode_length. rewrite (holds_decode _ _ _ Hh). cbn [bind].
  assert (Hnl : no_nul l).
  { unfold encode_vi32 in Hl. apply (encode_vint_nonzero 5 (u32 (key_len r q))); [|assumption].
    rewrite wrap_small; unfold in_range, key_len, zlen in *; destruct q; lia. }
  replace (length (l ++ w ++ rest) - length (w ++ rest) + Z.to_nat (zlen w))%nat
    with (length l + length w)%nat by (unfold zlen; rewrite !length_app; lia).
  assert (Ew : w = r ++ 0 :: fam :: qual_or_empty q ++ 0 :: fl :: encode_ts64 ts) by apply write_key_shape.
  assert (Lw : length w = (length r + length (qual_or_empty q) + 12)%nat).
  { rewrite Ew, !length_app. cbn [length]. rewrite length_app. cbn [length]. rewrite length_encode_ts64. lia. }
  assert (E1 : l ++ w ++ rest = (l ++ r) ++ 0 :: fam :: qual_or_empty q ++ 0 :: fl :: encode_ts64 ts ++ rest).
  { rewrite Ew, <- !app_assoc. cbn [app]. now rewrite <- !app_assoc. }
  rewrite E1 at 1. rewrite scan_nul_app by (try apply no_nul_app; auto; rewrite length_app; lia).
  rewrite length_app. cbn [bind tl].
  rewrite (proj2 (Nat.leb_gt _ 1)) by lia.
  rewrite scan_nul_app by (assumption || lia). cbn [bind tl].
  rewrite (proj2 (Nat.leb_gt _ 1)) by lia.
  rewrite (proj2 (Nat.eqb_eq _ 9)) by lia. cbn [negb].
  rewrite decode_encode_ts64 by assumption. cbn [bind].
  do 3 f_equal; rewrite !length_app, ?length_encode_ts64; lia.
Qed.

Lemma signed_u64 ts : - 2 ^ 63 <= ts < 2 ^ 63 -> signed 64 (u64 ts) = ts.
Proof. intros H. now apply signed_wrap. Qed.

Lemma create_key_ok fl r fam q ts : key_len r q < 2 ^ 32 ->
  exists l, encode_vi32 (key_len r q) = Ok l /\ zlen l = encoded_length_vi32 (key_len r q) /\
    create_key fl r fam q ts = Ok (l ++ write_key fl r fam q (u64 ts)).
Proof.
  intros H. assert (Hr : in_range 32 (key_len r q)).
  { split; [|assumption]. unfold key_len, zlen. destruct q; lia. }
  destruct (vi32_encodes _ Hr) as (l & Hl & Hlen & _). exists l. split; [assumption|]. split; [assumption|].
  unfold create_key. rewrite Hl. cbn [bind].
  now rewrite zlen_write_key, (proj2 (Z.leb_le _ _)) by lia.
Qed.

(** Round trip: the key [create_key] builds from a row, a family, an optional
    qualifier, a flag and a signed timestamp is parsed by [Key::load] into the
    same components, with [end_ptr] just behind it, although the scan for the row
    starts at the length prefix (which therefore must hold no zero byte). *)
Theorem create_load_roundtrip fl r fam q ts rest : key_len r q < 2 ^ 32 ->
  no_nul r -> no_nul (qual_or_empty q) -> - 2 ^ 63 <= ts < 2 ^ 63 ->
  exists m k, create_key fl r fam q ts = Ok m /\ load (m ++ rest) = Ok (Some k) /\
    cstr (row k) = Some r /\ column_family_code k = fam /\
    cstr (column_qualifier k) = Some (qual_or_empty q) /\
    flag k = fl /\ timestamp k = ts /\ end_off k = length m.
Proof.
  intros Hlen Hr Hq Hts. destruct (create_key_ok fl r fam q ts Hlen) as (l & Hl & _ & E).
  rewrite E. eexists _, _. split; [reflexivity|]. rewrite <- app_assoc.
  split; [apply load_packed; try assumption; now apply wrap_range|].
  cbn [row column_family_code column_qualifier flag timestamp end_off].
  rewrite write_key_shape, <- app_assoc. cbn [app].
  rewrite !cstr_app, signed_u64, !length_app by assumption. auto 10.
Qed.

Lemma create_load_roundtrip_witness :
  exists m k, create_key FLAG_INSERT [114; 49] 7 (Some [113]) (-5) = Ok m /\ load (m ++ [9]) = Ok (Some k) /\
    cstr (row k) = Some [114; 49] /\ column_family_code k = 7 /\
    cstr (column_qualifier k) = Some (qual_or_empty (Some [113])) /\
    flag k = FLAG_INSERT /\ timestamp k = -5 /\ end_off k = length m.
Proof.
  apply (create_load_roundtrip FLAG_INSERT [114; 49] 7 (Some [113]) (-5) [9]);
    solve [vm_compute; intuition discriminate | repeat constructor; discriminate].
Defined.

(** [Key::update_ts] on a loaded key rewrites exactly the timestamp: the
    memory becomes that of the key [create_key] builds with the new timestamp,
    which loads with every other component unchanged. *)
Theorem update_ts_correct fl r fam q ts ts' rest : key_len r q < 2 ^ 32 ->
  no_nul r -> no_nul (qual_or_empty q) -> - 2 ^ 63 <= ts < 2 ^ 63 -> - 2 ^ 63 <= ts' < 2 ^ 63 ->
  exists m m' k, create_key fl r fam q ts = Ok m /\ load (m ++ rest) = Ok (Some k) /\
    create_key fl r fam q ts' = Ok m' /\ update_ts k (u64 ts') (m ++ rest) = Ok (m' ++ rest).
Proof.
  intros Hlen Hr Hq Hts Hts'. destruct (create_key_ok fl r fam q ts Hlen) as (l & Hl & _ & E).
  destruct (create_key_ok fl r fam q ts' Hlen) as (l' & Hl' & _ & E'). rewrite Hl in Hl'. injection Hl' as <-.
  rewrite E, E'. exists (l ++ write_key fl r fam q (u64 ts)), (l ++ write_key fl r fam q (u64 ts')).
  eexists. split; [reflexivity|]. rewrite <- !app_assoc.
  split; [apply load_packed; try assumption; now apply wrap_range|]. split; [reflexivity|].
  unfold update_ts. cbn [timestamp_off]. rewrite wrap_idem by lia. rewrite !write_key_shape.
  set (h := r ++ 0 :: fam :: qual_or_empty q ++ [0; fl]).
  assert (S : forall t u, (r ++ 0 :: fam :: qual_or_empty q ++ 0 :: fl :: t) ++ u = h ++ t ++ u).
  { intros t u. subst h. rewrite <- !app_assoc. cbn [app]. now rewrite <- !app_assoc. }
  assert (Sl : length (r ++ 0 :: fam :: qual_or_empty q ++ 0 :: fl :: encode_ts64 (u64 ts)) = (length h + 8)%nat).
  { pose proof (S (encode_ts64 (u64 ts)) []) as E0. rewrite !app_nil_r in E0. rewrite E0, length_app.
    now rewrite length_encode_ts64. }
  rewrite Sl, !S. rewrite (app_assoc l h).
  replace (length l + (length h + 8) - 8)%nat with (length (l ++ h)) by (rewrite length_app; lia).
  rewrite firstn_app_exact, (length_app (l ++ h)), (length_app (encode_ts64 _)), length_encode_ts64.
  rewrite (proj2 (Nat.leb_le _ _)) by lia. f_equal. rewrite <- app_assoc. do 3 f_equal.
  rewrite (app_assoc (l ++ h)).
  replace (length (l ++ h) + 8)%nat with (length ((l ++ h) ++ encode_ts64 (u64 ts))) by now rewrite (length_app (l ++ h)).
  apply skipn_app_exact.
Qed.

Lemma update_ts_correct_witness :
  exists m m' k, create_key FLAG_INSERT [114; 49] 7 None 0 = Ok m /\ load (m ++ [9]) = Ok (Some k) /\
    create_key FLAG_INSERT [114; 49] 7 None 12345 = Ok m' /\ update_ts k (u64 12345) (m ++ [9]) = Ok (m' ++ [9]).
Proof.
  apply (update_ts_correct FLAG_INSERT [114; 49] 7 None 0 12345 [9]);
    solve [vm_compute; intuition discriminate | repeat constructor; discriminate].
Defined.

(** [create_key_and_append] leaves the bytes of [create_key] in the buffer. *)
Lemma create_key_and_append_ok buf fl r fam q ts : DynamicBuffer.wf buf -> key_len r q < 2 ^ 32 ->
  (DynamicBuffer.fill buf + (key_len r q + encoded_length_vi32 (key_len r q))) * 3 / 2 < 2 ^ 32 ->
  exists m buf', create_key fl r fam q ts = Ok m /\ create_key_and_append buf fl r fam q ts = Ok buf' /\
    DynamicBuffer.data buf' = DynamicBuffer.data buf ++ m /\ DynamicBuffer.wf buf'.
Proof.
  intros Hw Hlen Hb. destruct (create_key_ok fl r fam q ts Hlen) as (l & Hl & Hll & E).
  pose proof (encoded_length_vi32_range (key_len r q)).
  assert (0 <= key_len r q) by (unfold key_len, zlen; destruct q; lia).
  destruct (DynamicBuffer.ensure_ok (key_len r q + encoded_length_vi32 (key_len r q)) buf Hw)
    as (b1 & E1 & W1 & D1 & R1); [lia|assumption|].
  rewrite E. unfold create_key_and_append. rewrite E1, Hl. cbn [bind].
  assert (F1 : DynamicBuffer.fill b1 = DynamicBuffer.fill buf) by (unfold DynamicBuffer.fill; now rewrite D1).
  destruct (DynamicBuffer.put_ok l b1) as (b2 & E2 & W2 & D2 & C2); [lia|assumption|].
  rewrite E2. cbn [bind]. set (w := write_key fl r fam q (u64 ts)).
  assert (Lw : zlen w = key_len r q) by apply zlen_write_key.
  destruct (DynamicBuffer.put_ok w b2) as (b3 & E3 & W3 & D3 & C3);
    [unfold DynamicBuffer.fill in *; rewrite D2, zlen_app; lia|assumption|].
  eexists _, b3. split; [reflexivity|]. split; [assumption|]. split; [|assumption].
  now rewrite D3, D2, D1, app_assoc.
Qed.

(** ** Order of packed keys *)

Lemma bytes_cmp_be n : forall a b, 0 <= a < 2 ^ (8 * Z.of_nat n) -> 0 <= b < 2 ^ (8 * Z.of_nat n) ->
  bytes_cmp (rev (le_bytes n a)) (rev (le_bytes n b)) = (a ?= b).
Proof.
  induction n as [|n IH]; intros a b Ha Hb.
  - change (2 ^ (8 * Z.of_nat 0)) with 1 in *. cbn. symmetry. apply Z.compare_eq_iff. lia.
  - replace (8 * Z.of_nat (S n)) with (8 + 8 * Z.of_nat n) in Ha, Hb by lia.
    rewrite Z.pow_add_r in Ha, Hb by lia. change (2 ^ 8) with 256 in *.
    cbn [le_bytes rev]. rewrite bytes_cmp_app_same_len by (rewrite !length_rev, !length_le_bytes; reflexivity).
    rewrite IH by (split; [apply Z.div_pos; lia|apply Z.div_lt_upper_bound; lia]).
    cbn [bytes_cmp]. unfold wrap. change (2 ^ 8) with 256.
    pose proof (Z.div_mod a 256 ltac:(lia)). pose proof (Z.mod_pos_bound a 256 ltac:(lia)).
    pose proof (Z.div_mod b 256 ltac:(lia)). pose proof (Z.mod_pos_bound b 256 ltac:(lia)).
    destruct (Z.compare_spec (a / 256) (b / 256)) as [E|E|E].
    + destruct (Z.compare_spec (a mod 256) (b mod 256)); symmetry;
        [apply Z.compare_eq_iff|apply Z.compare_lt_iff|apply Z.compare_gt_iff]; lia.
    + symmetry. apply Z.compare_lt_iff. lia.
    + symmetry. apply Z.compare_gt_iff. lia.
Qed.

(** Lexicographic combination of comparisons. *)
Definition then_cmp (c d : comparison) : comparison := match c with Eq => d | _ => c end.

(** The intended order of keys: row, family code, qualifier, flag, and the
    newest timestamp first (as unsigned 64-bit numbers). *)
Definition key_cmp (fl : Z) (r : list Z) (fam : Z) (q : list Z) (ts : Z)
                   (fl' : Z) (r' : list Z) (fam' : Z) (q' : list Z) (ts' : Z) : comparison :=
  then_cmp (bytes_cmp r r') (then_cmp (fam ?= fam') (then_cmp (bytes_cmp q q')
    (then_cmp (fl ?= fl') (ts' ?= ts)))).

Lemma encode_ts64_cmp a b : in_range 64 a -> in_range 64 b ->
  bytes_cmp (encode_ts64 a) (encode_ts64 b) = (b ?= a).
Proof.
  intros Ha Hb. rewrite !encode_ts64_be, bytes_cmp_be;
    try (change (8 * Z.of_nat 8) with 64; now apply not64_range).
  rewrite !not64_eq by assumption.
  destruct (Z.compare_spec b a); [apply Z.compare_eq_iff|apply Z.compare_lt_iff|apply Z.compare_gt_iff]; lia.
Qed.

(** C28. Comparing packed keys as byte strings orders them by row, column family
    code, qualifier, flag and then by descending timestamp, so that deletes come
    before inserts and new versions before old ones. *)
Theorem packed_key_order fl r fam q ts fl' r' fam' q' ts' :
  no_nul r -> wf_bytes r -> no_nul r' -> wf_bytes r' ->
  no_nul (qual_or_empty q) -> wf_bytes (qual_or_empty q) ->
  no_nul (qual_or_empty q') -> wf_bytes (qual_or_empty q') ->
  in_range 64 ts -> in_range 64 ts' ->
  bytes_cmp (write_key fl r fam q ts) (write_key fl' r' fam' q' ts') =
  key_cmp fl r fam (qual_or_empty q) ts fl' r' fam' (qual_or_empty q') ts'.
Proof.
  intros. rewrite !write_key_shape, bytes_cmp_cstr by assumption. unfold key_cmp, then_cmp.
  destruct (bytes_cmp r r'); try reflexivity. cbn [bytes_cmp].
  destruct (fam ?= fam'); try reflexivity. rewrite bytes_cmp_cstr by assumption.
  destruct (bytes_cmp (qual_or_empty q) (qual_or_empty q')); try reflexivity. cbn [bytes_cmp].
  destruct (fl ?= fl'); try reflexivity. now apply encode_ts64_cmp.
Qed.

Lemma packed_key_order_witness :
  bytes_cmp (write_key FLAG_INSERT [97] 1 None 5) (write_key FLAG_INSERT [97] 1 (Some []) 9) =
  key_cmp FLAG_INSERT [97] 1 (qual_or_empty None) 5 FLAG_INSERT [97] 1 (qual_or_empty (Some [])) 9.
Proof.
  apply (packed_key_order FLAG_INSERT [97] 1 None 5 FLAG_INSERT [97] 1 (Some []) 9);
    repeat constructor; vm_compute; intuition discriminate.
Defined.

(** ** Keys as components

    The range server hands packed keys around as [ByteString]s and parses them
    where it needs the parts.  [parse_key] is what [Key::load] computes from the
    content of the byte string, the strings delimited; [pack] is the inverse. *)

Record KeyComps := {
  k_row : list Z; k_family : Z; k_qual : list Z; k_flag : Z; k_ts : Z }.

Fixpoint split_nul (c : list Z) : option (list Z * list Z) :=
  match c with
  | [] => None
  | b :: c' =>
      if b =? 0 then Some ([], c')
      else match split_nul c' with
           | Some (s, r) => Some (b :: s, r)
           | None => None
           end
  end.

Definition parse_key (c : list Z) : option KeyComps :=
  match split_nul c with
  | Some (r, fam :: qual) =>
      match split_nul qual with
      | Some (q, fl :: tsp) =>
          if (length tsp =? 8)%nat then
            match decode_ts64 tsp with
            | Ok (ts, _) => Some {| k_row := r; k_family := fam; k_qual := q; k_flag := fl;
                                    k_ts := signed 64 ts |}
            | _ => None
            end
          else None
      | _ => None
      end
  | _ => None
  end.

Definition pack (k : KeyComps) : list Z :=
  write_key (k_flag k) (k_row k) (k_family k) (Some (k_qual k)) (u64 (k_ts k)).

(** The components a packed key can have. *)
Definition wf_comps (k : KeyComps) : Prop :=
  no_nul (k_row k) /\ wf_bytes (k_row k) /\ is_byte (k_family k) /\
  no_nul (k_qual k) /\ wf_bytes (k_qual k) /\ is_byte (k_flag k) /\ - 2 ^ 63 <= k_ts k < 2 ^ 63.

Lemma split_nul_app s r : no_nul s -> split_nul (s ++ 0 :: r) = Some (s, r).
Proof.
  induction 1 as [|b s Hb Hs IH]; [reflexivity|]. cbn.
  now rewrite (proj2 (Z.eqb_neq b 0) Hb), IH.
Qed.

Lemma split_nul_inv c s r : split_nul c = Some (s, r) -> c = s ++ 0 :: r /\ no_nul s.
Proof.
  revert s r. induction c as [|b c IH]; intros s r; cbn; [discriminate|].
  destruct (Z.eqb_spec b 0) as [->|Hb]; [intros [= <- <-]; split; [reflexivity|constructor]|].
  destruct (split_nul c) as [[s' r']|] eqn:E; [|discriminate].
  intros [= <- <-]. destruct (IH _ _ eq_refl) as [-> ?]. split; [reflexivity|now constructor].
Qed.

Lemma parse_pack k : wf_comps k -> parse_key (pack k) = Some k.
Proof.
  intros (Hr & _ & _ & Hq & _ & _ & Ht). unfold pack, parse_key. rewrite write_key_shape.
  rewrite split_nul_app by assumption. cbn [qual_or_empty]. rewrite split_nul_app by assumption.
  rewrite length_encode_ts64. cbn [Nat.eqb].
  rewrite <- (app_nil_r (encode_ts64 _)), decode_encode_ts64 by now apply wrap_range.
  rewrite signed_u64 by assumption. now destruct k.
Qed.

Lemma decode_ts64_inv p : wf_bytes p -> length p = 8%nat ->
  exists v, in_range 64 v /\ p = encode_ts64 v /\ decode_ts64 p = Ok (v, []).
Proof.
  intros Hw Hl. exists (not64 (le_value (rev p))).
  assert (Hw' : wf_bytes (rev p)) by now apply Forall_rev.
  assert (Hl' : length (rev p) = 8%nat) by now rewrite length_rev.
  assert (Hv : in_range 64 (le_value (rev p))).
  { pose proof (le_value_range _ Hw') as H. unfold zlen in H. now rewrite Hl' in H. }
  split; [now apply not64_range|]. split.
  - rewrite encode_ts64_be, not64_invol by assumption.
    rewrite <- Hl', le_bytes_le_value, rev_involutive by assumption. reflexivity.
  - rewrite <- (rev_involutive p) at 1. rewrite <- (app_nil_r (rev (rev p))).
    now apply decode_ts64_value.
Qed.

Lemma signed_range w x : 0 < w -> - 2 ^ (w - 1) <= signed w x < 2 ^ (w - 1).
Proof.
  intros Hw. unfold signed.
  assert (E : 2 ^ w = 2 * 2 ^ (w - 1)) by (rewrite <- Z.pow_succ_r by lia; f_equal; lia).
  pose proof (wrap_range w x ltac:(lia)) as H. unfold in_range in H.
  destruct (Z.ltb_spec (wrap w x) (2 ^ (w - 1))); lia.
Qed.

Lemma pack_parse c k : wf_bytes c -> parse_key c = Some k -> c = pack k /\ wf_comps k.
Proof.
  intros Hw. unfold parse_key.
  destruct (split_nul c) as [[r [|fam qual]]|] eqn:E1; try discriminate.
  destruct (split_nul qual) as [[q [|fl tsp]]|] eqn:E2; try discriminate.
  destruct (Nat.eqb_spec (length tsp) 8) as [Hl|]; [|discriminate].
  apply split_nul_inv in E1 as [-> Hr]. apply split_nul_inv in E2 as [-> Hq].
  apply wf_bytes_app in Hw as [Wr Hw]. inv Hw. inv H2.
  apply wf_bytes_app in H4 as [Wq Hw]. inv Hw. inv H4.
  destruct (decode_ts64_inv tsp) as (v & Hv & -> & ->); [assumption|assumption|].
  intros [= <-]. split.
  - unfold pack. cbn [k_flag k_row k_family k_qual k_ts]. rewrite write_key_shape, wrap_signed, wrap_small by (assumption || lia). reflexivity.
  - unfold wf_comps. cbn. pose proof (signed_range 64 v ltac:(lia)). auto 10.
Qed.

Lemma scan_nul_split c rest : scan_nul (length c) (c ++ rest) =
  match split_nul c with
  | Some (_, r) => Ok (S (length r), 0 :: r ++ rest)
  | None => Ok (O, rest)
  end.
Proof.
  induction c as [|b c IH]; [reflexivity|]. cbn [length app scan_nul split_nul].
  destruct (Z.eqb_spec b 0) as [->|Hb]; [reflexivity|].
  rewrite IH. now destruct (split_nul c) as [[s r]|].
Qed.

Lemma scan_nul_skip l n m : no_nul l -> scan_nul (length l + n) (l ++ m) = scan_nul n m.
Proof.
  induction 1 as [|b l Hb Hl IH]; [reflexivity|]. cbn [length app Nat.add scan_nul].
  now rewrite (proj2 (Z.eqb_neq b 0) Hb), IH.
Qed.

Lemma holds_prefix_no_nul m c rest : holds m c rest -> c <> [] ->
  exists l, m = l ++ c ++ rest /\ no_nul l.
Proof.
  intros (l & Hl & -> & Hc) Hne. exists l. split; [reflexivity|].
  apply (encode_vint_nonzero 5 (u32 (zlen c))); [|exact Hl].
  destruct c; [congruence|]. rewrite wrap_small; unfold in_range, zlen in *; cbn [length] in *; lia.
Qed.

(** [Key::load] on a byte string, wherever it lies in memory and whatever its
    content, computes [parse_key] of the content: it rejects the same strings,
    and otherwise the members of [Key] are the components. *)
Theorem load_refines_parse m c rest : holds m c rest -> wf_bytes c ->
  match parse_key c with
  | None => load m = Ok None
  | Some kc => exists k, load m = Ok (Some k) /\ cstr (row k) = Some (k_row kc) /\
      column_family_code k = k_family kc /\ cstr (column_qualifier k) = Some (k_qual kc) /\
      flag k = k_flag kc /\ timestamp k = k_ts kc
  end.
Proof.
  intros Hh Hw. unfold load. cbn [decode_length]. rewrite (holds_decode _ _ _ Hh). cbn [bind].
  destruct (list_eq_dec Z.eq_dec c []) as [->|Hne].
  { destruct Hh as (l & Hl & -> & _). injection Hl as <-. change (zlen []) with 0.
    replace (length ([u8 0] ++ [] ++ rest) - length ([] ++ rest) + Z.to_nat 0)%nat with 1%nat
      by (rewrite !length_app; cbn [length]; lia).
    reflexivity. }
  destruct (holds_prefix_no_nul m c rest Hh Hne) as (l & -> & Hl).
  replace (length (l ++ c ++ rest) - length (c ++ rest) + Z.to_nat (zlen c))%nat
    with (length l + length c)%nat by (unfold zlen; rewrite !length_app; lia).
  rewrite scan_nul_skip, scan_nul_split by assumption. unfold parse_key.
  destruct (split_nul c) as [[r qual]|] eqn:E1; [|reflexivity].
  apply split_nul_inv in E1 as [-> Hr]. cbn [bind tl].
  destruct qual as [|fam qual]; [reflexivity|]. cbn [length app Nat.leb Nat.sub].
  rewrite Nat.sub_0_r, scan_nul_split.
  destruct (split_nul qual) as [[q tsp]|] eqn:E2; [|reflexivity].
  apply split_nul_inv in E2 as [-> Hq]. cbn [bind tl].
  destruct tsp as [|fl tsp]; [reflexivity|]. cbn [length app Nat.leb Nat.sub Nat.eqb].
  apply wf_bytes_app in Hw as [_ Hw]. inv Hw. inv H2. apply wf_bytes_app in H4 as [_ Hw]. inv Hw. inv H4.
  destruct (Nat.eqb_spec (length tsp) 8) as [H8|]; [|reflexivity]. cbn [negb].
  destruct (decode_ts64_inv tsp) as (v & Hv & -> & ->); [assumption|assumption|].
  rewrite decode_encode_ts64 by assumption. cbn [bind]. eexists; split; [reflexivity|].
  cbn [row column_family_code column_qualifier flag timestamp k_row k_family k_qual k_flag k_ts].
  rewrite <- app_assoc. cbn [app]. rewrite <- app_assoc. cbn [app]. rewrite !cstr_app by assumption. auto.
Qed.

Lemma load_refines_parse_witness :
  exists k, load ([14] ++ [97; 0; 1; 113; 0; 255; 255; 255; 255; 255; 255; 255; 255; 251] ++ [5]) = Ok (Some k) /\
    cstr (row k) = Some [97] /\ column_family_code k = 1 /\ cstr (column_qualifier k) = Some [113] /\
    flag k = FLAG_INSERT /\ timestamp k = 4.
Proof.
  apply (load_refines_parse ([14] ++ [97; 0; 1; 113; 0; 255; 255; 255; 255; 255; 255; 255; 255; 251] ++ [5])
           [97; 0; 1; 113; 0; 255; 255; 255; 255; 255; 255; 255; 255; 251] [5]).
  - exists [14]. vm_compute. intuition discriminate.
  - repeat constructor; vm_compute; intuition discriminate.
Defined.

(** The order of keys in terms of their components. *)
Definition comps_cmp (a b : KeyComps) : comparison :=
  key_cmp (k_flag a) (k_row a) (k_family a) (k_qual a) (u64 (k_ts a))
          (k_flag b) (k_row b) (k_family b) (k_qual b) (u64 (k_ts b)).

Lemma pack_cmp a b : wf_comps a -> wf_comps b -> bytes_cmp (pack a) (pack b) = comps_cmp a b.
Proof.
  intros (? & ? & ? & ? & ? & ? & ?) (? & ? & ? & ? & ? & ? & ?). unfold pack.
  rewrite !write_key_shape, bytes_cmp_cstr by assumption. unfold comps_cmp, key_cmp, then_cmp.
  destruct (bytes_cmp (k_row a) (k_row b)); try reflexivity. cbn [bytes_cmp].
  destruct (k_family a ?= k_family b); try reflexivity. cbn [qual_or_empty].
  rewrite bytes_cmp_cstr by assumption.
  destruct (bytes_cmp (k_qual a) (k_qual b)); try reflexivity. cbn [bytes_cmp].
  destruct (k_flag a ?= k_flag b); try reflexivity.
  apply encode_ts64_cmp; now apply wrap_range.
Qed.
