(* ===== verification/Deletes.v ===== *)
(** * Delete records

    [CellCache::purge_deletes] and [MergeScanner::forward] read cells in key
    order and carry the same few variables: the last row, column family and cell
    delete they saw.  This file has those variables and the two things done with
    them, noting a delete record and deciding about an insert, and proves that on
    a sorted sequence they compute a declarative rule. *)
From S2P Require Import Prelude Errors Serialization ByteString Key.
From Stdlib Require Import ZArith Lia List Bool RelationClasses.
Import ListNotations.
Open Scope Z_scope.

(** The variables; a [DynamicBuffer] with [fill() == 0] is the empty list. *)
Record deletes := {
  delete_present : bool;
  deleted_row : list Z; deleted_row_timestamp : Z;
  deleted_column_family : list Z; deleted_column_family_timestamp : Z;
  deleted_cell : list Z; deleted_cell_timestamp : Z }.

Definition no_deletes : deletes :=
  {| delete_present := false;
     deleted_row := []; deleted_row_timestamp := 0;
     deleted_column_family := []; deleted_column_family_timestamp := 0;
     deleted_cell := []; deleted_cell_timestamp := 0 |}.

(** The [len] bytes at [key.row] that identify the row ([strlen(row) + 1]), the
    column family ([column_qualifier - row]) and the cell. *)
Definition row_prefix (k : KeyComps) : list Z := k_row k ++ [0].
Definition cf_prefix (k : KeyComps) : list Z := k_row k ++ [0; k_family k].
Definition cell_prefix (k : KeyComps) : list Z := cf_prefix k ++ k_qual k ++ [0].

(** The three branches for delete records. *)
Definition note_row_delete (d : deletes) (k : KeyComps) : deletes :=
  if delete_present d && bytes_eqb (deleted_row d) (row_prefix k)
  then {| delete_present := delete_present d; deleted_row := deleted_row d;
          deleted_row_timestamp :=
            if deleted_row_timestamp d <? k_ts k then k_ts k else deleted_row_timestamp d;
          deleted_column_family := deleted_column_family d;
          deleted_column_family_timestamp := deleted_column_family_timestamp d;
          deleted_cell := deleted_cell d; deleted_cell_timestamp := deleted_cell_timestamp d |}
  else {| delete_present := true; deleted_row := row_prefix k; deleted_row_timestamp := k_ts k;
          deleted_column_family := deleted_column_family d;
          deleted_column_family_timestamp := deleted_column_family_timestamp d;
          deleted_cell := deleted_cell d; deleted_cell_timestamp := deleted_cell_timestamp d |}.

Definition note_cf_delete (d : deletes) (k : KeyComps) : deletes :=
  if delete_present d && bytes_eqb (deleted_column_family d) (cf_prefix k)
  then {| delete_present := delete_present d;
          deleted_row := deleted_row d; deleted_row_timestamp := deleted_row_timestamp d;
          deleted_column_family := deleted_column_family d;
          deleted_column_family_timestamp :=
            if deleted_column_family_timestamp d <? k_ts k then k_ts k
            else deleted_column_family_timestamp d;
          deleted_cell := deleted_cell d; deleted_cell_timestamp := deleted_cell_timestamp d |}
  else {| delete_present := true;
          deleted_row := deleted_row d; deleted_row_timestamp := deleted_row_timestamp d;
          deleted_column_family := cf_prefix k; deleted_column_family_timestamp := k_ts k;
          deleted_cell := deleted_cell d; deleted_cell_timestamp := deleted_cell_timestamp d |}.

Definition note_cell_delete (d : deletes) (k : KeyComps) : deletes :=
  if delete_present d && bytes_eqb (deleted_cell d) (cell_prefix k)
  then {| delete_present := delete_present d;
          deleted_row := deleted_row d; deleted_row_timestamp := deleted_row_timestamp d;
          deleted_column_family := deleted_column_family d;
          deleted_column_family_timestamp := deleted_column_family_timestamp d;
          deleted_cell := deleted_cell d;
          deleted_cell_timestamp :=
            if deleted_cell_timestamp d <? k_ts k then k_ts k else deleted_cell_timestamp d |}
  else {| delete_present := true;
          deleted_row := deleted_row d; deleted_row_timestamp := deleted_row_timestamp d;
          deleted_column_family := deleted_column_family d;
          deleted_column_family_timestamp := deleted_column_family_timestamp d;
          deleted_cell := cell_prefix k; deleted_cell_timestamp := k_ts k |}.

Definition note_delete (d : deletes) (k : KeyComps) : deletes :=
  if k_flag k =? FLAG_DELETE_ROW then note_row_delete d k
  else if k_flag k =? FLAG_DELETE_COLUMN_FAMILY then note_cf_delete d k
  else if k_flag k =? FLAG_DELETE_CELL then note_cell_delete d k
  else d.

(** [deleted_cell.clear()] and the like. *)
Definition clear_cell (d : deletes) : deletes :=
  {| delete_present := delete_present d;
     deleted_row := deleted_row d; deleted_row_timestamp := deleted_row_timestamp d;
     deleted_column_family := deleted_column_family d;
     deleted_column_family_timestamp := deleted_column_family_timestamp d;
     deleted_cell := []; deleted_cell_timestamp := deleted_cell_timestamp d |}.
Definition clear_cf (d : deletes) : deletes :=
  {| delete_present := delete_present d;
     deleted_row := deleted_row d; deleted_row_timestamp := deleted_row_timestamp d;
     deleted_column_family := [];
     deleted_column_family_timestamp := deleted_column_family_timestamp d;
     deleted_cell := deleted_cell d; deleted_cell_timestamp := deleted_cell_timestamp d |}.
Definition clear_row (d : deletes) : deletes :=
  {| delete_present := false;
     deleted_row := []; deleted_row_timestamp := deleted_row_timestamp d;
     deleted_column_family := deleted_column_family d;
     deleted_column_family_timestamp := deleted_column_family_timestamp d;
     deleted_cell := deleted_cell d; deleted_cell_timestamp := deleted_cell_timestamp d |}.

Definition nonempty (l : list Z) : bool := match l with [] => false | _ => true end.

(** The branch for an insert when [delete_present]: the cell delete decides if
    it is for this cell, else the family delete, else the row delete; the ones
    that do not match are cleared on the way, and when none matches
    [delete_present] is reset.  The boolean says whether the cell stays. *)
Definition check_insert (d : deletes) (k : KeyComps) : deletes * bool :=
  if delete_present d then
    if nonempty (deleted_cell d) && bytes_eqb (deleted_cell d) (cell_prefix k)
    then (d, deleted_cell_timestamp d <? k_ts k) else
    let d := clear_cell d in
    if nonempty (deleted_column_family d) && bytes_eqb (deleted_column_family d) (cf_prefix k)
    then (d, deleted_column_family_timestamp d <? k_ts k) else
    let d := clear_cf d in
    if nonempty (deleted_row d) && bytes_eqb (deleted_row d) (row_prefix k)
    then (d, deleted_row_timestamp d <? k_ts k) else
    (clear_row d, true)
  else (d, true).

(** ** The rule *)

(** The newest of the delete records with the given flag among [P] that are for
    the same row, column family or cell as [k]. *)
Definition newest (flag : Z) (same : KeyComps -> bool) (P : list KeyComps) : option Z :=
  fold_left (fun acc p =>
    if (k_flag p =? flag) && same p
    then Some (match acc with Some t => Z.max t (k_ts p) | None => k_ts p end)
    else acc) P None.

Definition same_row (k p : KeyComps) : bool := bytes_eqb (row_prefix p) (row_prefix k).
Definition same_cf (k p : KeyComps) : bool := bytes_eqb (cf_prefix p) (cf_prefix k).
Definition same_cell (k p : KeyComps) : bool := bytes_eqb (cell_prefix p) (cell_prefix k).

(** An insert survives when it is newer than the most specific delete for it. *)
Definition survives (P : list KeyComps) (k : KeyComps) : bool :=
  match newest FLAG_DELETE_CELL (same_cell k) P with
  | Some t => t <? k_ts k
  | None =>
      match newest FLAG_DELETE_COLUMN_FAMILY (same_cf k) P with
      | Some t => t <? k_ts k
      | None =>
          match newest FLAG_DELETE_ROW (same_row k) P with
          | Some t => t <? k_ts k
          | None => true
          end
      end
  end.

(** ** The variables compute the rule *)

Definition comps_le (a b : KeyComps) : Prop := comps_cmp a b <> Gt.

(** What the variables say about a key. *)
Definition look_row (d : deletes) (k : KeyComps) : option Z :=
  if delete_present d && bytes_eqb (deleted_row d) (row_prefix k)
  then Some (deleted_row_timestamp d) else None.
Definition look_cf (d : deletes) (k : KeyComps) : option Z :=
  if delete_present d && bytes_eqb (deleted_column_family d) (cf_prefix k)
  then Some (deleted_column_family_timestamp d) else None.
Definition look_cell (d : deletes) (k : KeyComps) : option Z :=
  if delete_present d && bytes_eqb (deleted_cell d) (cell_prefix k)
  then Some (deleted_cell_timestamp d) else None.

(** The variables after the records [P] know every delete in [P] that concerns a
    key that can still come. *)
Record tracks (d : deletes) (P : list KeyComps) : Prop := {
  tracks_empty : delete_present d = false ->
    deleted_row d = [] /\ deleted_column_family d = [] /\ deleted_cell d = [];
  tracks_look : forall k, wf_comps k -> (forall p, In p P -> comps_le p k) ->
    look_row d k = newest FLAG_DELETE_ROW (same_row k) P /\
    look_cf d k = newest FLAG_DELETE_COLUMN_FAMILY (same_cf k) P /\
    look_cell d k = newest FLAG_DELETE_CELL (same_cell k) P }.

Lemma newest_snoc f s P x : newest f s (P ++ [x]) =
  if (k_flag x =? f) && s x
  then Some (match newest f s P with Some t => Z.max t (k_ts x) | None => k_ts x end)
  else newest f s P.
Proof. unfold newest. rewrite fold_left_app. reflexivity. Qed.

Lemma newest_In f s P t : newest f s P = Some t -> exists p, In p P /\ s p = true.
Proof.
  revert t. induction P as [|x P IH] using rev_ind; intros t H; [discriminate|].
  rewrite newest_snoc in H. destruct ((k_flag x =? f) && s x) eqn:E.
  - apply andb_true_iff in E as [_ E]. exists x. rewrite in_app_iff. cbn. auto.
  - destruct (IH _ H) as (p & Hp & Hs). exists p. rewrite in_app_iff. auto.
Qed.

Lemma comps_le_lex a b : comps_le a b ->
  bytes_lt (k_row a) (k_row b) \/
  k_row a = k_row b /\
  (k_family a < k_family b \/
   k_family a = k_family b /\ (bytes_lt (k_qual a) (k_qual b) \/ k_qual a = k_qual b)).
Proof.
  unfold comps_le, comps_cmp, key_cmp, then_cmp.
  destruct (bytes_cmp (k_row a) (k_row b)) eqn:Er; [|now left|congruence].
  apply bytes_cmp_eq in Er. intros H. right. split; [assumption|].
  destruct (Z.compare_spec (k_family a) (k_family b)); [|now left|congruence].
  right. split; [assumption|].
  destruct (bytes_cmp (k_qual a) (k_qual b)) eqn:Eq; [|now left|congruence].
  right. now apply bytes_cmp_eq.
Qed.

Lemma bytes_lt_asym a b : bytes_lt a b -> bytes_lt b a -> False.
Proof. intros H1 H2. exact (bytes_lt_irrefl _ (bytes_lt_trans _ _ _ H1 H2)). Qed.

(** What equal prefixes mean. *)
Lemma same_row_iff k p : same_row k p = true <-> k_row p = k_row k.
Proof.
  unfold same_row, row_prefix. rewrite bytes_eqb_eq. split; [|congruence].
  intros H. now apply app_inj_tail in H.
Qed.

Lemma same_cf_iff k p : same_cf k p = true <-> k_row p = k_row k /\ k_family p = k_family k.
Proof.
  unfold same_cf, cf_prefix. rewrite bytes_eqb_eq. split; [|intros [-> ->]; reflexivity].
  rewrite (app_assoc _ [0] [k_family p] : _ ++ [0; _] = _), (app_assoc _ [0] [k_family k] : _ ++ [0; _] = _).
  intros H. apply app_inj_tail in H as [H ->]. now apply app_inj_tail in H as [-> _].
Qed.

Lemma same_cell_iff k p : wf_comps k -> wf_comps p ->
  same_cell k p = true <-> k_row p = k_row k /\ k_family p = k_family k /\ k_qual p = k_qual k.
Proof.
  intros (Nk & _) (Np & _). unfold same_cell, cell_prefix, cf_prefix. rewrite bytes_eqb_eq.
  split; [|intros (-> & -> & ->); reflexivity].
  rewrite <- !app_assoc. cbn [app]. intros H.
  apply (f_equal split_nul) in H. rewrite !split_nul_app in H by assumption.
  injection H as -> -> H. now apply app_inj_tail in H as [-> _].
Qed.

(** Between two keys of the same row, column family or cell there are only such
    keys. *)
Lemma between p x k : comps_le p x -> comps_le x k ->
  (k_row p = k_row k -> k_row x = k_row k /\
   (k_family p = k_family k -> k_family x = k_family k /\
    (k_qual p = k_qual k -> k_qual x = k_qual k))).
Proof.
  intros H1 H2 Er. apply comps_le_lex in H1, H2. rewrite Er in H1.
  assert (Ex : k_row x = k_row k).
  { destruct H1 as [H1|[H1 _]]; [|now symmetry]. destruct H2 as [H2|[H2 _]]; [|assumption].
    destruct (bytes_lt_asym _ _ H1 H2). }
  split; [assumption|]. intros Ef. rewrite Ex in *.
  destruct H1 as [H1|[_ H1]]; [destruct (bytes_lt_irrefl _ H1)|].
  destruct H2 as [H2|[_ H2]]; [destruct (bytes_lt_irrefl _ H2)|].
  assert (Efx : k_family x = k_family k) by lia. split; [assumption|]. intros Eq.
  destruct H1 as [H1|[_ H1]]; [lia|]. destruct H2 as [H2|[_ H2]]; [lia|]. rewrite Eq in H1.
  destruct H1 as [H1|H1]; [|now symmetry]. destruct H2 as [H2|H2]; [|assumption].
  destruct (bytes_lt_asym _ _ H1 H2).
Qed.

Lemma between_same p x k : wf_comps p -> wf_comps x -> wf_comps k -> comps_le p x -> comps_le x k ->
  (same_row k p = true -> same_row k x = true) /\
  (same_cf k p = true -> same_cf k x = true) /\
  (same_cell k p = true -> same_cell k x = true).
Proof.
  intros Wp Wx Wk H1 H2. pose proof (between p x k H1 H2) as B.
  rewrite !same_row_iff, !same_cf_iff, !same_cell_iff by assumption. intuition.
Qed.

(** Seen from [x] on, deletes for another row, family or cell are over. *)
Lemma newest_over f P x k : wf_comps x -> wf_comps k -> Forall wf_comps P ->
  (forall p, In p P -> comps_le p x) -> comps_le x k ->
  (same_row k x = false -> newest f (same_row k) P = None) /\
  (same_cf k x = false -> newest f (same_cf k) P = None) /\
  (same_cell k x = false -> newest f (same_cell k) P = None).
Proof.
  intros Wx Wk WP Hx Hk.
  assert (B : forall p, In p P ->
    (same_row k p = true -> same_row k x = true) /\ (same_cf k p = true -> same_cf k x = true) /\
    (same_cell k p = true -> same_cell k x = true)).
  { intros p Hp. apply between_same; auto. now apply (proj1 (Forall_forall _ _) WP). }
  repeat split; intros E;
    match goal with |- ?n = None => destruct n eqn:N; [exfalso|reflexivity] end;
    apply newest_In in N as (p & Hp & Hs); destruct (B p Hp) as (B1 & B2 & B3);
    (rewrite (B1 Hs) in E || rewrite (B2 Hs) in E || rewrite (B3 Hs) in E); discriminate.
Qed.

Lemma comps_le_trans a b c : wf_comps a -> wf_comps b -> wf_comps c ->
  comps_le a b -> comps_le b c -> comps_le a c.
Proof.
  intros Wa Wb Wc. unfold comps_le. rewrite <- !pack_cmp by assumption.
  destruct (bytes_cmp (pack a) (pack b)) eqn:E1; [apply bytes_cmp_eq in E1 as ->; auto| |congruence].
  destruct (bytes_cmp (pack b) (pack c)) eqn:E2; [|intros _ _|congruence].
  - apply bytes_cmp_eq in E2 as <-. congruence.
  - rewrite (bytes_lt_trans _ _ _ E1 E2). discriminate.
Qed.

Lemma eqb_sym_bytes a b : bytes_eqb a b = bytes_eqb b a.
Proof.
  destruct (bytes_eqb a b) eqn:E; symmetry.
  - apply bytes_eqb_eq in E. now apply bytes_eqb_eq.
  - apply bytes_eqb_neq in E. apply bytes_eqb_neq. congruence.
Qed.

(** One of the three pairs of a buffer and a timestamp. *)
Section Slot.
Variable pre : KeyComps -> list Z.
Variable f : Z.
Hypothesis pre_nonempty : forall k, pre k <> [].

Definition same (k p : KeyComps) : bool := bytes_eqb (pre p) (pre k).
Definition look (present : bool) (buf : list Z) (ts : Z) (k : KeyComps) : option Z :=
  if present && bytes_eqb buf (pre k) then Some ts else None.

Variables (present : bool) (buf : list Z) (ts : Z) (P : list KeyComps) (k x : KeyComps).
Hypothesis Hlook : look present buf ts k = newest f (same k) P.
Hypothesis Hover : same k x = false -> newest f (same k) P = None.

(** The slot of the kind of [x] notes the record [x]. *)
Lemma slot_note : k_flag x = f ->
  (if present && bytes_eqb buf (pre x)
   then look true buf (if ts <? k_ts x then k_ts x else ts) k
   else look true (pre x) (k_ts x) k) = newest f (same k) (P ++ [x]).
Proof.
  intros Hf. rewrite newest_snoc, Hf, Z.eqb_refl. cbn [andb].
  destruct (same k x) eqn:Es.
  - unfold same in Es. pose proof Es as Es'. apply bytes_eqb_eq in Es. rewrite Es. rewrite <- Hlook.
    unfold look. destruct (present && bytes_eqb buf (pre k)) eqn:E.
    + apply andb_true_iff in E as [-> ->]. cbn [andb]. f_equal. destruct (Z.ltb_spec ts (k_ts x)); lia.
    + cbn [andb]. now rewrite (proj2 (bytes_eqb_eq (pre k) (pre k)) eq_refl).
  - rewrite (Hover eq_refl). unfold same in Es. unfold look.
    destruct (present && bytes_eqb buf (pre x)) eqn:E; cbn [andb].
    + apply andb_true_iff in E as [_ E]. apply bytes_eqb_eq in E as ->. now rewrite Es.
    + now rewrite Es.
Qed.

(** The other slots stay as they are; [delete_present] may become true. *)
Lemma slot_keep present' : (present = false -> buf = []) -> (present = true -> present' = true) ->
  (k_flag x =? f) && same k x = false ->
  look present' buf ts k = newest f (same k) (P ++ [x]).
Proof.
  intros He Hp Hx. rewrite newest_snoc, Hx, <- Hlook. unfold look. destruct present.
  - now rewrite Hp.
  - rewrite (He eq_refl). cbn [andb]. destruct (bytes_eqb [] (pre k)) eqn:E; [|now rewrite andb_false_r].
    apply bytes_eqb_eq in E. symmetry in E. destruct (pre_nonempty _ E).
Qed.

(** A slot that does not match the insert [x] is cleared. *)
Lemma slot_clear present' : present && (nonempty buf && bytes_eqb buf (pre x)) = false ->
  k_flag x <> f ->
  look present' [] ts k = newest f (same k) (P ++ [x]).
Proof.
  intros Hm Hf. rewrite newest_snoc, (proj2 (Z.eqb_neq _ _) Hf). cbn [andb].
  assert (E : look present' [] ts k = None).
  { unfold look. destruct (bytes_eqb [] (pre k)) eqn:E; [|now rewrite andb_false_r].
    apply bytes_eqb_eq in E. symmetry in E. destruct (pre_nonempty _ E). }
  rewrite E. symmetry. destruct (same k x) eqn:Es; [|now apply Hover].
  rewrite <- Hlook. unfold look. unfold same in Es. apply bytes_eqb_eq in Es. rewrite Es in Hm.
  destruct present; [|reflexivity]. cbn [andb] in *.
  destruct (bytes_eqb buf (pre k)) eqn:Eb; [|reflexivity].
  rewrite andb_true_r in Hm. apply bytes_eqb_eq in Eb. rewrite Eb in Hm.
  destruct (pre k) eqn:Ek; [destruct (pre_nonempty _ Ek)|discriminate].
Qed.

End Slot.

Lemma row_prefix_ne k : row_prefix k <> [].
Proof. unfold row_prefix. now destruct (k_row k). Qed.
Lemma cf_prefix_ne k : cf_prefix k <> [].
Proof. unfold cf_prefix. now destruct (k_row k). Qed.
Lemma cell_prefix_ne k : cell_prefix k <> [].
Proof. unfold cell_prefix, cf_prefix. now destruct (k_row k). Qed.

#[local] Hint Resolve row_prefix_ne cf_prefix_ne cell_prefix_ne : hyper.

Lemma tracks_init : tracks no_deletes [].
Proof. split; [cbn; auto|]. intros k _ _. now cbn. Qed.

Lemma In_snoc {A} (P : list A) x p : In p P -> In p (P ++ [x]).
Proof. rewrite in_app_iff. auto. Qed.

(** The facts about a key that comes after [P] and [x]. *)
Lemma tracks_future d P x k : tracks d P -> wf_comps k -> wf_comps x -> Forall wf_comps P ->
  (forall p, In p P -> comps_le p x) -> (forall p, In p (P ++ [x]) -> comps_le p k) ->
  (look_row d k = newest FLAG_DELETE_ROW (same_row k) P /\
   look_cf d k = newest FLAG_DELETE_COLUMN_FAMILY (same_cf k) P /\
   look_cell d k = newest FLAG_DELETE_CELL (same_cell k) P) /\
  (same_row k x = false -> newest FLAG_DELETE_ROW (same_row k) P = None) /\
  (same_cf k x = false -> newest FLAG_DELETE_COLUMN_FAMILY (same_cf k) P = None) /\
  (same_cell k x = false -> newest FLAG_DELETE_CELL (same_cell k) P = None).
Proof.
  intros T Wk Wx WP Hx Hk.
  assert (Hxk : comps_le x k) by (apply Hk; rewrite in_app_iff; cbn; auto).
  split; [apply T; auto using In_snoc|].
  repeat split; intros E; eapply newest_over; eauto.
Qed.

(** A slot the record does not concern, whatever became of [delete_present]. *)
Ltac slot_kept L E F :=
  eapply slot_keep; [auto with hyper | exact L | exact E | cbn; auto
    | rewrite F; reflexivity].

Lemma note_row_tracks d P x k : k_flag x = FLAG_DELETE_ROW ->
  (delete_present d = false -> deleted_row d = [] /\ deleted_column_family d = [] /\ deleted_cell d = []) ->
  look_row d k = newest FLAG_DELETE_ROW (same_row k) P ->
  look_cf d k = newest FLAG_DELETE_COLUMN_FAMILY (same_cf k) P ->
  look_cell d k = newest FLAG_DELETE_CELL (same_cell k) P ->
  (same_row k x = false -> newest FLAG_DELETE_ROW (same_row k) P = None) ->
  look_row (note_row_delete d x) k = newest FLAG_DELETE_ROW (same_row k) (P ++ [x]) /\
  look_cf (note_row_delete d x) k = newest FLAG_DELETE_COLUMN_FAMILY (same_cf k) (P ++ [x]) /\
  look_cell (note_row_delete d x) k = newest FLAG_DELETE_CELL (same_cell k) (P ++ [x]).
Proof.
  intros F He Lr Lf Lc O. pose proof (slot_note row_prefix _ _ _ _ P k x Lr O F) as N.
  assert (Ef : delete_present d = false -> deleted_column_family d = []) by (intros; now apply He).
  assert (Ec : delete_present d = false -> deleted_cell d = []) by (intros; now apply He).
  unfold note_row_delete. destruct (delete_present d && bytes_eqb (deleted_row d) (row_prefix x)) eqn:C.
  - apply andb_true_iff in C as [C _]. split; [|split].
    + unfold look_row. cbn. rewrite C. exact N.
    + slot_kept Lf Ef F.
    + slot_kept Lc Ec F.
  - split; [exact N|]. split; [slot_kept Lf Ef F | slot_kept Lc Ec F].
Qed.

Lemma note_cf_tracks d P x k : k_flag x = FLAG_DELETE_COLUMN_FAMILY ->
  (delete_present d = false -> deleted_row d = [] /\ deleted_column_family d = [] /\ deleted_cell d = []) ->
  look_row d k = newest FLAG_DELETE_ROW (same_row k) P ->
  look_cf d k = newest FLAG_DELETE_COLUMN_FAMILY (same_cf k) P ->
  look_cell d k = newest FLAG_DELETE_CELL (same_cell k) P ->
  (same_cf k x = false -> newest FLAG_DELETE_COLUMN_FAMILY (same_cf k) P = None) ->
  look_row (note_cf_delete d x) k = newest FLAG_DELETE_ROW (same_row k) (P ++ [x]) /\
  look_cf (note_cf_delete d x) k = newest FLAG_DELETE_COLUMN_FAMILY (same_cf k) (P ++ [x]) /\
  look_cell (note_cf_delete d x) k = newest FLAG_DELETE_CELL (same_cell k) (P ++ [x]).
Proof.
  intros F He Lr Lf Lc O. pose proof (slot_note cf_prefix _ _ _ _ P k x Lf O F) as N.
  assert (Er : delete_present d = false -> deleted_row d = []) by (intros; now apply He).
  assert (Ec : delete_present d = false -> deleted_cell d = []) by (intros; now apply He).
  unfold note_cf_delete. destruct (delete_present d && bytes_eqb (deleted_column_family d) (cf_prefix x)) eqn:C.
  - apply andb_true_iff in C as [C _]. split; [slot_kept Lr Er F|]. split.
    + unfold look_cf. cbn. rewrite C. exact N.
    + slot_kept Lc Ec F.
  - split; [slot_kept Lr Er F|]. split; [exact N|slot_kept Lc Ec F].
Qed.

Lemma note_cell_tracks d P x k : k_flag x = FLAG_DELETE_CELL ->
  (delete_present d = false -> deleted_row d = [] /\ deleted_column_family d = [] /\ deleted_cell d = []) ->
  look_row d k = newest FLAG_DELETE_ROW (same_row k) P ->
  look_cf d k = newest FLAG_DELETE_COLUMN_FAMILY (same_cf k) P ->
  look_cell d k = newest FLAG_DELETE_CELL (same_cell k) P ->
  (same_cell k x = false -> newest FLAG_DELETE_CELL (same_cell k) P = None) ->
  look_row (note_cell_delete d x) k = newest FLAG_DELETE_ROW (same_row k) (P ++ [x]) /\
  look_cf (note_cell_delete d x) k = newest FLAG_DELETE_COLUMN_FAMILY (same_cf k) (P ++ [x]) /\
  look_cell (note_cell_delete d x) k = newest FLAG_DELETE_CELL (same_cell k) (P ++ [x]).
Proof.
  intros F He Lr Lf Lc O. pose proof (slot_note cell_prefix _ _ _ _ P k x Lc O F) as N.
  assert (Er : delete_present d = false -> deleted_row d = []) by (intros; now apply He).
  assert (Ef : delete_present d = false -> deleted_column_family d = []) by (intros; now apply He).
  unfold note_cell_delete. destruct (delete_present d && bytes_eqb (deleted_cell d) (cell_prefix x)) eqn:C.
  - apply andb_true_iff in C as [C _]. split; [slot_kept Lr Er F|]. split; [slot_kept Lf Ef F|].
    unfold look_cell. cbn. rewrite C. exact N.
  - split; [slot_kept Lr Er F|]. split; [slot_kept Lf Ef F|exact N].
Qed.

Lemma tracks_note d P x : tracks d P -> wf_comps x -> Forall wf_comps P ->
  (forall p, In p P -> comps_le p x) -> tracks (note_delete d x) (P ++ [x]).
Proof.
  intros T Wx WP Hx. pose proof (tracks_empty _ _ T) as He. split.
  - unfold note_delete, note_row_delete, note_cf_delete, note_cell_delete.
    repeat case_goal; cbn; auto; intros; discriminate.
  - intros k Wk Hk. destruct (tracks_future d P x k T Wk Wx WP Hx Hk) as ((Lr & Lf & Lc) & Or & Of & Oc).
    unfold note_delete.
    destruct (Z.eqb_spec (k_flag x) FLAG_DELETE_ROW) as [F|F1]; [now apply note_row_tracks|].
    destruct (Z.eqb_spec (k_flag x) FLAG_DELETE_COLUMN_FAMILY) as [F|F2]; [now apply note_cf_tracks|].
    destruct (Z.eqb_spec (k_flag x) FLAG_DELETE_CELL) as [F|F3]; [now apply note_cell_tracks|].
    rewrite !newest_snoc, !(proj2 (Z.eqb_neq (k_flag x) _)) by assumption. auto.
Qed.

(** Whether a record is an insert for the purposes of the two scans. *)
Definition is_delete (k : KeyComps) : bool :=
  (k_flag k =? FLAG_DELETE_ROW) || (k_flag k =? FLAG_DELETE_COLUMN_FAMILY) || (k_flag k =? FLAG_DELETE_CELL).

Lemma is_delete_false x : is_delete x = false ->
  k_flag x <> FLAG_DELETE_ROW /\ k_flag x <> FLAG_DELETE_COLUMN_FAMILY /\ k_flag x <> FLAG_DELETE_CELL.
Proof. unfold is_delete. rewrite !orb_false_iff, !Z.eqb_neq. tauto. Qed.

Lemma look_match pre present buf ts k : pre k <> [] ->
  present && (nonempty buf && bytes_eqb buf (pre k)) = present && bytes_eqb buf (pre k) /\
  (present && bytes_eqb buf (pre k) = true -> look pre present buf ts k = Some ts) /\
  (present && bytes_eqb buf (pre k) = false -> look pre present buf ts k = None).
Proof.
  intros H. unfold look. split; [|split; intros ->; reflexivity]. destruct present; [|reflexivity]. cbn.
  destruct buf; cbn; [|reflexivity]. destruct (bytes_eqb [] (pre k)) eqn:E; [|reflexivity].
  apply bytes_eqb_eq in E. congruence.
Qed.

Lemma check_insert_survives d P x : tracks d P -> wf_comps x -> (forall p, In p P -> comps_le p x) ->
  snd (check_insert d x) = survives P x.
Proof.
  intros T Wx Hx. destruct (tracks_look _ _ T x Wx Hx) as (Lr & Lf & Lc).
  unfold survives. rewrite <- Lr, <- Lf, <- Lc. unfold check_insert, look_row, look_cf, look_cell.
  destruct (delete_present d); [|reflexivity]. cbn [andb].
  destruct (look_match cell_prefix true (deleted_cell d) 0 x (cell_prefix_ne x)) as [Ec _]. cbn [andb] in Ec.
  destruct (look_match cf_prefix true (deleted_column_family d) 0 x (cf_prefix_ne x)) as [Ef _]. cbn [andb] in Ef.
  destruct (look_match row_prefix true (deleted_row d) 0 x (row_prefix_ne x)) as [Er _]. cbn [andb] in Er.
  rewrite Ec. destruct (bytes_eqb (deleted_cell d) (cell_prefix x)); [reflexivity|].
  cbn [clear_cell deleted_column_family deleted_column_family_timestamp].
  rewrite Ef. destruct (bytes_eqb (deleted_column_family d) (cf_prefix x)); [reflexivity|].
  cbn [clear_cf clear_cell deleted_row deleted_row_timestamp].
  rewrite Er. now destruct (bytes_eqb (deleted_row d) (row_prefix x)).
Qed.

Lemma tracks_skip d P x : tracks d P -> is_delete x = false -> tracks d (P ++ [x]).
Proof.
  intros T Hd. apply is_delete_false in Hd as (F1 & F2 & F3). split; [apply T|].
  intros k Wk Hk. rewrite !newest_snoc, !(proj2 (Z.eqb_neq (k_flag x) _)) by assumption.
  apply T; auto using In_snoc.
Qed.

(** A slot that the insert did not match and that was cleared. *)
Ltac slot_cleared L O M F :=
  eapply slot_clear; [auto with hyper | exact L | exact O | exact M | exact F].
Ltac slot_same L E F :=
  eapply slot_keep; [auto with hyper | exact L | exact E | cbn; auto
    | rewrite (proj2 (Z.eqb_neq _ _) F); reflexivity].

Lemma tracks_check d P x : tracks d P -> wf_comps x -> Forall wf_comps P -> is_delete x = false ->
  (forall p, In p P -> comps_le p x) -> tracks (fst (check_insert d x)) (P ++ [x]).
Proof.
  intros T Wx WP Hd Hx.
  destruct (is_delete_false x Hd) as (F1 & F2 & F3).
  unfold check_insert. destruct (delete_present d) eqn:Ep; [|now apply tracks_skip].
  pose proof (tracks_empty _ _ T) as He.
  destruct (nonempty (deleted_cell d) && bytes_eqb (deleted_cell d) (cell_prefix x)) eqn:Mc;
    [now apply tracks_skip|].
  cbn [clear_cell deleted_column_family deleted_column_family_timestamp].
  assert (Hmc : delete_present d && (nonempty (deleted_cell d) && bytes_eqb (deleted_cell d) (cell_prefix x)) = false)
    by now rewrite Mc, andb_false_r.
  destruct (nonempty (deleted_column_family d) && bytes_eqb (deleted_column_family d) (cf_prefix x)) eqn:Mf.
  { split; [cbn; congruence|]. intros k Wk Hk. cbn [fst].
    destruct (tracks_future d P x k T Wk Wx WP Hx Hk) as ((Lr & Lf & Lc) & Or & Of & Oc).
    split; [slot_same Lr (fun H => proj1 (He H)) F1|].
    split; [slot_same Lf (fun H => proj1 (proj2 (He H))) F2|]. slot_cleared Lc Oc Hmc F3. }
  assert (Hmf : delete_present d && (nonempty (deleted_column_family d) && bytes_eqb (deleted_column_family d) (cf_prefix x)) = false)
    by now rewrite Mf, andb_false_r.
  cbn [clear_cf clear_cell deleted_row deleted_row_timestamp].
  destruct (nonempty (deleted_row d) && bytes_eqb (deleted_row d) (row_prefix x)) eqn:Mr.
  { split; [cbn; congruence|]. intros k Wk Hk. cbn [fst].
    destruct (tracks_future d P x k T Wk Wx WP Hx Hk) as ((Lr & Lf & Lc) & Or & Of & Oc).
    split; [slot_same Lr (fun H => proj1 (He H)) F1|].
    split; [slot_cleared Lf Of Hmf F2|]. slot_cleared Lc Oc Hmc F3. }
  assert (Hmr : delete_present d && (nonempty (deleted_row d) && bytes_eqb (deleted_row d) (row_prefix x)) = false)
    by now rewrite Mr, andb_false_r.
  split; [cbn; auto|]. intros k Wk Hk. cbn [fst].
  destruct (tracks_future d P x k T Wk Wx WP Hx Hk) as ((Lr & Lf & Lc) & Or & Of & Oc).
  split; [slot_cleared Lr Or Hmr F1|]. split; [slot_cleared Lf Of Hmf F2|]. slot_cleared Lc Oc Hmc F3.
Qed.

(** ** A whole sorted sequence *)

(** Running the variables over keys in order, [process] is what both scans do
    with one key; the booleans tell which inserts stay. *)
Definition process (d : deletes) (k : KeyComps) : deletes * bool :=
  if is_delete k then (note_delete d k, false) else check_insert d k.

Fixpoint process_all (d : deletes) (ks : list KeyComps) : list (KeyComps * bool) :=
  match ks with
  | [] => []
  | k :: ks' => let '(d', b) := process d k in (k, b) :: process_all d' ks'
  end.

Lemma process_tracks d P x : tracks d P -> wf_comps x -> Forall wf_comps P ->
  (forall p, In p P -> comps_le p x) ->
  tracks (fst (process d x)) (P ++ [x]) /\
  snd (process d x) = negb (is_delete x) && survives P x.
Proof.
  intros T Wx WP Hx. unfold process. destruct (is_delete x) eqn:E; cbn [fst snd negb andb].
  - split; [now apply tracks_note|reflexivity].
  - split; [now apply tracks_check|now apply check_insert_survives].
Qed.

(** Sequences of keys in order; a key may be repeated. *)
Definition sorted_keys (ks : list KeyComps) : Prop :=
  forall P x Q, ks = P ++ x :: Q -> forall p, In p P -> comps_le p x.

Lemma process_all_app d P ks : tracks d P -> Forall wf_comps (P ++ ks) -> sorted_keys (P ++ ks) ->
  forall Q x R, ks = Q ++ x :: R ->
  nth_error (process_all d ks) (length Q) = Some (x, negb (is_delete x) && survives (P ++ Q) x).
Proof.
  revert d P. induction ks as [|y ks IH]; intros d P T W S Q x R E; [now destruct Q|].
  assert (Hy : forall p, In p P -> comps_le p y) by (intros p Hp; exact (S P y ks eq_refl p Hp)).
  assert (Wy : wf_comps y /\ Forall wf_comps P).
  { apply Forall_app in W as [WP W]. inv W. auto. }
  destruct Wy as [Wy WP]. destruct (process_tracks d P y T Wy WP Hy) as [T' B].
  cbn [process_all]. destruct (process d y) as [d' b]. cbn [fst snd] in *.
  destruct Q as [|q Q]; injection E as -> E; cbn [length nth_error].
  - now rewrite app_nil_r, B.
  - subst ks. specialize (IH d' (P ++ [q]) T'). rewrite <- !app_assoc in IH.
    rewrite (IH W S Q x R eq_refl). now rewrite <- app_assoc.
Qed.

(** C22. On keys in order, the buffers that [purge_deletes] and the merge scanner
    keep implement the declarative rule exactly: an insert stays if and only if
    it is newer than the most specific delete among the earlier records - the
    newest cell delete for its cell if there is one, else the newest family
    delete for its row and family, else the newest row delete for its row. *)
Theorem deletes_implement_rule ks Q x R : Forall wf_comps ks -> sorted_keys ks -> ks = Q ++ x :: R ->
  nth_error (process_all no_deletes ks) (length Q) = Some (x, negb (is_delete x) && survives Q x).
Proof. intros W S E. exact (process_all_app no_deletes [] ks tracks_init W S Q x R E). Qed.

(** A row delete, a family delete and an insert between their timestamps. *)
Definition rec_row_delete := {| k_row := [114]; k_family := 0; k_qual := []; k_flag := FLAG_DELETE_ROW; k_ts := 100 |}.
Definition rec_cf_delete := {| k_row := [114]; k_family := 1; k_qual := []; k_flag := FLAG_DELETE_COLUMN_FAMILY; k_ts := 50 |}.
Definition rec_insert := {| k_row := [114]; k_family := 1; k_qual := [113]; k_flag := FLAG_INSERT; k_ts := 70 |}.

Ltac solve_wf_comps := repeat split; repeat constructor; vm_compute; intuition discriminate.

Lemma rec_sorted : sorted_keys [rec_row_delete; rec_cf_delete; rec_insert].
Proof.
  intros P x Q E p Hp.
  destruct P as [|p1 [|p2 [|p3 [|p4 P]]]]; cbn in E; try discriminate E; injection E as; subst;
    cbn in Hp; intuition (subst; discriminate).
Qed.

Lemma deletes_implement_rule_witness :
  nth_error (process_all no_deletes [rec_row_delete; rec_cf_delete; rec_insert]) 2 = Some (rec_insert, true).
Proof.
  apply (deletes_implement_rule [rec_row_delete; rec_cf_delete; rec_insert] [rec_row_delete; rec_cf_delete] rec_insert []).
  - repeat constructor; solve_wf_comps.
  - exact rec_sorted.
  - reflexivity.
Defined.

(** The most specific delete decides alone: a row deleted at time 100 whose
    family was also deleted at time 50 shows an insert of time 70, which the row
    delete should hide. *)
Theorem older_family_delete_unhides :
  sorted_keys [rec_row_delete; rec_cf_delete; rec_insert] /\
  process_all no_deletes [rec_row_delete; rec_insert] = [(rec_row_delete, false); (rec_insert, false)] /\
  process_all no_deletes [rec_row_delete; rec_cf_delete; rec_insert] =
    [(rec_row_delete, false); (rec_cf_delete, false); (rec_insert, true)].
Proof. split; [exact rec_sorted|]. split; vm_compute; reflexivity. Qed.
