(* ===== verification/CellCache.v ===== *)
(** * The cell cache

    [RangeServer/CellCache.cc], [CellCache.h] and [MemoryTracker.h]: the sorted
    map of cells in memory, the copies made after a compaction and when deletes
    are purged, and who owns the memory of a cell afterwards.

    A cell lives in one block: the key's byte string followed by the value's.
    [slice_copy] and [purge_deletes] put the same blocks into a second map and
    set the high bit of the offset in the first one, so that its destructor does
    not free them; the model has block identities and a heap for this. *)
From S2P Require Import Prelude Errors Serialization ByteString Key Deletes.
From Stdlib Require Import ZArith Lia List Bool Permutation Sorted.
Import ListNotations.
Open Scope Z_scope.
Open Scope result_scope.

(** ** The memory tracker *)

Module MemoryTracker.

Record t := { m_memory_used : Z; m_item_count : Z }.

Definition make : t := {| m_memory_used := 0; m_item_count := 0 |}.
Definition add_memory (amount : Z) (s : t) : t :=
  {| m_memory_used := u64 (m_memory_used s + amount); m_item_count := m_item_count s |}.
Definition remove_memory (amount : Z) (s : t) : t :=
  {| m_memory_used := u64 (m_memory_used s - amount); m_item_count := m_item_count s |}.
Definition get_memory (s : t) : Z := m_memory_used s.
Definition add_items (count : Z) (s : t) : t :=
  {| m_memory_used := m_memory_used s; m_item_count := u64 (m_item_count s + count) |}.
Definition remove_items (count : Z) (s : t) : t :=
  {| m_memory_used := m_memory_used s; m_item_count := u64 (m_item_count s - count) |}.
Definition get_items (s : t) : Z := m_item_count s.

End MemoryTracker.

(** ** Heap and entries *)

(** The blocks that are allocated, the next one [new] returns, and
    [Global::memory_tracker]. *)
Record world := { w_next : nat; w_live : list nat; w_tracker : MemoryTracker.t }.

Definition new_block (w : world) : nat * world :=
  (w_next w, {| w_next := S (w_next w); w_live := w_next w :: w_live w; w_tracker := w_tracker w |}).

(** [delete []]; freeing what is not allocated is an error of the program. *)
Definition delete_block (b : nat) (w : world) : result world :=
  if in_dec Nat.eq_dec b (w_live w)
  then Ok {| w_next := w_next w; w_live := remove Nat.eq_dec b (w_live w); w_tracker := w_tracker w |}
  else Fault.

Definition track (f : MemoryTracker.t -> MemoryTracker.t) (w : world) : world :=
  {| w_next := w_next w; w_live := w_live w; w_tracker := f (w_tracker w) |}.

(** A pair of [CellMap]: the block with its key and value, and the [uint32_t]
    that holds the offset of the value and the ownership bit. *)
Record entry := { e_block : nat; e_key : list Z; e_value : list Z; e_off : Z }.

Definition CellMap := list entry.

Definition ALLOC_BIT_MASK : Z := 0x80000000.
Definition OFFSET_BIT_MASK : Z := 0x7FFFFFFF.

(** [std::map::insert] under [LtByteString]: nothing when the key is there. *)
Fixpoint map_insert (e : entry) (m : CellMap) : option CellMap :=
  match m with
  | [] => Some [e]
  | x :: m' =>
      match bytes_cmp (e_key e) (e_key x) with
      | Lt => Some (e :: m)
      | Eq => None
      | Gt => option_map (cons x) (map_insert e m')
      end
  end.

(** [map.insert(...)] where the code ignores whether it happened. *)
Definition map_insert_ (e : entry) (m : CellMap) : CellMap :=
  match map_insert e m with Some m' => m' | None => m end.

Record CellCache := {
  m_cell_map : CellMap;
  m_memory_used : Z;
  m_deletes : Z;
  m_collisions : Z;
  m_children : list nat }.

Definition make : CellCache :=
  {| m_cell_map := []; m_memory_used := 0; m_deletes := 0; m_collisions := 0; m_children := [] |}.

(** [ByteString::length()] of a string with this content; a null value counts
    and is written like an empty one. *)
Definition byte_len (c : list Z) : Z := encoded_length_vi32 (zlen c) + zlen c.

(** [key.ptr[key_len - 9]]. *)
Definition flag_byte (key : list Z) : result Z :=
  l <- encode_vi32 (zlen key) ;;
  if (length (l ++ key) <? 9)%nat then Fault else
  match nth_error (l ++ key) (length (l ++ key) - 9) with
  | Some b => Ok b
  | None => Fault
  end.

(** [CellCache::add]. *)
Definition add (key value : list Z) (w : world) (c : CellCache) : result (world * CellCache) :=
  let key_len := byte_len key in
  let total_len := key_len + byte_len value in
  let '(b, w) := new_block w in
  match map_insert {| e_block := b; e_key := key; e_value := value; e_off := u32 key_len |} (m_cell_map c) with
  | None =>
      w <- delete_block b w ;;
      Ok (w, {| m_cell_map := m_cell_map c; m_memory_used := m_memory_used c; m_deletes := m_deletes c;
                m_collisions := u32 (m_collisions c + 1); m_children := m_children c |})
  | Some m =>
      fl <- flag_byte key ;;
      Ok (w, {| m_cell_map := m; m_memory_used := u64 (m_memory_used c + total_len);
                m_deletes := if fl <=? FLAG_DELETE_CELL then u32 (m_deletes c + 1) else m_deletes c;
                m_collisions := m_collisions c; m_children := m_children c |})
  end.

Definition size (c : CellCache) : Z := zlen (m_cell_map c).

(** [memory_used()]; [node] is [sizeof(CellMap::value_type)]. *)
Definition memory_used (node : Z) (c : CellCache) : Z := u64 (m_memory_used c + size c * node).

Definition get_collision_count (c : CellCache) : Z := m_collisions c.
Definition get_delete_count (c : CellCache) : Z := m_deletes c.

(** The C string at the start of a key. *)
Definition entry_row (e : entry) : result (list Z) :=
  match cstr (e_key e) with Some r => Ok r | None => Fault end.

(** [get_split_rows]: the row of the middle entry, if there are more than two. *)
Definition get_split_rows (c : CellCache) (split_rows : list (list Z)) : result (list (list Z)) :=
  if 2 <? size c then
    match nth_error (m_cell_map c) (Nat.div (length (m_cell_map c)) 2) with
    | Some e => r <- entry_row e ;; Ok (split_rows ++ [r])
    | None => Fault
    end
  else Ok split_rows.

(** [get_rows]. *)
Fixpoint get_rows_loop (m : CellMap) (last_row : list Z) (rows : list (list Z)) : result (list (list Z)) :=
  match m with
  | [] => Ok rows
  | e :: m' =>
      row <- entry_row e ;;
      if bytes_eqb row last_row then get_rows_loop m' last_row rows
      else get_rows_loop m' row (rows ++ [row])
  end.
Definition get_rows (c : CellCache) (rows : list (list Z)) : result (list (list Z)) :=
  get_rows_loop (m_cell_map c) [] rows.

(** [iter->second |= ALLOC_BIT_MASK]. *)
Definition mark (e : entry) : entry :=
  {| e_block := e_block e; e_key := e_key e; e_value := e_value e; e_off := Z.lor (e_off e) ALLOC_BIT_MASK |}.

(** The loop of [slice_copy]: the map it leaves behind and the child's map. *)
Fixpoint slice_loop (timestamp : Z) (m child : CellMap) : CellMap * CellMap :=
  match m with
  | [] => ([], child)
  | e :: m' =>
      match parse_key (e_key e) with
      | None => let '(rest, child) := slice_loop timestamp m' child in (e :: rest, child)
      | Some key =>
          if timestamp <? k_ts key
          then let '(rest, child) := slice_loop timestamp m' (map_insert_ e child) in (mark e :: rest, child)
          else let '(rest, child) := slice_loop timestamp m' child in (e :: rest, child)
      end
  end.

Definition new_child (m : CellMap) : CellCache :=
  {| m_cell_map := m; m_memory_used := 0; m_deletes := 0; m_collisions := 0; m_children := [] |}.
Definition with_child (c : CellCache) (m : CellMap) (id : nat) : CellCache :=
  {| m_cell_map := m; m_memory_used := m_memory_used c; m_deletes := m_deletes c;
     m_collisions := m_collisions c; m_children := m_children c ++ [id] |}.

(** [slice_copy]; [id] is the identity of the new cache in [m_children]. *)
Definition slice_copy (timestamp : Z) (id : nat) (w : world) (c : CellCache) : world * CellCache * CellCache :=
  let '(m, child) := slice_loop timestamp (m_cell_map c) [] in
  (track (MemoryTracker.add_items (zlen child)) w, with_child c m id, new_child child).

(** The loop of [purge_deletes].  Only [FLAG_INSERT] takes the first branch;
    flags that are neither an insert nor a delete are passed over. *)
Fixpoint purge_loop (d : deletes) (m child : CellMap) : CellMap * CellMap :=
  match m with
  | [] => ([], child)
  | e :: m' =>
      match parse_key (e_key e) with
      | None => let '(rest, child) := purge_loop d m' child in (e :: rest, child)
      | Some key =>
          if k_flag key =? FLAG_INSERT then
            let '(d, keep) := check_insert d key in
            if keep
            then let '(rest, child) := purge_loop d m' (map_insert_ e child) in (mark e :: rest, child)
            else let '(rest, child) := purge_loop d m' child in (e :: rest, child)
          else
            let '(rest, child) := purge_loop (note_delete d key) m' child in (e :: rest, child)
      end
  end.

Definition purge_deletes (id : nat) (w : world) (c : CellCache) : world * CellCache * CellCache :=
  let '(m, child) := purge_loop no_deletes (m_cell_map c) [] in
  (track (MemoryTracker.add_items (zlen child)) w, with_child c m id, new_child child).

(** The destructor: [ByteString(ptr + offset)] is the value when the offset is
    the length of the key. *)
Fixpoint free_entries (m : CellMap) (mem_freed : Z) (w : world) : result (Z * world) :=
  match m with
  | [] => Ok (mem_freed, w)
  | e :: m' =>
      if Z.land (e_off e) ALLOC_BIT_MASK =? 0 then
        let offset := Z.land (e_off e) OFFSET_BIT_MASK in
        if offset =? byte_len (e_key e) then
          w <- delete_block (e_block e) w ;;
          free_entries m' (u64 (mem_freed + (offset + byte_len (e_value e)))) w
        else Fault
      else free_entries m' mem_freed w
  end.

Definition destroy (w : world) (c : CellCache) : result world :=
  '(mem_freed, w) <- free_entries (m_cell_map c) 0 w ;;
  Ok (track (fun s => MemoryTracker.remove_items (size c) (MemoryTracker.remove_memory mem_freed s)) w).

(** ** Invariants *)

Definition key_lt (a b : entry) : Prop := bytes_lt (e_key a) (e_key b).
Definition sorted_map (m : CellMap) : Prop := StronglySorted key_lt m.

Definition owns (e : entry) : bool := Z.land (e_off e) ALLOC_BIT_MASK =? 0.
Definition owned (m : CellMap) : list nat := map e_block (filter owns m).

Definition wf_entry (e : entry) : Prop :=
  wf_bytes (e_key e) /\ Z.land (e_off e) OFFSET_BIT_MASK = byte_len (e_key e).

(** The map is sorted, the offsets are right, and what the cache owns is
    allocated, each block once. *)
Record wf (w : world) (c : CellCache) : Prop := {
  wf_sorted : sorted_map (m_cell_map c);
  wf_entries : Forall wf_entry (m_cell_map c);
  wf_owned_nodup : NoDup (owned (m_cell_map c));
  wf_owned_live : incl (owned (m_cell_map c)) (w_live w);
  wf_fresh : Forall (fun b => (b < w_next w)%nat) (w_live w) }.

Definition lookup (m : CellMap) (k : list Z) : option (list Z) :=
  option_map e_value (find (fun e => bytes_eqb (e_key e) k) m).

Definition entry_bytes (e : entry) : Z := byte_len (e_key e) + byte_len (e_value e).
Definition total_bytes (m : CellMap) : Z := fold_right (fun e n => entry_bytes e + n) 0 m.
Definition delete_record (e : entry) : bool :=
  match parse_key (e_key e) with Some k => k_flag k <=? FLAG_DELETE_CELL | None => false end.

(** The counters are those of the map, as for a cache filled by [add]. *)
Definition accounted (c : CellCache) : Prop :=
  m_memory_used c = u64 (total_bytes (m_cell_map c)) /\
  m_deletes c = u32 (zlen (filter delete_record (m_cell_map c))).

(** ** The map *)

Lemma map_insert_some e m m' : map_insert e m = Some m' -> Permutation m' (e :: m).
Proof.
  revert m'. induction m as [|x m IH]; intros m'; cbn; [intros [= <-]; reflexivity|].
  destruct (bytes_cmp (e_key e) (e_key x)); try discriminate; [intros [= <-]; reflexivity|].
  destruct (map_insert e m) as [m0|]; [|discriminate]. intros [= <-].
  rewrite (IH m0 eq_refl). apply perm_swap.
Qed.

Lemma map_insert_sorted e m m' : sorted_map m -> map_insert e m = Some m' -> sorted_map m'.
Proof.
  revert m'. induction m as [|x m IH]; intros m' Hs; cbn.
  { intros [= <-]. repeat constructor. }
  inv Hs. destruct (bytes_cmp (e_key e) (e_key x)) eqn:E; try discriminate.
  - intros [= <-]. repeat (constructor; try assumption).
    revert H2. apply Forall_impl. intros y Hy. exact (bytes_lt_trans _ _ _ E Hy).
  - destruct (map_insert e m) as [m0|] eqn:Em; [|discriminate]. intros [= <-].
    constructor; [now apply IH|]. apply bytes_cmp_gt in E.
    apply Forall_forall. intros y Hy. apply (Permutation_in _ (map_insert_some _ _ _ Em)) in Hy.
    destruct Hy as [<-|Hy]; [exact E|]. now apply (proj1 (Forall_forall _ _) H2).
Qed.

Lemma find_none_above e m : Forall (key_lt e) m -> find (fun x => bytes_eqb (e_key x) (e_key e)) m = None.
Proof.
  induction 1 as [|x m Hx Hm IH]; [reflexivity|]. cbn.
  destruct (bytes_eqb (e_key x) (e_key e)) eqn:E; [|assumption].
  apply bytes_eqb_eq in E. unfold key_lt in Hx. rewrite E in Hx. destruct (bytes_lt_irrefl _ Hx).
Qed.

Lemma map_insert_lookup e m : sorted_map m ->
  match map_insert e m with
  | None => exists v, lookup m (e_key e) = Some v
  | Some m' => lookup m (e_key e) = None /\
      forall k, lookup m' k = if bytes_eqb (e_key e) k then Some (e_value e) else lookup m k
  end.
Proof.
  induction m as [|x m IH]; intros Hs; cbn.
  { split; [reflexivity|]. intros k. unfold lookup. cbn. now destruct (bytes_eqb (e_key e) k). }
  inv Hs. specialize (IH H1). unfold lookup in *. cbn [find].
  destruct (bytes_cmp (e_key e) (e_key x)) eqn:E.
  - apply bytes_cmp_eq in E. rewrite (proj2 (bytes_eqb_eq _ _)) by now symmetry. cbn. eexists; reflexivity.
  - split.
    + assert (N : bytes_eqb (e_key x) (e_key e) = false).
      { apply bytes_eqb_neq. intros Ex. rewrite Ex in E. destruct (bytes_lt_irrefl _ E). }
      rewrite N, find_none_above; [reflexivity|].
      revert H2. apply Forall_impl. intros y Hy. exact (bytes_lt_trans _ _ _ E Hy).
    + intros k. cbn [find]. now destruct (bytes_eqb (e_key e) k).
  - assert (N : bytes_eqb (e_key x) (e_key e) = false).
    { apply bytes_eqb_neq. intros Ex. rewrite Ex in E. rewrite bytes_cmp_refl in E. discriminate. }
    destruct (map_insert e m) as [m0|]; cbn [option_map find]; rewrite N; [|assumption].
    destruct IH as [IH1 IH2]. split; [assumption|]. intros k. cbn [find].
    destruct (bytes_eqb (e_key x) k) eqn:Exk; [|apply IH2].
    apply bytes_eqb_eq in Exk as <-. destruct (bytes_eqb (e_key e) (e_key x)) eqn:Ex; [|reflexivity].
    apply bytes_eqb_eq in Ex. rewrite Ex, bytes_cmp_refl in E. discriminate.
Qed.

(** Inserting in ascending order appends. *)
Lemma map_insert_last e m : Forall (fun x => key_lt x e) m -> map_insert e m = Some (m ++ [e]).
Proof.
  induction 1 as [|x m Hx Hm IH]; [reflexivity|]. cbn.
  unfold key_lt in Hx. rewrite (proj2 (bytes_cmp_gt _ _) Hx), IH. reflexivity.
Qed.

Lemma flag_byte_pack k : wf_comps k -> byte_len (pack k) < 2 ^ 31 -> flag_byte (pack k) = Ok (k_flag k).
Proof.
  intros W Hb. unfold flag_byte.
  assert (Hr : in_range 32 (zlen (pack k))).
  { unfold byte_len in Hb. pose proof (encoded_length_vi32_range (zlen (pack k))).
    pose proof (zlen_nonneg (pack k)). unfold in_range. lia. }
  destruct (vi32_encodes _ Hr) as (l & -> & _ & _). cbn [bind]. unfold pack. rewrite write_key_shape.
  set (h := k_row k ++ 0 :: k_family k :: k_qual k ++ [0]).
  assert (E : l ++ k_row k ++ 0 :: k_family k :: qual_or_empty (Some (k_qual k)) ++ 0 :: k_flag k :: encode_ts64 (u64 (k_ts k))
              = (l ++ h) ++ k_flag k :: encode_ts64 (u64 (k_ts k))).
  { subst h. cbn [qual_or_empty]. rewrite <- !app_assoc. cbn [app]. now rewrite <- !app_assoc. }
  rewrite E, length_app. cbn [length]. rewrite length_encode_ts64.
  rewrite (proj2 (Nat.ltb_ge _ 9)) by lia.
  replace (length (l ++ h) + 9 - 9)%nat with (length (l ++ h)) by lia.
  rewrite nth_error_app2, Nat.sub_diag by lia. reflexivity.
Qed.

Lemma offset_land x : 0 <= x < 2 ^ 31 ->
  Z.land (u32 x) OFFSET_BIT_MASK = x /\ Z.land (u32 x) ALLOC_BIT_MASK = 0.
Proof.
  intros H. rewrite wrap_small by (unfold in_range; lia).
  change OFFSET_BIT_MASK with (Z.ones 31). change ALLOC_BIT_MASK with (2 ^ 31).
  rewrite Z.land_ones by lia. split; [now apply Z.mod_small|].
  apply Z.bits_inj'. intros i Hi. rewrite Z.land_spec, Z.bits_0.
  destruct (Z.eq_dec i 31) as [->|Hne].
  - rewrite <- (Z.mod_small x (2 ^ 31)) by assumption. now rewrite Z.mod_pow2_bits_high by lia.
  - rewrite (Z.pow2_bits_false 31 i) by auto. apply andb_false_r.
Qed.

Lemma byte_len_nonneg c : 0 <= byte_len c.
Proof. unfold byte_len. pose proof (encoded_length_vi32_range (zlen c)). pose proof (zlen_nonneg c). lia. Qed.

Lemma filter_perm {A} (f : A -> bool) l l' : Permutation l l' -> Permutation (filter f l) (filter f l').
Proof.
  induction 1 as [|x l l' H IH|x y l|l1 l2 l3 H1 IH1 H2 IH2]; cbn; [constructor| | |now transitivity (filter f l2)].
  - destruct (f x); [now constructor|assumption].
  - destruct (f x), (f y); try reflexivity. apply perm_swap.
Qed.

Lemma owned_perm m m' : Permutation m m' -> Permutation (owned m) (owned m').
Proof. intros H. unfold owned. now apply Permutation_map, filter_perm. Qed.

Lemma total_bytes_perm m m' : Permutation m m' -> total_bytes m = total_bytes m'.
Proof. unfold total_bytes. induction 1; cbn [fold_right]; lia. Qed.

Lemma total_bytes_cons e m : total_bytes (e :: m) = entry_bytes e + total_bytes m.
Proof. reflexivity. Qed.

Lemma zlen_perm {A} (l l' : list A) : Permutation l l' -> zlen l = zlen l'.
Proof. intros H. unfold zlen. now rewrite (Permutation_length H). Qed.

Lemma u_add w a b : 0 <= w -> wrap w (wrap w a + b) = wrap w (a + b).
Proof. intros H. unfold wrap. now rewrite Zplus_mod_idemp_l. Qed.

(** [add] of a key that parses and is not there yet. *)
Lemma add_entry w c key value k m : wf w c ->
  wf_bytes key -> parse_key key = Some k -> byte_len key < 2 ^ 31 ->
  let e := {| e_block := w_next w; e_key := key; e_value := value; e_off := u32 (byte_len key) |} in
  map_insert e (m_cell_map c) = Some m ->
  exists w' c', add key value w c = Ok (w', c') /\ wf w' c' /\ m_cell_map c' = m /\ m_collisions c' = m_collisions c /\
    m_memory_used c' = u64 (m_memory_used c + entry_bytes e) /\
    m_deletes c' = if k_flag k <=? FLAG_DELETE_CELL then u32 (m_deletes c + 1) else m_deletes c.
Proof.
  intros [Ws We Wn Wl Wf] Hk Hp Hb e Hm. destruct (pack_parse key k Hk Hp) as [Ek Wk].
  assert (Ef : flag_byte key = Ok (k_flag k)).
  { rewrite Ek. apply flag_byte_pack; [assumption|now rewrite <- Ek]. }
  unfold add, new_block. fold e. rewrite Hm, Ef. cbn [bind].
  pose proof (map_insert_some _ _ _ Hm) as Perm.
  pose proof (offset_land (byte_len key) (conj (byte_len_nonneg key) Hb)) as [Ho Ha].
  assert (Oe : owns e = true) by (unfold owns; cbn [e_off e]; now rewrite Ha).
  eexists _, _. split; [reflexivity|]. split; [|repeat (split; [reflexivity|]); reflexivity].
  split; cbn [m_cell_map w_live w_next].
  - now apply (map_insert_sorted e (m_cell_map c)).
  - rewrite Perm. constructor; [|assumption]. split; assumption.
  - rewrite (owned_perm _ _ Perm). unfold owned. cbn [filter]. rewrite Oe. cbn [map e_block].
    constructor; [|assumption]. intros Hin. apply Wl in Hin.
    apply (proj1 (Forall_forall _ _) Wf) in Hin. cbn in Hin. lia.
  - intros b Hb'. apply (Permutation_in _ (owned_perm _ _ Perm)) in Hb'. unfold owned in Hb'.
    cbn [filter] in Hb'. rewrite Oe in Hb'. destruct Hb' as [<-|Hb']; [now left|right; now apply Wl].
  - constructor; [lia|]. revert Wf. apply Forall_impl. intros; lia.
Qed.

(** The counters follow. *)
Lemma add_new w c key value k m : wf w c -> accounted c ->
  wf_bytes key -> parse_key key = Some k -> byte_len key < 2 ^ 31 ->
  let e := {| e_block := w_next w; e_key := key; e_value := value; e_off := u32 (byte_len key) |} in
  map_insert e (m_cell_map c) = Some m ->
  exists w' c', add key value w c = Ok (w', c') /\ wf w' c' /\ accounted c' /\
    m_cell_map c' = m /\ m_collisions c' = m_collisions c.
Proof.
  intros W [Am Ad] Hk Hp Hb e Hm. destruct (add_entry w c key value k m W Hk Hp Hb Hm) as (w' & c' & E & W' & Ec & Ecol & Em & Ed).
  exists w', c'. split; [assumption|]. split; [assumption|]. split; [|auto]. pose proof (map_insert_some _ _ _ Hm) as Perm.
  unfold accounted. rewrite Ec, Em, Ed, (total_bytes_perm _ _ Perm), (zlen_perm _ _ (filter_perm delete_record _ _ Perm)).
  rewrite total_bytes_cons. cbn [filter]. rewrite Am, Ad, !u_add by lia.
  assert (De : delete_record e = (k_flag k <=? FLAG_DELETE_CELL)) by (unfold delete_record; cbn [e_key e]; now rewrite Hp).
  rewrite De. split; [f_equal; fold e; lia|]. destruct (k_flag k <=? FLAG_DELETE_CELL); [|reflexivity].
  rewrite zlen_cons. f_equal. lia.
Qed.

(** [CellCache::add] of a well-formed key: if the key is new it becomes
    findable with its value and nothing else changes in the map, the byte and
    delete counters follow the map, and the cache owns the new block; if the key
    is there, the first value stays, the collision is counted, and the block is
    freed again. *)
Theorem add_correct w c key value k : wf w c -> accounted c ->
  wf_bytes key -> parse_key key = Some k -> byte_len key < 2 ^ 31 ->
  exists w' c', add key value w c = Ok (w', c') /\ wf w' c' /\ accounted c' /\
    match lookup (m_cell_map c) key with
    | None => m_collisions c' = m_collisions c /\
        forall k', lookup (m_cell_map c') k' = if bytes_eqb key k' then Some value else lookup (m_cell_map c) k'
    | Some _ => m_cell_map c' = m_cell_map c /\ w_live w' = w_live w /\
        m_collisions c' = u32 (m_collisions c + 1)
    end.
Proof.
  intros W A Hk Hp Hb.
  set (e := {| e_block := w_next w; e_key := key; e_value := value; e_off := u32 (byte_len key) |}).
  pose proof (map_insert_lookup e (m_cell_map c) (wf_sorted _ _ W)) as L.
  destruct (map_insert e (m_cell_map c)) as [m|] eqn:Hm.
  - destruct L as [Ln Lk]. cbn [e_key e] in Ln. rewrite Ln.
    destruct (add_new w c key value k m W A Hk Hp Hb Hm) as (w' & c' & E & W' & A' & Em & Ec).
    exists w', c'. rewrite Em, Ec. auto.
  - destruct L as [v L]. cbn [e_key e] in L. rewrite L.
    unfold add, new_block. fold e. rewrite Hm. unfold delete_block. cbn [w_live].
    destruct (in_dec Nat.eq_dec (w_next w) (w_next w :: w_live w)) as [_|Hn]; [|destruct Hn; now left].
    cbn [bind w_next w_tracker remove]. destruct (Nat.eq_dec (w_next w) (w_next w)); [|congruence].
    assert (Hr : remove Nat.eq_dec (w_next w) (w_live w) = w_live w).
    { apply notin_remove. intros Hin. apply (proj1 (Forall_forall _ _) (wf_fresh _ _ W)) in Hin. lia. }
    rewrite Hr. eexists _, _. split; [reflexivity|]. destruct W as [Ws We Wn Wl Wf].
    split; [|split; [exact A|auto]].
    split; cbn [m_cell_map w_live w_next]; try assumption.
    revert Wf. apply Forall_impl. intros; lia.
Qed.

Definition sample_key : list Z := pack rec_insert.

Lemma make_wf : wf {| w_next := 0; w_live := []; w_tracker := MemoryTracker.make |} make.
Proof. split; repeat constructor. intros b []. Qed.

Lemma add_correct_witness :
  exists w' c', add sample_key [118] {| w_next := 0; w_live := []; w_tracker := MemoryTracker.make |} make = Ok (w', c') /\
    wf w' c' /\ accounted c' /\ m_collisions c' = 0 /\
    forall k', lookup (m_cell_map c') k' = if bytes_eqb sample_key k' then Some [118] else None.
Proof.
  apply (add_correct {| w_next := 0; w_live := []; w_tracker := MemoryTracker.make |} make sample_key [118] rec_insert).
  - exact make_wf.
  - split; reflexivity.
  - repeat constructor; vm_compute; intuition discriminate.
  - vm_compute; reflexivity.
  - vm_compute; reflexivity.
Defined.

(** ** Handing entries over to a child *)

(** [transferred m m' kept]: [m'] is [m] with the entries [kept] marked. *)
Inductive transferred : CellMap -> CellMap -> CellMap -> Prop :=
| tr_nil : transferred [] [] []
| tr_stay e m m' k : transferred m m' k -> transferred (e :: m) (e :: m') k
| tr_move e m m' k : transferred m m' k -> transferred (e :: m) (mark e :: m') (e :: k).

Lemma mark_owns e : owns (mark e) = false.
Proof.
  unfold owns, mark. cbn [e_off]. apply Z.eqb_neq.
  assert (E : Z.land (Z.lor (e_off e) ALLOC_BIT_MASK) ALLOC_BIT_MASK = ALLOC_BIT_MASK).
  { apply Z.bits_inj'. intros i Hi. rewrite Z.land_spec, Z.lor_spec.
    now destruct (Z.testbit (e_off e) i), (Z.testbit ALLOC_BIT_MASK i). }
  rewrite E. discriminate.
Qed.

Lemma mark_wf e : wf_entry e -> wf_entry (mark e).
Proof.
  intros [H1 H2]. split; [assumption|]. cbn [mark e_off e_key].
  rewrite Z.land_lor_distr_l. change (Z.land ALLOC_BIT_MASK OFFSET_BIT_MASK) with 0.
  now rewrite Z.lor_0_r.
Qed.

Lemma transferred_keys m m' k : transferred m m' k -> map e_key m' = map e_key m.
Proof. induction 1; cbn; congruence. Qed.

Lemma transferred_sub m m' k : transferred m m' k -> incl k m.
Proof.
  induction 1; [easy| |]; intros x; cbn; [intros Hx; right; auto|].
  intros [->|Hx]; [now left|right; auto].
Qed.

Lemma transferred_sorted m m' k : transferred m m' k -> sorted_map m -> sorted_map m' /\ sorted_map k.
Proof.
  induction 1 as [|e m m' k T IH|e m m' k T IH]; intros S; [split; constructor| |]; inv S;
    destruct (IH H1) as [S' Sk].
  - split; [|assumption]. constructor; [assumption|].
    apply Forall_map with (f := e_key) (P := fun x => bytes_lt (e_key e) x).
    rewrite (transferred_keys _ _ _ T). now apply Forall_map.
  - split; constructor; try assumption.
    + apply Forall_map with (f := e_key) (P := fun x => bytes_lt (e_key e) x).
      rewrite (transferred_keys _ _ _ T). now apply Forall_map.
    + apply Forall_forall. intros x Hx. apply (proj1 (Forall_forall _ _) H2).
      now apply (transferred_sub _ _ _ T).
Qed.

Lemma transferred_wf_entries m m' k : transferred m m' k -> Forall wf_entry m ->
  Forall wf_entry m' /\ Forall wf_entry k.
Proof.
  induction 1 as [|e m m' k T IH|e m m' k T IH]; intros W; [auto| |]; inv W;
    destruct (IH H2) as [W' Wk]; auto using mark_wf.
Qed.

(** Every owned block keeps exactly one owner. *)
Lemma transferred_owned m m' k : transferred m m' k -> Permutation (owned m' ++ owned k) (owned m).
Proof.
  induction 1 as [|e m m' k T IH|e m m' k T IH]; unfold owned in *; cbn [filter].
  - reflexivity.
  - destruct (owns e); cbn [map app]; [now constructor|assumption].
  - rewrite mark_owns. destruct (owns e); cbn [map app]; [|assumption].
    rewrite <- Permutation_middle. now constructor.
Qed.

(** The bytes freed by the owners. *)
Definition owned_bytes (m : CellMap) : Z := total_bytes (filter owns m).

Lemma transferred_owned_bytes m m' k : transferred m m' k ->
  owned_bytes m' + owned_bytes k = owned_bytes m.
Proof.
  unfold owned_bytes. induction 1 as [|e m m' k T IH|e m m' k T IH]; cbn [filter]; [reflexivity| |].
  - destruct (owns e); [rewrite !total_bytes_cons; lia|assumption].
  - rewrite mark_owns. destruct (owns e); [rewrite !total_bytes_cons; lia|assumption].
Qed.

Lemma NoDup_app_parts {A} (a b : list A) : NoDup (a ++ b) ->
  NoDup a /\ NoDup b /\ forall x, In x a -> In x b -> False.
Proof.
  induction a as [|x a IH]; cbn; intros H; [repeat split; auto; constructor|].
  inv H. rewrite in_app_iff in H2. destruct (IH H3) as (Ha & Hb & Hd). repeat split; auto.
  - constructor; auto.
  - intros y [<-|Hy] Hyb; [auto|eauto].
Qed.

Lemma transferred_wf w c m' k id : transferred (m_cell_map c) m' k -> wf w c ->
  wf w (with_child c m' id) /\ wf w (new_child k).
Proof.
  intros T [Ws We Wn Wl Wf].
  destruct (transferred_sorted _ _ _ T Ws) as [S1 S2].
  destruct (transferred_wf_entries _ _ _ T We) as [E1 E2].
  pose proof (transferred_owned _ _ _ T) as Po.
  pose proof (Permutation_NoDup (Permutation_sym Po) Wn) as Nd.
  apply NoDup_app_parts in Nd as (N1 & N2 & _).
  split; split; cbn [with_child new_child m_cell_map]; try assumption;
    intros b Hb; apply Wl, (Permutation_in _ Po), in_app_iff; auto.
Qed.

(** ** The destructor *)

Lemma delete_block_ok b w : In b (w_live w) ->
  exists w', delete_block b w = Ok w' /\ w_next w' = w_next w /\ w_tracker w' = w_tracker w /\
    forall x, In x (w_live w') <-> In x (w_live w) /\ x <> b.
Proof.
  intros H. unfold delete_block. destruct (in_dec Nat.eq_dec b (w_live w)); [|contradiction].
  eexists; split; [reflexivity|]. cbn. do 2 (split; [reflexivity|]). intros x. split.
  - intros Hx. apply in_remove in Hx. tauto.
  - intros [Hx Hn]. now apply in_in_remove.
Qed.

Lemma free_entries_ok m : forall w x, Forall wf_entry m -> NoDup (owned m) -> incl (owned m) (w_live w) ->
  exists w', free_entries m (u64 x) w = Ok (u64 (x + owned_bytes m), w') /\
    w_next w' = w_next w /\ w_tracker w' = w_tracker w /\
    forall b, In b (w_live w') <-> In b (w_live w) /\ ~ In b (owned m).
Proof.
  induction m as [|e m IH]; intros w x We Wn Wl.
  - exists w. cbn [free_entries]. unfold owned_bytes. cbn. rewrite Z.add_0_r. repeat split; tauto.
  - inv We. destruct H1 as [_ Ho]. unfold owned, owned_bytes in *. cbn [free_entries filter] in *.
    change (Z.land (e_off e) ALLOC_BIT_MASK =? 0) with (owns e). destruct (owns e) eqn:Eo.
    + rewrite Ho, Z.eqb_refl. cbn [map] in *. inv Wn.
      destruct (delete_block_ok (e_block e) w (Wl _ (or_introl eq_refl))) as (w1 & E1 & Nx & Tr & L1).
      rewrite E1. cbn [bind]. rewrite u_add by lia.
      destruct (IH w1 (x + (byte_len (e_key e) + byte_len (e_value e))) H2 H3) as (w2 & E2 & N2 & T2 & L2).
      { intros b Hb. apply L1. split; [apply Wl; now right|]. intros ->. contradiction. }
      exists w2. rewrite E2, total_bytes_cons. unfold entry_bytes.
      split; [do 3 f_equal; lia|]. split; [congruence|]. split; [congruence|].
      intros b. rewrite L2, L1. cbn [In]. intuition congruence.
    + now apply IH.
Qed.

Lemma destroy_ok w c : wf w c ->
  exists w', destroy w c = Ok w' /\ w_next w' = w_next w /\
    MemoryTracker.get_memory (w_tracker w') =
      u64 (MemoryTracker.get_memory (w_tracker w) - u64 (owned_bytes (m_cell_map c))) /\
    forall b, In b (w_live w') <-> In b (w_live w) /\ ~ In b (owned (m_cell_map c)).
Proof.
  intros [Ws We Wn Wl Wf]. unfold destroy. change 0 with (u64 0).
  destruct (free_entries_ok (m_cell_map c) w 0 We Wn Wl) as (w' & E & Nx & Tr & L).
  rewrite E. cbn [bind]. eexists; split; [reflexivity|]. cbn [track w_next w_tracker w_live].
  rewrite Tr. auto.
Qed.

(** A cache stays well-formed when other blocks are freed. *)
Lemma wf_shrink w w' c : wf w c -> w_next w' = w_next w ->
  (forall b, In b (w_live w') -> In b (w_live w)) ->
  (forall b, In b (owned (m_cell_map c)) -> In b (w_live w')) -> wf w' c.
Proof.
  intros [Ws We Wn Wl Wf] En Hs Ho. split; try assumption.
  rewrite En. apply Forall_forall. intros b Hb. apply (proj1 (Forall_forall _ _) Wf). auto.
Qed.

(** Two caches that share their blocks but not the ownership can be destroyed
    in this order; each owned block is freed once. *)
Lemma destroy_two w a b : wf w a -> wf w b ->
  (forall x, In x (owned (m_cell_map a)) -> In x (owned (m_cell_map b)) -> False) ->
  exists w1 w2, destroy w a = Ok w1 /\ destroy w1 b = Ok w2 /\
    MemoryTracker.get_memory (w_tracker w2) =
      u64 (u64 (MemoryTracker.get_memory (w_tracker w) - u64 (owned_bytes (m_cell_map a)))
           - u64 (owned_bytes (m_cell_map b))) /\
    forall x, In x (w_live w2) <->
      In x (w_live w) /\ ~ In x (owned (m_cell_map a)) /\ ~ In x (owned (m_cell_map b)).
Proof.
  intros Wa Wb Hd. destruct (destroy_ok w a Wa) as (w1 & E1 & N1 & M1 & L1).
  assert (Wb1 : wf w1 b).
  { apply (wf_shrink w); [assumption|assumption|intros x Hx; now apply L1|].
    intros x Hx. apply L1. split; [now apply (wf_owned_live _ _ Wb)|eauto]. }
  destruct (destroy_ok w1 b Wb1) as (w2 & E2 & N2 & M2 & L2).
  exists w1, w2. do 2 (split; [assumption|]). split; [now rewrite M2, M1|].
  intros x. rewrite L2, L1. tauto.
Qed.

(** The old cache can be destroyed when its entries have gone to a new one. *)
Lemma hand_over w c m' k id : transferred (m_cell_map c) m' k -> wf w c ->
  exists w', destroy w (with_child c m' id) = Ok w' /\ wf w' (new_child k).
Proof.
  intros T W. destruct (transferred_wf _ _ _ _ id T W) as [Wp Wk]. pose proof (transferred_owned _ _ _ T) as Po.
  destruct (NoDup_app_parts _ _ (Permutation_NoDup (Permutation_sym Po) (wf_owned_nodup _ _ W))) as (_ & _ & Hd).
  destruct (destroy_ok w _ Wp) as (w1 & E1 & N1 & _ & L1). exists w1. split; [assumption|].
  apply (wf_shrink w); [assumption|assumption|intros x Hx; now apply L1|].
  intros x Hx. apply L1. split; [now apply (wf_owned_live _ _ Wk)|]. cbn [with_child new_child m_cell_map] in *. eauto.
Qed.

Lemma u64_sub_sub a x y : u64 (u64 (a - u64 x) - u64 y) = u64 (a - (x + y)).
Proof.
  unfold wrap. rewrite Zminus_mod_idemp_r, Zminus_mod_idemp_r, Zminus_mod_idemp_l. f_equal. lia.
Qed.

(** ** [slice_copy] *)

Definition newer (timestamp : Z) (e : entry) : bool :=
  match parse_key (e_key e) with Some k => timestamp <? k_ts k | None => false end.

Lemma map_insert_append e child m : Forall (fun x => Forall (key_lt x) (e :: m)) child ->
  map_insert_ e child = child ++ [e].
Proof.
  intros H. unfold map_insert_. rewrite map_insert_last; [reflexivity|].
  revert H. apply Forall_impl. intros x Hx. now inv Hx.
Qed.

Lemma below_snoc e child m : Forall (key_lt e) m -> Forall (fun x => Forall (key_lt x) (e :: m)) child ->
  Forall (fun x => Forall (key_lt x) m) (child ++ [e]).
Proof.
  intros He H. apply Forall_app. split; [|now constructor].
  revert H. apply Forall_impl. intros x Hx. now inv Hx.
Qed.

Lemma below_tail e child m : Forall (fun x => Forall (key_lt x) (e :: m)) child ->
  Forall (fun x => Forall (key_lt x) m) child.
Proof. apply Forall_impl. intros x Hx. now inv Hx. Qed.

Lemma slice_loop_ok ts m : forall child, sorted_map m -> Forall (fun x => Forall (key_lt x) m) child ->
  exists rest, slice_loop ts m child = (rest, child ++ filter (newer ts) m) /\
    transferred m rest (filter (newer ts) m).
Proof.
  induction m as [|e m IH]; intros child S B; cbn [slice_loop filter].
  - exists []. rewrite app_nil_r. split; [reflexivity|constructor].
  - inv S. destruct (newer ts e) eqn:N; unfold newer in N.
    + destruct (parse_key (e_key e)) as [k|]; [rewrite N|discriminate].
      destruct (IH (child ++ [e]) H1 (below_snoc _ _ _ H2 B)) as (rest & E & T).
      rewrite (map_insert_append _ _ _ B), E. exists (mark e :: rest). rewrite <- app_assoc.
      split; [reflexivity|now constructor].
    + destruct (IH child H1 (below_tail _ _ _ B)) as (rest & -> & T). exists (e :: rest).
      split; [|now constructor]. destruct (parse_key (e_key e)) as [k|]; [now rewrite N|reflexivity].
Qed.

Lemma slice_copy_ok ts id w c : wf w c -> exists w' parent child,
  slice_copy ts id w c = (w', parent, child) /\ m_cell_map child = filter (newer ts) (m_cell_map c) /\
  wf w' child /\ exists w1, destroy w' parent = Ok w1 /\ wf w1 child.
Proof.
  intros W. unfold slice_copy.
  destruct (slice_loop_ok ts (m_cell_map c) [] (wf_sorted _ _ W) (Forall_nil _)) as (m' & -> & T). cbn [app].
  assert (W' : forall f, wf (track f w) c) by (intros; destruct W; split; assumption).
  do 3 eexists. split; [reflexivity|]. split; [reflexivity|]. split; [now apply (transferred_wf _ _ m' _ id T)|].
  now apply hand_over.
Qed.

(** C25. [slice_copy] gives the child exactly the cells newer than the timestamp,
    in order; the old cache keeps all its keys; every block keeps exactly one
    owner, so destroying both caches, in either order, frees each block once and
    takes the bytes of all of them out of the memory tracker. *)
Theorem slice_copy_correct ts id w c w' parent child : wf w c ->
  slice_copy ts id w c = (w', parent, child) ->
  m_cell_map child = filter (newer ts) (m_cell_map c) /\
  map e_key (m_cell_map parent) = map e_key (m_cell_map c) /\
  wf w' parent /\ wf w' child /\
  (forall a b, a = parent /\ b = child \/ a = child /\ b = parent ->
   exists w1 w2, destroy w' a = Ok w1 /\ destroy w1 b = Ok w2 /\
    MemoryTracker.get_memory (w_tracker w2) =
      u64 (MemoryTracker.get_memory (w_tracker w) - owned_bytes (m_cell_map c)) /\
    forall x, In x (w_live w2) <-> In x (w_live w) /\ ~ In x (owned (m_cell_map c))).
Proof.
  intros W. unfold slice_copy.
  destruct (slice_loop_ok ts (m_cell_map c) [] (wf_sorted _ _ W) (Forall_nil _)) as (m' & -> & T).
  cbn [app]. intros [= <- <- <-]. cbn [with_child new_child m_cell_map].
  assert (W' : wf (track (MemoryTracker.add_items (zlen (filter (newer ts) (m_cell_map c)))) w) c)
    by (destruct W; split; assumption).
  destruct (transferred_wf _ _ _ _ id T W') as [Wp Wk].
  pose proof (transferred_owned _ _ _ T) as Po. pose proof (transferred_owned_bytes _ _ _ T) as Pb.
  destruct (NoDup_app_parts _ _ (Permutation_NoDup (Permutation_sym Po) (wf_owned_nodup _ _ W))) as (_ & _ & Hd).
  split; [reflexivity|]. split; [apply (transferred_keys _ _ _ T)|]. do 2 (split; [assumption|]).
  assert (Hin : forall x, In x (owned (m_cell_map c)) <->
    In x (owned m') \/ In x (owned (filter (newer ts) (m_cell_map c)))).
  { intros x. rewrite <- in_app_iff. split; apply Permutation_in; [now symmetry|assumption]. }
  intros a b [[-> ->]|[-> ->]]; [destruct (destroy_two _ _ _ Wp Wk) as (w1 & w2 & E1 & E2 & M & L)
                                |destruct (destroy_two _ _ _ Wk Wp) as (w1 & w2 & E1 & E2 & M & L)];
    try (cbn [with_child new_child m_cell_map]; eauto);
    exists w1, w2; do 2 (split; [assumption|]); (split;
      [rewrite M, u64_sub_sub; cbn [with_child new_child m_cell_map]; 
       change (MemoryTracker.get_memory (w_tracker (track _ w))) with (MemoryTracker.get_memory (w_tracker w));
       f_equal; lia
      |intros x; rewrite L, Hin; cbn [with_child new_child m_cell_map track w_live]; tauto]).
Qed.

Definition sample_entry : entry :=
  {| e_block := 0; e_key := sample_key; e_value := [118]; e_off := u32 (byte_len sample_key) |}.
Definition sample_cache : CellCache :=
  {| m_cell_map := [sample_entry]; m_memory_used := 18; m_deletes := 0; m_collisions := 0; m_children := [] |}.
Definition sample_world : world :=
  {| w_next := 1; w_live := [0%nat]; w_tracker := MemoryTracker.add_memory 18 MemoryTracker.make |}.

Lemma sample_wf : wf sample_world sample_cache.
Proof.
  split.
  - repeat constructor.
  - constructor; [|constructor]. split; [|vm_compute; reflexivity].
    repeat constructor; vm_compute; intuition discriminate.
  - repeat constructor. intros [].
  - intros b Hb. exact Hb.
  - repeat constructor.
Qed.

Lemma slice_copy_correct_witness :
  let '(w', parent, child) := slice_copy 60 1 sample_world sample_cache in
  m_cell_map child = [sample_entry] /\
  exists w1 w2, destroy w' parent = Ok w1 /\ destroy w1 child = Ok w2 /\
    forall x, In x (w_live w2) <-> In x (w_live sample_world) /\ ~ In x (owned (m_cell_map sample_cache)).
Proof.
  destruct (slice_copy 60 1 sample_world sample_cache) as [[w' parent] child] eqn:E.
  destruct (slice_copy_correct 60 1 sample_world sample_cache w' parent child sample_wf E) as (Em & _ & _ & _ & D).
  split; [rewrite Em; vm_compute; reflexivity|].
  destruct (D parent child (or_introl (conj eq_refl eq_refl))) as (w1 & w2 & E1 & E2 & _ & L).
  exists w1, w2. auto.
Defined.

(** After a slice the child's byte counter is zero, whatever it holds:
    [memory_used()] of the child counts map nodes only, where the documentation
    of [memory_used] says the sum of the lengths of all keys and values; the
    delete counter is zero as well. *)
Theorem child_counters_reset ts id w c node :
  let '(_, _, child) := slice_copy ts id w c in
  memory_used node child = u64 (size child * node) /\ get_delete_count child = 0.
Proof.
  unfold slice_copy. destruct (slice_loop ts (m_cell_map c) []) as [m k]. split; reflexivity.
Qed.

(** ** [purge_deletes] *)

(** What the purge keeps, given the keys [P] that came before. *)
Fixpoint purge_kept (P : list KeyComps) (m : CellMap) : CellMap :=
  match m with
  | [] => []
  | e :: m' =>
      match parse_key (e_key e) with
      | None => purge_kept P m'
      | Some k =>
          if (k_flag k =? FLAG_INSERT) && survives P k
          then e :: purge_kept (P ++ [k]) m' else purge_kept (P ++ [k]) m'
      end
  end.

Definition comps_of (m : CellMap) : list KeyComps :=
  flat_map (fun e => match parse_key (e_key e) with Some k => [k] | None => [] end) m.

(** The keys of the map are after those in [P]. *)
Definition after (P : list KeyComps) (m : CellMap) : Prop :=
  forall e k, In e m -> parse_key (e_key e) = Some k -> forall p, In p P -> comps_le p k.

Lemma after_cons P e m k : wf_entry e -> Forall wf_entry m -> Forall (key_lt e) m ->
  parse_key (e_key e) = Some k -> after P (e :: m) -> after (P ++ [k]) m.
Proof.
  intros [We _] Wm Hlt Hk Ha e' k' Hin Hk' p Hp. apply in_app_iff in Hp as [Hp|[<-|[]]].
  - exact (Ha e' k' (or_intror Hin) Hk' p Hp).
  - pose proof (proj1 (Forall_forall _ _) Hlt e' Hin) as L.
    destruct (proj1 (Forall_forall _ _) Wm e' Hin) as [We' _].
    destruct (pack_parse _ _ We Hk) as [E W]. destruct (pack_parse _ _ We' Hk') as [E' W'].
    unfold comps_le. rewrite <- pack_cmp, <- E, <- E', L by assumption. discriminate.
Qed.

Lemma insert_not_delete k : k_flag k = FLAG_INSERT -> is_delete k = false.
Proof. intros E. unfold is_delete. now rewrite E. Qed.

Lemma purge_loop_ok m : forall d P child, tracks d P -> Forall wf_comps P -> after P m ->
  sorted_map m -> Forall wf_entry m -> Forall (fun x => Forall (key_lt x) m) child ->
  exists rest, purge_loop d m child = (rest, child ++ purge_kept P m) /\ transferred m rest (purge_kept P m).
Proof.
  induction m as [|e m IH]; intros d P child T WP Ha S We B; cbn [purge_loop purge_kept].
  - exists []. rewrite app_nil_r. split; [reflexivity|constructor].
  - inv S. inv We. destruct (parse_key (e_key e)) as [k|] eqn:Ek.
    + assert (Wk : wf_comps k) by (apply (pack_parse _ _ (proj1 H3) Ek)).
      pose proof (Ha e k (or_introl eq_refl) Ek) as Hk.
      pose proof (after_cons P e m k H3 H4 H2 Ek Ha) as Ha'.
      assert (WP' : Forall wf_comps (P ++ [k])) by (apply Forall_app; auto).
      destruct (Z.eqb_spec (k_flag k) FLAG_INSERT) as [Ef|Ef]; cbn [andb].
      * pose proof (insert_not_delete k Ef) as Hd.
        pose proof (tracks_check d P k T Wk WP Hd Hk) as T'.
        pose proof (check_insert_survives d P k T Wk Hk) as Es.
        destruct (check_insert d k) as [d' keep]. cbn [fst snd] in *. rewrite <- Es. destruct keep.
        -- rewrite (map_insert_append _ _ _ B).
           destruct (IH d' (P ++ [k]) (child ++ [e])) as (rest & -> & Tr); auto using below_snoc.
           exists (mark e :: rest). rewrite <- app_assoc. split; [reflexivity|now constructor].
        -- destruct (IH d' (P ++ [k]) child) as (rest & -> & Tr); eauto using below_tail.
           exists (e :: rest). split; [reflexivity|now constructor].
      * destruct (IH (note_delete d k) (P ++ [k]) child) as (rest & -> & Tr); eauto using below_tail, tracks_note.
        exists (e :: rest). split; [reflexivity|now constructor].
    + destruct (IH d P child) as (rest & -> & Tr); eauto using below_tail.
      * intros e' k' Hin. exact (Ha e' k' (or_intror Hin)).
      * exists (e :: rest). split; [reflexivity|now constructor].
Qed.

Lemma purge_kept_In m : forall P0 e, In e (purge_kept P0 m) <->
  exists P Q k, m = P ++ e :: Q /\ parse_key (e_key e) = Some k /\ k_flag k = FLAG_INSERT /\
    survives (P0 ++ comps_of P) k = true.
Proof.
  induction m as [|x m IH]; intros P0 e; cbn [purge_kept].
  - split; [intros []|]. intros (P & Q & k & E & _). now destruct P.
  - split.
    + destruct (parse_key (e_key x)) as [k|] eqn:Ek.
      * destruct ((k_flag k =? FLAG_INSERT) && survives P0 k) eqn:C; [intros [->|H]|intros H].
        -- apply andb_true_iff in C as [C1 C2]. apply Z.eqb_eq in C1.
           exists [], m, k. cbn [comps_of flat_map app]. rewrite app_nil_r. auto.
        -- apply IH in H as (P & Q & k' & -> & E1 & E2 & E3). exists (x :: P), Q, k'.
           cbn [comps_of flat_map]. rewrite Ek. cbn [app]. rewrite <- app_assoc in E3. auto.
        -- apply IH in H as (P & Q & k' & -> & E1 & E2 & E3). exists (x :: P), Q, k'.
           cbn [comps_of flat_map]. rewrite Ek. cbn [app]. rewrite <- app_assoc in E3. auto.
      * intros H. apply IH in H as (P & Q & k' & -> & E1 & E2 & E3). exists (x :: P), Q, k'.
        cbn [comps_of flat_map]. rewrite Ek. auto.
    + intros (P & Q & k & E & E1 & E2 & E3). destruct P as [|p P]; injection E as -> ->.
      * rewrite E1. cbn [comps_of flat_map] in E3. rewrite app_nil_r in E3.
        rewrite E2, E3, Z.eqb_refl. now left.
      * cbn [comps_of flat_map] in E3. destruct (parse_key (e_key p)) as [kp|].
        -- destruct (_ && _); [right|]; apply IH; exists P, Q, k; rewrite <- app_assoc; auto.
        -- apply IH. exists P, Q, k. auto.
Qed.

Lemma purge_deletes_ok id w c : wf w c -> exists w' parent child,
  purge_deletes id w c = (w', parent, child) /\ m_cell_map child = purge_kept [] (m_cell_map c) /\
  wf w' child /\ exists w1, destroy w' parent = Ok w1 /\ wf w1 child.
Proof.
  intros W. unfold purge_deletes.
  destruct (purge_loop_ok (m_cell_map c) no_deletes [] []) as (m' & -> & T); auto using tracks_init; try apply W.
  { intros e k _ _ p []. }
  cbn [app]. assert (W' : forall f, wf (track f w) c) by (intros; destruct W; split; assumption).
  do 3 eexists. split; [reflexivity|]. split; [reflexivity|]. split; [now apply (transferred_wf _ _ m' _ id T)|].
  now apply hand_over.
Qed.

(** *** Several caches in one heap *)

(** An operation turns a cache and the heap into [c'] and [w']: it frees nothing
    that others own, and what it takes is new. *)
Record evolves (w : world) (c : CellCache) (w' : world) (c' : CellCache) : Prop := {
  ev_next : (w_next w <= w_next w')%nat;
  ev_live b : In b (w_live w) -> ~ In b (owned (m_cell_map c)) -> In b (w_live w');
  ev_owned b : In b (owned (m_cell_map c')) -> In b (owned (m_cell_map c)) \/ (w_next w <= b)%nat }.

Lemma evolves_same w w' c c' : w_next w' = w_next w -> w_live w' = w_live w -> m_cell_map c' = m_cell_map c -> evolves w c w' c'.
Proof. intros H1 H2 H3. split; rewrite ?H1, ?H2, ?H3; auto. Qed.

Lemma evolves_trans w c w1 c1 w2 c2 : Forall (fun b => (b < w_next w)%nat) (w_live w) ->
  evolves w c w1 c1 -> evolves w1 c1 w2 c2 -> evolves w c w2 c2.
Proof.
  intros Hf [A1 A2 A3] [B1 B2 B3]. split; [lia| |].
  - intros b Hb Hn. apply B2; [auto|]. intros Hin. apply A3 in Hin as [Hin|Hin]; [contradiction|].
    rewrite Forall_forall in Hf. apply Hf in Hb. lia.
  - intros b Hb. apply B3 in Hb as [Hb|Hb]; [auto|right; lia].
Qed.

Definition apart (c d : CellCache) : Prop := forall b, In b (owned (m_cell_map c)) -> In b (owned (m_cell_map d)) -> False.

Lemma evolves_other w c w' c' d : evolves w c w' c' -> wf w' c' -> wf w d -> apart c d -> wf w' d /\ apart c' d.
Proof.
  intros [A1 A2 A3] W' [Ds De Dn Dl Df] Ha. split.
  - split; try assumption; [|apply W']. intros b Hb. apply A2; [auto|]. intros Hc. exact (Ha b Hc Hb).
  - intros b Hc Hd. apply A3 in Hc as [Hc|Hc]; [exact (Ha b Hc Hd)|]. rewrite Forall_forall in Df. specialize (Df b (Dl b Hd)). lia.
Qed.

Lemma add_evolves key value w c w' c' : Forall (fun b => (b < w_next w)%nat) (w_live w) ->
  add key value w c = Ok (w', c') -> evolves w c w' c'.
Proof.
  intros Hf. unfold add, new_block. destruct (map_insert _ _) as [m|] eqn:Hm.
  - destruct (flag_byte key) as [fl| |]; cbn [bind]; try discriminate. intros [= <- <-].
    pose proof (map_insert_some _ _ _ Hm) as Perm. split; cbn [w_next w_live m_cell_map]; [lia|intros; now right|].
    intros b Hb. apply (Permutation_in _ (owned_perm _ _ Perm)) in Hb. unfold owned in *. cbn [filter] in Hb.
    destruct (owns _); [|auto]. destruct Hb as [<-|Hb]; [right; cbn; lia|auto].
  - unfold delete_block. destruct (in_dec _ _ _); cbn [bind]; [|discriminate]. intros [= <- <-].
    split; [cbn; lia| |auto]. intros b Hb _. rewrite Forall_forall in Hf. specialize (Hf b Hb).
    apply (in_in_remove Nat.eq_dec (w_next w :: w_live w)); [lia|now right].
Qed.

Lemma hand_over_evolves w c m' k id w' : transferred (m_cell_map c) m' k -> wf w c ->
  destroy w (with_child c m' id) = Ok w' -> evolves w c w' (new_child k).
Proof.
  intros T W H. destruct (transferred_wf _ _ _ _ id T W) as [Wp _]. pose proof (transferred_owned _ _ _ T) as Po.
  destruct (destroy_ok w _ Wp) as (w1 & E1 & N1 & _ & L1). assert (w1 = w') as -> by congruence. split; [lia| |].
  - intros b Hb Hn. apply L1. split; [assumption|]. intros Hin. apply Hn, (Permutation_in _ Po), in_or_app. now left.
  - intros b Hb. left. apply (Permutation_in _ Po), in_or_app. now right.
Qed.

Lemma transferred_evolves w c m' k f : transferred (m_cell_map c) m' k -> evolves w c (track f w) (new_child k).
Proof.
  intros T. pose proof (transferred_owned _ _ _ T) as Po. split; cbn [track w_next w_live]; [lia|auto|].
  intros b Hb. left. apply (Permutation_in _ Po), in_or_app. now right.
Qed.

Lemma evolves_track f w c w' c' : evolves (track f w) c w' c' -> evolves w c w' c'.
Proof. intros [A1 A2 A3]. split; assumption. Qed.

Lemma slice_copy_evolves ts id w c w' parent child : wf w c -> slice_copy ts id w c = (w', parent, child) ->
  evolves w c w' child /\ forall w1, destroy w' parent = Ok w1 -> evolves w c w1 child.
Proof.
  intros W. unfold slice_copy. destruct (slice_loop_ok ts (m_cell_map c) [] (wf_sorted _ _ W) (Forall_nil _)) as (m' & -> & T). cbn [app].
  intros [= <- <- <-]. split; [now apply (transferred_evolves w c m')|]. intros w1 H.
  assert (W1 : wf (track (MemoryTracker.add_items (zlen (filter (newer ts) (m_cell_map c)))) w) c) by (destruct W; split; assumption).
  exact (evolves_track _ _ _ _ _ (hand_over_evolves _ c m' _ id w1 T W1 H)).
Qed.

Lemma purge_deletes_evolves id w c w' parent child : wf w c -> purge_deletes id w c = (w', parent, child) ->
  evolves w c w' child /\ forall w1, destroy w' parent = Ok w1 -> evolves w c w1 child.
Proof.
  intros W. unfold purge_deletes.
  destruct (purge_loop_ok (m_cell_map c) no_deletes [] []) as (m' & -> & T); auto using tracks_init; try apply W.
  { intros e k _ _ p []. }
  cbn [app]. intros [= <- <- <-]. split; [now apply (transferred_evolves w c m')|]. intros w1 H.
  assert (W1 : forall f, wf (track f w) c) by (intros; destruct W; split; assumption).
  exact (evolves_track _ _ _ _ _ (hand_over_evolves _ c m' _ id w1 T (W1 _) H)).
Qed.

(** C27. [purge_deletes] gives the child exactly the inserts that survive the
    deletes before them under the rule of [survives], no delete record among
    them; the old cache keeps its keys, and every block keeps exactly one owner. *)
Theorem purge_deletes_correct id w c w' parent child : wf w c ->
  purge_deletes id w c = (w', parent, child) ->
  (forall e, In e (m_cell_map child) <->
     exists P Q k, m_cell_map c = P ++ e :: Q /\ parse_key (e_key e) = Some k /\ k_flag k = FLAG_INSERT /\
       survives (comps_of P) k = true) /\
  map e_key (m_cell_map parent) = map e_key (m_cell_map c) /\
  wf w' parent /\ wf w' child /\
  Permutation (owned (m_cell_map parent) ++ owned (m_cell_map child)) (owned (m_cell_map c)).
Proof.
  intros W. unfold purge_deletes.
  destruct (purge_loop_ok (m_cell_map c) no_deletes [] []) as (m' & -> & T);
    auto using tracks_init; try apply W.
  { intros e k _ _ p []. }
  cbn [app]. intros [= <- <- <-]. cbn [with_child new_child m_cell_map].
  split; [intros e; apply purge_kept_In|]. split; [apply (transferred_keys _ _ _ T)|].
  assert (W' : forall f, wf (track f w) c) by (intros; destruct W; split; assumption).
  destruct (transferred_wf _ _ _ _ id T (W' (MemoryTracker.add_items (zlen (purge_kept [] (m_cell_map c)))))) as [Wp Wk].
  do 2 (split; [assumption|]). apply (transferred_owned _ _ _ T).
Qed.

Lemma purge_deletes_correct_witness :
  let '(w', parent, child) := purge_deletes 1 sample_world sample_cache in
  (forall e, In e (m_cell_map child) <->
     exists P Q k, m_cell_map sample_cache = P ++ e :: Q /\ parse_key (e_key e) = Some k /\
       k_flag k = FLAG_INSERT /\ survives (comps_of P) k = true) /\ m_cell_map child = [sample_entry].
Proof.
  destruct (purge_deletes 1 sample_world sample_cache) as [[w' parent] child] eqn:E.
  split; [apply (purge_deletes_correct 1 sample_world sample_cache w' parent child sample_wf E)|].
  vm_compute in E. injection E as _ _ <-. vm_compute. reflexivity.
Defined.
