(* ===== verification/Scanner.v ===== *)
(** * Scanners over cells

    The interface [CellListScanner] (abstract class in
    [RangeServer/CellListScanner.h]), as a type class: the two operations and
    what a client may rely on, stated with the list of cells a scanner still has
    to give.  [CellCacheScanner] over a cell cache is the first instance.

    A cell is the content of its key and of its value. *)
From S2P Require Import Prelude Errors Serialization ByteString Key Deletes CellCache.
From Stdlib Require Import ZArith Lia List Bool Sorted.
Import ListNotations.
Open Scope Z_scope.

Definition cell : Type := list Z * list Z.

(** ** The interface *)

(** [get(key, value)] gives the current cell, if any; asking again changes
    nothing.  [forward()], after a [get] that gave a cell, moves on. *)
Class CellListScanner (S : Type) := {
  sc_get : S -> option cell * S;
  sc_forward : S -> S;
  sc_inv : S -> Prop;
  sc_cells : S -> list cell;
  sc_get_spec s : sc_inv s ->
    fst (sc_get s) = hd_error (sc_cells s) /\ sc_cells (snd (sc_get s)) = sc_cells s /\
    sc_inv (snd (sc_get s)) /\ snd (sc_get (snd (sc_get s))) = snd (sc_get s);
  sc_forward_spec s c : sc_inv s -> sc_get s = (Some c, s) ->
    sc_cells (sc_forward s) = tl (sc_cells s) /\ sc_inv (sc_forward s) }.

(** What a client sees that asks for up to [n] cells. *)
Fixpoint drain {S} `{CellListScanner S} (n : nat) (s : S) : list cell :=
  match n with
  | O => []
  | Datatypes.S n =>
      match sc_get s with
      | (None, _) => []
      | (Some c, s') => c :: drain n (sc_forward s')
      end
  end.

Lemma get_ready {S} `{CellListScanner S} s c s' : sc_inv s -> sc_get s = (Some c, s') ->
  sc_inv s' /\ sc_get s' = (Some c, s') /\ sc_cells s' = sc_cells s /\ sc_cells s = c :: tl (sc_cells s).
Proof.
  intros Hi E. destruct (sc_get_spec s Hi) as (H1 & H2 & H3 & H4). rewrite E in *. cbn [fst snd] in *.
  split; [assumption|]. destruct (sc_get_spec s' H3) as (G1 & G2 & G3 & G4).
  split; [|split; [assumption|]].
  - rewrite (surjective_pairing (sc_get s')). f_equal; [|assumption]. now rewrite G1, H2.
  - destruct (sc_cells s); [discriminate|]. now injection H1 as <-.
Qed.

Lemma drain_cells {S} `{CellListScanner S} n : forall s, sc_inv s -> drain n s = firstn n (sc_cells s).
Proof.
  induction n as [|n IH]; intros s Hi; [reflexivity|]. cbn [drain].
  destruct (sc_get s) as [[c|] s'] eqn:E.
  - destruct (get_ready s c s' Hi E) as (Hi' & E' & Hc & Hh).
    destruct (sc_forward_spec s' c Hi' E') as [Hf Hfi]. rewrite IH, Hf, Hc, Hh by assumption. reflexivity.
  - destruct (sc_get_spec s Hi) as (H1 & _). rewrite E in H1. now destruct (sc_cells s).
Qed.

(** Scanners of two kinds side by side. *)
#[export] Instance sum_scanner {S T} `{CellListScanner S} `{CellListScanner T} : CellListScanner (S + T).
Proof.
  refine {|
    sc_get s := match s with
                | inl s => let '(o, s') := sc_get s in (o, inl s')
                | inr s => let '(o, s') := sc_get s in (o, inr s')
                end;
    sc_forward s := match s with inl s => inl (sc_forward s) | inr s => inr (sc_forward s) end;
    sc_inv s := match s with inl s => sc_inv s | inr s => sc_inv s end;
    sc_cells s := match s with inl s => sc_cells s | inr s => sc_cells s end |}.
  - intros [s|s] Hi; destruct (sc_get_spec s Hi) as (H1 & H2 & H3 & H4);
      destruct (sc_get s) as [o s']; cbn in *; destruct (sc_get s') as [o' s'']; cbn in *; subst; auto.
  - intros [s|s] c Hi; destruct (sc_get s) as [o s'] eqn:E; intros [= -> ->]; exact (sc_forward_spec s c Hi E).
Defined.

(** ** Iterators into a cell map *)

Fixpoint drop_while {A} (f : A -> bool) (l : list A) : list A :=
  match l with
  | [] => []
  | x :: l' => if f x then drop_while f l' else l
  end.

(** [lower_bound(k)] and the entries behind the one with key [k]; an iterator is
    the key it points at, [None] at the end. *)
Definition lower_bound (k : list Z) (m : CellMap) : CellMap := drop_while (fun e => bytes_ltb (e_key e) k) m.
Definition behind (k : list Z) (m : CellMap) : CellMap := drop_while (fun e => bytes_leb (e_key e) k) m.
Definition iter_of (m : CellMap) : option (list Z) :=
  match m with [] => None | e :: _ => Some (e_key e) end.
Definition at_iter (it : option (list Z)) (e : entry) : bool :=
  match it with None => false | Some k => bytes_eqb (e_key e) k end.

(** ** Scanning a cell cache *)

(** What the scanner needs of the scan context. *)
Record bounds := { start_row : list Z; end_row : list Z; family_mask : Z -> bool }.

(** [m_cur_iter] with [m_cur_key] and [m_cur_value] ([None] for [m_eos]) and
    [m_end_iter]. *)
Record CellCacheScanner := {
  cs_mask : Z -> bool; cs_cur : option entry; cs_end : option (list Z) }.

(** The loop: stop at the end iterator, skip keys that do not load and families
    that are not wanted; row deletes pass whatever their family code. *)
Definition wanted (mask : Z -> bool) (e : entry) : bool :=
  match parse_key (e_key e) with
  | None => false
  | Some k => (k_flag k =? FLAG_DELETE_ROW) || mask (k_family k)
  end.

Fixpoint seek (mask : Z -> bool) (end_iter : option (list Z)) (m : CellMap) : option entry :=
  match m with
  | [] => None
  | e :: m' =>
      if at_iter end_iter e then None
      else if wanted mask e then Some e
      else seek mask end_iter m'
  end.

(** The rows with their terminating NUL, of which [lower_bound] is taken. *)
Definition row_bound (r : list Z) : list Z := r ++ [0].

Definition CellCacheScanner_make (m : CellMap) (b : bounds) : CellCacheScanner :=
  let start_iter := lower_bound (row_bound (start_row b)) m in
  let end_iter := iter_of (lower_bound (row_bound (end_row b)) m) in
  {| cs_mask := family_mask b; cs_cur := seek (family_mask b) end_iter start_iter; cs_end := end_iter |}.

Definition cell_of (e : entry) : cell := (e_key e, e_value e).

Definition cs_get (s : CellCacheScanner) : option cell := option_map cell_of (cs_cur s).

(** [forward()] on the map as it is now; at the end of the scan it moves an
    iterator past the end. *)
Definition cs_forward (m : CellMap) (s : CellCacheScanner) : result CellCacheScanner :=
  match cs_cur s with
  | None => Fault
  | Some e =>
      Ok {| cs_mask := cs_mask s; cs_cur := seek (cs_mask s) (cs_end s) (behind (e_key e) m);
            cs_end := cs_end s |}
  end.

(** ** What it yields *)

(** The entries between the two bounds that are wanted. *)
Definition in_bounds (b : bounds) (e : entry) : bool :=
  bytes_leb (row_bound (start_row b)) (e_key e) && bytes_ltb (e_key e) (row_bound (end_row b)).
Definition visible_cells (b : bounds) (m : CellMap) : list cell :=
  map cell_of (filter (fun e => in_bounds b e && wanted (family_mask b) e) m).

Lemma drop_while_sorted k m : sorted_map m ->
  lower_bound k m = filter (fun e => negb (bytes_ltb (e_key e) k)) m.
Proof.
  unfold lower_bound. induction 1 as [|e m Hm IH Hf]; [reflexivity|]. cbn [drop_while filter].
  destruct (bytes_ltb (e_key e) k) eqn:E; cbn [negb]; [assumption|]. f_equal.
  clear IH Hm. induction m as [|e' m IH]; [reflexivity|]. inv Hf. cbn [filter].
  replace (bytes_ltb (e_key e') k) with false; cbn [negb]; [f_equal; auto|].
  symmetry. apply bytes_ltb_ge. apply bytes_ltb_ge in E. intros L. apply E.
  unfold key_lt in *. eapply bytes_lt_trans; eassumption.
Qed.

Lemma behind_app P e m : sorted_map (P ++ e :: m) -> behind (e_key e) (P ++ e :: m) = m.
Proof.
  unfold behind. induction P as [|p P IH]; cbn [app drop_while].
  - intros H. inv H. rewrite (proj2 (bytes_leb_le _ _)) by auto.
    destruct m as [|e' m]; [reflexivity|]. inv H3. cbn [drop_while].
    rewrite (proj2 (bytes_leb_gt _ _)) by assumption. reflexivity.
  - intros H. inv H. rewrite (proj2 (bytes_leb_le _ _)); [now apply IH|].
    left. apply (proj1 (Forall_forall _ _) H3). rewrite in_app_iff. cbn. auto.
Qed.

(** The entries in front of an iterator. *)
Fixpoint upto (it : option (list Z)) (m : CellMap) : CellMap :=
  match m with
  | [] => []
  | e :: m' => if at_iter it e then [] else e :: upto it m'
  end.

Definition cs_remaining (m : CellMap) (s : CellCacheScanner) : CellMap :=
  match cs_cur s with
  | None => []
  | Some e => e :: filter (wanted (cs_mask s)) (upto (cs_end s) (behind (e_key e) m))
  end.

Lemma seek_spec mask it m : sorted_map m -> forall l P, m = P ++ l ->
  match seek mask it l with
  | None => filter (wanted mask) (upto it l) = []
  | Some e => In e m /\ filter (wanted mask) (upto it l) = e :: filter (wanted mask) (upto it (behind (e_key e) m))
  end.
Proof.
  intros Hm. induction l as [|e l IH]; intros P ->; cbn [seek upto]; [reflexivity|].
  destruct (at_iter it e); [reflexivity|]. cbn [filter]. destruct (wanted mask e) eqn:W.
  - rewrite behind_app by assumption. split; [|reflexivity]. rewrite in_app_iff. cbn. auto.
  - specialize (IH (P ++ [e])). rewrite <- app_assoc in IH. now apply IH.
Qed.

Lemma sorted_lower k e m : sorted_map (e :: m) -> ~ bytes_lt (e_key e) k -> lower_bound k m = m.
Proof.
  intros Hs He. destruct m as [|e' m]; [reflexivity|]. unfold lower_bound. cbn [drop_while].
  replace (bytes_ltb (e_key e') k) with false; [reflexivity|]. symmetry. apply bytes_ltb_ge. intros L. apply He.
  inv Hs. inv H2. eapply bytes_lt_trans; eassumption.
Qed.

Lemma in_lower k e m : In e (lower_bound k m) -> In e m.
Proof.
  unfold lower_bound. induction m as [|e' m IH]; cbn [drop_while]; [tauto|].
  destruct (bytes_ltb (e_key e') k); cbn; intuition.
Qed.

Lemma upto_bounds lo hi m : sorted_map m -> bytes_leb lo hi = true ->
  upto (iter_of (lower_bound hi m)) (lower_bound lo m) =
  filter (fun e => bytes_leb lo (e_key e) && bytes_ltb (e_key e) hi) m.
Proof.
  intros Hm Hle. induction m as [|e m IH]; [reflexivity|]. pose proof Hm as Hs. inv Hm. specialize (IH H1).
  cbn [filter]. unfold lower_bound at 1 2. cbn [drop_while]. fold (lower_bound lo m) (lower_bound hi m).
  destruct (bytes_leb lo (e_key e)) eqn:El.
  - replace (bytes_ltb (e_key e) lo) with false
      by (symmetry; apply bytes_ltb_ge; intros L; apply bytes_leb_le in El as [El|El];
          [exact (bytes_lt_asym _ _ L El)|subst; exact (bytes_lt_irrefl _ L)]).
    destruct (bytes_ltb (e_key e) hi) eqn:Eh; cbn [andb].
    + cbn [upto]. replace (at_iter (iter_of (lower_bound hi m)) e) with false.
      * f_equal. rewrite (sorted_lower lo e m) in IH; [exact IH|assumption|].
        intros L. apply bytes_leb_le in El as [El|El]; [exact (bytes_lt_asym _ _ L El)|subst; exact (bytes_lt_irrefl _ L)].
      * destruct (lower_bound hi m) as [|e' l] eqn:E; [reflexivity|]. cbn. symmetry. apply bytes_eqb_neq.
        intros Ek. apply (proj1 (Forall_forall _ _)) with (x := e') in H2; [|apply (in_lower hi); rewrite E; now left].
        unfold key_lt in H2. rewrite Ek in H2. exact (bytes_lt_irrefl _ H2).
    + cbn [upto iter_of at_iter]. rewrite (proj2 (bytes_eqb_eq _ _) eq_refl). symmetry.
      apply bytes_ltb_ge in Eh. clear -H2 Eh. induction m as [|e' m IH]; [reflexivity|]. inv H2. cbn [filter].
      replace (bytes_ltb (e_key e') hi) with false; [rewrite andb_false_r; auto|].
      symmetry. apply bytes_ltb_ge. intros L. apply Eh. eapply bytes_lt_trans; eassumption.
  - apply bytes_leb_gt in El. rewrite (proj2 (bytes_ltb_lt _ _) El). cbn [andb].
    replace (bytes_ltb (e_key e) hi) with true; [exact IH|]. symmetry. apply bytes_ltb_lt.
    apply bytes_leb_le in Hle as [Hle|<-]; [eapply bytes_lt_trans; eassumption|assumption].
Qed.

(** Rows in order stay in order with their terminating NUL. *)
Lemma row_bound_le a b : wf_bytes b -> bytes_leb a b = true -> bytes_leb (row_bound a) (row_bound b) = true.
Proof.
  unfold row_bound, bytes_leb. revert b. induction a as [|x a IH]; intros [|y b] Wb; cbn [bytes_cmp app]; try discriminate; auto.
  - intros _. inv Wb. destruct H1. destruct (Z.compare_spec 0 y); [|reflexivity|lia].
    destruct b; reflexivity.
  - inv Wb. destruct (x ?= y); auto.
Qed.

(** What a new scanner will give. *)
Lemma scanner_starts m b : sorted_map m -> wf_bytes (end_row b) -> bytes_leb (start_row b) (end_row b) = true ->
  map cell_of (cs_remaining m (CellCacheScanner_make m b)) = visible_cells b m.
Proof.
  intros Hm Wb Hle. apply row_bound_le in Hle; [|assumption].
  unfold visible_cells, CellCacheScanner_make, cs_remaining. cbn [cs_cur cs_mask cs_end]. f_equal.
  assert (Hsuf : exists P, m = P ++ lower_bound (row_bound (start_row b)) m).
  { generalize (row_bound (start_row b)) as k. intros k. unfold lower_bound. clear. induction m as [|e m [P IH]]; [now exists []|].
    cbn [drop_while]. destruct (bytes_ltb (e_key e) k); [exists (e :: P); cbn; now f_equal|now exists []]. }
  destruct Hsuf as [P HP].
  pose proof (seek_spec (family_mask b) (iter_of (lower_bound (row_bound (end_row b)) m)) m Hm _ P HP) as Hk.
  rewrite upto_bounds in Hk by assumption.
  assert (E : filter (fun e => in_bounds b e && wanted (family_mask b) e) m =
              filter (wanted (family_mask b)) (filter (in_bounds b) m)).
  { clear. induction m as [|e m IH]; [reflexivity|]. cbn [filter]. destruct (in_bounds b e); cbn [andb filter]; [|assumption].
    destruct (wanted _ e); now rewrite IH. }
  rewrite E. unfold in_bounds. destruct (seek _ _ _); [symmetry; apply Hk|now rewrite Hk].
Qed.

(** One step of a scanner that stands on an entry of the map. *)
Lemma cs_forward_spec m s e : sorted_map m -> cs_cur s = Some e -> In e m ->
  exists s', cs_forward m s = Ok s' /\ cs_remaining m s' = tl (cs_remaining m s) /\
    (cs_cur s' = None \/ exists e, cs_cur s' = Some e /\ In e m).
Proof.
  intros Hm E He. unfold cs_remaining, cs_forward. rewrite E. eexists. split; [reflexivity|].
  cbn [cs_cur cs_mask cs_end tl]. apply in_split in He as (P & Q & ->). rewrite behind_app by assumption.
  pose proof (seek_spec (cs_mask s) (cs_end s) _ Hm Q (P ++ [e])) as Hk. rewrite <- app_assoc in Hk.
  specialize (Hk eq_refl). destruct (seek _ _ _) as [e'|]; [|now rewrite Hk; auto].
  destruct Hk as [Hi Hk]. split; [now rewrite Hk|]. right. eauto.
Qed.

(** A scanner over a cell cache gives exactly the cells whose key lies from
    the start row (with its NUL) up to the end row, in key order, keeping row
    deletes and the families of the scan; [get] shows the first of what is left
    and [forward] drops it, and on an unchanged map it never runs past the end
    while [get] gives a cell. *)
Theorem cellcache_scanner_correct m b : sorted_map m -> wf_bytes (end_row b) ->
  bytes_leb (start_row b) (end_row b) = true ->
  map cell_of (cs_remaining m (CellCacheScanner_make m b)) = visible_cells b m /\
  forall s, (exists e, cs_cur s = Some e /\ In e m) ->
    cs_get s = hd_error (map cell_of (cs_remaining m s)) /\
    exists s', cs_forward m s = Ok s' /\ cs_remaining m s' = tl (cs_remaining m s) /\
      (cs_cur s' = None \/ exists e, cs_cur s' = Some e /\ In e m).
Proof.
  intros Hm Wb Hle. split; [now apply scanner_starts|].
  intros s (e & E & He). split; [|now apply cs_forward_spec with (e := e)].
  unfold cs_get, cs_remaining. now rewrite E.
Qed.

(** As a scanner on a map that does not change. *)
Record cached := { cc_map : CellMap; cc_scan : CellCacheScanner }.

#[export] Instance cellcache_scanner : CellListScanner cached.
Proof.
  refine {|
    sc_get s := (cs_get (cc_scan s), s);
    sc_forward s := match cs_forward (cc_map s) (cc_scan s) with
                    | Ok s' => {| cc_map := cc_map s; cc_scan := s' |}
                    | _ => s
                    end;
    sc_inv s := sorted_map (cc_map s) /\
                (cs_cur (cc_scan s) = None \/ exists e, cs_cur (cc_scan s) = Some e /\ In e (cc_map s));
    sc_cells s := map cell_of (cs_remaining (cc_map s) (cc_scan s)) |}.
  - intros s Hi. split; [|auto]. cbn [fst]. unfold cs_get, cs_remaining. now destruct (cs_cur (cc_scan s)).
  - intros s c [Hm Hi] [= E].
    assert (Hc : exists e, cs_cur (cc_scan s) = Some e /\ In e (cc_map s)).
    { destruct Hi as [Hi|Hi]; [unfold cs_get in E; rewrite Hi in E; discriminate|assumption]. }
    destruct Hc as (e & Ec & He). destruct (cs_forward_spec _ _ e Hm Ec He) as (s' & -> & Hr & Hi').
    cbn [cc_map cc_scan]. rewrite Hr. split; [|auto]. now destruct (cs_remaining _ (cc_scan s)).
Defined.

(** A cache with one cell, scanned from the beginning. *)
Lemma cellcache_scanner_correct_witness :
  map cell_of (cs_remaining [sample_entry] (CellCacheScanner_make [sample_entry]
      {| start_row := []; end_row := END_ROW_MARKER; family_mask := fun _ => true |})) =
    visible_cells {| start_row := []; end_row := END_ROW_MARKER; family_mask := fun _ => true |} [sample_entry] /\
  exists s', cs_forward [sample_entry] {| cs_mask := fun _ => true; cs_cur := Some sample_entry; cs_end := None |} = Ok s'.
Proof.
  destruct (cellcache_scanner_correct [sample_entry]
    {| start_row := []; end_row := END_ROW_MARKER; family_mask := fun _ => true |}) as [H1 H2].
  - repeat constructor.
  - repeat constructor; cbv; congruence.
  - reflexivity.
  - split; [exact H1|]. destruct (H2 {| cs_mask := fun _ => true; cs_cur := Some sample_entry; cs_end := None |})
      as (_ & s' & Hs & _); [exists sample_entry; split; [reflexivity|now left]|]. eauto.
Defined.
