(* ===== verification/MergeScanner.v ===== *)
(** * The merge scanner

    [RangeServer/MergeScanner.cc]: several scanners merged by a priority queue
    on their current keys, and, unless everything is to be returned, the cells
    filtered by delete records, time interval, number of versions and number of
    rows.

    The file first has the code: the filter applied to one key, the queue, the
    loops of [forward] and [initialize].  Then it shows that whatever order the
    queue gives to equal keys, a client sees the filter run over a sorted
    sequence of all cells, and what that filter keeps, in terms of the whole
    sequence instead of the scanner's variables. *)
From S2P Require Import Prelude Errors Serialization ByteString Key Deletes CellCache Scanner.
From Stdlib Require Import ZArith Lia List Bool Sorted Permutation.
Import ListNotations.
Open Scope Z_scope.

(** ** The filter *)

Record CellFilterInfo := { cutoff_time : Z; max_versions : Z }.

(** The members set by the constructor; [family_info] is in the scan context. *)
Record scan_params := {
  m_return_everything : bool; m_row_limit : Z;
  m_start_timestamp : Z; m_end_timestamp : Z; family_info : Z -> CellFilterInfo }.

Record filter_state := {
  m_deletes : deletes; m_prev_key : list Z; m_row_count : Z;
  m_cell_count : Z; m_cell_limit : Z; m_cell_cutoff : Z; m_done : bool }.

Definition initial_filter : filter_state :=
  {| m_deletes := no_deletes; m_prev_key := []; m_row_count := 0;
     m_cell_count := 0; m_cell_limit := 0; m_cell_cutoff := 0; m_done := false |}.

Definition set_deletes (d : deletes) (f : filter_state) : filter_state :=
  {| m_deletes := d; m_prev_key := m_prev_key f; m_row_count := m_row_count f;
     m_cell_count := m_cell_count f; m_cell_limit := m_cell_limit f; m_cell_cutoff := m_cell_cutoff f;
     m_done := m_done f |}.

(** The inner loop's decision about a key: [true] leaves the loop. *)
Definition examine (p : scan_params) (f : filter_state) (k : KeyComps) : filter_state * bool :=
  if (k_ts k <? m_start_timestamp p) && negb (m_return_everything p) then (f, false)
  else if is_delete k then (set_deletes (note_delete (m_deletes f) k) f, m_return_everything p)
  else if (m_end_timestamp p <=? k_ts k) && negb (m_return_everything p) then (f, false)
  else if m_return_everything p then (f, true)
  else let '(d, b) := check_insert (m_deletes f) k in (set_deletes d f, b).

(** A key of another cell than the previous one. *)
Definition new_cell (p : scan_params) (f : filter_state) (k : KeyComps) (key : list Z) : filter_state :=
  {| m_deletes := m_deletes f; m_prev_key := key; m_row_count := m_row_count f; m_cell_count := 0;
     m_cell_limit := max_versions (family_info p (k_family k));
     m_cell_cutoff := cutoff_time (family_info p (k_family k)); m_done := m_done f |}.

(** [strcmp(key.row, m_prev_key.base)] *)
Definition other_row (k : KeyComps) (prev : list Z) : bool :=
  match cstr prev with
  | Some r => negb (bytes_eqb (k_row k) r)
  | None => true
  end.

(** The keys agree but for the flag and the timestamp. *)
Definition same_cell_key (key prev : list Z) : bool :=
  (zlen key =? zlen prev) && (9 <? zlen key) &&
  bytes_eqb (firstn (length key - 9) key) (firstn (length key - 9) prev).

Inductive verdict := Skip | Take | Stop.

Definition limits (p : scan_params) (f : filter_state) (k : KeyComps) (key : list Z) : filter_state * verdict :=
  if negb (nonempty (m_prev_key f)) then (new_cell p f k key, Take)
  else if negb (m_row_limit p =? 0) && other_row k (m_prev_key f) then
    let row_count := signed 32 (wrap 32 (m_row_count f + 1)) in
    let f := {| m_deletes := m_deletes f; m_prev_key := m_prev_key f; m_row_count := row_count;
                m_cell_count := m_cell_count f; m_cell_limit := m_cell_limit f;
                m_cell_cutoff := m_cell_cutoff f; m_done := m_done f |} in
    if negb (m_return_everything p) && (m_row_limit p <=? row_count)
    then ({| m_deletes := m_deletes f; m_prev_key := m_prev_key f; m_row_count := row_count;
             m_cell_count := m_cell_count f; m_cell_limit := m_cell_limit f;
             m_cell_cutoff := m_cell_cutoff f; m_done := true |}, Stop)
    else (new_cell p f k key, Take)
  else if same_cell_key key (m_prev_key f) then
    if m_cell_limit f =? 0 then (f, Take)
    else
      let cell_count := u32 (m_cell_count f + 1) in
      ({| m_deletes := m_deletes f; m_prev_key := key; m_row_count := m_row_count f;
          m_cell_count := cell_count; m_cell_limit := m_cell_limit f;
          m_cell_cutoff := m_cell_cutoff f; m_done := m_done f |},
       if negb (m_return_everything p) && (m_cell_limit f <=? cell_count) then Skip else Take)
  else (new_cell p f k key, Take).

Definition step (p : scan_params) (f : filter_state) (k : KeyComps) (key : list Z) : filter_state * verdict :=
  let '(f, b) := examine p f k in
  if b then limits p f k key else (f, Skip).

(** ** The queue and the loops *)

(** [std::priority_queue] with the comparison of the keys: what it promises.
    Which of several elements with the least key is on top is left to it. *)
Class PriorityQueue (E : Type) (key : E -> list Z) := {
  pq : Type;
  pq_empty : pq;
  pq_push : E -> pq -> pq;
  pq_top : pq -> option E;
  pq_pop : pq -> pq;
  pq_elems : pq -> list E;
  pq_empty_elems : pq_elems pq_empty = [];
  pq_push_elems x q : Permutation (pq_elems (pq_push x q)) (x :: pq_elems q);
  pq_top_spec q :
    match pq_top q with
    | None => pq_elems q = []
    | Some x => Permutation (pq_elems q) (x :: pq_elems (pq_pop q)) /\
                forall y, In y (pq_elems q) -> bytes_cmp (key x) (key y) <> Gt
    end }.

Record ScannerState {S : Type} := { ss_scanner : S; ss_key : list Z; ss_value : list Z }.
Arguments ScannerState : clear implicits.

Section MergeScanner.
Context {S : Type} `{CellListScanner S} {Q : PriorityQueue (ScannerState S) ss_key}.

Abbreviation queue := (@pq (ScannerState S) ss_key Q).

(** [if (scanner->get(sstate.key, sstate.value)) m_queue.push(sstate)] *)
Definition push_current (s : S) (q : queue) : queue :=
  match sc_get s with
  | (Some (k, v), s') => pq_push {| ss_scanner := s'; ss_key := k; ss_value := v |} q
  | (None, _) => q
  end.

(** Pop the top, forward its scanner, push it back unless it is at its end. *)
Definition advance (q : queue) : queue :=
  match pq_top q with
  | None => q
  | Some st => push_current (sc_forward (ss_scanner st)) (pq_pop q)
  end.

Record MergeScanner := {
  ms_params : scan_params; ms_initialized : bool; ms_scanners : list S;
  ms_queue : queue; ms_filter : filter_state }.

Definition MergeScanner_make (p : scan_params) (scanners : list S) : MergeScanner :=
  {| ms_params := p; ms_initialized := false; ms_scanners := scanners; ms_queue := pq_empty;
     ms_filter := initial_filter |}.

Definition add_scanner (s : S) (ms : MergeScanner) : MergeScanner :=
  {| ms_params := ms_params ms; ms_initialized := ms_initialized ms; ms_scanners := ms_scanners ms ++ [s];
     ms_queue := ms_queue ms; ms_filter := ms_filter ms |}.

Definition with_queue (q : queue) (f : filter_state) (ms : MergeScanner) : MergeScanner :=
  {| ms_params := ms_params ms; ms_initialized := ms_initialized ms; ms_scanners := ms_scanners ms;
     ms_queue := q; ms_filter := f |}.

(** The loops of [forward], one iteration per cell passed; [None] when the fuel
    does not suffice.  A key that does not load is passed over. *)
Fixpoint forward_loop (fuel : nat) (p : scan_params) (q : queue) (f : filter_state) : option (queue * filter_state) :=
  match fuel with
  | O => None
  | Datatypes.S fuel =>
      let q := advance q in
      match pq_top q with
      | None => Some (q, f)
      | Some st =>
          match parse_key (ss_key st) with
          | None => forward_loop fuel p q f
          | Some k =>
              match step p f k (ss_key st) with
              | (f', Skip) => forward_loop fuel p q f'
              | (f', _) => Some (q, f')
              end
          end
      end
  end.

Definition forward (fuel : nat) (ms : MergeScanner) : option MergeScanner :=
  match pq_top (ms_queue ms) with
  | None => Some ms
  | Some _ => match forward_loop fuel (ms_params ms) (ms_queue ms) (ms_filter ms) with
              | None => None
              | Some (q, f) => Some (with_queue q f ms)
              end
  end.

(** [initialize]: the queue from the scanners, in the order of [m_scanners], then
    the first cell to show.  A first key that does not load is an assertion
    failure. *)
Definition initial_queue (scanners : list S) : queue := fold_left (fun q s => push_current s q) scanners pq_empty.

(** The delete record the scan starts with. *)
Definition first_delete (d : deletes) (k : KeyComps) : deletes :=
  if k_flag k =? FLAG_DELETE_ROW then
    {| delete_present := true; deleted_row := row_prefix k; deleted_row_timestamp := k_ts k;
       deleted_column_family := deleted_column_family d;
       deleted_column_family_timestamp := deleted_column_family_timestamp d;
       deleted_cell := deleted_cell d; deleted_cell_timestamp := deleted_cell_timestamp d |}
  else if k_flag k =? FLAG_DELETE_COLUMN_FAMILY then
    {| delete_present := true;
       deleted_row := deleted_row d; deleted_row_timestamp := deleted_row_timestamp d;
       deleted_column_family := cf_prefix k; deleted_column_family_timestamp := k_ts k;
       deleted_cell := deleted_cell d; deleted_cell_timestamp := deleted_cell_timestamp d |}
  else
    {| delete_present := true;
       deleted_row := deleted_row d; deleted_row_timestamp := deleted_row_timestamp d;
       deleted_column_family := deleted_column_family d;
       deleted_column_family_timestamp := deleted_column_family_timestamp d;
       deleted_cell := cell_prefix k; deleted_cell_timestamp := k_ts k |}.

Fixpoint initialize_loop (fuel : nat) (p : scan_params) (q : queue) (f : filter_state) : option (result (queue * filter_state)) :=
  match fuel with
  | O => None
  | Datatypes.S fuel =>
      match pq_top q with
      | None => Some (Ok (q, f))
      | Some st =>
          match parse_key (ss_key st) with
          | None => Some Fault
          | Some k =>
              if (k_ts k <? m_start_timestamp p) && negb (m_return_everything p)
              then initialize_loop fuel p (advance q) f
              else if is_delete k then
                let f := set_deletes (first_delete (m_deletes f) k) f in
                if m_return_everything p then Some (Ok (q, f))
                else match forward_loop fuel p q f with
                     | None => None
                     | Some r => Some (Ok r)
                     end
              else if (m_end_timestamp p <=? k_ts k) && negb (m_return_everything p)
              then initialize_loop fuel p (advance q) f
              else
                let d := m_deletes f in
                let d := {| delete_present := false;
                            deleted_row := deleted_row d; deleted_row_timestamp := deleted_row_timestamp d;
                            deleted_column_family := deleted_column_family d;
                            deleted_column_family_timestamp := deleted_column_family_timestamp d;
                            deleted_cell := deleted_cell d; deleted_cell_timestamp := deleted_cell_timestamp d |} in
                Some (Ok (q, new_cell p (set_deletes d f) k (ss_key st)))
          end
      end
  end.

Definition initialize (fuel : nat) (ms : MergeScanner) : option (result MergeScanner) :=
  match initialize_loop fuel (ms_params ms) (initial_queue (ms_scanners ms)) (ms_filter ms) with
  | None => None
  | Some (Ok (q, f)) =>
      Some (Ok {| ms_params := ms_params ms; ms_initialized := true; ms_scanners := ms_scanners ms;
                  ms_queue := q; ms_filter := f |})
  | Some (Throw c) => Some (Throw c)
  | Some Fault => Some Fault
  end.

Definition current (ms : MergeScanner) : option cell :=
  if m_done (ms_filter ms) then None
  else match pq_top (ms_queue ms) with
       | None => None
       | Some st => Some (ss_key st, ss_value st)
       end.

Definition get (fuel : nat) (ms : MergeScanner) : option (result (option cell * MergeScanner)) :=
  if ms_initialized ms then Some (Ok (current ms, ms))
  else match initialize fuel ms with
       | None => None
       | Some (Ok ms) => Some (Ok (current ms, ms))
       | Some (Throw c) => Some (Throw c)
       | Some Fault => Some Fault
       end.

End MergeScanner.

(** ** The filter on a list of cells *)

Fixpoint scan (p : scan_params) (f : filter_state) (l : list cell) : list cell :=
  match l with
  | [] => []
  | c :: l' =>
      match parse_key (fst c) with
      | None => scan p f l'
      | Some k =>
          match step p f k (fst c) with
          | (f', Skip) => scan p f' l'
          | (f', Take) => c :: scan p f' l'
          | (_, Stop) => []
          end
      end
  end.

(** ** What the filter keeps *)

(** A cell is visible when it is an insert inside the time interval that no
    earlier delete record of the interval hides. *)
Definition since (p : scan_params) (k : KeyComps) : bool := m_start_timestamp p <=? k_ts k.
Definition visible (p : scan_params) (P : list KeyComps) (k : KeyComps) : bool :=
  negb (is_delete k) && since p k && (k_ts k <? m_end_timestamp p) && survives (filter (since p) P) k.

(** Among the first [max_versions] visible versions of its cell, and in the first
    [row_limit] rows; [V] has the visible cells so far, the last one first. *)
Definition in_versions (p : scan_params) (k : KeyComps) (V : list KeyComps) : bool :=
  let n := max_versions (family_info p (k_family k)) in
  (n =? 0) || (zlen (filter (same_cell k) V) <=? n).
Definition rows (V : list KeyComps) : list (list Z) := nodup (list_eq_dec Z.eq_dec) (map k_row V).
Definition in_rows (p : scan_params) (V : list KeyComps) : bool :=
  (m_row_limit p =? 0) || (zlen (rows V) <=? Z.max 1 (m_row_limit p)).

(** The selection: [P] are the keys before. *)
Fixpoint select (p : scan_params) (P V : list KeyComps) (l : list cell) : list cell :=
  match l with
  | [] => []
  | c :: l' =>
      match parse_key (fst c) with
      | None => select p P V l'
      | Some k =>
          if visible p P k then
            if in_rows p (k :: V) && in_versions p k (k :: V)
            then c :: select p (P ++ [k]) (k :: V) l'
            else select p (P ++ [k]) (k :: V) l'
          else select p (P ++ [k]) V l'
      end
  end.

(** Cells whose keys are packed components. *)
Definition good_cell (c : cell) : Prop := exists k, wf_comps k /\ fst c = pack k.

Lemma good_cell_parse c : good_cell c -> exists k, wf_comps k /\ fst c = pack k /\ parse_key (fst c) = Some k.
Proof. intros (k & W & E). exists k. rewrite E. auto using parse_pack. Qed.

(** Keys in order, possibly repeated. *)
Definition cell_le (a b : cell) : Prop := bytes_cmp (fst a) (fst b) <> Gt.

Lemma pack_prefix k : pack k = cell_prefix k ++ (k_flag k :: encode_ts64 (u64 (k_ts k))).
Proof.
  unfold pack, cell_prefix, cf_prefix. rewrite write_key_shape. cbn [qual_or_empty].
  rewrite <- !app_assoc. cbn [app]. now rewrite <- ?app_assoc.
Qed.

Lemma pack_tail_length k : length (k_flag k :: encode_ts64 (u64 (k_ts k))) = 9%nat.
Proof. reflexivity. Qed.

Lemma pack_same_cell a b : same_cell_key (pack a) (pack b) = bytes_eqb (cell_prefix a) (cell_prefix b).
Proof.
  unfold same_cell_key. rewrite !pack_prefix, !zlen_app, length_app, pack_tail_length.
  change (zlen (k_flag a :: _)) with 9. change (zlen (k_flag b :: _)) with 9.
  replace (length (cell_prefix a) + 9 - 9)%nat with (length (cell_prefix a)) by lia.
  rewrite firstn_app_exact.
  assert (0 < zlen (cell_prefix a)) by (destruct (cell_prefix a) eqn:E; [destruct (cell_prefix_ne a E)|unfold zlen; cbn [length]; lia]).
  rewrite (proj2 (Z.ltb_lt 9 _)) by lia. rewrite andb_true_r.
  destruct (Z.eqb_spec (zlen (cell_prefix a) + 9) (zlen (cell_prefix b) + 9)) as [E|E]; cbn [andb].
  - replace (length (cell_prefix a)) with (length (cell_prefix b)) by (unfold zlen in E; lia).
    now rewrite firstn_app_exact.
  - symmetry. apply bytes_eqb_neq. intros E'. apply E. now rewrite E'.
Qed.

Lemma pack_other_row k v : wf_comps v -> other_row k (pack v) = negb (bytes_eqb (k_row k) (k_row v)).
Proof.
  intros (Hr & _). unfold other_row. rewrite pack_prefix. unfold cell_prefix, cf_prefix.
  rewrite <- !app_assoc. cbn [app]. now rewrite cstr_app.
Qed.

(** The counters of the filter when the cells [V] have been visible so far. *)
Record counts (p : scan_params) (f : filter_state) (V : list KeyComps) : Prop := {
  co_running : m_done f = false;
  co_none : V = [] -> m_prev_key f = [] /\ m_row_count f = 0;
  co_last v V' : V = v :: V' ->
    (exists u, wf_comps u /\ m_prev_key f = pack u /\ same_cell v u = true) /\
    (m_row_limit p <> 0 -> m_row_count f = zlen (rows V) - 1) /\
    m_cell_limit f = max_versions (family_info p (k_family v)) /\
    (m_cell_limit f <> 0 -> m_cell_count f = zlen (filter (same_cell v) V) - 1) }.

Lemma same_cell_trans a b k : wf_comps a -> wf_comps b -> wf_comps k ->
  same_cell a b = true -> same_cell a k = same_cell b k.
Proof.
  intros Wa Wb Wk E. unfold same_cell in *. apply bytes_eqb_eq in E. now rewrite E.
Qed.

(** Keys of another row or cell than the last visible one are new. *)
Lemma sorted_new V v V' k : V = v :: V' -> Forall wf_comps V -> wf_comps k ->
  (forall x, In x V -> comps_le x v) -> comps_le v k ->
  (k_row k <> k_row v -> ~ In (k_row k) (map k_row V)) /\
  (same_cell k v = false -> filter (same_cell k) V = []).
Proof.
  intros -> WV Wk Hv Hk. assert (Wv : wf_comps v) by now inv WV.
  assert (B : forall x, In x (v :: V') -> (same_row k x = true -> same_row k v = true) /\ (same_cell k x = true -> same_cell k v = true)).
  { intros x Hx. destruct (between_same x v k) as (B1 & _ & B3); auto. now apply (proj1 (Forall_forall _ _) WV). }
  split.
  - intros Hne Hin. apply in_map_iff in Hin as (x & E & Hx). destruct (B x Hx) as [B1 _].
    rewrite !same_row_iff in B1. apply Hne. symmetry. auto.
  - intros Hc. destruct (filter (same_cell k) (v :: V')) as [|x l] eqn:E; [reflexivity|exfalso].
    assert (Hx : In x (filter (same_cell k) (v :: V'))) by (rewrite E; now left).
    apply filter_In in Hx as [Hx Hs]. destruct (B x Hx) as [_ B3]. rewrite (B3 Hs) in Hc. discriminate.
Qed.

Lemma rows_cons k V : zlen (rows (k :: V)) = zlen (rows V) + (if in_dec (list_eq_dec Z.eq_dec) (k_row k) (map k_row V) then 0 else 1).
Proof. unfold rows. cbn [map nodup]. destruct (in_dec _ _ _); unfold zlen; cbn [length]; lia. Qed.

Lemma rows_pos k V : 1 <= zlen (rows (k :: V)).
Proof.
  rewrite rows_cons. destruct (in_dec _ _ _) as [i|]; [|unfold zlen; lia].
  unfold rows. apply (nodup_In (list_eq_dec Z.eq_dec)) in i. destruct (nodup _ _); [destruct i|unfold zlen; cbn [length]; lia].
Qed.

Lemma same_cell_refl k : same_cell k k = true.
Proof. unfold same_cell. now apply bytes_eqb_eq. Qed.

Lemma zlen_filter_le {A} (f : A -> bool) l : zlen (filter f l) <= zlen l.
Proof. induction l as [|x l IH]; cbn [filter]; [lia|]. destruct (f x); unfold zlen in *; cbn [length]; lia. Qed.

(** The state in which a key of another cell is taken. *)
Lemma counts_new p f V k : wf_comps k -> m_done f = false ->
  (m_row_limit p <> 0 -> m_row_count f = zlen (rows (k :: V)) - 1) ->
  filter (same_cell k) V = [] -> counts p (new_cell p f k (pack k)) (k :: V).
Proof.
  intros Wk Hd Hr Hc. split; [assumption|discriminate|]. intros v V' [= <- <-].
  cbn [new_cell m_prev_key m_row_count m_cell_limit m_cell_count].
  split; [exists k; auto using same_cell_refl|]. split; [assumption|]. split; [reflexivity|]. intros _.
  cbn [filter]. rewrite same_cell_refl, Hc. reflexivity.
Qed.

Lemma in_versions_first p k V : wf_comps k -> filter (same_cell k) V = [] ->
  0 <= max_versions (family_info p (k_family k)) -> in_versions p k (k :: V) = true.
Proof.
  intros Wk Hc Hn. unfold in_versions. cbn [filter]. rewrite same_cell_refl, Hc. change (zlen [k]) with 1.
  destruct (Z.eqb_spec (max_versions (family_info p (k_family k))) 0); [reflexivity|]. cbn [orb]. apply Z.leb_le. lia.
Qed.

(** Parameters as their C types bound them. *)
Record wf_params (p : scan_params) : Prop := {
  wp_filter : m_return_everything p = false;
  wp_rows : - 2 ^ 31 <= m_row_limit p < 2 ^ 31;
  wp_versions f : in_range 32 (max_versions (family_info p f)) }.

(** The visible cells so far and the next one, in key order. *)
Record in_order (V : list KeyComps) (k : KeyComps) : Prop := {
  io_wf : Forall wf_comps V;
  io_k : wf_comps k;
  io_sorted v V' : V = v :: V' -> (forall x, In x V -> comps_le x v) /\ comps_le v k }.

Lemma in_order_last V v V' k u : in_order V k -> V = v :: V' -> wf_comps u -> same_cell v u = true ->
  wf_comps v /\ k_row u = k_row v /\ (forall x, wf_comps x -> same_cell x u = same_cell x v).
Proof.
  intros [WV Wk HS] E Wu Hu. assert (Wv : wf_comps v) by (subst V; now inv WV). split; [assumption|].
  pose proof Hu as Hu'. apply (same_cell_iff v u Wv Wu) in Hu as (E1 & E2 & E3). split; [assumption|].
  intros x Wx. unfold same_cell in *. apply bytes_eqb_eq in Hu'. now rewrite Hu'.
Qed.

(** The same cell as before, when versions are counted. *)
Lemma counts_again p f V v V' k key : V = v :: V' -> in_order V k -> counts p f V -> same_cell k v = true ->
  zlen V < 2 ^ 32 - 1 -> key = pack k -> m_cell_limit f <> 0 ->
  counts p {| m_deletes := m_deletes f; m_prev_key := key; m_row_count := m_row_count f;
              m_cell_count := u32 (m_cell_count f + 1); m_cell_limit := m_cell_limit f;
              m_cell_cutoff := m_cell_cutoff f; m_done := m_done f |} (k :: V) /\
  u32 (m_cell_count f + 1) = zlen (filter (same_cell k) (k :: V)) - 1.
Proof.
  intros EV HO HC Hs Hl -> Hn. destruct (co_last _ _ _ HC _ _ EV) as ((u & Wu & Eu & Su) & Hrow & Hlim & Hcnt).
  destruct (in_order_last V v V' k u HO EV Wu Su) as (Wv & Ru & Su'). pose proof (io_k _ _ HO) as Wk.
  assert (Ef : filter (same_cell k) V = filter (same_cell v) V).
  { apply filter_ext. intros x. unfold same_cell in *. apply bytes_eqb_eq in Hs. now rewrite Hs. }
  assert (Ec : u32 (m_cell_count f + 1) = zlen (filter (same_cell k) (k :: V)) - 1).
  { cbn [filter]. rewrite same_cell_refl, Ef. rewrite (Hcnt Hn). pose proof (zlen_filter_le (same_cell v) V).
    pose proof (zlen_nonneg (filter (same_cell v) V)). rewrite wrap_small; [|split; lia].
    unfold zlen. cbn [length]. lia. }
  split; [|exact Ec]. apply (same_cell_iff k v Wk Wv) in Hs as (R & F & Q).
  split; [apply HC|discriminate|]. intros v0 V0 [= <- <-]. cbn [m_prev_key m_row_count m_cell_limit m_cell_count].
  split; [exists k; auto using same_cell_refl|]. split; [|split; [now rewrite <- F|intros _; exact Ec]].
  intros HL. rewrite (Hrow HL), rows_cons. destruct (in_dec _ _ _) as [|n]; [lia|]. destruct n. rewrite EV. cbn. auto.
Qed.

(** What [limits] has to establish. *)
Definition limits_ok (p : scan_params) (f : filter_state) (V : list KeyComps) (k : KeyComps) : Prop :=
  let '(f', v) := limits p f k (pack k) in
  m_deletes f' = m_deletes f /\
  if in_rows p (k :: V)
  then v = (if in_versions p k (k :: V) then Take else Skip) /\ counts p f' (k :: V)
  else v = Stop.

Lemma limits_first p f k : wf_params p -> counts p f [] -> wf_comps k -> limits_ok p f [] k.
Proof.
  intros [Hev HL HV] HC Wk. unfold limits_ok, limits.
  destruct (co_none _ _ _ HC eq_refl) as [-> Hr0]. cbn [nonempty negb]. split; [reflexivity|].
  assert (E : in_rows p [k] = true) by (unfold in_rows; change (zlen (rows [k])) with 1; apply orb_true_iff; right; apply Z.leb_le; lia).
  rewrite E, in_versions_first by (auto; apply HV). split; [reflexivity|].
  apply counts_new; [assumption|apply HC|intros _; now rewrite Hr0|reflexivity].
Qed.

(** With a previous cell, the decision in terms of the last visible one. *)
Lemma limits_last p f V v V' k : V = v :: V' -> counts p f V -> in_order V k -> m_return_everything p = false ->
  limits p f k (pack k) =
  if negb (m_row_limit p =? 0) && negb (bytes_eqb (k_row k) (k_row v)) then
    let row_count := signed 32 (wrap 32 (m_row_count f + 1)) in
    let f := {| m_deletes := m_deletes f; m_prev_key := m_prev_key f; m_row_count := row_count;
                m_cell_count := m_cell_count f; m_cell_limit := m_cell_limit f;
                m_cell_cutoff := m_cell_cutoff f; m_done := m_done f |} in
    if m_row_limit p <=? row_count
    then ({| m_deletes := m_deletes f; m_prev_key := m_prev_key f; m_row_count := row_count;
             m_cell_count := m_cell_count f; m_cell_limit := m_cell_limit f;
             m_cell_cutoff := m_cell_cutoff f; m_done := true |}, Stop)
    else (new_cell p f k (pack k), Take)
  else if same_cell k v then
    if m_cell_limit f =? 0 then (f, Take)
    else ({| m_deletes := m_deletes f; m_prev_key := pack k; m_row_count := m_row_count f;
             m_cell_count := u32 (m_cell_count f + 1); m_cell_limit := m_cell_limit f;
             m_cell_cutoff := m_cell_cutoff f; m_done := m_done f |},
          if m_cell_limit f <=? u32 (m_cell_count f + 1) then Skip else Take)
  else (new_cell p f k (pack k), Take).
Proof.
  intros EV HC HO Hev. destruct (co_last _ _ _ HC v V' EV) as ((u & Wu & Eu & Su) & _).
  destruct (in_order_last V v V' k u HO EV Wu Su) as (Wv & Ru & _). unfold limits. rewrite Hev. cbn [negb andb].
  assert (Npref : nonempty (pack u) = true)
    by (rewrite pack_prefix; destruct (cell_prefix u) eqn:E; [destruct (cell_prefix_ne u E)|reflexivity]).
  rewrite Eu, Npref, pack_other_row, Ru, pack_same_cell by assumption. cbn [negb].
  replace (bytes_eqb (cell_prefix k) (cell_prefix u)) with (same_cell k v); [reflexivity|].
  unfold same_cell in *. apply bytes_eqb_eq in Su. rewrite Su. apply eqb_sym_bytes.
Qed.

Lemma limits_row p f V v V' k : V = v :: V' -> wf_params p -> counts p f V -> in_order V k -> in_rows p V = true ->
  m_row_limit p <> 0 -> k_row k <> k_row v -> limits_ok p f V k.
Proof.
  intros EV [Hev HL HV] HC HO HR E1 E2. unfold limits_ok. rewrite (limits_last p f V v V' k EV HC HO Hev).
  rewrite (proj2 (Z.eqb_neq _ _) E1), (proj2 (bytes_eqb_neq _ _) E2). cbn [negb andb].
  destruct (co_last _ _ _ HC v V' EV) as (_ & Hrow & _). destruct (io_sorted _ _ HO v V' EV) as [Hv Hvk].
  pose proof (io_k _ _ HO) as Wk. assert (Wv : wf_comps v) by (pose proof (io_wf _ _ HO) as W; subst V; now inv W).
  destruct (sorted_new V v V' k EV (io_wf _ _ HO) Wk Hv Hvk) as [Nrow Ncell].
  pose proof (rows_pos v V') as Hpos. rewrite <- EV in Hpos.
  assert (Erow : zlen (rows (k :: V)) = zlen (rows V) + 1)
    by (rewrite rows_cons; destruct (in_dec _ _ _); [now destruct (Nrow E2)|reflexivity]).
  unfold in_rows in *. rewrite (proj2 (Z.eqb_neq _ _) E1) in *. cbn [orb] in *. apply Z.leb_le in HR.
  rewrite (Hrow E1), signed_wrap by lia. replace (zlen (rows V) - 1 + 1) with (zlen (rows V)) by lia.
  assert (Ein : (zlen (rows (k :: V)) <=? Z.max 1 (m_row_limit p)) = negb (m_row_limit p <=? zlen (rows V))).
  { rewrite Erow. destruct (Z.leb_spec (zlen (rows V) + 1) (Z.max 1 (m_row_limit p))), (Z.leb_spec (m_row_limit p) (zlen (rows V)));
      try reflexivity; lia. }
  rewrite Ein. destruct (m_row_limit p <=? zlen (rows V)); cbn [negb]; [auto|]. split; [reflexivity|].
  assert (Hcell : filter (same_cell k) V = []).
  { apply Ncell. destruct (same_cell k v) eqn:E; [|reflexivity]. apply same_cell_iff in E as (E & _); auto. congruence. }
  rewrite in_versions_first by (auto; apply HV). split; [reflexivity|].
  apply counts_new; [assumption|apply HC|intros _; cbn [m_row_count]; lia|assumption].
Qed.

Lemma limits_cell p f V v V' k : V = v :: V' -> wf_params p -> counts p f V -> in_order V k -> in_rows p V = true ->
  zlen V < 2 ^ 32 - 1 -> (m_row_limit p <> 0 -> k_row k = k_row v) -> limits_ok p f V k.
Proof.
  intros EV [Hev HL HV] HC HO HR Hlen Esame. unfold limits_ok. rewrite (limits_last p f V v V' k EV HC HO Hev).
  replace (negb (m_row_limit p =? 0) && negb (bytes_eqb (k_row k) (k_row v))) with false
    by (destruct (Z.eqb_spec (m_row_limit p) 0) as [|H0]; [reflexivity|]; rewrite (proj2 (bytes_eqb_eq _ _) (Esame H0)); reflexivity).
  destruct (co_last _ _ _ HC v V' EV) as ((u & Wu & Eu & Su) & Hrow & Hlim & Hcnt). destruct (io_sorted _ _ HO v V' EV) as [Hv Hvk].
  pose proof (io_k _ _ HO) as Wk. destruct (in_order_last V v V' k u HO EV Wu Su) as (Wv & Ru & Su').
  destruct (sorted_new V v V' k EV (io_wf _ _ HO) Wk Hv Hvk) as [_ Ncell].
  assert (Erow : m_row_limit p <> 0 -> zlen (rows (k :: V)) = zlen (rows V)).
  { intros H0. rewrite rows_cons. destruct (in_dec _ _ _) as [|n]; [lia|]. destruct n. rewrite (Esame H0), EV. now left. }
  assert (Ein : in_rows p (k :: V) = true).
  { unfold in_rows in *. destruct (Z.eqb_spec (m_row_limit p) 0) as [|H0]; [reflexivity|]. now rewrite (Erow H0). }
  rewrite Ein. destruct (same_cell k v) eqn:Es.
  - pose proof Es as Es'. apply (same_cell_iff k v Wk Wv) in Es as (R & F & Q).
    destruct (Z.eqb_spec (m_cell_limit f) 0) as [H0|H0].
    + split; [reflexivity|]. split; [unfold in_versions; now rewrite <- F, <- Hlim, H0|].
      split; [apply HC|discriminate|]. intros v0 V0 [= <- <-].
      split; [exists u; split; [assumption|split; [assumption|now rewrite Su', Es']]|].
      split; [intros HL0; rewrite (Hrow HL0), (Erow HL0); reflexivity|]. split; [now rewrite <- F|congruence].
    + destruct (counts_again p f V v V' k (pack k) EV HO HC Es' Hlen eq_refl H0) as [HC' Ec].
      split; [reflexivity|]. split; [|exact HC']. rewrite Ec. unfold in_versions.
      rewrite <- F, <- Hlim, (proj2 (Z.eqb_neq _ _) H0). cbn [orb].
      destruct (Z.leb_spec (m_cell_limit f) (zlen (filter (same_cell k) (k :: V)) - 1)),
        (Z.leb_spec (zlen (filter (same_cell k) (k :: V))) (m_cell_limit f)); (reflexivity || lia).
  - split; [reflexivity|]. rewrite in_versions_first by (auto; apply HV). split; [reflexivity|].
    apply counts_new; [assumption|apply HC|intros HL0; now rewrite (Hrow HL0), (Erow HL0)|auto].
Qed.

Lemma limits_correct p f V k : wf_params p -> counts p f V -> in_order V k -> zlen V < 2 ^ 32 - 1 ->
  (V <> [] -> in_rows p V = true) -> limits_ok p f V k.
Proof.
  intros Hp HC HO Hlen HR. destruct V as [|v V'] eqn:EV; [now apply limits_first; [..|apply HO]|].
  rewrite <- EV in *. specialize (HR ltac:(congruence)).
  destruct (Z.eq_dec (m_row_limit p) 0) as [E0|E0]; [now apply (limits_cell p f V v V' k)|].
  destruct (list_eq_dec Z.eq_dec (k_row k) (k_row v)) as [E|E];
    [now apply (limits_cell p f V v V' k)|now apply (limits_row p f V v V' k)].
Qed.

(** Behind the last row nothing is selected. *)
Lemma in_rows_over p k V : in_rows p V = false -> in_rows p (k :: V) = false.
Proof.
  unfold in_rows. rewrite rows_cons. destruct (m_row_limit p =? 0); [discriminate|]. cbn [orb].
  rewrite !Z.leb_gt. destruct (in_dec _ _ _); lia.
Qed.

Lemma select_over p l : forall P V, in_rows p V = false -> select p P V l = [].
Proof.
  induction l as [|c l IH]; intros P V Hr; cbn [select]; [reflexivity|].
  destruct (parse_key (fst c)) as [k|]; [|auto]. destruct (visible p P k); [|auto].
  rewrite (in_rows_over p k V Hr). cbn [andb]. apply IH. now apply in_rows_over.
Qed.

(** The filter in the middle of a sequence: the keys [P] are behind it. *)
Record midway (p : scan_params) (f : filter_state) (P V : list KeyComps) : Prop := {
  mw_tracks : tracks (m_deletes f) (filter (since p) P);
  mw_counts : counts p f V;
  mw_wf : Forall wf_comps P;
  mw_sub : incl V P;
  mw_sorted v V' : V = v :: V' -> forall x, In x V -> comps_le x v;
  mw_rows : V <> [] -> in_rows p V = true }.

Lemma filter_snoc {A} (g : A -> bool) P x : filter g (P ++ [x]) = filter g P ++ (if g x then [x] else []).
Proof. rewrite filter_app. cbn [filter]. destruct (g x); reflexivity. Qed.

(** A key that is passed over. *)
Lemma midway_skip p f f' P V k : midway p f P V -> wf_comps k ->
  tracks (m_deletes f') (filter (since p) (P ++ [k])) -> counts p f' V -> midway p f' (P ++ [k]) V.
Proof.
  intros [T C W I S R] Wk T' C'. split; auto.
  - apply Forall_app. auto.
  - intros x Hx. apply in_app_iff. auto.
Qed.

Lemma midway_take p f f' P V k : midway p f P V -> wf_comps k -> (forall x, In x P -> comps_le x k) ->
  tracks (m_deletes f') (filter (since p) (P ++ [k])) -> counts p f' (k :: V) -> in_rows p (k :: V) = true ->
  midway p f' (P ++ [k]) (k :: V).
Proof.
  intros [T C W I S R] Wk Hk T' C' R'. split; auto.
  - apply Forall_app. auto.
  - intros x [<-|Hx]; apply in_app_iff; cbn; auto.
  - intros v V' [= <- <-] x Hx. destruct Hx as [<-|Hx]; [|auto].
    unfold comps_le. rewrite <- pack_cmp, bytes_cmp_refl by assumption. discriminate.
Qed.

Lemma tracks_since p d P k : tracks d (filter (since p) P) -> Forall wf_comps P -> wf_comps k ->
  (forall x, In x P -> comps_le x k) ->
  Forall wf_comps (filter (since p) P) /\ (forall x, In x (filter (since p) P) -> comps_le x k).
Proof.
  intros _ W Wk Hk. split.
  - apply Forall_forall. intros x Hx. apply filter_In in Hx as [Hx _]. now apply (proj1 (Forall_forall _ _) W).
  - intros x Hx. apply filter_In in Hx as [Hx _]. auto.
Qed.

(** One key, when everything is not returned. *)
Lemma step_correct p f P V k : wf_params p -> midway p f P V -> wf_comps k ->
  (forall x, In x P -> comps_le x k) -> zlen V < 2 ^ 32 - 1 ->
  let '(f', v) := step p f k (pack k) in
  if visible p P k then
    if in_rows p (k :: V)
    then v = (if in_versions p k (k :: V) then Take else Skip) /\ midway p f' (P ++ [k]) (k :: V)
    else v = Stop
  else v = Skip /\ midway p f' (P ++ [k]) V.
Proof.
  intros Hp HM Wk Hk Hlen. pose proof (wp_filter _ Hp) as Hev.
  destruct (tracks_since p _ P k (mw_tracks _ _ _ _ HM) (mw_wf _ _ _ _ HM) Wk Hk) as [WP HP].
  pose proof (mw_tracks _ _ _ _ HM) as HT. pose proof (mw_counts _ _ _ _ HM) as HC.
  assert (Es : since p k = negb (k_ts k <? m_start_timestamp p)) by (unfold since; apply Z.leb_antisym).
  unfold step, examine, visible. rewrite Hev, Es. cbn [negb]. rewrite !andb_true_r.
  destruct (k_ts k <? m_start_timestamp p) eqn:Ets; cbn [negb andb] in *; rewrite ?andb_false_r; cbn [andb].
  { split; [reflexivity|]. apply (midway_skip p f); auto. rewrite filter_snoc, Es. now rewrite app_nil_r. }
  assert (Efs : filter (since p) (P ++ [k]) = filter (since p) P ++ [k]) by (rewrite filter_snoc; now rewrite Es).
  destruct (is_delete k) eqn:Ed; cbn [negb andb].
  { split; [reflexivity|]. apply (midway_skip p f); auto; cbn [set_deletes m_deletes].
    - rewrite Efs. now apply tracks_note.
    - destruct HC. now split. }
  rewrite Z.ltb_antisym. destruct (m_end_timestamp p <=? k_ts k) eqn:Ete; cbn [negb andb].
  { split; [reflexivity|]. apply (midway_skip p f); auto. rewrite Efs. now apply tracks_skip. }
  pose proof (check_insert_survives _ _ k HT Wk HP) as Hsv. pose proof (tracks_check _ _ k HT Wk WP Ed HP) as Htr.
  destruct (check_insert (m_deletes f) k) as [d b]. cbn [fst snd] in *. rewrite <- Hsv.
  assert (HC' : counts p (set_deletes d f) V) by (destruct HC; now split).
  destruct b; [|split; [reflexivity|]; apply (midway_skip p f); auto; cbn [set_deletes m_deletes]; now rewrite Efs].
  assert (HO : in_order V k).
  { split; [|assumption|].
    - apply Forall_forall. intros x Hx. apply (proj1 (Forall_forall _ _) (mw_wf _ _ _ _ HM)). now apply (mw_sub _ _ _ _ HM).
    - intros v V' E. split; [now apply (mw_sorted _ _ _ _ HM v V')|]. apply Hk, (mw_sub _ _ _ _ HM). rewrite E. now left. }
  pose proof (limits_correct p _ V k Hp HC' HO Hlen (mw_rows _ _ _ _ HM)) as HLim. unfold limits_ok in HLim.
  destruct (limits p (set_deletes d f) k (pack k)) as [f' v]. destruct HLim as [Hd HLim].
  destruct (in_rows p (k :: V)) eqn:Er; [|assumption]. destruct HLim as [-> HC'']. split; [reflexivity|].
  apply (midway_take p f); auto. rewrite Hd, Efs. exact Htr.
Qed.

Lemma scan_select p : wf_params p -> forall l f P V, midway p f P V -> Forall good_cell l -> StronglySorted cell_le l ->
  (forall c k x, In c l -> fst c = pack k -> wf_comps k -> In x P -> comps_le x k) -> zlen V + zlen l < 2 ^ 32 ->
  scan p f l = select p P V l.
Proof.
  intros Hp. induction l as [|c l IH]; intros f P V HM Hg Hs Hord Hlen; [reflexivity|]. cbn [scan select].
  apply Forall_cons_iff in Hg as [Hc Hg]. destruct (good_cell_parse c Hc) as (k & Wk & Ek & Hpk). rewrite Hpk, Ek.
  assert (Hl : zlen (c :: l) = zlen l + 1) by (unfold zlen; cbn [length]; lia). pose proof (zlen_nonneg l).
  pose proof (step_correct p f P V k Hp HM Wk (fun x => Hord c k x (or_introl eq_refl) Ek Wk) ltac:(lia)) as Hst.
  inversion Hs as [|? ? Hs' Hle]; subst.
  assert (Hord' : forall c' k' x, In c' l -> fst c' = pack k' -> wf_comps k' -> In x (P ++ [k]) -> comps_le x k').
  { intros c' k' x Hin E W Hx. apply in_app_iff in Hx as [Hx|[<-|[]]]; [apply (Hord c' k' x); cbn; auto|].
    pose proof (proj1 (Forall_forall _ _) Hle c' Hin) as L. unfold cell_le in L. rewrite Ek, E, pack_cmp in L by assumption. exact L. }
  destruct (step p f k (pack k)) as [f' v]. destruct (visible p P k).
  - destruct (in_rows p (k :: V)) eqn:Er; cbn [andb].
    + assert (Hl' : zlen (k :: V) = zlen V + 1) by (unfold zlen; cbn [length]; lia).
      destruct Hst as [-> HM']. destruct (in_versions p k (k :: V)); [f_equal|]; apply IH; auto; lia.
    + rewrite Hst. symmetry. now apply select_over.
  - destruct Hst as [-> HM']. apply IH; auto. lia.
Qed.

Lemma midway_initial p : midway p initial_filter [] [].
Proof.
  split; auto.
  - apply tracks_init.
  - split; [reflexivity|auto|discriminate].
  - intros x [].
  - discriminate.
Qed.

(** When everything is returned, nothing is left out. *)
Lemma scan_everything p l : m_return_everything p = true -> Forall good_cell l -> forall f, scan p f l = l.
Proof.
  intros Hev. induction 1 as [|c l Hc Hl IH]; intros f; [reflexivity|]. cbn [scan].
  destruct (good_cell_parse c Hc) as (k & Wk & Ek & ->).
  assert (E : snd (step p f k (fst c)) = Take).
  { unfold step, examine. rewrite Hev. cbn [negb]. rewrite !andb_false_r.
    destruct (is_delete k); unfold limits; rewrite Hev; cbn [negb andb]; repeat case_goal; reflexivity. }
  destruct (step p f k (fst c)) as [f' v]. cbn [snd] in E. rewrite E. f_equal. apply IH.
Qed.

(** ** The queue gives the cells in order *)

Section Merge.
Context {S : Type} `{CellListScanner S} {Q : PriorityQueue (ScannerState S) ss_key}.

Abbreviation queue := (@pq (ScannerState S) ss_key Q).

Definition cell_at (st : ScannerState S) : cell := (ss_key st, ss_value st).

(** Each entry has what its scanner stands on. *)
Definition wf_state (st : ScannerState S) : Prop :=
  sc_inv (ss_scanner st) /\ sc_get (ss_scanner st) = (Some (cell_at st), ss_scanner st) /\
  StronglySorted cell_le (sc_cells (ss_scanner st)).
Definition wf_queue (q : queue) : Prop := Forall wf_state (pq_elems q).

Definition pending (q : queue) : list cell :=
  flat_map (fun st => sc_cells (ss_scanner st)) (pq_elems q).

(** The order in which the queue gives its cells. *)
Fixpoint order (n : nat) (q : queue) : list cell :=
  match n with
  | O => []
  | Datatypes.S n => match pq_top q with None => [] | Some st => cell_at st :: order n (advance q) end
  end.
Definition merged (q : queue) : list cell := order (length (pending q)) q.

Lemma state_cells st : wf_state st -> sc_cells (ss_scanner st) = cell_at st :: tl (sc_cells (ss_scanner st)).
Proof.
  intros (Hi & Hg & _). destruct (get_ready _ _ _ Hi Hg) as (_ & _ & _ & E). exact E.
Qed.

Lemma push_current_spec s q : sc_inv s -> StronglySorted cell_le (sc_cells s) -> wf_queue q ->
  wf_queue (push_current s q) /\ Permutation (pending (push_current s q)) (sc_cells s ++ pending q).
Proof.
  intros Hi Hs Hq. unfold push_current. destruct (sc_get s) as [[[k v]|] s'] eqn:E.
  - destruct (get_ready s _ s' Hi E) as (Hi' & E' & Hc & Hh). unfold wf_queue, pending. rewrite pq_push_elems. split.
    + constructor; [|assumption]. split; [assumption|]. split; [exact E'|]. cbn [ss_scanner]. now rewrite Hc.
    + cbn [flat_map ss_scanner]. now rewrite Hc.
  - destruct (sc_get_spec s Hi) as (H1 & _). rewrite E in H1. cbn [fst] in H1. destruct (sc_cells s); [|discriminate].
    now split.
Qed.

Lemma advance_spec q st : wf_queue q -> pq_top q = Some st ->
  wf_queue (advance q) /\ Permutation (pending q) (cell_at st :: pending (advance q)).
Proof.
  intros Hq Ht. pose proof (pq_top_spec q) as T. unfold advance. rewrite Ht in *. destruct T as [T _].
  unfold wf_queue in Hq. rewrite T in Hq. apply Forall_cons_iff in Hq as [Hst Hq].
  pose proof (state_cells st Hst) as Ec. destruct Hst as (Hi & Hg & Hs).
  destruct (sc_forward_spec _ _ Hi Hg) as [Hf Hfi].
  assert (Hs' : StronglySorted cell_le (sc_cells (sc_forward (ss_scanner st)))).
  { rewrite Hf. rewrite Ec in Hs. inversion Hs; assumption. }
  destruct (push_current_spec _ (pq_pop q) Hfi Hs' Hq) as [Hw Hp]. split; [assumption|].
  rewrite Hp, Hf. unfold pending. rewrite T. cbn [flat_map]. now rewrite Ec at 1.
Qed.

Lemma top_none q : wf_queue q -> pq_top q = None -> pending q = [].
Proof. intros _ E. pose proof (pq_top_spec q) as T. rewrite E in T. unfold pending. now rewrite T. Qed.

Lemma pending_none q : wf_queue q -> pending q = [] -> pq_top q = None.
Proof.
  intros Hq E. destruct (pq_top q) as [st|] eqn:Et; [|reflexivity]. destruct (advance_spec q st Hq Et) as [_ Hp].
  rewrite E in Hp. now apply Permutation_nil in Hp.
Qed.

Lemma merged_step q : wf_queue q ->
  merged q = match pq_top q with None => [] | Some st => cell_at st :: merged (advance q) end.
Proof.
  intros Hq. unfold merged at 1. destruct (pq_top q) as [st|] eqn:Et.
  - destruct (advance_spec q st Hq Et) as [_ Hp]. rewrite (Permutation_length Hp). cbn [length order]. now rewrite Et.
  - now rewrite (top_none q Hq Et).
Qed.

Lemma merged_ind (R : queue -> Prop) :
  (forall q, wf_queue q -> (forall st, pq_top q = Some st -> wf_queue (advance q) -> R (advance q)) -> R q) ->
  forall q, wf_queue q -> R q.
Proof.
  intros IH q. remember (length (pending q)) as n eqn:En. revert q En.
  induction n as [n IHn] using lt_wf_ind. intros q En Hq. apply IH; [assumption|]. intros st Et Hw.
  destruct (advance_spec q st Hq Et) as [_ Hp]. apply Permutation_length in Hp. cbn [length] in Hp.
  apply (IHn (length (pending (advance q)))); [lia|reflexivity|assumption].
Qed.

Lemma merged_perm q : wf_queue q -> Permutation (merged q) (pending q).
Proof.
  intros Hq. induction Hq using merged_ind. rewrite merged_step by assumption.
  destruct (pq_top q) as [st|] eqn:Et; [|now rewrite (top_none q)].
  destruct (advance_spec q st) as [Hw Hp]; [assumption..|]. rewrite Hp. apply perm_skip. eauto.
Qed.

Lemma cell_le_trans a b c : cell_le a b -> cell_le b c -> cell_le a c.
Proof.
  unfold cell_le. intros H1 H2. destruct (bytes_cmp (fst a) (fst b)) eqn:E1; [apply bytes_cmp_eq in E1; congruence| |congruence].
  destruct (bytes_cmp (fst b) (fst c)) eqn:E2; [apply bytes_cmp_eq in E2; congruence| |congruence].
  rewrite (bytes_lt_trans _ _ _ E1 E2). discriminate.
Qed.

Lemma top_le q st c : wf_queue q -> pq_top q = Some st -> In c (pending q) -> cell_le (cell_at st) c.
Proof.
  intros Hq Et Hin. pose proof (pq_top_spec q) as T. rewrite Et in T. destruct T as [_ Hmin].
  unfold pending in Hin. apply in_flat_map in Hin as (st' & Hst' & Hc).
  pose proof (proj1 (Forall_forall _ _) Hq st' Hst') as Hw. pose proof (Hmin st' Hst') as Hle.
  pose proof (state_cells st' Hw) as Ec. destruct Hw as (_ & _ & Hs). rewrite Ec in Hs, Hc.
  inversion Hs as [|? ? _ Hf]; subst. destruct Hc as [<-|Hc]; [exact Hle|].
  apply (cell_le_trans _ (cell_at st')); [exact Hle|]. exact (proj1 (Forall_forall _ _) Hf c Hc).
Qed.

Lemma merged_sorted q : wf_queue q -> StronglySorted cell_le (merged q).
Proof.
  intros Hq. induction Hq using merged_ind. rewrite merged_step by assumption.
  destruct (pq_top q) as [st|] eqn:Et; [|constructor]. destruct (advance_spec q st) as [Hw Hp]; [assumption..|].
  constructor; [eauto|]. apply Forall_forall. intros c Hc. apply (top_le q st c); [assumption..|].
  apply (Permutation_in _ (Permutation_sym Hp)). right. now apply (Permutation_in _ (merged_perm _ Hw)).
Qed.

(** ** The loops run the filter over that order *)

(** What is still to be shown when the queue's top is the current cell. *)
Definition shows (p : scan_params) (f : filter_state) (q : queue) : list cell :=
  if m_done f then []
  else match merged q with [] => [] | c :: l => c :: scan p f l end.

Lemma step_done p f k key : m_done f = false ->
  m_done (fst (step p f k key)) = match snd (step p f k key) with Stop => true | _ => false end.
Proof.
  intros Hd. unfold step. assert (E : m_done (fst (examine p f k)) = false).
  { unfold examine. repeat case_goal; cbn [fst set_deletes m_done]; assumption. }
  destruct (examine p f k) as [g b]. cbn [fst] in E. destruct b; [|exact E].
  unfold limits. repeat (case_goal; cbn [fst snd new_cell m_done]); auto.
Qed.

(** From [q] the loops get to a queue and filter state that show [want]. *)
Record reaches (p : scan_params) (q : queue) (want : list cell) (q' : queue) (f' : filter_state) : Prop := {
  reaches_wf : wf_queue q';
  reaches_length : (length (pending q') <= length (pending q))%nat;
  reaches_incl : incl (pending q') (pending q);
  reaches_shows : shows p f' q' = want }.

Lemma reaches_refl p q f : wf_queue q -> reaches p q (shows p f q) q f.
Proof. intros Hq. split; [assumption|lia|apply incl_refl|reflexivity]. Qed.

Lemma reaches_advance p q st want q' f' : wf_queue q -> pq_top q = Some st ->
  reaches p (advance q) want q' f' -> reaches p q want q' f'.
Proof.
  intros Hq Et [W L I Sh]. destruct (advance_spec q st Hq Et) as [_ Hp].
  pose proof (Permutation_length Hp) as Hl. cbn [length] in Hl. split; [assumption|lia| |assumption].
  intros c Hc. apply (Permutation_in _ (Permutation_sym Hp)). right. auto.
Qed.

Lemma forward_loop_spec p q : wf_queue q -> forall fuel f, (length (pending q) <= fuel)%nat ->
  pq_top q <> None -> m_done f = false ->
  exists q' f', forward_loop fuel p q f = Some (q', f') /\ reaches p q (scan p f (tl (merged q))) q' f'.
Proof.
  intros Hq. induction Hq as [q Hq IH] using merged_ind. intros fuel f Hfuel Ht Hd.
  destruct (pq_top q) as [st|] eqn:Et; [|congruence]. clear Ht.
  destruct (advance_spec q st Hq Et) as [Hw Hp]. specialize (IH st eq_refl Hw).
  pose proof (Permutation_length Hp) as Hl. cbn [length] in Hl. destruct fuel as [|fuel]; [lia|].
  rewrite (merged_step q Hq), Et. cbn [tl forward_loop]. rewrite (merged_step _ Hw).
  assert (Again : forall st' f', pq_top (advance q) = Some st' -> m_done f' = false ->
    exists q' g, forward_loop fuel p (advance q) f' = Some (q', g) /\
      reaches p q (scan p f' (merged (advance (advance q)))) q' g).
  { intros st' f' Et' Hd'. destruct (IH fuel f') as (q' & g & E & R); [lia|congruence|assumption|].
    exists q', g. rewrite (merged_step _ Hw), Et' in R. eauto using reaches_advance. }
  assert (Stay : forall f' l, shows p f' (advance q) = l -> reaches p q l (advance q) f').
  { intros f' l <-. eauto using reaches_advance, reaches_refl. }
  destruct (pq_top (advance q)) as [st'|] eqn:Et'.
  - cbn [scan]. change (fst (cell_at st')) with (ss_key st'). destruct (parse_key (ss_key st')) as [k|]; [|eauto].
    pose proof (step_done p f k (ss_key st') Hd) as Hdone.
    destruct (step p f k (ss_key st')) as [f' v]. cbn [fst snd] in Hdone.
    destruct v; [eauto|exists (advance q), f'; (split; [reflexivity|]); apply Stay; unfold shows; rewrite Hdone..].
    + now rewrite (merged_step _ Hw), Et'.
    + reflexivity.
  - exists (advance q), f. split; [reflexivity|]. apply Stay. unfold shows. now rewrite Hd, (merged_step _ Hw), Et'.
Qed.

Lemma shows_everything p f q : wf_queue q -> Forall good_cell (pending q) ->
  m_return_everything p = true -> m_done f = false -> shows p f q = merged q.
Proof.
  intros Hq Hg Hev Hd. unfold shows. rewrite Hd. destruct (merged q) as [|c l] eqn:E; [reflexivity|].
  rewrite scan_everything; [reflexivity|assumption|]. apply Forall_forall. intros x Hx.
  apply (proj1 (Forall_forall _ _) Hg), (Permutation_in _ (merged_perm q Hq)). rewrite E. now right.
Qed.

Lemma step_first_insert p k key : is_delete k = false -> m_return_everything p = false ->
  (k_ts k <? m_start_timestamp p) = false -> (m_end_timestamp p <=? k_ts k) = false ->
  step p initial_filter k key = (new_cell p initial_filter k key, Take).
Proof. intros Hk Hev H1 H2. unfold step, examine. rewrite Hk, Hev, H1, H2. reflexivity. Qed.

Lemma good_advance q st : wf_queue q -> pq_top q = Some st -> Forall good_cell (pending q) ->
  Forall good_cell (pending (advance q)).
Proof.
  intros Hq Et Hg. destruct (advance_spec q st Hq Et) as [_ Hp]. rewrite Forall_forall in *.
  intros c Hc. apply Hg, (Permutation_in _ (Permutation_sym Hp)). now right.
Qed.

Lemma good_top q st : wf_queue q -> pq_top q = Some st -> Forall good_cell (pending q) -> good_cell (cell_at st).
Proof.
  intros Hq Et Hg. destruct (advance_spec q st Hq Et) as [_ Hp]. rewrite Forall_forall in Hg.
  apply Hg, (Permutation_in _ (Permutation_sym Hp)). now left.
Qed.

Lemma step_first_delete p k key : is_delete k = true -> m_return_everything p = false ->
  (k_ts k <? m_start_timestamp p) = false ->
  step p initial_filter k key = (set_deletes (first_delete no_deletes k) initial_filter, Skip).
Proof.
  intros Hk Hev H1. unfold step, examine. rewrite Hk, Hev, H1. cbn [negb andb]. do 2 f_equal.
  unfold is_delete in Hk. unfold note_delete, first_delete. destruct (k_flag k =? FLAG_DELETE_ROW); [reflexivity|].
  destruct (k_flag k =? FLAG_DELETE_COLUMN_FAMILY); [reflexivity|]. cbn [orb] in Hk. now rewrite Hk.
Qed.

Lemma step_outside p k key : m_return_everything p = false ->
  (k_ts k <? m_start_timestamp p) || (negb (is_delete k) && (m_end_timestamp p <=? k_ts k)) = true ->
  step p initial_filter k key = (initial_filter, Skip).
Proof.
  intros Hev H1. unfold step, examine. rewrite Hev. cbn [negb]. rewrite !andb_true_r.
  destruct (k_ts k <? m_start_timestamp p); [reflexivity|]. cbn [orb] in H1.
  destruct (is_delete k); [discriminate|]. cbn [negb andb] in H1. now rewrite H1.
Qed.

(** The scan when everything is returned: the first cell is shown. *)
Lemma initialize_everything p q fuel : wf_queue q -> Forall good_cell (pending q) -> m_return_everything p = true ->
  exists f', initialize_loop (Datatypes.S fuel) p q initial_filter = Some (Ok (q, f')) /\
    reaches p q (scan p initial_filter (merged q)) q f'.
Proof.
  intros Hq Hg Hev.
  assert (Here : forall f', m_done f' = false -> reaches p q (scan p initial_filter (merged q)) q f').
  { intros f' Hd. rewrite scan_everything; [rewrite <- (shows_everything p f' q) by assumption; now apply reaches_refl|assumption|].
    rewrite Forall_forall in *. intros c Hc. apply Hg, (Permutation_in _ (merged_perm q Hq)), Hc. }
  cbn [initialize_loop]. destruct (pq_top q) as [st|] eqn:Et; [|eauto].
  destruct (good_cell_parse _ (good_top q st Hq Et Hg)) as (k & Wk & Ek & Hk).
  change (fst (cell_at st)) with (ss_key st) in Hk. rewrite Hk, Hev. cbn [negb]. rewrite !andb_false_r.
  destruct (is_delete k); eexists; (split; [reflexivity|]); now apply Here.
Qed.

Lemma initialize_loop_spec p q : wf_queue q -> forall fuel, Forall good_cell (pending q) ->
  (length (pending q) < fuel)%nat ->
  exists q' f', initialize_loop fuel p q initial_filter = Some (Ok (q', f')) /\
    reaches p q (scan p initial_filter (merged q)) q' f'.
Proof.
  intros Hq. induction Hq as [q Hq IH] using merged_ind. intros fuel Hg Hfuel.
  destruct fuel as [|fuel]; [lia|]. destruct (m_return_everything p) eqn:Hev.
  { destruct (initialize_everything p q fuel Hq Hg Hev) as (f' & E & R). eauto. }
  cbn [initialize_loop]. destruct (pq_top q) as [st|] eqn:Et.
  2:{ exists q, initial_filter. split; [reflexivity|]. rewrite (merged_step q Hq), Et.
      pose proof (reaches_refl p q initial_filter Hq) as R. unfold shows in R. now rewrite (merged_step q Hq), Et in R. }
  destruct (advance_spec q st Hq Et) as [Hw Hp]. specialize (IH st eq_refl Hw fuel (good_advance q st Hq Et Hg)).
  pose proof (Permutation_length Hp) as Hl. cbn [length] in Hl.
  destruct (good_cell_parse _ (good_top q st Hq Et Hg)) as (k & Wk & Ek & Hk).
  change (fst (cell_at st)) with (ss_key st) in *. rewrite Hk, Hev. cbn [negb]. rewrite !andb_true_r.
  pose proof (step_outside p k (ss_key st) Hev) as Hout.
  pose proof (fun Hd => step_first_delete p k (ss_key st) Hd Hev) as Hdel.
  pose proof (fun Hd => step_first_insert p k (ss_key st) Hd Hev) as Hins.
  assert (Hm : merged q = cell_at st :: merged (advance q)) by now rewrite (merged_step q Hq), Et.
  assert (Later : step p initial_filter k (ss_key st) = (initial_filter, Skip) ->
    exists q' f', initialize_loop fuel p (advance q) initial_filter = Some (Ok (q', f')) /\
      reaches p q (scan p initial_filter (merged q)) q' f').
  { intros Es. destruct IH as (q' & f' & E & R); [lia|]. exists q', f'. rewrite Hm. cbn [scan].
    change (fst (cell_at st)) with (ss_key st). rewrite Hk, Es. eauto using reaches_advance. }
  rewrite Hm in *. cbn [scan] in *. change (fst (cell_at st)) with (ss_key st) in *. rewrite Hk in *.
  destruct (k_ts k <? m_start_timestamp p); [now apply Later, Hout|]. cbn [orb] in Hout.
  destruct (is_delete k).
  - rewrite Hdel by reflexivity.
    destruct (forward_loop_spec p q Hq fuel (set_deletes (first_delete no_deletes k) initial_filter))
      as (q' & f' & E & R); [lia|congruence|reflexivity|].
    rewrite Hm in R. cbn [tl m_deletes initial_filter] in *. rewrite E. eauto.
  - destruct (m_end_timestamp p <=? k_ts k); [now apply Later, Hout|]. rewrite Hins by reflexivity.
    eexists q, _. split; [reflexivity|]. pose proof (reaches_refl p q (new_cell p initial_filter k (ss_key st)) Hq) as R.
    unfold shows in R. rewrite Hm in R. exact R.
Qed.

Lemma initial_queue_spec scanners : Forall sc_inv scanners ->
  Forall (fun s => StronglySorted cell_le (sc_cells s)) scanners ->
  wf_queue (initial_queue scanners) /\ Permutation (pending (initial_queue scanners)) (concat (map sc_cells scanners)).
Proof.
  intros Hi Hs. unfold initial_queue.
  assert (G : forall q, wf_queue q ->
    wf_queue (fold_left (fun q s => push_current s q) scanners q) /\
    Permutation (pending (fold_left (fun q s => push_current s q) scanners q)) (concat (map sc_cells scanners) ++ pending q)).
  { induction scanners as [|s scanners IH]; intros q Hq; cbn [fold_left map concat]; [now split|].
    apply Forall_cons_iff in Hi as [Hi1 Hi2]. apply Forall_cons_iff in Hs as [Hs1 Hs2].
    destruct (push_current_spec s q Hi1 Hs1 Hq) as [Hq' Hp']. destruct (IH Hi2 Hs2 _ Hq') as [W P].
    split; [exact W|]. rewrite P, Hp'. rewrite !app_assoc. apply Permutation_app_tail, Permutation_app_comm. }
  destruct (G pq_empty) as [W P]; [unfold wf_queue; rewrite pq_empty_elems; constructor|]. split; [exact W|].
  rewrite P. unfold pending. rewrite pq_empty_elems. cbn. now rewrite app_nil_r.
Qed.

Abbreviation MergeScanner := (@MergeScanner S).

(** A client: [while (scanner->get(key, value)) { ...; scanner->forward(); }],
    for at most [n] cells. *)
Fixpoint read_cells (fuel n : nat) (ms : MergeScanner) : option (result (list cell)) :=
  match n with
  | O => Some (Ok [])
  | Datatypes.S n =>
      match get fuel ms with
      | None => None
      | Some (Throw e) => Some (Throw e)
      | Some Fault => Some Fault
      | Some (Ok (None, _)) => Some (Ok [])
      | Some (Ok (Some c, ms)) =>
          match forward fuel ms with
          | None => None
          | Some ms =>
              match read_cells fuel n ms with
              | Some (Ok l) => Some (Ok (c :: l))
              | r => r
              end
          end
      end
  end.

Definition ms_shows (ms : MergeScanner) : list cell := shows (ms_params ms) (ms_filter ms) (ms_queue ms).

Lemma current_shows ms : wf_queue (ms_queue ms) -> current ms = hd_error (ms_shows ms).
Proof.
  intros Hq. unfold current, ms_shows, shows. destruct (m_done (ms_filter ms)); [reflexivity|].
  rewrite (merged_step _ Hq). now destruct (pq_top (ms_queue ms)).
Qed.

Lemma forward_shows fuel ms c : wf_queue (ms_queue ms) -> (length (pending (ms_queue ms)) <= fuel)%nat ->
  current ms = Some c ->
  exists q' f', forward fuel ms = Some (with_queue q' f' ms) /\
    reaches (ms_params ms) (ms_queue ms) (tl (ms_shows ms)) q' f'.
Proof.
  intros Hq Hf Hc. unfold current in Hc. destruct (m_done (ms_filter ms)) eqn:Hd; [discriminate|].
  destruct (pq_top (ms_queue ms)) as [st|] eqn:Et; [|discriminate].
  destruct (forward_loop_spec (ms_params ms) (ms_queue ms) Hq fuel (ms_filter ms) Hf) as (q' & f' & E & R); [congruence|assumption|].
  exists q', f'. unfold forward. rewrite Et, E. split; [reflexivity|]. unfold ms_shows, shows. rewrite Hd.
  rewrite (merged_step _ Hq), Et in R |- *. exact R.
Qed.

Lemma read_running fuel n : forall ms, ms_initialized ms = true -> wf_queue (ms_queue ms) ->
  (length (pending (ms_queue ms)) <= fuel)%nat ->
  read_cells fuel n ms = Some (Ok (firstn n (ms_shows ms))).
Proof.
  induction n as [|n IH]; intros ms Hi Hq Hf; [reflexivity|]. cbn [read_cells]. unfold get. rewrite Hi.
  destruct (current ms) as [c|] eqn:Hc; pose proof (current_shows ms Hq) as Hh; rewrite Hc in Hh.
  - destruct (forward_shows fuel ms c Hq Hf Hc) as (q' & f' & -> & R). rewrite IH.
    + unfold ms_shows at 1, with_queue. cbn [ms_params ms_filter ms_queue]. rewrite (reaches_shows _ _ _ _ _ R).
      destruct (ms_shows ms); [discriminate|]. now injection Hh as <-.
    + exact Hi.
    + exact (reaches_wf _ _ _ _ _ R).
    + pose proof (reaches_length _ _ _ _ _ R). cbn [ms_queue with_queue]. lia.
  - now destruct (ms_shows ms).
Qed.

Lemma get_first fuel p scanners : Forall sc_inv scanners ->
  Forall (fun s => StronglySorted cell_le (sc_cells s)) scanners ->
  Forall good_cell (concat (map sc_cells scanners)) -> (length (concat (map sc_cells scanners)) < fuel)%nat ->
  exists q' f', let ms := {| ms_params := p; ms_initialized := true; ms_scanners := scanners; ms_queue := q'; ms_filter := f' |} in
    get fuel (MergeScanner_make p scanners) = Some (Ok (current ms, ms)) /\
    reaches p (initial_queue scanners) (scan p initial_filter (merged (initial_queue scanners))) q' f'.
Proof.
  intros Hi Hs Hg Hf. destruct (initial_queue_spec scanners Hi Hs) as [Hq Hp].
  destruct (initialize_loop_spec p (initial_queue scanners) Hq fuel) as (q' & f' & E & R).
  - rewrite Forall_forall in *. intros c Hc. apply Hg, (Permutation_in _ Hp), Hc.
  - now rewrite (Permutation_length Hp).
  - exists q', f'. split; [|exact R]. unfold get, initialize. cbn [ms_initialized MergeScanner_make ms_params ms_scanners ms_filter].
    now rewrite E.
Qed.

Lemma read_scanner fuel p scanners n : Forall sc_inv scanners ->
  Forall (fun s => StronglySorted cell_le (sc_cells s)) scanners ->
  Forall good_cell (concat (map sc_cells scanners)) -> (length (concat (map sc_cells scanners)) < fuel)%nat ->
  read_cells fuel n (MergeScanner_make p scanners) =
    Some (Ok (firstn n (scan p initial_filter (merged (initial_queue scanners))))).
Proof.
  intros Hi Hs Hg Hf. destruct n as [|n]; [reflexivity|].
  destruct (get_first fuel p scanners Hi Hs Hg Hf) as (q' & f' & E & R).
  rewrite <- (reaches_shows _ _ _ _ _ R).
  set (ms := {| ms_params := p; ms_initialized := true; ms_scanners := scanners; ms_queue := q'; ms_filter := f' |}) in *.
  change (shows p f' q') with (ms_shows ms). rewrite <- (read_running fuel (Datatypes.S n) ms).
  - cbn [read_cells]. rewrite E. reflexivity.
  - reflexivity.
  - exact (reaches_wf _ _ _ _ _ R).
  - pose proof (reaches_length _ _ _ _ _ R). destruct (initial_queue_spec scanners Hi Hs) as [_ Hp].
    apply Permutation_length in Hp. cbn [ms_queue ms]. lia.
Qed.

(** C1. Whatever the heap does with equal keys, a client that reads a merge
    scanner over sorted scanners sees all their cells in key order when
    everything is to be returned, and otherwise exactly the selection from that
    order: the inserts in the time interval that no delete record hides, the
    first [max_versions] of each cell, in the first [row_limit] rows.  Every loop
    ends within as many iterations as there are cells. *)
Theorem merge_scanner_correct p scanners fuel :
  Forall sc_inv scanners -> Forall (fun s => StronglySorted cell_le (sc_cells s)) scanners ->
  Forall good_cell (concat (map sc_cells scanners)) ->
  m_return_everything p = true \/ wf_params p /\ zlen (concat (map sc_cells scanners)) < 2 ^ 32 ->
  (length (concat (map sc_cells scanners)) < fuel)%nat ->
  exists l, Permutation l (concat (map sc_cells scanners)) /\ StronglySorted cell_le l /\
    forall n, read_cells fuel n (MergeScanner_make p scanners) =
      Some (Ok (firstn n (if m_return_everything p then l else select p [] [] l))).
Proof.
  intros Hi Hs Hg Hm Hf. destruct (initial_queue_spec scanners Hi Hs) as [Hq Hp].
  pose proof (merged_perm _ Hq) as Hmp. rewrite Hp in Hmp. pose proof (merged_sorted _ Hq) as Hms.
  exists (merged (initial_queue scanners)). repeat (split; [assumption|]). intros n. rewrite read_scanner by assumption.
  assert (Hg' : Forall good_cell (merged (initial_queue scanners))) by now rewrite Hmp.
  destruct (m_return_everything p) eqn:Hev; [now rewrite scan_everything|]. destruct Hm as [?|[Wp Hlen]]; [discriminate|].
  rewrite (scan_select p Wp _ _ [] []); [reflexivity|apply midway_initial|assumption..|intros ? ? ? ? ? ? []|].
  unfold zlen in *. rewrite (Permutation_length Hmp). exact Hlen.
Qed.

(** A merge scanner is itself a scanner. *)
Definition ms_fuel (ms : MergeScanner) : nat :=
  Datatypes.S (length (pending (ms_queue ms)) + length (concat (map sc_cells (ms_scanners ms)))).

Definition ms_inv (ms : MergeScanner) : Prop :=
  if ms_initialized ms then wf_queue (ms_queue ms)
  else ms = MergeScanner_make (ms_params ms) (ms_scanners ms) /\ Forall sc_inv (ms_scanners ms) /\
       Forall (fun s => StronglySorted cell_le (sc_cells s)) (ms_scanners ms) /\
       Forall good_cell (concat (map sc_cells (ms_scanners ms))).

Definition ms_cells (ms : MergeScanner) : list cell :=
  if ms_initialized ms then ms_shows ms
  else scan (ms_params ms) initial_filter (merged (initial_queue (ms_scanners ms))).

Definition ms_get (ms : MergeScanner) : option cell * MergeScanner :=
  match get (ms_fuel ms) ms with
  | Some (Ok r) => r
  | _ => (None, ms)
  end.

Definition ms_forward (ms : MergeScanner) : MergeScanner :=
  match forward (ms_fuel ms) ms with
  | Some ms' => ms'
  | None => ms
  end.

(** A merge scanner over sorted scanners, as its clients see it. *)
Lemma made_scanner p scanners : Forall sc_inv scanners ->
  Forall (fun s => StronglySorted cell_le (sc_cells s)) scanners ->
  Forall good_cell (concat (map sc_cells scanners)) ->
  ms_inv (MergeScanner_make p scanners) /\
  exists l, Permutation l (concat (map sc_cells scanners)) /\ StronglySorted cell_le l /\ Forall good_cell l /\
    (m_return_everything p = true -> ms_cells (MergeScanner_make p scanners) = l) /\
    (wf_params p -> zlen l < 2 ^ 32 -> ms_cells (MergeScanner_make p scanners) = select p [] [] l).
Proof.
  intros Hi Hs Hg. destruct (initial_queue_spec scanners Hi Hs) as [Hq Hp].
  pose proof (merged_perm _ Hq) as Hmp. rewrite Hp in Hmp. pose proof (merged_sorted _ Hq) as Hms.
  assert (Hg' : Forall good_cell (merged (initial_queue scanners))) by now rewrite Hmp.
  split; [cbn; auto|]. exists (merged (initial_queue scanners)). do 3 (split; [assumption|]).
  unfold ms_cells. cbn [ms_initialized MergeScanner_make ms_params ms_scanners]. split; intros Hev; [now apply scan_everything|].
  intros Hlen. apply (scan_select p Hev _ _ [] []); [apply midway_initial|assumption..|intros ? ? ? ? ? ? []|exact Hlen].
Qed.

Lemma ms_get_spec ms : ms_inv ms ->
  fst (ms_get ms) = hd_error (ms_cells ms) /\ ms_cells (snd (ms_get ms)) = ms_cells ms /\
  ms_inv (snd (ms_get ms)) /\ ms_initialized (snd (ms_get ms)) = true.
Proof.
  unfold ms_inv at 1. destruct (ms_initialized ms) eqn:Hi.
  - intros Hq. unfold ms_get, get. rewrite Hi. cbn [fst snd]. unfold ms_cells, ms_inv. rewrite Hi, current_shows by assumption. auto.
  - intros (E & Hs1 & Hs2 & Hs3).
    destruct (get_first (ms_fuel ms) (ms_params ms) (ms_scanners ms) Hs1 Hs2 Hs3) as (q' & f' & Eg & R); [unfold ms_fuel; lia|].
    unfold ms_get. rewrite <- E in Eg. rewrite Eg. cbn [fst snd]. pose proof (reaches_wf _ _ _ _ _ R) as Hw.
    rewrite current_shows by exact Hw. unfold ms_cells, ms_inv, ms_shows. rewrite Hi.
    cbn [ms_initialized ms_params ms_filter ms_queue]. rewrite (reaches_shows _ _ _ _ _ R). auto.
Qed.

Definition merge_scanner : CellListScanner MergeScanner.
Proof.
  refine {| sc_get := ms_get; sc_forward := ms_forward; sc_inv := ms_inv; sc_cells := ms_cells |}.
  - intros ms Hi. destruct (ms_get_spec ms Hi) as (H1 & H2 & H3 & H4). repeat (split; [assumption|]).
    unfold ms_get at 1, get. now rewrite H4.
  - intros ms c Hi E. destruct (ms_get_spec ms Hi) as (_ & _ & _ & H4). rewrite E in H4. cbn [snd] in H4.
    unfold ms_inv in Hi. rewrite H4 in Hi. unfold ms_get, get in E. rewrite H4 in E. injection E as E.
    destruct (forward_shows (ms_fuel ms) ms c Hi) as (q' & f' & Ef & R); [unfold ms_fuel; lia|assumption|].
    unfold ms_forward. rewrite Ef. unfold ms_cells, ms_inv, ms_shows, with_queue. cbn [ms_initialized ms_params ms_filter ms_queue].
    rewrite H4. split; [exact (reaches_shows _ _ _ _ _ R)|exact (reaches_wf _ _ _ _ _ R)].
Defined.

End Merge.

(** ** A queue *)

Fixpoint remove_nth {A} (n : nat) (l : list A) : list A :=
  match l, n with
  | [], _ => []
  | _ :: l', O => l'
  | x :: l', Datatypes.S n => x :: remove_nth n l'
  end.

Lemma remove_nth_perm {A} n (l : list A) x : nth_error l n = Some x -> Permutation l (x :: remove_nth n l).
Proof.
  revert n. induction l as [|y l IH]; intros [|n]; cbn; try discriminate.
  - now intros [= ->].
  - intros E. rewrite (IH n E) at 1. apply perm_swap.
Qed.

(** The first of the least keys. *)
Fixpoint first_least (ks : list (list Z)) : nat :=
  match ks with
  | [] => O
  | k :: ks' =>
      match nth_error ks' (first_least ks') with
      | Some k' => if bytes_leb k k' then O else Datatypes.S (first_least ks')
      | None => O
      end
  end.

Lemma first_least_ok ks : ks <> [] -> exists k,
  nth_error ks (first_least ks) = Some k /\ forall k', In k' ks -> bytes_cmp k k' <> Gt.
Proof.
  induction ks as [|k ks IH]; [congruence|]. intros _. cbn [first_least]. destruct ks as [|k2 ks].
  - exists k. split; [reflexivity|]. intros k' [<-|[]]. now rewrite bytes_cmp_refl.
  - destruct IH as (m & Em & Hm); [discriminate|]. rewrite Em. unfold bytes_leb. destruct (bytes_cmp k m) eqn:E.
    3:{ exists m. split; [exact Em|]. intros k' [<-|Hin]; [|auto]. rewrite bytes_cmp_antisym, E. discriminate. }
    all: exists k; (split; [reflexivity|]); intros k' [<-|Hin]; [now rewrite bytes_cmp_refl|].
    + apply bytes_cmp_eq in E as ->. auto.
    + exact (cell_le_trans (k, []) (m, []) (k', []) ltac:(unfold cell_le; cbn; congruence) (Hm k' Hin)).
Qed.

#[export] Instance list_queue {E} (key : E -> list Z) : PriorityQueue E key.
Proof.
  refine {| pq := list E; pq_empty := []; pq_push := cons; pq_elems q := q;
            pq_top q := nth_error q (first_least (map key q));
            pq_pop q := remove_nth (first_least (map key q)) q |}.
  - reflexivity.
  - reflexivity.
  - intros q. destruct (nth_error q (first_least (map key q))) as [x|] eqn:E0.
    + split; [now apply remove_nth_perm|]. intros y Hy.
      destruct (first_least_ok (map key q)) as (k & Ek & Hk); [destruct q; [destruct Hy|discriminate]|].
      rewrite nth_error_map, E0 in Ek. injection Ek as <-. now apply Hk, in_map.
    + destruct q as [|x q]; [reflexivity|]. destruct (first_least_ok (map key (x :: q))) as (k & Ek & _); [discriminate|].
      rewrite nth_error_map, E0 in Ek. discriminate.
Defined.

(** Two caches with the same cell, one version asked for. *)
Definition sample_params : scan_params :=
  {| m_return_everything := false; m_row_limit := 1; m_start_timestamp := 0; m_end_timestamp := 2 ^ 62;
     family_info := fun _ => {| cutoff_time := 0; max_versions := 1 |} |}.
Definition sample_scanner : cached :=
  {| cc_map := [sample_entry];
     cc_scan := CellCacheScanner_make [sample_entry]
                  {| start_row := []; end_row := END_ROW_MARKER; family_mask := fun _ => true |} |}.

Lemma sample_scanner_cells : sc_cells sample_scanner = [(sample_key, [118])].
Proof. vm_compute. reflexivity. Qed.

Lemma rec_insert_wf : wf_comps rec_insert.
Proof. repeat constructor; vm_compute; intuition discriminate. Qed.

Lemma sample_scanner_inv : sc_inv sample_scanner.
Proof. split; [repeat constructor|]. right. exists sample_entry. split; [vm_compute; reflexivity|now left]. Qed.

Lemma merge_scanner_correct_witness : exists l,
  Permutation l [(sample_key, [118]); (sample_key, [118])] /\ StronglySorted cell_le l /\
  read_cells 3 5 (MergeScanner_make sample_params [sample_scanner; sample_scanner]) =
    Some (Ok (select sample_params [] [] l)) /\
  select sample_params [] [] l = [(sample_key, [118])].
Proof.
  destruct (merge_scanner_correct sample_params [sample_scanner; sample_scanner] 3) as (l & Hl & Hs & Hr).
  - exact (Forall_cons _ sample_scanner_inv (Forall_cons _ sample_scanner_inv (Forall_nil _))).
  - do 2 (constructor; [rewrite sample_scanner_cells; repeat constructor|]). constructor.
  - cbn [map concat]. rewrite !sample_scanner_cells.
    do 2 (constructor; [exists rec_insert; split; [exact rec_insert_wf|reflexivity]|]). constructor.
  - right. split; [|cbn [map concat]; rewrite !sample_scanner_cells; reflexivity].
    split; [reflexivity|cbv; intuition congruence|intros f; cbv; intuition congruence].
  - cbn [map concat]. rewrite !sample_scanner_cells. cbn. lia.
  - cbn [map concat] in Hl. rewrite !sample_scanner_cells in Hl. exists l. split; [exact Hl|]. split; [exact Hs|].
    assert (E : l = [(sample_key, [118]); (sample_key, [118])]).
    { apply Permutation_sym in Hl. cbn [app] in Hl.
      apply Permutation_length_2_inv in Hl as [->| ->]; reflexivity. }
    rewrite (Hr 5%nat), E. split; vm_compute; reflexivity.
Defined.
