(* ===== verification/Selection.v ===== *)
(** * Selecting twice

    What [MergeScanner] shows of a sequence of cells is the function [select] of
    MergeScanner.v.  Here: selecting commutes with restricting a scan to rows and
    families, and a selection with wider limits, as a major compaction makes it,
    may come first without a client seeing a difference. *)
From S2P Require Import Prelude Errors Serialization ByteString Key Deletes CellCache Scanner MergeScanner.
From Stdlib Require Import ZArith Lia List Bool Sorted Permutation.
Import ListNotations.
Open Scope Z_scope.

(** ** Restricting *)

(** A restriction that keeps, with an insert, every delete record and every other
    version that concerns it. *)
Record closed (b : KeyComps -> bool) : Prop := {
  cl_row k x : wf_comps k -> wf_comps x -> is_delete k = false -> b k = true -> k_flag x = FLAG_DELETE_ROW ->
    same_row k x = true -> b x = true;
  cl_cf k x : wf_comps k -> wf_comps x -> is_delete k = false -> b k = true -> k_flag x <> FLAG_DELETE_ROW ->
    same_cf k x = true -> b x = true }.

Lemma newest_filter f s b P : (forall x, In x P -> k_flag x = f -> s x = true -> b x = true) ->
  newest f s (filter b P) = newest f s P.
Proof.
  induction P as [|x P IH] using rev_ind; intros Hb; [reflexivity|].
  assert (IH' : newest f s (filter b P) = newest f s P) by (apply IH; intros y Hy; apply Hb, in_or_app; now left).
  rewrite filter_app, newest_snoc. cbn [filter]. destruct (b x) eqn:Eb.
  - rewrite newest_snoc, IH'. reflexivity.
  - rewrite app_nil_r, IH'. destruct (Z.eqb_spec (k_flag x) f) as [Ef|Ef]; [|reflexivity]. destruct (s x) eqn:Es; [|reflexivity].
    rewrite (Hb x) in Eb; [discriminate|apply in_or_app; right; now left|assumption..].
Qed.

Lemma same_cell_cf k x : wf_comps k -> wf_comps x -> same_cell k x = true -> same_cf k x = true.
Proof.
  intros (Hr & Wr & _) (Hr' & Wr' & _) H. unfold same_cell, same_cf in *. apply bytes_eqb_eq in H. apply bytes_eqb_eq.
  unfold cell_prefix, cf_prefix in *. rewrite <- !app_assoc in H. cbn [app] in H.
  assert (E : bytes_cmp (k_row x ++ 0 :: k_family x :: k_qual x ++ [0]) (k_row k ++ 0 :: k_family k :: k_qual k ++ [0]) = Eq)
    by (rewrite H; apply bytes_cmp_refl).
  rewrite bytes_cmp_cstr in E by assumption. destruct (bytes_cmp (k_row x) (k_row k)) eqn:Er; try discriminate.
  apply bytes_cmp_eq in Er. rewrite Er in *. apply app_inv_head in H. injection H as Hf _. now rewrite Hf.
Qed.

Lemma survives_filter b P k : closed b -> Forall wf_comps P -> wf_comps k -> is_delete k = false -> b k = true ->
  survives (filter b P) k = survives P k.
Proof.
  intros [Cr Cc] HP Wk Hd Hb. rewrite Forall_forall in HP. unfold survives.
  rewrite !newest_filter; [reflexivity| | |]; intros x Hx Hf Hs.
  - apply (Cr k x); auto.
  - apply (Cc k x); auto. rewrite Hf. discriminate.
  - apply (Cc k x); auto using same_cell_cf. rewrite Hf. discriminate.
Qed.

Lemma filter_swap {A} (f g : A -> bool) l : filter f (filter g l) = filter g (filter f l).
Proof.
  induction l as [|x l IH]; [reflexivity|]. cbn [filter]. destruct (g x) eqn:Eg, (f x) eqn:Ef; cbn [filter]; rewrite ?Eg, ?Ef, ?IH; reflexivity.
Qed.

Lemma visible_filter p b P k : closed b -> Forall wf_comps P -> wf_comps k -> b k = true ->
  visible p (filter b P) k = visible p P k.
Proof.
  intros Hc HP Wk Hb. unfold visible. destruct (is_delete k) eqn:Ed; [reflexivity|]. cbn [negb andb]. f_equal.
  rewrite filter_swap. apply survives_filter; auto. rewrite Forall_forall in *. intros x Hx. apply filter_In in Hx as [Hx _]. auto.
Qed.

Lemma visible_insert p P k : visible p P k = true -> is_delete k = false.
Proof. unfold visible. destruct (is_delete k); [discriminate|reflexivity]. Qed.

Lemma insert_no_row_delete k : is_delete k = false -> k_flag k <> FLAG_DELETE_ROW.
Proof. unfold is_delete. intros H E. rewrite E in H. discriminate. Qed.

(** Selecting in a restricted sequence. *)
Lemma select_filter p b (bc : cell -> bool) l : closed b -> m_row_limit p = 0 ->
  (forall c k, In c l -> wf_comps k -> fst c = pack k -> bc c = b k) -> Forall good_cell l ->
  forall P V, Forall wf_comps P -> Forall wf_comps V -> Forall (fun x => is_delete x = false) V ->
  select p (filter b P) (filter b V) (filter bc l) = filter bc (select p P V l).
Proof.
  intros Hc Hr Hbc Hg. induction Hg as [|c l Hg1 Hg IH]; intros P V HP HV HD; [reflexivity|].
  destruct (good_cell_parse c Hg1) as (k & Wk & Ek & Hk). cbn [filter select]. rewrite Hk.
  rewrite (Hbc c k (or_introl eq_refl) Wk Ek).
  assert (IH' : forall P V, Forall wf_comps P -> Forall wf_comps V -> Forall (fun x => is_delete x = false) V ->
    select p (filter b P) (filter b V) (filter bc l) = filter bc (select p P V l)).
  { apply IH. intros x kx Hx. apply Hbc. now right. }
  assert (HP' : Forall wf_comps (P ++ [k])) by (apply Forall_app; auto).
  assert (Ein : forall V, in_rows p V = true) by (intros; unfold in_rows; now rewrite Hr). rewrite Ein. cbn [andb].
  destruct (b k) eqn:Eb.
  - cbn [select]. rewrite Hk, (visible_filter p b P k Hc HP Wk Eb).
    replace (filter b P ++ [k]) with (filter b (P ++ [k])) by (rewrite filter_app; cbn [filter]; now rewrite Eb).
    destruct (visible p P k) eqn:Ev; [|now apply IH'].
    assert (Ed := visible_insert _ _ _ Ev). rewrite Ein. cbn [andb].
    replace (k :: filter b V) with (filter b (k :: V)) by (cbn [filter]; now rewrite Eb).
    assert (Ec : filter (same_cell k) (filter b (k :: V)) = filter (same_cell k) (k :: V)).
    { rewrite filter_swap. apply forallb_filter_id, forallb_forall. intros x Hx. apply filter_In in Hx as [Hx Hs].
      rewrite Forall_forall in HV, HD. assert (Wx : wf_comps x) by (destruct Hx as [<-|Hx]; auto).
      assert (Dx : is_delete x = false) by (destruct Hx as [<-|Hx]; auto).
      apply (cl_cf b Hc k x); auto using same_cell_cf, insert_no_row_delete. }
    unfold in_versions. rewrite Ec, IH' by auto. destruct (_ || _); [|reflexivity]. cbn [filter].
    now rewrite (Hbc c k (or_introl eq_refl) Wk Ek), Eb.
  - assert (Es : forall V', filter b (P ++ [k]) = filter b P /\ filter b (k :: V') = filter b V').
    { intros V'. rewrite filter_app. cbn [filter]. rewrite Eb. now rewrite app_nil_r. }
    destruct (Es V) as [E1 E2]. destruct (visible p P k) eqn:Ev.
    + assert (Ed := visible_insert _ _ _ Ev). rewrite <- E1, <- E2, IH' by auto. destruct (in_versions p k (k :: V)); [|reflexivity].
      cbn [filter]. now rewrite (Hbc c k (or_introl eq_refl) Wk Ek), Eb.
    + rewrite <- E1, IH' by auto. reflexivity.
Qed.

(** ** A selection first *)

Definition count_cell (k : KeyComps) (V : list KeyComps) : Z := zlen (filter (same_cell k) V).

Lemma count_cell_cons k x V : count_cell k (x :: V) = (if same_cell k x then 1 else 0) + count_cell k V.
Proof. unfold count_cell. cbn [filter]. destruct (same_cell k x); rewrite ?zlen_cons; lia. Qed.

Lemma count_pos k V : 0 < count_cell k V -> exists x, In x V /\ same_cell k x = true.
Proof.
  unfold count_cell. destruct (filter (same_cell k) V) as [|x l] eqn:E; [cbn; lia|]. intros _. exists x.
  apply filter_In. rewrite E. now left.
Qed.

Lemma same_cell_row k x : wf_comps k -> wf_comps x -> same_cell k x = true -> k_row x = k_row k /\ k_family x = k_family k.
Proof.
  intros Wk Wx H. apply same_cell_cf in H; [|assumption..]. unfold same_cf, cf_prefix in H. apply bytes_eqb_eq in H.
  change (k_row x ++ [0; k_family x]) with (k_row x ++ [0] ++ [k_family x]) in H.
  change (k_row k ++ [0; k_family k]) with (k_row k ++ [0] ++ [k_family k]) in H. rewrite !app_assoc in H.
  apply app_inj_tail in H as [H ->]. now apply app_inj_tail in H as [-> _].
Qed.

(** [q] has no row limit and no fewer versions than [p]. *)
Record narrower (p q : scan_params) : Prop := {
  na_rows : m_row_limit q = 0;
  na_versions f : max_versions (family_info q f) = 0 \/
    1 <= max_versions (family_info p f) <= max_versions (family_info q f) }.

Definition within (p : scan_params) (k : KeyComps) : Prop := m_start_timestamp p <= k_ts k < m_end_timestamp p.

(** [V'] is what [q] lets through of the visible cells [V]. *)
Record thinned (q : scan_params) (V V' : list KeyComps) : Prop := {
  th_wf : Forall wf_comps V /\ Forall wf_comps V';
  th_rows r : In r (map k_row V') <-> In r (map k_row V);
  th_count k : wf_comps k -> let n := max_versions (family_info q (k_family k)) in
    count_cell k V' = if n =? 0 then count_cell k V else Z.min (count_cell k V) n }.

Lemma rows_length V V' : (forall r, In r (map k_row V') <-> In r (map k_row V)) -> zlen (rows V') = zlen (rows V).
Proof.
  intros H. unfold rows, zlen. f_equal. apply Permutation_length, NoDup_Permutation; try apply NoDup_nodup.
  intros r. rewrite !nodup_In. apply H.
Qed.

Lemma thinned_take q V V' k : thinned q V V' -> wf_comps k ->
  in_versions q k (k :: V) = true -> thinned q (k :: V) (k :: V').
Proof.
  intros [[W W'] Hr Hc] Wk Hv. split; [auto| |].
  - intros r. cbn [map In]. now rewrite Hr.
  - intros x Wx. cbn zeta. specialize (Hc x Wx). cbn zeta in Hc. rewrite !count_cell_cons, Hc.
    destruct (Z.eqb_spec (max_versions (family_info q (k_family x))) 0) as [E0|E0]; [reflexivity|].
    destruct (same_cell x k) eqn:Es; [|lia]. destruct (same_cell_row x k Wx Wk Es) as [_ Ef].
    unfold in_versions in Hv. rewrite Ef, (proj2 (Z.eqb_neq _ _) E0) in Hv. cbn [orb] in Hv. apply Z.leb_le in Hv.
    change (count_cell k (k :: V) <= max_versions (family_info q (k_family x))) in Hv. rewrite count_cell_cons, same_cell_refl in Hv.
    assert (Eq : count_cell k V = count_cell x V).
    { unfold count_cell. f_equal. apply filter_ext_in. intros y Hy. unfold same_cell in *. apply bytes_eqb_eq in Es. now rewrite Es. }
    lia.
Qed.

Lemma thinned_skip q V V' k : thinned q V V' -> wf_comps k -> 0 <= max_versions (family_info q (k_family k)) ->
  in_versions q k (k :: V) = false -> thinned q (k :: V) V'.
Proof.
  intros [[W W'] Hr Hc] Wk Hn Hv. unfold in_versions in Hv. apply orb_false_iff in Hv as [E0 Hv]. apply Z.eqb_neq in E0.
  apply Z.leb_gt in Hv. change (max_versions (family_info q (k_family k)) < count_cell k (k :: V)) in Hv.
  rewrite count_cell_cons, same_cell_refl in Hv. split; [auto| |].
  - intros r. cbn [map In]. rewrite Hr. split; [auto|]. intros [<-|H]; [|assumption].
    destruct (count_pos k V) as (x & Hx & Hs); [lia|]. rewrite Forall_forall in W.
    destruct (same_cell_row k x Wk (W x Hx) Hs) as [<- _]. now apply in_map.
  - intros x Wx. cbn zeta. specialize (Hc x Wx). cbn zeta in Hc. rewrite count_cell_cons, Hc.
    destruct (same_cell x k) eqn:Es; [|destruct (_ =? 0); reflexivity].
    destruct (same_cell_row x k Wx Wk Es) as [_ Ef]. rewrite <- Ef. rewrite (proj2 (Z.eqb_neq _ _) E0).
    assert (Eq : count_cell k V = count_cell x V).
    { unfold count_cell. f_equal. apply filter_ext_in. intros y Hy. unfold same_cell in *. apply bytes_eqb_eq in Es. now rewrite Es. }
    lia.
Qed.

Lemma thinned_versions p q V V' k : narrower p q -> thinned q V V' -> wf_comps k -> in_versions q k (k :: V) = true ->
  in_versions p k (k :: V') = in_versions p k (k :: V).
Proof.
  intros [_ Hv] [_ _ Hc] Wk Hin. unfold in_versions in *. specialize (Hc k Wk). cbn zeta in Hc.
  change (zlen (filter (same_cell k) (k :: V'))) with (count_cell k (k :: V')).
  change (zlen (filter (same_cell k) (k :: V))) with (count_cell k (k :: V)) in *. rewrite !count_cell_cons, same_cell_refl in *. rewrite Hc.
  destruct (max_versions (family_info q (k_family k)) =? 0); [reflexivity|]. cbn [orb] in Hin. apply Z.leb_le in Hin.
  now rewrite Z.min_l by lia.
Qed.

(** Nothing hides an insert when there are no delete records. *)
Lemma newest_none f s P : Forall (fun x => is_delete x = false) P ->
  In f [FLAG_DELETE_ROW; FLAG_DELETE_COLUMN_FAMILY; FLAG_DELETE_CELL] -> newest f s P = None.
Proof.
  intros H Hf. induction P as [|x P IH] using rev_ind; [reflexivity|]. apply Forall_app in H as [H Hx]. apply Forall_inv in Hx.
  rewrite newest_snoc, IH by assumption. replace (k_flag x =? f) with false; [reflexivity|]. symmetry. apply Z.eqb_neq.
  intros E. unfold is_delete in Hx. rewrite E in Hx. destruct Hf as [<-|[<-|[<-|[]]]]; discriminate.
Qed.

Lemma visible_alone p P k : Forall (fun x => is_delete x = false) P -> is_delete k = false -> within p k -> visible p P k = true.
Proof.
  intros HP Hd [H1 H2]. unfold visible, since, survives. rewrite Hd, (proj2 (Z.leb_le _ _) H1), (proj2 (Z.ltb_lt _ _) H2). cbn [negb andb].
  assert (HF : Forall (fun x => is_delete x = false) (filter (fun k => m_start_timestamp p <=? k_ts k) P)).
  { rewrite Forall_forall in *. intros x Hx. apply filter_In in Hx as [Hx _]. auto. }
  now rewrite !newest_none by (exact HF || (cbn; tauto)).
Qed.

Lemma filter_all {A} (f : A -> bool) l : (forall x, In x l -> f x = true) -> filter f l = l.
Proof. intros H. apply forallb_filter_id, forallb_forall. exact H. Qed.

Lemma visible_within p q P k : Forall (within p) P -> Forall (within q) P -> within p k -> within q k -> visible p P k = visible q P k.
Proof.
  intros Hp Hq [P1 P2] [Q1 Q2]. unfold visible, since. rewrite Forall_forall in *.
  rewrite !filter_all by (intros x Hx; apply Z.leb_le; now (apply Hp || apply Hq)).
  rewrite (proj2 (Z.leb_le _ _) P1), (proj2 (Z.leb_le _ _) Q1), (proj2 (Z.ltb_lt _ _) P2), (proj2 (Z.ltb_lt _ _) Q2). reflexivity.
Qed.

(** Selecting with [q] first changes nothing for [p]. *)
Lemma select_again p q l : narrower p q -> (forall f, 0 <= max_versions (family_info q f)) -> Forall good_cell l ->
  (forall c k, In c l -> wf_comps k -> fst c = pack k -> within p k /\ within q k) ->
  forall P V P' V', Forall (within p) P -> Forall (within q) P -> thinned q V V' ->
  Forall (fun x => is_delete x = false) P' ->
  select p P' V' (select q P V l) = select p P V l.
Proof.
  intros Hn H0 Hg. induction Hg as [|c l Hg1 Hg IH]; intros Hw P V P' V' Pp Pq HT HD; [reflexivity|].
  destruct (good_cell_parse c Hg1) as (k & Wk & Ek & Hk). destruct (Hw c k (or_introl eq_refl) Wk Ek) as [Kp Kq].
  assert (IH' := IH (fun c k Hc => Hw c k (or_intror Hc))). clear IH.
  assert (Pp' : Forall (within p) (P ++ [k])) by (apply Forall_app; auto).
  assert (Pq' : Forall (within q) (P ++ [k])) by (apply Forall_app; auto).
  cbn [select]. rewrite Hk, (visible_within p q P k) by assumption. destruct (visible q P k) eqn:Ev; [|now apply IH'].
  assert (Ed := visible_insert _ _ _ Ev). assert (Ein : in_rows q (k :: V) = true) by (unfold in_rows; now rewrite (na_rows _ _ Hn)).
  rewrite Ein. cbn [andb]. destruct (in_versions q k (k :: V)) eqn:Eq.
  - cbn [select]. rewrite Hk, (visible_alone p P' k HD Ed Kp), (thinned_versions p q V V' k) by assumption.
    pose proof (thinned_take q V V' k HT Wk Eq) as HT'.
    replace (in_rows p (k :: V')) with (in_rows p (k :: V)) by (unfold in_rows; now rewrite (rows_length _ _ (th_rows _ _ _ HT'))).
    assert (HD' : Forall (fun x => is_delete x = false) (P' ++ [k])) by (apply Forall_app; auto).
    destruct (_ && _); rewrite IH' by auto; reflexivity.
  - pose proof (thinned_skip q V V' k HT Wk (H0 _) Eq) as HT'. rewrite IH' by auto.
    replace (in_versions p k (k :: V)) with false; [now rewrite andb_false_r|]. symmetry. unfold in_versions in *.
    apply orb_false_iff in Eq as [E1 E2]. apply Z.eqb_neq in E1. apply Z.leb_gt in E2.
    destruct (na_versions _ _ Hn (k_family k)) as [E|E]; [contradiction|]. apply orb_false_iff.
    split; [apply Z.eqb_neq; lia|apply Z.leb_gt; lia].
Qed.

Lemma select_twice p q l : narrower p q -> (forall f, 0 <= max_versions (family_info q f)) -> Forall good_cell l ->
  (forall c k, In c l -> wf_comps k -> fst c = pack k -> within p k /\ within q k) ->
  select p [] [] (select q [] [] l) = select p [] [] l.
Proof.
  intros Hn H0 Hg Hw. apply (select_again p q l Hn H0 Hg Hw); try constructor.
  - split; constructor.
  - reflexivity.
  - intros k Wk n. unfold count_cell. cbn [filter]. change (zlen []) with 0. destruct (n =? 0); [reflexivity|]. specialize (H0 (k_family k)). fold n in H0. lia.
Qed.

(** What is selected. *)
Lemma select_In p l c : forall P V, Forall good_cell l -> In c (select p P V l) ->
  In c l /\ exists k, wf_comps k /\ fst c = pack k /\ is_delete k = false /\ within p k.
Proof.
  induction l as [|x l IH]; intros P V Hg Hin; [destruct Hin|]. cbn [select] in Hin.
  destruct (good_cell_parse x (Forall_inv Hg)) as (k & Wk & Ek & Hk). rewrite Hk in Hin. apply Forall_inv_tail in Hg.
  assert (IH' : forall P V, In c (select p P V l) -> In c (x :: l) /\ exists k, wf_comps k /\ fst c = pack k /\ is_delete k = false /\ within p k).
  { intros P' V' H. destruct (IH P' V' Hg H) as [H1 H2]. split; [now right|assumption]. }
  destruct (visible p P k) eqn:Ev; [|eauto]. destruct (_ && _); [|eauto]. destruct Hin as [<-|Hin]; [|eauto].
  split; [now left|]. exists k. assert (Ed := visible_insert _ _ _ Ev). unfold visible, since in Ev. bool_to_prop. unfold within. auto.
Qed.

(** ** Sorted sequences *)

Lemma sorted_unique l : forall l', StronglySorted cell_le l -> StronglySorted cell_le l' -> Permutation l l' -> NoDup (map fst l) -> l = l'.
Proof.
  induction l as [|c l IH]; intros l' Hs Hs' Hp Hn; [now apply Permutation_nil in Hp|].
  destruct l' as [|c' l']; [now apply Permutation_sym, Permutation_nil in Hp|].
  assert (E : c = c').
  { assert (H1 : In c (c' :: l')) by (apply (Permutation_in _ Hp); now left).
    assert (H2 : In c' (c :: l)) by (apply (Permutation_in _ (Permutation_sym Hp)); now left).
    destruct H1 as [|H1]; [congruence|]. destruct H2 as [|H2]; [assumption|]. inv Hs. inv Hs'. inv Hn.
    rewrite Forall_forall in *. specialize (H4 c' H2). specialize (H6 c H1). unfold cell_le in *.
    assert (Ek : fst c = fst c').
    { rewrite bytes_cmp_antisym in H6. destruct (bytes_cmp (fst c) (fst c')) eqn:E; [now apply bytes_cmp_eq|cbn in H6; congruence|congruence]. }
    exfalso. apply H7. rewrite Ek. now apply in_map. }
  subst c'. f_equal. apply Permutation_cons_inv in Hp. inv Hs. inv Hs'. inv Hn. now apply IH.
Qed.

Lemma select_sorted p R l : Forall good_cell l -> StronglySorted R l -> forall P V, StronglySorted R (select p P V l).
Proof.
  intros Hg Hs. induction Hs as [|c l Hl IH Hc]; intros P V; [constructor|]. cbn [select].
  destruct (good_cell_parse c (Forall_inv Hg)) as (k & Wk & Ek & ->). specialize (IH (Forall_inv_tail Hg)).
  destruct (visible p P k); [|apply IH]. destruct (_ && _); [|apply IH]. constructor; [apply IH|].
  apply Forall_forall. intros x Hx. rewrite Forall_forall in Hc. apply Hc. exact (proj1 (select_In p l x _ _ (Forall_inv_tail Hg) Hx)).
Qed.

(** ** Delete records that occur more than once *)

Lemma newest_spec f s P :
  match newest f s P with
  | None => forall x, In x P -> k_flag x = f -> s x = true -> False
  | Some t => (exists x, In x P /\ k_flag x = f /\ s x = true /\ k_ts x = t) /\
      forall x, In x P -> k_flag x = f -> s x = true -> k_ts x <= t
  end.
Proof.
  induction P as [|y P IH] using rev_ind; [intros x []|]. rewrite newest_snoc. destruct ((k_flag y =? f) && s y) eqn:E.
  - apply andb_true_iff in E as [Ef Es]. apply Z.eqb_eq in Ef. destruct (newest f s P) as [t|].
    + destruct IH as [(x & Hx & Fx & Sx & Tx) Hm]. split.
      * destruct (Z.max_spec t (k_ts y)) as [[_ ->]|[_ ->]]; [exists y|exists x]; rewrite in_app_iff; cbn [In]; auto.
      * intros z Hz Fz Sz. apply in_app_iff in Hz as [Hz|[<-|[]]]; [specialize (Hm z Hz Fz Sz)|]; lia.
    + split; [exists y; rewrite in_app_iff; cbn [In]; auto|]. intros z Hz Fz Sz.
      apply in_app_iff in Hz as [Hz|[<-|[]]]; [destruct (IH z Hz Fz Sz)|lia].
  - assert (Hy : forall x, In x (P ++ [y]) -> k_flag x = f -> s x = true -> In x P).
    { intros x Hx Fx Sx. apply in_app_iff in Hx as [Hx|[<-|[]]]; [assumption|]. rewrite Fx, Sx, Z.eqb_refl in E. discriminate. }
    destruct (newest f s P) as [t|]; [|eauto]. destruct IH as [(x & Hx & Fx & Sx & Tx) Hm]. split; [|eauto].
    exists x. rewrite in_app_iff. auto.
Qed.

Lemma newest_same f s P P' : (forall x, k_flag x = f -> (In x P <-> In x P')) -> newest f s P = newest f s P'.
Proof.
  intros H. pose proof (newest_spec f s P) as H1. pose proof (newest_spec f s P') as H2.
  destruct (newest f s P) as [t|], (newest f s P') as [t'|]; auto.
  - destruct H1 as [(x & Hx & Fx & Sx & Tx) Hm], H2 as [(x' & Hx' & Fx' & Sx' & Tx') Hm'].
    specialize (Hm x' (proj2 (H x' Fx') Hx') Fx' Sx'). specialize (Hm' x (proj1 (H x Fx) Hx) Fx Sx). f_equal. lia.
  - destruct H1 as [(x & Hx & Fx & Sx & Tx) _]. destruct (H2 x (proj1 (H x Fx) Hx) Fx Sx).
  - destruct H2 as [(x & Hx & Fx & Sx & Tx) _]. destruct (H1 x (proj2 (H x Fx) Hx) Fx Sx).
Qed.

Lemma visible_same p P P' k : (forall x, is_delete x = true -> (In x P <-> In x P')) -> visible p P k = visible p P' k.
Proof.
  intros H. unfold visible. f_equal. unfold survives.
  assert (G : forall f s, f = FLAG_DELETE_CELL \/ f = FLAG_DELETE_COLUMN_FAMILY \/ f = FLAG_DELETE_ROW ->
    newest f s (filter (since p) P) = newest f s (filter (since p) P')).
  { intros f s Hf. apply newest_same. intros x Fx. rewrite !filter_In, H; [reflexivity|].
    unfold is_delete. rewrite Fx. destruct Hf as [-> |[-> | ->]]; reflexivity. }
  rewrite !G by auto. reflexivity.
Qed.

Definition keys_of (l : list cell) : list KeyComps :=
  flat_map (fun c => match parse_key (fst c) with Some k => [k] | None => [] end) l.
Definition insert_cell (c : cell) : bool := match parse_key (fst c) with Some k => negb (is_delete k) | None => false end.

Lemma keys_of_In k l : Forall good_cell l -> In k (keys_of l) <-> wf_comps k /\ In (pack k) (map fst l).
Proof.
  intros Hg. unfold keys_of. rewrite in_flat_map, in_map_iff. rewrite Forall_forall in Hg. split.
  - intros (c & Hc & Hk). destruct (good_cell_parse c (Hg c Hc)) as (k' & Wk & Ek & Hp). rewrite Hp in Hk. destruct Hk as [<-|[]]. eauto.
  - intros (Wk & c & Ek & Hc). exists c. rewrite Ek, parse_pack by assumption. split; [assumption|now left].
Qed.

(** The selection by what is visible. *)
Fixpoint select_by (vis : KeyComps -> bool) (p : scan_params) (V : list KeyComps) (l : list cell) : list cell :=
  match l with
  | [] => []
  | c :: l' =>
      match parse_key (fst c) with
      | None => select_by vis p V l'
      | Some k =>
          if vis k then
            if in_rows p (k :: V) && in_versions p k (k :: V) then c :: select_by vis p (k :: V) l' else select_by vis p (k :: V) l'
          else select_by vis p V l'
      end
  end.

Lemma select_select_by vis p l : Forall good_cell l -> forall P V,
  (forall before c after k, l = before ++ c :: after -> parse_key (fst c) = Some k -> is_delete k = false ->
     vis k = visible p (P ++ keys_of before) k) ->
  select p P V l = select_by vis p V (filter insert_cell l).
Proof.
  induction 1 as [|c l Hg1 Hg IH]; intros P V Hv; [reflexivity|]. destruct (good_cell_parse c Hg1) as (k & Wk & Ek & Hk).
  assert (IH' : forall V, select p (P ++ [k]) V l = select_by vis p V (filter insert_cell l)).
  { intros V'. apply IH. intros before d after kd El Hd Dd. rewrite (Hv (c :: before) d after kd) by (rewrite ?El; auto).
    unfold keys_of. cbn [flat_map]. rewrite Hk. cbn [app]. now rewrite <- app_assoc. }
  cbn [select filter]. rewrite Hk. unfold insert_cell at 1. rewrite Hk. destruct (is_delete k) eqn:Ed; cbn [negb].
  - replace (visible p P k) with false by (unfold visible; now rewrite Ed). apply IH'.
  - cbn [select_by]. rewrite Hk, (Hv [] c l k) by auto. cbn [keys_of flat_map]. rewrite app_nil_r.
    destruct (visible p P k); rewrite !IH'; reflexivity.
Qed.

(** The delete records in front of a key. *)
Definition deletes_before (l : list cell) (k : KeyComps) : list KeyComps :=
  filter (fun x => bytes_ltb (pack x) (pack k)) (keys_of l).

Lemma select_sets p l : Forall good_cell l -> StronglySorted cell_le l ->
  select p [] [] l = select_by (fun k => visible p (deletes_before l k) k) p [] (filter insert_cell l).
Proof.
  intros Hg Hs. apply select_select_by; [assumption|]. intros before c after k El Hk Dk. cbn [app]. apply visible_same. intros x Dx.
  assert (Hc : exists k', wf_comps k' /\ fst c = pack k' /\ parse_key (fst c) = Some k').
  { apply good_cell_parse. rewrite Forall_forall in Hg. apply Hg. rewrite El. apply in_or_app. right. now left. }
  destruct Hc as (k' & Wk & Ek & Hk'). rewrite Hk in Hk'. injection Hk' as <-.
  assert (Hne : wf_comps x -> pack x <> pack k).
  { intros Wx E. apply (f_equal parse_key) in E. rewrite !parse_pack in E by assumption. injection E as ->. congruence. }
  unfold deletes_before. rewrite filter_In. subst l. apply Forall_app in Hg as [Hgb Hga]. unfold keys_of in *. rewrite flat_map_app, in_app_iff.
  fold (keys_of before). fold (keys_of (c :: after)). unfold bytes_ltb. split.
  - intros [[Hx|Hx] Hlt]; [assumption|]. exfalso. apply keys_of_In in Hx as [Wx Hx]; [|assumption]. cbn [map In] in Hx.
    destruct Hx as [Hx|Hx]; [rewrite <- Hx, Ek, bytes_cmp_refl in Hlt; discriminate|].
    apply in_map_iff in Hx as (d & Ed & Hd). assert (Hle : cell_le c d).
    { clear -Hs Hd. induction before as [|b before IH]; inv Hs; [|auto]. rewrite Forall_forall in H2. auto. }
    unfold cell_le in Hle. rewrite Ek, Ed, bytes_cmp_antisym in Hle. destruct (bytes_cmp (pack x) (pack k)); cbn in Hle; congruence.
  - intros Hx. split; [auto|]. pose proof Hx as Hx'. apply keys_of_In in Hx' as [Wx Hx']; [|assumption].
    apply in_map_iff in Hx' as (d & Ed & Hd). assert (Hle : cell_le d c).
    { clear -Hs Hd. induction before as [|b before IH]; [destruct Hd|]. inv Hs. destruct Hd as [<-|Hd]; [|auto].
      rewrite Forall_forall in H2. apply H2, in_or_app. right. now left. }
    unfold cell_le in Hle. rewrite Ek, Ed in Hle. destruct (bytes_cmp (pack x) (pack k)) eqn:Ec; [|reflexivity|congruence].
    apply bytes_cmp_eq in Ec. destruct (Hne Wx Ec).
Qed.

Lemma select_by_ext vis vis' p l : (forall k, vis k = vis' k) -> forall V, select_by vis p V l = select_by vis' p V l.
Proof.
  intros H. induction l as [|c l IH]; intros V; [reflexivity|]. cbn [select_by]. destruct (parse_key (fst c)) as [k|]; [|auto].
  rewrite <- H. now rewrite !IH.
Qed.

(** The selection depends on the inserts and on which delete records there are. *)
Lemma select_same p l l' : Forall good_cell l -> StronglySorted cell_le l -> Forall good_cell l' -> StronglySorted cell_le l' ->
  filter insert_cell l = filter insert_cell l' ->
  (forall k, wf_comps k -> is_delete k = true -> (In (pack k) (map fst l) <-> In (pack k) (map fst l'))) ->
  select p [] [] l = select p [] [] l'.
Proof.
  intros Hg Hs Hg' Hs' Hi Hd. rewrite !select_sets, Hi by assumption. apply select_by_ext. intros k. apply visible_same.
  intros x Dx. unfold deletes_before. rewrite !filter_In, !keys_of_In by assumption. split; intros [[Wx Hx] Hlt]; (split; [split; [assumption|now apply (Hd x Wx Dx)]|assumption]).
Qed.
