(* ===== verification/Schema.v ===== *)
(** * Table schemas

    [Hypertable/Lib/Schema.cc] and [Schema.h]: the schema object that the XML
    parser's callbacks fill, the operations of the HQL parser, the assignment of
    column family identifiers, and the two renderings.

    Access groups and column families are objects behind pointers that several
    containers share (the map by name, the map by id, the list of groups, a
    group's columns), so the state has a store for each kind of object and the
    containers hold addresses.  A null pointer in [m_column_family_map] is
    [None]. *)
Set Warnings "-notation-incompatible-prefix,-clear-no-such-hyp".
From S2P Require Import Prelude Errors.
From stdpp Require Import base gmap strings list pretty.
From Stdlib Require Import ZArith Lia Ascii.
Open Scope Z_scope.
Open Scope result_scope.

Record ColumnFamily := {
  cf_name : string; cf_ag : string; cf_id : Z; cf_max_versions : Z; cf_ttl : Z }.

Record AccessGroup := {
  ag_name : string; ag_in_memory : bool; ag_blocksize : Z; ag_compressor : string;
  ag_columns : list nat }.

Record Schema := {
  m_error_string : string;
  m_access_group_map : gmap string nat;
  m_column_family_map : gmap string (option nat);
  m_column_family_id_map : gmap Z (option nat);
  m_generation : Z;
  m_access_groups : list nat;
  m_open_access_group : option nat;
  m_open_column_family : option nat;
  m_read_ids : bool;
  m_output_ids : bool;
  m_max_column_family_id : Z;
  m_compressor : string;
  ags : gmap nat AccessGroup;
  cfs : gmap nat ColumnFamily;
  next_ptr : nat }.

Definition new_schema (read_ids : bool) : Schema :=
  {| m_error_string := ""; m_access_group_map := ∅; m_column_family_map := ∅;
     m_column_family_id_map := ∅; m_generation := 1; m_access_groups := [];
     m_open_access_group := None; m_open_column_family := None; m_read_ids := read_ids;
     m_output_ids := false; m_max_column_family_id := 0; m_compressor := "";
     ags := ∅; cfs := ∅; next_ptr := 0 |}.

(** ** C library functions used on attribute values *)

Definition lower_ascii (c : Ascii.ascii) : Ascii.ascii :=
  let n := Ascii.N_of_ascii c in
  if ((65 <=? n) && (n <=? 90))%N then Ascii.ascii_of_N (n + 32) else c.
Fixpoint lower (s : string) : string :=
  match s with
  | EmptyString => EmptyString
  | String c s' => String (lower_ascii c) (lower s')
  end.
(** [!strcasecmp(a, b)] in the C locale. *)
Definition strcaseeq (a b : string) : bool := String.eqb (lower a) (lower b).

Definition is_space (c : Ascii.ascii) : bool :=
  let n := Ascii.N_of_ascii c in (n =? 32)%N || ((9 <=? n) && (n <=? 13))%N.
Definition digit (c : Ascii.ascii) : option Z :=
  let n := Z.of_N (Ascii.N_of_ascii c) in
  if (48 <=? n) && (n <=? 57) then Some (n - 48) else None.

Fixpoint digits (s : string) (acc : Z) : Z :=
  match s with
  | EmptyString => acc
  | String c s' => match digit c with Some d => digits s' (acc * 10 + d) | None => acc end
  end.
Fixpoint skip_space (s : string) : string :=
  match s with
  | EmptyString => EmptyString
  | String c s' => if is_space c then skip_space s' else s
  end.
Definition signed_digits (s : string) : Z :=
  match skip_space s with
  | String c s' =>
      if Ascii.eqb c "-"%char then - digits s' 0
      else if Ascii.eqb c "+"%char then digits s' 0 else digits (String c s') 0
  | EmptyString => 0
  end.
(** [strtoll(s, 0, 10)] saturates; [atoi] converts the result to [int]. *)
Definition strtoll (s : string) : Z := Z.max (- 2 ^ 63) (Z.min (2 ^ 63 - 1) (signed_digits s)).
Definition atoi (s : string) : Z := signed 32 (strtoll s).

Fixpoint drop_trailing_space (s : string) : string :=
  match s with
  | EmptyString => EmptyString
  | String c s' =>
      let r := drop_trailing_space s' in
      if is_space c && String.eqb r "" then EmptyString else String c r
  end.
(** [boost::trim]. *)
Definition trim (s : string) : string := drop_trailing_space (skip_space s).

(** ** State updates *)

(** [set_error_string] keeps the first message. *)
Definition set_error_string (errstr : string) (s : Schema) : Schema :=
  if String.eqb (m_error_string s) "" then
    {| m_error_string := errstr; m_access_group_map := m_access_group_map s;
       m_column_family_map := m_column_family_map s; m_column_family_id_map := m_column_family_id_map s;
       m_generation := m_generation s; m_access_groups := m_access_groups s;
       m_open_access_group := m_open_access_group s; m_open_column_family := m_open_column_family s;
       m_read_ids := m_read_ids s; m_output_ids := m_output_ids s;
       m_max_column_family_id := m_max_column_family_id s; m_compressor := m_compressor s;
       ags := ags s; cfs := cfs s; next_ptr := next_ptr s |}
  else s.

(** [m_error_string = errstr], as the operations of the HQL parser do it. *)
Definition assign_error_string (errstr : string) (s : Schema) : Schema :=
  {| m_error_string := errstr; m_access_group_map := m_access_group_map s;
     m_column_family_map := m_column_family_map s; m_column_family_id_map := m_column_family_id_map s;
     m_generation := m_generation s; m_access_groups := m_access_groups s;
     m_open_access_group := m_open_access_group s; m_open_column_family := m_open_column_family s;
     m_read_ids := m_read_ids s; m_output_ids := m_output_ids s;
     m_max_column_family_id := m_max_column_family_id s; m_compressor := m_compressor s;
     ags := ags s; cfs := cfs s; next_ptr := next_ptr s |}.

Definition is_valid (s : Schema) : bool := String.eqb (m_error_string s) "".

Definition upd_open (ag cf : option nat) (s : Schema) : Schema :=
  {| m_error_string := m_error_string s; m_access_group_map := m_access_group_map s;
     m_column_family_map := m_column_family_map s; m_column_family_id_map := m_column_family_id_map s;
     m_generation := m_generation s; m_access_groups := m_access_groups s;
     m_open_access_group := ag; m_open_column_family := cf;
     m_read_ids := m_read_ids s; m_output_ids := m_output_ids s;
     m_max_column_family_id := m_max_column_family_id s; m_compressor := m_compressor s;
     ags := ags s; cfs := cfs s; next_ptr := next_ptr s |}.

Definition upd_store (a : gmap nat AccessGroup) (c : gmap nat ColumnFamily) (n : nat) (s : Schema) : Schema :=
  {| m_error_string := m_error_string s; m_access_group_map := m_access_group_map s;
     m_column_family_map := m_column_family_map s; m_column_family_id_map := m_column_family_id_map s;
     m_generation := m_generation s; m_access_groups := m_access_groups s;
     m_open_access_group := m_open_access_group s; m_open_column_family := m_open_column_family s;
     m_read_ids := m_read_ids s; m_output_ids := m_output_ids s;
     m_max_column_family_id := m_max_column_family_id s; m_compressor := m_compressor s;
     ags := a; cfs := c; next_ptr := n |}.

Definition upd_groups (gm : gmap string nat) (gl : list nat) (s : Schema) : Schema :=
  {| m_error_string := m_error_string s; m_access_group_map := gm;
     m_column_family_map := m_column_family_map s; m_column_family_id_map := m_column_family_id_map s;
     m_generation := m_generation s; m_access_groups := gl;
     m_open_access_group := m_open_access_group s; m_open_column_family := m_open_column_family s;
     m_read_ids := m_read_ids s; m_output_ids := m_output_ids s;
     m_max_column_family_id := m_max_column_family_id s; m_compressor := m_compressor s;
     ags := ags s; cfs := cfs s; next_ptr := next_ptr s |}.

Definition upd_families (cm : gmap string (option nat)) (im : gmap Z (option nat)) (s : Schema) : Schema :=
  {| m_error_string := m_error_string s; m_access_group_map := m_access_group_map s;
     m_column_family_map := cm; m_column_family_id_map := im;
     m_generation := m_generation s; m_access_groups := m_access_groups s;
     m_open_access_group := m_open_access_group s; m_open_column_family := m_open_column_family s;
     m_read_ids := m_read_ids s; m_output_ids := m_output_ids s;
     m_max_column_family_id := m_max_column_family_id s; m_compressor := m_compressor s;
     ags := ags s; cfs := cfs s; next_ptr := next_ptr s |}.

Definition upd_ids (gen maxid : Z) (output : bool) (s : Schema) : Schema :=
  {| m_error_string := m_error_string s; m_access_group_map := m_access_group_map s;
     m_column_family_map := m_column_family_map s; m_column_family_id_map := m_column_family_id_map s;
     m_generation := gen; m_access_groups := m_access_groups s;
     m_open_access_group := m_open_access_group s; m_open_column_family := m_open_column_family s;
     m_read_ids := m_read_ids s; m_output_ids := output;
     m_max_column_family_id := maxid; m_compressor := m_compressor s;
     ags := ags s; cfs := cfs s; next_ptr := next_ptr s |}.

Definition set_compressor (c : string) (s : Schema) : Schema :=
  {| m_error_string := m_error_string s; m_access_group_map := m_access_group_map s;
     m_column_family_map := m_column_family_map s; m_column_family_id_map := m_column_family_id_map s;
     m_generation := m_generation s; m_access_groups := m_access_groups s;
     m_open_access_group := m_open_access_group s; m_open_column_family := m_open_column_family s;
     m_read_ids := m_read_ids s; m_output_ids := m_output_ids s;
     m_max_column_family_id := m_max_column_family_id s; m_compressor := c;
     ags := ags s; cfs := cfs s; next_ptr := next_ptr s |}.

Definition set_generation (generation : string) (s : Schema) : Schema :=
  let gen_num := atoi generation in
  let s := if gen_num <=? 0
           then set_error_string ("Invalid Table 'generation' value (" +:+ generation +:+ ")") s else s in
  upd_ids gen_num (m_max_column_family_id s) (m_output_ids s) s.

(** ** Access groups *)

Definition open_access_group (s : Schema) : Schema :=
  match m_open_access_group s with
  | Some _ => set_error_string "Nested AccessGroup elements not allowed" s
  | None =>
      let g := {| ag_name := ""; ag_in_memory := false; ag_blocksize := 0; ag_compressor := ""; ag_columns := [] |} in
      upd_open (Some (next_ptr s)) (m_open_column_family s)
        (upd_store (<[next_ptr s := g]> (ags s)) (cfs s) (S (next_ptr s)) s)
  end.

Definition close_access_group (s : Schema) : Schema :=
  match m_open_access_group s with
  | None => set_error_string "Unable to close locality group, not open" s
  | Some p =>
      let name := default "" (ag_name <$> ags s !! p) in
      let s :=
        if String.eqb name "" then set_error_string "Name attribute required for all AccessGroup elements" s
        else match m_access_group_map s !! name with
             | Some _ => set_error_string ("Multiply defined locality group  '" +:+ name +:+ "'") s
             | None => upd_groups (<[name := p]> (m_access_group_map s)) (m_access_groups s ++ [p]) s
             end in
      upd_open None (m_open_column_family s) s
  end.

Definition alter_ag (f : AccessGroup -> AccessGroup) (p : nat) (s : Schema) : Schema :=
  upd_store (alter f p (ags s)) (cfs s) (next_ptr s) s.

Definition set_access_group_parameter (param value : string) (s : Schema) : Schema :=
  let invalid := set_error_string ("Invalid value (" +:+ value +:+ ") for AccessGroup attribute '" +:+ param +:+ "'") in
  match m_open_access_group s with
  | None => set_error_string ("Unable to set AccessGroup attribute '" +:+ param +:+ "', locality group not open") s
  | Some p =>
      if strcaseeq param "name" then
        alter_ag (fun g => {| ag_name := value; ag_in_memory := ag_in_memory g; ag_blocksize := ag_blocksize g;
                              ag_compressor := ag_compressor g; ag_columns := ag_columns g |}) p s
      else if strcaseeq param "inMemory" then
        let set b := alter_ag (fun g => {| ag_name := ag_name g; ag_in_memory := b; ag_blocksize := ag_blocksize g;
                              ag_compressor := ag_compressor g; ag_columns := ag_columns g |}) p s in
        if strcaseeq value "true" || String.eqb value "1" then set true
        else if strcaseeq value "false" || String.eqb value "0" then set false
        else invalid s
      else if strcaseeq param "blksz" then
        let blocksize := strtoll value in
        if (blocksize =? 0) || (4294967296 <=? blocksize) then invalid s
        else alter_ag (fun g => {| ag_name := ag_name g; ag_in_memory := ag_in_memory g; ag_blocksize := u32 blocksize;
                              ag_compressor := ag_compressor g; ag_columns := ag_columns g |}) p s
      else if strcaseeq param "compressor" then
        alter_ag (fun g => {| ag_name := ag_name g; ag_in_memory := ag_in_memory g; ag_blocksize := ag_blocksize g;
                              ag_compressor := trim value; ag_columns := ag_columns g |}) p s
      else set_error_string ("Invalid AccessGroup attribute '" +:+ param +:+ "'") s
  end.

(** ** Column families *)

Definition open_column_family (s : Schema) : Schema :=
  match m_open_access_group s with
  | None => set_error_string "ColumnFamily defined outside of AccessGroup" s
  | Some p =>
      match m_open_column_family s with
      | Some _ => set_error_string "Nested ColumnFamily elements not allowed" s
      | None =>
          let cf := {| cf_name := ""; cf_ag := default "" (ag_name <$> ags s !! p);
                       cf_id := 0; cf_max_versions := 0; cf_ttl := 0 |} in
          upd_open (m_open_access_group s) (Some (next_ptr s))
            (upd_store (ags s) (<[next_ptr s := cf]> (cfs s)) (S (next_ptr s)) s)
      end
  end.

Definition push_column (c : nat) (g : AccessGroup) : AccessGroup :=
  {| ag_name := ag_name g; ag_in_memory := ag_in_memory g; ag_blocksize := ag_blocksize g;
     ag_compressor := ag_compressor g; ag_columns := ag_columns g ++ [c] |}.

Definition close_column_family (s : Schema) : Schema :=
  match m_open_access_group s with
  | None => set_error_string "ColumnFamily defined outside of AccessGroup" s
  | Some p =>
      match m_open_column_family s with
      | None => set_error_string "Unable to close column family, not open" s
      | Some c =>
          let name := default "" (cf_name <$> cfs s !! c) in
          let id := default 0 (cf_id <$> cfs s !! c) in
          if String.eqb name "" then set_error_string "ColumnFamily must have Name child element" s
          else if m_read_ids s && (id =? 0) then
            set_error_string ("No id specifid for ColumnFamily '" +:+ name +:+ "'") s
          else
            let s :=
              match m_column_family_map s !! name with
              | Some _ => set_error_string ("Multiply defined column families '" +:+ name +:+ "'") s
              | None =>
                  alter_ag (push_column c) p
                    (upd_families (<[name := Some c]> (m_column_family_map s))
                       (if m_read_ids s then <[id := Some c]> (m_column_family_id_map s) else m_column_family_id_map s) s)
              end in
            upd_open (m_open_access_group s) None s
      end
  end.

Definition alter_cf (f : ColumnFamily -> ColumnFamily) (c : nat) (s : Schema) : Schema :=
  upd_store (ags s) (alter f c (cfs s)) (next_ptr s) s.

Definition set_column_family_parameter (param value : string) (s : Schema) : Schema :=
  match m_open_column_family s with
  | None => set_error_string ("Unable to set ColumnFamily parameter '" +:+ param +:+ "', column family not open") s
  | Some c =>
      if strcaseeq param "Name" then
        alter_cf (fun f => {| cf_name := value; cf_ag := cf_ag f; cf_id := cf_id f;
                              cf_max_versions := cf_max_versions f; cf_ttl := cf_ttl f |}) c s
      else if strcaseeq param "ttl" then
        alter_cf (fun f => {| cf_name := cf_name f; cf_ag := cf_ag f; cf_id := cf_id f;
                              cf_max_versions := cf_max_versions f; cf_ttl := strtoll value |}) c s
      else if strcaseeq param "MaxVersions" then
        let n := u32 (atoi value) in
        let s := alter_cf (fun f => {| cf_name := cf_name f; cf_ag := cf_ag f; cf_id := cf_id f;
                              cf_max_versions := n; cf_ttl := cf_ttl f |}) c s in
        if n =? 0 then set_error_string ("Invalid value (" +:+ value +:+ ") for MaxVersions") s else s
      else if m_read_ids s && strcaseeq param "id" then
        let n := u32 (atoi value) in
        let s := alter_cf (fun f => {| cf_name := cf_name f; cf_ag := cf_ag f; cf_id := n;
                              cf_max_versions := cf_max_versions f; cf_ttl := cf_ttl f |}) c s in
        let s := if n =? 0
                 then set_error_string ("Invalid value (" +:+ value +:+ ") for ColumnFamily id attribute") s else s in
        if m_max_column_family_id s <? n then upd_ids (m_generation s) n (m_output_ids s) s else s
      else set_error_string ("Invalid ColumnFamily parameter '" +:+ param +:+ "'") s
  end.

(** [m_column_family_map[name]] inserts a null pointer when the name is new. *)
Definition get_column_family (name : string) (s : Schema) : option nat * Schema :=
  match m_column_family_map s !! name with
  | Some p => (p, s)
  | None => (None, upd_families (<[name := None]> (m_column_family_map s)) (m_column_family_id_map s) s)
  end.
Definition get_column_family_by_id (id : Z) (s : Schema) : option nat * Schema :=
  match m_column_family_id_map s !! id with
  | Some p => (p, s)
  | None => (None, upd_families (m_column_family_map s) (<[id := None]> (m_column_family_id_map s)) s)
  end.

(** [assign_ids]: the loops over the groups and their columns. *)
Definition set_id (id : Z) (f : ColumnFamily) : ColumnFamily :=
  {| cf_name := cf_name f; cf_ag := cf_ag f; cf_id := id; cf_max_versions := cf_max_versions f; cf_ttl := cf_ttl f |}.

Fixpoint assign_columns (cols : list nat) (maxid : Z) (c : gmap nat ColumnFamily) : Z * gmap nat ColumnFamily :=
  match cols with
  | [] => (maxid, c)
  | p :: cols => let maxid := maxid + 1 in assign_columns cols maxid (alter (set_id (u32 maxid)) p c)
  end.
Fixpoint assign_groups (groups : list nat) (a : gmap nat AccessGroup) (maxid : Z) (c : gmap nat ColumnFamily)
  : Z * gmap nat ColumnFamily :=
  match groups with
  | [] => (maxid, c)
  | g :: groups =>
      let '(maxid, c) := assign_columns (default [] (ag_columns <$> a !! g)) maxid c in
      assign_groups groups a maxid c
  end.
Definition assign_ids (s : Schema) : Schema :=
  let '(maxid, c) := assign_groups (m_access_groups s) (ags s) 0 (cfs s) in
  upd_ids 1 maxid true (upd_store (ags s) c (next_ptr s) s).

(** ** Operations of the HQL parser *)

(** [add_access_group(ag)] with an object the caller made. *)
Definition add_access_group (g : AccessGroup) (s : Schema) : Schema :=
  match m_access_group_map s !! ag_name g with
  | Some _ => assign_error_string ("Access group '" +:+ ag_name g +:+ "' multiply defined") s
  | None =>
      upd_groups (<[ag_name g := next_ptr s]> (m_access_group_map s)) (m_access_groups s ++ [next_ptr s])
        (upd_store (<[next_ptr s := g]> (ags s)) (cfs s) (S (next_ptr s)) s)
  end.

Definition add_column_family (f : ColumnFamily) (s : Schema) : Schema :=
  match m_column_family_map s !! cf_name f with
  | Some _ => assign_error_string ("Column family '" +:+ cf_name f +:+ "' multiply defined") s
  | None =>
      match m_access_group_map s !! cf_ag f with
      | None => assign_error_string ("Invalid access group '" +:+ cf_ag f +:+ "' for column family '" +:+ cf_name f +:+ "'") s
      | Some g =>
          let c := next_ptr s in
          let s := upd_store (ags s) (<[c := f]> (cfs s)) (S c) s in
          alter_ag (push_column c) g
            (upd_families (<[cf_name f := Some c]> (m_column_family_map s)) (m_column_family_id_map s) s)
      end
  end.

(** ** The callbacks of the XML parser *)

Inductive xml_event :=
| StartElement (name : string) (atts : list (string * string))
| EndElement (name : string)
| CharacterData (text : string).

(** The schema and [ms_collected_text]. *)
Record parse_state := { ms_schema : Schema; ms_collected_text : string }.

Definition schema_attribute (s : Schema) (a : string * string) : Schema :=
  let '(name, value) := a in
  if m_read_ids s && strcaseeq name "generation" then set_generation value s
  else if strcaseeq name "compressor" then set_compressor value s
  else set_error_string ("Unrecognized 'Schema' attribute : " +:+ name) s.

Definition text_element (name : string) : bool :=
  strcaseeq name "MaxVersions" || strcaseeq name "ttl" || strcaseeq name "Name".

Definition start_element_handler (name : string) (atts : list (string * string)) (st : parse_state) : parse_state :=
  let s := ms_schema st in
  let keep s := {| ms_schema := s; ms_collected_text := ms_collected_text st |} in
  if strcaseeq name "Schema" then keep (foldl schema_attribute s atts)
  else if strcaseeq name "AccessGroup" then
    keep (foldl (fun s a => set_access_group_parameter (fst a) (snd a) s) (open_access_group s) atts)
  else if strcaseeq name "ColumnFamily" then
    keep (foldl (fun s a => set_column_family_parameter (fst a) (snd a) s) (open_column_family s) atts)
  else if text_element name then {| ms_schema := s; ms_collected_text := "" |}
  else keep (set_error_string ("Unrecognized element - '" +:+ name +:+ "'") s).

Definition end_element_handler (name : string) (st : parse_state) : parse_state :=
  let s := ms_schema st in
  if strcaseeq name "AccessGroup" then {| ms_schema := close_access_group s; ms_collected_text := ms_collected_text st |}
  else if strcaseeq name "ColumnFamily" then
    {| ms_schema := close_column_family s; ms_collected_text := ms_collected_text st |}
  else if text_element name then
    let text := trim (ms_collected_text st) in
    {| ms_schema := set_column_family_parameter name text s; ms_collected_text := text |}
  else st.

(** [ms_collected_text.assign(s, len)]: the text is replaced, not extended. *)
Definition character_data_handler (text : string) (st : parse_state) : parse_state :=
  {| ms_schema := ms_schema st; ms_collected_text := text |}.

Definition handle (st : parse_state) (ev : xml_event) : parse_state :=
  match ev with
  | StartElement name atts => start_element_handler name atts st
  | EndElement name => end_element_handler name st
  | CharacterData text => character_data_handler text st
  end.

(** [new_instance]: the events expat delivers for the document, and its error
    message if it rejects the document. *)
Definition new_instance (events : list xml_event) (xml_error : option string) (text : string) (read_ids : bool) : Schema :=
  let st := foldl handle {| ms_schema := new_schema read_ids; ms_collected_text := text |} events in
  match xml_error with
  | Some msg => set_error_string msg (ms_schema st)
  | None => ms_schema st
  end.

(** ** Rendering *)

(** [operator+(string, uint32_t)] prints with [%d]. *)
Definition show_u32 (n : Z) : string := pretty (signed 32 n).

Definition quote : string := String "034" EmptyString.
Definition newline : string := String "010" EmptyString.

Definition render_family (output_ids : bool) (f : ColumnFamily) : string :=
  "    <ColumnFamily" +:+
  (if output_ids then " id=" +:+ quote +:+ show_u32 (cf_id f) +:+ quote else "") +:+ ">" +:+ newline +:+
  "      <Name>" +:+ cf_name f +:+ "</Name>" +:+ newline +:+
  (if cf_max_versions f =? 0 then ""
   else "      <MaxVersions>" +:+ show_u32 (cf_max_versions f) +:+ "</MaxVersions>" +:+ newline) +:+
  (if cf_ttl f =? 0 then "" else "      <ttl>" +:+ show_u32 (u32 (cf_ttl f)) +:+ "</ttl>" +:+ newline) +:+
  "    </ColumnFamily>" +:+ newline.

Definition concat_all (l : list string) : string := foldr String.append "" l.

Definition render_group (s : Schema) (g : AccessGroup) : string :=
  "  <AccessGroup name=" +:+ quote +:+ ag_name g +:+ quote +:+
  (if ag_in_memory g then " inMemory=" +:+ quote +:+ "true" +:+ quote else "") +:+
  (if 0 <? ag_blocksize g then " blksz=" +:+ quote +:+ show_u32 (ag_blocksize g) +:+ quote else "") +:+
  (if String.eqb (ag_compressor g) "" then "" else " compressor=" +:+ quote +:+ ag_compressor g +:+ quote) +:+
  ">" +:+ newline +:+
  concat_all (render_family (m_output_ids s) <$> omap (fun c => cfs s !! c) (ag_columns g)) +:+
  "  </AccessGroup>" +:+ newline.

Definition render (s : Schema) (output : string) : string :=
  if negb (is_valid s) then m_error_string s
  else
    output +:+ "<Schema" +:+
    (if m_output_ids s then " generation=" +:+ quote +:+ show_u32 (u32 (m_generation s)) +:+ quote else "") +:+
    (if String.eqb (m_compressor s) "" then "" else " compressor=" +:+ quote +:+ m_compressor s +:+ quote) +:+
    ">" +:+ newline +:+
    concat_all (render_group s <$> omap (fun g => ags s !! g) (m_access_groups s)) +:+
    "</Schema>" +:+ newline.

Definition is_alpha (c : Ascii.ascii) : bool :=
  let n := Ascii.N_of_ascii (lower_ascii c) in ((97 <=? n) && (n <=? 122))%N.
Definition is_alnum (c : Ascii.ascii) : bool := is_alpha c || match digit c with Some _ => true | None => false end.

Fixpoint all_alnum (s : string) : bool :=
  match s with EmptyString => true | String c s' => is_alnum c && all_alnum s' end.
Definition hql_needs_quotes (name : string) : bool :=
  match name with
  | EmptyString => true
  | String c _ => if negb (is_alpha c) then true else negb (all_alnum name)
  end.
Definition hql_name (name : string) : string :=
  if hql_needs_quotes name then "'" +:+ name +:+ "'" else name.

(** One entry of the loop over [m_column_family_map]; a null pointer is
    dereferenced. *)
Definition hql_family (s : Schema) (v : string * option nat) : result string :=
  match snd v with
  | None => Fault
  | Some c =>
      match cfs s !! c with
      | None => Fault
      | Some f =>
          Ok ("  " +:+ hql_name (fst v) +:+
              (if cf_max_versions f =? 0 then "" else " MAX_VERSIONS=" +:+ show_u32 (cf_max_versions f)) +:+
              (if cf_ttl f =? 0 then "" else " TTL=" +:+ show_u32 (u32 (cf_ttl f))) +:+ "," +:+ newline)
      end
  end.

Fixpoint hql_families (s : Schema) (l : list (string * option nat)) : result string :=
  match l with
  | [] => Ok ""
  | v :: l => x <- hql_family s v ;; y <- hql_families s l ;; Ok (x +:+ y)
  end.

Fixpoint comma_separated (l : list string) : string :=
  match l with
  | [] => ""
  | [x] => x
  | x :: l => x +:+ ", " +:+ comma_separated l
  end.

(** One access group; [i] is the variable compared with the number of groups. *)
Definition hql_group (s : Schema) (i : nat) (g : AccessGroup) : string :=
  "  ACCESS GROUP " +:+ hql_name (ag_name g) +:+
  (if ag_in_memory g then " IN_MEMORY" else "") +:+
  (if ag_blocksize g =? 0 then "" else " BLOCKSIZE=" +:+ show_u32 (ag_blocksize g)) +:+
  (if String.eqb (ag_compressor g) "" then "" else " COMPRESSOR=" +:+ quote +:+ ag_compressor g +:+ quote) +:+
  (match ag_columns g with
   | [] => ""
   | cols => " (" +:+ comma_separated ((fun f => hql_name (cf_name f)) <$> omap (fun c => cfs s !! c) cols) +:+ ")"
   end) +:+
  (if (i =? length (m_access_groups s))%nat then newline else "," +:+ newline).

(** [render_hql_create_table]: [order] is the iteration order of the hash map.
    [i] is set to one before the loop over the groups and never changed. *)
Definition render_hql_create_table (order : list (string * option nat)) (table_name : string) (s : Schema) : result string :=
  fams <- hql_families s order ;;
  Ok (newline +:+ "CREATE TABLE " +:+
      (if String.eqb (m_compressor s) "" then "" else "COMPRESSOR=" +:+ quote +:+ m_compressor s +:+ quote +:+ " ") +:+
      table_name +:+ " (" +:+ newline +:+ fams +:+
      concat_all (hql_group s 1 <$> omap (fun g => ags s !! g) (m_access_groups s)) +:+
      ")" +:+ newline +:+ newline).

(** ** Schemas built by the HQL parser *)

(** The column families in the order of the groups that hold them. *)
Definition group_columns (a : gmap nat AccessGroup) (g : nat) : list nat := default [] (ag_columns <$> a !! g).
Definition columns (s : Schema) : list nat := m_access_groups s ≫= group_columns (ags s).

Inductive built : Schema -> Prop :=
| built_new : built (new_schema false)
| built_group s g : built s -> ag_columns g = [] -> built (add_access_group g s)
| built_family s f : built s -> built (add_column_family f s)
| built_compressor s c : built s -> built (set_compressor c s).

Record hql_wf (s : Schema) : Prop := {
  hw_groups : NoDup (m_access_groups s);
  hw_group_map : forall n p, m_access_group_map s !! n = Some p -> p ∈ m_access_groups s;
  hw_group_ptr : forall p, p ∈ m_access_groups s -> (p < next_ptr s)%nat /\ is_Some (ags s !! p);
  hw_cols : NoDup (columns s);
  hw_col_map : forall c, c ∈ columns s <-> exists n, m_column_family_map s !! n = Some (Some c);
  hw_col_ptr : forall n c, m_column_family_map s !! n = Some (Some c) ->
    (c < next_ptr s)%nat /\ exists f, cfs s !! c = Some f /\ cf_name f = n;
  hw_no_null : forall n, m_column_family_map s !! n <> Some None }.

Lemma columns_ext (a a' : gmap nat AccessGroup) l : (forall g, g ∈ l -> a !! g = a' !! g) ->
  l ≫= group_columns a = l ≫= group_columns a'.
Proof.
  induction l as [|g l IH]; intros H; [reflexivity|]. cbn.
  rewrite IH by (intros; apply H; set_solver). f_equal.
  unfold group_columns. rewrite (H g) by set_solver. reflexivity.
Qed.

Lemma columns_push (a : gmap nat AccessGroup) l g c : NoDup l -> g ∈ l -> is_Some (a !! g) ->
  l ≫= group_columns (alter (push_column c) g a) ≡ₚ c :: (l ≫= group_columns a).
Proof.
  intros Hn Hg [G HG]. induction l as [|x l IH]; [set_solver|].
  apply NoDup_cons in Hn as [Hx Hn]. cbn. destruct (decide (x = g)) as [->|Hne].
  - rewrite (columns_ext (alter (push_column c) g a) a l).
    + unfold group_columns at 1 3. rewrite lookup_alter, HG. cbn. rewrite decide_True by reflexivity. cbn.
      rewrite <- app_assoc. cbn. symmetry. apply Permutation_middle.
    + intros y Hy. apply lookup_alter_ne. set_solver.
  - rewrite IH by (assumption || set_solver).
    assert (E : group_columns (alter (push_column c) g a) x = group_columns a x).
    { unfold group_columns. now rewrite lookup_alter_ne by congruence. }
    rewrite E. symmetry. apply Permutation_middle.
Qed.

Lemma add_access_group_wf s g : hql_wf s -> ag_columns g = [] -> hql_wf (add_access_group g s).
Proof.
  intros [W1 W2 W3 W4 W5 W6 W7] Hg. unfold add_access_group.
  destruct (m_access_group_map s !! ag_name g) eqn:E; [split; assumption|].
  assert (Hfresh : next_ptr s ∉ m_access_groups s).
  { intros H. apply W3 in H as [H _]. lia. }
  assert (Ec : columns (upd_groups (<[ag_name g := next_ptr s]> (m_access_group_map s)) (m_access_groups s ++ [next_ptr s])
        (upd_store (<[next_ptr s := g]> (ags s)) (cfs s) (S (next_ptr s)) s)) = columns s).
  { unfold columns. cbn. rewrite bind_app. cbn. unfold group_columns at 2. rewrite lookup_insert_eq. cbn. rewrite Hg, !app_nil_r.
    apply columns_ext. intros x Hx. apply lookup_insert_ne. set_solver. }
  split; rewrite ?Ec; cbn; try assumption.
  - apply NoDup_app. split_and!; [assumption| |apply NoDup_singleton]. set_solver.
  - intros n p H. destruct (decide (n = ag_name g)) as [->|Hne].
    + rewrite lookup_insert_eq in H. set_solver.
    + rewrite lookup_insert_ne in H by congruence. apply W2 in H. set_solver.
  - intros p Hp. apply elem_of_app in Hp as [Hp|Hp].
    + destruct (W3 p Hp) as [Hlt Hs]. split; [lia|]. rewrite lookup_insert_ne by set_solver. assumption.
    + apply list_elem_of_singleton in Hp as ->. split; [lia|]. rewrite lookup_insert_eq. eauto.
  - intros n c Hc. destruct (W6 n c Hc) as [Hlt Hf]. split; [lia|assumption].
Qed.

Lemma columns_elem_group s c : hql_wf s -> c ∈ columns s -> (c < next_ptr s)%nat.
Proof. intros W Hc. apply (hw_col_map s W) in Hc as [n Hn]. now apply (hw_col_ptr s W) in Hn as [H _]. Qed.

Lemma add_column_family_wf s f : hql_wf s -> hql_wf (add_column_family f s).
Proof.
  intros W. pose proof W as [W1 W2 W3 W4 W5 W6 W7]. unfold add_column_family.
  destruct (m_column_family_map s !! cf_name f) eqn:E; [split; assumption|].
  destruct (m_access_group_map s !! cf_ag f) as [g|] eqn:Eg; [|split; assumption].
  pose proof (W2 _ _ Eg) as Hg. destruct (W3 g Hg) as [Hlt HG].
  set (c := next_ptr s).
  assert (Hc : c ∉ columns s) by (intros H; apply columns_elem_group in H; [subst c; lia|assumption]).
  match goal with |- hql_wf ?t => assert (Ec : columns t ≡ₚ c :: columns s) end.
  { unfold columns. cbn. now apply columns_push. }
  split; cbn; try assumption.
  - intros p Hp. destruct (W3 p Hp) as [Hp1 Hp2]. split; [lia|]. destruct (decide (p = g)) as [->|Hne].
    + rewrite lookup_alter_eq. destruct HG as [G ->]. cbn. eauto.
    + rewrite lookup_alter_ne by congruence. assumption.
  - rewrite Ec. apply NoDup_cons. auto.
  - intros x. rewrite Ec, elem_of_cons, W5. split.
    + intros [->|[n Hn]]; [exists (cf_name f); apply lookup_insert_eq|].
      exists n. rewrite lookup_insert_ne; [assumption|congruence].
    + intros [n Hn]. destruct (decide (n = cf_name f)) as [->|Hne].
      * rewrite lookup_insert_eq in Hn. left. congruence.
      * rewrite lookup_insert_ne in Hn by congruence. eauto.
  - intros n x Hn. destruct (decide (n = cf_name f)) as [->|Hne].
    + rewrite lookup_insert_eq in Hn. injection Hn as <-. split; [lia|]. exists f.
      rewrite lookup_insert_eq. auto.
    + rewrite lookup_insert_ne in Hn by congruence. destruct (W6 n x Hn) as (Hx & f' & Hf' & Hn').
      split; [lia|]. exists f'. rewrite lookup_insert_ne by (subst c; lia). auto.
  - intros n. destruct (decide (n = cf_name f)) as [->|Hne].
    + rewrite lookup_insert_eq. discriminate.
    + rewrite lookup_insert_ne by congruence. apply W7.
Qed.

Lemma built_wf s : built s -> hql_wf s.
Proof.
  induction 1 as [|s g H IH Hg|s f H IH|s c H IH].
  - split; cbn.
    + constructor.
    + intros n p H. now rewrite lookup_empty in H.
    + intros p Hp. now apply elem_of_nil in Hp.
    + constructor.
    + intros c. split; [intros H; now apply elem_of_nil in H|]. intros [n Hn]. now rewrite lookup_empty in Hn.
    + intros n c H. now rewrite lookup_empty in H.
    + intros n. now rewrite lookup_empty.
  - now apply add_access_group_wf.
  - now apply add_column_family_wf.
  - destruct IH. split; assumption.
Qed.

(** ** Identifiers *)

Lemma assign_columns_spec cols : forall m c m' c', assign_columns cols m c = (m', c') ->
  m' = m + Z.of_nat (length cols) /\
  (NoDup cols -> forall x, c' !! x =
     match list_find (x =.) cols with
     | Some (i, _) => set_id (u32 (m + 1 + Z.of_nat i)) <$> c !! x
     | None => c !! x
     end).
Proof.
  induction cols as [|p cols IH]; intros m c m' c' H; cbn in H.
  { injection H as <- <-. split; [cbn; lia|]. intros _ x. reflexivity. }
  apply IH in H as [-> H]. split; [cbn [length]; lia|].
  intros Hn x. apply NoDup_cons in Hn as [Hp Hn]. rewrite (H Hn). cbn [list_find].
  destruct (decide (x = p)) as [->|Hne].
  - assert (E : list_find (p =.) cols = None).
    { apply list_find_None. apply Forall_forall. intros y Hy ->. contradiction. }
    rewrite E, lookup_alter_eq. do 2 f_equal. f_equal. lia.
  - destruct (list_find (x =.) cols) as [[i y]|]; cbn; rewrite lookup_alter_ne by congruence; [|reflexivity].
    do 3 f_equal. lia.
Qed.

Lemma assign_columns_app l1 l2 m c :
  assign_columns (l1 ++ l2) m c = let '(m, c) := assign_columns l1 m c in assign_columns l2 m c.
Proof. revert m c. induction l1 as [|p l1 IH]; intros m c; [reflexivity|]. cbn. apply IH. Qed.

Lemma assign_groups_columns groups a m c :
  assign_groups groups a m c = assign_columns (groups ≫= group_columns a) m c.
Proof.
  revert m c. induction groups as [|g groups IH]; intros m c; [reflexivity|].
  cbn. fold (group_columns a g). rewrite assign_columns_app.
  destruct (assign_columns (group_columns a g) m c) as [m' c']. apply IH.
Qed.

Lemma list_find_elem (l : list nat) x : x ∈ l -> exists i, list_find (x =.) l = Some (i, x) /\ l !! i = Some x.
Proof.
  intros H. destruct (list_find (x =.) l) as [[i y]|] eqn:E.
  - apply list_find_Some in E as (Hi & -> & _). eauto.
  - apply list_find_None in E. rewrite Forall_forall in E. destruct (E x H eq_refl).
Qed.

Definition family_id (s : Schema) (name : string) : option Z :=
  match m_column_family_map s !! name with
  | Some (Some c) => cf_id <$> cfs s !! c
  | _ => None
  end.

Lemma assign_ids_family s name c : hql_wf s -> Z.of_nat (length (columns s)) < 2 ^ 32 ->
  m_column_family_map s !! name = Some (Some c) ->
  exists i, columns s !! i = Some c /\ family_id (assign_ids s) name = Some (Z.of_nat i + 1).
Proof.
  intros W Hn Hc. unfold family_id, assign_ids. rewrite assign_groups_columns. fold (columns s).
  destruct (assign_columns (columns s) 0 (cfs s)) as [m' c'] eqn:E. cbn. rewrite Hc.
  apply assign_columns_spec in E as [_ E]. rewrite (E (hw_cols s W)).
  destruct (list_find_elem (columns s) c) as (i & -> & Hi).
  { apply (hw_col_map s W). eauto. }
  destruct (hw_col_ptr s W name c Hc) as (_ & f & -> & _). exists i. split; [assumption|]. cbn.
  apply lookup_lt_Some in Hi. do 2 f_equal. rewrite wrap_small by (unfold in_range; lia). lia.
Qed.


Definition sample_group : AccessGroup :=
  {| ag_name := "default"; ag_in_memory := false; ag_blocksize := 0; ag_compressor := ""; ag_columns := [] |}.
Definition sample_family (n : string) : ColumnFamily :=
  {| cf_name := n; cf_ag := "default"; cf_id := 0; cf_max_versions := 3; cf_ttl := 0 |}.
Definition sample_schema : Schema :=
  add_column_family (sample_family "b") (add_column_family (sample_family "a")
    (add_access_group sample_group (new_schema false))).

Lemma sample_built : built sample_schema.
Proof. repeat constructor. Qed.


(** ** Lookups of unknown names *)

Lemma hql_families_null s l n : (n, None) ∈ l -> is_ok (hql_families s l) = false.
Proof.
  induction l as [|v l IH]; intros H; [now apply elem_of_nil in H|]. cbn.
  apply elem_of_cons in H as [<-|H]; [reflexivity|].
  destruct (hql_family s v) as [x| |]; try reflexivity. cbn.
  specialize (IH H). destruct (hql_families s l); [discriminate|reflexivity|reflexivity].
Qed.

(** Looking a column family up by a name the schema does not have returns
    null and leaves that null in the map: defining the family afterwards is
    refused as multiply defined, and rendering the table definition dereferences
    the null pointer, whatever the order of the hash map. *)
Theorem failed_lookup_poisons_schema name s f order table : m_column_family_map s !! name = None ->
  let '(p, s') := get_column_family name s in
  p = None /\
  (cf_name f = name -> m_error_string (add_column_family f s') =
     ("Column family '" +:+ name +:+ "' multiply defined") /\ cfs (add_column_family f s') = cfs s) /\
  (order ≡ₚ map_to_list (m_column_family_map s') -> is_ok (render_hql_create_table order table s') = false).
Proof.
  intros H. unfold get_column_family. rewrite H. split; [reflexivity|]. split.
  - intros <-. unfold add_column_family. cbn. rewrite lookup_insert_eq. split; reflexivity.
  - intros Ho. unfold render_hql_create_table.
    match goal with |- context [hql_families ?s' order] =>
      assert (E : is_ok (hql_families s' order) = false) end.
    { apply hql_families_null with name. rewrite Ho. cbn. apply elem_of_map_to_list. apply lookup_insert_eq. }
    destruct (hql_families _ order); [discriminate|reflexivity|reflexivity].
Qed.

Lemma failed_lookup_poisons_schema_witness :
  let '(p, s') := get_column_family "x" sample_schema in
  p = None /\ is_ok (render_hql_create_table (map_to_list (m_column_family_map s')) "t" s') = false.
Proof.
  pose proof (failed_lookup_poisons_schema "x" sample_schema (sample_family "x")
    (map_to_list (m_column_family_map (snd (get_column_family "x" sample_schema)))) "t") as H.
  destruct (get_column_family "x" sample_schema) as [p s'] eqn:E.
  destruct H as (Hp & _ & Hr); [vm_compute; reflexivity|]. split; [exact Hp|]. apply Hr. reflexivity.
Defined.

Lemma string_app_assoc (a b c : string) : a +:+ (b +:+ c) = (a +:+ b) +:+ c.
Proof. induction a as [|x a IH]; [reflexivity|]. exact (f_equal (String x) IH). Qed.

(** The counter compared with the number of access groups never moves from
    one, so in a rendered [CREATE TABLE] of a schema with several groups every
    group, the last one included, is followed by a comma; only a single group is
    rendered right. *)
Theorem hql_groups_trailing_comma s G : length (m_access_groups s) <> 1%nat ->
  exists body, hql_group s 1 G = body +:+ ("," +:+ newline).
Proof.
  intros Hg. unfold hql_group. rewrite (proj2 (Nat.eqb_neq 1 _)) by auto.
  eexists. rewrite !(string_app_assoc _ _ ("," +:+ newline)). reflexivity.
Qed.

Definition two_groups : Schema :=
  add_access_group {| ag_name := "other"; ag_in_memory := true; ag_blocksize := 0; ag_compressor := ""; ag_columns := [] |} sample_schema.

Lemma hql_groups_trailing_comma_witness :
  exists body, hql_group two_groups 1 sample_group = body +:+ ("," +:+ newline).
Proof. apply (hql_groups_trailing_comma two_groups sample_group). vm_compute. discriminate. Defined.

(** ** Parsing XML *)

(** The events of a document with one group and one column family, the name
    delivered in the pieces [texts]. *)
Definition family_document (texts : list string) : list xml_event :=
  [StartElement "Schema" []; StartElement "AccessGroup" [("name", "default"); ("blksz", "65536")];
   StartElement "ColumnFamily" [("id", "7")]; StartElement "Name" []] ++
  (CharacterData <$> texts) ++
  [EndElement "Name"; StartElement "MaxVersions" []; CharacterData " 3 "; EndElement "MaxVersions";
   EndElement "ColumnFamily"; EndElement "AccessGroup"; EndElement "Schema"].

Example parse_document : 
  let s := new_instance (family_document [" title "]) None "" true in
  is_valid s = true /\ family_id s "title" = Some 7 /\ m_max_column_family_id s = 7.
Proof. vm_compute. auto. Qed.

(** The text handler keeps the last piece only, although an XML parser may
    deliver the text of an element in several pieces. *)
Example split_text_truncated :
  let s := new_instance (family_document ["ti"; "tle"]) None "" true in
  family_id s "title" = None /\ family_id s "tle" = Some 7.
Proof. vm_compute. auto. Qed.
