(* ===== verification/Wire.v ===== *)
(** * Encodings of records

    The [encode], [decode] and [encoded_length] members of the records that
    travel in messages or lie in files: [Lib/Types.cc], [Timestamp.h],
    [RangeState.cc], [ScanSpec.cc] and [Stat.cc].

    A [const char *] member is the C string it points at; [encode_vstr] writes a
    null pointer like the empty string.  The judgement [codec e n d a] says that
    the encoder [e] writes [n] bytes from which the decoder [d] reads [a] back,
    whatever follows; records are put together from it the way the code puts
    encoders and decoders one after the other. *)
From S2P Require Import Prelude Errors Serialization ByteString.
From Stdlib Require Import ZArith Lia List Bool.
Import ListNotations.
Open Scope Z_scope.
Open Scope result_scope.

(** Encoders in sequence. *)
Fixpoint cat (es : list (result (list Z))) : result (list Z) :=
  match es with
  | [] => Ok []
  | e :: es => a <- e ;; b <- cat es ;; Ok (a ++ b)
  end.

(** [for (n = ...; n--;) v.push_back(...)]. *)
Fixpoint decode_n {A} (n : nat) (d : dec A) : dec (list A) :=
  match n with
  | O => dret []
  | S n => x <~ d ;; xs <~ decode_n n d ;; dret (x :: xs)
  end.

(** A decoded [vstr] used as a C string ends at its first NUL. *)
Fixpoint until_nul (s : list Z) : list Z :=
  match s with
  | [] => []
  | b :: s => if b =? 0 then [] else b :: until_nul s
  end.
Definition decode_cstr : dec (list Z) := s <~ decode_vstr ;; dret (until_nul s).

(** [encoded_length_vstr] of a C string. *)
Definition vstr_len (s : list Z) : Z := encoded_length_vstr (zlen s).

(** ** Table identifiers, ranges, timestamps *)

Record TableIdentifier := { ti_name : list Z; ti_id : Z; ti_generation : Z }.

Definition TableIdentifier_encoded_length (t : TableIdentifier) : Z := 8 + vstr_len (ti_name t).
Definition TableIdentifier_encode (t : TableIdentifier) : result (list Z) :=
  cat [encode_vstr (ti_name t); Ok (encode_i32 (ti_id t)); Ok (encode_i32 (ti_generation t))].
Definition TableIdentifier_decode : dec TableIdentifier :=
  name <~ decode_cstr ;;
  id <~ decode_i32 ;;
  generation <~ decode_i32 ;;
  dret {| ti_name := name; ti_id := id; ti_generation := generation |}.

Record RangeSpec := { rs_start_row : list Z; rs_end_row : list Z }.

Definition RangeSpec_encoded_length (r : RangeSpec) : Z := vstr_len (rs_start_row r) + vstr_len (rs_end_row r).
Definition RangeSpec_encode (r : RangeSpec) : result (list Z) :=
  cat [encode_vstr (rs_start_row r); encode_vstr (rs_end_row r)].
Definition RangeSpec_decode : dec RangeSpec :=
  start_row <~ decode_cstr ;;
  end_row <~ decode_cstr ;;
  dret {| rs_start_row := start_row; rs_end_row := end_row |}.

Record Timestamp := { logical : Z; real : Z }.

Definition Timestamp_encoded_length (_ : Timestamp) : Z := 16.
Definition Timestamp_encode (t : Timestamp) : result (list Z) :=
  cat [Ok (encode_i64 (logical t)); Ok (encode_i64 (real t))].
Definition Timestamp_decode : dec Timestamp :=
  l <~ decode_i64 ;;
  r <~ decode_i64 ;;
  dret {| logical := signed 64 l; real := signed 64 r |}.

(** [RangeState]; [state] is an [int] of which one byte is written. *)
Definition STEADY : Z := 0.
Definition SPLIT_LOG_INSTALLED : Z := 1.
Definition SPLIT_SHRUNK : Z := 2.

Record RangeState := {
  st_state : Z; st_timestamp : Timestamp; st_soft_limit : Z;
  st_transfer_log : list Z; st_split_point : list Z; st_old_start_row : list Z }.

(** [clear()] keeps the soft limit. *)
Definition RangeState_clear (s : RangeState) : RangeState :=
  {| st_state := STEADY; st_timestamp := {| logical := 0; real := 0 |}; st_soft_limit := st_soft_limit s;
     st_transfer_log := []; st_split_point := []; st_old_start_row := [] |}.

Definition RangeState_encoded_length (s : RangeState) : Z :=
  9 + Timestamp_encoded_length (st_timestamp s) + vstr_len (st_transfer_log s) +
  vstr_len (st_split_point s) + vstr_len (st_old_start_row s).
Definition RangeState_encode (s : RangeState) : result (list Z) :=
  cat [Ok (encode_i8 (st_state s)); Timestamp_encode (st_timestamp s); Ok (encode_i64 (st_soft_limit s));
       encode_vstr (st_transfer_log s); encode_vstr (st_split_point s); encode_vstr (st_old_start_row s)].
Definition RangeState_decode : dec RangeState :=
  state <~ decode_byte ;;
  timestamp <~ Timestamp_decode ;;
  soft_limit <~ decode_i64 ;;
  transfer_log <~ decode_cstr ;;
  split_point <~ decode_cstr ;;
  old_start_row <~ decode_cstr ;;
  dret {| st_state := state; st_timestamp := timestamp; st_soft_limit := soft_limit;
          st_transfer_log := transfer_log; st_split_point := split_point; st_old_start_row := old_start_row |}.

(** ** Scan specifications *)

Record RowInterval := { ri_start : list Z; ri_start_inclusive : bool; ri_end : list Z; ri_end_inclusive : bool }.

Definition RowInterval_encoded_length (r : RowInterval) : Z := 2 + vstr_len (ri_start r) + vstr_len (ri_end r).
Definition RowInterval_encode (r : RowInterval) : result (list Z) :=
  cat [encode_vstr (ri_start r); Ok (encode_bool (ri_start_inclusive r));
       encode_vstr (ri_end r); Ok (encode_bool (ri_end_inclusive r))].
Definition RowInterval_decode : dec RowInterval :=
  s <~ decode_cstr ;;
  si <~ decode_bool ;;
  e <~ decode_cstr ;;
  ei <~ decode_bool ;;
  dret {| ri_start := s; ri_start_inclusive := si; ri_end := e; ri_end_inclusive := ei |}.

Record CellInterval := {
  ci_start_row : list Z; ci_start_column : list Z; ci_start_inclusive : bool;
  ci_end_row : list Z; ci_end_column : list Z; ci_end_inclusive : bool }.

Definition CellInterval_encoded_length (c : CellInterval) : Z :=
  2 + vstr_len (ci_start_row c) + vstr_len (ci_start_column c) + vstr_len (ci_end_row c) + vstr_len (ci_end_column c).
Definition CellInterval_encode (c : CellInterval) : result (list Z) :=
  cat [encode_vstr (ci_start_row c); encode_vstr (ci_start_column c); Ok (encode_bool (ci_start_inclusive c));
       encode_vstr (ci_end_row c); encode_vstr (ci_end_column c); Ok (encode_bool (ci_end_inclusive c))].
Definition CellInterval_decode : dec CellInterval :=
  sr <~ decode_cstr ;;
  sc <~ decode_cstr ;;
  si <~ decode_bool ;;
  er <~ decode_cstr ;;
  ec <~ decode_cstr ;;
  ei <~ decode_bool ;;
  dret {| ci_start_row := sr; ci_start_column := sc; ci_start_inclusive := si;
          ci_end_row := er; ci_end_column := ec; ci_end_inclusive := ei |}.

Definition BEGINNING_OF_TIME : Z := - 2 ^ 63.
Definition END_OF_TIME : Z := 2 ^ 63 - 1.

Record ScanSpec := {
  row_limit : Z; max_versions : Z; columns : list (list Z); row_intervals : list RowInterval;
  cell_intervals : list CellInterval; time_interval : Z * Z; return_deletes : bool }.

Definition ScanSpec_make : ScanSpec :=
  {| row_limit := 0; max_versions := 0; columns := []; row_intervals := []; cell_intervals := [];
     time_interval := (0, END_OF_TIME); return_deletes := false |}.

(** [clear()] sets the end of the time interval to zero. *)
Definition ScanSpec_clear (s : ScanSpec) : ScanSpec :=
  {| row_limit := 0; max_versions := 0; columns := []; row_intervals := []; cell_intervals := [];
     time_interval := (0, 0); return_deletes := false |}.

(** [base_copy(other)]. *)
Definition ScanSpec_base_copy (s other : ScanSpec) : ScanSpec :=
  {| row_limit := row_limit s; max_versions := max_versions s; columns := columns s; row_intervals := [];
     cell_intervals := []; time_interval := time_interval s; return_deletes := return_deletes s |}.

Definition sum_len {A} (f : A -> Z) (l : list A) : Z := fold_right (fun x n => f x + n) 0 l.

Definition ScanSpec_encoded_length (s : ScanSpec) : Z :=
  encoded_length_vi32 (u32 (row_limit s)) + encoded_length_vi32 (max_versions s) +
  encoded_length_vi32 (zlen (columns s)) + encoded_length_vi32 (zlen (row_intervals s)) +
  encoded_length_vi32 (zlen (cell_intervals s)) +
  sum_len vstr_len (columns s) + sum_len RowInterval_encoded_length (row_intervals s) +
  sum_len CellInterval_encoded_length (cell_intervals s) + 8 + 8 + 1.
Definition ScanSpec_encode (s : ScanSpec) : result (list Z) :=
  cat [encode_vi32 (row_limit s); encode_vi32 (max_versions s);
       encode_vi32 (zlen (columns s)); cat (map encode_vstr (columns s));
       encode_vi32 (zlen (row_intervals s)); cat (map RowInterval_encode (row_intervals s));
       encode_vi32 (zlen (cell_intervals s)); cat (map CellInterval_encode (cell_intervals s));
       Ok (encode_i64 (fst (time_interval s))); Ok (encode_i64 (snd (time_interval s)));
       Ok (encode_bool (return_deletes s))].

(** [decode] appends to the vectors of the object [s0] it is called on. *)
Definition ScanSpec_decode (s0 : ScanSpec) : dec ScanSpec :=
  rl <~ decode_vi32 ;;
  mv <~ decode_vi32 ;;
  nc <~ decode_vi32 ;;
  cs <~ decode_n (Z.to_nat nc) decode_cstr ;;
  nri <~ decode_vi32 ;;
  ris <~ decode_n (Z.to_nat nri) RowInterval_decode ;;
  nci <~ decode_vi32 ;;
  cis <~ decode_n (Z.to_nat nci) CellInterval_decode ;;
  t1 <~ decode_i64 ;;
  t2 <~ decode_i64 ;;
  rd <~ decode_i8 ;;
  dret {| row_limit := signed 32 rl; max_versions := mv; columns := columns s0 ++ cs;
          row_intervals := row_intervals s0 ++ ris; cell_intervals := cell_intervals s0 ++ cis;
          time_interval := (signed 64 t1, signed 64 t2); return_deletes := negb (rd =? 0) |}.

(** ** Statistics *)

Record RangeStat := {
  rst_table : TableIdentifier; rst_range : RangeSpec; added_inserts : Z;
  added_deletes0 : Z; added_deletes1 : Z; added_deletes2 : Z;
  cached_cells : Z; collided_cells : Z; disk_usage : Z; memory_usage : Z }.

Definition RangeStat_encoded_length (s : RangeStat) : Z :=
  64 + TableIdentifier_encoded_length (rst_table s) + RangeSpec_encoded_length (rst_range s).
Definition RangeStat_encode (s : RangeStat) : result (list Z) :=
  cat [TableIdentifier_encode (rst_table s); RangeSpec_encode (rst_range s);
       Ok (encode_i64 (added_inserts s)); Ok (encode_i64 (added_deletes0 s));
       Ok (encode_i64 (added_deletes1 s)); Ok (encode_i64 (added_deletes2 s));
       Ok (encode_i64 (cached_cells s)); Ok (encode_i64 (collided_cells s));
       Ok (encode_i64 (disk_usage s)); Ok (encode_i64 (memory_usage s))].
Definition RangeStat_decode : dec RangeStat :=
  table <~ TableIdentifier_decode ;;
  range <~ RangeSpec_decode ;;
  a <~ decode_i64 ;; d0 <~ decode_i64 ;; d1 <~ decode_i64 ;; d2 <~ decode_i64 ;;
  cc <~ decode_i64 ;; co <~ decode_i64 ;; du <~ decode_i64 ;; mu <~ decode_i64 ;;
  dret {| rst_table := table; rst_range := range; added_inserts := a; added_deletes0 := d0;
          added_deletes1 := d1; added_deletes2 := d2; cached_cells := cc; collided_cells := co;
          disk_usage := du; memory_usage := mu |}.

(** [RangeServerStat] is its vector of range statistics. *)
Definition RangeServerStat_encoded_length (l : list RangeStat) : Z := 28 + sum_len RangeStat_encoded_length l.
Definition RangeServerStat_encode (l : list RangeStat) : result (list Z) :=
  cat [Ok (encode_i32 (zlen l)); cat (map RangeStat_encode l)].
Definition RangeServerStat_decode (l0 : list RangeStat) : dec (list RangeStat) :=
  n <~ decode_i32 ;;
  l <~ decode_n (Z.to_nat n) RangeStat_decode ;;
  dret (l0 ++ l).

(** ** The judgement *)

Definition reads {A} (d : dec A) (l : list Z) (a : A) : Prop :=
  forall m r, zlen l <= r < 2 ^ 64 ->
    d {| ip := l ++ m; remain := r |} = Ok (a, {| ip := m; remain := r - zlen l |}).

Definition codec {A} (e : result (list Z)) (n : Z) (d : dec A) (a : A) : Prop :=
  exists l, e = Ok l /\ zlen l = n /\ reads d l a.

Lemma codec_len {A} e n n' (d : dec A) a : codec e n d a -> n = n' -> codec e n' d a.
Proof. now intros H <-. Qed.

Lemma codec_ret {A} (a : A) : codec (cat []) 0 (dret a) a.
Proof. exists []. split; [reflexivity|]. split; [reflexivity|]. intros m r _. cbn. now rewrite Z.sub_0_r. Qed.

Lemma codec_bind {A B} e es n1 n2 (d : dec A) (f : A -> dec B) a b :
  codec e n1 d a -> codec (cat es) n2 (f a) b -> codec (cat (e :: es)) (n1 + n2) (dbind d f) b.
Proof.
  intros (l1 & E1 & N1 & R1) (l2 & E2 & N2 & R2). exists (l1 ++ l2). cbn [cat]. rewrite E1, E2. cbn [bind].
  split; [reflexivity|]. rewrite zlen_app. split; [lia|].
  intros m r Hr. pose proof (zlen_nonneg l1). pose proof (zlen_nonneg l2). rewrite zlen_app in *. unfold dbind.
  rewrite <- app_assoc, R1 by lia. cbn [bind]. rewrite R2 by lia.
  now replace (r - zlen l1 - zlen l2) with (r - (zlen l1 + zlen l2)) by lia.
Qed.

(** A step of the decoder that only rearranges what was read. *)
Lemma codec_map {A B} e n (d : dec A) (g : A -> B) a : codec e n d a -> codec e n (x <~ d ;; dret (g x)) (g a).
Proof.
  intros (l & E & N & R). exists l. split; [assumption|]. split; [assumption|].
  intros m r Hr. unfold dbind. rewrite R by assumption. reflexivity.
Qed.

Lemma codec_i8 v : is_byte v -> codec (Ok (encode_i8 v)) 1 decode_i8 v.
Proof.
  intros H. eexists; split; [reflexivity|]. split; [reflexivity|]. intros m r Hr. change (zlen (encode_i8 v)) with 1 in *.
  rewrite decode_i8_encode by lia. now rewrite wrap_small.
Qed.

Lemma codec_i16 v : in_range 16 v -> codec (Ok (encode_i16 v)) 2 decode_i16 v.
Proof.
  intros H. eexists; split; [reflexivity|]. split; [reflexivity|]. intros m r Hr. change (zlen (encode_i16 v)) with 2 in *.
  rewrite decode_i16_encode by lia. now rewrite wrap_small.
Qed.

(** Integers of 32 and 64 bits, also those the record keeps as signed. *)
Lemma codec_i32 v : codec (Ok (encode_i32 v)) 4 decode_i32 (u32 v).
Proof.
  eexists; split; [reflexivity|]. split; [reflexivity|]. intros m r Hr. change (zlen (encode_i32 v)) with 4 in *.
  now rewrite decode_i32_encode by lia.
Qed.

Lemma codec_i64 v : codec (Ok (encode_i64 v)) 8 decode_i64 (u64 v).
Proof.
  eexists; split; [reflexivity|]. split; [reflexivity|]. intros m r Hr. change (zlen (encode_i64 v)) with 8 in *.
  now rewrite decode_i64_encode by lia.
Qed.

Lemma codec_u32 v : in_range 32 v -> codec (Ok (encode_i32 v)) 4 decode_i32 v.
Proof. intros H. rewrite <- (wrap_small 32 v H) at 2. apply codec_i32. Qed.

Lemma codec_u64 v : in_range 64 v -> codec (Ok (encode_i64 v)) 8 decode_i64 v.
Proof. intros H. rewrite <- (wrap_small 64 v H) at 2. apply codec_i64. Qed.

Lemma codec_bool b : codec (Ok (encode_bool b)) 1 decode_bool b.
Proof.
  eexists; split; [reflexivity|]. split; [reflexivity|]. intros m r Hr. change (zlen (encode_bool b)) with 1 in *.
  now rewrite decode_bool_encode by lia.
Qed.

Lemma codec_vi32 v : in_range 32 v -> codec (encode_vi32 v) (encoded_length_vi32 v) decode_vi32 v.
Proof. intros H. destruct (vi32_encodes v H) as (l & E & N & R). exists l. split; [assumption|]. split; [assumption|]. intros m r Hr. apply R. lia. Qed.

Lemma codec_vstr s : zlen s < 2 ^ 64 - 1 -> codec (encode_vstr s) (vstr_len s) decode_vstr s.
Proof.
  intros H. destruct (encode_vstr_eq s) as (l & El & Es); [lia|]. exists (l ++ s ++ [0]).
  split; [assumption|]. split.
  - rewrite !zlen_app. unfold vstr_len, encoded_length_vstr.
    rewrite (encode_vi64_length (zlen s) l) by (assumption || (split; [apply zlen_nonneg|lia])).
    change (zlen [0]) with 1. lia.
  - intros m r Hr. apply decode_vstr_encode; assumption || lia.
Qed.

Lemma until_nul_id s : no_nul s -> until_nul s = s.
Proof. induction 1 as [|b s Hb Hs IH]; [reflexivity|]. cbn. rewrite (proj2 (Z.eqb_neq b 0) Hb). now rewrite IH. Qed.

(** A C string that fits a message. *)
Definition ok_cstr (s : list Z) : Prop := no_nul s /\ zlen s < 2 ^ 64 - 1.

Lemma codec_cstr s : ok_cstr s -> codec (encode_vstr s) (vstr_len s) decode_cstr s.
Proof.
  intros [Hn Hl]. unfold decode_cstr. rewrite <- (until_nul_id s Hn) at 3. now apply codec_map, codec_vstr.
Qed.

Lemma codec_list {A} (enc : A -> result (list Z)) (len : A -> Z) (d : dec A) xs :
  Forall (fun x => codec (enc x) (len x) d x) xs ->
  codec (cat (map enc xs)) (sum_len len xs) (decode_n (length xs) d) xs.
Proof.
  induction 1 as [|x xs Hx Hxs IH]; cbn [map length decode_n sum_len fold_right].
  - apply codec_ret.
  - destruct Hx as (l1 & E1 & N1 & R1). destruct IH as (l2 & E2 & N2 & R2).
    exists (l1 ++ l2). cbn [cat]. rewrite E1, E2. cbn [bind]. split; [reflexivity|].
    rewrite zlen_app. split; [unfold sum_len in N2; lia|].
    intros m r Hr. pose proof (zlen_nonneg l1). pose proof (zlen_nonneg l2). rewrite zlen_app in *. unfold dbind.
    rewrite <- app_assoc, R1 by lia. cbn [bind]. rewrite R2 by lia. cbn [bind dret].
    now replace (r - zlen l1 - zlen l2) with (r - (zlen l1 + zlen l2)) by lia.
Qed.

Lemma codec_ret_eq {A} (a b : A) : a = b -> codec (cat []) 0 (dret a) b.
Proof. intros ->. apply codec_ret. Qed.

Create HintDb codec.
#[export] Hint Resolve codec_i8 codec_i16 codec_u32 codec_u64 codec_bool codec_vi32
  codec_vstr codec_cstr : codec.

(** Walks through an encoder and a decoder field by field. *)
Ltac codec_walk :=
  repeat (cbv beta; first [eapply codec_bind; [solve [eauto with codec]|] | apply codec_ret_eq]).

(** Reduces the projections only. *)
Ltac fields :=
  cbn [ti_name ti_id ti_generation rs_start_row rs_end_row logical real st_state st_timestamp st_soft_limit
    st_transfer_log st_split_point st_old_start_row ri_start ri_start_inclusive ri_end ri_end_inclusive
    ci_start_row ci_start_column ci_start_inclusive ci_end_row ci_end_column ci_end_inclusive
    row_limit max_versions columns row_intervals cell_intervals time_interval return_deletes
    rst_table rst_range added_inserts added_deletes0 added_deletes1 added_deletes2 cached_cells collided_cells
    disk_usage memory_usage fst snd] in *.

(** A record's codec: the fields in order, the record again, the length. *)
Ltac codec_record :=
  eapply codec_len; [codec_walk; try reflexivity | try lia].

Definition ok_TableIdentifier (t : TableIdentifier) : Prop :=
  ok_cstr (ti_name t) /\ in_range 32 (ti_id t) /\ in_range 32 (ti_generation t).

Lemma codec_TableIdentifier t : ok_TableIdentifier t ->
  codec (TableIdentifier_encode t) (TableIdentifier_encoded_length t) TableIdentifier_decode t.
Proof.
  intros (H1 & H2 & H3). destruct t; fields. unfold TableIdentifier_encode, TableIdentifier_decode.
  codec_record. unfold TableIdentifier_encoded_length. fields. lia.
Qed.

Definition ok_RangeSpec (r : RangeSpec) : Prop := ok_cstr (rs_start_row r) /\ ok_cstr (rs_end_row r).

Lemma codec_RangeSpec r : ok_RangeSpec r ->
  codec (RangeSpec_encode r) (RangeSpec_encoded_length r) RangeSpec_decode r.
Proof.
  intros (H1 & H2). destruct r; fields. unfold RangeSpec_encode, RangeSpec_decode.
  codec_record. unfold RangeSpec_encoded_length. fields. lia.
Qed.

Definition ok_i64 (x : Z) : Prop := - 2 ^ 63 <= x < 2 ^ 63.
Definition ok_Timestamp (t : Timestamp) : Prop := ok_i64 (logical t) /\ ok_i64 (real t).

Lemma codec_Timestamp t : ok_Timestamp t ->
  codec (Timestamp_encode t) (Timestamp_encoded_length t) Timestamp_decode t.
Proof.
  intros (H1 & H2). destruct t; fields. unfold Timestamp_encode, Timestamp_decode.
  eapply codec_len.
  - eapply codec_bind; [apply codec_i64|]. eapply codec_bind; [apply codec_i64|].
    apply codec_ret_eq. fields. now rewrite !signed_wrap.
  - reflexivity.
Qed.

#[export] Hint Resolve codec_TableIdentifier codec_RangeSpec codec_Timestamp : codec.

Definition ok_RangeState (s : RangeState) : Prop :=
  is_byte (st_state s) /\ ok_Timestamp (st_timestamp s) /\ in_range 64 (st_soft_limit s) /\
  ok_cstr (st_transfer_log s) /\ ok_cstr (st_split_point s) /\ ok_cstr (st_old_start_row s).

Lemma codec_RangeState s : ok_RangeState s ->
  codec (RangeState_encode s) (RangeState_encoded_length s) RangeState_decode s.
Proof.
  intros (H1 & H2 & H3 & H4 & H5 & H6). destruct s; fields. unfold RangeState_encode, RangeState_decode, decode_byte.
  codec_record. unfold RangeState_encoded_length. fields. lia.
Qed.

Definition ok_RowInterval (r : RowInterval) : Prop := ok_cstr (ri_start r) /\ ok_cstr (ri_end r).

Lemma codec_RowInterval r : ok_RowInterval r ->
  codec (RowInterval_encode r) (RowInterval_encoded_length r) RowInterval_decode r.
Proof.
  intros (H1 & H2). destruct r; fields. unfold RowInterval_encode, RowInterval_decode.
  codec_record. unfold RowInterval_encoded_length. fields. lia.
Qed.

Definition ok_CellInterval (c : CellInterval) : Prop :=
  ok_cstr (ci_start_row c) /\ ok_cstr (ci_start_column c) /\ ok_cstr (ci_end_row c) /\ ok_cstr (ci_end_column c).

Lemma codec_CellInterval c : ok_CellInterval c ->
  codec (CellInterval_encode c) (CellInterval_encoded_length c) CellInterval_decode c.
Proof.
  intros (H1 & H2 & H3 & H4). destruct c; fields. unfold CellInterval_encode, CellInterval_decode.
  codec_record. unfold CellInterval_encoded_length. fields. lia.
Qed.

#[export] Hint Resolve codec_RangeState codec_RowInterval codec_CellInterval : codec.

(** A list with its count in front. *)
Lemma codec_counted {A} (enc : A -> result (list Z)) len (d : dec A) (ok : A -> Prop) xs :
  (forall x, ok x -> codec (enc x) (len x) d x) -> Forall ok xs ->
  codec (cat (map enc xs)) (sum_len len xs) (decode_n (Z.to_nat (zlen xs)) d) xs.
Proof.
  intros Hc Hok. unfold zlen. rewrite Nat2Z.id. apply codec_list.
  revert Hok. apply Forall_impl. exact Hc.
Qed.

Definition ok_ScanSpec (s : ScanSpec) : Prop :=
  - 2 ^ 31 <= row_limit s < 2 ^ 31 /\ in_range 32 (max_versions s) /\
  (zlen (columns s) < 2 ^ 32 /\ Forall ok_cstr (columns s)) /\
  (zlen (row_intervals s) < 2 ^ 32 /\ Forall ok_RowInterval (row_intervals s)) /\
  (zlen (cell_intervals s) < 2 ^ 32 /\ Forall ok_CellInterval (cell_intervals s)) /\
  ok_i64 (fst (time_interval s)) /\ ok_i64 (snd (time_interval s)).

Lemma codec_vi32_wrap v : codec (encode_vi32 v) (encoded_length_vi32 (u32 v)) decode_vi32 (u32 v).
Proof.
  assert (E : encode_vi32 v = encode_vi32 (u32 v)) by (unfold encode_vi32; now rewrite wrap_idem by lia).
  rewrite E. apply codec_vi32. now apply wrap_range.
Qed.

Lemma codec_flag b : codec (Ok (encode_bool b)) 1 decode_i8 (if b then 1 else 0).
Proof. destruct b; [exact (codec_i8 1 ltac:(split; lia)) | exact (codec_i8 0 ltac:(split; lia))]. Qed.

Lemma codec_ScanSpec s : ok_ScanSpec s ->
  codec (ScanSpec_encode s) (ScanSpec_encoded_length s) (ScanSpec_decode ScanSpec_make) s.
Proof.
  intros (H1 & H2 & [L3 H3] & [L4 H4] & [L5 H5] & H6 & H7). destruct s as [rl mv cs ris cis [t1 t2] rd]; fields.
  assert (R3 : in_range 32 (zlen cs)) by (split; [apply zlen_nonneg|assumption]).
  assert (R4 : in_range 32 (zlen ris)) by (split; [apply zlen_nonneg|assumption]).
  assert (R5 : in_range 32 (zlen cis)) by (split; [apply zlen_nonneg|assumption]).
  unfold ScanSpec_encode, ScanSpec_decode. cbn [row_limit max_versions columns row_intervals cell_intervals
    time_interval return_deletes ScanSpec_make app fst snd].
  eapply codec_len.
  - eapply codec_bind; [apply codec_vi32_wrap|]. eapply codec_bind; [now apply codec_vi32|].
    eapply codec_bind; [now apply codec_vi32|].
    eapply codec_bind; [apply codec_counted with (ok := ok_cstr); eauto with codec|].
    eapply codec_bind; [now apply codec_vi32|].
    eapply codec_bind; [apply codec_counted with (ok := ok_RowInterval); eauto with codec|].
    eapply codec_bind; [now apply codec_vi32|].
    eapply codec_bind; [apply codec_counted with (ok := ok_CellInterval); eauto with codec|].
    eapply codec_bind; [apply codec_i64|]. eapply codec_bind; [apply codec_i64|].
    eapply codec_bind; [apply codec_flag|]. apply codec_ret_eq.
    rewrite !signed_wrap by (assumption || lia). now destruct rd.
  - unfold ScanSpec_encoded_length. cbn [row_limit max_versions columns row_intervals cell_intervals]. lia.
Qed.

Definition ok_RangeStat (s : RangeStat) : Prop :=
  ok_TableIdentifier (rst_table s) /\ ok_RangeSpec (rst_range s) /\
  Forall (in_range 64) [added_inserts s; added_deletes0 s; added_deletes1 s; added_deletes2 s;
    cached_cells s; collided_cells s; disk_usage s; memory_usage s].

Lemma codec_RangeStat s : ok_RangeStat s ->
  codec (RangeStat_encode s) (RangeStat_encoded_length s) RangeStat_decode s.
Proof.
  intros (H1 & H2 & H3). destruct s; fields.
  repeat match goal with H : Forall _ (_ :: _) |- _ => inversion H; subst; clear H end.
  unfold RangeStat_encode, RangeStat_decode. codec_record. unfold RangeStat_encoded_length. fields. lia.
Qed.

#[export] Hint Resolve codec_ScanSpec codec_RangeStat : codec.

(** The persistent and transmitted records round trip: a [ScanSpec], a
    [RangeState] and a range's statistics are written in exactly the number of
    bytes their [encoded_length] announces, and decoding gives the record back
    and stops right behind it. *)
Theorem records_roundtrip spec state stat : ok_ScanSpec spec -> ok_RangeState state -> ok_RangeStat stat ->
  codec (ScanSpec_encode spec) (ScanSpec_encoded_length spec) (ScanSpec_decode ScanSpec_make) spec /\
  codec (RangeState_encode state) (RangeState_encoded_length state) RangeState_decode state /\
  codec (RangeStat_encode stat) (RangeStat_encoded_length stat) RangeStat_decode stat.
Proof. intros. auto using codec_ScanSpec, codec_RangeState, codec_RangeStat. Qed.

Definition sample_spec : ScanSpec :=
  {| row_limit := 10; max_versions := 0; columns := [[97]]; cell_intervals := [];
     row_intervals := [{| ri_start := [98]; ri_start_inclusive := true; ri_end := [99]; ri_end_inclusive := false |}];
     time_interval := (0, END_OF_TIME); return_deletes := false |}.
Definition sample_state : RangeState :=
  {| st_state := SPLIT_SHRUNK; st_timestamp := {| logical := -1; real := 7 |}; st_soft_limit := 200;
     st_transfer_log := [47]; st_split_point := [109]; st_old_start_row := [] |}.
Definition sample_stat : RangeStat :=
  {| rst_table := {| ti_name := [116]; ti_id := 3; ti_generation := 1 |};
     rst_range := {| rs_start_row := []; rs_end_row := [255; 255] |};
     added_inserts := 1; added_deletes0 := 2; added_deletes1 := 3; added_deletes2 := 4;
     cached_cells := 5; collided_cells := 6; disk_usage := 7; memory_usage := 8 |}.

Ltac solve_ok := repeat split; repeat constructor; vm_compute; intuition discriminate.

Lemma records_roundtrip_witness :
  codec (ScanSpec_encode sample_spec) (ScanSpec_encoded_length sample_spec) (ScanSpec_decode ScanSpec_make) sample_spec /\
  codec (RangeState_encode sample_state) (RangeState_encoded_length sample_state) RangeState_decode sample_state /\
  codec (RangeStat_encode sample_stat) (RangeStat_encoded_length sample_stat) RangeStat_decode sample_stat.
Proof. apply (records_roundtrip sample_spec sample_state sample_stat); solve_ok. Defined.

(** [RangeServerStat::encoded_length] is 24 bytes more than [encode] writes:
    the constant 28 stands where only the 4-byte count is written; the decoder
    reads the statistics back all the same. *)
Theorem server_stat_length_overstated l : zlen l < 2 ^ 32 -> Forall ok_RangeStat l ->
  exists b, RangeServerStat_encode l = Ok b /\ zlen b + 24 = RangeServerStat_encoded_length l /\
    reads (RangeServerStat_decode []) b l.
Proof.
  intros Hl Hok. assert (R : in_range 32 (zlen l)) by (split; [apply zlen_nonneg|assumption]).
  assert (C : codec (RangeServerStat_encode l) (4 + (sum_len RangeStat_encoded_length l + 0)) (RangeServerStat_decode []) l).
  { unfold RangeServerStat_encode, RangeServerStat_decode.
    eapply codec_bind; [now apply codec_u32|].
    eapply codec_bind; [apply codec_counted with (ok := ok_RangeStat); eauto with codec|]. apply codec_ret. }
  destruct C as (b & E & N & Rd). exists b. split; [assumption|]. split; [|assumption].
  unfold RangeServerStat_encoded_length. lia.
Qed.

Lemma server_stat_length_overstated_witness :
  exists b, RangeServerStat_encode [sample_stat] = Ok b /\ zlen b + 24 = RangeServerStat_encoded_length [sample_stat] /\
    reads (RangeServerStat_decode []) b [sample_stat].
Proof. apply (server_stat_length_overstated [sample_stat]); solve_ok. Defined.
