(* ===== verification/CommBuf.v ===== *)
(** * Message buffers and request dispatch

    [AsyncComm/Header.h], [HeaderBuilder], [CommBuf], [Event], the header work of
    [Comm::send_request], and the shape common to the [ConnectionHandler::handle]
    members of the servers: read the command, pick a request handler, decode the
    arguments, call the server or answer with an error.

    A [CommBuf] is the size of its primary buffer, what has been written into
    it, and its extended buffer; a write past the end of the primary buffer is
    [Fault]. *)
From S2P Require Import Prelude Errors Serialization ByteString Wire.
From Stdlib Require Import ZArith Lia List Bool.
Import ListNotations.
Open Scope Z_scope.
Open Scope result_scope.

(** ** Headers *)

Definition VERSION : Z := 1.
Definition PROTOCOL_DFSBROKER : Z := 1.
Definition PROTOCOL_HYPERSPACE : Z := 2.
Definition PROTOCOL_HYPERTABLE_MASTER : Z := 3.
Definition PROTOCOL_HYPERTABLE_RANGESERVER : Z := 4.
Definition FLAGS_BIT_REQUEST : Z := 0x01.
Definition FLAGS_BIT_IGNORE_RESPONSE : Z := 0x02.
Definition FLAGS_MASK_REQUEST : Z := 0xFE.

(** [struct Header::Common], packed. *)
Record Header := {
  version : Z; protocol : Z; flags : Z; header_len : Z; id : Z; gid : Z; total_len : Z }.

Definition sizeof_Header : Z := 16.

(** The bytes of the structure on a little-endian host, and back. *)
Definition Header_bytes (h : Header) : list Z :=
  [u8 (version h); u8 (protocol h); u8 (flags h); u8 (header_len h)] ++
  encode_i32 (id h) ++ encode_i32 (gid h) ++ encode_i32 (total_len h).
Definition Header_read (m : list Z) : result Header :=
  match m with
  | v :: p :: f :: hl :: m' =>
      if 12 <=? zlen m' then
        Ok {| version := v; protocol := p; flags := f; header_len := hl;
              id := le_value (firstn 4 m'); gid := le_value (firstn 4 (skipn 4 m'));
              total_len := le_value (firstn 4 (skipn 8 m')) |}
      else Fault
  | _ => Fault
  end.

Record HeaderBuilder := { m_id : Z; m_group_id : Z; m_total_len : Z; m_protocol : Z; m_flags : Z }.

Definition HeaderBuilder_make (protocol gid : Z) : HeaderBuilder :=
  {| m_id := 0; m_group_id := u32 gid; m_total_len := 0; m_protocol := protocol; m_flags := 0 |}.

Definition initialize_from_request (h : Header) : HeaderBuilder :=
  {| m_id := id h; m_group_id := gid h; m_total_len := 0; m_protocol := protocol h; m_flags := flags h |}.

Definition set_total_len (hb : HeaderBuilder) (n : Z) : HeaderBuilder :=
  {| m_id := m_id hb; m_group_id := m_group_id hb; m_total_len := n;
     m_protocol := m_protocol hb; m_flags := m_flags hb |}.

Definition HeaderBuilder_encode (hb : HeaderBuilder) : list Z :=
  Header_bytes {| version := VERSION; protocol := m_protocol hb; flags := m_flags hb;
                  header_len := sizeof_Header; id := m_id hb; gid := m_group_id hb;
                  total_len := m_total_len hb |}.

(** ** Buffers *)

Record CommBuf := { cb_size : Z; cb_data : list Z; cb_ext : list Z }.

Definition put (c : CommBuf) (l : list Z) : result CommBuf :=
  if zlen (cb_data c) + zlen l <=? cb_size c
  then Ok {| cb_size := cb_size c; cb_data := cb_data c ++ l; cb_ext := cb_ext c |}
  else Fault.

(** The constructors; [len] is a [uint32_t].  Without an extended buffer [ext]
    is empty. *)
Definition CommBuf_make (hb : HeaderBuilder) (len : Z) (ext : list Z) : result CommBuf :=
  let len := u32 (len + sizeof_Header) in
  put {| cb_size := len; cb_data := []; cb_ext := ext |}
      (HeaderBuilder_encode (set_total_len hb (u32 (len + u32 (zlen ext))))).

Fixpoint append_all (c : CommBuf) (es : list (result (list Z))) : result CommBuf :=
  match es with
  | [] => Ok c
  | e :: es => l <- e ;; c' <- put c l ;; append_all c' es
  end.

(** A buffer made and filled by the encoders [es]. *)
Definition message_of (hb : HeaderBuilder) (len : Z) (ext : list Z) (es : list (result (list Z))) : result CommBuf :=
  c <- CommBuf_make hb len ext ;; append_all c es.

(** What a [create_..._request] function does: the header, the length it
    announces, the extended buffer and the values it appends. *)
Record Request := {
  rq_builder : HeaderBuilder; rq_len : Z; rq_ext : list Z; rq_parts : list (result (list Z)) }.

Definition build (rq : Request) : result CommBuf :=
  message_of (rq_builder rq) (rq_len rq) (rq_ext rq) (rq_parts rq).

(** [reset_data_pointers()]: the primary buffer must be full. *)
Definition reset_data_pointers (c : CommBuf) : result unit :=
  if zlen (cb_data c) =? cb_size c then Ok tt else Throw FAILED_EXPECTATION.

(** The header in front of a filled buffer, with other flags and id. *)
Definition patch_header (l : list Z) (f i : Z) : list Z :=
  firstn 2 l ++ [u8 f] ++ firstn 1 (skipn 3 l) ++ encode_i32 i ++ skipn 8 l.

(** [Comm::send_request] with the request id drawn from [ms_next_request_id]
    when there is a response handler: the bytes that go out. *)
Definition send_request (request_id : option Z) (c : CommBuf) : result (list Z) :=
  _ <- reset_data_pointers c ;;
  h <- Header_read (cb_data c) ;;
  let f := Z.lor (flags h) FLAGS_BIT_REQUEST in
  let '(f, i) := match request_id with
                 | None => (Z.lor f FLAGS_BIT_IGNORE_RESPONSE, 0)
                 | Some i => (f, i)
                 end in
  Ok (patch_header (cb_data c) f i ++ cb_ext c).

(** [Comm::send_response]. *)
Definition send_response (c : CommBuf) : result (list Z) :=
  _ <- reset_data_pointers c ;;
  h <- Header_read (cb_data c) ;;
  Ok (patch_header (cb_data c) (Z.land (flags h) FLAGS_MASK_REQUEST) (id h) ++ cb_ext c).

(** ** Events *)

Record Event := { ev_header : Header; message : list Z; message_len : Z; thread_group : Z }.

(** The constructor for a message received on connection [conn_id]. *)
Definition Event_make (conn_id : Z) (m : list Z) : result Event :=
  h <- Header_read m ;;
  Ok {| ev_header := h;
        message := skipn (Z.to_nat (header_len h)) m;
        message_len := u32 (total_len h - header_len h);
        thread_group := if gid h =? 0 then 0 else Z.lor (Z.shiftl (u32 conn_id) 32) (gid h) |}.

(** ** Dispatch *)

Inductive reply (Call : Type) :=
| Invoke (c : Call)
| ErrorResponse (c : Code)
| Ignored.
Arguments Invoke {Call} c.
Arguments ErrorResponse {Call} c.
Arguments Ignored {Call}.

(** A request handler's [run()]: it decodes behind the command and calls the
    server; an exception is answered with its own code or with
    [PROTOCOL_ERROR]. *)
Inductive on_error := own_code | protocol_error.
Record RequestHandler (Call : Type) := { h_decode : dec Call; h_catch : on_error }.
Arguments h_decode {Call} r.
Arguments h_catch {Call} r.

Definition run {Call} (h : RequestHandler Call) (ev : Event) : result (reply Call) :=
  match h_decode h {| ip := skipn 2 (message ev); remain := u64 (message_len ev - 2) |} with
  | Ok (c, _) => Ok (Invoke c)
  | Throw c => Ok (ErrorResponse (match h_catch h with own_code => c | protocol_error => PROTOCOL_ERROR end))
  | Fault => Fault
  end.

(** [ConnectionHandler::handle]: [sv_short] when the command is kept in a
    [short]. *)
Record Service (Call : Type) := {
  sv_short : bool; sv_max : Z; sv_handler : Z -> option (RequestHandler Call) }.
Arguments sv_short {Call} s.
Arguments sv_max {Call} s.
Arguments sv_handler {Call} s _.

Definition read_command (short : bool) (ev : Event) : result Z :=
  r <- decode_i16 {| ip := message ev; remain := message_len ev |} ;;
  Ok (if short then signed 16 (fst r) else fst r).

Definition dispatch {Call} (sv : Service Call) (ev : Event) : result (reply Call) :=
  match read_command (sv_short sv) ev with
  | Ok command =>
      if (command <? 0) || (sv_max sv <=? command) then Ok (ErrorResponse PROTOCOL_ERROR)
      else match sv_handler sv command with
           | Some h => run h ev
           | None => Ok (ErrorResponse PROTOCOL_ERROR)
           end
  | Throw _ => Ok (ErrorResponse PROTOCOL_ERROR)
  | Fault => Fault
  end.

(** A decoded [str16] used as a C string. *)
Definition decode_str16_cstr : dec (list Z) :=
  r <~ decode_str16_ptr ;;
  match cstr (fst r) with
  | Some s => dret s
  | None => fun _ => Fault
  end.

(** The rest of the message as a buffer of [uint32_t] size. *)
Definition decode_rest : dec (list Z) := fun s =>
  let n := u32 (remain s) in
  if n <=? zlen (ip s) then Ok (firstn (Z.to_nat n) (ip s), s) else Fault.

(** [decode_vstr] with a [uint32_t] length; [append_vstr(const void *, uint32_t)]. *)
Definition decode_vstr32 : dec (list Z) :=
  s <~ decode_vstr ;; dret (firstn (Z.to_nat (u32 (zlen s))) s).
Definition encode_vstr32 (s : list Z) : result (list Z) := encode_vstr (firstn (Z.to_nat (u32 (zlen s))) s).

(** ** Building and receiving a message *)

Definition wf_builder (hb : HeaderBuilder) : Prop :=
  is_byte (m_protocol hb) /\ is_byte (m_flags hb) /\ in_range 32 (m_id hb) /\ in_range 32 (m_group_id hb).

Lemma wf_builder_make p g : is_byte p -> wf_builder (HeaderBuilder_make p g).
Proof.
  intros H. repeat split; cbn [HeaderBuilder_make m_protocol m_flags m_id m_group_id];
    try apply H; try lia; apply wrap_range; lia.
Qed.

Lemma zlen_Header_bytes h : zlen (Header_bytes h) = 16.
Proof. reflexivity. Qed.

Definition wf_header (h : Header) : Prop :=
  is_byte (version h) /\ is_byte (protocol h) /\ is_byte (flags h) /\ is_byte (header_len h) /\
  in_range 32 (id h) /\ in_range 32 (gid h) /\ in_range 32 (total_len h).

Lemma le_value_i32 v : in_range 32 v -> le_value (encode_i32 v) = v.
Proof.
  intros H. unfold encode_i32. rewrite le_value_le_bytes. change (8 * Z.of_nat 4) with 32.
  rewrite wrap_idem by lia. now apply wrap_small.
Qed.

Lemma Header_read_bytes h m : wf_header h -> Header_read (Header_bytes h ++ m) = Ok h.
Proof.
  intros (H1 & H2 & H3 & H4 & H5 & H6 & H7). unfold Header_bytes, Header_read. cbn [app].
  rewrite <- !app_assoc.
  assert (L : forall v, length (encode_i32 v) = 4%nat) by (intros; apply length_le_bytes).
  replace (12 <=? zlen _) with true by
    (symmetry; apply Z.leb_le; unfold zlen; rewrite !length_app, !L; lia).
  assert (F : forall v x, firstn 4 (encode_i32 v ++ x) = encode_i32 v) by (intros; rewrite <- (L v); apply firstn_app_exact).
  assert (S4 : forall v x, skipn 4 (encode_i32 v ++ x) = x) by (intros; rewrite <- (L v); apply skipn_app_exact).
  change 8%nat with (4 + 4)%nat. rewrite <- skipn_skipn, !S4, !F, !le_value_i32 by assumption.
  rewrite !wrap_small by assumption. now destruct h.
Qed.

Lemma patch_header_bytes h f i m :
  patch_header (Header_bytes h ++ m) f i =
  Header_bytes {| version := version h; protocol := protocol h; flags := f; header_len := header_len h;
                  id := i; gid := gid h; total_len := total_len h |} ++ m.
Proof. reflexivity. Qed.

Lemma append_all_ok es : forall c l, cat es = Ok l -> zlen (cb_data c) + zlen l <= cb_size c ->
  append_all c es = Ok {| cb_size := cb_size c; cb_data := cb_data c ++ l; cb_ext := cb_ext c |}.
Proof.
  induction es as [|e es IH]; cbn [cat append_all]; intros c l E H.
  - injection E as <-. rewrite app_nil_r. now destruct c.
  - apply bind_ok in E as (a & Ea & E). apply bind_ok in E as (b & Eb & [= <-]).
    rewrite Ea. cbn [bind]. unfold put. rewrite zlen_app in H. pose proof (zlen_nonneg b).
    rewrite (proj2 (Z.leb_le _ _)) by lia. cbn [bind].
    rewrite (IH _ b Eb) by (cbn [cb_data cb_size]; rewrite zlen_app; lia).
    cbn [cb_size cb_data cb_ext]. now rewrite app_assoc.
Qed.

Lemma append_all_over es : forall c l, cat es = Ok l -> cb_size c < zlen (cb_data c) + zlen l ->
  zlen (cb_data c) <= cb_size c -> append_all c es = Fault.
Proof.
  induction es as [|e es IH]; cbn [cat append_all]; intros c l E H H0.
  - injection E as <-. change (zlen (@nil Z)) with 0 in H. lia.
  - apply bind_ok in E as (a & Ea & E). apply bind_ok in E as (b & Eb & [= <-]).
    rewrite Ea. cbn [bind]. unfold put. rewrite zlen_app in H.
    destruct (Z.leb_spec (zlen (cb_data c) + zlen a) (cb_size c)); [|reflexivity]. cbn [bind].
    apply (IH _ b Eb); cbn [cb_data cb_size]; rewrite zlen_app; lia.
Qed.

(** The header that goes out. *)
Definition sent_header (hb : HeaderBuilder) (request_id : option Z) (n : Z) : Header :=
  {| version := VERSION; protocol := m_protocol hb;
     flags := match request_id with
              | None => Z.lor (Z.lor (m_flags hb) FLAGS_BIT_REQUEST) FLAGS_BIT_IGNORE_RESPONSE
              | Some _ => Z.lor (m_flags hb) FLAGS_BIT_REQUEST
              end;
     header_len := sizeof_Header;
     id := match request_id with None => 0 | Some i => i end;
     gid := m_group_id hb; total_len := n |}.

Definition ok_request_id (i : option Z) : Prop := match i with None => True | Some i => in_range 32 i end.

Lemma wf_sent_header hb i n : wf_builder hb -> ok_request_id i -> in_range 32 n -> wf_header (sent_header hb i n).
Proof.
  intros (H1 & H2 & H3 & H4) Hi Hn. unfold wf_header; cbn [sent_header version protocol flags header_len id gid total_len].
  assert (is_byte VERSION /\ is_byte sizeof_Header /\ is_byte FLAGS_BIT_REQUEST /\ is_byte FLAGS_BIT_IGNORE_RESPONSE)
    as (? & ? & ? & ?) by (repeat split; cbv; congruence).
  split; [assumption|]. split; [assumption|].
  split; [destruct i; repeat (apply lor_range; [lia| |assumption]); assumption|].
  split; [assumption|]. split; [destruct i; [exact Hi|split; lia]|]. split; assumption.
Qed.

(** A message whose encoders write as much as was announced is accepted. *)
Lemma message_sent hb n ext es l i : wf_builder hb -> cat es = Ok l -> zlen l = n -> 16 + n + zlen ext < 2 ^ 32 ->
  (c <- message_of hb n ext es ;; send_request i c) =
  Ok (Header_bytes (sent_header hb i (16 + n + zlen ext)) ++ l ++ ext).
Proof.
  intros Hhb El <- Hn. pose proof (zlen_nonneg l). pose proof (zlen_nonneg ext). unfold message_of, CommBuf_make, sizeof_Header.
  rewrite (wrap_small 32 (zlen l + 16)), (wrap_small 32 (zlen ext)), wrap_small by (split; lia).
  unfold put at 1. cbn [cb_data cb_size cb_ext app]. unfold HeaderBuilder_encode. rewrite zlen_Header_bytes.
  change (zlen (@nil Z)) with 0. rewrite (proj2 (Z.leb_le _ _)) by lia. cbn [bind].
  rewrite (append_all_ok es _ l El) by (cbn [cb_data cb_size]; rewrite zlen_Header_bytes; lia).
  cbn [bind cb_data cb_size cb_ext]. unfold send_request, reset_data_pointers. cbn [cb_data cb_size cb_ext].
  rewrite zlen_app, zlen_Header_bytes, (proj2 (Z.eqb_eq _ _)) by lia. cbn [bind].
  destruct Hhb as (H1 & H2 & H3 & H4). rewrite Header_read_bytes.
  - cbn [bind flags set_total_len m_flags m_protocol m_group_id m_total_len m_id].
    destruct i; rewrite patch_header_bytes, <- app_assoc; unfold sent_header;
      cbn [version protocol flags header_len id gid total_len set_total_len m_flags m_protocol m_group_id m_total_len];
      do 4 f_equal; lia.
  - repeat split; cbn [version protocol flags header_len id gid total_len set_total_len m_flags m_protocol m_group_id m_total_len m_id];
      try apply H1; try apply H2; try apply H3; try apply H4; unfold VERSION, sizeof_Header; lia.
Qed.

(** A buffer announced too short is overrun by the encoders, one announced too
    long is refused when it is sent. *)
Lemma message_missized hb n es l i : cat es = Ok l -> zlen l <> n -> 0 <= n -> 16 + n < 2 ^ 32 ->
  (c <- message_of hb n [] es ;; send_request i c) =
  if n <? zlen l then Fault else Throw FAILED_EXPECTATION.
Proof.
  intros El Hne H0 Hn. unfold message_of, CommBuf_make, sizeof_Header.
  change (u32 (zlen (@nil Z))) with 0. rewrite (wrap_small 32 (n + 16)) by (split; lia).
  unfold put at 1. cbn [cb_data cb_size cb_ext app]. unfold HeaderBuilder_encode. rewrite zlen_Header_bytes.
  change (zlen (@nil Z)) with 0. rewrite (proj2 (Z.leb_le _ _)) by lia. cbn [bind].
  destruct (Z.ltb_spec n (zlen l)).
  - rewrite (append_all_over es _ l El); [reflexivity|cbn [cb_data cb_size]; rewrite zlen_Header_bytes; lia..].
  - rewrite (append_all_ok es _ l El) by (cbn [cb_data cb_size]; rewrite zlen_Header_bytes; lia).
    cbn [bind]. unfold send_request, reset_data_pointers. cbn [cb_data cb_size].
    rewrite zlen_app, zlen_Header_bytes, (proj2 (Z.eqb_neq _ _)) by lia. reflexivity.
Qed.

(** The event such a message arrives as. *)
Lemma Event_received h body conn : wf_header h -> header_len h = 16 -> total_len h = 16 + zlen body ->
  Event_make conn (Header_bytes h ++ body) =
  Ok {| ev_header := h; message := body; message_len := zlen body;
        thread_group := if gid h =? 0 then 0 else Z.lor (Z.shiftl (u32 conn) 32) (gid h) |}.
Proof.
  intros Hh H16 Ht. unfold Event_make. rewrite Header_read_bytes by assumption. cbn [bind].
  rewrite H16, Ht. f_equal. f_equal. rewrite wrap_small; [lia|].
  destruct Hh as (_ & _ & _ & _ & _ & _ & H). rewrite Ht in H. unfold in_range in *. pose proof (zlen_nonneg body). lia.
Qed.

(** ** A call sent and served *)

(** The whole message, header included, has a 32-bit length. *)
Definition fits (rq : Request) : Prop := 16 + rq_len rq + zlen (rq_ext rq) < 2 ^ 32.

(** [delivers sv rq call]: whatever the request id and the connection, the
    request is built and sent without error and the service it arrives at
    invokes [call]; the header carries the group of the request. *)
Definition delivers {Call} (sv : Service Call) (rq : Request) (call : Call) : Prop :=
  forall i conn, ok_request_id i ->
    exists bytes ev, (c <- build rq ;; send_request i c) = Ok bytes /\ Event_make conn bytes = Ok ev /\
      gid (ev_header ev) = m_group_id (rq_builder rq) /\ dispatch sv ev = Ok (Invoke call).

Lemma delivers_intro {Call} (sv : Service Call) hb n ext cmd es l h call s' :
  wf_builder hb -> 0 <= cmd < Z.min 32768 (sv_max sv) -> cat es = Ok l -> 2 + zlen l = n -> 16 + n + zlen ext < 2 ^ 32 ->
  sv_handler sv cmd = Some h ->
  h_decode h {| ip := l ++ ext; remain := zlen l + zlen ext |} = Ok (call, s') ->
  delivers sv {| rq_builder := hb; rq_len := n; rq_ext := ext; rq_parts := Ok (encode_i16 cmd) :: es |} call.
Proof.
  intros Hhb Hc El Hn Hmax Hh Hd i conn Hi. pose proof (zlen_nonneg l). pose proof (zlen_nonneg ext).
  set (body := (encode_i16 cmd ++ l) ++ ext).
  assert (Hb : zlen body = n + zlen ext) by (unfold body; rewrite !zlen_app; change (zlen (encode_i16 cmd)) with 2; lia).
  eexists. eexists. split; [|split; [|split]].
  - apply message_sent with (l := encode_i16 cmd ++ l); [assumption| | |assumption].
    + cbn [cat rq_parts]. now rewrite El.
    + rewrite zlen_app. exact Hn.
  - apply Event_received; [|reflexivity|cbn [sent_header total_len rq_len rq_ext]; fold body; lia].
    apply wf_sent_header; [assumption..|split; cbn [rq_len rq_ext]; lia].
  - reflexivity.
  - unfold dispatch, read_command. cbn [message message_len rq_ext]. fold body. rewrite Hb. unfold body.
    rewrite <- app_assoc, decode_i16_encode by lia. cbn [bind fst].
    rewrite wrap_small by (split; lia).
    replace (if sv_short sv then signed 16 cmd else cmd) with cmd by
      (destruct (sv_short sv); [rewrite signed_small by lia|]; reflexivity).
    rewrite (proj2 (Z.ltb_ge cmd 0)), (proj2 (Z.leb_gt (sv_max sv) cmd)) by lia. cbn [orb]. rewrite Hh.
    unfold run. cbn [message message_len].
    replace (skipn 2 (encode_i16 cmd ++ l ++ ext)) with (l ++ ext) by reflexivity.
    rewrite wrap_small by (split; lia). replace (n + zlen ext - 2) with (zlen l + zlen ext) by lia.
    now rewrite Hd.
Qed.

(** A request all of whose arguments are in the primary buffer. *)
Lemma delivers_codec {Call} (sv : Service Call) p g n cmd es k h call :
  codec (cat es) k (h_decode h) call -> n = 2 + k -> 16 + n < 2 ^ 32 -> sv_handler sv cmd = Some h ->
  is_byte p -> 0 <= cmd < Z.min 32768 (sv_max sv) ->
  delivers sv {| rq_builder := HeaderBuilder_make p g; rq_len := n; rq_ext := [];
                 rq_parts := Ok (encode_i16 cmd) :: es |} call.
Proof.
  intros (l & El & Nl & Rl) Hn Hmax Hh Hp Hc. pose proof (zlen_nonneg l).
  eapply delivers_intro; [now apply wf_builder_make|assumption|exact El|lia|
    change (zlen (@nil Z)) with 0; lia|exact Hh|].
  apply Rl. change (zlen (@nil Z)) with 0. lia.
Qed.

(** One with an extended buffer behind the arguments. *)
Lemma delivers_ext {Call A} (sv : Service Call) p g n ext cmd es k d (f : A -> list Z -> Call) a c :
  codec (cat es) k d a -> n = 2 + k -> 16 + n + zlen ext < 2 ^ 32 ->
  sv_handler sv cmd = Some {| h_decode := x <~ d ;; r <~ decode_rest ;; dret (f x r); h_catch := c |} ->
  is_byte p -> 0 <= cmd < Z.min 32768 (sv_max sv) ->
  delivers sv {| rq_builder := HeaderBuilder_make p g; rq_len := n; rq_ext := ext;
                 rq_parts := Ok (encode_i16 cmd) :: es |} (f a ext).
Proof.
  intros (l & El & Nl & Rl) Hn Hmax Hh Hp Hc. pose proof (zlen_nonneg l). pose proof (zlen_nonneg ext).
  eapply delivers_intro; [now apply wf_builder_make|assumption|exact El|lia|lia|exact Hh|].
  cbn [h_decode]. unfold dbind. rewrite Rl by lia. cbn [bind]. unfold decode_rest. cbn [ip remain].
  replace (zlen l + zlen ext - zlen l) with (zlen ext) by lia. rewrite wrap_small by (split; lia).
  rewrite (proj2 (Z.leb_le _ _)) by lia. cbn [bind]. unfold zlen at 1. now rewrite Nat2Z.id, firstn_all.
Qed.

Lemma codec_str16 s : no_nul s -> zlen s < 2 ^ 16 ->
  codec (Ok (encode_str16 s)) (encoded_length_str16 s) decode_str16_cstr s.
Proof.
  intros Hn Hl. pose proof (zlen_nonneg s). exists (encode_str16 s). rewrite str16_bytes by assumption.
  assert (E : zlen (encode_i16 (zlen s) ++ s ++ [0]) = encoded_length_str16 s).
  { rewrite !zlen_app. change (zlen (encode_i16 _)) with 2. change (zlen [0]) with 1. unfold encoded_length_str16. lia. }
  split; [reflexivity|]. split; [exact E|]. intros m r Hr. rewrite E in *. unfold encoded_length_str16 in *.
  unfold decode_str16_cstr, decode_str16_ptr, dbind. rewrite <- app_assoc, decode_i16_encode by lia. cbn [bind ip remain fst].
  rewrite wrap_small by (split; lia). rewrite <- app_assoc. cbn [app].
  rewrite cstr_app by assumption. unfold dret. do 2 f_equal. f_equal.
  - change (s ++ 0 :: m) with (s ++ [0] ++ m). rewrite app_assoc.
    replace (Z.to_nat (zlen s + 1)) with (length (s ++ [0])) by (rewrite length_app; unfold zlen; cbn; lia).
    apply skipn_app_exact.
  - rewrite wrap_small by (split; lia). lia.
Qed.

Lemma codec_vstr32 s : zlen s < 2 ^ 32 -> codec (encode_vstr32 s) (vstr_len s) decode_vstr32 s.
Proof.
  intros H. pose proof (zlen_nonneg s). unfold encode_vstr32, decode_vstr32.
  assert (E : firstn (Z.to_nat (u32 (zlen s))) s = s).
  { rewrite wrap_small by (split; lia). unfold zlen. now rewrite Nat2Z.id, firstn_all. }
  rewrite E. rewrite <- E at 3. apply (codec_map _ _ _ (fun s => firstn (Z.to_nat (u32 (zlen s))) s)).
  apply codec_vstr. lia.
Qed.

#[export] Hint Resolve codec_str16 codec_vstr32 : codec.

(** A message whose bytes are all there never makes the service fault, when the
    decoders of its handlers are sound. *)
Class SoundService {Call} (sv : Service Call) : Prop :=
  sound_service : forall cmd h, sv_handler sv cmd = Some h -> DecSound (h_decode h).

Lemma dispatch_safe {Call} (sv : Service Call) `{SoundService Call sv} ev :
  message_len ev = zlen (message ev) -> message_len ev < 2 ^ 64 -> dispatch sv ev <> Fault.
Proof.
  intros Hl Hb. unfold dispatch, read_command. pose proof (zlen_nonneg (message ev)).
  assert (Hs0 : bounded {| ip := message ev; remain := message_len ev |}) by (unfold bounded; cbn; lia).
  destruct (decode_i16_sound _ Hs0) as [Hnf Hadv].
  assert (H2 : forall v s', decode_i16 {| ip := message ev; remain := message_len ev |} = Ok (v, s') -> 2 <= message_len ev).
  { intros v s'. unfold decode_i16, decode_le, dbind, HT_DECODE_NEED. cbn [remain].
    destruct (Z.ltb_spec (message_len ev) (Z.of_nat 2)); [discriminate|]. intros _. lia. }
  destruct (decode_i16 _) as [[v s']| |]; [|discriminate|now destruct Hnf]. cbn [bind fst].
  specialize (H2 _ _ eq_refl).
  destruct (_ || _); [discriminate|]. destruct (sv_handler sv _) as [h|] eqn:Eh; [|discriminate].
  unfold run. destruct (sound_service _ _ Eh {| ip := skipn 2 (message ev); remain := u64 (message_len ev - 2) |}) as [Hr _].
  - unfold bounded. cbn [ip remain]. rewrite wrap_small by (split; lia). unfold zlen in *. rewrite length_skipn. lia.
  - now destruct (h_decode h _) as [[]| |].
Qed.
