(* ===== verification/Protocol.v ===== *)
(** * The request protocols

    The [create_..._request] functions of the four protocols
    ([RangeServerProtocol.cc], [MasterProtocol.cc], [Hyperspace/Protocol.cc],
    [DfsBroker/Lib/Protocol.cc]) and the request handlers that decode them on
    the other side.  Each protocol has a type of calls (the server's members
    with the arguments the handler passes), the request for a call, and the
    service that dispatches what it receives.

    The theorems say that every well-formed request fills its buffer exactly
    and arrives as the call it was made for; that the services whose strings are
    length checked cannot be made to read outside a message; and what goes
    wrong in the two places where a length is not what it should be. *)
From S2P Require Import Prelude Errors Serialization ByteString Wire CommBuf.
From Stdlib Require Import ZArith Lia List Bool.
Import ListNotations.
Open Scope Z_scope.
Open Scope result_scope.

Definition handler {Call} (c : on_error) (d : dec Call) : option (RequestHandler Call) :=
  Some {| h_decode := d; h_catch := c |}.

(** A request without extended buffer. *)
Definition request (p g len : Z) (parts : list (result (list Z))) : Request :=
  {| rq_builder := HeaderBuilder_make p g; rq_len := len; rq_ext := []; rq_parts := parts |}.
Definition request_ext (p g len : Z) (ext : list Z) (parts : list (result (list Z))) : Request :=
  {| rq_builder := HeaderBuilder_make p g; rq_len := len; rq_ext := ext; rq_parts := parts |}.

(** ** Range server *)

Module RangeServerProtocol.

Definition COMMAND_LOAD_RANGE : Z := 0.
Definition COMMAND_UPDATE : Z := 1.
Definition COMMAND_CREATE_SCANNER : Z := 2.
Definition COMMAND_FETCH_SCANBLOCK : Z := 3.
Definition COMMAND_COMPACT : Z := 4.
Definition COMMAND_STATUS : Z := 5.
Definition COMMAND_SHUTDOWN : Z := 6.
Definition COMMAND_DUMP_STATS : Z := 7.
Definition COMMAND_DESTROY_SCANNER : Z := 8.
Definition COMMAND_DROP_TABLE : Z := 9.
Definition COMMAND_DROP_RANGE : Z := 10.
Definition COMMAND_REPLAY_BEGIN : Z := 11.
Definition COMMAND_REPLAY_LOAD_RANGE : Z := 12.
Definition COMMAND_REPLAY_UPDATE : Z := 13.
Definition COMMAND_REPLAY_COMMIT : Z := 14.
Definition COMMAND_GET_STATISTICS : Z := 15.
Definition COMMAND_MAX : Z := 16.

Inductive rs_call :=
| rs_load_range (t : TableIdentifier) (r : RangeSpec) (transfer_log : list Z) (st : RangeState)
| rs_update (t : TableIdentifier) (mods : list Z)
| rs_create_scanner (t : TableIdentifier) (r : RangeSpec) (s : ScanSpec)
| rs_destroy_scanner (scanner_id : Z)
| rs_fetch_scanblock (scanner_id : Z)
| rs_drop_table (t : TableIdentifier)
| rs_status
| rs_shutdown
| rs_dump_stats
| rs_replay_begin (group : Z)
| rs_replay_load_range (t : TableIdentifier) (r : RangeSpec) (st : RangeState)
| rs_replay_update (data : list Z)
| rs_replay_commit
| rs_drop_range (t : TableIdentifier) (r : RangeSpec)
| rs_get_statistics
| rs_compact (t : TableIdentifier) (r : RangeSpec) (compaction_type : Z).

Abbreviation RS := PROTOCOL_HYPERTABLE_RANGESERVER.

Definition rs_create_request_load_range t r log st : Request :=
  request RS 0 (2 + TableIdentifier_encoded_length t + RangeSpec_encoded_length r + encoded_length_str16 log +
                RangeState_encoded_length st)
    [Ok (encode_i16 COMMAND_LOAD_RANGE); TableIdentifier_encode t; RangeSpec_encode r; Ok (encode_str16 log);
     RangeState_encode st].
Definition rs_create_request_update t buffer : Request :=
  request_ext RS 0 (2 + TableIdentifier_encoded_length t) buffer
    [Ok (encode_i16 COMMAND_UPDATE); TableIdentifier_encode t].
Definition rs_create_request_create_scanner t r s : Request :=
  request RS 0 (2 + TableIdentifier_encoded_length t + RangeSpec_encoded_length r + ScanSpec_encoded_length s)
    [Ok (encode_i16 COMMAND_CREATE_SCANNER); TableIdentifier_encode t; RangeSpec_encode r; ScanSpec_encode s].
Definition rs_create_request_destroy_scanner scanner_id : Request :=
  request RS scanner_id 6 [Ok (encode_i16 COMMAND_DESTROY_SCANNER); Ok (encode_i32 scanner_id)].
Definition rs_create_request_fetch_scanblock scanner_id : Request :=
  request RS scanner_id 6 [Ok (encode_i16 COMMAND_FETCH_SCANBLOCK); Ok (encode_i32 scanner_id)].
Definition rs_create_request_drop_table t : Request :=
  request RS 0 (2 + TableIdentifier_encoded_length t) [Ok (encode_i16 COMMAND_DROP_TABLE); TableIdentifier_encode t].
Definition rs_create_request_status : Request := request RS 0 2 [Ok (encode_i16 COMMAND_STATUS)].
Definition rs_create_request_shutdown : Request := request RS 0 2 [Ok (encode_i16 COMMAND_SHUTDOWN)].
Definition rs_create_request_dump_stats : Request := request RS 0 2 [Ok (encode_i16 COMMAND_DUMP_STATS)].
Definition rs_create_request_replay_begin group : Request :=
  request RS 0 4 [Ok (encode_i16 COMMAND_REPLAY_BEGIN); Ok (encode_i16 group)].
Definition rs_create_request_replay_load_range t r st : Request :=
  request RS 0 (2 + TableIdentifier_encoded_length t + RangeSpec_encoded_length r + RangeState_encoded_length st)
    [Ok (encode_i16 COMMAND_REPLAY_LOAD_RANGE); TableIdentifier_encode t; RangeSpec_encode r; RangeState_encode st].
Definition rs_create_request_replay_update buffer : Request :=
  request_ext RS 0 2 buffer [Ok (encode_i16 COMMAND_REPLAY_UPDATE)].
Definition rs_create_request_replay_commit : Request := request RS 0 2 [Ok (encode_i16 COMMAND_REPLAY_COMMIT)].
Definition rs_create_request_drop_range t r : Request :=
  request RS 0 (2 + TableIdentifier_encoded_length t + RangeSpec_encoded_length r)
    [Ok (encode_i16 COMMAND_DROP_RANGE); TableIdentifier_encode t; RangeSpec_encode r].
Definition rs_create_request_get_statistics : Request := request RS 0 2 [Ok (encode_i16 COMMAND_GET_STATISTICS)].

(** The request for a call; there is none for [compact]. *)
Definition rs_request (c : rs_call) : option Request :=
  match c with
  | rs_load_range t r log st => Some (rs_create_request_load_range t r log st)
  | rs_update t mods => Some (rs_create_request_update t mods)
  | rs_create_scanner t r s => Some (rs_create_request_create_scanner t r s)
  | rs_destroy_scanner i => Some (rs_create_request_destroy_scanner i)
  | rs_fetch_scanblock i => Some (rs_create_request_fetch_scanblock i)
  | rs_drop_table t => Some (rs_create_request_drop_table t)
  | rs_status => Some rs_create_request_status
  | rs_shutdown => Some rs_create_request_shutdown
  | rs_dump_stats => Some rs_create_request_dump_stats
  | rs_replay_begin g => Some (rs_create_request_replay_begin g)
  | rs_replay_load_range t r st => Some (rs_create_request_replay_load_range t r st)
  | rs_replay_update data => Some (rs_create_request_replay_update data)
  | rs_replay_commit => Some rs_create_request_replay_commit
  | rs_drop_range t r => Some (rs_create_request_drop_range t r)
  | rs_get_statistics => Some rs_create_request_get_statistics
  | rs_compact _ _ _ => None
  end.

(** The [run()] members of the request handlers. *)
Definition rs_run_compact : dec rs_call :=
  t <~ TableIdentifier_decode ;; r <~ RangeSpec_decode ;; ct <~ decode_i8 ;; dret (rs_compact t r ct).
Definition rs_run_create_scanner : dec rs_call :=
  t <~ TableIdentifier_decode ;; r <~ RangeSpec_decode ;; s <~ ScanSpec_decode ScanSpec_make ;;
  dret (rs_create_scanner t r s).
Definition rs_run_destroy_scanner : dec rs_call := i <~ decode_i32 ;; dret (rs_destroy_scanner i).
Definition rs_run_drop_range : dec rs_call :=
  t <~ TableIdentifier_decode ;; r <~ RangeSpec_decode ;; dret (rs_drop_range t r).
Definition rs_run_drop_table : dec rs_call := t <~ TableIdentifier_decode ;; dret (rs_drop_table t).
Definition rs_run_fetch_scanblock : dec rs_call := i <~ decode_i32 ;; dret (rs_fetch_scanblock i).
Definition rs_run_load_range : dec rs_call :=
  t <~ TableIdentifier_decode ;; r <~ RangeSpec_decode ;; log <~ decode_str16_cstr ;; st <~ RangeState_decode ;;
  dret (rs_load_range t r log st).
Definition rs_run_replay_begin : dec rs_call := g <~ decode_i16 ;; dret (rs_replay_begin g).
Definition rs_run_replay_load_range : dec rs_call :=
  t <~ TableIdentifier_decode ;; r <~ RangeSpec_decode ;; st <~ RangeState_decode ;; dret (rs_replay_load_range t r st).
Definition rs_run_replay_update : dec rs_call := _ <~ dret tt ;; data <~ decode_rest ;; dret (rs_replay_update data).
Definition rs_run_update : dec rs_call :=
  t <~ TableIdentifier_decode ;; mods <~ decode_rest ;; dret (rs_update t mods).

Definition rs_handler (command : Z) : option (RequestHandler rs_call) :=
  if command =? COMMAND_COMPACT then handler protocol_error rs_run_compact
  else if command =? COMMAND_LOAD_RANGE then handler protocol_error rs_run_load_range
  else if command =? COMMAND_UPDATE then handler protocol_error rs_run_update
  else if command =? COMMAND_CREATE_SCANNER then handler protocol_error rs_run_create_scanner
  else if command =? COMMAND_DESTROY_SCANNER then handler own_code rs_run_destroy_scanner
  else if command =? COMMAND_FETCH_SCANBLOCK then handler own_code rs_run_fetch_scanblock
  else if command =? COMMAND_DROP_TABLE then handler protocol_error rs_run_drop_table
  else if command =? COMMAND_REPLAY_BEGIN then handler protocol_error rs_run_replay_begin
  else if command =? COMMAND_REPLAY_LOAD_RANGE then handler protocol_error rs_run_replay_load_range
  else if command =? COMMAND_REPLAY_UPDATE then handler own_code rs_run_replay_update
  else if command =? COMMAND_REPLAY_COMMIT then handler own_code (dret rs_replay_commit)
  else if command =? COMMAND_DROP_RANGE then handler protocol_error rs_run_drop_range
  else if command =? COMMAND_STATUS then handler own_code (dret rs_status)
  else if command =? COMMAND_SHUTDOWN then handler own_code (dret rs_shutdown)
  else if command =? COMMAND_DUMP_STATS then handler own_code (dret rs_dump_stats)
  else if command =? COMMAND_GET_STATISTICS then handler own_code (dret rs_get_statistics)
  else None.

Definition rs_service : Service rs_call := {| sv_short := false; sv_max := COMMAND_MAX; sv_handler := rs_handler |}.

(** [ConnectionHandler::handle] for messages, with [m_shutdown]. *)
Definition rs_handle (m_shutdown : bool) (ev : Event) : result (bool * reply rs_call) :=
  if m_shutdown then Ok (true, Ignored)
  else
    r <- dispatch rs_service ev ;;
    Ok (match r with Invoke rs_shutdown => true | _ => false end, r).

End RangeServerProtocol.

(** ** Master *)

Module MasterProtocol.

Definition COMMAND_CREATE_TABLE : Z := 0.
Definition COMMAND_GET_SCHEMA : Z := 1.
Definition COMMAND_STATUS : Z := 2.
Definition COMMAND_REGISTER_SERVER : Z := 3.
Definition COMMAND_REPORT_SPLIT : Z := 4.
Definition COMMAND_DROP_TABLE : Z := 5.
Definition COMMAND_SHUTDOWN : Z := 6.
Definition COMMAND_MAX : Z := 7.

Inductive ms_call :=
| ms_create_table (name schema : list Z)
| ms_get_schema (name : list Z)
| ms_status
| ms_register_server (location : list Z)
| ms_report_split (t : TableIdentifier) (r : RangeSpec) (log_dir : list Z) (soft_limit : Z)
| ms_drop_table (name : list Z) (if_exists : bool)
| ms_shutdown.

Abbreviation MS := PROTOCOL_HYPERTABLE_MASTER.

Definition ms_create_create_table_request name schema : Request :=
  request MS 0 (2 + vstr_len name + vstr_len schema)
    [Ok (encode_i16 COMMAND_CREATE_TABLE); encode_vstr name; encode_vstr schema].
Definition ms_create_get_schema_request name : Request :=
  request MS 0 (2 + vstr_len name) [Ok (encode_i16 COMMAND_GET_SCHEMA); encode_vstr name].
Definition ms_create_status_request : Request := request MS 0 2 [Ok (encode_i16 COMMAND_STATUS)].
Definition ms_create_register_server_request location : Request :=
  request MS 0 (2 + vstr_len location) [Ok (encode_i16 COMMAND_REGISTER_SERVER); encode_vstr location].
Definition ms_create_report_split_request t r log_dir soft_limit : Request :=
  request MS 0 (2 + TableIdentifier_encoded_length t + RangeSpec_encoded_length r + vstr_len log_dir + 8)
    [Ok (encode_i16 COMMAND_REPORT_SPLIT); TableIdentifier_encode t; RangeSpec_encode r; encode_vstr log_dir;
     Ok (encode_i64 soft_limit)].
Definition ms_create_drop_table_request name if_exists : Request :=
  request MS 0 (3 + vstr_len name)
    [Ok (encode_i16 COMMAND_DROP_TABLE); Ok (encode_bool if_exists); encode_vstr name].
Definition ms_create_shutdown_request : Request := request MS 0 2 [Ok (encode_i16 COMMAND_SHUTDOWN)].

Definition ms_request (c : ms_call) : Request :=
  match c with
  | ms_create_table n s => ms_create_create_table_request n s
  | ms_get_schema n => ms_create_get_schema_request n
  | ms_status => ms_create_status_request
  | ms_register_server l => ms_create_register_server_request l
  | ms_report_split t r d s => ms_create_report_split_request t r d s
  | ms_drop_table n e => ms_create_drop_table_request n e
  | ms_shutdown => ms_create_shutdown_request
  end.

Definition ms_run_create_table : dec ms_call := n <~ decode_cstr ;; s <~ decode_cstr ;; dret (ms_create_table n s).
Definition ms_run_drop_table : dec ms_call := e <~ decode_bool ;; n <~ decode_cstr ;; dret (ms_drop_table n e).
Definition ms_run_get_schema : dec ms_call := n <~ decode_cstr ;; dret (ms_get_schema n).
Definition ms_run_register_server : dec ms_call := l <~ decode_cstr ;; dret (ms_register_server l).
Definition ms_run_report_split : dec ms_call :=
  t <~ TableIdentifier_decode ;; r <~ RangeSpec_decode ;; d <~ decode_cstr ;; s <~ decode_i64 ;;
  dret (ms_report_split t r d s).

Definition ms_handler (command : Z) : option (RequestHandler ms_call) :=
  if command =? COMMAND_CREATE_TABLE then handler own_code ms_run_create_table
  else if command =? COMMAND_DROP_TABLE then handler own_code ms_run_drop_table
  else if command =? COMMAND_GET_SCHEMA then handler own_code ms_run_get_schema
  else if command =? COMMAND_STATUS then handler own_code (dret ms_status)
  else if command =? COMMAND_REGISTER_SERVER then handler own_code ms_run_register_server
  else if command =? COMMAND_REPORT_SPLIT then handler own_code ms_run_report_split
  else if command =? COMMAND_SHUTDOWN then handler own_code (dret ms_shutdown)
  else None.

Definition ms_service : Service ms_call := {| sv_short := true; sv_max := COMMAND_MAX; sv_handler := ms_handler |}.

End MasterProtocol.

(** ** Hyperspace *)

Module HyperspaceProtocol.

Definition COMMAND_KEEPALIVE : Z := 0.
Definition COMMAND_HANDSHAKE : Z := 1.
Definition COMMAND_OPEN : Z := 2.
Definition COMMAND_CLOSE : Z := 5.
Definition COMMAND_MKDIR : Z := 7.
Definition COMMAND_ATTRSET : Z := 8.
Definition COMMAND_ATTRGET : Z := 9.
Definition COMMAND_ATTRDEL : Z := 10.
Definition COMMAND_EXISTS : Z := 11.
Definition COMMAND_DELETE : Z := 12.
Definition COMMAND_READDIR : Z := 13.
Definition COMMAND_LOCK : Z := 14.
Definition COMMAND_RELEASE : Z := 15.
Definition COMMAND_STATUS : Z := 17.
Definition COMMAND_MAX : Z := 18.

Inductive hs_call :=
| hs_handshake (session_id : Z)
| hs_open (name : list Z) (flags event_mask : Z) (attrs : list (list Z * list Z))
| hs_close (handle : Z)
| hs_mkdir (name : list Z)
| hs_delete (name : list Z)
| hs_attr_set (handle : Z) (name value : list Z)
| hs_attr_get (handle : Z) (name : list Z)
| hs_attr_del (handle : Z) (name : list Z)
| hs_readdir (handle : Z)
| hs_exists (name : list Z)
| hs_lock (handle mode : Z) (try_lock : bool)
| hs_release (handle : Z)
| hs_status.

(** [filename_to_group]: the sum of the characters with a slash in front and
    none behind; for the empty name it reads in front of the string. *)
Definition SLASH : Z := 47.
Definition char_u32 (c : Z) : Z := u32 (signed 8 c).
Definition filename_to_group (fname : list Z) : result Z :=
  match fname with
  | [] => Fault
  | c :: _ =>
      let gid := if c =? SLASH then 0 else SLASH in
      let gid := fold_left (fun g c => u32 (g + char_u32 c)) fname gid in
      Ok (if last fname 0 =? SLASH then u32 (gid - SLASH) else gid)
  end.

(** The group of a handle. *)
Definition handle_group (handle : Z) : Z := u32 (Z.land (Z.lxor handle (Z.shiftr handle 32)) 0xFFFFFFFF).

Abbreviation HS := PROTOCOL_HYPERSPACE.

Definition hs_create_handshake_request session_id : Request :=
  request HS 0 10 [Ok (encode_i16 COMMAND_HANDSHAKE); Ok (encode_i64 session_id)].

(** The length counts the node's name once per attribute, not the attribute's
    name. *)
Definition hs_open_length (name : list Z) (attrs : list (list Z * list Z)) : Z :=
  14 + vstr_len name + sum_len (fun a => vstr_len name + vstr_len (snd a)) attrs.
Definition encode_attr (a : list Z * list Z) : result (list Z) := cat [encode_vstr (fst a); encode_vstr32 (snd a)].
Definition hs_open_parts name flags event_mask attrs : list (result (list Z)) :=
  [Ok (encode_i32 flags); Ok (encode_i32 event_mask); encode_vstr name;
   Ok (encode_i32 (zlen attrs)); cat (map encode_attr attrs)].
Definition hs_create_open_request name flags (callback : option Z) attrs : result Request :=
  g <- filename_to_group name ;;
  Ok (request HS g (hs_open_length name attrs)
       (Ok (encode_i16 COMMAND_OPEN) ::
        hs_open_parts name flags (match callback with Some mask => mask | None => 0 end) attrs)).

Definition hs_create_close_request handle : Request :=
  request HS (handle_group handle) 10 [Ok (encode_i16 COMMAND_CLOSE); Ok (encode_i64 handle)].
Definition hs_create_mkdir_request name : result Request :=
  g <- filename_to_group name ;;
  Ok (request HS g (2 + vstr_len name) [Ok (encode_i16 COMMAND_MKDIR); encode_vstr name]).
Definition hs_create_delete_request name : result Request :=
  g <- filename_to_group name ;;
  Ok (request HS g (2 + vstr_len name) [Ok (encode_i16 COMMAND_DELETE); encode_vstr name]).
Definition hs_create_attr_set_request handle name value : Request :=
  request HS (handle_group handle) (10 + vstr_len name + vstr_len value)
    [Ok (encode_i16 COMMAND_ATTRSET); Ok (encode_i64 handle); encode_vstr name; encode_vstr32 value].
Definition hs_create_attr_get_request handle name : Request :=
  request HS (handle_group handle) (10 + vstr_len name)
    [Ok (encode_i16 COMMAND_ATTRGET); Ok (encode_i64 handle); encode_vstr name].
Definition hs_create_attr_del_request handle name : Request :=
  request HS (handle_group handle) (10 + vstr_len name)
    [Ok (encode_i16 COMMAND_ATTRDEL); Ok (encode_i64 handle); encode_vstr name].
Definition hs_create_readdir_request handle : Request :=
  request HS (handle_group handle) 10 [Ok (encode_i16 COMMAND_READDIR); Ok (encode_i64 handle)].
Definition hs_create_exists_request name : result Request :=
  g <- filename_to_group name ;;
  Ok (request HS g (2 + vstr_len name) [Ok (encode_i16 COMMAND_EXISTS); encode_vstr name]).
Definition hs_create_lock_request handle mode (try_lock : bool) : Request :=
  request HS (handle_group handle) 15
    [Ok (encode_i16 COMMAND_LOCK); Ok (encode_i64 handle); Ok (encode_i32 mode);
     Ok (encode_i8 (if try_lock then 1 else 0))].
Definition hs_create_release_request handle : Request :=
  request HS (handle_group handle) 10 [Ok (encode_i16 COMMAND_RELEASE); Ok (encode_i64 handle)].
Definition hs_create_status_request : Request := request HS 0 2 [Ok (encode_i16 COMMAND_STATUS)].

Definition hs_request (c : hs_call) : result Request :=
  match c with
  | hs_handshake s => Ok (hs_create_handshake_request s)
  | hs_open n f m attrs => hs_create_open_request n f (Some m) attrs
  | hs_close h => Ok (hs_create_close_request h)
  | hs_mkdir n => hs_create_mkdir_request n
  | hs_delete n => hs_create_delete_request n
  | hs_attr_set h n v => Ok (hs_create_attr_set_request h n v)
  | hs_attr_get h n => Ok (hs_create_attr_get_request h n)
  | hs_attr_del h n => Ok (hs_create_attr_del_request h n)
  | hs_readdir h => Ok (hs_create_readdir_request h)
  | hs_exists n => hs_create_exists_request n
  | hs_lock h m t => Ok (hs_create_lock_request h m t)
  | hs_release h => Ok (hs_create_release_request h)
  | hs_status => Ok hs_create_status_request
  end.

Definition decode_attr : dec (list Z * list Z) := n <~ decode_cstr ;; v <~ decode_vstr32 ;; dret (n, v).
Definition hs_run_open : dec hs_call :=
  f <~ decode_i32 ;; m <~ decode_i32 ;; n <~ decode_cstr ;; count <~ decode_i32 ;;
  attrs <~ decode_n (Z.to_nat count) decode_attr ;; dret (hs_open n f m attrs).
Definition hs_run_close : dec hs_call := h <~ decode_i64 ;; dret (hs_close h).
Definition hs_run_mkdir : dec hs_call := n <~ decode_cstr ;; dret (hs_mkdir n).
Definition hs_run_delete : dec hs_call := n <~ decode_cstr ;; dret (hs_delete n).
Definition hs_run_attr_set : dec hs_call :=
  h <~ decode_i64 ;; n <~ decode_cstr ;; v <~ decode_vstr32 ;; dret (hs_attr_set h n v).
Definition hs_run_attr_get : dec hs_call := h <~ decode_i64 ;; n <~ decode_cstr ;; dret (hs_attr_get h n).
Definition hs_run_attr_del : dec hs_call := h <~ decode_i64 ;; n <~ decode_cstr ;; dret (hs_attr_del h n).
Definition hs_run_readdir : dec hs_call := h <~ decode_i64 ;; dret (hs_readdir h).
Definition hs_run_exists : dec hs_call := n <~ decode_cstr ;; dret (hs_exists n).
Definition hs_run_lock : dec hs_call :=
  h <~ decode_i64 ;; m <~ decode_i32 ;; t <~ decode_i8 ;; dret (hs_lock h m (negb (t =? 0))).
Definition hs_run_release : dec hs_call := h <~ decode_i64 ;; dret (hs_release h).

(** The handshake is served in the connection handler itself. *)
Definition hs_run_handshake : dec hs_call :=
  s <~ decode_i64 ;; if s =? 0 then dthrow PROTOCOL_ERROR else dret (hs_handshake s).

Definition hs_handler (command : Z) : option (RequestHandler hs_call) :=
  if command =? COMMAND_HANDSHAKE then handler protocol_error hs_run_handshake
  else if command =? COMMAND_OPEN then handler own_code hs_run_open
  else if command =? COMMAND_CLOSE then handler own_code hs_run_close
  else if command =? COMMAND_MKDIR then handler own_code hs_run_mkdir
  else if command =? COMMAND_DELETE then handler own_code hs_run_delete
  else if command =? COMMAND_ATTRSET then handler own_code hs_run_attr_set
  else if command =? COMMAND_ATTRGET then handler own_code hs_run_attr_get
  else if command =? COMMAND_ATTRDEL then handler own_code hs_run_attr_del
  else if command =? COMMAND_EXISTS then handler own_code hs_run_exists
  else if command =? COMMAND_READDIR then handler own_code hs_run_readdir
  else if command =? COMMAND_LOCK then handler own_code hs_run_lock
  else if command =? COMMAND_RELEASE then handler own_code hs_run_release
  else if command =? COMMAND_STATUS then handler own_code (dret hs_status)
  else None.

Definition hs_service : Service hs_call := {| sv_short := false; sv_max := COMMAND_MAX; sv_handler := hs_handler |}.

(** [ServerConnectionHandler::handle] for messages; [lease] is the result of
    [renew_session_lease(m_session_id)], which every command but the handshake
    needs. *)
Definition hs_handle (lease : Code) (ev : Event) : result (reply hs_call) :=
  match read_command false ev with
  | Ok command =>
      if (command <? COMMAND_MAX) && negb (command =? COMMAND_HANDSHAKE) && negb (code_value lease =? 0)
      then Ok (ErrorResponse lease)
      else dispatch hs_service ev
  | _ => dispatch hs_service ev
  end.

End HyperspaceProtocol.

(** ** DFS broker *)

Module DfsBrokerProtocol.

Definition COMMAND_OPEN : Z := 0.
Definition COMMAND_CREATE : Z := 1.
Definition COMMAND_CLOSE : Z := 2.
Definition COMMAND_READ : Z := 3.
Definition COMMAND_APPEND : Z := 4.
Definition COMMAND_SEEK : Z := 5.
Definition COMMAND_REMOVE : Z := 6.
Definition COMMAND_SHUTDOWN : Z := 7.
Definition COMMAND_LENGTH : Z := 8.
Definition COMMAND_PREAD : Z := 9.
Definition COMMAND_MKDIRS : Z := 10.
Definition COMMAND_STATUS : Z := 11.
Definition COMMAND_FLUSH : Z := 12.
Definition COMMAND_RMDIR : Z := 13.
Definition COMMAND_READDIR : Z := 14.
Definition COMMAND_EXISTS : Z := 15.
Definition COMMAND_RENAME : Z := 16.
Definition COMMAND_MAX : Z := 17.
Definition SHUTDOWN_FLAG_IMMEDIATE : Z := 0x0001.

Inductive dfs_call :=
| dfs_open (fname : list Z) (bufsz : Z)
| dfs_create (fname : list Z) (overwrite : bool) (bufsz replication blksz : Z)
| dfs_close (fd : Z)
| dfs_read (fd amount : Z)
| dfs_append (fd : Z) (data : list Z) (flush : bool)
| dfs_seek (fd offset : Z)
| dfs_remove (fname : list Z)
| dfs_length (fname : list Z)
| dfs_pread (fd offset amount : Z)
| dfs_mkdirs (fname : list Z)
| dfs_flush (fd : Z)
| dfs_rmdir (fname : list Z)
| dfs_readdir (fname : list Z)
| dfs_shutdown (flags : Z)
| dfs_status
| dfs_exists (fname : list Z)
| dfs_rename (src dst : list Z).

Abbreviation DFS := PROTOCOL_DFSBROKER.

(** A request with one file name. *)
Definition name_request (cmd : Z) (fname : list Z) : Request :=
  request DFS 0 (2 + encoded_length_str16 fname) [Ok (encode_i16 cmd); Ok (encode_str16 fname)].

Definition dfs_create_open_request fname bufsz : Request :=
  request DFS 0 (6 + encoded_length_str16 fname)
    [Ok (encode_i16 COMMAND_OPEN); Ok (encode_i32 bufsz); Ok (encode_str16 fname)].
Definition dfs_create_create_request fname (overwrite : bool) bufsz replication blksz : Request :=
  request DFS 0 (20 + encoded_length_str16 fname)
    [Ok (encode_i16 COMMAND_CREATE); Ok (encode_i16 (if overwrite then 1 else 0)); Ok (encode_i32 replication);
     Ok (encode_i32 bufsz); Ok (encode_i64 blksz); Ok (encode_str16 fname)].
Definition dfs_create_close_request fd : Request :=
  request DFS fd 6 [Ok (encode_i16 COMMAND_CLOSE); Ok (encode_i32 fd)].
Definition dfs_create_read_request fd amount : Request :=
  request DFS fd 10 [Ok (encode_i16 COMMAND_READ); Ok (encode_i32 fd); Ok (encode_i32 amount)].
(** The buffer is handed over to the [CommBuf]; its [size] stays readable. *)
Definition dfs_create_append_request fd buffer (flush : bool) : Request :=
  request_ext DFS fd 11 buffer
    [Ok (encode_i16 COMMAND_APPEND); Ok (encode_i32 fd); Ok (encode_i32 (zlen buffer)); Ok (encode_bool flush)].
Definition dfs_create_seek_request fd offset : Request :=
  request DFS fd 14 [Ok (encode_i16 COMMAND_SEEK); Ok (encode_i32 fd); Ok (encode_i64 offset)].
Definition dfs_create_remove_request fname : Request := name_request COMMAND_REMOVE fname.
Definition dfs_create_length_request fname : Request := name_request COMMAND_LENGTH fname.
Definition dfs_create_position_read_request fd offset amount : Request :=
  request DFS fd 18 [Ok (encode_i16 COMMAND_PREAD); Ok (encode_i32 fd); Ok (encode_i64 offset); Ok (encode_i32 amount)].
Definition dfs_create_mkdirs_request fname : Request := name_request COMMAND_MKDIRS fname.
Definition dfs_create_flush_request fd : Request :=
  request DFS fd 6 [Ok (encode_i16 COMMAND_FLUSH); Ok (encode_i32 fd)].
Definition dfs_create_rmdir_request fname : Request := name_request COMMAND_RMDIR fname.
Definition dfs_create_readdir_request fname : Request := name_request COMMAND_READDIR fname.
Definition dfs_create_shutdown_request flags : Request :=
  request DFS 0 4 [Ok (encode_i16 COMMAND_SHUTDOWN); Ok (encode_i16 flags)].
Definition dfs_create_status_request : Request := request DFS 0 2 [Ok (encode_i16 COMMAND_STATUS)].
Definition dfs_create_exists_request fname : Request := name_request COMMAND_EXISTS fname.
Definition dfs_create_rename_request src dst : Request :=
  request DFS 0 (2 + encoded_length_str16 src + encoded_length_str16 dst)
    [Ok (encode_i16 COMMAND_RENAME); Ok (encode_str16 src); Ok (encode_str16 dst)].

Definition dfs_request (c : dfs_call) : Request :=
  match c with
  | dfs_open f b => dfs_create_open_request f b
  | dfs_create f o b r k => dfs_create_create_request f o b r k
  | dfs_close fd => dfs_create_close_request fd
  | dfs_read fd n => dfs_create_read_request fd n
  | dfs_append fd data flush => dfs_create_append_request fd data flush
  | dfs_seek fd o => dfs_create_seek_request fd o
  | dfs_remove f => dfs_create_remove_request f
  | dfs_length f => dfs_create_length_request f
  | dfs_pread fd o n => dfs_create_position_read_request fd o n
  | dfs_mkdirs f => dfs_create_mkdirs_request f
  | dfs_flush fd => dfs_create_flush_request fd
  | dfs_rmdir f => dfs_create_rmdir_request f
  | dfs_readdir f => dfs_create_readdir_request f
  | dfs_shutdown fl => dfs_create_shutdown_request fl
  | dfs_status => dfs_create_status_request
  | dfs_exists f => dfs_create_exists_request f
  | dfs_rename s d => dfs_create_rename_request s d
  end.

(** [fname[strlen(fname)-1] == '/']: for an empty name the byte in front of it,
    the high byte of its length, is read. *)
Definition decode_filename : dec (list Z) :=
  r <~ decode_str16_ptr ;;
  match cstr (fst r) with
  | Some f => if last (Z.shiftr (snd r) 8 :: f) 0 =? 47 then dthrow DFSBROKER_BAD_FILENAME else dret f
  | None => fun _ => Fault
  end.

Definition dfs_run_open : dec dfs_call := b <~ decode_i32 ;; f <~ decode_filename ;; dret (dfs_open f b).
Definition dfs_run_create : dec dfs_call :=
  o <~ decode_i16 ;; r <~ decode_i32 ;; b <~ decode_i32 ;; k <~ decode_i64 ;; f <~ decode_filename ;;
  dret (dfs_create f (negb (o =? 0)) b (u16 r) k).
Definition dfs_run_close : dec dfs_call := fd <~ decode_i32 ;; dret (dfs_close fd).
Definition dfs_run_read : dec dfs_call := fd <~ decode_i32 ;; n <~ decode_i32 ;; dret (dfs_read fd n).
Definition decode_amount (amount : Z) : dec (list Z) := fun s =>
  if remain s <? amount then Throw SERIALIZATION_INPUT_OVERRUN
  else if amount <=? zlen (ip s) then Ok (firstn (Z.to_nat amount) (ip s), s) else Fault.
Definition dfs_run_append : dec dfs_call :=
  fd <~ decode_i32 ;; amount <~ decode_i32 ;; flush <~ decode_bool ;; data <~ decode_amount amount ;;
  dret (dfs_append fd data flush).
Definition dfs_run_seek : dec dfs_call := fd <~ decode_i32 ;; o <~ decode_i64 ;; dret (dfs_seek fd o).
Definition dfs_run_remove : dec dfs_call := f <~ decode_str16_cstr ;; dret (dfs_remove f).
Definition dfs_run_length : dec dfs_call := f <~ decode_str16_cstr ;; dret (dfs_length f).
Definition dfs_run_pread : dec dfs_call :=
  fd <~ decode_i32 ;; o <~ decode_i64 ;; n <~ decode_i32 ;; dret (dfs_pread fd o n).
Definition dfs_run_mkdirs : dec dfs_call := f <~ decode_str16_cstr ;; dret (dfs_mkdirs f).
Definition dfs_run_flush : dec dfs_call := fd <~ decode_i32 ;; dret (dfs_flush fd).
Definition dfs_run_rmdir : dec dfs_call := f <~ decode_str16_cstr ;; dret (dfs_rmdir f).
Definition dfs_run_readdir : dec dfs_call := f <~ decode_str16_cstr ;; dret (dfs_readdir f).
Definition dfs_run_exists : dec dfs_call := f <~ decode_str16_cstr ;; dret (dfs_exists f).
Definition dfs_run_rename : dec dfs_call :=
  s <~ decode_str16_cstr ;; d <~ decode_str16_cstr ;; dret (dfs_rename s d).

(** Shutdown is served in the connection handler: flags default to zero. *)
Definition dfs_run_shutdown : dec dfs_call := fun s =>
  if 2 <=? remain s then (fl <~ decode_i16 ;; dret (dfs_shutdown fl)) s else Ok (dfs_shutdown 0, s).

Definition dfs_handler (command : Z) : option (RequestHandler dfs_call) :=
  if command =? COMMAND_OPEN then handler own_code dfs_run_open
  else if command =? COMMAND_CREATE then handler own_code dfs_run_create
  else if command =? COMMAND_CLOSE then handler protocol_error dfs_run_close
  else if command =? COMMAND_READ then handler own_code dfs_run_read
  else if command =? COMMAND_APPEND then handler own_code dfs_run_append
  else if command =? COMMAND_SEEK then handler own_code dfs_run_seek
  else if command =? COMMAND_REMOVE then handler own_code dfs_run_remove
  else if command =? COMMAND_LENGTH then handler own_code dfs_run_length
  else if command =? COMMAND_PREAD then handler own_code dfs_run_pread
  else if command =? COMMAND_MKDIRS then handler own_code dfs_run_mkdirs
  else if command =? COMMAND_FLUSH then handler own_code dfs_run_flush
  else if command =? COMMAND_RMDIR then handler own_code dfs_run_rmdir
  else if command =? COMMAND_READDIR then handler own_code dfs_run_readdir
  else if command =? COMMAND_EXISTS then handler protocol_error dfs_run_exists
  else if command =? COMMAND_RENAME then handler own_code dfs_run_rename
  else if command =? COMMAND_STATUS then handler own_code (dret dfs_status)
  else if command =? COMMAND_SHUTDOWN then handler own_code dfs_run_shutdown
  else None.

Definition dfs_service : Service dfs_call := {| sv_short := true; sv_max := COMMAND_MAX; sv_handler := dfs_handler |}.

(** Signed arguments arrive as unsigned ones, the replication in 16 bits. *)
Definition dfs_received (c : dfs_call) : dfs_call :=
  match c with
  | dfs_create f o b r k => dfs_create f o (u32 b) (u16 r) (u64 k)
  | c => c
  end.

End DfsBrokerProtocol.

(** ** Requests reach the call they were made for *)

Import RangeServerProtocol MasterProtocol HyperspaceProtocol DfsBrokerProtocol.

#[export] Hint Resolve codec_ScanSpec : codec.

(** The side conditions on the protocol number and the command are concrete. *)
Ltac concrete := split; cbv; congruence.

(** A request whose handler decodes its arguments one after the other. *)
Ltac serve :=
  lazymatch goal with |- delivers _ (request _ _ _ _) _ => unfold request end;
  eapply delivers_codec;
  [| | |reflexivity|concrete|concrete];
  [ cbn [h_decode];
    match goal with |- codec _ _ (?d) _ => try unfold d end; codec_walk; reflexivity
  | cbv [encoded_length_str16]; try lia
  | match goal with H : fits _ |- _ => unfold fits in H; cbn [rq_len rq_ext request] in H;
      change (zlen (@nil Z)) with 0 in H; lia end ].

Create HintDb requests.
#[export] Hint Unfold rs_create_request_load_range rs_create_request_update rs_create_request_create_scanner
  rs_create_request_destroy_scanner rs_create_request_fetch_scanblock rs_create_request_drop_table
  rs_create_request_status rs_create_request_shutdown rs_create_request_dump_stats rs_create_request_replay_begin
  rs_create_request_replay_load_range rs_create_request_replay_update rs_create_request_replay_commit
  rs_create_request_drop_range rs_create_request_get_statistics
  ms_create_create_table_request ms_create_get_schema_request ms_create_status_request
  ms_create_register_server_request ms_create_report_split_request ms_create_drop_table_request
  ms_create_shutdown_request
  hs_create_handshake_request hs_create_close_request hs_create_attr_set_request hs_create_attr_get_request
  hs_create_attr_del_request hs_create_readdir_request hs_create_lock_request hs_create_release_request
  hs_create_status_request
  dfs_create_open_request dfs_create_create_request dfs_create_close_request dfs_create_read_request
  dfs_create_append_request dfs_create_seek_request dfs_create_remove_request dfs_create_length_request
  dfs_create_position_read_request dfs_create_mkdirs_request dfs_create_flush_request dfs_create_rmdir_request
  dfs_create_readdir_request dfs_create_shutdown_request dfs_create_status_request dfs_create_exists_request
  dfs_create_rename_request name_request : requests.

Lemma codec_cat1 {A} e n (d : dec A) a : codec e n d a -> codec (cat [e]) n d a.
Proof.
  intros (l & -> & N & R). exists l. cbn [cat bind]. rewrite app_nil_r. now repeat split.
Qed.

Definition ok_str16 (s : list Z) : Prop := no_nul s /\ zlen s < 2 ^ 16.

Lemma codec_ok_str16 s : ok_str16 s -> codec (Ok (encode_str16 s)) (encoded_length_str16 s) decode_str16_cstr s.
Proof. intros [? ?]. now apply codec_str16. Qed.
#[export] Hint Resolve codec_ok_str16 : codec.

(** Arguments of a call that fit their types. *)
Definition ok_rs (c : rs_call) : Prop :=
  match c with
  | rs_load_range t r log st => ok_TableIdentifier t /\ ok_RangeSpec r /\ ok_str16 log /\ ok_RangeState st
  | rs_update t mods => ok_TableIdentifier t
  | rs_create_scanner t r s => ok_TableIdentifier t /\ ok_RangeSpec r /\ ok_ScanSpec s
  | rs_destroy_scanner i | rs_fetch_scanblock i => in_range 32 i
  | rs_drop_table t => ok_TableIdentifier t
  | rs_replay_begin g => in_range 16 g
  | rs_replay_load_range t r st => ok_TableIdentifier t /\ ok_RangeSpec r /\ ok_RangeState st
  | rs_drop_range t r | rs_compact t r _ => ok_TableIdentifier t /\ ok_RangeSpec r
  | _ => True
  end.

(** C29. Range server requests: every call with well-formed arguments that has a
    request (all but [compact]) is built into a message that fills its buffer
    exactly, passes [send_request], and is dispatched by the range server's
    connection handler to that very call. *)
Theorem rangeserver_requests_served c rq :
  rs_request c = Some rq -> ok_rs c -> fits rq -> delivers rs_service rq c.
Proof.
  intros E Hok Hf. destruct c; injection E as <- || discriminate; cbn [ok_rs] in Hok;
    repeat match type of Hok with _ /\ _ => destruct Hok as [? Hok] end;
    autounfold with requests in *; try serve.
  - apply (delivers_ext _ _ _ _ _ _ _ (TableIdentifier_encoded_length t) TableIdentifier_decode rs_update t protocol_error);
      [|reflexivity|exact Hf|reflexivity|concrete|concrete].
    now apply codec_cat1, codec_TableIdentifier.
  - apply (delivers_ext _ _ _ _ _ _ _ 0 (dret tt) (fun _ => rs_replay_update) tt own_code);
      [apply codec_ret|reflexivity|exact Hf|reflexivity|concrete|concrete].
Qed.

Lemma rangeserver_requests_served_witness :
  delivers rs_service (rs_create_request_drop_range
      {| ti_name := [109]; ti_id := 7; ti_generation := 1 |} {| rs_start_row := []; rs_end_row := [122] |})
    (rs_drop_range {| ti_name := [109]; ti_id := 7; ti_generation := 1 |} {| rs_start_row := []; rs_end_row := [122] |}).
Proof.
  apply rangeserver_requests_served; [reflexivity| |vm_compute; reflexivity].
  repeat split; try (cbv; congruence); repeat constructor; lia.
Defined.

Definition ok_ms (c : ms_call) : Prop :=
  match c with
  | ms_create_table n s => ok_cstr n /\ ok_cstr s
  | ms_get_schema n | ms_register_server n | ms_drop_table n _ => ok_cstr n
  | ms_report_split t r d s => ok_TableIdentifier t /\ ok_RangeSpec r /\ ok_cstr d /\ in_range 64 s
  | _ => True
  end.

(** The decoders of records are memory safe. *)
#[export] Instance decode_cstr_sound : DecSound decode_cstr.
Proof. unfold decode_cstr. exact _. Qed.
#[export] Instance TableIdentifier_decode_sound : DecSound TableIdentifier_decode.
Proof. unfold TableIdentifier_decode. exact _. Qed.
#[export] Instance RangeSpec_decode_sound : DecSound RangeSpec_decode.
Proof. unfold RangeSpec_decode. exact _. Qed.
#[export] Instance decode_vstr32_sound : DecSound decode_vstr32.
Proof. unfold decode_vstr32. exact _. Qed.
#[export] Instance decode_n_sound {A} n (d : dec A) : DecSound d -> DecSound (decode_n n d).
Proof. intros H. induction n; cbn [decode_n]; exact _. Qed.
#[export] Instance decode_attr_sound : DecSound decode_attr.
Proof. unfold decode_attr. exact _. Qed.
#[export] Instance hs_run_handshake_sound : DecSound hs_run_handshake.
Proof. unfold hs_run_handshake. apply dbind_sound; [exact _|]. intros s. destruct (s =? 0); exact _. Qed.

(** Goes through the commands of a handler table. *)
Ltac each_command :=
  repeat match goal with
  | |- (if ?b then _ else _) = Some _ -> _ => destruct b
  | |- handler _ _ = Some _ -> _ => intros [= <-]
  | |- None = Some _ -> _ => discriminate
  end.

#[export] Instance ms_sound : SoundService ms_service.
Proof.
  intros cmd h. cbn [sv_handler ms_service]. unfold ms_handler. each_command; cbn [h_decode].
  all: try (match goal with |- DecSound ?d => unfold d end); exact _.
Qed.
#[export] Instance hs_sound : SoundService hs_service.
Proof.
  intros cmd h. cbn [sv_handler hs_service]. unfold hs_handler. each_command; cbn [h_decode].
  all: try exact _; match goal with |- DecSound ?d => unfold d end; exact _.
Qed.

(** Master requests: every call with well-formed arguments arrives at the
    master as itself. *)
Theorem master_requests_served c :
  ok_ms c -> fits (ms_request c) -> delivers ms_service (ms_request c) c.
Proof.
  intros Hok Hf. destruct c; cbn [ok_ms ms_request] in *;
    repeat match type of Hok with _ /\ _ => destruct Hok as [? Hok] end;
    autounfold with requests in *; serve.
Qed.

Lemma master_requests_served_witness :
  delivers ms_service (ms_request (ms_drop_table [109; 121] true)) (ms_drop_table [109; 121] true).
Proof.
  apply master_requests_served; [|vm_compute; reflexivity].
  split; [|cbv; congruence]. repeat constructor; lia.
Defined.

(** Attributes whose names together take the room the request reserves: as much
    as the node's name for each. *)
Definition ok_attr (a : list Z * list Z) : Prop := ok_cstr (fst a) /\ zlen (snd a) < 2 ^ 32.
Definition reserved (name : list Z) (attrs : list (list Z * list Z)) : Prop :=
  sum_len (fun a => vstr_len (fst a)) attrs = zlen attrs * vstr_len name.

Definition ok_hs (c : hs_call) : Prop :=
  match c with
  | hs_handshake s => in_range 64 s /\ s <> 0
  | hs_open n f m attrs =>
      ok_cstr n /\ in_range 32 f /\ in_range 32 m /\ zlen attrs < 2 ^ 32 /\ Forall ok_attr attrs /\ reserved n attrs
  | hs_close h | hs_readdir h | hs_release h => in_range 64 h
  | hs_mkdir n | hs_delete n | hs_exists n => ok_cstr n
  | hs_attr_set h n v => in_range 64 h /\ ok_cstr n /\ zlen v < 2 ^ 32
  | hs_attr_get h n | hs_attr_del h n => in_range 64 h /\ ok_cstr n
  | hs_lock h m _ => in_range 64 h /\ in_range 32 m
  | hs_status => True
  end.

Lemma codec_attr a : ok_attr a -> codec (encode_attr a) (vstr_len (fst a) + vstr_len (snd a)) decode_attr a.
Proof.
  intros [H1 H2]. destruct a; cbn [fst snd] in *. unfold encode_attr, decode_attr. cbn [fst snd].
  codec_record.
Qed.

Lemma codec_byte_flag (b : bool) :
  codec (Ok (encode_i8 (if b then 1 else 0))) 1 decode_i8 (if b then 1 else 0).
Proof. apply codec_i8. destruct b; split; lia. Qed.
#[export] Hint Resolve codec_attr codec_byte_flag : codec.

(** The open message as the handler reads it, of the length really written. *)
Lemma codec_open n f m attrs : ok_cstr n -> in_range 32 f -> in_range 32 m -> zlen attrs < 2 ^ 32 -> Forall ok_attr attrs ->
  codec (cat (hs_open_parts n f m attrs))
    (12 + vstr_len n + sum_len (fun a => vstr_len (fst a) + vstr_len (snd a)) attrs) hs_run_open (hs_open n f m attrs).
Proof.
  intros Hn Hf Hm Hl Ha. assert (Hr : in_range 32 (zlen attrs)) by (split; [apply zlen_nonneg|assumption]).
  unfold hs_open_parts, hs_run_open. eapply codec_len.
  - eapply codec_bind; [now apply codec_u32|]. eapply codec_bind; [now apply codec_u32|].
    eapply codec_bind; [now apply codec_cstr|]. eapply codec_bind; [now apply codec_u32|].
    eapply codec_bind; [exact (codec_counted _ _ _ _ attrs codec_attr Ha)|]. apply codec_ret.
  - lia.
Qed.

Lemma sum_len_add {A} (f g : A -> Z) l : sum_len (fun x => f x + g x) l = sum_len f l + sum_len g l.
Proof. induction l as [|x l IH]; cbn [sum_len fold_right]; [reflexivity|]. unfold sum_len in IH. lia. Qed.
Lemma sum_len_const {A} k (l : list A) : sum_len (fun _ => k) l = zlen l * k.
Proof. induction l as [|x l IH]; cbn [sum_len fold_right]; [reflexivity|]. unfold sum_len in IH. unfold zlen in *. cbn [length]. lia. Qed.

Lemma hs_open_length_eq n attrs :
  hs_open_length n attrs = 14 + vstr_len n + zlen attrs * vstr_len n + sum_len (fun a => vstr_len (snd a)) attrs.
Proof. unfold hs_open_length. rewrite sum_len_add, sum_len_const. lia. Qed.

(** Hyperspace requests: every call with well-formed arguments arrives at
    the lock service as itself, an [open] provided that its attribute names take
    exactly the room that [create_open_request] reserves. *)
Theorem hyperspace_requests_served c rq :
  hs_request c = Ok rq -> ok_hs c -> fits rq -> delivers hs_service rq c.
Proof.
  intros E Hok Hf.
  destruct c as [s|n f m attrs|h|n|n|h n v|h n|h n|h|n|h m t|h|]; cbn [hs_request ok_hs] in *;
    repeat match type of Hok with _ /\ _ => destruct Hok as [? Hok] end;
    unfold hs_create_open_request, hs_create_mkdir_request, hs_create_delete_request, hs_create_exists_request in E;
    try (apply bind_ok in E as (g & _ & E)); apply Ok_inj in E as <-; autounfold with requests in *.
  1: { unfold request. apply delivers_codec with (k := 8 + 0) (h := {| h_decode := hs_run_handshake; h_catch := protocol_error |});
         [|reflexivity|reflexivity|reflexivity|concrete|concrete].
       unfold hs_run_handshake. cbn [h_decode]. eapply codec_bind; [now apply codec_u64|]. rewrite (proj2 (Z.eqb_neq _ _)) by assumption. apply codec_ret. }
  1: { unfold request, fits in *; cbn [rq_len rq_ext] in Hf; change (zlen (@nil Z)) with 0 in Hf.
       unfold reserved in Hok.
       eapply delivers_codec with (h := {| h_decode := hs_run_open; h_catch := own_code |});
         [now apply codec_open| | |reflexivity|concrete|concrete]; [|lia].
       rewrite hs_open_length_eq, sum_len_add. lia. }
  all: try serve.
  unfold request. apply delivers_codec with (k := 8 + (4 + (1 + 0))) (h := {| h_decode := hs_run_lock; h_catch := own_code |});
    [|reflexivity|reflexivity|reflexivity|concrete|concrete].
  unfold hs_run_lock. cbn [h_decode]. codec_walk. now destruct t.
Qed.

Lemma hyperspace_requests_served_witness :
  exists rq, hs_request (hs_open [47; 97] 1 2 [([120; 121], [1; 0; 2])]) = Ok rq /\
    delivers hs_service rq (hs_open [47; 97] 1 2 [([120; 121], [1; 0; 2])]).
Proof.
  eexists. split; [reflexivity|].
  apply hyperspace_requests_served; [reflexivity| |vm_compute; reflexivity].
  cbn [ok_hs]. unfold ok_cstr, in_range, reserved, ok_attr, no_nul. cbv [fst snd].
  repeat split; try lia; try reflexivity; repeat (constructor; try lia).
Defined.

(** The length [create_open_request] announces counts the node's name for
    every attribute instead of the attribute's name.  Attributes whose names
    together are longer overrun the message buffer on the heap; shorter ones
    leave it unfilled, which aborts the sender. *)
Theorem open_request_length_wrong n f m attrs rq i :
  hs_create_open_request n f (Some m) attrs = Ok rq -> fits rq ->
  ok_cstr n -> in_range 32 f -> in_range 32 m -> zlen attrs < 2 ^ 32 -> Forall ok_attr attrs -> ~ reserved n attrs ->
  (c <- build rq ;; send_request i c) =
  if zlen attrs * vstr_len n <? sum_len (fun a => vstr_len (fst a)) attrs
  then Fault else Throw FAILED_EXPECTATION.
Proof.
  intros E Hf Hn Hfl Hm Hl Ha Hr. unfold hs_create_open_request in E. apply bind_ok in E as (g & _ & E).
  apply Ok_inj in E as <-. destruct (codec_open n f m attrs) as (l & El & Nl & _); [assumption..|].
  unfold fits, request in Hf; cbn [rq_len rq_ext] in Hf; change (zlen (@nil Z)) with 0 in Hf.
  unfold reserved in Hr. rewrite sum_len_add in Nl. pose proof (hs_open_length_eq n attrs) as L.
  assert (Hv : forall s : list Z, 0 <= vstr_len s) by
    (intros s; unfold vstr_len, encoded_length_vstr; pose proof (encoded_length_vi64_range (zlen s)); pose proof (zlen_nonneg s); lia).
  assert (Hs : 0 <= sum_len (fun a : list Z * list Z => vstr_len (snd a)) attrs)
    by (clear -Hv; induction attrs as [|a l IH]; cbn; [lia|]; specialize (Hv (snd a)); unfold sum_len in IH; lia).
  pose proof (Hv n). pose proof (zlen_nonneg attrs).
  unfold build, request. cbn [rq_builder rq_len rq_ext rq_parts].
  rewrite (message_missized _ _ _ (encode_i16 HyperspaceProtocol.COMMAND_OPEN ++ l)); cbn [cat];
    [|rewrite El; reflexivity|rewrite zlen_app; change (zlen (encode_i16 HyperspaceProtocol.COMMAND_OPEN)) with 2; lia|nia|lia].
  rewrite zlen_app. change (zlen (encode_i16 HyperspaceProtocol.COMMAND_OPEN)) with 2.
  now replace (hs_open_length n attrs <? 2 + zlen l) with
    (zlen attrs * vstr_len n <? sum_len (fun a : list Z * list Z => vstr_len (fst a)) attrs)
    by (destruct (Z.ltb_spec (zlen attrs * vstr_len n) (sum_len (fun a : list Z * list Z => vstr_len (fst a)) attrs)),
         (Z.ltb_spec (hs_open_length n attrs) (2 + zlen l)); (reflexivity || lia)).
Qed.

Lemma open_request_length_wrong_witness :
  exists rq, hs_create_open_request [47; 97] 1 (Some 2) [([108; 111; 110; 103], [1])] = Ok rq /\
    (c <- build rq ;; send_request None c) =
    if zlen [([108; 111; 110; 103], [1])] * vstr_len [47; 97] <?
       sum_len (fun a => vstr_len (fst a)) [([108; 111; 110; 103], [1])]
    then Fault else Throw FAILED_EXPECTATION.
Proof.
  eexists. split; [reflexivity|].
  apply (open_request_length_wrong [47; 97] 1 2); [reflexivity|vm_compute; reflexivity|..].
  all: unfold ok_cstr, in_range, reserved, ok_attr, no_nul.
  all: repeat split; try lia; try reflexivity; repeat (constructor; try lia); try reflexivity; try discriminate.
Defined.

Definition ok_fd (fd : Z) : Prop := in_range 32 fd.
Definition ok_filename (f : list Z) : Prop := ok_str16 f /\ last f 0 <> 47 /\ f <> [].

Definition ok_dfs (c : dfs_call) : Prop :=
  match c with
  | dfs_open f b => ok_filename f /\ in_range 32 b
  | dfs_create f _ _ _ _ => ok_filename f
  | dfs_close fd | dfs_flush fd => ok_fd fd
  | dfs_read fd n => ok_fd fd /\ in_range 32 n
  | dfs_append fd data _ => ok_fd fd
  | dfs_seek fd o => ok_fd fd /\ in_range 64 o
  | dfs_pread fd o n => ok_fd fd /\ in_range 64 o /\ in_range 32 n
  | dfs_remove f | dfs_length f | dfs_mkdirs f | dfs_rmdir f | dfs_readdir f | dfs_exists f => ok_str16 f
  | dfs_rename s d => ok_str16 s /\ ok_str16 d
  | dfs_shutdown fl => in_range 16 fl
  | dfs_status => True
  end.

Lemma codec_filename f : ok_filename f -> codec (Ok (encode_str16 f)) (encoded_length_str16 f) decode_filename f.
Proof.
  intros ([Hn Hl] & Hs & Hne). destruct (codec_str16 f Hn Hl) as (l & E & N & R). exists l.
  split; [exact E|]. split; [exact N|]. intros m r Hr. specialize (R m r Hr).
  unfold decode_str16_cstr, decode_filename, dbind in *.
  apply bind_ok in R as ([[str len] s] & -> & R). cbn [bind fst snd] in *.
  destruct (cstr str) as [c|]; [|discriminate]. unfold dret in *. injection R as -> ->.
  replace (last (Z.shiftr len 8 :: f) 0) with (last f 0) by (destruct f; [now destruct Hne|reflexivity]).
  now rewrite (proj2 (Z.eqb_neq _ _)).
Qed.
#[export] Hint Resolve codec_filename : codec.
#[export] Hint Unfold ok_fd : codec.

Lemma codec_overwrite (o : bool) : codec (Ok (encode_i16 (if o then 1 else 0))) 2 decode_i16 (if o then 1 else 0).
Proof. apply codec_i16. destruct o; split; lia. Qed.

(** [append]: the data travel in the extended buffer. *)
Lemma dfs_append_served fd data flush : in_range 32 fd -> fits (dfs_create_append_request fd data flush) ->
  delivers dfs_service (dfs_create_append_request fd data flush) (dfs_append fd data flush).
Proof.
  intros Hfd Hf. unfold fits, dfs_create_append_request, request_ext in Hf. cbn [rq_len rq_ext] in Hf.
  pose proof (zlen_nonneg data).
  assert (C : codec (cat [Ok (encode_i32 fd); Ok (encode_i32 (zlen data)); Ok (encode_bool flush)]) (4 + (4 + (1 + 0)))
    (fd <~ decode_i32 ;; amount <~ decode_i32 ;; flush <~ decode_bool ;; dret (fd, amount, flush)) (fd, zlen data, flush)).
  { assert (in_range 32 (zlen data)) by (split; lia). codec_walk. reflexivity. }
  destruct C as (l & El & Nl & Rl). specialize (Rl data (zlen l + zlen data)).
  eapply delivers_intro; [apply wf_builder_make; concrete|concrete|exact El|lia|lia|reflexivity|].
  specialize (Rl ltac:(lia)). unfold dbind in Rl.
  apply bind_ok in Rl as ([a1 s1] & E1 & Rl). apply bind_ok in Rl as ([a2 s2] & E2 & Rl).
  apply bind_ok in Rl as ([a3 s3] & E3 & Rl). injection Rl as -> -> -> ->.
  cbn [h_decode]. unfold dfs_run_append, dbind. rewrite E1. cbn [bind]. rewrite E2. cbn [bind]. rewrite E3. cbn [bind].
  unfold decode_amount. cbn [ip remain]. rewrite (proj2 (Z.ltb_ge _ _)), (proj2 (Z.leb_le _ _)) by lia.
  cbn [bind]. unfold zlen at 1. now rewrite Nat2Z.id, firstn_all.
Qed.

(** DFS broker requests: every call with well-formed arguments arrives at
    the broker as itself, up to the unsigned types it declares; in particular a
    replication factor arrives reduced to 16 bits. *)
Theorem dfsbroker_requests_served c :
  ok_dfs c -> fits (dfs_request c) -> delivers dfs_service (dfs_request c) (dfs_received c).
Proof.
  intros Hok Hf. destruct c; cbn [ok_dfs dfs_request dfs_received] in *;
    repeat match type of Hok with _ /\ _ => destruct Hok as [? Hok] end;
    unfold ok_fd in *; autounfold with requests in *; try serve.
  - apply delivers_codec with (k := 2 + (4 + (4 + (8 + (encoded_length_str16 fname + 0)))))
      (h := {| h_decode := dfs_run_create; h_catch := own_code |}); [|lia| |reflexivity|concrete|concrete].
    + cbn [h_decode]. unfold dfs_run_create.
      eapply codec_bind; [apply codec_overwrite|]. eapply codec_bind; [apply codec_i32|].
      eapply codec_bind; [apply codec_i32|]. eapply codec_bind; [apply codec_i64|].
      eapply codec_bind; [now apply codec_filename|]. apply codec_ret_eq.
      rewrite wrap_narrow by lia. now destruct overwrite.
    + unfold fits, request in Hf. cbn [rq_len rq_ext] in Hf. change (zlen (@nil Z)) with 0 in Hf. lia.
  - now apply dfs_append_served.
  - apply delivers_codec with (k := 2) (h := {| h_decode := dfs_run_shutdown; h_catch := own_code |});
      [|reflexivity|reflexivity|reflexivity|concrete|concrete].
    apply codec_cat1. exists (encode_i16 flags). split; [reflexivity|]. split; [reflexivity|]. intros m r Hr.
    cbn [h_decode]. unfold dfs_run_shutdown, dbind. cbn [remain]. change (zlen (encode_i16 flags)) with 2 in *.
    rewrite (proj2 (Z.leb_le _ _)), decode_i16_encode by lia. cbn [bind]. now rewrite wrap_small.
Qed.

Lemma dfsbroker_requests_served_witness :
  delivers dfs_service (dfs_request (dfs_create [47; 102] true (-1) (-1) (-1)))
    (dfs_received (dfs_create [47; 102] true (-1) (-1) (-1))).
Proof.
  apply dfsbroker_requests_served; [|vm_compute; reflexivity].
  cbn [ok_dfs]. unfold ok_filename, ok_str16, no_nul. cbn [last].
  repeat split; try lia; try discriminate; repeat (constructor; try lia).
Defined.

(** The master and the lock service never read outside a received message,
    whatever it holds: their handlers answer a malformed one with an error.  The
    DFS broker does: its strings are not length checked, and an [open] whose
    message ends behind the string's length makes it search for the terminator
    past the end. *)
Theorem malformed_messages ev :
  message_len ev = zlen (message ev) -> message_len ev < 2 ^ 32 ->
  dispatch ms_service ev <> Fault /\
  (forall lease, hs_handle lease ev <> Fault) /\
  (message ev = encode_i16 DfsBrokerProtocol.COMMAND_OPEN ++ encode_i32 0 ++ encode_i16 9 ->
   dispatch dfs_service ev = Fault).
Proof.
  intros Hl Hb. assert (Hb' : message_len ev < 2 ^ 64) by lia. split; [|split].
  - apply dispatch_safe; [exact _|assumption..].
  - intros lease. unfold hs_handle. assert (S : dispatch hs_service ev <> Fault) by (apply dispatch_safe; [exact _|assumption..]).
    destruct (read_command false ev); [|assumption..]. destruct (_ && _); [discriminate|assumption].
  - intros E. unfold dispatch, read_command, run. rewrite Hl, E. reflexivity.
Qed.

Lemma malformed_messages_witness :
  let ev := {| ev_header := sent_header (HeaderBuilder_make PROTOCOL_DFSBROKER 0) None 24;
               message := encode_i16 DfsBrokerProtocol.COMMAND_OPEN ++ encode_i32 0 ++ encode_i16 9;
               message_len := 8; thread_group := 0 |} in
  dispatch ms_service ev <> Fault /\ hs_handle OK_ ev <> Fault /\ dispatch dfs_service ev = Fault.
Proof.
  cbv zeta.
  match goal with |- context [dispatch ms_service ?ev] =>
    destruct (malformed_messages ev) as (H1 & H2 & H3); [reflexivity|reflexivity|] end.
  split; [exact H1|]. split; [exact (H2 OK_)|]. apply H3. reflexivity.
Defined.
