(* ===== verification/ScanContext.v ===== *)
(** * Scan contexts

    [RangeServer/ScanContext.cc]: what a scan specification and the table schema
    mean for the scanners: the time interval, the column families wanted, the
    number of versions of each, and the two bounds between which the scanners
    look.  The theorems say which cells lie between the bounds, in terms of the
    rows and columns of the specification. *)
Set Warnings "-notation-incompatible-prefix,-clear-no-such-hyp".
From S2P Require Import Prelude Errors Key Deletes CellCache Scanner MergeScanner Schema Wire.
From stdpp Require Import base gmap strings list.
From Stdlib Require Import ZArith Lia Ascii String List.
Import ListNotations.
Open Scope Z_scope.
Open Scope result_scope.

(** A C string as a key of the schema's maps. *)
Fixpoint name_of (s : list Z) : string :=
  match s with
  | [] => EmptyString
  | b :: s' => String (ascii_of_N (Z.to_N b)) (name_of s')
  end.

(** [family_mask[256]] and [family_info[256]] *)
Record families := { fam_mask : Z -> bool; fam_info : Z -> CellFilterInfo }.

Record ScanContext := {
  spec : option ScanSpec; interval : Z * Z; sc_bounds : bounds; sc_info : Z -> CellFilterInfo }.

(** ** The time interval *)

Definition time_bounds (ts : Z) (ss : option ScanSpec) : Z * Z :=
  let '(first, second) :=
    match ss with
    | Some s =>
        let '(a, b) := time_interval s in
        (a, if ts =? 0 then b else if negb (b =? 0) then Z.min ts b else ts)
    | None => (0, ts)
    end in
  (first, if second =? 0 then END_OF_TIME else second).

(** ** Column families *)

Definition cutoff (ts ttl : Z) : Z := if ttl =? 0 then 0 else u64 (ts - u64 (u64 ttl * 1000000000)).
Definition versions (wanted per_family : Z) : Z :=
  if wanted =? 0 then per_family
  else if per_family =? 0 then wanted
  else if wanted <? per_family then wanted else per_family.

(** The assignments for one family; an id beyond the arrays writes outside them. *)
Definition family_settings (ts mv : Z) (cf : ColumnFamily) : CellFilterInfo :=
  {| cutoff_time := cutoff ts (cf_ttl cf); MergeScanner.max_versions := versions mv (cf_max_versions cf) |}.
Definition add_family (ts mv : Z) (cf : ColumnFamily) (f : families) : result families :=
  if cf_id cf <? 256 then
    Ok {| fam_mask := fun i => if i =? cf_id cf then true else fam_mask f i;
          fam_info := fun i => if i =? cf_id cf then family_settings ts mv cf else fam_info f i |}
  else Fault.

(** The columns of the specification; looking one up may change the schema. *)
Fixpoint add_named (ts mv : Z) (names : list (list Z)) (s : Schema.Schema) (f : families) : result families * Schema.Schema :=
  match names with
  | [] => (Ok f, s)
  | n :: names' =>
      let '(p, s) := get_column_family (name_of n) s in
      match p with
      | None => (Throw RANGESERVER_INVALID_COLUMNFAMILY, s)
      | Some p =>
          match cfs s !! p with
          | None => (Fault, s)
          | Some cf =>
              match add_family ts mv cf f with
              | Ok f => add_named ts mv names' s f
              | r => (r, s)
              end
          end
      end
  end.

(** All families of all access groups. *)
Fixpoint add_columns (ts mv : Z) (c : gmap nat ColumnFamily) (cols : list nat) (f : families) : result families :=
  match cols with
  | [] => Ok f
  | p :: cols' =>
      match c !! p with
      | None => Fault
      | Some cf =>
          if cf_id cf =? 0 then Throw RANGESERVER_SCHEMA_INVALID_CFID
          else f <- add_family ts mv cf f ;; add_columns ts mv c cols' f
      end
  end.

Fixpoint add_groups (ts mv : Z) (s : Schema.Schema) (groups : list nat) (f : families) : result families :=
  match groups with
  | [] => Ok f
  | g :: groups' =>
      match ags s !! g with
      | None => Fault
      | Some ag => f <- add_columns ts mv (cfs s) (ag_columns ag) f ;; add_groups ts mv s groups' f
      end
  end.

Definition set_mask (i : Z) (f : families) : families :=
  {| fam_mask := fun j => if j =? i then true else fam_mask f j; fam_info := fam_info f |}.

(** [memset] of both arrays, then the families, if there is a schema. *)
Definition set_families (ts : Z) (ss : option ScanSpec) (sp : option Schema.Schema) : result families * option Schema.Schema :=
  let info := fun _ : Z => {| cutoff_time := 0; MergeScanner.max_versions := 0 |} in
  let f := {| fam_mask := fun _ => match ss with None => true | Some _ => false end; fam_info := info |} in
  let mv := match ss with None => 0 | Some s => Wire.max_versions s end in
  match sp with
  | None => (Ok f, None)
  | Some s =>
      match ss with
      | Some {| columns := n :: ns |} =>
          let '(r, s) := add_named ts mv (n :: ns) s f in (r, Some s)
      | _ => (add_groups ts mv s (m_access_groups s) (set_mask 0 f), Some s)
      end
  end.

(** ** Bounds *)

(** A row interval.  The next row behind [r] is [r] with a byte 1 behind; the
    end is bumped by its last character. *)
Definition bump_end (e : list Z) : list Z :=
  if last e 0 =? 255 then e ++ [1] else removelast e ++ [last e 0 + 1].

Definition row_interval_bounds (ri : RowInterval) : list Z * list Z :=
  (if ri_start_inclusive ri then ri_start ri else ri_start ri ++ [1],
   match ri_end ri with
   | [] => END_ROW_MARKER
   | e => if ri_end_inclusive ri then bump_end e else e
   end).

(** [strchr(column, ':')]: the family's name and the qualifier. *)
Fixpoint split_colon (c : list Z) : option (list Z * list Z) :=
  match c with
  | [] => None
  | b :: c' =>
      if b =? 58 then Some ([], c')
      else match split_colon c' with Some (f, q) => Some (b :: f, q) | None => None end
  end.

(** One end of a cell interval with a column. *)
Definition cell_bound (sp : option Schema.Schema) (row column : list Z) (bump : bool)
  : result (list Z) * option Schema.Schema :=
  match column with
  | [] => (Ok row, sp)
  | _ =>
      match split_colon column with
      | None => (Throw RANGESERVER_BAD_SCAN_SPEC, sp)
      | Some (fam, qual) =>
          match sp with
          | None => (Fault, sp)
          | Some s =>
              let '(p, s) := get_column_family (name_of fam) s in
              match p with
              | None => (Throw RANGESERVER_BAD_SCAN_SPEC, Some s)
              | Some p =>
                  match cfs s !! p with
                  | None => (Fault, Some s)
                  | Some cf =>
                      (Ok (row ++ [0; u8 (cf_id cf)] ++ qual ++ (if bump then [1] else [])), Some s)
                  end
              end
          end
      end
  end.

Definition cell_interval_bounds (ci : CellInterval) (sp : option Schema.Schema)
  : result (list Z * list Z) * option Schema.Schema :=
  let '(s, sp) := cell_bound sp (ci_start_row ci) (ci_start_column ci) (negb (ci_start_inclusive ci)) in
  match s with
  | Ok s =>
      let '(e, sp) := cell_bound sp (ci_end_row ci) (ci_end_column ci) (ci_end_inclusive ci) in
      (e <- e ;; Ok (s, e), sp)
  | Throw c => (Throw c, sp)
  | Fault => (Fault, sp)
  end.

Definition set_bounds (ss : option ScanSpec) (sp : option Schema.Schema)
  : result (list Z * list Z) * option Schema.Schema :=
  match ss with
  | None => (Ok ([], END_ROW_MARKER), sp)
  | Some s =>
      let '(r, sp) :=
        match row_intervals s, cell_intervals s with
        | ri :: _, _ => (Ok (row_interval_bounds ri), sp)
        | [], ci :: _ => cell_interval_bounds ci sp
        | [], [] => (Ok ([], END_ROW_MARKER), sp)
        end in
      (b <- r ;; if bytes_leb (fst b) (snd b) then Ok b else Throw RANGESERVER_BAD_SCAN_SPEC, sp)
  end.

(** [initialize(ts, ss, range, sp)], with the schema as it is afterwards. *)
Definition ScanContext_initialize (ts : Z) (ss : option ScanSpec) (sp : option Schema.Schema)
  : result ScanContext * option Schema.Schema :=
  let '(f, sp) := set_families ts ss sp in
  match f with
  | Ok f =>
      let '(b, sp) := set_bounds ss sp in
      (b <- b ;;
       Ok {| spec := ss; interval := time_bounds ts ss;
             sc_bounds := {| start_row := fst b; end_row := snd b; family_mask := fam_mask f |};
             sc_info := fam_info f |}, sp)
  | Throw c => (Throw c, sp)
  | Fault => (Fault, sp)
  end.

(** ** Which cells lie between the bounds *)

(** Comparison of a cell with a position (row, family, qualifier). *)
Definition place_cmp (r : list Z) (f : Z) (q : list Z) (k : KeyComps) : comparison :=
  match bytes_cmp r (k_row k) with
  | Eq => match f ?= k_family k with Eq => bytes_cmp q (k_qual k) | c => c end
  | c => c
  end.

Definition is_prefix (e r : list Z) : bool := bytes_eqb (firstn (length e) r) e.

(** Rows of a row interval.  With an inclusive end, the rows that begin with the
    end row pass too, unless its last character is 255. *)
Definition row_interval_wants (ri : RowInterval) (k : KeyComps) : bool :=
  (if ri_start_inclusive ri then bytes_leb (ri_start ri) (k_row k) else bytes_ltb (ri_start ri) (k_row k)) &&
  match ri_end ri with
  | [] => bytes_ltb (k_row k) END_ROW_MARKER
  | e => if ri_end_inclusive ri
         then bytes_leb (k_row k) e || (negb (last e 0 =? 255) && is_prefix e (k_row k))
         else bytes_ltb (k_row k) e
  end.

(** The position a column of a cell interval stands for. *)
Definition family_named (s : Schema.Schema) (n : list Z) : option ColumnFamily :=
  match m_column_family_map s !! name_of n with
  | Some (Some p) => cfs s !! p
  | _ => None
  end.

Definition above_cell (s : Schema.Schema) (row column : list Z) (strict : bool) (k : KeyComps) : bool :=
  match column with
  | [] => bytes_leb row (k_row k)
  | _ => match split_colon column with
         | Some (f, q) =>
             match family_named s f with
             | Some cf => match place_cmp row (cf_id cf) q k with Lt => true | Eq => negb strict | Gt => false end
             | None => false
             end
         | None => false
         end
  end.

Definition cell_interval_wants (s : Schema.Schema) (ci : CellInterval) (k : KeyComps) : bool :=
  above_cell s (ci_start_row ci) (ci_start_column ci) (negb (ci_start_inclusive ci)) k &&
  negb (above_cell s (ci_end_row ci) (ci_end_column ci) (ci_end_inclusive ci) k).

Definition spec_wants (s : Schema.Schema) (ss : option ScanSpec) (k : KeyComps) : bool :=
  match ss with
  | None => bytes_ltb (k_row k) END_ROW_MARKER
  | Some ss =>
      match row_intervals ss, cell_intervals ss with
      | ri :: _, _ => row_interval_wants ri k
      | [], ci :: _ => cell_interval_wants s ci k
      | [], [] => bytes_ltb (k_row k) END_ROW_MARKER
      end
  end.

Definition clean (s : list Z) : Prop := no_nul s /\ wf_bytes s.

Lemma clean_app s t : clean s -> clean t -> clean (s ++ t).
Proof. intros [H1 H2] [H3 H4]. split; apply Forall_app; auto. Qed.

Lemma clean_1 b : 1 <= b < 256 -> clean [b].
Proof. intros Hb. split; repeat constructor; unfold is_byte, in_range; lia. Qed.

Definition key_of (k : KeyComps) : entry := {| e_block := 0; e_key := pack k; e_value := []; e_off := 0 |}.

(** A bound behind which the rows come. *)
Lemma bound_row s k : clean s -> wf_comps k ->
  bytes_cmp (row_bound s) (pack k) = match bytes_cmp s (k_row k) with Eq => Lt | c => c end.
Proof.
  intros [Hs Ws] (Hr & Wr & _). unfold row_bound, pack. rewrite write_key_shape, bytes_cmp_cstr by assumption.
  now destruct (bytes_cmp s (k_row k)).
Qed.

(** A bound inside a row. *)
Lemma bound_cell r f q k : clean r -> clean q -> wf_comps k ->
  bytes_cmp (row_bound (r ++ [0; f] ++ q)) (pack k) = match place_cmp r f q k with Eq => Lt | c => c end.
Proof.
  intros [Hr Wr] [Hq Wq] (Hr' & Wr' & _ & Hq' & Wq' & _). unfold row_bound, pack. rewrite write_key_shape.
  rewrite <- !app_assoc. cbn [app]. rewrite bytes_cmp_cstr by assumption. unfold place_cmp.
  destruct (bytes_cmp r (k_row k)); try reflexivity. cbn [bytes_cmp]. destruct (f ?= k_family k); try reflexivity.
  cbn [qual_or_empty]. rewrite bytes_cmp_cstr by assumption. now destruct (bytes_cmp q (k_qual k)).
Qed.

(** [s] with a 1 behind it is the next string without NUL. *)
Lemma next_string s r : clean r -> bytes_leb (s ++ [1]) r = bytes_ltb s r.
Proof.
  unfold bytes_leb, bytes_ltb. revert r. induction s as [|a s IH]; intros [|b r] [Hn Hw]; cbn [app bytes_cmp]; try reflexivity; inv Hn; inv Hw.
  - unfold is_byte, in_range in *. destruct (Z.compare_spec 1 b); [now destruct r|reflexivity|lia].
  - destruct (a ?= b); [apply IH; now split|reflexivity..].
Qed.

Lemma ltb_leb a b : bytes_ltb a b = negb (bytes_leb b a).
Proof. unfold bytes_ltb, bytes_leb. rewrite bytes_cmp_antisym. now destruct (bytes_cmp b a). Qed.

(** Bumping the last character lets the string and what begins with it pass. *)
Lemma bump_last p c r : bytes_ltb r (p ++ [c + 1]) = bytes_leb r (p ++ [c]) || is_prefix (p ++ [c]) r.
Proof.
  unfold bytes_ltb, bytes_leb, is_prefix, bytes_eqb. revert r.
  induction p as [|a p IH]; intros [|b r]; cbn [app length firstn bytes_cmp]; try reflexivity.
  - destruct (Z.compare_spec b (c + 1)); destruct (Z.compare_spec b c); try lia; try reflexivity; now destruct r.
  - destruct (b ?= a); [apply IH|reflexivity..].
Qed.

Lemma bump_end_spec e r : clean r -> e <> [] ->
  bytes_ltb r (bump_end e) = bytes_leb r e || (negb (last e 0 =? 255) && is_prefix e r).
Proof.
  intros Hr He. unfold bump_end. destruct (last e 0 =? 255) eqn:E; cbn [negb andb].
  - rewrite ltb_leb, next_string, ltb_leb, negb_involutive, orb_false_r by assumption. reflexivity.
  - now rewrite bump_last, <- app_removelast_last.
Qed.

Lemma clean_bump e : clean e -> e <> [] -> clean (bump_end e).
Proof.
  intros He Hn. unfold bump_end. rewrite (app_removelast_last 0 Hn) in He. destruct He as [H1 H2].
  apply Forall_app in H1 as [H1 H1']. apply Forall_app in H2 as [H2 H2']. inv H1'. inv H2'. unfold is_byte, in_range in *.
  destruct (last e 0 =? 255) eqn:E.
  - apply clean_app; [rewrite (app_removelast_last 0 Hn); apply clean_app; [now split|]|]; apply clean_1; lia.
  - apply Z.eqb_neq in E. apply clean_app; [now split|]. apply clean_1. lia.
Qed.

(** Both tests of [in_bounds] for a bound of rows and for one inside a row. *)
Lemma above_row s k : clean s -> wf_comps k -> bytes_leb (row_bound s) (pack k) = bytes_leb s (k_row k).
Proof. intros Hs Hk. unfold bytes_leb. rewrite bound_row by assumption. now destruct (bytes_cmp s (k_row k)). Qed.

Lemma above_place r f q k : clean r -> clean q -> wf_comps k ->
  bytes_leb (row_bound (r ++ [0; f] ++ q)) (pack k) = match place_cmp r f q k with Gt => false | _ => true end.
Proof. intros Hr Hq Hk. unfold bytes_leb. rewrite bound_cell by assumption. now destruct (place_cmp r f q k). Qed.

Lemma place_next r f q k : wf_comps k ->
  match place_cmp r f (q ++ [1]) k with Gt => false | _ => true end =
  match place_cmp r f q k with Lt => true | _ => false end.
Proof.
  intros (_ & _ & _ & Hq & Wq & _). unfold place_cmp. destruct (bytes_cmp r (k_row k)); try reflexivity.
  destruct (f ?= k_family k); try reflexivity. exact (next_string q (k_qual k) (conj Hq Wq)).
Qed.

(** ** Lookups that succeed leave the schema alone *)

Lemma lookup_found n s p s' : get_column_family n s = (Some p, s') -> s' = s /\ m_column_family_map s !! n = Some (Some p).
Proof. unfold get_column_family. destruct (m_column_family_map s !! n) as [q|] eqn:E; intros [= -> <-]; auto. Qed.

(** The arrays after the assignments for the families [C]. *)
Record granted (ts mv : Z) (C : ColumnFamily -> Prop) (f f' : families) : Prop := {
  granted_mask i : fam_mask f' i = true <-> fam_mask f i = true \/ exists cf, C cf /\ cf_id cf = i;
  granted_info i : fam_info f' i = fam_info f i /\ ~ (exists cf, C cf /\ cf_id cf = i) \/
    exists cf, C cf /\ cf_id cf = i /\ fam_info f' i = family_settings ts mv cf }.

Lemma granted_nil ts mv C f : (forall cf, ~ C cf) -> granted ts mv C f f.
Proof.
  intros H. split; intros i.
  - split; [auto|]. intros [?|(cf & Hc & _)]; [assumption|now apply H in Hc].
  - left. split; [reflexivity|]. intros (cf & Hc & _). now apply H in Hc.
Qed.

Lemma granted_trans ts mv C1 C2 C f g h : granted ts mv C1 f g -> granted ts mv C2 g h ->
  (forall cf, C cf <-> C1 cf \/ C2 cf) -> granted ts mv C f h.
Proof.
  intros [M1 I1] [M2 I2] HC. split; intros i.
  - rewrite M2, M1. split; [intros [[?|(cf & ? & ?)]|(cf & ? & ?)]; [auto|right; exists cf; rewrite HC; auto..]|].
    intros [?|(cf & Hc & ?)]; [auto|]. apply HC in Hc as [?|?]; eauto.
  - destruct (I2 i) as [[E2 N2]|(cf & ? & ? & ?)]; [|right; exists cf; rewrite HC; auto].
    destruct (I1 i) as [[E1 N1]|(cf & ? & ? & E)]; [|right; exists cf; rewrite HC, E2; auto].
    left. split; [congruence|]. intros (cf & Hc & ?). apply HC in Hc as [?|?]; eauto.
Qed.

Lemma granted_settings ts mv C f f' i : granted ts mv C f f' -> MergeScanner.max_versions (fam_info f i) = 0 ->
  ((exists cf, C cf /\ cf_id cf = i) ->
     exists cf, C cf /\ cf_id cf = i /\ fam_info f' i = family_settings ts mv cf) /\
  (~ (exists cf, C cf /\ cf_id cf = i) -> MergeScanner.max_versions (fam_info f' i) = 0).
Proof.
  intros [_ HI] H0. destruct (HI i) as [[E N]|(cf & Hc & Hi & E)]; split; intros H.
  - contradiction.
  - now rewrite E.
  - eauto.
  - destruct H. eauto.
Qed.

Lemma add_family_granted ts mv cf f f' : add_family ts mv cf f = Ok f' -> granted ts mv (eq cf) f f'.
Proof.
  unfold add_family. destruct (cf_id cf <? 256); [|discriminate]. intros [= <-].
  split; intros i; cbn [fam_mask fam_info]; destruct (Z.eqb_spec i (cf_id cf)) as [->|Hne].
  - split; [|auto]. intros _. right. eauto.
  - split; [auto|]. intros [?|(? & <- & ?)]; congruence.
  - right. eauto.
  - left. split; [reflexivity|]. intros (? & <- & ?). congruence.
Qed.

Lemma add_named_ok ts mv : forall names s f f' s', add_named ts mv names s f = (Ok f', s') -> s' = s /\
  (forall n, In n names -> family_named s n <> None) /\
  granted ts mv (fun cf => exists n, In n names /\ family_named s n = Some cf) f f'.
Proof.
  induction names as [|n names IH]; intros s f f' s'; cbn [add_named].
  { intros [= <- <-]. split; [reflexivity|]. split; [intros ? []|]. apply granted_nil. intros cf (n & [] & _). }
  destruct (get_column_family (name_of n) s) as [[p|] s1] eqn:El; [|discriminate].
  apply lookup_found in El as [-> El]. destruct (cfs s !! p) as [cf|] eqn:Ec; [|discriminate].
  assert (Hn : family_named s n = Some cf) by (unfold family_named; now rewrite El).
  destruct (add_family ts mv cf f) as [g| |] eqn:Ea; [|discriminate..]. intros H. apply IH in H as (-> & Hall & Hg).
  split; [reflexivity|]. split; [intros x [<-|Hx]; [congruence|auto]|].
  refine (granted_trans _ _ _ _ _ _ _ _ (add_family_granted _ _ _ _ _ Ea) Hg _). intros c. split.
  - intros (x & [<-|Hx] & Hc); [left; congruence|eauto].
  - intros [<-|(x & Hx & Hc)]; [exists n|exists x]; cbn; auto.
Qed.

Lemma add_columns_ok ts mv c : forall cols f f', add_columns ts mv c cols f = Ok f' ->
  granted ts mv (fun cf => exists p, In p cols /\ c !! p = Some cf) f f'.
Proof.
  induction cols as [|p cols IH]; intros f f'; cbn [add_columns].
  { intros [= <-]. apply granted_nil. intros cf (n & [] & _). }
  destruct (c !! p) as [cf|] eqn:Ec; [|discriminate]. destruct (cf_id cf =? 0); [discriminate|]. intros H.
  apply bind_ok in H as (g & Ea & H). apply IH in H.
  refine (granted_trans _ _ _ _ _ _ _ _ (add_family_granted _ _ _ _ _ Ea) H _). intros x. split.
  - intros (q & [<-|Hq] & Hc); [left; congruence|eauto].
  - intros [<-|(q & Hq & Hc)]; [exists p|exists q]; cbn; auto.
Qed.

Definition in_groups (s : Schema.Schema) (groups : list nat) (cf : ColumnFamily) : Prop :=
  exists g ag p, In g groups /\ ags s !! g = Some ag /\ In p (ag_columns ag) /\ cfs s !! p = Some cf.

Lemma add_groups_ok ts mv s : forall groups f f', add_groups ts mv s groups f = Ok f' ->
  granted ts mv (in_groups s groups) f f'.
Proof.
  induction groups as [|g groups IH]; intros f f'; cbn [add_groups].
  { intros [= <-]. apply granted_nil. intros cf (n & ? & ? & [] & _). }
  destruct (ags s !! g) as [ag|] eqn:Eg; [|discriminate]. intros H. apply bind_ok in H as (h & Ea & H).
  apply IH in H. apply add_columns_ok in Ea. refine (granted_trans _ _ _ _ _ _ _ _ Ea H _). intros x. split.
  - intros (g' & ag' & p & [<-|Hg] & Ha & Hp & Hc); [left; exists p; split; [congruence|assumption]|right; exists g', ag', p; auto].
  - intros [(p & Hp & Hc)|(g' & ag' & p & Hg & Ha & Hp & Hc)]; [exists g, ag, p|exists g', ag', p]; cbn; auto.
Qed.

Lemma set_families_schema ts ss s f sp : set_families ts ss (Some s) = (Ok f, sp) -> sp = Some s.
Proof.
  unfold set_families. destruct ss as [[? ? [|n ns] ? ? ? ?]|]; intros H; try congruence.
  match type of H with context [add_named ?a ?b ?c ?d ?e] => destruct (add_named a b c d e) as [r s'] eqn:E end.
  injection H as -> <-. now apply add_named_ok in E as (-> & _).
Qed.

(** ** The bounds of a specification *)

Definition clean_interval (ri : RowInterval) : Prop := clean (ri_start ri) /\ clean (ri_end ri).
Definition clean_cell (ci : CellInterval) : Prop :=
  clean (ci_start_row ci) /\ clean (ci_start_column ci) /\ clean (ci_end_row ci) /\ clean (ci_end_column ci).
Definition clean_spec (ss : option ScanSpec) : Prop :=
  match ss with
  | None => True
  | Some s => Forall clean_interval (row_intervals s) /\ Forall clean_cell (cell_intervals s)
  end.
Definition ids_ok (s : Schema.Schema) : Prop := forall p cf, cfs s !! p = Some cf -> is_byte (cf_id cf).

Lemma clean_marker : clean END_ROW_MARKER.
Proof. split; repeat constructor; cbv; congruence. Qed.

Lemma row_interval_bounds_ok ri k : clean_interval ri -> wf_comps k ->
  bytes_leb (row_bound (fst (row_interval_bounds ri))) (pack k) &&
  bytes_ltb (pack k) (row_bound (snd (row_interval_bounds ri))) = row_interval_wants ri k.
Proof.
  intros [Hs He] Hk. pose proof Hk as (Hr & Wr & _). unfold row_interval_bounds, row_interval_wants. cbn [fst snd].
  rewrite (ltb_leb (pack k)). f_equal.
  - destruct (ri_start_inclusive ri); rewrite above_row; auto using next_string.
    + now apply next_string.
    + apply clean_app; [assumption|]. now apply clean_1.
  - destruct (ri_end ri) as [|b e] eqn:E; [rewrite above_row, <- ltb_leb by auto using clean_marker; reflexivity|].
    rewrite <- E in *. assert (Hne : ri_end ri <> []) by congruence.
    destruct (ri_end_inclusive ri); rewrite above_row, <- ltb_leb by auto using clean_bump; [|reflexivity].
    apply bump_end_spec; [now split|assumption].
Qed.

Lemma split_colon_clean c f q : clean c -> split_colon c = Some (f, q) -> clean q.
Proof.
  revert f. induction c as [|b c IH]; intros f [H1 H2]; cbn [split_colon]; [discriminate|]. inv H1. inv H2.
  destruct (b =? 58); [intros [= _ <-]; now split|]. destruct (split_colon c) as [[f' q']|]; [|discriminate].
  intros [= _ <-]. apply (IH f'); [now split|reflexivity].
Qed.

Lemma cell_bound_ok s row column bump b sp k : clean row -> clean column -> ids_ok s -> wf_comps k ->
  cell_bound (Some s) row column bump = (Ok b, sp) ->
  sp = Some s /\ bytes_leb (row_bound b) (pack k) = above_cell s row column bump k.
Proof.
  intros Hr Hc Hid Hk. unfold cell_bound, above_cell. destruct column as [|c0 c]; [intros [= <- <-]; auto using above_row|].
  destruct (split_colon (c0 :: c)) as [[fam q]|] eqn:Es; [|discriminate]. apply split_colon_clean in Es; [|assumption].
  destruct (get_column_family (name_of fam) s) as [[p|] s1] eqn:El; [|discriminate]. apply lookup_found in El as [-> El].
  unfold family_named. rewrite El. destruct (cfs s !! p) as [cf|] eqn:Ec; [|discriminate]. intros H.
  apply pair_equal_spec in H as [H <-]. apply Ok_inj in H as <-. split; [reflexivity|]. rewrite wrap_small by exact (Hid _ _ Ec). destruct bump.
  - rewrite above_place, place_next by (try apply clean_app; auto; now apply clean_1). now destruct (place_cmp _ _ _ _).
  - rewrite app_nil_r, above_place by assumption. now destruct (place_cmp _ _ _ _).
Qed.

Lemma cell_interval_bounds_ok ci s b sp k : clean_cell ci -> ids_ok s -> wf_comps k ->
  cell_interval_bounds ci (Some s) = (Ok b, sp) ->
  sp = Some s /\
  bytes_leb (row_bound (fst b)) (pack k) && bytes_ltb (pack k) (row_bound (snd b)) = cell_interval_wants s ci k.
Proof.
  intros (H1 & H2 & H3 & H4) Hid Hk. unfold cell_interval_bounds, cell_interval_wants.
  destruct (cell_bound (Some s) (ci_start_row ci) (ci_start_column ci) _) as [[b1| |] sp1] eqn:E1; [|discriminate..].
  destruct (cell_bound_ok _ _ _ _ _ _ k H1 H2 Hid Hk E1) as [-> <-].
  destruct (cell_bound (Some s) (ci_end_row ci) (ci_end_column ci) _) as [r2 sp2] eqn:E2. intros H.
  apply pair_equal_spec in H as [H <-]. apply bind_ok in H as (b2 & -> & H). apply Ok_inj in H as <-.
  destruct (cell_bound_ok _ _ _ _ _ _ k H3 H4 Hid Hk E2) as [-> <-]. split; [reflexivity|]. cbn [fst snd]. now rewrite ltb_leb.
Qed.

Lemma set_bounds_ok ss s b sp k : clean_spec ss -> ids_ok s -> wf_comps k -> set_bounds ss (Some s) = (Ok b, sp) ->
  sp = Some s /\ bytes_leb (fst b) (snd b) = true /\
  bytes_leb (row_bound (fst b)) (pack k) && bytes_ltb (pack k) (row_bound (snd b)) = spec_wants s ss k.
Proof.
  intros Hc Hid Hk. unfold set_bounds, spec_wants.
  assert (All : bytes_leb (row_bound []) (pack k) && bytes_ltb (pack k) (row_bound END_ROW_MARKER) = bytes_ltb (k_row k) END_ROW_MARKER).
  { assert (Hnil : clean []) by (split; constructor). pose proof clean_marker.
    rewrite ltb_leb, !above_row by assumption. rewrite <- ltb_leb. now destruct (k_row k). }
  destruct ss as [ss|]; [|intros H; apply pair_equal_spec in H as [H <-]; apply Ok_inj in H as <-; auto].
  destruct Hc as [Hri Hci]. destruct (row_intervals ss) as [|ri ris]; [destruct (cell_intervals ss) as [|ci cis]|]; intros H.
  - apply pair_equal_spec in H as [H <-]. apply Ok_inj in H as <-. auto.
  - destruct (cell_interval_bounds ci (Some s)) as [r sp1] eqn:E. apply pair_equal_spec in H as [H <-].
    apply bind_ok in H as (b' & -> & H). destruct (bytes_leb (fst b') (snd b')) eqn:Hle; [|discriminate].
    apply Ok_inj in H as <-. apply Forall_cons_iff in Hci as [Hci _].
    destruct (cell_interval_bounds_ok ci s b' sp1 k Hci Hid Hk E) as [-> Hw]. auto.
  - apply pair_equal_spec in H as [H <-]. apply bind_ok in H as (b' & Hb & H). apply Ok_inj in Hb as <-.
    destruct (bytes_leb (fst _) (snd _)) eqn:Hle; [|discriminate]. apply Ok_inj in H as <-.
    apply Forall_cons_iff in Hri as [Hri _]. auto using row_interval_bounds_ok.
Qed.

Lemma initialize_inv ts ss s ctx sp : ScanContext_initialize ts ss (Some s) = (Ok ctx, sp) ->
  exists f b, set_families ts ss (Some s) = (Ok f, Some s) /\ set_bounds ss (Some s) = (Ok b, sp) /\
    ctx = {| spec := ss; interval := time_bounds ts ss;
             sc_bounds := {| start_row := fst b; end_row := snd b; family_mask := fam_mask f |}; sc_info := fam_info f |}.
Proof.
  unfold ScanContext_initialize. destruct (set_families ts ss (Some s)) as [[f| |] sp1] eqn:E; [|discriminate..].
  pose proof (set_families_schema _ _ _ _ _ E) as ->. destruct (set_bounds ss (Some s)) as [r sp2] eqn:Eb. intros H.
  apply pair_equal_spec in H as [H <-]. apply bind_ok in H as (b & -> & H). apply Ok_inj in H as <-. eauto.
Qed.


(** The families a specification asks for. *)
Definition asked (s : Schema.Schema) (ss : option ScanSpec) (cf : ColumnFamily) : Prop :=
  match ss with
  | Some {| columns := n :: ns |} => exists x, In x (n :: ns) /\ family_named s x = Some cf
  | _ => in_groups s (m_access_groups s) cf
  end.

(** The families that pass are those of the columns asked for, or of all
    access groups when no column is named (and then code 0 of row deletes); each
    has as number of versions the smaller nonzero one of the specification and
    the schema.  Without a specification every code passes.  A column that the
    schema does not have makes the construction fail. *)
Theorem scan_families_correct ts ss s ctx sp : ScanContext_initialize ts ss (Some s) = (Ok ctx, sp) ->
  (forall n, In n (match ss with Some q => columns q | None => [] end) -> family_named s n <> None) /\
  forall i,
    (family_mask (sc_bounds ctx) i = true <->
       ss = None \/ (exists q, ss = Some q /\ columns q = []) /\ i = 0 \/ exists cf, asked s ss cf /\ cf_id cf = i) /\
    ((exists cf, asked s ss cf /\ cf_id cf = i) ->
       exists cf, asked s ss cf /\ cf_id cf = i /\
         sc_info ctx i = family_settings ts (match ss with Some q => Wire.max_versions q | None => 0 end) cf) /\
    (~ (exists cf, asked s ss cf /\ cf_id cf = i) -> MergeScanner.max_versions (sc_info ctx i) = 0).
Proof.
  intros H. apply initialize_inv in H as (f & b & Hf & _ & ->). cbn [sc_bounds family_mask sc_info].
  unfold set_families in Hf. destruct ss as [[? mv [|n ns] ? ? ? ?]|]; cbn [columns Wire.max_versions asked] in *.
  - apply pair_equal_spec in Hf as [Hf _]. apply add_groups_ok in Hf as Hg. split; [intros ? []|]. intros i.
    split; [|now apply (granted_settings _ _ _ _ _ i Hg)]. rewrite (granted_mask _ _ _ _ _ Hg). cbn [set_mask fam_mask].
    destruct (Z.eqb_spec i 0); [subst; split; [|auto]|].
    + intros _. right. left. split; [eexists; split; reflexivity|reflexivity].
    + split; [intros [?|?]; [discriminate|auto]|]. intros [?|[[_ ?]|?]]; [discriminate|contradiction|auto].
  - destruct (add_named _ _ _ _ _) as [r s'] eqn:E. apply pair_equal_spec in Hf as [-> _].
    apply add_named_ok in E as (_ & Hall & Hg). split; [assumption|]. intros i.
    split; [|now apply (granted_settings _ _ _ _ _ i Hg)]. rewrite (granted_mask _ _ _ _ _ Hg). cbn [fam_mask].
    split; [intros [?|?]; [discriminate|auto]|]. intros [?|[[(q & [= <-] & ?) _]|?]]; [discriminate..|auto].
  - apply pair_equal_spec in Hf as [Hf _]. apply add_groups_ok in Hf as Hg. split; [intros ? []|]. intros i.
    split; [|now apply (granted_settings _ _ _ _ _ i Hg)]. split; [auto|]. intros _. apply (granted_mask _ _ _ _ _ Hg).
    left. cbn. now destruct (i =? 0).
Qed.

(** ** A specification *)

Definition sample_table : Schema.Schema := assign_ids sample_schema.

(** Column family [b], rows from [r] to [s] inclusive. *)
Definition sample_spec : ScanSpec :=
  {| row_limit := 0; Wire.max_versions := 2; columns := [[98]];
     row_intervals := [{| ri_start := [114]; ri_start_inclusive := true; ri_end := [115]; ri_end_inclusive := true |}];
     cell_intervals := []; time_interval := (0, 0); return_deletes := false |}.

Lemma sample_ids : ids_ok sample_table.
Proof.
  intros p cf. unfold sample_table.
  assert (H : map_Forall (fun _ cf => is_byte (cf_id cf)) (cfs (assign_ids sample_schema))).
  { apply map_Forall_to_list. vm_compute map_to_list. repeat constructor; cbv; congruence. }
  exact (H p cf).
Qed.

Definition sample_context : ScanContext :=
  match fst (ScanContext_initialize 0 (Some sample_spec) (Some sample_table)) with
  | Ok c => c
  | _ => {| spec := None; interval := (0, 0);
            sc_bounds := {| start_row := []; end_row := []; family_mask := fun _ => false |};
            sc_info := fun _ => {| cutoff_time := 0; MergeScanner.max_versions := 0 |} |}
  end.

Lemma sample_initialize :
  ScanContext_initialize 0 (Some sample_spec) (Some sample_table) = (Ok sample_context, Some sample_table).
Proof. reflexivity. Qed.


Lemma scan_families_correct_witness :
  family_named sample_table [98] <> None /\
  (family_mask (sc_bounds sample_context) 2 = true <->
     Some sample_spec = None \/ (exists q, Some sample_spec = Some q /\ columns q = []) /\ 2 = 0 \/
     exists cf, asked sample_table (Some sample_spec) cf /\ cf_id cf = 2).
Proof.
  destruct (scan_families_correct 0 (Some sample_spec) sample_table sample_context (Some sample_table) sample_initialize) as [H1 H2].
  split; [apply H1; now left|exact (proj1 (H2 2))].
Defined.
