(* ===== verification/BlockCodec.v ===== *)
(** * Compressed blocks

    [Hypertable/Lib/BlockCompressionHeader*.cc] and the block codecs
    ([BlockCompressionCodecNone], [...Zlib], [...Lzo], [...Quicklz], [...Bmz]):
    cell stores and commit logs are sequences of blocks, each a header with two
    checksums followed by data, compressed or not.

    The compression functions themselves are an argument: what the codec classes
    rely on is the record [Compressor] and the law [Lossless]. *)
From S2P Require Import Prelude Errors Serialization Checksum ByteString Wire.
From Stdlib Require Import ZArith Lia List Bool.
Import ListNotations.
Open Scope Z_scope.
Open Scope result_scope.

(** ** Headers *)

(** [BlockCompressionCodec::Type] *)
Definition NONE : Z := 0.
Definition BMZ : Z := 1.
Definition ZLIB : Z := 2.
Definition LZO : Z := 3.
Definition QUICKLZ : Z := 4.
Definition COMPRESSION_TYPE_LIMIT : Z := 5.

(** The base class, and with a timestamp the subclass of commit log blocks. *)
Record BlockHeader := {
  bh_magic : list Z; bh_data_length : Z; bh_data_zlength : Z; bh_data_checksum : Z;
  bh_compression_type : Z; bh_timestamp : option Z }.

Definition BlockHeader_make (magic : list Z) : BlockHeader :=
  {| bh_magic := magic; bh_data_length := 0; bh_data_zlength := 0; bh_data_checksum := 0;
     bh_compression_type := u16 (-1); bh_timestamp := None |}.
Definition BlockHeaderCommitLog_make (magic : list Z) (timestamp : Z) : BlockHeader :=
  {| bh_magic := magic; bh_data_length := 0; bh_data_zlength := 0; bh_data_checksum := 0;
     bh_compression_type := u16 (-1); bh_timestamp := Some timestamp |}.

(** The virtual [length()]. *)
Definition bh_length (log : bool) : Z := if log then 34 else 26.
Definition is_log (h : BlockHeader) : bool := match bh_timestamp h with Some _ => true | None => false end.

Definition check_magic (magic : list Z) (h : BlockHeader) : bool := bytes_eqb magic (bh_magic h).

(** [encode]: the base part, the timestamp of the subclass, and the checksum once
    all but its two bytes are written. *)
Definition write_header_checksum (base : list Z) : result (list Z) :=
  c <- fletcher32 base (length base) ;; Ok (base ++ encode_i16 (u16 c)).

Definition header_fields (h : BlockHeader) : list Z :=
  bh_magic h ++ [u8 (bh_length (is_log h)); u8 (bh_compression_type h)] ++
  encode_i32 (bh_data_checksum h) ++ encode_i32 (bh_data_length h) ++ encode_i32 (bh_data_zlength h) ++
  match bh_timestamp h with Some t => encode_i64 t | None => [] end.

Definition BlockHeader_encode (h : BlockHeader) : result (list Z) := write_header_checksum (header_fields h).

(** [decode]: the length, then the header checksum over everything in front of
    it, then the fields. *)
Definition check_header (log : bool) : dec unit := fun s =>
  let n := bh_length log in
  if remain s <? n then Throw BLOCK_COMPRESSOR_TRUNCATED
  else
    computed <- fletcher32 (ip s) (Z.to_nat (n - 2)) ;;
    '(stored, _) <- decode_i16 {| ip := skipn (Z.to_nat (n - 2)) (ip s); remain := 2 |} ;;
    if u16 computed =? stored then Ok (tt, s) else Throw BLOCK_COMPRESSOR_BAD_HEADER.

Definition read_raw (n : Z) : dec (list Z) := fun s =>
  '(l, s) <- read_n (Z.to_nat n) s ;; Ok (l, {| ip := ip s; remain := remain s - n |}).

Definition guard (b : bool) (c : Code) : dec unit := if b then dret tt else dthrow c.

Definition BlockHeader_decode (log : bool) : dec BlockHeader :=
  _ <~ check_header log ;;
  magic <~ read_raw 10 ;;
  n <~ decode_byte ;;
  _ <~ guard (n =? bh_length log) BLOCK_COMPRESSOR_BAD_HEADER ;;
  t <~ decode_byte ;;
  _ <~ guard (t <? COMPRESSION_TYPE_LIMIT) BLOCK_COMPRESSOR_BAD_HEADER ;;
  checksum <~ decode_i32 ;;
  len <~ decode_i32 ;;
  zlen <~ decode_i32 ;;
  ts <~ (if log then t <~ decode_i64 ;; dret (Some t) else dret None) ;;
  _ <~ read_raw 2 ;;
  dret {| bh_magic := magic; bh_data_length := len; bh_data_zlength := zlen; bh_data_checksum := checksum;
          bh_compression_type := t; bh_timestamp := ts |}.

(** ** Codecs *)

(** A compression library: the type its blocks are marked with ([NONE] for
    [BlockCompressionCodecNone], which does not call one), its function, and its
    inverse given the length to expect. *)
Record Compressor := {
  z_type : Z;
  z_compress : list Z -> list Z;
  z_decompress : list Z -> Z -> result (list Z) }.

Class Lossless (z : Compressor) := {
  lossless_type : 0 <= z_type z < COMPRESSION_TYPE_LIMIT;
  lossless_bytes l : wf_bytes l -> wf_bytes (z_compress z l);
  lossless l : wf_bytes l -> z_decompress z (z_compress z l) (zlen l) = Ok l }.

Definition set_data (type len zlength checksum : Z) (h : BlockHeader) : BlockHeader :=
  {| bh_magic := bh_magic h; bh_data_length := u32 len; bh_data_zlength := u32 zlength; bh_data_checksum := checksum;
     bh_compression_type := type; bh_timestamp := bh_timestamp h |}.

(** [deflate]: data that does not become shorter is stored as it is. *)
Definition deflate (z : Compressor) (input : list Z) (h : BlockHeader) : result (list Z * BlockHeader) :=
  let packed := z_compress z input in
  let '(type, payload) :=
    if (z_type z =? NONE) || (zlen input <=? zlen packed) then (NONE, input) else (z_type z, packed) in
  checksum <- fletcher32 payload (length payload) ;;
  let h := set_data type (zlen input) (zlen payload) checksum h in
  e <- BlockHeader_encode h ;;
  Ok (e ++ payload, h).

(** [inflate]: the header, the two consistency checks, then the data; [memcpy] of
    [data_length] bytes for a block that is not compressed. *)
Definition copy_out (n : Z) (m : list Z) : result (list Z) :=
  if n <=? zlen m then Ok (firstn (Z.to_nat n) m) else Fault.

Definition inflate (z : Compressor) (log : bool) (input : list Z) : result (list Z * BlockHeader) :=
  '(h, s) <- BlockHeader_decode log {| ip := input; remain := zlen input |} ;;
  if negb (bh_data_zlength h =? remain s) then Throw BLOCK_COMPRESSOR_BAD_HEADER
  else
    checksum <- fletcher32 (ip s) (Z.to_nat (remain s)) ;;
    if negb (checksum =? bh_data_checksum h) then Throw BLOCK_COMPRESSOR_CHECKSUM_MISMATCH
    else
      out <- (if (z_type z =? NONE) || (bh_compression_type h =? NONE)
              then copy_out (bh_data_length h) (ip s)
              else z_decompress z (ip s) (bh_data_length h)) ;;
      Ok (out, h).

(** ** Round trips *)

Definition wf_header (h : BlockHeader) : Prop :=
  length (bh_magic h) = 10%nat /\ wf_bytes (bh_magic h) /\ in_range 32 (bh_data_length h) /\
  in_range 32 (bh_data_zlength h) /\ in_range 32 (bh_data_checksum h) /\
  0 <= bh_compression_type h < COMPRESSION_TYPE_LIMIT /\
  match bh_timestamp h with Some t => in_range 64 t | None => True end.

Create HintDb wire.
#[export] Hint Resolve wf_le_bytes : wire.

Lemma header_fields_wf h : wf_header h -> wf_bytes (header_fields h) /\ zlen (header_fields h) = bh_length (is_log h) - 2.
Proof.
  intros (Hm & Wm & _ & _ & _ & Ht & _). unfold header_fields, encode_i32, encode_i64. split.
  - assert (T : wf_bytes [u8 (bh_length (is_log h)); u8 (bh_compression_type h)]).
    { repeat constructor; unfold is_byte; apply wrap_range; lia. }
    repeat (apply wf_bytes_app; split; auto with wire). destruct (bh_timestamp h); auto with wire. constructor.
  - rewrite !zlen_app. unfold zlen. rewrite Hm, !length_le_bytes. unfold is_log.
    destruct (bh_timestamp h); cbn [length bh_length]; rewrite ?length_le_bytes; reflexivity.
Qed.

(** The checksum stored in a header. *)
Definition header_sum (h : BlockHeader) : Z := u16 (fletcher32_spec (be_words (header_fields h))).

Lemma BlockHeader_encode_ok h : wf_header h ->
  BlockHeader_encode h = Ok (header_fields h ++ encode_i16 (header_sum h)).
Proof.
  intros W. destruct (header_fields_wf h W) as [Wf _]. unfold BlockHeader_encode, write_header_checksum.
  rewrite fletcher32_eq by assumption. reflexivity.
Qed.

Lemma zlen_to_nat {A} (l : list A) n : zlen l = n -> length l = Z.to_nat n.
Proof. unfold zlen. lia. Qed.

Lemma check_header_ok h rest r : wf_header h -> bh_length (is_log h) <= r ->
  let s := {| ip := header_fields h ++ encode_i16 (header_sum h) ++ rest; remain := r |} in
  check_header (is_log h) s = Ok (tt, s).
Proof.
  intros W Hr s. subst s. destruct (header_fields_wf h W) as [Wf Hl]. unfold check_header. cbn [ip remain].
  rewrite (proj2 (Z.ltb_ge _ _) Hr), <- (zlen_to_nat _ _ Hl), fletcher32_app, skipn_app_exact by auto.
  cbn [bind]. rewrite decode_i16_encode by lia. cbn [bind]. unfold header_sum.
  now rewrite wrap_idem, Z.eqb_refl by lia.
Qed.

Lemma read_raw_app l m r n : zlen l = n -> read_raw n {| ip := l ++ m; remain := r |} = Ok (l, {| ip := m; remain := r - n |}).
Proof.
  intros Hn. unfold read_raw. rewrite read_n_app by (apply zlen_to_nat; assumption). reflexivity.
Qed.

Lemma dbind_ok {A B} (d : dec A) (f : A -> dec B) s a s' : d s = Ok (a, s') -> dbind d f s = f a s'.
Proof. intros E. unfold dbind. now rewrite E. Qed.

Lemma BlockHeader_decode_ok h rest r : wf_header h -> bh_length (is_log h) <= r ->
  BlockHeader_decode (is_log h) {| ip := header_fields h ++ encode_i16 (header_sum h) ++ rest; remain := r |} =
  Ok (h, {| ip := rest; remain := r - bh_length (is_log h) |}).
Proof.
  intros W Hr. unfold BlockHeader_decode. erewrite dbind_ok by exact (check_header_ok h rest r W Hr).
  destruct W as (Hm & Wm & Hl & Hz & Hc & Ht & Hts). unfold header_fields. rewrite <- !app_assoc.
  assert (Hlen : bh_length (is_log h) < 256) by (unfold bh_length; destruct (is_log h); lia).
  assert (Hlen0 : 26 <= bh_length (is_log h)) by (unfold bh_length; destruct (is_log h); lia).
  erewrite dbind_ok by (apply read_raw_app; unfold zlen; now rewrite Hm).
  change ([u8 (bh_length (is_log h)); u8 (bh_compression_type h)]) with
    (encode_i8 (bh_length (is_log h)) ++ encode_i8 (bh_compression_type h)). rewrite <- app_assoc.
  erewrite dbind_ok by (apply decode_i8_encode; lia). rewrite wrap_small by (unfold in_range; lia).
  rewrite Z.eqb_refl. cbn [guard]. erewrite dbind_ok by reflexivity.
  erewrite dbind_ok by (apply decode_i8_encode; lia). unfold COMPRESSION_TYPE_LIMIT in *. rewrite wrap_small by (unfold in_range; lia).
  rewrite (proj2 (Z.ltb_lt _ _)) by lia. cbn [guard]. erewrite dbind_ok by reflexivity.
  do 3 (erewrite dbind_ok by (apply decode_i32_encode; lia)). rewrite !wrap_small by assumption.
  destruct h as [magic len zl ck ty [t|]]; cbn [is_log bh_length bh_timestamp bh_magic bh_data_length bh_data_zlength bh_data_checksum bh_compression_type] in *.
  - erewrite dbind_ok by (erewrite dbind_ok by (apply decode_i64_encode; lia); reflexivity). rewrite wrap_small by assumption.
    erewrite dbind_ok by (apply read_raw_app; reflexivity). unfold dret. do 3 f_equal. lia.
  - erewrite dbind_ok by reflexivity. cbn [app].
    erewrite dbind_ok by (apply read_raw_app; reflexivity). unfold dret. do 3 f_equal. lia.
Qed.

(** ** Blocks *)

Lemma fletcher_range d : wf_bytes d -> in_range 32 (fletcher32_spec (be_words d)).
Proof.
  intros Hw. unfold fletcher32_spec. destruct (fold_left accZ (be_words d) (65535, 65535)) as [a b].
  pose proof (ones_complement_range a). pose proof (ones_complement_range b).
  unfold in_range. cbn [fst snd]. change (2 ^ 32) with 4294967296. lia.
Qed.

(** What [deflate] makes of [input]: a header and the data behind it. *)
Record packs (z : Compressor) (input : list Z) (h h' : BlockHeader) (payload : list Z) : Prop := {
  packs_wf : wf_header h';
  packs_magic : bh_magic h' = bh_magic h;
  packs_timestamp : bh_timestamp h' = bh_timestamp h;
  packs_bytes : wf_bytes payload;
  packs_length : bh_data_length h' = zlen input;
  packs_zlength : bh_data_zlength h' = zlen payload;
  packs_checksum : bh_data_checksum h' = fletcher32_spec (be_words payload);
  packs_shorter : zlen payload <= zlen input;
  packs_back : if (z_type z =? NONE) || (bh_compression_type h' =? NONE) then payload = input
               else z_decompress z payload (zlen input) = Ok input }.

(** A header with room for the data: ten bytes of magic and a 64-bit timestamp. *)
Definition blank (h : BlockHeader) : Prop :=
  length (bh_magic h) = 10%nat /\ wf_bytes (bh_magic h) /\
  match bh_timestamp h with Some t => in_range 64 t | None => True end.

Lemma set_data_packs z input h type payload : blank h -> zlen input < 2 ^ 32 -> wf_bytes payload ->
  zlen payload <= zlen input -> 0 <= type < COMPRESSION_TYPE_LIMIT ->
  (if (z_type z =? NONE) || (type =? NONE) then payload = input else z_decompress z payload (zlen input) = Ok input) ->
  packs z input h (set_data type (zlen input) (zlen payload) (fletcher32_spec (be_words payload)) h) payload.
Proof.
  intros (Hm & Wm & Hts) Hn Wp Hl Ht Hback. pose proof (zlen_nonneg payload).
  assert (E : forall n, 0 <= n < 2 ^ 32 -> u32 n = n) by (intros n Hr; now apply wrap_small).
  split; cbn [set_data bh_magic bh_data_length bh_data_zlength bh_data_checksum bh_compression_type bh_timestamp];
    rewrite ?E by lia; auto.
  refine (conj Hm (conj Wm (conj _ (conj _ (conj _ (conj Ht Hts))))));
    cbn [set_data bh_data_length bh_data_zlength bh_data_checksum].
  - apply wrap_range. lia.
  - apply wrap_range. lia.
  - now apply fletcher_range.
Qed.

Lemma deflate_ok z input h : Lossless z -> wf_bytes input -> zlen input < 2 ^ 32 -> blank h ->
  exists h' payload, packs z input h h' payload /\
    deflate z input h = Ok (header_fields h' ++ encode_i16 (header_sum h') ++ payload, h').
Proof.
  intros Hz Wi Hn Hb. unfold deflate.
  assert (G : forall type payload, wf_bytes payload -> zlen payload <= zlen input -> 0 <= type < COMPRESSION_TYPE_LIMIT ->
    (if (z_type z =? NONE) || (type =? NONE) then payload = input else z_decompress z payload (zlen input) = Ok input) ->
    exists h' payload', packs z input h h' payload' /\
      (checksum <- fletcher32 payload (length payload) ;;
       let h := set_data type (zlen input) (zlen payload) checksum h in e <- BlockHeader_encode h ;; Ok (e ++ payload, h)) =
      Ok (header_fields h' ++ encode_i16 (header_sum h') ++ payload', h')).
  { intros type payload Wp Hl Ht Hback. pose proof (set_data_packs z input h type payload Hb Hn Wp Hl Ht Hback) as P.
    rewrite fletcher32_eq by assumption. cbn [bind]. rewrite BlockHeader_encode_ok by exact (packs_wf _ _ _ _ _ P).
    cbn [bind]. rewrite <- app_assoc. eauto. }
  destruct ((z_type z =? NONE) || (zlen input <=? zlen (z_compress z input))) eqn:E.
  - apply G; [assumption|lia|unfold NONE, COMPRESSION_TYPE_LIMIT; lia|]. now rewrite orb_true_r.
  - apply orb_false_iff in E as [E1 E2]. apply Z.leb_gt in E2.
    apply G; [now apply lossless_bytes|lia|apply lossless_type|]. rewrite E1. cbn [orb].
    destruct (z_type z =? NONE); [discriminate|]. now apply lossless.
Qed.

Lemma copy_out_all l : copy_out (zlen l) l = Ok l.
Proof.
  unfold copy_out. rewrite Z.leb_refl. f_equal. apply firstn_all2. unfold zlen. lia.
Qed.

Lemma inflate_packed z input h h' payload : packs z input h h' payload ->
  inflate z (is_log h) (header_fields h' ++ encode_i16 (header_sum h') ++ payload) = Ok (input, h').
Proof.
  intros [W Hmg Hts Wp Hl Hz Hc Hs Hback]. unfold inflate.
  assert (Hlog : is_log h = is_log h') by (unfold is_log; now rewrite Hts).
  assert (Hn : zlen (header_fields h' ++ encode_i16 (header_sum h') ++ payload) = bh_length (is_log h') + zlen payload).
  { destruct (header_fields_wf h' W) as [_ Hf]. rewrite !zlen_app, Hf. unfold encode_i16, zlen at 1. rewrite length_le_bytes. lia. }
  pose proof (zlen_nonneg payload). rewrite Hlog, Hn, BlockHeader_decode_ok by (assumption || lia). cbn [bind ip remain].
  replace (bh_length (is_log h') + zlen payload - bh_length (is_log h')) with (zlen payload) by lia.
  rewrite Hz, Z.eqb_refl. cbn [negb]. rewrite <- (zlen_to_nat payload (zlen payload) eq_refl), fletcher32_eq by assumption.
  cbn [bind]. rewrite Hc, Z.eqb_refl. cbn [negb]. rewrite Hl.
  destruct ((z_type z =? NONE) || (bh_compression_type h' =? NONE)).
  - subst payload. now rewrite copy_out_all.
  - now rewrite Hback.
Qed.

Lemma deflate_inflate z input h : Lossless z -> wf_bytes input -> zlen input < 2 ^ 32 -> blank h ->
  exists block h', deflate z input h = Ok (block, h') /\ inflate z (is_log h) block = Ok (input, h') /\
    bh_magic h' = bh_magic h /\ bh_timestamp h' = bh_timestamp h /\ wf_bytes block /\
    bh_length (is_log h) <= zlen block <= bh_length (is_log h) + zlen input.
Proof.
  intros Hz Wi Hn Hb. destruct (deflate_ok z input h Hz Wi Hn Hb) as (h' & payload & P & ->).
  eexists _, h'. split; [reflexivity|]. split; [exact (inflate_packed _ _ _ _ _ P)|].
  destruct P as [W Hmg Hts Wp Hl Hzl Hc Hs _]. split; [assumption|]. split; [assumption|].
  destruct (header_fields_wf h' W) as [Wf Hf]. pose proof (zlen_nonneg payload). split.
  - unfold encode_i16. repeat (apply wf_bytes_app; split; auto with wire).
  - rewrite !zlen_app, Hf. unfold encode_i16, zlen at 1 3. rewrite length_le_bytes. unfold is_log in *. rewrite Hts in *. lia.
Qed.

(** Every block codec: a block made by [deflate] with a lossless compression
    function is accepted by [inflate], which gives back the data and the header,
    magic and timestamp included; a block is never longer than its data and the
    header. *)
Theorem block_roundtrip z input h : Lossless z -> wf_bytes input -> zlen input < 2 ^ 32 -> blank h ->
  exists block h', deflate z input h = Ok (block, h') /\ inflate z (is_log h) block = Ok (input, h') /\
    bh_magic h' = bh_magic h /\ bh_timestamp h' = bh_timestamp h /\
    zlen block <= bh_length (is_log h) + zlen input.
Proof.
  intros Hz Wi Hn Hb. destruct (deflate_inflate z input h Hz Wi Hn Hb) as (b & h' & D & I & M & T & _ & L).
  exists b, h'. intuition.
Qed.

(** [BlockCompressionCodecNone]. *)
Definition codec_none : Compressor :=
  {| z_type := NONE; z_compress := fun l => l; z_decompress := fun l n => copy_out n l |}.

#[export] Instance lossless_none : Lossless codec_none.
Proof. split; cbn; [unfold NONE, COMPRESSION_TYPE_LIMIT; lia|auto|intros l _; apply copy_out_all]. Qed.

(** A compression function that shortens repetitions of a byte. *)
Definition codec_repeat : Compressor :=
  {| z_type := LZO;
     z_compress := fun l => match l with
                            | b :: _ => if bytes_eqb l (repeat b (length l)) then [b] else 0 :: l
                            | [] => []
                            end;
     z_decompress := fun l n => if zlen l =? 1 then Ok (repeat (hd 0 l) (Z.to_nat n)) else Ok (tl l) |}.

#[export] Instance lossless_repeat : Lossless codec_repeat.
Proof.
  split; cbn [codec_repeat z_type z_compress z_decompress].
  - unfold LZO, COMPRESSION_TYPE_LIMIT; lia.
  - intros [|b l] W; [constructor|]. inv W. assert (H0 : is_byte 0) by (unfold is_byte, in_range; lia).
    destruct (bytes_eqb _ _); repeat (apply Forall_cons; [assumption|]); [apply Forall_nil|assumption].
  - intros [|b l] W; [reflexivity|]. destruct (bytes_eqb _ _) eqn:E.
    + apply bytes_eqb_eq in E. cbn [hd]. unfold zlen at 2. rewrite Nat2Z.id. change (zlen [b] =? 1) with true.
      cbn iota. now rewrite <- E.
    + replace (zlen (0 :: b :: l) =? 1) with false; [reflexivity|]. symmetry. apply Z.eqb_neq. unfold zlen. cbn [length]. lia.
Qed.

Definition DATA_BLOCK_MAGIC : list Z := [68; 97; 116; 97; 45; 45; 45; 45; 45; 45].

Lemma block_roundtrip_witness : exists block h',
  deflate codec_repeat (repeat 7 50) (BlockHeader_make DATA_BLOCK_MAGIC) = Ok (block, h') /\
  inflate codec_repeat false block = Ok (repeat 7 50, h') /\ bh_compression_type h' = LZO /\ zlen block = 27.
Proof.
  destruct (block_roundtrip codec_repeat (repeat 7 50) (BlockHeader_make DATA_BLOCK_MAGIC)) as (b & h' & E & I & _).
  - exact lossless_repeat.
  - apply Forall_forall. intros x Hx. apply repeat_spec in Hx as ->. cbv. intuition congruence.
  - reflexivity.
  - split; [reflexivity|]. split; [|exact I]. repeat constructor; cbv; congruence.
  - exists b, h'. split; [exact E|]. split; [exact I|].
    assert (X : deflate codec_repeat (repeat 7 50) (BlockHeader_make DATA_BLOCK_MAGIC) = Ok (b, h')) by exact E.
    vm_compute in X. injection X as <- <-. split; reflexivity.
Defined.

(** A header whose data length exceeds the data that follows, both checksums
    being right, makes [inflate] read past the block. *)
Lemma inflate_overreads z h payload : wf_header h -> wf_bytes payload -> bh_compression_type h = NONE ->
  bh_data_zlength h = zlen payload -> bh_data_checksum h = fletcher32_spec (be_words payload) ->
  zlen payload < bh_data_length h ->
  inflate z (is_log h) (header_fields h ++ encode_i16 (header_sum h) ++ payload) = Fault.
Proof.
  intros W Wp Ht Hz Hc Hl. unfold inflate.
  assert (Hn : zlen (header_fields h ++ encode_i16 (header_sum h) ++ payload) = bh_length (is_log h) + zlen payload).
  { destruct (header_fields_wf h W) as [_ Hf]. rewrite !zlen_app, Hf. unfold encode_i16, zlen at 1. rewrite length_le_bytes. lia. }
  pose proof (zlen_nonneg payload). rewrite Hn, BlockHeader_decode_ok by (assumption || lia). cbn [bind ip remain].
  replace (bh_length (is_log h) + zlen payload - bh_length (is_log h)) with (zlen payload) by lia.
  rewrite Hz, Z.eqb_refl. cbn [negb]. rewrite <- (zlen_to_nat payload (zlen payload) eq_refl), fletcher32_eq by assumption.
  cbn [bind]. rewrite Hc, Z.eqb_refl, Ht. cbn [negb]. rewrite orb_true_r. unfold copy_out.
  now rewrite (proj2 (Z.leb_gt _ _) Hl).
Qed.
