(* ===== verification/BufferedReader.v ===== *)
(** * Reading ahead

    [DfsBroker/Lib/ClientBufferedReaderHandler.{h,cc}]: a window of a file is read
    with several requests under way; [read] hands out the bytes in order and
    waits when none has arrived.

    A file is the list of its bytes.  The broker answers the requests in their
    order; when an answer arrives is up to the environment: [timing] says how many
    arrive between two calls of the client and while it is being woken up.  The
    monitor is modelled with its wake-ups: a client that waits looks at the state
    again only after [notify_all].  Sending a request succeeds. *)
From S2P Require Import Prelude Errors Serialization ByteString.
From Stdlib Require Import ZArith Lia List Bool.
Import ListNotations.
Open Scope Z_scope.
Open Scope result_scope.

(** [pread(fd, buf, amount, offset)], as many bytes as there are. *)
Definition pread (file : list Z) (amount offset : Z) : list Z :=
  firstn (Z.to_nat amount) (skipn (Z.to_nat offset) file).

Lemma pread_length file n pos : 0 <= n -> 0 <= pos -> pos + n <= zlen file -> zlen (pread file n pos) = n.
Proof. intros. unfold pread, zlen in *. rewrite length_firstn, length_skipn. lia. Qed.

Lemma pread_short file n pos : 0 <= n -> 0 <= pos <= zlen file -> zlen (pread file n pos) = Z.min n (zlen file - pos).
Proof. intros. unfold pread, zlen in *. rewrite length_firstn, length_skipn. lia. Qed.

Lemma pread_app file a b pos : 0 <= a -> 0 <= b -> 0 <= pos -> pread file a pos ++ pread file b (pos + a) = pread file (a + b) pos.
Proof.
  intros Ha Hb Hp. unfold pread. rewrite !Z2Nat.inj_add by lia. rewrite Nat.add_comm at 1.
  rewrite <- skipn_skipn. set (l := skipn (Z.to_nat pos) file). symmetry.
  rewrite <- (firstn_skipn (Z.to_nat a) l) at 1. rewrite firstn_app.
  assert (H : firstn (Z.to_nat a + Z.to_nat b) (firstn (Z.to_nat a) l) = firstn (Z.to_nat a) l).
  { apply firstn_all2. rewrite length_firstn. lia. }
  rewrite H. f_equal. destruct (Nat.le_gt_cases (Z.to_nat a) (length l)).
  - rewrite length_firstn. f_equal. lia.
  - rewrite !(skipn_all2 (n := Z.to_nat a)) by lia. now rewrite !firstn_nil.
Qed.

Lemma pread_trim file n pos : 0 <= n -> 0 <= pos -> pread file (zlen (pread file n pos)) pos = pread file n pos.
Proof.
  intros. unfold pread, zlen. rewrite Nat2Z.id, length_firstn. rewrite <- firstn_firstn.
  rewrite firstn_all. reflexivity.
Qed.

Module BufferedReader.

(** ** The code *)

(** The answer to a request: the bytes, a response with an error code, an error
    event, or an event of another type. *)
Inductive answer := Good | BadCode (c : Code) | ErrorEvent (c : Code) | OtherEvent.

(** The members, with the data of the queued responses; [m_ptr] is null or what is
    left between [m_ptr] and [m_end_ptr].  Then what is under way: the lengths
    asked for, the position of the file, the answers to come and when. *)
Record t := {
  m_read_size : Z; m_max_outstanding : Z; m_end_offset : Z; m_outstanding_offset : Z;
  m_outstanding : Z; m_eof : bool; m_error : option Code; m_queue : list (list Z); m_ptr : option (list Z);
  requests : list Z; position : Z; answers : list answer; timing : list nat }.

Section Handler.

Context (file : list Z).

(** The length of the next request; [None] for [break]. *)
Definition next_read (h : t) : option Z :=
  let d := u64 (m_end_offset h - m_outstanding_offset h) in
  if negb (m_end_offset h =? 0) && (d <? m_read_size h)
  then let toread := u32 d in if toread =? 0 then None else Some toread
  else Some (m_read_size h).

(** [m_client->read(m_fd, toread, this)] and the counting around it. *)
Definition issue (toread : Z) (h : t) : t :=
  {| m_read_size := m_read_size h; m_max_outstanding := m_max_outstanding h; m_end_offset := m_end_offset h;
     m_outstanding_offset := u64 (m_outstanding_offset h - toread); m_outstanding := u32 (m_outstanding h + 1);
     m_eof := m_eof h; m_error := m_error h; m_queue := m_queue h; m_ptr := m_ptr h;
     requests := requests h ++ [toread]; position := position h; answers := answers h; timing := timing h |}.

Fixpoint issue_n (n : nat) (h : t) : t :=
  match n with
  | O => h
  | S n => match next_read h with None => h | Some toread => issue_n n (issue toread h) end
  end.

(** The constructor, after [seek] to the start. *)
Definition make (buf_size outstanding start_offset end_offset : Z) (ans : list answer) (sched : list nat) : t :=
  issue_n (Z.to_nat outstanding)
  {| m_read_size := buf_size; m_max_outstanding := outstanding; m_end_offset := end_offset;
     m_outstanding_offset := start_offset; m_outstanding := 0; m_eof := false; m_error := None; m_queue := [];
     m_ptr := None; requests := []; position := start_offset; answers := ans; timing := sched |}.

Definition read_ahead (h : t) : result t :=
  let held := m_outstanding h + zlen (m_queue h) in
  let n := u32 (m_max_outstanding h - held) in
  if negb (held <=? m_max_outstanding h) then Fault
  else Ok (if m_eof h then h else issue_n (Z.to_nat n) h).

(** [handle(event)] for the oldest request: the new state, and whether waiting
    threads are woken. *)
Definition handle (h : t) : option (t * bool) :=
  match requests h with
  | [] => None
  | n :: rs =>
      let data := pread file n (position h) in
      let upd eof err queue pos :=
        {| m_read_size := m_read_size h; m_max_outstanding := m_max_outstanding h; m_end_offset := m_end_offset h;
           m_outstanding_offset := m_outstanding_offset h; m_outstanding := u32 (m_outstanding h - 1);
           m_eof := eof; m_error := err; m_queue := queue; m_ptr := m_ptr h; requests := rs; position := pos;
           answers := tl (answers h); timing := timing h |} in
      Some match hd Good (answers h) with
           | Good => (upd (m_eof h || (zlen data <? m_read_size h)) None (m_queue h ++ [data]) (position h + zlen data), true)
           | BadCode c => (upd true (Some c) (m_queue h) (position h), false)
           | ErrorEvent c => (upd true (Some c) (m_queue h) (position h), true)
           | OtherEvent => (upd (m_eof h) (Some FAILED_EXPECTATION) (m_queue h) (position h), true)
           end
  end.

(** Answers that arrive while the client is busy elsewhere. *)
Fixpoint deliver (n : nat) (h : t) : t :=
  match n with
  | O => h
  | S n => match handle h with None => h | Some (h', _) => deliver n h' end
  end.
Definition tick (h : t) : t :=
  let h' := deliver (hd O (timing h)) h in
  {| m_read_size := m_read_size h'; m_max_outstanding := m_max_outstanding h'; m_end_offset := m_end_offset h';
     m_outstanding_offset := m_outstanding_offset h'; m_outstanding := m_outstanding h'; m_eof := m_eof h';
     m_error := m_error h'; m_queue := m_queue h'; m_ptr := m_ptr h'; requests := requests h';
     position := position h'; answers := answers h'; timing := tl (timing h) |}.

(** [while (m_queue.empty() && !m_eof) m_cond.wait(lock)]; [None] when the thread
    is never woken up again. *)
Fixpoint wait (fuel : nat) (asleep : bool) (h : t) : option t :=
  if negb asleep && negb (match m_queue h with [] => true | _ => false end && negb (m_eof h)) then Some h
  else match fuel with
       | O => None
       | S fuel => match handle h with None => None | Some (h', woken) => wait fuel (negb woken) h' end
       end.

(** What becomes of a call: the bytes copied, an exception, a failed assertion,
    or a thread that sleeps for ever. *)
Inductive outcome := Got (data : list Z) | Threw (c : Code) | Crash | Sleeps.

Definition set_queue (q : list (list Z)) (p : option (list Z)) (h : t) : t :=
  {| m_read_size := m_read_size h; m_max_outstanding := m_max_outstanding h; m_end_offset := m_end_offset h;
     m_outstanding_offset := m_outstanding_offset h; m_outstanding := m_outstanding h; m_eof := m_eof h;
     m_error := m_error h; m_queue := q; m_ptr := p; requests := requests h; position := position h;
     answers := answers h; timing := timing h |}.

Fixpoint read_loop (fuel : nat) (nleft : Z) (acc : list Z) (h : t) : outcome * t :=
  match fuel with
  | O => (Crash, h)
  | S fuel =>
      match wait (S (length (requests h))) false h with
      | None => (Sleeps, h)
      | Some h =>
          let h := tick h in
          match m_error h, m_queue h with
          | Some c, _ => (Threw c, h)
          | None, [] => (Threw FAILED_EXPECTATION, h)
          | None, front :: queue =>
              let p := match m_ptr h with Some p => p | None => front end in
              let available := zlen p in
              if nleft <=? available then
                let acc := acc ++ firstn (Z.to_nat nleft) p in
                match skipn (Z.to_nat nleft) p with
                | [] => match read_ahead (set_queue queue None h) with
                        | Ok h => (Got acc, h)
                        | _ => (Crash, h)
                        end
                | p' => (Got acc, set_queue (front :: queue) (Some p') h)
                end
              else if (available =? 0) && m_eof h && match queue with [] => true | _ => false end
              then (Got acc, set_queue [] None h)
              else match read_ahead (set_queue queue None h) with
                   | Ok h => read_loop fuel (nleft - available) (acc ++ p) h
                   | _ => (Crash, h)
                   end
          end
      end
  end.

(** [read(buf, len)].  Every round copies a byte or drops a response. *)
Definition read (len : Z) (h : t) : outcome * t :=
  read_loop (Z.to_nat len + Z.to_nat (m_max_outstanding h) + 2) len [] (tick h).

(** The destructor waits until nothing is under way. *)
Fixpoint drain_requests (fuel : nat) (asleep : bool) (h : t) : option t :=
  if negb asleep && (m_outstanding h =? 0) then Some h
  else match fuel with
       | O => None
       | S fuel => match handle h with None => None | Some (h', woken) => drain_requests fuel (negb woken) h' end
       end.
Definition destroy (h : t) : option t := drain_requests (S (length (requests h))) false h.

End Handler.

(** Reduces the projections only. *)
Ltac hfields := cbn [m_read_size m_max_outstanding m_end_offset m_outstanding_offset m_outstanding m_eof m_error m_queue
  m_ptr requests position answers timing].

(** ** Reading inside the window *)

Section Window.

Context (file : list Z) (R M start end_ : Z).
Context (HR : 0 < R < 2 ^ 32) (HM : 0 < M < 2 ^ 32) (Hwin : 0 <= start < end_) (Hend : end_ <= zlen file)
  (Hlen : zlen file + M * R + R < 2 ^ 62).

(** The bytes that have arrived and have not been handed out. *)
Definition in_hand (h : t) : list Z :=
  match m_ptr h, m_queue h with
  | Some p, _ :: q => p ++ concat q
  | _, q => concat q
  end.

(** While the end has not been seen, the requests under way and the responses in
    the queue are together as many as allowed, and the window is larger than a
    request unless nothing has arrived. *)
Definition reading_on (h : t) : Prop :=
  m_outstanding h + zlen (m_queue h) = M /\
  (if end_ - start <? R then m_queue h = [] /\ position h = start /\ hd_error (requests h) = Some (end_ - start)
   else Forall (eq R) (requests h) /\ Forall (fun d => zlen d = R) (m_queue h) /\
        m_outstanding_offset h = u64 (start - (position h - start + R * zlen (requests h)))).

(** The client stands at [pos]. *)
Record inv (pos : Z) (h : t) : Prop := {
  inv_size : m_read_size h = R; inv_max : m_max_outstanding h = M; inv_end : m_end_offset h = end_;
  inv_ptr : m_ptr h <> None -> m_queue h <> []; inv_rest : m_ptr h <> Some [];
  inv_hand : in_hand h = pread file (position h - pos) pos;
  inv_pos : start <= pos <= position h /\ position h <= zlen file;
  inv_error : m_error h = None; inv_answers : Forall (eq Good) (answers h);
  inv_requests : Forall (fun n => 0 < n) (requests h);
  inv_outstanding : m_outstanding h = zlen (requests h) /\ zlen (requests h) + zlen (m_queue h) <= M;
  inv_eof : m_eof h = true -> end_ <= position h;
  inv_on : m_eof h = false -> reading_on h }.

(** How much is under way or waiting. *)
Definition pending (h : t) : nat := length (requests h) + length (m_queue h).

Lemma handle_ok pos h : inv pos h -> requests h <> [] ->
  exists h', handle file h = Some (h', true) /\ inv pos h' /\ m_queue h' <> [] /\
    (pending h' = pending h)%nat /\ (m_eof h = true -> m_eof h' = true).
Proof.
  intros [Is Im Ie Ip Ir Ih [Ia Ib] Ier Ian Irq [Io Io2] Iof Ion] Hr. unfold handle.
  destruct (requests h) as [|n rs] eqn:E; [congruence|].
  assert (Ha : hd Good (answers h) = Good /\ Forall (eq Good) (tl (answers h))).
  { destruct (answers h); [split; [reflexivity|constructor]|]. inv Ian. split; [reflexivity|assumption]. }
  destruct Ha as [-> Ha]. eexists. split; [reflexivity|].
  inversion Irq as [|? ? Hn Irq']; subst. set (data := pread file n (position h)).
  assert (Hd : zlen data = Z.min n (zlen file - position h)) by (apply pread_short; lia).
  assert (Hz : zlen (n :: rs) = zlen rs + 1) by (unfold zlen; cbn [length]; lia). rewrite Hz in *.
  pose proof (zlen_nonneg rs). pose proof (zlen_nonneg (m_queue h)).
  assert (Ho : u32 (m_outstanding h - 1) = zlen rs) by (rewrite Io, Z.add_simpl_r; apply wrap_small; unfold in_range; lia).
  assert (Hq : zlen (m_queue h ++ [data]) = zlen (m_queue h) + 1) by (rewrite zlen_app; reflexivity).
  split; [|split; [cbn; now destruct (m_queue h)|split; [|intros ->; reflexivity]]];
    [|unfold pending; cbn; rewrite E, length_app; cbn; lia].
  split; hfields; auto; rewrite ?Ho, ?Hq; try lia.
  - intros _. now destruct (m_queue h).
  - rewrite Is. replace (position h + zlen data - pos) with (position h - pos + zlen data) by lia.
    rewrite <- pread_app by lia. replace (pos + (position h - pos)) with (position h) by lia.
    assert (Hdd : pread file (zlen data) (position h) = data) by (apply pread_trim; lia). rewrite Hdd, <- Ih. unfold in_hand. hfields.
    destruct (m_ptr h) eqn:Ep.
    + assert (m_queue h <> []) by (apply Ip; discriminate). destruct (m_queue h); [congruence|]. cbn [app].
      rewrite concat_app. cbn [concat]. now rewrite app_nil_r, app_assoc.
    + rewrite concat_app. cbn [concat]. now rewrite app_nil_r.
  - rewrite Is. intros He. apply orb_true_iff in He as [He|He]; [apply Iof in He; lia|]. apply Z.ltb_lt in He.
    destruct (m_eof h); [specialize (Iof eq_refl); lia|]. destruct (Ion eq_refl) as [_ On].
    destruct (end_ - start <? R) eqn:W.
    + destruct On as (_ & Hp & Hh). rewrite E in Hh. cbn in Hh. injection Hh as ->. lia.
    + destruct On as (Hf & _). rewrite E in Hf. inv Hf. lia.
  - rewrite Is. intros He. apply orb_false_iff in He as [He Hs]. apply Z.ltb_ge in Hs. rewrite He in Ion.
    destruct (Ion eq_refl) as [On1 On2]. unfold reading_on. hfields. rewrite ?Ho, ?Hq. split; [rewrite Io in On1; lia|].
    destruct (end_ - start <? R) eqn:W.
    + exfalso. apply Z.ltb_lt in W. destruct On2 as (_ & Hp & Hh). rewrite E in Hh. cbn in Hh. injection Hh as ->. lia.
    + destruct On2 as (Hf & Hg & Hoff). rewrite E in Hf, Hoff. inv Hf. split; [assumption|]. split.
      * apply Forall_app. split; [assumption|]. constructor; [lia|constructor].
      * rewrite Hoff, Hz. f_equal. lia.
Qed.

(** What arriving answers keep. *)
Definition later (pos : Z) (h h' : t) : Prop :=
  inv pos h' /\ pending h' = pending h /\ (m_eof h = true -> m_eof h' = true) /\ (m_queue h <> [] -> m_queue h' <> []).

Lemma handle_later pos h : inv pos h -> requests h <> [] ->
  exists h', handle file h = Some (h', true) /\ later pos h h' /\ m_queue h' <> [].
Proof.
  intros I Hr. destruct (handle_ok pos h I Hr) as (h' & E & I' & Q & P & F). exists h'. unfold later. auto 10.
Qed.

Lemma later_refl pos h : inv pos h -> later pos h h.
Proof. unfold later. auto. Qed.

Lemma later_trans pos a b c : later pos a b -> later pos b c -> later pos a c.
Proof. unfold later. intuition congruence. Qed.

Lemma deliver_ok pos n : forall h, inv pos h -> later pos h (deliver file n h).
Proof.
  induction n as [|n IH]; intros h I; cbn [deliver]; [now apply later_refl|].
  destruct (requests h) eqn:E.
  - unfold handle. rewrite E. now apply later_refl.
  - destruct (handle_later pos h I) as (h' & -> & L & _); [congruence|].
    apply (later_trans pos h h'); [assumption|]. apply IH, L.
Qed.

Lemma tick_ok pos h : inv pos h -> later pos h (tick file h).
Proof.
  intros I. destruct (deliver_ok pos (hd O (timing h)) h I) as (I' & P & F & Q). unfold tick, later, pending in *.
  hfields. split; [|auto]. destruct I'. now split.
Qed.

Lemma wait_ok pos h : inv pos h -> exists h', wait file (S (length (requests h))) false h = Some h' /\ later pos h h' /\
  (m_queue h' <> [] \/ m_eof h' = true).
Proof.
  intros I. cbn [wait negb andb]. destruct (m_queue h) as [|q qs] eqn:Eq; cbn [andb negb].
  - destruct (m_eof h) eqn:Ef; cbn [negb].
    + exists h. split; [reflexivity|]. split; [now apply later_refl|auto].
    + destruct (inv_on _ _ I Ef) as [On _]. rewrite Eq in On. destruct (inv_outstanding _ _ I) as [Io _].
      destruct (handle_later pos h I) as (h' & -> & L & Q).
      { intros E. rewrite E in Io. unfold zlen in *. cbn in *. lia. }
      exists h'. split; [|auto]. cbn [negb]. destruct (length (requests h)); cbn [wait negb andb];
        (destruct (m_queue h'); [congruence|reflexivity]).
  - exists h. split; [reflexivity|]. split; [now apply later_refl|]. left. congruence.
Qed.

(** The piece at the front. *)
Definition front_piece (h : t) (front : list Z) : list Z := match m_ptr h with Some p => p | None => front end.

Lemma front_hand h front queue : m_queue h = front :: queue -> in_hand h = front_piece h front ++ concat queue.
Proof. intros E. unfold in_hand, front_piece. rewrite E. now destruct (m_ptr h). Qed.

Lemma app_inj_length {A} (a b c d : list A) : length a = length c -> a ++ b = c ++ d -> a = c /\ b = d.
Proof.
  revert c. induction a as [|x a IH]; intros [|y c] L E; cbn in *; try lia; [auto|].
  injection E as <- E. destruct (IH c) as [-> ->]; auto.
Qed.

Lemma pread_split n pos a b : 0 <= n -> 0 <= pos -> pos + n <= zlen file -> a ++ b = pread file n pos ->
  a = pread file (zlen a) pos /\ b = pread file (n - zlen a) (pos + zlen a) /\ zlen a <= n.
Proof.
  intros Hn Hp Hf E. pose proof (pread_length file n pos Hn Hp Hf) as L. rewrite <- E, zlen_app in L.
  pose proof (zlen_nonneg a). pose proof (zlen_nonneg b).
  replace n with (zlen a + (n - zlen a)) in E by lia. rewrite <- pread_app in E by lia.
  assert (La : zlen (pread file (zlen a) pos) = zlen a) by (apply pread_length; lia).
  apply app_inj_length in E as [Ea Eb]; [|unfold zlen in *; lia].
  split; [assumption|]. split; [assumption|lia].
Qed.

Lemma next_read_min h T : m_end_offset h = end_ -> m_read_size h = R -> 0 <= T < 2 ^ 63 ->
  m_outstanding_offset h = u64 (start - T) -> next_read h = Some (Z.min R (end_ - start + T)).
Proof.
  intros E1 E2 HT E3. unfold next_read. rewrite E1, E2, E3.
  assert (Hd : u64 (end_ - u64 (start - T)) = end_ - start + T).
  { unfold wrap. rewrite Zminus_mod_idemp_r. replace (end_ - (start - T)) with (end_ - start + T) by lia.
    apply Z.mod_small. change (2 ^ 62) with 4611686018427387904 in *. change (2 ^ 63) with 9223372036854775808 in *.
    change (2 ^ 64) with 18446744073709551616. pose proof (Z.mul_nonneg_nonneg M R). lia. }
  rewrite Hd. rewrite (proj2 (Z.eqb_neq end_ 0)) by lia. cbn [negb andb].
  destruct (_ <? _) eqn:E; [apply Z.ltb_lt in E|apply Z.ltb_ge in E; now rewrite Z.min_l by lia].
  assert (Hu : u32 (end_ - start + T) = end_ - start + T) by (apply wrap_small; unfold in_range; lia).
  cbv zeta. rewrite Hu, (proj2 (Z.eqb_neq _ 0)) by lia. now rewrite Z.min_r by lia.
Qed.

(** Dropping the piece at the front and reading ahead. *)
Lemma pop_ok pos h front queue : inv pos h -> m_queue h = front :: queue ->
  let p := front_piece h front in
  exists h', read_ahead (set_queue queue None h) = Ok h' /\ inv (pos + zlen p) h' /\ m_eof h' = m_eof h /\
    (if m_eof h then pending h = S (pending h') else (0 < zlen p)) /\ in_hand h = p ++ concat queue.
Proof.
  intros [Is Im Ie Ip Ir Ih [[Ia0 Ia] Ib] Ier Ian Irq [Io Io2] Iof Ion] Eq p.
  pose proof (front_hand h front queue Eq) as Fh. fold p in Fh. rewrite Ih in Fh.
  destruct (pread_split (position h - pos) pos p (concat queue) ltac:(lia) ltac:(lia) ltac:(lia) (eq_sym Fh)) as (Hp & Hq & Hl).
  assert (Hzq : zlen (m_queue h) = zlen queue + 1) by (rewrite Eq; unfold zlen; cbn [length]; lia). rewrite Hzq in Io2.
  pose proof (zlen_nonneg p). pose proof (zlen_nonneg queue). pose proof (zlen_nonneg (requests h)).
  unfold read_ahead, set_queue. hfields. rewrite Im, Io. rewrite (proj2 (Z.leb_le _ _)) by lia. cbn [negb].
  assert (Hand : concat queue = pread file (position h - (pos + zlen p)) (pos + zlen p)).
  { rewrite Hq. f_equal. lia. }
  destruct (m_eof h) eqn:Ef.
  - eexists. split; [reflexivity|]. split; [|split; [reflexivity|split; [|now rewrite Ih, Fh]]].
    + split; hfields; auto; try congruence; lia.
    + unfold pending. hfields. rewrite Eq. cbn [length]. lia.
  - destruct (Ion eq_refl) as [On1 On2]. rewrite Io, Hzq in On1. destruct (end_ - start <? R) eqn:W.
    { destruct On2 as (Q & _). congruence. }
    apply Z.ltb_ge in W. destruct On2 as (Hf & Hg & Hoff). rewrite Eq in Hg. inversion Hg as [|? ? Hfr Hg']; subst.
    replace (M - (zlen (requests h) + zlen queue)) with 1 by lia. change (Z.to_nat (u32 1)) with 1%nat. cbn [issue_n].
    pose proof (Z.mul_le_mono_nonneg_l (zlen (requests h)) M R ltac:(lia) ltac:(lia)).
    pose proof (Z.mul_nonneg_nonneg R (zlen (requests h)) ltac:(lia) ltac:(lia)).
    rewrite (next_read_min _ (position h - start + R * zlen (requests h)));
      hfields; [|assumption|assumption|split; [lia|change (2 ^ 63) with (2 * 2 ^ 62); lia]|exact Hoff].
    rewrite Z.min_l by lia.
    eexists. split; [reflexivity|]. unfold issue. hfields.
    assert (Hrq : zlen (requests h ++ [R]) = zlen (requests h) + 1) by now rewrite zlen_app.
    assert (Ho1 : u32 (zlen (requests h) + 1) = zlen (requests h) + 1) by (apply wrap_small; unfold in_range; lia).
    split; [|split; [reflexivity|split; [|now rewrite Ih, Fh]]].
    + split; hfields; auto; rewrite ?Ho1, ?Hrq; try congruence; try lia.
      * apply Forall_app. split; [assumption|]. constructor; [lia|constructor].
      * intros _. unfold reading_on. hfields. rewrite ?Ho1, ?Hrq. split; [lia|].
        rewrite (proj2 (Z.ltb_ge _ _) W). split; [apply Forall_app; auto|]. split; [assumption|].
        rewrite Hoff. unfold wrap. rewrite Zminus_mod_idemp_l. f_equal. lia.
    + unfold p, front_piece. destruct (m_ptr h) as [[|x l]|]; [congruence|unfold zlen; cbn [length]; lia|lia].
Qed.

(** Taking less than the piece at the front. *)
Lemma partial_ok pos n h front queue : inv pos h -> m_queue h = front :: queue -> 0 <= n <= zlen (front_piece h front) ->
  skipn (Z.to_nat n) (front_piece h front) <> [] ->
  inv (pos + n) (set_queue (front :: queue) (Some (skipn (Z.to_nat n) (front_piece h front))) h).
Proof.
  intros I Eq Hn Hne. pose proof I as [Is Im Ie Ip Ir Ih [[Ia0 Ia] Ib] Ier Ian Irq Io Iof Ion].
  pose proof (front_hand h front queue Eq) as Fh. rewrite Ih in Fh. set (p := front_piece h front) in *.
  rewrite <- (firstn_skipn (Z.to_nat n) p), <- app_assoc in Fh.
  destruct (pread_split (position h - pos) pos (firstn (Z.to_nat n) p) (skipn (Z.to_nat n) p ++ concat queue)
    ltac:(lia) ltac:(lia) ltac:(lia) (eq_sym Fh)) as (_ & Hq & Hl).
  assert (Hfl : zlen (firstn (Z.to_nat n) p) = n) by (unfold zlen in *; rewrite length_firstn; lia). rewrite Hfl in *.
  unfold set_queue. split; hfields; auto; try congruence; try lia.
  - unfold in_hand. hfields. rewrite Hq. f_equal. lia.
  - intros Ef. specialize (Ion Ef). unfold reading_on in *. hfields. now rewrite <- Eq.
Qed.

Definition budget (h : t) : nat := if m_eof h then pending h else Z.to_nat M.

Lemma budget_later pos h h' : later pos h h' -> inv pos h -> (budget h' <= budget h)%nat.
Proof.
  intros (I' & P & F & _) I. unfold budget. destruct (inv_outstanding _ _ I) as [_ L].
  destruct (inv_outstanding _ _ I') as [_ L']. unfold pending in *. unfold zlen in *.
  destruct (m_eof h); [rewrite F by reflexivity; lia|]. destruct (m_eof h'); lia.
Qed.

Lemma read_loop_ok fuel : forall pos nleft acc h, inv pos h -> 0 < nleft -> pos + nleft <= end_ ->
  (Z.to_nat nleft + budget h < fuel)%nat ->
  exists h', read_loop file fuel nleft acc h = (Got (acc ++ pread file nleft pos), h') /\ inv (pos + nleft) h'.
Proof.
  induction fuel as [|fuel IH]; intros pos nleft acc h I Hn He Hf; [lia|]. cbn [read_loop].
  destruct (wait_ok pos h I) as (h1 & -> & L1 & D1). pose proof (budget_later _ _ _ L1 I) as B1.
  pose proof (tick_ok pos h1 (proj1 L1)) as L2. pose proof (budget_later _ _ _ L2 (proj1 L1)) as B2.
  set (h2 := tick file h1) in *. destruct L2 as (I2 & _ & F2 & Q2). rewrite (inv_error _ _ I2).
  assert (D2 : m_queue h2 <> [] \/ m_eof h2 = true) by tauto.
  pose proof (inv_pos _ _ I2) as [Hpos Hpos2]. pose proof (inv_hand _ _ I2) as Hh.
  assert (Hlenh : zlen (in_hand h2) = position h2 - pos) by (rewrite Hh; apply pread_length; lia).
  destruct (m_queue h2) as [|front queue] eqn:Eq.
  { destruct D2 as [|E2]; [congruence|]. apply (inv_eof _ _ I2) in E2. exfalso.
    assert (Hnil : in_hand h2 = []) by (unfold in_hand; rewrite Eq; now destruct (m_ptr h2)).
    rewrite Hnil in Hlenh. change (zlen []) with 0 in Hlenh. lia. }
  destruct (pop_ok pos h2 front queue I2 Eq) as (h3 & -> & I3 & E3 & B3 & Hand). fold (front_piece h2 front).
  set (p := front_piece h2 front) in *. rewrite Hand in Hh.
  destruct (pread_split (position h2 - pos) pos p (concat queue) ltac:(lia) ltac:(lia) ltac:(lia) Hh) as (Hp & Hq & Hl).
  destruct (nleft <=? zlen p) eqn:E.
  - apply Z.leb_le in E. assert (Hfs : firstn (Z.to_nat nleft) p = pread file nleft pos).
    { rewrite Hp. unfold pread. rewrite firstn_firstn. f_equal. lia. }
    destruct (skipn (Z.to_nat nleft) p) as [|x p'] eqn:Es.
    + assert (zlen p = nleft). { apply f_equal with (f := @length Z) in Es. rewrite length_skipn in Es. unfold zlen in *. cbn in Es. lia. }
      rewrite Hfs. exists h3. split; [reflexivity|]. congruence.
    + rewrite Hfs. eexists. split; [reflexivity|]. rewrite <- Es.
      apply (partial_ok pos nleft h2 front queue I2 Eq); [fold p; lia|fold p; rewrite Es; discriminate].
  - apply Z.leb_gt in E. destruct ((zlen p =? 0) && m_eof h2 && match queue with [] => true | _ => false end) eqn:Ee.
    + exfalso. apply andb_true_iff in Ee as [Ee Eq3]. apply andb_true_iff in Ee as [Ee1 Ee2]. apply Z.eqb_eq in Ee1.
      destruct queue; [|discriminate]. apply (inv_eof _ _ I2) in Ee2. rewrite Hand, zlen_app in Hlenh.
      change (zlen (concat [])) with 0 in Hlenh. lia.
    + destruct (IH (pos + zlen p) (nleft - zlen p) (acc ++ p) h3 I3) as (h4 & -> & I4); [lia|lia| |].
      * pose proof (zlen_nonneg p). revert B1 B2 B3 Hf. generalize (budget h) (budget h1). unfold budget. rewrite E3. destruct (m_eof h2); lia.
      * exists h4. replace (pos + nleft) with (pos + zlen p + (nleft - zlen p)) by lia. split; [|assumption].
        pose proof (zlen_nonneg p). pose proof (pread_app file (zlen p) (nleft - zlen p) pos ltac:(lia) ltac:(lia) ltac:(lia)) as Hcat.
        rewrite <- Hp in Hcat. rewrite <- app_assoc, Hcat. now replace (zlen p + (nleft - zlen p)) with nleft by lia.
Qed.

Lemma read_ok pos len h : inv pos h -> 0 < len -> pos + len <= end_ ->
  exists h', read file len h = (Got (pread file len pos), h') /\ inv (pos + len) h'.
Proof.
  intros I Hl He. unfold read. pose proof (tick_ok pos h I) as L.
  destruct (read_loop_ok (Z.to_nat len + Z.to_nat (m_max_outstanding h) + 2) pos len [] (tick file h) (proj1 L) Hl He) as (h' & -> & I').
  - rewrite (inv_max _ _ I). destruct L as (I2 & _). destruct (inv_outstanding _ _ I2) as [_ Lq]. unfold budget, pending, zlen in *.
    destruct (m_eof (tick file h)); lia.
  - eauto.
Qed.

(** *** The constructor *)

(** What the requests of the constructor leave alone. *)
Definition same_rest (h h' : t) : Prop :=
  m_read_size h' = m_read_size h /\ m_max_outstanding h' = m_max_outstanding h /\ m_end_offset h' = m_end_offset h /\
  m_eof h' = m_eof h /\ m_error h' = m_error h /\ m_queue h' = m_queue h /\ m_ptr h' = m_ptr h /\
  position h' = position h /\ answers h' = answers h.

Lemma issue_n_all k : forall h T, m_end_offset h = end_ -> m_read_size h = R -> 0 <= T -> T + Z.of_nat k * R < 2 ^ 63 ->
  m_outstanding_offset h = u64 (start - T) -> m_outstanding h = zlen (requests h) -> zlen (requests h) + Z.of_nat k <= M ->
  exists more, requests (issue_n k h) = requests h ++ more /\ zlen more = Z.of_nat k /\ Forall (fun n => 0 < n) more /\
    (R <= end_ - start -> Forall (eq R) more /\ m_outstanding_offset (issue_n k h) = u64 (start - (T + R * Z.of_nat k))) /\
    (T = 0 -> end_ - start < R -> (0 < k)%nat -> hd_error more = Some (end_ - start)) /\
    m_outstanding (issue_n k h) = zlen (requests h) + Z.of_nat k /\ same_rest h (issue_n k h).
Proof.
  induction k as [|k IH]; intros h T E1 E2 HT HT2 E3 E4 E5; cbn [issue_n].
  - exists []. rewrite app_nil_r. unfold same_rest. split; [reflexivity|]. split; [reflexivity|]. split; [constructor|].
    split; [intros _; split; [constructor|rewrite E3; f_equal; lia]|]. split; [lia|]. split; [lia|auto 10].
  - rewrite Nat2Z.inj_succ, Z.mul_succ_l in *. pose proof (Z.mul_nonneg_nonneg (Z.of_nat k) R ltac:(lia) ltac:(lia)).
    rewrite (next_read_min h T) by (assumption || lia). set (n := Z.min R (end_ - start + T)).
    pose proof (zlen_nonneg (requests h)).
    assert (Hz : zlen (requests h ++ [n]) = zlen (requests h) + 1) by now rewrite zlen_app.
    assert (Eo : m_outstanding_offset (issue n h) = u64 (start - (T + n))).
    { unfold issue. hfields. rewrite E3. unfold wrap. rewrite Zminus_mod_idemp_l. f_equal. lia. }
    assert (Em : m_outstanding (issue n h) = zlen (requests (issue n h))).
    { unfold issue. hfields. rewrite Hz, E4. apply wrap_small. unfold in_range. lia. }
    assert (El : zlen (requests (issue n h)) + Z.of_nat k <= M) by (unfold issue; hfields; lia).
    destruct (IH (issue n h) (T + n) E1 E2 ltac:(lia) ltac:(lia) Eo Em El) as (more & Hr & Hlm & Hf & Hw & Hs & Ho & Hsr).
    exists (n :: more). split; [rewrite Hr; unfold issue; hfields; now rewrite <- app_assoc|].
    split; [unfold zlen in *; cbn [length]; lia|]. split; [constructor; [lia|assumption]|]. split; [|split; [|split]].
    + intros HW. destruct (Hw HW) as [Hw1 Hw2]. split; [constructor; [lia|assumption]|]. rewrite Hw2. f_equal. lia.
    + intros -> HW _. cbn. f_equal. lia.
    + rewrite Ho. unfold issue. hfields. rewrite Hz. lia.
    + unfold same_rest, issue in *. hfields. cbn in Hsr. exact Hsr.
Qed.

Lemma make_ok ans sched : Forall (eq Good) ans -> inv start (make R M start end_ ans sched).
Proof.
  intros Ha. unfold make. set (h := {| m_read_size := R; m_max_outstanding := M; m_end_offset := end_ |}).
  pose proof (Z.mul_nonneg_nonneg M R ltac:(lia) ltac:(lia)) as HMR.
  assert (Eo : m_outstanding_offset h = u64 (start - 0)).
  { change (m_outstanding_offset h) with start. symmetry. rewrite Z.sub_0_r. apply wrap_small. unfold in_range. change (2 ^ 64) with (4 * 2 ^ 62). lia. }
  assert (Hb : 0 + Z.of_nat (Z.to_nat M) * R < 2 ^ 63) by (rewrite Z2Nat.id by lia; change (2 ^ 63) with (2 * 2 ^ 62); lia).
  assert (Hm : zlen (requests h) + Z.of_nat (Z.to_nat M) <= M) by (change (zlen (requests h)) with 0; lia).
  destruct (issue_n_all (Z.to_nat M) h 0 eq_refl eq_refl ltac:(lia) Hb Eo eq_refl Hm)
    as (more & Hr & Hlm & Hf & Hw & Hs & Ho & (S1 & S2 & S3 & S4 & S5 & S6 & S7 & S8 & S9)).
  change (requests h) with (@nil Z) in *. change (zlen []) with 0 in *. cbn [app] in Hr. rewrite Z2Nat.id in * by lia.
  unfold h in S1, S2, S3, S4, S5, S6, S7, S8, S9. cbn in S1, S2, S3, S4, S5, S6, S7, S8, S9. fold h in S1, S2, S3, S4, S5, S6, S7, S8, S9.
  split; rewrite ?S1, ?S2, ?S3, ?S4, ?S5, ?S6, ?S7, ?S8, ?S9, ?Hr; auto; try congruence; try lia.
  - unfold in_hand. rewrite S6, S7, ?S8, Z.sub_diag. reflexivity.
  - change (zlen []) with 0. lia.
  - intros _. unfold reading_on. rewrite ?S6, ?S8, ?Hr, ?Ho. change (zlen []) with 0. split; [lia|].
    destruct (end_ - start <? R) eqn:W.
    + apply Z.ltb_lt in W. split; [reflexivity|]. split; [reflexivity|]. apply Hs; lia.
    + apply Z.ltb_ge in W. destruct (Hw W) as [Hw1 Hw2]. split; [assumption|]. split; [constructor|].
      rewrite Hw2, Hlm. f_equal. lia.
Qed.

End Window.

(** A client that reads one piece after the other, and what it should get. *)
Fixpoint read_all (file : list Z) (lens : list Z) (h : t) : list outcome :=
  match lens with
  | [] => []
  | n :: lens => let '(o, h') := read file n h in o :: read_all file lens h'
  end.
Fixpoint slices (file : list Z) (pos : Z) (lens : list Z) : list outcome :=
  match lens with
  | [] => []
  | n :: lens => Got (pread file n pos) :: slices file (pos + n) lens
  end.

Lemma read_all_ok file R M start end_ : 0 < R < 2 ^ 32 -> 0 < M < 2 ^ 32 -> 0 <= start < end_ -> end_ <= zlen file ->
  zlen file + M * R + R < 2 ^ 62 ->
  forall lens pos h, inv file R M start end_ pos h -> Forall (fun n => 0 < n) lens -> pos + fold_right Z.add 0 lens <= end_ ->
  read_all file lens h = slices file pos lens.
Proof.
  intros HR HM Hw He Hl. induction lens as [|n lens IH]; intros pos h I Hp Hs; [reflexivity|]. inv Hp. cbn [fold_right] in Hs.
  assert (0 <= fold_right Z.add 0 lens) by (clear -H2; induction H2; cbn [fold_right]; lia).
  destruct (read_ok file R M start end_ HR HM Hw He Hl pos n h I) as (h' & E & I'); [assumption|lia|].
  cbn [read_all slices]. rewrite E. f_equal. apply IH; auto. lia.
Qed.


Definition sample_file : list Z := map Z.of_nat (seq 0 40).


(** *** Error responses *)

Definition bad (a : answer) : Prop := exists c, a = BadCode c.

Lemma wait_bad file fuel : forall h asleep, Forall bad (answers h) -> (length (requests h) <= length (answers h))%nat ->
  (asleep = true \/ (m_queue h = [] /\ m_eof h = false)) -> wait file fuel asleep h = None.
Proof.
  induction fuel as [|fuel IH]; intros h asleep Hb Hl Ha; cbn [wait].
  - destruct Ha as [->|[-> ->]]; [reflexivity|]. now destruct asleep.
  - assert (E : negb asleep && negb (match m_queue h with [] => true | _ => false end && negb (m_eof h)) = false).
    { destruct Ha as [->|[-> ->]]; [reflexivity|]. now destruct asleep. }
    rewrite E. unfold handle. destruct (requests h) as [|n rs]; [reflexivity|].
    destruct (answers h) as [|a as_]; [cbn in Hl; lia|]. inversion Hb as [|? ? [c ->] Hb']; subst. cbn [hd tl negb].
    apply IH; hfields; [assumption|cbn [length] in Hl; lia|now left].
Qed.

Lemma drain_bad file fuel : forall h asleep, Forall bad (answers h) -> (length (requests h) <= length (answers h))%nat ->
  (asleep = true \/ m_outstanding h <> 0) -> drain_requests file fuel asleep h = None.
Proof.
  induction fuel as [|fuel IH]; intros h asleep Hb Hl Ha; cbn [drain_requests].
  - destruct Ha as [->|Ha]; [reflexivity|]. apply Z.eqb_neq in Ha. rewrite Ha. now rewrite andb_false_r.
  - assert (E : negb asleep && (m_outstanding h =? 0) = false).
    { destruct Ha as [->|Ha]; [reflexivity|]. apply Z.eqb_neq in Ha. rewrite Ha. apply andb_false_r. }
    rewrite E. unfold handle. destruct (requests h) as [|n rs]; [reflexivity|].
    destruct (answers h) as [|a as_]; [cbn in Hl; lia|]. inversion Hb as [|? ? [c ->] Hb']; subst. cbn [hd tl negb].
    apply IH; hfields; [assumption|cbn [length] in Hl; lia|now left].
Qed.

(** A response with an error code wakes nobody: a client that waits while all
    answers under way are of that kind sleeps for ever instead of getting the
    error, and so does the destructor. *)
Theorem error_response_sleeps file h len : m_queue h = [] -> m_eof h = false -> timing h = [] -> requests h <> [] ->
  m_outstanding h <> 0 -> Forall bad (answers h) -> (length (requests h) <= length (answers h))%nat ->
  fst (read file len h) = Sleeps /\ destroy file h = None.
Proof.
  intros Hq He Ht Hr Ho Hb Hl. split.
  - unfold read. rewrite Nat.add_succ_r. cbn [read_loop]. unfold tick at 1 2. rewrite Ht. cbn [hd deliver tl]. hfields.
    rewrite wait_bad; hfields; auto.
  - unfold destroy. apply drain_bad; auto.
Qed.

Lemma error_response_sleeps_witness :
  fst (read sample_file 4 (make 5 2 10 38 [BadCode DFSBROKER_IO_ERROR; BadCode DFSBROKER_IO_ERROR] [])) = Sleeps.
Proof.
  apply error_response_sleeps; try reflexivity; try discriminate.
  repeat constructor; now eexists.
Defined.

(** Behind the window it depends on the timing: a window shorter than a request
    ends the reading when its answer arrives, but another request is under way. *)
Example beyond_window_race :
  fst (read sample_file 4 (snd (read sample_file 3 (make 20 2 10 13 [] [1; 0; 0; 0]%nat)))) = Threw FAILED_EXPECTATION /\
  fst (read sample_file 4 (snd (read sample_file 3 (make 20 2 10 13 [] [2; 0; 0; 0]%nat)))) = Got [13; 14; 15; 16].
Proof. split; reflexivity. Qed.

End BufferedReader.

(** ** The interface

    What a scanner relies on: [open_buffered(name, buf_size, 2, start, end)], and
    [read] inside the window. *)
Class SequentialReader (file : list Z) (R : Type) := {
  sr_open : Z -> Z -> Z -> result R;
  sr_read : Z -> R -> result (list Z * R);
  sr_at : Z -> Z -> R -> Prop;
  sr_open_at buf s e : 0 < buf < 2 ^ 32 -> 0 <= s < e -> e <= zlen file -> zlen file < 2 ^ 32 ->
    exists r, sr_open buf s e = Ok r /\ sr_at s e r;
  sr_read_at pos e n r : sr_at pos e r -> 0 < n -> pos + n <= e ->
    exists r', sr_read n r = Ok (pread file n pos, r') /\ sr_at (pos + n) e r' }.

(** The buffered reader keeps it, whatever the timing. *)
Definition handler_reader (file : list Z) (sched : list nat) : SequentialReader file BufferedReader.t.
Proof.
  refine {|
    sr_open buf s e := Ok (BufferedReader.make buf 2 s e [] sched);
    sr_read n h := match BufferedReader.read file n h with
                   | (BufferedReader.Got d, h') => Ok (d, h')
                   | (BufferedReader.Threw c, _) => Throw c
                   | _ => Fault
                   end;
    sr_at pos e h := exists R M s, 0 < R < 2 ^ 32 /\ 0 < M < 2 ^ 32 /\ 0 <= s < e /\ e <= zlen file /\
                       zlen file + M * R + R < 2 ^ 62 /\ BufferedReader.inv file R M s e pos h |}.
  - intros buf s e Hb Hs He Hf. eexists. split; [reflexivity|]. exists buf, 2, s.
    assert (zlen file + 2 * buf + buf < 2 ^ 62) by (change (2 ^ 62) with (2 ^ 32 * 2 ^ 30); lia).
    repeat (split; [lia|]). apply BufferedReader.make_ok; auto; lia.
  - intros pos e n h (R & M & s & HR & HM & Hs & He & Hl & I) Hn Hp.
    destruct (BufferedReader.read_ok file R M s e HR HM Hs He Hl pos n h I Hn Hp) as (h' & -> & I').
    exists h'. split; [reflexivity|]. exists R, M, s. auto 10.
Defined.
