(* ===== verification/BlockCache.v ===== *)
(** * The block cache

    [RangeServer/FileBlockCache.{h,cc}]: uncompressed blocks of cell stores,
    shared by the scanners.  A block that is checked out is pinned; the others
    make room for new ones, the least recently used first.

    The container has two indices over the same entries: the sequence, which is
    the list of entries here, and a hash index with unique keys, which is search
    by key. *)
From S2P Require Import Prelude Errors Serialization ByteString.
From Stdlib Require Import ZArith Lia List Bool Permutation.
Import ListNotations.
Open Scope Z_scope.
Open Scope result_scope.

Module FileBlockCache.

(** ** The code *)

Record BlockCacheEntry := { file_id : Z; file_offset : Z; block : list Z; ref_count : Z }.

(** [BlockCacheEntry::key()]; the length of a block is that of its bytes. *)
Definition key_of (id offset : Z) : Z := Z.lor (u64 (Z.shiftl (u64 id) 32)) offset.
Definition key (e : BlockCacheEntry) : Z := key_of (file_id e) (file_offset e).
Definition len (e : BlockCacheEntry) : Z := u32 (zlen (block e)).

Record t := { m_cache : list BlockCacheEntry; m_max_memory : Z; m_avail_memory : Z }.

Definition make (max_memory : Z) : t := {| m_cache := []; m_max_memory := max_memory; m_avail_memory := max_memory |}.

Definition lookup (k : Z) (l : list BlockCacheEntry) : option BlockCacheEntry := find (fun e => key e =? k) l.
Definition erase (k : Z) (l : list BlockCacheEntry) : list BlockCacheEntry := filter (fun e => negb (key e =? k)) l.
Definition set_ref (n : Z) (e : BlockCacheEntry) : BlockCacheEntry :=
  {| file_id := file_id e; file_offset := file_offset e; block := block e; ref_count := n |}.
Definition set_cache (l : list BlockCacheEntry) (c : t) : t :=
  {| m_cache := l; m_max_memory := m_max_memory c; m_avail_memory := m_avail_memory c |}.

(** [checkout]: the entry moves to the end of the sequence. *)
Definition checkout (id offset : Z) (c : t) : option (list Z) * t :=
  let k := key_of id offset in
  match lookup k (m_cache c) with
  | None => (None, c)
  | Some e => (Some (block e), set_cache (erase k (m_cache c) ++ [set_ref (u32 (ref_count e + 1)) e]) c)
  end.

(** [checkin], which asserts that the block is there and checked out. *)
Definition checkin (id offset : Z) (c : t) : result t :=
  let k := key_of id offset in
  match lookup k (m_cache c) with
  | Some e =>
      if 0 <? ref_count e
      then Ok (set_cache (map (fun x => if key x =? k then set_ref (ref_count x - 1) x else x) (m_cache c)) c)
      else Fault
  | None => Fault
  end.

(** The loop that makes room: entries nobody uses go, from the front, until there
    is enough. *)
Fixpoint make_room (length_ avail : Z) (l : list BlockCacheEntry) : list BlockCacheEntry * Z :=
  match l with
  | [] => ([], avail)
  | e :: l' =>
      if ref_count e =? 0 then
        let avail := u64 (avail + len e) in
        if length_ <=? avail then (l', avail) else make_room length_ avail l'
      else let '(l'', a) := make_room length_ avail l' in (e :: l'', a)
  end.

Definition insert_and_checkout (id offset : Z) (b : list Z) (c : t) : bool * t :=
  let k := key_of id offset in
  let length_ := u32 (zlen b) in
  if (m_max_memory c <? length_) || match lookup k (m_cache c) with Some _ => true | None => false end then (false, c)
  else
    let '(l, avail) :=
      if m_avail_memory c <? length_ then make_room length_ (m_avail_memory c) (m_cache c)
      else (m_cache c, m_avail_memory c) in
    let c := {| m_cache := l; m_max_memory := m_max_memory c; m_avail_memory := avail |} in
    if avail <? length_ then (false, c)
    else (true, {| m_cache := l ++ [{| file_id := id; file_offset := offset; block := b; ref_count := 1 |}];
                   m_max_memory := m_max_memory c; m_avail_memory := u64 (avail - length_) |}).

Definition contains (id offset : Z) (c : t) : bool :=
  match lookup (key_of id offset) (m_cache c) with Some _ => true | None => false end.

(** ** What it promises *)

Definition used (l : list BlockCacheEntry) : Z := fold_right (fun e n => len e + n) 0 l.
Definition pinned (l : list BlockCacheEntry) : list BlockCacheEntry := filter (fun e => negb (ref_count e =? 0)) l.
Definition refs (k : Z) (l : list BlockCacheEntry) : Z :=
  match lookup k l with Some e => ref_count e | None => 0 end.

Definition id_ok (id : Z) : Prop := - 2 ^ 31 <= id < 2 ^ 31.

(** Callers hold the blocks they have checked out and not checked in; what they
    insert is what the file has there. *)
Definition holding := list (Z * Z).

Section Promise.

Context (source : Z -> Z -> list Z) (max : Z).

Inductive step : holding -> t -> holding -> t -> Prop :=
| step_checkout id off held c b c' : id_ok id -> in_range 32 off -> checkout id off c = (Some b, c') ->
    step held c ((id, off) :: held) c'
| step_checkout_miss id off held c c' : checkout id off c = (None, c') -> step held c held c'
| step_checkin id off h1 h2 c c' : checkin id off c = Ok c' -> step (h1 ++ (id, off) :: h2) c (h1 ++ h2) c'
| step_insert id off held c c' : id_ok id -> in_range 32 off ->
    insert_and_checkout id off (source id off) c = (true, c') -> step held c ((id, off) :: held) c'
| step_insert_fails id off held c c' :
    insert_and_checkout id off (source id off) c = (false, c') -> step held c held c'.

Inductive reach : holding -> t -> Prop :=
| reach_make : reach [] (make max)
| reach_step held c held' c' : reach held c -> step held c held' c' -> zlen held' < 2 ^ 32 -> reach held' c'.

(** How often a key is held. *)
Definition holds_key (k : Z) (p : Z * Z) : bool := key_of (fst p) (snd p) =? k.
Definition count (k : Z) (h : holding) : Z := zlen (filter (holds_key k) h).

(** The invariant: unique keys, memory accounted for, as many references as
    holders, and every block that of its file. *)
Record inv (held : holding) (c : t) : Prop := {
  inv_keys : NoDup (map key (m_cache c));
  inv_max : m_max_memory c = max;
  inv_avail : m_avail_memory c = max - used (m_cache c);
  inv_room : 0 <= m_avail_memory c;
  inv_refs k : refs k (m_cache c) = count k held;
  inv_blocks : Forall (fun e => block e = source (file_id e) (file_offset e) /\ id_ok (file_id e) /\
                                in_range 32 (file_offset e)) (m_cache c);
  inv_held : zlen held < 2 ^ 32 }.

End Promise.

(** *** Keys and lookups *)

Lemma key_of_inj id off id' off' : id_ok id -> id_ok id' -> in_range 32 off -> in_range 32 off' ->
  key_of id off = key_of id' off' -> id = id' /\ off = off'.
Proof.
  unfold id_ok, in_range, key_of. intros H1 H2 H3 H4.
  assert (E : forall id off, - 2 ^ 31 <= id < 2 ^ 31 -> 0 <= off < 2 ^ 32 ->
            Z.lor (u64 (Z.shiftl (u64 id) 32)) off = (id mod 2 ^ 32) * 2 ^ 32 + off).
  { intros i o Hi Ho. unfold wrap. rewrite Z.shiftl_mul_pow2 by lia.
    replace ((i mod 2 ^ 64) * 2 ^ 32 mod 2 ^ 64) with (Z.shiftl (i mod 2 ^ 32) 32).
    - rewrite Z.lor_comm, lor_low_shift by (unfold in_range; lia). lia.
    - rewrite Z.shiftl_mul_pow2 by lia. change (2 ^ 64) with (2 ^ 32 * 2 ^ 32) at 2.
      rewrite Z.mul_mod_distr_r by lia. f_equal.
      symmetry. apply (wrap_narrow 32 64 i). lia. }
  rewrite !E by assumption. intros H.
  pose proof (Z.mod_pos_bound id (2 ^ 32) ltac:(lia)). pose proof (Z.mod_pos_bound id' (2 ^ 32) ltac:(lia)).
  assert (Hm : id mod 2 ^ 32 = id' mod 2 ^ 32 /\ off = off') by (change (2 ^ 32) with 4294967296 in *; lia).
  destruct Hm as [Hm ->]. split; [|reflexivity].
  rewrite (Z.mod_eq id), (Z.mod_eq id') in Hm by lia. change (2 ^ 32) with 4294967296 in *. change (2 ^ 31) with 2147483648 in *. lia.
Qed.

Lemma lookup_in k l e : lookup k l = Some e -> In e l /\ key e = k.
Proof.
  unfold lookup. intros H. apply find_some in H as [H1 H2]. split; [assumption|now apply Z.eqb_eq].
Qed.

Lemma lookup_none k l : lookup k l = None <-> ~ In k (map key l).
Proof.
  unfold lookup. split.
  - intros H Hin. apply in_map_iff in Hin as (e & <- & He). eapply find_none in H; [|exact He]. cbn in H.
    rewrite Z.eqb_refl in H. discriminate.
  - intros H. destruct (find _ l) eqn:E; [|reflexivity]. apply find_some in E as [E1 E2]. apply Z.eqb_eq in E2 as <-.
    exfalso. apply H. now apply in_map.
Qed.

Lemma lookup_split k l e : lookup k l = Some e -> NoDup (map key l) -> exists a b, l = a ++ e :: b /\
  ~ In k (map key (a ++ b)) /\ erase k l = a ++ b.
Proof.
  intros H Hn. apply lookup_in in H as [Hin <-]. apply in_split in Hin as (a & b & ->). exists a, b.
  rewrite map_app in Hn. cbn [map] in Hn. apply NoDup_remove in Hn as [_ Hn]. rewrite <- map_app in Hn.
  split; [reflexivity|]. split; [assumption|]. unfold erase. rewrite filter_app. cbn [filter].
  rewrite Z.eqb_refl. cbn [negb]. rewrite <- filter_app. apply forallb_filter_id, forallb_forall.
  intros x Hx. apply negb_true_iff, Z.eqb_neq. intros E. apply Hn. rewrite <- E. now apply in_map.
Qed.

Lemma lookup_app k a b : lookup k (a ++ b) = match lookup k a with Some e => Some e | None => lookup k b end.
Proof. unfold lookup. induction a as [|x a IH]; cbn [app find]; [reflexivity|]. destruct (key x =? k); auto. Qed.

Lemma refs_app_one k l e : ~ In (key e) (map key l) ->
  refs k (l ++ [e]) = if key e =? k then ref_count e else refs k l.
Proof.
  intros H. unfold refs. rewrite lookup_app. unfold lookup at 2. cbn [find].
  destruct (Z.eqb_spec (key e) k) as [<-|N].
  - now rewrite (proj2 (lookup_none _ _) H).
  - now destruct (lookup k l).
Qed.

Lemma refs_middle k a e b : ~ In (key e) (map key (a ++ b)) ->
  refs k (a ++ e :: b) = if key e =? k then ref_count e else refs k (a ++ b).
Proof.
  intros H. unfold refs. rewrite !lookup_app. unfold lookup at 2. cbn [find].
  destruct (Z.eqb_spec (key e) k) as [<-|N]; [|reflexivity].
  rewrite map_app, in_app_iff in H. rewrite (proj2 (lookup_none _ a)) by tauto. reflexivity.
Qed.

Lemma used_app a b : used (a ++ b) = used a + used b.
Proof. induction a as [|x a IH]; cbn [app used fold_right]; [reflexivity|]. fold (used (a ++ b)) (used a). lia. Qed.

Lemma used_nonneg l : 0 <= used l.
Proof.
  induction l as [|e l IH]; cbn [used fold_right]; [lia|]. fold (used l). pose proof (wrap_range 32 (zlen (block e))).
  unfold len, in_range in *. lia.
Qed.

Lemma count_cons k p h : count k (p :: h) = (if holds_key k p then 1 else 0) + count k h.
Proof. unfold count. cbn [filter]. destruct (holds_key k p); unfold zlen; cbn [length]; lia. Qed.

Lemma count_app k a b : count k (a ++ b) = count k a + count k b.
Proof. unfold count. now rewrite filter_app, zlen_app. Qed.

Lemma count_le k h : 0 <= count k h <= zlen h.
Proof.
  induction h as [|p h IH]; [cbn; lia|]. rewrite count_cons. unfold zlen in *. cbn [length]. destruct (holds_key k p); lia.
Qed.

(** *** Making room *)

(** Some entries nobody uses have gone. *)
Inductive pruned : list BlockCacheEntry -> list BlockCacheEntry -> Prop :=
| pruned_same l : pruned l l
| pruned_keep e l l' : pruned l l' -> pruned (e :: l) (e :: l')
| pruned_drop e l l' : ref_count e = 0 -> pruned l l' -> pruned (e :: l) l'.

Lemma pruned_incl l l' : pruned l l' -> incl l' l.
Proof.
  induction 1; [apply incl_refl| |now apply incl_tl].
  apply incl_cons; [now left|now apply incl_tl].
Qed.

Lemma pruned_nodup l l' : pruned l l' -> NoDup (map key l) -> NoDup (map key l').
Proof.
  induction 1; cbn [map]; auto; intros Hn; inv Hn; auto. constructor; [|auto].
  intros Hin. apply H2. apply in_map_iff in Hin as (x & Ex & Hx). rewrite <- Ex. apply in_map. now apply (pruned_incl l l').
Qed.

Lemma pruned_refs l l' k : pruned l l' -> NoDup (map key l) -> refs k l' = refs k l.
Proof.
  induction 1 as [l|e l l' H IH|e l l' He H IH]; intros Hn; [reflexivity| |]; cbn [map] in Hn; inv Hn.
  - unfold refs, lookup in *. cbn [find]. destruct (key e =? k); auto.
  - rewrite IH by assumption. unfold refs at 2. unfold lookup. cbn [find].
    destruct (Z.eqb_spec (key e) k) as [<-|]; [|reflexivity]. rewrite He. unfold refs.
    now rewrite (proj2 (lookup_none _ _)).
Qed.

Lemma make_room_ok length_ max l : forall avail, max < 2 ^ 64 -> 0 <= avail -> avail + used l <= max ->
  let '(l', avail') := make_room length_ avail l in
  pruned l l' /\ avail' = avail + used l - used l' /\ 0 <= avail' /\ avail' + used l' <= max /\
  (avail < length_ -> avail' < length_ -> l' = pinned l).
Proof.
  induction l as [|e l IH]; intros avail Hm Ha Hu; cbn [make_room].
  - split; [constructor|]. cbn in *. split; [lia|]. split; [lia|]. split; [lia|reflexivity].
  - cbn [used fold_right] in Hu. fold (used l) in Hu. pose proof (wrap_range 32 (zlen (block e))) as Hl.
    unfold in_range in Hl. fold (len e) in Hl. pose proof (used_nonneg l).
    assert (Hc : used (e :: l) = len e + used l) by reflexivity. rewrite Hc.
    destruct (ref_count e =? 0) eqn:E.
    + assert (Hw : u64 (avail + len e) = avail + len e) by (apply wrap_small; unfold in_range; lia).
      cbv zeta. rewrite Hw. destruct (length_ <=? avail + len e) eqn:L.
      * apply Z.leb_le in L. apply Z.eqb_eq in E. split; [apply pruned_drop; [assumption|constructor]|].
        repeat (split; [lia|]). lia.
      * apply Z.leb_gt in L. specialize (IH (avail + len e) Hm ltac:(lia) ltac:(lia)).
        destruct (make_room length_ (avail + len e) l) as [l' a']. destruct IH as (P & A & B & C & D).
        split; [apply pruned_drop; [now apply Z.eqb_eq|assumption]|]. split; [lia|]. split; [lia|]. split; [lia|].
        intros _ H2. unfold pinned. cbn [filter]. rewrite E. cbn [negb]. apply D; lia.
    + specialize (IH avail Hm Ha ltac:(lia)). destruct (make_room length_ avail l) as [l' a'].
      destruct IH as (P & A & B & C & D). cbn [used fold_right]. fold (used l').
      split; [now constructor|]. split; [lia|]. split; [lia|]. split; [lia|].
      intros H1 H2. unfold pinned. cbn [filter]. rewrite E. cbn [negb]. f_equal. now apply D.
Qed.

Lemma used_cons e l : used (e :: l) = len e + used l.
Proof. reflexivity. Qed.

Lemma len_nonneg e : 0 <= len e.
Proof. pose proof (wrap_range 32 (zlen (block e))) as Hl. unfold in_range in Hl. unfold len. lia. Qed.

Lemma pinned_cons e l : pinned (e :: l) = if ref_count e =? 0 then pinned l else e :: pinned l.
Proof. unfold pinned. cbn [filter]. now destruct (ref_count e =? 0). Qed.

Lemma used_pinned l : used (pinned l) <= used l.
Proof.
  induction l as [|e l IH]; [cbn; lia|]. rewrite pinned_cons, used_cons. pose proof (len_nonneg e).
  destruct (ref_count e =? 0); rewrite ?used_cons; lia.
Qed.

Lemma pruned_pinned l l' : pruned l l' -> used (pinned l) <= used l'.
Proof.
  induction 1 as [m|e m m' H IH|e m m' He H IH]; [apply used_pinned| |]; rewrite pinned_cons.
  - pose proof (len_nonneg e). destruct (ref_count e =? 0); rewrite !used_cons; lia.
  - now rewrite (proj2 (Z.eqb_eq _ _) He).
Qed.

Section Proofs.

Context (source : Z -> Z -> list Z) (max : Z) (Hmax : in_range 64 max).

(** What [insert_and_checkout] does: nothing but evict when it fails, which it
    does exactly when the key is there or the pinned blocks leave no room. *)
Lemma insert_ok held id off b c : inv source max held c ->
  exists l, pruned (m_cache c) l /\
  match insert_and_checkout id off b c with
  | (true, c') =>
      lookup (key_of id off) (m_cache c) = None /\ used (pinned (m_cache c)) + u32 (zlen b) <= max /\
      m_cache c' = l ++ [{| file_id := id; file_offset := off; block := b; ref_count := 1 |}] /\
      m_max_memory c' = max /\ m_avail_memory c' = max - used (m_cache c') /\ 0 <= m_avail_memory c'
  | (false, c') =>
      (lookup (key_of id off) (m_cache c) <> None \/ max < used (pinned (m_cache c)) + u32 (zlen b)) /\
      m_cache c' = l /\ m_max_memory c' = max /\ m_avail_memory c' = max - used l /\ 0 <= m_avail_memory c'
  end.
Proof.
  intros [K M A R _ _ _]. unfold insert_and_checkout. rewrite M. pose proof (used_nonneg (pinned (m_cache c))) as Hp.
  pose proof (wrap_range 32 (zlen b)) as Hl. unfold in_range in Hl. set (n := u32 (zlen b)) in *.
  destruct (lookup (key_of id off) (m_cache c)) eqn:E.
  - rewrite orb_true_r. exists (m_cache c). split; [constructor|]. split; [left; discriminate|]. auto.
  - rewrite orb_false_r. destruct (max <? n) eqn:E1.
    + apply Z.ltb_lt in E1. exists (m_cache c). split; [constructor|]. split; [right; lia|]. auto.
    + unfold in_range in Hmax.
      assert (G : exists l a, (if m_avail_memory c <? n then make_room n (m_avail_memory c) (m_cache c)
                               else (m_cache c, m_avail_memory c)) = (l, a) /\ pruned (m_cache c) l /\
                 a = max - used l /\ 0 <= a /\ (a < n -> l = pinned (m_cache c))).
      { destruct (m_avail_memory c <? n) eqn:E2.
        - apply Z.ltb_lt in E2. pose proof (make_room_ok n max (m_cache c) (m_avail_memory c) (proj2 Hmax) R ltac:(lia)) as H.
          destruct (make_room n (m_avail_memory c) (m_cache c)) as [l a]. destruct H as (P & B & C & D & F).
          exists l, a. split; [reflexivity|]. split; [assumption|]. split; [lia|]. split; [lia|auto].
        - apply Z.ltb_ge in E2. exists (m_cache c), (m_avail_memory c).
          split; [reflexivity|]. split; [constructor|]. split; [lia|]. split; [lia|lia]. }
      destruct G as (l & a & -> & P & B & C & D). exists l. split; [assumption|].
      cbv zeta. cbn [m_max_memory]. pose proof (pruned_pinned _ _ P). destruct (a <? n) eqn:E3.
      * apply Z.ltb_lt in E3. cbn [m_cache m_max_memory m_avail_memory]. rewrite (D E3) in *. split; [right; lia|]. auto.
      * apply Z.ltb_ge in E3. cbn [m_cache m_max_memory m_avail_memory]. rewrite used_app. cbn [used fold_right].
        change (len {| file_id := id; file_offset := off; block := b; ref_count := 1 |}) with n.
        rewrite wrap_small by (unfold in_range; lia). repeat (split; [reflexivity || lia|]). lia.
Qed.

Lemma nodup_snoc l e : ~ In (key e) (map key l) -> NoDup (map key l) -> NoDup (map key (l ++ [e])).
Proof.
  intros H1 H2. rewrite map_app. cbn [map]. apply (Permutation_NoDup (Permutation_cons_append _ _)). now constructor.
Qed.

Lemma refs_nonneg held c k : inv source max held c -> 0 <= refs k (m_cache c).
Proof. intros I. rewrite (inv_refs _ _ _ _ I). apply count_le. Qed.

Lemma holds_key_self id off : holds_key (key_of id off) (id, off) = true.
Proof. apply Z.eqb_refl. Qed.

Lemma checkout_inv held c id off b c' : inv source max held c -> id_ok id -> in_range 32 off ->
  zlen ((id, off) :: held) < 2 ^ 32 -> checkout id off c = (Some b, c') ->
  inv source max ((id, off) :: held) c' /\ b = source id off.
Proof.
  intros I Hid Hoff Hn. pose proof I as [K M A R F B N]. unfold checkout.
  destruct (lookup (key_of id off) (m_cache c)) as [e|] eqn:E; [|discriminate].
  intros H. apply pair_equal_spec in H as [Hb Hc]. injection Hb as <-. subst c'.
  destruct (lookup_split _ _ _ E K) as (x & y & L & Hnin & ->). pose proof (lookup_in _ _ _ E) as [Hin Hk].
  rewrite L in *. set (e' := set_ref (u32 (ref_count e + 1)) e).
  assert (Hr : ref_count e = count (key_of id off) held).
  { rewrite <- F. rewrite refs_middle by now rewrite Hk. now rewrite Hk, Z.eqb_refl. }
  assert (Hz : zlen ((id, off) :: held) = zlen held + 1) by (unfold zlen; cbn [length]; lia). rewrite Hz in Hn.
  pose proof (count_le (key_of id off) held).
  assert (Hr' : ref_count e' = ref_count e + 1) by (apply wrap_small; unfold in_range; lia).
  assert (Be : block e = source id off).
  { rewrite Forall_forall in B. destruct (B e Hin) as (-> & Hi & Ho).
    destruct (key_of_inj _ _ _ _ Hi Hid Ho Hoff Hk) as [-> ->]. reflexivity. }
  split; [|assumption].
  split; cbn [set_cache m_cache m_max_memory m_avail_memory]; auto.
  - apply nodup_snoc.
    + change (key e') with (key e). now rewrite Hk.
    + rewrite map_app in K. cbn [map] in K. apply NoDup_remove_1 in K. now rewrite map_app.
  - rewrite A, !used_app, !used_cons. change (len e') with (len e). change (used []) with 0. lia.
  - intros k. rewrite refs_app_one by (change (key e') with (key e); now rewrite Hk).
    change (key e') with (key e). specialize (F k). rewrite refs_middle in F by now rewrite Hk.
    rewrite count_cons. unfold holds_key. cbn [fst snd]. rewrite Hk in *.
    destruct (key_of id off =? k); lia.
  - rewrite Forall_app in *. destruct B as [B1 B2]. inv B2. split; [apply Forall_app; auto|]. constructor; [exact H2|constructor].
  - rewrite Hz. lia.
Qed.

Lemma checkin_inv h1 h2 c id off : inv source max (h1 ++ (id, off) :: h2) c ->
  exists c', checkin id off c = Ok c' /\ inv source max (h1 ++ h2) c'.
Proof.
  intros I. pose proof I as [K M A R F B N]. unfold checkin.
  assert (Hc : forall k, count k (h1 ++ (id, off) :: h2) = (if key_of id off =? k then 1 else 0) + count k (h1 ++ h2)).
  { intros k. rewrite !count_app, count_cons. unfold holds_key at 1. cbn [fst snd]. lia. }
  pose proof (F (key_of id off)) as Fk. rewrite Hc, Z.eqb_refl in Fk. pose proof (count_le (key_of id off) (h1 ++ h2)).
  destruct (lookup (key_of id off) (m_cache c)) as [e|] eqn:E; unfold refs in Fk; rewrite E in Fk; [|lia].
  rewrite (proj2 (Z.ltb_lt _ _)) by lia. eexists. split; [reflexivity|].
  set (f := fun x => if key x =? key_of id off then set_ref (ref_count x - 1) x else x).
  assert (Hkey : forall x, key (f x) = key x) by (intros x; unfold f; now destruct (key x =? _)).
  assert (Hmap : map key (map f (m_cache c)) = map key (m_cache c)).
  { rewrite map_map. apply map_ext. exact Hkey. }
  assert (Hlook : forall k l, lookup k (map f l) = option_map f (lookup k l)).
  { intros k l. unfold lookup. induction l as [|x l IHl]; cbn [map find]; [reflexivity|]. rewrite Hkey. now destruct (key x =? k). }
  assert (Hused : forall l, used (map f l) = used l).
  { induction l as [|x l IHl]; [reflexivity|]. cbn [map]. rewrite !used_cons, IHl. unfold f. now destruct (key x =? _). }
  split; cbn [set_cache m_cache m_max_memory m_avail_memory]; auto.
  - now rewrite Hmap.
  - now rewrite Hused.
  - intros k. specialize (F k). rewrite Hc in F. unfold refs in *. rewrite Hlook.
    destruct (lookup k (m_cache c)) as [x|] eqn:Ex; cbn [option_map].
    + apply lookup_in in Ex as [_ <-]. unfold f. rewrite Z.eqb_sym. destruct (key_of id off =? key x); cbn [set_ref ref_count]; lia.
    + destruct (Z.eqb_spec (key_of id off) k); [congruence|lia].
  - apply Forall_forall. intros y Hy. apply in_map_iff in Hy as (x & <- & Hx). rewrite Forall_forall in B.
    specialize (B x Hx). unfold f. now destruct (key x =? _).
  - rewrite zlen_app in *. unfold zlen in *. cbn [length] in N. lia.
Qed.

Lemma pruned_inv held c l : inv source max held c -> pruned (m_cache c) l ->
  NoDup (map key l) /\ (forall k, refs k l = count k held) /\
  Forall (fun e => block e = source (file_id e) (file_offset e) /\ id_ok (file_id e) /\ in_range 32 (file_offset e)) l.
Proof.
  intros [K M A R F B N] P. split; [now apply (pruned_nodup (m_cache c))|]. split.
  - intros k. now rewrite (pruned_refs _ _ k P K).
  - rewrite Forall_forall in *. intros e He. apply B. now apply (pruned_incl _ _ P).
Qed.

Lemma insert_inv held c id off : inv source max held c -> id_ok id -> in_range 32 off ->
  match insert_and_checkout id off (source id off) c with
  | (true, c') => zlen ((id, off) :: held) < 2 ^ 32 -> inv source max ((id, off) :: held) c'
  | (false, c') => inv source max held c'
  end.
Proof.
  intros I Hid Hoff. destruct (insert_ok held id off (source id off) c I) as (l & P & H).
  destruct (pruned_inv held c l I P) as (K' & F' & B').
  destruct (insert_and_checkout id off (source id off) c) as [[] c'].
  - destruct H as (L & _ & Hc & M' & A' & R'). intros Hn.
    assert (Hnin : ~ In (key_of id off) (map key l)).
    { apply lookup_none in L. intros Hin. apply L. apply in_map_iff in Hin as (e & <- & He). apply in_map.
      now apply (pruned_incl _ _ P). }
    split; auto; rewrite Hc.
    + now apply nodup_snoc.
    + intros k. rewrite refs_app_one by assumption. cbn [key file_id file_offset ref_count].
      rewrite count_cons, <- F'. unfold holds_key. cbn [fst snd]. change (key {| file_id := id; file_offset := off; block := source id off; ref_count := 1 |}) with (key_of id off).
      destruct (Z.eqb_spec (key_of id off) k) as [<-|]; [|lia]. unfold refs. now rewrite (proj2 (lookup_none _ _) Hnin).
    + apply Forall_app. split; [assumption|]. constructor; [|constructor]. auto.
  - destruct H as (_ & Hc & M' & A' & R'). subst l. destruct I. now split.
Qed.

Lemma reach_inv held c : reach source max held c -> inv source max held c.
Proof.
  induction 1 as [|held c held' c' _ IH Hs Hn].
  - split; cbn; auto; try lia; [constructor|unfold in_range in Hmax; lia].
  - inversion Hs as [id off h d b d' Hid Hoff E|id off h d d' E|id off h1 h2 d d' E|id off h d d' Hid Hoff E|id off h d d' E]; subst.
    + now apply (checkout_inv held c id off b c').
    + unfold checkout in E. destruct (lookup _ _); [discriminate|]. injection E as <-. assumption.
    + destruct (checkin_inv h1 h2 c id off IH) as (c2 & E2 & I2). rewrite E in E2. now injection E2 as ->.
    + pose proof (insert_inv held c id off IH Hid Hoff) as Hi. rewrite E in Hi. auto.
    + destruct (insert_ok held' id off (source id off) c IH) as (l & P & H). rewrite E in H.
      destruct H as (_ & Hc & M' & A' & R'). subst l. destruct (pruned_inv held' c _ IH P) as (K' & F' & B').
      destruct IH. now split.
Qed.

End Proofs.

(** C24. The block cache under any sequence of calls by clients that check in only
    what they hold: the blocks in it never exceed the configured memory; a block
    somebody holds is in the cache, so it has not been freed, with exactly as many
    references as holders; every block handed out is what its file has at that
    offset; and checking in a held block never trips the assertion. *)
Theorem block_cache_safe source max held c : in_range 64 max -> reach source max held c ->
  (0 <= used (m_cache c) <= max /\ m_avail_memory c = max - used (m_cache c)) /\
  (forall id off, In (id, off) held -> contains id off c = true /\ refs (key_of id off) (m_cache c) = count (key_of id off) held) /\
  (forall id off b c', id_ok id -> in_range 32 off -> zlen held < 2 ^ 32 - 1 -> checkout id off c = (Some b, c') -> b = source id off) /\
  (forall id off, In (id, off) held -> exists c', checkin id off c = Ok c').
Proof.
  intros Hm Hr. pose proof (reach_inv source max Hm held c Hr) as I. pose proof I as [K M A R F B N].
  split; [pose proof (used_nonneg (m_cache c)); lia|]. split; [|split].
  - intros id off Hin. split; [|apply F]. unfold contains. specialize (F (key_of id off)). unfold refs in F.
    destruct (lookup _ _); [reflexivity|]. exfalso. apply in_split in Hin as (h1 & h2 & ->).
    rewrite count_app, count_cons, holds_key_self in F. pose proof (count_le (key_of id off) h1). pose proof (count_le (key_of id off) h2). lia.
  - intros id off b c' Hid Hoff Hn E. apply (checkout_inv source max Hm held c id off b c' I Hid Hoff); [|assumption].
    unfold zlen in *. cbn [length]. lia.
  - intros id off Hin. apply in_split in Hin as (h1 & h2 & ->).
    destruct (checkin_inv source max h1 h2 c id off I) as (c' & E & _). eauto.
Qed.

(** Two scanners share a block; a third one then finds the cache full. *)
Definition sample_source (id off : Z) : list Z := repeat off 10.

Lemma block_cache_safe_witness : exists c, reach sample_source 25 [(1, 5); (1, 5)] c /\
  used (m_cache c) = 20 /\ refs (key_of 1 5) (m_cache c) = 2 /\ (exists c', checkin 1 5 c = Ok c').
Proof.
  set (c1 := snd (insert_and_checkout 1 5 (sample_source 1 5) (make 25))).
  set (c2 := snd (insert_and_checkout 1 6 (sample_source 1 6) c1)).
  set (c3 := snd (checkout 1 5 c2)).
  set (c4 := match checkin 1 6 c3 with Ok c => c | _ => c3 end).
  assert (Hid : id_ok 1) by (split; [discriminate|reflexivity]).
  assert (H5 : in_range 32 5) by (split; [discriminate|reflexivity]). assert (H6 : in_range 32 6) by (split; [discriminate|reflexivity]).
  assert (R : reach sample_source 25 [(1, 5); (1, 5)] c4).
  { apply (reach_step _ _ [(1, 5); (1, 6); (1, 5)] c3); [|exact (step_checkin sample_source 1 6 [(1, 5)] [(1, 5)] c3 c4 eq_refl)|reflexivity].
    apply (reach_step _ _ [(1, 6); (1, 5)] c2); [|exact (step_checkout sample_source 1 5 _ c2 _ c3 Hid H5 eq_refl)|reflexivity].
    apply (reach_step _ _ [(1, 5)] c1); [|exact (step_insert sample_source 1 6 _ c1 c2 Hid H6 eq_refl)|reflexivity].
    apply (reach_step _ _ [] (make 25)); [constructor|exact (step_insert sample_source 1 5 _ (make 25) c1 Hid H5 eq_refl)|reflexivity]. }
  exists c4. split; [exact R|]. split; [reflexivity|].
  destruct (block_cache_safe sample_source 25 _ c4 ltac:(split; [discriminate|reflexivity]) R) as (_ & H & _ & C).
  split; [|apply (C 1 5); now left]. rewrite (proj2 (H 1 5 ltac:(now left))). reflexivity.
Defined.

(** [insert_and_checkout] takes a block exactly when its key is new and the
    blocks that are pinned leave enough memory for it: entries nobody uses never
    stand in the way. *)
Theorem block_cache_insert source max held c id off b : in_range 64 max -> reach source max held c ->
  fst (insert_and_checkout id off b c) = true <->
  contains id off c = false /\ used (pinned (m_cache c)) + u32 (zlen b) <= max.
Proof.
  intros Hm Hr. pose proof (reach_inv source max Hm held c Hr) as I.
  destruct (insert_ok source max Hm held id off b c I) as (l & P & H). unfold contains.
  destruct (insert_and_checkout id off b c) as [[] c']; cbn [fst].
  - destruct H as (-> & H & _). tauto.
  - destruct H as (H & _). split; [discriminate|]. intros [E1 E2]. destruct H as [H|H]; [|lia].
    now destruct (lookup _ _).
Qed.

Lemma block_cache_insert_witness :
  fst (insert_and_checkout 1 5 (repeat 0 20) (make 25)) = true <->
  contains 1 5 (make 25) = false /\ used (pinned (m_cache (make 25))) + u32 (zlen (repeat 0 20)) <= 25.
Proof.
  apply (block_cache_insert sample_source 25 []); [split; [discriminate|reflexivity]|constructor].
Defined.

End FileBlockCache.
