(* ===== verification/CommitLog.v ===== *)
(** * The commit log

    [Hypertable/Lib/CommitLogBase.h], [CommitLog.{h,cc}],
    [CommitLogBlockStream.{h,cc}] and [CommitLogReader.{h,cc}]: a log is a directory
    of fragments, files named by a number, each a sequence of compressed blocks.
    The writer starts a new fragment when the current one is long enough; a block
    of another kind links a second log into the first; the reader goes through the
    fragments by number and into the linked logs; fragments whose blocks are old
    are purged.

    The file system is an argument: its calls may fail, and what is relied on when
    they do not is the class [DfsLaws].  The compression libraries are the argument
    [codec_of] of the reader, [CompressorFactory::create_block_codec]. *)
From S2P Require Import Prelude Errors Serialization Checksum ByteString Wire BlockCodec.
From Stdlib Require Import ZArith Lia List Bool.
Import ListNotations.
Open Scope Z_scope.
Open Scope result_scope.

(** ** The file system *)

(** [Hypertable/Lib/Filesystem.h], the calls the log makes.  Files are named by
    their paths; [dfs_contents] is what the file of a path holds.  Calls that change
    the file system give its new state also when they fail. *)
Class Dfs (F : Type) := {
  dfs_contents : F -> list Z -> option (list Z);
  dfs_isdir : F -> list Z -> Prop;
  dfs_readdir : list Z -> F -> result (list (list Z));
  dfs_length : list Z -> F -> result Z;
  dfs_open : list Z -> F -> result (list Z);
  dfs_mkdirs : list Z -> F -> result unit * F;
  dfs_create : list Z -> F -> result unit * F;
  dfs_append : list Z -> list Z -> F -> result unit * F;
  dfs_close : list Z -> F -> result unit * F;
  dfs_remove : list Z -> F -> result unit * F }.

(** A file and its new contents, the others as they were. *)
Definition replaced {F} `{Dfs F} (p : list Z) (c : option (list Z)) (f f' : F) : Prop :=
  dfs_contents f' p = c /\ forall q, q <> p -> dfs_contents f' q = dfs_contents f q.

(** The names in a directory [d], whose path ends in a slash, are those of its
    files and of its directories; the code of an exception is not that of success. *)
Class DfsLaws (F : Type) `{Dfs F} := {
  contents_small f p c : dfs_contents f p = Some c -> zlen c < 2 ^ 63;
  file_no_dir f p : dfs_contents f p <> None -> ~ dfs_isdir f (p ++ [47]);
  length_contents f p c : dfs_contents f p = Some c -> dfs_length p f = Ok (zlen c);
  open_contents f p c : dfs_contents f p = Some c -> dfs_open p f = Ok c;
  readdir_names d f names n : dfs_readdir d f = Ok names ->
    In n names <-> (dfs_contents f (d ++ n) <> None \/ dfs_isdir f (d ++ n ++ [47])) /\ n <> [] /\ ~ In 47 n;
  readdir_once d f names : dfs_readdir d f = Ok names -> NoDup names;
  create_code p f f' : dfs_create p f <> (Throw OK_, f');
  append_code p b f f' : dfs_append p b f <> (Throw OK_, f');
  close_code p f f' : dfs_close p f <> (Throw OK_, f');
  remove_code p f f' : dfs_remove p f <> (Throw OK_, f');
  mkdirs_same d f f' : dfs_mkdirs d f = (Ok tt, f') ->
    (forall q, dfs_contents f' q = dfs_contents f q) /\
    (forall q, dfs_isdir f' q -> dfs_isdir f q \/ exists r, d = q ++ r);
  create_empty p f f' : dfs_create p f = (Ok tt, f') ->
    replaced p (Some []) f f' /\ forall q, dfs_isdir f' q <-> dfs_isdir f q;
  append_adds p b f f' c : dfs_append p b f = (Ok tt, f') -> dfs_contents f p = Some c ->
    replaced p (Some (c ++ b)) f f' /\ forall q, dfs_isdir f' q <-> dfs_isdir f q;
  close_same p f f' : dfs_close p f = (Ok tt, f') ->
    (forall q, dfs_contents f' q = dfs_contents f q) /\ forall q, dfs_isdir f' q <-> dfs_isdir f q;
  remove_gone p f f' : dfs_remove p f = (Ok tt, f') ->
    replaced p None f f' /\ forall q, dfs_isdir f' q <-> dfs_isdir f q }.

(** ** [CommitLogBase] *)

(** [CommitLogBlockStream]: [bs_rest] are the bytes of the file behind the position
    of its descriptor. *)
Record CommitLogBlockStream := {
  bs_fname : list Z; bs_rest : list Z; bs_cur_offset : Z; bs_file_length : Z }.

Record CommitLogFileInfo := {
  fi_log_dir : list Z; fi_num : Z; fi_size : Z; fi_timestamp : Z; fi_purge_log_dir : bool;
  fi_block_stream : option CommitLogBlockStream }.

Record CommitLogBase := {
  lb_log_dir : list Z; lb_fragment_queue : list CommitLogFileInfo; lb_last_timestamp : Z }.

Definition with_queue (q : list CommitLogFileInfo) (b : CommitLogBase) : CommitLogBase :=
  {| lb_log_dir := lb_log_dir b; lb_fragment_queue := q; lb_last_timestamp := lb_last_timestamp b |}.
Definition with_last (ts : Z) (b : CommitLogBase) : CommitLogBase :=
  {| lb_log_dir := lb_log_dir b; lb_fragment_queue := lb_fragment_queue b; lb_last_timestamp := ts |}.

Definition stitch_in (other b : CommitLogBase) : CommitLogBase :=
  with_queue (lb_fragment_queue b ++ lb_fragment_queue other) b.

(** [FileUtils::add_trailing_slash] *)
Definition add_trailing_slash (path : list Z) : list Z := if last path 0 =? 47 then path else path ++ [47].

Definition MAGIC_DATA : list Z := [67; 79; 77; 77; 73; 84; 68; 65; 84; 65].
Definition MAGIC_LINK : list Z := [67; 79; 77; 77; 73; 84; 76; 73; 78; 75].

(** ** [CommitLog] *)

(** [m_fd]: zero, a descriptor that was closed, or an open one, of a path. *)
Inductive descriptor := Zero | Stale | Open_ (p : list Z).

Record CommitLog := {
  cl_base : CommitLogBase; cl_compressor : Compressor; cl_cur_fragment_length : Z; cl_cur_fragment_num : Z;
  cl_max_fragment_size : Z; cl_fd : descriptor }.

(** [String + uint32_t], which prints with ["%d"]. *)
Definition fragment_name (dir : list Z) (num : Z) : list Z := dir ++ decimal (i32 num).

Section Writer.
Context {F : Type} `{Dfs F}.

Definition fd_append (fd : descriptor) (b : list Z) (f : F) : result unit * F :=
  match fd with Open_ p => dfs_append p b f | _ => (Throw DFSBROKER_BAD_FILE_HANDLE, f) end.
Definition fd_close (fd : descriptor) (f : F) : result unit * F :=
  match fd with Open_ p => dfs_close p f | _ => (Throw DFSBROKER_BAD_FILE_HANDLE, f) end.

(** One past the largest of the numbers. *)
Definition one_past (nums : list Z) : Z :=
  fold_left (fun cur num => if cur <=? num then u32 (num + 1) else cur) nums 0.

Definition initialize (z : Compressor) (max_fragment_size : Z) (log_dir : list Z) (init_log : option CommitLogBase)
    (f : F) : result CommitLog * F :=
  let dir := add_trailing_slash log_dir in
  let nums := match init_log with
              | Some other => Ok (map fi_num (lb_fragment_queue other))
              | None => listing <- dfs_readdir dir f ;; Ok (map (fun name => u32 (c_atoi name)) listing)
              end in
  match nums with
  | Throw c => (Throw c, f)
  | Fault => (Fault, f)
  | Ok nums =>
      let num := one_past nums in
      let '(r, f) := dfs_mkdirs dir f in
      match r with
      | Throw c => (Throw c, f)
      | Fault => (Fault, f)
      | Ok _ =>
          let '(r, f) := dfs_create (fragment_name dir num) f in
          (_ <- r ;;
           Ok {| cl_base := {| lb_log_dir := dir;
                               lb_fragment_queue := match init_log with Some o => lb_fragment_queue o | None => [] end;
                               lb_last_timestamp := 0 |};
                 cl_compressor := z; cl_cur_fragment_length := 0; cl_cur_fragment_num := num;
                 cl_max_fragment_size := max_fragment_size; cl_fd := Open_ (fragment_name dir num) |}, f)
      end
  end.

(** The operations return an error code; [catch (Exception &e) { ... return e.code(); }]. *)
Definition returned : Type := result Code * CommitLog * F.
Definition catching (r : result unit * F) (cl : CommitLog) (k : F -> returned) : returned :=
  match r with
  | (Ok _, f) => k f
  | (Throw c, f) => (Ok c, cl, f)
  | (Fault, f) => (Fault, cl, f)
  end.

(** [if ((error = ...) != Error::OK) return error;] *)
Definition and_then (r : returned) (k : CommitLog -> F -> returned) : returned :=
  match r with
  | (Ok OK_, cl, f) => k cl f
  | r => r
  end.

Definition with_fd (fd : descriptor) (cl : CommitLog) : CommitLog :=
  {| cl_base := cl_base cl; cl_compressor := cl_compressor cl; cl_cur_fragment_length := cl_cur_fragment_length cl;
     cl_cur_fragment_num := cl_cur_fragment_num cl; cl_max_fragment_size := cl_max_fragment_size cl; cl_fd := fd |}.
Definition with_base (b : CommitLogBase) (cl : CommitLog) : CommitLog :=
  {| cl_base := b; cl_compressor := cl_compressor cl; cl_cur_fragment_length := cl_cur_fragment_length cl;
     cl_cur_fragment_num := cl_cur_fragment_num cl; cl_max_fragment_size := cl_max_fragment_size cl; cl_fd := cl_fd cl |}.

Definition fragment_info (cl : CommitLog) : CommitLogFileInfo :=
  {| fi_log_dir := lb_log_dir (cl_base cl); fi_num := cl_cur_fragment_num cl; fi_size := u64 (cl_cur_fragment_length cl);
     fi_timestamp := lb_last_timestamp (cl_base cl); fi_purge_log_dir := false; fi_block_stream := None |}.

Definition roll (cl : CommitLog) (f : F) : returned :=
  if lb_last_timestamp (cl_base cl) =? 0 then (Ok OK_, cl, f)
  else
    catching (fd_close (cl_fd cl) f) cl (fun f =>
      let num := u32 (cl_cur_fragment_num cl + 1) in
      let cl := {| cl_base := with_last 0 (with_queue (lb_fragment_queue (cl_base cl) ++ [fragment_info cl]) (cl_base cl));
                   cl_compressor := cl_compressor cl; cl_cur_fragment_length := 0; cl_cur_fragment_num := num;
                   cl_max_fragment_size := cl_max_fragment_size cl; cl_fd := Stale |} in
      let name := fragment_name (lb_log_dir (cl_base cl)) num in
      catching (dfs_create name f) cl (fun f => (Ok OK_, with_fd (Open_ name) cl, f))).

(** The block is in the file: [assert(timestamp != 0)], then the time and the
    length. *)
Definition written (timestamp amount : Z) (cl : CommitLog) (f : F) : returned :=
  if timestamp =? 0 then (Fault, cl, f)
  else (Ok OK_, {| cl_base := with_last timestamp (cl_base cl); cl_compressor := cl_compressor cl;
                   cl_cur_fragment_length := i64 (cl_cur_fragment_length cl + amount);
                   cl_cur_fragment_num := cl_cur_fragment_num cl; cl_max_fragment_size := cl_max_fragment_size cl;
                   cl_fd := cl_fd cl |}, f).

Definition compress_and_write (input : list Z) (header : BlockHeader) (timestamp : Z) (cl : CommitLog) (f : F) : returned :=
  match deflate (cl_compressor cl) input header with
  | Throw c => (Ok c, cl, f)
  | Fault => (Fault, cl, f)
  | Ok (zblock, _) =>
      catching (fd_append (cl_fd cl) zblock f) cl (fun f => written timestamp (zlen zblock) cl f)
  end.

Definition write (buffer : list Z) (timestamp : Z) (cl : CommitLog) (f : F) : returned :=
  and_then (compress_and_write buffer (BlockHeaderCommitLog_make MAGIC_DATA timestamp) timestamp cl f) (fun cl f =>
    if cl_max_fragment_size cl <? cl_cur_fragment_length cl then roll cl f else (Ok OK_, cl, f)).

(** A link: a header, and the directory with its NUL. *)
Definition link_block (log_dir : list Z) (timestamp : Z) : result (list Z) :=
  let payload := log_dir ++ [0] in
  checksum <- fletcher32 payload (length payload) ;;
  h <- BlockHeader_encode
         (set_data NONE (zlen payload) (zlen payload) checksum (BlockHeaderCommitLog_make MAGIC_LINK timestamp)) ;;
  Ok (h ++ payload).

Definition link_log (log_base : CommitLogBase) (timestamp : Z) (cl : CommitLog) (f : F) : returned :=
  match link_block (lb_log_dir log_base) timestamp with
  | Throw c => (Throw c, cl, f)
  | Fault => (Fault, cl, f)
  | Ok input =>
      catching (fd_append (cl_fd cl) input f) cl (fun f =>
        and_then (written timestamp (zlen input) cl f) (fun cl f =>
          and_then (roll cl f) (fun cl f =>
            (Ok OK_, with_base (stitch_in log_base (cl_base cl)) cl, f))))
  end.

Definition close (cl : CommitLog) (f : F) : returned :=
  match cl_fd cl with
  | Zero => (Ok OK_, cl, f)
  | fd => catching (fd_close fd f) cl (fun f => (Ok OK_, with_fd Zero cl, f))
  end.

Fixpoint purge_queue (timestamp : Z) (q : list CommitLogFileInfo) (f : F) : result Code * list CommitLogFileInfo * F :=
  match q with
  | [] => (Ok OK_, [], f)
  | file_info :: q' =>
      if fi_timestamp file_info <? timestamp then
        match dfs_remove (fragment_name (fi_log_dir file_info) (fi_num file_info)) f with
        | (Ok _, f) => purge_queue timestamp q' f
        | (Throw c, f) => (Ok c, q, f)
        | (Fault, f) => (Fault, q, f)
        end
      else (Ok OK_, q, f)
  end.

Definition purge (timestamp : Z) (cl : CommitLog) (f : F) : returned :=
  let '(r, q, f) := purge_queue timestamp (lb_fragment_queue (cl_base cl)) f in
  (r, with_base (with_queue q (cl_base cl)) cl, f).

(** [LogFragmentPriorityMap]: from timestamps to distances and sizes. *)
Definition priority_map : Type := list (Z * (Z * Z)).
Definition assign (k : Z) (v : Z * Z) (m : priority_map) : priority_map :=
  (k, v) :: filter (fun kv => negb (fst kv =? k)) m.

Fixpoint prioritize (infos : list CommitLogFileInfo) (distance total : Z) (m : priority_map) : priority_map :=
  match infos with
  | [] => m
  | i :: infos =>
      let total := u64 (total + fi_size i) in
      prioritize infos (u32 (distance + 1)) total (assign (fi_timestamp i) (distance, total) m)
  end.

Definition load_fragment_priority_map (cl : CommitLog) (m : priority_map) : priority_map :=
  let total := u64 (cl_cur_fragment_length cl) in
  let ts := lb_last_timestamp (cl_base cl) in
  let infos := rev (lb_fragment_queue (cl_base cl)) in
  if ts =? 0 then prioritize infos 0 total m else prioritize infos 1 total (assign ts (0, total) m).

End Writer.

(** ** [CommitLogBlockStream] *)

(** [block_ptr] and [block_len]: no block when the pointer is zero. *)
Record CommitLogBlockInfo := {
  bi_block : option (list Z); bi_start_offset : Z; bi_end_offset : Z; bi_error : Code }.

Section Reader.
Context {F : Type} `{Dfs F}.
(** [Logger::logger->isFatalEnabled()]: a failed [HT_EXPECT] with the code
    [FAILED_EXPECTATION] ends the process then, and is an exception otherwise. *)
Variable fatal : bool.
Variable codec_of : Z -> result Compressor.
Variable f : F.

Definition load (log_dir fragment : list Z) : result CommitLogBlockStream :=
  let fname := log_dir ++ fragment in
  len <- dfs_length fname f ;;
  data <- dfs_open fname f ;;
  Ok {| bs_fname := fname; bs_rest := data; bs_cur_offset := 0; bs_file_length := len |}.

Definition LENGTH : Z := 34.

(** The header object after a [decode] that failed: as it was when the checksum
    was wrong, with the magic of the block otherwise. *)
Definition half_decoded (chunk : list Z) (header : BlockHeader) : BlockHeader :=
  match check_header true {| ip := chunk; remain := LENGTH |} with
  | Ok _ => {| bh_magic := firstn 10 chunk; bh_data_length := bh_data_length header;
               bh_data_zlength := bh_data_zlength header; bh_data_checksum := bh_data_checksum header;
               bh_compression_type := bh_compression_type header; bh_timestamp := bh_timestamp header |}
  | _ => header
  end.

(** The bytes read stay at the front of the block buffer. *)
Definition load_next_valid_header (s : CommitLogBlockStream) (header : BlockHeader)
    : result (Code * list Z * CommitLogBlockStream * BlockHeader) :=
  let chunk := firstn (Z.to_nat LENGTH) (bs_rest s) in
  let s := {| bs_fname := bs_fname s; bs_rest := skipn (Z.to_nat LENGTH) (bs_rest s);
              bs_cur_offset := bs_cur_offset s; bs_file_length := bs_file_length s |} in
  if negb (zlen chunk =? LENGTH) then if fatal then Fault else Ok (FAILED_EXPECTATION, chunk, s, header)
  else
    match BlockHeader_decode true {| ip := chunk; remain := LENGTH |} with
    | Ok (header, _) => Ok (OK_, chunk, s, header)
    | Throw c => Ok (c, chunk, s, half_decoded chunk header)
    | Fault => Fault
    end.

(** [CommitLogBlockStream::next]; [None] is its answer [false]. *)
Definition stream_next (s : CommitLogBlockStream) (header : BlockHeader)
    : result (option CommitLogBlockInfo * CommitLogBlockStream * BlockHeader) :=
  if bs_file_length s <=? bs_cur_offset s then Ok (None, s, header)
  else
    let start := bs_cur_offset s in
    '(error, chunk, s, header) <- load_next_valid_header s header ;;
    match error with
    | OK_ =>
        let cur := bs_cur_offset s + LENGTH in
        if u64 (bs_file_length s - cur) <? bh_data_zlength header then
          Ok (Some {| bi_block := None; bi_start_offset := start; bi_end_offset := bs_file_length s;
                      bi_error := RANGESERVER_TRUNCATED_COMMIT_LOG |},
              {| bs_fname := bs_fname s; bs_rest := bs_rest s; bs_cur_offset := bs_file_length s;
                 bs_file_length := bs_file_length s |}, header)
        else
          let n := Z.to_nat (bh_data_zlength header) in
          let data := firstn n (bs_rest s) in
          if negb (zlen data =? bh_data_zlength header) then if fatal then Fault else Throw FAILED_EXPECTATION
          else
            let cur := cur + bh_data_zlength header in
            Ok (Some {| bi_block := Some (chunk ++ data); bi_start_offset := start; bi_end_offset := cur; bi_error := OK_ |},
                {| bs_fname := bs_fname s; bs_rest := skipn n (bs_rest s); bs_cur_offset := cur;
                   bs_file_length := bs_file_length s |}, header)
    | _ => Ok (Some {| bi_block := None; bi_start_offset := start; bi_end_offset := bs_cur_offset s; bi_error := error |},
               s, header)
    end.

(** ** [CommitLogReader] *)

(** The head of [cr_stack] is its top. *)
Record CommitLogReader := { cr_base : CommitLogBase; cr_stack : list CommitLogFileInfo }.

Definition with_stream (s : option CommitLogBlockStream) (i : CommitLogFileInfo) : CommitLogFileInfo :=
  {| fi_log_dir := fi_log_dir i; fi_num := fi_num i; fi_size := fi_size i; fi_timestamp := fi_timestamp i;
     fi_purge_log_dir := fi_purge_log_dir i; fi_block_stream := s |}.
Definition with_timestamp (ts : Z) (i : CommitLogFileInfo) : CommitLogFileInfo :=
  {| fi_log_dir := fi_log_dir i; fi_num := fi_num i; fi_size := fi_size i; fi_timestamp := ts;
     fi_purge_log_dir := fi_purge_log_dir i; fi_block_stream := fi_block_stream i |}.
Definition purging (i : CommitLogFileInfo) : CommitLogFileInfo :=
  {| fi_log_dir := fi_log_dir i; fi_num := fi_num i; fi_size := fi_size i; fi_timestamp := fi_timestamp i;
     fi_purge_log_dir := true; fi_block_stream := fi_block_stream i |}.

(** The files that are fragments: a number for a name, and not empty. *)
Fixpoint fragments (log_dir : list Z) (listing : list (list Z)) : result (list CommitLogFileInfo) :=
  match listing with
  | [] => Ok []
  | name :: listing =>
      let '(num, endptr) := strtol name in
      match endptr with
      | [] =>
          size <- dfs_length (log_dir ++ name) f ;;
          l <- fragments log_dir listing ;;
          Ok (if 0 <? size then {| fi_log_dir := log_dir; fi_num := u32 num; fi_size := u64 size; fi_timestamp := 0;
                                   fi_purge_log_dir := false; fi_block_stream := None |} :: l else l)
      | _ => fragments log_dir listing
      end
  end.

(** [sort] with [reverse_sort_clfi], which is not a strict order: [std::sort] is
    undefined on two fragments with the same number. *)
Fixpoint insert_fragment (i : CommitLogFileInfo) (l : list CommitLogFileInfo) : list CommitLogFileInfo :=
  match l with
  | [] => [i]
  | j :: l' => if fi_num j <=? fi_num i then i :: l else j :: insert_fragment i l'
  end.
Fixpoint distinct (nums : list Z) : bool :=
  match nums with [] => true | n :: nums => negb (existsb (Z.eqb n) nums) && distinct nums end.
Definition sort_fragments (l : list CommitLogFileInfo) : result (list CommitLogFileInfo) :=
  if distinct (map fi_num l) then Ok (fold_right insert_fragment [] l) else Fault.

Definition load_fragments (log_dir : list Z) (r : CommitLogReader) : result CommitLogReader :=
  let log_dir := add_trailing_slash log_dir in
  listing <- dfs_readdir log_dir f ;;
  l <- fragments log_dir listing ;;
  l <- sort_fragments l ;;
  match l with
  | [] => Ok r
  | newest :: l => Ok {| cr_base := cr_base r; cr_stack := rev (purging newest :: l) ++ cr_stack r |}
  end.

Definition CommitLogReader_make (log_dir : list Z) : result CommitLogReader :=
  load_fragments log_dir
    {| cr_base := {| lb_log_dir := log_dir; lb_fragment_queue := []; lb_last_timestamp := 0 |}; cr_stack := [] |}.

(** One round of [next_raw_block]: no fragment is left, a block, or [goto try_again]. *)
Inductive round := Finished | Block (info : CommitLogBlockInfo) | Again.

Definition open_stream (top : CommitLogFileInfo) : result CommitLogBlockStream :=
  match fi_block_stream top with
  | Some s => Ok s
  | None => load (fi_log_dir top) (dec_digits 10 (fi_num top))
  end.

Definition raw_step (r : CommitLogReader) (header : BlockHeader) : result (round * CommitLogReader * BlockHeader) :=
  match cr_stack r with
  | [] => Ok (Finished, r, header)
  | top :: rest =>
      s <- open_stream top ;;
      '(info, s, header) <- stream_next s header ;;
      match info with
      | None =>
          let done := with_timestamp (lb_last_timestamp (cr_base r)) (with_stream None top) in
          Ok (Again, {| cr_base := with_queue (lb_fragment_queue (cr_base r) ++ [done]) (cr_base r); cr_stack := rest |}, header)
      | Some info =>
          let r := {| cr_base := cr_base r; cr_stack := with_stream (Some s) top :: rest |} in
          if check_magic MAGIC_LINK header then
            if negb (bh_compression_type header =? NONE) then Fault
            else match bi_block info with
                 | None => Fault
                 | Some block =>
                     match cstr (skipn (Z.to_nat LENGTH) block) with
                     | None => Fault
                     | Some log_dir => r <- load_fragments log_dir r ;; Ok (Again, r, header)
                     end
                 end
          else Ok (Block info, r, header)
      end
  end.

(** Loops are given a bound on their rounds, and [None] is that it was reached. *)
Fixpoint next_raw_block (fuel : nat) (r : CommitLogReader) (header : BlockHeader)
    : option (result (option CommitLogBlockInfo * CommitLogReader * BlockHeader)) :=
  match fuel with
  | O => None
  | S fuel =>
      match raw_step r header with
      | Ok (Again, r, header) => next_raw_block fuel r header
      | Ok (Finished, r, header) => Some (Ok (None, r, header))
      | Ok (Block info, r, header) => Some (Ok (Some info, r, header))
      | Throw c => Some (Throw c)
      | Fault => Some Fault
      end
  end.

(** The codec of a type; those that were made are kept in a map, which makes no
    difference as they have no state. *)
Definition load_compressor (ztype : Z) : result Compressor :=
  if COMPRESSION_TYPE_LIMIT <=? ztype then Throw BLOCK_COMPRESSOR_UNSUPPORTED_TYPE else codec_of ztype.

(** The data of a block.  [zblock] points at the buffer of the block stream and
    frees it when an exception leaves the scope; the loop that goes on then reads
    into that buffer or frees it again, so that an exception here is a fault. *)
Definition inflate_block (block : option (list Z)) (header : BlockHeader) : result (list Z * BlockHeader) :=
  match block with
  | None => Fault
  | Some block =>
      match (z <- load_compressor (bh_compression_type header) ;; inflate z true block) with
      | Ok out => Ok out
      | _ => Fault
      end
  end.

Definition timestamp_of (h : BlockHeader) : Z := match bh_timestamp h with Some t => t | None => 0 end.

(** [next]: the data of the next block; [None] is its answer [false]. *)
Fixpoint next (fuel : nat) (r : CommitLogReader) (header : BlockHeader)
    : option (result (option (list Z) * CommitLogReader * BlockHeader)) :=
  match fuel with
  | O => None
  | S fuel =>
      match next_raw_block fuel r header with
      | None => None
      | Some Fault => Some Fault
      | Some (Throw c) => Some (Throw c)
      | Some (Ok (None, r, header)) => Some (Ok (None, r, header))
      | Some (Ok (Some info, r, header)) =>
          match bi_error info with
          | OK_ => Some ('(data, header) <- inflate_block (bi_block info) header ;;
                         Ok (Some data, {| cr_base := with_last (timestamp_of header) (cr_base r); cr_stack := cr_stack r |}, header))
          | _ => next fuel {| cr_base := cr_base r; cr_stack := tl (cr_stack r) |} header
          end
      end
  end.

(** [while (log_reader->next(&base, &len, &header)) ...], as in
    [RangeServer::replay_log]: the timestamps and the data of the blocks, and the
    reader at the end. *)
Fixpoint read_all (fuel : nat) (r : CommitLogReader) (header : BlockHeader)
    : option (result (list (Z * list Z) * CommitLogReader)) :=
  match fuel with
  | O => None
  | S fuel =>
      match next fuel r header with
      | None => None
      | Some Fault => Some Fault
      | Some (Throw c) => Some (Throw c)
      | Some (Ok (None, r, _)) => Some (Ok ([], r))
      | Some (Ok (Some data, r, header)) =>
          match read_all fuel r header with
          | None => None
          | Some x => Some ('(l, r) <- x ;; Ok ((timestamp_of header, data) :: l, r))
          end
      end
  end.

(** The caller's header object is passed on from block to block. *)
Definition read_log (fuel : nat) (log_dir : list Z) (header : BlockHeader)
    : option (result (list (Z * list Z) * CommitLogReader)) :=
  match CommitLogReader_make log_dir with
  | Ok r => read_all fuel r header
  | Throw c => Some (Throw c)
  | Fault => Some Fault
  end.

End Reader.
