(* ===== verification/CommitLogRuns.v ===== *)
(** * Reading back a commit log

    What the writer of [CommitLog.v] leaves in the file system and what the reader
    makes of it: blocks in their order, across fragments and through links. *)
From S2P Require Import Prelude Errors Serialization Checksum ByteString Wire BlockCodec CommitLog.
From Stdlib Require Import ZArith Lia List Bool Sorted Permutation.
Import ListNotations.
Open Scope Z_scope.
Open Scope result_scope.

(** What is relied on of the compression libraries: the factory gives the codec of
    the type asked for, and no codec loses data. *)
Class Codecs (codec_of : Z -> result Compressor) := {
  codec_lossless t z : codec_of t = Ok z -> Lossless z;
  codec_type t z : codec_of t = Ok z -> z_type z = t;
  codec_plain : exists z, codec_of NONE = Ok z }.

(** ** Blocks of a stream *)

Definition block (h : BlockHeader) (payload : list Z) : list Z := header_fields h ++ encode_i16 (header_sum h) ++ payload.

Record log_header (h : BlockHeader) (payload : list Z) : Prop := {
  lh_wf : wf_header h;
  lh_log : is_log h = true;
  lh_zlength : bh_data_zlength h = zlen payload }.

Definition front (h : BlockHeader) : list Z := header_fields h ++ encode_i16 (header_sum h).

Lemma block_front h payload : block h payload = front h ++ payload.
Proof. unfold block, front. now rewrite app_assoc. Qed.

Lemma front_length h : wf_header h -> is_log h = true -> length (front h) = 34%nat.
Proof.
  intros W L. destruct (header_fields_wf h W) as [_ Hf]. rewrite L in Hf. cbn in Hf. unfold front, encode_i16.
  rewrite length_app, length_le_bytes. unfold zlen in Hf. lia.
Qed.

Lemma front_decode h : wf_header h -> is_log h = true ->
  BlockHeader_decode true {| ip := front h; remain := LENGTH |} = Ok (h, {| ip := []; remain := 0 |}).
Proof.
  intros W L. pose proof (BlockHeader_decode_ok h [] LENGTH W) as D. rewrite L in D. rewrite app_nil_r in D.
  apply D. reflexivity.
Qed.

(** A stream whose descriptor is at its offset. *)
Record sound (s : CommitLogBlockStream) : Prop := {
  sound_rest : bs_file_length s - bs_cur_offset s = zlen (bs_rest s);
  sound_offset : 0 <= bs_cur_offset s;
  sound_length : bs_file_length s < 2 ^ 63 }.

Definition past (n : Z) (s : CommitLogBlockStream) : CommitLogBlockStream :=
  {| bs_fname := bs_fname s; bs_rest := skipn (Z.to_nat n) (bs_rest s); bs_cur_offset := bs_cur_offset s + n;
     bs_file_length := bs_file_length s |}.

Lemma past_sound n s : sound s -> 0 <= n <= zlen (bs_rest s) -> sound (past n s).
Proof.
  intros [H1 H2 H3] Hn. split; cbn [past bs_file_length bs_cur_offset bs_rest]; try lia.
  unfold zlen in *. rewrite length_skipn. lia.
Qed.

Section Streams.
Variable fatal : bool.

Lemma stream_next_end s h : sound s -> bs_rest s = [] -> stream_next fatal s h = Ok (None, s, h).
Proof.
  intros [H1 H2 H3] E. rewrite E in H1. unfold stream_next. change (zlen (@nil Z)) with 0 in H1.
  now rewrite (proj2 (Z.leb_le _ _)) by lia.
Qed.

(** The header of a block is read. *)
Lemma header_read h tail s h0 : wf_header h -> is_log h = true -> bs_rest s = front h ++ tail ->
  load_next_valid_header fatal s h0 =
  Ok (OK_, front h, {| bs_fname := bs_fname s; bs_rest := tail; bs_cur_offset := bs_cur_offset s;
                       bs_file_length := bs_file_length s |}, h).
Proof.
  intros W L E. pose proof (front_length h W L) as Hl. unfold load_next_valid_header. rewrite E.
  change (Z.to_nat LENGTH) with 34%nat. rewrite <- Hl, firstn_app_exact, skipn_app_exact.
  unfold zlen at 1. rewrite Hl. cbn [negb Z.of_nat]. change (Z.of_nat 34 =? LENGTH) with true. cbn [negb].
  now rewrite front_decode.
Qed.

Definition block_info (b : list Z) (s : CommitLogBlockStream) : CommitLogBlockInfo :=
  {| bi_block := Some b; bi_start_offset := bs_cur_offset s; bi_end_offset := bs_cur_offset s + zlen b; bi_error := OK_ |}.

Lemma stream_next_block h payload tail s h0 : log_header h payload -> sound s -> bs_rest s = block h payload ++ tail ->
  stream_next fatal s h0 = Ok (Some (block_info (block h payload) s), past (zlen (block h payload)) s, h).
Proof.
  intros [W L Z0] [S1 S2 S3] E. pose proof (front_length h W L) as Hl. rewrite block_front in *. rewrite <- app_assoc in E.
  assert (Hz : zlen (front h ++ payload) = 34 + zlen payload) by (rewrite zlen_app; unfold zlen at 1; lia).
  assert (Hr : zlen (bs_rest s) = 34 + zlen payload + zlen tail) by (rewrite E, app_assoc, zlen_app; lia).
  pose proof (zlen_nonneg payload). pose proof (zlen_nonneg tail).
  unfold stream_next. rewrite (proj2 (Z.leb_gt _ _)) by lia. rewrite (header_read h (payload ++ tail)) by assumption.
  cbn [bind bs_file_length bs_cur_offset bs_rest bs_fname]. rewrite Z0. change LENGTH with 34.
  rewrite (proj2 (Z.ltb_ge _ _)) by (rewrite wrap_small by (unfold in_range; lia); lia).
  rewrite <- (zlen_to_nat payload _ eq_refl), firstn_app_exact, skipn_app_exact, Z.eqb_refl. cbn [negb].
  unfold block_info, past. rewrite E, app_assoc, <- (zlen_to_nat (front h ++ payload) _ eq_refl), skipn_app_exact, Hz.
  now rewrite Z.add_assoc.
Qed.

(** A block cut off in its data. *)
Lemma stream_next_cut h payload cut s h0 : log_header h payload -> sound s -> bs_rest s = front h ++ cut ->
  zlen cut < zlen payload ->
  exists i s', stream_next fatal s h0 = Ok (Some i, s', h) /\ bi_error i = RANGESERVER_TRUNCATED_COMMIT_LOG /\ bi_block i = None.
Proof.
  intros [W L Z0] [S1 S2 S3] E Hc. pose proof (front_length h W L) as Hl.
  assert (Hr : zlen (bs_rest s) = 34 + zlen cut) by (rewrite E, zlen_app; unfold zlen at 1; lia).
  pose proof (zlen_nonneg cut). unfold stream_next. rewrite (proj2 (Z.leb_gt _ _)) by lia.
  rewrite (header_read h cut) by assumption. cbn [bind bs_file_length bs_cur_offset]. rewrite Z0. change LENGTH with 34.
  rewrite (proj2 (Z.ltb_lt _ _)) by (rewrite wrap_small by (unfold in_range; lia); lia). eexists _, _. split; [reflexivity|].
  split; reflexivity.
Qed.

(** A header cut off. *)
Lemma stream_next_torn s h0 : sound s -> 0 < zlen (bs_rest s) < 34 ->
  if fatal then stream_next fatal s h0 = Fault
  else exists i s', stream_next fatal s h0 = Ok (Some i, s', h0) /\ bi_error i = FAILED_EXPECTATION /\ bi_block i = None.
Proof.
  intros [S1 S2 S3] Hr. unfold stream_next. rewrite (proj2 (Z.leb_gt _ _)) by lia. unfold load_next_valid_header.
  rewrite firstn_all2 by (unfold zlen in Hr; change (Z.to_nat LENGTH) with 34%nat; lia).
  rewrite (proj2 (Z.eqb_neq _ _)) by (change LENGTH with 34; lia). cbn [negb].
  destruct fatal; [reflexivity|]. cbn [bind]. eexists _, _. split; [reflexivity|]. split; reflexivity.
Qed.

End Streams.

(** ** Lists *)

Lemma flat_map_nil {A B} (g : A -> list B) l : (forall x, In x l -> g x = []) -> flat_map g l = [].
Proof. induction l as [|x l IH]; intros H; [reflexivity|]. cbn. rewrite H by now left. apply IH. intros y Hy. apply H. now right. Qed.

(** Only the elements of [m] count. *)
Lemma flat_map_subset {A B} (eq_dec : forall x y : A, {x = y} + {x <> y}) (g : A -> list B) l m :
  NoDup l -> NoDup m -> incl m l -> (forall x, In x l -> ~ In x m -> g x = []) ->
  Permutation (flat_map g l) (flat_map g m).
Proof.
  intros Hl Hm Hi Hn. set (p := fun x => if in_dec eq_dec x m then true else false).
  assert (Hp : forall x, p x = true <-> In x m) by (intros x; unfold p; destruct (in_dec eq_dec x m); split; congruence || auto).
  transitivity (flat_map g (filter p l ++ filter (fun x => negb (p x)) l)).
  - apply Permutation_flat_map. clear. induction l as [|x l IH]; [constructor|]. cbn. destruct (p x); cbn.
    + now constructor.
    + now apply Permutation_cons_app.
  - rewrite flat_map_app, (flat_map_nil g (filter (fun x => negb (p x)) l)), app_nil_r.
    + apply Permutation_flat_map, NoDup_Permutation; [now apply NoDup_filter|assumption|].
      intros x. rewrite filter_In, Hp. split; [tauto|]. auto.
    + intros x Hx. apply filter_In in Hx as [Hx Hx']. apply Hn; [assumption|]. rewrite <- Hp. destruct (p x); [discriminate|congruence].
Qed.

(** ** Entries *)

Inductive entry := Data (ts : Z) (buf : list Z) | Link (ts : Z) (dir : list Z).

Definition entry_ts (e : entry) : Z := match e with Data ts _ | Link ts _ => ts end.
Definition data_of (es : list entry) : list (Z * list Z) :=
  flat_map (fun e => match e with Data ts buf => [(ts, buf)] | Link _ _ => [] end) es.

Section Entries.
Variable codec_of : Z -> result Compressor.

(** A header and data that are an entry. *)
Definition entry_is (e : entry) (h : BlockHeader) (payload : list Z) : Prop :=
  log_header h payload /\ bh_timestamp h = Some (entry_ts e) /\
  match e with
  | Data ts buf =>
      bh_magic h = MAGIC_DATA /\ exists z, codec_of (bh_compression_type h) = Ok z /\ inflate z true (block h payload) = Ok (buf, h)
  | Link ts dir => bh_magic h = MAGIC_LINK /\ bh_compression_type h = NONE /\ no_nul dir /\ payload = dir ++ [0]
  end.
Definition entry_block (e : entry) (b : list Z) : Prop := exists h payload, b = block h payload /\ entry_is e h payload.

(** The contents of a fragment. *)
Inductive encodes : list entry -> list Z -> Prop :=
| encodes_nil : encodes [] []
| encodes_cons e b es c : entry_block e b -> encodes es c -> encodes (e :: es) (b ++ c).

Lemma encodes_snoc es c e b : encodes es c -> entry_block e b -> encodes (es ++ [e]) (c ++ b).
Proof.
  intros H He. induction H as [|e' b' es c H1 H2 IH]; cbn [app].
  - rewrite <- (app_nil_r b). repeat constructor. assumption.
  - rewrite <- app_assoc. now constructor.
Qed.

Lemma entry_block_length e b : entry_block e b -> 34 <= zlen b.
Proof.
  intros (h & p & -> & [[W L _] _]). rewrite block_front, zlen_app. pose proof (zlen_nonneg p).
  unfold zlen at 1. rewrite front_length by assumption. lia.
Qed.

Lemma encodes_empty es c : encodes es c -> (0 <? zlen c) = negb (match es with [] => true | _ => false end).
Proof.
  intros H. destruct H as [|e b es c He _]; [reflexivity|]. cbn [negb]. apply Z.ltb_lt. rewrite zlen_app.
  pose proof (entry_block_length e b He). pose proof (zlen_nonneg c). lia.
Qed.

End Entries.

(** ** Runs of the reader *)

Section Reading.
Context {F : Type} {DO : Dfs F} {DL : DfsLaws F}.
Variable fatal : bool.
Variable codec_of : Z -> result Compressor.
Variable f : F.

Abbreviation encodes := (encodes codec_of).
Abbreviation entry_block := (entry_block codec_of).
Abbreviation raw_step := (raw_step fatal f).
Abbreviation next_raw_block := (next_raw_block fatal f).
Abbreviation next := (next fatal codec_of f).
Abbreviation read_all := (read_all fatal codec_of f).

Lemma raw_mono n : forall r h v, next_raw_block n r h = Some v -> next_raw_block (S n) r h = Some v.
Proof.
  induction n as [|n IH]; intros r h v E; [discriminate|]. cbn [CommitLog.next_raw_block] in *.
  destruct (raw_step r h) as [[[[|i|] r'] h']| |]; auto.
Qed.

Lemma next_unfold n r h : next (S n) r h =
  match next_raw_block n r h with
  | None => None
  | Some Fault => Some Fault
  | Some (Throw c) => Some (Throw c)
  | Some (Ok (None, r, h)) => Some (Ok (None, r, h))
  | Some (Ok (Some info, r, h)) =>
      match bi_error info with
      | OK_ => Some ('(data, h) <- inflate_block codec_of (bi_block info) h ;;
                     Ok (Some data, {| cr_base := with_last (timestamp_of h) (cr_base r); cr_stack := cr_stack r |}, h))
      | _ => next n {| cr_base := cr_base r; cr_stack := tl (cr_stack r) |} h
      end
  end.
Proof. reflexivity. Qed.

Lemma read_unfold n r h : read_all (S n) r h =
  match next n r h with
  | None => None
  | Some Fault => Some Fault
  | Some (Throw c) => Some (Throw c)
  | Some (Ok (None, r, _)) => Some (Ok ([], r))
  | Some (Ok (Some data, r, h)) =>
      match read_all n r h with
      | None => None
      | Some x => Some ('(l, r) <- x ;; Ok ((timestamp_of h, data) :: l, r))
      end
  end.
Proof. reflexivity. Qed.

Lemma next_mono n : forall r h v, next n r h = Some v -> next (S n) r h = Some v.
Proof.
  induction n as [|n IH]; intros r h v E; [discriminate|]. rewrite next_unfold in *.
  destruct (next_raw_block n r h) as [w|] eqn:En; [|discriminate]. rewrite (raw_mono _ _ _ _ En).
  destruct w as [[[[i|] r'] h']| |]; try exact E. destruct (bi_error i); try exact E; now apply IH.
Qed.

Lemma read_mono n : forall r h v, read_all n r h = Some v -> read_all (S n) r h = Some v.
Proof.
  induction n as [|n IH]; intros r h v E; [discriminate|]. rewrite read_unfold in *.
  destruct (next n r h) as [w|] eqn:En; [|discriminate]. rewrite (next_mono _ _ _ _ En).
  destruct w as [[[[d|] r'] h']| |]; try exact E.
  destruct (read_all n r' h') as [x|] eqn:Er; [|discriminate]. now rewrite (IH _ _ _ Er).
Qed.

Lemma read_more n m r h v : (n <= m)%nat -> read_all n r h = Some v -> read_all m r h = Some v.
Proof. induction 1; intros E; [exact E|]. apply read_mono. auto. Qed.

(** Reading from a state ends with [v]. *)
Definition reads (r : CommitLogReader) (h : BlockHeader) (v : result (list (Z * list Z) * CommitLogReader)) : Prop :=
  exists n, read_all n r h = Some v.

Lemma next_again n r h r1 h1 v : raw_step r h = Ok (Again, r1, h1) -> next n r1 h1 = Some v -> next (S n) r h = Some v.
Proof.
  intros E Hn. destruct n as [|n]; [discriminate|]. rewrite next_unfold in *. cbn [CommitLog.next_raw_block]. rewrite E.
  destruct (next_raw_block n r1 h1) as [[[[[i|] r'] h']| |]|]; try exact Hn.
  destruct (bi_error i); try exact Hn; now apply next_mono.
Qed.

Lemma reads_again r h r1 h1 v : raw_step r h = Ok (Again, r1, h1) -> reads r1 h1 v -> reads r h v.
Proof.
  intros E [[|n] Hn]; [discriminate|]. exists (S (S n)). rewrite read_unfold in *.
  destruct (next n r1 h1) as [w|] eqn:En; [|discriminate]. rewrite (next_again _ _ _ _ _ _ E En).
  destruct w as [[[[d|] r'] h']| |]; try exact Hn.
  destruct (read_all n r' h') as [x|] eqn:Er; [|discriminate]. now rewrite (read_mono _ _ _ _ Er).
Qed.

(** Blocks in front of a result. *)
Definition behind (l : list (Z * list Z)) (v : result (list (Z * list Z) * CommitLogReader)) : result (list (Z * list Z) * CommitLogReader) :=
  '(l', r) <- v ;; Ok (l ++ l', r).

Lemma reads_data r h i r1 h1 data h2 v : raw_step r h = Ok (Block i, r1, h1) -> bi_error i = OK_ ->
  inflate_block codec_of (bi_block i) h1 = Ok (data, h2) ->
  reads {| cr_base := with_last (timestamp_of h2) (cr_base r1); cr_stack := cr_stack r1 |} h2 v ->
  reads r h (behind [(timestamp_of h2, data)] v).
Proof.
  intros E Ei Ed [n Hn]. exists (S (S (S n))). rewrite read_unfold, next_unfold. cbn [CommitLog.next_raw_block].
  rewrite E, Ei, Ed. cbn [bind]. rewrite (read_more n (S (S n)) _ _ _ ltac:(lia) Hn). reflexivity.
Qed.

(** A block with an error: the fragment is given up. *)
Lemma reads_skip r h i r1 h1 v : raw_step r h = Ok (Block i, r1, h1) -> bi_error i <> OK_ ->
  reads {| cr_base := cr_base r1; cr_stack := tl (cr_stack r1) |} h1 v -> reads r h v.
Proof.
  intros E Ei [[|n] Hn]; [discriminate|]. exists (S (S (S n))). rewrite read_unfold in *.
  destruct (next n _ h1) as [w|] eqn:En; [|discriminate].
  assert (Hx : next (S (S n)) r h = Some w).
  { rewrite next_unfold. cbn [CommitLog.next_raw_block]. rewrite E. destruct (bi_error i); try congruence; now apply next_mono. }
  rewrite Hx. destruct w as [[[[d|] r'] h']| |]; try exact Hn.
  destruct (read_all n r' h') as [x|] eqn:Er; [|discriminate]. now rewrite (read_more n (S (S n)) _ _ _ ltac:(lia) Er).
Qed.

Lemma reads_end b h : reads {| cr_base := b; cr_stack := [] |} h (Ok ([], {| cr_base := b; cr_stack := [] |})).
Proof. exists 3%nat. reflexivity. Qed.

(** A fault in a round is one of the whole. *)
Lemma reads_fault r h : raw_step r h = Fault -> reads r h Fault.
Proof. intros E. exists 3%nat. cbn. now rewrite E. Qed.

(** *** Fragments on the stack *)

(** What is left to read of a fragment: the entries [es], and [tail] behind them. *)
Definition opens_then (tail : list Z) (top : CommitLogFileInfo) (es : list entry) : Prop :=
  exists s c, open_stream f top = Ok s /\ sound s /\ encodes es c /\ bs_rest s = c ++ tail.
Abbreviation opens := (opens_then []).

(** Reading a stack gives [out], whatever was read before. *)
Definition stack_reads (st : list CommitLogFileInfo) (out : list (Z * list Z)) : Prop :=
  forall b h, exists r', reads {| cr_base := b; cr_stack := st |} h (Ok (out, r')).

Lemma step_end top st b h : opens top [] ->
  exists b', raw_step {| cr_base := b; cr_stack := top :: st |} h = Ok (Again, {| cr_base := b'; cr_stack := st |}, h).
Proof.
  intros (s & c & E & Hs & He & Hr). inv He. unfold CommitLog.raw_step. cbn [cr_stack cr_base]. rewrite E. cbn [bind].
  rewrite stream_next_end by auto. cbn [bind]. eauto.
Qed.

(** The next block of a fragment, and the fragment behind it. *)
Lemma step_block tail top e es st b h : opens_then tail top (e :: es) ->
  exists s h' payload i, entry_is codec_of e h' payload /\ bi_block i = Some (block h' payload) /\ bi_error i = OK_ /\
    opens_then tail (with_stream (Some s) top) es /\
    raw_step {| cr_base := b; cr_stack := top :: st |} h =
      let r := {| cr_base := b; cr_stack := with_stream (Some s) top :: st |} in
      if check_magic MAGIC_LINK h' then
        if negb (bh_compression_type h' =? NONE) then Fault
        else match cstr payload with
             | None => Fault
             | Some d => r <- load_fragments f d r ;; Ok (Again, r, h')
             end
      else Ok (Block i, r, h').
Proof.
  intros (s & c0 & E & Hs & He & Hrest). inversion He as [|e' bl es' c Hb Hc Heq Hc0]. subst e' es' c0. rewrite <- app_assoc in Hrest.
  destruct Hb as (h' & payload & -> & Hb). pose proof Hb as [Hh _].
  assert (Hrange : 0 <= zlen (block h' payload) <= zlen (bs_rest s)).
  { rewrite Hrest, zlen_app. pose proof (zlen_nonneg (block h' payload)). pose proof (zlen_nonneg (c ++ tail)). lia. }
  pose proof (past_sound (zlen (block h' payload)) s Hs Hrange) as Hp.
  exists (past (zlen (block h' payload)) s), h', payload, (block_info (block h' payload) s).
  split; [exact Hb|]. split; [reflexivity|]. split; [reflexivity|]. split.
  - eexists _, c. split; [reflexivity|]. split; [exact Hp|]. split; [exact Hc|]. cbn [past bs_rest].
    now rewrite Hrest, <- (zlen_to_nat _ _ eq_refl), skipn_app_exact.
  - unfold CommitLog.raw_step. cbn [cr_stack cr_base]. rewrite E. cbn [bind].
    rewrite (stream_next_block fatal h' payload (c ++ tail)) by assumption. cbn [bind block_info bi_block].
    destruct Hh as [W L _]. rewrite block_front. change (Z.to_nat LENGTH) with 34%nat.
    now rewrite <- (front_length h' W L), skipn_app_exact.
Qed.

Lemma drained top st out : opens top [] -> stack_reads st out -> stack_reads (top :: st) out.
Proof.
  intros Ho H b h. destruct (step_end top st b h Ho) as (b' & E). destruct (H b' h) as [r' Hr]. exists r'.
  exact (reads_again _ _ _ _ _ E Hr).
Qed.

(** A block of data. *)
Lemma step_data tail top ts buf es st b h : opens_then tail top (Data ts buf :: es) ->
  exists s h' i, opens_then tail (with_stream (Some s) top) es /\
    raw_step {| cr_base := b; cr_stack := top :: st |} h =
      Ok (Block i, {| cr_base := b; cr_stack := with_stream (Some s) top :: st |}, h') /\
    bi_error i = OK_ /\ inflate_block codec_of (bi_block i) h' = Ok (buf, h') /\ timestamp_of h' = ts.
Proof.
  intros Ho. destruct (step_block _ top _ es st b h Ho) as (s & h' & payload & i & (Hh & Ht & Hm & z & Hz & Hi) & Hib & Hie & Ho' & E).
  assert (M : check_magic MAGIC_LINK h' = false) by (unfold check_magic; now rewrite Hm). rewrite M in E.
  exists s, h', i. split; [exact Ho'|]. split; [exact E|]. split; [exact Hie|]. split.
  - rewrite Hib. cbn [inflate_block]. unfold load_compressor. destruct Hh as [(_ & _ & _ & _ & _ & Hty & _) _ _].
    rewrite (proj2 (Z.leb_gt _ _)), Hz by lia. cbn [bind]. now rewrite Hi.
  - unfold timestamp_of. now rewrite Ht.
Qed.

(** Blocks of data in front of something else. *)
Lemma data_prefix (P : result (list (Z * list Z) * CommitLogReader) -> Prop) es : forall tail top st b h,
  Forall (fun e => match e with Data _ _ => True | Link _ _ => False end) es -> opens_then tail top es ->
  (forall top' b' h', opens_then tail top' [] -> lb_fragment_queue b' = lb_fragment_queue b ->
     exists v, P v /\ reads {| cr_base := b'; cr_stack := top' :: st |} h' v) ->
  exists v, P v /\ reads {| cr_base := b; cr_stack := top :: st |} h (behind (data_of es) v).
Proof.
  induction es as [|[ts buf|ts d] es IH]; intros tail top st b h Hd Ho H; inv Hd; try easy.
  - destruct (H top b h Ho eq_refl) as (v & Pv & Hv). exists v. split; [exact Pv|]. now replace (behind (data_of []) v) with v by (now destruct v as [[]| |]).
  - destruct (step_data tail top ts buf es st b h Ho) as (s & h' & i & Ho' & E & Hi & Hinf & Et).
    destruct (IH tail (with_stream (Some s) top) st (with_last (timestamp_of h') b) h' H3 Ho' H) as (v & Pv & Hv). exists v. split; [exact Pv|].
    replace (behind (data_of (Data ts buf :: es)) v) with (behind [(timestamp_of h', buf)] (behind (data_of es) v))
      by (rewrite Et; now destruct v as [[]| |]).
    exact (reads_data _ _ _ _ _ buf h' _ E Hi Hinf Hv).
Qed.

(** A link: the fragments of the other log come first. *)
Lemma step_link top ts d es st b h : opens top (Link ts d :: es) ->
  exists s h', opens (with_stream (Some s) top) es /\
    raw_step {| cr_base := b; cr_stack := top :: st |} h =
      (r <- load_fragments f d {| cr_base := b; cr_stack := with_stream (Some s) top :: st |} ;; Ok (Again, r, h')).
Proof.
  intros Ho. destruct (step_block _ top _ es st b h Ho) as (s & h' & payload & i & (Hh & Ht & Hm & Hn & Hd & ->) & _ & _ & Ho' & E).
  assert (M : check_magic MAGIC_LINK h' = true) by (unfold check_magic; now rewrite Hm). rewrite M, Hn in E.
  exists s, h'. split; [exact Ho'|]. rewrite E. cbn [negb Z.eqb NONE]. now rewrite cstr_app.
Qed.

(** ** Directories *)

(** The fragments [frs] of the log in [d], by number; other files are not numbers. *)
Record stored (d : list Z) (frs : list (Z * list entry)) : Prop := {
  st_sorted : StronglySorted Z.lt (map fst frs);
  st_nums : Forall (fun n => 0 <= n < 2 ^ 31) (map fst frs);
  st_files : forall num es, In (num, es) frs -> exists c, dfs_contents f (d ++ dec_digits 10 num) = Some c /\ encodes es c;
  st_names : forall n, n <> [] -> ~ In 47 n -> dfs_contents f (d ++ n) <> None \/ dfs_isdir f (d ++ n ++ [47]) ->
    snd (strtol n) <> [] \/ exists num, In num (map fst frs) /\ n = dec_digits 10 num }.

Definition plain_info (d : list Z) (num size : Z) : CommitLogFileInfo :=
  {| fi_log_dir := d; fi_num := num; fi_size := size; fi_timestamp := 0; fi_purge_log_dir := false; fi_block_stream := None |}.

(** What a name stands for in [load_fragments]. *)
Definition picked (d name : list Z) : list CommitLogFileInfo :=
  match strtol name with
  | (num, []) =>
      match dfs_contents f (d ++ name) with
      | Some c => if 0 <? zlen c then [plain_info d (u32 num) (zlen c)] else []
      | None => []
      end
  | _ => []
  end.

Lemma fragments_picked d names :
  (forall n, In n names -> snd (strtol n) <> [] \/ dfs_contents f (d ++ n) <> None) ->
  fragments f d names = Ok (flat_map (picked d) names).
Proof.
  induction names as [|n names IH]; intros H; [reflexivity|]. cbn [fragments flat_map].
  assert (IH' := IH (fun m Hm => H m (or_intror Hm))). unfold picked at 1. pose proof (H n (or_introl eq_refl)) as Hn.
  destruct (strtol n) as [num [|e l]]; [|exact IH']. cbn [snd] in Hn. destruct Hn as [Hn|Hn]; [congruence|].
  destruct (dfs_contents f (d ++ n)) as [c|] eqn:Ec; [|congruence]. rewrite (length_contents _ _ _ Ec). cbn [bind].
  rewrite IH'. cbn [bind]. pose proof (contents_small _ _ _ Ec). pose proof (zlen_nonneg c).
  rewrite (wrap_small 64 (zlen c)) by (unfold in_range; lia). now destruct (0 <? zlen c).
Qed.

Definition down (i j : CommitLogFileInfo) : Prop := fi_num j < fi_num i.

Lemma insert_between i l m : Forall (fun j => fi_num i < fi_num j) l -> Forall (fun j => fi_num j < fi_num i) m ->
  insert_fragment i (l ++ m) = l ++ i :: m.
Proof.
  intros Hl Hm. induction Hl as [|j l Hj Hl IH]; cbn [app insert_fragment].
  - destruct Hm as [|j m Hj Hm]; [reflexivity|]. cbn [insert_fragment]. now rewrite (proj2 (Z.leb_le _ _)) by lia.
  - rewrite (proj2 (Z.leb_gt _ _)) by lia. now rewrite IH.
Qed.

(** Sorting gives the one order by number. *)
Lemma sort_unique l : forall m, Permutation l m -> StronglySorted down m -> fold_right insert_fragment [] l = m.
Proof.
  induction l as [|i l IH]; intros m Hp Hs; [now apply Permutation_nil in Hp|]. cbn [fold_right].
  destruct (in_split i m) as (m1 & m2 & ->); [apply (Permutation_in _ Hp); now left|].
  apply Permutation_cons_app_inv in Hp. apply sorted_app in Hs as (H1 & H2 & H3). inv H2.
  rewrite (IH (m1 ++ m2)).
  - apply insert_between; [|assumption]. apply Forall_forall. intros j Hj. apply H3; [assumption|now left].
  - exact Hp.
  - apply sorted_app. repeat split; [assumption|assumption|]. intros x y Hx Hy. apply H3; [assumption|now right].
Qed.

Lemma distinct_nodup l : NoDup l -> distinct l = true.
Proof.
  induction 1 as [|n l Hn Hl IH]; [reflexivity|]. cbn [distinct]. rewrite IH, andb_true_r. apply negb_true_iff.
  destruct (existsb (Z.eqb n) l) eqn:E; [|reflexivity]. apply existsb_exists in E as (m & Hm & E). apply Z.eqb_eq in E. now subst.
Qed.

Lemma sort_fragments_sorted l m : Permutation l (rev m) -> StronglySorted down (rev m) -> sort_fragments l = Ok (rev m).
Proof.
  intros Hp Hs. unfold sort_fragments. rewrite (sort_unique l (rev m)) by assumption. rewrite distinct_nodup; [reflexivity|].
  apply (Permutation_NoDup (l := map fi_num (rev m))); [now apply Permutation_sym, Permutation_map|].
  clear Hp. induction Hs as [|i l' Hs IH Hi]; cbn [map]; constructor; [|assumption].
  rewrite in_map_iff. intros (j & Ej & Hj). rewrite Forall_forall in Hi. specialize (Hi j Hj). unfold down in Hi. lia.
Qed.

Definition shown_infos (d : list Z) (frs : list (Z * list entry)) : list CommitLogFileInfo :=
  flat_map (picked d) (map (dec_digits 10) (map fst frs)).
Definition some_entries (frs : list (Z * list entry)) : list (list entry) :=
  filter (fun es => negb (match es with [] => true | _ => false end)) (map snd frs).

Lemma picked_fragment d num es c : 0 <= num < 2 ^ 31 -> dfs_contents f (d ++ dec_digits 10 num) = Some c -> encodes es c ->
  picked d (dec_digits 10 num) = match es with [] => [] | _ => [plain_info d num (zlen c)] end.
Proof.
  intros Hn Hc He. unfold picked. rewrite strtol_digits, Hc, (encodes_empty _ _ _ He) by lia.
  rewrite wrap_small by (unfold in_range; lia). now destruct es.
Qed.

Lemma plain_info_opens d num es c : dfs_contents f (d ++ dec_digits 10 num) = Some c -> encodes es c ->
  opens (plain_info d num (zlen c)) es.
Proof.
  intros Hc He. unfold opens_then, open_stream, load. cbn [plain_info fi_block_stream fi_log_dir fi_num].
  rewrite (length_contents _ _ _ Hc), (open_contents _ _ _ Hc). cbn [bind]. eexists _, c. split; [reflexivity|].
  pose proof (contents_small _ _ _ Hc). split; [split; cbn; lia|]. split; [exact He|]. cbn. now rewrite app_nil_r.
Qed.

Lemma shown_opens d frs : Forall (fun n => 0 <= n < 2 ^ 31) (map fst frs) ->
  (forall num es, In (num, es) frs -> exists c, dfs_contents f (d ++ dec_digits 10 num) = Some c /\ encodes es c) ->
  Forall2 opens (shown_infos d frs) (some_entries frs).
Proof.
  unfold shown_infos, some_entries. induction frs as [|[num es] frs IH]; intros Hn Hf; cbn [map fst snd flat_map filter]; [constructor|].
  inv Hn. destruct (Hf num es (or_introl eq_refl)) as (c & Hc & He). rewrite (picked_fragment d num es c) by assumption.
  assert (IH' := IH H2 (fun n e Hi => Hf n e (or_intror Hi))). destruct es as [|e es]; [exact IH'|]. cbn [negb app].
  constructor; [|exact IH']. now apply plain_info_opens.
Qed.

Lemma picked_num d n i : 0 <= n < 2 ^ 31 -> In i (picked d (dec_digits 10 n)) -> fi_num i = n.
Proof.
  intros Hn. unfold picked. rewrite strtol_digits by lia. destruct (dfs_contents f _) as [c|]; [|intros []].
  destruct (0 <? zlen c); [|intros []]. intros [<-|[]]. cbn. apply wrap_small. unfold in_range. lia.
Qed.

Lemma shown_sorted d nums : Forall (fun n => 0 <= n < 2 ^ 31) nums -> StronglySorted Z.lt nums ->
  StronglySorted down (rev (flat_map (picked d) (map (dec_digits 10) nums))).
Proof.
  intros Hn Hs. induction Hs as [|n nums Hs IH Hlt]; cbn [map flat_map]; [constructor|]. inv Hn.
  rewrite rev_app_distr. apply sorted_app. split; [auto|]. split.
  - unfold picked. destruct (strtol _) as [m [|]]; [|constructor]. destruct (dfs_contents f _) as [c|]; [|constructor].
    destruct (0 <? zlen c); repeat constructor.
  - intros i j Hi Hj. rewrite <- in_rev in Hi, Hj. apply in_flat_map in Hi as (x & Hx & Hi). apply in_map_iff in Hx as (m & <- & Hm).
    rewrite Forall_forall in *. apply picked_num in Hj, Hi; auto. unfold down. specialize (Hlt m Hm). lia.
Qed.

Lemma digits_name n : 0 <= n -> dec_digits 10 n <> [] /\ ~ In 47 (dec_digits 10 n).
Proof.
  intros Hn. destruct (digits_head 9 n Hn) as (c & l & E & _). split; [now rewrite E|]. intros H.
  pose proof (digits_are 10 n Hn) as D. rewrite Forall_forall in D. specialize (D 47 H). discriminate.
Qed.

Lemma names_nodup nums : Forall (fun n => 0 <= n < 2 ^ 31) nums -> StronglySorted Z.lt nums -> NoDup (map (dec_digits 10) nums).
Proof.
  intros Hn Hs. induction Hs as [|n nums Hs IH Hlt]; cbn [map]; [constructor|]. inv Hn. constructor; [|auto].
  rewrite in_map_iff. intros (m & E & Hm). rewrite Forall_forall in *. specialize (Hlt m Hm). specialize (H2 m Hm). apply digits_inj in E; lia.
Qed.

Lemma listing_perm d frs names : stored d frs -> dfs_readdir d f = Ok names ->
  fragments f d names = Ok (flat_map (picked d) names) /\ Permutation (flat_map (picked d) names) (shown_infos d frs).
Proof.
  intros [Hs Hn Hf Hm] Hr.
  assert (Hin : forall num, In num (map fst frs) -> exists c, dfs_contents f (d ++ dec_digits 10 num) = Some c).
  { intros num H. apply in_map_iff in H as ([n es] & <- & H). destruct (Hf n es H) as (c & Hc & _). eauto. }
  assert (Hc : forall n, In n names -> snd (strtol n) <> [] \/ exists num, In num (map fst frs) /\ n = dec_digits 10 num).
  { intros n H. apply (readdir_names d f names n Hr) in H as (H1 & H2 & H3). auto. }
  split.
  - apply fragments_picked. intros n H. destruct (Hc n H) as [H1|(num & H1 & ->)]; [now left|right].
    destruct (Hin num H1) as [c ->]. discriminate.
  - apply (flat_map_subset (list_eq_dec Z.eq_dec)); [exact (readdir_once d f names Hr)|now apply names_nodup| |].
    + intros n H. apply in_map_iff in H as (num & <- & H). rewrite Forall_forall in Hn. pose proof (Hn num H).
      destruct (digits_name num) as [H1 H2]; [lia|]. apply (readdir_names d f names _ Hr).
      destruct (Hin num H) as [c Ec]. rewrite Ec. split; [left; discriminate|auto].
    + intros n H H'. destruct (Hc n H) as [H1|(num & H1 & ->)]; [|exfalso; apply H'; apply in_map_iff; eauto].
      unfold picked. destruct (strtol n) as [m [|e l]]; [now cbn in H1|reflexivity].
Qed.

Lemma load_stored d frs names r : stored (add_trailing_slash d) frs -> dfs_readdir (add_trailing_slash d) f = Ok names ->
  exists tops, load_fragments f d r = Ok {| cr_base := cr_base r; cr_stack := tops ++ cr_stack r |} /\
    Forall2 opens tops (some_entries frs).
Proof.
  intros Hst Hr. destruct (listing_perm _ _ _ Hst Hr) as [Hf Hp]. destruct Hst as [Hs Hn Hc _].
  pose proof (shown_opens _ _ Hn Hc) as Ho. pose proof (shown_sorted (add_trailing_slash d) _ Hn Hs) as Hd.
  unfold load_fragments. rewrite Hr. cbn [bind]. rewrite Hf. cbn [bind].
  rewrite (sort_fragments_sorted _ (shown_infos (add_trailing_slash d) frs)) by (assumption || now rewrite <- Permutation_rev).
  cbn [bind]. rewrite <- (rev_involutive (shown_infos _ _)) in Ho. destruct (rev (shown_infos _ _)) as [|newest l].
  - exists []. split; [now destruct r|exact Ho].
  - exists (rev (purging newest :: l)). split; [reflexivity|]. cbn [rev] in *.
    apply Forall2_app_inv_l in Ho as (l1 & l2 & H1 & H2 & ->). apply Forall2_app; [exact H1|].
    inversion H2 as [|? y ? ? Hy Hnil]; subst. inv Hnil. constructor; [exact Hy|constructor].
Qed.

(** ** Reading a log *)

(** What the entries of a log stand for: data, and the entries of linked logs. *)
Inductive replays : list entry -> list (Z * list Z) -> Prop :=
| replays_nil : replays [] []
| replays_data ts buf es out : replays es out -> replays (Data ts buf :: es) ((ts, buf) :: out)
| replays_link ts d frs names es out1 out2 :
    stored (add_trailing_slash d) frs -> dfs_readdir (add_trailing_slash d) f = Ok names ->
    replays (concat (map snd frs)) out1 -> replays es out2 -> replays (Link ts d :: es) (out1 ++ out2).

Lemma some_entries_concat frs : concat (some_entries frs) = concat (map snd frs).
Proof.
  unfold some_entries. induction (map snd frs) as [|es l IH]; [reflexivity|]. cbn [filter concat].
  destruct es; cbn [negb concat app]; now rewrite IH.
Qed.

Lemma replays_stack es out : replays es out -> forall tops ess st out', Forall2 opens tops ess -> concat ess = es ->
  stack_reads st out' -> stack_reads (tops ++ st) (out ++ out').
Proof.
  induction 1 as [|ts buf es out H IH|ts d frs names es out1 out2 Hs Hr H1 IH1 H2 IH2]; intros tops ess st out' Ho.
  all: induction Ho as [|top es1 tops ess Ht Ho IHo]; intros Hc Hst; cbn [concat app] in *; try discriminate; auto.
  all: destruct es1 as [|e es1]; [apply drained; auto|]; try discriminate; cbn [app] in Hc; injection Hc as -> Hc.
  - intros b h. destruct (step_data [] top ts buf es1 (tops ++ st) b h Ht) as (s & h' & i & Ho' & E & Hi & Hd & Et).
    destruct (IH (with_stream (Some s) top :: tops) (es1 :: ess) st out' (Forall2_cons _ _ Ho' Ho) Hc Hst (with_last ts b) h') as [r' Hr].
    exists r'. rewrite <- Et in *. exact (reads_data _ _ _ _ _ buf h' _ E Hi Hd Hr).
  - intros b h. destruct (step_link top ts d es1 (tops ++ st) b h Ht) as (s & h' & Ho' & E).
    destruct (load_stored d frs names {| cr_base := b; cr_stack := with_stream (Some s) top :: tops ++ st |} Hs Hr) as (tops1 & El & Ho1).
    rewrite El in E. cbn [bind cr_base cr_stack] in E.
    assert (Hall : stack_reads (tops1 ++ (with_stream (Some s) top :: tops) ++ st) (out1 ++ out2 ++ out')).
    { apply (IH1 tops1 (some_entries frs)); [exact Ho1|apply some_entries_concat|].
      exact (IH2 _ (es1 :: ess) st out' (Forall2_cons _ _ Ho' Ho) Hc Hst). }
    destruct (Hall b h') as [r' Hr']. exists r'. rewrite <- app_assoc. exact (reads_again _ _ _ _ _ E Hr').
Qed.

Lemma replays_log d frs names out h : stored (add_trailing_slash d) frs -> dfs_readdir (add_trailing_slash d) f = Ok names ->
  replays (concat (map snd frs)) out ->
  exists n r', forall m, (n <= m)%nat -> read_log fatal codec_of f m d h = Some (Ok (out, r')).
Proof.
  intros Hs Hr Hp. unfold read_log, CommitLogReader_make. set (b := {| lb_log_dir := d; lb_fragment_queue := []; lb_last_timestamp := 0 |}).
  destruct (load_stored d frs names {| cr_base := b; cr_stack := [] |} Hs Hr) as (tops & -> & Ho). cbn [cr_base cr_stack].
  assert (He : stack_reads [] []) by (intros b' h'; eexists; apply reads_end).
  destruct (replays_stack _ _ Hp tops (some_entries frs) [] [] Ho (some_entries_concat frs) He b h) as (r' & n & Hn).
  rewrite !app_nil_r in *. exists n, r'. intros m Hm. exact (read_more _ _ _ _ _ Hm Hn).
Qed.

Lemma replays_app es1 es2 out1 out2 : replays es1 out1 -> replays es2 out2 -> replays (es1 ++ es2) (out1 ++ out2).
Proof.
  intros H1 H2. induction H1; cbn [app]; [assumption|now constructor|]. rewrite <- app_assoc. econstructor; eassumption.
Qed.

Lemma replays_only_data es : Forall (fun e => match e with Data _ _ => True | Link _ _ => False end) es -> replays es (data_of es).
Proof. induction 1 as [|[ts buf|ts d] es He H IH]; [constructor|now constructor|easy]. Qed.

End Reading.
