(* ===== verification/CommitLogWrites.v ===== *)
(** * Writing, linking and purging a commit log

    The fragments the writer of [CommitLog.v] leaves behind, and the theorems about
    logs that are written, read back, purged and recovered. *)
From S2P Require Import Prelude Errors Serialization Checksum ByteString Wire BlockCodec CommitLog CommitLogRuns.
From Stdlib Require Import ZArith Lia List Bool Sorted Permutation.
Import ListNotations.
Open Scope Z_scope.
Open Scope result_scope.

(** ** Blocks *)

Lemma deflate_type z input h b h' : deflate z input h = Ok (b, h') ->
  bh_compression_type h' = NONE \/ bh_compression_type h' = z_type z.
Proof.
  unfold deflate. intros E. destruct (_ || _); apply bind_ok in E as (c & _ & E); apply bind_ok in E as (e & _ & E); inv E; cbn; auto.
Qed.

Lemma packs_plain z z0 input h h' payload : packs z input h h' payload -> bh_compression_type h' = NONE -> packs z0 input h h' payload.
Proof.
  intros [H1 H2 H3 H4 H5 H6 H7 H8 H9] E. split; auto. rewrite E in *. cbn in *. rewrite orb_true_r in *. exact H9.
Qed.

Section Writing.
Context {F : Type} {DO : Dfs F} {DL : DfsLaws F}.
Context {codec_of : Z -> result Compressor} {CO : Codecs codec_of}.

Abbreviation stored := (stored codec_of).
Abbreviation entry_block := (entry_block codec_of).

Lemma deflate_entry z buf ts b h' : codec_of (z_type z) = Ok z -> wf_bytes buf -> zlen buf < 2 ^ 32 -> in_range 64 ts ->
  deflate z buf (BlockHeaderCommitLog_make MAGIC_DATA ts) = Ok (b, h') -> entry_block (Data ts buf) b.
Proof.
  intros Hz Wb Hb Hts E. set (h := BlockHeaderCommitLog_make MAGIC_DATA ts) in *.
  assert (Hh : blank h) by (split; [reflexivity|]; split; [repeat constructor; cbv; congruence|exact Hts]).
  destruct (deflate_ok z buf h (codec_lossless _ _ Hz) Wb Hb Hh) as (h1 & payload & P & E1).
  pose proof (deflate_type _ _ _ _ _ E) as Ht. rewrite E1 in E. inv E.
  exists h', payload. split; [reflexivity|]. pose proof P as [W Hm Hs Wp Hl Hzl Hck Hle Hback].
  split; [split; [assumption|unfold is_log; now rewrite Hs|assumption]|]. split; [exact Hs|]. split; [exact Hm|].
  destruct Ht as [Ht|Ht].
  - destruct codec_plain as [z0 Hz0]. exists z0. rewrite Ht. split; [exact Hz0|].
    exact (inflate_packed _ _ _ _ _ (packs_plain _ z0 _ _ _ _ P Ht)).
  - exists z. rewrite Ht. split; [exact Hz|]. exact (inflate_packed _ _ _ _ _ P).
Qed.

(** The header of a link. *)
Definition link_header (d : list Z) (ts : Z) : BlockHeader :=
  set_data NONE (zlen (d ++ [0])) (zlen (d ++ [0])) (fletcher32_spec (be_words (d ++ [0]))) (BlockHeaderCommitLog_make MAGIC_LINK ts).

Lemma link_packs d ts : wf_bytes d -> zlen d + 1 < 2 ^ 32 -> in_range 64 ts ->
  packs codec_none (d ++ [0]) (BlockHeaderCommitLog_make MAGIC_LINK ts) (link_header d ts) (d ++ [0]).
Proof.
  intros Wd Hd Hts. apply set_data_packs.
  - split; [reflexivity|]. split; [repeat constructor; cbv; congruence|exact Hts].
  - rewrite zlen_app. change (zlen [0]) with 1. lia.
  - apply wf_bytes_app. split; [assumption|repeat constructor; cbv; congruence].
  - lia.
  - unfold NONE, COMPRESSION_TYPE_LIMIT; lia.
  - reflexivity.
Qed.

Lemma link_block_is d ts : wf_bytes d -> zlen d + 1 < 2 ^ 32 -> in_range 64 ts ->
  link_block d ts = Ok (block (link_header d ts) (d ++ [0])).
Proof.
  intros Wd Hd Hts. pose proof (link_packs d ts Wd Hd Hts) as P. unfold link_block. cbv zeta.
  rewrite fletcher32_eq by exact (packs_bytes _ _ _ _ _ P). unfold bind at 1. unfold link_header in P.
  rewrite BlockHeader_encode_ok by exact (packs_wf _ _ _ _ _ P). unfold bind. rewrite block_front. reflexivity.
Qed.

Lemma link_entry d ts b : wf_bytes d -> no_nul d -> zlen d + 1 < 2 ^ 32 -> in_range 64 ts ->
  link_block d ts = Ok b -> entry_block (Link ts d) b.
Proof.
  intros Wd Nd Hd Hts E. rewrite link_block_is in E by assumption. apply Ok_inj in E. subst b.
  assert (Hc : bh_compression_type (link_header d ts) = NONE) by reflexivity.
  pose proof (link_packs d ts Wd Hd Hts) as [W Hm Hs _ _ Hzl _ _ _].
  exists (link_header d ts), (d ++ [0]). split; [reflexivity|].
  split; [split; [exact W|unfold is_log; now rewrite Hs|exact Hzl]|]. split; [exact Hs|]. split; [exact Hm|]. auto.
Qed.

(** ** Directories that change *)

Definition same_dirs (f f' : F) : Prop := forall q, dfs_isdir f' q <-> dfs_isdir f q.

Lemma app_inj_l (d a b : list Z) : d ++ a = d ++ b -> a = b.
Proof. apply app_inv_head. Qed.

Lemma in_fst {A B} (x : A) (l : list (A * B)) : In x (map fst l) <-> exists y, In (x, y) l.
Proof.
  rewrite in_map_iff. split; [intros ([a b] & <- & H); eauto|]. intros [y H]. exists (x, y). auto.
Qed.

Lemma stored_same f f' d frs : stored f d frs -> (forall q, dfs_contents f' q = dfs_contents f q) ->
  (forall n, n <> [] -> dfs_isdir f' (d ++ n ++ [47]) -> dfs_isdir f (d ++ n ++ [47])) -> stored f' d frs.
Proof.
  intros [H1 H2 H3 H4] Hc Hd. split; auto.
  - intros num es Hi. rewrite Hc. auto.
  - intros n Hn Hs. rewrite Hc. intros Hx. apply H4; auto. destruct Hx as [Hx|Hx]; auto.
Qed.

(** One more entry in the last fragment. *)
Lemma stored_append f f' d frs num es c e b : stored f d (frs ++ [(num, es)]) ->
  dfs_contents f (d ++ dec_digits 10 num) = Some c ->
  replaced (d ++ dec_digits 10 num) (Some (c ++ b)) f f' -> same_dirs f f' -> entry_block e b ->
  stored f' d (frs ++ [(num, es ++ [e])]).
Proof.
  intros [H1 H2 H3 H4] Hc [Hr1 Hr2] Hd He. rewrite map_app in *. cbn [map fst] in *. split; rewrite ?map_app; cbn [map fst]; auto.
  - intros n l Hi. apply in_app_or in Hi as [Hi|[[= <- <-]|[]]].
    + destruct (H3 n l) as (c' & Hc' & Hl); [apply in_or_app; now left|]. exists c'. split; [|exact Hl].
      rewrite Hr2; [exact Hc'|]. intros E. apply app_inj_l in E. rewrite Forall_forall in H2.
      apply sorted_app in H1 as (_ & _ & H1). assert (In n (map fst frs)) by (apply in_fst; eauto).
      specialize (H1 n num H (or_introl eq_refl)). apply digits_inj in E; [lia| |]; [pose proof (H2 n)|pose proof (H2 num)]; rewrite in_app_iff in *; cbn in *; intuition lia.
    + destruct (H3 num es) as (c' & Hc' & Hl); [apply in_or_app; right; now left|]. rewrite Hc in Hc'. injection Hc' as <-.
      exists (c ++ b). split; [exact Hr1|]. now apply encodes_snoc.
  - intros n Hn Hs Hx. apply H4; auto. destruct Hx as [Hx|Hx]; [left|right; now apply Hd].
    destruct (list_eq_dec Z.eq_dec (d ++ n) (d ++ dec_digits 10 num)) as [E|E]; [rewrite E, Hc; discriminate|]. now rewrite Hr2 in Hx by exact E.
Qed.

(** A new fragment behind the others. *)
Lemma stored_create f f' d frs num : stored f d frs -> Forall (fun n => n < num) (map fst frs) -> 0 <= num < 2 ^ 31 ->
  replaced (d ++ dec_digits 10 num) (Some []) f f' -> same_dirs f f' -> stored f' d (frs ++ [(num, [])]).
Proof.
  intros [H1 H2 H3 H4] Hlt Hnum [Hr1 Hr2] Hd. rewrite Forall_forall in Hlt. split; rewrite ?map_app; cbn [map fst].
  - apply sorted_app. split; [assumption|]. split; [repeat constructor|]. intros x y Hx [<-|[]]. auto.
  - apply Forall_app. split; [assumption|]. repeat constructor; lia.
  - intros n l Hi. apply in_app_or in Hi as [Hi|[[= <- <-]|[]]]; [|exists []; split; [exact Hr1|constructor]].
    destruct (H3 n l Hi) as (c & Hc & Hl). exists c. split; [|exact Hl]. rewrite Hr2; [exact Hc|]. intros E. apply app_inj_l in E.
    assert (In n (map fst frs)) by (apply in_fst; eauto). rewrite Forall_forall in H2. pose proof (H2 n H). pose proof (Hlt n H).
    apply digits_inj in E; lia.
  - intros n Hn Hs Hx. destruct (list_eq_dec Z.eq_dec (d ++ n) (d ++ dec_digits 10 num)) as [E|E].
    + right. exists num. apply app_inj_l in E. split; [apply in_or_app; right; now left|exact E].
    + destruct (H4 n Hn Hs) as [H5|(m & Hm & ->)]; [|now left|right; exists m; split; [apply in_or_app; now left|reflexivity]].
      rewrite Hr2 in Hx by exact E. destruct Hx as [Hx|Hx]; [now left|right; now apply Hd].
Qed.

(** A fragment is removed. *)
Lemma stored_remove f f' d l1 num es l2 : stored f d (l1 ++ (num, es) :: l2) ->
  replaced (d ++ dec_digits 10 num) None f f' -> same_dirs f f' -> stored f' d (l1 ++ l2).
Proof.
  intros [H1 H2 H3 H4] [Hr1 Hr2] Hd. rewrite map_app in *. cbn [map fst] in *.
  apply sorted_app in H1 as (S1 & S2 & S3). inversion S2 as [|? ? S4 S5]. subst. rewrite Forall_forall in S5.
  apply Forall_app in H2 as [N1 N2]. inversion N2 as [|? ? N3 N4]. subst.
  assert (Hne : forall n, In n (map fst (l1 ++ l2)) -> n <> num /\ 0 <= n < 2 ^ 31).
  { intros n Hi. rewrite map_app in Hi. rewrite Forall_forall in N1, N4.
    apply in_app_or in Hi as [Hi|Hi]; [pose proof (S3 n num Hi (or_introl eq_refl)); pose proof (N1 n Hi)|pose proof (S5 n Hi); pose proof (N4 n Hi)]; lia. }
  split; rewrite ?map_app.
  - apply sorted_app. split; [assumption|]. split; [assumption|]. intros x y Hx Hy. apply S3; [assumption|now right].
  - now apply Forall_app.
  - intros n l Hi. destruct (H3 n l) as (c & Hc & Hl); [apply in_app_or in Hi as [Hi|Hi]; apply in_or_app; [now left|right; now right]|].
    exists c. split; [|exact Hl]. rewrite Hr2; [exact Hc|]. intros E. apply app_inj_l in E.
    destruct (Hne n) as [Hn1 Hn2]; [apply in_fst; eauto|]. apply digits_inj in E; lia.
  - intros n Hn Hs Hx. destruct (list_eq_dec Z.eq_dec (d ++ n) (d ++ dec_digits 10 num)) as [E|E].
    + rewrite E, Hr1 in Hx. destruct Hx as [Hx|Hx]; [congruence|]. exfalso. apply Hd in Hx. rewrite app_assoc, E in Hx.
      destruct (H3 num es) as (c & Hc & _); [apply in_elt|]. refine (file_no_dir _ _ _ Hx). now rewrite Hc.
    + destruct (H4 n Hn Hs) as [H5|(m & Hm & ->)]; [|now left|].
      * rewrite Hr2 in Hx by exact E. destruct Hx as [Hx|Hx]; [now left|right; now apply Hd].
      * right. exists m. split; [|reflexivity]. rewrite in_app_iff in *. destruct Hm as [Hm|[<-|Hm]]; [now left|congruence|now right].
Qed.

(** ** The writer *)

(** The log's file system: fragments [frs] that are complete, and the current one
    with the entries [cur]. *)
Record writing (f : F) (cl : CommitLog) (frs : list (Z * list entry)) (cur : list entry) : Prop := {
  w_fd : cl_fd cl = Open_ (lb_log_dir (cl_base cl) ++ dec_digits 10 (cl_cur_fragment_num cl));
  w_codec : codec_of (z_type (cl_compressor cl)) = Ok (cl_compressor cl);
  w_stored : stored f (lb_log_dir (cl_base cl)) (frs ++ [(cl_cur_fragment_num cl, cur)]) }.

Lemma w_num f cl frs cur : writing f cl frs cur ->
  0 <= cl_cur_fragment_num cl < 2 ^ 31 /\ Forall (fun n => n < cl_cur_fragment_num cl) (map fst frs).
Proof.
  intros [_ _ [S N _ _]]. rewrite map_app in *. cbn [map fst] in *. apply Forall_app in N as [_ N]. inv N. split; [assumption|].
  apply sorted_app in S as (_ & _ & S). apply Forall_forall. intros n Hn. apply S; [assumption|now left].
Qed.

Lemma fragment_name_digits d n : 0 <= n < 2 ^ 31 -> fragment_name d n = d ++ dec_digits 10 n.
Proof. intros H. unfold fragment_name. now rewrite signed_small, decimal_digits by lia. Qed.

(** The two ways a log grows by an entry: in the current fragment, and with a roll
    behind it. *)
Inductive grows (d : list Z) (e : entry) : Z * list (Z * list entry) * list entry * list CommitLogFileInfo ->
                              Z * list (Z * list entry) * list entry * list CommitLogFileInfo -> Prop :=
| grows_on num frs cur q : grows d e (num, frs, cur, q) (num, frs, cur ++ [e], q)
| grows_rolled num frs cur q i : fi_log_dir i = d -> fi_num i = num -> fi_timestamp i = entry_ts e ->
    grows d e (num, frs, cur, q) (num + 1, frs ++ [(num, cur ++ [e])], [], q ++ [i]).

Lemma written_ok e b frs cur cl f cl' f' : writing f cl frs cur -> entry_block e b ->
  catching (fd_append (cl_fd cl) b f) cl (fun f => written (entry_ts e) (zlen b) cl f) = (Ok OK_, cl', f') ->
  writing f' cl' frs (cur ++ [e]) /\ lb_log_dir (cl_base cl') = lb_log_dir (cl_base cl) /\
  cl_cur_fragment_num cl' = cl_cur_fragment_num cl /\ lb_fragment_queue (cl_base cl') = lb_fragment_queue (cl_base cl) /\
  lb_last_timestamp (cl_base cl') = entry_ts e /\ entry_ts e <> 0.
Proof.
  intros [Hfd Hz Hst] He E. rewrite Hfd in E. cbn [fd_append] in E.
  destruct (dfs_append _ _ f) as [[[]|c|] f1] eqn:Ea; cbn [catching] in E; [|inv E; now apply append_code in Ea|discriminate].
  unfold written in E. destruct (Z.eqb_spec (entry_ts e) 0) as [|Hne]; [discriminate|]. inv E.
  destruct (st_files _ _ _ _ Hst (cl_cur_fragment_num cl) cur) as (c & Hc & _); [apply in_or_app; right; now left|].
  destruct (append_adds _ _ _ _ _ Ea Hc) as [Hr Hd]. cbn. split; [|auto].
  split; cbn; [assumption|assumption|]. exact (stored_append _ _ _ _ _ _ _ _ _ Hst Hc Hr Hd He).
Qed.

Lemma roll_ok frs cur cl f cl' f' : writing f cl frs cur -> cl_cur_fragment_num cl + 1 < 2 ^ 31 ->
  lb_last_timestamp (cl_base cl) <> 0 -> roll cl f = (Ok OK_, cl', f') ->
  writing f' cl' (frs ++ [(cl_cur_fragment_num cl, cur)]) [] /\ lb_log_dir (cl_base cl') = lb_log_dir (cl_base cl) /\
  cl_cur_fragment_num cl' = cl_cur_fragment_num cl + 1 /\
  lb_fragment_queue (cl_base cl') = lb_fragment_queue (cl_base cl) ++ [fragment_info cl].
Proof.
  intros Hw Hnum Hts E. destruct (w_num _ _ _ _ Hw) as [Hn Hlt]. destruct Hw as [Hfd Hz Hst]. unfold roll in E.
  rewrite (proj2 (Z.eqb_neq _ _) Hts), Hfd in E. cbn [fd_close] in E.
  destruct (dfs_close _ f) as [[[]|c|] f1] eqn:Ec; cbn [catching] in E; [|inv E; now apply close_code in Ec|discriminate]. cbv zeta in E.
  rewrite wrap_small in E by (unfold in_range; lia). cbn [cl_base with_last with_queue lb_log_dir] in E.
  rewrite fragment_name_digits in E by lia.
  destruct (dfs_create _ f1) as [[[]|c|] f2] eqn:Ek; cbn [catching] in E; [|inv E; now apply create_code in Ek|discriminate]. inv E.
  destruct (close_same _ _ _ Ec) as [Hc1 Hd1]. destruct (create_empty _ _ _ Ek) as [Hr Hd2]. cbn. split; [|auto].
  split; cbn; [reflexivity|assumption|]. refine (stored_create f1 f' _ _ _ _ _ _ Hr Hd2); [exact (stored_same _ _ _ _ Hst Hc1 (fun n _ => proj1 (Hd1 _)))| |lia].
  rewrite map_app. apply Forall_app. split; [|repeat constructor; cbn; lia]. eapply Forall_impl; [|exact Hlt]. cbn. lia.
Qed.

(** *** Operations *)

(** What a caller asks of a log, and the entry that stands for it. *)
Inductive op := Write (buffer : list Z) (timestamp : Z) | LinkLog (log_base : CommitLogBase) (timestamp : Z).
Definition op_entry (o : op) : entry :=
  match o with Write buf ts => Data ts buf | LinkLog other ts => Link ts (lb_log_dir other) end.
Definition op_run (o : op) (cl : CommitLog) (f : F) : @returned F :=
  match o with Write buf ts => write buf ts cl f | LinkLog other ts => link_log other ts cl f end.

(** All of them in turn, up to the first that does not return [Error::OK]. *)
Fixpoint run_ops (ops : list op) (cl : CommitLog) (f : F) : @returned F :=
  match ops with [] => (Ok OK_, cl, f) | o :: ops => and_then (op_run o cl f) (run_ops ops) end.

Definition op_ok (o : op) : Prop :=
  in_range 64 (entry_ts (op_entry o)) /\
  match o with
  | Write buf _ => wf_bytes buf /\ zlen buf < 2 ^ 32
  | LinkLog other _ => wf_bytes (lb_log_dir other) /\ no_nul (lb_log_dir other) /\ zlen (lb_log_dir other) + 1 < 2 ^ 32
  end.

Lemma and_then_ok (r : @returned F) k cl' f' : and_then r k = (Ok OK_, cl', f') ->
  exists cl f, r = (Ok OK_, cl, f) /\ k cl f = (Ok OK_, cl', f').
Proof.
  destruct r as [[[c|c|] cl] f]; cbn; [|discriminate|discriminate]. intros E. exists cl, f.
  assert (c = OK_) as -> by (destruct c; congruence). auto.
Qed.

(** The state of a log and of its queue. *)
Definition log_state : Type := Z * list (Z * list entry) * list entry * list CommitLogFileInfo.
Definition in_state (s : log_state) (f : F) (cl : CommitLog) : Prop :=
  let '(num, frs, cur, q) := s in
  writing f cl frs cur /\ cl_cur_fragment_num cl = num /\ lb_fragment_queue (cl_base cl) = q.

Lemma write_grows buf ts s cl f cl' f' : in_state s f cl -> op_ok (Write buf ts) -> cl_cur_fragment_num cl + 1 < 2 ^ 31 ->
  write buf ts cl f = (Ok OK_, cl', f') ->
  exists s', grows (lb_log_dir (cl_base cl)) (Data ts buf) s s' /\ in_state s' f' cl' /\ lb_log_dir (cl_base cl') = lb_log_dir (cl_base cl).
Proof.
  destruct s as [[[num frs] cur] q]. intros (Hw & <- & <-) (Hts & Wb & Hb) Hn E. unfold write in E.
  apply and_then_ok in E as (cl1 & f1 & E1 & E2). unfold compress_and_write in E1.
  destruct (deflate _ _ _) as [[b h]|c|] eqn:Ed.
  2: { destruct (deflate_ok (cl_compressor cl) buf (BlockHeaderCommitLog_make MAGIC_DATA ts)) as (? & ? & _ & E); try congruence.
       - exact (codec_lossless _ _ (w_codec _ _ _ _ Hw)).
       - split; [reflexivity|]. split; [repeat constructor; cbv; congruence|exact Hts]. }
  2: discriminate.
  pose proof (deflate_entry _ _ _ _ _ (w_codec _ _ _ _ Hw) Wb Hb Hts Ed) as He.
  destruct (written_ok (Data ts buf) b frs cur cl f cl1 f1 Hw He E1) as (Hw1 & Hd1 & Hn1 & Hq1 & Ht1 & Hne).
  destruct (_ <? _); [|inv E2; eexists; split; [constructor|]; split; [split; [exact Hw1|auto]|exact Hd1]].
  destruct (roll_ok _ _ _ _ _ _ Hw1 ltac:(lia) ltac:(congruence) E2) as (Hw2 & Hd2 & Hn2 & Hq2). rewrite Hn1 in Hw2, Hn2.
  eexists. split; [apply (grows_rolled _ _ _ _ _ _ (fragment_info cl1)); [exact Hd1|exact Hn1|exact Ht1]|]. split; [|congruence].
  split; [exact Hw2|]. split; [exact Hn2|congruence].
Qed.

(** A link always ends its fragment; the fragments of the other log join the queue. *)
Lemma link_grows other ts num frs cur q cl f cl' f' : in_state (num, frs, cur, q) f cl -> op_ok (LinkLog other ts) ->
  cl_cur_fragment_num cl + 1 < 2 ^ 31 -> link_log other ts cl f = (Ok OK_, cl', f') ->
  exists q', in_state (num + 1, frs ++ [(num, cur ++ [Link ts (lb_log_dir other)])], [], q') f' cl' /\
    lb_log_dir (cl_base cl') = lb_log_dir (cl_base cl).
Proof.
  intros (Hw & <- & <-) (Hts & Wd & Nd & Hd) Hn E. cbn [entry_ts op_entry] in Hts. unfold link_log in E. pose proof (link_block_is _ _ Wd Hd Hts) as El.
  rewrite El in E. pose proof (link_entry _ _ _ Wd Nd Hd Hts El) as He.
  set (b := block _ _) in *. clearbody b.
  assert (X : exists cl1 f1, catching (fd_append (cl_fd cl) b f) cl (fun f => written ts (zlen b) cl f) = (Ok OK_, cl1, f1) /\
    and_then (roll cl1 f1) (fun cl f => (Ok OK_, with_base (stitch_in other (cl_base cl)) cl, f)) = (Ok OK_, cl', f')).
  { destruct (fd_append _ _ f) as [[[]|c|] f1] eqn:Ea; cbn [catching] in *; [now apply and_then_ok in E| |discriminate].
    exfalso. inv E. rewrite (w_fd _ _ _ _ Hw) in Ea. now apply append_code in Ea. }
  destruct X as (cl1 & f1 & E1 & E2).
  destruct (written_ok (Link ts (lb_log_dir other)) b frs cur cl f cl1 f1 Hw He E1) as (Hw1 & Hd1 & Hn1 & Hq1 & Ht1 & Hne).
  apply and_then_ok in E2 as (cl2 & f2 & E2 & E3). inv E3.
  destruct (roll_ok _ _ _ _ _ _ Hw1 ltac:(lia) ltac:(congruence) E2) as (Hw2 & Hd2 & Hn2 & Hq2). rewrite Hn1 in *.
  eexists. split; [|cbn; congruence]. split; [|split; [exact Hn2|reflexivity]]. destruct Hw2 as [H1 H2 H3]. split; assumption.
Qed.

(** The entries of a log. *)
Definition entries_of (s : log_state) : list entry := let '(num, frs, cur, q) := s in concat (map snd frs) ++ cur.
Definition num_of (s : log_state) : Z := let '(num, frs, cur, q) := s in num.

Lemma grows_entries d e s s' : grows d e s s' -> entries_of s' = entries_of s ++ [e] /\ num_of s <= num_of s' <= num_of s + 1.
Proof.
  destruct 1; cbn [entries_of num_of]; (split; [|lia]).
  - apply app_assoc.
  - rewrite map_app, concat_app. cbn. now rewrite !app_nil_r, app_assoc.
Qed.

Lemma op_grows o s cl f cl' f' : in_state s f cl -> op_ok o -> cl_cur_fragment_num cl + 1 < 2 ^ 31 ->
  op_run o cl f = (Ok OK_, cl', f') ->
  exists s', in_state s' f' cl' /\ lb_log_dir (cl_base cl') = lb_log_dir (cl_base cl) /\
    entries_of s' = entries_of s ++ [op_entry o] /\ num_of s' <= num_of s + 1.
Proof.
  intros Hs Ho Hn E. destruct o as [buf ts|other ts]; cbn [op_run op_entry] in *.
  - destruct (write_grows _ _ _ _ _ _ _ Hs Ho Hn E) as (s' & Hg & Hs' & Hd). apply grows_entries in Hg as [He Hb]. exists s'. repeat split; auto. lia.
  - destruct s as [[[num frs] cur] q]. destruct (link_grows _ _ _ _ _ _ _ _ _ _ Hs Ho Hn E) as (q' & Hs' & Hd).
    eexists. split; [exact Hs'|]. split; [exact Hd|]. cbn [entries_of num_of]. split; [|lia].
    rewrite map_app, concat_app. cbn. now rewrite !app_nil_r, app_assoc.
Qed.

Lemma state_num s f cl : in_state s f cl -> cl_cur_fragment_num cl = num_of s.
Proof. destruct s as [[[num frs] cur] q]. now intros (_ & -> & _). Qed.

Lemma run_grows ops : forall s cl f cl' f', in_state s f cl -> Forall op_ok ops ->
  num_of s + zlen ops < 2 ^ 31 -> run_ops ops cl f = (Ok OK_, cl', f') ->
  exists s', in_state s' f' cl' /\ lb_log_dir (cl_base cl') = lb_log_dir (cl_base cl) /\
    entries_of s' = entries_of s ++ map op_entry ops.
Proof.
  induction ops as [|o ops IH]; intros s cl f cl' f' Hs Ho Hn E; cbn [run_ops map] in *.
  - inv E. exists s. rewrite app_nil_r. auto.
  - inv Ho. apply and_then_ok in E as (cl1 & f1 & E1 & E2).
    assert (Hl : zlen (o :: ops) = 1 + zlen ops) by (unfold zlen; cbn [length]; lia). pose proof (zlen_nonneg ops).
    destruct (op_grows o s cl f cl1 f1 Hs H1) as (s1 & Hs1 & Hd1 & He1 & Hb); [rewrite (state_num _ _ _ Hs); lia|exact E1|].
    destruct (IH s1 cl1 f1 cl' f' Hs1 H2 ltac:(lia) E2) as (s' & Hs' & Hd & He). exists s'. split; [exact Hs'|]. split; [congruence|].
    rewrite He, He1, <- app_assoc. reflexivity.
Qed.

(** ** A new log *)

Lemma one_past_from nums : forall cur, 0 <= cur -> Forall (fun n => 0 <= n < 2 ^ 32 - 1) nums ->
  let r := fold_left (fun cur num => if cur <=? num then u32 (num + 1) else cur) nums cur in
  cur <= r /\ Forall (fun n => n < r) nums.
Proof.
  induction nums as [|n nums IH]; intros cur Hc Hn; cbn [fold_left]; [split; [lia|constructor]|]. inv Hn. cbv zeta in *.
  rewrite wrap_small by (unfold in_range; lia).
  destruct (IH (if cur <=? n then n + 1 else cur)) as [H3 H4]; [destruct (Z.leb_spec cur n); lia|assumption|].
  split; [destruct (Z.leb_spec cur n); lia|]. constructor; [destruct (Z.leb_spec cur n); lia|assumption].
Qed.

Lemma atoi_num name : c_atoi name <> -1 -> 0 <= u32 (c_atoi name) < 2 ^ 32 - 1.
Proof.
  intros H. pose proof (wrap_range 32 (c_atoi name) ltac:(lia)) as Hr. unfold in_range in Hr. split; [lia|].
  assert (Hb : - 2 ^ 31 <= c_atoi name < 2 ^ 31).
  { unfold c_atoi, signed. pose proof (wrap_range 32 (fst (strtol name)) ltac:(lia)) as Hw. unfold in_range in Hw. cbv zeta.
    destruct (Z.ltb_spec (wrap 32 (fst (strtol name))) (2 ^ (32 - 1))); lia. }
  unfold wrap in *. destruct (Z_lt_le_dec (c_atoi name) 0); [|rewrite Z.mod_small; lia].
  replace (c_atoi name) with (c_atoi name + 2 ^ 32 + (-1) * 2 ^ 32) by lia. rewrite Z.mod_add, Z.mod_small; lia.
Qed.

Lemma atoi_digits n : 0 <= n < 2 ^ 31 -> u32 (c_atoi (dec_digits 10 n)) = n.
Proof. intros H. unfold c_atoi. rewrite strtol_digits by lia. cbn [fst]. rewrite signed_small by lia. apply wrap_small. unfold in_range. lia. Qed.

Lemma no_longer (d n r : list Z) : d = (d ++ n ++ [47]) ++ r -> False.
Proof. intros E. apply (f_equal (@length Z)) in E. rewrite !length_app in E. cbn in E. lia. Qed.

Lemma log_initialize_ok z max d f names frs cl f1 : codec_of (z_type z) = Ok z ->
  stored f (add_trailing_slash d) frs -> dfs_readdir (add_trailing_slash d) f = Ok names -> Forall (fun n => c_atoi n <> -1) names ->
  initialize z max d None f = (Ok cl, f1) -> cl_cur_fragment_num cl < 2 ^ 31 ->
  in_state (cl_cur_fragment_num cl, frs, [], []) f1 cl /\ lb_log_dir (cl_base cl) = add_trailing_slash d.
Proof.
  intros Hz Hst Hr Ha E Hn. unfold initialize in E. rewrite Hr in E. cbn [bind] in E.
  set (nums := map (fun name => u32 (c_atoi name)) names) in *.
  destruct (one_past_from nums 0 ltac:(lia)) as [Hp0 Hp].
  { apply Forall_map. eapply Forall_impl; [|exact Ha]. exact atoi_num. }
  fold (one_past nums) in Hp0, Hp.
  destruct (dfs_mkdirs _ f) as [[[]|c|] f2] eqn:Em; [|discriminate|discriminate].
  destruct (dfs_create _ f2) as [[[]|c|] f3] eqn:Ec; [|discriminate|discriminate]. cbn [bind] in E. inv E.
  cbn [cl_cur_fragment_num] in Hn. rewrite fragment_name_digits in Ec by lia.
  destruct (mkdirs_same _ _ _ Em) as [Hm1 Hm2]. destruct (create_empty _ _ _ Ec) as [Hc1 Hc2]. cbn. split; [|reflexivity].
  split; [|auto]. split; cbn; [now rewrite fragment_name_digits by lia|assumption|].
  apply (stored_create f2); [| |lia|assumption|assumption].
  - apply (stored_same f); [assumption|assumption|]. intros n _ Hd. apply Hm2 in Hd as [Hd|(r & Hd)]; [exact Hd|now apply no_longer in Hd].
  - destruct Hst as [_ Hb Hf _]. rewrite Forall_forall in *. intros n Hi. specialize (Hb n Hi). rewrite <- (atoi_digits n Hb). apply Hp.
    apply in_map_iff. eexists. split; [reflexivity|]. apply (readdir_names _ _ _ _ Hr). apply in_fst in Hi as [es Hi]. destruct (Hf n es Hi) as (c & Hc & _).
    rewrite Hc. split; [left; discriminate|]. apply digits_name. lia.
Qed.

Lemma state_stored num frs cur q f cl : in_state (num, frs, cur, q) f cl -> stored f (lb_log_dir (cl_base cl)) (frs ++ [(num, cur)]).
Proof. intros ([_ _ H] & <- & _). exact H. Qed.

Lemma slash_slash d : add_trailing_slash (add_trailing_slash d) = add_trailing_slash d.
Proof.
  unfold add_trailing_slash. destruct (Z.eqb_spec (last d 0) 47) as [E|E]; [now rewrite (proj2 (Z.eqb_eq _ _) E)|]. now rewrite last_last.
Qed.

(** C8. A commit log gives back what was written to it.  A log is opened in a
    directory that may hold fragments of earlier logs, and written and linked to,
    every call returning [Error::OK]; a reader of the directory then returns, in
    order, the blocks of the old fragments, the blocks written, with their
    timestamps, and in the place of each link the blocks of the linked log,
    however often the log was rolled, and ends. *)
Theorem log_roundtrip fatal z max d f names frs cl f1 ops cl' f' names' out h :
  codec_of (z_type z) = Ok z ->
  stored f (add_trailing_slash d) frs -> dfs_readdir (add_trailing_slash d) f = Ok names -> Forall (fun n => c_atoi n <> -1) names ->
  initialize z max d None f = (Ok cl, f1) -> Forall op_ok ops -> cl_cur_fragment_num cl + zlen ops < 2 ^ 31 ->
  run_ops ops cl f1 = (Ok OK_, cl', f') -> dfs_readdir (add_trailing_slash d) f' = Ok names' ->
  replays codec_of f' (concat (map snd frs) ++ map op_entry ops) out ->
  exists n r, forall m, (n <= m)%nat -> read_log fatal codec_of f' m d h = Some (Ok (out, r)).
Proof.
  intros Hz Hst Hr Ha E1 Ho Hn E2 Hr' Hp. pose proof (zlen_nonneg ops).
  destruct (log_initialize_ok z max d f names frs cl f1 Hz Hst Hr Ha E1 ltac:(lia)) as [Hs Hd].
  destruct (run_grows ops _ _ _ _ _ Hs Ho Hn E2) as ([[[num frs'] cur] q] & Hs' & Hd' & He).
  pose proof (state_stored _ _ _ _ _ _ Hs') as Hst'. rewrite Hd', Hd in Hst'.
  apply (replays_log fatal codec_of f' d _ names' out h Hst' Hr').
  replace (concat (map snd (frs' ++ [(num, cur)]))) with (entries_of (num, frs', cur, q)); [rewrite He; cbn; now rewrite app_nil_r|].
  cbn [entries_of]. rewrite map_app, concat_app. cbn. now rewrite app_nil_r.
Qed.

(** ** Purging *)

(** An entry of the queue describes a fragment: its name, and a time none of its
    entries is later than. *)
Definition describes (d : list Z) (i : CommitLogFileInfo) (fr : Z * list entry) : Prop :=
  fi_log_dir i = d /\ fi_num i = fst fr /\ Forall (fun e => entry_ts e <= fi_timestamp i) (snd fr).

Lemma purge_stored ts q : forall d f old news rest q' f', Forall2 (describes d) q news ->
  stored f d (old ++ news ++ rest) -> purge_queue ts q f = (Ok OK_, q', f') ->
  exists gone kept, news = gone ++ kept /\ stored f' d (old ++ kept ++ rest) /\
    Forall (fun e => entry_ts e < ts) (concat (map snd gone)).
Proof.
  induction q as [|i q IH]; intros d f old news rest q' f' Hq Hst E; inversion Hq as [|? fr ? news' Hi Hq']; subst; cbn [purge_queue] in E.
  - inv E. exists [], []. split; [reflexivity|]. split; [exact Hst|constructor].
  - destruct (Z.ltb_spec (fi_timestamp i) ts) as [Hts|Hts]; [|inv E; exists [], (fr :: news'); split; [reflexivity|]; split; [exact Hst|constructor]].
    destruct fr as [num es]. destruct Hi as (Hd & Hnum & Hes). cbn [fst snd] in *. rewrite Hd, Hnum in E.
    assert (Hr : 0 <= num < 2 ^ 31).
    { destruct Hst as [_ N _ _]. rewrite Forall_forall in N. apply N. rewrite !map_app. apply in_or_app. right. now left. }
    rewrite fragment_name_digits in E by exact Hr.
    destruct (dfs_remove _ f) as [[[]|c|] f1] eqn:Er; [|inv E; now apply remove_code in Er|discriminate].
    destruct (remove_gone _ _ _ Er) as [Hg Hdirs].
    destruct (IH d f1 old news' rest q' f' Hq') as (gone & kept & -> & H1 & H2); [|exact E|].
    + exact (stored_remove _ _ _ _ _ _ _ Hst Hg Hdirs).
    + exists ((num, es) :: gone), kept. split; [reflexivity|]. split; [exact H1|]. cbn [map concat snd]. apply Forall_app. split; [|exact H2].
      eapply Forall_impl; [|exact Hes]. cbn. lia.
Qed.

(** Blocks written in the order of their timestamps are described by the queue. *)
Definition writes (data : list (Z * list Z)) : list op := map (fun b => Write (snd b) (fst b)) data.

Lemma writes_describe data : forall d old num news cur q cl f cl' f',
  in_state (num, old ++ news, cur, q) f cl -> lb_log_dir (cl_base cl) = d -> Forall2 (describes d) q news ->
  Forall op_ok (writes data) -> num + zlen data < 2 ^ 31 ->
  StronglySorted Z.le (map entry_ts cur ++ map fst data) ->
  run_ops (writes data) cl f = (Ok OK_, cl', f') ->
  exists num' news' cur' q', in_state (num', old ++ news', cur', q') f' cl' /\ lb_log_dir (cl_base cl') = d /\ Forall2 (describes d) q' news' /\
    concat (map snd news') ++ cur' = concat (map snd news) ++ cur ++ map op_entry (writes data).
Proof.
  induction data as [|[ts buf] data IH]; intros d old num news cur q cl f cl' f' Hs Hd Hq Ho Hn Hord E; cbn [writes map run_ops fst snd] in *.
  - inv E. exists num, news, cur, q. rewrite app_nil_r. auto.
  - inv Ho. apply and_then_ok in E as (cl1 & f1 & E1 & E2). assert (Hl : zlen ((ts, buf) :: data) = 1 + zlen data) by (unfold zlen; cbn [length]; lia).
    pose proof (zlen_nonneg data). cbn [op_run] in E1.
    assert (Hnum : cl_cur_fragment_num cl = num) by exact (state_num _ _ _ Hs).
    destruct (write_grows _ _ _ _ _ _ _ Hs H1 ltac:(lia) E1) as (s' & Hg & Hs1 & Hd1).
    inversion Hg as [? ? ? ?|? ? ? ? i Hi1 Hi2 Hi3]; subst.
    + destruct (IH (lb_log_dir (cl_base cl)) old _ news (cur ++ [Data ts buf]) q cl1 f1 cl' f' Hs1 Hd1 Hq H2 ltac:(lia)) as (n' & w' & c' & q' & R1 & R2 & R3 & R4);
        [rewrite map_app, <- app_assoc; exact Hord|exact E2|].
      exists n', w', c', q'. split; [exact R1|]. split; [exact R2|]. split; [exact R3|]. rewrite R4, <- !app_assoc. reflexivity.
    + rewrite <- app_assoc in Hs1.
      destruct (IH (lb_log_dir (cl_base cl)) old _ (news ++ [(cl_cur_fragment_num cl, cur ++ [Data ts buf])]) [] (q ++ [i]) cl1 f1 cl' f' Hs1 Hd1)
        as (n' & w' & c' & q' & R1 & R2 & R3 & R4); [|exact H2|lia| |exact E2|].
      * apply Forall2_app; [exact Hq|]. repeat constructor; cbn [fst snd]; auto. rewrite Hi3. cbn [entry_ts].
        apply Forall_app. split; [|repeat constructor; cbn; lia]. apply sorted_app in Hord as (_ & _ & Hord). apply Forall_forall.
        intros e He. apply Hord; [now apply in_map|now left].
      * apply sorted_app in Hord as (_ & Hord & _). now inv Hord.
      * exists n', w', c', q'. split; [exact R1|]. split; [exact R2|]. split; [exact R3|]. rewrite R4, map_app, concat_app. cbn. now rewrite app_nil_r, <- !app_assoc.
Qed.

Lemma writes_entries data : map op_entry (writes data) = map (fun b => Data (fst b) (snd b)) data.
Proof. unfold writes. rewrite map_map. reflexivity. Qed.

Lemma data_of_app a b : data_of (a ++ b) = data_of a ++ data_of b.
Proof. apply flat_map_app. Qed.

Lemma data_of_writes data : data_of (map (fun b => Data (fst b) (snd b)) data) = data.
Proof. induction data as [|[ts buf] data IH]; [reflexivity|]. unfold data_of in *. cbn [map flat_map fst snd]. now rewrite IH. Qed.

Definition only_data (es : list entry) : Prop := Forall (fun e => match e with Data _ _ => True | Link _ _ => False end) es.

Lemma only_data_writes data : only_data (map (fun b => Data (fst b) (snd b)) data).
Proof. apply Forall_map, Forall_forall. easy. Qed.

Lemma data_of_before ts es : Forall (fun e => entry_ts e < ts) es -> Forall (fun b => fst b < ts) (data_of es).
Proof. induction 1 as [|[t b|t d] es He _ IH]; [constructor|constructor; assumption|exact IH]. Qed.

(** C9. Purging a log loses no recent block.  Blocks are written to a log, in the
    order of their timestamps, and the log is purged with a cutoff, every call
    returning [Error::OK]: a reader then returns the blocks of the earlier
    fragments of the directory and, of the blocks written, all but some first ones,
    each of them older than the cutoff. *)
Theorem purge_keeps_recent fatal z max d f names frs cl f1 data cl' f' cutoff cl'' f'' names'' h :
  codec_of (z_type z) = Ok z ->
  stored f (add_trailing_slash d) frs -> only_data (concat (map snd frs)) ->
  dfs_readdir (add_trailing_slash d) f = Ok names -> Forall (fun n => c_atoi n <> -1) names ->
  initialize z max d None f = (Ok cl, f1) -> Forall op_ok (writes data) -> cl_cur_fragment_num cl + zlen data < 2 ^ 31 ->
  StronglySorted Z.le (map fst data) -> run_ops (writes data) cl f1 = (Ok OK_, cl', f') ->
  purge cutoff cl' f' = (Ok OK_, cl'', f'') -> dfs_readdir (add_trailing_slash d) f'' = Ok names'' ->
  exists gone kept, data = gone ++ kept /\ Forall (fun b => fst b < cutoff) gone /\
    exists n r, forall m, (n <= m)%nat ->
      read_log fatal codec_of f'' m d h = Some (Ok (data_of (concat (map snd frs)) ++ kept, r)).
Proof.
  intros Hz Hst Hold Hr Ha E1 Ho Hn Hord E2 E3 Hr'. pose proof (zlen_nonneg data).
  destruct (log_initialize_ok z max d f names frs cl f1 Hz Hst Hr Ha E1 ltac:(lia)) as [Hs Hd]. rewrite <- (app_nil_r frs) in Hs.
  destruct (writes_describe data _ frs _ [] [] [] cl f1 cl' f' Hs Hd (Forall2_nil _) Ho Hn Hord E2) as (num' & news & cur & q & Hs' & Hd' & Hq & He).
  cbn [map concat app] in He. rewrite writes_entries in He. pose proof (state_stored _ _ _ _ _ _ Hs') as Hst'. rewrite Hd', <- app_assoc in Hst'.
  unfold purge in E3. destruct Hs' as (_ & _ & Hq'). rewrite Hq' in E3. destruct (purge_queue cutoff q f') as [[r q'] f3] eqn:Ep. inv E3.
  destruct (purge_stored _ _ _ _ _ _ _ _ _ Hq Hst' Ep) as (gone & kept & -> & Hst'' & Hgone).
  assert (Hdata : data = data_of (concat (map snd gone)) ++ data_of (concat (map snd kept) ++ cur)).
  { rewrite <- (data_of_writes data) at 1. rewrite <- He, map_app, concat_app, !data_of_app, app_assoc. reflexivity. }
  exists (data_of (concat (map snd gone))), (data_of (concat (map snd kept) ++ cur)). split; [exact Hdata|]. split; [now apply data_of_before|].
  rewrite <- data_of_app. apply (replays_log fatal codec_of f'' d _ names'' _ h Hst'' Hr').
  rewrite !map_app, !concat_app. cbn [map snd concat]. rewrite app_nil_r. apply replays_only_data.
  pose proof (only_data_writes data) as Hw. rewrite <- He, map_app, concat_app, <- app_assoc in Hw. apply Forall_app in Hw as [_ Hw].
  apply Forall_app. split; assumption.
Qed.

End Writing.
