(* ===== verification/CommitLogTorn.v ===== *)
(** * Damaged commit logs

    What [CommitLogReader] makes of a log whose last block was cut off and of a
    block whose data are damaged, and what becomes of such a log when a range
    server is started on it. *)
From S2P Require Import Prelude Errors Serialization Checksum ByteString Wire BlockCodec CommitLog CommitLogRuns CommitLogWrites.
From Stdlib Require Import ZArith Lia List Bool.
Import ListNotations.
Open Scope Z_scope.
Open Scope result_scope.

Section Damaged.
Context {F : Type} {DO : Dfs F} {DL : DfsLaws F}.
Variable fatal : bool.
Variable codec_of : Z -> result Compressor.
Variable f : F.

Abbreviation reads := (reads fatal codec_of f).
Abbreviation opens_then := (opens_then codec_of f).

(** A log of one fragment, [0]: entries, and something else behind them. *)
Record damaged (d : list Z) (es : list entry) (tail : list Z) : Prop := {
  dm_names : dfs_readdir (add_trailing_slash d) f = Ok [[48]];
  dm_data : only_data es;
  dm_file : exists c, dfs_contents f (add_trailing_slash d ++ [48]) = Some (c ++ tail) /\ encodes codec_of es c;
  dm_tail : tail <> [] }.

Lemma damaged_loaded d es tail r : damaged d es tail ->
  exists top, load_fragments f d r = Ok {| cr_base := cr_base r; cr_stack := top :: cr_stack r |} /\ opens_then tail top es.
Proof.
  intros [Hn _ (c & Hc & He) Ht]. unfold load_fragments. rewrite Hn. cbn [bind fragments].
  change (strtol [48]) with (0, @nil Z). rewrite (length_contents _ _ _ Hc). cbn [bind].
  assert (Hp : 0 < zlen (c ++ tail)).
  { rewrite zlen_app. pose proof (zlen_nonneg c). destruct tail as [|x tail]; [congruence|]. unfold zlen at 2. cbn [length]. lia. }
  rewrite (proj2 (Z.ltb_lt _ _) Hp). eexists. split; [reflexivity|]. unfold CommitLogRuns.opens_then, open_stream, load.
  cbn [rev app purging fi_block_stream fi_log_dir fi_num]. change (dec_digits 10 (u32 0)) with [48].
  rewrite (length_contents _ _ _ Hc), (open_contents _ _ _ Hc). cbn [bind]. eexists _, c. split; [reflexivity|].
  pose proof (contents_small _ _ _ Hc). split; [split; cbn; lia|]. split; [exact He|reflexivity].
Qed.

(** Reading is reading the entries and then what is behind them. *)
Lemma damaged_read (P : result (list (Z * list Z) * CommitLogReader) -> Prop) d es tail h : damaged d es tail ->
  (forall top b h, opens_then tail top [] -> lb_fragment_queue b = [] -> exists v, P v /\ reads {| cr_base := b; cr_stack := [top] |} h v) ->
  exists v n, P v /\ forall m, (n <= m)%nat -> read_log fatal codec_of f m d h = Some (behind (data_of es) v).
Proof.
  intros Hd Hv. unfold read_log, CommitLogReader_make. set (r := {| cr_base := _; cr_stack := [] |}).
  destruct (damaged_loaded d es tail r Hd) as (top & -> & Ho).
  destruct (data_prefix fatal codec_of f P es tail top [] (cr_base r) h (dm_data _ _ _ Hd) Ho) as (v & Pv & n & Hn).
  - intros top' b' h' Ho' Hq. now apply Hv.
  - exists v, n. split; [exact Pv|]. intros m Hm. exact (read_more _ _ _ _ _ _ _ _ Hm Hn).
Qed.

(** A block cut off in its data ends the fragment, which is not queued. *)
Lemma cut_read hd payload cut top b h : log_header hd payload -> bh_magic hd = MAGIC_DATA -> zlen cut < zlen payload ->
  opens_then (front hd ++ cut) top [] ->
  reads {| cr_base := b; cr_stack := [top] |} h (Ok ([], {| cr_base := b; cr_stack := [] |})).
Proof.
  intros Hh Hm Hc (s & c & E & Hs & He & Hr). inv He. cbn [app] in Hr.
  destruct (stream_next_cut fatal hd payload cut s h Hh Hs Hr Hc) as (i & s' & En & Hi & _).
  refine (reads_skip _ _ _ _ _ i {| cr_base := b; cr_stack := [with_stream (Some s') top] |} hd _ _ _ _); [|rewrite Hi; discriminate|apply reads_end].
  unfold raw_step. cbn [cr_stack cr_base]. rewrite E. cbn [bind]. rewrite En. cbn [bind].
  assert (M : check_magic MAGIC_LINK hd = false) by (unfold check_magic; now rewrite Hm). now rewrite M.
Qed.

(** C36. A log that was cut off in its last block is erased by the recovery from
    it.  The reader returns the complete blocks in front of the one that was cut,
    as it should; but it drops the fragment without queueing it, so that the
    [CommitLog] the range server then opens on the same directory, from that
    reader, takes the number of the fragment for its own and creates the file
    anew: the blocks just replayed into memory are no longer in any log. *)
Theorem torn_log_erased d es hd payload cut h : damaged d es (front hd ++ cut) ->
  log_header hd payload -> bh_magic hd = MAGIC_DATA -> zlen cut < zlen payload ->
  exists n r, (forall m, (n <= m)%nat -> read_log fatal codec_of f m d h = Some (Ok (data_of es, r))) /\
    forall z max cl f', initialize z max d (Some (cr_base r)) f = (Ok cl, f') ->
      dfs_contents f' (add_trailing_slash d ++ [48]) = Some [].
Proof.
  intros Hd Hh Hm Hc.
  destruct (damaged_read (fun v => exists r, v = Ok ([], r) /\ lb_fragment_queue (cr_base r) = []) d es (front hd ++ cut) h Hd)
    as (v & n & (r & -> & Hq) & Hn).
  - intros top b h' Ho Hb. eexists. split; [|exact (cut_read hd payload cut top b h' Hh Hm Hc Ho)]. eauto.
  - exists n, r. split; [intros m Hle; rewrite (Hn m Hle); cbn; now rewrite app_nil_r|].
    intros z max cl f' E. unfold initialize in E. rewrite Hq in E. cbn [map] in E. change (one_past []) with 0 in E.
    destruct (dfs_mkdirs _ f) as [[[]|c|] f2]; [|discriminate|discriminate].
    destruct (dfs_create _ f2) as [[[]|c|] f3] eqn:Ec; [|discriminate|discriminate]. cbn [bind] in E. inv E.
    now destruct (create_empty _ _ _ Ec) as [[Hc1 _] _].
Qed.

(** A header that was cut off: the process ends, or, when fatal messages are not
    logged, the fragment is dropped as above. *)
Lemma torn_header_read top b h tail : opens_then tail top [] -> 0 < zlen tail < 34 -> check_magic MAGIC_LINK h = false ->
  reads {| cr_base := b; cr_stack := [top] |} h (if fatal then Fault else Ok ([], {| cr_base := b; cr_stack := [] |})).
Proof.
  intros (s & c & E & Hs & He & Hr) Hl M. inv He. cbn [app] in Hr.
  pose proof (stream_next_torn fatal s h Hs ltac:(rewrite Hr; exact Hl)) as T. destruct fatal.
  - apply reads_fault. unfold raw_step. cbn [cr_stack cr_base]. rewrite E. cbn [bind]. now rewrite T.
  - destruct T as (i & s' & En & Hi & _).
    refine (reads_skip _ _ _ _ _ i {| cr_base := b; cr_stack := [with_stream (Some s') top] |} h _ _ _ _); [|rewrite Hi; discriminate|apply reads_end].
    unfold raw_step. cbn [cr_stack cr_base]. rewrite E. cbn [bind]. rewrite En. cbn [bind]. now rewrite M.
Qed.

(** A link that was cut off is followed all the same, through a null pointer. *)
Lemma torn_link_faults hd payload cut top b h : log_header hd payload -> bh_magic hd = MAGIC_LINK -> zlen cut < zlen payload ->
  opens_then (front hd ++ cut) top [] -> reads {| cr_base := b; cr_stack := [top] |} h Fault.
Proof.
  intros Hh Hm Hc (s & c & E & Hs & He & Hr). inv He. cbn [app] in Hr.
  destruct (stream_next_cut fatal hd payload cut s h Hh Hs Hr Hc) as (i & s' & En & Hi & Hb).
  apply reads_fault. unfold raw_step. cbn [cr_stack cr_base]. rewrite E. cbn [bind]. rewrite En. cbn [bind].
  assert (M : check_magic MAGIC_LINK hd = true) by (unfold check_magic; now rewrite Hm). rewrite M, Hb. now destruct (negb _).
Qed.

(** *** Damaged data *)

Lemma inflate_mismatch z h payload : log_header h payload -> wf_bytes payload ->
  bh_data_checksum h <> fletcher32_spec (be_words payload) -> inflate z true (block h payload) = Throw BLOCK_COMPRESSOR_CHECKSUM_MISMATCH.
Proof.
  intros [W L Hz] Wp Hne. unfold inflate.
  assert (Hn : zlen (block h payload) = 34 + zlen payload).
  { rewrite block_front, zlen_app. unfold zlen at 1. now rewrite front_length. }
  pose proof (zlen_nonneg payload). rewrite Hn. unfold block. pose proof (BlockHeader_decode_ok h payload (34 + zlen payload) W) as D.
  rewrite L in D. change (bh_length true) with 34 in D. rewrite D by lia. cbn [bind ip remain].
  replace (34 + zlen payload - 34) with (zlen payload) by lia. rewrite Hz, Z.eqb_refl. cbn [negb].
  rewrite <- (zlen_to_nat payload (zlen payload) eq_refl), fletcher32_eq by assumption. cbn [bind].
  now rewrite (proj2 (Z.eqb_neq _ _)) by congruence.
Qed.

(** A block of data that does not match its checksum ends the process of the
    reader.  [CommitLogReader::next] means to log the error and to go on behind the
    block; but the exception destroys a buffer that points at the memory of the
    block stream, which is read into or freed a second time in the next round. *)
Theorem corrupt_block_faults d es hd payload rest h : damaged d es (block hd payload ++ rest) ->
  log_header hd payload -> bh_magic hd = MAGIC_DATA -> wf_bytes payload ->
  bh_data_checksum hd <> fletcher32_spec (be_words payload) ->
  exists n, forall m, (n <= m)%nat -> read_log fatal codec_of f m d h = Some Fault.
Proof.
  intros Hd Hh Hm Wp Hne. destruct (damaged_read (fun v => v = Fault) d es (block hd payload ++ rest) h Hd) as (v & n & -> & Hn); [|now exists n].
  intros top b h' (s & c & E & Hs & He & Hr) _. inv He. cbn [app] in Hr. exists Fault. split; [reflexivity|]. exists 3%nat.
  cbn. rewrite E. cbn [bind]. rewrite (stream_next_block fatal hd payload rest) by assumption. cbn [bind].
  assert (M : check_magic MAGIC_LINK hd = false) by (unfold check_magic; now rewrite Hm). rewrite M. cbn [bi_error bi_block block_info].
  unfold inflate_block. destruct (load_compressor codec_of (bh_compression_type hd)) as [z| |]; cbn [bind]; [|reflexivity|reflexivity].
  now rewrite inflate_mismatch by assumption.
Qed.

End Damaged.
