(* ===== verification/CommitLogSamples.v ===== *)
(** * Commit logs: a file system and examples

    A file system in memory that satisfies [DfsLaws], the logs the theorems about
    commit logs are applied to, and what happens to the timestamps of fragments
    when a log is recovered that links another one. *)
From S2P Require Import Prelude Errors Serialization Checksum ByteString Wire BlockCodec CommitLog CommitLogRuns CommitLogWrites CommitLogTorn.
From Stdlib Require Import ZArith Lia List Bool Sorted.
Import ListNotations.
Open Scope Z_scope.
Open Scope result_scope.

(** ** A file system in memory *)

Module MemFs.

(** Paths and contents; the directories are those of the paths. *)
Definition t : Type := list (list Z * list Z).

Definition fits (c : list Z) : bool := zlen c <? 2 ^ 63.
Fixpoint find (p : list Z) (f : t) : option (list Z) :=
  match f with [] => None | (q, c) :: f => if bytes_eqb q p then Some c else find p f end.
Definition contents (f : t) (p : list Z) : option (list Z) :=
  match find p f with Some c => if fits c then Some c else None | None => None end.
Definition drop (p : list Z) (f : t) : t := filter (fun qc => negb (bytes_eqb (fst qc) p)) f.

Fixpoint strip (d p : list Z) : option (list Z) :=
  match d, p with
  | [], _ => Some p
  | x :: d, y :: p => if x =? y then strip d p else None
  | _ :: _, [] => None
  end.

Definition name_in (d : list Z) (f : t) (qc : list Z * list Z) : list (list Z) :=
  match strip d (fst qc) with
  | Some n => if negb (bytes_eqb n []) && negb (existsb (Z.eqb 47) n) && (match contents f (fst qc) with Some _ => true | None => false end)
              then [n] else []
  | None => []
  end.
Definition names (d : list Z) (f : t) : list (list Z) := nodup (list_eq_dec Z.eq_dec) (flat_map (name_in d f) f).

Definition missing {A} : result A := Throw DFSBROKER_FILE_NOT_FOUND.
Definition answer {A B} (o : option A) (g : A -> B) : result B := match o with Some c => Ok (g c) | None => missing end.

#[global] Instance dfs : Dfs t := {|
  dfs_contents := contents;
  dfs_isdir := fun _ _ => False;
  dfs_readdir := fun d f => Ok (names d f);
  dfs_length := fun p f => answer (contents f p) zlen;
  dfs_open := fun p f => answer (contents f p) (fun c => c);
  dfs_mkdirs := fun _ f => (Ok tt, f);
  dfs_create := fun p f => (Ok tt, (p, []) :: f);
  dfs_append := fun p b f =>
    match contents f p with
    | Some c => if fits (c ++ b) then (Ok tt, (p, c ++ b) :: f) else (Throw DFSBROKER_IO_ERROR, f)
    | None => (missing, f)
    end;
  dfs_close := fun _ f => (Ok tt, f);
  dfs_remove := fun p f => (Ok tt, drop p f) |}.

Lemma strip_app d p n : strip d p = Some n <-> p = d ++ n.
Proof.
  revert p. induction d as [|x d IH]; intros p; cbn; [split; congruence|]. destruct p as [|y p]; [split; discriminate|].
  destruct (Z.eqb_spec x y) as [->|Hne]; [rewrite IH; split; congruence|]. split; [discriminate|congruence].
Qed.

Lemma find_in p f : find p f <> None -> exists c, In (p, c) f.
Proof.
  induction f as [|[q c] f IH]; cbn; [congruence|]. destruct (bytes_eqb q p) eqn:E; [apply bytes_eqb_eq in E; subst; eauto|].
  intros H. destruct (IH H) as [c' Hc]. eauto.
Qed.

Lemma names_are d f n : In n (names d f) <-> contents f (d ++ n) <> None /\ n <> [] /\ ~ In 47 n.
Proof.
  unfold names. rewrite nodup_In, in_flat_map. unfold name_in. split.
  - intros ([q c] & Hq & Hn). cbn [fst] in Hn. destruct (strip d q) as [m|] eqn:E; [|easy]. apply strip_app in E. subst q.
    destruct (bytes_eqb m []) eqn:E1; [easy|]. destruct (existsb _ m) eqn:E2; [easy|].
    destruct (contents f (d ++ m)) eqn:E3; [|easy]. destruct Hn as [<-|[]]. rewrite E3. split; [discriminate|]. split; [intros ->; discriminate|].
    intros H. assert (existsb (Z.eqb 47) m = true) by (apply existsb_exists; exists 47; auto). congruence.
  - intros (Hc & Hn & Hs). destruct (find_in (d ++ n) f) as [c Hi]; [unfold contents in Hc; destruct (find (d ++ n) f); congruence|].
    exists (d ++ n, c). split; [exact Hi|]. cbn [fst]. rewrite (proj2 (strip_app d (d ++ n) n) eq_refl).
    replace (bytes_eqb n []) with false by now destruct n.
    destruct (existsb (Z.eqb 47) n) eqn:E; [apply existsb_exists in E as (x & Hx & Ex); apply Z.eqb_eq in Ex; subst x; easy|].
    destruct (contents f (d ++ n)); [now left|congruence].
Qed.

Lemma find_drop p q f : find q (drop p f) = if bytes_eqb p q then None else find q f.
Proof.
  unfold drop. induction f as [|[r c] f IH]; cbn; [now destruct (bytes_eqb p q)|].
  destruct (bytes_eqb r p) eqn:E; cbn [negb find].
  - rewrite IH. apply bytes_eqb_eq in E. subst r. now destruct (bytes_eqb p q).
  - destruct (bytes_eqb r q) eqn:E2; [|exact IH]. apply bytes_eqb_eq in E2. subst r.
    destruct (bytes_eqb p q) eqn:E3; [|reflexivity]. apply bytes_eqb_eq in E3. subst. now rewrite (proj2 (bytes_eqb_eq q q) eq_refl) in E.
Qed.

Lemma set_replaced p c f : fits c = true -> replaced p (Some c) f ((p, c) :: f).
Proof.
  intros Hc. split; cbn; unfold contents; cbn.
  - now rewrite (proj2 (bytes_eqb_eq p p) eq_refl), Hc.
  - intros q Hq. destruct (bytes_eqb p q) eqn:E; [apply bytes_eqb_eq in E; congruence|reflexivity].
Qed.

#[global] Instance laws : DfsLaws t.
Proof.
  split; cbn.
  - intros f p c. unfold contents. destruct (find p f) as [c'|]; [|discriminate]. destruct (fits c') eqn:E; [|discriminate].
    intros [= <-]. now apply Z.ltb_lt.
  - auto.
  - intros f p c ->. reflexivity.
  - intros f p c ->. reflexivity.
  - intros d f names n [= <-]. rewrite names_are. tauto.
  - intros d f names [= <-]. apply NoDup_nodup.
  - discriminate.
  - intros p b f f'. destruct (contents f p); [destruct (fits _)|]; discriminate.
  - discriminate.
  - discriminate.
  - intros d f f' [= <-]. auto.
  - intros p f f' [= <-]. split; [now apply set_replaced|tauto].
  - intros p b f f' c E Hc. rewrite Hc in E. destruct (fits (c ++ b)) eqn:Ef; [|discriminate]. inv E. split; [now apply set_replaced|tauto].
  - intros p f f' [= <-]. split; tauto.
  - intros p f f' [= <-]. split; [|tauto]. split; cbn; unfold contents.
    + now rewrite find_drop, (proj2 (bytes_eqb_eq p p) eq_refl).
    + intros q Hq. rewrite find_drop. destruct (bytes_eqb p q) eqn:E; [apply bytes_eqb_eq in E; congruence|reflexivity].
Qed.

End MemFs.

(** ** Logs *)

Definition codecs (t : Z) : result Compressor :=
  if t =? NONE then Ok codec_none else if t =? LZO then Ok codec_repeat else Throw BLOCK_COMPRESSOR_UNSUPPORTED_TYPE.

#[export] Instance codecs_ok : Codecs codecs.
Proof.
  split.
  - intros t z. unfold codecs. destruct (t =? NONE); [intros [= <-]; exact lossless_none|].
    destruct (t =? LZO); [intros [= <-]; exact lossless_repeat|discriminate].
  - intros t z. unfold codecs. destruct (Z.eqb_spec t NONE) as [->|]; [now intros [= <-]|].
    destruct (Z.eqb_spec t LZO) as [->|]; [now intros [= <-]|discriminate].
  - exists codec_none. reflexivity.
Qed.

(** The fragments of a directory, from its listing. *)
Lemma stored_listing (f : MemFs.t) d names frs : dfs_readdir d f = Ok names ->
  (forall n, In n names -> exists num, In num (map fst frs) /\ n = dec_digits 10 num) ->
  StronglySorted Z.lt (map fst frs) -> Forall (fun n => 0 <= n < 2 ^ 31) (map fst frs) ->
  Forall (fun fr => exists c, dfs_contents f (d ++ dec_digits 10 (fst fr)) = Some c /\ encodes codecs (snd fr) c) frs ->
  stored codecs f d frs.
Proof.
  intros Hr Hn Hs Hb Hf. split; [assumption|assumption| |].
  - intros num es Hi. rewrite Forall_forall in Hf. exact (Hf _ Hi).
  - intros n H1 H2 H3. right. apply Hn. now apply (readdir_names d f names n Hr).
Qed.

Definition log_a : list Z := [47; 97].
Definition log_b : list Z := [47; 98].
Definition header0 : BlockHeader := BlockHeaderCommitLog_make (repeat 0 10) 0.

Definition no_log : CommitLog :=
  {| cl_base := {| lb_log_dir := []; lb_fragment_queue := []; lb_last_timestamp := 0 |}; cl_compressor := codec_none;
     cl_cur_fragment_length := 0; cl_cur_fragment_num := 0; cl_max_fragment_size := 0; cl_fd := Zero |}.
Definition opened (r : result CommitLog * MemFs.t) : CommitLog * MemFs.t :=
  match r with (Ok cl, f) => (cl, f) | (_, f) => (no_log, f) end.

(** A log [b] with one block. *)
Definition b_new : CommitLog * MemFs.t := opened (initialize codec_none 1000 log_b None []).
Definition b_run : @returned MemFs.t := run_ops [Write [1; 2] 5] (fst b_new) (snd b_new).
Definition b_log : CommitLogBase := cl_base (snd (fst b_run)).

(** A log [a] with a block, a link to [b] and a block. *)
Definition a_new : CommitLog * MemFs.t := opened (initialize codec_repeat 1000 log_a None (snd b_run)).
Definition a_ops : list op := [Write (repeat 7 50) 10; LinkLog b_log 20; Write [3] 30].
Definition a_run : @returned MemFs.t := run_ops a_ops (fst a_new) (snd a_new).

Lemma nothing_stored (f : MemFs.t) d : dfs_readdir d f = Ok [] -> stored codecs f d [].
Proof. intros H. apply (stored_listing f d [] [] H); [intros n []|constructor..]. Qed.

Lemma b_stored : stored codecs (snd a_run) (add_trailing_slash (lb_log_dir b_log)) [(0, [Data 5 [1; 2]])].
Proof.
  apply (stored_listing _ _ [[48]]).
  - vm_compute. reflexivity.
  - intros n [<-|[]]. exists 0. split; [now left|reflexivity].
  - repeat constructor.
  - repeat constructor; cbn; lia.
  - constructor; [|constructor]. destruct (deflate codec_none [1; 2] (BlockHeaderCommitLog_make MAGIC_DATA 5)) as [[b h]| |] eqn:E;
      [|vm_compute in E; discriminate..].
    exists (b ++ []). split; [vm_compute in E; injection E as <- _; vm_compute; reflexivity|].
    constructor; [|constructor]. refine (deflate_entry codec_none _ _ _ _ _ _ _ _ E).
    + reflexivity.
    + repeat constructor; cbv; congruence.
    + reflexivity.
    + split; [lia|reflexivity].
Qed.

Lemma log_roundtrip_witness : exists n r, forall m, (n <= m)%nat ->
  read_log true codecs (snd a_run) m log_a header0 = Some (Ok ([(10, repeat 7 50); (5, [1; 2]); (30, [3])], r)).
Proof.
  apply (log_roundtrip true codec_repeat 1000 log_a (snd b_run) [] [] (fst a_new) (snd a_new) a_ops (snd (fst a_run)) (snd a_run) [[49]; [48]]).
  - reflexivity.
  - apply nothing_stored. vm_compute. reflexivity.
  - vm_compute. reflexivity.
  - constructor.
  - vm_compute. reflexivity.
  - repeat constructor; cbv; congruence.
  - vm_compute. reflexivity.
  - vm_compute. reflexivity.
  - vm_compute. reflexivity.
  - constructor. apply (replays_link codecs (snd a_run) 20 _ _ [[48]] _ [(5, [1; 2])] [(30, [3])] b_stored).
    + vm_compute. reflexivity.
    + repeat constructor.
    + repeat constructor.
Defined.

(** Three blocks, a fragment each. *)
Definition c_data : list (Z * list Z) := [(10, [1]); (20, [2]); (30, [3])].
Definition c_new : CommitLog * MemFs.t := opened (initialize codec_none 30 log_a None []).
Definition c_run : @returned MemFs.t := run_ops (writes c_data) (fst c_new) (snd c_new).
Definition c_purged : @returned MemFs.t := purge 25 (snd (fst c_run)) (snd c_run).

Lemma purge_keeps_recent_witness : exists gone kept, c_data = gone ++ kept /\ Forall (fun b => fst b < 25) gone /\
  exists n r, forall m, (n <= m)%nat -> read_log true codecs (snd c_purged) m log_a header0 = Some (Ok (kept, r)).
Proof.
  apply (purge_keeps_recent true codec_none 30 log_a [] [] [] (fst c_new) (snd c_new) c_data (snd (fst c_run)) (snd c_run) 25
           (snd (fst c_purged)) (snd c_purged) [[51]; [50]]).
  - reflexivity.
  - now apply nothing_stored.
  - constructor.
  - reflexivity.
  - constructor.
  - vm_compute. reflexivity.
  - repeat constructor; cbv; congruence.
  - vm_compute. reflexivity.
  - repeat constructor; cbn; lia.
  - vm_compute. reflexivity.
  - vm_compute. reflexivity.
  - vm_compute. reflexivity.
Defined.

(** A log of one fragment, cut off in its second block. *)
Definition cut_header : BlockHeader := set_data NONE 3 3 (fletcher32_spec (be_words [4; 5; 6])) (BlockHeaderCommitLog_make MAGIC_DATA 8).
Definition cut_fs : MemFs.t :=
  match MemFs.contents (snd b_run) [47; 98; 47; 48] with
  | Some c => [([47; 98; 47; 48], c ++ front cut_header ++ [4; 5])]
  | None => []
  end.

Lemma b_block c : MemFs.contents (snd b_run) [47; 98; 47; 48] = Some c -> encodes codecs [Data 5 [1; 2]] c.
Proof.
  assert (X : exists b h, deflate codec_none [1; 2] (BlockHeaderCommitLog_make MAGIC_DATA 5) = Ok (b, h) /\
    MemFs.contents (snd b_run) [47; 98; 47; 48] = Some (b ++ [])).
  { eexists _, _. split; vm_compute; reflexivity. }
  destruct X as (b & h & E & ->). intros [= <-]. constructor; [|constructor]. refine (deflate_entry codec_none _ _ _ _ _ _ _ _ E).
  - reflexivity.
  - repeat constructor; cbv; congruence.
  - reflexivity.
  - split; [lia|reflexivity].
Qed.

Lemma header_ok h payload : bh_magic h = MAGIC_DATA -> in_range 32 (bh_data_length h) -> in_range 32 (bh_data_zlength h) ->
  in_range 32 (bh_data_checksum h) -> bh_compression_type h = NONE -> bh_timestamp h = Some 8 -> bh_data_zlength h = zlen payload ->
  log_header h payload.
Proof.
  intros Hm H1 H2 H3 Ht Hs Hz. split; [|unfold is_log; now rewrite Hs|assumption]. unfold wf_header. rewrite Hm, Ht, Hs.
  repeat split; try apply H1; try apply H2; try apply H3; try (cbv; congruence). repeat constructor; cbv; congruence.
Qed.

Lemma torn_log_erased_witness :
  exists n r, (forall m, (n <= m)%nat -> read_log true codecs cut_fs m log_b header0 = Some (Ok ([(5, [1; 2])], r))) /\
    forall z max cl f', initialize z max log_b (Some (cr_base r)) cut_fs = (Ok cl, f') -> dfs_contents f' (add_trailing_slash log_b ++ [48]) = Some [].
Proof.
  apply (torn_log_erased true codecs cut_fs log_b [Data 5 [1; 2]] cut_header [4; 5; 6] [4; 5] header0).
  - split.
    + vm_compute. reflexivity.
    + repeat constructor.
    + eexists. split; [|apply b_block; vm_compute; reflexivity]. vm_compute. reflexivity.
    + discriminate.
  - apply header_ok; try reflexivity; split; cbv; congruence.
  - reflexivity.
  - reflexivity.
Defined.

(** The same with all of the second block, one byte of it changed. *)
Definition bad_fs : MemFs.t :=
  match MemFs.contents (snd b_run) [47; 98; 47; 48] with
  | Some c => [([47; 98; 47; 48], c ++ block cut_header [4; 5; 7] ++ [])]
  | None => []
  end.

Lemma corrupt_block_faults_witness : exists n, forall m, (n <= m)%nat -> read_log true codecs bad_fs m log_b header0 = Some Fault.
Proof.
  apply (corrupt_block_faults true codecs bad_fs log_b [Data 5 [1; 2]] cut_header [4; 5; 7] [] header0).
  - split.
    + vm_compute. reflexivity.
    + repeat constructor.
    + eexists. split; [|apply b_block; vm_compute; reflexivity]. vm_compute. reflexivity.
    + discriminate.
  - apply header_ok; try reflexivity; split; cbv; congruence.
  - reflexivity.
  - repeat constructor; cbv; congruence.
  - vm_compute. congruence.
Defined.

(** ** Links and timestamps *)

Definition read_a (f : MemFs.t) : option (result (list (Z * list Z) * CommitLogReader)) := read_log true codecs f 40 log_a header0.
Definition reader_of (x : option (result (list (Z * list Z) * CommitLogReader))) : CommitLogReader :=
  match x with Some (Ok (_, r)) => r | _ => {| cr_base := cl_base no_log; cr_stack := [] |} end.

(** A log with a block of time 10 and a link, of time 20, to a log with a block of
    time 5, as it is recovered. *)
Definition l_run : @returned MemFs.t := run_ops [Write [7] 10; LinkLog b_log 20] (fst a_new) (snd a_new).
Definition l_new : CommitLog * MemFs.t := opened (initialize codec_none 1000 log_a (Some (cr_base (reader_of (read_a (snd l_run))))) (snd l_run)).
Definition l_purged : @returned MemFs.t := purge 9 (fst l_new) (snd l_new).

(** A recovered log that links another one is purged too early.  The reader
    gives each fragment the time of the last block it returned when the fragment
    ends; behind a link that is a block of the linked log, which may be older than
    the blocks in front of the link.  Here the blocks of a log have the times 10
    and, through a link, 5; once the log is recovered, purging it with the cutoff 9
    removes both. *)
Theorem recovered_link_purged_early :
  fst (fst l_run) = Ok OK_ /\
  (exists r, read_a (snd l_run) = Some (Ok ([(10, [7]); (5, [1; 2])], r)) /\
     initialize codec_none 1000 log_a (Some (cr_base r)) (snd l_run) = (Ok (fst l_new), snd l_new)) /\
  fst (fst l_purged) = Ok OK_ /\
  (exists r, read_a (snd l_purged) = Some (Ok ([], r))).
Proof.
  split; [vm_compute; reflexivity|]. split.
  - exists (reader_of (read_a (snd l_run))). split; vm_compute; reflexivity.
  - split; [vm_compute; reflexivity|]. exists (reader_of (read_a (snd l_purged))). vm_compute. reflexivity.
Qed.
