(* ===== verification/CellStore.v ===== *)
(** * Cell stores

    [RangeServer/CellStoreV0.cc] with its trailer: writing a sorted sequence of
    cells as compressed blocks, an index and a trailer, and opening such a file.

    A file is the list of its bytes.  What the file system does with each call is
    an argument, the list of outcomes of the calls in their order: an
    asynchronous append may be written, be lost with an error reply that comes
    later, or throw at once.  Member variables of type [float] are IEEE single
    precision numbers. *)
From S2P Require Import Prelude Errors Serialization Checksum ByteString Key Deletes CellCache Scanner Wire BlockCodec BufferedReader.
From Stdlib Require Import ZArith Lia List Bool Sorted SpecFloat.
Import ListNotations.
Open Scope Z_scope.
Open Scope result_scope.

(** ** Single precision *)

Definition f32 := spec_float.
Definition f32_zero : f32 := S754_zero false.
Definition f32_of (n : Z) : f32 := binary_normalize 24 128 n 0 false.
Definition f32_add : f32 -> f32 -> f32 := SFadd 24 128.
Definition f32_div : f32 -> f32 -> f32 := SFdiv 24 128.
(** [(uint64_t)f] for [f >= 0]. *)
Definition f32_trunc (f : f32) : Z :=
  match f with
  | S754_finite false m e => u64 (Z.shiftl (Z.pos m) e)
  | _ => 0
  end.
(** The representation, as the union of the trailer shows it. *)
Definition f32_bits (f : f32) : Z :=
  u32 match f with
  | S754_zero s => if s then 2 ^ 31 else 0
  | S754_infinity s => (if s then 2 ^ 31 else 0) + 255 * 2 ^ 23
  | S754_nan => 511 * 2 ^ 23 + 2 ^ 22
  | S754_finite s m e =>
      (if s then 2 ^ 31 else 0) + (if Z.pos m <? 2 ^ 23 then Z.pos m else (e + 150) * 2 ^ 23 + (Z.pos m - 2 ^ 23))
  end.

(** ** The trailer *)

Record Trailer := {
  fix_index_offset : Z; var_index_offset : Z; filter_offset : Z; index_entries : Z; total_entries : Z;
  blocksize : Z; t_timestamp : Timestamp; compression_ratio_i32 : Z; compression_type : Z; version : Z }.

Definition Trailer_size : Z := 48.

Definition Trailer_clear : Trailer :=
  {| fix_index_offset := 0; var_index_offset := 0; filter_offset := 0; index_entries := 0; total_entries := 0;
     blocksize := 0; t_timestamp := {| logical := 0; real := 0 |}; compression_ratio_i32 := 0;
     compression_type := 0; version := 0 |}.

Definition Trailer_serialize (t : Trailer) : result (list Z) :=
  cat [Ok (encode_i32 (fix_index_offset t)); Ok (encode_i32 (var_index_offset t)); Ok (encode_i32 (filter_offset t));
       Ok (encode_i32 (index_entries t)); Ok (encode_i32 (total_entries t)); Ok (encode_i32 (blocksize t));
       Timestamp_encode (t_timestamp t); Ok (encode_i32 (compression_ratio_i32 t));
       Ok (encode_i16 (compression_type t)); Ok (encode_i16 (version t))].

Definition Trailer_deserialize : dec Trailer :=
  fix_off <~ decode_i32 ;;
  var_off <~ decode_i32 ;;
  filter_off <~ decode_i32 ;;
  entries <~ decode_i32 ;;
  total <~ decode_i32 ;;
  bs <~ decode_i32 ;;
  ts <~ Timestamp_decode ;;
  ratio <~ decode_i32 ;;
  ct <~ decode_i16 ;;
  v <~ decode_i16 ;;
  dret {| fix_index_offset := fix_off; var_index_offset := var_off; filter_offset := filter_off;
          index_entries := entries; total_entries := total; blocksize := bs; t_timestamp := ts;
          compression_ratio_i32 := ratio; compression_type := ct; version := v |}.

(** ** Writing *)

Inductive outcome := Written | Lost | Throws.

(** The members used while writing: what is in the file, the replies of
    asynchronous appends nobody has waited for, the outcomes of the calls to
    come, and the buffers. *)
Record Writer := {
  w_file : list Z; w_replies : list bool; w_dfs : list outcome;
  m_outstanding_appends : Z; m_offset : Z; m_buffer : list Z; m_last_key : list Z;
  m_fix_index_buffer : list Z; m_var_index_buffer : list Z; m_trailer : Trailer;
  m_uncompressed_data : f32; m_compressed_data : f32; m_uncompressed_blocksize : Z }.

Definition MAX_APPENDS_OUTSTANDING : Z := 3.
Definition INDEX_FIXED_BLOCK_MAGIC : list Z := [73; 100; 120; 70; 105; 120; 45; 45; 45; 45].
Definition INDEX_VARIABLE_BLOCK_MAGIC : list Z := [73; 100; 120; 86; 97; 114; 45; 45; 45; 45].

(** A byte string as it lies in memory. *)
Definition bstr (s : list Z) : result (list Z) := l <- encode_vi32 (zlen s) ;; Ok (l ++ s).

Definition create (z : Compressor) (bsize : Z) (dfs : list outcome) : Writer :=
  {| w_file := []; w_replies := []; w_dfs := dfs; m_outstanding_appends := 0; m_offset := 0; m_buffer := [];
     m_last_key := []; m_fix_index_buffer := []; m_var_index_buffer := [];
     m_trailer := {| fix_index_offset := 0; var_index_offset := 0; filter_offset := 0; index_entries := 0;
                     total_entries := 0; blocksize := bsize; t_timestamp := {| logical := 0; real := 0 |};
                     compression_ratio_i32 := 0; compression_type := z_type z; version := 0 |};
     m_uncompressed_data := f32_zero; m_compressed_data := f32_zero; m_uncompressed_blocksize := bsize |}.

Definition upd_trailer (f : Trailer -> Trailer) (w : Writer) : Writer :=
  {| w_file := w_file w; w_replies := w_replies w; w_dfs := w_dfs w;
     m_outstanding_appends := m_outstanding_appends w; m_offset := m_offset w; m_buffer := m_buffer w;
     m_last_key := m_last_key w; m_fix_index_buffer := m_fix_index_buffer w;
     m_var_index_buffer := m_var_index_buffer w; m_trailer := f (m_trailer w);
     m_uncompressed_data := m_uncompressed_data w; m_compressed_data := m_compressed_data w;
     m_uncompressed_blocksize := m_uncompressed_blocksize w |}.

Definition count_index_entry (t : Trailer) : Trailer :=
  {| fix_index_offset := fix_index_offset t; var_index_offset := var_index_offset t;
     filter_offset := filter_offset t; index_entries := u32 (index_entries t + 1); total_entries := total_entries t;
     blocksize := blocksize t; t_timestamp := t_timestamp t; compression_ratio_i32 := compression_ratio_i32 t;
     compression_type := compression_type t; version := version t |}.
Definition count_entry (t : Trailer) : Trailer :=
  {| fix_index_offset := fix_index_offset t; var_index_offset := var_index_offset t;
     filter_offset := filter_offset t; index_entries := index_entries t; total_entries := u32 (total_entries t + 1);
     blocksize := blocksize t; t_timestamp := t_timestamp t; compression_ratio_i32 := compression_ratio_i32 t;
     compression_type := compression_type t; version := version t |}.

(** [add_index_entry(key, offset)] *)
Definition add_index_entry (key : list Z) (offset : Z) (w : Writer) : Writer :=
  upd_trailer count_index_entry
  {| w_file := w_file w; w_replies := w_replies w; w_dfs := w_dfs w;
     m_outstanding_appends := m_outstanding_appends w; m_offset := m_offset w; m_buffer := m_buffer w;
     m_last_key := m_last_key w; m_fix_index_buffer := m_fix_index_buffer w ++ encode_i32 offset;
     m_var_index_buffer := m_var_index_buffer w ++ key; m_trailer := m_trailer w;
     m_uncompressed_data := m_uncompressed_data w; m_compressed_data := m_compressed_data w;
     m_uncompressed_blocksize := m_uncompressed_blocksize w |}.

(** [m_filesys->append(m_fd, buf, 0, &m_sync_handler)] and the counting behind
    it; [None] when it throws. *)
Definition append_async (data : list Z) (w : Writer) : option Writer :=
  let upd file replies := Some
    {| w_file := file; w_replies := replies; w_dfs := tl (w_dfs w);
       m_outstanding_appends := u32 (m_outstanding_appends w + 1); m_offset := u32 (m_offset w + zlen data);
       m_buffer := m_buffer w; m_last_key := m_last_key w; m_fix_index_buffer := m_fix_index_buffer w;
       m_var_index_buffer := m_var_index_buffer w; m_trailer := m_trailer w;
       m_uncompressed_data := m_uncompressed_data w; m_compressed_data := m_compressed_data w;
       m_uncompressed_blocksize := m_uncompressed_blocksize w |} in
  match hd Written (w_dfs w) with
  | Written => upd (w_file w ++ data) (w_replies w ++ [true])
  | Lost => upd (w_file w) (w_replies w ++ [false])
  | Throws => None
  end.

(** [if (m_outstanding_appends >= MAX) wait_for_reply], which takes the oldest
    reply; [None] when that is an error. *)
Definition wait_oldest (w : Writer) : option Writer :=
  if MAX_APPENDS_OUTSTANDING <=? m_outstanding_appends w then
    match w_replies w with
    | true :: rs =>
        Some {| w_file := w_file w; w_replies := rs; w_dfs := w_dfs w;
                m_outstanding_appends := u32 (m_outstanding_appends w - 1); m_offset := m_offset w;
                m_buffer := m_buffer w; m_last_key := m_last_key w; m_fix_index_buffer := m_fix_index_buffer w;
                m_var_index_buffer := m_var_index_buffer w; m_trailer := m_trailer w;
                m_uncompressed_data := m_uncompressed_data w; m_compressed_data := m_compressed_data w;
                m_uncompressed_blocksize := m_uncompressed_blocksize w |}
    | _ => None
    end
  else Some w.

(** The compression of the buffer, with the sizes summed up.  In [add] the buffer
    is cleared and the next block's size computed from the ratio so far. *)
Definition pack_block (z : Compressor) (w : Writer) : result (list Z * f32 * f32) :=
  '(block, _) <- deflate z (m_buffer w) (BlockHeader_make DATA_BLOCK_MAGIC) ;;
  Ok (block, f32_add (m_uncompressed_data w) (f32_of (zlen (m_buffer w))),
      f32_add (m_compressed_data w) (f32_of (zlen block))).

(** The divisor is at least the length of the headers written so far. *)
Definition next_blocksize (bsize : Z) (unc comp : f32) : Z := u32 (u64 (bsize * f32_trunc unc) / f32_trunc comp).

Definition set_packed (buf : list Z) (unc comp : f32) (limit : Z) (w : Writer) : Writer :=
  {| w_file := w_file w; w_replies := w_replies w; w_dfs := w_dfs w;
     m_outstanding_appends := m_outstanding_appends w; m_offset := m_offset w; m_buffer := buf;
     m_last_key := m_last_key w; m_fix_index_buffer := m_fix_index_buffer w;
     m_var_index_buffer := m_var_index_buffer w; m_trailer := m_trailer w;
     m_uncompressed_data := unc; m_compressed_data := comp; m_uncompressed_blocksize := limit |}.

(** The first half of [add]: a full buffer becomes a block.  The flag is false
    when [add] returns -1. *)
Definition flush_full (z : Compressor) (w : Writer) : result (bool * Writer) :=
  if m_uncompressed_blocksize w <? zlen (m_buffer w) then
    let w := add_index_entry (m_last_key w) (m_offset w) w in
    '(block, unc, comp) <- pack_block z w ;;
    let w := set_packed [] unc comp (next_blocksize (blocksize (m_trailer w)) unc comp) w in
    match wait_oldest w with
    | None => Ok (false, w)
    | Some w => match append_async block w with None => Ok (false, w) | Some w => Ok (true, w) end
    end
  else Ok (true, w).

Definition put_cell (k v : list Z) (w : Writer) : Writer :=
  upd_trailer count_entry
  {| w_file := w_file w; w_replies := w_replies w; w_dfs := w_dfs w;
     m_outstanding_appends := m_outstanding_appends w; m_offset := m_offset w; m_buffer := m_buffer w ++ k ++ v;
     m_last_key := k; m_fix_index_buffer := m_fix_index_buffer w; m_var_index_buffer := m_var_index_buffer w;
     m_trailer := m_trailer w; m_uncompressed_data := m_uncompressed_data w;
     m_compressed_data := m_compressed_data w; m_uncompressed_blocksize := m_uncompressed_blocksize w |}.

Definition add (z : Compressor) (c : cell) (w : Writer) : result (bool * Writer) :=
  '(ok, w) <- flush_full z w ;;
  if negb (ok : bool) then Ok (false, w)
  else k <- bstr (fst c) ;; v <- bstr (snd c) ;; Ok (true, put_cell k v w).

(** The loop of a compaction, [AccessGroup::run_compaction]: the cells one after
    the other; what [add] returns is not looked at. *)
Fixpoint add_all (z : Compressor) (cells : list cell) (w : Writer) : result Writer :=
  match cells with
  | [] => Ok w
  | c :: cells => '(_, w) <- add z c w ;; add_all z cells w
  end.

(** ** The index *)

(** [m_index], a map from the last key of each block to its offset, in key
    order; [insert] leaves an entry that is there alone. *)
Definition IndexMap := list (list Z * Z).

Fixpoint index_insert (k : list Z) (off : Z) (m : IndexMap) : IndexMap :=
  match m with
  | [] => [(k, off)]
  | (k', off') :: m' =>
      match bytes_cmp k k' with
      | Lt => (k, off) :: m
      | Eq => m
      | Gt => (k', off') :: index_insert k off m'
      end
  end.

(** [record_split_row(key)]: the C string at the content of [key], if it lies
    inside the range. *)
Definition record_split_row (m : list Z) (start_row end_row split : list Z) : result (list Z) :=
  s <- str (Some m) ;;
  match cstr s with
  | None => Fault
  | Some r => Ok (if bytes_ltb start_row r && bytes_ltb r end_row then r else split)
  end.

(** One round of the loop that fills [m_index]: key and offset. *)
Definition index_entry (var fix_ : list Z) : result (list Z * Z * list Z * list Z) :=
  '(len, p) <- decode_length (Some var) ;;
  key <- content len p ;;
  '(_, n) <- next (Some var) ;;
  match n with
  | None => Fault
  | Some var' =>
      '(off, s) <- decode_i32 {| ip := fix_; remain := 4 |} ;;
      Ok (key, off, var', ip s)
  end.

(** The loop of [finalize]; the split row is taken from the key behind the middle
    one, which for one or two blocks lies behind the buffer. *)
Fixpoint fill_index (n i half : nat) (start_row end_row var fix_ : list Z) (m : IndexMap) (split : list Z)
  : result (IndexMap * list Z) :=
  match n with
  | O => Ok (m, split)
  | S n =>
      '(key, off, var, fix_) <- index_entry var fix_ ;;
      let m := index_insert key off m in
      split <- (if (i =? half)%nat then record_split_row var start_row end_row split else Ok split) ;;
      fill_index n (S i) half start_row end_row var fix_ m split
  end.

(** ** Finishing a file *)

(** The members used for reading. *)
Record CellStoreV0 := {
  s_file : list Z; s_trailer : Trailer; m_index : IndexMap; m_start_row : list Z; m_end_row : list Z;
  m_file_length : Z; m_disk_usage : Z; m_split_row : list Z }.

Definition close_data (ts : Timestamp) (ratio : Z) (offset : Z) (t : Trailer) : Trailer :=
  {| fix_index_offset := offset; var_index_offset := var_index_offset t;
     filter_offset := filter_offset t; index_entries := index_entries t; total_entries := total_entries t;
     blocksize := blocksize t; t_timestamp := ts; compression_ratio_i32 := ratio;
     compression_type := compression_type t; version := 0 |}.
Definition set_var_index (offset : Z) (t : Trailer) : Trailer :=
  {| fix_index_offset := fix_index_offset t; var_index_offset := offset;
     filter_offset := filter_offset t; index_entries := index_entries t; total_entries := total_entries t;
     blocksize := blocksize t; t_timestamp := t_timestamp t; compression_ratio_i32 := compression_ratio_i32 t;
     compression_type := compression_type t; version := version t |}.
Definition set_filter (offset : Z) (t : Trailer) : Trailer :=
  {| fix_index_offset := fix_index_offset t; var_index_offset := var_index_offset t;
     filter_offset := offset; index_entries := index_entries t; total_entries := total_entries t;
     blocksize := blocksize t; t_timestamp := t_timestamp t; compression_ratio_i32 := compression_ratio_i32 t;
     compression_type := compression_type t; version := version t |}.

(** The block left in the buffer; [None] for [goto abort]. *)
Definition flush_last (z : Compressor) (w : Writer) : result (option Writer) :=
  if 0 <? zlen (m_buffer w) then
    let w := add_index_entry (m_last_key w) (m_offset w) w in
    '(block, unc, comp) <- pack_block z w ;;
    let w := set_packed (m_buffer w) unc comp (m_uncompressed_blocksize w) w in
    Ok (match wait_oldest w with None => None | Some w => append_async block w end)
  else Ok (Some w).

(** The calls at the end: a synchronous append, closing and reopening. *)
Definition call_ok (o : outcome) : bool := match o with Written => true | _ => false end.

(** The index and the trailer, behind the blocks; [behind] is the memory behind
    the index buffer, which was cut to the exact length before. *)
Definition finish (z : Compressor) (behind : list Z) (ts : Timestamp) (w : Writer) : result (option CellStoreV0) :=
  let w := upd_trailer (close_data ts (f32_bits (f32_div (m_compressed_data w) (m_uncompressed_data w))) (m_offset w)) w in
  '(fixed, _) <- deflate z (m_fix_index_buffer w) (BlockHeader_make INDEX_FIXED_BLOCK_MAGIC) ;;
  match append_async fixed w with
  | None => Ok None
  | Some w =>
      let w := upd_trailer (set_var_index (m_offset w)) w in
      '(var, _) <- deflate z (m_var_index_buffer w) (BlockHeader_make INDEX_VARIABLE_BLOCK_MAGIC) ;;
      let n := Z.to_nat (index_entries (m_trailer w)) in
      '(index, split) <- fill_index n 0 (n / 2) [] END_ROW_MARKER (m_var_index_buffer w ++ behind)
                           (m_fix_index_buffer w) [] [] ;;
      let w := upd_trailer (set_filter (u32 (m_offset w + zlen var))) w in
      t <- Trailer_serialize (m_trailer w) ;;
      let file_length := u32 (m_offset w + zlen var + zlen t) in
      let o i := nth i (w_dfs w) Written in
      if call_ok (o 0%nat) && call_ok (o 1%nat) && call_ok (o 2%nat)
      then Ok (Some {| s_file := w_file w ++ var ++ t; s_trailer := m_trailer w; m_index := index;
                       m_start_row := []; m_end_row := END_ROW_MARKER; m_file_length := file_length;
                       m_disk_usage := file_length; m_split_row := split |})
      else Ok None
  end.

(** [finalize(timestamp)] *)
Definition finalize (z : Compressor) (behind : list Z) (ts : Timestamp) (w : Writer) : result (option CellStoreV0) :=
  w <- flush_last z w ;;
  match w with
  | None => Ok None
  | Some w => finish z behind ts w
  end.

(** ** Opening a file *)

(** [open(fname, start_row, end_row)] on an existing file. *)
Definition open (file start_row end_row : list Z) : result CellStoreV0 :=
  let len := zlen file in
  if len <? Trailer_size then Throw LOCAL_IO_ERROR
  else
    '(t, _) <- Trailer_deserialize {| ip := pread file Trailer_size (len - Trailer_size); remain := Trailer_size |} ;;
    if negb (version t =? 0) then Throw LOCAL_IO_ERROR
    else if negb ((fix_index_offset t <? var_index_offset t) && (var_index_offset t <? len)) then Throw LOCAL_IO_ERROR
    else Ok {| s_file := file; s_trailer := t; m_index := []; m_start_row := start_row; m_end_row := end_row;
               m_file_length := len; m_disk_usage := 0; m_split_row := [] |}.

(** The loop of [load_index]. *)
Fixpoint read_index (n : nat) (var fix_ : list Z) (m : IndexMap) : result IndexMap :=
  match n with
  | O => Ok m
  | S n =>
      if (0 <? zlen fix_) && (0 <? zlen var) then
        '(key, off, var, fix_) <- index_entry var fix_ ;; read_index n var fix_ (index_insert key off m)
      else Fault
  end.

(** [upper_bound] and [lower_bound]: the entries from there on. *)
Fixpoint index_from (p : list Z -> bool) (m : IndexMap) : IndexMap :=
  match m with
  | [] => []
  | e :: m' => if p (fst e) then m else index_from p m'
  end.
Definition index_upper (k : list Z) : IndexMap -> IndexMap := index_from (bytes_ltb k).
Definition index_lower (k : list Z) : IndexMap -> IndexMap := index_from (bytes_leb k).

(** The loop that moves [mid_iter] half as far as [iter], which goes to
    [end_iter]; moving past the end is a fault. *)
Fixpoint mid_loop (fuel i : nat) (iter mid end_ : IndexMap) : result IndexMap :=
  match fuel with
  | O => Fault
  | S fuel =>
      if (length iter =? length end_)%nat then Ok mid
      else match iter with
           | [] => Fault
           | _ :: iter' => mid_loop fuel (S i) iter' (if Nat.even i then tl mid else mid) end_
           end
  end.

(** The computation of the disk usage and of the split row; [second] of
    the end iterator is a fault. *)
Definition disk_usage (start_row end_row : list Z) (file_length : Z) (m : IndexMap) : result (Z * list Z) :=
  match index_upper (row_bound start_row) m with
  | [] => Fault
  | ((_, start) :: _) as iter =>
      let end_iter := index_lower (row_bound end_row) m in
      let end_ := match end_iter with [] => u32 file_length | (_, off) :: _ => off end in
      mid <- mid_loop (S (length m)) 0 iter iter end_iter ;;
      split <- match mid with
               | [] => Ok []
               | (k, _) :: _ => b <- bstr k ;; record_split_row b start_row end_row []
               end ;;
      Ok (u32 (end_ - start), split)
  end.

(** [load_index()]; an exception inside gives -1. *)
Definition load_index (z : Compressor) (s : CellStoreV0) : result CellStoreV0 :=
  let t := s_trailer s in
  let amount := u32 (m_file_length s - Trailer_size - fix_index_offset t) in
  let buf := pread (s_file s) amount (fix_index_offset t) in
  if negb (zlen buf =? amount) then Throw LOCAL_IO_ERROR
  else
    let nfix := var_index_offset t - fix_index_offset t in
    '(fixed, h1) <- inflate z false (firstn (Z.to_nat nfix) buf) ;;
    if negb (check_magic INDEX_FIXED_BLOCK_MAGIC h1) then Throw BLOCK_COMPRESSOR_BAD_MAGIC
    else
      let namount := u32 (m_file_length s - Trailer_size - var_index_offset t) in
      '(var, h2) <- inflate z false (firstn (Z.to_nat namount) (skipn (Z.to_nat nfix) buf)) ;;
      if negb (check_magic INDEX_VARIABLE_BLOCK_MAGIC h2) then Throw BLOCK_COMPRESSOR_BAD_MAGIC
      else
        m <- read_index (Z.to_nat (index_entries t)) var fixed [] ;;
        '(usage, split) <- disk_usage (m_start_row s) (m_end_row s) (m_file_length s) m ;;
        Ok {| s_file := s_file s; s_trailer := t; m_index := m; m_start_row := m_start_row s; m_end_row := m_end_row s;
              m_file_length := m_file_length s; m_disk_usage := usage; m_split_row := split |}.

(** ** What lies in a file *)

(** The bytes of a byte string and of a cell, for contents of less than 4 GiB. *)
Definition enc (s : list Z) : list Z := match bstr s with Ok b => b | _ => [] end.
Definition enc_cell (c : cell) : list Z := enc (fst c) ++ enc (snd c).
Definition enc_cells (l : list cell) : list Z := concat (map enc_cell l).

Definition small (s : list Z) : Prop := zlen s < 2 ^ 32 /\ wf_bytes s.
Definition small_cell (c : cell) : Prop := small (fst c) /\ small (snd c).

Lemma encode_vint_wf n : forall v l, 0 <= v -> encode_vint n v = Ok l -> wf_bytes l.
Proof.
  induction n as [|n IH]; intros v l Hv; cbn [encode_vint].
  - destruct (v <=? HT_MAX_V1B); [|discriminate]. intros H. apply Ok_inj in H as <-.
    constructor; [apply wrap_range; lia|constructor].
  - destruct (v <=? HT_MAX_V1B).
    + intros H. apply Ok_inj in H as <-. constructor; [apply wrap_range; lia|constructor].
    + intros H. apply bind_ok in H as (l' & E & H). apply Ok_inj in H as <-.
      constructor; [apply wrap_range; lia|]. apply (IH _ _) in E; [assumption|]. now apply Z.shiftr_nonneg.
Qed.

Lemma bstr_ok s : small s -> bstr s = Ok (enc s) /\ wf_bytes (enc s) /\
  (forall rest, holds (enc s ++ rest) s rest) /\ zlen s + 1 <= zlen (enc s) <= zlen s + 5.
Proof.
  intros [Hl Ws]. pose proof (zlen_nonneg s). assert (Hr : in_range 32 (zlen s)) by (unfold in_range; lia).
  destruct (vi32_encodes (zlen s) Hr) as (l & El & Hll & _). pose proof (encoded_length_vi32_range (zlen s)).
  unfold enc, bstr. rewrite El. cbn [bind]. split; [reflexivity|]. split; [|split].
  - apply wf_bytes_app. split; [|assumption]. unfold encode_vi32 in El. rewrite wrap_small in El by assumption.
    apply (encode_vint_wf 5 (zlen s)); assumption.
  - intros rest. exists l. rewrite <- app_assoc. auto.
  - rewrite zlen_app. lia.
Qed.

Lemma enc_cells_app a b : enc_cells (a ++ b) = enc_cells a ++ enc_cells b.
Proof. unfold enc_cells. now rewrite map_app, concat_app. Qed.

Lemma enc_cells_one c : enc_cells [c] = enc_cell c.
Proof. unfold enc_cells. cbn [map concat]. apply app_nil_r. Qed.

Lemma enc_cells_wf l : Forall small_cell l -> wf_bytes (enc_cells l).
Proof.
  induction 1 as [|c l [Hk Hv] _ IH]; [constructor|]. change (c :: l) with ([c] ++ l).
  rewrite enc_cells_app, enc_cells_one. apply wf_bytes_app. split; [|assumption].
  apply wf_bytes_app. split; [now apply bstr_ok|now apply bstr_ok].
Qed.

(** The key of the last cell of a chunk, under which its block is found. *)
Definition chunk_key (c : list cell) : list Z := fst (last c ([], [])).

(** What an index says, as the two index buffers hold it. *)
Definition fix_image (m : IndexMap) : list Z := concat (map (fun e => encode_i32 (snd e)) m).
Definition var_image (m : IndexMap) : list Z := concat (map (fun e => enc (fst e)) m).

Section Written.

Context (z : Compressor) (Hz : Lossless z).

Definition block_of (magic data : list Z) : list Z :=
  match deflate z data (BlockHeader_make magic) with Ok (b, _) => b | _ => [] end.
Definition data_block (c : list cell) : list Z := block_of DATA_BLOCK_MAGIC (enc_cells c).
Definition blocks (chunks : list (list cell)) : list Z := concat (map data_block chunks).

(** The index of a file of these chunks. *)
Fixpoint layout (off : Z) (chunks : list (list cell)) : IndexMap :=
  match chunks with
  | [] => []
  | c :: chunks => (chunk_key c, off) :: layout (off + zlen (data_block c)) chunks
  end.

Definition magic_ok (magic : list Z) : Prop := length magic = 10%nat /\ wf_bytes magic.

Lemma block_of_ok magic data : magic_ok magic -> wf_bytes data -> zlen data < 2 ^ 32 ->
  exists h, deflate z data (BlockHeader_make magic) = Ok (block_of magic data, h) /\
    inflate z false (block_of magic data) = Ok (data, h) /\ bh_magic h = magic /\
    26 <= zlen (block_of magic data) <= 26 + zlen data.
Proof.
  intros [Hm Wm] Wd Hd. unfold block_of.
  destruct (deflate_inflate z data (BlockHeader_make magic)) as (b & h & D & I & M & _ & _ & L); auto.
  - split; [assumption|]. split; [assumption|exact Logic.I].
  - rewrite D. exists h. auto.
Qed.

Lemma magics_ok : magic_ok DATA_BLOCK_MAGIC /\ magic_ok INDEX_FIXED_BLOCK_MAGIC /\ magic_ok INDEX_VARIABLE_BLOCK_MAGIC.
Proof. repeat split; repeat constructor; cbv; congruence. Qed.

Lemma blocks_app a b : blocks (a ++ b) = blocks a ++ blocks b.
Proof. unfold blocks. now rewrite map_app, concat_app. Qed.

Lemma blocks_one c : blocks [c] = data_block c.
Proof. unfold blocks. cbn [map concat]. apply app_nil_r. Qed.

Lemma layout_app a : forall off b, layout off (a ++ b) = layout off a ++ layout (off + zlen (blocks a)) b.
Proof.
  induction a as [|c a IH]; intros off b; cbn [app layout].
  - unfold blocks, zlen. cbn. now rewrite Z.add_0_r.
  - rewrite IH. change (c :: a) with ([c] ++ a). rewrite blocks_app, blocks_one, zlen_app. now rewrite Z.add_assoc.
Qed.

Lemma layout_snoc a c off : layout off (a ++ [c]) = layout off a ++ [(chunk_key c, off + zlen (blocks a))].
Proof. rewrite layout_app. reflexivity. Qed.

Lemma length_layout chunks : forall off, length (layout off chunks) = length chunks.
Proof. induction chunks; intros; cbn [layout length]; auto. Qed.

(** A bound on the length of a file for the cells. *)
Definition weight (cells : list cell) : Z := 2 * zlen (enc_cells cells) + 30 * zlen cells + 100.

Lemma weight_app a b : weight (a ++ b) = weight a + weight b - 100.
Proof. unfold weight. rewrite enc_cells_app, !zlen_app. lia. Qed.

Lemma weight_min a : 100 <= weight a.
Proof. unfold weight. pose proof (zlen_nonneg (enc_cells a)). pose proof (zlen_nonneg a). lia. Qed.

Lemma blocks_length chunks : Forall (fun c => c <> []) chunks -> Forall (Forall small_cell) chunks ->
  weight (concat chunks) < 2 ^ 32 ->
  26 * zlen chunks <= zlen (blocks chunks) <= zlen (enc_cells (concat chunks)) + 26 * zlen chunks /\
  zlen chunks <= zlen (concat chunks).
Proof.
  induction chunks as [|c chunks IH]; intros Hn Hs Hw; [cbn; lia|]. inv Hn. inv Hs.
  cbn [concat] in *. rewrite weight_app in Hw. pose proof (weight_min c). pose proof (weight_min (concat chunks)).
  destruct IH as [[L1 L2] L3]; auto; [lia|]. change (c :: chunks) with ([c] ++ chunks).
  rewrite blocks_app, blocks_one, enc_cells_app, !zlen_app. change (zlen [c]) with 1.
  assert (1 <= zlen c) by (destruct c; [congruence|unfold zlen; cbn [length]; lia]).
  pose proof (zlen_nonneg (concat chunks)). pose proof (zlen_nonneg (enc_cells (concat chunks))).
  destruct (block_of_ok DATA_BLOCK_MAGIC (enc_cells c)) as (h & _ & _ & _ & L); [apply magics_ok|now apply enc_cells_wf|unfold weight in *; lia|].
  unfold data_block. lia.
Qed.

(** *** The writer at any time *)

(** Every append has succeeded, and at most [k] replies are waiting. *)
Definition quiet (k : Z) (w : Writer) : Prop :=
  Forall (eq true) (w_replies w) /\ m_outstanding_appends w = zlen (w_replies w) /\ zlen (w_replies w) <= k /\
  Forall (eq Written) (w_dfs w).

(** What a call of the file system does not touch. *)
Definition same_buffers (w w' : Writer) : Prop :=
  m_buffer w' = m_buffer w /\ m_fix_index_buffer w' = m_fix_index_buffer w /\
  m_var_index_buffer w' = m_var_index_buffer w /\ m_trailer w' = m_trailer w /\
  m_uncompressed_blocksize w' = m_uncompressed_blocksize w.

Lemma u32_small n : 0 <= n < 2 ^ 32 -> u32 n = n.
Proof. apply wrap_small. Qed.

Lemma wait_oldest_ok w : quiet MAX_APPENDS_OUTSTANDING w ->
  exists w', wait_oldest w = Some w' /\ quiet 2 w' /\ w_file w' = w_file w /\ m_offset w' = m_offset w /\ same_buffers w w'.
Proof.
  intros (R & N & M & D). unfold wait_oldest, same_buffers, quiet, MAX_APPENDS_OUTSTANDING in *.
  destruct (3 <=? m_outstanding_appends w) eqn:L.
  - apply Z.leb_le in L. destruct (w_replies w) as [|r rs]; [unfold zlen in N; cbn in N; lia|]. inv R.
    assert (Hn : zlen (true :: rs) = zlen rs + 1) by (unfold zlen; cbn [length]; lia). rewrite Hn in *.
    eexists. split; [reflexivity|]. cbn. rewrite N, Z.add_simpl_r, u32_small by lia. intuition lia.
  - apply Z.leb_gt in L. exists w. intuition lia.
Qed.

Lemma append_async_ok k w data : quiet k w -> k < 100 -> 0 <= m_offset w + zlen data < 2 ^ 32 ->
  exists w', append_async data w = Some w' /\ quiet (k + 1) w' /\ w_file w' = w_file w ++ data /\
    m_offset w' = m_offset w + zlen data /\ same_buffers w w'.
Proof.
  intros (R & N & M & D) K B. unfold append_async. pose proof (zlen_nonneg (w_replies w)).
  assert (Hd : hd Written (w_dfs w) = Written /\ Forall (eq Written) (tl (w_dfs w))).
  { destruct (w_dfs w); [split; [reflexivity|constructor]|]. inv D. split; [reflexivity|assumption]. }
  destruct Hd as [-> Ht]. eexists. split; [reflexivity|]. unfold quiet, same_buffers. cbn. rewrite N, zlen_app.
  change (zlen [true]) with 1. rewrite !u32_small by lia.
  assert (Forall (eq true) (w_replies w ++ [true])) by (apply Forall_app; auto). intuition lia.
Qed.

(** The blocks written and the index so far. *)
Record stored (w : Writer) (chunks : list (list cell)) : Prop := {
  st_file : w_file w = blocks chunks;
  st_offset : m_offset w = zlen (blocks chunks);
  st_fix : m_fix_index_buffer w = fix_image (layout 0 chunks);
  st_var : m_var_index_buffer w = var_image (layout 0 chunks);
  st_entries : index_entries (m_trailer w) = zlen chunks;
  st_trailer : in_range 32 (blocksize (m_trailer w)) /\ in_range 16 (compression_type (m_trailer w));
  st_quiet : quiet MAX_APPENDS_OUTSTANDING w;
  st_chunks : Forall (fun c => c <> []) chunks;
  st_small : Forall (Forall small_cell) chunks }.

(** And the cells that are in the buffer. *)
Record writes (w : Writer) (chunks : list (list cell)) (cur : list cell) : Prop := {
  wr_stored : stored w chunks;
  wr_buffer : m_buffer w = enc_cells cur;
  wr_last : cur <> [] -> m_last_key w = enc (chunk_key cur);
  wr_small : Forall small_cell cur;
  wr_total : total_entries (m_trailer w) = zlen (concat chunks ++ cur);
  wr_limit : 0 <= m_uncompressed_blocksize w }.

Lemma fix_image_snoc m k off : fix_image (m ++ [(k, off)]) = fix_image m ++ encode_i32 off.
Proof. unfold fix_image. rewrite map_app, concat_app. cbn [map concat snd]. now rewrite app_nil_r. Qed.

Lemma var_image_snoc m k off : var_image (m ++ [(k, off)]) = var_image m ++ enc k.
Proof. unfold var_image. rewrite map_app, concat_app. cbn [map concat fst]. now rewrite app_nil_r. Qed.

(** A block goes out: the index entry is made, and after the call the file has it. *)
Lemma send_block_ok w chunks cur buf unc comp limit : stored w chunks -> m_last_key w = enc (chunk_key cur) ->
  cur <> [] -> Forall small_cell cur -> weight (concat chunks ++ cur) < 2 ^ 32 ->
  exists w1 w2, wait_oldest (set_packed buf unc comp limit (add_index_entry (m_last_key w) (m_offset w) w)) = Some w1 /\
    append_async (data_block cur) w1 = Some w2 /\ stored w2 (chunks ++ [cur]) /\
    m_buffer w2 = buf /\ m_uncompressed_blocksize w2 = limit /\ m_trailer w2 = count_index_entry (m_trailer w).
Proof.
  intros [F O X V E T Q C S] L Hc Hs Hw.
  assert (C' : Forall (fun c => c <> []) (chunks ++ [cur])) by (apply Forall_app; auto).
  assert (S' : Forall (Forall small_cell) (chunks ++ [cur])) by (apply Forall_app; auto).
  assert (Hw' : weight (concat (chunks ++ [cur])) < 2 ^ 32) by (rewrite concat_app; cbn [concat]; now rewrite app_nil_r).
  destruct (blocks_length _ C' S' Hw') as [B1 B2]. unfold weight in Hw'.
  pose proof (zlen_nonneg chunks). pose proof (zlen_nonneg (blocks chunks)). pose proof (zlen_nonneg (data_block cur)).
  rewrite blocks_app, blocks_one, !zlen_app in B1. rewrite zlen_app in B2. change (zlen [cur]) with 1 in *.
  set (w0 := set_packed _ _ _ _ _). destruct (wait_oldest_ok w0 Q) as (w1 & E1 & Q1 & F1 & O1 & U1).
  pose proof (zlen_nonneg (enc_cells (concat (chunks ++ [cur])))).
  destruct (append_async_ok 2 w1 (data_block cur) Q1) as (w2 & E2 & Q2 & F2 & O2 & U2); [lia|rewrite O1; change (m_offset w0) with (m_offset w); rewrite O; lia|].
  assert (Hn : u32 (zlen chunks + 1) = zlen chunks + 1) by (apply u32_small; lia).
  exists w1, w2. split; [assumption|]. split; [assumption|]. rewrite F1 in F2. rewrite O1 in O2.
  destruct U1 as (U1 & U1a & U1b & U1c & U1d). destruct U2 as (-> & U2a & U2b & U2c & ->).
  rewrite U1a in U2a. rewrite U1b in U2b. rewrite U1c in U2c. cbn in U1, U1d, U2a, U2b, U2c, F2, O2.
  repeat split; try assumption.
  - now rewrite F2, F, blocks_app, blocks_one.
  - now rewrite O2, O, blocks_app, blocks_one, zlen_app.
  - now rewrite U2a, layout_snoc, fix_image_snoc, X, O.
  - now rewrite U2b, layout_snoc, var_image_snoc, V, L.
  - rewrite U2c. cbn. rewrite E, zlen_app. exact Hn.
  - rewrite U2c. apply T.
  - rewrite U2c. apply T.
  - rewrite U2c. apply T.
  - rewrite U2c. apply T.
  - apply Q2.
  - apply Q2.
  - apply Q2.
  - apply Q2.
Qed.

Lemma pack_block_ok w cur : m_buffer w = enc_cells cur -> Forall small_cell cur -> weight cur < 2 ^ 32 ->
  exists unc comp, pack_block z w = Ok (data_block cur, unc, comp).
Proof.
  intros B Hs Hw. unfold pack_block. rewrite B. pose proof (zlen_nonneg cur). pose proof (zlen_nonneg (enc_cells cur)).
  destruct (block_of_ok DATA_BLOCK_MAGIC (enc_cells cur)) as (h & D & _);
    [apply magics_ok|now apply enc_cells_wf|unfold weight in Hw; lia|].
  rewrite D. cbn [bind]. eauto.
Qed.

Lemma flush_full_ok w chunks cur : writes w chunks cur -> weight (concat chunks ++ cur) < 2 ^ 32 ->
  exists w' chunks' cur', flush_full z w = Ok (true, w') /\ writes w' chunks' cur' /\
    concat chunks' ++ cur' = concat chunks ++ cur.
Proof.
  intros [S B L Hs T M] Hw. unfold flush_full. destruct (_ <? _) eqn:E.
  - apply Z.ltb_lt in E. assert (Hc : cur <> []) by (intros ->; rewrite B in E; unfold zlen in E; cbn in E; lia).
    specialize (L Hc). pose proof Hw as Hw2. rewrite weight_app in Hw2. pose proof (weight_min (concat chunks)).
    destruct (pack_block_ok (add_index_entry (m_last_key w) (m_offset w) w) cur B Hs) as (unc & comp & ->); [lia|].
    cbn [bind].
    destruct (send_block_ok w chunks cur [] unc comp
      (next_blocksize (blocksize (m_trailer (add_index_entry (m_last_key w) (m_offset w) w))) unc comp) S L Hc Hs Hw)
      as (w1 & w2 & -> & -> & S2 & B2 & M2 & T2).
    assert (Hcc : concat (chunks ++ [cur]) ++ [] = concat chunks ++ cur) by (rewrite concat_app; cbn [concat]; now rewrite !app_nil_r).
    exists w2, (chunks ++ [cur]), []. split; [reflexivity|]. split; [|assumption].
    split; auto; [congruence|rewrite T2, Hcc; exact T|].
    rewrite M2. apply wrap_range. lia.
  - exists w, chunks, cur. split; [reflexivity|]. split; [|reflexivity]. now split.
Qed.

Lemma chunk_key_snoc l c : chunk_key (l ++ [c]) = fst c.
Proof. unfold chunk_key. now rewrite last_last. Qed.

Lemma put_cell_ok w chunks cur c : writes w chunks cur -> small_cell c -> weight (concat chunks ++ cur ++ [c]) < 2 ^ 32 ->
  writes (put_cell (enc (fst c)) (enc (snd c)) w) chunks (cur ++ [c]).
Proof.
  intros [S B L Hs T M] Hc Hw. split; auto.
  - destruct S. now split.
  - cbn. now rewrite B, enc_cells_app, enc_cells_one.
  - intros _. cbn. now rewrite chunk_key_snoc.
  - apply Forall_app. split; [assumption|]. now constructor.
  - cbn [put_cell upd_trailer count_entry total_entries m_trailer]. rewrite T, !app_assoc.
    assert (Hn : forall a, zlen (a ++ [c]) = zlen a + 1) by (intros; now rewrite zlen_app). rewrite Hn.
    apply u32_small. rewrite <- (Hn (concat chunks ++ cur)), <- app_assoc.
    unfold weight in Hw. pose proof (zlen_nonneg (enc_cells (concat chunks ++ cur ++ [c]))).
    pose proof (zlen_nonneg (concat chunks ++ cur ++ [c])). lia.
Qed.

Lemma add_ok w chunks cur c : writes w chunks cur -> small_cell c -> weight (concat chunks ++ cur ++ [c]) < 2 ^ 32 ->
  exists w' chunks' cur', add z c w = Ok (true, w') /\ writes w' chunks' cur' /\
    concat chunks' ++ cur' = concat chunks ++ cur ++ [c].
Proof.
  intros W Hc Hw. pose proof Hw as Hw2. rewrite app_assoc, weight_app in Hw2. pose proof (weight_min [c]).
  destruct (flush_full_ok w chunks cur W) as (w' & chunks' & cur' & F & W' & E'); [lia|].
  exists (put_cell (enc (fst c)) (enc (snd c)) w'), chunks', (cur' ++ [c]). unfold add. rewrite F. cbn [bind negb].
  rewrite (proj1 (bstr_ok _ (proj1 Hc))), (proj1 (bstr_ok _ (proj2 Hc))). cbn [bind]. split; [reflexivity|].
  assert (E'' : concat chunks' ++ cur' ++ [c] = concat chunks ++ cur ++ [c]) by now rewrite app_assoc, E', <- app_assoc.
  split; [|assumption]. apply put_cell_ok; [assumption|assumption|now rewrite E''].
Qed.

Lemma add_all_ok cells : forall w chunks cur, writes w chunks cur -> Forall small_cell cells ->
  weight (concat chunks ++ cur ++ cells) < 2 ^ 32 ->
  exists w' chunks' cur', add_all z cells w = Ok w' /\ writes w' chunks' cur' /\
    concat chunks' ++ cur' = concat chunks ++ cur ++ cells.
Proof.
  induction cells as [|c cells IH]; intros w chunks cur W Hs Hw; cbn [add_all].
  - exists w, chunks, cur. rewrite app_nil_r. auto.
  - inv Hs. assert (Hx : concat chunks ++ cur ++ c :: cells = (concat chunks ++ cur ++ [c]) ++ cells) by now rewrite <- !app_assoc.
    rewrite Hx in *. pose proof Hw as Hw2. rewrite weight_app in Hw2. pose proof (weight_min cells).
    destruct (add_ok w chunks cur c W) as (w1 & chunks1 & cur1 & E1 & W1 & C1); [assumption|lia|].
    rewrite E1. cbn [bind].
    destruct (IH w1 chunks1 cur1 W1) as (w2 & chunks2 & cur2 & E2 & W2 & C2); [assumption| |].
    + now rewrite app_assoc, C1.
    + exists w2, chunks2, cur2. split; [assumption|]. split; [assumption|]. now rewrite C2, app_assoc, C1.
Qed.

Lemma create_writes bsize dfs : in_range 32 bsize -> Forall (eq Written) dfs -> writes (create z bsize dfs) [] [].
Proof.
  intros Hb Hd. pose proof lossless_type as Ht. unfold COMPRESSION_TYPE_LIMIT in Ht.
  assert (T : in_range 16 (z_type z)) by (unfold in_range; lia).
  split; [split|..]; cbn; auto; [|congruence|apply Hb].
  unfold quiet. cbn. unfold MAX_APPENDS_OUTSTANDING, zlen. cbn. repeat split; auto; lia.
Qed.

Lemma flush_last_ok w chunks cur : writes w chunks cur -> weight (concat chunks ++ cur) < 2 ^ 32 ->
  exists w' chunks', flush_last z w = Ok (Some w') /\ stored w' chunks' /\ concat chunks' = concat chunks ++ cur /\
    total_entries (m_trailer w') = zlen (concat chunks') /\ (cur <> [] -> chunks' = chunks ++ [cur]).
Proof.
  intros [S B L Hs T M] Hw. unfold flush_last. destruct (_ <? _) eqn:E.
  - apply Z.ltb_lt in E. assert (Hc : cur <> []) by (intros ->; rewrite B in E; unfold zlen in E; cbn in E; lia).
    specialize (L Hc). pose proof Hw as Hw2. rewrite weight_app in Hw2. pose proof (weight_min (concat chunks)).
    destruct (pack_block_ok (add_index_entry (m_last_key w) (m_offset w) w) cur B Hs) as (unc & comp & ->); [lia|].
    cbn [bind].
    destruct (send_block_ok w chunks cur (m_buffer (add_index_entry (m_last_key w) (m_offset w) w)) unc comp
      (m_uncompressed_blocksize (add_index_entry (m_last_key w) (m_offset w) w)) S L Hc Hs Hw)
      as (w1 & w2 & -> & -> & S2 & B2 & M2 & T2).
    assert (Hcc : concat (chunks ++ [cur]) = concat chunks ++ cur) by (rewrite concat_app; cbn [concat]; now rewrite !app_nil_r).
    exists w2, (chunks ++ [cur]). split; [reflexivity|]. split; [assumption|]. split; [assumption|].
    rewrite T2, Hcc. split; [exact T|reflexivity].
  - apply Z.ltb_ge in E. assert (cur = []).
    { destruct cur as [|[k v] l]; [reflexivity|]. exfalso. inv Hs. destruct H1 as [Hk Hv].
      rewrite B in E. change ((k, v) :: l) with ([(k, v)] ++ l) in E. rewrite enc_cells_app, enc_cells_one, zlen_app in E.
      unfold enc_cell in E. rewrite zlen_app in E. cbn [fst snd] in *. pose proof (zlen_nonneg (enc_cells l)).
      pose proof (zlen_nonneg (enc v)). pose proof (zlen_nonneg k).
      destruct (bstr_ok k Hk) as (_ & _ & _ & ?). lia. }
    subst cur. rewrite app_nil_r in *. exists w, chunks. split; [reflexivity|]. split; [assumption|].
    split; [reflexivity|]. split; [assumption|congruence].
Qed.

End Written.

(** *** The index *)

(** Every key has a row, which a NUL ends. *)
Definition good_key (k : list Z) : Prop := small k /\ In 0 k.
Definition entry_lt (a b : list Z * Z) : Prop := bytes_lt (fst a) (fst b).
Definition good_entry (e : list Z * Z) : Prop := good_key (fst e) /\ in_range 32 (snd e).

Lemma index_entry_ok k off var fix_ : small k -> in_range 32 off ->
  index_entry (enc k ++ var) (encode_i32 off ++ fix_) = Ok (k, off, var, fix_).
Proof.
  intros Hk Ho. destruct (bstr_ok k Hk) as (_ & _ & Hh & _). specialize (Hh var). unfold index_entry.
  unfold decode_length, next. rewrite (holds_decode _ _ _ Hh). cbn [bind].
  rewrite (content_app k var (zlen k) eq_refl). cbn [bind]. pose proof (zlen_nonneg var).
  rewrite zlen_app, (proj2 (Z.leb_le _ _)) by lia. cbn [bind].
  rewrite decode_i32_encode by lia. cbn [bind ip]. rewrite wrap_small by assumption.
  unfold zlen. now rewrite Nat2Z.id, skipn_app_exact.
Qed.

Lemma in_nul_cstr k rest : In 0 k -> exists r, cstr (k ++ rest) = Some r /\ no_nul r.
Proof.
  intros H. apply in_split in H as (a & b & ->). revert rest b. induction a as [|x a IH]; intros rest b.
  - exists []. split; [reflexivity|constructor].
  - destruct (IH rest b) as (r & E & N). cbn [app cstr]. destruct (x =? 0) eqn:Ex.
    + exists []. split; [reflexivity|constructor].
    + rewrite E. exists (x :: r). split; [reflexivity|]. constructor; [now apply Z.eqb_neq|assumption].
Qed.

(** The split row is none or strictly inside the range. *)
Definition split_ok (start_row end_row old split : list Z) : Prop :=
  split = old \/ bytes_lt start_row split /\ bytes_lt split end_row.

(** Memory that holds a byte string with a C string in it. *)
Definition holds_row (m : list Z) : Prop := exists p, str (Some m) = Ok p /\ In 0 p.

Lemma enc_holds_row k rest : good_key k -> holds_row (enc k ++ rest).
Proof.
  intros [Hk H0]. destruct (bstr_ok k Hk) as (_ & _ & Hh & _). specialize (Hh rest).
  exists (k ++ rest). unfold str, decode_length. rewrite (holds_decode _ _ _ Hh). split; [reflexivity|].
  apply in_or_app. now left.
Qed.

Lemma record_split_row_ok m start_row end_row split : holds_row m ->
  exists r, record_split_row m start_row end_row split = Ok r /\ split_ok start_row end_row split r.
Proof.
  intros (p & E & H0). unfold record_split_row. rewrite E. cbn [bind].
  destruct (in_nul_cstr p [] H0) as (r & Er & _). rewrite app_nil_r in Er. rewrite Er. eexists. split; [reflexivity|].
  unfold split_ok. destruct (bytes_ltb start_row r) eqn:E1; [|now left].
  destruct (bytes_ltb r end_row) eqn:E2; [|now left]. right. now rewrite <- !bytes_ltb_lt.
Qed.

Lemma index_insert_last k off m : Forall (fun e => bytes_lt (fst e) k) m -> index_insert k off m = m ++ [(k, off)].
Proof.
  induction 1 as [|[k' off'] m He _ IH]; [reflexivity|]. cbn [index_insert app]. cbn [fst] in He.
  rewrite (proj2 (bytes_cmp_gt _ _) He), IH. reflexivity.
Qed.

Lemma index_step m e es : StronglySorted entry_lt (m ++ e :: es) ->
  index_insert (fst e) (snd e) m = m ++ [e] /\ StronglySorted entry_lt ((m ++ [e]) ++ es).
Proof.
  intros Hs. split; [|now rewrite <- app_assoc]. destruct e as [k off]. apply index_insert_last.
  clear -Hs. induction m as [|x m IH]; [constructor|]. cbn [app] in Hs. inv Hs. constructor; [|now apply IH].
  apply Forall_app in H2 as [_ H2]. now inv H2.
Qed.

Lemma var_image_cons e es : var_image (e :: es) = enc (fst e) ++ var_image es.
Proof. reflexivity. Qed.

Lemma fix_image_cons e es : fix_image (e :: es) = encode_i32 (snd e) ++ fix_image es.
Proof. reflexivity. Qed.

Lemma fill_index_ok start_row end_row behind : holds_row behind -> forall es i half m split,
  StronglySorted entry_lt (m ++ es) -> Forall good_entry es ->
  exists split', fill_index (length es) i half start_row end_row (var_image es ++ behind) (fix_image es) m split =
                   Ok (m ++ es, split') /\ split_ok start_row end_row split split'.
Proof.
  intros Hb. induction es as [|e es IH]; intros i half m split Hs Hg; cbn [length fill_index].
  - exists split. rewrite app_nil_r. split; [reflexivity|now left].
  - inversion Hg as [|? ? [[Hk H0] Ho] Hg']; subst. destruct (index_step m e es Hs) as [Hi Hs'].
    rewrite var_image_cons, fix_image_cons, <- app_assoc, index_entry_ok by assumption. cbn [bind]. rewrite Hi.
    assert (Hrow : holds_row (var_image es ++ behind)).
    { destruct es as [|e' es]; [exact Hb|]. inversion Hg' as [|? ? [Hk' _] _]; subst.
      rewrite var_image_cons, <- app_assoc. now apply enc_holds_row. }
    assert (Hsp : exists sp, (if (i =? half)%nat then record_split_row (var_image es ++ behind) start_row end_row split
                              else Ok split) = Ok sp /\ split_ok start_row end_row split sp).
    { destruct (i =? half)%nat; [now apply record_split_row_ok|]. exists split. split; [reflexivity|now left]. }
    destruct Hsp as (sp & -> & Hsp). cbn [bind]. destruct (IH (S i) half (m ++ [e]) sp Hs' Hg') as (sp' & -> & Hsp').
    exists sp'. rewrite <- app_assoc. split; [reflexivity|]. destruct Hsp' as [->|]; [assumption|now right].
Qed.

Lemma read_index_ok es : forall m, StronglySorted entry_lt (m ++ es) -> Forall good_entry es ->
  read_index (length es) (var_image es) (fix_image es) m = Ok (m ++ es).
Proof.
  induction es as [|e es IH]; intros m Hs Hg; cbn [length read_index].
  - now rewrite app_nil_r.
  - inversion Hg as [|? ? [[Hk H0] Ho] Hg']; subst. destruct (index_step m e es Hs) as [Hi Hs'].
    rewrite var_image_cons, fix_image_cons, !zlen_app. pose proof (zlen_nonneg (var_image es)). pose proof (zlen_nonneg (fix_image es)).
    pose proof (zlen_nonneg (fst e)). destruct (bstr_ok _ Hk) as (_ & _ & _ & L).
    assert (L' : zlen (encode_i32 (snd e)) = 4) by (unfold encode_i32, zlen; now rewrite length_le_bytes).
    rewrite !(proj2 (Z.ltb_lt _ _)) by lia. cbn [andb].
    rewrite index_entry_ok by assumption. cbn [bind]. rewrite Hi, IH by assumption. now rewrite <- app_assoc.
Qed.

(** The keys of the index ascend when those of the cells do. *)
Definition cell_lt (a b : cell) : Prop := bytes_lt (fst a) (fst b).

Lemma chunk_key_in c : c <> [] -> exists x, In x c /\ chunk_key c = fst x.
Proof.
  intros H. destruct (exists_last H) as (l & x & ->). exists x. split; [apply in_or_app; right; now left|].
  unfold chunk_key. now rewrite last_last.
Qed.

Lemma layout_in z chunks e : forall off, In e (layout z off chunks) -> exists c, In c chunks /\ fst e = chunk_key c.
Proof.
  induction chunks as [|c chunks IH]; intros off; cbn [layout In]; [intros []|].
  intros [<-|H]; [now eauto|]. destruct (IH _ H) as (c' & ? & ?). eauto.
Qed.

Lemma layout_sorted z chunks : Forall (fun c => c <> []) chunks -> StronglySorted cell_lt (concat chunks) ->
  forall off, StronglySorted entry_lt (layout z off chunks).
Proof.
  induction 1 as [|c chunks Hc Hcs IH]; intros Hs off; cbn [layout concat] in *; [constructor|].
  apply sorted_app in Hs as (_ & Hs & Hlt). constructor; [now apply IH|]. apply Forall_forall. intros e He.
  apply layout_in in He as (c' & Hc' & He). unfold entry_lt. rewrite He. cbn [fst].
  rewrite Forall_forall in Hcs. destruct (chunk_key_in c Hc) as (x & Hx & ->).
  destruct (chunk_key_in c' (Hcs _ Hc')) as (y & Hy & ->). apply Hlt; [assumption|].
  apply in_concat. eauto.
Qed.

(** *** The trailer *)

Definition ok_Trailer (t : Trailer) : Prop :=
  in_range 32 (fix_index_offset t) /\ in_range 32 (var_index_offset t) /\ in_range 32 (filter_offset t) /\
  in_range 32 (index_entries t) /\ in_range 32 (total_entries t) /\ in_range 32 (blocksize t) /\
  ok_Timestamp (t_timestamp t) /\ in_range 32 (compression_ratio_i32 t) /\ in_range 16 (compression_type t) /\
  in_range 16 (version t).

Lemma codec_Trailer t : ok_Trailer t -> codec (Trailer_serialize t) Trailer_size Trailer_deserialize t.
Proof.
  intros (H1 & H2 & H3 & H4 & H5 & H6 & H7 & H8 & H9 & H10). destruct t.
  cbn [fix_index_offset var_index_offset filter_offset index_entries total_entries blocksize t_timestamp
    compression_ratio_i32 compression_type version] in *.
  unfold Trailer_serialize, Trailer_deserialize. codec_record. reflexivity.
Qed.

(** *** A finished file *)

Definition good_cell (c : cell) : Prop := small_cell c /\ In 0 (fst c).

Section Finished.

Context (z : Compressor) (Hz : Lossless z).

Definition index_blocks (m : IndexMap) : list Z * list Z :=
  (block_of z INDEX_FIXED_BLOCK_MAGIC (fix_image m), block_of z INDEX_VARIABLE_BLOCK_MAGIC (var_image m)).

(** The file of a store over the chunks, and what the store knows of it. *)
Record cell_file (s : CellStoreV0) (chunks : list (list cell)) (trailer : list Z) : Prop := {
  cf_chunks : Forall (fun c => c <> []) chunks;
  cf_cells : Forall (Forall good_cell) chunks;
  cf_sorted : StronglySorted cell_lt (concat chunks);
  cf_weight : weight (concat chunks) < 2 ^ 32;
  cf_file : s_file s = blocks z chunks ++ fst (index_blocks (layout z 0 chunks)) ++
                       snd (index_blocks (layout z 0 chunks)) ++ trailer;
  cf_trailer : Trailer_serialize (s_trailer s) = Ok trailer;
  cf_trailer_ok : ok_Trailer (s_trailer s) /\ version (s_trailer s) = 0;
  cf_fix : fix_index_offset (s_trailer s) = zlen (blocks z chunks);
  cf_var : var_index_offset (s_trailer s) = zlen (blocks z chunks) + zlen (fst (index_blocks (layout z 0 chunks)));
  cf_entries : index_entries (s_trailer s) = zlen chunks;
  cf_total : total_entries (s_trailer s) = zlen (concat chunks);
  cf_length : m_file_length s = zlen (s_file s) /\ zlen (s_file s) < 2 ^ 32 }.

Lemma good_small : forall l, Forall (Forall good_cell) l -> Forall (Forall small_cell) l.
Proof.
  intros l H. eapply Forall_impl; [|exact H]. intros c Hc. eapply Forall_impl; [|exact Hc]. now intros x [].
Qed.

Lemma layout_good chunks : Forall (fun c => c <> []) chunks -> Forall (Forall good_cell) chunks ->
  weight (concat chunks) < 2 ^ 32 -> forall off, 0 <= off -> off + zlen (blocks z chunks) < 2 ^ 32 ->
  Forall good_entry (layout z off chunks).
Proof.
  induction chunks as [|c chunks IH]; intros Hn Hg Hw off Ho Hb; cbn [layout]; [constructor|]. inv Hn. inv Hg.
  change (c :: chunks) with ([c] ++ chunks) in Hb. rewrite blocks_app, blocks_one, zlen_app in Hb.
  pose proof (zlen_nonneg (data_block z c)). pose proof (zlen_nonneg (blocks z chunks)).
  cbn [concat] in Hw. rewrite weight_app in Hw. pose proof (weight_min c).
  constructor; [|apply IH; auto; lia]. split; cbn [fst snd]; [|unfold in_range; lia].
  destruct (chunk_key_in c) as (x & Hx & ->); [assumption|]. rewrite Forall_forall in H3.
  destruct (H3 _ Hx) as [[Hk _] Hnul]. now split.
Qed.

Lemma fix_image_ok m : wf_bytes (fix_image m) /\ zlen (fix_image m) = 4 * zlen m.
Proof.
  induction m as [|e m [W L]]; [split; [constructor|reflexivity]|]. rewrite fix_image_cons, zlen_app, L.
  unfold encode_i32. split; [apply wf_bytes_app; split; [apply wf_le_bytes|assumption]|].
  unfold zlen. rewrite length_le_bytes. cbn [length]. lia.
Qed.

Lemma enc_cells_mem c x : In x c -> zlen (enc (fst x)) <= zlen (enc_cells c).
Proof.
  intros H. apply in_split in H as (a & b & ->). change (x :: b) with ([x] ++ b).
  rewrite !enc_cells_app, enc_cells_one, !zlen_app. unfold enc_cell. rewrite zlen_app.
  pose proof (zlen_nonneg (enc_cells a)). pose proof (zlen_nonneg (enc_cells b)). pose proof (zlen_nonneg (enc (snd x))). lia.
Qed.

Lemma var_image_ok chunks : Forall (fun c => c <> []) chunks -> Forall (Forall good_cell) chunks -> forall off,
  wf_bytes (var_image (layout z off chunks)) /\ zlen (var_image (layout z off chunks)) <= zlen (enc_cells (concat chunks)).
Proof.
  induction 1 as [|c chunks Hc Hn IH]; intros Hg off; cbn [layout concat]; [split; [constructor|reflexivity]|].
  inv Hg. destruct (IH H2 (off + zlen (data_block z c))) as [W L]. rewrite var_image_cons, enc_cells_app, !zlen_app. cbn [fst].
  destruct (chunk_key_in c Hc) as (x & Hx & ->). pose proof (enc_cells_mem c x Hx). rewrite Forall_forall in H1.
  destruct (H1 _ Hx) as [[Hk _] _]. split; [|lia]. apply wf_bytes_app. split; [now apply bstr_ok|assumption].
Qed.

(** The lengths of the three parts of a file. *)
Lemma parts_ok chunks : Forall (fun c => c <> []) chunks -> Forall (Forall good_cell) chunks ->
  weight (concat chunks) < 2 ^ 32 ->
  let F := fst (index_blocks (layout z 0 chunks)) in let V := snd (index_blocks (layout z 0 chunks)) in
  zlen chunks < 2 ^ 32 /\ 0 <= zlen (blocks z chunks) /\ 26 <= zlen F /\ 26 <= zlen V /\
  zlen (blocks z chunks) + zlen F + zlen V + 48 <= weight (concat chunks) /\
  (exists h, deflate z (fix_image (layout z 0 chunks)) (BlockHeader_make INDEX_FIXED_BLOCK_MAGIC) = Ok (F, h) /\
             inflate z false F = Ok (fix_image (layout z 0 chunks), h) /\ bh_magic h = INDEX_FIXED_BLOCK_MAGIC) /\
  (exists h, deflate z (var_image (layout z 0 chunks)) (BlockHeader_make INDEX_VARIABLE_BLOCK_MAGIC) = Ok (V, h) /\
             inflate z false V = Ok (var_image (layout z 0 chunks), h) /\ bh_magic h = INDEX_VARIABLE_BLOCK_MAGIC).
Proof.
  intros Hn Hg Hw F V. destruct (blocks_length z Hz chunks Hn (good_small _ Hg) Hw) as [B1 B2].
  destruct (fix_image_ok (layout z 0 chunks)) as [Wf Lf]. destruct (var_image_ok chunks Hn Hg 0) as [Wv Lv].
  replace (zlen (layout z 0 chunks)) with (zlen chunks) in Lf by (unfold zlen; now rewrite length_layout).
  pose proof (zlen_nonneg chunks). pose proof (zlen_nonneg (blocks z chunks)). pose proof (zlen_nonneg (enc_cells (concat chunks))).
  unfold weight in *. destruct magics_ok as (_ & M1 & M2).
  destruct (block_of_ok z Hz INDEX_FIXED_BLOCK_MAGIC (fix_image (layout z 0 chunks))) as (h1 & D1 & I1 & G1 & L1); auto; [lia|].
  destruct (block_of_ok z Hz INDEX_VARIABLE_BLOCK_MAGIC (var_image (layout z 0 chunks))) as (h2 & D2 & I2 & G2 & L2); auto; [lia|].
  subst F V. unfold index_blocks. cbn [fst snd]. refine (conj _ (conj _ (conj _ (conj _ (conj _ (conj _ _)))))); try lia; eauto.
Qed.

Lemma all_written dfs i : Forall (eq Written) dfs -> nth i dfs Written = Written.
Proof.
  intros H. revert i. induction H as [|o dfs <- _ IH]; intros [|i]; cbn [nth]; auto.
Qed.

Lemma finish_ok w chunks behind ts : stored z w chunks -> Forall (Forall good_cell) chunks ->
  StronglySorted cell_lt (concat chunks) -> weight (concat chunks) < 2 ^ 32 ->
  total_entries (m_trailer w) = zlen (concat chunks) -> holds_row behind -> ok_Timestamp ts ->
  exists s trailer, finish z behind ts w = Ok (Some s) /\
    cell_file s chunks trailer /\ m_index s = layout z 0 chunks /\ t_timestamp (s_trailer s) = ts /\
    split_ok [] END_ROW_MARKER [] (m_split_row s).
Proof.
  intros [F O X V E [T1 T2] Q C Sm] Hg Hs Hw Ht Hb Hts. unfold finish.
  destruct (parts_ok chunks C Hg Hw) as (Hn & B0 & LF & LV & Hlen & (h1 & D1 & _) & (h2 & D2 & _)).
  set (FX := fst (index_blocks (layout z 0 chunks))) in *. set (VR := snd (index_blocks (layout z 0 chunks))) in *.
  cbn [upd_trailer m_fix_index_buffer m_offset]. rewrite X, D1. cbn [bind].
  match goal with |- context [append_async ?d ?w] => destruct (append_async_ok 3 w d Q) as (w2 & -> & Q2 & F2 & O2 & U2) end;
    [lia|cbn [upd_trailer m_offset]; rewrite O; lia|].
  destruct U2 as (_ & U2a & U2b & U2c & _). cbn [upd_trailer m_fix_index_buffer m_var_index_buffer m_trailer m_offset w_file w_dfs] in *.
  rewrite U2a, U2b, U2c, X, V, D2, O2, O, F2, F. cbn [bind set_var_index close_data index_entries]. rewrite E.
  assert (Hnat : Z.to_nat (zlen chunks) = length (layout z 0 chunks)) by (rewrite length_layout; unfold zlen; lia).
  rewrite Hnat.
  destruct (fill_index_ok [] END_ROW_MARKER behind Hb (layout z 0 chunks) 0 (length (layout z 0 chunks) / 2) [] []) as (sp & -> & Hsp);
    [now apply layout_sorted|apply layout_good; auto; lia|].
  cbn [bind app]. set (t := set_filter _ _).
  pose proof (zlen_nonneg chunks). pose proof (zlen_nonneg (concat chunks)). pose proof (zlen_nonneg (enc_cells (concat chunks))).
  assert (Htot : zlen (concat chunks) < 2 ^ 32) by (unfold weight in Hw; lia).
  assert (Ok_t : ok_Trailer t).
  { unfold ok_Trailer, t, set_filter, set_var_index, close_data, in_range.
    cbn [fix_index_offset var_index_offset filter_offset index_entries total_entries blocksize t_timestamp
      compression_ratio_i32 compression_type version]. unfold in_range in T1, T2. rewrite ?O, ?E, ?Ht.
    rewrite u32_small by lia. pose proof (wrap_range 32) as R. unfold in_range in R.
    repeat (split; [first [lia | exact Hts | apply R; lia]|]). lia. }
  destruct (codec_Trailer t Ok_t) as (tl & Etl & Ltl & _). rewrite Etl. cbn [bind]. unfold Trailer_size in Ltl.
  destruct Q2 as (_ & _ & _ & Q2). rewrite !all_written by assumption. cbn [call_ok andb].
  eexists _, tl. split; [reflexivity|]. split; [|split; [reflexivity|]; split; [reflexivity|exact Hsp]].
  split; cbn [s_file s_trailer m_file_length]; auto.
  - now rewrite <- !app_assoc.
  - rewrite !zlen_app. rewrite u32_small by lia. lia.
Qed.

Lemma finalize_ok w chunks cur behind ts : writes z w chunks cur -> Forall good_cell (concat chunks ++ cur) ->
  StronglySorted cell_lt (concat chunks ++ cur) -> weight (concat chunks ++ cur) < 2 ^ 32 ->
  holds_row behind -> ok_Timestamp ts ->
  exists s chunks' trailer, finalize z behind ts w = Ok (Some s) /\ concat chunks' = concat chunks ++ cur /\
    cell_file s chunks' trailer /\ m_index s = layout z 0 chunks' /\ t_timestamp (s_trailer s) = ts /\
    split_ok [] END_ROW_MARKER [] (m_split_row s).
Proof.
  intros W Hg Hs Hw Hb Hts. unfold finalize.
  destruct (flush_last_ok z Hz w chunks cur W Hw) as (w1 & chunks' & -> & S & Hc & Ht & _). cbn [bind]. rewrite <- Hc in *.
  assert (Hg' : Forall (Forall good_cell) chunks').
  { apply Forall_forall. intros c Hin. apply Forall_forall. intros x Hx. rewrite Forall_forall in Hg. apply Hg.
    apply in_concat. eauto. }
  destruct (finish_ok w1 chunks' behind ts S Hg' Hs Hw Ht Hb Hts) as (s & tl & E & CF & I & T & Sp).
  exists s, chunks', tl. auto 10.
Qed.

(** A new store has no bounds. *)
Lemma finalize_rows w behind ts s : finalize z behind ts w = Ok (Some s) -> m_start_row s = [] /\ m_end_row s = END_ROW_MARKER.
Proof.
  unfold finalize. destruct (flush_last z w) as [[w1|]|e|]; cbn [bind]; try discriminate. unfold finish.
  destruct (deflate z _ _) as [[fixed h]|e|]; cbn [bind]; try discriminate. destruct (append_async _ _) as [w2|]; [|discriminate].
  destruct (deflate z _ _) as [[var h2]|e|]; cbn [bind]; try discriminate.
  destruct (fill_index _ _ _ _ _ _ _ _ _) as [[index split]|e|]; cbn [bind]; try discriminate.
  destruct (Trailer_serialize _) as [t|e|]; cbn [bind]; try discriminate. destruct (_ && _); [|discriminate]. intros [= <-]. auto.
Qed.

(** *** Reading it back *)

Lemma pread_middle a b c : pread (a ++ b ++ c) (zlen b) (zlen a) = b.
Proof.
  unfold pread, zlen. rewrite !Nat2Z.id, skipn_app_exact. apply firstn_app_exact.
Qed.

Lemma pread_suffix a b : pread (a ++ b) (zlen b) (zlen a) = b.
Proof. rewrite <- (app_nil_r b) at 1. apply pread_middle. Qed.

(** Each block at its offset. *)
Lemma block_read s chunks trailer a c b : cell_file s chunks trailer -> chunks = a ++ c :: b ->
  exists h, inflate z false (pread (s_file s) (zlen (data_block z c)) (zlen (blocks z a))) = Ok (enc_cells c, h) /\
    check_magic DATA_BLOCK_MAGIC h = true.
Proof.
  intros CF ->. destruct CF as [C G So Hw F _ _ _ _ _ _ _]. rewrite F.
  change (c :: b) with ([c] ++ b). rewrite !blocks_app, blocks_one, <- !app_assoc, pread_middle.
  assert (Hc : Forall small_cell c).
  { apply Forall_app in G as [_ G]. inv G. eapply Forall_impl; [|eassumption]. now intros x []. }
  rewrite concat_app, weight_app in Hw. cbn [concat] in Hw. rewrite weight_app in Hw.
  pose proof (weight_min (concat a)). pose proof (weight_min (concat b)). pose proof (zlen_nonneg c).
  destruct (block_of_ok z Hz DATA_BLOCK_MAGIC (enc_cells c)) as (h & _ & I & M & _);
    [apply magics_ok|now apply enc_cells_wf|unfold weight in *; pose proof (zlen_nonneg (enc_cells c)); lia|].
  exists h. split; [exact I|]. unfold check_magic. rewrite M. now apply bytes_eqb_eq.
Qed.

Lemma firstn_zlen {A} (a b : list A) : firstn (Z.to_nat (zlen a)) (a ++ b) = a.
Proof. unfold zlen. rewrite Nat2Z.id. apply firstn_app_exact. Qed.

Lemma skipn_zlen {A} (a b : list A) : skipn (Z.to_nat (zlen a)) (a ++ b) = b.
Proof. unfold zlen. rewrite Nat2Z.id. apply skipn_app_exact. Qed.

Definition opened (s : CellStoreV0) (start_row end_row : list Z) : CellStoreV0 :=
  {| s_file := s_file s; s_trailer := s_trailer s; m_index := []; m_start_row := start_row; m_end_row := end_row;
     m_file_length := zlen (s_file s); m_disk_usage := 0; m_split_row := [] |}.

Lemma open_ok s chunks trailer start_row end_row : cell_file s chunks trailer ->
  open (s_file s) start_row end_row = Ok (opened s start_row end_row).
Proof.
  intros [C G So Hw F T [Tok Tv] Hf Hv He _ [Hl Hl2]]. unfold open.
  destruct (parts_ok chunks C G Hw) as (Hn & B0 & LF & LV & Hlen & _).
  destruct (codec_Trailer _ Tok) as (l & El & Ll & R). rewrite T in El. apply Ok_inj in El as <-.
  assert (Hz48 : zlen (s_file s) = zlen (blocks z chunks) + zlen (fst (index_blocks (layout z 0 chunks))) +
                 zlen (snd (index_blocks (layout z 0 chunks))) + Trailer_size) by (rewrite F, !zlen_app, Ll; lia).
  assert (Hp : pread (s_file s) Trailer_size (zlen (s_file s) - Trailer_size) = trailer).
  { replace (zlen (s_file s) - Trailer_size) with (zlen (blocks z chunks ++ fst (index_blocks (layout z 0 chunks)) ++
      snd (index_blocks (layout z 0 chunks)))) by (rewrite !zlen_app; lia).
    rewrite <- Ll, F, !app_assoc. apply pread_suffix. }
  unfold Trailer_size in *. rewrite Hp, (proj2 (Z.ltb_ge _ _)) by lia.
  specialize (R [] 48). rewrite app_nil_r in R. rewrite R by lia. cbn [bind].
  rewrite Tv. cbn [Z.eqb negb]. rewrite Hf, Hv, !(proj2 (Z.ltb_lt _ _)) by lia. reflexivity.
Qed.

End Finished.

(** *** The disk usage *)

Lemma index_from_in p m e : In e (index_from p m) -> In e m.
Proof.
  induction m as [|x m IH]; cbn [index_from]; [intros []|]. destruct (p (fst x)); cbn [In]; intuition.
Qed.

Lemma index_from_le (p q : list Z -> bool) m : (forall k, q k = true -> p k = true) ->
  (length (index_from q m) <= length (index_from p m) <= length m)%nat.
Proof.
  intros H. induction m as [|x m IH]; cbn [index_from length]; [lia|].
  destruct (p (fst x)) eqn:P; destruct (q (fst x)) eqn:Q; cbn [length]; try lia.
  apply H in Q. congruence.
Qed.

Lemma index_from_some p m e : In e m -> p (fst e) = true -> index_from p m <> [].
Proof.
  induction m as [|x m IH]; [intros []|]. cbn [index_from]. destruct (p (fst x)) eqn:P; [discriminate|].
  intros [->|H] He; [congruence|now apply IH].
Qed.

Lemma mid_loop_ok end_ fuel : forall i iter mid, (length iter < fuel + length end_)%nat ->
  (length end_ <= length iter)%nat -> exists r, mid_loop fuel i iter mid end_ = Ok r /\ incl r mid.
Proof.
  induction fuel as [|fuel IH]; intros i iter mid Hf Hl; [lia|]. cbn [mid_loop].
  destruct (Nat.eqb_spec (length iter) (length end_)); [exists mid; split; [reflexivity|apply incl_refl]|].
  destruct iter as [|x iter]; [cbn in *; lia|]. cbn [length] in *.
  destruct (IH (S i) iter (if Nat.even i then tl mid else mid)) as (r & -> & Hr); [lia|lia|].
  exists r. split; [reflexivity|]. intros e He. apply Hr in He. destruct (Nat.even i); [|assumption].
  destruct mid; [assumption|now right].
Qed.

Lemma row_bound_lt a b : wf_bytes b -> bytes_lt a b -> bytes_lt (row_bound a) (row_bound b).
Proof.
  intros Wb H. assert (Hle : bytes_leb (row_bound a) (row_bound b) = true).
  { apply row_bound_le; [assumption|]. apply bytes_leb_le. now left. }
  apply bytes_leb_le in Hle as [|E]; [assumption|]. apply app_inj_tail in E as [-> _]. now apply bytes_lt_irrefl in H.
Qed.

Lemma disk_usage_ok start_row end_row file_length m : Forall good_entry m -> wf_bytes end_row ->
  bytes_lt start_row end_row -> (exists e, In e m /\ bytes_lt (row_bound start_row) (fst e)) ->
  exists usage split, disk_usage start_row end_row file_length m = Ok (usage, split) /\ split_ok start_row end_row [] split.
Proof.
  intros Hg We Hlt (e & He & Hlow). unfold disk_usage, index_upper, index_lower.
  set (p := bytes_ltb (row_bound start_row)). set (q := bytes_leb (row_bound end_row)).
  assert (Hne : index_from p m <> []) by (apply (index_from_some p m e He); now apply bytes_ltb_lt).
  assert (Hpq : forall k, q k = true -> p k = true).
  { intros k Hk. apply bytes_leb_le in Hk. apply bytes_ltb_lt. pose proof (row_bound_lt _ _ We Hlt) as HL.
    destruct Hk as [Hk| <-]; [|assumption]. now apply (bytes_lt_trans _ (row_bound end_row)). }
  destruct (index_from_le p q m Hpq) as [L1 L2]. remember (index_from p m) as it eqn:Eit.
  destruct it as [|[k0 start] it]; [congruence|]. cbn zeta.
  destruct (mid_loop_ok (index_from q m) (S (length m)) 0 ((k0, start) :: it) ((k0, start) :: it)) as (r & -> & Hr); [lia|lia|].
  cbn [bind]. destruct r as [|[k off] r].
  - cbn [bind]. eexists _, []. split; [reflexivity|now left].
  - assert (Hk : good_key k).
    { rewrite Forall_forall in Hg. apply (Hg (k, off)), (index_from_in p). rewrite <- Eit. apply Hr. now left. }
    rewrite (proj1 (bstr_ok k (proj1 Hk))). cbn [bind].
    destruct (record_split_row_ok (enc k) start_row end_row []) as (sp & -> & Hsp).
    { rewrite <- (app_nil_r (enc k)). now apply enc_holds_row. }
    cbn [bind]. eauto.
Qed.

Section Loaded.

Context (z : Compressor) (Hz : Lossless z).

Lemma load_index_ok s chunks trailer start_row end_row : cell_file z s chunks trailer -> wf_bytes end_row ->
  bytes_lt start_row end_row -> (exists c, In c chunks /\ bytes_lt (row_bound start_row) (chunk_key c)) ->
  exists s', load_index z (opened s start_row end_row) = Ok s' /\ m_index s' = layout z 0 chunks /\
    s_file s' = s_file s /\ s_trailer s' = s_trailer s /\ m_file_length s' = zlen (s_file s) /\ m_start_row s' = start_row /\
    m_end_row s' = end_row /\ split_ok start_row end_row [] (m_split_row s').
Proof.
  intros [C G So Hw F T [Tok Tv] Hf Hv He _ [Hl Hl2]] We Hlt (c & Hc & Hk). unfold load_index, opened.
  cbn [s_trailer m_file_length s_file m_start_row m_end_row].
  destruct (parts_ok z Hz chunks C G Hw) as (Hn & B0 & LF & LV & Hlen & (h1 & _ & I1 & M1) & (h2 & _ & I2 & M2)).
  destruct (codec_Trailer _ Tok) as (l & El & Ll & _). rewrite T in El. apply Ok_inj in El as <-. unfold Trailer_size in *.
  set (FX := fst (index_blocks z (layout z 0 chunks))) in *. set (VR := snd (index_blocks z (layout z 0 chunks))) in *.
  assert (Hz48 : zlen (s_file s) = zlen (blocks z chunks) + zlen FX + zlen VR + 48) by (rewrite F, !zlen_app; lia).
  rewrite Hf, Hv, Hz48.
  replace (zlen (blocks z chunks) + zlen FX + zlen VR + 48 - 48 - zlen (blocks z chunks)) with (zlen (FX ++ VR)) by (rewrite zlen_app; lia).
  assert (Lfv : 0 <= zlen (FX ++ VR) < 2 ^ 32) by (rewrite zlen_app; lia). rewrite u32_small by assumption.
  assert (Hp : pread (s_file s) (zlen (FX ++ VR)) (zlen (blocks z chunks)) = FX ++ VR).
  { rewrite F, (app_assoc FX). apply pread_middle. }
  rewrite Hp, Z.eqb_refl. cbn [negb]. rewrite Z.add_simpl_l, firstn_zlen, I1, skipn_zlen. cbn [bind].
  unfold check_magic. rewrite M1. rewrite (proj2 (bytes_eqb_eq _ _) eq_refl). cbn [negb].
  replace (zlen (blocks z chunks) + zlen FX + zlen VR + 48 - 48 - (zlen (blocks z chunks) + zlen FX)) with (zlen VR) by lia.
  rewrite u32_small by lia. rewrite firstn_all2 by (unfold zlen; lia). rewrite I2. cbn [bind].
  rewrite M2, (proj2 (bytes_eqb_eq _ _) eq_refl). cbn [negb]. rewrite He.
  replace (Z.to_nat (zlen chunks)) with (length (layout z 0 chunks)) by (rewrite length_layout; unfold zlen; lia).
  pose proof (layout_sorted z chunks C So 0) as Ls.
  assert (Lg : Forall good_entry (layout z 0 chunks)) by (apply layout_good; auto; lia).
  rewrite read_index_ok by assumption. cbn [bind app].
  destruct (disk_usage_ok start_row end_row (zlen (blocks z chunks) + zlen FX + zlen VR + 48) (layout z 0 chunks) Lg We Hlt)
    as (u & sp & -> & Hsp).
  { apply in_split in Hc as (a & b & ->). rewrite layout_app. exists (chunk_key c, 0 + zlen (blocks z a)).
    split; [apply in_or_app; right; now left|assumption]. }
  cbn [bind]. eexists. split; [reflexivity|]. cbn [m_index s_file s_trailer m_file_length m_start_row m_end_row m_split_row].
  auto 10.
Qed.

End Loaded.

Lemma last_chunk chunks : Forall (fun c : list cell => c <> []) chunks -> concat chunks <> [] ->
  exists c, In c chunks /\ chunk_key c = chunk_key (concat chunks).
Proof.
  intros Hn Hc. destruct (@exists_last _ chunks) as (l & c & ->); [now intros ->|].
  exists c. split; [apply in_or_app; right; now left|]. rewrite concat_app. cbn [concat]. rewrite app_nil_r.
  apply Forall_app in Hn as [_ Hn]. inv Hn. destruct (exists_last H1) as (l' & x & ->).
  now rewrite app_assoc, !chunk_key_snoc.
Qed.


Definition sample_cells : list cell :=
  [([97; 0; 1; 0; 255; 9; 9], [1; 2; 3]); ([97; 0; 2; 113; 0; 255; 9; 9], [7; 7; 7; 7; 7; 7; 7; 7]);
   ([98; 0; 1; 0; 255; 9; 9], []); ([99; 0; 1; 0; 0; 9; 9], [5])].

Ltac bytes_wf := repeat (apply Forall_cons; [unfold is_byte, in_range; cbn; lia|]); apply Forall_nil.

Lemma sample_good : Forall good_cell sample_cells.
Proof.
  unfold sample_cells.
  repeat (apply Forall_cons; [split; [split; (split; [reflexivity|bytes_wf])|cbn; tauto]|]). apply Forall_nil.
Qed.

Lemma sample_sorted : StronglySorted cell_lt sample_cells.
Proof. repeat constructor. Qed.


(** ** Small stores *)

Lemma add_all_small z cells : forall w cur, writes z w [] cur -> Forall small_cell cells ->
  weight (cur ++ cells) < 2 ^ 32 -> zlen (enc_cells (cur ++ cells)) <= m_uncompressed_blocksize w ->
  exists w', add_all z cells w = Ok w' /\ writes z w' [] (cur ++ cells).
Proof.
  induction cells as [|c cells IH]; intros w cur W Hs Hw Hl; cbn [add_all].
  - exists w. now rewrite app_nil_r.
  - inv Hs. assert (Hx : cur ++ c :: cells = (cur ++ [c]) ++ cells) by now rewrite <- app_assoc. rewrite Hx in *.
    pose proof Hw as Hw2. rewrite weight_app in Hw2. pose proof (weight_min cells).
    unfold add, flush_full. rewrite (wr_buffer _ _ _ _ W). rewrite !enc_cells_app, !zlen_app in Hl.
    pose proof (zlen_nonneg (enc_cells [c])). pose proof (zlen_nonneg (enc_cells cells)).
    rewrite (proj2 (Z.ltb_ge _ _)) by lia. cbn [bind negb].
    rewrite (proj1 (bstr_ok _ (proj1 H1))), (proj1 (bstr_ok _ (proj2 H1))). cbn [bind].
    apply IH; auto.
    + apply (put_cell_ok z w [] cur c); auto. cbn [concat app]. lia.
    + cbn [put_cell upd_trailer m_uncompressed_blocksize]. rewrite !enc_cells_app, !zlen_app. lia.
Qed.

Lemma fill_index_short start_row end_row es m split : Forall good_entry es -> (0 < length es <= 2)%nat ->
  fill_index (length es) 0 (length es / 2) start_row end_row (var_image es ++ []) (fix_image es) m split = Fault.
Proof.
  intros Hg Hl. destruct es as [|e1 [|e2 [|e3 es]]]; cbn [length] in *; [lia| | |lia].
  - inversion Hg as [|? ? [[Hk _] Ho] _]; subst. cbn [fill_index].
    rewrite var_image_cons, fix_image_cons, <- app_assoc, index_entry_ok by assumption. reflexivity.
  - inversion Hg as [|? ? [[Hk _] Ho] Hg']; subst. inversion Hg' as [|? ? [[Hk' _] Ho'] _]; subst.
    cbn [fill_index]. rewrite var_image_cons, fix_image_cons, <- app_assoc, index_entry_ok by assumption.
    cbn [bind]. change (0 =? 2 / 2)%nat with false. cbn [bind fill_index].
    rewrite var_image_cons, fix_image_cons, <- app_assoc, index_entry_ok by assumption. reflexivity.
Qed.

Lemma finish_overreads z w chunks ts : Lossless z -> stored z w chunks -> Forall (Forall good_cell) chunks ->
  weight (concat chunks) < 2 ^ 32 -> (0 < length chunks <= 2)%nat -> finish z [] ts w = Fault.
Proof.
  intros Hz [F O X V E [T1 T2] Q C Sm] Hg Hw Hl. unfold finish.
  destruct (parts_ok z Hz chunks C Hg Hw) as (Hn & B0 & LF & LV & Hlen & (h1 & D1 & _) & (h2 & D2 & _)).
  cbn [upd_trailer m_fix_index_buffer m_offset]. rewrite X, D1. cbn [bind].
  match goal with |- context [append_async ?d ?w] => destruct (append_async_ok 3 w d Q) as (w2 & -> & Q2 & F2 & O2 & U2) end;
    [lia|cbn [upd_trailer m_offset]; rewrite O; lia|].
  destruct U2 as (_ & U2a & U2b & U2c & _). cbn [upd_trailer m_fix_index_buffer m_var_index_buffer m_trailer] in *.
  rewrite U2a, U2b, U2c, X, V, D2. cbn [bind set_var_index close_data index_entries]. rewrite E.
  replace (Z.to_nat (zlen chunks)) with (length (layout z 0 chunks)) by (rewrite length_layout; unfold zlen; lia).
  rewrite fill_index_short; [reflexivity|apply layout_good; auto; lia|now rewrite length_layout].
Qed.

(** A store whose cells fit into one block makes [finalize] read a string
    behind the end of the index buffer: the split row is taken from the key that
    follows the middle one, and there is none. *)
Theorem small_store_overreads z bsize dfs ts cells : Lossless z -> in_range 32 bsize -> Forall (eq Written) dfs ->
  Forall good_cell cells -> cells <> [] -> weight cells < 2 ^ 32 -> zlen (enc_cells cells) <= bsize ->
  exists w, add_all z cells (create z bsize dfs) = Ok w /\ finalize z [] ts w = Fault.
Proof.
  intros Hz Hb Hd Hg Hn Hw Hl. assert (Hs : Forall small_cell cells) by (eapply Forall_impl; [|exact Hg]; now intros c []).
  destruct (add_all_small z cells (create z bsize dfs) []) as (w & E & W); auto; [now apply create_writes|].
  exists w. split; [assumption|]. cbn [app] in W. unfold finalize.
  destruct (flush_last_ok z Hz w [] cells W Hw) as (w' & chunks & -> & S & Hc & _ & Hch). specialize (Hch Hn).
  cbn [bind]. subst chunks. apply (finish_overreads z w' [cells] ts Hz S).
  - now constructor.
  - cbn [concat]. now rewrite app_nil_r.
  - cbn. lia.
Qed.

Lemma small_store_overreads_witness :
  exists w, add_all codec_none sample_cells (create codec_none 65536 []) = Ok w /\
            finalize codec_none [] {| logical := 0; real := 0 |} w = Fault.
Proof.
  apply small_store_overreads; [exact lossless_none|split; [discriminate|reflexivity]|constructor|exact sample_good|
    discriminate|reflexivity|discriminate].
Defined.
