(* ===== verification/CellStoreScanner.v ===== *)
(** * Scanning a cell store

    [RangeServer/CellStoreScannerV0.{h,cc}]: an iterator over the cells of a file
    between two rows, block by block, either through the block cache or, for longer
    scans, reading ahead.

    Pointers into a block are the bytes from there to the end of the block.  The
    block cache is seen through the answers it gives for this file, the buffered
    reader through its interface. *)
From S2P Require Import Prelude Errors Serialization Checksum ByteString Key Deletes CellCache Scanner Wire BlockCodec BufferedReader CellStore BlockCache.
From Stdlib Require Import ZArith Lia List Bool Sorted.
Import ListNotations.
Open Scope Z_scope.
Open Scope result_scope.

(** What [Global::block_cache] answers for an offset of the file: to [checkout], to
    [insert_and_checkout], and to the second [checkout] when that failed. *)
Record CacheView := {
  cv_checkout : Z -> option (list Z);
  cv_insert : Z -> list Z -> bool;
  cv_again : Z -> option (list Z) }.

Module CellStoreScanner.

Section Code.

Context {R : Type} (file : list Z) {SR : SequentialReader file R}.
Context (z : Compressor) (trailer : Trailer) (m_index : IndexMap) (cache : CacheView) (mask : Z -> bool).

(** [m_iter] is the entries from there on, [m_block] null or the bytes from [ptr]
    to [end]; [x_reader] is the descriptor of the buffered file in readahead mode. *)
Record t := {
  x_iter : IndexMap; x_block : option (list Z); x_key : list Z; x_value : list Z;
  m_check_for_range_end : bool; m_end_inclusive : bool; m_start_row : list Z; m_end_row : list Z;
  m_start_offset : Z; x_reader : option R }.

Definition set_iter (i : IndexMap) (s : t) : t :=
  {| x_iter := i; x_block := x_block s; x_key := x_key s; x_value := x_value s;
     m_check_for_range_end := m_check_for_range_end s; m_end_inclusive := m_end_inclusive s;
     m_start_row := m_start_row s; m_end_row := m_end_row s; m_start_offset := m_start_offset s; x_reader := x_reader s |}.
Definition set_block (b : option (list Z)) (s : t) : t :=
  {| x_iter := x_iter s; x_block := b; x_key := x_key s; x_value := x_value s;
     m_check_for_range_end := m_check_for_range_end s; m_end_inclusive := m_end_inclusive s;
     m_start_row := m_start_row s; m_end_row := m_end_row s; m_start_offset := m_start_offset s; x_reader := x_reader s |}.
Definition set_check (c : bool) (s : t) : t :=
  {| x_iter := x_iter s; x_block := x_block s; x_key := x_key s; x_value := x_value s;
     m_check_for_range_end := c; m_end_inclusive := m_end_inclusive s;
     m_start_row := m_start_row s; m_end_row := m_end_row s; m_start_offset := m_start_offset s; x_reader := x_reader s |}.
Definition set_cur (k v : list Z) (s : t) : t :=
  {| x_iter := x_iter s; x_block := x_block s; x_key := k; x_value := v;
     m_check_for_range_end := m_check_for_range_end s; m_end_inclusive := m_end_inclusive s;
     m_start_row := m_start_row s; m_end_row := m_end_row s; m_start_offset := m_start_offset s; x_reader := x_reader s |}.
Definition set_reader (off : Z) (r : R) (s : t) : t :=
  {| x_iter := x_iter s; x_block := x_block s; x_key := x_key s; x_value := x_value s;
     m_check_for_range_end := m_check_for_range_end s; m_end_inclusive := m_end_inclusive s;
     m_start_row := m_start_row s; m_end_row := m_end_row s; m_start_offset := off; x_reader := Some r |}.

(** ** Fetching blocks *)

Definition unpack (buf : list Z) : result (list Z) :=
  '(data, h) <- inflate z false buf ;;
  if check_magic DATA_BLOCK_MAGIC h then Ok data else Throw BLOCK_COMPRESSOR_BAD_MAGIC.

(** At the end of the current block, move to the next. *)
Definition leave_block (s : t) : t :=
  match x_block s with
  | Some [] => set_iter (tl (x_iter s)) (set_block None s)
  | _ => s
  end.

(** Offset and length of the block to fetch, and whether the end of the range has
    to be looked for in it: always, unless the next block ends before it, or there
    is none and the end row starts with the byte 0xff. *)
Definition describe (s : t) : option (Z * Z * bool) :=
  match x_iter s with
  | [] => None
  | [(_, off)] =>
      Some (off, u32 (fix_index_offset trailer - off),
            m_check_for_range_end s || negb (hd 0 (until_nul (m_end_row s)) =? 0xff))
  | (_, off) :: (k, off') :: _ =>
      Some (off, u32 (off' - off),
            m_check_for_range_end s ||
            match bytes_cmp (until_nul k) (until_nul (m_end_row s)) with Lt => false | _ => true end)
  end.

(** [fetch_next_block()]: through the cache. *)
Definition fetch_next_block (s : t) : result (bool * t) :=
  let s := leave_block s in
  match x_block s, describe s with
  | None, Some (off, zlength, check) =>
      let s := set_check check s in
      match cv_checkout cache off with
      | Some b => Ok (true, set_block (Some b) s)
      | None =>
          match unpack (pread file zlength off) with
          | Ok b =>
              if cv_insert cache off b then Ok (true, set_block (Some b) s)
              else match cv_again cache off with
                   | Some b => Ok (true, set_block (Some b) s)
                   | None => Fault
                   end
          | Throw _ => Ok (false, s)
          | Fault => Fault
          end
      end
  | _, _ => Ok (false, s)
  end.

(** [fetch_next_block_readahead()]: the next bytes of the buffered file; what a
    short read leaves in the buffer does not pass as a block. *)
Definition fetch_next_block_readahead (r : R) (s : t) : result (bool * t) :=
  let s := leave_block s in
  match x_block s, describe s with
  | None, Some (off, zlength, check) =>
      if negb (off =? m_start_offset s) then Fault
      else
        '(data, r) <- sr_read zlength r ;;
        if negb (zlen data =? zlength) then Throw UNPOSSIBLE
        else
          b <- unpack data ;;
          Ok (true, set_reader (u32 (m_start_offset s + zlength)) r (set_block (Some b) (set_check check s)))
  | _, _ => Ok (false, s)
  end.

Definition fetch (s : t) : result (bool * t) :=
  match x_reader s with
  | Some r => fetch_next_block_readahead r s
  | None => fetch_next_block s
  end.

(** ** Moving in a block *)

(** [m_cur_key.ptr = m_block.ptr] and the value behind it. *)
Definition load_cur (s : t) : result t :=
  match x_block s with
  | None => Fault
  | Some b =>
      '(_, v) <- next (Some b) ;;
      match v with None => Fault | Some v => Ok (set_cur b v s) end
  end.

(** [m_block.ptr = m_cur_value.ptr + m_cur_value.length()] *)
Definition advance (s : t) : result t :=
  '(_, p) <- next (Some (x_value s)) ;; Ok (set_block p s).

Definition at_end (s : t) : bool := match x_block s with Some [] => true | _ => false end.

(** Past the current cell, to the next block if this one ends there. *)
Definition next_cell (s : t) : result (bool * t) :=
  s <- advance s ;; if at_end s then fetch s else Ok (true, s).

(** [strcmp(m_cur_key.str(), row.c_str())] *)
Definition cur_cmp (s : t) (row : list Z) : result comparison :=
  p <- str (Some (x_key s)) ;;
  match cstr p with
  | None => Fault
  | Some r => Ok (bytes_cmp r (until_nul row))
  end.

Definition past_end (s : t) : result bool :=
  c <- cur_cmp s (m_end_row s) ;;
  Ok (match c with Lt => false | Eq => negb (m_end_inclusive s) | Gt => true end).

(** The content of the string at a pointer. *)
Definition contents (m : list Z) : result (list Z) :=
  '(len, p) <- decode_length (Some m) ;; content len p.

(** ** The scanner *)

Definition get (s : t) : result (option cell) :=
  match x_iter s with
  | [] => Ok None
  | _ => k <- contents (x_key s) ;; v <- contents (x_value s) ;; Ok (Some (k, v))
  end.

(** A key that does not load is not skipped. *)
Definition shown (k : list Z) : bool :=
  match parse_key k with
  | None => true
  | Some c => (k_flag c =? FLAG_DELETE_ROW) || mask (k_family c)
  end.

(** [forward()]; every round moves to the next cell of the file. *)
Fixpoint forward (fuel : nat) (s : t) : result t :=
  match fuel with
  | O => Fault
  | S fuel =>
      match x_iter s with
      | [] => Ok s
      | _ =>
          '(ok, s) <- next_cell s ;;
          if negb (ok : bool) then Ok s
          else
            s <- load_cur s ;;
            past <- (if m_check_for_range_end s then past_end s else Ok false) ;;
            if past : bool then Ok (set_iter [] s)
            else k <- contents (x_key s) ;; if shown k then Ok s else forward fuel s
      end
  end.

(** The loops of the constructor that seek the start of the range; the flag is
    false when it returns. *)
Fixpoint seek_inclusive (fuel : nat) (s : t) : result (bool * t) :=
  match fuel with
  | O => Fault
  | S fuel =>
      c <- cur_cmp s (m_start_row s) ;;
      match c with
      | Lt =>
          s <- advance s ;;
          if at_end s then Ok (false, set_iter [] s) else s <- load_cur s ;; seek_inclusive fuel s
      | _ => Ok (true, s)
      end
  end.

Fixpoint seek_exclusive (fuel : nat) (s : t) : result (bool * t) :=
  match fuel with
  | O => Fault
  | S fuel =>
      c <- cur_cmp s (m_start_row s) ;;
      match c with
      | Gt => Ok (true, s)
      | _ =>
          '(ok, s) <- next_cell s ;;
          if negb (ok : bool) then Ok (false, s) else s <- load_cur s ;; seek_exclusive fuel s
      end
  end.

Definition fuel : nat := S (Z.to_nat (total_entries trailer)).

(** The end of the window that is read ahead. *)
Definition window_end (end_row : list Z) : Z :=
  match index_upper (until_nul end_row) m_index with
  | [] => fix_index_offset trailer
  | [_] => fix_index_offset trailer
  | _ :: (_, off) :: _ => off
  end.

(** The rest of the constructor, once the first block is there. *)
Definition settle (start_inclusive : bool) (s : t) : result t :=
  s <- load_cur s ;;
  '(ok, s) <- (if start_inclusive then seek_inclusive fuel s else seek_exclusive fuel s) ;;
  if negb (ok : bool) then Ok s
  else
    past <- past_end s ;;
    if past : bool then Ok (set_iter [] s)
    else k <- contents (x_key s) ;; if shown k then Ok s else forward fuel s.

(** Fetching the first block; [single] for a row limit of one. *)
Definition launch (start_inclusive single : bool) (s : t) : result t :=
  match x_iter s with
  | [] => Ok s
  | (_, off) :: _ =>
      if bytes_eqb (m_start_row s) (m_end_row s) || single then
        '(ok, s) <- fetch_next_block s ;;
        if negb (ok : bool) then Ok (set_iter [] s) else settle start_inclusive s
      else
        r <- sr_open (Z.max (blocksize trailer) 65536) off (window_end (m_end_row s)) ;;
        '(ok, s) <- fetch_next_block_readahead r (set_reader off r s) ;;
        if negb (ok : bool) then Ok (set_iter [] s) else settle start_inclusive s
  end.

(** The constructor. *)
Definition make (store_start store_end ctx_start ctx_end : list Z) (single : bool) : result t :=
  let start_inclusive := bytes_ltb store_start ctx_start in
  let start_row := if start_inclusive then ctx_start else store_start in
  let end_inclusive := negb (bytes_ltb ctx_end store_end) in
  let end_row := if end_inclusive then store_end else ctx_end in
  let iter := (if start_inclusive then index_lower else index_upper) (until_nul start_row) m_index in
  launch start_inclusive single
    {| x_iter := iter; x_block := None; x_key := []; x_value := []; m_check_for_range_end := false;
       m_end_inclusive := end_inclusive; m_start_row := start_row; m_end_row := end_row;
       m_start_offset := 0; x_reader := None |}.

End Code.

(** ** Rows *)

Definition row_of (c : cell) : list Z := until_nul (fst c).

Lemma until_nul_split k : In 0 k -> exists x, k = until_nul k ++ 0 :: x.
Proof.
  induction k as [|b k IH]; [intros []|]. cbn [until_nul]. destruct (Z.eqb_spec b 0) as [->|Hb]; [now exists k|].
  intros [->|H]; [congruence|]. destruct (IH H) as (x & E). exists x. cbn [app]. now rewrite <- E.
Qed.

Lemma until_nul_no_nul k : no_nul (until_nul k).
Proof.
  induction k as [|b k IH]; [constructor|]. cbn [until_nul]. destruct (Z.eqb_spec b 0); constructor; auto.
Qed.

Lemma cstr_until_nul k rest : In 0 k -> cstr (k ++ rest) = Some (until_nul k).
Proof.
  intros H. destruct (until_nul_split k H) as (x & E). rewrite E at 1. rewrite <- app_assoc. cbn [app].
  apply cstr_app, until_nul_no_nul.
Qed.

Lemma until_nul_wf k : wf_bytes k -> wf_bytes (until_nul k).
Proof. induction 1; cbn [until_nul]; [constructor|]. destruct (x =? 0); constructor; auto. Qed.

(** Keys in order have their rows in order. *)
Lemma row_mono a b : good_key a -> good_key b -> bytes_lt a b -> bytes_lt (until_nul a) (until_nul b) \/ until_nul a = until_nul b.
Proof.
  intros [[_ Wa] Ha] [[_ Wb] Hb] H. destruct (until_nul_split a Ha) as (x & Ea). destruct (until_nul_split b Hb) as (y & Eb).
  unfold bytes_lt in *. rewrite Ea, Eb in H. rewrite bytes_cmp_cstr in H by (apply until_nul_no_nul || now apply until_nul_wf).
  destruct (bytes_cmp (until_nul a) (until_nul b)) eqn:E; [right; now apply bytes_cmp_eq|now left|discriminate].
Qed.

(** A key against a row without its NUL. *)
Lemma key_above_row k r : good_key k -> no_nul r -> wf_bytes r -> bytes_ltb r k = bytes_leb r (until_nul k).
Proof.
  intros [[_ Wk] Hk] Hr Wr. destruct (until_nul_split k Hk) as (x & Ek). rewrite Ek at 1. clear Ek.
  pose proof (until_nul_no_nul k) as Hn. revert Hn. generalize (until_nul k). clear Hk Wk k. intros u Hn. revert u Hn.
  induction Hr as [|b r Hb Hr IH]; intros u Hn; unfold bytes_ltb, bytes_leb in *; [now destruct u|].
  inv Wr. destruct Hn as [|c u Hc Hn].
  - cbn [app bytes_cmp]. destruct (Z.compare_spec b 0); try reflexivity; [congruence|]. unfold is_byte, in_range in *. lia.
  - cbn [app bytes_cmp]. destruct (b ?= c); auto.
Qed.

(** ** The index of a file *)

Lemma index_from_layout z p chunks : forall off, exists a b, chunks = a ++ b /\
  index_from p (layout z off chunks) = layout z (off + zlen (blocks z a)) b /\
  Forall (fun d => p (chunk_key d) = false) a /\ (forall c b', b = c :: b' -> p (chunk_key c) = true).
Proof.
  induction chunks as [|c chunks IH]; intros off; cbn [layout index_from].
  - exists [], []. split; [reflexivity|]. split; [reflexivity|]. split; [constructor|discriminate].
  - cbn [fst]. destruct (p (chunk_key c)) eqn:E.
    + exists [], (c :: chunks). split; [reflexivity|]. split; [|split; [constructor|intros d b' [= <- _]; assumption]].
      change (blocks z []) with (@nil Z). change (zlen []) with 0. now rewrite Z.add_0_r.
    + destruct (IH (off + zlen (data_block z c))) as (a & b & -> & H2 & H3 & H4). exists (c :: a), b.
      split; [reflexivity|]. split; [|split; [now constructor|assumption]]. rewrite H2. f_equal.
      change (c :: a) with ([c] ++ a). rewrite blocks_app, blocks_one, zlen_app. lia.
Qed.

Lemma blocks_prefix z (l : list (list cell)) n m : (n <= m)%nat -> zlen (blocks z (firstn n l)) <= zlen (blocks z (firstn m l)).
Proof.
  intros H. rewrite <- (firstn_skipn n (firstn m l)), firstn_firstn, Nat.min_l by assumption.
  rewrite blocks_app, zlen_app. pose proof (zlen_nonneg (blocks z (skipn n (firstn m l)))). lia.
Qed.

Lemma firstn_prefix {A} (a b : list A) x : firstn (S (length a)) (a ++ x :: b) = a ++ [x].
Proof. induction a as [|y a IH]; [reflexivity|]. cbn [length app]. rewrite firstn_cons. now rewrite IH. Qed.

(** ** Scanning a finished file *)

(** The cache gives blocks of the file, and takes a block or has it already. *)
Definition coherent (z : Compressor) (chunks : list (list cell)) (cache : CacheView) : Prop :=
  forall a c b, chunks = a ++ c :: b -> let off := zlen (blocks z a) in
    (forall x, cv_checkout cache off = Some x -> x = enc_cells c) /\
    (forall x, cv_again cache off = Some x -> x = enc_cells c) /\
    (cv_checkout cache off = None -> cv_insert cache off (enc_cells c) = true \/ cv_again cache off <> None).

Section Correct.

Context {R : Type} (z : Compressor) (Hz : Lossless z) (st : CellStoreV0) (chunks : list (list cell)) (tl_ : list Z)
  (CF : cell_file z st chunks tl_) {SR : SequentialReader (s_file st) R}
  (cache : CacheView) (HC : coherent z chunks cache) (mask : Z -> bool).
Context (start_row end_row : list Z) (incl : bool) (Ns : no_nul start_row) (Ws : wf_bytes start_row)
  (Ne : no_nul end_row) (We : wf_bytes end_row).

Abbreviation trailer := (s_trailer st).
Abbreviation index := (layout z 0 chunks).
Abbreviation T := (@t R).

Definition below (c : cell) : bool := bytes_ltb (row_of c) end_row.

(** The rows stay away from an inclusive end, and from an end that starts with
    the byte 0xff, as the ones of a table do from the end marker. *)
Context (HE : incl = true \/ hd 0 end_row = 0xff -> Forall (fun c => below c = true) (concat chunks)).

Definition wend : Z := window_end trailer index end_row.

(** Where the buffered file stands. *)
Definition reader_at (pos : Z) (s : T) : Prop :=
  match x_reader s with
  | None => True
  | Some r => CellStoreScanner.m_start_offset s = pos /\ sr_at pos wend r
  end.

Definition params (s : T) : Prop :=
  CellStoreScanner.m_end_row s = end_row /\ CellStoreScanner.m_start_row s = start_row /\ m_end_inclusive s = incl.

(** About to fetch the block of [c], and with that block at hand. *)
Record ready (s : T) (a : list (list cell)) (c : list cell) (b : list (list cell)) : Prop := {
  rd_chunks : chunks = a ++ c :: b;
  rd_iter : x_iter s = layout z (zlen (blocks z a)) (c :: b);
  rd_block : x_block s = None;
  rd_reader : reader_at (zlen (blocks z a)) s;
  rd_params : params s }.

Record in_block (s : T) (a : list (list cell)) (c : list cell) (b : list (list cell)) : Prop := {
  ib_chunks : chunks = a ++ c :: b;
  ib_iter : x_iter s = layout z (zlen (blocks z a)) (c :: b);
  ib_reader : reader_at (zlen (blocks z (a ++ [c]))) s;
  ib_check : m_check_for_range_end s = false -> Forall (fun x => below x = true) c;
  ib_params : params s }.

Definition at_cell (s : T) (todo : list cell) : Prop :=
  x_block s = Some (enc_cells todo) /\ x_key s = enc_cells todo /\
  match todo with [] => False | c :: rest => x_value s = enc (snd c) ++ enc_cells rest end.

Lemma chunk_ok a c b : chunks = a ++ c :: b -> c <> [] /\ Forall good_cell c.
Proof using Hz CF.
  intros E. destruct CF as [Cn Cg _ _ _ _ _ _ _ _ _ _]. rewrite E in Cn, Cg.
  apply Forall_app in Cn as [_ Cn]. apply Forall_app in Cg as [_ Cg]. apply Forall_inv in Cn, Cg. auto.
Qed.

Lemma chunks_weight : weight (concat chunks) < 2 ^ 32.
Proof using Hz CF. apply CF. Qed.

Lemma blocks_pos a c b : chunks = a ++ c :: b ->
  0 <= zlen (blocks z a) /\ 26 <= zlen (data_block z c) /\
  zlen (blocks z (a ++ [c])) = zlen (blocks z a) + zlen (data_block z c) /\
  zlen (blocks z (a ++ [c])) <= zlen (blocks z chunks) < 2 ^ 32 /\ zlen (blocks z chunks) <= zlen (s_file st).
Proof using Hz CF.
  intros E. pose proof CF as [Cn Cg _ Cw Cfile _ _ _ _ _ _ [_ Cl]].
  destruct (chunk_ok a c b E) as [Hc Hg]. pose proof (zlen_nonneg (blocks z a)).
  assert (Hs : Forall small_cell c) by (eapply Forall_impl; [|exact Hg]; now intros x []).
  destruct (block_of_ok z Hz DATA_BLOCK_MAGIC (enc_cells c)) as (h & _ & _ & _ & L).
  - apply magics_ok.
  - now apply enc_cells_wf.
  - rewrite E, concat_app, weight_app in Cw. cbn [concat] in Cw. rewrite weight_app in Cw.
    pose proof (weight_min (concat a)). pose proof (weight_min (concat b)). pose proof (zlen_nonneg c). unfold weight in *. lia.
  - fold (data_block z c) in L. split; [assumption|]. split; [lia|]. split; [now rewrite blocks_app, blocks_one, zlen_app|].
    assert (Hle : zlen (blocks z (a ++ [c])) <= zlen (blocks z chunks)).
    { rewrite E. change (c :: b) with ([c] ++ b). rewrite app_assoc, (blocks_app z (a ++ [c])), zlen_app.
      pose proof (zlen_nonneg (blocks z b)). lia. }
    rewrite Cfile, zlen_app in Cl. pose proof (zlen_nonneg (fst (index_blocks z index) ++ snd (index_blocks z index) ++ tl_)).
    split; [lia|]. rewrite Cfile, zlen_app. lia.
Qed.

Lemma good_key_of x : In x (concat chunks) -> good_key (fst x).
Proof using Hz CF.
  intros H. apply in_concat in H as (c & Hc & Hx). pose proof (cf_cells _ _ _ _ CF) as Cg. rewrite Forall_forall in Cg.
  specialize (Cg c Hc). rewrite Forall_forall in Cg. destruct (Cg x Hx) as [[Hk _] H0]. now split.
Qed.

(** Cells in front of one below the end are below it. *)
Lemma below_before x y : In x (concat chunks) -> In y (concat chunks) -> bytes_lt (fst x) (fst y) \/ fst x = fst y ->
  below y = true -> below x = true.
Proof.
  intros Hx Hy Hlt Hb. unfold below, row_of in *. apply bytes_ltb_lt in Hb. apply bytes_ltb_lt.
  destruct Hlt as [Hlt| ->]; [|assumption].
  destruct (row_mono _ _ (good_key_of x Hx) (good_key_of y Hy) Hlt) as [H| ->]; [|assumption].
  now apply (bytes_lt_trans _ (until_nul (fst y))).
Qed.

Lemma in_chunk a c b x : chunks = a ++ c :: b -> In x c -> In x (concat chunks).
Proof using Hz CF. intros E H. rewrite E. apply in_concat. exists c. split; [apply in_or_app; right; now left|assumption]. Qed.

(** The last cell of a chunk, and its order. *)
Lemma chunk_last a c b : chunks = a ++ c :: b -> exists y, In y c /\ chunk_key c = fst y /\
  forall x, In x (concat (a ++ [c])) -> bytes_lt (fst x) (fst y) \/ fst x = fst y.
Proof using Hz CF.
  intros E. destruct (chunk_ok a c b E) as [Hc _]. destruct (exists_last Hc) as (l & y & ->). exists y.
  split; [apply in_or_app; right; now left|]. split; [apply chunk_key_snoc|]. intros x Hx.
  pose proof (cf_sorted _ _ _ _ CF) as So. rewrite E in So. change ((l ++ [y]) :: b) with ([l ++ [y]] ++ b) in So.
  rewrite app_assoc, concat_app in So. apply sorted_app in So as (So & _ & _).
  rewrite concat_app in So, Hx. cbn [concat] in So, Hx. rewrite app_nil_r, app_assoc in So, Hx.
  apply sorted_app in So as (_ & _ & So). apply in_app_or in Hx as [Hx|[<-|[]]]; [|now right].
  left. apply So; [assumption|now left].
Qed.

(** Where the block of a chunk lies. *)
Lemma describe_span (s : T) a c b : chunks = a ++ c :: b -> x_iter s = layout z (zlen (blocks z a)) (c :: b) ->
  exists chk, describe trailer s = Some (zlen (blocks z a), zlen (data_block z c), chk).
Proof using Hz CF.
  intros Ec Ei. unfold describe. rewrite Ei. cbn [layout]. destruct (blocks_pos a c b Ec) as (B0 & B1 & B2 & B3 & _).
  destruct b as [|c' b]; cbn [layout]; eexists; do 3 f_equal.
  - rewrite (cf_fix _ _ _ _ CF). rewrite Ec at 1. rewrite B2, Z.add_simpl_l. apply u32_small. lia.
  - rewrite Z.add_simpl_l. apply u32_small. lia.
Qed.

Lemma describe_ok s a c b : ready s a c b ->
  exists chk, describe trailer s = Some (zlen (blocks z a), zlen (data_block z c), chk) /\
    (chk = false -> Forall (fun x => below x = true) c).
Proof.
  intros [Ec Ei _ _ (Pe & _ & _)]. destruct (describe_span s a c b Ec Ei) as (chk & D). exists chk. split; [assumption|].
  unfold describe in D. rewrite Ei, Pe, until_nul_id in D by assumption. cbn [layout] in D.
  destruct b as [|c' b]; cbn [layout] in D; apply (f_equal (option_map snd)) in D; cbn in D; injection D as <-.
  - intros H. apply orb_false_iff in H as [_ H]. apply negb_false_iff, Z.eqb_eq in H.
    apply Forall_forall. intros x Hx. assert (HA := HE (or_intror H)). rewrite Forall_forall in HA. apply HA.
    now apply (in_chunk a c []).
  - intros H. apply orb_false_iff in H as [_ H]. destruct (bytes_cmp (until_nul (chunk_key c')) end_row) eqn:Eb; try discriminate.
    assert (Ec' : chunks = (a ++ [c]) ++ c' :: b) by (rewrite <- app_assoc; exact Ec).
    destruct (chunk_last _ _ _ Ec') as (y & Hy & Hk & Hle). apply Forall_forall. intros x Hx.
    apply (below_before x y).
    + now apply (in_chunk a c (c' :: b)).
    + now apply (in_chunk (a ++ [c]) c' b).
    + apply Hle. rewrite !concat_app. cbn [concat]. rewrite app_nil_r. apply in_or_app. left. apply in_or_app. now right.
    + unfold below, row_of. apply bytes_ltb_lt. rewrite <- Hk. exact Eb.
Qed.

Lemma block_at a c b : chunks = a ++ c :: b ->
  unpack z (pread (s_file st) (zlen (data_block z c)) (zlen (blocks z a))) = Ok (enc_cells c).
Proof using Hz CF.
  intros E. destruct (block_read z Hz st chunks tl_ a c b CF E) as (h & I & M). unfold unpack. rewrite I. cbn [bind]. now rewrite M.
Qed.

(** Fetching the block of [c]: both ways. *)
Lemma fetch_ready s a c b : ready s a c b -> (x_reader s <> None -> zlen (blocks z (a ++ [c])) <= wend) ->
  exists s', fetch (s_file st) z trailer cache s = Ok (true, s') /\ in_block s' a c b /\ x_block s' = Some (enc_cells c) /\
    (x_reader s' = None <-> x_reader s = None).
Proof.
  intros Rd Hw. pose proof Rd as [Ec Ei Eb Er Ep]. destruct (describe_ok s a c b Rd) as (chk & D & Hchk).
  destruct (blocks_pos a c b Ec) as (B0 & B1 & B2 & B3 & _).
  assert (El : leave_block s = s) by (unfold leave_block; now rewrite Eb).
  unfold fetch, reader_at in *. destruct (x_reader s) as [r|] eqn:Ex.
  - destruct Er as [Eo Ea]. unfold fetch_next_block_readahead. cbv zeta. rewrite El, Eb, D, Eo, Z.eqb_refl. cbn [negb].
    destruct (sr_read_at (zlen (blocks z a)) wend (zlen (data_block z c)) r Ea) as (r' & -> & Ea'); [lia|rewrite <- B2; apply Hw; discriminate|].
    cbn [bind]. rewrite pread_length by (destruct (blocks_pos a c b Ec) as (_ & _ & _ & _ & ?); lia).
    rewrite Z.eqb_refl. cbn [negb]. rewrite (block_at a c b Ec). cbn [bind].
    eexists. split; [reflexivity|]. split; [|split; [reflexivity|split; discriminate]].
    split; auto. unfold reader_at. cbn. rewrite B2. rewrite u32_small by lia. auto.
  - unfold fetch_next_block. cbv zeta. rewrite El, Eb, D. destruct (HC a c b Ec) as (H1 & H2 & H3).
    assert (G : forall x, x = enc_cells c -> exists s', Ok (true, set_block (Some x) (set_check chk s)) = Ok (true, s') /\
      in_block s' a c b /\ x_block s' = Some (enc_cells c) /\ (x_reader s' = None <-> x_reader s = None)).
    { intros x ->. eexists. split; [reflexivity|]. split; [|split; [reflexivity|reflexivity]].
      split; auto. unfold reader_at. cbn. now rewrite Ex. }
    rewrite Ex in G. destruct (cv_checkout cache (zlen (blocks z a))) as [x|] eqn:E1; [apply G; now apply H1|].
    rewrite (block_at a c b Ec). specialize (H3 eq_refl). destruct (cv_insert cache (zlen (blocks z a)) (enc_cells c)); [now apply G|].
    destruct (cv_again cache (zlen (blocks z a))) as [x|]; [apply G; now apply H2|]. destruct H3; congruence.
Qed.

(** The window reaches over every block that is not behind one that ends at the
    end row or later. *)
Lemma window_covers a c b : chunks = a ++ c :: b -> Forall (fun d => bytes_lt (until_nul (chunk_key d)) end_row) a ->
  zlen (blocks z (a ++ [c])) <= wend /\ wend <= zlen (blocks z chunks).
Proof.
  intros E Ha. unfold wend, window_end, index_upper. rewrite until_nul_id by assumption. rewrite (cf_fix _ _ _ _ CF).
  destruct (index_from_layout z (bytes_ltb end_row) chunks 0) as (a' & b' & E' & -> & Ha' & Hb').
  assert (Hall : zlen (blocks z (a ++ [c])) <= zlen (blocks z chunks)) by apply (blocks_pos a c b E).
  destruct b' as [|e [|f b']]; cbn [layout]; [lia|lia|].
  replace (0 + zlen (blocks z a') + zlen (data_block z e)) with (zlen (blocks z (a' ++ [e]))) by (rewrite blocks_app, blocks_one, zlen_app; lia).
  split; [|apply (blocks_pos a' e (f :: b') E')].
  assert (Hl : (length a <= length a')%nat).
  { destruct (Nat.le_gt_cases (length a) (length a')) as [|Hgt]; [assumption|]. exfalso.
    assert (He : In e a).
    { apply (nth_error_In a (length a')). rewrite <- (nth_error_app1 a (c :: b)) by assumption.
      rewrite <- E, E', nth_error_app2, Nat.sub_diag by lia. reflexivity. }
    rewrite Forall_forall in Ha. specialize (Ha e He). specialize (Hb' e _ eq_refl).
    destruct (chunk_last a' e _ E') as (y & Hy & Hk & _). rewrite Hk in *.
    rewrite key_above_row in Hb' by (assumption || apply good_key_of, (in_chunk a' e (f :: b')); assumption).
    apply bytes_leb_le in Hb' as [Hb'|Hb'].
    - apply (bytes_lt_irrefl end_row). now apply (bytes_lt_trans _ (until_nul (fst y))).
    - rewrite <- Hb' in Ha. now apply bytes_lt_irrefl in Ha. }
  rewrite <- (firstn_prefix a b c), <- E. rewrite <- (firstn_prefix a' (f :: b') e), <- E'. apply blocks_prefix. lia.
Qed.

(** *** Standing on a cell *)

Definition stands (s : T) (l : list cell) : Prop :=
  exists a done rest c b, in_block s a (done ++ c :: rest) b /\ at_cell s (c :: rest) /\ l = c :: rest ++ concat b.

Lemma stands_good s c l : stands s (c :: l) -> good_cell c /\ x_iter s <> [] /\ params s /\ exists before, concat chunks = before ++ c :: l.
Proof.
  intros (a & done & rest & c' & b & I & _ & E). injection E as <- ->. destruct I as [Ec Ei _ _ Ep].
  destruct (chunk_ok a _ b Ec) as [_ G]. apply Forall_app in G as [_ G]. apply Forall_inv in G.
  split; [assumption|]. split; [rewrite Ei; discriminate|]. split; [assumption|].
  exists (concat a ++ done). rewrite Ec, concat_app. cbn [concat]. now rewrite <- !app_assoc.
Qed.

Lemma enc_cells_cons c l : enc_cells (c :: l) = enc (fst c) ++ enc (snd c) ++ enc_cells l.
Proof. change (c :: l) with ([c] ++ l). rewrite enc_cells_app, enc_cells_one. unfold enc_cell. now rewrite <- app_assoc. Qed.

Lemma next_enc k rest : small k -> next (Some (enc k ++ rest)) = Ok (enc k ++ rest, Some rest).
Proof.
  intros Hk. destruct (bstr_ok k Hk) as (_ & _ & Hh & _). specialize (Hh rest). unfold next.
  rewrite (holds_decode _ _ _ Hh). cbn [bind]. pose proof (zlen_nonneg rest).
  rewrite zlen_app, (proj2 (Z.leb_le _ _)) by lia. now rewrite skipn_zlen.
Qed.

Lemma load_cur_ok s a done c rest b : in_block s a (done ++ c :: rest) b -> x_block s = Some (enc_cells (c :: rest)) ->
  exists s', load_cur s = Ok s' /\ in_block s' a (done ++ c :: rest) b /\ at_cell s' (c :: rest) /\
    m_check_for_range_end s' = m_check_for_range_end s /\ x_reader s' = x_reader s.
Proof.
  intros I Eb. destruct (chunk_ok _ _ _ (ib_chunks _ _ _ _ I)) as [_ G]. apply Forall_app in G as [_ G]. apply Forall_inv in G as [[Hk Hv] H0].
  unfold load_cur. rewrite Eb, enc_cells_cons, next_enc by assumption. cbn [bind].
  eexists. split; [reflexivity|]. split; [|split; [|split; reflexivity]].
  - destruct I. now split.
  - split; [exact Eb|]. split; [symmetry; apply enc_cells_cons|reflexivity].
Qed.

Lemma enc_cells_nil l : Forall good_cell l -> enc_cells l = [] -> l = [].
Proof.
  destruct l as [|c l]; [reflexivity|]. intros G E. exfalso. apply Forall_inv in G as [[Hk _] _].
  destruct (bstr_ok _ Hk) as (_ & _ & _ & L). rewrite enc_cells_cons in E. apply app_eq_nil in E as [E _]. rewrite E in L.
  pose proof (zlen_nonneg (fst c)). change (zlen []) with 0 in L. lia.
Qed.

Lemma fetch_leave s : x_block s = Some [] ->
  fetch (s_file st) z trailer cache s = fetch (s_file st) z trailer cache (leave_block s).
Proof.
  intros E. assert (L : leave_block (leave_block s) = leave_block s) by (unfold leave_block; rewrite E; reflexivity).
  assert (Lr : x_reader (leave_block s) = x_reader s) by (unfold leave_block; now rewrite E).
  unfold fetch. rewrite Lr. unfold fetch_next_block, fetch_next_block_readahead. now rewrite L.
Qed.

Lemma fetch_none s : x_block s = Some [] -> tl (x_iter s) = [] ->
  exists s', fetch (s_file st) z trailer cache s = Ok (false, s') /\ x_iter s' = [].
Proof.
  intros E Ei. exists (leave_block s). unfold fetch, fetch_next_block, fetch_next_block_readahead, leave_block, describe.
  rewrite E. cbn. rewrite Ei. now destruct (x_reader s).
Qed.

(** The chunks up to the one of a cell below the end. *)
Lemma keys_below a c b x : chunks = a ++ c :: b -> In x c -> fst x = chunk_key c -> below x = true ->
  Forall (fun d => bytes_lt (until_nul (chunk_key d)) end_row) (a ++ [c]).
Proof.
  intros E Hx Hk Hb. apply Forall_forall. intros d Hd. destruct (chunk_last a c b E) as (y & Hy & Hky & Hle).
  assert (Hd' : In d chunks) by (rewrite E; apply in_app_or in Hd as [|[<-|[]]]; apply in_or_app; cbn; auto).
  destruct (chunk_key_in d) as (u & Hu & ->).
  { pose proof (cf_chunks _ _ _ _ CF) as Cn. rewrite Forall_forall in Cn. now apply Cn. }
  apply bytes_ltb_lt. apply (below_before u x).
  - apply in_concat. eauto.
  - now apply (in_chunk a c b).
  - rewrite Hk, Hky. apply Hle. apply in_concat. eauto.
  - assumption.
Qed.

(** Into the next block. *)
Lemma next_block_ok s a c b x : in_block s a c b -> x_block s = Some [] -> In x c -> fst x = chunk_key c ->
  (x_reader s <> None -> below x = true) ->
  match b with
  | [] => exists s', fetch (s_file st) z trailer cache s = Ok (false, s') /\ x_iter s' = []
  | c' :: b' => exists s', fetch (s_file st) z trailer cache s = Ok (true, s') /\ in_block s' (a ++ [c]) c' b' /\
                  x_block s' = Some (enc_cells c') /\ (x_reader s' = None <-> x_reader s = None)
  end.
Proof.
  intros I Eb Hx Hk Hb. pose proof I as [Ec Ei Er Ech Ep]. destruct b as [|c' b'].
  - apply fetch_none; [assumption|now rewrite Ei].
  - rewrite fetch_leave by assumption.
    assert (Ec' : chunks = (a ++ [c]) ++ c' :: b') by (rewrite <- app_assoc; exact Ec).
    assert (Rd : ready (leave_block s) (a ++ [c]) c' b').
    { unfold leave_block. rewrite Eb. split; [exact Ec'| |reflexivity|exact Er|exact Ep]. cbn [set_iter x_iter]. rewrite Ei. cbn [layout tl].
      rewrite blocks_app, blocks_one, zlen_app. reflexivity. }
    assert (Lr : x_reader (leave_block s) = x_reader s) by (unfold leave_block; now rewrite Eb).
    destruct (fetch_ready (leave_block s) (a ++ [c]) c' b' Rd) as (s' & F & I' & B' & R').
    + rewrite Lr. intros Hr. apply (window_covers (a ++ [c]) c' b' Ec'). apply (keys_below a c (c' :: b') x Ec Hx Hk). now apply Hb.
    + rewrite Lr in R'. eauto 10.
Qed.

(** Moving to the next cell of the file, into the next block if need be. *)
Lemma move_ok s c l : stands s (c :: l) -> (x_reader s <> None -> below c = true) ->
  exists ok s1, next_cell (s_file st) z trailer cache s = Ok (ok, s1) /\
    match l with
    | [] => ok = false /\ x_iter s1 = []
    | c' :: l' => ok = true /\ exists s2, load_cur s1 = Ok s2 /\ stands s2 (c' :: l') /\
        (m_check_for_range_end s2 = false -> below c' = true) /\ (x_reader s2 = None <-> x_reader s = None)
    end.
Proof.
  intros St Hb. destruct (stands_good s c l St) as ([[Hk Hv] H0] & _). destruct St as (a & done & rest & c0 & b & I & A & E).
  injection E as <- ->. destruct A as (Ab & Ak & Av). unfold next_cell, advance. rewrite Av, next_enc by assumption. cbn [bind].
  pose proof (ib_chunks _ _ _ _ I) as Ec. destruct (chunk_ok _ _ _ Ec) as [_ G]. apply Forall_app in G as [_ G]. apply Forall_inv_tail in G.
  set (s0 := set_block (Some (enc_cells rest)) s).
  assert (I0 : in_block s0 a (done ++ c :: rest) b) by (destruct I; now split).
  assert (Eae : at_end s0 = match rest with [] => true | _ => false end).
  { unfold at_end, s0. cbn [set_block x_block]. destruct rest as [|c1 rest]; [reflexivity|]. destruct (enc_cells (c1 :: rest)) eqn:En; [|reflexivity].
    apply enc_cells_nil in En; [discriminate|assumption]. }
  rewrite Eae. destruct rest as [|c1 rest].
  - cbn [app]. pose proof (next_block_ok s0 a (done ++ [c]) b c I0 eq_refl) as N.
    specialize (N ltac:(apply in_or_app; right; now left) ltac:(now rewrite chunk_key_snoc) Hb).
    destruct b as [|c' b].
    + destruct N as (s' & -> & Ei). cbn [concat]. eauto.
    + destruct N as (s' & -> & I' & B' & R'). destruct (chunk_ok _ _ _ (ib_chunks _ _ _ _ I')) as [Hne _].
      destruct c' as [|c1 rest]; [congruence|]. cbn [concat app].
      destruct (load_cur_ok s' _ [] c1 rest b I' B') as (s2 & L2 & I2 & A2 & C2 & X2).
      exists true, s'. split; [reflexivity|]. split; [reflexivity|]. exists s2. split; [assumption|]. split; [|split].
      * exists (a ++ [done ++ [c]]), [], rest, c1, b. auto.
      * intros Hc. pose proof (ib_check _ _ _ _ I2 Hc) as Hf. now apply Forall_inv in Hf.
      * rewrite X2. exact R'.
  - assert (Ed : done ++ c :: c1 :: rest = (done ++ [c]) ++ c1 :: rest) by now rewrite <- app_assoc.
    rewrite Ed in I0. destruct (load_cur_ok s0 a (done ++ [c]) c1 rest b I0 eq_refl) as (s2 & L2 & I2 & A2 & C2 & X2).
    exists true, s0. split; [reflexivity|]. cbn [app]. split; [reflexivity|]. exists s2. split; [assumption|]. split; [|split].
    + exists a, (done ++ [c]), rest, c1, b. auto.
    + intros Hc. pose proof (ib_check _ _ _ _ I2 Hc) as Hf. apply Forall_app in Hf as [_ Hf]. now apply Forall_inv in Hf.
    + rewrite X2. reflexivity.
Qed.

Lemma cur_key s c l : stands s (c :: l) -> exists rest, x_key s = enc (fst c) ++ rest /\ exists rest', x_value s = enc (snd c) ++ rest'.
Proof.
  intros (a & done & rest & c0 & b & _ & (_ & Ak & Av) & E). injection E as <- _. rewrite Ak, enc_cells_cons. eauto.
Qed.

Lemma cur_cmp_ok s c l row : stands s (c :: l) -> no_nul row -> cur_cmp s row = Ok (bytes_cmp (row_of c) row).
Proof.
  intros St Hr. destruct (stands_good s c l St) as ([[Hk _] H0] & _). destruct (cur_key s c l St) as (rest & Ek & _).
  unfold cur_cmp, str, decode_length. rewrite Ek. destruct (bstr_ok _ Hk) as (_ & _ & Hh & _).
  rewrite (holds_decode _ _ _ (Hh rest)). cbn [bind]. rewrite cstr_until_nul, (until_nul_id row) by assumption. reflexivity.
Qed.

Lemma contents_enc k rest : small k -> contents (enc k ++ rest) = Ok k.
Proof.
  intros Hk. destruct (bstr_ok k Hk) as (_ & _ & Hh & _). unfold contents, decode_length.
  rewrite (holds_decode _ _ _ (Hh rest)). cbn [bind]. now apply content_app.
Qed.

Lemma get_ok s c l : stands s (c :: l) -> get s = Ok (Some c) /\ contents (x_key s) = Ok (fst c).
Proof.
  intros St. destruct (stands_good s c l St) as ([[Hk Hv] _] & Hi & _). destruct (cur_key s c l St) as (rest & Ek & rest' & Ev).
  unfold get. rewrite Ek, Ev, !contents_enc by assumption. cbn [bind]. destruct (x_iter s); [congruence|].
  split; [|reflexivity]. now destruct c.
Qed.

Lemma past_end_ok s c l : stands s (c :: l) -> past_end s = Ok (negb (below c)).
Proof.
  intros St. destruct (stands_good s c l St) as (_ & _ & (Pe & _ & Pi) & before & Hb).
  unfold past_end. rewrite Pe, Pi, (cur_cmp_ok s c l) by assumption. cbn [bind]. unfold below, bytes_ltb.
  destruct (bytes_cmp (row_of c) end_row) eqn:E; try reflexivity. destruct incl eqn:Ei; [|reflexivity]. exfalso.
  assert (HA := HE (or_introl eq_refl)). rewrite Forall_forall in HA.
  assert (Hc : below c = true) by (apply HA; rewrite Hb; apply in_or_app; right; now left).
  unfold below, bytes_ltb in Hc. now rewrite E in Hc.
Qed.

Definition vis (c : cell) : bool := below c && shown mask (fst c).

Lemma none_below s c l : stands s (c :: l) -> below c = false -> filter vis (c :: l) = [].
Proof.
  intros St Hc. destruct (stands_good s c l St) as (_ & _ & _ & before & Hb).
  assert (Hall : forall x, In x (c :: l) -> below x = false).
  { intros x Hx. destruct (below x) eqn:E; [|reflexivity]. rewrite <- Hc. symmetry. apply (below_before c x).
    - rewrite Hb. apply in_or_app. right. now left.
    - rewrite Hb. apply in_or_app. now right.
    - destruct Hx as [<-|Hx]; [now right|left]. pose proof (cf_sorted _ _ _ _ CF) as So. rewrite Hb in So.
      apply sorted_app in So as (_ & So & _). inv So. rewrite Forall_forall in H2. now apply H2.
    - assumption. }
  apply filter_none. intros x Hx. unfold vis. now rewrite Hall.
Qed.

(** What the scanner has still to give: it stands on the first of it. *)
Definition view (s : T) (l : list cell) : Prop :=
  (l = [] /\ x_iter s = []) \/
  exists c l', stands s (c :: l') /\ vis c = true /\ l = c :: filter vis l'.

Lemma forward_ok n : forall s c l, stands s (c :: l) -> below c = true -> (length l < n)%nat ->
  exists s', forward (s_file st) z trailer cache mask n s = Ok s' /\ view s' (filter vis l).
Proof.
  induction n as [|n IH]; intros s c l St Hc Hn; [lia|]. cbn [forward].
  destruct (stands_good s c l St) as (_ & Hi & _). destruct (x_iter s) eqn:Ei; [congruence|].
  destruct (move_ok s c l St ltac:(auto)) as (ok & s1 & -> & Hm). cbn [bind]. destruct l as [|c1 l].
  - destruct Hm as [-> Hm]. cbn [negb]. exists s1. split; [reflexivity|]. left. auto.
  - destruct Hm as (-> & s2 & -> & St2 & Hchk & Hr). cbn [negb bind]. rewrite (past_end_ok s2 c1 l St2).
    destruct (get_ok s2 c1 l St2) as [_ ->].
    assert (Hp : (if m_check_for_range_end s2 then Ok (negb (below c1)) else Ok false) = Ok (negb (below c1))).
    { destruct (m_check_for_range_end s2); [reflexivity|]. now rewrite Hchk. }
    rewrite Hp. cbn [bind]. destruct (below c1) eqn:Eb; cbn [negb].
    + destruct (shown mask (fst c1)) eqn:Es.
      * exists s2. split; [reflexivity|]. right. exists c1, l. split; [assumption|]. unfold vis at 1 2. cbn [filter]. rewrite Eb, Es. auto.
      * destruct (IH s2 c1 l St2 Eb) as (s' & E & V); [cbn [length] in Hn; lia|]. exists s'. split; [assumption|].
        unfold vis. cbn [filter]. rewrite Eb, Es. exact V.
    + exists (set_iter [] s2). split; [reflexivity|]. left. split; [now apply (none_below s2)|reflexivity].
Qed.

(** *** Seeking the start *)

Lemma stands_at s a done c rest b : in_block s a (done ++ c :: rest) b -> at_cell s (c :: rest) -> stands s (c :: rest ++ concat b).
Proof. intros I A. exists a, done, rest, c, b. auto. Qed.

Lemma seek_inclusive_ok n : forall s a done c rest b y, in_block s a (done ++ c :: rest) b -> at_cell s (c :: rest) ->
  In y (c :: rest) -> bytes_leb start_row (row_of y) = true -> (length rest < n)%nat ->
  exists s' pre c' rest', seek_inclusive n s = Ok (true, s') /\ c :: rest = pre ++ c' :: rest' /\
    in_block s' a ((done ++ pre) ++ c' :: rest') b /\ at_cell s' (c' :: rest') /\
    Forall (fun x => bytes_leb start_row (row_of x) = false) pre /\ bytes_leb start_row (row_of c') = true /\
    x_reader s' = x_reader s.
Proof.
  induction n as [|n IH]; intros s a done c rest b y I A Hy Hyr Hn; [lia|]. cbn [seek_inclusive].
  pose proof (stands_at _ _ _ _ _ _ I A) as St. destruct (ib_params _ _ _ _ I) as (_ & Ps & _).
  rewrite Ps, (cur_cmp_ok s c _ start_row St Ns). cbn [bind]. rewrite bytes_cmp_antisym.
  destruct (bytes_cmp start_row (row_of c)) eqn:E; cbn [CompOpp].
  - exists s, [], c, rest. rewrite app_nil_r. unfold bytes_leb. rewrite E. auto 10.
  - exists s, [], c, rest. rewrite app_nil_r. unfold bytes_leb. rewrite E. auto 10.
  - destruct Hy as [<-|Hy]; [unfold bytes_leb in Hyr; now rewrite E in Hyr|].
    destruct rest as [|c1 rest]; [destruct Hy|]. destruct (stands_good _ _ _ St) as ([[_ Hv] _] & _).
    destruct A as (_ & _ & Av). unfold advance. rewrite Av, next_enc by assumption. cbn [bind].
    set (s0 := set_block (Some (enc_cells (c1 :: rest))) s).
    assert (I0 : in_block s0 a ((done ++ [c]) ++ c1 :: rest) b) by (rewrite <- app_assoc; destruct I; now split).
    assert (Eae : at_end s0 = false).
    { unfold at_end, s0. cbn [set_block x_block]. destruct (enc_cells (c1 :: rest)) eqn:En; [|reflexivity].
      destruct (chunk_ok _ _ _ (ib_chunks _ _ _ _ I)) as [_ G]. apply Forall_app in G as [_ G]. apply Forall_inv_tail in G.
      now apply enc_cells_nil in En. }
    rewrite Eae. destruct (load_cur_ok s0 a (done ++ [c]) c1 rest b I0 eq_refl) as (s2 & -> & I2 & A2 & _ & X2). cbn [bind].
    destruct (IH s2 a (done ++ [c]) c1 rest b y I2 A2 Hy Hyr) as (s' & pre & c' & rest' & E' & El & I' & A' & F' & R' & X').
    { cbn [length] in Hn. lia. }
    exists s', (c :: pre), c', rest'. split; [assumption|]. split; [now rewrite El|].
    replace ((done ++ c :: pre) ++ c' :: rest') with (((done ++ [c]) ++ pre) ++ c' :: rest') by now rewrite <- !app_assoc.
    split; [assumption|]. split; [assumption|]. split; [|rewrite X', X2; auto].
    constructor; [|assumption]. unfold bytes_leb. now rewrite E.
Qed.

Lemma seek_exclusive_ok n : forall s c l, stands s (c :: l) -> (x_reader s <> None -> bytes_lt start_row end_row) ->
  (length l < n)%nat ->
  exists ok s', seek_exclusive (s_file st) z trailer cache n s = Ok (ok, s') /\
    if ok : bool then exists pre c' l', c :: l = pre ++ c' :: l' /\ stands s' (c' :: l') /\
      Forall (fun x => bytes_ltb start_row (row_of x) = false) pre /\ bytes_ltb start_row (row_of c') = true
    else x_iter s' = [] /\ Forall (fun x => bytes_ltb start_row (row_of x) = false) (c :: l).
Proof.
  induction n as [|n IH]; intros s c l St Hr Hn; [lia|]. cbn [seek_exclusive].
  destruct (stands_good s c l St) as (_ & _ & (_ & Ps & _) & _).
  rewrite Ps, (cur_cmp_ok s c _ start_row St Ns). cbn [bind]. rewrite bytes_cmp_antisym.
  assert (Hnx : bytes_cmp start_row (row_of c) <> Lt -> exists ok s',
    ('(ok, s) <- next_cell (s_file st) z trailer cache s ;;
     if negb ok then Ok (false, s) else s <- load_cur s ;; seek_exclusive (s_file st) z trailer cache n s) = Ok (ok, s') /\
    if ok : bool then exists pre c' l', c :: l = pre ++ c' :: l' /\ stands s' (c' :: l') /\
      Forall (fun x => bytes_ltb start_row (row_of x) = false) pre /\ bytes_ltb start_row (row_of c') = true
    else x_iter s' = [] /\ Forall (fun x => bytes_ltb start_row (row_of x) = false) (c :: l)).
  { intros Hne. assert (Hf : bytes_ltb start_row (row_of c) = false) by (apply bytes_ltb_ge; exact Hne).
    assert (Hle : bytes_lt (row_of c) start_row \/ row_of c = start_row).
    { destruct (bytes_trichotomy start_row (row_of c)) as [H|[H|H]]; [now apply bytes_ltb_lt in H; congruence|auto|auto]. }
    destruct (move_ok s c l St) as (ok & s1 & -> & Hm).
    { intros Hx. specialize (Hr Hx). unfold below. apply bytes_ltb_lt.
      destruct Hle as [Hle| ->]; [now apply (bytes_lt_trans _ start_row)|assumption]. }
    cbn [bind]. destruct l as [|c1 l].
    - destruct Hm as [-> Hm]. cbn [negb]. exists false, s1. split; [reflexivity|]. auto.
    - destruct Hm as (-> & s2 & -> & St2 & _ & Hrd). cbn [negb bind].
      destruct (IH s2 c1 l St2) as (ok & s' & -> & H); [intros Hx; apply Hr; intros E; apply Hx; now apply Hrd|cbn [length] in Hn; lia|].
      exists ok, s'. split; [reflexivity|]. destruct ok.
      + destruct H as (pre & c' & l' & El & St' & Fp & Hc'). exists (c :: pre), c', l'. rewrite El. auto 10.
      + destruct H as [Hi Fp]. auto. }
  destruct (bytes_cmp start_row (row_of c)) eqn:E; cbn [CompOpp].
  - apply Hnx. discriminate.
  - exists true, s. split; [reflexivity|]. exists [], c, l. split; [reflexivity|]. split; [assumption|]. split; [constructor|].
    now apply bytes_ltb_lt.
  - apply Hnx. discriminate.
Qed.

(** *** The constructor *)

Definition in_start (si : bool) (c : cell) : bool :=
  if si then bytes_leb start_row (row_of c) else bytes_ltb start_row (row_of c).
Definition wants (si : bool) (c : cell) : bool := in_start si c && vis c.

Lemma filter_first_false {A} (f g : A -> bool) l : Forall (fun x => f x = false) l -> filter (fun x => f x && g x) l = [].
Proof. intros H. apply filter_none. intros x Hx. rewrite Forall_forall in H. now rewrite H. Qed.

(** Behind a cell inside the start, all cells are. *)
Lemma start_after si s c l : stands s (c :: l) -> in_start si c = true -> filter (wants si) (c :: l) = filter vis (c :: l).
Proof.
  intros St Hc. destruct (stands_good s c l St) as (_ & _ & _ & before & Hb).
  apply filter_ext_in. intros x Hx. unfold wants. enough (in_start si x = true) as -> by reflexivity.
  assert (Hxc : In x (concat chunks)) by (rewrite Hb; apply in_or_app; now right).
  assert (Hcc : In c (concat chunks)) by (rewrite Hb; apply in_or_app; right; now left).
  assert (Hle : bytes_lt (row_of c) (row_of x) \/ row_of c = row_of x).
  { destruct Hx as [->|Hx]; [now right|]. pose proof (cf_sorted _ _ _ _ CF) as So. rewrite Hb in So.
    apply sorted_app in So as (_ & So & _). inv So. rewrite Forall_forall in H2. apply row_mono; [now apply good_key_of|now apply good_key_of|].
    now apply H2. }
  unfold in_start in *. destruct Hle as [Hle|<-]; [|assumption]. destruct si.
  - apply bytes_leb_le. left. apply bytes_leb_le in Hc as [Hc| ->]; [|assumption]. now apply (bytes_lt_trans _ (row_of c)).
  - apply bytes_ltb_lt. apply bytes_ltb_lt in Hc. now apply (bytes_lt_trans _ (row_of c)).
Qed.

Lemma total_cells : Z.to_nat (total_entries trailer) = length (concat chunks).
Proof. rewrite (cf_total _ _ _ _ CF). unfold zlen. lia. Qed.

(** Once on the first cell inside the start. *)
Lemma arrive_ok s c l si : stands s (c :: l) -> in_start si c = true -> (length l <= length (concat chunks))%nat ->
  exists s', (past <- past_end s ;;
    if past : bool then Ok (set_iter [] s)
    else k <- contents (x_key s) ;; if shown mask k then Ok s else forward (s_file st) z trailer cache mask (fuel trailer) s) = Ok s' /\
    view s' (filter (wants si) (c :: l)).
Proof.
  intros St Hc Hl. rewrite (past_end_ok s c l St), (start_after si s c l St Hc). cbn [bind].
  destruct (below c) eqn:Eb; cbn [negb].
  - rewrite (proj2 (get_ok s c l St)). cbn [bind filter]. unfold vis at 1. rewrite Eb. cbn [andb].
    destruct (shown mask (fst c)) eqn:Es.
    + exists s. split; [reflexivity|]. right. exists c, l. unfold vis at 1. rewrite Eb, Es. auto.
    + apply (forward_ok (fuel trailer) s c l St Eb). unfold fuel. rewrite total_cells. lia.
  - exists (set_iter [] s). split; [reflexivity|]. left. split; [now apply (none_below s)|reflexivity].
Qed.

Lemma settle_ok si s a c b : in_block s a c b -> x_block s = Some (enc_cells c) ->
  (si = true -> exists y, In y c /\ bytes_leb start_row (row_of y) = true) ->
  (x_reader s <> None -> bytes_lt start_row end_row) ->
  exists s', settle (s_file st) z trailer cache mask si s = Ok s' /\ view s' (filter (wants si) (c ++ concat b)).
Proof.
  intros I Eb Hy Hr. pose proof (ib_chunks _ _ _ _ I) as Ec. destruct (chunk_ok _ _ _ Ec) as [Hne _].
  assert (Hlen : (length (c ++ concat b) <= length (concat chunks))%nat).
  { rewrite Ec, concat_app. cbn [concat]. rewrite !length_app. lia. }
  destruct c as [|c0 rest]; [congruence|]. unfold settle.
  destruct (load_cur_ok s a [] c0 rest b I Eb) as (s1 & -> & I1 & A1 & _ & X1). cbn [bind].
  destruct si.
  - destruct (Hy eq_refl) as (y & Hin & Hyr). rewrite length_app in Hlen. cbn [length] in Hlen.
    destruct (seek_inclusive_ok (fuel trailer) s1 a [] c0 rest b y I1 A1 Hin Hyr) as (s2 & pre & c' & rest' & -> & El & I2 & A2 & Fp & Hc' & X2);
      [unfold fuel; rewrite total_cells; lia|].
    cbn [bind negb]. destruct (arrive_ok s2 c' (rest' ++ concat b) true (stands_at _ _ _ _ _ _ I2 A2) Hc') as (s' & -> & V).
    { apply (f_equal (@length _)) in El. rewrite !length_app in *. cbn [length] in *. lia. }
    exists s'. split; [reflexivity|]. rewrite El, <- app_assoc, filter_app. unfold wants at 1, in_start. now rewrite filter_first_false.
  - rewrite length_app in Hlen. cbn [length] in Hlen.
    destruct (seek_exclusive_ok (fuel trailer) s1 c0 (rest ++ concat b) (stands_at _ _ _ _ _ _ I1 A1)) as (ok & s2 & -> & H).
    + now rewrite X1.
    + rewrite length_app. unfold fuel. rewrite total_cells. lia.
    + cbn [bind]. change ((c0 :: rest) ++ concat b) with (c0 :: rest ++ concat b). destruct ok; cbn [negb].
      * destruct H as (pre & c' & l' & El & St & Fp & Hc'). rewrite El, filter_app. unfold wants at 1, in_start. rewrite filter_first_false by assumption.
        apply (arrive_ok s2 c' l' false St Hc'). apply (f_equal (@length _)) in El. rewrite length_app in El. cbn [length] in El. rewrite length_app in El. lia.
      * destruct H as [Hi F]. exists s2. split; [reflexivity|]. left. split; [|assumption]. unfold wants, in_start. now apply filter_first_false.
Qed.

Lemma index_start_ok (si : bool) : exists a b, chunks = a ++ b /\
  (if si then index_lower else index_upper) (until_nul start_row) index = layout z (zlen (blocks z a)) b /\
  Forall (fun d => bytes_lt (until_nul (chunk_key d)) start_row) a /\
  (forall c b', b = c :: b' -> exists y, In y c /\ bytes_leb start_row (row_of y) = true).
Proof.
  rewrite until_nul_id by assumption. set (p := if si then bytes_leb start_row else bytes_ltb start_row).
  assert (Ep : (if si then index_lower else index_upper) start_row index = index_from p index) by now destruct si.
  destruct (index_from_layout z p chunks 0) as (a & b & E & Ei & Ha & Hb).
  assert (Hp : forall k, good_key k -> p k = bytes_leb start_row (until_nul k)).
  { intros k Hk. rewrite <- (key_above_row k start_row) by assumption. unfold p. destruct si; [|reflexivity].
    unfold bytes_leb, bytes_ltb. destruct (bytes_cmp start_row k) eqn:Ek; try reflexivity. exfalso.
    apply bytes_cmp_eq in Ek. subst k. destruct Hk as [_ H0]. unfold no_nul in Ns. rewrite Forall_forall in Ns. now apply (Ns 0 H0). }
  exists a, b. split; [assumption|]. split; [now rewrite Ep, Ei|].
  assert (Hkey : forall d, In d chunks -> exists y, In y d /\ chunk_key d = fst y /\ good_key (fst y)).
  { intros d Hd. apply in_split in Hd as (u & v & Ed). destruct (chunk_last u d v Ed) as (y & Hy & Hk & _).
    exists y. split; [assumption|]. split; [assumption|]. now apply good_key_of, (in_chunk u d v). }
  split.
  - apply Forall_forall. intros d Hd. rewrite Forall_forall in Ha. specialize (Ha d Hd).
    destruct (Hkey d) as (y & _ & Hk & Hg); [rewrite E; apply in_or_app; now left|]. rewrite Hk in *. rewrite Hp in Ha by assumption.
    now apply bytes_leb_gt.
  - intros c b' ->. specialize (Hb c b' eq_refl). destruct (Hkey c) as (y & Hy & Hk & Hg); [rewrite E; apply in_or_app; right; now left|].
    exists y. split; [assumption|]. rewrite Hk, Hp in Hb by assumption. exact Hb.
Qed.

Lemma before_start si a b : chunks = a ++ b -> Forall (fun d => bytes_lt (until_nul (chunk_key d)) start_row) a ->
  filter (wants si) (concat a) = [].
Proof.
  intros E Ha. apply filter_first_false, Forall_forall. intros x Hx. apply in_concat in Hx as (d & Hd & Hx).
  apply in_split in Hd as (u & v & ->). rewrite <- app_assoc in E. cbn [app] in E.
  destruct (chunk_last u d (v ++ b) E) as (y & Hy & Hk & Hle). rewrite Forall_forall in Ha.
  specialize (Ha d ltac:(apply in_or_app; right; now left)). rewrite Hk in Ha.
  assert (Hlt : bytes_lt (row_of x) start_row).
  { destruct (Hle x) as [H|H].
    - rewrite concat_app. apply in_or_app. right. cbn [concat]. now rewrite app_nil_r.
    - destruct (row_mono (fst x) (fst y)) as [H'|H'];
        [now apply good_key_of, (in_chunk u d (v ++ b))|now apply good_key_of, (in_chunk u d (v ++ b))|assumption| |].
      + now apply (bytes_lt_trans _ (until_nul (fst y))).
      + unfold row_of. now rewrite H'.
    - unfold row_of. now rewrite H. }
  unfold in_start. destruct si; [now apply bytes_leb_gt|]. apply bytes_ltb_ge. intros H.
  apply (bytes_lt_irrefl start_row). now apply (bytes_lt_trans _ (row_of x)).
Qed.

Lemma launch_ok si single s : params s -> x_block s = None -> x_reader s = None ->
  x_iter s = (if si : bool then index_lower else index_upper) (until_nul start_row) index -> bytes_leb start_row end_row = true ->
  exists s', launch (s_file st) z trailer index cache mask si single s = Ok s' /\ view s' (filter (wants si) (concat chunks)).
Proof.
  intros P Eb Er Ei Hle. pose proof P as (Pe & Ps & _). destruct (index_start_ok si) as (a & b & E & El & Ha & Hb). rewrite El in Ei.
  unfold launch. rewrite Ei, Pe, Ps. replace (concat chunks) with (concat a ++ concat b) by (rewrite E; symmetry; apply concat_app).
  rewrite filter_app, (before_start si a b E Ha). cbn [app].
  destruct b as [|c b]; cbn [layout]; [exists s; split; [reflexivity|]; now left|]. cbn [concat].
  destruct (Hb c b eq_refl) as (y & Hy & Hyr). destruct (blocks_pos a c b E) as (B0 & B1 & B2 & B3 & B4).
  destruct (bytes_eqb start_row end_row || single) eqn:Em.
  - assert (Rd : ready s a c b) by (split; auto; unfold reader_at; now rewrite Er).
    destruct (fetch_ready s a c b Rd) as (s1 & F & I1 & Eb1 & R1); [now rewrite Er|].
    unfold fetch in F. rewrite Er in F. rewrite F. cbn [bind negb].
    apply (settle_ok si s1 a c b I1 Eb1); [eauto|]. intros Hx. exfalso. apply Hx. now apply R1.
  - apply orb_false_iff in Em as [Em _]. apply bytes_eqb_neq in Em.
    assert (Hlt : bytes_lt start_row end_row) by (apply bytes_leb_le in Hle as [|]; congruence).
    assert (Hae : Forall (fun d => bytes_lt (until_nul (chunk_key d)) end_row) a).
    { eapply Forall_impl; [|exact Ha]. cbn. intros d Hd. now apply (bytes_lt_trans _ start_row). }
    destruct (window_covers a c b E Hae) as [W1 W2]. fold wend.
    pose proof (cf_trailer_ok _ _ _ _ CF) as [(_ & _ & _ & _ & _ & Hbs & _) _]. unfold in_range in Hbs.
    pose proof (cf_length _ _ _ _ CF) as [_ Hfl].
    destruct (sr_open_at (Z.max (blocksize trailer) 65536) (zlen (blocks z a)) wend) as (r & -> & Hr); [lia|lia|lia|lia|].
    cbn [bind].
    assert (Rd : ready (set_reader (zlen (blocks z a)) r s) a c b).
    { split; auto. unfold reader_at. cbn. auto. }
    destruct (fetch_ready _ a c b Rd) as (s1 & F & I1 & Eb1 & R1); [intros _; assumption|].
    unfold fetch in F. cbn [set_reader x_reader] in F. rewrite F. cbn [bind negb].
    apply (settle_ok si s1 a c b I1 Eb1); eauto.
Qed.

(** *** One call after the other *)

Lemma view_step s l : view s l ->
  get s = Ok (hd_error l) /\
  (l <> [] -> exists s', forward (s_file st) z trailer cache mask (fuel trailer) s = Ok s' /\ view s' (tl l)).
Proof.
  intros [[-> Hi]|(c & l' & St & Hv & ->)].
  - unfold get. rewrite Hi. split; [reflexivity|congruence].
  - split; [apply (proj1 (get_ok s c l' St))|]. intros _. cbn [tl]. apply (forward_ok _ s c l' St).
    + unfold vis in Hv. now apply andb_true_iff in Hv as [? _].
    + destruct (stands_good s c l' St) as (_ & _ & _ & before & Hb). unfold fuel. rewrite total_cells, Hb, length_app. cbn [length]. lia.
Qed.

End Correct.

(** ** The theorems *)

(** What a scan with these bounds over a store of a range should give: the cells
    of its rows, behind the start and up to the end of the range, that lie inside
    the bounds and belong to the families asked for. *)
Definition scan_wants (store_start store_end ctx_start ctx_end : list Z) (mask : Z -> bool) (c : cell) : bool :=
  bytes_ltb store_start (row_of c) && bytes_leb (row_of c) store_end &&
  bytes_leb ctx_start (row_of c) && bytes_ltb (row_of c) ctx_end && shown mask (fst c).

(** A row bound. *)
Definition clean_row (r : list Z) : Prop := no_nul r /\ wf_bytes r.

(** The cells a client gets that asks for up to [n]. *)
Fixpoint scan_list {R} (file : list Z) {SR : SequentialReader file R} z trailer cache mask (n : nat) (s : @t R) : result (list cell) :=
  match n with
  | O => Ok []
  | S n =>
      o <- get s ;;
      match o with
      | None => Ok []
      | Some c => s <- forward file z trailer cache mask (fuel trailer) s ;;
                  l <- scan_list file z trailer cache mask n s ;; Ok (c :: l)
      end
  end.

(** The rows the scanner works with, and what it needs of them. *)
Definition scan_start (store_start ctx_start : list Z) : list Z := if bytes_ltb store_start ctx_start then ctx_start else store_start.
Definition scan_end (store_end ctx_end : list Z) : list Z := if bytes_ltb ctx_end store_end then ctx_end else store_end.

Record scan_ok (store_start store_end ctx_start ctx_end : list Z) (cells : list cell) : Prop := {
  so_store_start : clean_row store_start; so_store_end : clean_row store_end;
  so_ctx_start : clean_row ctx_start; so_ctx_end : clean_row ctx_end;
  so_order : bytes_leb (scan_start store_start ctx_start) (scan_end store_end ctx_end) = true;
  so_far : bytes_ltb ctx_end store_end = false \/ hd 0 (scan_end store_end ctx_end) = 0xff ->
           Forall (fun c => bytes_lt (row_of c) (scan_end store_end ctx_end)) cells }.

Lemma scan_wants_eq store_start store_end ctx_start ctx_end mask cells : scan_ok store_start store_end ctx_start ctx_end cells ->
  filter (wants mask (scan_start store_start ctx_start) (scan_end store_end ctx_end) (bytes_ltb store_start ctx_start)) cells =
  filter (scan_wants store_start store_end ctx_start ctx_end mask) cells.
Proof.
  intros [_ _ _ _ _ Hf]. apply filter_ext_in. intros x Hx. unfold wants, vis, in_start, below, scan_wants, scan_start, scan_end in *.
  rewrite !andb_assoc. f_equal.
  assert (Hs : (if bytes_ltb store_start ctx_start then bytes_leb (if bytes_ltb store_start ctx_start then ctx_start else store_start) (row_of x)
                else bytes_ltb (if bytes_ltb store_start ctx_start then ctx_start else store_start) (row_of x)) =
               bytes_ltb store_start (row_of x) && bytes_leb ctx_start (row_of x)).
  { destruct (bytes_ltb store_start ctx_start) eqn:E.
    - apply bytes_ltb_lt in E. destruct (bytes_leb ctx_start (row_of x)) eqn:E2; [|now rewrite andb_false_r].
      apply bytes_leb_le in E2. rewrite andb_true_r. symmetry. apply bytes_ltb_lt.
      destruct E2 as [E2|<-]; [now apply (bytes_lt_trans _ ctx_start)|assumption].
    - apply bytes_ltb_ge in E. destruct (bytes_ltb store_start (row_of x)) eqn:E2; [|reflexivity]. apply bytes_ltb_lt in E2.
      symmetry. apply bytes_leb_le. destruct (bytes_trichotomy store_start ctx_start) as [H|[<-|H]]; [contradiction|auto|].
      left. now apply (bytes_lt_trans _ store_start). }
  rewrite Hs. destruct (bytes_ltb ctx_end store_end) eqn:E.
  - apply bytes_ltb_lt in E. destruct (bytes_ltb (row_of x) ctx_end) eqn:E2; [|now rewrite !andb_false_r].
    apply bytes_ltb_lt in E2. rewrite (proj2 (bytes_leb_le (row_of x) store_end)) by (left; now apply (bytes_lt_trans _ ctx_end)).
    now rewrite !andb_true_r.
  - specialize (Hf (or_introl eq_refl)). rewrite Forall_forall in Hf. specialize (Hf x Hx). apply bytes_ltb_ge in E.
    assert (Hc : bytes_lt (row_of x) ctx_end).
    { destruct (bytes_trichotomy ctx_end store_end) as [H|[->|H]]; [contradiction|assumption|]. now apply (bytes_lt_trans _ store_end). }
    rewrite (proj2 (bytes_ltb_lt _ _) Hf), (proj2 (bytes_ltb_lt _ _) Hc), (proj2 (bytes_leb_le (row_of x) store_end)) by now left.
    now rewrite !andb_true_r.
Qed.

Section Views.

Context {R : Type} (z : Compressor) (st : CellStoreV0) (chunks : list (list cell)) (tl_ : list Z)
  {SR : SequentialReader (s_file st) R} (cache : CacheView) (mask : Z -> bool)
  (store_start store_end ctx_start ctx_end : list Z) (single : bool)
  (Hz : Lossless z) (CF : cell_file z st chunks tl_) (HC : coherent z chunks cache)
  (H : scan_ok store_start store_end ctx_start ctx_end (concat chunks)).

Abbreviation sview := (view z st chunks mask (scan_start store_start ctx_start) (scan_end store_end ctx_end)
  (negb (bytes_ltb ctx_end store_end))).

Lemma rows_far : negb (bytes_ltb ctx_end store_end) = true \/ hd 0 (scan_end store_end ctx_end) = 0xff ->
  Forall (fun c => below (scan_end store_end ctx_end) c = true) (concat chunks).
Proof.
  intros Hor. assert (Hf := so_far _ _ _ _ _ H). rewrite negb_true_iff in Hor. specialize (Hf Hor).
  eapply Forall_impl; [|exact Hf]. intros c Hc. now apply bytes_ltb_lt.
Qed.

Lemma bounds_clean : clean_row (scan_start store_start ctx_start) /\ clean_row (scan_end store_end ctx_end).
Proof. destruct H. unfold scan_start, scan_end. destruct (bytes_ltb store_start ctx_start), (bytes_ltb ctx_end store_end); auto. Qed.

Lemma make_view : exists s : @t R,
  make (s_file st) z (s_trailer st) (layout z 0 chunks) cache mask store_start store_end ctx_start ctx_end single = Ok s /\
  sview s (filter (wants mask (scan_start store_start ctx_start) (scan_end store_end ctx_end) (bytes_ltb store_start ctx_start)) (concat chunks)).
Proof.
  destruct bounds_clean as [[N1 W1] [N2 W2]]. unfold make. apply (launch_ok z Hz st chunks tl_ CF cache HC mask _ _ _ N1 W1 N2 W2 rows_far); auto.
  - unfold params. cbn. unfold scan_start, scan_end. destruct (bytes_ltb ctx_end store_end); auto.
  - apply H.
Qed.

Lemma view_next s l : sview s l -> get s = Ok (hd_error l) /\
  (l <> [] -> exists s', forward (s_file st) z (s_trailer st) cache mask (fuel (s_trailer st)) s = Ok s' /\ sview s' (tl l)).
Proof.
  destruct bounds_clean as [[N1 W1] [N2 W2]]. apply (view_step z Hz st chunks tl_ CF cache HC mask _ _ _ N2 W2 rows_far).
Qed.

Lemma scan_list_ok n : forall s l, sview s l -> scan_list (s_file st) z (s_trailer st) cache mask n s = Ok (firstn n l).
Proof.
  induction n as [|n IH]; intros s l V; [reflexivity|]. cbn [scan_list]. destruct (view_next s l V) as [-> Hn]. cbn [bind].
  destruct l as [|c l]; [reflexivity|]. cbn [hd_error]. destruct Hn as (s' & -> & V'); [discriminate|]. cbn [bind tl] in *.
  rewrite (IH s' l V'). reflexivity.
Qed.

End Views.

(** C20. Scanning a cell store: over a finished file, with a cache that holds blocks
    of that file and whatever the timing of the buffered reader, the scanner
    starts without an error and gives exactly the cells of the rows asked for that
    lie in the range of the store and belong to the families asked for, in key
    order.  The bounds are rows; rows must stay away from an inclusive end and
    from one that starts with the byte 0xff. *)
Theorem cell_store_scan_correct {R} z st chunks tl_ {SR : SequentialReader (s_file st) R} cache mask
    store_start store_end ctx_start ctx_end single n :
  Lossless z -> cell_file z st chunks tl_ -> coherent z chunks cache ->
  scan_ok store_start store_end ctx_start ctx_end (concat chunks) ->
  exists s : @t R,
    make (s_file st) z (s_trailer st) (layout z 0 chunks) cache mask store_start store_end ctx_start ctx_end single = Ok s /\
    scan_list (s_file st) z (s_trailer st) cache mask n s =
      Ok (firstn n (filter (scan_wants store_start store_end ctx_start ctx_end mask) (concat chunks))).
Proof.
  intros Hz CF HC H. rewrite <- (scan_wants_eq _ _ _ _ mask _ H).
  destruct (make_view z st chunks tl_ cache mask store_start store_end ctx_start ctx_end single Hz CF HC H) as (s & -> & V).
  exists s. split; [reflexivity|]. revert V. generalize (filter (wants mask (scan_start store_start ctx_start)
    (scan_end store_end ctx_end) (bytes_ltb store_start ctx_start)) (concat chunks)). intros l V.
  now apply (scan_list_ok z st chunks tl_ cache mask store_start store_end ctx_start ctx_end Hz CF HC H).
Qed.

(** A cache that never holds anything for the file, and takes every block. *)
Definition cold_cache : CacheView :=
  {| cv_checkout := fun _ => None; cv_insert := fun _ _ => true; cv_again := fun _ => None |}.

Lemma cold_coherent z chunks : coherent z chunks cold_cache.
Proof. intros a c b _ off. cbn. split; [discriminate|]. split; [discriminate|auto]. Qed.

Lemma sample_scan_ok : scan_ok [] END_ROW_MARKER [98] [99] sample_cells.
Proof.
  assert (C : forall r, Forall (fun b => 1 <= b < 256) r -> clean_row r).
  { intros r Hr. split; eapply Forall_impl; [|exact Hr| |exact Hr]; cbn; unfold is_byte, in_range; lia. }
  split; [apply C; constructor|apply C; repeat constructor; lia|apply C; repeat constructor; lia|apply C; repeat constructor; lia|reflexivity|].
  intros [E|E]; discriminate.
Qed.

(** A file of the sample cells. *)
Lemma sample_store : exists st chunks tl_, cell_file codec_repeat st chunks tl_ /\ concat chunks = sample_cells.
Proof.
  destruct (add_all_ok codec_repeat lossless_repeat sample_cells (create codec_repeat 12 []) [] []) as (w & ch & cur & _ & W & E).
  - apply create_writes; [exact lossless_repeat|split; [discriminate|reflexivity]|constructor].
  - eapply Forall_impl; [|exact sample_good]. now intros c [].
  - reflexivity.
  - cbn [concat app] in E.
    destruct (finalize_ok codec_repeat lossless_repeat w ch cur [1; 0] {| logical := 3; real := 4 |} W) as (st & chunks & tl_ & _ & Ec & CF & _).
    + rewrite E. exact sample_good.
    + rewrite E. exact sample_sorted.
    + rewrite E. reflexivity.
    + exists [0]. split; [reflexivity|now left].
    + split; split; cbn; (discriminate || reflexivity).
    + exists st, chunks, tl_. split; [exact CF|]. now rewrite Ec, E.
Qed.

Lemma cell_store_scan_correct_witness : exists st chunks s,
  concat chunks = sample_cells /\
  @make BufferedReader.t (s_file st) (handler_reader (s_file st) [1; 0; 2]%nat) codec_repeat (s_trailer st)
    (layout codec_repeat 0 chunks) cold_cache (fun _ => true) [] END_ROW_MARKER [98] [99] false = Ok s /\
  @scan_list BufferedReader.t (s_file st) (handler_reader (s_file st) [1; 0; 2]%nat) codec_repeat (s_trailer st) cold_cache
    (fun _ => true) 10 s = Ok [([98; 0; 1; 0; 255; 9; 9], [])].
Proof.
  destruct sample_store as (st & chunks & tl_ & CF & Ec).
  destruct (@cell_store_scan_correct BufferedReader.t codec_repeat st chunks tl_ (handler_reader (s_file st) [1; 0; 2]%nat)
    cold_cache (fun _ => true) [] END_ROW_MARKER [98] [99] false 10 lossless_repeat CF (cold_coherent _ _)) as (s & M & L).
  - rewrite Ec. exact sample_scan_ok.
  - exists st, chunks, s. split; [exact Ec|]. split; [exact M|]. rewrite L, Ec. reflexivity.
Defined.

(** *** The block cache behind the view *)

(** What a scanner of the file [id] sees of the cache. *)
Definition cache_view (id : Z) (c : FileBlockCache.t) : CacheView :=
  {| cv_checkout := fun off => fst (FileBlockCache.checkout id off c);
     cv_insert := fun off b => fst (FileBlockCache.insert_and_checkout id off b c);
     cv_again := fun off => fst (FileBlockCache.checkout id off c) |}.

Lemma cache_view_coherent z chunks source max held id c : in_range 64 max -> FileBlockCache.reach source max held c ->
  FileBlockCache.id_ok id -> zlen held < 2 ^ 32 - 1 -> zlen (blocks z chunks) < 2 ^ 32 ->
  (forall a d b, chunks = a ++ d :: b -> source id (zlen (blocks z a)) = enc_cells d /\
     FileBlockCache.used (FileBlockCache.pinned (FileBlockCache.m_cache c)) + u32 (zlen (enc_cells d)) <= max) ->
  coherent z chunks (cache_view id c).
Proof.
  intros Hm Hr Hid Hh Hb Hs a d b E off. destruct (Hs a d b E) as [Hsrc Hroom].
  pose proof (FileBlockCache.reach_inv source max Hm held c Hr) as I.
  assert (Ho : in_range 32 off).
  { unfold in_range, off. pose proof (zlen_nonneg (blocks z a)). rewrite E, blocks_app, zlen_app in Hb.
    pose proof (zlen_nonneg (blocks z (d :: b))). lia. }
  assert (G : forall x, fst (FileBlockCache.checkout id off c) = Some x -> x = enc_cells d).
  { intros x Hx. destruct (FileBlockCache.checkout id off c) as [o c'] eqn:Ec. cbn [fst] in Hx. subst o.
    destruct (FileBlockCache.checkout_inv source max Hm held c id off x c' I Hid Ho) as [_ ->]; [unfold zlen in *; cbn [length]; lia|assumption|].
    exact Hsrc. }
  cbn [cache_view cv_checkout cv_insert cv_again]. split; [exact G|]. split; [exact G|]. intros Hmiss. left.
  destruct (FileBlockCache.insert_ok source max Hm held id off (enc_cells d) c I) as (l & _ & HI).
  destruct (FileBlockCache.insert_and_checkout id off (enc_cells d) c) as [[] c']; [reflexivity|].
  destruct HI as ([HI|HI] & _); [|lia]. exfalso. unfold FileBlockCache.checkout in Hmiss.
  destruct (FileBlockCache.lookup _ _); [discriminate|congruence].
Qed.

(** A cache whose pinned blocks leave no room for a block stops the server: a
    single-row scan that has to read the block treats the refused insertion as a
    race lost to another thread, looks the block up again, and aborts when it is
    not there. *)
Theorem full_cache_aborts {R} z st chunks tl_ {SR : SequentialReader (s_file st) R} source max held id c (s : @t R) a d b :
  Lossless z -> cell_file z st chunks tl_ -> in_range 64 max -> FileBlockCache.reach source max held c ->
  chunks = a ++ d :: b -> x_iter s = layout z (zlen (blocks z a)) (d :: b) -> x_block s = None ->
  FileBlockCache.contains id (zlen (blocks z a)) c = false ->
  max < FileBlockCache.used (FileBlockCache.pinned (FileBlockCache.m_cache c)) + u32 (zlen (enc_cells d)) ->
  fetch_next_block (s_file st) z (s_trailer st) (cache_view id c) s = Fault.
Proof.
  intros Hz CF Hm Hr Ec Ei Eb Hc Hfull. destruct (describe_span z Hz st chunks tl_ CF s a d b Ec Ei) as (chk & D).
  assert (El : leave_block s = s) by (unfold leave_block; now rewrite Eb).
  unfold fetch_next_block. rewrite El, Eb, D. cbn [cache_view cv_checkout cv_insert cv_again].
  assert (Hmiss : fst (FileBlockCache.checkout id (zlen (blocks z a)) c) = None).
  { unfold FileBlockCache.contains in Hc. unfold FileBlockCache.checkout. now destruct (FileBlockCache.lookup _ _). }
  rewrite Hmiss, (block_at z Hz st chunks tl_ CF a d b Ec).
  destruct (FileBlockCache.insert_ok source max Hm held id (zlen (blocks z a)) (enc_cells d) c
    (FileBlockCache.reach_inv source max Hm held c Hr)) as (l & _ & HI).
  destruct (FileBlockCache.insert_and_checkout id (zlen (blocks z a)) (enc_cells d) c) as [[] c']; [|reflexivity].
  destruct HI as (_ & HI & _). lia.
Qed.

Lemma full_cache_aborts_witness : exists st chunks s,
  concat chunks = sample_cells /\
  @fetch_next_block BufferedReader.t (s_file st) codec_repeat (s_trailer st) (cache_view 1 (FileBlockCache.make 0)) s = Fault.
Proof.
  destruct sample_store as (st & chunks & tl_ & CF & Ec). destruct chunks as [|d b]; [discriminate|].
  exists st, (d :: b). eexists {| x_iter := layout codec_repeat 0 (d :: b); x_block := None; x_key := []; x_value := [];
    m_check_for_range_end := false; m_end_inclusive := true; m_start_row := []; m_end_row := [];
    m_start_offset := 0; x_reader := None |}. split; [exact Ec|].
  assert (Hd : 0 < u32 (zlen (enc_cells d))).
  { pose proof CF as [Cn Cg _ Cw _ _ _ _ _ _ _ _]. apply Forall_inv in Cn, Cg. cbn [concat] in Cw. rewrite weight_app in Cw.
    pose proof (weight_min (concat b)). pose proof (zlen_nonneg d). pose proof (zlen_nonneg (enc_cells d)).
    rewrite u32_small by (unfold weight in *; lia). destruct (enc_cells d) eqn:E; [|unfold zlen; cbn [length]; lia].
    now apply enc_cells_nil in E. }
  apply (@full_cache_aborts BufferedReader.t codec_repeat st (d :: b) tl_ (handler_reader (s_file st) [])
    (fun _ _ => []) 0 [] 1 (FileBlockCache.make 0) _ [] d b lossless_repeat CF); [|constructor|reflexivity|reflexivity|reflexivity|reflexivity|exact Hd].
  split; [discriminate|reflexivity].
Defined.

(** *** Cell intervals *)

Lemma seek_inclusive_reached {R} n : forall s s' : @t R, seek_inclusive n s = Ok (true, s') ->
  exists c, cur_cmp s' (m_start_row s) = Ok c /\ c <> Lt /\ m_end_row s' = m_end_row s /\ m_end_inclusive s' = m_end_inclusive s.
Proof.
  induction n as [|n IH]; intros s s' E; [discriminate|]. cbn [seek_inclusive] in E.
  apply bind_ok in E as (c & Ec & E). destruct c.
  - apply Ok_inj in E. injection E as <-. exists Eq. repeat split; auto; discriminate.
  - apply bind_ok in E as (s1 & E1 & E). unfold advance in E1. apply bind_ok in E1 as ([p q] & _ & E1). apply Ok_inj in E1 as <-.
    destruct (at_end _); [discriminate|]. apply bind_ok in E as (s2 & E2 & E). unfold load_cur in E2. cbn in E2.
    destruct q; [|discriminate]. apply bind_ok in E2 as ([u v] & _ & E2). destruct v; [|discriminate]. apply Ok_inj in E2 as <-.
    apply IH in E. exact E.
  - apply Ok_inj in E. injection E as <-. exists Gt. repeat split; auto; discriminate.
Qed.

Definition same_bounds {R} (s s' : @t R) : Prop :=
  m_end_row s' = m_end_row s /\ m_start_row s' = m_start_row s /\ m_end_inclusive s' = m_end_inclusive s.

Lemma leave_block_bounds {R} (s : @t R) : same_bounds s (leave_block s).
Proof. unfold leave_block, same_bounds. destruct (x_block s) as [[|]|]; auto. Qed.

Lemma fetch_bounds {R} file z trailer cache (s s' : @t R) ok : fetch_next_block file z trailer cache s = Ok (ok, s') -> same_bounds s s'.
Proof.
  unfold fetch_next_block. pose proof (leave_block_bounds s) as L. cbv zeta. set (s0 := leave_block s) in *.
  destruct (x_block s0); [intros E; apply Ok_inj in E; injection E as _ <-; exact L|].
  destruct (describe trailer s0) as [[[off n] chk]|]; [|intros E; apply Ok_inj in E; injection E as _ <-; exact L].
  destruct (cv_checkout cache off); [intros E; apply Ok_inj in E; injection E as _ <-; exact L|].
  destruct (unpack z (pread file n off)) as [b|c|]; [|intros E; apply Ok_inj in E; injection E as _ <-; exact L|discriminate].
  destruct (cv_insert cache off b); [intros E; apply Ok_inj in E; injection E as _ <-; exact L|].
  destruct (cv_again cache off); [intros E; apply Ok_inj in E; injection E as _ <-; exact L|discriminate].
Qed.

Lemma fetch_readahead_bounds {R} file {SR : SequentialReader file R} z trailer r (s s' : @t R) ok :
  fetch_next_block_readahead file z trailer r s = Ok (ok, s') -> same_bounds s s'.
Proof.
  unfold fetch_next_block_readahead. pose proof (leave_block_bounds s) as L. cbv zeta. set (s0 := leave_block s) in *.
  destruct (x_block s0); [intros E; apply Ok_inj in E; injection E as _ <-; exact L|].
  destruct (describe trailer s0) as [[[off n] chk]|]; [|intros E; apply Ok_inj in E; injection E as _ <-; exact L].
  destruct (negb (off =? m_start_offset s0)); [discriminate|]. intros E. apply bind_ok in E as ([data r'] & _ & E).
  destruct (negb (zlen data =? n)); [discriminate|]. apply bind_ok in E as (b & _ & E). apply Ok_inj in E. injection E as _ <-. exact L.
Qed.

(** With an exclusive end that is the start row, nothing is left. *)
Lemma settle_empty {R} file {SR : SequentialReader file R} z trailer cache mask (s s' : @t R) :
  until_nul (m_start_row s) = until_nul (m_end_row s) -> m_end_inclusive s = false ->
  settle file z trailer cache mask true s = Ok s' -> get s' = Ok None.
Proof.
  intros Hse Hinc E. unfold settle in E. apply bind_ok in E as (s1 & E1 & E).
  assert (B1 : same_bounds s s1).
  { unfold load_cur in E1. destruct (x_block s); [|discriminate]. apply bind_ok in E1 as ([u v] & _ & E1). destruct v; [|discriminate].
    apply Ok_inj in E1 as <-. repeat split. }
  destruct B1 as (B1 & B2 & B3). apply bind_ok in E as ([ok s2] & E2 & E). destruct ok; cbn [negb] in E.
  - destruct (seek_inclusive_reached _ _ _ E2) as (c & Ec & Hc & He & Hi). rewrite B2 in Ec. rewrite B1 in He. rewrite B3, Hinc in Hi.
    assert (Ep : past_end s2 = Ok true).
    { unfold past_end. rewrite He, Hi. unfold cur_cmp in *. rewrite <- Hse. apply bind_ok in Ec as (p & -> & Ec). cbn [bind].
      destruct (cstr p); [|discriminate]. apply Ok_inj in Ec. cbn [bind]. rewrite Ec. now destruct c. }
    rewrite Ep in E. cbn [bind] in E. apply Ok_inj in E as <-. reflexivity.
  - apply Ok_inj in E as <-. clear -E2. revert s1 s2 E2. generalize (fuel trailer). induction n as [|n IH]; intros s1 s2 E2; [discriminate|].
    cbn [seek_inclusive] in E2. apply bind_ok in E2 as (c & _ & E2). destruct c; [discriminate| |discriminate].
    apply bind_ok in E2 as (s3 & _ & E2). destruct (at_end s3).
    + apply Ok_inj in E2. injection E2 as <-. reflexivity.
    + apply bind_ok in E2 as (s4 & _ & E2). now apply IH in E2.
Qed.

Lemma until_nul_row row x : no_nul row -> until_nul (row ++ 0 :: x) = row.
Proof. induction 1 as [|b row Hb _ IH]; [reflexivity|]. cbn [app until_nul]. apply Z.eqb_neq in Hb. now rewrite Hb, IH. Qed.

(** Cell intervals of one row find nothing in cell stores: the bounds of such
    an interval have a NUL behind the row, at which the scanner cuts them off, so
    the exclusive end is the row itself.  Whatever the file holds, the scanner is
    at its end from the start. *)
Theorem cell_interval_scan_empty {R} (file : list Z) {SR : SequentialReader file R} z trailer index cache mask
    store_start store_end row x y single (s : @t R) :
  no_nul row -> bytes_lt store_start (row ++ 0 :: x) -> bytes_lt (row ++ 0 :: y) store_end ->
  make file z trailer index cache mask store_start store_end (row ++ 0 :: x) (row ++ 0 :: y) single = Ok s ->
  get s = Ok None.
Proof.
  intros Nr Hs He E. unfold make in E. rewrite (proj2 (bytes_ltb_lt _ _) Hs), (proj2 (bytes_ltb_lt _ _) He) in E.
  unfold launch in E. cbn [x_iter m_start_row m_end_row negb] in E. set (s0 := {| x_iter := index_lower _ _ |}) in E.
  assert (P : until_nul (m_start_row s0) = until_nul (m_end_row s0)) by (cbn; now rewrite !until_nul_row).
  destruct (index_lower _ index) as [|[k off] it]; [apply Ok_inj in E as <-; reflexivity|].
  assert (G : forall ok s1, same_bounds s0 s1 ->
    (if negb ok then Ok (set_iter [] s1) else settle file z trailer cache mask true s1) = Ok s -> get s = Ok None).
  { intros ok s1 (B1 & B2 & B3) H. destruct ok; cbn [negb] in H; [|apply Ok_inj in H as <-; reflexivity].
    apply (settle_empty file z trailer cache mask s1 s); [now rewrite B1, B2|now rewrite B3|assumption]. }
  destruct (_ || single).
  - apply bind_ok in E as ([ok s1] & E1 & E). apply (G ok s1); [now apply (fetch_bounds file z trailer cache s0 s1 ok)|assumption].
  - apply bind_ok in E as (r & _ & E). apply bind_ok in E as ([ok s1] & E1 & E). apply (G ok s1); [|assumption].
    apply fetch_readahead_bounds in E1. exact E1.
Qed.


(** The store of the sample cells, evaluated; an empty one if that failed. *)
Definition no_store : CellStoreV0 :=
  {| s_file := []; s_trailer := Trailer_clear; CellStore.m_index := []; CellStore.m_start_row := []; CellStore.m_end_row := [];
     m_file_length := 0; m_disk_usage := 0; m_split_row := [] |}.
Definition sample_st : CellStoreV0 :=
  match add_all codec_none sample_cells (create codec_none 12 []) with
  | Ok w => match finalize codec_none [1; 0] {| logical := 3; real := 4 |} w with Ok (Some s) => s | _ => no_store end
  | _ => no_store
  end.

(** The interval of the row 97 from family 1 to family 2 holds the first two cells. *)
#[local] Instance sample_reader : SequentialReader (s_file sample_st) BufferedReader.t := handler_reader (s_file sample_st) [].

Definition sample_scanner : @t BufferedReader.t :=
  match make (s_file sample_st) codec_none (s_trailer sample_st) (CellStore.m_index sample_st) cold_cache (fun _ => true)
    [] END_ROW_MARKER ([97] ++ 0 :: [1]) ([97] ++ 0 :: [3]) false
  with
  | Ok s => s
  | _ => {| x_iter := []; x_block := None; x_key := []; x_value := []; m_check_for_range_end := false; m_end_inclusive := true;
            m_start_row := []; m_end_row := []; m_start_offset := 0; x_reader := None |}
  end.

Lemma sample_interval_scanned :
  make (s_file sample_st) codec_none (s_trailer sample_st) (CellStore.m_index sample_st) cold_cache (fun _ => true)
    [] END_ROW_MARKER ([97] ++ 0 :: [1]) ([97] ++ 0 :: [3]) false = Ok sample_scanner.
Proof. vm_compute. reflexivity. Qed.

Lemma cell_interval_scan_empty_witness : zlen (CellStore.m_index sample_st) = 3 /\ get sample_scanner = Ok None.
Proof.
  assert (N : no_nul [97]) by (repeat constructor; discriminate). split; [vm_compute; reflexivity|].
  exact (cell_interval_scan_empty (s_file sample_st) codec_none (s_trailer sample_st) (CellStore.m_index sample_st) cold_cache (fun _ => true)
    [] END_ROW_MARKER [97] [1] [3] false sample_scanner N eq_refl eq_refl sample_interval_scanned).
Defined.

End CellStoreScanner.
