(* ===== verification/AccessGroup.v ===== *)
(** * Access groups

    [RangeServer/AccessGroup.{h,cc}]: the cells of a group of column families in
    one range, the newest in a cell cache and the others in cell stores;
    compactions move them from the first to the second.

    Cell stores are seen through the abstract class [RangeServer/CellStore.h],
    split here into its operations and what an access group may rely on; the
    implementation is an instance of both.  Updates that arrive while a compaction
    runs arrive, in the model, between its scan and the installation of the new
    store.  The text written to the [Files] column of METADATA is kept in the state;
    whether METADATA takes it is an argument. *)
From S2P Require Import Prelude Errors Serialization ByteString Key Deletes CellCache Scanner MergeScanner.
From S2P Require Import Schema Wire ScanContext BlockCodec CellStore CellStoreScanner.
From Stdlib Require Import ZArith Lia List Bool Sorted Permutation SpecFloat.
Import ListNotations.
Open Scope Z_scope.
Open Scope result_scope.

Import CellStoreScanner(row_of, scan_wants, scan_ok, clean_row, shown).

(** ** The interface of cell stores *)

(** [St] are finished stores, [W] stores being written, [Sc] their scanners; [E]
    is what the file system does with the calls for one new store.  The result of
    [cst_add] is that of [CellStore::add], whether it went well. *)
Class CellStoreOps (St W Sc E : Type) := {
  cst_filename : St -> list Z;
  cst_disk_usage : St -> Z;
  cst_compression_ratio : St -> f32;
  cst_split_row : St -> list Z;
  cst_timestamp : St -> Timestamp;
  cst_create_scanner : St -> bounds -> bool -> result Sc;
  cst_create : E -> list Z -> Z -> option W;
  cst_add : cell -> W -> result (bool * W);
  cst_finalize : Timestamp -> W -> result (option St);
  cst_reopen : St -> list Z -> list Z -> result (option St) }.

Fixpoint add_cells {St W Sc E} {OP : CellStoreOps St W Sc E} (cells : list cell) (w : W) : result W :=
  match cells with
  | [] => Ok w
  | c :: cells => '(_, w) <- cst_add c w ;; add_cells cells w
  end.

(** A store has the cells of its file and shows those of its range of rows. *)
Class CellStoreSpec {St W Sc E} (OP : CellStoreOps St W Sc E) {CS : CellListScanner Sc} := {
  cst_cells : St -> list cell;
  cst_start : St -> list Z;
  cst_end : St -> list Z;
  cst_valid : St -> Prop;
  cst_fine : E -> Prop;
  cst_wname : W -> list Z;
  cst_create_name e name bsize w : cst_create e name bsize = Some w -> cst_wname w = name;
  cst_add_name c w b w' : cst_add c w = Ok (b, w') -> cst_wname w' = cst_wname w;
  cst_finalize_name ts w st : cst_finalize ts w = Ok (Some st) -> cst_filename st = cst_wname w;
  cst_cells_ok st : cst_valid st ->
    Forall CellStore.good_cell (cst_cells st) /\ StronglySorted cell_lt (cst_cells st);
  cst_scanner_ok st b single : cst_valid st ->
    scan_ok (cst_start st) (cst_end st) (start_row b) (end_row b) (cst_cells st) ->
    exists s, cst_create_scanner st b single = Ok s /\ sc_inv s /\
      sc_cells s = filter (scan_wants (cst_start st) (cst_end st) (start_row b) (end_row b) (family_mask b)) (cst_cells st);
  cst_write_ok e name bsize cells ts : cst_fine e -> in_range 32 bsize -> ok_Timestamp ts ->
    Forall CellStore.good_cell cells -> StronglySorted cell_lt cells -> weight cells < 2 ^ 32 ->
    exists w w' st, cst_create e name bsize = Some w /\ add_cells cells w = Ok w' /\ cst_finalize ts w' = Ok (Some st) /\
      cst_valid st /\ cst_cells st = cells /\ cst_start st = [] /\ cst_end st = END_ROW_MARKER /\ cst_filename st = name;
  cst_reopen_ok st start end_ : cst_valid st -> wf_bytes end_ -> bytes_lt start end_ ->
    bytes_lt (row_bound start) (chunk_key (cst_cells st)) ->
    exists st', cst_reopen st start end_ = Ok (Some st') /\ cst_valid st' /\ cst_cells st' = cst_cells st /\
      cst_start st' = start /\ cst_end st' = end_ /\ cst_filename st' = cst_filename st }.

Module AccessGroup.

(** ** Sets of files *)

(** [std::set<String>] as a sorted list, [hash_map<String, uint32_t>] as an
    association list. *)
Fixpoint set_insert (f : list Z) (l : list (list Z)) : list (list Z) :=
  match l with
  | [] => [f]
  | g :: l' => match bytes_cmp f g with Lt => f :: l | Eq => l | Gt => g :: set_insert f l' end
  end.
Definition set_erase (f : list Z) (l : list (list Z)) : list (list Z) := filter (fun g => negb (bytes_eqb g f)) l.
Definition set_count (f : list Z) (l : list (list Z)) : bool := existsb (bytes_eqb f) l.

Definition FileRefCountMap := list (list Z * Z).

Definition ref_of (f : list Z) (m : FileRefCountMap) : option Z :=
  option_map snd (find (fun e => bytes_eqb (fst e) f) m).

(** [increment_file_refcount], [decrement_file_refcount]: the flag says that it
    was the last reference. *)
Fixpoint increment_file_refcount (f : list Z) (m : FileRefCountMap) : FileRefCountMap :=
  match m with
  | [] => [(f, 1)]
  | (g, n) :: m' => if bytes_eqb g f then (g, u32 (n + 1)) :: m' else (g, n) :: increment_file_refcount f m'
  end.

Definition decrement_file_refcount (f : list Z) (m : FileRefCountMap) : result (bool * FileRefCountMap) :=
  match ref_of f m with
  | None => Throw FAILED_EXPECTATION
  | Some n =>
      if u32 (n - 1) =? 0 then Ok (true, filter (fun e => negb (bytes_eqb (fst e) f)) m)
      else Ok (false, map (fun e => if bytes_eqb (fst e) f then (fst e, u32 (n - 1)) else e) m)
  end.

(** ** Single precision *)

Definition f32_mul : f32 -> f32 -> f32 := SFmul 24 128.
Definition f32_one : f32 := f32_of 1.

Section Code.

Context {St W Sc E : Type} {OP : CellStoreOps St W Sc E} {CS : CellListScanner Sc}.
Context {Q : PriorityQueue (ScannerState (cached + Sc)) ss_key}.

(** Of [Global] and the platform: the limits on the number of files, the size of
    a map entry, and the hash of a row, [md5_string] cut to 24 characters. *)
Record Globals := {
  access_group_max_files : Z; access_group_merge_files : Z; g_node : Z; g_hash : list Z -> list Z }.

(** Members that do not change. *)
Record group := {
  g_table_name : list Z; g_name : list Z; g_end_row : list Z; m_column_families : list Z;
  m_blocksize : Z; m_in_memory : bool }.

(** Counters and flags. *)
Record numbers := {
  m_next_table_id : Z; m_disk_usage : Z; m_compression_ratio : f32; m_compaction_timestamp : Timestamp;
  m_oldest_cached_timestamp : Z; m_collisions : Z; m_needs_compaction : bool; m_scanners_blocked : bool }.

(** Which files are in use; [x_column] is the text of the [Files] column. *)
Record file_sets := {
  m_gc_locked_files : list (list Z); m_live_files : list (list Z); m_file_refcounts : FileRefCountMap;
  x_column : list Z }.

Record t := {
  ag : group; m_start_row : list Z; m_stores : list St; m_cell_cache : CellCache; nums : numbers; files : file_sets }.

Definition make (g : group) (start_row : list Z) : t :=
  {| ag := g; m_start_row := start_row; m_stores := []; m_cell_cache := CellCache.make;
     nums := {| m_next_table_id := 0; m_disk_usage := 0; m_compression_ratio := f32_one;
                m_compaction_timestamp := {| logical := 0; real := 0 |}; m_oldest_cached_timestamp := 0;
                m_collisions := 0; m_needs_compaction := false; m_scanners_blocked := false |};
     files := {| m_gc_locked_files := []; m_live_files := []; m_file_refcounts := []; x_column := [] |} |}.

Definition with_cache (c : CellCache) (a : t) : t :=
  {| ag := ag a; m_start_row := m_start_row a; m_stores := m_stores a; m_cell_cache := c; nums := nums a; files := files a |}.
Definition with_stores (l : list St) (a : t) : t :=
  {| ag := ag a; m_start_row := m_start_row a; m_stores := l; m_cell_cache := m_cell_cache a; nums := nums a; files := files a |}.
Definition with_nums (n : numbers) (a : t) : t :=
  {| ag := ag a; m_start_row := m_start_row a; m_stores := m_stores a; m_cell_cache := m_cell_cache a; nums := n; files := files a |}.
Definition with_files (f : file_sets) (a : t) : t :=
  {| ag := ag a; m_start_row := m_start_row a; m_stores := m_stores a; m_cell_cache := m_cell_cache a; nums := nums a; files := f |}.
Definition with_start (r : list Z) (a : t) : t :=
  {| ag := ag a; m_start_row := r; m_stores := m_stores a; m_cell_cache := m_cell_cache a; nums := nums a; files := files a |}.

Definition set_oldest (ts : Z) (n : numbers) : numbers :=
  {| m_next_table_id := m_next_table_id n; m_disk_usage := m_disk_usage n; m_compression_ratio := m_compression_ratio n;
     m_compaction_timestamp := m_compaction_timestamp n; m_oldest_cached_timestamp := ts;
     m_collisions := m_collisions n; m_needs_compaction := m_needs_compaction n; m_scanners_blocked := m_scanners_blocked n |}.
Definition set_needs (b : bool) (n : numbers) : numbers :=
  {| m_next_table_id := m_next_table_id n; m_disk_usage := m_disk_usage n; m_compression_ratio := m_compression_ratio n;
     m_compaction_timestamp := m_compaction_timestamp n; m_oldest_cached_timestamp := m_oldest_cached_timestamp n;
     m_collisions := m_collisions n; m_needs_compaction := b; m_scanners_blocked := m_scanners_blocked n |}.
Definition set_next_id (i : Z) (n : numbers) : numbers :=
  {| m_next_table_id := i; m_disk_usage := m_disk_usage n; m_compression_ratio := m_compression_ratio n;
     m_compaction_timestamp := m_compaction_timestamp n; m_oldest_cached_timestamp := m_oldest_cached_timestamp n;
     m_collisions := m_collisions n; m_needs_compaction := m_needs_compaction n; m_scanners_blocked := m_scanners_blocked n |}.
Definition set_blocked (b : bool) (n : numbers) : numbers :=
  {| m_next_table_id := m_next_table_id n; m_disk_usage := m_disk_usage n; m_compression_ratio := m_compression_ratio n;
     m_compaction_timestamp := m_compaction_timestamp n; m_oldest_cached_timestamp := m_oldest_cached_timestamp n;
     m_collisions := m_collisions n; m_needs_compaction := m_needs_compaction n; m_scanners_blocked := b |}.

(** ** Adding *)

(** [add]: the cache must be locked by the caller. *)
Definition add (c : cell) (real_timestamp : Z) (w : world) (a : t) : result (world * t) :=
  let a := if m_oldest_cached_timestamp (nums a) =? 0 then with_nums (set_oldest real_timestamp (nums a)) a else a in
  '(w, cache) <- CellCache.add (fst c) (snd c) w (m_cell_cache a) ;;
  Ok (w, with_cache cache a).

(** [replay_add]: updates that a compaction has written already are passed over. *)
Definition replay_add (c : cell) (real_timestamp : Z) (w : world) (a : t) : result (bool * world * t) :=
  if real (m_compaction_timestamp (nums a)) <? real_timestamp then
    '(w, a) <- add c real_timestamp w a ;; Ok (true, w, a)
  else Ok (false, w, a).

Fixpoint add_list (l : list (cell * Z)) (w : world) (a : t) : result (world * t) :=
  match l with
  | [] => Ok (w, a)
  | (c, ts) :: l => '(w, a) <- add c ts w a ;; add_list l w a
  end.

(** ** Scanning *)

(** The parameters a merge scanner takes from a scan context. *)
Definition row_limit_of (ctx : ScanContext) : Z := match spec ctx with None => 0 | Some s => row_limit s end.
Definition params_of (ctx : ScanContext) (everything : bool) : scan_params :=
  {| m_return_everything := everything; m_row_limit := row_limit_of ctx; m_start_timestamp := fst (interval ctx);
     m_end_timestamp := snd (interval ctx); family_info := sc_info ctx |}.
Definition single_row (ctx : ScanContext) : bool :=
  match spec ctx with None => false | Some s => row_limit s =? 1 end.

(** The scanners of the cell cache and of some of the stores. *)
Definition cache_scanner (b : bounds) (c : CellCache) : cached :=
  {| cc_map := m_cell_map c; cc_scan := CellCacheScanner_make (m_cell_map c) b |}.
Fixpoint store_scanners (b : bounds) (single : bool) (l : list St) : result (list (cached + Sc)) :=
  match l with
  | [] => Ok []
  | st :: l => s <- cst_create_scanner st b single ;; ss <- store_scanners b single l ;; Ok (inr s :: ss)
  end.

Fixpoint hold_files (l : list St) (refs : FileRefCountMap) : FileRefCountMap :=
  match l with
  | [] => refs
  | st :: l => hold_files l (increment_file_refcount (cst_filename st) refs)
  end.

(** [create_scanner]: the merge scanner, and the files its release callback will
    give back.  Nothing waits here: scanners are blocked only while the [Files]
    column is written. *)
Definition create_scanner (ctx : ScanContext) (a : t) : result (MergeScanner * list (list Z) * t) :=
  let cs := inl (cache_scanner (sc_bounds ctx) (m_cell_cache a)) in
  if m_in_memory (ag a) then Ok (MergeScanner_make (params_of ctx true) [cs], [], a)
  else
    ss <- store_scanners (sc_bounds ctx) (single_row ctx) (m_stores a) ;;
    Ok (MergeScanner_make (params_of ctx true) (cs :: ss), map cst_filename (m_stores a),
        with_files {| m_gc_locked_files := m_gc_locked_files (files a); m_live_files := m_live_files (files a);
                      m_file_refcounts := hold_files (m_stores a) (m_file_refcounts (files a));
                      x_column := x_column (files a) |} a).

Definition include_in_scan (ctx : ScanContext) (a : t) : bool :=
  existsb (family_mask (sc_bounds ctx)) (m_column_families (ag a)).

(** ** Rows to split at, sizes *)

Definition get_split_rows (include_cache : bool) (rows : list (list Z)) (a : t) : result (list (list Z)) :=
  let rows := rows ++ filter nonempty (map cst_split_row (m_stores a)) in
  if include_cache then CellCache.get_split_rows (m_cell_cache a) rows else Ok rows.
Definition get_cached_rows (rows : list (list Z)) (a : t) : result (list (list Z)) :=
  CellCache.get_rows (m_cell_cache a) rows.

Definition cached_size (g : Globals) (a : t) : Z :=
  f32_trunc (f32_mul (m_compression_ratio (nums a)) (f32_of (CellCache.memory_used (g_node g) (m_cell_cache a)))).
Definition disk_usage (g : Globals) (a : t) : Z :=
  u64 ((if m_in_memory (ag a) then 0 else m_disk_usage (nums a)) + cached_size g a).
Definition memory_usage (g : Globals) (a : t) : Z := CellCache.memory_used (g_node g) (m_cell_cache a).

Record CompactionPriorityData := {
  pd_oldest_cached_timestamp : Z; pd_mem_used : Z; pd_disk_used : Z; pd_deletes : Z; pd_in_memory : bool }.
Definition get_compaction_priority_data (g : Globals) (a : t) : CompactionPriorityData :=
  {| pd_oldest_cached_timestamp := m_oldest_cached_timestamp (nums a);
     pd_mem_used := CellCache.memory_used (g_node g) (m_cell_cache a);
     pd_disk_used := u64 (m_disk_usage (nums a) + cached_size g a);
     pd_deletes := get_delete_count (m_cell_cache a); pd_in_memory := m_in_memory (ag a) |}.

(** ** The [Files] column *)

Definition semicolon_newline : list Z := [59; 10].
Definition get_files (a : t) : list Z := concat (map (fun st => cst_filename st ++ semicolon_newline) (m_stores a)).
Definition files_text (a : t) : list Z :=
  get_files a ++ concat (map (fun f => 35 :: f ++ semicolon_newline) (m_gc_locked_files (files a))).

(** [update_files_column]; a failure is logged and nothing else. *)
Definition update_files_column (written : bool) (a : t) : t :=
  if written then
    with_files {| m_gc_locked_files := m_gc_locked_files (files a); m_live_files := m_live_files (files a);
                  m_file_refcounts := m_file_refcounts (files a); x_column := files_text a |} a
  else a.

Fixpoint release_loop (l : list (list Z)) (f : file_sets) : result (bool * file_sets) :=
  match l with
  | [] => Ok (false, f)
  | x :: l =>
      '(gone, refs) <- decrement_file_refcount x (m_file_refcounts f) ;;
      let unlock := gone && set_count x (m_gc_locked_files f) in
      '(need, f) <- release_loop l
         {| m_gc_locked_files := if unlock then set_erase x (m_gc_locked_files f) else m_gc_locked_files f;
            m_live_files := m_live_files f; m_file_refcounts := refs; x_column := x_column f |} ;;
      Ok (unlock || need, f)
  end.

Definition release_files (written : bool) (l : list (list Z)) (a : t) : result t :=
  '(need, f) <- release_loop l (files a) ;;
  let a := with_files f a in
  Ok (if need : bool then update_files_column written a else a).

(** ** Compaction *)

(** [sort] with [LtCellStore], which puts the larger stores first. *)
Fixpoint insert_store (st : St) (l : list St) : list St :=
  match l with
  | [] => [st]
  | x :: l' => if cst_disk_usage x <? cst_disk_usage st then st :: l else x :: insert_store st l'
  end.
Definition sort_stores (l : list St) : list St := fold_right insert_store [] l.

(** What kind of compaction, if any: [tableidx] is the first store that takes
    part; [size_t] arithmetic. *)
Definition plan (g : Globals) (major : bool) (a : t) : t * option Z :=
  if negb major && negb (m_needs_compaction (nums a)) then (a, None)
  else
    let a := with_nums (set_needs false (nums a)) a in
    let mem := CellCache.memory_used (g_node g) (m_cell_cache a) in
    let n := zlen (m_stores a) in
    if m_in_memory (ag a) then (a, if mem =? 0 then None else Some n)
    else if major then (a, if (mem =? 0) && (n <=? 1) then None else Some 0)
    else if u64 (access_group_max_files g) <? n
    then (with_stores (sort_stores (m_stores a)) a, Some (u64 (n - access_group_merge_files g)))
    else (a, if mem =? 0 then None else Some n).

(** ["/hypertable/tables/%s/%s/%s/cs%d"] *)
Definition tables_dir : list Z := [47; 104; 121; 112; 101; 114; 116; 97; 98; 108; 101; 47; 116; 97; 98; 108; 101; 115; 47].
Definition cs_file (g : Globals) (a : t) : list Z :=
  tables_dir ++ g_table_name (ag a) ++ [47] ++ g_name (ag a) ++ [47] ++
  (if nonempty (g_end_row (ag a)) then g_hash g (g_end_row (ag a)) else repeat 48 24) ++
  [47; 99; 115] ++ decimal (i32 (m_next_table_id (nums a))).

(** [while (scanner->get(key, value)) { ...; scanner->forward(); }] *)
Fixpoint read_out {S} `{CellListScanner S} (fuel : nat) (s : S) : result (list cell) :=
  match fuel with
  | O => Fault
  | Datatypes.S fuel =>
      match sc_get s with
      | (None, _) => Ok []
      | (Some c, s') => l <- read_out fuel (sc_forward s') ;; Ok (c :: l)
      end
  end.

(** The cells that the scanner of the compaction gives. *)
Definition compaction_cells (fuel : nat) (ctx : ScanContext) (major : bool) (tableidx : Z) (a : t) : result (list cell) :=
  let cs := cache_scanner (sc_bounds ctx) (m_cell_cache a) in
  if m_in_memory (ag a)
  then read_out (H := merge_scanner) fuel (MergeScanner_make (params_of ctx false) [inl cs])
  else if major || (tableidx <? zlen (m_stores a)) then
    ss <- store_scanners (sc_bounds ctx) (single_row ctx) (skipn (Z.to_nat tableidx) (m_stores a)) ;;
    read_out (H := merge_scanner) fuel (MergeScanner_make (params_of ctx (negb major)) (inl cs :: ss))
  else read_out fuel cs.

(** The loop over them; [None] when a key does not load. *)
Fixpoint compact_loop (ts : Z) (cells : list cell) (w : W) : result (option W) :=
  match cells with
  | [] => Ok (Some w)
  | c :: cells =>
      match parse_key (fst c) with
      | None => Ok None
      | Some k => if k_ts k <=? ts then '(_, w) <- cst_add c w ;; compact_loop ts cells w else compact_loop ts cells w
      end
  end.

(** Installing the new cell cache and the new store.  [shared]: scanners still
    refer to the old cache. *)
Definition file_set (l : list St) : list (list Z) := fold_left (fun s st => set_insert (cst_filename st) s) l [].
Definition in_use (live : list (list Z)) (refs : FileRefCountMap) : list (list Z) :=
  fold_left (fun s e => if set_count (fst e) live then s else set_insert (fst e) s) refs [].

Definition new_cache (ts : Timestamp) (w : world) (a : t) : world * CellCache * CellCache :=
  if m_in_memory (ag a) then purge_deletes (w_next w) w (m_cell_cache a)
  else slice_copy (logical ts) (w_next w) w (m_cell_cache a).

(** The stores and live files afterwards. *)
Definition remaining (tableidx : Z) (a : t) : list St * list (list Z) :=
  let '(l, live) :=
    if tableidx <? zlen (m_stores a)
    then let l := firstn (Z.to_nat tableidx) (m_stores a) in (l, file_set l)
    else (m_stores a, m_live_files (files a)) in
  if m_in_memory (ag a) then ([], []) else (l, live).

Definition install (ts : Timestamp) (tableidx : Z) (st : St) (shared : bool) (w : world) (a : t) : result (world * t) :=
  let collisions := u64 (m_collisions (nums a) + get_collision_count (m_cell_cache a)) in
  let '(w, parent, child) := new_cache ts w a in
  w <- (if shared then Ok w else destroy w parent) ;;
  let '(l, live) := remaining tableidx a in
  let l := l ++ [st] in
  let live := set_insert (cst_filename st) live in
  Ok (w, {| ag := ag a; m_start_row := m_start_row a; m_stores := l; m_cell_cache := child;
            nums := {| m_next_table_id := m_next_table_id (nums a);
                       m_disk_usage := u64 (fold_left (fun n s => n + cst_disk_usage s) l 0);
                       m_compression_ratio :=
                         f32_div (fold_left (fun r s => f32_add r (cst_compression_ratio s)) l f32_zero) (f32_of (zlen l));
                       m_compaction_timestamp := ts;
                       m_oldest_cached_timestamp := if 0 <? CellCache.size child then i64 (real ts + 1) else 0;
                       m_collisions := collisions; m_needs_compaction := m_needs_compaction (nums a);
                       m_scanners_blocked := true |};
            files := {| m_gc_locked_files := in_use live (m_file_refcounts (files a)); m_live_files := live;
                        m_file_refcounts := m_file_refcounts (files a); x_column := x_column (files a) |} |}).

(** [run_compaction]; [arrivals] are added by other threads meanwhile, [written]
    says whether METADATA took the new [Files] column. *)
Definition run_compaction (g : Globals) (sch : Schema.Schema) (fuel : nat) (e : E) (arrivals : list (cell * Z))
    (shared written : bool) (ts : Timestamp) (major : bool) (w : world) (a : t) : result (world * t) :=
  match plan g major a with
  | (a, None) => Ok (w, a)
  | (a, Some tableidx) =>
      let name := cs_file g a in
      let a := with_nums (set_next_id (u32 (m_next_table_id (nums a) + 1)) (nums a)) a in
      match cst_create e name (m_blocksize (ag a)) with
      | None => Ok (w, a)
      | Some wr =>
          ctx <- fst (ScanContext_initialize (i64 (logical ts + 1)) None (Some sch)) ;;
          cells <- compaction_cells fuel ctx major tableidx a ;;
          o <- compact_loop (logical ts) cells wr ;;
          match o with
          | None => Ok (w, a)
          | Some wr =>
              s <- cst_finalize ts wr ;;
              match s with
              | None => Ok (w, a)
              | Some st =>
                  '(w, a) <- add_list arrivals w a ;;
                  '(w, a) <- install ts tableidx st shared w a ;;
                  let a := update_files_column written a in
                  Ok (w, with_nums (set_blocked false (nums a)) a)
              end
          end
      end
  end.

(** ** Loading and shrinking *)

Definition newer_timestamp (a b : Timestamp) : Timestamp :=
  if logical a =? 0 then b else if real a <? real b then b else a.

Fixpoint fill_cache (cells : list cell) (w : world) (c : CellCache) : result (world * CellCache) :=
  match cells with
  | [] => Ok (w, c)
  | x :: cells => '(w, c) <- CellCache.add (fst x) (snd x) w c ;; fill_cache cells w c
  end.

(** [add_cell_store]: a group that is kept in memory reads the store into a new
    cell cache; an older store than one it has seen is left out. *)
Definition add_cell_store (sch : Schema.Schema) (fuel : nat) (shared : bool) (st : St) (id : Z) (w : world) (a : t)
  : result (world * t) :=
  let next := if m_next_table_id (nums a) <=? id then u32 (id + 1) else m_next_table_id (nums a) in
  if (id <? m_next_table_id (nums a)) && m_in_memory (ag a) then Ok (w, a)
  else
    let a := with_nums
      {| m_next_table_id := next; m_disk_usage := u64 (m_disk_usage (nums a) + cst_disk_usage st);
         m_compression_ratio := cst_compression_ratio st;
         m_compaction_timestamp := newer_timestamp (m_compaction_timestamp (nums a)) (cst_timestamp st);
         m_oldest_cached_timestamp := m_oldest_cached_timestamp (nums a); m_collisions := m_collisions (nums a);
         m_needs_compaction := m_needs_compaction (nums a); m_scanners_blocked := m_scanners_blocked (nums a) |} a in
    if m_in_memory (ag a) then
      ctx <- fst (ScanContext_initialize END_OF_TIME None (Some sch)) ;;
      s <- cst_create_scanner st (sc_bounds ctx) (single_row ctx) ;;
      cells <- read_out fuel s ;;
      '(w, c) <- fill_cache cells w CellCache.make ;;
      w <- (if shared then Ok w else destroy w (m_cell_cache a)) ;;
      Ok (w, with_stores (m_stores a ++ [st]) (with_cache c a))
    else Ok (w, with_stores (m_stores a ++ [st]) a).

(** [shrink]: the cells behind the new start row go to a new cache; the stores are
    opened again.  The flag is false when one of them cannot be, with the other
    changes made. *)
Definition behind_row (r : list Z) (c : cell) : bool := bytes_ltb r (row_of c).

Fixpoint reopen_all (l : list St) (start end_ : list Z) : result (option (list St)) :=
  match l with
  | [] => Ok (Some [])
  | st :: l =>
      o <- cst_reopen st start end_ ;;
      match o with
      | None => Ok None
      | Some st => o <- reopen_all l start end_ ;; Ok (option_map (cons st) o)
      end
  end.

Definition shrink (sch : Schema.Schema) (fuel : nat) (shared : bool) (new_start_row : list Z) (w : world) (a : t)
  : result (bool * world * t) :=
  ctx <- fst (ScanContext_initialize END_OF_TIME None (Some sch)) ;;
  let old := m_cell_cache a in
  let a := with_cache CellCache.make (with_start new_start_row a) in
  cells <- read_out fuel (cache_scanner (sc_bounds ctx) old) ;;
  let kept := filter (behind_row new_start_row) cells in
  '(w, a) <- add_list (map (fun c => (c, 0)) kept) w a ;;
  let w := track (fun s => MemoryTracker.add_items (zlen kept)
             (MemoryTracker.add_memory (fold_left (fun n c => n + (byte_len (fst c) + byte_len (snd c))) kept 0) s)) w in
  o <- reopen_all (m_stores a) new_start_row (g_end_row (ag a)) ;;
  w <- (if shared then Ok w else destroy w old) ;;
  Ok (match o with
      | None => (false, w, a)
      | Some l => (true, w, with_stores l a)
      end).

End Code.

(** ** What a group holds *)

Section Correct.

Context {St W Sc E : Type} {OP : CellStoreOps St W Sc E} {CS : CellListScanner Sc} {SP : CellStoreSpec OP}.
Context {Q : PriorityQueue (ScannerState (cached + Sc)) ss_key}.

Definition in_store (st : St) (c : cell) : bool :=
  bytes_ltb (cst_start st) (row_of c) && bytes_leb (row_of c) (cst_end st).
Definition store_view (st : St) : list cell := filter (in_store st) (cst_cells st).
Definition cached_cells (a : t) : list cell := map cell_of (m_cell_map (@m_cell_cache St a)).
Definition all_cells (a : t) : list cell :=
  cached_cells a ++ (if m_in_memory (ag a) then [] else flat_map store_view (m_stores a)).

Definition in_scan (b : bounds) (c : cell) : bool :=
  bytes_leb (start_row b) (row_of c) && bytes_ltb (row_of c) (end_row b) && shown (family_mask b) (fst c).

(** Cells whose keys are packed components with a row, of sizes that can be
    written. *)
Definition cell_ok (c : cell) : Prop := MergeScanner.good_cell c /\ small_cell c /\ row_of c <> [].

Record wf (w : world) (a : t) : Prop := {
  wf_cache : CellCache.wf w (m_cell_cache a);
  wf_cached : Forall cell_ok (cached_cells a);
  wf_stores : Forall cst_valid (m_stores a);
  wf_stored : Forall (fun st => Forall cell_ok (cst_cells st)) (m_stores a) }.

(** Bounds that are rows, in order. *)
Record bounds_ok (b : bounds) : Prop := {
  bo_start : clean_row (start_row b); bo_end : clean_row (end_row b);
  bo_order : bytes_leb (start_row b) (end_row b) = true }.

Lemma row_of_pack k v : wf_comps k -> row_of (pack k, v) = k_row k.
Proof.
  intros (Hr & _). unfold row_of, pack. cbn [fst]. rewrite write_key_shape. clear -Hr. induction Hr as [|b r Hb Hr IH]; [reflexivity|].
  cbn [app until_nul]. rewrite (proj2 (Z.eqb_neq b 0)) by assumption. now rewrite IH.
Qed.

Lemma cell_ok_good c : cell_ok c -> CellStore.good_cell c.
Proof.
  intros ((k & Wk & Ek) & Hs & _). split; [assumption|]. rewrite Ek. unfold pack. rewrite write_key_shape. apply in_or_app. right. now left.
Qed.

(** The bounds of a scanner of the cell cache, on rows. *)
Lemma bounds_rows b e : bounds_ok b -> MergeScanner.good_cell (cell_of e) ->
  in_bounds b e && wanted (family_mask b) e = in_scan b (cell_of e).
Proof.
  intros [Hs He _] (k & Wk & Ek). unfold cell_of in *. cbn [fst] in Ek. unfold in_bounds, in_scan, wanted, shown. cbn [fst].
  rewrite Ek, row_of_pack, parse_pack by assumption. f_equal. unfold bytes_leb, bytes_ltb. rewrite (bytes_cmp_antisym (row_bound (end_row b)) (pack k)).
  rewrite !bound_row by assumption. rewrite (bytes_cmp_antisym (end_row b) (k_row k)).
  destruct (bytes_cmp (start_row b) (k_row k)), (bytes_cmp (end_row b) (k_row k)); reflexivity.
Qed.

Lemma filter_map_comm {A B} (f : B -> bool) (g : A -> bool) (h : A -> B) l : (forall x, In x l -> g x = f (h x)) ->
  map h (filter g l) = filter f (map h l).
Proof.
  induction l as [|x l IH]; intros Hf; [reflexivity|]. cbn [filter map]. rewrite <- (Hf x) by now left.
  destruct (g x); cbn [map]; now rewrite IH by (intros y Hy; apply Hf; now right).
Qed.

Lemma cache_scanner_ok w c b : CellCache.wf w c -> Forall cell_ok (map cell_of (m_cell_map c)) -> bounds_ok b ->
  sc_inv (cache_scanner b c) /\ sc_cells (cache_scanner b c) = filter (in_scan b) (map cell_of (m_cell_map c)).
Proof.
  intros Wc Hok Hb. pose proof (wf_sorted _ _ Wc) as Hm. split.
  - split; [exact Hm|]. cbn [cache_scanner cc_scan cc_map CellCacheScanner_make cs_cur].
    assert (Hsuf : exists P, m_cell_map c = P ++ lower_bound (row_bound (start_row b)) (m_cell_map c)).
    { unfold lower_bound. generalize (m_cell_map c). clear. intros l. induction l as [|e m [P IH]]; [now exists []|]. cbn [drop_while].
      destruct (bytes_ltb (e_key e) _); [exists (e :: P); cbn; now f_equal|now exists []]. }
    destruct Hsuf as [P HP]. pose proof (seek_spec (family_mask b) (iter_of (lower_bound (row_bound (end_row b)) (m_cell_map c))) _ Hm _ P HP) as Hk.
    destruct (seek _ _ _) as [e|]; [right; exists e; tauto|now left].
  - change (map cell_of (cs_remaining (m_cell_map c) (CellCacheScanner_make (m_cell_map c) b)) = filter (in_scan b) (map cell_of (m_cell_map c))).
    rewrite scanner_starts; [|assumption|apply Hb|apply Hb]. apply filter_map_comm. intros e He. apply bounds_rows; [assumption|].
    rewrite Forall_forall in Hok. apply Hok. now apply in_map.
Qed.

Lemma sorted_filter {A} (R : A -> A -> Prop) f l : StronglySorted R l -> StronglySorted R (filter f l).
Proof.
  induction 1 as [|x l Hl IH Hx]; cbn [filter]; [constructor|]. destruct (f x); [|assumption]. constructor; [assumption|].
  apply Forall_forall. intros y Hy. apply filter_In in Hy as [Hy _]. rewrite Forall_forall in Hx. auto.
Qed.

Lemma sorted_weaken {A} (R R' : A -> A -> Prop) l : (forall x y, R x y -> R' x y) -> StronglySorted R l -> StronglySorted R' l.
Proof. intros H. induction 1 as [|x l Hl IH Hx]; constructor; [assumption|]. eapply Forall_impl; [|exact Hx]. auto. Qed.

Lemma lt_le c d : cell_lt c d -> cell_le c d.
Proof. unfold cell_lt, cell_le, bytes_lt. congruence. Qed.

Lemma cached_sorted m : sorted_map m -> StronglySorted cell_lt (map cell_of m).
Proof.
  induction 1 as [|e m Hm IH He]; cbn [map]; constructor; [assumption|]. apply Forall_map. eapply Forall_impl; [|exact He]. auto.
Qed.

Lemma Forall_filter {A} (P : A -> Prop) f l : Forall P l -> Forall P (filter f l).
Proof. intros H. rewrite Forall_forall in *. intros x Hx. apply filter_In in Hx as [Hx _]. auto. Qed.

Lemma filter_flat_map {A B} (f : B -> bool) (g : A -> list B) l : filter f (flat_map g l) = flat_map (fun x => filter f (g x)) l.
Proof. induction l as [|x l IH]; [reflexivity|]. cbn [flat_map]. now rewrite filter_app, IH. Qed.

Lemma filter_filter {A} (f g : A -> bool) l : filter f (filter g l) = filter (fun x => g x && f x) l.
Proof. induction l as [|x l IH]; [reflexivity|]. cbn [filter]. destruct (g x); cbn [filter andb]; now rewrite IH. Qed.

(** What the scan of the stores needs of their rows. *)
Definition stores_ok (b : bounds) (l : list St) : Prop :=
  Forall (fun st => scan_ok (cst_start st) (cst_end st) (start_row b) (end_row b) (cst_cells st)) l.

Lemma store_scanners_ok b single l : Forall cst_valid l -> stores_ok b l ->
  exists ss, store_scanners b single l = Ok ss /\ Forall sc_inv ss /\
    Forall (fun s => StronglySorted cell_le (sc_cells s)) ss /\
    concat (map sc_cells ss) = filter (in_scan b) (flat_map store_view l).
Proof.
  induction l as [|st l IH]; intros Hv Hs; cbn [store_scanners].
  - exists []. repeat split; constructor.
  - pose proof (Forall_inv Hv) as Hv1. pose proof (Forall_inv Hs) as Hs1.
    destruct (IH (Forall_inv_tail Hv) (Forall_inv_tail Hs)) as (ss & Es & Hi & Hso & Hc).
    destruct (cst_scanner_ok st b single Hv1 Hs1) as (s & -> & Hi1 & Hc1). cbn [bind]. rewrite Es. cbn [bind].
    exists (inr s :: ss). split; [reflexivity|]. split; [now constructor|]. split.
    + constructor; [|assumption]. change (StronglySorted cell_le (sc_cells s)). rewrite Hc1. apply sorted_filter.
      eapply sorted_weaken; [exact lt_le|]. now apply cst_cells_ok.
    + cbn [map concat flat_map]. rewrite filter_app, Hc. f_equal. change (sc_cells s = filter (in_scan b) (store_view st)).
      rewrite Hc1. unfold store_view. rewrite filter_filter. apply filter_ext. intros c. unfold scan_wants, in_store, in_scan.
      now rewrite !andb_assoc.
Qed.

Lemma view_ok l : Forall (fun st => Forall cell_ok (cst_cells st)) l -> Forall cell_ok (flat_map store_view l).
Proof.
  induction 1 as [|st l Hst Hl IH]; [constructor|]. cbn [flat_map]. apply Forall_app. split; [|assumption]. now apply Forall_filter.
Qed.

Lemma ok_good l : Forall cell_ok l -> Forall MergeScanner.good_cell l.
Proof. apply Forall_impl. now intros c []. Qed.

(** The cell cache and some stores. *)
Lemma scanners_ok w a b single l : wf w a -> incl l (m_stores a) -> bounds_ok b -> stores_ok b l ->
  exists ss, store_scanners b single l = Ok ss /\
    let all := inl (cache_scanner b (m_cell_cache a)) :: ss in
    Forall sc_inv all /\ Forall (fun s => StronglySorted cell_le (sc_cells s)) all /\
    concat (map sc_cells all) = filter (in_scan b) (cached_cells a ++ flat_map store_view l) /\
    Forall MergeScanner.good_cell (concat (map sc_cells all)).
Proof.
  intros [Wc Hc Hv Hs] Hl Hb Ho. rewrite Forall_forall in Hv, Hs.
  destruct (store_scanners_ok b single l) as (ss & Es & Hi & Hso & Hcc); [apply Forall_forall; auto|assumption|].
  destruct (cache_scanner_ok w (m_cell_cache a) b Wc Hc Hb) as [Hi1 Hc1]. exists ss. split; [assumption|]. cbn zeta.
  assert (Ec : concat (map sc_cells (inl (cache_scanner b (m_cell_cache a)) :: ss)) =
               filter (in_scan b) (cached_cells a ++ flat_map store_view l)).
  { cbn [map concat]. rewrite Hcc, filter_app. f_equal. exact Hc1. }
  split; [now constructor|]. split; [|split; [exact Ec|]].
  - constructor; [|assumption]. change (StronglySorted cell_le (sc_cells (cache_scanner b (m_cell_cache a)))). rewrite Hc1.
    apply sorted_filter. eapply sorted_weaken; [exact lt_le|]. apply cached_sorted, Wc.
  - rewrite Ec. apply ok_good, Forall_filter, Forall_app. split; [assumption|]. apply view_ok, Forall_forall. auto.
Qed.

(** What a client of [create_scanner] reads: all the cells between the bounds, in
    key order; the group stays as it is but for the references to files. *)
Lemma create_scanner_ok w a ctx : wf w a -> bounds_ok (sc_bounds ctx) ->
  (m_in_memory (ag a) = false -> stores_ok (sc_bounds ctx) (m_stores a)) ->
  exists ms names fs, create_scanner ctx a = Ok (ms, names, with_files fs a) /\ ms_inv ms /\
    exists l, Permutation l (filter (in_scan (sc_bounds ctx)) (all_cells a)) /\ StronglySorted cell_le l /\
      Forall MergeScanner.good_cell l /\ ms_cells ms = l.
Proof.
  intros Wa Hb Ho. unfold create_scanner, all_cells. destruct (m_in_memory (ag a)) eqn:Em.
  - destruct (scanners_ok w a (sc_bounds ctx) false [] Wa) as (ss & Es & Hi & Hs & Hc & Hg); [intros x []|assumption|constructor|].
    injection Es as <-. cbn [flat_map] in Hc. do 3 eexists. split; [|split].
    + do 3 f_equal. instantiate (1 := files a). now destruct a.
    + now apply made_scanner.
    + destruct (made_scanner (params_of ctx true) _ Hi Hs Hg) as (_ & l & Hp & Hl & Hgl & He & _). exists l.
      split; [now rewrite Hp, Hc|]. auto.
  - destruct (scanners_ok w a (sc_bounds ctx) (single_row ctx) (m_stores a) Wa) as (ss & Es & Hi & Hs & Hc & Hg);
      [apply incl_refl|assumption|now apply Ho|]. rewrite Es. cbn [bind]. do 3 eexists. split; [reflexivity|].
    split; [now apply made_scanner|].
    destruct (made_scanner (params_of ctx true) _ Hi Hs Hg) as (_ & l & Hp & Hl & Hgl & He & _). exists l.
    split; [now rewrite Hp, Hc|]. auto.
Qed.

End Correct.
End AccessGroup.
