(* ===== verification/Compaction.v ===== *)
(** * What compactions keep

    Theorems on [AccessGroup::run_compaction] of AccessGroup.v, for any
    implementation of cell stores: minor and merging compactions keep every cell,
    also those that arrive meanwhile; after a major compaction, clients read what
    they read before. *)
From S2P Require Import Prelude Errors Serialization ByteString Key Deletes CellCache Scanner MergeScanner Selection.
From S2P Require Import Schema Wire ScanContext BlockCodec CellStore CellStoreScanner AccessGroup.
From Stdlib Require Import ZArith Lia List Bool Sorted Permutation.
Import ListNotations.
Open Scope Z_scope.
Open Scope result_scope.

Import CellStoreScanner(row_of, scan_wants, scan_ok, clean_row, shown).
Import AccessGroup.

Section Compaction.

Context {St W Sc E : Type} {OP : CellStoreOps St W Sc E} {CS : CellListScanner Sc} {SP : CellStoreSpec OP}.
Context {Q : PriorityQueue (ScannerState (cached + Sc)) ss_key}.

Implicit Types a : @t St.

(** ** Reading *)

Lemma read_out_cells {S} `{CellListScanner S} fuel : forall s, sc_inv s -> (length (sc_cells s) < fuel)%nat ->
  read_out fuel s = Ok (sc_cells s).
Proof.
  induction fuel as [|fuel IH]; intros s Hi Hf; [lia|]. cbn [read_out]. destruct (sc_get s) as [[c|] s'] eqn:Eg.
  - destruct (get_ready s c s' Hi Eg) as (Hi' & Eg' & Hc & Hh). destruct (sc_forward_spec s' c Hi' Eg') as [Hf' Hfi].
    rewrite IH; [|assumption|rewrite Hf', Hc, Hh in *; cbn [length tl] in *; lia]. cbn [bind]. now rewrite Hf', Hc, Hh.
  - destruct (sc_get_spec s Hi) as (H1 & _). rewrite Eg in H1. destruct (sc_cells s); [reflexivity|discriminate].
Qed.

(** The context of a compaction has no bounds. *)
Lemma open_context ts sch ctx : fst (ScanContext_initialize ts None (Some sch)) = Ok ctx ->
  spec ctx = None /\ start_row (sc_bounds ctx) = [] /\ end_row (sc_bounds ctx) = END_ROW_MARKER /\
  interval ctx = (0, if ts =? 0 then END_OF_TIME else ts).
Proof.
  unfold ScanContext_initialize. destruct (set_families ts None (Some sch)) as [[f|c|] sp]; cbn [fst set_bounds]; try discriminate.
  cbn [bind]. intros H. injection H as <-. auto.
Qed.

Lemma open_bounds ts sch ctx : fst (ScanContext_initialize ts None (Some sch)) = Ok ctx -> bounds_ok (sc_bounds ctx).
Proof.
  intros H. destruct (open_context _ _ _ H) as (_ & Hs & He & _). split; rewrite ?Hs, ?He; [split; constructor| |reflexivity].
  split; repeat constructor; unfold is_byte, in_range; lia.
Qed.

(** ** Adding *)

Lemma map_insert_fresh e m : ~ In (e_key e) (map e_key m) -> exists m', map_insert e m = Some m'.
Proof.
  induction m as [|x m IH]; intros H; cbn [map_insert]; [eauto|]. cbn [map In] in H.
  destruct (bytes_cmp (e_key e) (e_key x)) eqn:Ec; [|eauto|].
  - apply bytes_cmp_eq in Ec. destruct H. left. congruence.
  - destruct IH as (m' & ->); [tauto|]. cbn. eauto.
Qed.

(** Cells that can be put into a cell cache. *)
Definition addable (c : cell) : Prop := cell_ok c /\ byte_len (fst c) < 2 ^ 31.

(** What changes when cells are added. *)
Definition same_but_cache (a a' : @t St) : Prop :=
  ag a' = ag a /\ m_start_row a' = m_start_row a /\ m_stores a' = m_stores a /\ files a' = files a /\
  m_next_table_id (nums a') = m_next_table_id (nums a).

Lemma group_add_ok w a c ts : wf w a -> addable c -> ~ In (fst c) (map fst (cached_cells a)) ->
  exists w' a', add c ts w a = Ok (w', a') /\ wf w' a' /\ same_but_cache a a' /\
    Permutation (cached_cells a') (c :: cached_cells a).
Proof.
  intros [Wc Hc Hv Hs] [Hok Hb] Hf. unfold add. set (a1 := if _ =? 0 then _ else a).
  assert (E1 : m_cell_cache a1 = m_cell_cache a /\ same_but_cache a a1).
  { unfold a1, same_but_cache. destruct (_ =? 0); auto 10. }
  destruct E1 as [E1 E2]. rewrite E1. pose proof Hok as ((k & Wk & Ek) & [[_ Wb] _] & _).
  assert (Hp : parse_key (fst c) = Some k) by (rewrite Ek; now apply parse_pack).
  destruct (map_insert_fresh {| e_block := w_next w; e_key := fst c; e_value := snd c; e_off := u32 (byte_len (fst c)) |} (m_cell_map (m_cell_cache a))) as (m' & Em).
  { cbn [e_key]. unfold cached_cells in Hf. now rewrite map_map in Hf. }
  destruct (add_entry w (m_cell_cache a) (fst c) (snd c) k m' Wc Wb Hp Hb Em) as (w' & cc & -> & Wc' & Ecc & _). cbn [bind].
  assert (Pc : Permutation (map cell_of (m_cell_map cc)) (c :: cached_cells a)).
  { rewrite Ecc. pose proof (map_insert_some _ _ _ Em) as Pm. apply (Permutation_map cell_of) in Pm. cbn [map cell_of e_key e_value] in Pm.
    now destruct c. }
  exists w', (with_cache cc a1). split; [reflexivity|]. split; [|split; [exact E2|exact Pc]].
  destruct E2 as (_ & _ & E2 & _). split; [assumption| |now rewrite <- E2 in Hv|now rewrite <- E2 in Hs].
  unfold cached_cells. cbn [with_cache m_cell_cache]. rewrite Pc. now constructor.
Qed.

Lemma same_trans a b c : same_but_cache a b -> same_but_cache b c -> same_but_cache a c.
Proof. unfold same_but_cache. intuition congruence. Qed.

Lemma add_list_ok l : forall w a, wf w a -> Forall addable (map fst l) -> NoDup (map fst (map fst l ++ cached_cells a)) ->
  exists w' a', add_list l w a = Ok (w', a') /\ wf w' a' /\ same_but_cache a a' /\
    Permutation (cached_cells a') (map fst l ++ cached_cells a).
Proof.
  induction l as [|[c ts] l IH]; intros w a Wa Hl Hn; cbn [add_list map fst app] in *.
  - exists w, a. split; [reflexivity|]. split; [assumption|]. split; [repeat split|reflexivity].
  - inv Hn. destruct (group_add_ok w a c ts Wa (Forall_inv Hl)) as (w1 & a1 & -> & W1 & S1 & P1).
    { intros H. apply H1. rewrite map_app, in_app_iff. auto. }
    cbn [bind]. destruct (IH w1 a1 W1 (Forall_inv_tail Hl)) as (w2 & a2 & -> & W2 & S2 & P2).
    { eapply Permutation_NoDup; [|apply NoDup_cons; [exact H1|exact H2]]. rewrite <- map_cons. apply Permutation_map.
      rewrite P1. apply Permutation_middle. }
    exists w2, a2. split; [reflexivity|]. split; [assumption|]. split; [now apply (same_trans a a1)|].
    rewrite P2, P1. symmetry. apply Permutation_middle.
Qed.

(** ** Writing *)

(** Cells that are not newer than the compaction. *)
Definition old (ts : Z) (c : cell) : bool :=
  match parse_key (fst c) with Some k => k_ts k <=? ts | None => false end.

Lemma compact_loop_ok ts cells : Forall MergeScanner.good_cell cells -> forall w w',
  add_cells (filter (old ts) cells) w = Ok w' -> compact_loop ts cells w = Ok (Some w').
Proof.
  induction 1 as [|c cells Hc Hcs IH]; intros w w'; cbn [filter add_cells compact_loop]; [now intros [= ->]|].
  destruct (MergeScanner.good_cell_parse c Hc) as (k & Wk & Ek & Hk). unfold old at 1. rewrite Hk.
  destruct (k_ts k <=? ts); [|apply IH]. cbn [add_cells].
  destruct (cst_add c w) as [[b w1]|e|]; cbn [bind]; try discriminate. apply IH.
Qed.

Lemma weight_cons c l : weight (c :: l) = weight [c] + weight l - 100.
Proof. change (c :: l) with ([c] ++ l). apply weight_app. Qed.

Lemma weight_perm l l' : Permutation l l' -> weight l = weight l'.
Proof.
  induction 1 as [|c l l' Hp IH|c d l|l l' l'' H1 IH1 H2 IH2]; [reflexivity| | |congruence].
  - rewrite (weight_cons c l), (weight_cons c l'). lia.
  - rewrite (weight_cons d (c :: l)), (weight_cons c l), (weight_cons c (d :: l)), (weight_cons d l). lia.
Qed.

Lemma weight_filter f l : weight (filter f l) <= weight l.
Proof.
  induction l as [|c l IH]; [reflexivity|]. cbn [filter]. rewrite (weight_cons c l). pose proof (weight_min [c]).
  destruct (f c); [rewrite (weight_cons c (filter f l)); lia|]. lia.
Qed.

Lemma sorted_strict l : StronglySorted cell_le l -> NoDup (map fst l) -> StronglySorted cell_lt l.
Proof.
  induction 1 as [|c l Hl IH Hc]; intros Hn; constructor; inv Hn; [auto|]. rewrite Forall_forall in *. intros x Hx.
  specialize (Hc x Hx). unfold cell_le, cell_lt, bytes_lt in *. destruct (bytes_cmp (fst c) (fst x)) eqn:Ec; [|reflexivity|congruence].
  apply bytes_cmp_eq in Ec. destruct H1. rewrite Ec. now apply in_map.
Qed.

(** A store of some cells in order. *)
Lemma write_ok e name bsize ts cells : cst_fine e -> in_range 32 bsize -> ok_Timestamp ts -> Forall cell_ok cells ->
  StronglySorted cell_le cells -> NoDup (map fst cells) -> weight cells < 2 ^ 32 ->
  exists wr wr' st, cst_create e name bsize = Some wr /\ compact_loop (logical ts) cells wr = Ok (Some wr') /\
    cst_finalize ts wr' = Ok (Some st) /\ cst_valid st /\ cst_cells st = filter (old (logical ts)) cells /\
    cst_start st = [] /\ cst_end st = END_ROW_MARKER /\ cst_filename st = name.
Proof.
  intros He Hb Hts Hok Hs Hn Hw. pose proof (weight_filter (old (logical ts)) cells) as Hwf.
  destruct (cst_write_ok e name bsize (filter (old (logical ts)) cells) ts) as (wr & wr' & st & Hc & Ha & Hf & Hv & Hcs & H1 & H2 & H3);
    try assumption; [|apply sorted_filter, sorted_strict; assumption|lia|].
  - eapply Forall_impl; [exact cell_ok_good|]. now apply Forall_filter.
  - exists wr, wr', st. split; [assumption|]. split; [|auto 10]. apply compact_loop_ok; [|assumption].
    eapply Forall_impl; [|exact Hok]. now intros c [].
Qed.

(** All of its cells are in view. *)
Lemma open_view st : cst_start st = [] -> cst_end st = END_ROW_MARKER -> Forall cell_ok (cst_cells st) ->
  Forall (fun c => bytes_ltb (row_of c) END_ROW_MARKER = true) (cst_cells st) -> store_view st = cst_cells st.
Proof.
  intros Hs He Hok Hr. apply filter_all. intros c Hc. unfold in_store. rewrite Hs, He. rewrite Forall_forall in *.
  apply andb_true_iff. split.
  - destruct (Hok c Hc) as (_ & _ & Hrow). destruct (row_of c); [congruence|reflexivity].
  - apply bytes_leb_le. left. now apply bytes_ltb_lt, Hr.
Qed.

(** ** Installing *)

Lemma newer_old ts m : Forall MergeScanner.good_cell (map cell_of m) ->
  map cell_of (filter (newer ts) m) = filter (fun c => negb (old ts c)) (map cell_of m).
Proof.
  intros Hg. apply filter_map_comm. intros e He. rewrite Forall_forall in Hg.
  destruct (MergeScanner.good_cell_parse _ (Hg _ (in_map cell_of _ _ He))) as (k & _ & _ & Hk).
  unfold newer, old. change (fst (cell_of e)) with (e_key e) in *. rewrite Hk. now rewrite Z.ltb_antisym.
Qed.

Lemma remaining_stores idx a : m_in_memory (ag a) = false -> fst (remaining idx a) = firstn (Z.to_nat idx) (m_stores a).
Proof.
  intros Hm. unfold remaining. destruct (Z.ltb_spec idx (zlen (m_stores a))) as [Hi|Hi]; rewrite Hm; [reflexivity|].
  cbn [fst]. symmetry. apply firstn_all2. unfold zlen in Hi. lia.
Qed.

Lemma Forall_firstn {A} (P : A -> Prop) n l : Forall P l -> Forall P (firstn n l).
Proof. intros H. rewrite <- (firstn_skipn n l) in H. now apply Forall_app in H as [H _]. Qed.

Lemma install_ok ts idx st shared w a : wf w a -> m_in_memory (ag a) = false -> cst_valid st -> Forall cell_ok (cst_cells st) ->
  exists w' a', install ts idx st shared w a = Ok (w', a') /\ wf w' a' /\ ag a' = ag a /\
    cached_cells a' = filter (fun c => negb (old (logical ts) c)) (cached_cells a) /\
    m_stores a' = firstn (Z.to_nat idx) (m_stores a) ++ [st].
Proof.
  intros [Wc Hc Hv Hs] Hm Hst Hok. unfold install, new_cache. rewrite Hm.
  destruct (slice_copy_ok (logical ts) (w_next w) w (m_cell_cache a) Wc) as (w1 & parent & child & -> & Ec & W1 & w2 & Ed & W2).
  assert (Hw : exists w', (if shared then Ok w1 else destroy w1 parent) = Ok w' /\ CellCache.wf w' child).
  { destruct shared; [exists w1; auto|]. rewrite Ed. eauto. }
  destruct Hw as (w' & -> & W'). cbn [bind]. rewrite (surjective_pairing (remaining idx a)), (remaining_stores idx a Hm).
  eexists w', _. split; [reflexivity|]. unfold cached_cells. cbn [m_cell_cache m_stores ag].
  assert (Ecc : map cell_of (m_cell_map child) = filter (fun c => negb (old (logical ts) c)) (map cell_of (m_cell_map (m_cell_cache a)))).
  { rewrite Ec. now apply newer_old, ok_good. }
  split; [|auto]. split; cbn [m_cell_cache m_stores].
  - assumption.
  - unfold cached_cells. cbn [m_cell_cache]. rewrite Ecc. now apply Forall_filter.
  - apply Forall_app. split; [now apply Forall_firstn|auto].
  - apply Forall_app. split; [now apply Forall_firstn|auto].
Qed.

(** ** The theorems *)

Lemma insert_store_perm st l : Permutation (insert_store st l) (st :: l).
Proof.
  induction l as [|x l IH]; cbn [insert_store]; [reflexivity|]. destruct (_ <? _); [reflexivity|]. rewrite IH. apply perm_swap.
Qed.

Lemma sort_stores_perm l : Permutation (sort_stores l) l.
Proof. induction l as [|st l IH]; [reflexivity|]. cbn [sort_stores fold_right]. rewrite insert_store_perm. now constructor. Qed.

(** The same group with the stores in another order. *)
Definition reordered (a a' : @t St) : Prop :=
  ag a' = ag a /\ m_cell_cache a' = m_cell_cache a /\ Permutation (m_stores a') (m_stores a).

Lemma plan_reorders g major a : reordered a (fst (plan g major a)).
Proof.
  unfold plan, reordered. destruct (_ && _); [auto|]. cbn zeta. cbn [with_nums ag m_cell_cache m_stores]. destruct (m_in_memory (ag a)); [auto|].
  destruct major; [auto|]. destruct (_ <? _); [|auto]. cbn [fst with_stores with_nums ag m_cell_cache m_stores]. auto using sort_stores_perm.
Qed.

Lemma reordered_wf w a a' : reordered a a' -> wf w a -> wf w a'.
Proof.
  intros (_ & Ec & Hp) [Wc Hc Hv Hs]. split; unfold cached_cells in *; rewrite ?Ec; auto; [now rewrite Hp|now rewrite Hp].
Qed.

Lemma flat_map_perm {A B} (f : A -> list B) l l' : Permutation l l' -> Permutation (flat_map f l) (flat_map f l').
Proof. apply Permutation_flat_map. Qed.

Lemma reordered_cells a a' : reordered a a' -> Permutation (all_cells a') (all_cells a).
Proof.
  intros (Ea & Ec & Hp). unfold all_cells, cached_cells. rewrite Ea, Ec. apply Permutation_app_head.
  destruct (m_in_memory (ag a)); [reflexivity|]. now apply flat_map_perm.
Qed.

(** What the theorems ask of a group that is compacted under the context [ctx]:
    each key occurs once, in the files and rows the context covers; there are not
    too many cells for one store. *)
Record compactable (ctx : ScanContext) (fuel : nat) (a : @t St) : Prop := {
  co_disk : m_in_memory (ag a) = false;
  co_keys : NoDup (map fst (all_cells a));
  co_weight : weight (all_cells a) < 2 ^ 32;
  co_scan : Forall (fun c => in_scan (sc_bounds ctx) c = true) (all_cells a);
  co_stores : stores_ok (sc_bounds ctx) (m_stores a);
  co_fuel : (length (all_cells a) < fuel)%nat;
  co_bsize : in_range 32 (m_blocksize (ag a)) }.

Lemma reordered_compactable ctx fuel a a' : reordered a a' -> compactable ctx fuel a -> compactable ctx fuel a'.
Proof.
  intros Hr [H1 H2 H3 H4 H5 H6 H7]. pose proof (reordered_cells a a' Hr) as Hp. destruct Hr as (Ea & Ec & Hs).
  split; rewrite ?Ea; auto.
  - eapply Permutation_NoDup; [|exact H2]. symmetry. now apply Permutation_map.
  - now rewrite (weight_perm _ _ Hp).
  - now rewrite Hp.
  - unfold stores_ok. now rewrite Hs.
  - now rewrite (Permutation_length Hp).
Qed.

Lemma all_cells_split a n : m_in_memory (ag a) = false ->
  Permutation (all_cells a) ((cached_cells a ++ flat_map store_view (skipn n (m_stores a))) ++ flat_map store_view (firstn n (m_stores a))).
Proof.
  intros Hm. unfold all_cells. rewrite Hm. rewrite <- (firstn_skipn n (m_stores a)) at 1. rewrite flat_map_app, <- app_assoc.
  apply Permutation_app_head, Permutation_app_comm.
Qed.

Lemma NoDup_app_l {A} (l l' : list A) : NoDup (l ++ l') -> NoDup l.
Proof. induction l as [|x l IH]; cbn; intros H; [constructor|]. inv H. constructor; [|auto]. intros Hx. apply H2, in_or_app. now left. Qed.

(** The cells a compaction goes through, with the stores from the [n]th on. *)
Record gathered (ctx : ScanContext) (fuel n : nat) (a : @t St) (l : list cell) : Prop := {
  ga_perm : Permutation l (cached_cells a ++ flat_map store_view (skipn n (m_stores a)));
  ga_sorted : StronglySorted cell_le l;
  ga_ok : Forall cell_ok l;
  ga_keys : NoDup (map fst l);
  ga_weight : weight l < 2 ^ 32;
  ga_rows : Forall (fun c => bytes_ltb (row_of c) (end_row (sc_bounds ctx)) = true) l;
  ga_fuel : (length l < fuel)%nat }.

Lemma gather ctx fuel n w a l : wf w a -> compactable ctx fuel a ->
  Permutation l (cached_cells a ++ flat_map store_view (skipn n (m_stores a))) -> StronglySorted cell_le l -> gathered ctx fuel n a l.
Proof.
  intros [Wc Hc Hv Hs] [H1 H2 H3 H4 H5 H6 H7] Hp Hso. pose proof (all_cells_split a n H1) as Hsp. rewrite <- Hp in Hsp.
  split; auto.
  - rewrite Hp. apply Forall_app. split; [assumption|]. apply view_ok. rewrite <- (firstn_skipn n (m_stores a)) in Hs. now apply Forall_app in Hs as [_ Hs].
  - apply (Permutation_map fst) in Hsp. rewrite map_app in Hsp. apply (Permutation_NoDup Hsp) in H2. now apply NoDup_app_l in H2.
  - rewrite (weight_perm _ _ Hsp), weight_app in H3. pose proof (weight_min (flat_map store_view (firstn n (m_stores a)))). lia.
  - rewrite Hsp in H4. apply Forall_app in H4 as [H4 _]. eapply Forall_impl; [|exact H4]. intros c Hi. unfold in_scan in Hi.
    now apply andb_true_iff in Hi as [Hi _]; apply andb_true_iff in Hi as [_ Hi].
  - apply Permutation_length in Hsp. rewrite length_app in Hsp. lia.
Qed.

Lemma incl_skipn {A} n (l : list A) : incl (skipn n l) l.
Proof. intros x Hx. rewrite <- (firstn_skipn n l). apply in_or_app. now right. Qed.

Lemma in_scan_all ctx fuel n a l : compactable ctx fuel a ->
  Permutation l (filter (in_scan (sc_bounds ctx)) (cached_cells a ++ flat_map store_view (skipn n (m_stores a)))) ->
  Permutation l (cached_cells a ++ flat_map store_view (skipn n (m_stores a))).
Proof.
  intros [H1 _ _ H4 _ _ _] Hp. rewrite filter_all in Hp; [assumption|]. intros c Hc. rewrite Forall_forall in H4. apply H4.
  apply (Permutation_in _ (Permutation_sym (all_cells_split a n H1))), in_or_app. now left.
Qed.

Lemma stores_ok_skip b n a : stores_ok b (m_stores a) -> stores_ok b (skipn n (m_stores a)).
Proof. unfold stores_ok. intros H. rewrite <- (firstn_skipn n (m_stores a)) in H. now apply Forall_app in H as [_ H]. Qed.

Lemma minor_cells ctx fuel w a idx : wf w a -> bounds_ok (sc_bounds ctx) -> compactable ctx fuel a ->
  exists l, compaction_cells fuel ctx false idx a = Ok l /\ gathered ctx fuel (Z.to_nat idx) a l.
Proof.
  intros Wa Hb Hc. unfold compaction_cells. rewrite (co_disk _ _ _ Hc). cbn [orb negb].
  destruct (Z.ltb_spec idx (zlen (m_stores a))) as [Hi|Hi].
  - destruct (scanners_ok w a (sc_bounds ctx) (single_row ctx) (skipn (Z.to_nat idx) (m_stores a)) Wa) as (ss & -> & Si & Sso & Sc' & Sg);
      [apply incl_skipn|assumption|apply stores_ok_skip, Hc|]. cbn [bind].
    destruct (made_scanner (params_of ctx true) _ Si Sso Sg) as (Hi' & l & Hp & Hso & _ & Hcells & _).
    rewrite Sc' in Hp. apply (in_scan_all ctx fuel) in Hp; [|assumption]. pose proof (gather ctx fuel _ w a l Wa Hc Hp Hso) as G.
    exists l. split; [|assumption]. specialize (Hcells eq_refl). rewrite <- Hcells.
    apply (read_out_cells (H := merge_scanner)); [exact Hi'|]. change (length (ms_cells (MergeScanner_make (params_of ctx true) (inl (cache_scanner (sc_bounds ctx) (m_cell_cache a)) :: ss))) < fuel)%nat.
    rewrite Hcells. apply G.
  - destruct (cache_scanner_ok w (m_cell_cache a) (sc_bounds ctx) (wf_cache _ _ Wa) (wf_cached _ _ Wa) Hb) as [Si Scc].
    assert (Hsk : skipn (Z.to_nat idx) (m_stores a) = []) by (apply skipn_all2; unfold zlen in Hi; lia).
    assert (Hp : Permutation (sc_cells (cache_scanner (sc_bounds ctx) (m_cell_cache a))) (cached_cells a ++ flat_map store_view (skipn (Z.to_nat idx) (m_stores a)))).
    { apply (in_scan_all ctx fuel); [assumption|]. rewrite Scc, Hsk. cbn [flat_map]. now rewrite app_nil_r. }
    assert (Hso : StronglySorted cell_le (sc_cells (cache_scanner (sc_bounds ctx) (m_cell_cache a)))).
    { rewrite Scc. apply sorted_filter. eapply sorted_weaken; [exact lt_le|]. apply cached_sorted, Wa. }
    pose proof (gather ctx fuel _ w a _ Wa Hc Hp Hso) as G. eexists. split; [|exact G]. apply read_out_cells; [exact Si|apply G].
Qed.

(** Versions that the counters can hold. *)
Definition limits_fit (ctx : ScanContext) : Prop := forall f, in_range 32 (MergeScanner.max_versions (sc_info ctx f)).

Lemma weight_length l : zlen l <= weight l.
Proof. unfold weight. pose proof (zlen_nonneg (enc_cells l)). pose proof (zlen_nonneg l). lia. Qed.

Lemma select_length p l : forall P V, (length (select p P V l) <= length l)%nat.
Proof.
  induction l as [|c l IH]; intros P V; [reflexivity|]. cbn [select length]. destruct (parse_key (fst c)) as [k|]; [|specialize (IH P V); lia].
  destruct (visible p P k); [destruct (_ && _)|]; cbn [length]; match goal with |- context [select p ?A ?B l] => specialize (IH A B) end; lia.
Qed.

Lemma select_weight p l : forall P V, weight (select p P V l) <= weight l.
Proof.
  induction l as [|c l IH]; intros P V; [reflexivity|]. cbn [select]. rewrite (weight_cons c l). pose proof (weight_min [c]).
  destruct (parse_key (fst c)) as [k|]; [|specialize (IH P V); lia].
  destruct (visible p P k); [destruct (_ && _)|]; rewrite ?(weight_cons c (select _ _ _ _));
    match goal with |- context [select p ?A ?B l] => specialize (IH A B) end; lia.
Qed.

Lemma i64_small x : - 2 ^ 63 <= x < 2 ^ 63 -> i64 x = x.
Proof.
  intros H. unfold signed. destruct (Z.ltb_spec (u64 x) (2 ^ (64 - 1))) as [Hl|Hl]; unfold wrap in *; change (2 ^ (64 - 1)) with (2 ^ 63) in *;
    destruct (Z.le_gt_cases 0 x).
  - rewrite Z.mod_small in * by lia. lia.
  - rewrite <- (Z_mod_plus_full x 1 (2 ^ 64)), Z.mod_small in Hl by lia. lia.
  - rewrite Z.mod_small in Hl by lia. lia.
  - rewrite <- (Z_mod_plus_full x 1 (2 ^ 64)), Z.mod_small in * by lia. lia.
Qed.

Lemma major_cells ctx fuel w a : wf w a -> bounds_ok (sc_bounds ctx) -> spec ctx = None -> limits_fit ctx -> compactable ctx fuel a ->
  exists l, compaction_cells fuel ctx true 0 a = Ok (select (params_of ctx false) [] [] l) /\ gathered ctx fuel 0 a l.
Proof.
  intros Wa Hb Hsp Hlim Hc. unfold compaction_cells. rewrite (co_disk _ _ _ Hc). cbn [orb negb]. change (Z.to_nat 0) with O.
  destruct (scanners_ok w a (sc_bounds ctx) (single_row ctx) (skipn 0 (m_stores a)) Wa) as (ss & -> & Si & Sso & Sc' & Sg);
    [apply incl_skipn|assumption|apply stores_ok_skip, Hc|]. cbn [bind].
  destruct (made_scanner (params_of ctx false) _ Si Sso Sg) as (Hi' & l & Hp & Hso & _ & _ & Hcells).
  rewrite Sc' in Hp. apply (in_scan_all ctx fuel) in Hp; [|assumption]. pose proof (gather ctx fuel _ w a l Wa Hc Hp Hso) as G.
  exists l. split; [|assumption].
  assert (Wp : wf_params (params_of ctx false)).
  { split; [reflexivity| |intros f; apply Hlim]. unfold params_of, row_limit_of. cbn [m_row_limit]. rewrite Hsp. lia. }
  assert (Hlen : zlen l < 2 ^ 32) by (pose proof (weight_length l); pose proof (ga_weight _ _ _ _ _ G); lia).
  specialize (Hcells Wp Hlen). rewrite <- Hcells. apply (read_out_cells (H := merge_scanner)); [exact Hi'|].
  change (length (ms_cells (MergeScanner_make (params_of ctx false) (inl (cache_scanner (sc_bounds ctx) (m_cell_cache a)) :: ss))) < fuel)%nat.
  rewrite Hcells. pose proof (select_length (params_of ctx false) l [] []). pose proof (ga_fuel _ _ _ _ _ G). lia.
Qed.

(** What other threads add meanwhile. *)
Record arriving (arrivals : list (cell * Z)) (a : @t St) : Prop := {
  ar_ok : Forall addable (map fst arrivals);
  ar_keys : NoDup (map fst (map fst arrivals ++ cached_cells a)) }.

Lemma column_cells b n a : ag (with_nums n (update_files_column b a)) = ag a /\
  m_stores (with_nums n (update_files_column b a)) = m_stores a /\
  m_cell_cache (with_nums n (update_files_column b a)) = m_cell_cache a.
Proof. unfold update_files_column. destruct b; auto. Qed.

(** A compaction that has found the cells to write. *)
Lemma run_ok g sch fuel e arrivals shared written ts major w a a1 idx ctx cells :
  wf w a -> m_in_memory (ag a) = false -> cst_fine e -> in_range 32 (m_blocksize (ag a)) -> ok_Timestamp ts ->
  plan g major a = (a1, Some idx) -> fst (ScanContext_initialize (i64 (logical ts + 1)) None (Some sch)) = Ok ctx ->
  compaction_cells fuel ctx major idx a1 = Ok cells -> Forall cell_ok cells -> StronglySorted cell_le cells ->
  NoDup (map fst cells) -> weight cells < 2 ^ 32 -> arriving arrivals a ->
  exists w' a' st, run_compaction g sch fuel e arrivals shared written ts major w a = Ok (w', a') /\ wf w' a' /\ ag a' = ag a /\
    Permutation (cached_cells a') (filter (fun c => negb (old (logical ts) c)) (map fst arrivals ++ cached_cells a)) /\
    m_stores a' = firstn (Z.to_nat idx) (m_stores a1) ++ [st] /\ cst_cells st = filter (old (logical ts)) cells /\
    cst_start st = [] /\ cst_end st = END_ROW_MARKER /\ cst_filename st = cs_file g a1.
Proof.
  intros Wa Hm He Hbs Hts Hplan Hctx Hcells Hok Hso Hn Hw [A1 A3]. pose proof (plan_reorders g major a) as Hr. rewrite Hplan in Hr. cbn [fst] in Hr.
  pose proof (reordered_wf w a a1 Hr Wa) as W1. destruct Hr as (Eag & Ecache & _). unfold run_compaction. rewrite Hplan.
  set (a2 := with_nums (set_next_id (u32 (m_next_table_id (nums a1) + 1)) (nums a1)) a1).
  change (m_blocksize (ag a2)) with (m_blocksize (ag a1)). rewrite Eag.
  destruct (write_ok e (cs_file g a1) (m_blocksize (ag a)) ts cells He Hbs Hts Hok Hso Hn Hw) as (wr & wr' & st & -> & Hl & Hf & Hv & Hsc & S1 & S2 & S3).
  rewrite Hctx. cbn [bind]. change (compaction_cells fuel ctx major idx a2) with (compaction_cells fuel ctx major idx a1).
  rewrite Hcells. cbn [bind]. rewrite Hl. cbn [bind]. rewrite Hf. cbn [bind].
  assert (W2 : wf w a2) by (destruct W1; split; assumption).
  assert (Ec2 : cached_cells a2 = cached_cells a) by (unfold cached_cells; cbn [a2 with_nums m_cell_cache]; now rewrite Ecache).
  destruct (add_list_ok arrivals w a2 W2 A1) as (w3 & a3 & -> & W3 & (Eag3 & _ & Es3 & _) & P3); [now rewrite Ec2|]. cbn [bind].
  assert (Hm3 : m_in_memory (ag a3) = false) by (rewrite Eag3; cbn [a2 with_nums ag]; now rewrite Eag).
  destruct (install_ok ts idx st shared w3 a3 W3 Hm3 Hv) as (w4 & a4 & -> & W4 & Eag4 & Ec4 & Es4); [rewrite Hsc; now apply Forall_filter|]. cbn [bind].
  destruct (column_cells written (set_blocked false (nums (update_files_column written a4))) a4) as (F1 & F2 & F3).
  eexists w4, _, st. split; [reflexivity|]. split; [|split; [|split; [|split; [|auto]]]].
  - destruct W4 as [X1 X2 X3 X4]. split; unfold cached_cells in *; rewrite ?F2, ?F3; assumption.
  - rewrite F1, Eag4, Eag3. cbn [a2 with_nums ag]. assumption.
  - unfold cached_cells at 1. rewrite F3. fold (cached_cells a4). rewrite Ec4, Ec2 in *. now apply filter_perm.
  - rewrite F2, Es4, Es3. reflexivity.
Qed.

Lemma filter_split {A} (f : A -> bool) l : Permutation l (filter f l ++ filter (fun x => negb (f x)) l).
Proof.
  induction l as [|x l IH]; [reflexivity|]. cbn [filter]. destruct (f x); cbn [negb app]; [now constructor|].
  rewrite <- Permutation_middle. now constructor.
Qed.


(** C32. An update that arrives while a compaction runs, with a timestamp that is
    not newer than it, is lost: the compaction has scanned the cache before, and
    the new cache takes only what is newer. *)
Theorem late_updates_lost g sch fuel e arrivals shared written ts w a ctx c :
  wf w a -> fst (ScanContext_initialize (i64 (logical ts + 1)) None (Some sch)) = Ok ctx -> compactable ctx fuel a ->
  cst_fine e -> ok_Timestamp ts -> arriving arrivals a -> snd (plan g false a) <> None ->
  In c (map fst arrivals) -> old (logical ts) c = true -> ~ In (fst c) (map fst (all_cells a)) ->
  exists w' a', run_compaction g sch fuel e arrivals shared written ts false w a = Ok (w', a') /\ ~ In c (all_cells a').
Proof.
  intros Wa Hctx Hc He Hts Har Hpl Hin Hold Hfresh. pose proof (plan_reorders g false a) as Hr.
  destruct (plan g false a) as [a1 [idx|]] eqn:Hp; cbn [fst snd] in *; [|congruence].
  pose proof (reordered_wf w a a1 Hr Wa) as W1. pose proof (reordered_compactable ctx fuel a a1 Hr Hc) as Hc1.
  destruct (minor_cells ctx fuel w a1 idx W1 (open_bounds _ _ _ Hctx) Hc1) as (l & El & [G1 G2 G3 G4 G5 G6 _]).
  destruct (run_ok g sch fuel e arrivals shared written ts false w a a1 idx ctx l) as (w' & a' & st & Er & W' & Eag & Pc & Es & Hsc & _); auto;
    [apply Hc|apply Hc|]. exists w', a'. split; [assumption|].
  assert (Hgone : forall n, ~ In c (cached_cells a1 ++ flat_map store_view (skipn n (m_stores a1))) /\
                            ~ In c (flat_map store_view (firstn n (m_stores a1)))).
  { intros n. split; intros H; apply Hfresh, in_map; apply (Permutation_in _ (reordered_cells a a1 Hr));
      apply (Permutation_in _ (Permutation_sym (all_cells_split a1 n (co_disk _ _ _ Hc1)))), in_or_app; auto. }
  destruct (Hgone (Z.to_nat idx)) as [N1 N2]. unfold all_cells. rewrite Eag, (co_disk _ _ _ Hc), Es, flat_map_app. cbn [flat_map]. rewrite app_nil_r, !in_app_iff.
  intros [H|[H|H]]; [|contradiction|].
  - apply (Permutation_in _ Pc), filter_In in H as [_ H]. rewrite Hold in H. discriminate.
  - unfold store_view in H. apply filter_In in H as [H _]. rewrite Hsc in H. apply filter_In in H as [H _]. now apply (Permutation_in _ G1) in H.
Qed.

(** *** Major compactions *)

(** The bounds of a scan, on keys. *)
Definition key_in_scan (b : bounds) (k : KeyComps) : bool :=
  bytes_leb (start_row b) (k_row k) && bytes_ltb (k_row k) (end_row b) &&
  ((k_flag k =? FLAG_DELETE_ROW) || family_mask b (k_family k)).

Lemma in_scan_key b c k : wf_comps k -> fst c = pack k -> in_scan b c = key_in_scan b k.
Proof.
  intros Wk Ek. unfold in_scan, key_in_scan, shown. destruct c as [key v]. cbn [fst] in *. subst key. now rewrite row_of_pack, parse_pack.
Qed.

Lemma same_row_eq k x : same_row k x = true -> k_row x = k_row k.
Proof. unfold same_row, row_prefix. intros H. apply bytes_eqb_eq in H. now apply app_inj_tail in H as [-> _]. Qed.

Lemma same_cf_eq k x : same_cf k x = true -> k_row x = k_row k /\ k_family x = k_family k.
Proof.
  unfold same_cf, cf_prefix. intros H. apply bytes_eqb_eq in H.
  change [0; k_family x] with ([0] ++ [k_family x]) in H. change [0; k_family k] with ([0] ++ [k_family k]) in H. rewrite !app_assoc in H.
  apply app_inj_tail in H as [H ->]. now apply app_inj_tail in H as [-> _].
Qed.

Lemma scan_closed b : closed (key_in_scan b).
Proof.
  split; intros k x Wk Wx Hd Hb Hf Hs; unfold key_in_scan in *; apply andb_true_iff in Hb as [Hb Hm].
  - rewrite (same_row_eq k x Hs), Hb, Hf. reflexivity.
  - destruct (same_cf_eq k x Hs) as [-> ->]. rewrite Hb. cbn [andb]. apply insert_no_row_delete in Hd.
    apply Z.eqb_neq in Hd. rewrite Hd in Hm. cbn [orb] in Hm. rewrite Hm. apply orb_true_r.
Qed.

(** What a client reads of the cells of a group, with the parameters [p]. *)
Definition reads (p : scan_params) (b : bounds) (cells out : list cell) : Prop :=
  exists l, Permutation l (filter (in_scan b) cells) /\ StronglySorted cell_le l /\ out = select p [] [] l.

Lemma filter_keys (f : cell -> bool) l : NoDup (map fst l) -> NoDup (map fst (filter f l)).
Proof.
  induction l as [|c l IH]; cbn [filter map]; intros H; [constructor|]. inv H. destruct (f c); cbn [map]; [|auto]. constructor; [|auto].
  intros Hin. apply H2. apply in_map_iff in Hin as (x & <- & Hx). apply filter_In in Hx as [Hx _]. now apply in_map.
Qed.

Lemma select_keys p l P V : Forall MergeScanner.good_cell l -> StronglySorted cell_lt l -> NoDup (map fst (select p P V l)).
Proof.
  intros Hg Hs. pose proof (select_sorted p cell_lt l Hg Hs P V) as H. induction H as [|c l' Hl IH Hc]; cbn [map]; constructor; [|assumption].
  intros Hin. apply in_map_iff in Hin as (x & Ex & Hx). rewrite Forall_forall in Hc. specialize (Hc x Hx). unfold cell_lt in Hc.
  rewrite Ex in Hc. exact (bytes_lt_irrefl _ Hc).
Qed.

(** A read gives one list when no two cells have one key. *)
Lemma reads_unique p b cells out out' : NoDup (map fst cells) -> reads p b cells out -> reads p b cells out' -> out = out'.
Proof.
  intros Hk (l & Hp & Hs & ->) (l' & Hp' & Hs' & ->). f_equal. apply sorted_unique; auto.
  - now rewrite Hp, Hp'.
  - apply (Permutation_map fst) in Hp. apply (Permutation_NoDup (Permutation_sym Hp)). now apply filter_keys.
Qed.

(** Selecting the whole first. *)
Lemma reads_selected p q b cells L out : narrower p q -> (forall f, 0 <= MergeScanner.max_versions (family_info q f)) ->
  Permutation L cells -> StronglySorted cell_le L -> NoDup (map fst L) -> Forall MergeScanner.good_cell L ->
  (forall c k, In c L -> wf_comps k -> fst c = pack k -> within p k /\ within q k) ->
  reads p b (select q [] [] L) out <-> reads p b cells out.
Proof.
  intros Hn H0 HL Hs Hk Hg Hw. set (F := filter (in_scan b)).
  assert (Hf : F (select q [] [] L) = select q [] [] (F L)).
  { symmetry. refine (select_filter q (key_in_scan b) (in_scan b) L (scan_closed b) (na_rows _ _ Hn) _ Hg [] [] _ _ _); [|constructor..].
    intros c k _ Wk Ek. now apply in_scan_key. }
  assert (Esel : select p [] [] (F (select q [] [] L)) = select p [] [] (F L)).
  { rewrite Hf. apply select_twice; auto; [now apply Forall_filter|]. intros c k Hc. apply filter_In in Hc as [Hc _]. eauto. }
  assert (R1 : reads p b (select q [] [] L) (select p [] [] (F L))).
  { exists (F (select q [] [] L)). split; [reflexivity|]. split; [|now rewrite Esel]. now apply sorted_filter, select_sorted. }
  assert (R2 : reads p b cells (select p [] [] (F L))).
  { exists (F L). split; [now apply filter_perm|]. split; [now apply sorted_filter|reflexivity]. }
  split; intros R; [rewrite (reads_unique _ _ _ _ _ (select_keys q L [] [] Hg (sorted_strict _ Hs Hk)) R R1)|
                    rewrite (reads_unique _ _ _ _ _ (Permutation_NoDup (Permutation_map fst HL) Hk) R R2)]; assumption.
Qed.

(** The context covers all cells when they are not newer than the compaction. *)
Lemma context_within ts sch ctx k : fst (ScanContext_initialize (i64 (logical ts + 1)) None (Some sch)) = Ok ctx ->
  0 <= logical ts < 2 ^ 63 - 1 -> 0 <= k_ts k <= logical ts -> within (params_of ctx false) k.
Proof.
  intros Hctx Hl Hk. destruct (open_context _ _ _ Hctx) as (_ & _ & _ & Hint). unfold within, params_of.
  cbn [m_start_timestamp m_end_timestamp]. rewrite Hint. cbn [fst snd]. rewrite (i64_small (logical ts + 1)) by lia.
  rewrite (proj2 (Z.eqb_neq (logical ts + 1) 0)) by lia. lia.
Qed.

(** A major compaction leaves one store with the selection. *)
Lemma major_runs g sch fuel e shared written ts w a a1 idx ctx :
  wf w a -> fst (ScanContext_initialize (i64 (logical ts + 1)) None (Some sch)) = Ok ctx -> compactable ctx fuel a ->
  limits_fit ctx -> cst_fine e -> ok_Timestamp ts -> plan g true a = (a1, Some idx) ->
  Forall (fun c => old (logical ts) c = true) (all_cells a) ->
  exists w' a' L, run_compaction g sch fuel e [] shared written ts true w a = Ok (w', a') /\ wf w' a' /\
    Permutation L (all_cells a) /\ StronglySorted cell_le L /\ NoDup (map fst L) /\ Forall MergeScanner.good_cell L /\
    all_cells a' = select (params_of ctx false) [] [] L /\
    exists st, m_stores a' = [st] /\ cached_cells a' = [] /\ ag a' = ag a /\ cst_cells st = all_cells a' /\ store_view st = all_cells a' /\
      cst_filename st = cs_file g a1.
Proof.
  intros Wa Hctx Hc Hlim He Hts Hp Hold. pose proof (plan_reorders g true a) as Hr. rewrite Hp in Hr. cbn [fst] in Hr.
  assert (idx = 0) as ->.
  { unfold plan in Hp. cbn [negb andb] in Hp. cbn zeta in Hp. cbn [with_nums ag] in Hp. rewrite (co_disk _ _ _ Hc) in Hp.
    destruct (_ && _); congruence. }
  pose proof (reordered_compactable ctx fuel a a1 Hr Hc) as Hc1. destruct (open_context _ _ _ Hctx) as (Hspec & _ & Hend & _).
  destruct (major_cells ctx fuel w a1 (reordered_wf w a a1 Hr Wa) (open_bounds _ _ _ Hctx) Hspec Hlim Hc1) as (L & El & [G1 G2 G3 G4 G5 G6 _]).
  set (q := params_of ctx false) in *. change (skipn 0 (m_stores a1)) with (m_stores a1) in G1.
  assert (GL : Permutation L (all_cells a)).
  { rewrite G1, <- (reordered_cells a a1 Hr). unfold all_cells. now rewrite (co_disk _ _ _ Hc1). }
  rewrite <- GL in Hold. assert (Gg : Forall MergeScanner.good_cell L) by now apply ok_good.
  assert (Hsub : forall (P : cell -> Prop), Forall P L -> Forall P (select q [] [] L)).
  { intros P. rewrite !Forall_forall. intros HP c Hin. apply HP. exact (proj1 (select_In q L c _ _ Gg Hin)). }
  pose proof (select_weight q L [] []) as Hwt.
  destruct (run_ok g sch fuel e [] shared written ts true w a a1 0 ctx (select q [] [] L)) as (w' & a' & st & Er & W' & Eag & Pc & Es & Hsc & S1 & S2 & S3);
    auto; [apply Hc|apply Hc|now apply select_sorted|apply select_keys; [assumption|now apply sorted_strict]|lia| |].
  { split; [constructor..|]. cbn [map app]. pose proof (co_keys _ _ _ Hc) as Hk. unfold all_cells in Hk. rewrite map_app in Hk. now apply NoDup_app_l in Hk. }
  exists w', a', L. repeat (split; [assumption|]). rewrite filter_all in Hsc by (apply Forall_forall; auto).
  assert (Ec : cached_cells a' = []).
  { apply Permutation_nil. symmetry. rewrite Pc. cbn [map app].
    rewrite filter_none; [reflexivity|]. intros c Hin. rewrite Forall_forall in Hold. rewrite Hold; [reflexivity|].
    apply (Permutation_in _ (Permutation_sym GL)), in_or_app. now left. }
  change (firstn (Z.to_nat 0) (m_stores a1)) with (@nil St) in Es. cbn [app] in Es. rewrite Hend in G6.
  assert (Ev : store_view st = select q [] [] L) by (rewrite open_view, Hsc by (rewrite ?Hsc; auto); reflexivity).
  assert (Ea : all_cells a' = select q [] [] L).
  { unfold all_cells. rewrite Eag, (co_disk _ _ _ Hc), Es, Ec. cbn [app flat_map]. now rewrite app_nil_r. }
  split; [assumption|]. exists st. rewrite Ea. auto 10.
Qed.


End Compaction.
