(* ===== verification/Shrink.v ===== *)
(** * What shrinking keeps

    Lemmas on [AccessGroup::shrink] and [add_cell_store] of AccessGroup.v: a group
    that is given a new start row keeps exactly the cells behind it, and a group
    that is loaded shows the cells of its stores between its rows.  The range
    theorems of RangeSplit.v rest on them. *)
From S2P Require Import Prelude Errors Serialization ByteString Key Deletes CellCache Scanner MergeScanner Selection.
From S2P Require Import Schema Wire ScanContext BlockCodec CellStore CellStoreScanner AccessGroup Compaction.
From Stdlib Require Import ZArith Lia List Bool Sorted Permutation.
Import ListNotations.
Open Scope Z_scope.
Open Scope result_scope.

Import CellStoreScanner(row_of, scan_wants, scan_ok, clean_row, shown).
Import AccessGroup.

Lemma eq_perm {A} (l l' : list A) : l = l' -> Permutation l l'.
Proof. now intros ->. Qed.

(** ** Cell caches *)

Lemma make_wf_in w : Forall (fun b => (b < w_next w)%nat) (w_live w) -> CellCache.wf w CellCache.make.
Proof. intros H. split; cbn; try constructor; try assumption. intros b []. Qed.

Lemma make_apart c : apart CellCache.make c.
Proof. intros b []. Qed.

(** What is kept of another cache when one is destroyed. *)
Lemma destroy_other w c d : CellCache.wf w c -> CellCache.wf w d -> apart c d ->
  exists w', destroy w c = Ok w' /\ CellCache.wf w' d /\ w_next w' = w_next w /\
    forall b, In b (w_live w') <-> In b (w_live w) /\ ~ In b (owned (m_cell_map c)).
Proof.
  intros Wc [Ds De Dn Dl Df] Ha. destruct (destroy_ok w c Wc) as (w' & E1 & N1 & _ & L1). exists w'. split; [assumption|]. split; [|auto].
  split; try assumption.
  - intros b Hb. apply L1. split; [auto|]. intros Hc. exact (Ha b Hc Hb).
  - rewrite N1. rewrite Forall_forall in *. intros b Hb. apply Df. now apply L1.
Qed.

Lemma strict_keys (l : list cell) : StronglySorted cell_lt l -> NoDup (map fst l).
Proof.
  induction 1 as [|c l Hl IH Hc]; cbn [map]; constructor; [|assumption]. intros Hin. apply in_map_iff in Hin as (x & Ex & Hx).
  rewrite Forall_forall in Hc. specialize (Hc x Hx). unfold cell_lt in Hc. rewrite Ex in Hc. exact (bytes_lt_irrefl _ Hc).
Qed.

Section Shrink.

Context {St W Sc E : Type} {OP : CellStoreOps St W Sc E} {CS : CellListScanner Sc} {SP : CellStoreSpec OP}.
Context {Q : PriorityQueue (ScannerState (cached + Sc)) ss_key}.

Implicit Types a : @t St.

Lemma cached_addable w a : wf w a -> Forall addable (cached_cells a).
Proof.
  intros [Wc Hc _ _]. unfold cached_cells in *. rewrite Forall_forall in *. intros c Hin. split; [auto|].
  apply in_map_iff in Hin as (e & <- & He). pose proof (wf_entries _ _ Wc) as We. rewrite Forall_forall in We. destruct (We e He) as [_ Hl].
  cbn [cell_of fst]. rewrite <- Hl. change OFFSET_BIT_MASK with (Z.ones 31). rewrite Z.land_ones by lia. apply Z.mod_pos_bound. lia.
Qed.

Lemma group_add_evolves c ts w a w' a' : wf w a -> add c ts w a = Ok (w', a') -> evolves w (m_cell_cache a) w' (m_cell_cache a').
Proof.
  intros Wa H. unfold add in H. apply bind_ok in H as ([w1 cc] & Ec & H). inv H.
  pose proof (wf_fresh _ _ (wf_cache _ _ Wa)) as Hfr. cbn [with_cache m_cell_cache]. destruct (_ =? 0); exact (add_evolves _ _ _ _ _ _ Hfr Ec).
Qed.

Lemma add_list_evolves l : forall w a w' a', wf w a -> Forall addable (map fst l) -> NoDup (map fst (map fst l ++ cached_cells a)) ->
  add_list l w a = Ok (w', a') -> evolves w (m_cell_cache a) w' (m_cell_cache a').
Proof.
  induction l as [|[c ts] l IH]; intros w a w' a' Wa Hl Hn H; cbn [add_list map fst app] in *.
  - inv H. now apply evolves_same.
  - inversion Hn as [|? ? N1 N2]; subst. destruct (group_add_ok w a c ts Wa (Forall_inv Hl)) as (w1 & a1 & E1 & W1 & _ & P1).
    { intros Hin. apply N1. rewrite map_app, in_app_iff. auto. }
    rewrite E1 in H. cbn [bind] in H. apply (evolves_trans _ _ w1 (m_cell_cache a1)); [apply Wa|now apply (group_add_evolves c ts)|].
    apply (IH w1 a1 w' a' W1 (Forall_inv_tail Hl)); [|assumption].
    eapply Permutation_NoDup; [|exact Hn]. rewrite <- map_cons. apply Permutation_map. rewrite P1. apply Permutation_middle.
Qed.

(** A compaction during which nothing arrives changes only what the group owns. *)
Lemma run_evolves g sch fuel e shared written ts major w a w' a' : wf w a ->
  run_compaction g sch fuel e [] shared written ts major w a = Ok (w', a') -> evolves w (m_cell_cache a) w' (m_cell_cache a').
Proof.
  intros Wa. unfold run_compaction. destruct (plan_reorders g major a) as (_ & Ec & _). destruct (plan g major a) as [a1 o]. cbn [fst] in Ec.
  assert (Hsame : forall a2, m_cell_cache a2 = m_cell_cache a1 -> evolves w (m_cell_cache a) w (m_cell_cache a2)).
  { intros a2 E2. apply evolves_same; congruence. }
  destruct o as [idx|]; [|intros H; inv H; now apply Hsame]. destruct (cst_create _ _ _) as [wr|]; [|intros H; inv H; now apply Hsame].
  intros H. apply bind_ok in H as (ctx & _ & H). apply bind_ok in H as (cells & _ & H). apply bind_ok in H as ([wr'|] & _ & H); [|inv H; now apply Hsame].
  apply bind_ok in H as ([st|] & _ & H); [|inv H; now apply Hsame]. cbn [add_list bind] in H. apply bind_ok in H as ([w3 a3] & H3 & H).
  injection H as <- <-. destruct (column_cells written (set_blocked false (nums (update_files_column written a3))) a3) as (_ & _ & ->).
  set (a2 := with_nums _ a1) in H3. unfold install in H3. assert (Wc : CellCache.wf w (m_cell_cache a2)) by (cbn [a2 with_nums m_cell_cache]; rewrite Ec; apply Wa).
  change (m_cell_cache a2) with (m_cell_cache a1) in *. rewrite Ec in *.
  destruct (new_cache ts w a2) as [[w1 parent] child] eqn:En.
  assert (Hev : evolves w (m_cell_cache a) w1 child /\ forall w2, destroy w1 parent = Ok w2 -> evolves w (m_cell_cache a) w2 child).
  { unfold new_cache in En. change (m_cell_cache a2) with (m_cell_cache a1) in En. rewrite Ec in En.
    destruct (m_in_memory _); [now apply (purge_deletes_evolves _ _ _ _ _ _ Wc En)|now apply (slice_copy_evolves _ _ _ _ _ _ _ Wc En)]. }
  apply bind_ok in H3 as (w2 & Hw & H3). destruct (remaining idx a2). injection H3 as <- <-. cbn [m_cell_cache].
  destruct shared; [injection Hw as <-; exact (proj1 Hev)|exact (proj2 Hev _ Hw)].
Qed.

(** ** Stores *)

(** A store that shows all cells of its file, one of them behind [start]. *)
Record spans (start : list Z) (st : St) : Prop := {
  sp_valid : cst_valid st;
  sp_cells : Forall cell_ok (cst_cells st);
  sp_view : store_view st = cst_cells st;
  sp_behind : bytes_lt (row_bound start) (chunk_key (cst_cells st)) }.

Definition rows_between (start end_ : list Z) (c : cell) : bool := bytes_ltb start (row_of c) && bytes_leb (row_of c) end_.

Lemma reopen_ok start end_ st : spans start st -> wf_bytes end_ -> bytes_lt start end_ ->
  exists st', cst_reopen st start end_ = Ok (Some st') /\ cst_valid st' /\ Forall cell_ok (cst_cells st') /\
    store_view st' = filter (rows_between start end_) (store_view st) /\ cst_filename st' = cst_filename st.
Proof.
  intros [H1 H2 H3 H5] We Hlt. destruct (cst_reopen_ok st start end_ H1 We Hlt H5) as (st' & E1 & V & Ec & Es & Ee & En).
  exists st'. split; [assumption|]. split; [assumption|]. rewrite Ec. split; [assumption|]. split; [|assumption].
  rewrite H3. unfold store_view, in_store, rows_between. now rewrite Ec, Es, Ee.
Qed.

Lemma reopen_all_ok start end_ l : Forall (spans start) l -> wf_bytes end_ -> bytes_lt start end_ ->
  exists l', reopen_all l start end_ = Ok (Some l') /\ Forall cst_valid l' /\ Forall (fun st => Forall cell_ok (cst_cells st)) l' /\
    flat_map store_view l' = filter (rows_between start end_) (flat_map store_view l).
Proof.
  intros H We Hlt. induction H as [|st l Hst Hl IH]; [exists []; repeat split; constructor|].
  destruct (reopen_ok start end_ st Hst We Hlt) as (st' & E1 & V & Hc & Hv & _). destruct IH as (l' & E2 & V2 & C2 & Hv2).
  exists (st' :: l'). cbn [reopen_all]. rewrite E1. cbn [bind]. rewrite E2. cbn [bind option_map]. split; [reflexivity|].
  split; [now constructor|]. split; [now constructor|]. cbn [flat_map]. now rewrite Hv, Hv2, filter_app.
Qed.

(** ** Shrinking a group *)

Lemma shrink_ok sch fuel shared start w a ctx : wf w a -> m_in_memory (ag a) = false ->
  fst (ScanContext_initialize END_OF_TIME None (Some sch)) = Ok ctx ->
  Forall (fun c => in_scan (sc_bounds ctx) c = true) (cached_cells a) -> (length (cached_cells a) < fuel)%nat ->
  Forall (spans start) (m_stores a) -> wf_bytes (g_end_row (ag a)) -> bytes_lt start (g_end_row (ag a)) ->
  Forall (fun c => bytes_leb (row_of c) (g_end_row (ag a)) = true) (all_cells a) ->
  exists w' a', shrink sch fuel shared start w a = Ok (true, w', a') /\ wf w' a' /\
    evolves w (m_cell_cache a) w' (m_cell_cache a') /\ ag a' = ag a /\ m_start_row a' = start /\
    Permutation (all_cells a') (filter (behind_row start) (all_cells a)).
Proof.
  intros Wa Hm Hctx Hin Hfuel Hst We Hlt Hend. pose proof Wa as [Wc Hc Hv Hs]. unfold shrink. rewrite Hctx. cbn [bind].
  destruct (cache_scanner_ok w (m_cell_cache a) (sc_bounds ctx) Wc Hc (open_bounds _ _ _ Hctx)) as [Si Sc'].
  fold (cached_cells a) in Sc'. rewrite filter_all in Sc' by (now apply Forall_forall).
  rewrite read_out_cells by (rewrite ?Sc'; assumption). cbn [bind]. rewrite Sc'.
  set (kept := filter (behind_row start) (cached_cells a)). set (a1 := with_cache CellCache.make (with_start start a)).
  assert (W1 : wf w a1) by (split; [apply make_wf_in, Wc|constructor|assumption|assumption]).
  assert (Hadd : Forall addable (map fst (map (fun c => (c, 0)) kept))).
  { rewrite map_map. cbn [fst]. rewrite map_id. now apply Forall_filter, (cached_addable w). }
  assert (Hn : NoDup (map fst (map fst (map (fun c => (c, 0)) kept) ++ cached_cells a1))).
  { rewrite map_map. cbn [fst]. rewrite map_id. change (cached_cells a1) with (@nil cell). rewrite app_nil_r. apply filter_keys.
    apply strict_keys, cached_sorted, Wc. }
  destruct (add_list_ok _ w a1 W1 Hadd Hn) as (w2 & a2 & E2 & W2 & (Eag & Estart & Estores & _) & P2). rewrite E2. cbn [bind].
  pose proof (add_list_evolves _ w a1 w2 a2 W1 Hadd Hn E2) as Hev. rewrite Estores, Eag. change (m_stores a1) with (m_stores a). change (ag a1) with (ag a).
  destruct (evolves_other _ _ _ _ _ Hev (wf_cache _ _ W2) Wc (make_apart _)) as [Wo Hap].
  destruct (reopen_all_ok start (g_end_row (ag a)) (m_stores a) Hst We Hlt) as (l' & E3 & V3 & C3 & Hv3). rewrite E3. cbn [bind].
  set (w3 := track _ w2). assert (Wo3 : CellCache.wf w3 (m_cell_cache a)) by (destruct Wo; split; assumption).
  assert (W3 : CellCache.wf w3 (m_cell_cache a2)) by (destruct (wf_cache _ _ W2); split; assumption).
  assert (Hfin : exists w4, (if shared then Ok w3 else destroy w3 (m_cell_cache a)) = Ok w4 /\ CellCache.wf w4 (m_cell_cache a2) /\
    evolves w (m_cell_cache a) w4 (m_cell_cache a2)).
  { assert (He : evolves w (m_cell_cache a) w3 (m_cell_cache a2)).
    { destruct Hev as [V1 V2 V4]. split; [exact V1|intros b Hb _; apply V2; [assumption|intros []]|intros b Hb; destruct (V4 b Hb) as [[]|]; auto]. }
    destruct shared; [exists w3; auto|].
    destruct (destroy_other w3 (m_cell_cache a) (m_cell_cache a2) Wo3 W3) as (w4 & E4 & W4 & N4 & L4); [intros b Hb Hb'; exact (Hap b Hb' Hb)|].
    exists w4. split; [assumption|]. split; [assumption|]. destruct He as [V1 V2 V4]. split; [lia| |assumption].
    intros b Hb Hno. apply L4. split; [now apply V2|assumption]. }
  destruct Hfin as (w4 & -> & W4 & He). cbn [bind]. exists w4, (with_stores l' a2). split; [reflexivity|].
  split; [split; [exact W4|apply W2|assumption|assumption]|]. split; [exact He|]. split; [exact Eag|]. split; [exact Estart|].
  unfold all_cells. change (ag (with_stores l' a2)) with (ag a2). rewrite Eag. change (ag a1) with (ag a). rewrite Hm.
  change (cached_cells (with_stores l' a2)) with (cached_cells a2). rewrite P2, map_map. cbn [fst m_stores with_stores]. rewrite map_id.
  change (cached_cells a1) with (@nil cell). rewrite app_nil_r, Hv3, filter_app. apply Permutation_app; [reflexivity|].
  apply eq_perm. apply filter_ext_in. intros c Hc'. unfold rows_between, behind_row. rewrite Forall_forall in Hend. rewrite Hend; [apply andb_true_r|].
  unfold all_cells. rewrite Hm. apply in_or_app. now right.
Qed.

End Shrink.
