(* ===== verification/MasterGc.v ===== *)
(** * The garbage collector of the master

    [Hypertable/Master/MasterGc.cc]: a pass over the [Files] column of METADATA
    counts how often each cell store is referred to by a current cell; files that
    only older versions name are removed, and so are directories without files.
    The METADATA table is seen through its scanner, a list of cells; the calls on
    mutator and file system are recorded. *)
From S2P Require Import Prelude Errors Serialization ByteString Key Deletes Wire.
From Stdlib Require Import ZArith Lia List Bool Sorted.
Import ListNotations.
Open Scope Z_scope.
Open Scope result_scope.

Module MasterGc.

(** ** The names in a value *)

(** [value] is the memory from the pointer on. *)
Record Cell := {
  row_key : list Z; column_family : list Z; column_qualifier : list Z; timestamp : Z; value : list Z; value_len : Z }.

(** [CstrHashMap<int>]; its order means nothing. *)
Definition CountMap := list (list Z * Z).

Fixpoint count_file (fname : list Z) (c : Z) (map : CountMap) : CountMap :=
  match map with
  | [] => [(fname, c)]
  | (g, n) :: map' => if bytes_eqb g fname then (g, n + c) :: map' else (g, n) :: count_file fname c map'
  end.

(** [insert_file]: a C string, without its [#]. *)
Definition plain_name (fname : list Z) : list Z :=
  match until_nul fname with
  | b :: f => if b =? 35 then f else b :: f
  | [] => []
  end.
Definition insert_file (map : CountMap) (fname : list Z) (c : Z) : CountMap := count_file (plain_name fname) c map.

(** The loop of [insert_files]: [acc] is what lies between [pn] and [p], reversed. *)
Fixpoint split_files (acc rest : list Z) : list (list Z) :=
  match rest with
  | a :: ((b :: rest') as tl) => if (a =? 59) && (b =? 10) then rev acc :: split_files [] rest' else split_files (a :: acc) tl
  | _ => []
  end.

Definition insert_files (map : CountMap) (buf : list Z) (len : Z) (c : Z) : CountMap :=
  fold_left (fun map name => insert_file map name c) (split_files [] (firstn (Z.to_nat len) buf)) map.

(** ** The pass *)

Inductive mutation :=
| DeleteRow (row : list Z)
| DeleteCell (row cf cq : list Z) (ts : Z).

Record GcWorker := {
  files_map : CountMap; mutator : list mutation;
  last_row : list Z; last_cq : list Z; last_time : Z; found_valid_files : bool }.

Definition gc_start : GcWorker :=
  {| files_map := []; mutator := []; last_row := []; last_cq := []; last_time := 0; found_valid_files := true |}.

Definition Files : list Z := [70; 105; 108; 101; 115].

Definition delete_row (row : list Z) : list mutation := if nonempty row then [DeleteRow row] else [].
Definition delete_cell (c : Cell) : mutation := DeleteCell (row_key c) (column_family c) (column_qualifier c) (timestamp c).

(** [*cell.value != '!'] *)
Definition valid_files (c : Cell) : result bool :=
  match value c with [] => Fault | b :: _ => Ok (negb (b =? 33)) end.

Definition scan_cell (c : Cell) (s : GcWorker) : result GcWorker :=
  if negb (bytes_eqb Files (column_family c)) then Ok s
  else if negb (bytes_eqb (last_row s) (row_key c)) then
    let dels := if found_valid_files s then [] else delete_row (last_row s) in
    v <- valid_files c ;;
    Ok {| files_map := if v : bool then insert_files (files_map s) (value c) (value_len c) 1 else files_map s;
          mutator := mutator s ++ dels; last_row := row_key c; last_cq := last_cq s;
          last_time := timestamp c; found_valid_files := v |}
  else if negb (bytes_eqb (last_cq s) (column_qualifier c)) then
    v <- valid_files c ;;
    Ok {| files_map := if v : bool then insert_files (files_map s) (value c) (value_len c) 1 else files_map s;
          mutator := mutator s; last_row := last_row s; last_cq := column_qualifier c;
          last_time := timestamp c; found_valid_files := found_valid_files s || v |}
  else if last_time s <? timestamp c then Ok s
  else
    v <- valid_files c ;;
    Ok (if v : bool then
          {| files_map := insert_files (files_map s) (value c) (value_len c) 0; mutator := mutator s ++ [delete_cell c];
             last_row := last_row s; last_cq := last_cq s; last_time := last_time s;
             found_valid_files := found_valid_files s |}
        else s).

Fixpoint scan_cells (cells : list Cell) (s : GcWorker) : result GcWorker :=
  match cells with
  | [] => Ok s
  | c :: cells => s <- scan_cell c s ;; scan_cells cells s
  end.

Definition scan_metadata (cells : list Cell) : result (CountMap * list mutation) :=
  s <- scan_cells cells gc_start ;;
  Ok (files_map s, mutator s ++ (if found_valid_files s then [] else delete_row (last_row s))).

(** [strrchr(fname, '/')]: the directory. *)
Fixpoint dir_name (fname : list Z) : option (list Z) :=
  match fname with
  | [] => None
  | b :: f =>
      match dir_name f with
      | Some d => Some (b :: d)
      | None => if b =? 47 then Some [] else None
      end
  end.

(** [reap]: the files and the directories to remove. *)
Definition dead (map : CountMap) : list (list Z) := List.map fst (filter (fun e => snd e =? 0) map).
Definition dirs_map (map : CountMap) : CountMap :=
  fold_left (fun d e => match dir_name (fst e) with Some n => insert_file d n (snd e) | None => d end) map [].
Definition reap (map : CountMap) : list (list Z) * list (list Z) := (dead map, dead (dirs_map map)).

Definition gc (cells : list Cell) : result (list (list Z) * list (list Z) * list mutation) :=
  '(map, muts) <- scan_metadata cells ;;
  let '(f, d) := reap map in Ok (f, d, muts).

(** ** Names and counts *)

Definition file_names (buf : list Z) (len : Z) : list (list Z) := map plain_name (split_files [] (firstn (Z.to_nat len) buf)).

Fixpoint count_of (f : list Z) (map : CountMap) : option Z :=
  match map with
  | [] => None
  | (g, n) :: map' => if bytes_eqb g f then Some n else count_of f map'
  end.

Definition at_least (n : Z) (f : list Z) (map : CountMap) : Prop := exists k, count_of f map = Some k /\ n <= k.
Definition counted (map : CountMap) : Prop := Forall (fun e => 0 <= snd e) map /\ NoDup (List.map fst map).

Lemma count_file_of f g c map : count_of f (count_file g c map) =
  if bytes_eqb g f then Some (match count_of f map with Some n => n + c | None => c end) else count_of f map.
Proof.
  induction map as [|[h n] map IH]; cbn [count_file count_of]; [reflexivity|].
  destruct (bytes_eqb h g) eqn:E1; cbn [count_of].
  - apply bytes_eqb_eq in E1 as ->. destruct (bytes_eqb g f); reflexivity.
  - rewrite IH. destruct (bytes_eqb h f) eqn:E2; [|reflexivity]. apply bytes_eqb_eq in E2 as ->.
    apply bytes_eqb_neq in E1. rewrite (proj2 (bytes_eqb_neq g f)); [reflexivity|]. congruence.
Qed.

Lemma count_file_keys g c map x : In x (List.map fst (count_file g c map)) -> x = g \/ In x (List.map fst map).
Proof.
  induction map as [|[h n] map IH]; cbn [count_file List.map fst In]; [intuition|].
  destruct (bytes_eqb h g); cbn [List.map fst In]; intuition.
Qed.

Lemma count_file_counted g c map : 0 <= c -> counted map -> counted (count_file g c map).
Proof.
  intros Hc [Hp Hn]. induction map as [|[h n] map IH]; cbn [count_file].
  - split; repeat constructor; [exact Hc|]. intros [].
  - inv Hp. cbn [List.map fst] in Hn. inv Hn. destruct (bytes_eqb h g) eqn:E1.
    + split; cbn [List.map fst]; constructor; auto. cbn [snd] in *. lia.
    + destruct IH as [P N]; auto. split; cbn [List.map fst]; constructor; auto.
      intros Hin. apply count_file_keys in Hin as [->|]; [|contradiction]. apply bytes_eqb_neq in E1. congruence.
Qed.

Lemma count_file_grows k f g c map : 0 <= c -> at_least k f map -> at_least k f (count_file g c map).
Proof.
  intros Hc (n & E & Hn). unfold at_least. rewrite count_file_of, E. destruct (bytes_eqb g f); eexists; split; try reflexivity; lia.
Qed.

Lemma count_file_here g c map : 0 <= c -> counted map -> at_least c g (count_file g c map).
Proof.
  intros Hc [Hp _]. unfold at_least. rewrite count_file_of, (proj2 (bytes_eqb_eq g g) eq_refl). eexists; split; [reflexivity|].
  destruct (count_of g map) as [n|] eqn:En; [|lia]. enough (0 <= n) by lia. clear -Hp En.
  induction Hp as [|[h m] map Hm Hp IH]; cbn [count_of] in En; [discriminate|]. destruct (bytes_eqb h g); [inv En; exact Hm|auto].
Qed.

Lemma insert_files_names map buf len c : insert_files map buf len c = fold_left (fun m f => count_file f c m) (file_names buf len) map.
Proof.
  unfold insert_files, file_names, insert_file. generalize (split_files [] (firstn (Z.to_nat len) buf)) as l. intros l.
  revert map. induction l as [|x l IH]; intros map; cbn [fold_left List.map]; auto.
Qed.

Lemma insert_files_counted map buf len c : 0 <= c -> counted map -> counted (insert_files map buf len c).
Proof.
  intros Hc. rewrite insert_files_names. generalize (file_names buf len) as l. intros l. revert map.
  induction l as [|x l IH]; intros map H; cbn [fold_left]; [assumption|]. apply IH. now apply count_file_counted.
Qed.

Lemma insert_files_grows k f map buf len c : 0 <= c -> at_least k f map -> at_least k f (insert_files map buf len c).
Proof.
  intros Hc. rewrite insert_files_names. generalize (file_names buf len) as l. intros l. revert map.
  induction l as [|x l IH]; intros map H; cbn [fold_left]; [assumption|]. apply IH. now apply count_file_grows.
Qed.

Lemma insert_files_here f map buf len c : 0 <= c -> counted map -> In f (file_names buf len) ->
  at_least c f (insert_files map buf len c).
Proof.
  intros Hc. rewrite insert_files_names. generalize (file_names buf len) as l. intros l. revert map.
  induction l as [|x l IH]; intros map H; [intros []|]. cbn [fold_left].
  assert (G : forall l map, at_least c f map -> at_least c f (fold_left (fun m f => count_file f c m) l map)).
  { clear -Hc. induction l as [|y l IH]; intros map H; cbn [fold_left]; [assumption|]. apply IH. now apply count_file_grows. }
  intros [->|Hin]; [apply G, count_file_here; assumption|]. apply IH; [now apply count_file_counted|assumption].
Qed.

Lemma dead_count f map : counted map -> In f (dead map) <-> count_of f map = Some 0.
Proof.
  intros [_ Hn]. unfold dead. rewrite in_map_iff. setoid_rewrite filter_In. induction map as [|[g n] map IH]; cbn [count_of].
  - split; [|discriminate]. intros (x & _ & [] & _).
  - cbn [List.map fst] in Hn. inv Hn. specialize (IH H2). destruct (bytes_eqb g f) eqn:E.
    + apply bytes_eqb_eq in E as ->. split.
      * intros ([x m] & Ex & [Hin|Hin] & Hz); cbn [fst snd] in *; [inv Hin; apply Z.eqb_eq in Hz as ->; reflexivity|].
        subst x. destruct H1. now apply (in_map fst) in Hin.
      * intros [= ->]. exists (f, 0). repeat split. now left.
    + rewrite <- IH. apply bytes_eqb_neq in E. split; intros (x & Ex & Hin & Hz); exists x; (split; [assumption|]).
      * destruct Hin as [<-|]; [contradiction|tauto].
      * split; [now right|assumption].
Qed.

(** ** What survives *)

Definition live (c : Cell) : Prop := bytes_eqb Files (column_family c) = true /\ valid_files c = Ok true.

Ltac scan_cases H :=
  unfold scan_cell in H;
  repeat match type of H with
  | (if ?b then _ else _) = Ok _ => let E := fresh "E" in destruct b eqn:E
  | (_ <- valid_files _ ;; _) = Ok _ => let v := fresh "v" in let Ev := fresh "Ev" in apply bind_ok in H as (v & Ev & H)
  end.

(** What one cell does to the counts, the row and the mutations. *)
Lemma scan_cell_counted c s s' : scan_cell c s = Ok s' -> counted (files_map s) -> counted (files_map s').
Proof.
  intros H Hc. scan_cases H; try (inv H; assumption); destruct v; inv H; cbn [files_map]; try assumption;
    apply insert_files_counted; auto; lia.
Qed.

Lemma scan_cell_grows c s s' k f : scan_cell c s = Ok s' -> at_least k f (files_map s) -> at_least k f (files_map s').
Proof.
  intros H Hc. scan_cases H; try (inv H; assumption); destruct v; inv H; cbn [files_map]; try assumption;
    apply insert_files_grows; auto; lia.
Qed.

Lemma scan_cell_row c s s' : scan_cell c s = Ok s' -> last_row s' = last_row s \/ last_row s' = row_key c.
Proof. intros H. scan_cases H; try (inv H; cbn; now auto); destruct v; inv H; cbn; auto. Qed.

(** Deletions are of the row left, when nothing valid was found in it, and of the
    cell itself. *)
Lemma scan_cell_mutator c s s' m : scan_cell c s = Ok s' -> In m (mutator s') ->
  In m (mutator s) \/ m = delete_cell c \/ (m = DeleteRow (last_row s) /\ found_valid_files s = false).
Proof.
  intros H Hin. unfold delete_row in *.
  scan_cases H; try (inv H; cbn [mutator] in Hin; now auto); destruct v; inv H; cbn [mutator] in Hin; auto.
  all: destruct (found_valid_files s) eqn:Ef; rewrite ?app_nil_r in Hin; auto; apply in_app_iff in Hin as [Hin|Hin]; auto.
  all: unfold delete_row in Hin; destruct (nonempty (last_row s)); cbn [In] in Hin; intuition (subst; auto).
Qed.

(** Within a row what was found stays found. *)
Lemma scan_cell_found c s s' : scan_cell c s = Ok s' -> last_row s = row_key c -> found_valid_files s = true ->
  found_valid_files s' = true /\ last_row s' = row_key c.
Proof.
  intros H Hr Hf. scan_cases H; try (inv H; now auto).
  - apply negb_true_iff, bytes_eqb_neq in E0. contradiction.
  - destruct v; inv H; cbn; now rewrite Hf.
  - destruct v; inv H; auto.
Qed.

Lemma scan_head c s s' : scan_cell c s = Ok s' -> live c -> last_row s <> row_key c -> counted (files_map s) ->
  last_row s' = row_key c /\ found_valid_files s' = true /\
  (forall f, In f (file_names (value c) (value_len c)) -> at_least 1 f (files_map s')) /\
  (forall m, In m (mutator s') -> In m (mutator s) \/ exists r, m = DeleteRow r).
Proof.
  intros H [Lf Lv] Hr Hc. unfold scan_cell in H. rewrite Lf, Lv in H. cbn [negb bind] in H.
  rewrite (proj2 (bytes_eqb_neq _ _) Hr) in H. cbn [negb] in H. inv H. cbn. split; [reflexivity|]. split; [reflexivity|]. split.
  - intros f Hf. apply insert_files_here; auto; lia.
  - intros m Hm. apply in_app_iff in Hm as [Hm|Hm]; [auto|]. unfold delete_row in Hm.
    destruct (found_valid_files s), (nonempty (last_row s)); cbn [In] in Hm; intuition eauto.
Qed.

Lemma scan_cells_app l1 l2 s s' : scan_cells (l1 ++ l2) s = Ok s' ->
  exists s1, scan_cells l1 s = Ok s1 /\ scan_cells l2 s1 = Ok s'.
Proof.
  revert s. induction l1 as [|c l1 IH]; intros s H; cbn [app scan_cells] in *; [eauto|].
  apply bind_ok in H as (s1 & E & H). destruct (IH s1 H) as (s2 & E2 & H2). exists s2. rewrite E. auto.
Qed.

Lemma scan_cells_inv (P : GcWorker -> Prop) l s s' : (forall c s s', In c l -> scan_cell c s = Ok s' -> P s -> P s') ->
  scan_cells l s = Ok s' -> P s -> P s'.
Proof.
  revert s. induction l as [|c l IH]; intros s Hstep H Hs; cbn [scan_cells] in H; [inv H; assumption|].
  apply bind_ok in H as (s1 & E & H). apply (IH s1); auto; [|apply (Hstep c s s1); auto; now left].
  intros d t t' Hd. apply Hstep. now right.
Qed.

Lemma scan_cells_counted l s s' : scan_cells l s = Ok s' -> counted (files_map s) -> counted (files_map s').
Proof. apply (scan_cells_inv (fun s => counted (files_map s))). intros d t t' _. apply scan_cell_counted. Qed.

Lemma scan_cells_grows k f l s s' : scan_cells l s = Ok s' -> at_least k f (files_map s) -> at_least k f (files_map s').
Proof. apply (scan_cells_inv (fun s => at_least k f (files_map s))). intros d t t' _. apply scan_cell_grows. Qed.

Lemma scan_cells_deletes l s s' r cf cq ts : scan_cells l s = Ok s' -> In (DeleteCell r cf cq ts) (mutator s') ->
  In (DeleteCell r cf cq ts) (mutator s) \/ exists d, In d l /\ delete_cell d = DeleteCell r cf cq ts.
Proof.
  intros H. set (m := DeleteCell r cf cq ts).
  apply (scan_cells_inv (fun t => In m (mutator t) -> In m (mutator s) \/ exists d, In d l /\ delete_cell d = m) l s s'); auto.
  intros c t t' Hc Ht IH Hin. destruct (scan_cell_mutator _ _ _ _ Ht Hin) as [|[Em|[Em _]]]; [auto|right; exists c; auto|discriminate].
Qed.

(** The pass over the cells before the first of a row. *)
Lemma before_row r l s s' : r <> [] -> ~ In r (map row_key l) -> scan_cells l s = Ok s' ->
  last_row s <> r /\ (forall m, In m (mutator s) -> m <> DeleteRow r) -> last_row s' <> r /\ (forall m, In m (mutator s') -> m <> DeleteRow r).
Proof.
  intros Hr Hn H. apply (scan_cells_inv (fun s => last_row s <> r /\ forall m, In m (mutator s) -> m <> DeleteRow r) l s s'); [|exact H].
  intros c t t' Hc Ht [T1 T2]. assert (Hcr : row_key c <> r) by (intros <-; apply Hn; now apply in_map). split.
  - destruct (scan_cell_row _ _ _ Ht) as [-> | ->]; assumption.
  - intros m Hm. destruct (scan_cell_mutator _ _ _ _ Ht Hm) as [Hin|[->|[-> _]]]; [auto|discriminate|congruence].
Qed.

(** The rest of the row, and what comes behind it. *)
Lemma after_head r l s s' : StronglySorted (fun a b => bytes_leb (row_key a) (row_key b) = true) l ->
  Forall (fun d => bytes_leb r (row_key d) = true) l -> scan_cells l s = Ok s' ->
  (last_row s = r /\ found_valid_files s = true \/ last_row s <> r /\ ~ In r (map row_key l)) ->
  (forall m, In m (mutator s) -> m <> DeleteRow r) ->
  (forall m, In m (mutator s') -> m <> DeleteRow r) /\ (last_row s' = r -> found_valid_files s' = true).
Proof.
  revert s. induction l as [|c l IH]; intros s Hs Hr H Hst Hm; cbn [scan_cells] in H.
  - inv H. split; [assumption|]. destruct Hst as [[]|[]]; auto; contradiction.
  - apply bind_ok in H as (s1 & E & H). apply StronglySorted_inv in Hs as [Hs Hcl].
    pose proof (Forall_inv Hr) as Hrc. apply Forall_inv_tail in Hr.
    assert (Hm1 : forall m, In m (mutator s1) -> m <> DeleteRow r).
    { intros m Hin. destruct (scan_cell_mutator _ _ _ _ E Hin) as [Hi|[->|[-> Hf]]]; [auto|discriminate|].
      intros [= Hl]. destruct Hst as [[]|[]]; congruence. }
    apply (IH s1); auto. destruct Hst as [[Hl Hf]|[Hl Hn]].
    + destruct (bytes_eqb (row_key c) r) eqn:Ec.
      * apply bytes_eqb_eq in Ec. left. destruct (scan_cell_found _ _ _ E) as [G1 G2]; auto; [congruence|]. split; congruence.
      * apply bytes_eqb_neq in Ec. destruct (scan_cell_row _ _ _ E) as [G|G].
        -- rewrite G. left. split; [assumption|]. unfold scan_cell in E.
           destruct (negb (bytes_eqb Files (column_family c))); [now inv E|].
           rewrite Hl, (proj2 (bytes_eqb_neq r (row_key c))) in E by congruence. cbn [negb] in E.
           apply bind_ok in E as (v & _ & E). inv E. cbn [last_row] in G. congruence.
        -- right. split; [congruence|]. intros Hin. apply in_map_iff in Hin as (d & Ed & Hd). rewrite Forall_forall in Hcl. specialize (Hcl d Hd).
           rewrite Ed in Hcl. apply Ec. apply bytes_leb_le in Hrc, Hcl. destruct Hrc as [Hrc|Hrc], Hcl as [Hcl|Hcl]; try congruence.
           destruct (bytes_lt_irrefl _ (bytes_lt_trans _ _ _ Hrc Hcl)).
    + right. cbn [map In] in Hn. split; [|tauto]. destruct (scan_cell_row _ _ _ E) as [-> | ->]; tauto.
Qed.

Lemma head_kept l1 c l2 files dirs muts :
  StronglySorted (fun a b => bytes_leb (row_key a) (row_key b) = true) (l1 ++ c :: l2) ->
  row_key c <> [] -> ~ In (row_key c) (map row_key l1) -> live c ->
  gc (l1 ++ c :: l2) = Ok (files, dirs, muts) ->
  (forall f, In f (file_names (value c) (value_len c)) -> ~ In f files) /\
  ~ In (DeleteRow (row_key c)) muts /\
  (forall cf cq ts, In (DeleteCell (row_key c) cf cq ts) muts -> exists d, In d l2 /\ delete_cell d = DeleteCell (row_key c) cf cq ts).
Proof.
  intros Hsort Hne Hnew Hlive H. unfold gc, scan_metadata in H.
  apply bind_ok in H as ((map0 & muts0) & H & H'). inv H'. apply bind_ok in H as (s & H & H'). inv H'.
  destruct (scan_cells_app _ _ _ _ H) as (s1 & E1 & E2). cbn [scan_cells] in E2. apply bind_ok in E2 as (s2 & E2 & E3).
  assert (C1 : counted (files_map s1)) by (apply (scan_cells_counted _ _ _ E1); split; constructor).
  destruct (before_row (row_key c) l1 gc_start s1 Hne Hnew E1) as [L1 M1]; [split; [cbn; congruence|intros m []]|].
  destruct (scan_head c s1 s2) as (L2 & F2 & N2 & D2); auto.
  assert (Cs := scan_cells_counted _ _ _ E3 (scan_cell_counted _ _ _ E2 C1)).
  assert (Hs2 : StronglySorted (fun a b => bytes_leb (row_key a) (row_key b) = true) (c :: l2)).
  { clear -Hsort. induction l1 as [|x l1 IH]; [assumption|]. inv Hsort. auto. }
  inv Hs2.
  assert (M2 : forall m, In m (mutator s2) -> m <> DeleteRow (row_key c)).
  { intros m Hm. destruct (scan_cell_mutator _ _ _ _ E2 Hm) as [Hi|[->|[-> _]]]; [auto|discriminate|]. congruence. }
  destruct (after_head (row_key c) l2 s2 s) as [M3 F3]; auto.
  split; [|split].
  - intros f Hf Hd. apply (dead_count f _ Cs) in Hd.
    destruct (scan_cells_grows 1 f _ _ _ E3 (N2 f Hf)) as (k & Ek & Hk). rewrite Ek in Hd. inv Hd. lia.
  - rewrite in_app_iff. intros [Hm|Hm]; [exact (M3 _ Hm eq_refl)|]. destruct (found_valid_files s) eqn:Ef; [destruct Hm|].
    unfold delete_row in Hm. destruct (nonempty (last_row s)); [|destruct Hm]. destruct Hm as [[= Hm]|[]].
    specialize (F3 Hm). congruence.
  - intros cf cq ts Hm. apply in_app_iff in Hm as [Hm|Hm].
    + destruct (scan_cells_deletes _ _ _ _ _ _ _ E3 Hm) as [Hi|(d & Hd & Ed)]; [|eauto].
      destruct (D2 _ Hi) as [Hj|[r Er]]; [|discriminate].
      destruct (scan_cells_deletes _ _ _ _ _ _ _ E1 Hj) as [[]|(d & Hd & Ed)]. destruct Hnew. inv Ed. now apply in_map.
    + unfold delete_row in Hm. destruct (found_valid_files s), (nonempty (last_row s)); cbn [In] in Hm; intuition discriminate.
Qed.

(** The garbage collector never removes a file that the first cell of a row
    names, nor deletes that row, and all cells of the row that it deletes come
    behind that cell.  So the newest version is safe where a table has one access
    group. *)
Theorem gc_keeps_first_group l1 c l2 files dirs muts :
  StronglySorted (fun a b => bytes_leb (row_key a) (row_key b) = true) (l1 ++ c :: l2) ->
  row_key c <> [] -> ~ In (row_key c) (map row_key l1) -> live c ->
  gc (l1 ++ c :: l2) = Ok (files, dirs, muts) ->
  (forall f, In f (file_names (value c) (value_len c)) -> ~ In f files) /\
  ~ In (DeleteRow (row_key c)) muts /\
  (forall cf cq ts, In (DeleteCell (row_key c) cf cq ts) muts -> exists d, In d l2 /\ delete_cell d = DeleteCell (row_key c) cf cq ts).
Proof. exact (head_kept l1 c l2 files dirs muts). Qed.

(** ** Names in a text *)

Definition file_ok (f : list Z) : Prop := no_nul f /\ Forall (fun b => b <> 59) f /\ hd 35 f <> 35.

Lemma split_files_name acc f rest : Forall (fun b => b <> 59) f ->
  split_files acc (f ++ 59 :: 10 :: rest) = (rev acc ++ f) :: split_files [] rest.
Proof.
  intros Hf. revert acc. induction Hf as [|b f Hb Hf IH]; intros acc.
  - cbn [app split_files]. now rewrite Z.eqb_refl, app_nil_r.
  - cbn [app]. specialize (IH (b :: acc)). cbn [rev] in IH. rewrite <- app_assoc in IH. cbn [app] in IH. rewrite <- IH.
    destruct f as [|d f]; cbn [app split_files]; rewrite (proj2 (Z.eqb_neq b 59)) by assumption; reflexivity.
Qed.

Lemma plain_ok f : file_ok f -> plain_name f = f /\ plain_name (35 :: f) = f.
Proof.
  intros (Hn & _ & Hh). assert (E : until_nul f = f).
  { clear -Hn. induction Hn as [|b f Hb Hn IH]; [reflexivity|]. cbn [until_nul]. rewrite (proj2 (Z.eqb_neq b 0)) by assumption. now rewrite IH. }
  unfold plain_name. cbn [until_nul Z.eqb]. rewrite E. split; [|reflexivity].
  destruct f as [|b f]; [reflexivity|]. cbn [hd] in Hh. now rewrite (proj2 (Z.eqb_neq b 35)).
Qed.

(** The names of a text of files, some of them with [#] in front. *)
Lemma split_text l rest : Forall (fun f => Forall (fun b => b <> 59) f) l ->
  split_files [] (concat (map (fun f => f ++ [59; 10]) l) ++ rest) = l ++ split_files [] rest.
Proof.
  induction 1 as [|f l Hf Hl IH]; [reflexivity|]. cbn [map concat app]. rewrite <- !app_assoc. cbn [app].
  now rewrite split_files_name, IH by assumption.
Qed.

(** ** A live file that is removed *)

Definition meta_cell (row cq : list Z) (ts : Z) (f : list Z) : Cell :=
  {| row_key := row; column_family := Files; column_qualifier := cq; timestamp := ts; value := f ++ [59; 10];
     value_len := zlen f + 2 |}.

Lemma meta_names row cq ts f : file_ok f -> let c := meta_cell row cq ts f in
  file_names (value c) (value_len c) = [f].
Proof.
  intros Hf. cbn [meta_cell value value_len]. unfold file_names.
  replace (Z.to_nat (zlen f + 2)) with (length (f ++ [59; 10])) by (rewrite length_app; unfold zlen; cbn; lia).
  rewrite firstn_all. pose proof (split_text [f] []) as H. cbn [map concat app] in H. rewrite !app_nil_r in H.
  rewrite H by (constructor; [apply Hf|constructor]). cbn [map]. now rewrite (proj1 (plain_ok f Hf)).
Qed.

Lemma meta_valid row cq ts f : f <> [] -> hd 0 f <> 33 -> valid_files (meta_cell row cq ts f) = Ok true.
Proof.
  intros Hf Hh. unfold valid_files. destruct f as [|b f]; [congruence|]. cbn [meta_cell value app hd] in *. now rewrite (proj2 (Z.eqb_neq b 33)).
Qed.

Lemma meta_insert map row cq ts f c :
  file_ok f -> insert_files map (value (meta_cell row cq ts f)) (value_len (meta_cell row cq ts f)) c = count_file f c map.
Proof. intros Hf. rewrite insert_files_names. pose proof (meta_names row cq ts f Hf) as E. cbn zeta in E. now rewrite E. Qed.

(** The three branches. *)
Definition named (f : list Z) : Prop := file_ok f /\ f <> [] /\ hd 0 f <> 33.

Lemma scan_branches row cq ts f s : named f -> let c := meta_cell row cq ts f in
  (last_row s <> row -> found_valid_files s = true ->
   scan_cell c s = Ok {| files_map := count_file f 1 (files_map s); mutator := mutator s; last_row := row;
     last_cq := last_cq s; last_time := ts; found_valid_files := true |}) /\
  (last_row s = row -> last_cq s <> cq ->
   scan_cell c s = Ok {| files_map := count_file f 1 (files_map s); mutator := mutator s; last_row := row;
     last_cq := cq; last_time := ts; found_valid_files := true |}) /\
  (last_row s = row -> last_cq s = cq -> ts <= last_time s ->
   scan_cell c s = Ok {| files_map := count_file f 0 (files_map s); mutator := mutator s ++ [DeleteCell row Files cq ts];
     last_row := row; last_cq := cq; last_time := last_time s; found_valid_files := found_valid_files s |}).
Proof.
  intros (Ho & Hf & Hb) c. assert (Hv : valid_files c = Ok true) by now apply meta_valid.
  assert (Hi : forall k, insert_files (files_map s) (value c) (value_len c) k = count_file f k (files_map s)) by (intros; now apply meta_insert).
  unfold scan_cell. rewrite Hv, !Hi. cbn [bind]. change (bytes_eqb Files (column_family c)) with true. cbn [negb].
  change (row_key c) with row. change (column_qualifier c) with cq. change (timestamp c) with ts. repeat split.
  - intros Hr Hfv. now rewrite (proj2 (bytes_eqb_neq _ _) Hr), Hfv, app_nil_r.
  - intros -> Hc. now rewrite (proj2 (bytes_eqb_eq row row) eq_refl), (proj2 (bytes_eqb_neq _ _) Hc), orb_true_r.
  - intros -> -> Ht. rewrite !(proj2 (bytes_eqb_eq _ _) eq_refl). cbn [negb]. now rewrite (proj2 (Z.ltb_ge _ _) Ht).
Qed.

(** C33. With two access groups and two ranges the garbage collector removes a file
    that METADATA names in a current cell, and deletes that cell: the qualifier of
    the first cell of a row is not remembered, so the second group of the next row
    is taken for an old version when its cell is not newer than that of the first
    group. *)
Theorem gc_removes_live_file r1 r2 a b t1 t2 t3 t4 f1 f2 f3 f4 :
  bytes_lt [] r1 -> bytes_lt r1 r2 -> bytes_lt [] a -> bytes_lt a b -> t4 <= t3 ->
  Forall named [f1; f2; f3; f4] -> ~ In f4 [f1; f2; f3] ->
  exists files dirs muts,
    gc [meta_cell r1 a t1 f1; meta_cell r1 b t2 f2; meta_cell r2 a t3 f3; meta_cell r2 b t4 f4] = Ok (files, dirs, muts) /\
    In f4 files /\ In (DeleteCell r2 Files b t4) muts.
Proof.
  intros Hr1 Hr2 Ha Hb Ht Hf Hn. rewrite !Forall_cons_iff in Hf. destruct Hf as (N1 & N2 & N3 & N4 & _).
  assert (E1 : [] <> r1) by (intros <-; now apply bytes_lt_irrefl in Hr1).
  assert (E2 : r1 <> r2) by (intros <-; now apply bytes_lt_irrefl in Hr2).
  assert (E3 : [] <> b) by (intros <-; exact (bytes_lt_irrefl _ (bytes_lt_trans _ _ _ Ha Hb))).
  unfold gc, scan_metadata. cbn [scan_cells].
  rewrite (proj1 (scan_branches r1 a t1 f1 gc_start N1)) by (assumption || reflexivity). cbn [bind].
  rewrite (proj1 (proj2 (scan_branches r1 b t2 f2 _ N2))) by (assumption || reflexivity). cbn [bind].
  rewrite (proj1 (scan_branches r2 a t3 f3 _ N3)) by (assumption || reflexivity). cbn [bind].
  rewrite (proj2 (proj2 (scan_branches r2 b t4 f4 _ N4))) by (assumption || reflexivity).
  cbn [bind files_map mutator found_valid_files gc_start reap]. do 3 eexists. split; [reflexivity|]. split; [|now left].
  cbn [In] in Hn. assert (Hc : forall f k m, f <> f4 -> count_of f4 (count_file f k m) = count_of f4 m).
  { intros f k m Hx. rewrite count_file_of, (proj2 (bytes_eqb_neq f f4)); auto. }
  apply dead_count; [repeat apply count_file_counted; try lia; split; constructor|].
  rewrite count_file_of, (proj2 (bytes_eqb_eq f4 f4) eq_refl), !Hc by tauto. reflexivity.
Qed.

(** Witnesses: two ranges [r] and [s] of a table with the groups [a] and [b]. *)
Lemma gc_removes_live_file_witness :
  exists files dirs muts,
    gc [meta_cell [114] [97] 1 [47; 49]; meta_cell [114] [98] 2 [47; 50]; meta_cell [115] [97] 4 [47; 51];
        meta_cell [115] [98] 3 [47; 52]] = Ok (files, dirs, muts) /\
    In [47; 52] files /\ In (DeleteCell [115] Files [98] 3) muts.
Proof.
  apply (gc_removes_live_file [114] [115] [97] [98] 1 2 4 3 [47; 49] [47; 50] [47; 51] [47; 52]); try reflexivity; try lia.
  - repeat constructor; cbn; congruence.
  - cbn. intuition discriminate.
Defined.

Lemma gc_keeps_first_group_witness :
  exists files dirs muts,
    gc [meta_cell [114] [97] 2 [47; 50]; meta_cell [114] [97] 1 [47; 49]] = Ok (files, dirs, muts) /\ ~ In [47; 50] files.
Proof.
  destruct (gc [meta_cell [114] [97] 2 [47; 50]; meta_cell [114] [97] 1 [47; 49]]) as [[[files dirs] muts]| |] eqn:E;
    [|discriminate E|discriminate E].
  exists files, dirs, muts. split; [reflexivity|].
  apply (gc_keeps_first_group [] (meta_cell [114] [97] 2 [47; 50]) [meta_cell [114] [97] 1 [47; 49]] files dirs muts).
  - repeat constructor.
  - discriminate.
  - intros [].
  - split; reflexivity.
  - exact E.
  - now left.
Defined.

End MasterGc.
