(* ===== verification/FileUse.v ===== *)
(** * Files in use

    A compaction replaces cell stores that open scanners may still read.  The
    access group counts the scanners of every file and keeps the files of replaced
    stores in the [Files] column, marked with [#], until the last scanner is gone;
    the garbage collector of the master removes what the column does not name.
    Here: no file in use is removed, when the column is written in the order of
    its changes; and what happens when it is not. *)
From S2P Require Import Prelude Errors Serialization ByteString Key Deletes CellCache Scanner MergeScanner Selection.
From S2P Require Import Schema Wire ScanContext BlockCodec CellStore CellStoreScanner AccessGroup Compaction MasterGc.
From Stdlib Require Import ZArith Lia List Bool Sorted Permutation.
Import ListNotations.
Open Scope Z_scope.
Open Scope result_scope.

Import AccessGroup.

(** ** Reference counts *)

Definition occ (f : list Z) (l : list (list Z)) : Z := zlen (filter (bytes_eqb f) l).

Lemma occ_cons f g l : occ f (g :: l) = (if bytes_eqb f g then 1 else 0) + occ f l.
Proof. unfold occ. cbn [filter]. destruct (bytes_eqb f g); rewrite ?zlen_cons; lia. Qed.

Lemma occ_bounds f l : 0 <= occ f l <= zlen l.
Proof. induction l as [|g l IH]; [now split|]. rewrite occ_cons, zlen_cons. destruct (bytes_eqb f g); lia. Qed.

Lemma occ_app f l l' : occ f (l ++ l') = occ f l + occ f l'.
Proof. unfold occ. now rewrite filter_app, zlen_app. Qed.

Lemma occ_perm f l l' : Permutation l l' -> occ f l = occ f l'.
Proof. intros H. induction H; rewrite ?occ_cons; lia. Qed.

Lemma occ_In f l : In f l <-> occ f l <> 0.
Proof.
  induction l as [|g l IH]; [now unfold occ; cbn|]. rewrite occ_cons. cbn [In]. pose proof (occ_bounds f l).
  destruct (bytes_eqb f g) eqn:E.
  - apply bytes_eqb_eq in E as ->. split; [lia|now left].
  - apply bytes_eqb_neq in E. rewrite IH. split; [intros [->|]; [congruence|lia]|]. intros Hn. right. lia.
Qed.

(** The map counts the files of [l]. *)
Definition refs_match (refs : FileRefCountMap) (l : list (list Z)) : Prop :=
  NoDup (map fst refs) /\ forall f, ref_of f refs = if occ f l =? 0 then None else Some (occ f l).

Lemma refs_perm refs l l' : Permutation l l' -> refs_match refs l -> refs_match refs l'.
Proof. intros Hp [H1 H2]. split; [assumption|]. intros f. now rewrite H2, (occ_perm f _ _ Hp). Qed.

Lemma ref_of_cons f g n m : ref_of f ((g, n) :: m) = if bytes_eqb g f then Some n else ref_of f m.
Proof. unfold ref_of. cbn [find fst]. now destruct (bytes_eqb g f). Qed.

Lemma ref_of_keys f m : In f (map fst m) <-> ref_of f m <> None.
Proof.
  induction m as [|[g n] m IH]; [now cbn|]. rewrite ref_of_cons. cbn [map fst In]. destruct (bytes_eqb g f) eqn:E.
  - apply bytes_eqb_eq in E as ->. split; [discriminate|now left].
  - apply bytes_eqb_neq in E. rewrite IH. tauto.
Qed.

Lemma eqb_sym a b : bytes_eqb a b = bytes_eqb b a.
Proof.
  destruct (bytes_eqb a b) eqn:E; symmetry; [apply bytes_eqb_eq in E as ->; now apply bytes_eqb_eq|].
  apply bytes_eqb_neq in E. apply bytes_eqb_neq. congruence.
Qed.

Lemma increment_ref f g m : ref_of f (increment_file_refcount g m) =
  if bytes_eqb g f then Some (match ref_of f m with None => 1 | Some n => u32 (n + 1) end) else ref_of f m.
Proof.
  induction m as [|[h n] m IH]; cbn [increment_file_refcount].
  - rewrite ref_of_cons. reflexivity.
  - destruct (bytes_eqb h g) eqn:E; rewrite !ref_of_cons.
    + apply bytes_eqb_eq in E as ->. now destruct (bytes_eqb g f).
    + rewrite IH. destruct (bytes_eqb h f) eqn:E2; [|reflexivity]. apply bytes_eqb_eq in E2 as ->.
      rewrite eqb_sym, E. reflexivity.
Qed.

Lemma increment_keys g m : NoDup (map fst m) -> NoDup (map fst (increment_file_refcount g m)).
Proof.
  induction m as [|[h n] m IH]; cbn [increment_file_refcount map fst]; intros Hn.
  - constructor; [intros []|constructor].
  - inv Hn. destruct (bytes_eqb h g) eqn:E; cbn [map fst]; constructor; auto.
    intros Hin. apply ref_of_keys in Hin. rewrite increment_ref in Hin. rewrite eqb_sym in E. rewrite E in Hin. now apply ref_of_keys in Hin.
Qed.

Lemma increment_match g m l : zlen l + 1 < 2 ^ 32 -> refs_match m l -> refs_match (increment_file_refcount g m) (g :: l).
Proof.
  intros Hl [H1 H2]. split; [now apply increment_keys|]. intros f. rewrite increment_ref, occ_cons, H2, (eqb_sym f g).
  pose proof (occ_bounds f l). destruct (bytes_eqb g f); [|reflexivity]. rewrite (proj2 (Z.eqb_neq (1 + occ f l) 0)) by lia. f_equal.
  destruct (Z.eqb_spec (occ f l) 0) as [->|Hn]; [reflexivity|]. rewrite u32_small by lia. lia.
Qed.

Lemma NoDup_filter_fst {A B} (p : A * B -> bool) m : NoDup (map fst m) -> NoDup (map fst (filter p m)).
Proof.
  induction m as [|e m IH]; cbn [filter map]; intros Hn; [constructor|]. inv Hn. destruct (p e); cbn [map]; [|auto]. constructor; [|auto].
  intros Hin. apply H1. apply in_map_iff in Hin as (x & <- & Hx). apply filter_In in Hx as [Hx _]. now apply in_map.
Qed.

Lemma filter_ref_gone g m : ref_of g (filter (fun e => negb (bytes_eqb (fst e) g)) m) = None.
Proof.
  induction m as [|[h n] m IH]; [reflexivity|]. cbn [filter fst]. destruct (bytes_eqb h g) eqn:E; cbn [negb]; [assumption|].
  now rewrite ref_of_cons, E.
Qed.

Lemma filter_ref_kept f g m : f <> g -> ref_of f (filter (fun e => negb (bytes_eqb (fst e) g)) m) = ref_of f m.
Proof.
  intros Hf. induction m as [|[h n] m IH]; [reflexivity|]. cbn [filter fst]. rewrite ref_of_cons. destruct (bytes_eqb h g) eqn:E; cbn [negb].
  - apply bytes_eqb_eq in E as ->. rewrite (proj2 (bytes_eqb_neq g f)) by congruence. assumption.
  - rewrite ref_of_cons. now rewrite IH.
Qed.

Lemma map_ref f g n m : ref_of f (map (fun e => if bytes_eqb (fst e) g then (fst e, n) else e) m) =
  if bytes_eqb g f then option_map (fun _ => n) (ref_of f m) else ref_of f m.
Proof.
  induction m as [|[h k] m IH]; cbn [map fst]; [now destruct (bytes_eqb g f)|]. rewrite ref_of_cons. destruct (bytes_eqb h g) eqn:E.
  - apply bytes_eqb_eq in E as ->. rewrite ref_of_cons. destruct (bytes_eqb g f); [reflexivity|assumption].
  - rewrite ref_of_cons, IH. destruct (bytes_eqb h f) eqn:E2; [|reflexivity]. apply bytes_eqb_eq in E2 as ->. now rewrite eqb_sym, E.
Qed.

Lemma map_ref_keys g n (m : FileRefCountMap) : map fst (map (fun e => if bytes_eqb (fst e) g then (fst e, n) else e) m) = map fst m.
Proof. rewrite map_map. apply map_ext. intros [h k]. cbn [fst]. now destruct (bytes_eqb h g). Qed.

Lemma decrement_match g m l : zlen l + 1 < 2 ^ 32 -> refs_match m (g :: l) ->
  exists m', decrement_file_refcount g m = Ok (occ g l =? 0, m') /\ refs_match m' l.
Proof.
  intros Hl [H1 H2]. unfold decrement_file_refcount. pose proof (occ_bounds g l) as Hb. pose proof (H2 g) as Hg.
  rewrite occ_cons, (proj2 (bytes_eqb_eq g g) eq_refl), (proj2 (Z.eqb_neq (1 + occ g l) 0)) in Hg by lia. rewrite Hg.
  replace (u32 (1 + occ g l - 1)) with (occ g l) by (rewrite u32_small; lia).
  assert (Hrest : forall f, f <> g -> ref_of f m = if occ f l =? 0 then None else Some (occ f l)).
  { intros f Hf. rewrite H2, occ_cons, (proj2 (bytes_eqb_neq f g) Hf). reflexivity. }
  destruct (Z.eqb_spec (occ g l) 0) as [E0|E0]; eexists; (split; [reflexivity|]).
  - split; [now apply NoDup_filter_fst|]. intros f. destruct (bytes_eqb f g) eqn:E.
    + apply bytes_eqb_eq in E as ->. rewrite E0. cbn. apply filter_ref_gone.
    + rewrite filter_ref_kept by now apply bytes_eqb_neq. apply Hrest. now apply bytes_eqb_neq.
  - split; [now rewrite map_ref_keys|]. intros f. rewrite map_ref. destruct (bytes_eqb g f) eqn:E.
    + apply bytes_eqb_eq in E as <-. rewrite Hg, (proj2 (Z.eqb_neq _ _) E0). reflexivity.
    + apply Hrest. apply bytes_eqb_neq in E. congruence.
Qed.

(** ** Sets of files *)

Lemma set_insert_In f g l : In f (set_insert g l) <-> f = g \/ In f l.
Proof.
  induction l as [|h l IH]; cbn [set_insert]; [cbn [In]; intuition|]. destruct (bytes_cmp g h) eqn:E; cbn [In]; [|intuition|rewrite IH; intuition].
  apply bytes_cmp_eq in E as ->. intuition.
Qed.

Lemma set_count_In f l : set_count f l = true <-> In f l.
Proof.
  unfold set_count. rewrite existsb_exists. split.
  - intros (x & Hx & E). now apply bytes_eqb_eq in E as ->.
  - intros H. exists f. split; [assumption|now apply bytes_eqb_eq].
Qed.

Lemma set_erase_In f g l : In f (set_erase g l) <-> f <> g /\ In f l.
Proof.
  unfold set_erase. rewrite filter_In, negb_true_iff, bytes_eqb_neq. tauto.
Qed.

Lemma in_use_In f live refs : In f (in_use live refs) <-> In f (map fst refs) /\ ~ In f live.
Proof.
  unfold in_use. enough (H : forall s, In f (fold_left (fun s e => if set_count (fst e) live then s else set_insert (fst e) s) refs s) <->
    In f s \/ In f (map fst refs) /\ ~ In f live) by (rewrite H; cbn; tauto).
  induction refs as [|[g n] refs IH]; intros s; cbn [fold_left map fst]; [cbn; tauto|]. rewrite IH. destruct (set_count g live) eqn:E.
  - apply set_count_In in E. cbn [In]. split; [tauto|]. intros [H|[[H|H] Hn]]; [tauto|subst; contradiction|tauto].
  - assert (Hg : ~ In g live) by (rewrite <- set_count_In; congruence). rewrite set_insert_In. cbn [In].
    split; [|intros [H|[[H|H] Hn]]; [tauto|left; left; congruence|tauto]]. intros [[->|H]|H]; [right; split; [now left|assumption]|tauto|tauto].
Qed.

(** ** Giving files back *)

Lemma release_loop_ok names : forall fs l, zlen (names ++ l) < 2 ^ 32 -> refs_match (m_file_refcounts fs) (names ++ l) ->
  exists need fs', release_loop names fs = Ok (need, fs') /\ refs_match (m_file_refcounts fs') l /\
    m_live_files fs' = m_live_files fs /\ x_column fs' = x_column fs /\
    incl (m_gc_locked_files fs') (m_gc_locked_files fs) /\
    (forall f, In f l -> In f (m_gc_locked_files fs) -> In f (m_gc_locked_files fs')).
Proof.
  induction names as [|x names IH]; intros fs l Hl Hm; cbn [release_loop].
  - exists false, fs. repeat split; try apply Hm; auto. apply incl_refl.
  - cbn [app] in Hl, Hm. rewrite zlen_cons in Hl. destruct (decrement_match x (m_file_refcounts fs) (names ++ l)) as (refs & -> & Hm'); [lia|assumption|]. cbn [bind].
    match goal with |- context [release_loop names ?F] => destruct (IH F l) as (need & fs' & -> & R1 & R2 & R3 & R4 & R5); [lia|assumption|] end.
    cbn [bind]. eexists _, fs'. split; [reflexivity|]. split; [assumption|]. split; [assumption|]. split; [assumption|].
    cbn [m_gc_locked_files] in R4, R5. destruct ((occ x (names ++ l) =? 0) && set_count x (m_gc_locked_files fs)) eqn:E.
    + apply andb_true_iff in E as [E _]. apply Z.eqb_eq in E. rewrite occ_app in E. split.
      * intros f Hf. apply R4 in Hf. now apply set_erase_In in Hf.
      * intros f Hf Hg. apply R5; [assumption|]. apply set_erase_In. split; [|assumption]. intros ->. apply occ_In in Hf.
        pose proof (occ_bounds x names). pose proof (occ_bounds x l). lia.
    + auto.
Qed.

Lemma hold_files_match {St W Sc E} {OP : CellStoreOps St W Sc E} (l : list St) : forall m held, zlen (map cst_filename l ++ held) < 2 ^ 32 ->
  refs_match m held -> refs_match (hold_files l m) (map cst_filename l ++ held).
Proof.
  induction l as [|st l IH]; intros m held Hl Hm; cbn [hold_files map app] in *; [assumption|]. rewrite zlen_cons in Hl.
  apply (refs_perm _ (map cst_filename l ++ cst_filename st :: held)); [symmetry; apply Permutation_middle|].
  rewrite zlen_app in Hl. pose proof (zlen_nonneg (map cst_filename l)).
  apply IH; [rewrite zlen_app, zlen_cons; lia|]. apply increment_match; [lia|assumption].
Qed.

(** ** The state of a group and its scanners *)

Section Use.

Context {St W Sc E : Type} {OP : CellStoreOps St W Sc E} {CS : CellListScanner Sc} {SP : CellStoreSpec OP}.
Context {Q : PriorityQueue (ScannerState (cached + Sc)) ss_key}.
Context (g : @Globals) (sch : Schema.Schema).

Definition store_names (a : @t St) : list (list Z) := map cst_filename (m_stores a).
Definition column_names (a : @t St) : list (list Z) := MasterGc.file_names (x_column (files a)) (zlen (x_column (files a))).

(** [scans] are the files of the open scanners. *)
Definition state : Type := world * @t St * list (list (list Z)).

(** What happens to an access group.  The column is written as it changes. *)
Inductive step : state -> state -> Prop :=
| step_open ctx w a scans ms names a' : create_scanner ctx a = Ok (ms, names, a') ->
    zlen (concat (names :: scans)) < 2 ^ 32 -> step (w, a, scans) (w, a', names :: scans)
| step_close w a names before after a' : release_files true names a = Ok a' ->
    step (w, a, before ++ names :: after) (w, a', before ++ after)
| step_compact fuel e arrivals shared ts major w a scans w' a' :
    run_compaction g sch fuel e arrivals shared true ts major w a = Ok (w', a') -> step (w, a, scans) (w', a', scans)
| step_add c ts w a scans w' a' : add c ts w a = Ok (w', a') -> step (w, a, scans) (w', a', scans).

Inductive reachable (s0 : state) : state -> Prop :=
| r_start : reachable s0 s0
| r_step s s' : reachable s0 s -> step s s' -> reachable s0 s'.

(** Files of which scanners read. *)
Definition in_use_file (s : state) (f : list Z) : Prop := let '(w, a, scans) := s in In f (store_names a) \/ In f (concat scans).

Definition plain_chars (l : list Z) : Prop := Forall (fun b => b <> 0 /\ b <> 59) l.
Definition group_named (a : @t St) : Prop :=
  plain_chars (g_table_name (ag a)) /\ plain_chars (g_name (ag a)) /\ plain_chars (g_hash g (g_end_row (ag a))).

Record inv (s : state) : Prop := {
  i_scans : let '(w, a, scans) := s in zlen (concat scans) < 2 ^ 32;
  i_refs : let '(w, a, scans) := s in refs_match (m_file_refcounts (files a)) (concat scans);
  i_held : let '(w, a, scans) := s in incl (concat scans) (store_names a ++ m_gc_locked_files (files a));
  i_live : let '(w, a, scans) := s in incl (m_live_files (files a)) (store_names a);
  i_group : let '(w, a, scans) := s in group_named a;
  i_names : let '(w, a, scans) := s in Forall MasterGc.named (store_names a ++ m_gc_locked_files (files a));
  i_column : let '(w, a, scans) := s in incl (store_names a ++ m_gc_locked_files (files a)) (column_names a);
  i_text : let '(w, a, scans) := s in hd 0 (x_column (files a)) <> 33 }.

(** ** The text of the column *)

Lemma names_text a : Forall MasterGc.named (store_names a ++ m_gc_locked_files (files a)) ->
  MasterGc.file_names (files_text a) (zlen (files_text a)) = store_names a ++ m_gc_locked_files (files a).
Proof.
  intros Hn. unfold MasterGc.file_names. unfold zlen. rewrite Nat2Z.id, firstn_all. unfold files_text, get_files.
  replace (map (fun st => cst_filename st ++ semicolon_newline) (m_stores a)) with
    (map (fun f => f ++ [59; 10]) (store_names a)) by (unfold store_names; now rewrite map_map).
  replace (map (fun f => 35 :: f ++ semicolon_newline) (m_gc_locked_files (files a))) with
    (map (fun f => f ++ [59; 10]) (map (cons 35) (m_gc_locked_files (files a)))) by now rewrite map_map.
  apply Forall_app in Hn as [H1 H2]. rewrite MasterGc.split_text by (eapply Forall_impl; [|exact H1]; now intros f ((_ & ? & _) & _)).
  pose proof (MasterGc.split_text (map (cons 35) (m_gc_locked_files (files a))) []) as Hs. rewrite !app_nil_r in Hs. rewrite Hs.
  2: { apply Forall_map. eapply Forall_impl; [|exact H2]. intros f ((_ & ? & _) & _). constructor; [discriminate|assumption]. }
  rewrite map_app, map_map. f_equal.
  - rewrite <- (map_id (store_names a)) at 2. apply map_ext_in. intros f Hf. rewrite Forall_forall in H1. now apply MasterGc.plain_ok, H1.
  - rewrite <- (map_id (m_gc_locked_files (files a))) at 2. apply map_ext_in. intros f Hf. rewrite Forall_forall in H2. now apply MasterGc.plain_ok, H2.
Qed.

Lemma text_head a : Forall MasterGc.named (store_names a) -> hd 0 (files_text a) <> 33.
Proof.
  intros Hn. unfold files_text, get_files, store_names in *. destruct (m_stores a) as [|st l]; cbn [map concat app] in *.
  - destruct (m_gc_locked_files (files a)) as [|f l]; cbn; discriminate.
  - inv Hn. destruct H1 as (_ & Hne & Hh). destruct (cst_filename st) as [|b f]; [congruence|]. exact Hh.
Qed.

(** ** The name of a new store *)

Lemma digits_plain fuel : forall n, 0 <= n -> plain_chars (dec_digits fuel n).
Proof.
  induction fuel as [|fuel IH]; intros n Hn; cbn [dec_digits]; [constructor|]. apply Forall_app. split.
  - destruct (n <? 10); [constructor|]. apply IH. now apply Z.div_pos.
  - constructor; [|constructor]. pose proof (Z.mod_pos_bound n 10). lia.
Qed.

Lemma decimal_plain n : plain_chars (decimal n).
Proof. unfold decimal. destruct (Z.ltb_spec n 0); [constructor; [lia|]|]; apply digits_plain; lia. Qed.

Lemma plain_named b l : b <> 33 -> b <> 35 -> plain_chars (b :: l) -> MasterGc.named (b :: l).
Proof.
  intros H1 H2 H. split; [|split; [discriminate|exact H1]]. split; [|split; [|exact H2]]; (eapply Forall_impl; [|exact H]); now intros x [].
Qed.

Lemma cs_file_named a : group_named a -> MasterGc.named (cs_file g a).
Proof.
  intros (H1 & H2 & H3). unfold cs_file, tables_dir. apply plain_named; [discriminate..|]. cbn [app].
  repeat (constructor; [lia|]). apply Forall_app. split; [assumption|]. constructor; [lia|]. apply Forall_app. split; [assumption|].
  constructor; [lia|]. apply Forall_app. split; [destruct (nonempty _); [assumption|]; now repeat (constructor; [lia|])|].
  repeat (constructor; [lia|]). apply decimal_plain.
Qed.

(** ** Every step keeps the invariant *)

Lemma add_same c ts w (a : @t St) w' a' : add c ts w a = Ok (w', a') -> ag a' = ag a /\ m_stores a' = m_stores a /\ files a' = files a /\
  m_next_table_id (nums a') = m_next_table_id (nums a).
Proof.
  unfold add. intros H. destruct (_ =? 0); apply bind_ok in H as ([w1 c1] & _ & H); inv H; auto.
Qed.

Lemma add_list_same l : forall w (a : @t St) w' a', add_list l w a = Ok (w', a') -> ag a' = ag a /\ m_stores a' = m_stores a /\ files a' = files a.
Proof.
  induction l as [|[c ts] l IH]; intros w a w' a' H; cbn [add_list] in H; [inv H; auto|].
  apply bind_ok in H as ([w1 a1] & H1 & H). destruct (add_same _ _ _ _ _ _ H1) as (A1 & A2 & A3 & _).
  destruct (IH _ _ _ _ H) as (B1 & B2 & B3). rewrite B1, B2, B3. auto.
Qed.

Lemma compact_loop_name ts cells : forall w w', compact_loop ts cells w = Ok (Some w') -> cst_wname w' = cst_wname w.
Proof.
  induction cells as [|c cells IH]; intros w w' H; cbn [compact_loop] in H; [now inv H|].
  destruct (parse_key (fst c)) as [k|]; [|discriminate]. destruct (k_ts k <=? ts); [|auto].
  apply bind_ok in H as ([b w1] & H1 & H). rewrite (IH _ _ H). exact (cst_add_name _ _ _ _ H1).
Qed.

(** What a compaction does to stores and files: nothing but their order, or it
    puts a new store in place of some. *)
Definition replaced (a a' : @t St) : Prop := exists kept st live,
  MasterGc.named (cst_filename st) /\ incl (map cst_filename kept) (store_names a) /\ incl live (map cst_filename kept) /\
  m_stores a' = kept ++ [st] /\
  files a' = {| m_gc_locked_files := in_use (set_insert (cst_filename st) live) (m_file_refcounts (files a));
                m_live_files := set_insert (cst_filename st) live; m_file_refcounts := m_file_refcounts (files a);
                x_column := files_text a' |}.

Lemma plan_files major a : files (fst (plan g major a)) = files a.
Proof. unfold plan. repeat match goal with |- context [if ?b then _ else _] => destruct b end; reflexivity. Qed.

Lemma file_set_incl l : incl (file_set l) (map (@cst_filename St W Sc E OP) l).
Proof.
  unfold file_set. enough (H : forall s, incl (fold_left (fun s st => set_insert (cst_filename st) s) l s) (s ++ map cst_filename l)) by apply (H []).
  induction l as [|st l IH]; intros s; cbn [fold_left map]; [rewrite app_nil_r; apply incl_refl|].
  intros f Hf. apply IH, in_app_iff in Hf. rewrite in_app_iff. cbn [In]. rewrite set_insert_In in Hf. intuition.
Qed.

Lemma remaining_incl idx a kept live : remaining idx a = (kept, live) -> incl (m_live_files (files a)) (store_names a) ->
  incl (map cst_filename kept) (store_names a) /\ incl live (map cst_filename kept).
Proof.
  intros H Hl. unfold remaining in H. destruct (idx <? _), (m_in_memory (ag a)); inv H;
    try (split; intros f []; fail); (split; [|assumption || apply file_set_incl || apply incl_refl]).
  - unfold store_names. apply incl_map. intros x Hx. rewrite <- (firstn_skipn (Z.to_nat idx)). apply in_app_iff. now left.
  - apply incl_refl.
Qed.

Lemma install_files ts idx st shared w a w' a' : install ts idx st shared w a = Ok (w', a') ->
  MasterGc.named (cst_filename st) -> incl (m_live_files (files a)) (store_names a) ->
  ag a' = ag a /\ replaced a (update_files_column true a').
Proof.
  unfold install. intros H Hn Hl. destruct (new_cache ts w a) as [[w1 parent] child].
  apply bind_ok in H as (w2 & _ & H). destruct (remaining idx a) as [kept live] eqn:Er. inv H. split; [reflexivity|].
  destruct (remaining_incl _ _ _ _ Er Hl) as [R1 R2]. exists kept, st, live. auto.
Qed.

Lemma run_files fuel e arrivals shared ts major w a w' a' : group_named a -> incl (m_live_files (files a)) (store_names a) ->
  run_compaction g sch fuel e arrivals shared true ts major w a = Ok (w', a') ->
  ag a' = ag a /\ (Permutation (store_names a') (store_names a) /\ files a' = files a \/ replaced a a').
Proof.
  intros Hg Hl H. unfold run_compaction in H. pose proof (plan_reorders g major a) as Hp. pose proof (plan_files major a) as Hf.
  destruct (plan g major a) as [a1 idx]. cbn [fst] in *. destruct Hp as (Eag & _ & Pst).
  assert (Pn : Permutation (store_names a1) (store_names a)) by now apply Permutation_map.
  destruct idx as [idx|]; [|inv H; auto].
  destruct (cst_create e _ _) as [wr|] eqn:Ec; [|inv H; auto].
  apply bind_ok in H as (ctx & _ & H). apply bind_ok in H as (cells & _ & H). apply bind_ok in H as (o & Ho & H).
  destruct o as [wr1|]; [|inv H; auto]. apply bind_ok in H as (o & Ef & H). destruct o as [st|]; [|inv H; auto].
  apply bind_ok in H as ([w2 a2] & Ha & H). apply bind_ok in H as ([w3 a3] & Hi & H). inv H.
  destruct (add_list_same _ _ _ _ _ Ha) as (A1 & A2 & A3). cbn [with_nums ag m_stores files] in A1, A2, A3.
  assert (En : MasterGc.named (cst_filename st)).
  { rewrite (cst_finalize_name _ _ _ Ef), (compact_loop_name _ _ _ _ Ho), (cst_create_name _ _ _ _ Ec). apply cs_file_named. unfold group_named. now rewrite Eag. }
  assert (P2 : Permutation (store_names a2) (store_names a)) by (unfold store_names at 1; now rewrite A2).
  destruct (install_files _ _ _ _ _ _ _ _ Hi En) as (E3 & kept & st' & live & R).
  { rewrite A3, Hf. intros f Hin. apply (Permutation_in _ (Permutation_sym P2)). auto. }
  split; [cbn; congruence|]. right. destruct R as (R1 & R2 & R3 & R4 & R5). exists kept, st', live. split; [assumption|].
  split; [intros f Hin; apply (Permutation_in _ P2); auto|]. split; [assumption|]. split; [exact R4|].
  rewrite A3, Hf in R5. exact R5.
Qed.

Lemma replaced_inv w w' a a' scans : inv (w, a, scans) -> ag a' = ag a -> replaced a a' -> inv (w', a', scans).
Proof.
  intros [I1 I2 I3 I4 I5 I6 I7 I8] Eag (kept & st & live & R1 & R2 & R3 & R4 & R5).
  assert (Sn : store_names a' = map cst_filename kept ++ [cst_filename st]) by (unfold store_names; now rewrite R4, map_app).
  assert (Hlive : incl (set_insert (cst_filename st) live) (store_names a')).
  { intros f Hf. rewrite Sn, in_app_iff. cbn [In]. apply set_insert_In in Hf as [->|Hf]; auto. }
  assert (Hrefs : forall f, In f (concat scans) <-> In f (map fst (m_file_refcounts (files a)))).
  { intros f. destruct I2 as [_ I2]. rewrite ref_of_keys, I2, occ_In. destruct (Z.eqb_spec (occ f (concat scans)) 0); split; congruence. }
  assert (Hgc : forall f, In f (m_gc_locked_files (files a')) <-> In f (concat scans) /\ ~ In f (set_insert (cst_filename st) live)).
  { intros f. rewrite R5. cbn [m_gc_locked_files]. rewrite in_use_In, Hrefs. reflexivity. }
  assert (Hn : Forall MasterGc.named (store_names a' ++ m_gc_locked_files (files a'))).
  { rewrite Forall_forall in *. intros f Hf. apply in_app_iff in Hf as [Hf|Hf].
    - rewrite Sn in Hf. apply in_app_iff in Hf as [Hf|[<-|[]]]; [|assumption]. apply I6, in_app_iff. auto.
    - apply Hgc in Hf as [Hf _]. apply I6. auto. }
  assert (Hx : x_column (files a') = files_text a') by now rewrite R5 at 1.
  split; auto.
  - now rewrite R5.
  - intros f Hf. rewrite in_app_iff. destruct (set_count f (set_insert (cst_filename st) live)) eqn:Es.
    + left. apply Hlive. now apply set_count_In.
    + right. apply Hgc. split; [assumption|]. rewrite <- set_count_In. congruence.
  - rewrite R5. exact Hlive.
  - unfold group_named. now rewrite Eag.
  - unfold column_names. rewrite Hx, names_text by assumption. apply incl_refl.
  - rewrite Hx. apply text_head. now apply Forall_app in Hn.
Qed.

(** A state that differs in the order of the stores. *)
Lemma same_inv w w' a a' scans : inv (w, a, scans) -> ag a' = ag a -> Permutation (store_names a') (store_names a) -> files a' = files a ->
  inv (w', a', scans).
Proof.
  intros [I1 I2 I3 I4 I5 I6 I7 I8] Eag Hp Ef. split; unfold column_names, group_named in *; rewrite ?Ef, ?Eag; auto.
  - intros f Hf. rewrite Hp. auto.
  - intros f Hf. rewrite Hp. auto.
  - now rewrite Hp.
  - intros f Hf. apply I7. now rewrite <- Hp.
Qed.

Lemma open_inv ctx w a scans ms names a' : inv (w, a, scans) -> create_scanner ctx a = Ok (ms, names, a') ->
  zlen (concat (names :: scans)) < 2 ^ 32 -> inv (w, a', names :: scans).
Proof.
  intros Hi H Hl. pose proof Hi as [I1 I2 I3 I4 I5 I6 I7 I8]. unfold create_scanner in H. destruct (m_in_memory (ag a)).
  - inv H. split; auto.
  - apply bind_ok in H as (ss & _ & H). inv H. cbn [concat] in *. split; auto; cbn [with_files files m_file_refcounts m_gc_locked_files concat].
    + now apply hold_files_match.
    + apply incl_app; [|assumption]. apply incl_appl, incl_refl.
Qed.

Lemma concat_middle {A} (before : list (list A)) x after :
  Permutation (concat (before ++ x :: after)) (x ++ concat (before ++ after)).
Proof.
  rewrite !concat_app. cbn [concat]. rewrite !app_assoc. apply Permutation_app_tail, Permutation_app_comm.
Qed.

(** Giving files back succeeds, and keeps the invariant. *)
Lemma close_inv w a names before after : inv (w, a, before ++ names :: after) ->
  exists a', release_files true names a = Ok a' /\ inv (w, a', before ++ after) /\ store_names a' = store_names a.
Proof.
  intros [I1 I2 I3 I4 I5 I6 I7 I8]. pose proof (concat_middle before names after) as Hp.
  unfold zlen in I1. rewrite (Permutation_length Hp) in I1. fold (zlen (names ++ concat (before ++ after))) in I1.
  destruct (release_loop_ok names (files a) (concat (before ++ after)) I1 (refs_perm _ _ _ Hp I2)) as (need & fs & Er & R1 & R2 & R3 & R4 & R5).
  assert (I0 : zlen (concat (before ++ after)) < 2 ^ 32) by (rewrite zlen_app in I1; pose proof (zlen_nonneg names); lia).
  assert (I3' : incl (concat (before ++ after)) (store_names a ++ m_gc_locked_files fs)).
  { intros f Hf. assert (Hin : In f (concat (before ++ names :: after))) by (apply (Permutation_in _ (Permutation_sym Hp)), in_app_iff; auto).
    apply I3, in_app_iff in Hin. rewrite in_app_iff. intuition. }
  assert (I6' : Forall MasterGc.named (store_names a ++ m_gc_locked_files fs)).
  { rewrite Forall_forall in *. intros f Hf. apply I6. apply in_app_iff in Hf. rewrite in_app_iff. intuition. }
  assert (I7' : incl (store_names a ++ m_gc_locked_files fs) (column_names a)).
  { intros f Hf. apply I7. apply in_app_iff in Hf. rewrite in_app_iff. intuition. }
  unfold release_files. rewrite Er. cbn [bind]. eexists. split; [reflexivity|]. destruct need; (split; [|reflexivity]).
  - unfold update_files_column. set (a1 := with_files fs a).
    split; cbn [with_files files m_file_refcounts m_gc_locked_files m_live_files x_column a1]; auto; try now rewrite R2.
    + unfold column_names. cbn [with_files files x_column]. change (store_names _) with (store_names a1).
      change (m_gc_locked_files fs) with (m_gc_locked_files (files a1)). rewrite names_text by assumption. apply incl_refl.
    + apply (text_head a1). now apply Forall_app in I6'.
  - split; cbn [with_files files]; auto; try now rewrite R2.
    + unfold column_names in *. cbn [with_files files]. now rewrite R3.
    + now rewrite R3.
Qed.

Lemma step_inv s s' : inv s -> step s s' -> inv s'.
Proof.
  intros Hi Hs. destruct Hs as [ctx w a scans ms names a' H Hl|w a names before after a' H|fuel e arrivals shared ts major w a scans w' a' H|c ts w a scans w' a' H].
  - eapply open_inv; eassumption.
  - destruct (close_inv _ _ _ _ _ Hi) as (a2 & E2 & I2 & _). congruence.
  - destruct (run_files _ _ _ _ _ _ _ _ _ _ (i_group _ Hi) (i_live _ Hi) H) as [Eag [[Hp Ef]|Hr]];
      [eapply same_inv; eassumption|eapply replaced_inv; eassumption].
  - destruct (add_same _ _ _ _ _ _ H) as (E1 & E2 & E3 & _). eapply same_inv; [eassumption..| |assumption]. unfold store_names. now rewrite E2.
Qed.

Lemma reachable_inv s0 s : inv s0 -> reachable s0 s -> inv s.
Proof. intros H0. induction 1 as [|s s' Hr IH Hs]; [assumption|]. eapply step_inv; eassumption. Qed.

Lemma in_use_named s f : inv s -> in_use_file s f -> let '(w, a, scans) := s in In f (column_names a).
Proof.
  destruct s as [[w a] scans]. intros [_ _ I3 _ _ _ I7 _] Hf. apply I7. rewrite in_app_iff.
  destruct Hf as [Hf|Hf]; [auto|]. apply I3 in Hf. now apply in_app_iff.
Qed.


(** ** Writing out of order *)

(** [update_files_column] makes the text under the lock and writes it later. *)
Definition write_column (text : list Z) (a : @t St) : @t St :=
  with_files {| m_gc_locked_files := m_gc_locked_files (files a); m_live_files := m_live_files (files a);
                m_file_refcounts := m_file_refcounts (files a); x_column := text |} a.

Lemma update_writes a : update_files_column true a = write_column (files_text a) a.
Proof. reflexivity. Qed.

(** When a scanner is released while a compaction ends, its text of the column
    can be written behind that of the compaction: then the new store is live, but
    the column in METADATA does not name it, and a restart loses its cells. *)
Theorem stale_files_column w a scans names before after fs ts idx st shared w1 a1 :
  inv (w, a, scans) -> scans = before ++ names :: after -> release_loop names (files a) = Ok (true, fs) ->
  let a0 := with_files fs a in
  install ts idx st shared w a0 = Ok (w1, a1) ->
  ~ In (cst_filename st) (store_names a ++ m_gc_locked_files (files a)) ->
  let final := write_column (files_text a0) (write_column (files_text a1) a1) in
  In (cst_filename st) (store_names final) /\ ~ In (cst_filename st) (column_names final).
Proof.
  intros Hi Hs Hr a0 Hin Hnew final. subst scans. pose proof Hi as [I1 I2 I3 I4 I5 I6 I7 I8].
  assert (Hgc : incl (m_gc_locked_files fs) (m_gc_locked_files (files a))).
  { pose proof (concat_middle before names after) as Hp. unfold zlen in I1. rewrite (Permutation_length Hp) in I1.
    destruct (release_loop_ok names (files a) (concat (before ++ after)) I1 (refs_perm _ _ _ Hp I2)) as (need & fs' & Er & _ & _ & _ & R & _).
    rewrite Er in Hr. now inv Hr. }
  assert (Hsub : incl (store_names a0 ++ m_gc_locked_files (files a0)) (store_names a ++ m_gc_locked_files (files a))).
  { intros f Hf. apply in_app_iff in Hf. rewrite in_app_iff. cbn [a0 with_files files] in Hf. change (store_names a0) with (store_names a) in Hf. intuition. }
  split.
  - unfold install in Hin. destruct (new_cache ts w a0) as [[w2 parent] child]. apply bind_ok in Hin as (w3 & _ & Hin).
    destruct (remaining idx a0) as [kept live]. inv Hin. unfold store_names, final, write_column. cbn. rewrite map_app, in_app_iff. right. now left.
  - unfold column_names, final, write_column. cbn [with_files files x_column]. rewrite names_text; [intros H; apply Hnew; auto|].
    rewrite Forall_forall in *. auto.
Qed.

End Use.
