(* ===== verification/StoreV0.v ===== *)
(** * [CellStoreV0] as the cell stores of an access group

    The implementation of the interface of AccessGroup.v by [CellStoreV0] and
    [CellStoreScannerV0] (CellStore.v and CellStoreScanner.v).  The compression
    functions, the answers of the block cache for a file, and the times at which
    reads are answered are arguments. *)
From S2P Require Import Prelude Errors Serialization ByteString Key Deletes CellCache Scanner MergeScanner.
From S2P Require Import Wire BlockCodec BufferedReader CellStore BlockCache CellStoreScanner AccessGroup.
From Stdlib Require Import ZArith Lia List Bool Sorted SpecFloat.
Import ListNotations.
Open Scope Z_scope.
Open Scope result_scope.

(** The single precision number with a given representation. *)
Definition f32_of_bits (b : Z) : f32 :=
  let s := Z.testbit b 31 in
  let e := Z.shiftr b 23 mod 256 in
  let m := b mod 2 ^ 23 in
  if e =? 255 then (if m =? 0 then S754_infinity s else S754_nan)
  else if e =? 0 then (if m =? 0 then S754_zero s else S754_finite s (Z.to_pos m) (-149))
  else S754_finite s (Z.to_pos (m + 2 ^ 23)) (e - 150).

Module StoreV0.

(** A store with its name.  [so_cells] is what was written; no operation reads
    it. *)
Record Store := { so_name : list Z; so_store : CellStoreV0; so_cells : list cell }.
Record Writing := { wr_name : list Z; wr_behind : list Z; wr_writer : Writer; wr_cells : list cell }.

(** What the file system does: whether the file can be created, the outcomes of
    the other calls, and the memory behind the index buffer of [finalize]. *)
Record Calls := { ca_create : bool; ca_dfs : list outcome; ca_behind : list Z }.

Section Implementation.

Context (z : Compressor) (cache : Store -> CacheView) (sched : list nat).

Record Scan := { sn_store : Store; sn_mask : Z -> bool; sn_state : @CellStoreScanner.t BufferedReader.t }.

#[local] Instance reader (st : Store) : SequentialReader (s_file (so_store st)) BufferedReader.t :=
  handler_reader (s_file (so_store st)) sched.

Definition scan_forward (s : Scan) : result (@CellStoreScanner.t BufferedReader.t) :=
  let st := sn_store s in
  CellStoreScanner.forward (s_file (so_store st)) z (s_trailer (so_store st)) (cache st) (sn_mask s)
    (CellStoreScanner.fuel (s_trailer (so_store st))) (sn_state s).

Definition scan_rest (s : Scan) : result (list cell) :=
  let st := sn_store s in
  CellStoreScanner.scan_list (s_file (so_store st)) z (s_trailer (so_store st)) (cache st) (sn_mask s)
    (CellStoreScanner.fuel (s_trailer (so_store st))) (sn_state s).

#[export] Instance store_ops : CellStoreOps Store Writing Scan Calls := {|
  cst_filename := so_name;
  cst_disk_usage st := m_disk_usage (so_store st);
  cst_compression_ratio st := f32_of_bits (compression_ratio_i32 (s_trailer (so_store st)));
  cst_split_row st := m_split_row (so_store st);
  cst_timestamp st := t_timestamp (s_trailer (so_store st));
  cst_create_scanner st b single :=
    s <- CellStoreScanner.make (s_file (so_store st)) z (s_trailer (so_store st)) (m_index (so_store st)) (cache st)
           (family_mask b) (m_start_row (so_store st)) (m_end_row (so_store st)) (start_row b) (end_row b) single ;;
    Ok {| sn_store := st; sn_mask := family_mask b; sn_state := s |};
  cst_create e name bsize :=
    if ca_create e
    then Some {| wr_name := name; wr_behind := ca_behind e; wr_writer := create z bsize (ca_dfs e); wr_cells := [] |}
    else None;
  cst_add c w :=
    '(ok, wr) <- CellStore.add z c (wr_writer w) ;;
    Ok (ok, {| wr_name := wr_name w; wr_behind := wr_behind w; wr_writer := wr; wr_cells := wr_cells w ++ [c] |});
  cst_finalize ts w :=
    s <- finalize z (wr_behind w) ts (wr_writer w) ;;
    Ok (option_map (fun s => {| so_name := wr_name w; so_store := s; so_cells := wr_cells w |}) s);
  cst_reopen st start end_ :=
    match (o <- open (s_file (so_store st)) start end_ ;; load_index z o) with
    | Ok s => Ok (Some {| so_name := so_name st; so_store := s; so_cells := so_cells st |})
    | Throw _ => Ok None
    | Fault => Fault
    end |}.

Context (Hz : Lossless z).
Context (Hcache : forall st chunks tl_, cell_file z (so_store st) chunks tl_ ->
  CellStoreScanner.coherent z chunks (cache st)).

(** A finished store of its cells. *)
Definition valid (st : Store) : Prop :=
  exists chunks tl_, cell_file z (so_store st) chunks tl_ /\ m_index (so_store st) = layout z 0 chunks /\
    concat chunks = so_cells st.

(** A scanner that still has [l] to give. *)
Definition shows (s : Scan) (l : list cell) : Prop :=
  let st := sn_store s in
  exists chunks tl_ start end_ b, cell_file z (so_store st) chunks tl_ /\
    CellStoreScanner.scan_ok start end_ (start_row b) (end_row b) (concat chunks) /\
    CellStoreScanner.view z (so_store st) chunks (sn_mask s) (CellStoreScanner.scan_start start (start_row b))
      (CellStoreScanner.scan_end end_ (end_row b)) (negb (bytes_ltb (end_row b) end_)) (sn_state s) l.

Lemma shows_step s l : shows s l -> CellStoreScanner.get (sn_state s) = Ok (hd_error l) /\
  (l <> [] -> exists x, scan_forward s = Ok x /\ shows {| sn_store := sn_store s; sn_mask := sn_mask s; sn_state := x |} (tl l)) /\
  scan_rest s = Ok l.
Proof.
  intros (chunks & tl_ & start & end_ & b & CF & SO & V). pose proof (Hcache _ _ _ CF) as HC.
  destruct (CellStoreScanner.view_next z (so_store (sn_store s)) chunks tl_ (cache (sn_store s)) (sn_mask s) start end_ _ _ Hz CF HC SO _ _ V) as [Hg Hf].
  split; [assumption|]. split.
  - intros Hl. destruct (Hf Hl) as (x & Ex & V'). exists x. split; [exact Ex|]. exists chunks, tl_, start, end_, b. auto.
  - unfold scan_rest. rewrite (CellStoreScanner.scan_list_ok z (so_store (sn_store s)) chunks tl_ (cache (sn_store s)) (sn_mask s) start end_ _ _ Hz CF HC SO _ _ _ V).
    f_equal. apply firstn_all2. destruct V as [[-> _]|(c & l' & St & _ & ->)]; [cbn; lia|].
    destruct (CellStoreScanner.stands_good z Hz (so_store (sn_store s)) chunks tl_ CF _ _ _ _ _ _ St) as (_ & _ & _ & before & Hb).
    unfold CellStoreScanner.fuel. rewrite (cf_total _ _ _ _ CF), Hb. unfold zlen. rewrite Nat2Z.id, length_app. cbn [length].
    pose proof (filter_length_le (CellStoreScanner.vis (sn_mask s) (CellStoreScanner.scan_end end_ (end_row b))) l'). lia.
Qed.

#[export] Instance store_scanner : CellListScanner Scan.
Proof using Hz Hcache sched.
  refine {|
    sc_get s := (match CellStoreScanner.get (sn_state s) with Ok o => o | _ => None end, s);
    sc_forward s := match scan_forward s with
                    | Ok x => {| sn_store := sn_store s; sn_mask := sn_mask s; sn_state := x |}
                    | _ => s
                    end;
    sc_inv s := exists l, shows s l;
    sc_cells s := match scan_rest s with Ok l => l | _ => [] end |}.
  - intros s (l & Hl). destruct (shows_step s l Hl) as (Hg & _ & Hr). cbn [fst snd]. rewrite Hg, Hr. eauto.
  - intros s c (l & Hl) Ec. destruct (shows_step s l Hl) as (Hg & Hf & Hr). rewrite Hg in Ec. injection Ec as Ec.
    destruct Hf as (x & Ex & Hx); [now intros ->|]. destruct (shows_step _ _ Hx) as (_ & _ & Hr').
    rewrite Ex, Hr, Hr'. eauto.
Defined.

(** Adding one by one. *)
Lemma add_cells_all cells : forall w wr, add_all z cells (wr_writer w) = Ok wr ->
  add_cells cells w = Ok {| wr_name := wr_name w; wr_behind := wr_behind w; wr_writer := wr; wr_cells := wr_cells w ++ cells |}.
Proof.
  induction cells as [|c cells IH]; intros w wr; cbn [add_all add_cells].
  - intros [= <-]. rewrite app_nil_r. now destruct w.
  - cbn [cst_add store_ops]. destruct (CellStore.add z c (wr_writer w)) as [[ok w1]|e|]; cbn [bind]; try discriminate.
    intros H. erewrite IH by exact H. cbn [wr_name wr_behind wr_cells]. now rewrite <- app_assoc.
Qed.

Definition fine (e : Calls) : Prop := ca_create e = true /\ Forall (eq Written) (ca_dfs e) /\ holds_row (ca_behind e).

Lemma write_store e name bsize cells ts : fine e -> in_range 32 bsize -> ok_Timestamp ts ->
  Forall CellStore.good_cell cells -> StronglySorted cell_lt cells -> weight cells < 2 ^ 32 ->
  exists w w' st, cst_create e name bsize = Some w /\ add_cells cells w = Ok w' /\ cst_finalize ts w' = Ok (Some st) /\
    valid st /\ so_cells st = cells /\ m_start_row (so_store st) = [] /\ m_end_row (so_store st) = END_ROW_MARKER /\ so_name st = name.
Proof using Hz.
  intros (Hc & Hd & Hb) Hbs Hts Hg Hs Hw.
  destruct (add_all_ok z Hz cells (create z bsize (ca_dfs e)) [] []) as (wr & chunks0 & cur & Ea & Wr & Ec);
    [now apply create_writes|eapply Forall_impl; [|exact Hg]; now intros c []|exact Hw|]. cbn [concat app] in Ec.
  destruct (finalize_ok z Hz wr chunks0 cur (ca_behind e) ts Wr) as (s & chunks & tl & Ef & Ecc & CF & Hi & Ht & _); rewrite ?Ec; auto.
  pose proof (finalize_rows z _ _ _ _ Ef) as [R1 R2].
  cbn [cst_create cst_finalize store_ops]. rewrite Hc. do 3 eexists. split; [reflexivity|]. split; [apply add_cells_all, Ea|].
  cbn [wr_behind wr_writer wr_name wr_cells app]. rewrite Ef. cbn [bind option_map]. split; [reflexivity|].
  cbn [so_store so_cells so_name]. split; [|tauto]. exists chunks, tl. cbn [so_store so_cells]. rewrite Ecc, Ec. auto.
Qed.

Lemma reopen_store st start end_ : valid st -> wf_bytes end_ -> bytes_lt start end_ ->
  bytes_lt (row_bound start) (chunk_key (so_cells st)) ->
  exists st', cst_reopen st start end_ = Ok (Some st') /\ valid st' /\ so_cells st' = so_cells st /\
    m_start_row (so_store st') = start /\ m_end_row (so_store st') = end_ /\ so_name st' = so_name st.
Proof using Hz.
  intros (chunks & tl_ & CF & Hi & Hc) We Hlt Hlow. cbn [cst_reopen store_ops].
  rewrite (open_ok z Hz (so_store st) chunks tl_) by assumption. cbn [bind].
  destruct (load_index_ok z Hz (so_store st) chunks tl_ start end_ CF We Hlt) as (s' & -> & Hi' & Hf & Ht & Hl & H1 & H2 & _).
  - rewrite <- Hc in Hlow. destruct (last_chunk chunks) as (c & Hin & Hk); [apply CF| |exists c; now rewrite Hk].
    intros E0. rewrite E0 in Hlow. unfold row_bound in Hlow. destruct start; discriminate.
  - eexists. split; [reflexivity|]. cbn [so_store so_cells so_name]. split; [|auto]. exists chunks, tl_. cbn [so_store so_cells].
    split; [|auto]. destruct CF as [C1 C2 C3 C4 C5 C6 C7 C8 C9 C10 C11 [C12 C13]]. split; rewrite ?Hf, ?Ht, ?Hl; auto.
Qed.

#[export] Instance store_spec : CellStoreSpec store_ops.
Proof using Hz Hcache sched.
  refine {| cst_cells := so_cells; cst_start st := m_start_row (so_store st); cst_end st := m_end_row (so_store st);
            cst_valid := valid; cst_fine := fine; cst_wname := wr_name |}.
  - intros e name bsize w. cbn [cst_create store_ops]. destruct (ca_create e); [|discriminate]. now intros [= <-].
  - intros c w b w'. cbn [cst_add store_ops]. destruct (CellStore.add z c (wr_writer w)) as [[ok wr]| |]; cbn [bind]; try discriminate.
    now intros [= _ <-].
  - intros ts w st. cbn [cst_finalize store_ops]. destruct (finalize z (wr_behind w) ts (wr_writer w)) as [[s|]| |]; cbn [bind option_map]; try discriminate.
    now intros [= <-].
  - intros st (chunks & tl_ & CF & _ & <-). split; [|apply CF]. apply Forall_concat, CF.
  - intros st b single (chunks & tl_ & CF & Hi & Hc) SO. rewrite <- Hc in *. cbn [cst_create_scanner store_ops]. rewrite Hi.
    pose proof (Hcache _ _ _ CF) as HC.
    destruct (CellStoreScanner.make_view z (so_store st) chunks tl_ (cache st) (family_mask b) _ _ _ _ single Hz CF HC SO) as (s & -> & V).
    cbn [bind]. rewrite (CellStoreScanner.scan_wants_eq _ _ _ _ (family_mask b) _ SO) in V.
    assert (Hs : shows {| sn_store := st; sn_mask := family_mask b; sn_state := s |}
      (filter (CellStoreScanner.scan_wants (m_start_row (so_store st)) (m_end_row (so_store st)) (start_row b) (end_row b) (family_mask b)) (concat chunks))).
    { exists chunks, tl_, (m_start_row (so_store st)), (m_end_row (so_store st)), b. auto. }
    eexists. split; [reflexivity|]. split; [eexists; exact Hs|]. destruct (shows_step _ _ Hs) as (_ & _ & Hr). cbn [sc_cells store_scanner]. now rewrite Hr.
  - intros e name bsize cells ts. exact (write_store e name bsize cells ts).
  - intros st start end_. exact (reopen_store st start end_).
Defined.

End Implementation.

End StoreV0.
