(* ===== verification/GroupSamples.v ===== *)
(** * Concrete access groups

    Instances of the theorems on access groups: a group over [CellStoreV0] whose
    blocks are compressed by repetition counts, with one cell in its cache. *)
From S2P Require Import Prelude Errors Serialization ByteString Key Deletes CellCache Scanner MergeScanner Selection.
From S2P Require Import Schema Wire ScanContext BlockCodec BufferedReader CellStore BlockCache CellStoreScanner AccessGroup.
From S2P Require Import Compaction MasterGc FileUse StoreV0.
From Stdlib Require Import ZArith Lia List Bool Sorted SpecFloat Sorting.Permutation.
Import ListNotations.
Open Scope Z_scope.
Open Scope result_scope.
Import AccessGroup.

(** A group with one cell in its cache and no stores. *)
Definition sample_globals : Globals :=
  {| access_group_max_files := 10; access_group_merge_files := 4; g_node := 16; g_hash := fun _ => repeat 48 24 |}.
Definition sample_group : group :=
  {| g_table_name := [116]; g_name := [103]; g_end_row := END_ROW_MARKER; m_column_families := [1]; m_blocksize := 12;
     m_in_memory := false |}.
Definition sample_ag : @t StoreV0.Store :=
  let g := make sample_group [] in with_nums (set_needs true (nums g)) (with_cache sample_cache g).
Definition sample_time : Timestamp := {| logical := 80; real := 5 |}.
Definition sample_calls : StoreV0.Calls := {| StoreV0.ca_create := true; StoreV0.ca_dfs := []; StoreV0.ca_behind := [1; 0] |}.
Definition compaction_context : ScanContext :=
  match fst (ScanContext_initialize (i64 (logical sample_time + 1)) None (Some sample_table)) with
  | Ok c => c
  | _ => {| spec := None; interval := (0, 0); sc_bounds := {| start_row := []; end_row := []; family_mask := fun _ => false |};
            sc_info := fun _ => {| cutoff_time := 0; MergeScanner.max_versions := 0 |} |}
  end.
Definition late_insert (ts : Z) : KeyComps :=
  {| k_row := [115]; k_family := 1; k_qual := [113]; k_flag := FLAG_INSERT; k_ts := ts |}.

#[local] Instance sample_ops : CellStoreOps StoreV0.Store StoreV0.Writing StoreV0.Scan StoreV0.Calls :=
  StoreV0.store_ops codec_repeat (fun _ => CellStoreScanner.cold_cache) [].
Lemma sample_coherent : forall st chunks tl_, cell_file codec_repeat (StoreV0.so_store st) chunks tl_ ->
  CellStoreScanner.coherent codec_repeat chunks CellStoreScanner.cold_cache.
Proof. intros. apply CellStoreScanner.cold_coherent. Qed.
#[local] Instance sample_scanner : CellListScanner StoreV0.Scan :=
  StoreV0.store_scanner codec_repeat (fun _ => CellStoreScanner.cold_cache) [] lossless_repeat sample_coherent.
#[local] Instance sample_store_spec : CellStoreSpec sample_ops :=
  StoreV0.store_spec codec_repeat (fun _ => CellStoreScanner.cold_cache) [] lossless_repeat sample_coherent.

Lemma sample_ag_wf : AccessGroup.wf sample_world sample_ag.
Proof.
  split; [exact sample_wf| |constructor|constructor]. constructor; [|constructor]. split; [exists rec_insert; split; [exact rec_insert_wf|reflexivity]|].
  split; [|discriminate]. split; split; [reflexivity| |reflexivity|]; repeat constructor; vm_compute; intuition discriminate.
Qed.

Lemma compaction_context_ok : fst (ScanContext_initialize (i64 (logical sample_time + 1)) None (Some sample_table)) = Ok compaction_context.
Proof. reflexivity. Qed.

Definition sample_cell : cell := (e_key sample_entry, e_value sample_entry).

Lemma sample_cells : all_cells sample_ag = [sample_cell].
Proof. reflexivity. Qed.

Lemma sample_compactable : compactable compaction_context 5 sample_ag.
Proof.
  split; rewrite ?sample_cells.
  - reflexivity.
  - repeat constructor. intros [].
  - reflexivity.
  - repeat constructor.
  - constructor.
  - cbn. lia.
  - split; [discriminate|reflexivity].
Qed.

Lemma sample_limits : limits_fit compaction_context.
Proof.
  intros f. replace (MergeScanner.max_versions (sc_info compaction_context f)) with
    (MergeScanner.max_versions (if f =? 2 then {| cutoff_time := 0; MergeScanner.max_versions := 3 |}
     else if f =? 1 then {| cutoff_time := 0; MergeScanner.max_versions := 3 |}
     else {| cutoff_time := 0; MergeScanner.max_versions := 0 |})) by reflexivity.
  destruct (f =? 2), (f =? 1); split; easy.
Qed.

Lemma sample_fine : cst_fine sample_calls.
Proof. split; [reflexivity|]. split; [constructor|]. exists [0]. split; [reflexivity|now left]. Qed.

Lemma late_addable ts : ts = 75 \/ ts = 90 -> addable (pack (late_insert ts), [118]).
Proof.
  intros Hts. assert (Hw : wf_comps (late_insert ts)) by (destruct Hts as [-> | ->]; solve_wf_comps).
  split; [|destruct Hts as [-> | ->]; reflexivity]. split; [now exists (late_insert ts)|]. destruct Hts as [-> | ->].
  - split; [|discriminate]. split; split; [reflexivity| |reflexivity|]; repeat constructor; vm_compute; intuition discriminate.
  - split; [|discriminate]. split; split; [reflexivity| |reflexivity|]; repeat constructor; vm_compute; intuition discriminate.
Qed.

Lemma late_arriving ts : ts = 75 \/ ts = 90 -> arriving [((pack (late_insert ts), [118]), ts)] sample_ag.
Proof.
  intros Hts. split; [constructor; [now apply late_addable|constructor]|].
  destruct Hts as [-> | ->]; repeat constructor; vm_compute; intuition discriminate.
Qed.


(** Witness of [late_updates_lost]: the update is of time 75. *)
Lemma late_updates_lost_witness :
  exists w' a', run_compaction sample_globals sample_table 5 sample_calls [((pack (late_insert 75), [118]), 75)]
      false true sample_time false sample_world sample_ag = Ok (w', a') /\ ~ In (pack (late_insert 75), [118]) (all_cells a').
Proof.
  apply (late_updates_lost sample_globals sample_table 5 sample_calls [((pack (late_insert 75), [118]), 75)]
    false true sample_time sample_world sample_ag compaction_context (pack (late_insert 75), [118])).
  - exact sample_ag_wf.
  - exact compaction_context_ok.
  - exact sample_compactable.
  - exact sample_fine.
  - repeat split; vm_compute; intuition discriminate.
  - apply late_arriving. now left.
  - discriminate.
  - now left.
  - reflexivity.
  - vm_compute. intuition discriminate.
Defined.


(** ** Files in use *)

(** A compaction, a scanner, and a major compaction that replaces the store the
    scanner reads. *)
Definition run_or (arrivals : list (cell * Z)) (ts : Timestamp) (major : bool) (s : world * @t StoreV0.Store) : world * @t StoreV0.Store :=
  match run_compaction sample_globals sample_table 5 sample_calls arrivals true true ts major (fst s) (snd s) with
  | Ok s' => s'
  | _ => s
  end.
Definition open_or (a : @t StoreV0.Store) : list (list Z) * @t StoreV0.Store :=
  match create_scanner compaction_context a with Ok (_, names, a') => (names, a') | _ => ([], a) end.

Definition later_time : Timestamp := {| logical := 95; real := 6 |}.
Definition first_state : world * @t StoreV0.Store := run_or [((pack (late_insert 90), [118]), 90)] sample_time true (sample_world, sample_ag).
Definition opened : list (list Z) * @t StoreV0.Store := open_or (snd first_state).
Definition second_state : world * @t StoreV0.Store := run_or [] later_time true (fst first_state, snd opened).

Lemma first_runs : run_compaction sample_globals sample_table 5 sample_calls [((pack (late_insert 90), [118]), 90)] true true sample_time true
  sample_world sample_ag = Ok (fst first_state, snd first_state).
Proof. vm_compute. reflexivity. Qed.

Lemma scanner_opens : exists ms, create_scanner compaction_context (snd first_state) = Ok (ms, fst opened, snd opened).
Proof. eexists. vm_compute. reflexivity. Qed.

Lemma second_runs : run_compaction sample_globals sample_table 5 sample_calls [] true true later_time true (fst first_state) (snd opened) =
  Ok (fst second_state, snd second_state).
Proof. vm_compute. reflexivity. Qed.

Lemma sample_inv : FileUse.inv sample_globals (sample_world, sample_ag, []).
Proof.
  split; try (cbn; discriminate); try (intros f []; fail); try constructor; try reflexivity.
  - constructor.
  - repeat constructor; cbn; discriminate.
  - split; repeat constructor; cbn; discriminate.
Qed.

Lemma sample_reachable : reachable sample_globals sample_table (sample_world, sample_ag, []) (fst second_state, snd second_state, [fst opened]).
Proof.
  destruct scanner_opens as [ms Ho]. eapply r_step; [eapply r_step; [eapply r_step; [apply r_start|]|]|].
  - eapply step_compact. exact first_runs.
  - eapply (step_open sample_globals sample_table compaction_context); [exact Ho|]. vm_compute. reflexivity.
  - eapply step_compact. exact second_runs.
Qed.

Definition files_cell : MasterGc.Cell :=
  {| MasterGc.row_key := [49; 58; 115]; MasterGc.column_family := MasterGc.Files; MasterGc.column_qualifier := [103];
     MasterGc.timestamp := 7; MasterGc.value := x_column (files (snd second_state));
     MasterGc.value_len := zlen (x_column (files (snd second_state))) |}.


(** Witness of [stale_files_column]: the scanner is released while a third
    compaction installs a store. *)
Definition third_store (st : StoreV0.Store) : StoreV0.Store :=
  {| StoreV0.so_name := [47; 51]; StoreV0.so_store := StoreV0.so_store st; StoreV0.so_cells := StoreV0.so_cells st |}.

Lemma second_store : exists st, m_stores (snd second_state) = [st].
Proof. eexists. vm_compute. reflexivity. Qed.

Lemma stale_files_column_witness :
  exists st fs w1 a1, release_loop (fst opened) (files (snd second_state)) = Ok (true, fs) /\
    install later_time 1 (third_store st) true (fst second_state) (with_files fs (snd second_state)) = Ok (w1, a1) /\
    let final := write_column (files_text (with_files fs (snd second_state))) (write_column (files_text a1) a1) in
    In [47; 51] (store_names final) /\ ~ In [47; 51] (column_names final).
Proof.
  destruct second_store as [st Hst].
  destruct (release_loop (fst opened) (files (snd second_state))) as [[need fs]| |] eqn:Er; [|vm_compute in Er; discriminate..].
  assert (need = true) as -> by (vm_compute in Er; congruence).
  destruct (install later_time 1 (third_store st) true (fst second_state) (with_files fs (snd second_state))) as [[w1 a1]| |] eqn:Ei.
  2, 3: exfalso; revert Ei; unfold install; cbn [bind]; destruct (new_cache _ _ _) as [[? ?] ?]; cbn [bind]; destruct (remaining _ _); discriminate.
  assert (Hn : ~ In (cst_filename (third_store st)) (store_names (snd second_state) ++ m_gc_locked_files (files (snd second_state))))
    by (vm_compute; intuition discriminate).
  pose proof (stale_files_column sample_globals (fst second_state) (snd second_state) [fst opened] (fst opened) [] [] fs later_time 1
    (third_store st) true w1 a1 (reachable_inv _ _ _ _ sample_inv sample_reachable) eq_refl Er Ei Hn) as H.
  exists st, fs, w1, a1. split; [reflexivity|]. split; [exact Ei|]. exact H.
Defined.
