(* ===== verification/Range.v ===== *)
(** * Ranges

    [RangeServer/Range.{h,cc}]: the access groups of the rows between two row keys,
    and the steps by which a range is split in two.  The groups are objects behind
    pointers that a map by name, a vector and a vector by column family share: here
    the vector has the objects and the others have indices into it.

    METADATA, the meta log, the master and the file system are seen through the
    calls made on them, recorded in order, and the answers they give, which are
    arguments.  [HT_ABORT] and [HT_FATAL] end the process: [Fault]. *)
From S2P Require Import Prelude Errors Serialization ByteString Key Deletes CellCache Scanner MergeScanner.
From S2P Require Import Schema Wire ScanContext BlockCodec CellStore CellStoreScanner AccessGroup.
From stdpp Require base gmap.
From Stdlib Require Import ZArith Lia List Bool Sorted Permutation String Ascii.
Import ListNotations.
Open Scope Z_scope.
Open Scope result_scope.
Open Scope list_scope.

Module Range.

(** ** Strings *)

Fixpoint chars (s : string) : list Z :=
  match s with
  | EmptyString => []
  | String c s' => Z.of_N (N_of_ascii c) :: chars s'
  end.

(** [boost::trim] *)
Definition space (b : Z) : bool := (b =? 32) || ((9 <=? b) && (b <=? 13)).
Fixpoint trim_left (s : list Z) : list Z :=
  match s with
  | [] => []
  | b :: s' => if space b then trim_left s' else s
  end.
Definition trim (s : list Z) : list Z := rev (trim_left (rev (trim_left s))).

(** The pieces between semicolons; the one behind the last semicolon counts when
    it is not empty. *)
Fixpoint pieces (acc rest : list Z) : list (list Z) :=
  match rest with
  | [] => match acc with [] => [] | _ => [rev acc] end
  | b :: rest' => if b =? 59 then rev acc :: pieces [] rest' else pieces (b :: acc) rest'
  end.

Definition file_str (piece : list Z) : list Z :=
  match trim piece with
  | b :: f => if b =? 35 then f else b :: f
  | [] => []
  end.
Definition parse_files (files : list Z) : list (list Z) := filter nonempty (map file_str (pieces [] (until_nul files))).

(** [strrchr(path, '/')]: from the last slash on. *)
Fixpoint last_slash (path : list Z) : option (list Z) :=
  match path with
  | [] => None
  | b :: p => match last_slash p with Some r => Some r | None => if b =? 47 then Some path else None end
  end.
Definition extract_csid_from_path (path : list Z) : Z :=
  match last_slash path with
  | Some (a :: b :: c :: rest) => if (b =? 99) && (c =? 115) then u32 (atoi (name_of rest)) else 0
  | _ => 0
  end.

(** ** The state *)

(** [std::map<String, AccessGroup *>]; [None] is a null pointer. *)
Definition AccessGroupMap := list (list Z * option nat).

Fixpoint map_set (name : list Z) (v : option nat) (m : AccessGroupMap) : AccessGroupMap :=
  match m with
  | [] => [(name, v)]
  | (k, u) :: m' =>
      match bytes_cmp name k with
      | Lt => (name, v) :: m
      | Eq => (k, v) :: m'
      | Gt => (k, u) :: map_set name v m'
      end
  end.
Fixpoint map_get (name : list Z) (m : AccessGroupMap) : option (option nat) :=
  match m with
  | [] => None
  | (k, u) :: m' => if bytes_eqb k name then Some u else map_get name m'
  end.
(** [m[name]] inserts a null pointer when there is no entry. *)
Definition map_index (name : list Z) (m : AccessGroupMap) : option nat * AccessGroupMap :=
  match map_get name m with
  | Some v => (v, m)
  | None => (None, map_set name None m)
  end.

(** Calls on METADATA, the meta log and the master. *)
Inductive call :=
| StartRow (key row : list Z)
| Files (key group text : list Z)
| LogSplitStart (id : TableIdentifier) (old new : RangeSpec) (s : RangeState)
| LogSplitShrunk (id : TableIdentifier) (range : RangeSpec) (s : RangeState)
| LogSplitDone (id : TableIdentifier) (range : RangeSpec)
| ReportSplit (id : TableIdentifier) (range : RangeSpec) (transfer_log : list Z) (soft_limit : Z).

Section Code.

Context {St W Sc E : Type} {OP : CellStoreOps St W Sc E} {CS : CellListScanner Sc}.
Context {Q : PriorityQueue (ScannerState (cached + Sc)) ss_key}.

Abbreviation group := (@AccessGroup.t St).
Abbreviation group_scanner := (@MergeScanner (cached + Sc) Q).

(** Of [Global]; [disk] has the stores that can be opened by name. *)
Record Globals := {
  gl : AccessGroup.Globals; range_max_bytes : Z; log_dir : list Z; disk : list Z -> option St }.

(** Members that do not change, and those that do. *)
Record info := {
  m_identifier : TableIdentifier; m_schema : Schema.Schema; m_is_root : bool; m_end_row : list Z;
  m_column_family_vector : list (option nat) }.

Record status := {
  m_maintenance_in_progress : bool; m_timestamp : Timestamp; m_last_logical_timestamp : Z;
  m_split_row : list Z; m_split_log : option (list Z); m_added_inserts : Z; m_added_deletes : list Z;
  m_state : RangeState; m_error : Code }.

Record t := {
  r_info : info; m_start_row : list Z; m_access_group_map : AccessGroupMap; m_access_group_vector : list group;
  r_status : status }.

Definition with_groups (l : list group) (r : t) : t :=
  {| r_info := r_info r; m_start_row := m_start_row r; m_access_group_map := m_access_group_map r;
     m_access_group_vector := l; r_status := r_status r |}.
Definition with_map (m : AccessGroupMap) (r : t) : t :=
  {| r_info := r_info r; m_start_row := m_start_row r; m_access_group_map := m;
     m_access_group_vector := m_access_group_vector r; r_status := r_status r |}.
Definition with_status (s : status) (r : t) : t :=
  {| r_info := r_info r; m_start_row := m_start_row r; m_access_group_map := m_access_group_map r;
     m_access_group_vector := m_access_group_vector r; r_status := s |}.
Definition with_start_row (row : list Z) (r : t) : t :=
  {| r_info := r_info r; m_start_row := row; m_access_group_map := m_access_group_map r;
     m_access_group_vector := m_access_group_vector r; r_status := r_status r |}.

Definition set_maintenance (b : bool) (s : status) : status :=
  {| m_maintenance_in_progress := b; m_timestamp := m_timestamp s; m_last_logical_timestamp := m_last_logical_timestamp s;
     m_split_row := m_split_row s; m_split_log := m_split_log s; m_added_inserts := m_added_inserts s;
     m_added_deletes := m_added_deletes s; m_state := m_state s; m_error := m_error s |}.
Definition set_times (ts : Timestamp) (last : Z) (s : status) : status :=
  {| m_maintenance_in_progress := m_maintenance_in_progress s; m_timestamp := ts; m_last_logical_timestamp := last;
     m_split_row := m_split_row s; m_split_log := m_split_log s; m_added_inserts := m_added_inserts s;
     m_added_deletes := m_added_deletes s; m_state := m_state s; m_error := m_error s |}.
Definition set_split (row : list Z) (log : option (list Z)) (s : status) : status :=
  {| m_maintenance_in_progress := m_maintenance_in_progress s; m_timestamp := m_timestamp s;
     m_last_logical_timestamp := m_last_logical_timestamp s;
     m_split_row := row; m_split_log := log; m_added_inserts := m_added_inserts s;
     m_added_deletes := m_added_deletes s; m_state := m_state s; m_error := m_error s |}.
Definition set_counts (inserts : Z) (deletes : list Z) (s : status) : status :=
  {| m_maintenance_in_progress := m_maintenance_in_progress s; m_timestamp := m_timestamp s;
     m_last_logical_timestamp := m_last_logical_timestamp s;
     m_split_row := m_split_row s; m_split_log := m_split_log s; m_added_inserts := inserts;
     m_added_deletes := deletes; m_state := m_state s; m_error := m_error s |}.
Definition set_state (st : RangeState) (s : status) : status :=
  {| m_maintenance_in_progress := m_maintenance_in_progress s; m_timestamp := m_timestamp s;
     m_last_logical_timestamp := m_last_logical_timestamp s;
     m_split_row := m_split_row s; m_split_log := m_split_log s; m_added_inserts := m_added_inserts s;
     m_added_deletes := m_added_deletes s; m_state := st; m_error := m_error s |}.
Definition set_error (e : Code) (s : status) : status :=
  {| m_maintenance_in_progress := m_maintenance_in_progress s; m_timestamp := m_timestamp s;
     m_last_logical_timestamp := m_last_logical_timestamp s;
     m_split_row := m_split_row s; m_split_log := m_split_log s; m_added_inserts := m_added_inserts s;
     m_added_deletes := m_added_deletes s; m_state := m_state s; m_error := e |}.

(** Following a pointer. *)
Definition deref (p : option nat) (r : t) : result (nat * group) :=
  match p with
  | None => Fault
  | Some i => match nth_error (m_access_group_vector r) i with Some a => Ok (i, a) | None => Fault end
  end.
Fixpoint replace {A} (i : nat) (a : A) (l : list A) : list A :=
  match l, i with
  | [], _ => []
  | _ :: l', O => a :: l'
  | x :: l', S i' => x :: replace i' a l'
  end.
Definition put_group (i : nat) (a : group) (r : t) : t := with_groups (replace i a (m_access_group_vector r)) r.

(** ** Updates *)

Definition is_ok (c : Code) : bool := match c with OK_ => true | _ => false end.

Definition count_added (flag : Z) (s : status) : result status :=
  if flag =? FLAG_INSERT then Ok (set_counts (u64 (m_added_inserts s + 1)) (m_added_deletes s) s)
  else
    match nth_error (m_added_deletes s) (Z.to_nat flag) with
    | None => Fault
    | Some n => Ok (set_counts (m_added_inserts s) (replace (Z.to_nat flag) (u64 (n + 1)) (m_added_deletes s)) s)
    end.

(** The group of a column family. *)
Definition family_group (code : Z) (r : t) : result (nat * group) :=
  match nth_error (m_column_family_vector (r_info r)) (Z.to_nat code) with
  | None => Fault
  | Some p => deref p r
  end.

(** The loop over [m_access_group_map]. *)
Fixpoint add_everywhere (m : AccessGroupMap) (c : cell) (real_timestamp : Z) (w : world) (r : t) : result (world * t) :=
  match m with
  | [] => Ok (w, r)
  | (_, p) :: m =>
      '(i, a) <- deref p r ;;
      '(w, a) <- AccessGroup.add c real_timestamp w a ;;
      add_everywhere m c real_timestamp w (put_group i a r)
  end.

Definition add (c : cell) (real_timestamp : Z) (w : world) (r : t) : result (Code * world * t) :=
  if negb (is_ok (m_error (r_status r))) then Ok (m_error (r_status r), w, r)
  else
    match parse_key (fst c) with
    | None => Ok (BAD_KEY, w, r)
    | Some k =>
        if zlen (m_column_family_vector (r_info r)) <=? k_family k then Ok (RANGESERVER_INVALID_COLUMNFAMILY, w, r)
        else
          let s := r_status r in
          let r := with_status (set_times (m_timestamp s) (Z.max (m_last_logical_timestamp s) (k_ts k)) s) r in
          '(w, r) <-
             (if k_flag k =? FLAG_DELETE_ROW then add_everywhere (m_access_group_map r) c real_timestamp w r
              else
                '(i, a) <- family_group (k_family k) r ;;
                '(w, a) <- AccessGroup.add c real_timestamp w a ;;
                Ok (w, put_group i a r)) ;;
          s <- count_added (k_flag k) (r_status r) ;;
          Ok (OK_, w, with_status s r)
    end.

Fixpoint replay_everywhere (m : AccessGroupMap) (c : cell) (real_timestamp : Z) (n : Z) (w : world) (r : t)
  : result (Z * world * t) :=
  match m with
  | [] => Ok (n, w, r)
  | (_, p) :: m =>
      '(i, a) <- deref p r ;;
      '(added, w, a) <- AccessGroup.replay_add c real_timestamp w a ;;
      replay_everywhere m c real_timestamp (if added : bool then u32 (n + 1) else n) w (put_group i a r)
  end.

(** [replay_add]: the code and [*num_addedp]. *)
Definition replay_add (c : cell) (real_timestamp : Z) (w : world) (r : t) : result (Code * Z * world * t) :=
  match parse_key (fst c) with
  | None => Throw FAILED_EXPECTATION
  | Some k =>
      if zlen (m_column_family_vector (r_info r)) <=? k_family k then Ok (RANGESERVER_INVALID_COLUMNFAMILY, 0, w, r)
      else
        '(n, w, r) <-
           (if k_flag k =? FLAG_DELETE_ROW then replay_everywhere (m_access_group_map r) c real_timestamp 0 w r
            else
              '(i, a) <- family_group (k_family k) r ;;
              '(added, w, a) <- AccessGroup.replay_add c real_timestamp w a ;;
              Ok (if added : bool then 1 else 0, w, put_group i a r)) ;;
        s <- count_added (k_flag k) (r_status r) ;;
        Ok (OK_, n, w, with_status s r)
  end.

(** [lock] and [unlock] of all groups: what [unlock] leaves behind. *)
Definition pointers_valid (r : t) : result unit :=
  fold_right (fun e k => '(_, _) <- deref (snd e) r ;; k) (Ok tt) (m_access_group_map r).
Definition unlock (real_timestamp : Z) (r : t) : result t :=
  let s := r_status r in
  let r := with_status (set_times {| logical := m_last_logical_timestamp s; real := real_timestamp |} (m_last_logical_timestamp s) s) r in
  _ <- pointers_valid r ;; Ok r.

(** ** Scanners *)

Fixpoint group_scanners (m : AccessGroupMap) (ctx : ScanContext) (r : t)
  : result (list group_scanner * list (nat * list (list Z)) * t) :=
  match m with
  | [] => Ok ([], [], r)
  | (_, p) :: m =>
      '(i, a) <- deref p r ;;
      if AccessGroup.include_in_scan ctx a then
        '(ms, names, a) <- AccessGroup.create_scanner ctx a ;;
        '(l, held, r) <- group_scanners m ctx (put_group i a r) ;;
        Ok (ms :: l, (i, names) :: held, r)
      else group_scanners m ctx r
  end.

Definition return_deletes_of (ctx : ScanContext) : bool := match spec ctx with None => false | Some s => return_deletes s end.

(** [create_scanner], and the files that each group's scanner holds. *)
Definition create_scanner {Q2 : PriorityQueue (ScannerState group_scanner) ss_key} (ctx : ScanContext) (r : t)
  : result (@MergeScanner group_scanner Q2 * list (nat * list (list Z)) * t) :=
  '(l, held, r) <- group_scanners (m_access_group_map r) ctx r ;;
  Ok (MergeScanner_make (AccessGroup.params_of ctx (return_deletes_of ctx)) l, held, r).

(** ** Sizes *)

Definition disk_usage (g : Globals) (r : t) : Z :=
  u64 (fold_left (fun n a => n + AccessGroup.disk_usage (gl g) a) (m_access_group_vector r) 0).
Definition get_compaction_priority_data (g : Globals) (r : t) : list AccessGroup.CompactionPriorityData :=
  map (AccessGroup.get_compaction_priority_data (gl g)) (m_access_group_vector r).
Definition test_and_set_maintenance (r : t) : bool * t :=
  (m_maintenance_in_progress (r_status r), with_status (set_maintenance true (r_status r)) r).
Definition get_statistics (g : Globals) (r : t) : RangeStat :=
  let sum f := u64 (fold_left (fun n a => n + f a) (m_access_group_vector r) 0) in
  let d i := nth i (m_added_deletes (r_status r)) 0 in
  {| rst_table := m_identifier (r_info r);
     rst_range := {| rs_start_row := m_start_row r; rs_end_row := m_end_row (r_info r) |};
     added_inserts := m_added_inserts (r_status r);
     added_deletes0 := d 0%nat; added_deletes1 := d 1%nat; added_deletes2 := d 2%nat;
     cached_cells := sum (fun a => CellCache.size (AccessGroup.m_cell_cache a));
     collided_cells := sum (fun a => u64 (AccessGroup.m_collisions (AccessGroup.nums a) + get_collision_count (AccessGroup.m_cell_cache a)));
     Wire.disk_usage := sum (AccessGroup.disk_usage (gl g));
     Wire.memory_usage := sum (AccessGroup.memory_usage (gl g)) |}.

(** ** Compactions *)

(** What happens around the compaction of one group. *)
Record circumstances := { ci_fuel : nat; ci_store : E; ci_arrivals : list (cell * Z); ci_shared : bool; ci_written : bool }.

(** [for (size_t i=0; i<m_access_group_vector.size(); i++)] *)
Fixpoint each_group (f : nat -> world -> group -> result (world * group)) (n i : nat) (w : world) (r : t) : result (world * t) :=
  match n with
  | O => Ok (w, r)
  | S n =>
      '(i, a) <- deref (Some i) r ;;
      '(w, a) <- f i w a ;;
      each_group f n (S i) w (put_group i a r)
  end.
Definition all_groups (f : nat -> world -> group -> result (world * group)) (w : world) (r : t) : result (world * t) :=
  each_group f (List.length (m_access_group_vector r)) 0 w r.

(** [cs] has the circumstances of every group. *)
Definition compact_all (g : Globals) (ts : Timestamp) (major : bool) (cs : nat -> circumstances) (w : world) (r : t) : result (world * t) :=
  all_groups (fun i w a => let c := cs i in
    AccessGroup.run_compaction (gl g) (m_schema (r_info r)) (ci_fuel c) (ci_store c) (ci_arrivals c) (ci_shared c) (ci_written c) ts major w a) w r.
Definition run_compaction (g : Globals) (cs : nat -> circumstances) (major : bool) (w : world) (r : t) : result (world * t) :=
  compact_all g (m_timestamp (r_status r)) major cs w r.
Definition compact (g : Globals) (cs : nat -> circumstances) (major : bool) (w : world) (r : t) : result (world * t) :=
  '(w, r) <- run_compaction g cs major w r ;; Ok (w, with_status (set_maintenance false (r_status r)) r).

(** ** Loading *)

(** One file of the [Files] column into group [i]. *)
Definition load_file (g : Globals) (fuel : nat) (i : nat) (f : list Z) (w : world) (r : t) : result (world * t) :=
  match disk g f with
  | None => Ok (w, r)
  | Some st =>
      o <- cst_reopen st (m_start_row r) (m_end_row (r_info r)) ;;
      match o with
      | None => Ok (w, r)
      | Some st =>
          '(i, a) <- deref (Some i) r ;;
          '(w, a) <- AccessGroup.add_cell_store (m_schema (r_info r)) fuel false st (extract_csid_from_path f) w a ;;
          Ok (w, put_group i a r)
      end
  end.

Fixpoint load_files (g : Globals) (fuel : nat) (i : nat) (l : list (list Z)) (w : world) (r : t) : result (world * t) :=
  match l with
  | [] => Ok (w, r)
  | f :: l => '(w, r) <- load_file g fuel i f w r ;; load_files g fuel i l w r
  end.

(** [metadata] are the qualifiers and values of the range's [Files] cells. *)
Fixpoint load_cell_stores (g : Globals) (fuel : nat) (metadata : list (list Z * list Z)) (w : world) (r : t) : result (world * t) :=
  match metadata with
  | [] => Ok (w, r)
  | (ag_name, files) :: metadata =>
      let '(p, m) := map_index ag_name (m_access_group_map r) in
      let r := with_map m r in
      '(w, r) <- (match p with None => Ok (w, r) | Some i => load_files g fuel i (parse_files files) w r end) ;;
      load_cell_stores g fuel metadata w r
  end.

(** The columns of a group: [std::set<uint8_t>], and their entries in the vector. *)
Fixpoint id_insert (id : Z) (l : list Z) : list Z :=
  match l with
  | [] => [id]
  | x :: l' => if id <? x then id :: l else if id =? x then l else x :: id_insert id l'
  end.

Fixpoint column_ids (sch : Schema.Schema) (cols : list nat) : result (list Z) :=
  match cols with
  | [] => Ok []
  | p :: cols =>
      match base.lookup p (Schema.cfs sch) with
      | None => Fault
      | Some cf => l <- column_ids sch cols ;; Ok (Schema.cf_id cf :: l)
      end
  end.

Fixpoint assign_families (i : nat) (ids : list Z) (v : list (option nat)) : result (list (option nat)) :=
  match ids with
  | [] => Ok v
  | id :: ids => if (0 <=? id) && (id <? zlen v) then assign_families i ids (replace (Z.to_nat id) (Some i) v) else Fault
  end.

Definition DEFAULT_BLOCKSIZE : Z := 65536.

Definition new_group (id : TableIdentifier) (range : RangeSpec) (ag : Schema.AccessGroup) (ids : list Z) : group :=
  AccessGroup.make
    {| AccessGroup.g_table_name := ti_name id; AccessGroup.g_name := chars (Schema.ag_name ag);
       AccessGroup.g_end_row := rs_end_row range;
       AccessGroup.m_column_families := fold_left (fun s x => id_insert (u8 x) s) ids [];
       AccessGroup.m_blocksize := if Schema.ag_blocksize ag =? 0 then DEFAULT_BLOCKSIZE else Schema.ag_blocksize ag;
       AccessGroup.m_in_memory := Schema.ag_in_memory ag |} (rs_start_row range).

Fixpoint make_groups (id : TableIdentifier) (range : RangeSpec) (sch : Schema.Schema) (l : list nat)
    (m : AccessGroupMap) (v : list group) (fv : list (option nat)) : result (AccessGroupMap * list group * list (option nat)) :=
  match l with
  | [] => Ok (m, v, fv)
  | p :: l =>
      match base.lookup p (Schema.ags sch) with
      | None => Fault
      | Some ag =>
          ids <- column_ids sch (Schema.ag_columns ag) ;;
          let i := List.length v in
          fv <- assign_families i ids fv ;;
          make_groups id range sch l (map_set (chars (Schema.ag_name ag)) (Some i) m) (v ++ [new_group id range ag ids]) fv
      end
  end.

Definition is_root (id : TableIdentifier) (range : RangeSpec) : bool :=
  (ti_id id =? 0) && negb (nonempty (rs_start_row range)) && bytes_eqb (rs_end_row range) END_ROOT_ROW.

Definition soft_limit_in (g : Globals) (limit : Z) : Z :=
  if (limit =? 0) || (range_max_bytes g <? limit) then range_max_bytes g else limit.
Definition with_limit (limit : Z) (s : RangeState) : RangeState :=
  {| st_state := st_state s; st_timestamp := st_timestamp s; st_soft_limit := limit;
     st_transfer_log := st_transfer_log s; st_split_point := st_split_point s; st_old_start_row := st_old_start_row s |}.

Definition make (g : Globals) (fuel : nat) (id : TableIdentifier) (sch : Schema.Schema) (range : RangeSpec) (state : RangeState)
    (metadata : list (list Z * list Z)) (w : world) : result (world * t) :=
  '(m, v, fv) <- make_groups id range sch (Schema.m_access_groups sch) [] []
     (repeat None (Z.to_nat (Schema.m_max_column_family_id sch + 1))) ;;
  let r :=
    {| r_info := {| m_identifier := id; m_schema := sch; m_is_root := is_root id range; m_end_row := rs_end_row range;
                    m_column_family_vector := fv |};
       m_start_row := rs_start_row range; m_access_group_map := m; m_access_group_vector := v;
       r_status := {| m_maintenance_in_progress := false; m_timestamp := {| logical := 0; real := 0 |};
                      m_last_logical_timestamp := 0; m_split_row := []; m_split_log := None; m_added_inserts := 0;
                      m_added_deletes := [0; 0; 0]; m_state := with_limit (soft_limit_in g (st_soft_limit state)) state;
                      m_error := OK_ |} |} in
  '(w, r) <- load_cell_stores g fuel metadata w r ;;
  Ok (w, if st_state state =? SPLIT_LOG_INSTALLED
         then with_status (set_split (st_split_point state) (Some (st_transfer_log state)) (r_status r)) r
         else r).

(** ** Replaying a transfer log *)

Definition read_string (ptr : list Z) : result (list Z * list Z) :=
  '(len, p) <- decode_vi32_ptr ptr ;;
  if len <=? zlen p then Ok (firstn (Z.to_nat len) p, skipn (Z.to_nat len) p) else Fault.

Fixpoint replay_cells (fuel : nat) (ptr : list Z) (real_timestamp : Z) (count : Z) (w : world) (r : t) : result (Z * world * t) :=
  match ptr, fuel with
  | [], _ => Ok (count, w, r)
  | _, O => Fault
  | _, S fuel =>
      '(key, ptr) <- read_string ptr ;;
      '(value, ptr) <- read_string ptr ;;
      '(_, w, r) <- add (key, value) real_timestamp w r ;;
      replay_cells fuel ptr real_timestamp (count + 1) w r
  end.

Fixpoint replay_blocks (blocks : list (list Z)) (real_timestamp : Z) (memory count : Z) (w : world) (r : t)
  : result (Z * Z * world * t) :=
  match blocks with
  | [] => Ok (memory, count, w, r)
  | b :: blocks =>
      '(table_id, d) <- TableIdentifier_decode {| ip := b; remain := zlen b |} ;;
      let ptr := ip d in
      if negb (bytes_eqb (ti_name (m_identifier (r_info r))) (ti_name table_id)) then Throw RANGESERVER_CORRUPT_COMMIT_LOG
      else
        '(count, w, r) <- replay_cells (List.length ptr) ptr real_timestamp count w r ;;
        replay_blocks blocks real_timestamp (memory + remain d) count w r
  end.

Definition replay_transfer_log (blocks : list (list Z)) (real_timestamp : Z) (w : world) (r : t) : result (world * t) :=
  '(memory, count, w, r) <- replay_blocks blocks real_timestamp 0 0 w r ;;
  let w := track (fun s => MemoryTracker.add_items count (MemoryTracker.add_memory memory s)) w in
  Ok (w, with_status (set_counts 0 [0; 0; 0] (r_status r)) r).

(** ** Splitting *)

Fixpoint insert_row (x : list Z) (l : list (list Z)) : list (list Z) :=
  match l with
  | [] => [x]
  | y :: l' => if bytes_leb x y then x :: l else y :: insert_row x l'
  end.
Definition sort_rows (l : list (list Z)) : list (list Z) := fold_right insert_row [] l.
Definition middle (l : list (list Z)) : list Z := nth (List.length l / 2) (sort_rows l) [].

Fixpoint collect (f : list (list Z) -> group -> result (list (list Z))) (v : list group) (rows : list (list Z)) : result (list (list Z)) :=
  match v with
  | [] => Ok rows
  | a :: v => rows <- f rows a ;; collect f v rows
  end.

Definition outside (row : list Z) (r : t) : bool := bytes_ltb row (m_start_row r) || bytes_leb (m_end_row (r_info r)) row.

Definition with_split_row (row : list Z) (r : t) : t := with_status (set_split row (m_split_log (r_status r)) (r_status r)) r.
Definition row_overflow (r : t) : Code * t := (RANGESERVER_ROW_OVERFLOW, with_status (set_error RANGESERVER_ROW_OVERFLOW (r_status r)) r).

(** The row to split at: the middle of the stores' middle rows, or of the cached
    rows when that lies outside the range. *)
Definition choose_split_row (r : t) : result (Code * t) :=
  let v := m_access_group_vector r in
  rows <- collect (AccessGroup.get_split_rows false) v [] ;;
  rows <- (if zlen rows <? zlen v then collect (AccessGroup.get_split_rows true) v rows else Ok rows) ;;
  match rows with
  | [] => Ok (row_overflow r)
  | _ =>
      let r := with_split_row (middle rows) r in
      if outside (middle rows) r then
        cached <- collect AccessGroup.get_cached_rows v [] ;;
        match cached with
        | [] => Ok (row_overflow r)
        | _ =>
            let r := with_split_row (middle cached) r in
            Ok (if outside (middle cached) r then row_overflow r else (OK_, r))
        end
      else Ok (OK_, r)
  end.

(** What the environment does during a split: whether the log directory can be
    made, how often writing to the meta log fails in each step, the compactions,
    whether METADATA takes the update, how the groups shrink, and the master's
    answer. *)
Record split_env := {
  se_dirs : bool; se_log_start : nat; se_groups : nat -> circumstances; se_metadata : bool;
  se_shrink : nat -> nat * bool; se_log_shrunk : nat; se_master : Code; se_log_done : nat }.

(** [for (int i=0; true; i++)] with [limit] failures allowed. *)
Definition attempts (failures limit : nat) (c : call) : result (list call) :=
  if Nat.leb failures limit then Ok [c] else Fault.

Definition split_install_log (g : Globals) (e : split_env) (r : t) : result (Code * t * list call) :=
  '(code, r) <- choose_split_row r ;;
  if negb (is_ok code) then Ok (code, r, [])
  else
    let s := r_status r in
    let point := m_split_row s in
    let log := log_dir g ++ [47] ++ AccessGroup.g_hash (gl g) (until_nul point) in
    if negb (se_dirs e) then Fault
    else
      let st := {| st_state := SPLIT_LOG_INSTALLED; st_timestamp := m_timestamp s; st_soft_limit := st_soft_limit (m_state s);
                   st_transfer_log := log; st_split_point := point; st_old_start_row := st_old_start_row (m_state s) |} in
      let r := with_status (set_state st (set_split point (Some log) s)) r in
      l <- attempts (se_log_start e) 3
             (LogSplitStart (m_identifier (r_info r)) {| rs_start_row := m_start_row r; rs_end_row := m_end_row (r_info r) |}
                {| rs_start_row := m_start_row r; rs_end_row := point |} st) ;;
      Ok (OK_, r, l).

(** [String("") + id + ":" + row] *)
Definition metadata_key (id : TableIdentifier) (row : list Z) : list Z := decimal (i32 (ti_id id)) ++ [58] ++ row.

(** The errors of [shrink] are not looked at. *)
Definition shrink_groups (start : list Z) (cs : nat -> nat * bool) (w : world) (r : t) : result (world * t) :=
  all_groups (fun i w a =>
    '(_, w, a) <- AccessGroup.shrink (m_schema (r_info r)) (fst (cs i)) (snd (cs i)) start w a ;; Ok (w, a)) w r.

Definition split_compact_and_shrink (g : Globals) (e : split_env) (w : world) (r : t) : result (world * t * list call) :=
  let old_start_row := m_start_row r in
  let id := m_identifier (r_info r) in
  let point := st_split_point (m_state (r_status r)) in
  '(w, r) <- compact_all g (st_timestamp (m_state (r_status r))) true (se_groups e) w r ;;
  let updates :=
    [StartRow (metadata_key id (m_end_row (r_info r))) point; StartRow (metadata_key id point) old_start_row] ++
    map (fun a => Files (metadata_key id point) (AccessGroup.g_name (AccessGroup.ag a)) (AccessGroup.get_files a))
      (m_access_group_vector r) in
  if negb (se_metadata e) then Fault
  else
    let r := with_status (set_split [] (m_split_log (r_status r)) (r_status r)) (with_start_row point r) in
    '(w, r) <- shrink_groups point (se_shrink e) w r ;;
    match m_split_log (r_status r) with
    | None => Fault
    | Some _ =>
        let s := m_state (r_status r) in
        let st := {| st_state := SPLIT_SHRUNK; st_timestamp := {| logical := 0; real := 0 |}; st_soft_limit := st_soft_limit s;
                     st_transfer_log := st_transfer_log s; st_split_point := []; st_old_start_row := old_start_row |} in
        let r := with_status (set_state st (set_split [] None (r_status r))) r in
        l <- attempts (se_log_shrunk e) 3
               (LogSplitShrunk id {| rs_start_row := m_start_row r; rs_end_row := m_end_row (r_info r) |} st) ;;
        Ok (w, r, updates ++ l)
    end.

Definition next_limit (g : Globals) (limit : Z) : Z :=
  if limit <? range_max_bytes g
  then let l := u64 (limit * 2) in if range_max_bytes g <? l then range_max_bytes g else l
  else limit.

Definition with_identifier (id : TableIdentifier) (r : t) : t :=
  {| r_info := {| m_identifier := id; m_schema := m_schema (r_info r); m_is_root := m_is_root (r_info r);
                  m_end_row := m_end_row (r_info r); m_column_family_vector := m_column_family_vector (r_info r) |};
     m_start_row := m_start_row r; m_access_group_map := m_access_group_map r;
     m_access_group_vector := m_access_group_vector r; r_status := r_status r |}.

Definition split_notify_master (g : Globals) (e : split_env) (r : t) : result (Code * t * list call) :=
  let s := m_state (r_status r) in
  let range := {| rs_start_row := st_old_start_row s; rs_end_row := m_start_row r |} in
  let id := m_identifier (r_info r) in
  let id := {| ti_name := ti_name id; ti_id := ti_id id; ti_generation := Schema.m_generation (m_schema (r_info r)) |} in
  let r := with_identifier id r in
  let limit := next_limit g (st_soft_limit s) in
  let report := ReportSplit id range (st_transfer_log s) limit in
  if negb (is_ok (se_master e)) then Ok (se_master e, r, [report])
  else
    let st := {| st_state := STEADY; st_timestamp := st_timestamp s; st_soft_limit := limit; st_transfer_log := [];
                 st_split_point := st_split_point s; st_old_start_row := [] |} in
    let r := with_status (set_state st (r_status r)) r in
    l <- attempts (se_log_done e) 2
           (LogSplitDone id {| rs_start_row := m_start_row r; rs_end_row := m_end_row (r_info r) |}) ;;
    Ok (OK_, r, report :: l).

(** The cases of the switch fall through. *)
Definition split_from_shrunk (g : Globals) (e : split_env) (w : world) (r : t) : result (Code * world * t * list call) :=
  '(code, r, l) <- split_notify_master g e r ;; Ok (code, w, r, l).
Definition split_from_installed (g : Globals) (e : split_env) (w : world) (r : t) : result (Code * world * t * list call) :=
  '(w, r, l1) <- split_compact_and_shrink g e w r ;;
  '(code, w, r, l2) <- split_from_shrunk g e w r ;;
  Ok (code, w, r, l1 ++ l2).
Definition split_from_steady (g : Globals) (e : split_env) (w : world) (r : t) : result (Code * world * t * list call) :=
  '(code, r, l1) <- split_install_log g e r ;;
  if negb (is_ok code) then Ok (code, w, r, l1)
  else '(code, w, r, l2) <- split_from_installed g e w r ;; Ok (code, w, r, l1 ++ l2).

(** [split]: the code is that of the exception, after the state is reset. *)
Definition split (g : Globals) (e : split_env) (w : world) (r : t) : result (Code * world * t * list call) :=
  if negb (m_maintenance_in_progress (r_status r)) || m_is_root (r_info r) then Throw FAILED_EXPECTATION
  else
    let state := st_state (m_state (r_status r)) in
    '(code, w, r, l) <-
       (if state =? STEADY then split_from_steady g e w r
        else if state =? SPLIT_LOG_INSTALLED then split_from_installed g e w r
        else if state =? SPLIT_SHRUNK then split_from_shrunk g e w r
        else Ok (OK_, w, r, [])) ;;
    Ok (code, w, with_status (set_maintenance false (r_status r)) r, l).

End Code.
End Range.
