(* ===== verification/RangeScan.v ===== *)
(** * What a range shows and takes

    Theorems on [Range::create_scanner] and [Range::add] of Range.v: a scan of a
    range gives the declarative selection of all cells of all access groups, though
    it leaves out the groups without a column that is asked for, and an update puts
    its cell where the scans find it. *)
From S2P Require Import Prelude Errors Serialization ByteString Key Deletes CellCache Scanner MergeScanner Selection.
From S2P Require Import Schema Wire ScanContext BlockCodec CellStore CellStoreScanner AccessGroup Compaction Range.
From Stdlib Require Import ZArith Lia List Bool Sorted Permutation.
Import ListNotations.
Open Scope Z_scope.
Open Scope result_scope.

Import CellStoreScanner(row_of, scan_wants, scan_ok, clean_row, shown).
Import Range.

Section RangeScan.

Context {St W Sc E : Type} {OP : CellStoreOps St W Sc E} {CS : CellListScanner Sc} {SP : CellStoreSpec OP}.
Context {Q : PriorityQueue (ScannerState (cached + Sc)) ss_key}.

Abbreviation group := (@AccessGroup.t St).
Abbreviation range := (@Range.t St).
Abbreviation group_scanner := (@MergeScanner (cached + Sc) Q).
Abbreviation in_scan := AccessGroup.in_scan.
Abbreviation all_cells := AccessGroup.all_cells.

Context {Q2 : PriorityQueue (ScannerState group_scanner) ss_key}.
#[local] Instance group_scans : CellListScanner group_scanner := merge_scanner.

(** ** Following pointers *)

(** The map names every group once. *)
Definition connected (r : range) : Prop :=
  Permutation (map snd (m_access_group_map r)) (map Some (seq 0 (length (m_access_group_vector r)))).

Lemma replace_nth {A} i (a : A) l : (i < length l)%nat -> nth_error (replace i a l) i = Some a.
Proof. revert i. induction l as [|x l IH]; intros [|i] H; cbn in *; try lia; [reflexivity|]. apply IH. lia. Qed.

Lemma replace_other {A} i j (a : A) l : i <> j -> nth_error (replace i a l) j = nth_error l j.
Proof. revert i j. induction l as [|x l IH]; intros [|i] [|j] H; cbn; try reflexivity; try lia. apply IH. lia. Qed.

Lemma replace_length {A} i (a : A) l : length (replace i a l) = length l.
Proof. revert i. induction l as [|x l IH]; intros [|i]; cbn; auto. Qed.

(** Groups that differ in the references to their files. *)
Definition alike (v v' : list group) : Prop := Forall2 (fun a b => exists fs, b = AccessGroup.with_files fs a) v v'.

Lemma alike_refl v : alike v v.
Proof. induction v as [|a v IH]; constructor; [|exact IH]. exists (AccessGroup.files a). now destruct a. Qed.

Lemma Forall2_cons_iff_l {A B} (R : A -> B -> Prop) a l l' : Forall2 R (a :: l) l' -> exists b m, l' = b :: m /\ R a b /\ Forall2 R l m.
Proof. intros H. inversion H; subst; eauto. Qed.

Lemma alike_trans v1 v2 v3 : alike v1 v2 -> alike v2 v3 -> alike v1 v3.
Proof.
  intros H. revert v3. induction H as [|a b v1 v2 [fs ->] H IH]; intros v3 H'; [inv H'; constructor|].
  apply Forall2_cons_iff_l in H' as (c & v3' & -> & [fs' ->] & H'). constructor; [now exists fs'|now apply IH].
Qed.

Lemma alike_replace i fs v a : nth_error v i = Some a -> alike v (replace i (AccessGroup.with_files fs a) v).
Proof.
  revert i. induction v as [|x v IH]; intros [|i] H; cbn in *; try discriminate.
  - inv H. constructor; [now exists fs|apply alike_refl].
  - constructor; [exists (AccessGroup.files x); now destruct x|now apply IH].
Qed.

Lemma alike_nth v v' i : alike v v' ->
  match nth_error v i, nth_error v' i with
  | Some a, Some b => exists fs, b = AccessGroup.with_files fs a
  | None, None => True
  | _, _ => False
  end.
Proof. intros H. revert i. induction H as [|a b v v' Hab H IH]; intros [|i]; cbn; auto. apply IH. Qed.

Lemma alike_cells v v' : alike v v' -> map all_cells v' = map all_cells v.
Proof. induction 1 as [|a b v v' [fs ->] H IH]; [reflexivity|]. cbn [map]. now rewrite IH. Qed.

Lemma alike_length v v' : alike v v' -> length v' = length v.
Proof. intros H. symmetry. eapply Forall2_length, H. Qed.

(** ** The scanners of the groups *)

Definition scanned (ctx : ScanContext) (a : group) : list cell := if AccessGroup.include_in_scan ctx a then all_cells a else [].
Definition pointed (ctx : ScanContext) (v : list group) (p : option nat) : list cell :=
  match p with Some i => match nth_error v i with Some a => scanned ctx a | None => [] end | None => [] end.

Definition scannable (w : world) (ctx : ScanContext) (a : group) : Prop :=
  AccessGroup.wf w a /\ (AccessGroup.m_in_memory (AccessGroup.ag a) = false -> AccessGroup.stores_ok (sc_bounds ctx) (AccessGroup.m_stores a)).

Lemma scannable_alike w ctx v v' : alike v v' -> Forall (scannable w ctx) v -> Forall (scannable w ctx) v'.
Proof.
  induction 1 as [|a b v v' [fs ->] H IH]; intros Hv; [constructor|constructor].
  - destruct (Forall_inv Hv) as [[W1 W2 W3 W4] Hs]. split; [split; assumption|exact Hs].
  - apply IH. now apply Forall_inv_tail in Hv.
Qed.

Lemma pointed_alike ctx v v' p : alike v v' -> pointed ctx v' p = pointed ctx v p.
Proof.
  intros H. unfold pointed. destruct p as [i|]; [|reflexivity]. pose proof (alike_nth v v' i H) as Hn.
  destruct (nth_error v i), (nth_error v' i); try contradiction; [|reflexivity]. destruct Hn as [fs ->]. reflexivity.
Qed.

Lemma group_scanners_ok w ctx m : AccessGroup.bounds_ok (sc_bounds ctx) -> forall r,
  Forall (fun e => exists i, snd e = Some i /\ (i < length (m_access_group_vector r))%nat) m ->
  Forall (scannable w ctx) (m_access_group_vector r) ->
  exists l held v, group_scanners m ctx r = Ok (l, held, with_groups v r) /\ alike (m_access_group_vector r) v /\
    Forall sc_inv l /\ Forall (fun s => StronglySorted cell_le (sc_cells s)) l /\ Forall MergeScanner.good_cell (concat (map sc_cells l)) /\
    Permutation (concat (map sc_cells l))
      (filter (in_scan (sc_bounds ctx)) (flat_map (fun e => pointed ctx (m_access_group_vector r) (snd e)) m)).
Proof.
  intros Hb. induction m as [|[name p] m IH]; intros r Hm Hv.
  - exists [], [], (m_access_group_vector r). cbn. split; [now destruct r|]. split; [apply alike_refl|]. repeat split; constructor.
  - pose proof (Forall_inv Hm) as (i & Ei & Hi). apply Forall_inv_tail in Hm. cbn [snd] in Ei. subst p.
    destruct (nth_error (m_access_group_vector r) i) as [a|] eqn:Ea; [|apply nth_error_None in Ea; lia].
    cbn [group_scanners deref]. rewrite Ea. cbn [bind flat_map snd pointed]. rewrite Ea. unfold scanned at 1.
    destruct (AccessGroup.include_in_scan ctx a) eqn:Einc; cbn [app]; [|now apply IH].
    destruct (proj1 (Forall_forall _ _) Hv a (nth_error_In _ _ Ea)) as [Wa Hs].
    destruct (AccessGroup.create_scanner_ok w a ctx Wa Hb Hs) as (ms & names & fs & -> & Hinv & l0 & P0 & S0 & G0 & C0). cbn [bind].
    set (r1 := put_group i (AccessGroup.with_files fs a) r).
    assert (Hal : alike (m_access_group_vector r) (m_access_group_vector r1)) by now apply alike_replace.
    destruct (IH r1) as (l & held & v & -> & Hal' & I1 & I2 & I3 & I4).
    { cbn [r1 put_group with_groups m_access_group_vector]. now rewrite replace_length. }
    { eapply scannable_alike; eassumption. }
    cbn [bind]. exists (ms :: l), ((i, names) :: held), v. split; [reflexivity|]. split; [eapply alike_trans; eassumption|].
    cbn [map concat]. assert (Ec : sc_cells ms = l0) by exact C0. rewrite Ec.
    split; [now constructor|]. split; [constructor; [now rewrite Ec|assumption]|]. split; [apply Forall_app; auto|].
    rewrite filter_app. apply Permutation_app; [assumption|]. rewrite I4. erewrite flat_map_ext; [reflexivity|].
    intros e. now apply pointed_alike.
Qed.

Lemma pointed_all ctx r : connected r ->
  Permutation (flat_map (fun e => pointed ctx (m_access_group_vector r) (snd e)) (m_access_group_map r))
    (flat_map (scanned ctx) (m_access_group_vector r)).
Proof.
  intros Hc. set (v := m_access_group_vector r).
  assert (E1 : flat_map (fun e => pointed ctx v (snd e)) (m_access_group_map r) = flat_map (pointed ctx v) (map snd (m_access_group_map r))).
  { generalize (m_access_group_map r). induction a as [|e m IH]; [reflexivity|]. cbn [flat_map map]. now rewrite IH. }
  rewrite E1, (Permutation_flat_map _ Hc). fold v. clear. replace (flat_map (pointed ctx v) (map Some (seq 0 (length v)))) with (flat_map (scanned ctx) v); [reflexivity|].
  enough (H : forall u, flat_map (scanned ctx) v = flat_map (pointed ctx (u ++ v)) (map Some (seq (length u) (length v)))) by apply (H []).
  induction v as [|a v IH]; intros u; [reflexivity|]. cbn [length seq map flat_map pointed].
  rewrite nth_error_app2, Nat.sub_diag by lia. cbn [nth_error]. f_equal.
  replace (u ++ a :: v) with ((u ++ [a]) ++ v) by now rewrite <- app_assoc.
  replace (S (length u)) with (length (u ++ [a])) by (rewrite length_app; cbn; lia). apply IH.
Qed.

Lemma connected_valid r : connected r ->
  Forall (fun e => exists i, snd e = Some i /\ (i < length (m_access_group_vector r))%nat) (m_access_group_map r).
Proof.
  intros Hc. apply Forall_forall. intros e He. assert (Hin : In (snd e) (map snd (m_access_group_map r))) by now apply in_map.
  apply (Permutation_in _ Hc), in_map_iff in Hin as (i & Ei & Hi). apply in_seq in Hi. exists i. split; [now symmetry|lia].
Qed.

(** ** Which cells are where *)

Lemma flat_map_ext_in {A B} (f g : A -> list B) l : (forall a, In a l -> f a = g a) -> flat_map f l = flat_map g l.
Proof.
  induction l as [|a l IH]; intros H; [reflexivity|]. cbn [flat_map]. rewrite H by now left. f_equal. apply IH. intros b Hb. apply H. now right.
Qed.

Lemma scanned_length ctx v : (length (flat_map (scanned ctx) v) <= length (flat_map all_cells v))%nat.
Proof.
  induction v as [|a v IH]; [reflexivity|]. cbn [flat_map]. rewrite !length_app. unfold scanned at 1.
  destruct (AccessGroup.include_in_scan ctx a); cbn [length]; lia.
Qed.

Definition row_delete (c : cell) : bool := match parse_key (fst c) with Some k => k_flag k =? FLAG_DELETE_ROW | None => false end.

(** Every group has the cells of its column families; the records that delete rows
    are in all groups; no other two cells have one key. *)
Record arranged (v : list group) : Prop := {
  ar_family a c k : In a v -> In c (all_cells a) -> parse_key (fst c) = Some k -> k_flag k <> FLAG_DELETE_ROW ->
    In (k_family k) (AccessGroup.m_column_families (AccessGroup.ag a));
  ar_rows a b c : In a v -> In b v -> In c (all_cells a) -> row_delete c = true -> In (fst c) (map fst (all_cells b));
  ar_keys : NoDup (map fst (filter (fun c => negb (row_delete c)) (flat_map all_cells v))) }.

Lemma insert_not_row c : insert_cell c = true -> row_delete c = false.
Proof.
  unfold insert_cell, row_delete. destruct (parse_key (fst c)) as [k|]; [|reflexivity]. intros H.
  destruct (Z.eqb_spec (k_flag k) FLAG_DELETE_ROW) as [Ef|]; [|reflexivity]. unfold is_delete in H. rewrite Ef in H. discriminate.
Qed.

(** What a group that is left out has in the scan. *)
Lemma left_out ctx v a c : arranged v -> In a v -> AccessGroup.include_in_scan ctx a = false -> In c (all_cells a) ->
  MergeScanner.good_cell c -> in_scan (sc_bounds ctx) c = true -> row_delete c = true.
Proof.
  intros Ha Hin Hex Hc Hg Hs. destruct (good_cell_parse c Hg) as (k & Wk & Ek & Hk). unfold row_delete. rewrite Hk.
  unfold in_scan, shown in Hs. rewrite Hk in Hs. apply andb_true_iff in Hs as [_ Hs]. apply orb_true_iff in Hs as [Hs|Hs]; [assumption|].
  destruct (Z.eqb_spec (k_flag k) FLAG_DELETE_ROW) as [|Hn]; [reflexivity|]. exfalso.
  unfold AccessGroup.include_in_scan in Hex. enough (existsb (family_mask (sc_bounds ctx)) (AccessGroup.m_column_families (AccessGroup.ag a)) = true) by congruence.
  apply existsb_exists. exists (k_family k). split; [|assumption]. now apply (ar_family v Ha a c k).
Qed.

Lemma inserts_scanned ctx v : arranged v -> Forall MergeScanner.good_cell (flat_map all_cells v) ->
  filter insert_cell (filter (in_scan (sc_bounds ctx)) (flat_map (scanned ctx) v)) =
  filter insert_cell (filter (in_scan (sc_bounds ctx)) (flat_map all_cells v)).
Proof.
  intros Ha Hg. rewrite !AccessGroup.filter_flat_map. apply flat_map_ext_in. intros a Hin. unfold scanned.
  destruct (AccessGroup.include_in_scan ctx a) eqn:Ei; [reflexivity|]. cbn [filter]. symmetry. apply filter_none. intros c Hc.
  apply filter_In in Hc as [Hc Hs]. destruct (insert_cell c) eqn:Ec; [|reflexivity]. apply insert_not_row in Ec.
  rewrite (left_out ctx v a c) in Ec; auto. rewrite Forall_forall in Hg. apply Hg, in_flat_map. eauto.
Qed.

(** Leaving groups out changes nothing. *)
Lemma scan_whole p ctx v l l' : arranged v -> Forall MergeScanner.good_cell (flat_map all_cells v) ->
  StronglySorted cell_le l -> Permutation l (filter (in_scan (sc_bounds ctx)) (flat_map (scanned ctx) v)) ->
  StronglySorted cell_le l' -> Permutation l' (filter (in_scan (sc_bounds ctx)) (flat_map all_cells v)) ->
  select p [] [] l = select p [] [] l'.
Proof.
  intros Ha Hg Hs Hp Hs' Hp'. set (F := filter (in_scan (sc_bounds ctx))) in *.
  assert (Hsub : incl (flat_map (scanned ctx) v) (flat_map all_cells v)).
  { intros c Hc. apply in_flat_map in Hc as (a & Hin & Hc). apply in_flat_map. exists a. split; [assumption|]. unfold scanned in Hc.
    destruct (AccessGroup.include_in_scan ctx a); [assumption|destruct Hc]. }
  assert (Hg' : Forall MergeScanner.good_cell l') by (rewrite Hp'; now apply AccessGroup.Forall_filter).
  assert (Hgl : Forall MergeScanner.good_cell l).
  { rewrite Hp. apply AccessGroup.Forall_filter. rewrite Forall_forall in *. auto. }
  assert (Hi : filter insert_cell l = filter insert_cell l').
  { apply sorted_unique; try now apply AccessGroup.sorted_filter.
    - rewrite (filter_perm _ _ _ Hp), (filter_perm _ _ _ Hp'). unfold F. now rewrite inserts_scanned.
    - rewrite (Permutation_map fst (filter_perm insert_cell _ _ Hp)). unfold F. rewrite inserts_scanned by assumption.
      pose proof (ar_keys v Ha) as Hk. unfold F. rewrite filter_swap.
      replace (filter insert_cell (flat_map all_cells v)) with (filter insert_cell (filter (fun c => negb (row_delete c)) (flat_map all_cells v))).
      + apply filter_keys, filter_keys, Hk.
      + rewrite filter_swap. apply filter_all. intros c Hc. apply filter_In in Hc as [_ Hc]. now rewrite insert_not_row. }
  destruct (filter insert_cell l') as [|c0 rest] eqn:E0; [rewrite !select_sets, Hi, E0 by assumption; reflexivity|].
  rewrite <- E0 in Hi. apply select_same; auto. intros k Wk Dk.
  assert (Hc0 : In c0 (filter insert_cell (F (flat_map (scanned ctx) v)))).
  { unfold F. rewrite inserts_scanned by assumption. apply (Permutation_in _ (filter_perm insert_cell _ _ Hp')). rewrite E0. now left. }
  apply filter_In in Hc0 as [Hc0 _]. apply filter_In in Hc0 as [Hc0 _]. apply in_flat_map in Hc0 as (b & Hb & Hc0).
  unfold scanned in Hc0. destruct (AccessGroup.include_in_scan ctx b) eqn:Eb; [|destruct Hc0].
  rewrite (Permutation_map fst Hp), (Permutation_map fst Hp'). rewrite !in_map_iff. unfold F. split.
  - intros (c & Ec & Hc). exists c. split; [assumption|]. apply filter_In in Hc as [Hc Hsc]. apply filter_In. auto.
  - intros (c & Ec & Hc). apply filter_In in Hc as [Hc Hsc]. pose proof Hc as Hc'. apply in_flat_map in Hc as (a & Hin & Hc).
    destruct (AccessGroup.include_in_scan ctx a) eqn:Eia.
    + exists c. split; [assumption|]. apply filter_In. split; [|assumption]. apply in_flat_map. exists a. unfold scanned. now rewrite Eia.
    + rewrite Forall_forall in Hg. pose proof (left_out ctx v a c Ha Hin Eia Hc (Hg c Hc') Hsc) as Hrd.
      pose proof (ar_rows v Ha a b c Hin Hb Hc Hrd) as Hkb. apply in_map_iff in Hkb as (d & Ed & Hd). exists d. split; [congruence|].
      apply filter_In. split; [apply in_flat_map; exists b; unfold scanned; now rewrite Eb|].
      unfold in_scan, shown, row_of in *. now rewrite Ed.
Qed.

(** ** Scanning a range *)


(** ** Updates *)

(** The groups share the heap, but no blocks. *)
Record healthy (w : world) (v : list group) : Prop := {
  h_wf : Forall (AccessGroup.wf w) v;
  h_apart i j a b : i <> j -> nth_error v i = Some a -> nth_error v j = Some b ->
    apart (AccessGroup.m_cell_cache a) (AccessGroup.m_cell_cache b) }.

Lemma healthy_replace w v w' i a a' : healthy w v -> nth_error v i = Some a -> AccessGroup.wf w' a' ->
  evolves w (AccessGroup.m_cell_cache a) w' (AccessGroup.m_cell_cache a') -> healthy w' (replace i a' v).
Proof.
  intros [Hw Ha] Hi Wa' Hev. assert (Hlt : (i < length v)%nat) by (apply nth_error_Some; congruence). rewrite Forall_forall in Hw.
  assert (Ho : forall j b, i <> j -> nth_error v j = Some b ->
    AccessGroup.wf w' b /\ apart (AccessGroup.m_cell_cache a') (AccessGroup.m_cell_cache b)).
  { intros j b Hij Hj. destruct (Hw b (nth_error_In _ _ Hj)) as [B1 B2 B3 B4].
    destruct (evolves_other _ _ _ _ _ Hev (AccessGroup.wf_cache _ _ Wa') B1 (Ha i j a b Hij Hi Hj)) as [O1 O2]. split; [split; assumption|assumption]. }
  split.
  - apply Forall_forall. intros b Hb. apply In_nth_error in Hb as [j Hj]. destruct (Nat.eq_dec i j) as [<-|Hn].
    + rewrite replace_nth in Hj by assumption. now inv Hj.
    + rewrite replace_other in Hj by assumption. now apply (Ho j b).
  - intros j k b c Hjk Hj Hk. destruct (Nat.eq_dec i j) as [<-|Hn1], (Nat.eq_dec i k) as [<-|Hn2]; try congruence.
    + rewrite replace_nth in Hj by assumption. inv Hj. rewrite replace_other in Hk by assumption. now apply (Ho k c).
    + rewrite replace_nth in Hk by assumption. inv Hk. rewrite replace_other in Hj by assumption. intros x Hx Hy.
      exact (proj2 (Ho j b Hn1 Hj) x Hy Hx).
    + rewrite replace_other in Hj, Hk by assumption. now apply (Ha j k).
Qed.

(** A group that got the cell. *)
Definition grown (c : cell) (a a' : group) : Prop := AccessGroup.ag a' = AccessGroup.ag a /\ Permutation (all_cells a') (c :: all_cells a).

Lemma add_group w v i a c ts : healthy w v -> nth_error v i = Some a -> addable c -> ~ In (fst c) (map fst (all_cells a)) ->
  exists w' a', AccessGroup.add c ts w a = Ok (w', a') /\ healthy w' (replace i a' v) /\ grown c a a'.
Proof.
  intros Hh Hi Hc Hf. pose proof (proj1 (Forall_forall _ _) (h_wf _ _ Hh) a (nth_error_In _ _ Hi)) as Wa.
  destruct (group_add_ok w a c ts Wa Hc) as (w' & a' & Ea & Wa' & (S1 & S2 & S3 & _) & P1).
  { intros H. apply Hf. unfold all_cells, AccessGroup.all_cells. rewrite map_app, in_app_iff. now left. }
  exists w', a'. split; [assumption|]. split.
  - apply (healthy_replace w v w' i a a' Hh Hi Wa'). unfold AccessGroup.add in Ea. apply bind_ok in Ea as ([w1 cc] & Ec & Ea). inv Ea.
    pose proof (wf_fresh _ _ (AccessGroup.wf_cache _ _ Wa)) as Hfr. cbn [AccessGroup.with_cache AccessGroup.m_cell_cache].
    destruct (_ =? 0); exact (add_evolves _ _ _ _ _ _ Hfr Ec).
  - split; [assumption|]. unfold AccessGroup.all_cells. rewrite S1, S3, P1. reflexivity.
Qed.

Lemma replace_flat_map {A B} (f : A -> list B) i a a' l c : nth_error l i = Some a -> Permutation (f a') (c :: f a) ->
  Permutation (flat_map f (replace i a' l)) (c :: flat_map f l).
Proof.
  revert i. induction l as [|x l IH]; intros [|i] Hi Hp; cbn in *; try discriminate.
  - inv Hi. now rewrite Hp.
  - rewrite (IH i Hi Hp). symmetry. apply Permutation_middle.
Qed.

Lemma add_everywhere_ok c ts m : addable c -> forall w r, NoDup (map snd m) ->
  Forall (fun e => exists i, snd e = Some i /\ (i < length (m_access_group_vector r))%nat) m ->
  healthy w (m_access_group_vector r) ->
  (forall i a, In (Some i) (map snd m) -> nth_error (m_access_group_vector r) i = Some a -> ~ In (fst c) (map fst (all_cells a))) ->
  exists w' v', add_everywhere m c ts w r = Ok (w', with_groups v' r) /\ healthy w' v' /\ length v' = length (m_access_group_vector r) /\
    forall i a, nth_error (m_access_group_vector r) i = Some a ->
      exists a', nth_error v' i = Some a' /\ (In (Some i) (map snd m) -> grown c a a') /\ (~ In (Some i) (map snd m) -> a' = a).
Proof.
  intros Hc. induction m as [|[name p] m IH]; intros w r Hn Hv Hh Hf; cbn [add_everywhere].
  - exists w, (m_access_group_vector r). split; [now destruct r|]. split; [assumption|]. split; [reflexivity|].
    intros i a Hi. exists a. split; [assumption|]. split; [intros []|reflexivity].
  - pose proof (Forall_inv Hv) as (i & Ei & Hi). apply Forall_inv_tail in Hv. cbn [map snd] in *. subst p. inv Hn.
    destruct (nth_error (m_access_group_vector r) i) as [a|] eqn:Ea; [|apply nth_error_None in Ea; lia].
    cbn [deref]. rewrite Ea. cbn [bind].
    destruct (add_group w _ i a c ts Hh Ea Hc (Hf i a (or_introl eq_refl) Ea)) as (w1 & a1 & -> & H1' & G1). cbn [bind].
    destruct (IH w1 (put_group i a1 r)) as (w2 & v2 & E2 & Hh2 & L2 & N2); auto.
    + cbn [put_group with_groups m_access_group_vector]. now rewrite replace_length.
    + cbn [put_group with_groups m_access_group_vector]. intros j b Hj Hb. assert (i <> j) by congruence.
      rewrite replace_other in Hb by assumption. apply (Hf j b); [now right|assumption].
    + cbn [put_group with_groups m_access_group_vector] in *. rewrite replace_length in L2.
      exists w2, v2. split; [rewrite E2; reflexivity|]. split; [assumption|]. split; [assumption|]. intros j b Hj.
      destruct (Nat.eq_dec i j) as [<-|Hij].
      * assert (b = a) as -> by congruence. destruct (N2 i a1) as (a' & Hn' & _ & Hsame); [now apply replace_nth|].
        exists a'. split; [assumption|]. rewrite Hsame by assumption. split; [auto|]. intros Hno. destruct Hno. now left.
      * destruct (N2 j b) as (b' & Hn' & Hin & Hout); [now rewrite replace_other|]. exists b'. split; [assumption|]. split.
        -- intros [Hx|Hx]; [congruence|auto].
        -- intros Hno. apply Hout. intros Hx. apply Hno. now right.
Qed.

(** The vector by column family leads to the group of the family. *)
Definition families_ok (r : range) : Prop := forall code i, nth_error (m_column_family_vector (r_info r)) code = Some (Some i) ->
  exists a, nth_error (m_access_group_vector r) i = Some a /\ In (Z.of_nat code) (AccessGroup.m_column_families (AccessGroup.ag a)).

(** A range that can take updates. *)
Record ready (w : world) (r : range) : Prop := {
  rd_connected : connected r;
  rd_families : families_ok r;
  rd_healthy : healthy w (m_access_group_vector r);
  rd_arranged : arranged (m_access_group_vector r);
  rd_deletes : length (m_added_deletes (r_status r)) = 3%nat;
  rd_error : m_error (r_status r) = OK_ }.

Lemma grown_arranged v v' c k : arranged v -> parse_key (fst c) = Some k ->
  (forall i a', nth_error v' i = Some a' -> exists a, nth_error v i = Some a /\ AccessGroup.ag a' = AccessGroup.ag a /\
     (Permutation (all_cells a') (c :: all_cells a) /\ (k_flag k <> FLAG_DELETE_ROW -> In (k_family k) (AccessGroup.m_column_families (AccessGroup.ag a)))
      \/ all_cells a' = all_cells a /\ k_flag k <> FLAG_DELETE_ROW)) ->
  NoDup (map fst (filter (fun c => negb (row_delete c)) (flat_map all_cells v'))) -> arranged v'.
Proof.
  intros [F R K] Hk Hv Hn. split; [| |assumption].
  - intros a' d kd Hin Hd Hkd Hfl. apply In_nth_error in Hin as [i Hi]. destruct (Hv i a' Hi) as (a & Ha & Eag & [[Hp Hfam]|[Es _]]); rewrite Eag.
    + apply (Permutation_in _ Hp) in Hd. destruct Hd as [<-|Hd]; [|exact (F a d kd (nth_error_In _ _ Ha) Hd Hkd Hfl)].
      rewrite Hk in Hkd. injection Hkd as <-. auto.
    + rewrite Es in Hd. exact (F a d kd (nth_error_In _ _ Ha) Hd Hkd Hfl).
  - intros a' b' d Ha' Hb' Hd Hrd. apply In_nth_error in Ha' as [i Hi], Hb' as [j Hj].
    destruct (Hv i a' Hi) as (a & Ha & _ & Ca), (Hv j b' Hj) as (b & Hb & _ & Cb).
    assert (Hold : In d (all_cells a) -> In (fst d) (map fst (all_cells b'))).
    { intros Hin. pose proof (R a b d (nth_error_In _ _ Ha) (nth_error_In _ _ Hb) Hin Hrd) as Hx. destruct Cb as [[Hp _]|[Es _]].
      - apply (Permutation_in _ (Permutation_sym (Permutation_map fst Hp))). now right.
      - now rewrite Es. }
    destruct Ca as [[Hp _]|[Es _]]; [|rewrite Es in Hd; auto]. apply (Permutation_in _ Hp) in Hd as [<-|Hd]; [|auto].
    destruct Cb as [[Hpb _]|[_ Hnr]]; [apply (Permutation_in _ (Permutation_sym (Permutation_map fst Hpb))); now left|].
    unfold row_delete in Hrd. rewrite Hk in Hrd. apply Z.eqb_eq in Hrd. contradiction.
Qed.

Lemma NoDup_map_Some {A} (l : list A) : NoDup l -> NoDup (map Some l).
Proof. induction 1 as [|x l Hx Hl IH]; cbn; constructor; auto. intros H. apply in_map_iff in H as (y & [= ->] & Hy). contradiction. Qed.

Lemma flat_map_replicate v v' c : length v' = length v ->
  (forall i a, nth_error v i = Some a -> exists a', nth_error v' i = Some a' /\ Permutation (all_cells a') (c :: all_cells a)) ->
  Permutation (flat_map all_cells v') (repeat c (length v) ++ flat_map all_cells v).
Proof.
  revert v'. induction v as [|a v IH]; intros [|a' v'] Hl H; try discriminate; [reflexivity|]. cbn [flat_map length repeat app].
  destruct (H 0%nat a eq_refl) as (a1 & [= <-] & Hp). rewrite Hp. cbn [app]. constructor.
  rewrite (IH v'); [|now injection Hl|intros i b; apply (H (S i) b)]. rewrite !app_assoc. apply Permutation_app_tail, Permutation_app_comm.
Qed.

Lemma counted_flag k s : k_flag k = FLAG_INSERT \/ 0 <= k_flag k <= FLAG_DELETE_CELL -> length (m_added_deletes s) = 3%nat ->
  exists s', count_added (k_flag k) s = Ok s' /\ length (m_added_deletes s') = 3%nat /\ m_error s' = m_error s /\
    m_last_logical_timestamp s' = m_last_logical_timestamp s.
Proof.
  intros Hf Hl. unfold count_added. destruct (Z.eqb_spec (k_flag k) FLAG_INSERT) as [Ef|Ef]; [eexists; split; [reflexivity|auto]|].
  destruct Hf as [|Hf]; [contradiction|]. unfold FLAG_DELETE_CELL in Hf.
  destruct (nth_error (m_added_deletes s) (Z.to_nat (k_flag k))) as [n|] eqn:En; [|apply nth_error_None in En; lia].
  eexists; split; [reflexivity|]. cbn. rewrite replace_length. auto.
Qed.

Lemma row_copies v c n : row_delete c = true ->
  filter (fun c => negb (row_delete c)) (repeat c n ++ flat_map all_cells v) = filter (fun c => negb (row_delete c)) (flat_map all_cells v).
Proof. intros H. induction n as [|n IH]; [reflexivity|]. cbn [repeat app filter]. now rewrite H. Qed.

(** The groups after an update that went to [n] of them. *)
Record takes (c : cell) (n : nat) (v : list group) (w' : world) (v' : list group) : Prop := {
  tk_healthy : healthy w' v';
  tk_length : length v' = length v;
  tk_same i a : nth_error v i = Some a -> exists a', nth_error v' i = Some a' /\ AccessGroup.ag a' = AccessGroup.ag a;
  tk_arranged : arranged v';
  tk_cells : Permutation (flat_map all_cells v') (repeat c n ++ flat_map all_cells v) }.

Lemma row_added w r c k ts : connected r -> healthy w (m_access_group_vector r) -> arranged (m_access_group_vector r) ->
  addable c -> parse_key (fst c) = Some k -> k_flag k = FLAG_DELETE_ROW ->
  (forall a, In a (m_access_group_vector r) -> ~ In (fst c) (map fst (all_cells a))) ->
  exists w' v', add_everywhere (m_access_group_map r) c ts w r = Ok (w', with_groups v' r) /\
    takes c (length (m_access_group_vector r)) (m_access_group_vector r) w' v'.
Proof.
  intros Rc Rh Ra Hadd Hk Erow Hfresh. set (v := m_access_group_vector r) in *.
  assert (Hrd : row_delete c = true) by (unfold row_delete; rewrite Hk, Erow; reflexivity).
  destruct (add_everywhere_ok c ts (m_access_group_map r) Hadd w r) as (w' & v' & Ew & Hh & Hl & Hn).
  { apply (Permutation_NoDup (Permutation_sym Rc)), NoDup_map_Some, seq_NoDup. }
  { exact (connected_valid r Rc). }
  { exact Rh. }
  { intros i a _ Ha. apply Hfresh. exact (nth_error_In _ _ Ha). }
  fold v in Hl, Hn. exists w', v'. split; [assumption|].
  assert (Hg : forall i a, nth_error v i = Some a -> exists a', nth_error v' i = Some a' /\ grown c a a').
  { intros i a Hi. destruct (Hn i a Hi) as (a' & Ha' & Hin & _). exists a'. split; [assumption|].
    apply Hin, (Permutation_in _ (Permutation_sym Rc)), in_map, in_seq. assert (i < length v)%nat by (apply nth_error_Some; congruence). fold v. lia. }
  assert (Hp : Permutation (flat_map all_cells v') (repeat c (length v) ++ flat_map all_cells v)).
  { apply flat_map_replicate; [assumption|]. intros i a Hi. destruct (Hg i a Hi) as (a' & Ha' & _ & Hpa). eauto. }
  split; auto.
  - intros i a Hi. destruct (Hg i a Hi) as (a' & Ha' & Eag & _). eauto.
  - apply (grown_arranged v v' c k); auto.
    + intros i a' Ha'. destruct (nth_error v i) as [a|] eqn:Ea.
      * destruct (Hg i a Ea) as (a2 & Ha2 & Eag & Hpa). assert (a2 = a') as -> by congruence. exists a. split; [reflexivity|]. split; [assumption|].
        left. split; [assumption|congruence].
      * apply nth_error_None in Ea. assert (i < length v')%nat by (apply nth_error_Some; congruence). lia.
    + rewrite (Permutation_map fst (filter_perm _ _ _ Hp)), row_copies by assumption. apply Ra.
Qed.

Lemma cell_added w v i a c k ts : healthy w v -> arranged v -> nth_error v i = Some a ->
  In (k_family k) (AccessGroup.m_column_families (AccessGroup.ag a)) ->
  addable c -> parse_key (fst c) = Some k -> k_flag k <> FLAG_DELETE_ROW ->
  (forall a, In a v -> ~ In (fst c) (map fst (all_cells a))) ->
  exists w' a', AccessGroup.add c ts w a = Ok (w', a') /\ takes c 1 v w' (replace i a' v).
Proof.
  intros Rh Ra Ha Hin Hadd Hk Erow Hfresh.
  destruct (add_group w v i a c ts Rh Ha Hadd (Hfresh a (nth_error_In _ _ Ha))) as (w' & a' & Ew & Hh & Eag & Hpa).
  exists w', a'. split; [assumption|]. assert (Hlt : (i < length v)%nat) by (apply nth_error_Some; congruence).
  assert (Hp : Permutation (flat_map all_cells (replace i a' v)) (c :: flat_map all_cells v)) by now apply (replace_flat_map all_cells i a).
  split; auto.
  - apply replace_length.
  - intros j b Hb. destruct (Nat.eq_dec i j) as [<-|Hij].
    + rewrite replace_nth by assumption. exists a'. assert (b = a) as -> by congruence. auto.
    + rewrite replace_other by assumption. eauto.
  - apply (grown_arranged v (replace i a' v) c k); auto.
    + intros j b' Hb'. destruct (Nat.eq_dec i j) as [<-|Hij].
      * rewrite replace_nth in Hb' by assumption. inv Hb'. exists a. split; [assumption|]. split; [assumption|]. left. auto.
      * rewrite replace_other in Hb' by assumption. exists b'. auto 6.
    + rewrite (Permutation_map fst (filter_perm _ _ _ Hp)). cbn [filter]. unfold row_delete at 1. rewrite Hk, (proj2 (Z.eqb_neq _ _) Erow).
      cbn [negb map]. constructor; [|apply Ra]. intros Hx. apply in_map_iff in Hx as (d & Ed & Hd). apply filter_In in Hd as [Hd _].
      apply in_flat_map in Hd as (b & Hb & Hd). apply (Hfresh b Hb). rewrite <- Ed. now apply in_map.
Qed.

Lemma takes_ready c n w w' r v' s : ready w r -> takes c n (m_access_group_vector r) w' v' ->
  length (m_added_deletes s) = 3%nat -> m_error s = OK_ -> ready w' (with_status s (with_groups v' r)).
Proof.
  intros [Rc Rf Rh Ra Rd Re] [T1 T2 T3 T4 T5] Hl He. split; auto.
  - unfold connected. cbn. rewrite T2. exact Rc.
  - intros code i Hi. destruct (Rf code i Hi) as (a & Ha & Hin). destruct (T3 i a Ha) as (a' & Ha' & Eag). exists a'. cbn. rewrite Eag. auto.
Qed.


End RangeScan.
