(* ===== verification/RangeLoad.v ===== *)
(** * Making a range

    Theorems on the constructor of [Range] and [load_cell_stores] of Range.v: the
    access groups follow the schema, the maps lead to them, and each group has the
    stores that its [Files] column names, seen between the rows of the range. *)
From S2P Require Import Prelude Errors Serialization ByteString Key Deletes CellCache Scanner MergeScanner Selection.
From S2P Require Import Schema Wire ScanContext BlockCodec CellStore CellStoreScanner AccessGroup Compaction Shrink Range RangeScan.
From stdpp Require base gmap.
From Stdlib Require Import ZArith Lia List Bool Sorted Permutation.
Import ListNotations.
Open Scope Z_scope.
Open Scope result_scope.
Open Scope list_scope.

Import CellStoreScanner(row_of, scan_wants, scan_ok, clean_row, shown).
Import Range.

(** ** The [Files] column *)

(** File names that survive the column. *)
Record plain (f : list Z) : Prop := {
  pl_nonempty : f <> [];
  pl_bytes : Forall (fun b => b <> 59 /\ b <> 0) f;
  pl_first : space (hd 0 f) = false /\ hd 0 f <> 35;
  pl_last : space (last f 0) = false }.

Definition files_column (l : list (list Z)) : list Z := concat (map (fun f => f ++ AccessGroup.semicolon_newline) l).

Lemma trim_left_plain f : f <> [] -> space (hd 0 f) = false -> trim_left f = f.
Proof. destruct f as [|b f]; [congruence|]. cbn. now intros _ ->. Qed.

Lemma trim_plain f : plain f -> trim f = f.
Proof.
  intros [H1 _ [H3 _] H4]. unfold trim. rewrite (trim_left_plain f H1 H3).
  rewrite trim_left_plain, rev_involutive; [reflexivity| |].
  - intros E. apply (f_equal (@rev Z)) in E. rewrite rev_involutive in E. now apply H1.
  - destruct f as [|b f] using rev_ind; [congruence|]. rewrite last_last in H4. now rewrite rev_app_distr.
Qed.

Lemma file_str_plain f : plain f -> file_str f = f /\ file_str (10 :: f) = f.
Proof.
  intros H. assert (H10 : trim (10 :: f) = trim f) by reflexivity. unfold file_str. rewrite H10, (trim_plain f H).
  destruct H as [H1 _ [_ H3] _]. destruct f as [|b f]; [congruence|]. cbn [hd] in H3. now rewrite (proj2 (Z.eqb_neq _ _) H3).
Qed.

Lemma pieces_app acc f rest : Forall (fun b => b <> 59 /\ b <> 0) f -> pieces acc (f ++ 59 :: rest) = (rev acc ++ f) :: pieces [] rest.
Proof.
  intros H. revert acc. induction H as [|b f [Hb _] H IH]; intros acc; cbn [app pieces].
  - now rewrite app_nil_r.
  - rewrite (proj2 (Z.eqb_neq _ _) Hb), IH. cbn [rev]. now rewrite <- app_assoc.
Qed.

Lemma until_nul_all f : Forall (fun b => b <> 0) f -> until_nul f = f.
Proof. induction 1 as [|b f Hb H IH]; [reflexivity|]. cbn [until_nul]. now rewrite (proj2 (Z.eqb_neq _ _) Hb), IH. Qed.

(** What is written is what is read: the names of a [Files] column. *)
Lemma files_roundtrip l : Forall plain l -> parse_files (files_column l) = l.
Proof.
  intros H. unfold parse_files. assert (Hn : Forall (fun b => b <> 0) (files_column l)).
  { unfold files_column. induction H as [|f l [_ Hb _ _] H IH]; cbn [map concat]; [constructor|]. apply Forall_app. split; [|assumption].
    apply Forall_app. split; [eapply Forall_impl; [|exact Hb]; now intros b []|repeat constructor; discriminate]. }
  rewrite until_nul_all by assumption. clear Hn. unfold files_column.
  assert (Hg : forall acc, acc = [] \/ acc = [10] ->
    filter nonempty (map file_str (pieces acc (concat (map (fun f => f ++ AccessGroup.semicolon_newline) l)))) = l); [|apply Hg; now left].
  induction H as [|f l Hf H IH]; intros acc Hacc; cbn [map concat].
  - destruct Hacc as [-> | ->]; reflexivity.
  - unfold AccessGroup.semicolon_newline at 1. rewrite <- !app_assoc. cbn [app]. rewrite pieces_app by apply Hf. cbn [map filter pieces Z.eqb].
    assert (Ef : file_str (rev acc ++ f) = f) by (destruct Hacc as [-> | ->]; apply file_str_plain; assumption). rewrite Ef.
    destruct (nonempty f) eqn:En; [|destruct f; [now destruct (pl_nonempty _ Hf)|discriminate]]. f_equal. apply IH. now right.
Qed.

(** ** Maps *)

Lemma map_get_set name v m n : map_get n (map_set name v m) = if bytes_eqb name n then Some v else map_get n m.
Proof.
  induction m as [|[k u] m IH]; cbn [map_set map_get]; [reflexivity|].
  destruct (bytes_cmp name k) eqn:Ec; cbn [map_get].
  - apply bytes_cmp_eq in Ec as ->. now destruct (bytes_eqb k n).
  - reflexivity.
  - rewrite IH. destruct (bytes_eqb k n) eqn:Ek; [|reflexivity]. apply bytes_eqb_eq in Ek as ->.
    destruct (bytes_eqb name n) eqn:En; [|reflexivity]. apply bytes_eqb_eq in En as ->. rewrite bytes_cmp_refl in Ec. discriminate.
Qed.

Lemma map_set_new name v m : map_get name m = None -> Permutation (map snd (map_set name v m)) (v :: map snd m).
Proof.
  induction m as [|[k u] m IH]; cbn [map_set map_get]; intros H; [reflexivity|].
  destruct (bytes_eqb k name) eqn:Ek; [discriminate|]. destruct (bytes_cmp name k) eqn:Ec; cbn [map snd].
  - apply bytes_cmp_eq in Ec as ->. now apply bytes_eqb_neq in Ek.
  - reflexivity.
  - rewrite (IH H). apply perm_swap.
Qed.

(** ** Groups of a schema *)

(** The access groups of a schema with the ids of their columns. *)
Fixpoint resolve (sch : Schema.Schema) (l : list nat) : option (list (Schema.AccessGroup * list Z)) :=
  match l with
  | [] => Some []
  | p :: l =>
      match base.lookup p (Schema.ags sch) with
      | None => None
      | Some ag =>
          match column_ids sch (Schema.ag_columns ag), resolve sch l with
          | Ok ids, Some gs => Some ((ag, ids) :: gs)
          | _, _ => None
          end
      end
  end.

Record schema_ok (sch : Schema.Schema) (gs : list (Schema.AccessGroup * list Z)) : Prop := {
  so_resolve : resolve sch (Schema.m_access_groups sch) = Some gs;
  so_names : NoDup (map (fun g => chars (Schema.ag_name (fst g))) gs);
  so_ids : NoDup (flat_map snd gs);
  so_range : Forall (fun id => 0 <= id <= Schema.m_max_column_family_id sch) (flat_map snd gs);
  so_max : Schema.m_max_column_family_id sch < 256 }.

Section Load.

Context {St W Sc E : Type} {OP : CellStoreOps St W Sc E} {CS : CellListScanner Sc} {SP : CellStoreSpec OP}.
Context {Q : PriorityQueue (ScannerState (cached + Sc)) ss_key}.

Abbreviation group := (@AccessGroup.t St).
Abbreviation range := (@Range.t St).
Abbreviation all_cells := AccessGroup.all_cells.
Abbreviation name_of a := (AccessGroup.g_name (AccessGroup.ag a)).
Abbreviation families a := (AccessGroup.m_column_families (AccessGroup.ag a)).

Lemma id_insert_In id l x : In x (id_insert id l) <-> x = id \/ In x l.
Proof.
  induction l as [|y l IH]; cbn [id_insert]; [cbn; intuition|]. destruct (id <? y); [cbn; intuition|].
  destruct (Z.eqb_spec id y) as [->|Hn]; [cbn; intuition|]. cbn [In]. rewrite IH. intuition.
Qed.

Lemma ids_In ids : forall acc x, In x (fold_left (fun s x => id_insert (u8 x) s) ids acc) <-> In x acc \/ In x (map (fun y => u8 y) ids).
Proof.
  induction ids as [|y ids IH]; intros acc x; cbn [fold_left map]; [cbn; intuition|]. rewrite IH, id_insert_In. cbn [In]. intuition.
Qed.

Lemma assign_ok i ids : forall v, Forall (fun id => 0 <= id < zlen v) ids ->
  exists v', assign_families i ids v = Ok v' /\ length v' = length v /\
    forall n, nth_error v' n = if existsb (Z.eqb (Z.of_nat n)) ids then Some (Some i) else nth_error v n.
Proof.
  induction ids as [|id ids IH]; intros v H; cbn [assign_families]; [exists v; auto|]. pose proof (Forall_inv H) as Hid. cbn beta in Hid.
  rewrite (proj2 (Z.leb_le _ _)), (proj2 (Z.ltb_lt _ _)) by lia. cbn [andb].
  destruct (IH (replace (Z.to_nat id) (Some i) v)) as (v' & E1 & L1 & N1).
  { eapply Forall_impl; [|exact (Forall_inv_tail H)]. intros x Hx. unfold zlen in *. now rewrite replace_length. }
  exists v'. split; [assumption|]. rewrite replace_length in L1. split; [assumption|]. intros n. rewrite N1. cbn [existsb].
  destruct (existsb _ ids) eqn:Ee; [now rewrite orb_true_r|]. rewrite orb_false_r. destruct (Z.eqb_spec (Z.of_nat n) id) as [<-|Hn].
  - rewrite Nat2Z.id, replace_nth; [reflexivity|]. unfold zlen in Hid. lia.
  - rewrite replace_other; [reflexivity|lia].
Qed.

(** What the loop over the access groups keeps. *)
Record made (m : AccessGroupMap) (v : list group) (fv : list (option nat)) : Prop := {
  md_connected : Permutation (map snd m) (map Some (seq 0 (length v)));
  md_names i a : nth_error v i = Some a -> map_get (name_of a) m = Some (Some i);
  md_known name : map_get name m <> None -> exists a, In a v /\ name_of a = name;
  md_families code i : nth_error fv code = Some (Some i) -> exists a, nth_error v i = Some a /\ In (Z.of_nat code) (families a);
  md_bytes a id : In a v -> In id (families a) -> 0 <= id;
  md_ids i a id : nth_error v i = Some a -> In id (families a) -> nth_error fv (Z.to_nat id) = Some (Some i) }.

Lemma new_group_families id range ag ids : Forall (fun x => 0 <= x < 256) ids ->
  forall x, In x (families (@new_group St id range ag ids)) <-> In x ids.
Proof.
  intros H x. unfold new_group. cbn [AccessGroup.make AccessGroup.ag AccessGroup.m_column_families]. rewrite ids_In.
  replace (map (fun y => u8 y) ids) with ids; [cbn; intuition|]. induction H as [|y ids Hy H IH]; [reflexivity|]. cbn [map]. rewrite <- IH. f_equal.
  symmetry. unfold wrap. apply Z.mod_small. lia.
Qed.

Lemma made_step id range ag ids m v fv fv' : made m v fv -> ~ In (chars (Schema.ag_name ag)) (map (fun a => name_of a) v) ->
  (forall a x, In a v -> In x (families a) -> ~ In x ids) -> Forall (fun x => 0 <= x < 256) ids ->
  (forall n, nth_error fv' n = if existsb (Z.eqb (Z.of_nat n)) ids then Some (Some (length v)) else nth_error fv n) ->
  made (map_set (chars (Schema.ag_name ag)) (Some (length v)) m) (v ++ [new_group id range ag ids]) fv'.
Proof.
  intros [M1 M2 M3 M4 M6 M5] Hn Hd Hr Hfv. set (a := new_group id range ag ids). set (nm := chars (Schema.ag_name ag)) in *.
  pose proof (new_group_families id range ag ids Hr) as Hfam. change (families a) with (families (@new_group St id range ag ids)) in *.
  assert (Hnone : map_get nm m = None).
  { destruct (map_get nm m) eqn:Eg; [|reflexivity]. destruct (M3 nm) as (b & Hb & Eb); [congruence|]. destruct Hn. rewrite <- Eb. now apply (in_map (fun a => name_of a)). }
  assert (Hlast : forall i b, nth_error (v ++ [a]) i = Some b -> ((i < length v)%nat /\ nth_error v i = Some b) \/ (i = length v /\ b = a)).
  { intros i b Hi. destruct (Nat.lt_ge_cases i (length v)) as [Hl|Hl]; [left; now rewrite nth_error_app1 in Hi|].
    rewrite nth_error_app2 in Hi by lia. right. destruct (i - length v)%nat as [|[|]] eqn:Ed; cbn in Hi; try discriminate. inv Hi. split; [lia|reflexivity]. }
  split.
  - rewrite map_set_new by assumption. rewrite length_app, Nat.add_1_r, seq_S, map_app, M1. cbn [map Nat.add]. apply Permutation_cons_append.
  - intros i b Hi. rewrite map_get_set. destruct (Hlast i b Hi) as [[Hl Hi']|[-> ->]].
    + rewrite (M2 i b Hi'). destruct (bytes_eqb nm (name_of b)) eqn:Eb; [|reflexivity]. apply bytes_eqb_eq in Eb. destruct Hn. rewrite Eb.
      apply (in_map (fun a => name_of a)). exact (nth_error_In _ _ Hi').
    + change (name_of a) with nm. now rewrite (proj2 (bytes_eqb_eq nm nm) eq_refl).
  - intros name. rewrite map_get_set. destruct (bytes_eqb nm name) eqn:Eb; intros H.
    + apply bytes_eqb_eq in Eb as <-. exists a. split; [apply in_or_app; right; now left|reflexivity].
    + destruct (M3 name H) as (b & Hb & Eb'). exists b. split; [apply in_or_app; now left|assumption].
  - intros code i. rewrite Hfv. destruct (existsb _ ids) eqn:Ee.
    + intros [= <-]. exists a. split; [rewrite nth_error_app2, Nat.sub_diag by lia; reflexivity|]. apply Hfam.
      apply existsb_exists in Ee as (x & Hx & Ex). apply Z.eqb_eq in Ex as ->. assumption.
    + intros H. destruct (M4 code i H) as (b & Hb & Hin). exists b. split; [|assumption].
      rewrite nth_error_app1; [assumption|]. apply nth_error_Some. congruence.
  - intros b x Hb Hx. apply in_app_iff in Hb as [Hb|[<-|[]]]; [now apply (M6 b)|]. apply Hfam in Hx. rewrite Forall_forall in Hr. now apply Hr.
  - intros i b x Hi Hx. rewrite Hfv. destruct (Hlast i b Hi) as [[Hl Hi']|[-> ->]].
    + destruct (existsb _ ids) eqn:Ee; [|now apply (M5 i b x)]. exfalso. apply existsb_exists in Ee as (y & Hy & Ey). apply Z.eqb_eq in Ey.
      pose proof (M6 b x (nth_error_In _ _ Hi') Hx) as H0.
      rewrite Z2Nat.id in Ey by assumption. subst y. exact (Hd b x (nth_error_In _ _ Hi') Hx Hy).
    + apply Hfam in Hx. replace (existsb _ ids) with true; [reflexivity|]. symmetry. apply existsb_exists. exists x. split; [assumption|].
      rewrite Forall_forall in Hr. specialize (Hr x Hx). rewrite Z2Nat.id by lia. apply Z.eqb_refl.
Qed.

Lemma make_groups_ok id range sch l gs : resolve sch l = Some gs -> forall m v fv, made m v fv ->
  NoDup (map (fun g => chars (Schema.ag_name (fst g))) gs) -> NoDup (flat_map snd gs) ->
  (forall a g, In a v -> In g gs -> name_of a <> chars (Schema.ag_name (fst g))) ->
  (forall a x, In a v -> In x (families a) -> ~ In x (flat_map snd gs)) ->
  Forall (fun x => 0 <= x < zlen fv) (flat_map snd gs) -> zlen fv <= 256 ->
  exists m' fv', make_groups id range sch l m v fv = Ok (m', v ++ map (fun g => new_group id range (fst g) (snd g)) gs, fv') /\
    made m' (v ++ map (fun g => new_group id range (fst g) (snd g)) gs) fv' /\ length fv' = length fv.
Proof.
  revert gs. induction l as [|p l IH]; intros gs Hg m v fv M Nn Ni Dn Di Hr Hz; cbn [resolve make_groups] in *.
  - inv Hg. cbn [map]. rewrite app_nil_r. exists m, fv. auto.
  - destruct (base.lookup p (Schema.ags sch)) as [ag|]; [|discriminate]. destruct (column_ids sch (Schema.ag_columns ag)) as [ids| |]; [|discriminate..].
    destruct (resolve sch l) as [gs'|]; [|discriminate]. injection Hg as <-. cbn [map flat_map fst snd] in *. cbn [bind].
    apply Forall_app in Hr as [Hr1 Hr2]. destruct (assign_ok (length v) ids fv Hr1) as (fv1 & -> & L1 & N1). cbn [bind].
    inversion Nn as [|? ? Nn1 Nn2]; subst. destruct (NoDup_app_parts _ _ Ni) as (_ & Ni2 & Ni3).
    assert (Hb : Forall (fun x => 0 <= x < 256) ids) by (eapply Forall_impl; [|exact Hr1]; cbn beta; intros; lia).
    assert (M1 : made (map_set (chars (Schema.ag_name ag)) (Some (length v)) m) (v ++ [new_group id range ag ids]) fv1).
    { apply (made_step id range ag ids m v fv); auto.
      - intros Hin. apply in_map_iff in Hin as (a & Ea & Ha). exact (Dn a (ag, ids) Ha (or_introl eq_refl) Ea).
      - intros a x Ha Hx Hin. apply (Di a x Ha Hx), in_or_app. now left. }
    destruct (IH gs' eq_refl _ _ fv1 M1 Nn2 Ni2) as (m' & fv' & E' & M' & L').
    + intros a g Ha Hin. apply in_app_iff in Ha as [Ha|[<-|[]]]; [apply Dn; [assumption|now right]|].
      intros En. apply Nn1. change (name_of (new_group id range ag ids)) with (chars (Schema.ag_name ag)) in En. rewrite En.
      apply (in_map (fun g => chars (Schema.ag_name (fst g))) gs' g Hin).
    + intros a x Ha Hx Hin. apply in_app_iff in Ha as [Ha|[<-|[]]]; [apply (Di a x Ha Hx), in_or_app; now right|].
      apply (new_group_families id range ag ids Hb) in Hx. exact (Ni3 x Hx Hin).
    + unfold zlen in *. now rewrite L1.
    + unfold zlen in *. now rewrite L1.
    + rewrite <- app_assoc in E', M'. cbn [app] in E', M'. exists m', fv'. split; [exact E'|]. split; [exact M'|]. congruence.
Qed.

(** ** Loading the stores *)

Lemma replace_same {A} i (a : A) l : nth_error l i = Some a -> replace i a l = l.
Proof. revert i. induction l as [|x l IH]; intros [|i] H; try discriminate; cbn in *; [now inv H|]. now rewrite IH. Qed.

Lemma replace_twice {A} i (a b : A) l : replace i b (replace i a l) = replace i b l.
Proof. revert i. induction l as [|x l IH]; intros [|i]; cbn; try reflexivity. now rewrite IH. Qed.

Lemma put_same i a (r : range) : nth_error (m_access_group_vector r) i = Some a -> put_group i a r = r.
Proof. intros H. unfold put_group. rewrite replace_same by assumption. now destruct r. Qed.

Lemma put_twice i a b (r : range) : put_group i b (put_group i a r) = put_group i b r.
Proof. unfold put_group, with_groups. cbn. now rewrite replace_twice. Qed.

Lemma put_nth i a b (r : range) : nth_error (m_access_group_vector r) i = Some a -> nth_error (m_access_group_vector (put_group i b r)) i = Some b.
Proof. intros H. apply replace_nth, nth_error_Some. congruence. Qed.

(** Stores that can be opened between [start] and the end of the range. *)
Record opens (g : @Globals St) (start : list Z) (st : St) : Prop := {
  op_disk : disk g (cst_filename st) = Some st;
  op_spans : spans start st;
  op_plain : plain (cst_filename st) }.

(** The group has more stores, which show the cells of [l] between the rows. *)
Record loads (start end_ : list Z) (l : list St) (a a' : group) : Prop := {
  lo_ag : AccessGroup.ag a' = AccessGroup.ag a;
  lo_start : AccessGroup.m_start_row a' = AccessGroup.m_start_row a;
  lo_cache : AccessGroup.m_cell_cache a' = AccessGroup.m_cell_cache a;
  lo_stores : exists l', AccessGroup.m_stores a' = AccessGroup.m_stores a ++ l' /\ Forall cst_valid l' /\
    Forall (fun st => Forall AccessGroup.cell_ok (cst_cells st)) l' /\
    flat_map AccessGroup.store_view l' = filter (rows_between start end_) (flat_map AccessGroup.store_view l) }.

Lemma loads_none start end_ a : loads start end_ [] a a.
Proof. split; auto. exists []. rewrite app_nil_r. repeat split; constructor. Qed.

Lemma loads_trans start end_ l1 l2 a b c : loads start end_ l1 a b -> loads start end_ l2 b c -> loads start end_ (l1 ++ l2) a c.
Proof.
  intros [A1 A2 A3 (k1 & A4 & A5 & A6 & A7)] [B1 B2 B3 (k2 & B4 & B5 & B6 & B7)]. split; try congruence. exists (k1 ++ k2).
  rewrite B4, A4, app_assoc. split; [reflexivity|]. split; [now apply Forall_app|]. split; [now apply Forall_app|].
  now rewrite !flat_map_app, A7, B7, filter_app.
Qed.

Lemma Forall2_nth_error {A B} (R : A -> B -> Prop) l l' : length l = length l' ->
  (forall i a b, nth_error l i = Some a -> nth_error l' i = Some b -> R a b) -> Forall2 R l l'.
Proof.
  revert l'. induction l as [|a l IH]; intros [|b l'] Hl H; try discriminate; constructor; [exact (H 0%nat a b eq_refl eq_refl)|].
  apply IH; [now inv Hl|]. intros i x y Hx Hy. exact (H (S i) x y Hx Hy).
Qed.

Lemma Forall2_at {A B} (R : A -> B -> Prop) l l' i a b : Forall2 R l l' -> nth_error l i = Some a -> nth_error l' i = Some b -> R a b.
Proof. intros H. revert i. induction H as [|x y l l' Hxy H IH]; intros [|i] Ha Hb; try discriminate; [now inv Ha; inv Hb|]. exact (IH i Ha Hb). Qed.

Lemma load_files_ok g fuel i w l : forall r a, Forall (opens g (m_start_row r)) l ->
  wf_bytes (m_end_row (r_info r)) -> bytes_lt (m_start_row r) (m_end_row (r_info r)) ->
  nth_error (m_access_group_vector r) i = Some a -> AccessGroup.m_in_memory (AccessGroup.ag a) = false ->
  exists a', load_files g fuel i (map cst_filename l) w r = Ok (w, put_group i a' r) /\
    loads (m_start_row r) (m_end_row (r_info r)) l a a'.
Proof.
  induction l as [|st l IH]; intros r a Ho We Hlt Hi Hm; cbn [map load_files].
  - exists a. rewrite put_same by assumption. split; [reflexivity|apply loads_none].
  - pose proof (Forall_inv Ho) as [O1 O2 _]. unfold load_file. rewrite O1.
    destruct (reopen_ok (m_start_row r) (m_end_row (r_info r)) st O2 We Hlt) as (st' & -> & V & Hc & Hv & _). cbn [bind deref]. rewrite Hi. cbn [bind].
    unfold AccessGroup.add_cell_store. rewrite Hm, andb_false_r. cbn [AccessGroup.with_nums AccessGroup.ag]. rewrite Hm. cbn [bind].
    match goal with |- context [put_group i ?x r] => set (a1 := x) end.
    destruct (IH (put_group i a1 r) a1 (Forall_inv_tail Ho) We Hlt (put_nth i a a1 r Hi) Hm) as (a' & -> & [L1 L2 L3 (l' & L4 & L5 & L6 & L7)]).
    rewrite put_twice. exists a'. split; [reflexivity|]. split; [exact L1|exact L2|exact L3|]. exists (st' :: l'). split; [|split; [now constructor|split; [now constructor|]]].
    + rewrite L4. cbn [a1 AccessGroup.with_stores AccessGroup.m_stores AccessGroup.with_nums]. now rewrite <- app_assoc.
    + cbn [flat_map]. now rewrite Hv, L7, filter_app.
Qed.

(** The names of the files in METADATA, by group. *)
Definition column_of (stores_of : list Z -> list St) (name : list Z) : list Z * list Z :=
  (name, files_column (map cst_filename (stores_of name))).

Lemma load_ok g fuel w stores_of names : forall r, NoDup names ->
  (forall i a, nth_error (m_access_group_vector r) i = Some a -> map_get (name_of a) (m_access_group_map r) = Some (Some i)) ->
  (forall n, In n names -> exists a, In a (m_access_group_vector r) /\ name_of a = n) ->
  (forall n, In n names -> Forall (opens g (m_start_row r)) (stores_of n)) ->
  wf_bytes (m_end_row (r_info r)) -> bytes_lt (m_start_row r) (m_end_row (r_info r)) ->
  Forall (fun a => AccessGroup.m_in_memory (AccessGroup.ag a) = false) (m_access_group_vector r) ->
  exists v', load_cell_stores g fuel (map (column_of stores_of) names) w r = Ok (w, with_groups v' r) /\
    Forall2 (fun a a' => loads (m_start_row r) (m_end_row (r_info r)) (if existsb (bytes_eqb (name_of a)) names then stores_of (name_of a) else []) a a')
      (m_access_group_vector r) v'.
Proof.
  induction names as [|n names IH]; intros r Hn Hmap Hname Ho We Hlt Hm; cbn [map load_cell_stores].
  - exists (m_access_group_vector r). split; [now destruct r|]. cbn [existsb]. clear. induction (m_access_group_vector r); constructor; [apply loads_none|assumption].
  - inversion Hn as [|? ? N1 N2]; subst. cbn [column_of]. destruct (Hname n (or_introl eq_refl)) as (a & Ha & En).
    apply In_nth_error in Ha as [i Hi]. pose proof (Hmap i a Hi) as Hg. rewrite En in Hg. unfold map_index. rewrite Hg.
    replace (with_map (m_access_group_map r) r) with r by now destruct r.
    rewrite files_roundtrip by (apply Forall_map; eapply Forall_impl; [|exact (Ho n (or_introl eq_refl))]; now intros ? []).
    rewrite Forall_forall in Hm. pose proof (Hm a (nth_error_In _ _ Hi)) as Hma.
    destruct (load_files_ok g fuel i w (stores_of n) r a (Ho n (or_introl eq_refl)) We Hlt Hi Hma) as (a1 & -> & L1). cbn [bind].
    assert (Hag : AccessGroup.ag a1 = AccessGroup.ag a) by apply L1.
    assert (Hsame : forall j b, nth_error (replace i a1 (m_access_group_vector r)) j = Some b -> exists c, nth_error (m_access_group_vector r) j = Some c /\ AccessGroup.ag b = AccessGroup.ag c).
    { intros j b Hj. destruct (Nat.eq_dec i j) as [<-|Hij].
      - rewrite replace_nth in Hj by (apply nth_error_Some; congruence). inv Hj. eauto.
      - rewrite replace_other in Hj by assumption. eauto. }
    destruct (IH (put_group i a1 r)) as (v' & E' & F').
    + assumption.
    + intros j b Hj. destruct (Hsame j b Hj) as (c & Hc & ->). now apply Hmap.
    + intros n' Hn'. destruct (Hname n' (or_intror Hn')) as (b & Hb & Eb). apply In_nth_error in Hb as [j Hj].
      destruct (Nat.eq_dec i j) as [<-|Hij].
      * exists a1. split; [apply (nth_error_In _ i), replace_nth, nth_error_Some; congruence|]. rewrite Hag. congruence.
      * exists b. split; [|assumption]. apply (nth_error_In _ j). cbn. now rewrite replace_other.
    + intros n' Hn'. apply Ho. now right.
    + assumption.
    + assumption.
    + apply Forall_forall. intros b Hb. apply In_nth_error in Hb as [j Hj]. destruct (Hsame j b Hj) as (c & Hc & ->). apply Hm. exact (nth_error_In _ _ Hc).
    + exists v'. split; [exact E'|]. pose proof (Forall2_length F') as Hlen. cbn [put_group with_groups m_access_group_vector m_start_row r_info] in *.
      rewrite replace_length in Hlen. apply Forall2_nth_error; [assumption|]. intros j b b' Hb Hb'. cbn [existsb].
      destruct (Nat.eq_dec i j) as [<-|Hij].
      * assert (b = a) as -> by congruence. rewrite En, (proj2 (bytes_eqb_eq n n) eq_refl). cbn [orb].
        pose proof (Forall2_at _ _ _ i a1 b' F' ltac:(apply replace_nth, nth_error_Some; congruence) Hb') as L2. cbn beta in L2.
        rewrite Hag, En in L2. replace (existsb (bytes_eqb n) names) with false in L2.
        { rewrite <- (app_nil_r (stores_of n)). exact (loads_trans _ _ _ _ _ _ _ L1 L2). }
        symmetry. apply not_true_iff_false. intros He. apply existsb_exists in He as (x & Hx & Ex). apply bytes_eqb_eq in Ex as <-. contradiction.
      * pose proof (Forall2_at _ _ _ j b b' F' ltac:(now rewrite replace_other) Hb') as L2. cbn beta in L2.
        replace (bytes_eqb (name_of b) n) with false; [exact L2|]. symmetry. apply bytes_eqb_neq. intros Eb. pose proof (Hmap j b Hb) as Hj. rewrite Eb in Hj. congruence.
Qed.

Lemma made_empty n : made [] [] (repeat None n).
Proof.
  split; [reflexivity|intros [|i] a H; discriminate|intros name H; now destruct H| |intros a x []|intros [|i] a x H; discriminate].
  intros code i H. exfalso. apply nth_error_In, repeat_spec in H. discriminate.
Qed.

(** What the range shows of the stores of a group. *)
Definition shown_by (start end_ : list Z) (stores_of : list Z -> list St) (names : list (list Z)) (g : Schema.AccessGroup * list Z) (a : group) : Prop :=
  let name := chars (Schema.ag_name (fst g)) in
  name_of a = name /\ (forall x, In x (families a) <-> In x (snd g)) /\
  all_cells a = filter (rows_between start end_)
    (flat_map AccessGroup.store_view (if existsb (bytes_eqb name) names then stores_of name else [])).

Lemma loaded_wf w start end_ l a a' : AccessGroup.wf w a -> loads start end_ l a a' -> AccessGroup.wf w a'.
Proof.
  intros [W1 W2 W3 W4] [L1 _ L3 (l' & L4 & L5 & L6 & _)]. split; unfold AccessGroup.cached_cells in *; rewrite ?L3, ?L4; auto; now apply Forall_app.
Qed.

Lemma loaded_groups w start end_ stores_of names id range gs v' : Forall (fun b => (b < w_next w)%nat) (w_live w) ->
  Forall (fun x => 0 <= x < 256) (flat_map snd gs) -> Forall (fun g => Schema.ag_in_memory (fst g) = false) gs ->
  Forall2 (fun a a' => loads start end_ (if existsb (bytes_eqb (name_of a)) names then stores_of (name_of a) else []) a a')
    (map (fun g => new_group id range (fst g) (snd g)) gs) v' ->
  Forall2 (shown_by start end_ stores_of names) gs v' /\ Forall (AccessGroup.wf w) v' /\ Forall (fun a => AccessGroup.m_cell_cache a = CellCache.make) v'.
Proof.
  intros Hw Hb Hm. revert v'. induction gs as [|g gs IH]; intros v' H; cbn [map] in H.
  - inversion H; subst. repeat split; constructor.
  - apply Forall2_cons_iff_l in H as (a' & v2 & -> & L & H). cbn [flat_map] in Hb. apply Forall_app in Hb as [Hb1 Hb2].
    destruct (IH Hb2 (Forall_inv_tail Hm) v2 H) as (I1 & I2 & I3). pose proof L as [L1 _ L3 (l' & L4 & _ & _ & L7)].
    assert (W0 : AccessGroup.wf w (new_group id range (fst g) (snd g))) by (split; [now apply make_wf_in|constructor..]).
    split; [|split; (constructor; [|assumption]); [exact (loaded_wf w _ _ _ _ _ W0 L)|exact L3]]. constructor; [|assumption].
    split; [now rewrite L1|]. split; [intros x; rewrite L1; now apply new_group_families|].
    unfold AccessGroup.all_cells, AccessGroup.cached_cells. rewrite L1, L3, L4. cbn [new_group AccessGroup.make AccessGroup.ag AccessGroup.m_in_memory].
    rewrite (Forall_inv Hm). exact L7.
Qed.

Lemma fresh_healthy w (v : list group) : Forall (AccessGroup.wf w) v -> Forall (fun a => AccessGroup.m_cell_cache a = CellCache.make) v -> healthy w v.
Proof.
  intros H1 H2. split; [assumption|]. intros i j a b _ Ha _. rewrite Forall_forall in H2. rewrite (H2 a (nth_error_In _ _ Ha)). apply make_apart.
Qed.


End Load.
