(* ===== verification/RangeSplit.v ===== *)
(** * What a split keeps

    Theorems on [Range::split] of Range.v: the row a range is split at, the steps
    of a split, and that clients of the two halves read what clients of the whole
    read. *)
From S2P Require Import Prelude Errors Serialization ByteString Key Deletes CellCache Scanner MergeScanner Selection.
From S2P Require Import Schema Wire ScanContext BlockCodec CellStore CellStoreScanner AccessGroup Compaction Shrink Range RangeScan.
From Stdlib Require Import ZArith Lia List Bool Sorted Permutation.
Import ListNotations.
Open Scope Z_scope.
Open Scope result_scope.

Import CellStoreScanner(row_of, scan_wants, scan_ok, clean_row, shown).
Import Range.

(** ** Reading *)

Lemma cell_le_total c d : cell_le c d \/ cell_le d c.
Proof.
  unfold cell_le. rewrite (bytes_cmp_antisym (fst c) (fst d)). destruct (bytes_cmp (fst c) (fst d)); cbn; auto; left; discriminate.
Qed.

Lemma sorted_exists (l : list cell) : exists l', Permutation l' l /\ StronglySorted cell_le l'.
Proof.
  induction l as [|c l (l' & Hp & Hs)]; [exists []; split; constructor|].
  enough (H : exists l2, Permutation l2 (c :: l') /\ StronglySorted cell_le l2).
  { destruct H as (l2 & H1 & H2). exists l2. split; [|assumption]. now rewrite H1, Hp. }
  clear l Hp. induction Hs as [|d l' Hl (l2 & H1 & H2) Hd]; [exists [c]; split; [reflexivity|constructor; constructor]|].
  destruct (cell_le_total c d) as [Hcd|Hdc].
  - exists (c :: d :: l'). split; [reflexivity|]. constructor; [now constructor|]. constructor; [assumption|].
    eapply Forall_impl; [|exact Hd]. intros e. now apply cell_le_trans.
  - exists (d :: l2). split; [rewrite H1; apply perm_swap|]. constructor; [assumption|]. rewrite H1. now constructor.
Qed.

Lemma reads_perm p b cells cells' out : Permutation cells cells' -> reads p b cells out <-> reads p b cells' out.
Proof.
  intros Hp. split; intros (l & H1 & H2 & H3); exists l; (split; [|auto]); rewrite H1; now apply filter_perm.
Qed.

(** Cells that agree but for copies of records that delete rows. *)
Record same_but_copies (cells cells' : list cell) : Prop := {
  sc_others : Permutation (filter (fun c => negb (row_delete c)) cells) (filter (fun c => negb (row_delete c)) cells');
  sc_rows c : row_delete c = true -> (In (fst c) (map fst cells) <-> In (fst c) (map fst cells')) }.

Lemma in_scan_fst b c d : fst c = fst d -> AccessGroup.in_scan b c = AccessGroup.in_scan b d.
Proof. intros H. unfold AccessGroup.in_scan, row_of. now rewrite H. Qed.

Lemma insert_others cells : filter insert_cell (filter (fun c => negb (row_delete c)) cells) = filter insert_cell cells.
Proof. rewrite filter_swap. apply filter_all. intros c Hc. apply filter_In in Hc as [_ Hc]. now rewrite insert_not_row. Qed.

Lemma inserts_perm cells cells' : Permutation (filter (fun c => negb (row_delete c)) cells) (filter (fun c => negb (row_delete c)) cells') ->
  Permutation (filter insert_cell cells) (filter insert_cell cells').
Proof.
  intros H. apply (filter_perm insert_cell) in H. now rewrite !insert_others in H.
Qed.

Lemma copies_sym cells cells' : same_but_copies cells cells' -> same_but_copies cells' cells.
Proof. intros [H1 H2]. split; [now symmetry|]. intros c Hc. symmetry. auto. Qed.

Lemma copies_key cells cells' x : same_but_copies cells cells' -> In x (map fst cells) -> In x (map fst cells').
Proof.
  intros [Ho Hr] Hin. apply in_map_iff in Hin as (c & <- & Hc).
  destruct (row_delete c) eqn:Erd; [apply Hr; [assumption|]; now apply in_map|].
  apply in_map. assert (Hx : In c (filter (fun c => negb (row_delete c)) cells')).
  { apply (Permutation_in _ Ho), filter_In. now rewrite Erd. }
  now apply filter_In in Hx.
Qed.

(** Selecting does not see the copies. *)
Lemma select_copies p cells cells' l l' : same_but_copies cells cells' ->
  Forall MergeScanner.good_cell cells -> Forall MergeScanner.good_cell cells' ->
  NoDup (map fst (filter (fun c => negb (row_delete c)) cells)) ->
  Permutation l cells -> StronglySorted cell_le l -> Permutation l' cells' -> StronglySorted cell_le l' ->
  select p [] [] l = select p [] [] l'.
Proof.
  intros Hc Hg Hg' Hn Hp Hs Hp' Hs'.
  assert (Gl : Forall MergeScanner.good_cell l) by now rewrite Hp.
  assert (Gl' : Forall MergeScanner.good_cell l') by now rewrite Hp'.
  apply select_same; auto.
  - apply sorted_unique; try now apply AccessGroup.sorted_filter.
    + rewrite (filter_perm _ _ _ Hp), (filter_perm _ _ _ Hp'). apply inserts_perm, Hc.
    + rewrite (Permutation_map fst (filter_perm _ _ _ Hp)), <- insert_others. now apply filter_keys.
  - intros k Wk _. rewrite (Permutation_map fst Hp), (Permutation_map fst Hp'). split; apply copies_key; auto using copies_sym.
Qed.

Lemma copies_filter (f : cell -> bool) cells cells' : (forall c d, fst c = fst d -> f c = f d) -> same_but_copies cells cells' ->
  same_but_copies (filter f cells) (filter f cells').
Proof.
  intros Hf [Ho Hr]. split; [rewrite (filter_swap _ f cells), (filter_swap _ f cells'); now apply filter_perm|].
  assert (H : forall (a b : list cell) (c : cell), (In (fst c) (map fst a) -> In (fst c) (map fst b)) -> In (fst c) (map fst (filter f a)) -> In (fst c) (map fst (filter f b))).
  { intros a b c Hab Hin. apply in_map_iff in Hin as (d & Ed & Hd). apply filter_In in Hd as [Hd Fd].
    assert (Hb : In (fst c) (map fst b)) by (apply Hab; rewrite <- Ed; now apply in_map).
    apply in_map_iff in Hb as (e & Ee & He). rewrite <- Ee. apply in_map, filter_In. split; [assumption|]. rewrite (Hf e d); congruence. }
  intros c Hc. split; apply H; now apply Hr.
Qed.

Lemma reads_copies_1 p b cells cells' out : same_but_copies cells cells' -> Forall MergeScanner.good_cell cells -> Forall MergeScanner.good_cell cells' ->
  NoDup (map fst (filter (fun c => negb (row_delete c)) cells)) -> reads p b cells out -> reads p b cells' out.
Proof.
  intros Hc Hg Hg' Hn (l & Hp & Hs & ->). destruct (sorted_exists (filter (AccessGroup.in_scan b) cells')) as (l' & Hp' & Hs').
  exists l'. split; [assumption|]. split; [assumption|].
  apply (select_copies p (filter (AccessGroup.in_scan b) cells) (filter (AccessGroup.in_scan b) cells')); auto using AccessGroup.Forall_filter.
  - apply copies_filter; [apply in_scan_fst|assumption].
  - rewrite filter_swap. now apply filter_keys.
Qed.

Lemma reads_copies p b cells cells' out : same_but_copies cells cells' -> Forall MergeScanner.good_cell cells -> Forall MergeScanner.good_cell cells' ->
  NoDup (map fst (filter (fun c => negb (row_delete c)) cells)) -> reads p b cells out <-> reads p b cells' out.
Proof.
  intros Hc Hg Hg' Hn. split; apply reads_copies_1; auto using copies_sym.
  apply (Permutation_NoDup (Permutation_map fst (sc_others _ _ Hc)) Hn).
Qed.

(** ** Selecting group by group *)

(** The column families and the cells of a group. *)
Abbreviation part := (list Z * list cell)%type.

Record parts_ok (ps : list part) : Prop := {
  pt_good : Forall MergeScanner.good_cell (flat_map snd ps);
  pt_family q c k : In q ps -> In c (snd q) -> parse_key (fst c) = Some k -> k_flag k <> FLAG_DELETE_ROW -> In (k_family k) (fst q);
  pt_rows q q' c : In q ps -> In q' ps -> In c (snd q) -> row_delete c = true -> In (fst c) (map fst (snd q'));
  pt_keys : NoDup (map fst (filter (fun c => negb (row_delete c)) (flat_map snd ps)));
  pt_part_keys q : In q ps -> NoDup (map fst (snd q));
  pt_fams : NoDup (flat_map fst ps) }.

Definition in_part (fs : list Z) (k : KeyComps) : bool := (k_flag k =? FLAG_DELETE_ROW) || existsb (Z.eqb (k_family k)) fs.
Definition cell_in (fs : list Z) (c : cell) : bool := match parse_key (fst c) with Some k => in_part fs k | None => false end.

Lemma existsb_eqb x l : existsb (Z.eqb x) l = true <-> In x l.
Proof.
  rewrite existsb_exists. split; [intros (y & Hy & E); apply Z.eqb_eq in E as ->; assumption|]. intros H. exists x. split; [assumption|apply Z.eqb_refl].
Qed.

Lemma in_part_closed fs : closed (in_part fs).
Proof.
  split; intros k x Wk Wx Hd Hk Hf Hs; unfold in_part in *; [now rewrite Hf|].
  rewrite (proj2 (Z.eqb_neq _ _) (insert_no_row_delete k Hd)) in Hk. cbn [orb] in Hk.
  destruct (same_cf_eq k x Hs) as [_ ->]. now rewrite Hk, orb_true_r.
Qed.

(** One copy of every record that deletes a row. *)
Definition once (ps : list part) : list cell :=
  match ps with
  | [] => []
  | q :: rest => snd q ++ filter (fun c => negb (row_delete c)) (flat_map snd rest)
  end.

Lemma row_delete_fst c d : fst c = fst d -> row_delete c = row_delete d.
Proof. unfold row_delete. now intros ->. Qed.

Lemma filter_idem {A} (f : A -> bool) l : filter f (filter f l) = filter f l.
Proof. apply filter_all. intros x Hx. now apply filter_In in Hx. Qed.

Lemma once_copies ps : parts_ok ps -> same_but_copies (once ps) (flat_map snd ps).
Proof.
  intros H. destruct ps as [|q rest]; [split; [reflexivity|now intros]|]. cbn [once flat_map]. split.
  - now rewrite !filter_app, filter_idem.
  - intros c Hc. rewrite !map_app, !in_app_iff. split; (intros [Hin|Hin]; [now left|]).
    + right. apply in_map_iff in Hin as (d & Ed & Hd). apply filter_In in Hd as [Hd _]. rewrite <- Ed. now apply in_map.
    + left. apply in_map_iff in Hin as (d & Ed & Hd). apply in_flat_map in Hd as (q' & Hq' & Hd). rewrite <- Ed.
      apply (pt_rows _ H q' q d); [now right|now left|assumption|]. now rewrite (row_delete_fst d c).
Qed.

Lemma NoDup_app_intro {A} (l l' : list A) : NoDup l -> NoDup l' -> (forall x, In x l -> In x l' -> False) -> NoDup (l ++ l').
Proof.
  intros H1 H2 H. induction H1 as [|x l Hx Hl IH]; [assumption|]. cbn [app]. constructor; [|apply IH; intros y Hy; apply H; now right].
  rewrite in_app_iff. intros [Hin|Hin]; [contradiction|]. apply (H x); [now left|assumption].
Qed.

Lemma once_keys ps : parts_ok ps -> NoDup (map fst (once ps)).
Proof.
  intros H. destruct ps as [|q rest]; [constructor|]. pose proof (pt_keys _ H) as Hk. cbn [once flat_map] in *. rewrite filter_app, map_app in Hk.
  rewrite map_app. destruct (NoDup_app_parts _ _ Hk) as (_ & K2 & K3). apply NoDup_app_intro; [apply (pt_part_keys _ H); now left|assumption|].
  intros x Hx Hy. apply in_map_iff in Hx as (c & <- & Hc). pose proof Hy as Hy'. apply in_map_iff in Hy as (d & Ed & Hd). apply filter_In in Hd as [_ Hd].
  apply (K3 (fst c)); [|assumption]. apply in_map, filter_In. split; [assumption|]. now rewrite <- (row_delete_fst d c).
Qed.

Lemma once_good ps : parts_ok ps -> Forall MergeScanner.good_cell (once ps).
Proof.
  intros H. pose proof (pt_good _ H) as Hg. destruct ps as [|q rest]; [constructor|]. cbn [once flat_map] in *. apply Forall_app in Hg as [H1 H2].
  apply Forall_app. split; [assumption|]. now apply AccessGroup.Forall_filter.
Qed.

(** The other cells of a part among all. *)
Lemma part_others ps q : parts_ok ps -> In q ps ->
  Permutation (filter (cell_in (fst q)) (filter (fun c => negb (row_delete c)) (flat_map snd ps))) (filter (fun c => negb (row_delete c)) (snd q)).
Proof.
  intros H Hq. pose proof (pt_good _ H) as Hg. rewrite Forall_forall in Hg.
  assert (Hin : forall q' c, In q' ps -> In c (filter (fun c => negb (row_delete c)) (snd q')) -> exists k, parse_key (fst c) = Some k /\
    cell_in (fst q) c = existsb (Z.eqb (k_family k)) (fst q) /\ In (k_family k) (fst q')).
  { intros q' c Hq' Hc. apply filter_In in Hc as [Hc Hr]. destruct (good_cell_parse c (Hg c (proj2 (in_flat_map _ _ _) (ex_intro _ q' (conj Hq' Hc))))) as (k & _ & _ & Hk).
    exists k. split; [assumption|]. unfold row_delete in Hr. rewrite Hk in Hr. apply negb_true_iff in Hr.
    split; [unfold cell_in, in_part; now rewrite Hk, Hr|]. apply (pt_family _ H q' c k); auto. now apply Z.eqb_neq. }
  rewrite !AccessGroup.filter_flat_map. cbn beta. pose proof (pt_fams _ H) as Hf. clear Hg.
  apply in_split in Hq as (l1 & l2 & ->). rewrite flat_map_app in *. cbn [flat_map] in *.
  assert (Hnone : forall l, (forall q', In q' l -> In q' (l1 ++ q :: l2)) -> (forall f, In f (fst q) -> In f (flat_map fst l) -> False) ->
    flat_map (fun x => filter (cell_in (fst q)) (filter (fun c => negb (row_delete c)) (snd x))) l = []).
  { induction l as [|q' l IH]; intros Hsub Hd; [reflexivity|]. cbn [flat_map]. rewrite IH, app_nil_r.
    - apply filter_none. intros c Hc. destruct (Hin q' c (Hsub q' (or_introl eq_refl)) Hc) as (k & _ & -> & Hk).
      destruct (existsb (Z.eqb (k_family k)) (fst q)) eqn:Ee; [|reflexivity]. apply existsb_eqb in Ee. exfalso. apply (Hd (k_family k) Ee).
      cbn [flat_map]. apply in_or_app. now left.
    - intros x Hx. apply Hsub. now right.
    - intros f F1 F2. apply (Hd f F1). cbn [flat_map]. apply in_or_app. now right. }
  apply NoDup_app_parts in Hf as (_ & Hf2 & Hf3). apply NoDup_app_parts in Hf2 as (_ & _ & Hf4).
  rewrite (Hnone l1), (Hnone l2), app_nil_r; cbn [app].
  - rewrite filter_all; [reflexivity|]. intros c Hc. destruct (Hin q c (in_elt q l1 l2) Hc) as (k & _ & -> & Hk).
    now apply existsb_eqb.
  - intros x Hx. apply in_or_app. right. now right.
  - intros f F1 F2. exact (Hf4 f F1 F2).
  - intros x Hx. apply in_or_app. now left.
  - intros f F1 F2. apply (Hf3 f F2). apply in_or_app. now left.
Qed.

Lemma filter_both {A} (f : A -> bool) l : Permutation (filter f l ++ filter (fun x => negb (f x)) l) l.
Proof.
  induction l as [|x l IH]; [reflexivity|]. cbn [filter]. destruct (f x); cbn [negb app]; [now constructor|].
  rewrite <- Permutation_middle. now constructor.
Qed.

(** Inserts are in one part each. *)
Lemma parts_partition ps : NoDup (flat_map fst ps) -> forall X,
  (forall c, In c X -> exists k, parse_key (fst c) = Some k /\ k_flag k <> FLAG_DELETE_ROW /\ In (k_family k) (flat_map fst ps)) ->
  Permutation (flat_map (fun q : part => filter (cell_in (fst q)) X) ps) X.
Proof.
  induction ps as [|q ps IH]; intros Hn X HX.
  - destruct X as [|c X]; [reflexivity|]. destruct (HX c (or_introl eq_refl)) as (k & _ & _ & []).
  - cbn [flat_map] in *. destruct (NoDup_app_parts _ _ Hn) as (_ & Hn2 & Hd).
    etransitivity; [|apply (filter_both (cell_in (fst q)) X)]. apply Permutation_app_head.
    set (Y := filter (fun x => negb (cell_in (fst q) x)) X).
    assert (HY : forall c, In c Y -> exists k, parse_key (fst c) = Some k /\ k_flag k <> FLAG_DELETE_ROW /\ In (k_family k) (flat_map fst ps)).
    { intros c Hc. apply filter_In in Hc as [Hc Hq]. destruct (HX c Hc) as (k & Hk & Hf & Hin). exists k. repeat split; auto.
      apply in_app_iff in Hin as [Hin|Hin]; [|assumption]. exfalso. unfold cell_in, in_part in Hq. rewrite Hk in Hq.
      apply existsb_eqb in Hin. rewrite Hin, orb_true_r in Hq. discriminate. }
    etransitivity; [|apply (IH Hn2 Y HY)]. rewrite (flat_map_ext_in _ (fun q' => filter (cell_in (fst q')) Y)); [reflexivity|].
    intros q' Hq'. unfold Y. rewrite filter_swap. symmetry. apply filter_all. intros c Hc. apply filter_In in Hc as [Hc Hin].
    destruct (HX c Hc) as (k & Hk & Hf & _). unfold cell_in, in_part in *. rewrite Hk in *. apply Z.eqb_neq in Hf. rewrite Hf in *. cbn [orb] in *.
    apply negb_true_iff. destruct (existsb (Z.eqb (k_family k)) (fst q)) eqn:Ee; [|reflexivity]. apply existsb_eqb in Ee, Hin.
    exfalso. apply (Hd (k_family k) Ee). apply in_flat_map. eauto.
Qed.

Lemma part_copies ps q : parts_ok ps -> In q ps -> same_but_copies (filter (cell_in (fst q)) (once ps)) (snd q).
Proof.
  intros H Hq. split.
  - rewrite filter_swap, (filter_perm _ _ _ (sc_others _ _ (once_copies ps H))). now apply part_others.
  - intros c Hc. split; intros Hin; apply in_map_iff in Hin as (d & Ed & Hd).
    + apply filter_In in Hd as [Hd _]. apply (in_map fst) in Hd. rewrite Ed in Hd.
      apply (sc_rows _ _ (once_copies ps H) c Hc) in Hd. apply in_map_iff in Hd as (d' & Ed' & Hd').
      apply in_flat_map in Hd' as (q' & Hq' & Hd'). rewrite <- Ed'. apply (pt_rows _ H q' q d'); auto. now rewrite (row_delete_fst d' c).
    + assert (Hin : In (fst c) (map fst (once ps))).
      { apply (sc_rows _ _ (once_copies ps H) c Hc). rewrite <- Ed. apply in_map, in_flat_map. eauto. }
      apply in_map_iff in Hin as (d' & Ed' & Hd'). rewrite <- Ed'. apply in_map, filter_In.
      split; [assumption|]. rewrite <- (row_delete_fst d' c) in Hc by assumption.
      unfold row_delete in Hc. unfold cell_in, in_part. destruct (parse_key (fst d')); [now rewrite Hc|discriminate].
Qed.

(** What is selected of a part is what is selected of all and belongs to it. *)
Lemma select_part p ps q L Lq : parts_ok ps -> m_row_limit p = 0 -> In q ps ->
  Permutation L (once ps) -> StronglySorted cell_le L -> Permutation Lq (snd q) -> StronglySorted cell_le Lq ->
  select p [] [] Lq = filter (cell_in (fst q)) (select p [] [] L).
Proof.
  intros H Hr Hq HL Hs HLq Hsq. pose proof (once_good ps H) as Hg.
  assert (Hf : forall c k, In c L -> wf_comps k -> fst c = pack k -> cell_in (fst q) c = in_part (fst q) k).
  { intros c k _ Wk Ek. unfold cell_in. now rewrite Ek, parse_pack. }
  rewrite <- (select_filter p (in_part (fst q)) (cell_in (fst q)) L (in_part_closed _) Hr Hf) with (P := []) (V := []); [|now rewrite HL|constructor..].
  cbn [filter]. symmetry. apply (select_copies p (filter (cell_in (fst q)) (once ps)) (snd q)); auto.
  - now apply part_copies.
  - now apply AccessGroup.Forall_filter.
  - apply Forall_forall. intros c Hc. pose proof (pt_good _ H) as G. rewrite Forall_forall in G. apply G, in_flat_map. eauto.
  - now apply filter_keys, filter_keys, once_keys.
  - now apply filter_perm.
  - now apply AccessGroup.sorted_filter.
Qed.

(** Selecting part by part is selecting the whole. *)
Definition selected (p : scan_params) (q : part) (out : list cell) : Prop :=
  exists L, Permutation L (snd q) /\ StronglySorted cell_le L /\ out = select p [] [] L.

Lemma select_parts p ps L outs : parts_ok ps -> m_row_limit p = 0 ->
  Permutation L (once ps) -> StronglySorted cell_le L -> Forall2 (selected p) ps outs ->
  Permutation (concat outs) (select p [] [] L).
Proof.
  intros H Hr HL Hs Hsel.
  replace (concat outs) with (flat_map (fun q => filter (cell_in (fst q)) (select p [] [] L)) ps).
  - apply parts_partition; [apply H|]. intros c Hc. assert (Gl : Forall MergeScanner.good_cell L) by (rewrite HL; now apply once_good).
    destruct (select_In p L c [] [] Gl Hc) as (Hin & k & Wk & Ek & Dk & _). exists k. rewrite Ek, parse_pack by assumption.
    split; [reflexivity|]. pose proof (insert_no_row_delete k Dk) as Hn. split; [assumption|].
    apply (Permutation_in _ HL) in Hin. assert (Ho : In c (filter (fun c => negb (row_delete c)) (flat_map snd ps))).
    { apply (Permutation_in _ (sc_others _ _ (once_copies ps H))), filter_In. split; [assumption|]. unfold row_delete. rewrite Ek, parse_pack by assumption.
      now rewrite (proj2 (Z.eqb_neq _ _) Hn). }
    apply filter_In in Ho as [Ho _]. apply in_flat_map in Ho as (q & Hq & Hcq). apply in_flat_map. exists q. split; [assumption|].
    apply (pt_family _ H q c k); auto. now rewrite Ek, parse_pack.
  - enough (Hg : forall ps', Forall2 (selected p) ps' outs -> (forall q, In q ps' -> In q ps) ->
      flat_map (fun q => filter (cell_in (fst q)) (select p [] [] L)) ps' = concat outs) by now apply Hg.
    clear Hsel. intros ps' Hsel. induction Hsel as [|q o ps' outs (Lq & H1 & H2 & ->) Hsel IH]; intros Hall; [reflexivity|].
    cbn [flat_map concat]. rewrite IH by (intros; apply Hall; now right). f_equal. symmetry. apply (select_part p ps); auto. apply Hall. now left.
Qed.

(** Reading after every part was replaced by its selection. *)
Lemma reads_parts p q ps outs b out : parts_ok ps -> narrower p q -> (forall f, 0 <= MergeScanner.max_versions (family_info q f)) ->
  (forall c k, In c (flat_map snd ps) -> wf_comps k -> fst c = pack k -> within p k /\ within q k) ->
  Forall2 (selected q) ps outs ->
  reads p b (concat outs) out <-> reads p b (flat_map snd ps) out.
Proof.
  intros H Hn H0 Hw Hsel. destruct (sorted_exists (once ps)) as (L & HL & Hs).
  rewrite (reads_perm _ _ _ _ _ (select_parts q ps L outs H (na_rows _ _ Hn) HL Hs Hsel)).
  rewrite (reads_selected p q b (once ps) L); auto.
  - apply reads_copies; [now apply once_copies|now apply once_good|apply H|now apply filter_keys, once_keys].
  - apply (Permutation_NoDup (Permutation_map fst (Permutation_sym HL))). now apply once_keys.
  - rewrite HL. now apply once_good.
  - intros c k Hc. apply (Permutation_in _ HL) in Hc. apply Hw.
    destruct ps as [|x rest]; [assumption|]. cbn [once flat_map] in *. apply in_app_iff in Hc as [Hc|Hc]; apply in_or_app; [now left|].
    apply filter_In in Hc as [Hc _]. now right.
Qed.

Section Split.

Context {St W Sc E : Type} {OP : CellStoreOps St W Sc E} {CS : CellListScanner Sc} {SP : CellStoreSpec OP}.
Context {Q : PriorityQueue (ScannerState (cached + Sc)) ss_key}.

Abbreviation group := (@AccessGroup.t St).
Abbreviation range := (@Range.t St).
Abbreviation all_cells := AccessGroup.all_cells.
Abbreviation families a := (AccessGroup.m_column_families (AccessGroup.ag a)).

(** ** Loops over the groups *)

Section Loop.

Variable f : nat -> world -> group -> result (world * group).
Variable pre : nat -> group -> Prop.
Variable post : group -> group -> Prop.
Hypothesis step : forall i w a, AccessGroup.wf w a -> pre i a ->
  exists w' a', f i w a = Ok (w', a') /\ AccessGroup.wf w' a' /\
    evolves w (AccessGroup.m_cell_cache a) w' (AccessGroup.m_cell_cache a') /\ post a a'.

Lemma each_group_ok n : forall i w r, healthy w (m_access_group_vector r) -> (i + n = length (m_access_group_vector r))%nat ->
  (forall j a, (i <= j)%nat -> nth_error (m_access_group_vector r) j = Some a -> pre j a) ->
  exists w' done, each_group f n i w r = Ok (w', with_groups (firstn i (m_access_group_vector r) ++ done) r) /\
    healthy w' (firstn i (m_access_group_vector r) ++ done) /\ Forall2 post (skipn i (m_access_group_vector r)) done.
Proof.
  induction n as [|n IH]; intros i w r Hh Hi Hp; cbn [each_group].
  - exists w, []. rewrite app_nil_r, firstn_all2, skipn_all2 by lia. split; [now destruct r|]. split; [assumption|constructor].
  - set (v := m_access_group_vector r) in *. destruct (nth_error v i) as [a|] eqn:Ei; [|apply nth_error_None in Ei; lia].
    cbn [deref]. fold v. rewrite Ei. cbn [bind].
    destruct (step i w a) as (w1 & a1 & -> & W1 & Hev & Hpost); [exact (proj1 (Forall_forall _ _) (h_wf _ _ Hh) a (nth_error_In _ _ Ei))|apply Hp; auto|].
    cbn [bind]. assert (Er : m_access_group_vector (put_group i a1 r) = replace i a1 v) by reflexivity.
    destruct (IH (S i) w1 (put_group i a1 r)) as (w' & done & E' & H' & F').
    + rewrite Er. exact (healthy_replace w v w1 i a a1 Hh Ei W1 Hev).
    + rewrite Er, replace_length. lia.
    + intros j b Hj. rewrite Er, replace_other by lia. apply Hp. lia.
    + rewrite Er in *. assert (Ef : firstn (S i) (replace i a1 v) = firstn i v ++ [a1]).
      { clear -Ei. revert i Ei. induction v as [|x v IH]; intros [|i] Ei; try discriminate; [reflexivity|]. cbn [replace firstn app]. f_equal. now apply IH. }
      assert (Es : skipn (S i) (replace i a1 v) = skipn (S i) v /\ skipn i v = a :: skipn (S i) v).
      { clear -Ei. revert i Ei. induction v as [|x v IH]; intros [|i] Ei; try discriminate; [now inv Ei|]. now apply IH. }
      destruct Es as [Es1 Es2]. rewrite Ef, <- app_assoc in *. rewrite Es1 in F'. exists w', (a1 :: done). split; [exact E'|]. split; [exact H'|].
      rewrite Es2. now constructor.
Qed.

Lemma all_groups_ok w r : healthy w (m_access_group_vector r) ->
  (forall j a, nth_error (m_access_group_vector r) j = Some a -> pre j a) ->
  exists w' v', all_groups f w r = Ok (w', with_groups v' r) /\ healthy w' v' /\ Forall2 post (m_access_group_vector r) v'.
Proof.
  intros Hh Hp. destruct (each_group_ok (length (m_access_group_vector r)) 0 w r Hh) as (w' & v' & E1 & E2 & E3); auto.
  exists w', v'. auto.
Qed.

End Loop.

(** ** Compacting all groups *)

(** A group that is compacted in the split, in circumstances in which nothing
    goes wrong and nothing arrives. *)
Record splittable (g : @Globals St) (ctx : ScanContext) (c : @circumstances E) (a : group) : Prop := {
  sl_compactable : compactable ctx (ci_fuel c) a;
  sl_fine : cst_fine (ci_store c);
  sl_quiet : ci_arrivals c = [];
  sl_plan : snd (AccessGroup.plan (gl g) true a) <> None }.

(** One store with the selection is left. *)
Definition compacted (g : @Globals St) (q : scan_params) (a a' : group) : Prop :=
  AccessGroup.ag a' = AccessGroup.ag a /\ selected q (families a, all_cells a) (all_cells a') /\
  exists st, AccessGroup.m_stores a' = [st] /\ AccessGroup.cached_cells a' = [] /\
    AccessGroup.store_view st = cst_cells st /\ cst_cells st = all_cells a' /\
    exists a1 : group, cst_filename st = AccessGroup.cs_file (gl g) a1 /\ AccessGroup.ag a1 = AccessGroup.ag a.

Lemma compact_all_ok g ts cs w r ctx : healthy w (m_access_group_vector r) ->
  fst (ScanContext_initialize (i64 (logical ts + 1)) None (Some (m_schema (r_info r)))) = Ok ctx ->
  limits_fit ctx -> ok_Timestamp ts ->
  (forall j a, nth_error (m_access_group_vector r) j = Some a -> splittable g ctx (cs j) a) ->
  Forall (fun a => Forall (fun c => old (logical ts) c = true) (all_cells a)) (m_access_group_vector r) ->
  exists w' v', compact_all g ts true cs w r = Ok (w', with_groups v' r) /\ healthy w' v' /\
    Forall2 (compacted g (AccessGroup.params_of ctx false)) (m_access_group_vector r) v'.
Proof.
  intros Hh Hctx Hlim Hts Hsp Hold. apply (all_groups_ok _ (fun j a => splittable g ctx (cs j) a /\ Forall (fun c => old (logical ts) c = true) (all_cells a))).
  - intros i w0 a Wa [[Hc Hf Hq Hp] Ho]. cbn zeta. rewrite Hq. destruct (AccessGroup.plan (gl g) true a) as [a1 [idx|]] eqn:Ep; [|now destruct Hp].
    destruct (major_runs (gl g) (m_schema (r_info r)) (ci_fuel (cs i)) (ci_store (cs i)) (ci_shared (cs i)) (ci_written (cs i)) ts w0 a a1 idx ctx)
      as (w1 & a' & L & Er & W1 & P1 & S1 & _ & _ & Ea & st & Es & Ec & Eag & Ecs & Ev & En); auto.
    exists w1, a'. split; [assumption|]. split; [assumption|]. split; [exact (run_evolves _ _ _ _ _ _ _ _ _ _ _ _ Wa Er)|].
    split; [assumption|]. split; [exists L; auto|]. exists st. repeat (split; [congruence|]). exists a1. split; [assumption|].
    pose proof (plan_reorders (gl g) true a) as (Eag1 & _). now rewrite Ep in Eag1.
  - assumption.
  - intros j a Hj. split; [auto|]. rewrite Forall_forall in Hold. apply Hold. exact (nth_error_In _ _ Hj).
Qed.

(** ** The cells of all groups *)

Lemma groups_parts v : arranged v -> Forall MergeScanner.good_cell (flat_map all_cells v) ->
  Forall (fun a => NoDup (map fst (all_cells a))) v -> NoDup (flat_map (fun a => families a) v) ->
  parts_ok (map (fun a => (families a, all_cells a)) v).
Proof.
  intros [H1 H2 H3] Hg Hk Hf. rewrite Forall_forall in Hk.
  assert (Es : flat_map snd (map (fun a => (families a, all_cells a)) v) = flat_map all_cells v) by (now rewrite flat_map_concat_map, map_map, <- flat_map_concat_map).
  assert (Ef : flat_map fst (map (fun a => (families a, all_cells a)) v) = flat_map (fun a => families a) v) by (now rewrite flat_map_concat_map, map_map, <- flat_map_concat_map).
  split; rewrite ?Es, ?Ef; auto.
  - intros q c k Hq. apply in_map_iff in Hq as (a & <- & Ha). cbn [fst snd]. eauto.
  - intros q q' c Hq Hq'. apply in_map_iff in Hq as (a & <- & Ha). apply in_map_iff in Hq' as (b & <- & Hb). cbn [snd]. eauto.
  - intros q Hq. apply in_map_iff in Hq as (a & <- & Ha). cbn [snd]. auto.
Qed.

Lemma compacted_reads p g q b v v' out : arranged v -> Forall MergeScanner.good_cell (flat_map all_cells v) ->
  Forall (fun a => NoDup (map fst (all_cells a))) v -> NoDup (flat_map (fun a => families a) v) ->
  narrower p q -> (forall f, 0 <= MergeScanner.max_versions (family_info q f)) ->
  (forall c k, In c (flat_map all_cells v) -> wf_comps k -> fst c = pack k -> within p k /\ within q k) ->
  Forall2 (compacted g q) v v' -> reads p b (flat_map all_cells v') out <-> reads p b (flat_map all_cells v) out.
Proof.
  intros Ha Hg Hk Hf Hn H0 Hw Hc.
  assert (Es : flat_map snd (map (fun a => (families a, all_cells a)) v) = flat_map all_cells v) by (now rewrite flat_map_concat_map, map_map, <- flat_map_concat_map).
  rewrite <- Es in *. rewrite flat_map_concat_map. apply (reads_parts p q); auto.
  - rewrite Es in Hg. now apply groups_parts.
  - clear -Hc. induction Hc as [|a a' v v' (_ & Hs & _) Hc IH]; cbn [map]; constructor; assumption.
Qed.

(** ** The halves of a range *)

Definition above (row : list Z) (b : bounds) : bounds :=
  {| start_row := if bytes_leb (start_row b) (row ++ [1]) then row ++ [1] else start_row b; end_row := end_row b; family_mask := family_mask b |}.
Definition below (row : list Z) (b : bounds) : bounds :=
  {| start_row := start_row b; end_row := if bytes_leb (end_row b) (row ++ [1]) then end_row b else row ++ [1]; family_mask := family_mask b |}.

Lemma leb_max x y z : bytes_leb (if bytes_leb x y then y else x) z = bytes_leb x z && bytes_leb y z.
Proof.
  destruct (bytes_leb x y) eqn:Exy.
  - destruct (bytes_leb y z) eqn:Eyz; [|now rewrite andb_false_r]. rewrite andb_true_r. symmetry. apply bytes_leb_le in Exy, Eyz. apply bytes_leb_le.
    destruct Exy as [Exy| ->], Eyz as [Eyz| ->]; auto. left. exact (bytes_lt_trans _ _ _ Exy Eyz).
  - apply bytes_leb_gt in Exy. destruct (bytes_leb x z) eqn:Exz; [|reflexivity]. symmetry. apply bytes_leb_le in Exz. apply bytes_leb_le.
    left. destruct Exz as [Exz| <-]; [exact (bytes_lt_trans _ _ _ Exy Exz)|assumption].
Qed.

Lemma ltb_min x y z : bytes_ltb z (if bytes_leb x y then x else y) = bytes_ltb z x && bytes_ltb z y.
Proof.
  rewrite !ltb_leb. destruct (bytes_leb x y) eqn:Exy.
  - destruct (bytes_leb x z) eqn:E1; cbn [negb andb]; [reflexivity|]. symmetry. apply negb_true_iff, bytes_leb_gt.
    apply bytes_leb_gt in E1. apply bytes_leb_le in Exy as [Exy| <-]; [exact (bytes_lt_trans _ _ _ E1 Exy)|assumption].
  - destruct (bytes_leb y z) eqn:E1; cbn [negb]; [now rewrite andb_false_r|]. rewrite andb_true_r. symmetry. apply negb_true_iff, bytes_leb_gt.
    apply bytes_leb_gt in E1, Exy. exact (bytes_lt_trans _ _ _ E1 Exy).
Qed.

Lemma good_row c : MergeScanner.good_cell c -> clean (row_of c).
Proof. intros (k & (H1 & H2 & Hk) & Ek). destruct c as [key v]. cbn [fst] in Ek. subst key. rewrite AccessGroup.row_of_pack; [now split|]. now split. Qed.

Lemma in_above row b c : MergeScanner.good_cell c -> AccessGroup.in_scan (above row b) c = AccessGroup.behind_row row c && AccessGroup.in_scan b c.
Proof.
  intros Hg. unfold AccessGroup.in_scan, AccessGroup.behind_row, above. cbn [start_row end_row family_mask].
  rewrite leb_max, (next_string row) by now apply good_row.
  destruct (bytes_ltb row (row_of c)); cbn [andb]; rewrite ?andb_true_r, ?andb_false_r; reflexivity.
Qed.

Lemma in_below row b c : MergeScanner.good_cell c -> AccessGroup.in_scan (below row b) c = negb (AccessGroup.behind_row row c) && AccessGroup.in_scan b c.
Proof.
  intros Hg. unfold AccessGroup.in_scan, AccessGroup.behind_row, below. cbn [start_row end_row family_mask].
  rewrite ltb_min, (ltb_leb (row_of c) (row ++ [1])), (next_string row) by now apply good_row.
  destruct (bytes_ltb row (row_of c)); cbn [negb andb]; rewrite ?andb_true_r, ?andb_false_r; reflexivity.
Qed.

Lemma reads_ext p b b' cells cells' out : Permutation (filter (AccessGroup.in_scan b) cells) (filter (AccessGroup.in_scan b') cells') ->
  reads p b cells out <-> reads p b' cells' out.
Proof. intros H. split; intros (l & H1 & H2 & H3); exists l; (split; [|auto]); [now rewrite H1|now rewrite H1]. Qed.

Lemma reads_above p row b cells out : Forall MergeScanner.good_cell cells ->
  reads p b (filter (AccessGroup.behind_row row) cells) out <-> reads p (above row b) cells out.
Proof.
  intros Hg. apply reads_ext, eq_perm. rewrite AccessGroup.filter_filter. apply filter_ext_in. intros c Hc. symmetry.
  apply in_above. rewrite Forall_forall in Hg. auto.
Qed.

Lemma reads_below p row b cells out : Forall MergeScanner.good_cell cells ->
  reads p b (filter (fun c => negb (AccessGroup.behind_row row c)) cells) out <-> reads p (below row b) cells out.
Proof.
  intros Hg. apply reads_ext, eq_perm. rewrite AccessGroup.filter_filter. apply filter_ext_in. intros c Hc. symmetry.
  apply in_below. rewrite Forall_forall in Hg. auto.
Qed.

Lemma le_rows c d : MergeScanner.good_cell c -> MergeScanner.good_cell d -> cell_le c d -> bytes_leb (row_of c) (row_of d) = true.
Proof.
  intros (k & Wk & Ek) (x & Wx & Ex) H. destruct c as [kc vc], d as [kd vd]. cbn [fst] in *. subst kc kd. rewrite !AccessGroup.row_of_pack by assumption.
  unfold cell_le in H. cbn [fst] in H. unfold pack in H. rewrite !write_key_shape in H. destruct Wk as (A1 & A2 & _), Wx as (B1 & B2 & _).
  rewrite bytes_cmp_cstr in H by assumption. unfold bytes_leb. destruct (bytes_cmp (k_row k) (k_row x)); congruence.
Qed.

Lemma sorted_halves row l : StronglySorted cell_le l -> Forall MergeScanner.good_cell l ->
  filter (fun c => negb (AccessGroup.behind_row row c)) l ++ filter (AccessGroup.behind_row row) l = l.
Proof.
  intros Hs Hg. induction Hs as [|c l Hs IH Hc]; [reflexivity|]. cbn [filter]. specialize (IH (Forall_inv_tail Hg)).
  destruct (AccessGroup.behind_row row c) eqn:Eb; cbn [negb]; [|cbn [app]; now rewrite IH].
  assert (Hall : forall d, In d l -> AccessGroup.behind_row row d = true).
  { intros d Hd. rewrite Forall_forall in Hc. pose proof (Forall_inv_tail Hg) as Hg'. rewrite Forall_forall in Hg'.
    pose proof (le_rows c d (Forall_inv Hg) (Hg' d Hd) (Hc d Hd)) as Hle. unfold AccessGroup.behind_row in *.
    apply bytes_ltb_lt in Eb. apply bytes_ltb_lt. apply bytes_leb_le in Hle as [Hle| <-]; [exact (bytes_lt_trans _ _ _ Eb Hle)|assumption]. }
  rewrite filter_none by (intros d Hd; now rewrite Hall). cbn [app]. f_equal. now apply filter_all.
Qed.

Lemma rows_closed (f : list Z -> bool) : closed (fun k => f (k_row k)).
Proof.
  split; intros k x Wk Wx Hd Hk Hf Hs; [now rewrite (same_row_eq k x Hs)|]. destruct (same_cf_eq k x Hs) as [-> _]. assumption.
Qed.

Lemma select_rows p (f : list Z -> bool) l : m_row_limit p = 0 -> Forall MergeScanner.good_cell l ->
  select p [] [] (filter (fun c => f (row_of c)) l) = filter (fun c => f (row_of c)) (select p [] [] l).
Proof.
  intros Hr Hg. refine (select_filter p (fun k => f (k_row k)) _ l (rows_closed f) Hr _ Hg [] [] _ _ _); [|constructor..].
  intros c k _ Wk Ek. destruct c as [key v]. cbn [fst] in Ek. subst key. now rewrite AccessGroup.row_of_pack.
Qed.

(** Without a limit on rows, a read of the whole is that of the lower half and
    that of the upper half behind it. *)
Lemma reads_halves p row b cells out1 out2 : Forall MergeScanner.good_cell cells -> NoDup (map fst cells) -> m_row_limit p = 0 ->
  reads p (below row b) cells out1 -> reads p (above row b) cells out2 -> reads p b cells (out1 ++ out2).
Proof.
  intros Hg Hk Hr R1 R2. destruct (sorted_exists (filter (AccessGroup.in_scan b) cells)) as (l & Hp & Hs). exists l. split; [assumption|]. split; [assumption|].
  assert (Gl : Forall MergeScanner.good_cell l) by (rewrite Hp; now apply AccessGroup.Forall_filter).
  assert (S1 : reads p (below row b) cells (filter (fun c => negb (AccessGroup.behind_row row c)) (select p [] [] l))).
  { apply reads_below; [assumption|]. exists (filter (fun c => negb (AccessGroup.behind_row row c)) l). split; [|split; [now apply AccessGroup.sorted_filter|]].
    - rewrite (filter_perm _ _ _ Hp), filter_swap. reflexivity.
    - symmetry. exact (select_rows p (fun r => negb (bytes_ltb row r)) l Hr Gl). }
  assert (S2 : reads p (above row b) cells (filter (AccessGroup.behind_row row) (select p [] [] l))).
  { apply reads_above; [assumption|]. exists (filter (AccessGroup.behind_row row) l). split; [|split; [now apply AccessGroup.sorted_filter|]].
    - rewrite (filter_perm _ _ _ Hp), filter_swap. reflexivity.
    - symmetry. exact (select_rows p (fun r => bytes_ltb row r) l Hr Gl). }
  rewrite (reads_unique p _ _ _ _ Hk R1 S1), (reads_unique p _ _ _ _ Hk R2 S2). apply sorted_halves; [now apply select_sorted|].
  apply Forall_forall. intros c Hc. rewrite Forall_forall in Gl. apply Gl. exact (proj1 (select_In p l c [] [] ltac:(now apply Forall_forall) Hc)).
Qed.

(** ** Shrinking all groups *)

Definition shrunk (row : list Z) (a a' : group) : Prop :=
  AccessGroup.ag a' = AccessGroup.ag a /\ AccessGroup.m_start_row a' = row /\
  Permutation (all_cells a') (filter (AccessGroup.behind_row row) (all_cells a)).

(** A group after the compaction that can be shrunk. *)
Record shrinkable (row : list Z) (a : group) : Prop := {
  sh_disk : AccessGroup.m_in_memory (AccessGroup.ag a) = false;
  sh_cache : AccessGroup.cached_cells a = [];
  sh_stores : Forall (spans row) (AccessGroup.m_stores a);
  sh_end : wf_bytes (AccessGroup.g_end_row (AccessGroup.ag a)) /\ bytes_lt row (AccessGroup.g_end_row (AccessGroup.ag a));
  sh_rows : Forall (fun c => bytes_leb (row_of c) (AccessGroup.g_end_row (AccessGroup.ag a)) = true) (all_cells a) }.

Lemma shrink_groups_ok row cs w r ctx : healthy w (m_access_group_vector r) ->
  fst (ScanContext_initialize END_OF_TIME None (Some (m_schema (r_info r)))) = Ok ctx -> (forall j, (0 < fst (cs j))%nat) ->
  Forall (shrinkable row) (m_access_group_vector r) ->
  exists w' v', shrink_groups row cs w r = Ok (w', with_groups v' r) /\ healthy w' v' /\ Forall2 (shrunk row) (m_access_group_vector r) v'.
Proof.
  intros Hh Hctx Hcs Hsh. apply (all_groups_ok _ (fun _ a => shrinkable row a)).
  - intros i w0 a Wa [H1 H2 H3 [H4 H5] H6].
    destruct (shrink_ok (m_schema (r_info r)) (fst (cs i)) (snd (cs i)) row w0 a ctx) as (w1 & a1 & -> & W1 & Hev & Eag & Est & Hp); auto; [now rewrite H2|rewrite H2; apply Hcs|].
    exists w1, a1. split; [reflexivity|]. split; [assumption|]. split; [assumption|]. unfold shrunk. auto.
  - assumption.
  - intros j a Hj. rewrite Forall_forall in Hsh. apply Hsh. exact (nth_error_In _ _ Hj).
Qed.

(** ** The row to split at *)

Lemma entry_row_ok e : MergeScanner.good_cell (cell_of e) -> exists row, entry_row e = Ok row.
Proof.
  intros (k & (Wr & _) & Ek). unfold entry_row, cell_of in *. cbn [fst] in Ek. rewrite Ek. unfold pack. rewrite write_key_shape, cstr_app by assumption. eauto.
Qed.

Lemma rows_loop_ok m : Forall MergeScanner.good_cell (map cell_of m) -> forall last rows, exists rows', get_rows_loop m last rows = Ok rows'.
Proof.
  induction m as [|e m IH]; intros Hg last rows; cbn [get_rows_loop]; [eauto|]. cbn [map] in Hg.
  destruct (entry_row_ok e (Forall_inv Hg)) as [row ->]. cbn [bind]. destruct (bytes_eqb row last); apply IH; exact (Forall_inv_tail Hg).
Qed.

Lemma collect_ok f (v : list group) : (forall a rows, In a v -> exists rows', f rows a = Ok rows') -> forall rows, exists rows', collect f v rows = Ok rows'.
Proof.
  induction v as [|a v IH]; intros Hf rows; cbn [collect]; [eauto|]. destruct (Hf a rows (or_introl eq_refl)) as [rows' ->]. cbn [bind].
  apply IH. intros b rows2 Hb. apply Hf. now right.
Qed.

Lemma group_rows_ok w (a : group) : AccessGroup.wf w a ->
  (forall b rows, exists rows', AccessGroup.get_split_rows b rows a = Ok rows') /\ (forall rows, exists rows', AccessGroup.get_cached_rows rows a = Ok rows').
Proof.
  intros [_ Hc _ _]. apply AccessGroup.ok_good in Hc. unfold AccessGroup.cached_cells in Hc. split.
  - intros b rows. unfold AccessGroup.get_split_rows. destruct b; [|eauto]. unfold get_split_rows, CellCache.size.
    destruct (Z.ltb_spec 2 (zlen (m_cell_map (AccessGroup.m_cell_cache a)))) as [Hlt|]; [|eauto].
    destruct (nth_error _ _) as [x|] eqn:Ex.
    + rewrite Forall_forall in Hc. destruct (entry_row_ok x) as [row ->]; [apply Hc, in_map; exact (nth_error_In _ _ Ex)|]. cbn [bind]. eauto.
    + exfalso. apply nth_error_None in Ex. unfold zlen in Hlt. set (n := length _) in *. pose proof (Nat.div_lt n 2). lia.
  - intros rows. now apply rows_loop_ok.
Qed.

Definition row_of_range (row : list Z) (r : range) : Prop := bytes_leb (m_start_row r) row = true /\ bytes_ltb row (m_end_row (r_info r)) = true.

Lemma outside_false row (r r' : range) : m_start_row r' = m_start_row r -> r_info r' = r_info r -> outside row r' = false -> row_of_range row r.
Proof.
  unfold outside, row_of_range. intros -> -> H. apply orb_false_iff in H as [H1 H2]. rewrite ltb_leb in H1. apply negb_false_iff in H1. split; [assumption|].
  now rewrite ltb_leb, H2.
Qed.

(** Choosing the row to split at always ends, in one of two ways: with a row
    that lies in the range, from its start row up to but not including its end
    row, and nothing else changed; or with an error that is kept, so that every
    later update of the range is refused with it. *)
Theorem split_row_bounds w r : healthy w (m_access_group_vector r) ->
  exists code r', choose_split_row r = Ok (code, r') /\
    ((code = OK_ /\ exists row, r' = with_split_row row r /\ row_of_range row r) \/
     (code = RANGESERVER_ROW_OVERFLOW /\ m_access_group_vector r' = m_access_group_vector r /\
      forall c ts w', add c ts w' r' = Ok (RANGESERVER_ROW_OVERFLOW, w', r'))).
Proof.
  intros [Hw _]. rewrite Forall_forall in Hw. unfold choose_split_row. set (v := m_access_group_vector r) in *.
  destruct (collect_ok (AccessGroup.get_split_rows false) v) with (rows := @nil (list Z)) as [rows ->]; [intros; now apply (group_rows_ok w), Hw|]. cbn [bind].
  assert (H2 : exists rows2, (if zlen rows <? zlen v then collect (AccessGroup.get_split_rows true) v rows else Ok rows) = Ok rows2).
  { destruct (_ <? _); [|eauto]. apply collect_ok. intros. now apply (group_rows_ok w), Hw. }
  destruct H2 as [rows2 ->]. cbn [bind].
  assert (Hover : forall r0, m_access_group_vector r0 = v -> exists code r', Ok (row_overflow r0) = Ok (code, r') /\
    ((code = OK_ /\ exists row, r' = with_split_row row r /\ row_of_range row r) \/
     (code = RANGESERVER_ROW_OVERFLOW /\ m_access_group_vector r' = v /\ forall c ts w', add c ts w' r' = Ok (RANGESERVER_ROW_OVERFLOW, w', r')))).
  { intros r0 E0. eexists _, _. split; [reflexivity|]. right. split; [reflexivity|]. split; [exact E0|]. intros c ts w'. reflexivity. }
  destruct rows2 as [|row rows2]; [now apply Hover|]. set (mid := middle (row :: rows2)).
  destruct (outside mid (with_split_row mid r)) eqn:Eo.
  - destruct (collect_ok AccessGroup.get_cached_rows v) with (rows := @nil (list Z)) as [cached ->]; [intros; now apply (group_rows_ok w), Hw|]. cbn [bind].
    destruct cached as [|row' cached]; [now apply Hover|]. set (mid' := middle (row' :: cached)).
    destruct (outside mid' _) eqn:Eo'; [now apply Hover|]. eexists _, _. split; [reflexivity|]. left. split; [reflexivity|]. exists mid'.
    split; [reflexivity|]. exact (outside_false mid' r _ eq_refl eq_refl Eo').
  - eexists _, _. split; [reflexivity|]. left. split; [reflexivity|]. exists mid. split; [reflexivity|]. exact (outside_false mid r _ eq_refl eq_refl Eo).
Qed.

End Split.
