(* ===== verification/RangeHalves.v ===== *)
(** * A split is transparent

    [Range::split] of Range.v from the state in which the split log is installed:
    the groups are compacted, METADATA gets the new range, the groups are shrunk,
    and the master is told.  The new range that another server makes from METADATA
    and the shrunk range together show clients what the range showed before. *)
From S2P Require Import Prelude Errors Serialization ByteString Key Deletes CellCache Scanner MergeScanner Selection.
From S2P Require Import Schema Wire ScanContext BlockCodec CellStore CellStoreScanner AccessGroup Compaction MasterGc FileUse Shrink.
From S2P Require Import Range RangeScan RangeLoad RangeSplit.
From Stdlib Require Import ZArith Lia List Bool Sorted Permutation.
Import ListNotations.
Open Scope Z_scope.
Open Scope result_scope.
Open Scope list_scope.

Import CellStoreScanner(row_of, scan_wants, scan_ok, clean_row, shown).
Import Range.

Section Halves.

Context {St W Sc E : Type} {OP : CellStoreOps St W Sc E} {CS : CellListScanner Sc} {SP : CellStoreSpec OP}.
Context {Q : PriorityQueue (ScannerState (cached + Sc)) ss_key}.

Abbreviation group := (@AccessGroup.t St).
Abbreviation range := (@Range.t St).
Abbreviation all_cells := AccessGroup.all_cells.
Abbreviation cells_of r := (flat_map all_cells (m_access_group_vector r)).
Abbreviation name_of a := (AccessGroup.g_name (AccessGroup.ag a)).
Abbreviation families a := (AccessGroup.m_column_families (AccessGroup.ag a)).

(** ** Names of stores *)

Lemma digit_last fuel n : exists d x, dec_digits (S fuel) n = x ++ [48 + d] /\ 0 <= d < 10.
Proof. eexists _, _. split; [reflexivity|]. apply Z.mod_pos_bound. lia. Qed.

Lemma cs_file_plain g (a : group) : group_named g a -> plain (AccessGroup.cs_file g a).
Proof.
  intros H. pose proof (cs_file_named g a H) as ((H1 & H2 & H3) & H4 & _). split; [assumption| |split; [reflexivity|discriminate]|].
  - unfold no_nul in H1. rewrite Forall_forall in *. auto.
  - assert (Hl : exists x d, AccessGroup.cs_file g a = x ++ [48 + d] /\ 0 <= d < 10).
    { unfold AccessGroup.cs_file. assert (Hd : exists x d, decimal (i32 (AccessGroup.m_next_table_id (AccessGroup.nums a))) = x ++ [48 + d] /\ 0 <= d < 10).
      { unfold decimal. destruct (_ <? 0).
        - destruct (digit_last 9 (- i32 (AccessGroup.m_next_table_id (AccessGroup.nums a)))) as (d & x & -> & Hd). exists (45 :: x), d. auto.
        - destruct (digit_last 9 (i32 (AccessGroup.m_next_table_id (AccessGroup.nums a)))) as (d & x & -> & Hd). exists x, d. auto. }
      destruct Hd as (x & d & -> & Hd). eexists _, d. split; [|assumption]. rewrite !app_assoc. reflexivity. }
    destruct Hl as (x & d & -> & Hd). rewrite last_last. unfold space. rewrite (proj2 (Z.eqb_neq _ _)), (proj2 (Z.leb_gt (48 + d) 13)) by lia.
    apply andb_false_r.
Qed.

(** ** Behind the split point *)

Lemma behind_key row c : MergeScanner.good_cell c -> clean row -> AccessGroup.behind_row row c = true -> bytes_lt (row_bound row) (fst c).
Proof.
  intros (k & Wk & Ek) [R1 R2] H. destruct c as [key v]. cbn [fst] in *. subst key. unfold AccessGroup.behind_row in H. rewrite AccessGroup.row_of_pack in H by assumption.
  apply bytes_ltb_lt in H. unfold bytes_lt, row_bound, pack. rewrite write_key_shape. destruct Wk as (A1 & A2 & _). rewrite bytes_cmp_cstr by assumption. now rewrite H.
Qed.

Lemma last_greatest (l : list cell) c : StronglySorted cell_le l -> In c l -> cell_le c (last l ([], [])).
Proof.
  induction 1 as [|d l Hl IH Hd]; intros Hc; [destruct Hc|]. destruct l as [|e l].
  - destruct Hc as [<-|[]]. unfold cell_le. cbn. now rewrite bytes_cmp_refl.
  - change (last (d :: e :: l) ([], [])) with (last (e :: l) ([], [])). destruct Hc as [<-|Hc]; [|now apply IH].
    rewrite Forall_forall in Hd. apply Hd. clear. destruct (exists_last (l := e :: l)) as (l' & x & ->); [discriminate|]. rewrite last_last. apply in_or_app. right. now left.
Qed.

Lemma behind_chunk row (l : list cell) c : StronglySorted cell_le l -> Forall MergeScanner.good_cell l -> clean row -> In c l ->
  AccessGroup.behind_row row c = true -> bytes_lt (row_bound row) (chunk_key l).
Proof.
  intros Hs Hg Hr Hc Hb. rewrite Forall_forall in Hg. pose proof (behind_key row c (Hg c Hc) Hr Hb) as H1.
  pose proof (last_greatest l c Hs Hc) as H2. unfold chunk_key. unfold cell_le in H2.
  destruct (bytes_cmp (fst c) (fst (last l ([], [])))) eqn:Ec; [apply bytes_cmp_eq in Ec; now rewrite <- Ec|exact (bytes_lt_trans _ _ _ H1 Ec)|congruence].
Qed.

Lemma spans_lower row row' (st : St) : bytes_lt row' row -> clean row -> clean row' -> spans row st -> spans row' st.
Proof.
  intros Hlt [R1 R2] [R3 R4] [S1 S2 S3 S4]. split; auto. apply (bytes_lt_trans _ (row_bound row)); [|assumption].
  unfold bytes_lt, row_bound. change [0] with (0 :: @nil Z). rewrite bytes_cmp_cstr by assumption. now rewrite Hlt.
Qed.

(** ** What the theorem asks of the range *)

Record split_ready (g : @Globals St) (ts : Timestamp) (point : list Z) (cs : nat -> @circumstances E) (ctx ctx2 : ScanContext)
    (gs : list (Schema.AccessGroup * list Z)) (w : world) (r : range) : Prop := {
  sr_ready : ready w r;
  sr_schema : schema_ok (m_schema (r_info r)) gs;
  sr_disk : Forall (fun x => Schema.ag_in_memory (fst x) = false) gs;
  sr_names : Forall2 (fun x a => name_of a = chars (Schema.ag_name (fst x))) gs (m_access_group_vector r);
  sr_plain : Forall (fun a => group_named (gl g) a) (m_access_group_vector r);
  sr_families : NoDup (flat_map (fun a => families a) (m_access_group_vector r));
  sr_context : fst (ScanContext_initialize (i64 (logical ts + 1)) None (Some (m_schema (r_info r)))) = Ok ctx;
  sr_context2 : fst (ScanContext_initialize END_OF_TIME None (Some (m_schema (r_info r)))) = Ok ctx2;
  sr_limits : limits_fit ctx;
  sr_ts : ok_Timestamp ts /\ 0 <= logical ts < 2 ^ 63 - 1;
  sr_groups j a : nth_error (m_access_group_vector r) j = Some a -> splittable g ctx (cs j) a;
  sr_times c k : In c (cells_of r) -> wf_comps k -> fst c = pack k -> 0 <= k_ts k <= logical ts;
  sr_rows : Forall (fun c => rows_between (m_start_row r) (m_end_row (r_info r)) c = true) (cells_of r);
  sr_end : Forall (fun a => AccessGroup.g_end_row (AccessGroup.ag a) = m_end_row (r_info r)) (m_access_group_vector r);
  sr_clean : clean (m_start_row r) /\ clean point /\ wf_bytes (m_end_row (r_info r));
  sr_point : bytes_lt (m_start_row r) point /\ bytes_lt point (m_end_row (r_info r));
  sr_behind a out : In a (m_access_group_vector r) -> selected (AccessGroup.params_of ctx false) (families a, all_cells a) out ->
    exists c, In c out /\ AccessGroup.behind_row point c = true }.

Section Ready.

Context {g : @Globals St} {ts : Timestamp} {point : list Z} {cs : nat -> @circumstances E} {ctx ctx2 : ScanContext}
  {gs : list (Schema.AccessGroup * list Z)} {w : world} {r : range}.
Hypothesis H : split_ready g ts point cs ctx ctx2 gs w r.

Abbreviation q := (AccessGroup.params_of ctx false).

Lemma ready_good : Forall MergeScanner.good_cell (cells_of r).
Proof.
  apply Forall_forall. intros c Hc. apply in_flat_map in Hc as (a & Ha & Hc). apply In_nth_error in Ha as [j Hj].
  destruct (sr_groups _ _ _ _ _ _ _ _ _ H j a Hj) as [Hco _ _ _]. pose proof (rd_healthy _ _ (sr_ready _ _ _ _ _ _ _ _ _ H)) as Hh.
  destruct (proj1 (Forall_forall _ _) (h_wf _ _ Hh) a (nth_error_In _ _ Hj)) as [_ W2 _ W4].
  assert (Hok : Forall AccessGroup.cell_ok (all_cells a)).
  { unfold AccessGroup.all_cells. rewrite (co_disk _ _ _ Hco). apply Forall_app. split; [assumption|now apply AccessGroup.view_ok]. }
  apply AccessGroup.ok_good in Hok. rewrite Forall_forall in Hok. auto.
Qed.

Lemma ready_keys : Forall (fun a => NoDup (map fst (all_cells a))) (m_access_group_vector r).
Proof.
  apply Forall_forall. intros a Ha. apply In_nth_error in Ha as [j Hj]. exact (co_keys _ _ _ (sl_compactable _ _ _ _ (sr_groups _ _ _ _ _ _ _ _ _ H j a Hj))).
Qed.

Lemma ready_old : Forall (fun a => Forall (fun c => old (logical ts) c = true) (all_cells a)) (m_access_group_vector r).
Proof.
  apply Forall_forall. intros a Ha. apply Forall_forall. intros c Hc. assert (Hin : In c (cells_of r)) by (apply in_flat_map; eauto).
  pose proof ready_good as Hg. rewrite Forall_forall in Hg. destruct (MergeScanner.good_cell_parse c (Hg c Hin)) as (k & Wk & Ek & Hk).
  unfold old. rewrite Hk. apply Z.leb_le. now apply (sr_times _ _ _ _ _ _ _ _ _ H c k).
Qed.

(** Cells of a compacted group were cells of the group. *)
Lemma selected_In a out c : In a (m_access_group_vector r) -> selected q (families a, all_cells a) out -> In c out -> In c (all_cells a).
Proof.
  intros Ha (L & HL & _ & ->) Hc. assert (Gl : Forall MergeScanner.good_cell L).
  { rewrite HL. apply Forall_forall. intros d Hd. pose proof ready_good as Hg. rewrite Forall_forall in Hg. apply Hg, in_flat_map. eauto. }
  apply (Permutation_in _ HL). exact (proj1 (select_In q L c [] [] Gl Hc)).
Qed.

Lemma selected_sorted a out : In a (m_access_group_vector r) -> selected q (families a, all_cells a) out -> StronglySorted cell_le out.
Proof.
  intros Ha (L & HL & Hs & ->). apply select_sorted; [|assumption].
  rewrite HL. apply Forall_forall. intros d Hd. pose proof ready_good as Hg. rewrite Forall_forall in Hg. apply Hg, in_flat_map. eauto.
Qed.

Lemma compacted_shrinkable w' a a' : In a (m_access_group_vector r) -> AccessGroup.wf w' a' -> compacted g q a a' -> shrinkable point a'.
Proof.
  intros Ha Wa' (Eag & Hsel & st & Es & Ec & Ev & Ecs & _). pose proof Ha as Hj. apply In_nth_error in Hj as [j Hj].
  destruct (sr_groups _ _ _ _ _ _ _ _ _ H j a Hj) as [Hco _ _ _]. pose proof (proj1 (Forall_forall _ _) (sr_end _ _ _ _ _ _ _ _ _ H) a Ha) as Hend.
  destruct (sr_clean _ _ _ _ _ _ _ _ _ H) as (_ & Cp & We). destruct (sr_point _ _ _ _ _ _ _ _ _ H) as [_ Hlt].
  assert (Hin : forall c, In c (all_cells a') -> In c (cells_of r)).
  { intros c Hc. apply in_flat_map. exists a. split; [assumption|]. exact (selected_In a _ c Ha Hsel Hc). }
  destruct Wa' as [_ _ V1 V2]. rewrite Es in V1, V2. split; rewrite ?Eag, ?Hend; auto.
  - apply Hco.
  - rewrite Es. constructor; [|constructor]. split; [exact (Forall_inv V1)|exact (Forall_inv V2)|assumption|]. rewrite Ecs.
    destruct (sr_behind _ _ _ _ _ _ _ _ _ H a _ Ha Hsel) as (c & Hc & Hb).
    apply (behind_chunk point _ c); auto; [exact (selected_sorted a _ Ha Hsel)|]. apply Forall_forall. intros d Hd.
    pose proof ready_good as Hg. rewrite Forall_forall in Hg. auto.
  - apply Forall_forall. intros c Hc. pose proof (sr_rows _ _ _ _ _ _ _ _ _ H) as Hr. rewrite Forall_forall in Hr. specialize (Hr c (Hin c Hc)).
    unfold rows_between in Hr. now apply andb_true_iff in Hr as [_ Hr].
Qed.

Lemma ready_reads v' p b out : Forall2 (compacted g q) (m_access_group_vector r) v' -> narrower p q ->
  (forall c k, In c (cells_of r) -> wf_comps k -> fst c = pack k -> within p k) ->
  reads p b (flat_map all_cells v') out <-> reads p b (cells_of r) out.
Proof.
  intros Hc Hn Hw. apply (compacted_reads p g q); auto.
  - apply (rd_arranged _ _ (sr_ready _ _ _ _ _ _ _ _ _ H)).
  - exact ready_good.
  - exact ready_keys.
  - apply H.
  - intros f. apply (sr_limits _ _ _ _ _ _ _ _ _ H f).
  - intros c k Hin Wk Ek. split; [eauto|]. destruct (sr_ts _ _ _ _ _ _ _ _ _ H) as [_ Hts].
    apply (context_within ts (m_schema (r_info r)) ctx); [apply H|assumption|]. now apply (sr_times _ _ _ _ _ _ _ _ _ H c k).
Qed.

Lemma compacted_good v' : Forall2 (compacted g q) (m_access_group_vector r) v' ->
  forall c, In c (flat_map all_cells v') -> In c (cells_of r) /\ MergeScanner.good_cell c.
Proof.
  intros Hc c Hin. assert (Hin' : In c (cells_of r)).
  { apply in_flat_map in Hin as (a' & Ha' & Hin). apply In_nth_error in Ha' as [j Hj'].
    destruct (nth_error (m_access_group_vector r) j) as [a|] eqn:Hj; [|apply nth_error_None in Hj; rewrite (Forall2_length Hc) in Hj; apply nth_error_None in Hj; congruence].
    destruct (Forall2_at _ _ _ j a a' Hc Hj Hj') as (_ & Hsel & _). apply in_flat_map. exists a. split; [exact (nth_error_In _ _ Hj)|].
    exact (selected_In a _ c (nth_error_In _ _ Hj) Hsel Hin). }
  split; [assumption|]. pose proof ready_good as Hg. rewrite Forall_forall in Hg. auto.
Qed.

(** The keys that are left occur once. *)
Lemma compacted_keys v' : Forall2 (compacted g q) (m_access_group_vector r) v' -> narrower q q -> NoDup (map fst (flat_map all_cells v')).
Proof.
  intros Hc Hn. set (ps := map (fun a => (families a, all_cells a)) (m_access_group_vector r)).
  assert (Hps : parts_ok ps).
  { apply groups_parts; [apply (rd_arranged _ _ (sr_ready _ _ _ _ _ _ _ _ _ H))|exact ready_good|exact ready_keys|apply H]. }
  destruct (sorted_exists (once ps)) as (L & HL & Hs).
  assert (Hp : Permutation (concat (map all_cells v')) (select q [] [] L)).
  { apply (select_parts q ps L); auto; [apply Hn|]. unfold ps. clear -Hc. induction Hc as [|a a' v v' (_ & Hsel & _) Hc IH]; cbn [map]; constructor; assumption. }
  rewrite flat_map_concat_map. apply (Permutation_NoDup (Permutation_map fst (Permutation_sym Hp))).
  assert (Gl : Forall MergeScanner.good_cell L) by (rewrite HL; now apply once_good).
  apply select_keys; [assumption|]. apply sorted_strict; [assumption|]. apply (Permutation_NoDup (Permutation_map fst (Permutation_sym HL))). now apply once_keys.
Qed.

Lemma shrunk_cells v' v'' : Forall2 (shrunk point) v' v'' ->
  Permutation (flat_map all_cells v'') (filter (AccessGroup.behind_row point) (flat_map all_cells v')).
Proof.
  induction 1 as [|a a' v v' (_ & _ & Hp) Hs IH]; [reflexivity|]. cbn [flat_map]. rewrite filter_app. now apply Permutation_app.
Qed.

(** ** The new range *)

Definition stores_in (v : list group) (n : list Z) : list St :=
  match find (fun a => bytes_eqb (name_of a) n) v with Some a => AccessGroup.m_stores a | None => [] end.

Lemma stores_in_found (v : list group) a : NoDup (map (fun a => name_of a) v) -> In a v -> stores_in v (name_of a) = AccessGroup.m_stores a.
Proof.
  intros Hn Ha. unfold stores_in. destruct (find _ v) as [b|] eqn:Ef.
  - apply find_some in Ef as [Hb Eb]. apply bytes_eqb_eq in Eb. enough (b = a) as -> by reflexivity.
    clear -Hn Ha Hb Eb. induction v as [|x v IH]; [destruct Ha|]. cbn [map] in Hn. inversion Hn as [|? ? N1 N2]; subst.
    destruct Ha as [->|Ha], Hb as [->|Hb]; auto; exfalso; apply N1.
    + rewrite <- Eb. apply (in_map (fun a => name_of a) v b Hb).
    + rewrite Eb. apply (in_map (fun a => name_of a) v a Ha).
  - exfalso. apply (find_none _ _ Ef) in Ha. now apply bytes_eqb_neq in Ha.
Qed.

Lemma stores_columns (v : list group) : NoDup (map (fun a => name_of a) v) ->
  map (fun a => (name_of a, AccessGroup.get_files a)) v = map (column_of (stores_in v)) (map (fun a => name_of a) v).
Proof.
  intros Hn. rewrite map_map. apply map_ext_in. intros a Ha. unfold column_of. f_equal. rewrite stores_in_found by assumption.
  unfold AccessGroup.get_files, files_column. now rewrite map_map.
Qed.

Lemma names_in v' : Forall2 (compacted g q) (m_access_group_vector r) v' ->
  map (fun a => name_of a) v' = map (fun x => chars (Schema.ag_name (fst x))) gs /\ NoDup (map (fun a => name_of a) v').
Proof.
  intros Hc. assert (E1 : map (fun a => name_of a) v' = map (fun x => chars (Schema.ag_name (fst x))) gs).
  { pose proof (sr_names _ _ _ _ _ _ _ _ _ H) as Hn. revert Hn Hc. generalize (m_access_group_vector r) as v. clear. intros v Hn.
    revert v'. induction Hn as [|x a gs v Ex Hn IH]; intros v' Hc; [now inversion Hc|].
    apply Forall2_cons_iff_l in Hc as (a' & v2 & -> & (Eag & _) & Hc). cbn [map]. rewrite (IH v2 Hc), Eag. now rewrite Ex. }
  split; [assumption|]. rewrite E1. apply (so_names _ _ (sr_schema _ _ _ _ _ _ _ _ _ H)).
Qed.

Lemma compacted_opens v' w' g2 : Forall2 (compacted g q) (m_access_group_vector r) v' -> healthy w' v' ->
  (forall a st, In a v' -> In st (AccessGroup.m_stores a) -> disk g2 (cst_filename st) = Some st) ->
  forall n, In n (map (fun a => name_of a) v') -> Forall (opens g2 (m_start_row r)) (stores_in v' n).
Proof.
  intros Hc Hh Hd n Hn. apply in_map_iff in Hn as (a' & <- & Ha'). destruct (names_in v' Hc) as [_ Nd]. rewrite stores_in_found by assumption.
  apply Forall_forall. intros st Hst. apply In_nth_error in Ha' as [j Hj'].
  destruct (nth_error (m_access_group_vector r) j) as [a|] eqn:Hj; [|apply nth_error_None in Hj; rewrite (Forall2_length Hc) in Hj; apply nth_error_None in Hj; congruence].
  pose proof (Forall2_at _ _ _ j a a' Hc Hj Hj') as Hcomp. pose proof (nth_error_In _ _ Hj) as Ha. pose proof (nth_error_In _ _ Hj') as Ha'.
  pose proof (proj1 (Forall_forall _ _) (h_wf _ _ Hh) a' Ha') as Wa'. split; [exact (Hd a' st Ha' Hst)| |].
  - destruct (compacted_shrinkable w' a a' Ha Wa' Hcomp) as [_ _ Hsp _ _]. rewrite Forall_forall in Hsp.
    destruct (sr_clean _ _ _ _ _ _ _ _ _ H) as (Cs & Cp & _). destruct (sr_point _ _ _ _ _ _ _ _ _ H) as [Hlt _].
    exact (spans_lower point (m_start_row r) st Hlt Cp Cs (Hsp st Hst)).
  - destruct Hcomp as (Eag & _ & st' & Es & _ & _ & _ & a1 & En & Ea1). rewrite Es in Hst. destruct Hst as [<-|[]]. rewrite En.
    apply cs_file_plain. pose proof (proj1 (Forall_forall _ _) (sr_plain _ _ _ _ _ _ _ _ _ H) a Ha) as Hnm. unfold group_named in *. now rewrite Ea1.
Qed.

Lemma new_cells v' v2 : Forall2 (compacted g q) (m_access_group_vector r) v' ->
  Forall2 (shown_by (m_start_row r) point (stores_in v') (map (fun a => name_of a) v')) gs v2 ->
  flat_map all_cells v2 = filter (fun c => negb (AccessGroup.behind_row point c)) (flat_map all_cells v').
Proof.
  intros Hc Hs. destruct (names_in v' Hc) as [En Nd]. pose proof (compacted_good v' Hc) as Hg.
  assert (Hrow : forall c, In c (flat_map all_cells v') -> rows_between (m_start_row r) point c = negb (AccessGroup.behind_row point c)).
  { intros c Hin. pose proof (sr_rows _ _ _ _ _ _ _ _ _ H) as Hr. rewrite Forall_forall in Hr. specialize (Hr c (proj1 (Hg c Hin))).
    unfold rows_between, AccessGroup.behind_row in *. apply andb_true_iff in Hr as [-> _]. rewrite ltb_leb. now rewrite negb_involutive. }
  rewrite <- (filter_ext_in _ _ _ Hrow). rewrite AccessGroup.filter_flat_map, !flat_map_concat_map. f_equal.
  assert (Hst : forall a', In a' v' -> flat_map AccessGroup.store_view (stores_in v' (name_of a')) = all_cells a').
  { intros a' Ha'. rewrite stores_in_found by assumption. apply In_nth_error in Ha' as [j Hj'].
    destruct (nth_error (m_access_group_vector r) j) as [a|] eqn:Hj; [|apply nth_error_None in Hj; rewrite (Forall2_length Hc) in Hj; apply nth_error_None in Hj; congruence].
    destruct (Forall2_at _ _ _ j a a' Hc Hj Hj') as (_ & _ & st & Es & _ & Ev & Ecs & _). rewrite Es. cbn [flat_map]. rewrite app_nil_r. congruence. }
  enough (Hf : Forall2 (fun a2 a' => all_cells a2 = filter (rows_between (m_start_row r) point) (all_cells a')) v2 v').
  { clear -Hf. induction Hf as [|a2 a' v2 v' Ea Hf IH]; [reflexivity|]. cbn [map]. now rewrite Ea, IH. }
  pose proof (Forall2_length Hs) as L1. pose proof (f_equal (@length _) En) as L2. rewrite !length_map in L2.
  apply Forall2_nth_error; [congruence|]. intros j a2 a' Hj2 Hj'. pose proof (map_nth_error (fun a => name_of a) j v' Hj') as Hn. rewrite En in Hn.
  rewrite nth_error_map in Hn. destruct (nth_error gs j) as [x|] eqn:Hx; [|discriminate]. cbn [option_map] in Hn. injection Hn as Hn.
  destruct (Forall2_at _ _ _ j x a2 Hs Hx Hj2) as (_ & _ & Ea). cbn zeta in Ea. rewrite Hn in Ea.
  replace (existsb _ _) with true in Ea.
  - rewrite Ea. now rewrite Hst by exact (nth_error_In _ _ Hj').
  - symmetry. apply existsb_exists. exists (name_of a'). split; [apply (in_map (fun a => name_of a)), (nth_error_In _ _ Hj')|now apply bytes_eqb_eq].
Qed.

End Ready.

(** ** The theorem *)

(** What the calls of a split write into the [Files] column of a row of METADATA. *)
Definition files_cells (key : list Z) (l : list call) : list (list Z * list Z) :=
  flat_map (fun c => match c with Files k n t => if bytes_eqb k key then [(n, t)] else [] | _ => [] end) l.

Lemma files_cells_groups key (v : list group) :
  files_cells key (map (fun a => Files key (name_of a) (AccessGroup.get_files a)) v) = map (fun a => (name_of a, AccessGroup.get_files a)) v.
Proof.
  induction v as [|a v IH]; [reflexivity|]. unfold files_cells in *. cbn [map flat_map]. rewrite IH. now rewrite (proj2 (bytes_eqb_eq key key) eq_refl).
Qed.

(** An environment in which the split goes through. *)
Record split_passes (e : @split_env E) : Prop := {
  ps_metadata : se_metadata e = true;
  ps_shrink j : (0 < fst (se_shrink e j))%nat;
  ps_shrunk : (se_log_shrunk e <= 3)%nat;
  ps_master : se_master e = OK_;
  ps_done : (se_log_done e <= 2)%nat }.

Abbreviation point_of r := (st_split_point (m_state (r_status r))).
Abbreviation time_of r := (st_timestamp (m_state (r_status r))).

(** The compaction and the shrinking, with the groups in between. *)
Lemma compact_and_shrink g e ctx ctx2 gs w r : split_ready g (time_of r) (point_of r) (se_groups e) ctx ctx2 gs w r ->
  split_passes e -> m_split_log (r_status r) <> None ->
  exists w' v' v'' s l, split_compact_and_shrink g e w r = Ok (w', with_status s (with_start_row (point_of r) (with_groups v'' r)),
      [StartRow (metadata_key (m_identifier (r_info r)) (m_end_row (r_info r))) (point_of r);
       StartRow (metadata_key (m_identifier (r_info r)) (point_of r)) (m_start_row r)] ++
      map (fun a => Files (metadata_key (m_identifier (r_info r)) (point_of r)) (name_of a) (AccessGroup.get_files a)) v' ++ [l]) /\
    Forall2 (compacted g (AccessGroup.params_of ctx false)) (m_access_group_vector r) v' /\ (exists w1, healthy w1 v') /\
    Forall2 (shrunk (point_of r)) v' v'' /\ healthy w' v'' /\ (forall key, files_cells key [l] = []) /\
    m_maintenance_in_progress s = m_maintenance_in_progress (r_status r) /\
    m_state s = {| st_state := SPLIT_SHRUNK; st_timestamp := {| logical := 0; real := 0 |}; st_soft_limit := st_soft_limit (m_state (r_status r));
                   st_transfer_log := st_transfer_log (m_state (r_status r)); st_split_point := []; st_old_start_row := m_start_row r |}.
Proof.
  intros H [P1 P2 P3 _ _] Hlog. unfold split_compact_and_shrink.
  destruct (compact_all_ok g (time_of r) (se_groups e) w r ctx) as (w1 & v' & -> & Hh1 & Hc); try apply H.
  { exact (ready_old H). }
  cbn [bind]. rewrite P1. cbn [negb].
  match goal with |- context [shrink_groups _ _ w1 ?x] => set (r1 := x) end.
  destruct (shrink_groups_ok (point_of r) (se_shrink e) w1 r1 ctx2) as (w2 & v'' & E2 & Hh2 & Hs); auto; [apply H| |].
  { cbn. apply Forall_forall. intros a' Ha'. apply In_nth_error in Ha' as [j Hj'].
    destruct (nth_error (m_access_group_vector r) j) as [a|] eqn:Hj; [|apply nth_error_None in Hj; rewrite (Forall2_length Hc) in Hj; apply nth_error_None in Hj; congruence].
    apply (compacted_shrinkable H w1 a a' (nth_error_In _ _ Hj)); [|exact (Forall2_at _ _ _ j a a' Hc Hj Hj')].
    exact (proj1 (Forall_forall _ _) (h_wf _ _ Hh1) a' (nth_error_In _ _ Hj')). }
  rewrite E2. cbn [bind]. cbn [r1 with_groups with_status with_start_row r_status set_split m_split_log].
  destruct (m_split_log (r_status r)) as [log|]; [|now destruct Hlog]. unfold attempts. rewrite (proj2 (Nat.leb_le _ _) P3). cbn [bind].
  eexists w2, v', v'', _, _. split; [reflexivity|]. split; [exact Hc|]. split; [now exists w1|]. split; [exact Hs|]. split; [exact Hh2|].
  split; [reflexivity|]. split; reflexivity.
Qed.

Lemma halves_read g ts point cs ctx ctx2 gs w (r : range) v' v'' v2 p b : split_ready g ts point cs ctx ctx2 gs w r ->
  Forall2 (compacted g (AccessGroup.params_of ctx false)) (m_access_group_vector r) v' -> Forall2 (shrunk point) v' v'' ->
  Forall2 (shown_by (m_start_row r) point (stores_in v') (map (fun a => name_of a) v')) gs v2 ->
  narrower p (AccessGroup.params_of ctx false) -> (forall c k, In c (cells_of r) -> wf_comps k -> fst c = pack k -> within p k) ->
  (forall out, reads p b (flat_map all_cells v2) out <-> reads p (below point b) (cells_of r) out) /\
  (forall out, reads p b (flat_map all_cells v'') out <-> reads p (above point b) (cells_of r) out) /\
  (m_row_limit p = 0 -> forall out1 out2, reads p b (flat_map all_cells v2) out1 -> reads p b (flat_map all_cells v'') out2 ->
     reads p b (cells_of r) (out1 ++ out2)).
Proof.
  intros H Hc Hs Hn Hp Hw. assert (Hg : Forall MergeScanner.good_cell (flat_map all_cells v')) by (apply Forall_forall; intros c Hin; apply (compacted_good H v' Hc c Hin)).
  assert (R2 : forall out, reads p b (flat_map all_cells v2) out <-> reads p (below point b) (flat_map all_cells v') out).
  { intros out. rewrite (new_cells H v' v2 Hc Hn). now apply reads_below. }
  assert (R1 : forall out, reads p b (flat_map all_cells v'') out <-> reads p (above point b) (flat_map all_cells v') out).
  { intros out. rewrite (reads_perm p b _ _ out (shrunk_cells v' v'' Hs)). now apply reads_above. }
  split; [|split].
  - intros out. rewrite R2. now apply (ready_reads H).
  - intros out. rewrite R1. now apply (ready_reads H).
  - intros H0 out1 out2 O1 O2. apply (ready_reads H v'); auto. apply (reads_halves p point); auto; [|now apply R2|now apply R1].
    apply (compacted_keys H v' Hc). split; [apply Hp|]. intros f. destruct (na_versions _ _ Hp f); [left|right]; lia.
Qed.


End Halves.
