(* ===== verification/RangeSamples.v ===== *)
(** * Concrete ranges

    Instances of the theorems on ranges: a range of the rows from [a] to [z] with
    one access group over [CellStoreV0], two cells in its cache, and a split at
    [s] under way. *)
From S2P Require Import Prelude Errors Serialization ByteString Key Deletes CellCache Scanner MergeScanner Selection.
From S2P Require Import Schema Wire ScanContext BlockCodec BufferedReader CellStore BlockCache CellStoreScanner AccessGroup.
From S2P Require Import Compaction MasterGc FileUse StoreV0 GroupSamples Shrink Range RangeScan RangeLoad RangeSplit RangeHalves.
From Stdlib Require Import ZArith Lia List Bool Sorted SpecFloat Sorting.Permutation String.
Import ListNotations.
Open Scope Z_scope.
Open Scope result_scope.
Open Scope list_scope.
Import Range.

#[local] Instance range_ops : CellStoreOps StoreV0.Store StoreV0.Writing StoreV0.Scan StoreV0.Calls :=
  StoreV0.store_ops codec_repeat (fun _ => CellStoreScanner.cold_cache) [].
#[local] Instance range_scanner : CellListScanner StoreV0.Scan :=
  StoreV0.store_scanner codec_repeat (fun _ => CellStoreScanner.cold_cache) [] lossless_repeat sample_coherent.
#[local] Instance range_store_spec : CellStoreSpec range_ops :=
  StoreV0.store_spec codec_repeat (fun _ => CellStoreScanner.cold_cache) [] lossless_repeat sample_coherent.

(** Two cells, in rows on both sides of the split. *)
Definition low : KeyComps := {| k_row := [114]; k_family := 2; k_qual := [113]; k_flag := FLAG_INSERT; k_ts := 70 |}.
Definition high : KeyComps := {| k_row := [116]; k_family := 1; k_qual := [113]; k_flag := FLAG_INSERT; k_ts := 75 |}.
Definition low_cell : cell := (pack low, [118]).
Definition high_cell : cell := (pack high, [119]).
Definition entry_for (b : nat) (c : cell) : entry := {| e_block := b; e_key := fst c; e_value := snd c; e_off := u32 (byte_len (fst c)) |}.
Definition two_cells : CellCache :=
  {| m_cell_map := [entry_for 0 low_cell; entry_for 1 high_cell]; CellCache.m_memory_used := 36; CellCache.m_deletes := 0; CellCache.m_collisions := 0; CellCache.m_children := [] |}.
Definition two_world : world := {| w_next := 2; w_live := [0; 1]%nat; w_tracker := MemoryTracker.add_memory 36 MemoryTracker.make |}.

Definition range_group : AccessGroup.group :=
  {| AccessGroup.g_table_name := [116]; AccessGroup.g_name := chars "default"; AccessGroup.g_end_row := [122];
     AccessGroup.m_column_families := [1; 2]; AccessGroup.m_blocksize := 65536; AccessGroup.m_in_memory := false |}.
Definition two_group : @AccessGroup.t StoreV0.Store :=
  let a := AccessGroup.make range_group [97] in AccessGroup.with_nums (AccessGroup.set_needs true (AccessGroup.nums a)) (AccessGroup.with_cache two_cells a).

Definition table_identifier : TableIdentifier := {| ti_name := [116]; ti_id := 7; ti_generation := 1 |}.
Definition split_state : RangeState :=
  {| st_state := SPLIT_LOG_INSTALLED; st_timestamp := sample_time; st_soft_limit := 1000; st_transfer_log := [47; 108];
     st_split_point := [115]; st_old_start_row := [] |}.
Definition sample_range : @Range.t StoreV0.Store :=
  {| r_info := {| m_identifier := table_identifier; m_schema := sample_table; m_is_root := false; m_end_row := [122];
                  m_column_family_vector := [None; Some 0%nat; Some 0%nat] |};
     m_start_row := [97]; m_access_group_map := [(chars "default", Some 0%nat)]; m_access_group_vector := [two_group];
     r_status := {| m_maintenance_in_progress := true; m_timestamp := sample_time; m_last_logical_timestamp := 75;
                    m_split_row := [115]; m_split_log := Some [47; 108]; m_added_inserts := 2; m_added_deletes := [0; 0; 0];
                    m_state := split_state; m_error := OK_ |} |}.

Lemma low_wf : wf_comps low.
Proof. solve_wf_comps. Qed.
Lemma high_wf : wf_comps high.
Proof. solve_wf_comps. Qed.

Lemma two_cached : AccessGroup.cached_cells two_group = [low_cell; high_cell].
Proof. reflexivity. Qed.

Lemma two_all : AccessGroup.all_cells two_group = [low_cell; high_cell].
Proof. reflexivity. Qed.

Lemma two_ok : Forall AccessGroup.cell_ok [low_cell; high_cell].
Proof.
  repeat constructor; try (eexists; split; [|reflexivity]; solve_wf_comps); try reflexivity; try discriminate; vm_compute; intuition discriminate.
Qed.

Lemma two_wf : AccessGroup.wf two_world two_group.
Proof.
  split; [|rewrite two_cached; exact two_ok|constructor|constructor]. split.
  - repeat constructor.
  - repeat constructor; vm_compute; intuition discriminate.
  - repeat constructor; vm_compute; intuition discriminate.
  - intros b Hb. exact Hb.
  - repeat constructor.
Qed.

Lemma two_healthy : healthy two_world (m_access_group_vector sample_range).
Proof. split; [constructor; [exact two_wf|constructor]|]. intros [|[|i]] [|[|j]] a b Hij Ha Hb; try discriminate; congruence. Qed.

Lemma in_two c : In c [low_cell; high_cell] -> c = low_cell \/ c = high_cell.
Proof. intros [<-|[<-|[]]]; auto. Qed.

Lemma two_keys c k : In c [low_cell; high_cell] -> wf_comps k -> fst c = pack k -> k = low \/ k = high.
Proof.
  intros Hc Wk Ek. apply (f_equal parse_key) in Ek. rewrite (parse_pack k Wk) in Ek.
  apply in_two in Hc as [-> | ->]; cbn [low_cell high_cell fst] in Ek; rewrite parse_pack in Ek by (exact low_wf || exact high_wf); injection Ek as <-; auto.
Qed.

Lemma two_arranged : arranged (m_access_group_vector sample_range).
Proof.
  split.
  - intros a c k [<-|[]] Hc Hk _. apply in_two in Hc as [-> | ->]; vm_compute in Hk; injection Hk as <-; vm_compute; auto.
  - intros a b c [<-|[]] [<-|[]] Hc _. now apply in_map.
  - vm_compute. repeat constructor; cbn; intuition discriminate.
Qed.

Lemma two_ready : ready two_world sample_range.
Proof.
  split.
  - apply Permutation_refl.
  - intros [|[|[|code]]] i H; cbn in H; try discriminate; [injection H as <-..|destruct code; discriminate]; (exists two_group; split; [reflexivity|cbn; auto]).
  - exact two_healthy.
  - exact two_arranged.
  - reflexivity.
  - reflexivity.
Qed.

(** ** Scanning *)

(** The queue of the range's scanner; witness of [range_scan_correct]: rows from
    [r] to [s], column family [b]. *)
#[local] Instance range_queue : PriorityQueue (ScannerState (@MergeScanner (cached + StoreV0.Scan) (list_queue ss_key))) ss_key := list_queue ss_key.

Lemma sample_params : wf_params (AccessGroup.params_of sample_context false).
Proof.
  split; [reflexivity|vm_compute; intuition discriminate|]. intros f.
  replace (MergeScanner.max_versions (family_info (AccessGroup.params_of sample_context false) f)) with
    (MergeScanner.max_versions (if f =? 2 then {| cutoff_time := 0; MergeScanner.max_versions := 2 |}
      else {| cutoff_time := 0; MergeScanner.max_versions := 0 |})) by reflexivity.
  destruct (f =? 2); split; easy.
Qed.

Lemma sample_bounds : AccessGroup.bounds_ok (sc_bounds sample_context).
Proof. split; [split; repeat constructor; vm_compute; intuition discriminate..|reflexivity]. Qed.


(** ** Updates *)

(** Witness of [range_add_correct]: a record that deletes the row [r]. *)
Definition row_gone : KeyComps := {| k_row := [114]; k_family := 0; k_qual := []; k_flag := FLAG_DELETE_ROW; k_ts := 78 |}.


(** Witness of [split_row_bounds]: the store-less group has too few cells for a
    row of its own, so the range cannot be split. *)
Lemma split_row_bounds_witness :
  exists code r', choose_split_row sample_range = Ok (code, r') /\ code = RANGESERVER_ROW_OVERFLOW /\
    forall c ts w', add c ts w' r' = Ok (RANGESERVER_ROW_OVERFLOW, w', r').
Proof.
  destruct (split_row_bounds two_world sample_range two_healthy) as (code & r' & E & [[Hc _]|[Hc [_ H]]]).
  - subst code. vm_compute in E. discriminate.
  - exists code, r'. auto.
Defined.

(** ** Making and splitting *)

Definition sample_parts : list (Schema.AccessGroup * list Z) :=
  match resolve sample_table (Schema.m_access_groups sample_table) with Some gs => gs | None => [] end.

Lemma sample_schema_ok : schema_ok sample_table sample_parts.
Proof.
  split; [reflexivity| | | |reflexivity]; vm_compute; repeat constructor; cbn; intuition discriminate.
Qed.

Lemma sample_part : exists x, sample_parts = [x].
Proof. eexists. vm_compute. reflexivity. Qed.

Definition range_globals (d : list Z -> option StoreV0.Store) : @Range.Globals StoreV0.Store :=
  {| gl := sample_globals; range_max_bytes := 4000; log_dir := [47; 108]; disk := d |}.


Definition whole_context : ScanContext :=
  match fst (ScanContext_initialize END_OF_TIME None (Some sample_table)) with Ok c => c | _ => compaction_context end.
Definition split_circumstances : @circumstances StoreV0.Calls :=
  {| ci_fuel := 9; ci_store := sample_calls; ci_arrivals := []; ci_shared := false; ci_written := true |}.
Definition split_environment : @split_env StoreV0.Calls :=
  {| se_dirs := true; se_log_start := 0; se_groups := fun _ => split_circumstances; se_metadata := true; se_shrink := fun _ => (9%nat, false);
     se_log_shrunk := 1; se_master := OK_; se_log_done := 0 |}.

Lemma two_splittable : splittable (range_globals (fun _ => None)) compaction_context split_circumstances two_group.
Proof.
  split; [|exact sample_fine|reflexivity|vm_compute; discriminate]. split; rewrite ?two_all.
  - reflexivity.
  - repeat constructor; cbn; intuition discriminate.
  - reflexivity.
  - repeat constructor.
  - constructor.
  - cbn. lia.
  - split; [discriminate|reflexivity].
Qed.

Lemma two_selected out : selected (AccessGroup.params_of compaction_context false) ([1; 2], [low_cell; high_cell]) out -> out = [low_cell; high_cell].
Proof.
  intros (L & HL & Hs & ->). replace L with [low_cell; high_cell]; [reflexivity|]. symmetry. apply sorted_unique; auto.
  - repeat constructor; vm_compute; discriminate.
  - apply (Permutation_NoDup (Permutation_map fst (Permutation_sym HL))). repeat constructor; cbn; intuition discriminate.
Qed.

Lemma sample_split_ready :
  split_ready (range_globals (fun _ => None)) sample_time [115] (fun _ => split_circumstances) compaction_context whole_context sample_parts two_world sample_range.
Proof.
  split.
  - exact two_ready.
  - exact sample_schema_ok.
  - vm_compute. repeat constructor.
  - vm_compute. repeat constructor.
  - constructor; [|constructor]. repeat split; vm_compute; repeat constructor; discriminate.
  - vm_compute. repeat constructor; cbn; intuition discriminate.
  - exact compaction_context_ok.
  - reflexivity.
  - exact sample_limits.
  - split; [repeat split; vm_compute; intuition discriminate|split; [discriminate|reflexivity]].
  - intros [|[|j]] a H; try discriminate. injection H as <-. exact two_splittable.
  - intros c k Hc Wk Ek. destruct (two_keys c k Hc Wk Ek) as [-> | ->]; split; discriminate.
  - repeat constructor.
  - repeat constructor.
  - repeat split; repeat constructor; vm_compute; intuition discriminate.
  - split; reflexivity.
  - intros a out [<-|[]] H. rewrite two_all in H. apply two_selected in H as ->. exists high_cell. split; [right; now left|reflexivity].
Qed.

Lemma reads_low : reads (AccessGroup.params_of compaction_context false) (below [115] (sc_bounds whole_context)) [low_cell; high_cell] [low_cell].
Proof. exists [low_cell]. split; [apply eq_perm; reflexivity|]. split; [repeat constructor|reflexivity]. Qed.

Lemma reads_unique_low out :
  reads (AccessGroup.params_of compaction_context false) (below [115] (sc_bounds whole_context)) [low_cell; high_cell] out -> out = [low_cell].
Proof.
  intros R. refine (reads_unique _ _ [low_cell; high_cell] _ _ _ R reads_low). repeat constructor; cbn; intuition discriminate.
Qed.

