(* ===== verification/BdbFs.v ===== *)
(** * The namespace of Hyperspace

    [Hyperspace/BerkeleyDbFilesystem.cc]: files, directories and their attributes as
    keys of one Berkeley DB tree.  A directory is a key that ends in a slash, a file
    one that does not; an attribute of either has a colon and its name behind the
    key.  The data base is the class [Btree]: its contents in the order in which
    cursors give them.  Keys are written with their terminating NUL, which does not
    change the order of strings without NUL; here they have none.  Transactions are
    values: what is aborted is forgotten.  [DbException]s are left out. *)
From S2P Require Import Prelude Errors Serialization ByteString.
From Stdlib Require Import ZArith Lia List Bool Sorted Permutation.
Import ListNotations.
Open Scope Z_scope.
Open Scope result_scope.

Definition key_before (a b : list Z * list Z) : Prop := bytes_lt (fst a) (fst b).

(** What is used of Berkeley DB. *)
Class Btree (D : Type) := {
  bt_list : D -> list (list Z * list Z);
  bt_get : list Z -> D -> option (list Z);
  bt_put : list Z -> list Z -> D -> D;
  bt_del : list Z -> D -> option D;
  bt_range : list Z -> D -> list (list Z * list Z);
  bt_sorted d : StronglySorted key_before (bt_list d);
  bt_get_spec k v d : bt_get k d = Some v <-> In (k, v) (bt_list d);
  bt_put_spec k v d x : In x (bt_list (bt_put k v d)) <-> x = (k, v) \/ (fst x <> k /\ In x (bt_list d));
  bt_del_none k d : bt_del k d = None <-> bt_get k d = None;
  bt_del_spec k d d' x : bt_del k d = Some d' -> In x (bt_list d') <-> fst x <> k /\ In x (bt_list d);
  bt_range_spec k d : bt_range k d = filter (fun e => bytes_leb k (fst e)) (bt_list d) }.

Definition slash : Z := 47.
Definition colon : Z := 58.

Module BerkeleyDbFilesystem.

(** ** Strings *)

Fixpoint starts_with (s p : list Z) {struct p} : bool :=
  match p, s with
  | [], _ => true
  | b :: p, c :: s => (b =? c) && starts_with s p
  | _ :: _, [] => false
  end.
Definition ends_with_slash (s : list Z) : bool := last s 0 =? slash.

(** [s.substr(0, s.rfind('/', s.length()-1)+1)] *)
Fixpoint dir_part (s : list Z) : list Z :=
  match s with
  | [] => []
  | b :: s' => match dir_part s' with [] => if b =? slash then [b] else [] | d => b :: d end
  end.

(** [s.substr(0, s.find(c))], when there is one. *)
Fixpoint up_to (c : Z) (s : list Z) : option (list Z) :=
  match s with
  | [] => None
  | b :: s' => if b =? c then Some [] else option_map (cons b) (up_to c s')
  end.

Record DirEntry := { de_name : list Z; is_dir : bool }.

Section Code.

Context {D : Type} {BT : Btree D}.

Definition found (k : list Z) (d : D) : bool := match bt_get k d with Some _ => true | None => false end.

(** The constructor: a new data base gets three keys. *)
Definition hyperspace_dir : list Z := [47; 104; 121; 112; 101; 114; 115; 112; 97; 99; 101; 47].
Definition metadata_file : list Z := hyperspace_dir ++ [109; 101; 116; 97; 100; 97; 116; 97].
Definition initialize (d : D) : D :=
  if found [slash] d then d
  else bt_put metadata_file [] (bt_put hyperspace_dir [] (bt_put [slash] [] d)).

(** [exists]: whether there is a file or a directory, and whether it is the latter. *)
Definition exists_ (fname : list Z) (d : D) : bool * bool :=
  if found fname d then (true, false) else if found (fname ++ [slash]) d then (true, true) else (false, false).

(** ** Attributes *)

Definition build_attr_key (keystr aname : list Z) (d : D) : result (list Z) :=
  match exists_ keystr d with
  | (false, _) => Throw HYPERSPACE_FILE_NOT_FOUND
  | (true, isdir) => Ok (keystr ++ (if isdir then [slash] else []) ++ colon :: aname)
  end.

Definition get_xattr (fname aname : list Z) (d : D) : result (option (list Z)) :=
  key <- build_attr_key fname aname d ;; Ok (bt_get key d).
Definition set_xattr (fname aname value : list Z) (d : D) : result D :=
  key <- build_attr_key fname aname d ;; Ok (bt_put key value d).
Definition del_xattr (fname aname : list Z) (d : D) : result D :=
  key <- build_attr_key fname aname d ;;
  match bt_del key d with None => Throw HYPERSPACE_ATTR_NOT_FOUND | Some d => Ok d end.

Definition get_xattr_i32 (fname aname : list Z) (d : D) : result (option Z) :=
  v <- get_xattr fname aname d ;;
  match v with
  | None => Ok None
  | Some v => '(n, _) <- decode_i32 {| ip := v; remain := zlen v |} ;; Ok (Some n)
  end.
Definition set_xattr_i32 (fname aname : list Z) (value : Z) (d : D) : result D := set_xattr fname aname (encode_i32 value) d.
Definition get_xattr_i64 (fname aname : list Z) (d : D) : result (option Z) :=
  v <- get_xattr fname aname d ;;
  match v with
  | None => Ok None
  | Some v => '(n, _) <- decode_i64 {| ip := v; remain := zlen v |} ;; Ok (Some n)
  end.
Definition set_xattr_i64 (fname aname : list Z) (value : Z) (d : D) : result D := set_xattr fname aname (encode_i64 value) d.

(** ** Files and directories *)

Definition mkdir (name : list Z) (d : D) : result D :=
  if negb (found (dir_part name) d) then Throw HYPERSPACE_FILE_NOT_FOUND
  else
    let dirname := if ends_with_slash name then name else name ++ [slash] in
    if found dirname d then Throw HYPERSPACE_FILE_EXISTS else Ok (bt_put dirname [] d).

(** The new keys get the value of the parent directory, which is empty. *)
Definition temp_suffix : list Z := [58; 116; 101; 109; 112].
Definition create (fname : list Z) (temp : bool) (d : D) : result D :=
  if fst (exists_ fname d) then Throw HYPERSPACE_FILE_EXISTS
  else if ends_with_slash fname then Throw HYPERSPACE_IS_DIRECTORY
  else
    match bt_get (dir_part fname) d with
    | None => Throw HYPERSPACE_BAD_PATHNAME
    | Some data =>
        let d := bt_put fname data d in
        Ok (if temp then bt_put (fname ++ temp_suffix) data d else d)
    end.

(** The loop of [unlink] over the cursor: the first key is looked at whatever it
    is, the others as long as they start with the name. *)
Record unlink_state := { delkeys : list (list Z); looks_like_dir : bool; looks_like_file : bool }.

Definition unlink_key (name str : list Z) (s : unlink_state) : result unlink_state :=
  let n := length name in
  if Nat.ltb n (length str) then
    let c := nth n str 0 in
    if c =? slash then
      if Nat.ltb (n + 1) (length str) && negb (nth (n + 1) str 0 =? colon) then Throw HYPERSPACE_DIR_NOT_EMPTY
      else Ok {| delkeys := delkeys s ++ [str]; looks_like_dir := true; looks_like_file := looks_like_file s |}
    else if c =? colon then Ok {| delkeys := delkeys s ++ [str]; looks_like_dir := looks_like_dir s; looks_like_file := true |}
    else Ok s
  else Ok {| delkeys := delkeys s ++ [str]; looks_like_dir := looks_like_dir s; looks_like_file := true |}.

Fixpoint unlink_scan (name : list Z) (l : list (list Z * list Z)) (s : unlink_state) : result unlink_state :=
  match l with
  | [] => Ok s
  | (str, _) :: l =>
      s <- unlink_key name str s ;;
      match l with
      | (next, _) :: _ => if starts_with next name then unlink_scan name l s else Ok s
      | [] => Ok s
      end
  end.

Fixpoint del_keys (l : list (list Z)) (d : D) : result D :=
  match l with
  | [] => Ok d
  | k :: l => match bt_del k d with None => Throw FAILED_EXPECTATION | Some d => del_keys l d end
  end.

Definition unlink (name : list Z) (d : D) : result D :=
  s <- unlink_scan name (bt_range name d) {| delkeys := []; looks_like_dir := false; looks_like_file := false |} ;;
  if looks_like_dir s && looks_like_file s then Throw FAILED_EXPECTATION
  else if match delkeys s with [] => true | _ => false end then Throw HYPERSPACE_FILE_NOT_FOUND
  else del_keys (delkeys s) d.

(** ** Listing *)

Definition list_key (fname str : list Z) (last_str : list Z) : option DirEntry :=
  if Nat.ltb (length fname) (length str) && negb (nth (length fname) str 0 =? colon) then
    let rest := skipn (length fname) str in
    let e := match up_to slash rest with
             | Some n => {| de_name := n; is_dir := true |}
             | None => {| de_name := match up_to colon rest with Some n => n | None => rest end; is_dir := false |}
             end in
    if bytes_eqb (de_name e) last_str then None else Some e
  else None.

Fixpoint list_scan (fname : list Z) (l : list (list Z * list Z)) (last_str : list Z) : list DirEntry :=
  match l with
  | [] => []
  | (str, _) :: l =>
      let o := list_key fname str last_str in
      let rest last := match l with
                       | (next, _) :: _ => if starts_with next fname then list_scan fname l last else []
                       | [] => []
                       end in
      match o with
      | Some e => e :: rest (de_name e)
      | None => rest last_str
      end
  end.

Definition get_directory_listing (fname : list Z) (d : D) : result (list DirEntry) :=
  let fname := if ends_with_slash fname then fname else fname ++ [slash] in
  match bt_range fname d with
  | [] => Ok []
  | (str, v) :: l => if negb (starts_with str fname) then Throw HYPERSPACE_BAD_PATHNAME else Ok (list_scan fname ((str, v) :: l) [])
  end.

Definition get_all_names (d : D) : list (list Z) := map fst (bt_list d).

End Code.
End BerkeleyDbFilesystem.

(** ** What the operations do *)

Import BerkeleyDbFilesystem.

(** A component of a path. *)
Definition plain_name (n : list Z) : Prop := n <> [] /\ Forall (fun b => b <> slash /\ b <> colon) n.
Definition no_colon (k : list Z) : Prop := Forall (fun b => b <> colon) k.
Definition is_directory (k : list Z) : Prop := no_colon k /\ last k 0 = slash.

(** The keys of [name]: its own, as a file or as a directory, and those of its
    attributes. *)
Definition file_key (name k : list Z) : Prop := k = name \/ exists a, k = name ++ colon :: a.
Definition dir_key (name k : list Z) : Prop := k = name ++ [slash] \/ exists a, k = name ++ slash :: colon :: a.
Definition child_key (name k : list Z) : Prop := exists c a, c <> colon /\ k = name ++ slash :: c :: a.

Lemma starts_with_iff p : forall s, starts_with s p = true <-> exists r, s = p ++ r.
Proof.
  induction p as [|b p IH]; intros s; simpl.
  - split; eauto.
  - destruct s as [|c s].
    + split; [discriminate|]. intros [r H]; discriminate H.
    + rewrite andb_true_iff, Z.eqb_eq, IH. split.
      * intros [-> [r ->]]. eauto.
      * intros [r H]. injection H as -> ->. eauto.
Qed.

Lemma below_extension p : forall k r, bytes_leb p k = true -> bytes_leb k (p ++ r) = true -> starts_with k p = true.
Proof.
  induction p as [|b p IH]; intros k r H1 H2; [reflexivity|].
  destruct k as [|c k]; [discriminate|]. unfold bytes_leb in H1, H2. simpl in *.
  destruct (Z.compare_spec b c) as [->|Hl|Hl].
  - rewrite Z.compare_refl in H2. rewrite Z.eqb_refl. apply (IH k r); assumption.
  - destruct (Z.compare_spec c b); try lia; discriminate.
  - discriminate.
Qed.

Lemma option_ext {A} (a b : option A) : (forall x, a = Some x <-> b = Some x) -> a = b.
Proof.
  intros H. destruct a as [x|], b as [y|]; try reflexivity.
  - symmetry. apply H. reflexivity.
  - discriminate (proj1 (H x) eq_refl).
  - discriminate (proj2 (H y) eq_refl).
Qed.

Section Facts.

Context {D : Type} {BT : Btree D}.
Implicit Types d : D.

Definition keys d : list (list Z) := map fst (bt_list d).

Lemma key_before_trans a b c : key_before a b -> key_before b c -> key_before a c.
Proof. unfold key_before. apply bytes_lt_trans. Qed.

Lemma sorted_same (l : list (list Z * list Z)) : forall m, StronglySorted key_before l -> StronglySorted key_before m ->
  (forall x, In x l <-> In x m) -> l = m.
Proof.
  induction l as [|a l IH]; intros m Hl Hm He.
  - destruct m as [|b m]; [reflexivity|]. destruct (proj2 (He b) (or_introl eq_refl)).
  - destruct m as [|b m]; [destruct (proj1 (He a) (or_introl eq_refl))|].
    apply StronglySorted_inv in Hl as [Hl Ha]. apply StronglySorted_inv in Hm as [Hm Hb].
    rewrite Forall_forall in Ha, Hb.
    assert (a = b) as ->.
    { destruct (proj1 (He a) (or_introl eq_refl)) as [|H1]; [congruence|].
      destruct (proj2 (He b) (or_introl eq_refl)) as [|H2]; [congruence|].
      destruct (bytes_lt_irrefl (fst a)). apply (bytes_lt_trans _ (fst b)); [apply Ha|apply Hb]; assumption. }
    f_equal. apply IH; try assumption. intros x.
    assert (Hn : forall k, (forall y, In y k -> key_before b y) -> In x k -> x <> b).
    { intros k Hk Hx ->. destruct (bytes_lt_irrefl (fst b)). apply (Hk b Hx). }
    split; intros Hx.
    + destruct (proj1 (He x) (or_intror Hx)) as [->|]; [|assumption]. destruct (Hn l Ha Hx eq_refl).
    + destruct (proj2 (He x) (or_intror Hx)) as [->|]; [|assumption]. destruct (Hn m Hb Hx eq_refl).
Qed.

Lemma found_iff k d : found k d = true <-> In k (keys d).
Proof.
  unfold found, keys. rewrite in_map_iff. destruct (bt_get k d) as [v|] eqn:E.
  - apply bt_get_spec in E. split; [|reflexivity]. intros _. exists (k, v). auto.
  - split; [discriminate|]. intros [[k' v] [Hk Hx]]. simpl in Hk. subst k'. apply bt_get_spec in Hx. congruence.
Qed.

Lemma keys_put k v d x : In x (keys (bt_put k v d)) <-> x = k \/ In x (keys d).
Proof.
  unfold keys. rewrite !in_map_iff. split.
  - intros [y [<- Hy]]. apply bt_put_spec in Hy as [->|[_ Hy]]; [auto|]. right. eauto.
  - intros [->|[y [<- Hy]]].
    + exists (k, v). split; [reflexivity|]. apply bt_put_spec. auto.
    + destruct (bytes_eqb (fst y) k) eqn:E.
      * apply bytes_eqb_eq in E. exists (k, v). split; [symmetry; exact E|]. apply bt_put_spec. auto.
      * apply bytes_eqb_neq in E. exists y. split; [reflexivity|]. apply bt_put_spec. auto.
Qed.

Lemma get_put_same k v d : bt_get k (bt_put k v d) = Some v.
Proof. apply bt_get_spec, bt_put_spec. auto. Qed.

Lemma get_put_other k k' v d : k <> k' -> bt_get k' (bt_put k v d) = bt_get k' d.
Proof.
  intros Hn. apply option_ext. intros w. rewrite !bt_get_spec, bt_put_spec. simpl. split.
  - intros [H|[_ H]]; [congruence|assumption].
  - intros H. right. split; [congruence|assumption].
Qed.

(** Deleting some keys. *)
Definition without (p : list Z -> bool) d' d : Prop := bt_list d' = filter (fun e => negb (p (fst e))) (bt_list d).

Definition one_of (l : list (list Z)) (k : list Z) : bool := existsb (bytes_eqb k) l.

Lemma filter_sorted (p : list Z * list Z -> bool) l : StronglySorted key_before l -> StronglySorted key_before (filter p l).
Proof.
  induction 1 as [|a l Hs IH Ha]; simpl; [constructor|].
  destruct (p a); [|exact IH]. constructor; [exact IH|].
  rewrite Forall_forall in *. intros x Hx. apply filter_In in Hx. apply Ha, Hx.
Qed.

Lemma del_keys_ok l : forall d, NoDup l -> (forall k, In k l -> In k (keys d)) ->
  exists d', del_keys l d = Ok d' /\ without (one_of l) d' d.
Proof.
  induction l as [|k l IH]; intros d Hd Hin; simpl.
  - exists d. split; [reflexivity|]. unfold without. simpl. symmetry. apply forallb_filter_id, forallb_forall. reflexivity.
  - inversion Hd as [|? ? Hk Hd']; subst.
    destruct (bt_del k d) as [d1|] eqn:E.
    2:{ apply bt_del_none in E. pose proof (Hin k (or_introl eq_refl)) as H. apply found_iff in H. unfold found in H. rewrite E in H. discriminate. }
    assert (Hs : forall x, In x (bt_list d1) <-> fst x <> k /\ In x (bt_list d)) by (intros x; apply bt_del_spec; exact E).
    destruct (IH d1 Hd') as [d' [He Hw]].
    { intros x Hx. pose proof (Hin x (or_intror Hx)) as H. unfold keys in *. rewrite in_map_iff in *.
      destruct H as [y [<- Hy]]. exists y. split; [reflexivity|]. apply Hs. split; [|exact Hy]. intros Hy'. congruence. }
    exists d'. split; [exact He|]. unfold without in *. rewrite Hw.
    apply sorted_same; [apply filter_sorted, bt_sorted..|]. intros x. rewrite !filter_In, Hs. simpl.
    rewrite negb_orb, andb_true_iff, !negb_true_iff, bytes_eqb_neq. tauto.
Qed.

(** ** The keys a cursor passes *)

Lemma prefix_above p k : starts_with k p = true -> bytes_leb p k = true.
Proof.
  intros H. apply starts_with_iff in H as [r ->]. unfold bytes_leb.
  rewrite <- (app_nil_r p) at 1. rewrite bytes_cmp_prefix. destruct r; reflexivity.
Qed.

Lemma range_split name l : StronglySorted key_before l ->
  filter (fun e => bytes_leb name (fst e)) l =
  filter (fun e => starts_with (fst e) name) l ++ filter (fun e => bytes_leb name (fst e) && negb (starts_with (fst e) name)) l.
Proof.
  induction 1 as [|a l Hs IH Ha]; simpl; [reflexivity|].
  destruct (starts_with (fst a) name) eqn:Ep.
  - rewrite (prefix_above _ _ Ep). simpl. f_equal. exact IH.
  - destruct (bytes_leb name (fst a)) eqn:El; simpl; [|exact IH].
    assert (Hn : filter (fun e => starts_with (fst e) name) l = []).
    { apply filter_none. intros x Hx. destruct (starts_with (fst x) name) eqn:Ex; [|reflexivity].
      apply starts_with_iff in Ex as [r Hr]. rewrite Forall_forall in Ha. pose proof (Ha x Hx) as Hk.
      rewrite (below_extension name (fst a) r) in Ep; [discriminate|exact El|].
      rewrite <- Hr. apply bytes_leb_le. left. exact Hk. }
    rewrite Hn in *. simpl in *. f_equal. exact IH.
Qed.

Definition pre (name : list Z) d := filter (fun e => starts_with (fst e) name) (bt_list d).
Definition past (name : list Z) d := filter (fun e => bytes_leb name (fst e) && negb (starts_with (fst e) name)) (bt_list d).

Lemma range_is name d : bt_range name d = pre name d ++ past name d.
Proof. rewrite bt_range_spec. apply range_split, bt_sorted. Qed.

Lemma pre_starts name d : Forall (fun e => starts_with (fst e) name = true) (pre name d).
Proof. apply Forall_forall. intros x Hx. apply filter_In in Hx. apply Hx. Qed.

Lemma past_not name d e l : past name d = e :: l -> starts_with (fst e) name = false.
Proof.
  intros H. assert (Hi : In e (past name d)) by (rewrite H; left; reflexivity).
  apply filter_In in Hi as [_ Hi]. apply andb_true_iff in Hi as [_ Hi]. apply negb_true_iff, Hi.
Qed.

(** ** The loop of [unlink] *)

Fixpoint unlink_all (name : list Z) (l : list (list Z * list Z)) (s : unlink_state) : result unlink_state :=
  match l with
  | [] => Ok s
  | (str, _) :: l => s <- unlink_key name str s ;; unlink_all name l s
  end.

Lemma unlink_scan_all name l2 : (forall e l, l2 = e :: l -> starts_with (fst e) name = false) -> forall l1 s, l1 <> [] ->
  Forall (fun e => starts_with (fst e) name = true) l1 -> unlink_scan name (l1 ++ l2) s = unlink_all name l1 s.
Proof.
  intros H2. induction l1 as [|[k v] l1 IH]; intros s Hn Hf; [congruence|].
  inversion Hf as [|? ? _ Hf']; subst. simpl.
  destruct (unlink_key name k s) as [s'| |]; simpl; try reflexivity.
  destruct l1 as [|[k' v'] l1]; simpl.
  - destruct l2 as [|[k' v'] l2]; [reflexivity|]. rewrite (H2 _ _ eq_refl : starts_with k' name = false). reflexivity.
  - inversion Hf' as [|? ? Hk' _]; subst. simpl in Hk'. rewrite Hk'. apply (IH s'); [discriminate|exact Hf'].
Qed.

(** What the loop makes of what follows the name. *)
Definition rest_of (name k : list Z) : list Z := skipn (length name) k.
Definition fileb (name k : list Z) : bool :=
  starts_with k name && match rest_of name k with [] => true | c :: _ => c =? colon end.
Definition dirb (name k : list Z) : bool :=
  starts_with k name && match rest_of name k with [c] => c =? slash | c :: c' :: _ => (c =? slash) && (c' =? colon) | [] => false end.
Definition childb (name k : list Z) : bool :=
  starts_with k name && match rest_of name k with c :: c' :: _ => (c =? slash) && negb (c' =? colon) | _ => false end.

Lemma rest_app name r : rest_of name (name ++ r) = r.
Proof. unfold rest_of. rewrite skipn_app, skipn_all, Nat.sub_diag. reflexivity. Qed.

Lemma starts_app name r : starts_with (name ++ r) name = true.
Proof. apply starts_with_iff. eauto. Qed.

Lemma fileb_iff name k : fileb name k = true <-> file_key name k.
Proof.
  unfold fileb, file_key. rewrite andb_true_iff, starts_with_iff. split.
  - intros [[r ->] H]. rewrite rest_app in H. destruct r as [|c r]; [left; apply app_nil_r|].
    apply Z.eqb_eq in H. subst c. eauto.
  - intros [->|[a ->]].
    + split; [exists []; symmetry; apply app_nil_r|]. rewrite <- (app_nil_r name) at 2. rewrite rest_app. reflexivity.
    + split; [eauto|]. rewrite rest_app. reflexivity.
Qed.

Lemma dirb_iff name k : dirb name k = true <-> dir_key name k.
Proof.
  unfold dirb, dir_key. rewrite andb_true_iff, starts_with_iff. split.
  - intros [[r ->] H]. rewrite rest_app in H. destruct r as [|c [|c' r]]; [discriminate|..].
    + apply Z.eqb_eq in H. subst c. auto.
    + apply andb_true_iff in H as [H1 H2]. apply Z.eqb_eq in H1, H2. subst. eauto.
  - intros [->|[a ->]]; rewrite rest_app; eauto.
Qed.

Lemma childb_iff name k : childb name k = true <-> child_key name k.
Proof.
  unfold childb, child_key. rewrite andb_true_iff, starts_with_iff. split.
  - intros [[r ->] H]. rewrite rest_app in H. destruct r as [|c [|c' r]]; try discriminate.
    apply andb_true_iff in H as [H1 H2]. apply Z.eqb_eq in H1. apply negb_true_iff, Z.eqb_neq in H2. subst. eauto.
  - intros [c [a [Hc ->]]]. rewrite rest_app. split; [eauto|]. apply Z.eqb_neq in Hc. rewrite Hc. reflexivity.
Qed.

Lemma unlink_key_is name r s : unlink_key name (name ++ r) s =
  if childb name (name ++ r) then Throw HYPERSPACE_DIR_NOT_EMPTY
  else Ok {| delkeys := delkeys s ++ (if fileb name (name ++ r) || dirb name (name ++ r) then [name ++ r] else []);
             looks_like_dir := looks_like_dir s || dirb name (name ++ r);
             looks_like_file := looks_like_file s || fileb name (name ++ r) |}.
Proof.
  unfold unlink_key, childb, fileb, dirb. rewrite starts_app, rest_app, length_app. simpl.
  rewrite !app_nth2 by lia. replace (length name + 1 - length name)%nat with 1%nat by lia. rewrite Nat.sub_diag.
  destruct r as [|c [|c' r]]; simpl.
  - rewrite Nat.add_0_r, Nat.ltb_irrefl, !orb_false_r, orb_true_r. reflexivity.
  - replace (length name <? length name + 1)%nat with true by (symmetry; apply Nat.ltb_lt; lia). rewrite Nat.ltb_irrefl. simpl.
    destruct (c =? slash) eqn:E1; simpl.
    + apply Z.eqb_eq in E1. subst c. simpl. rewrite orb_true_r, orb_false_r. reflexivity.
    + destruct (c =? colon); simpl; rewrite ?orb_true_r, ?orb_false_r, ?app_nil_r; destruct s; reflexivity.
  - replace (length name <? length name + S (S (length r)))%nat with true by (symmetry; apply Nat.ltb_lt; lia).
    replace (length name + 1 <? length name + S (S (length r)))%nat with true by (symmetry; apply Nat.ltb_lt; lia). simpl.
    destruct (c =? slash) eqn:E1; simpl.
    + apply Z.eqb_eq in E1. subst c. destruct (c' =? colon); simpl; rewrite ?orb_true_r, ?orb_false_r; reflexivity.
    + destruct (c =? colon); simpl; rewrite ?orb_true_r, ?orb_false_r, ?app_nil_r; destruct s; reflexivity.
Qed.

Definition ownb (name k : list Z) : bool := fileb name k || dirb name k.

Lemma unlink_all_is name l : Forall (fun e => starts_with (fst e) name = true) l -> forall s, unlink_all name l s =
  if existsb (childb name) (map fst l) then Throw HYPERSPACE_DIR_NOT_EMPTY
  else Ok {| delkeys := delkeys s ++ filter (ownb name) (map fst l);
             looks_like_dir := looks_like_dir s || existsb (dirb name) (map fst l);
             looks_like_file := looks_like_file s || existsb (fileb name) (map fst l) |}.
Proof.
  induction 1 as [|[k v] l Hk Hf IH]; intros s; simpl.
  - rewrite app_nil_r, !orb_false_r. destruct s; reflexivity.
  - apply starts_with_iff in Hk as [r Hr]. simpl in Hr. subst k. rewrite unlink_key_is.
    destruct (childb name (name ++ r)); simpl; [reflexivity|]. rewrite IH. simpl.
    destruct (existsb (childb name) (map fst l)); [reflexivity|].
    f_equal. unfold ownb at 2. f_equal.
    + rewrite <- app_assoc. destruct (fileb name (name ++ r) || dirb name (name ++ r)); reflexivity.
    + symmetry. apply orb_assoc.
    + symmetry. apply orb_assoc.
Qed.

Lemma existsb_pre f name d : (forall k, f k = true -> starts_with k name = true) ->
  existsb f (map fst (pre name d)) = existsb f (keys d).
Proof.
  intros Hf. apply eq_true_iff_eq. rewrite !existsb_exists. unfold pre, keys. split; intros [k [Hk Ht]]; exists k; (split; [|exact Ht]);
    apply in_map_iff in Hk as [e [<- He]]; apply in_map.
  - apply filter_In in He. apply He.
  - apply filter_In. split; [exact He|]. apply Hf, Ht.
Qed.

Lemma own_starts name k : ownb name k = true -> starts_with k name = true.
Proof. unfold ownb, fileb, dirb. destruct (starts_with k name); [reflexivity|discriminate]. Qed.

Lemma file_starts name k : fileb name k = true -> starts_with k name = true.
Proof. unfold fileb. destruct (starts_with k name); [reflexivity|discriminate]. Qed.

Lemma dir_starts name k : dirb name k = true -> starts_with k name = true.
Proof. unfold dirb. destruct (starts_with k name); [reflexivity|discriminate]. Qed.

Lemma child_starts name k : childb name k = true -> starts_with k name = true.
Proof. unfold childb. destruct (starts_with k name); [reflexivity|discriminate]. Qed.

Lemma unlink_is name d : pre name d <> [] -> unlink name d =
  if existsb (childb name) (keys d) then Throw HYPERSPACE_DIR_NOT_EMPTY
  else if existsb (dirb name) (keys d) && existsb (fileb name) (keys d) then Throw FAILED_EXPECTATION
  else match filter (ownb name) (map fst (pre name d)) with
       | [] => Throw HYPERSPACE_FILE_NOT_FOUND
       | l => del_keys l d
       end.
Proof.
  intros Hp. unfold unlink. rewrite range_is, unlink_scan_all.
  - rewrite unlink_all_is by apply pre_starts. simpl.
    rewrite !existsb_pre by (apply child_starts || apply dir_starts || apply file_starts).
    destruct (existsb (childb name) (keys d)); [reflexivity|]. simpl.
    destruct (existsb (dirb name) (keys d) && existsb (fileb name) (keys d)); [reflexivity|].
    destruct (filter (ownb name) (map fst (pre name d))); reflexivity.
  - intros e l H. eapply past_not, H.
  - exact Hp.
  - apply pre_starts.
Qed.

Lemma keys_nodup d : NoDup (keys d).
Proof.
  unfold keys. induction (bt_sorted d) as [|a l Hs IH Ha]; simpl; constructor; [|exact IH].
  intros Hi. apply in_map_iff in Hi as [x [Hx Hi]]. rewrite Forall_forall in Ha. specialize (Ha x Hi).
  unfold key_before in Ha. rewrite Hx in Ha. destruct (bytes_lt_irrefl _ Ha).
Qed.

Lemma own_keys name d k : In k (filter (ownb name) (map fst (pre name d))) <-> In k (keys d) /\ ownb name k = true.
Proof.
  rewrite filter_In. split; intros [Hk Ho]; (split; [|exact Ho]); unfold pre, keys in *; apply in_map_iff in Hk as [e [<- He]]; apply in_map.
  - apply filter_In in He. apply He.
  - apply filter_In. split; [exact He|]. apply own_starts, Ho.
Qed.

Lemma pre_nodup name d : NoDup (map fst (pre name d)).
Proof.
  pose proof (keys_nodup d) as H. unfold pre, keys in *. induction (bt_list d) as [|a l IH]; simpl in *; [constructor|].
  inversion H as [|? ? Hn Hd]; subst. destruct (starts_with (fst a) name); simpl; [|apply IH, Hd].
  constructor; [|apply IH, Hd]. intros Hi. apply Hn. apply in_map_iff in Hi as [x [Hx Hi]]. apply filter_In in Hi.
  rewrite <- Hx. apply in_map, Hi.
Qed.

(** When [name] has keys, is not both a file and a directory and has nothing in it,
    its keys go and the others stay. *)
Lemma unlink_removes name d : (exists k, In k (keys d) /\ ownb name k = true) ->
  (forall k, In k (keys d) -> childb name k = false) ->
  existsb (dirb name) (keys d) && existsb (fileb name) (keys d) = false ->
  exists d', unlink name d = Ok d' /\ without (ownb name) d' d.
Proof.
  intros [k [Hk Ho]] Hc Hb.
  assert (Hi : In k (filter (ownb name) (map fst (pre name d)))) by (apply own_keys; auto).
  rewrite unlink_is.
  2:{ intros E. rewrite E in Hi. destruct Hi. }
  replace (existsb (childb name) (keys d)) with false.
  2:{ symmetry. apply not_true_iff_false. rewrite existsb_exists. intros [x [Hx Ht]]. rewrite Hc in Ht by exact Hx. discriminate. }
  rewrite Hb. destruct (del_keys_ok (filter (ownb name) (map fst (pre name d))) d) as [d' [He Hw]].
  - apply NoDup_filter, pre_nodup.
  - intros x Hx. apply own_keys in Hx. apply Hx.
  - exists d'. split; [destruct (filter (ownb name) (map fst (pre name d))) as [|x l]; [destruct Hi|exact He]|].
    unfold without in *. rewrite Hw. apply filter_ext_in. intros x Hx. f_equal. apply eq_true_iff_eq.
    unfold one_of. rewrite existsb_exists. split.
    + intros [y [Hy E]]. apply bytes_eqb_eq in E. subst y. apply own_keys in Hy. apply Hy.
    + intros Hy. exists (fst x). split; [|apply bytes_eqb_eq; reflexivity]. apply own_keys. split; [apply in_map, Hx|exact Hy].
Qed.

Lemma without_in p d d' x : without p d' d -> In x (bt_list d') <-> In x (bt_list d) /\ p (fst x) = false.
Proof. intros H. rewrite H, filter_In, negb_true_iff. tauto. Qed.

Lemma without_keys p d d' k : without p d' d -> In k (keys d') <-> In k (keys d) /\ p k = false.
Proof.
  intros H. unfold keys. rewrite !in_map_iff. split.
  - intros [x [<- Hx]]. apply (without_in _ _ _ x H) in Hx as [Hx Hp]. split; [eauto|exact Hp].
  - intros [[x [<- Hx]] Hp]. exists x. split; [reflexivity|]. apply (without_in _ _ _ x H). auto.
Qed.

Lemma without_get p d d' k : without p d' d -> bt_get k d' = if p k then None else bt_get k d.
Proof.
  intros H. apply option_ext. intros v. rewrite bt_get_spec, (without_in _ _ _ _ H). simpl.
  destruct (p k); rewrite ?bt_get_spec; split; try tauto; try discriminate. intros [_ E]. discriminate E.
Qed.

End Facts.
