(* ===== verification/Namespace.v ===== *)
(** * The namespace as a tree

    What the keys of [BdbFs.v] mean: a tree of files and directories with
    attributes.  [ns_ok] is the invariant of the data base, [tree_step] the
    specification of the operations, and the operations refine it as long as names
    are paths, what is unlinked exists and no directory is made beside a file of its
    name.  The last two are not checked by the code. *)
From S2P Require Import Prelude Errors Serialization ByteString BdbFs.
From Stdlib Require Import ZArith Lia List Bool Sorted Permutation.
Import ListNotations.
Open Scope Z_scope.
Open Scope result_scope.
Import BerkeleyDbFilesystem.

(** The root is the empty name: a name has no slash at its end. *)
Definition tree_name (x : list Z) : Prop := no_colon x /\ last x 0 <> slash.

Inductive fs_op :=
| Mkdir (name : list Z)
| Create (name : list Z) (temp : bool)
| Unlink (name : list Z)
| SetAttr (name aname value : list Z)
| DelAttr (name aname : list Z).

Definition fs_apply {D} {BT : Btree D} (op : fs_op) (d : D) : result D :=
  match op with
  | Mkdir name => mkdir name d
  | Create name temp => create name temp d
  | Unlink name => unlink name d
  | SetAttr name a v => set_xattr name a v d
  | DelAttr name a => del_xattr name a d
  end.

(** ** The specification *)

Record tree := { kind_of : list Z -> option bool; attr_of : list Z -> list Z -> option (list Z) }.

Definition set_node (name : list Z) (k : option bool) (t : tree) : tree :=
  {| kind_of x := if bytes_eqb x name then k else kind_of t x;
     attr_of x a := if bytes_eqb x name then None else attr_of t x a |}.
Definition set_attr (name a : list Z) (v : option (list Z)) (t : tree) : tree :=
  {| kind_of := kind_of t;
     attr_of x b := if bytes_eqb x name && bytes_eqb b a then v else attr_of t x b |}.

Definition same_tree (t t' : tree) : Prop :=
  forall x, tree_name x -> kind_of t x = kind_of t' x /\ forall a, attr_of t x a = attr_of t' x a.
Definition occupied (name : list Z) (t : tree) : Prop := exists n, plain_name n /\ kind_of t (name ++ slash :: n) <> None.

Definition temp_attr : list Z := [116; 101; 109; 112].

Inductive tree_step : tree -> fs_op -> Code -> tree -> Prop :=
| step_mkdir t p n t' : kind_of t p = Some true -> kind_of t (p ++ slash :: n) = None ->
    same_tree t' (set_node (p ++ slash :: n) (Some true) t) -> tree_step t (Mkdir (p ++ slash :: n)) OK_ t'
| step_mkdir_parent t p n : kind_of t p <> Some true -> tree_step t (Mkdir (p ++ slash :: n)) HYPERSPACE_FILE_NOT_FOUND t
| step_mkdir_exists t p n : kind_of t p = Some true -> kind_of t (p ++ slash :: n) <> None ->
    tree_step t (Mkdir (p ++ slash :: n)) HYPERSPACE_FILE_EXISTS t
| step_create t p n (temp : bool) t' : kind_of t p = Some true -> kind_of t (p ++ slash :: n) = None ->
    same_tree t' (let t1 := set_node (p ++ slash :: n) (Some false) t in
                  if temp then set_attr (p ++ slash :: n) temp_attr (Some []) t1 else t1) ->
    tree_step t (Create (p ++ slash :: n) temp) OK_ t'
| step_create_exists t name temp : kind_of t name <> None -> tree_step t (Create name temp) HYPERSPACE_FILE_EXISTS t
| step_create_parent t p n temp : kind_of t p <> Some true -> kind_of t (p ++ slash :: n) = None ->
    tree_step t (Create (p ++ slash :: n) temp) HYPERSPACE_BAD_PATHNAME t
| step_unlink t name t' : kind_of t name <> None -> ~ occupied name t ->
    same_tree t' (set_node name None t) -> tree_step t (Unlink name) OK_ t'
| step_unlink_occupied t name : occupied name t -> tree_step t (Unlink name) HYPERSPACE_DIR_NOT_EMPTY t
| step_set_attr t name a v t' : kind_of t name <> None -> same_tree t' (set_attr name a (Some v) t) ->
    tree_step t (SetAttr name a v) OK_ t'
| step_set_attr_none t name a v : kind_of t name = None -> tree_step t (SetAttr name a v) HYPERSPACE_FILE_NOT_FOUND t
| step_del_attr t name a t' : attr_of t name a <> None -> same_tree t' (set_attr name a None t) ->
    tree_step t (DelAttr name a) OK_ t'
| step_del_attr_none t name a : kind_of t name <> None -> attr_of t name a = None ->
    tree_step t (DelAttr name a) HYPERSPACE_ATTR_NOT_FOUND t
| step_del_attr_file t name a : kind_of t name = None -> tree_step t (DelAttr name a) HYPERSPACE_FILE_NOT_FOUND t.

Section Namespace.

Context {D : Type} {BT : Btree D}.
Implicit Types d : D.

(** The tree a data base holds. *)
Definition kind d (x : list Z) : option bool := if fst (exists_ x d) then Some (snd (exists_ x d)) else None.
Definition view d : tree :=
  {| kind_of := kind d; attr_of x a := match get_xattr x a d with Ok v => v | _ => None end |}.

(** The invariant: every key but the root is a file or a directory in a directory
    that is there, or an attribute of something that is there. *)
Record ns_ok d : Prop := {
  ns_root : In [slash] (keys d);
  ns_keys k : In k (keys d) -> k = [slash]
    \/ (exists p n, no_colon p /\ plain_name n /\ In (p ++ [slash]) (keys d) /\ (k = p ++ slash :: n \/ k = p ++ slash :: n ++ [slash]))
    \/ (exists b a, no_colon b /\ In b (keys d) /\ k = b ++ colon :: a);
  ns_one x : In x (keys d) -> tree_name x -> In (x ++ [slash]) (keys d) -> False;
  ns_value k v : In (k, v) (bt_list d) -> no_colon k -> v = [] }.

(** What is asked of the callers. *)
Definition path (name : list Z) : Prop := exists p n, no_colon p /\ plain_name n /\ tree_name p /\ name = p ++ slash :: n.
Definition allowed (op : fs_op) d : Prop :=
  match op with
  | Mkdir name => path name /\ kind d name <> Some false
  | Create name _ => path name
  | Unlink name => path name /\ kind d name <> None
  | SetAttr name _ _ | DelAttr name _ => tree_name name
  end.

(** ** Strings *)

Lemma dir_part_app p n : Forall (fun b => b <> slash) n -> dir_part (p ++ slash :: n) = p ++ [slash].
Proof.
  intros Hn. induction p as [|b p IH]; simpl.
  - assert (E : dir_part n = []).
    { induction Hn as [|b n Hb Hn IH]; simpl; [reflexivity|]. rewrite IH. apply Z.eqb_neq in Hb. rewrite Hb. reflexivity. }
    rewrite E. reflexivity.
  - rewrite IH. destruct p; reflexivity.
Qed.

Lemma last_app x (n : list Z) z : n <> [] -> last (x ++ n) z = last n z.
Proof. intros Hn. induction x as [|b x IH]; simpl; [reflexivity|]. rewrite IH. destruct x; [destruct n; [congruence|reflexivity]|reflexivity]. Qed.

Lemma colon_split b a b' a' : no_colon b -> no_colon b' -> b ++ colon :: a = b' ++ colon :: a' -> b = b' /\ a = a'.
Proof.
  intros Hb. revert b'. induction Hb as [|c b Hc Hb IH]; intros b' Hb' E.
  - destruct Hb' as [|c' b' Hc' _]; simpl in E; [injection E as ->; auto|injection E; congruence].
  - destruct Hb' as [|c' b' Hc' Hb']; simpl in E; injection E as E1 E2; [congruence|].
    destruct (IH b' Hb' E2) as [-> ->]. subst. auto.
Qed.

Lemma no_colon_app a b : no_colon (a ++ b) <-> no_colon a /\ no_colon b.
Proof. apply Forall_app. Qed.

Lemma no_colon_attr b a : no_colon (b ++ colon :: a) -> False.
Proof. intros H. apply no_colon_app in H as [_ H]. inversion H; congruence. Qed.

Lemma plain_no_colon n : plain_name n -> no_colon n.
Proof. intros [_ H]. eapply Forall_impl; [|exact H]. simpl. tauto. Qed.

Lemma plain_no_slash n : plain_name n -> Forall (fun b => b <> slash) n.
Proof. intros [_ H]. eapply Forall_impl; [|exact H]. simpl. tauto. Qed.

Lemma no_colon_slash x : no_colon x -> no_colon (x ++ [slash]).
Proof. intros H. apply no_colon_app. split; [exact H|]. repeat constructor. discriminate. Qed.

Lemma last_not x : Forall (fun b => b <> slash) x -> last x 0 <> slash.
Proof. induction 1 as [|b l Hb Hl IH]; simpl; [discriminate|]. destruct l; assumption. Qed.

Lemma plain_last p n : plain_name n -> last (p ++ slash :: n) 0 <> slash.
Proof.
  intros Hn. change (slash :: n) with ([slash] ++ n). rewrite app_assoc, last_app by apply Hn. apply last_not, plain_no_slash, Hn.
Qed.

Lemma path_tree name : path name -> tree_name name.
Proof.
  intros (p & n & Hp & Hn & _ & ->). split; [|apply plain_last, Hn].
  apply no_colon_app. split; [exact Hp|]. constructor; [discriminate|]. apply plain_no_colon, Hn.
Qed.

Lemma path_app p n : tree_name p -> plain_name n -> path (p ++ slash :: n).
Proof. intros Hp Hn. exists p, n. repeat split; try apply Hp; try apply Hn. Qed.

Lemma ends_last (x : list Z) : last (x ++ [slash]) 0 = slash.
Proof. apply last_last. Qed.

(** ** Keys of names *)

Definition key_of (b : bool) (x : list Z) : list Z := x ++ (if b then [slash] else []).

Lemma key_of_last x : tree_name x -> last (key_of false x) 0 <> slash.
Proof. intros [_ H]. unfold key_of. rewrite app_nil_r. exact H. Qed.

Lemma node_key_inj b c x y : tree_name x -> tree_name y -> key_of b x = key_of c y -> x = y /\ b = c.
Proof.
  intros Hx Hy E. destruct b, c.
  - split; [|reflexivity]. apply app_inj_tail in E. apply E.
  - destruct (key_of_last y Hy). rewrite <- E. apply ends_last.
  - destruct (key_of_last x Hx). rewrite E. apply ends_last.
  - split; [|reflexivity]. unfold key_of in E. rewrite !app_nil_r in E. exact E.
Qed.

Lemma key_of_plain b x : tree_name x -> no_colon (key_of b x).
Proof. intros [H _]. destruct b; [apply no_colon_slash, H|]. unfold key_of. rewrite app_nil_r. exact H. Qed.

Lemma kind_same d d' x : (forall b, In (key_of b x) (keys d') <-> In (key_of b x) (keys d)) -> kind d' x = kind d x.
Proof.
  intros H. pose proof (H false) as Hf. pose proof (H true) as Ht. unfold key_of in *. rewrite app_nil_r in *.
  rewrite <- !found_iff in *. apply eq_true_iff_eq in Hf, Ht. unfold kind, exists_. rewrite Hf, Ht. reflexivity.
Qed.

Lemma kind_iff d x b : ns_ok d -> tree_name x -> kind d x = Some b <-> In (key_of b x) (keys d).
Proof.
  intros Hd Hx. unfold kind, exists_, key_of. destruct (found x d) eqn:E1; simpl.
  - apply found_iff in E1. destruct b; rewrite ?app_nil_r.
    + split; [discriminate|]. intros H. destruct (ns_one d Hd x E1 Hx H).
    + tauto.
  - destruct (found (x ++ [slash]) d) eqn:E2; simpl; destruct b; rewrite ?app_nil_r, <- found_iff, ?E1, ?E2; split; congruence.
Qed.

Lemma kind_none d x : kind d x = None <-> forall b, ~ In (key_of b x) (keys d).
Proof.
  unfold kind, exists_, key_of. split.
  - intros H b. destruct b; rewrite ?app_nil_r, <- found_iff; destruct (found x d); simpl in *; try discriminate;
      destruct (found (x ++ [slash]) d); simpl in *; discriminate.
  - intros H. pose proof (H false) as Hf. pose proof (H true) as Ht. rewrite app_nil_r, <- found_iff, not_true_iff_false in *.
    rewrite Hf, Ht. reflexivity.
Qed.

Lemma attr_is d x a : attr_of (view d) x a = match kind d x with Some b => bt_get (key_of b x ++ colon :: a) d | None => None end.
Proof.
  unfold view, attr_of, get_xattr, build_attr_key, kind. destruct (exists_ x d) as [[] b]; simpl; [|reflexivity].
  unfold key_of. rewrite <- app_assoc. reflexivity.
Qed.

Lemma get_in k d : bt_get k d = None <-> ~ In k (keys d).
Proof. rewrite <- found_iff. unfold found. destruct (bt_get k d); split; congruence. Qed.

(** ** The invariant *)

Lemma ns_owner d b a : ns_ok d -> no_colon b -> In (b ++ colon :: a) (keys d) -> In b (keys d).
Proof.
  intros Hd Hb Hi. destruct (ns_keys d Hd _ Hi) as [E|[(p & n & Hp & Hn & _ & E)|(b' & a' & Hb' & Hi' & E)]].
  - destruct (no_colon_attr b a). rewrite E. repeat constructor. discriminate.
  - destruct (no_colon_attr b a). apply plain_no_colon in Hn. destruct E as [-> | ->]; apply no_colon_app; (split; [exact Hp|]);
      constructor; try discriminate; [exact Hn|]. apply no_colon_slash, Hn.
  - apply colon_split in E as [-> _]; assumption.
Qed.

Lemma attr_none d x a : ns_ok d -> tree_name x -> kind d x = None -> forall b, bt_get (key_of b x ++ colon :: a) d = None.
Proof.
  intros Hd Hx Hk b. apply get_in. intros Hi. apply ns_owner in Hi; [|exact Hd|apply key_of_plain, Hx].
  exact (proj1 (kind_none d x) Hk b Hi).
Qed.

Lemma slash_cut p n k : k = p ++ slash :: n \/ k = p ++ slash :: n ++ [slash] <-> exists b, k = key_of b (p ++ slash :: n).
Proof.
  unfold key_of. split.
  - intros [-> | ->]; [exists false; rewrite app_nil_r; reflexivity|exists true; rewrite <- app_assoc; reflexivity].
  - intros [[] ->]; [right; rewrite <- app_assoc; reflexivity|left; apply app_nil_r].
Qed.

Lemma ns_put_node d p n b : ns_ok d -> tree_name p -> plain_name n -> In (p ++ [slash]) (keys d) -> kind d (p ++ slash :: n) = None ->
  ns_ok (bt_put (key_of b (p ++ slash :: n)) [] d).
Proof.
  intros Hd Hp Hn Hi Hk. assert (Ht : tree_name (p ++ slash :: n)) by (apply path_tree, path_app; assumption).
  constructor.
  - apply keys_put. right. apply Hd.
  - intros k H. apply keys_put in H as [->|H].
    + right. left. exists p, n. split; [apply Hp|]. split; [exact Hn|]. split; [apply keys_put; auto|]. apply slash_cut. eauto.
    + destruct (ns_keys d Hd k H) as [E|[(p' & n' & Hp' & Hn' & Hi' & E)|(b' & a & Hb & Hi' & E)]]; [auto|..]; right.
      * left. exists p', n'. rewrite keys_put. auto.
      * right. exists b', a. rewrite keys_put. auto.
  - intros x H1 Hx H2. apply keys_put in H1, H2.
    rewrite <- (app_nil_r x) in H1. change (x ++ []) with (key_of false x) in H1. change (x ++ [slash]) with (key_of true x) in H2.
    pose proof (proj1 (kind_none _ _) Hk) as Hno.
    destruct H1 as [E1|H1], H2 as [E2|H2].
    + rewrite <- E2 in E1. apply node_key_inj in E1; try assumption. destruct E1; discriminate.
    + apply node_key_inj in E1 as [-> _]; try assumption. exact (Hno true H2).
    + apply node_key_inj in E2 as [-> _]; try assumption. exact (Hno false H1).
    + unfold key_of in H1. rewrite app_nil_r in H1. exact (ns_one d Hd x H1 Hx H2).
  - intros k v H Hc. apply bt_put_spec in H as [E|[_ H]]; [injection E as _ ->; reflexivity|]. apply (ns_value d Hd k v H Hc).
Qed.

Lemma ns_put_attr d b a v : ns_ok d -> no_colon b -> In b (keys d) -> ns_ok (bt_put (b ++ colon :: a) v d).
Proof.
  intros Hd Hb Hi. constructor.
  - apply keys_put. right. apply Hd.
  - intros k H. apply keys_put in H as [->|H].
    + right. right. exists b, a. rewrite keys_put. auto.
    + destruct (ns_keys d Hd k H) as [E|[(p' & n' & Hp' & Hn' & Hi' & E)|(b' & a' & Hb' & Hi' & E)]]; [auto|..]; right.
      * left. exists p', n'. rewrite keys_put. auto.
      * right. exists b', a'. rewrite keys_put. auto.
  - intros x H1 Hx H2. apply keys_put in H1 as [->|H1]; [destruct (no_colon_attr b a); apply Hx|].
    apply keys_put in H2 as [E|H2]; [|exact (ns_one d Hd x H1 Hx H2)].
    destruct (no_colon_attr b a). rewrite <- E. apply no_colon_slash, Hx.
  - intros k w H Hc. apply bt_put_spec in H as [E|[_ H]]; [|apply (ns_value d Hd k w H Hc)].
    injection E as -> _. destruct (no_colon_attr b a Hc).
Qed.

(** Keys may go when what is in a directory goes with it, and the attributes of what
    goes. *)
Lemma ns_without q d d' : ns_ok d -> without q d' d -> q [slash] = false ->
  (forall p n b, no_colon p -> plain_name n -> q (p ++ [slash]) = true -> In (key_of b (p ++ slash :: n)) (keys d) -> q (key_of b (p ++ slash :: n)) = true) ->
  (forall b a, no_colon b -> q b = true -> In (b ++ colon :: a) (keys d) -> q (b ++ colon :: a) = true) -> ns_ok d'.
Proof.
  intros Hd Hw Hroot Hdir Hattr. pose proof (fun k => without_keys q d d' k Hw) as Hk. constructor.
  - apply Hk. split; [apply Hd|exact Hroot].
  - intros k H. apply Hk in H as [H Hq].
    destruct (ns_keys d Hd k H) as [E|[(p & n & Hp & Hn & Hi & E)|(b & a & Hb & Hi & E)]]; [auto|..]; right.
    + left. exists p, n. split; [exact Hp|]. split; [exact Hn|]. split; [|exact E]. apply Hk. split; [exact Hi|].
      apply not_true_iff_false. intros Hq'. apply slash_cut in E as [b ->]. rewrite Hdir in Hq; try assumption. discriminate.
    + right. exists b, a. split; [exact Hb|]. split; [|exact E]. apply Hk. split; [exact Hi|].
      apply not_true_iff_false. intros Hq'. subst k. rewrite Hattr in Hq; try assumption. discriminate.
  - intros x H1 Hx H2. apply Hk in H1, H2. apply (ns_one d Hd x); tauto.
  - intros k v H. apply (without_in q d d' _ Hw) in H as [H _]. apply (ns_value d Hd k v H).
Qed.

(** ** What the operations do to the tree *)

Lemma view_put_node d name b : ns_ok d -> tree_name name -> kind d name = None -> ns_ok (bt_put (key_of b name) [] d) ->
  same_tree (view (bt_put (key_of b name) [] d)) (set_node name (Some b) (view d)).
Proof.
  intros Hd Ht Hk Hd' x Hx. simpl. destruct (bytes_eqb x name) eqn:E.
  - apply bytes_eqb_eq in E. subst x. assert (Hn : kind (bt_put (key_of b name) [] d) name = Some b).
    { apply kind_iff; [exact Hd'|exact Ht|]. apply keys_put. auto. }
    split; [exact Hn|]. intros a. change (attr_of (view (bt_put (key_of b name) [] d)) name a = None). rewrite attr_is, Hn.
    rewrite get_put_other; [apply attr_none; assumption|]. intros E. apply (no_colon_attr (key_of b name) a). rewrite <- E. apply key_of_plain, Ht.
  - apply bytes_eqb_neq in E. assert (Hs : kind (bt_put (key_of b name) [] d) x = kind d x).
    { apply kind_same. intros c. rewrite keys_put. split; [|auto]. intros [E'|H]; [|exact H].
      apply node_key_inj in E' as [E' _]; [congruence|assumption..]. }
    split; [exact Hs|]. intros a. change (attr_of (view (bt_put (key_of b name) [] d)) x a = attr_of (view d) x a). rewrite !attr_is, Hs.
    destruct (kind d x) as [c|]; [|reflexivity]. apply get_put_other. intros E'.
    apply (no_colon_attr (key_of c x) a). rewrite <- E'. apply key_of_plain, Ht.
Qed.

Lemma attr_key_inj b c x y a a' : tree_name x -> tree_name y -> key_of b x ++ colon :: a = key_of c y ++ colon :: a' -> x = y /\ a = a'.
Proof.
  intros Hx Hy E. apply colon_split in E as [E ->]; [|apply key_of_plain; assumption..]. apply node_key_inj in E as [-> _]; auto.
Qed.

Lemma attr_key_other b c x y a : tree_name x -> key_of b x = key_of c y ++ colon :: a -> False.
Proof. intros Hx E. apply (no_colon_attr (key_of c y) a). rewrite <- E. apply key_of_plain, Hx. Qed.

Lemma view_put_attr d name b a v : tree_name name -> kind d name = Some b ->
  same_tree (view (bt_put (key_of b name ++ colon :: a) v d)) (set_attr name a (Some v) (view d)).
Proof.
  intros Ht Hk x Hx. assert (Hs : kind (bt_put (key_of b name ++ colon :: a) v d) x = kind d x).
  { apply kind_same. intros c. rewrite keys_put. split; [|auto]. intros [E|H]; [|exact H]. destruct (attr_key_other _ _ _ _ _ Hx E). }
  split; [exact Hs|]. intros a'. rewrite attr_is, Hs. unfold set_attr, attr_of at 1. fold (attr_of (view d) x a'). rewrite attr_is.
  destruct (bytes_eqb x name && bytes_eqb a' a) eqn:E.
  - apply andb_true_iff in E as [E1 E2]. apply bytes_eqb_eq in E1, E2. subst. rewrite Hk. apply get_put_same.
  - destruct (kind d x) as [c|]; [|reflexivity]. apply get_put_other. intros E'. apply attr_key_inj in E' as [E1 E2]; try assumption.
    subst. rewrite !(proj2 (bytes_eqb_eq _ _) eq_refl) in E. discriminate.
Qed.

Lemma del_without k d d' : bt_del k d = Some d' -> without (fun x => bytes_eqb x k) d' d.
Proof.
  intros H. apply sorted_same; [apply bt_sorted|apply filter_sorted, bt_sorted|]. intros x.
  rewrite (bt_del_spec k d d' x H), filter_In, negb_true_iff, bytes_eqb_neq. tauto.
Qed.

Lemma view_del_attr d d' name b a : tree_name name -> kind d name = Some b -> without (fun x => bytes_eqb x (key_of b name ++ colon :: a)) d' d ->
  same_tree (view d') (set_attr name a None (view d)).
Proof.
  intros Ht Hk Hw x Hx. assert (Hs : kind d' x = kind d x).
  { apply kind_same. intros c. rewrite (without_keys _ _ _ _ Hw), bytes_eqb_neq. split; [tauto|]. intros H. split; [exact H|].
    intros E. destruct (attr_key_other _ _ _ _ _ Hx E). }
  split; [exact Hs|]. intros a'. rewrite attr_is, Hs. unfold set_attr, attr_of at 1. fold (attr_of (view d) x a'). rewrite attr_is.
  destruct (bytes_eqb x name && bytes_eqb a' a) eqn:E.
  - apply andb_true_iff in E as [E1 E2]. apply bytes_eqb_eq in E1, E2. subst. rewrite Hk, (without_get _ _ _ _ Hw).
    rewrite (proj2 (bytes_eqb_eq _ _) eq_refl). reflexivity.
  - destruct (kind d x) as [c|]; [|reflexivity]. rewrite (without_get _ _ _ _ Hw).
    destruct (bytes_eqb (key_of c x ++ colon :: a') (key_of b name ++ colon :: a)) eqn:E'; [|reflexivity].
    apply bytes_eqb_eq, attr_key_inj in E' as [E1 E2]; try assumption. subst. rewrite !(proj2 (bytes_eqb_eq _ _) eq_refl) in E. discriminate.
Qed.

(** ** The keys of a name *)

Lemma own_iff name k : ownb name k = true <-> exists b, k = key_of b name \/ exists a, k = key_of b name ++ colon :: a.
Proof.
  unfold ownb. rewrite orb_true_iff, fileb_iff, dirb_iff. unfold file_key, dir_key, key_of. split.
  - intros [[->|[a ->]]|[->|[a ->]]].
    + exists false. left. symmetry. apply app_nil_r.
    + exists false. right. exists a. rewrite app_nil_r. reflexivity.
    + exists true. left. reflexivity.
    + exists true. right. exists a. rewrite <- app_assoc. reflexivity.
  - intros [[] [->|[a ->]]]; rewrite ?app_nil_r; [right; left|right; right|left; left|left; right]; eauto.
    exists a. rewrite <- app_assoc. reflexivity.
Qed.

Lemma own_node name x b : tree_name name -> tree_name x -> ownb name (key_of b x) = true <-> x = name.
Proof.
  intros Hn Hx. rewrite own_iff. split.
  - intros [c [E|[a E]]]; [apply node_key_inj in E; tauto|]. destruct (attr_key_other _ _ _ _ _ Hx E).
  - intros ->. eauto.
Qed.

Lemma own_attr name x b a : tree_name name -> tree_name x -> ownb name (key_of b x ++ colon :: a) = true <-> x = name.
Proof.
  intros Hn Hx. rewrite own_iff. split.
  - intros [c [E|[a' E]]]; [destruct (attr_key_other _ _ _ _ _ Hn (eq_sym E))|]. apply attr_key_inj in E; tauto.
  - intros ->. eauto.
Qed.

Lemma view_unlink d d' name : tree_name name -> without (ownb name) d' d -> same_tree (view d') (set_node name None (view d)).
Proof.
  intros Hn Hw x Hx. simpl. destruct (bytes_eqb x name) eqn:E.
  - apply bytes_eqb_eq in E. subst x. assert (Hk : kind d' name = None).
    { apply kind_none. intros b H. apply (without_keys _ _ _ _ Hw) in H as [_ H]. rewrite (proj2 (own_node name name b Hn Hn) eq_refl) in H. discriminate. }
    split; [exact Hk|]. intros a. change (attr_of (view d') name a = None). rewrite attr_is, Hk. reflexivity.
  - apply bytes_eqb_neq in E. assert (Hs : kind d' x = kind d x).
    { apply kind_same. intros c. rewrite (without_keys _ _ _ _ Hw), <- not_true_iff_false, own_node by assumption. tauto. }
    split; [exact Hs|]. intros a. change (attr_of (view d') x a = attr_of (view d) x a). rewrite !attr_is, Hs.
    destruct (kind d x) as [c|]; [|reflexivity]. rewrite (without_get _ _ _ _ Hw).
    destruct (ownb name (key_of c x ++ colon :: a)) eqn:Eo; [|reflexivity]. apply own_attr in Eo; [congruence|assumption..].
Qed.

(** A key behind the slash of [name] that is no attribute of it belongs to something
    that is in it: [cut n b r] says that a name is cut at [n] when what is behind it
    is [r]. *)
Definition cut (n : list Z) (b : bool) (r : list Z) : Prop :=
  if b then exists s, r = n ++ slash :: s else r = n \/ exists s, r = n ++ colon :: s.

Lemma cut_more n b x l : no_colon x -> plain_name n -> cut n b (x ++ [slash]) -> cut n b (x ++ slash :: l).
Proof.
  intros Hx Hn. change (slash :: l) with ([slash] ++ l). rewrite app_assoc. destruct b; simpl.
  - intros [s ->]. exists (s ++ l). rewrite <- app_assoc. reflexivity.
  - intros [E|[s E]]; exfalso.
    + apply (last_not n (plain_no_slash n Hn)). rewrite <- E. apply ends_last.
    + apply (no_colon_attr n s). rewrite <- E. apply no_colon_slash, Hx.
Qed.

Lemma cut_attr n b x a : no_colon x -> cut n b x -> cut n b (x ++ colon :: a).
Proof.
  intros Hx. destruct b; simpl.
  - intros [s ->]. exists (s ++ colon :: a). rewrite <- app_assoc. reflexivity.
  - intros [-> |[s ->]]; [eauto|]. destruct (no_colon_attr n s Hx).
Qed.

Lemma last_slash p n b name r : plain_name n -> name ++ slash :: r = key_of b (p ++ slash :: n) -> p <> name -> r <> [] ->
  exists l, p = name ++ slash :: l /\ r = l ++ slash :: n ++ (if b then [slash] else []).
Proof.
  intros Hn E Hp Hr. pose proof (plain_no_slash n Hn) as Hsf.
  unfold key_of in E. rewrite <- app_assoc in E. simpl in E. apply app_eq_app in E as [l [[-> E]|[-> E]]].
  - destruct l as [|z l]; [rewrite app_nil_r in Hp; congruence|]. exfalso. injection E as <- E. rewrite Forall_forall in Hsf.
    apply (Hsf slash); [|reflexivity]. destruct b; [|rewrite app_nil_r in E; rewrite E; apply in_or_app; right; left; reflexivity].
    apply (f_equal (@removelast Z)) in E. rewrite removelast_last, removelast_app in E by discriminate. rewrite E.
    apply in_or_app. right. destruct r; [congruence|left; reflexivity].
  - destruct l as [|z l]; [rewrite app_nil_r in Hp; congruence|]. injection E as <- E. eauto.
Qed.

Lemma child_cut d name : ns_ok d -> tree_name name -> forall m c a, (length a <= m)%nat -> c <> colon -> In (name ++ slash :: c :: a) (keys d) ->
  exists n b, plain_name n /\ In (key_of b (name ++ slash :: n)) (keys d) /\ cut n b (c :: a).
Proof.
  intros Hd Hname. induction m as [m IH] using lt_wf_ind. intros c a Hm Hc Hi.
  assert (Hless : forall c' a', (length a' < length a)%nat -> c' <> colon -> In (name ++ slash :: c' :: a') (keys d) ->
    exists n b, plain_name n /\ In (key_of b (name ++ slash :: n)) (keys d) /\ cut n b (c' :: a')).
  { intros c' a' Hl. apply (IH (length a')); lia. }
  destruct (ns_keys d Hd _ Hi) as [E|[(p & n & Hp & Hn & Hi' & E)|(b & a' & Hb & Hi' & E)]].
  - apply (f_equal (@length Z)) in E. rewrite length_app in E. simpl in E. lia.
  - apply slash_cut in E as [b E]. destruct (bytes_eqb p name) eqn:Epn.
    + apply bytes_eqb_eq in Epn. subst p. exists n, b. rewrite E in Hi. split; [exact Hn|]. split; [exact Hi|].
      unfold key_of in E. rewrite <- app_assoc in E. apply app_inv_head in E. injection E as ->. destruct b; simpl; [eauto|].
      left. apply app_nil_r.
    + apply bytes_eqb_neq in Epn. destruct (last_slash p n b name (c :: a) Hn E Epn ltac:(discriminate)) as (l & -> & El).
      apply no_colon_app in Hp as [_ Hp]. rewrite El.
      assert (Hll : (length (c :: a) > length (l ++ [slash]))%nat).
      { rewrite El. destruct Hn as [Hn _]. destruct n; [congruence|]. rewrite !length_app. simpl. rewrite length_app. simpl. lia. }
      destruct (Hless (hd slash (l ++ [slash])) (tl (l ++ [slash]))) as (n' & b' & Hn' & Hk' & Hcut).
      * destruct l; simpl in *; lia.
      * destruct l; [discriminate|]. simpl in El. injection El as <- _. exact Hc.
      * rewrite <- app_assoc in Hi'. destruct l; exact Hi'.
      * exists n', b'. split; [exact Hn'|]. split; [exact Hk'|]. apply cut_more; [inversion Hp; assumption|exact Hn'|]. destruct l; exact Hcut.
  - destruct Hname as [Hname _]. apply app_eq_app in E as [l [[-> E]|[-> E]]].
    + destruct l as [|z l]; [discriminate|]. injection E as <- E. destruct (no_colon_attr b l). exact Hname.
    + destruct l as [|z l]; [discriminate|]. injection E as <- E. destruct l as [|z l]; injection E as -> E; [congruence|]. subst a.
      destruct (Hless z l) as (n & b & Hn & Hk & Hcut); [rewrite length_app; simpl; lia|exact Hc|exact Hi'|].
      exists n, b. split; [exact Hn|]. split; [exact Hk|]. change (z :: l ++ colon :: a') with ((z :: l) ++ colon :: a').
      apply cut_attr; [|exact Hcut]. apply no_colon_app in Hb as [_ Hb]. inversion Hb; assumption.
Qed.

Lemma child_node d name k : ns_ok d -> tree_name name -> In k (keys d) -> child_key name k ->
  exists n, plain_name n /\ kind d (name ++ slash :: n) <> None.
Proof.
  intros Hd Hname Hi (c & a & Hc & ->). destruct (child_cut d name Hd Hname (length a) c a (le_n _) Hc Hi) as (n & b & Hn & Hk & _).
  exists n. split; [exact Hn|]. intros E. exact (proj1 (kind_none _ _) E b Hk).
Qed.

(** ** The operations *)

Definition meets (op : fs_op) d (r : result D) : Prop :=
  match r with
  | Ok d' => ns_ok d' /\ tree_step (view d) op OK_ (view d')
  | Throw e => tree_step (view d) op e (view d)
  | Fault => False
  end.

Lemma found_dir d p : ns_ok d -> tree_name p -> found (p ++ [slash]) d = true <-> kind d p = Some true.
Proof. intros Hd Hp. rewrite found_iff, (kind_iff d p true Hd Hp). reflexivity. Qed.

Lemma ends_path p n : plain_name n -> ends_with_slash (p ++ slash :: n) = false.
Proof. intros Hn. unfold ends_with_slash. apply Z.eqb_neq, plain_last, Hn. Qed.

Lemma mkdir_meets d name : ns_ok d -> path name -> kind d name <> Some false -> meets (Mkdir name) d (mkdir name d).
Proof.
  intros Hd Hpath Hk. pose proof (path_tree _ Hpath) as Ht. destruct Hpath as (p & n & _ & Hn & Hp & ->).
  unfold mkdir. rewrite dir_part_app by apply plain_no_slash, Hn. rewrite ends_path by exact Hn.
  destruct (found (p ++ [slash]) d) eqn:E1; simpl.
  - pose proof (proj1 (found_dir d p Hd Hp) E1) as Hkp.
    destruct (found ((p ++ slash :: n) ++ [slash]) d) eqn:E2; simpl.
    + apply (found_dir d _ Hd Ht) in E2. apply step_mkdir_exists; [exact Hkp|]. simpl. congruence.
    + assert (Hnone : kind d (p ++ slash :: n) = None).
      { destruct (kind d (p ++ slash :: n)) as [[]|] eqn:E; [|congruence..]. apply (found_dir d _ Hd Ht) in E. congruence. }
      assert (Hok : ns_ok (bt_put (key_of true (p ++ slash :: n)) [] d)) by (apply ns_put_node; try assumption; apply found_iff, E1).
      split; [exact Hok|]. apply step_mkdir; [exact Hkp|exact Hnone|]. apply (view_put_node d _ true); assumption.
  - apply step_mkdir_parent. simpl. rewrite <- (found_dir d p Hd Hp), E1. discriminate.
Qed.

Lemma dir_value d p v : ns_ok d -> tree_name p -> bt_get (p ++ [slash]) d = Some v -> v = [].
Proof. intros Hd Hp H. apply bt_get_spec in H. apply (ns_value d Hd _ _ H), no_colon_slash, Hp. Qed.

Lemma same_tree_trans t1 t2 t3 : same_tree t1 t2 -> same_tree t2 t3 -> same_tree t1 t3.
Proof.
  intros H1 H2 x Hx. destruct (H1 x Hx) as [K1 A1], (H2 x Hx) as [K2 A2]. split; [congruence|]. intros a. rewrite A1. apply A2.
Qed.

Lemma set_attr_same name a v t t' : same_tree t t' -> same_tree (set_attr name a v t) (set_attr name a v t').
Proof.
  intros H x Hx. destruct (H x Hx) as [K A]. split; [exact K|]. intros b. simpl. destruct (bytes_eqb x name && bytes_eqb b a); [reflexivity|apply A].
Qed.

Lemma create_meets d name temp : ns_ok d -> path name -> meets (Create name temp) d (create name temp d).
Proof.
  intros Hd Hpath. pose proof (path_tree _ Hpath) as Ht. destruct Hpath as (p & n & _ & Hn & Hp & ->).
  unfold create. rewrite dir_part_app by apply plain_no_slash, Hn. rewrite ends_path by exact Hn.
  destruct (fst (exists_ (p ++ slash :: n) d)) eqn:Ex.
  { apply step_create_exists. simpl. unfold kind. rewrite Ex. discriminate. }
  assert (Hnone : kind d (p ++ slash :: n) = None) by (unfold kind; rewrite Ex; reflexivity).
  destruct (bt_get (p ++ [slash]) d) as [v|] eqn:E1.
  2:{ apply step_create_parent; [|exact Hnone]. simpl. rewrite <- (found_dir d p Hd Hp). unfold found. rewrite E1. discriminate. }
  pose proof (dir_value d p v Hd Hp E1) as ->.
  assert (Hkp : kind d p = Some true) by (apply found_dir; try assumption; unfold found; rewrite E1; reflexivity).
  assert (Hi : In (p ++ [slash]) (keys d)) by (apply found_iff; unfold found; rewrite E1; reflexivity).
  assert (Ek : key_of false (p ++ slash :: n) = p ++ slash :: n) by apply app_nil_r.
  assert (Et : (p ++ slash :: n) ++ temp_suffix = key_of false (p ++ slash :: n) ++ colon :: temp_attr) by (rewrite Ek; reflexivity).
  cbv zeta. rewrite Et. replace (bt_put (p ++ slash :: n) [] d) with (bt_put (key_of false (p ++ slash :: n)) [] d) by (rewrite Ek; reflexivity).
  assert (Hok : ns_ok (bt_put (key_of false (p ++ slash :: n)) [] d)) by (apply ns_put_node; assumption).
  assert (Hv : same_tree (view (bt_put (key_of false (p ++ slash :: n)) [] d)) (set_node (p ++ slash :: n) (Some false) (view d)))
    by (apply view_put_node; assumption).
  destruct temp.
  - assert (Hk' : kind (bt_put (key_of false (p ++ slash :: n)) [] d) (p ++ slash :: n) = Some false).
    { apply kind_iff; [exact Hok|exact Ht|]. apply keys_put. auto. }
    split.
    + apply ns_put_attr; [exact Hok|apply key_of_plain, Ht|]. apply keys_put. auto.
    + apply step_create; [exact Hkp|exact Hnone|]. eapply same_tree_trans; [apply view_put_attr; assumption|]. apply set_attr_same, Hv.
  - split; [exact Hok|]. apply step_create; [exact Hkp|exact Hnone|exact Hv].
Qed.

Lemma set_attr_meets d name a v : ns_ok d -> tree_name name -> meets (SetAttr name a v) d (set_xattr name a v d).
Proof.
  intros Hd Ht. unfold set_xattr, build_attr_key. destruct (exists_ name d) as [[] b] eqn:Ex; simpl.
  - assert (Hk : kind d name = Some b) by (unfold kind; rewrite Ex; reflexivity).
    rewrite app_assoc. change (name ++ (if b then [slash] else [])) with (key_of b name). split.
    + apply ns_put_attr; [exact Hd|apply key_of_plain, Ht|]. apply kind_iff; assumption.
    + apply step_set_attr; [simpl; congruence|]. apply view_put_attr; assumption.
  - apply step_set_attr_none. simpl. unfold kind. rewrite Ex. reflexivity.
Qed.

Lemma del_attr_meets d name a : ns_ok d -> tree_name name -> meets (DelAttr name a) d (del_xattr name a d).
Proof.
  intros Hd Ht. unfold del_xattr, build_attr_key. destruct (exists_ name d) as [[] b] eqn:Ex; simpl.
  - assert (Hk : kind d name = Some b) by (unfold kind; rewrite Ex; reflexivity).
    rewrite app_assoc. change (name ++ (if b then [slash] else [])) with (key_of b name).
    destruct (bt_del (key_of b name ++ colon :: a) d) as [d'|] eqn:Ed.
    + pose proof (del_without _ _ _ Ed) as Hw. split.
      * apply (ns_without _ d d' Hd Hw).
        -- apply bytes_eqb_neq. intros E. apply (no_colon_attr (key_of b name) a). rewrite <- E. repeat constructor. discriminate.
        -- intros p n c Hp _ H _. apply bytes_eqb_eq in H. destruct (no_colon_attr (key_of b name) a). rewrite <- H. apply no_colon_slash, Hp.
        -- intros c a' Hc H _. apply bytes_eqb_eq in H. subst c. destruct (no_colon_attr _ _ Hc).
      * apply step_del_attr; [|apply (view_del_attr d d' name b a); assumption].
        rewrite attr_is, Hk. intros H. apply bt_del_none in H. congruence.
    + apply step_del_attr_none; [simpl; congruence|]. rewrite attr_is, Hk. apply bt_del_none, Ed.
  - apply step_del_attr_file. simpl. unfold kind. rewrite Ex. reflexivity.
Qed.

Lemma pre_own name d k : In k (keys d) -> starts_with k name = true -> pre name d <> [].
Proof.
  intros Hi Hs E. unfold keys in Hi. apply in_map_iff in Hi as [x [<- Hx]].
  assert (H : In x (pre name d)) by (apply filter_In; auto). rewrite E in H. destruct H.
Qed.

Lemma not_both d name : ns_ok d -> tree_name name -> existsb (dirb name) (keys d) && existsb (fileb name) (keys d) = false.
Proof.
  intros Hd Ht. apply not_true_iff_false. rewrite andb_true_iff, !existsb_exists. intros [[k [Hk H1]] [k' [Hk' H2]]].
  apply dirb_iff in H1. apply fileb_iff in H2. apply (ns_one d Hd name); [|exact Ht|].
  - destruct H2 as [->|[a ->]]; [exact Hk'|]. apply ns_owner in Hk'; [exact Hk'|exact Hd|apply Ht].
  - destruct H1 as [->|[a ->]]; [exact Hk|]. change (slash :: colon :: a) with ([slash] ++ colon :: a) in Hk. rewrite app_assoc in Hk.
    apply ns_owner in Hk; [exact Hk|exact Hd|apply no_colon_slash, Ht].
Qed.

Lemma child_of_node name n b : plain_name n -> child_key name (key_of b (name ++ slash :: n)).
Proof.
  intros [Hn Hf]. destruct n as [|c n]; [congruence|]. exists c, (n ++ (if b then [slash] else [])).
  inversion Hf as [|? ? [_ Hc] _]; subst. split; [exact Hc|]. unfold key_of. rewrite <- app_assoc. reflexivity.
Qed.

Lemma ns_unlink d d' name : ns_ok d -> path name -> (forall k, In k (keys d) -> childb name k = false) -> without (ownb name) d' d -> ns_ok d'.
Proof.
  intros Hd Hpath Hno Hw. pose proof (path_tree _ Hpath) as Ht. apply (ns_without _ d d' Hd Hw).
  - apply not_true_iff_false. change [slash] with (key_of true []). rewrite own_node; [|exact Ht|split; [constructor|discriminate]].
    destruct Hpath as (p & n & _ & _ & _ & ->). destruct p; discriminate.
  - intros p n b Hp Hn Hq Hi. exfalso. apply own_iff in Hq as [c [E|[a E]]].
    + destruct c.
      * apply app_inj_tail in E as [-> _]. specialize (Hno _ Hi). rewrite (proj2 (childb_iff _ _) (child_of_node name n b Hn)) in Hno. discriminate.
      * apply (key_of_last name Ht). rewrite <- E. apply ends_last.
    + apply (no_colon_attr (key_of c name) a). rewrite <- E. apply no_colon_slash, Hp.
  - intros b a Hb Hq _. apply own_iff in Hq as [c [->|[a' ->]]]; [|destruct (no_colon_attr _ _ Hb)]. apply own_attr; auto.
Qed.

Lemma unlink_meets d name : ns_ok d -> path name -> kind d name <> None -> meets (Unlink name) d (unlink name d).
Proof.
  intros Hd Hpath Hk. pose proof (path_tree _ Hpath) as Ht. destruct (kind d name) as [b|] eqn:Eb; [|congruence]. clear Hk.
  assert (Hi : In (key_of b name) (keys d)) by (apply kind_iff; assumption).
  assert (Ho : ownb name (key_of b name) = true) by (apply own_node; auto).
  destruct (existsb (childb name) (keys d)) eqn:Ec.
  - rewrite unlink_is by (eapply pre_own; [exact Hi|apply own_starts, Ho]). rewrite Ec. apply step_unlink_occupied.
    apply existsb_exists in Ec as [k [Hk Hc]]. apply childb_iff in Hc. apply (child_node d name k); auto.
  - assert (Hno : forall k, In k (keys d) -> childb name k = false).
    { intros k Hk. apply not_true_iff_false. intros Hc. rewrite <- not_true_iff_false, existsb_exists in Ec. eauto. }
    destruct (unlink_removes name d) as [d' [-> Hw]]; [eauto|exact Hno|apply not_both; assumption|]. split.
    + apply (ns_unlink d d' name); assumption.
    + apply step_unlink; [simpl; congruence| |apply view_unlink; assumption].
      intros [n [Hn Hkn]]. simpl in Hkn. destruct (kind d (name ++ slash :: n)) as [c|] eqn:E; [|congruence].
      apply kind_iff in E; [|exact Hd|apply path_tree, path_app; assumption]. specialize (Hno _ E).
      rewrite (proj2 (childb_iff _ _) (child_of_node name n c Hn)) in Hno. discriminate.
Qed.

Lemma apply_meets d op : ns_ok d -> allowed op d -> meets op d (fs_apply op d).
Proof.
  intros Hd Ha. destruct op; simpl in *.
  - apply mkdir_meets; tauto.
  - apply create_meets; assumption.
  - apply unlink_meets; tauto.
  - apply set_attr_meets; assumption.
  - apply del_attr_meets; assumption.
Qed.

(** ** Listing *)

Definition list_raw (fname str : list Z) : option DirEntry :=
  if Nat.ltb (length fname) (length str) && negb (nth (length fname) str 0 =? colon) then
    let rest := skipn (length fname) str in
    Some (match up_to slash rest with
          | Some n => {| de_name := n; is_dir := true |}
          | None => {| de_name := match up_to colon rest with Some n => n | None => rest end; is_dir := false |}
          end)
  else None.

Lemma list_key_raw fname str last : list_key fname str last =
  match list_raw fname str with Some e => if bytes_eqb (de_name e) last then None else Some e | None => None end.
Proof. unfold list_key, list_raw. destruct (Nat.ltb (length fname) (length str) && negb (nth (length fname) str 0 =? colon)); reflexivity. Qed.

Fixpoint list_all (fname : list Z) (l : list (list Z * list Z)) (last : list Z) : list DirEntry :=
  match l with
  | [] => []
  | (str, _) :: l => match list_key fname str last with
                     | Some e => e :: list_all fname l (de_name e)
                     | None => list_all fname l last
                     end
  end.

Lemma list_scan_all fname l2 : (forall e l, l2 = e :: l -> starts_with (fst e) fname = false) -> forall l1 last, l1 <> [] ->
  Forall (fun e => starts_with (fst e) fname = true) l1 -> list_scan fname (l1 ++ l2) last = list_all fname l1 last.
Proof.
  intros H2. induction l1 as [|[k v] l1 IH]; intros last Hn Hf; [congruence|].
  inversion Hf as [|? ? _ Hf']; subst. simpl.
  assert (Hr : forall last, match l1 ++ l2 with (next, _) :: _ => if starts_with next fname then list_scan fname (l1 ++ l2) last else [] | [] => [] end
    = list_all fname l1 last).
  { intros last'. destruct l1 as [|[k' v'] l1].
    - destruct l2 as [|[k' v'] l2]; [reflexivity|]. pose proof (H2 _ _ eq_refl) as H. cbn [fst] in H. cbn [app]. rewrite H. reflexivity.
    - inversion Hf' as [|? ? Hk' _]; subst. simpl in Hk'. cbn [app]. rewrite Hk'. apply IH; [discriminate|exact Hf']. }
  destruct (list_key fname k last) as [e|]; rewrite Hr; reflexivity.
Qed.

(** Skipping an entry of the name of the one before it loses nothing. *)
Lemma list_all_set fname (G : DirEntry -> Prop) (Hg : forall e e', G e -> G e' -> de_name e = de_name e' -> e = e') l :
  forall e0, G e0 \/ de_name e0 = [] -> (forall k v e, In (k, v) l -> list_raw fname k = Some e -> G e) -> forall e,
  (In e (list_all fname l (de_name e0)) -> exists k v, In (k, v) l /\ list_raw fname k = Some e) /\
  (forall k v, In (k, v) l -> list_raw fname k = Some e -> de_name e <> [] -> In e (list_all fname l (de_name e0)) \/ e = e0).
Proof.
  induction l as [|[k v] l IH]; intros e0 H0 Hl e; simpl; [split; [intros []|intros ? ? []]|].
  assert (Hl' : forall k v e, In (k, v) l -> list_raw fname k = Some e -> G e) by (intros; eapply Hl; [right|]; eassumption).
  rewrite list_key_raw. destruct (list_raw fname k) as [e1|] eqn:E1.
  2:{ destruct (IH e0 H0 Hl' e) as [Ha Hb]. split.
      - intros H. destruct (Ha H) as (k' & v' & Hi & Hr). eauto.
      - intros k' v' [E|Hi] Hr Hne; [injection E as -> ->; congruence|]. eauto. }
  assert (G1 : G e1) by (eapply Hl; [left; reflexivity|exact E1]).
  destruct (bytes_eqb (de_name e1) (de_name e0)) eqn:E.
  - apply bytes_eqb_eq in E. destruct (IH e0 H0 Hl' e) as [Ha Hb]. split.
    + intros H. destruct (Ha H) as (k' & v' & Hi & Hr). eauto.
    + intros k' v' [Ek|Hi] Hr Hne; [|eauto]. injection Ek as -> ->. right. assert (e = e1) as -> by congruence.
      destruct H0 as [G0|H0]; [apply Hg; assumption|congruence].
  - destruct (IH e1 (or_introl G1) Hl' e) as [Ha Hb]. split.
    + intros [<-|H]; [eauto|]. destruct (Ha H) as (k' & v' & Hi & Hr). eauto.
    + intros k' v' [Ek|Hi] Hr Hne; [injection Ek as -> ->; left; left; congruence|].
      destruct (Hb k' v' Hi Hr Hne) as [H| ->]; left; simpl; auto.
Qed.

Lemma up_to_some c n s : Forall (fun b => b <> c) n -> up_to c (n ++ c :: s) = Some n.
Proof.
  induction 1 as [|b n Hb Hn IH]; simpl; [rewrite Z.eqb_refl; reflexivity|]. apply Z.eqb_neq in Hb. rewrite Hb, IH. reflexivity.
Qed.

Lemma up_to_none c n : Forall (fun b => b <> c) n -> up_to c n = None.
Proof. induction 1 as [|b n Hb Hn IH]; simpl; [reflexivity|]. apply Z.eqb_neq in Hb. rewrite Hb, IH. reflexivity. Qed.

(** Names of attributes without slashes. *)
Definition flat d : Prop := forall b a, no_colon b -> In (b ++ colon :: a) (keys d) -> Forall (fun z => z <> slash) a.

Lemma raw_rest fname c a : c <> colon -> list_raw fname (fname ++ c :: a) =
  Some (match up_to slash (c :: a) with
        | Some n => {| de_name := n; is_dir := true |}
        | None => {| de_name := match up_to colon (c :: a) with Some n => n | None => c :: a end; is_dir := false |}
        end).
Proof.
  intros Hc. unfold list_raw. rewrite length_app, app_nth2, Nat.sub_diag, skipn_app_exact by lia. simpl (nth 0 _ _).
  apply Z.eqb_neq in Hc. rewrite Hc. replace (length fname <? length fname + length (c :: a))%nat with true; [reflexivity|].
  symmetry. apply Nat.ltb_lt. simpl. lia.
Qed.

Lemma raw_none fname k : starts_with k fname = true -> (k = fname \/ exists a, k = fname ++ colon :: a) -> list_raw fname k = None.
Proof.
  intros _ [-> |[a ->]]; unfold list_raw; [rewrite Nat.ltb_irrefl; reflexivity|].
  rewrite app_nth2, Nat.sub_diag by lia. simpl. rewrite andb_false_r. reflexivity.
Qed.

Lemma cut_entry n b r fname c a : plain_name n -> r = c :: a -> cut n b r -> (b = false -> forall s, r = n ++ colon :: s -> Forall (fun z => z <> slash) s) ->
  c <> colon -> list_raw fname (fname ++ r) = Some {| de_name := n; is_dir := b |}.
Proof.
  intros Hn -> Hcut Hs Hc. rewrite raw_rest by exact Hc. pose proof (plain_no_slash n Hn) as Hsf. pose proof (plain_no_colon n Hn) as Hcf.
  destruct b; simpl in Hcut.
  - destruct Hcut as [s ->]. rewrite up_to_some by exact Hsf. reflexivity.
  - destruct Hcut as [-> |[s E]].
    + rewrite !up_to_none by assumption. reflexivity.
    + specialize (Hs eq_refl s E). rewrite E, up_to_none, up_to_some; [reflexivity|exact Hcf|].
      apply Forall_app. split; [exact Hsf|]. constructor; [discriminate|exact Hs].
Qed.

Lemma raw_child d name k e : ns_ok d -> flat d -> tree_name name -> In k (keys d) -> starts_with k (name ++ [slash]) = true ->
  list_raw (name ++ [slash]) k = Some e -> plain_name (de_name e) /\ kind d (name ++ slash :: de_name e) = Some (is_dir e).
Proof.
  intros Hd Hflat Hname Hi Hs Hr. apply starts_with_iff in Hs as [r ->].
  destruct r as [|c a]; [rewrite raw_none in Hr; [discriminate|apply starts_app|left; apply app_nil_r]|].
  destruct (Z.eq_dec c colon) as [->|Hc]; [rewrite raw_none in Hr; [discriminate|apply starts_app|eauto]|].
  assert (Hi' : In (name ++ slash :: c :: a) (keys d)) by (rewrite <- app_assoc in Hi; exact Hi).
  destruct (child_cut d name Hd Hname (length a) c a (le_n _) Hc Hi') as (n & b & Hn & Hk & Hcut).
  rewrite (cut_entry n b (c :: a) _ c a Hn eq_refl Hcut) in Hr; [|intros -> s E|exact Hc].
  - injection Hr as <-. simpl. split; [exact Hn|]. apply kind_iff; [exact Hd|apply path_tree, path_app; assumption|exact Hk].
  - apply (Hflat (name ++ slash :: n)); [apply (path_tree (name ++ slash :: n)), path_app; assumption|].
    rewrite <- app_assoc. simpl. rewrite <- E. exact Hi'.
Qed.

Lemma raw_node name n b : plain_name n -> list_raw (name ++ [slash]) (key_of b (name ++ slash :: n)) = Some {| de_name := n; is_dir := b |}.
Proof.
  intros Hn. pose proof Hn as [Hne Hf]. destruct n as [|c n]; [congruence|]. inversion Hf as [|? ? [_ Hc] _]; subst.
  unfold key_of. rewrite <- app_assoc. change (slash :: (c :: n)) with ([slash] ++ c :: n). rewrite <- app_assoc, (app_assoc name).
  apply (cut_entry _ _ _ _ c (n ++ (if b then [slash] else []))); [exact Hn|reflexivity| |intros -> s E|exact Hc].
  - destruct b; simpl; [exists []; reflexivity|left; apply app_nil_r with (l := c :: n)].
  - rewrite app_nil_r in E. destruct (no_colon_attr (c :: n) s). rewrite <- E. apply plain_no_colon, Hn.
Qed.

Lemma dir_with_slash name : tree_name name -> (if ends_with_slash name then name else name ++ [slash]) = name ++ [slash].
Proof. intros [_ H]. unfold ends_with_slash. apply Z.eqb_neq in H. rewrite H. reflexivity. Qed.

(** ** Reachable data bases *)

Lemma initialize_ok d : bt_list d = [] -> ns_ok (initialize d).
Proof.
  intros Hd. assert (Hk : keys d = []) by (unfold keys; rewrite Hd; reflexivity).
  unfold initialize. destruct (found [slash] d) eqn:E; [apply found_iff in E; rewrite Hk in E; destruct E|].
  set (d1 := bt_put [slash] [] d).
  assert (H1 : forall x, In x (keys d1) <-> x = [slash]).
  { intros x. unfold d1. rewrite keys_put, Hk. simpl. tauto. }
  assert (Hok : ns_ok d1).
  { constructor.
    - apply H1. reflexivity.
    - intros k H. left. apply H1, H.
    - intros x H [_ Hx] _. apply H1 in H. subst x. apply Hx. reflexivity.
    - intros k v H _. apply bt_put_spec in H as [H|[_ H]]; [injection H as _ ->; reflexivity|]. rewrite Hd in H. destruct H. }
  change hyperspace_dir with (key_of true ([] ++ slash :: [104; 121; 112; 101; 114; 115; 112; 97; 99; 101])).
  change metadata_file with (key_of false ([47; 104; 121; 112; 101; 114; 115; 112; 97; 99; 101] ++ slash :: [109; 101; 116; 97; 100; 97; 116; 97])).
  assert (Hplain : forall n, n <> [] -> forallb (fun b => negb (b =? slash) && negb (b =? colon)) n = true -> plain_name n).
  { intros n Hn H. split; [exact Hn|]. rewrite forallb_forall in H. apply Forall_forall. intros b Hb. specialize (H b Hb).
    rewrite andb_true_iff, !negb_true_iff, !Z.eqb_neq in H. exact H. }
  assert (Hroot : tree_name []) by (split; [constructor|discriminate]).
  apply ns_put_node.
  - apply ns_put_node; [exact Hok|exact Hroot|apply Hplain; [discriminate|reflexivity]|apply H1; reflexivity|].
    apply kind_none. intros b H. apply H1 in H. destruct b; discriminate H.
  - apply path_tree. apply (path_app []); [exact Hroot|]. apply Hplain; [discriminate|reflexivity].
  - apply Hplain; [discriminate|reflexivity].
  - apply keys_put. left. reflexivity.
  - apply kind_none. intros b H. apply keys_put in H as [H|H]; [destruct b; discriminate H|]. apply H1 in H. destruct b; discriminate H.
Qed.

Inductive reach (d0 : D) : D -> Prop :=
| reach_init : reach d0 (initialize d0)
| reach_op d op d' : reach d0 d -> allowed op d -> fs_apply op d = Ok d' -> reach d0 d'.

(** The data base never holds an orphan: from an empty one, whatever directories
    and files are made and unlinked and whatever attributes are set and deleted, every
    file and directory is in a directory that is there, every attribute belongs to a
    file or directory that is there, nothing is both, and the root is there. *)
Theorem namespace_invariant d0 d : bt_list d0 = [] -> reach d0 d -> ns_ok d.
Proof.
  intros H0 H. induction H as [|d op d' _ IH Ha He]; [apply initialize_ok, H0|].
  pose proof (apply_meets d op IH Ha) as H. rewrite He in H. apply H.
Qed.


(** [unlink] of a name that is not there removes another file: when no key
    starts with the name and the next key of the data base is not longer than it, that
    key is deleted and the call succeeds. *)
Theorem unlink_missing_takes_next d name k v l : (forall x, In x (keys d) -> starts_with x name = false) ->
  bt_range name d = (k, v) :: l -> (length k <= length name)%nat ->
  exists d', unlink name d = Ok d' /\ forall x, In x (keys d') <-> In x (keys d) /\ x <> k.
Proof.
  intros Hno Hr Hl. assert (Hin : forall x, In x (bt_range name d) -> In (fst x) (keys d)).
  { intros x Hx. rewrite bt_range_spec in Hx. apply filter_In in Hx. apply in_map, Hx. }
  assert (Hk : In k (keys d)) by (apply (Hin (k, v)); rewrite Hr; left; reflexivity).
  unfold unlink. rewrite Hr. simpl. unfold unlink_key. rewrite (proj2 (Nat.ltb_ge _ _) Hl). simpl.
  destruct (del_keys_ok [k] d) as [d' [He Hw]]; [repeat constructor; intros []|intros x [<-|[]]; exact Hk|].
  exists d'. split.
  - destruct l as [|[k' v'] l]; [exact He|]. rewrite (Hno k'); [exact He|]. apply (Hin (k', v')). rewrite Hr. right. left. reflexivity.
  - intros x. rewrite (without_keys _ _ _ _ Hw). unfold one_of. simpl. rewrite orb_false_r, bytes_eqb_neq. tauto.
Qed.

(** A listing has what is in the directory: when the names of attributes have no
    slashes, [get_directory_listing] of a directory gives an entry for a name, with
    its kind, exactly when there is a file or directory of that name in it. *)
Theorem listing_exact d name : ns_ok d -> flat d -> tree_name name -> kind d name = Some true ->
  exists l, get_directory_listing name d = Ok l /\
  (forall e, In e l -> plain_name (de_name e)) /\
  forall n b, plain_name n -> In {| de_name := n; is_dir := b |} l <-> kind d (name ++ slash :: n) = Some b.
Proof.
  intros Hd Hflat Hname Hk. apply (kind_iff d name true Hd Hname) in Hk.
  set (f := name ++ [slash]) in *. change (key_of true name) with f in Hk.
  assert (Hset := list_all_set f (fun e => plain_name (de_name e) /\ kind d (name ++ slash :: de_name e) = Some (is_dir e))).
  specialize (Hset ltac:(intros [n b] [n' b'] [_ H1] [_ H2] E; simpl in *; congruence) (pre f d) {| de_name := []; is_dir := false |} (or_intror eq_refl)).
  specialize (Hset ltac:(intros k v e Hi Hr; apply filter_In in Hi as [Hi Hs]; apply (raw_child d name k); try assumption; apply (in_map fst _ _ Hi))).
  exists (list_all f (pre f d) []). assert (Hp : pre f d <> []) by (apply (pre_own f d f Hk); rewrite <- (app_nil_r f) at 1; apply starts_app).
  assert (Hin : forall e, In e (list_all f (pre f d) []) -> plain_name (de_name e) /\ kind d (name ++ slash :: de_name e) = Some (is_dir e)).
  { intros e He. apply Hset in He as (k & v & Hi & Hr). apply filter_In in Hi as [Hi Hs].
    apply (raw_child d name k); try assumption. apply (in_map fst _ _ Hi). }
  split; [|split].
  - unfold get_directory_listing. rewrite dir_with_slash by exact Hname. fold f. rewrite range_is.
    rewrite <- (list_scan_all f (past f d)); [|intros e l H; eapply past_not, H|exact Hp|apply pre_starts].
    pose proof (pre_starts f d) as Hps. destruct (pre f d) as [|[k v] l]; [congruence|]. cbn [app].
    inversion Hps as [|? ? Hk0 _]; subst. simpl in Hk0. rewrite Hk0. reflexivity.
  - intros e He. apply Hin, He.
  - intros n b Hn. split; [intros He; apply Hin in He; apply He|]. intros Hkn.
    apply kind_iff in Hkn; [|exact Hd|apply path_tree, path_app; assumption].
    unfold keys in Hkn. apply in_map_iff in Hkn as [[k v] [Ek Hi]]. simpl in Ek. subst k.
    destruct (proj2 (Hset {| de_name := n; is_dir := b |}) (key_of b (name ++ slash :: n)) v) as [H|H]; [|apply raw_node, Hn|apply Hn|exact H|].
    + apply filter_In. split; [exact Hi|]. unfold key_of. rewrite <- app_assoc. change (slash :: n) with ([slash] ++ n).
      rewrite <- app_assoc, app_assoc. apply starts_app.
    + injection H as -> _. destruct Hn; congruence.
Qed.

End Namespace.

(** ** A data base *)

Module SortedDb.

Fixpoint put_list (k v : list Z) (l : list (list Z * list Z)) : list (list Z * list Z) :=
  match l with
  | [] => [(k, v)]
  | e :: l' => match bytes_cmp k (fst e) with
               | Lt => (k, v) :: l
               | Eq => (k, v) :: l'
               | Gt => e :: put_list k v l'
               end
  end.
Definition get_list (k : list Z) (l : list (list Z * list Z)) : option (list Z) := option_map snd (find (fun e => bytes_eqb (fst e) k) l).
Definition del_list (k : list Z) (l : list (list Z * list Z)) : list (list Z * list Z) := filter (fun e => negb (bytes_eqb (fst e) k)) l.

Lemma put_in k v l x : StronglySorted key_before l -> In x (put_list k v l) <-> x = (k, v) \/ (fst x <> k /\ In x l).
Proof.
  induction 1 as [|e l Hs IH He]; simpl; [split; [intros [<-|[]]; auto|intros [->|[_ []]]; auto]|].
  rewrite Forall_forall in He.
  assert (Hne : forall y, In y l -> bytes_lt k (fst e) \/ k = fst e -> fst y <> k).
  { intros y Hy Hk E. specialize (He y Hy). unfold key_before in He. rewrite E in He. destruct (bytes_lt_irrefl k).
    destruct Hk as [Hk | ->]; [exact (bytes_lt_trans _ _ _ Hk He)|exact He]. }
  destruct (bytes_cmp k (fst e)) eqn:E; simpl.
  - apply bytes_cmp_eq in E. split.
    + intros [<-|H]; [auto|]. right. split; [apply Hne; auto|auto].
    + intros [->|[Hx [<-|H]]]; auto. congruence.
  - split.
    + intros [<-|[<-|H]]; [auto|right; split; [|auto]|right; split; [apply Hne; auto|auto]].
      intros E'. rewrite E' in E. destruct (bytes_lt_irrefl k E).
    + intros [->|[_ H]]; auto.
  - apply bytes_cmp_gt in E. rewrite IH. split.
    + intros [<-|[->|[Hx H]]]; auto. right. split; [|auto]. intros E'. rewrite E' in E. destruct (bytes_lt_irrefl k E).
    + intros [->|[Hx [<-|H]]]; auto.
Qed.

Lemma put_sorted k v l : StronglySorted key_before l -> StronglySorted key_before (put_list k v l).
Proof.
  induction 1 as [|e l Hs IH He]; simpl; [repeat constructor|].
  pose proof He as He'. rewrite Forall_forall in He'. destruct (bytes_cmp k (fst e)) eqn:E.
  - apply bytes_cmp_eq in E. constructor; [exact Hs|]. subst k. exact He.
  - constructor; [constructor; assumption|]. constructor; [exact E|]. apply Forall_forall. intros y Hy.
    exact (bytes_lt_trans _ _ _ E (He' y Hy)).
  - apply bytes_cmp_gt in E. constructor; [exact IH|]. apply Forall_forall. intros y Hy.
    apply put_in in Hy as [->|[_ Hy]]; [exact E|apply He', Hy|exact Hs].
Qed.

Lemma get_in_list k v l : StronglySorted key_before l -> get_list k l = Some v <-> In (k, v) l.
Proof.
  unfold get_list. induction 1 as [|e l Hs IH He]; simpl; [split; [discriminate|intros []]|].
  destruct (bytes_eqb (fst e) k) eqn:E.
  - apply bytes_eqb_eq in E. destruct e as [k' v']. simpl in *. subst k'. split; [intros H; injection H as ->; auto|].
    intros [H|H]; [injection H as ->; reflexivity|]. rewrite Forall_forall in He. specialize (He _ H). destruct (bytes_lt_irrefl _ He).
  - apply bytes_eqb_neq in E. rewrite IH. split; [auto|]. intros [H|H]; [|exact H]. subst e. simpl in E. congruence.
Qed.

Definition db : Type := { l : list (list Z * list Z) | StronglySorted key_before l }.

#[export, refine] Instance btree : Btree db := {
  bt_list d := proj1_sig d;
  bt_get k d := get_list k (proj1_sig d);
  bt_put k v d := exist _ (put_list k v (proj1_sig d)) (put_sorted k v _ (proj2_sig d));
  bt_del k d := match get_list k (proj1_sig d) with
                | Some _ => Some (exist _ (del_list k (proj1_sig d)) (filter_sorted _ _ (proj2_sig d)))
                | None => None
                end;
  bt_range k d := filter (fun e => bytes_leb k (fst e)) (proj1_sig d) }.
Proof.
  - intros d. exact (proj2_sig d).
  - intros k v d. apply get_in_list, (proj2_sig d).
  - intros k v d x. apply put_in, (proj2_sig d).
  - intros k d. destruct (get_list k (proj1_sig d)); split; congruence.
  - intros k d d' x H. destruct (get_list k (proj1_sig d)); [|discriminate]. injection H as <-. simpl.
    unfold del_list. rewrite filter_In, negb_true_iff, bytes_eqb_neq. tauto.
  - reflexivity.
Defined.

Definition empty : db := exist _ [] (SSorted_nil _).

(** "/a", "/b" and "/hyperspace" *)
Definition name_a : list Z := [47; 97].
Definition name_b : list Z := [47; 98].
Definition name_hyperspace : list Z := [47; 104; 121; 112; 101; 114; 115; 112; 97; 99; 101].

Lemma plain_dec n : n <> [] -> forallb (fun b => negb (b =? slash) && negb (b =? colon)) n = true -> plain_name n.
Proof.
  intros Hn H. split; [exact Hn|]. rewrite forallb_forall in H. apply Forall_forall. intros b Hb. specialize (H b Hb).
  rewrite andb_true_iff, !negb_true_iff, !Z.eqb_neq in H. exact H.
Qed.

Lemma path_a : path name_a.
Proof. apply (path_app [] [97]); [split; [constructor|discriminate]|]. apply plain_dec; [discriminate|reflexivity]. Qed.

Definition made : db := match create name_a false (initialize empty) with Ok d => d | _ => empty end.

Lemma namespace_invariant_witness : ns_ok made.
Proof.
  apply (namespace_invariant empty); [reflexivity|].
  apply (reach_op _ (initialize empty) (Create name_a false)); [constructor|exact path_a|reflexivity].
Defined.


(** Unlinking "/a" where there is only "/b" removes "/b". *)
Definition only_b : db := bt_put name_b [] (initialize empty).
Lemma unlink_missing_takes_next_witness : exists d', unlink name_a only_b = Ok d' /\ In name_b (keys only_b) /\ ~ In name_b (keys d').
Proof.
  destruct (unlink_missing_takes_next only_b name_a name_b [] [(hyperspace_dir, []); (metadata_file, [])]) as [d' [H Hk]].
  - intros x Hx. vm_compute in Hx. repeat (destruct Hx as [<-|Hx]; [reflexivity|]). destruct Hx.
  - reflexivity.
  - simpl. lia.
  - exists d'. split; [exact H|]. split; [vm_compute; auto|]. intros Hb. apply Hk in Hb. destruct Hb as [_ Hb]. apply Hb. reflexivity.
Defined.

Lemma flat_initial : flat (initialize empty).
Proof.
  intros b a _ Hi. exfalso. assert (H : In colon (b ++ colon :: a)) by (apply in_or_app; right; left; reflexivity).
  revert H Hi. generalize (b ++ colon :: a). intros x H Hi. vm_compute in Hi.
  repeat (destruct Hi as [<-|Hi]; [vm_compute in H; intuition discriminate|]). destruct Hi.
Qed.

Lemma listing_exact_witness : exists l, get_directory_listing [] (initialize empty) = Ok l /\ In {| de_name := [104; 121; 112; 101; 114; 115; 112; 97; 99; 101]; is_dir := true |} l.
Proof.
  pose proof (initialize_ok empty eq_refl) as Hok.
  destruct (listing_exact (initialize empty) [] Hok flat_initial) as [l [H [_ Hl]]].
  - split; [constructor|discriminate].
  - reflexivity.
  - exists l. split; [exact H|]. apply Hl; [apply plain_dec; [discriminate|reflexivity]|reflexivity].
Defined.

End SortedDb.
