(* ===== verification/HyperMaster.v ===== *)
(** * The lock service

    [Hyperspace/Master.cc] with [NodeData.h], [HandleData.h], [SessionData.h],
    [Event.h], [Notification.h] and the message handler of
    [ServerKeepaliveHandler.cc]: sessions with leases, handles to the nodes of the
    namespace of [BdbFs.v], locks and notifications.

    Nodes, handles and sessions are objects behind pointers: the state has a store
    of each, and the containers of the code hold addresses (handles and sessions
    have their ids as addresses; a destroyed one stays in the store).  An operation
    runs in the monad [act]: it may answer with an error ([Throw]) and keep what it
    changed, or stop the process at an [assert] or in a deadlock ([Fault]).
    Operations are atomic; waiting for the notified clients is left out, and so
    are the datagrams.  The times the clock gives are arguments.  A hash map is
    iterated over in the order of insertion.  The numbers of sessions, handles,
    events and lock generations grow by one an operation and are not reduced to
    their 64 bits. *)
Set Warnings "-notation-incompatible-prefix,-clear-no-such-hyp".
From S2P Require Import Prelude Errors Serialization BdbFs.
From stdpp Require Import base gmap list.
From Stdlib Require Import ZArith Lia.
Open Scope Z_scope.
Import BerkeleyDbFilesystem.

(** ** Constants of [HandleCallback.h] and [Session.h] *)

Definition OPEN_FLAG_READ : Z := 0x01.
Definition OPEN_FLAG_WRITE : Z := 0x02.
Definition OPEN_FLAG_LOCK : Z := 0x04.
Definition OPEN_FLAG_CREATE : Z := 0x08.
Definition OPEN_FLAG_EXCL : Z := 0x10.
Definition OPEN_FLAG_TEMP : Z := 0x20.
Definition OPEN_FLAG_LOCK_SHARED : Z := 0x44.
Definition OPEN_FLAG_LOCK_EXCLUSIVE : Z := 0x84.

Definition LOCK_MODE_SHARED : Z := 1.
Definition LOCK_MODE_EXCLUSIVE : Z := 2.

Definition LOCK_STATUS_GRANTED : Z := 1.
Definition LOCK_STATUS_BUSY : Z := 2.
Definition LOCK_STATUS_PENDING : Z := 3.

Definition EVENT_MASK_ATTR_SET : Z := 0x01.
Definition EVENT_MASK_ATTR_DEL : Z := 0x02.
Definition EVENT_MASK_CHILD_NODE_ADDED : Z := 0x04.
Definition EVENT_MASK_CHILD_NODE_REMOVED : Z := 0x08.
Definition EVENT_MASK_LOCK_ACQUIRED : Z := 0x10.
Definition EVENT_MASK_LOCK_RELEASED : Z := 0x20.
Definition EVENT_MASK_LOCK_GRANTED : Z := 0x40.

Definition has (flags bits : Z) : bool := negb (Z.land flags bits =? 0).
Definition has_all (flags bits : Z) : bool := Z.land flags bits =? bits.

(** ** Objects *)

Inductive EventKind :=
| EventNamed (mask : Z) (name : list Z)
| EventLockAcquired (mode : Z)
| EventLockReleased
| EventLockGranted (mode generation : Z).

Definition get_mask (e : EventKind) : Z :=
  match e with
  | EventNamed mask _ => mask
  | EventLockAcquired _ => EVENT_MASK_LOCK_ACQUIRED
  | EventLockReleased => EVENT_MASK_LOCK_RELEASED
  | EventLockGranted _ _ => EVENT_MASK_LOCK_GRANTED
  end.

Record Event := { ev_id : Z; ev_kind : EventKind }.
Record Notification := { nt_handle : Z; nt_event : Event }.

Record LockRequest := { lr_handle : Z; lr_mode : Z }.

Record NodeData := {
  n_name : list Z; ephemeral : bool; handle_map : list Z; cur_lock_mode : Z; lock_generation : Z;
  shared_lock_handles : list Z; exclusive_lock_handle : Z; pending_lock_reqs : list LockRequest }.

Definition new_node (name : list Z) : NodeData :=
  {| n_name := name; ephemeral := false; handle_map := []; cur_lock_mode := 0; lock_generation := 0;
     shared_lock_handles := []; exclusive_lock_handle := 0; pending_lock_reqs := [] |}.

Record HandleData := { h_id : Z; open_flags : Z; event_mask : Z; h_node : Z; h_session : Z; locked : bool }.

(** [s_held]: whether the mutex of the session is locked by the thread that runs. *)
Record SessionData := {
  s_id : Z; expired : bool; expire_time : Z; s_handles : list Z; notifications : list Notification; s_held : bool }.

(** [std::set<uint64_t>] *)
Fixpoint set_insert (x : Z) (l : list Z) : list Z :=
  match l with
  | [] => [x]
  | y :: l' => if x <? y then x :: l else if x =? y then l else y :: set_insert x l'
  end.
Definition set_erase (x : Z) (l : list Z) : list Z := List.filter (fun y => negb (y =? x)) l.
Definition set_has (x : Z) (l : list Z) : bool := existsb (Z.eqb x) l.

(** Fields of a node. *)
Definition nd_ephemeral (n : NodeData) : NodeData :=
  {| n_name := n_name n; ephemeral := true; handle_map := handle_map n; cur_lock_mode := cur_lock_mode n; lock_generation := lock_generation n;
     shared_lock_handles := shared_lock_handles n; exclusive_lock_handle := exclusive_lock_handle n; pending_lock_reqs := pending_lock_reqs n |}.
Definition nd_handles (f : list Z -> list Z) (n : NodeData) : NodeData :=
  {| n_name := n_name n; ephemeral := ephemeral n; handle_map := f (handle_map n); cur_lock_mode := cur_lock_mode n; lock_generation := lock_generation n;
     shared_lock_handles := shared_lock_handles n; exclusive_lock_handle := exclusive_lock_handle n; pending_lock_reqs := pending_lock_reqs n |}.
Definition nd_mode (m : Z) (n : NodeData) : NodeData :=
  {| n_name := n_name n; ephemeral := ephemeral n; handle_map := handle_map n; cur_lock_mode := m; lock_generation := lock_generation n;
     shared_lock_handles := shared_lock_handles n; exclusive_lock_handle := exclusive_lock_handle n; pending_lock_reqs := pending_lock_reqs n |}.
Definition nd_generation (g : Z) (n : NodeData) : NodeData :=
  {| n_name := n_name n; ephemeral := ephemeral n; handle_map := handle_map n; cur_lock_mode := cur_lock_mode n; lock_generation := g;
     shared_lock_handles := shared_lock_handles n; exclusive_lock_handle := exclusive_lock_handle n; pending_lock_reqs := pending_lock_reqs n |}.
Definition nd_shared (f : list Z -> list Z) (n : NodeData) : NodeData :=
  {| n_name := n_name n; ephemeral := ephemeral n; handle_map := handle_map n; cur_lock_mode := cur_lock_mode n; lock_generation := lock_generation n;
     shared_lock_handles := f (shared_lock_handles n); exclusive_lock_handle := exclusive_lock_handle n; pending_lock_reqs := pending_lock_reqs n |}.
Definition nd_exclusive (h : Z) (n : NodeData) : NodeData :=
  {| n_name := n_name n; ephemeral := ephemeral n; handle_map := handle_map n; cur_lock_mode := cur_lock_mode n; lock_generation := lock_generation n;
     shared_lock_handles := shared_lock_handles n; exclusive_lock_handle := h; pending_lock_reqs := pending_lock_reqs n |}.
Definition nd_pending (f : list LockRequest -> list LockRequest) (n : NodeData) : NodeData :=
  {| n_name := n_name n; ephemeral := ephemeral n; handle_map := handle_map n; cur_lock_mode := cur_lock_mode n; lock_generation := lock_generation n;
     shared_lock_handles := shared_lock_handles n; exclusive_lock_handle := exclusive_lock_handle n; pending_lock_reqs := f (pending_lock_reqs n) |}.

Definition hd_locked (b : bool) (h : HandleData) : HandleData :=
  {| h_id := h_id h; open_flags := open_flags h; event_mask := event_mask h; h_node := h_node h; h_session := h_session h; locked := b |}.

Definition sd_notifications (f : list Notification -> list Notification) (s : SessionData) : SessionData :=
  {| s_id := s_id s; expired := expired s; expire_time := expire_time s; s_handles := s_handles s; notifications := f (notifications s); s_held := s_held s |}.
Definition sd_handles (f : list Z -> list Z) (s : SessionData) : SessionData :=
  {| s_id := s_id s; expired := expired s; expire_time := expire_time s; s_handles := f (s_handles s); notifications := notifications s; s_held := s_held s |}.
Definition sd_time (t : Z) (s : SessionData) : SessionData :=
  {| s_id := s_id s; expired := expired s; expire_time := t; s_handles := s_handles s; notifications := notifications s; s_held := s_held s |}.
Definition sd_held (b : bool) (s : SessionData) : SessionData :=
  {| s_id := s_id s; expired := expired s; expire_time := expire_time s; s_handles := s_handles s; notifications := notifications s; s_held := b |}.

(** [SessionData::expire]: the notifications are dropped with it. *)
Definition expire (s : SessionData) : SessionData :=
  if expired s then s
  else {| s_id := s_id s; expired := true; expire_time := expire_time s; s_handles := s_handles s; notifications := []; s_held := s_held s |}.

Definition is_expired (now : Z) (s : SessionData) : bool := expire_time s <? now.

(** Times are in nanoseconds, lease intervals in seconds. *)
Definition lease_end (now lease : Z) : Z := now + lease * 1000000000.

Definition new_session (now lease sid : Z) : SessionData :=
  {| s_id := sid; expired := false; expire_time := lease_end now lease; s_handles := []; notifications := []; s_held := false |}.

(** [renew_lease]: too late, and the session is expired. *)
Definition renew_lease (now lease : Z) (s : SessionData) : bool * SessionData :=
  if expire_time s <? now then
    (false, {| s_id := s_id s; expired := true; expire_time := expire_time s; s_handles := s_handles s; notifications := []; s_held := s_held s |})
  else (true, sd_time (lease_end now lease) s).

Definition purge_notifications (event_id : Z) (s : SessionData) : SessionData :=
  sd_notifications (List.filter (fun n => negb (ev_id (nt_event n) <=? event_id))) s.

(** ** The master *)

Record Master (D : Type) := {
  m_bdb_fs : D;
  m_lease_interval : Z;
  m_generation : Z;
  nodes : gmap Z NodeData; next_node : Z;
  m_node_map : gmap (list Z) Z;
  handles : gmap Z HandleData;
  m_handle_map : list Z;
  m_next_handle_number : Z;
  sessions : gmap Z SessionData;
  m_session_map : list Z;
  m_session_heap : list Z;
  m_next_session_id : Z;
  ms_next_event_id : Z }.
Arguments m_bdb_fs {D}. Arguments m_lease_interval {D}. Arguments m_generation {D}. Arguments nodes {D}. Arguments next_node {D}.
Arguments m_node_map {D}. Arguments handles {D}. Arguments m_handle_map {D}. Arguments m_next_handle_number {D}. Arguments sessions {D}.
Arguments m_session_map {D}. Arguments m_session_heap {D}. Arguments m_next_session_id {D}. Arguments ms_next_event_id {D}.

Section Setters.
Context {D : Type}.
Implicit Types st : Master D.

Definition set_db (d : D) st : Master D :=
  {| m_bdb_fs := d; m_lease_interval := m_lease_interval st; m_generation := m_generation st; nodes := nodes st; next_node := next_node st;
     m_node_map := m_node_map st; handles := handles st; m_handle_map := m_handle_map st; m_next_handle_number := m_next_handle_number st;
     sessions := sessions st; m_session_map := m_session_map st; m_session_heap := m_session_heap st; m_next_session_id := m_next_session_id st;
     ms_next_event_id := ms_next_event_id st |}.
Definition set_nodes (ns : gmap Z NodeData) (next : Z) (nm : gmap (list Z) Z) st : Master D :=
  {| m_bdb_fs := m_bdb_fs st; m_lease_interval := m_lease_interval st; m_generation := m_generation st; nodes := ns; next_node := next;
     m_node_map := nm; handles := handles st; m_handle_map := m_handle_map st; m_next_handle_number := m_next_handle_number st;
     sessions := sessions st; m_session_map := m_session_map st; m_session_heap := m_session_heap st; m_next_session_id := m_next_session_id st;
     ms_next_event_id := ms_next_event_id st |}.
Definition set_handles (hs : gmap Z HandleData) (hm : list Z) (next : Z) st : Master D :=
  {| m_bdb_fs := m_bdb_fs st; m_lease_interval := m_lease_interval st; m_generation := m_generation st; nodes := nodes st; next_node := next_node st;
     m_node_map := m_node_map st; handles := hs; m_handle_map := hm; m_next_handle_number := next;
     sessions := sessions st; m_session_map := m_session_map st; m_session_heap := m_session_heap st; m_next_session_id := m_next_session_id st;
     ms_next_event_id := ms_next_event_id st |}.
Definition set_sessions (ss : gmap Z SessionData) (sm heap : list Z) (next : Z) st : Master D :=
  {| m_bdb_fs := m_bdb_fs st; m_lease_interval := m_lease_interval st; m_generation := m_generation st; nodes := nodes st; next_node := next_node st;
     m_node_map := m_node_map st; handles := handles st; m_handle_map := m_handle_map st; m_next_handle_number := m_next_handle_number st;
     sessions := ss; m_session_map := sm; m_session_heap := heap; m_next_session_id := next; ms_next_event_id := ms_next_event_id st |}.
Definition set_event_id (next : Z) st : Master D :=
  {| m_bdb_fs := m_bdb_fs st; m_lease_interval := m_lease_interval st; m_generation := m_generation st; nodes := nodes st; next_node := next_node st;
     m_node_map := m_node_map st; handles := handles st; m_handle_map := m_handle_map st; m_next_handle_number := m_next_handle_number st;
     sessions := sessions st; m_session_map := m_session_map st; m_session_heap := m_session_heap st; m_next_session_id := m_next_session_id st;
     ms_next_event_id := next |}.
Definition set_generation (g : Z) st : Master D :=
  {| m_bdb_fs := m_bdb_fs st; m_lease_interval := m_lease_interval st; m_generation := g; nodes := nodes st; next_node := next_node st;
     m_node_map := m_node_map st; handles := handles st; m_handle_map := m_handle_map st; m_next_handle_number := m_next_handle_number st;
     sessions := sessions st; m_session_map := m_session_map st; m_session_heap := m_session_heap st; m_next_session_id := m_next_session_id st;
     ms_next_event_id := ms_next_event_id st |}.
End Setters.

(** ** Operations with an error and a state *)

Definition act (D A : Type) : Type := Master D -> result A * Master D.
Definition ret {D A} (x : A) : act D A := fun st => (Ok x, st).
Definition throw {D A} (e : Code) : act D A := fun st => (Throw e, st).
Definition fault {D A} : act D A := fun st => (Fault, st).
Definition bind_act {D A B} (m : act D A) (f : A -> act D B) : act D B :=
  fun st => match m st with
            | (Ok x, st) => f x st
            | (Throw e, st) => (Throw e, st)
            | (Fault, st) => (Fault, st)
            end.

Declare Scope act_scope.
Delimit Scope act_scope with act.
Notation "x <-- m ;; f" := (bind_act m (fun x => f))
  (at level 100, m at next level, f at level 200, right associativity) : act_scope.
Notation "' p <-- m ;; f" := (bind_act m (fun p => f))
  (at level 100, p strict pattern, m at next level, right associativity) : act_scope.
Notation "m ;;; f" := (bind_act m (fun _ => f)) (at level 100, f at level 200, right associativity) : act_scope.
Open Scope act_scope.

Definition get {D A} (f : Master D -> A) : act D A := fun st => (Ok (f st), st).
Definition modify {D} (f : Master D -> Master D) : act D unit := fun st => (Ok tt, f st).
Definition deref {D A} (o : option A) : act D A := match o with Some x => ret x | None => fault end.

Fixpoint for_each {D A} (l : list A) (f : A -> act D unit) : act D unit :=
  match l with
  | [] => ret tt
  | x :: l => f x ;;; for_each l f
  end.

Section Code.

Context {D : Type} {BT : Btree D}.
Abbreviation act := (act D).

(** What is left in an [int] that was not set. *)
Variable uninitialized : Code.

Definition get_node_data (p : Z) : act NodeData := fun st => deref (nodes st !! p) st.
Definition upd_node (p : Z) (f : NodeData -> NodeData) : act unit :=
  modify (fun st => set_nodes (alter f p (nodes st)) (next_node st) (m_node_map st) st).
Definition handle_object (h : Z) : act HandleData := fun st => deref (handles st !! h) st.
Definition upd_handle (h : Z) (f : HandleData -> HandleData) : act unit :=
  modify (fun st => set_handles (alter f h (handles st)) (m_handle_map st) (m_next_handle_number st) st).
Definition session_object (s : Z) : act SessionData := fun st => deref (sessions st !! s) st.
Definition upd_session (s : Z) (f : SessionData -> SessionData) : act unit :=
  modify (fun st => set_sessions (alter f s (sessions st)) (m_session_map st) (m_session_heap st) (m_next_session_id st) st).

Definition db_read {A} (f : D -> result A) : act A := fun st => (f (m_bdb_fs st), st).
Definition db_write (f : D -> result D) : act unit := fun st =>
  match f (m_bdb_fs st) with
  | Ok d => (Ok tt, set_db d st)
  | Throw e => (Throw e, st)
  | Fault => (Fault, st)
  end.

(** [HT_BDBTXN_BEGIN] ... [HT_BDBTXN_END_CB]: an exception aborts the transaction
    and becomes the answer; what was changed in memory stays. *)
Definition transaction {A} (body : act A) : act A := fun st =>
  match body st with
  | (Throw e, st') => (Throw e, set_db (m_bdb_fs st) st')
  | r => r
  end.

(** ** Sessions *)

Definition create_session (now : Z) : act Z := fun st =>
  let sid := m_next_session_id st in
  (Ok sid, set_sessions (<[sid := new_session now (m_lease_interval st) sid]> (sessions st)) (m_session_map st ++ [sid])
             (m_session_heap st ++ [sid]) (sid + 1) st).

Definition has_session (sid : Z) : act bool := get (fun st => set_has sid (m_session_map st)).
Definition erase_session (sid : Z) : act unit :=
  modify (fun st => set_sessions (sessions st) (set_erase sid (m_session_map st)) (m_session_heap st) (m_next_session_id st) st).

Definition destroy_session (now sid : Z) : act unit :=
  b <-- has_session sid ;;
  if negb b then ret tt
  else
    erase_session sid ;;;
    upd_session sid expire ;;;
    upd_session sid (sd_time now).

Definition renew_session_lease (now sid : Z) : act Code :=
  b <-- has_session sid ;;
  if negb b then ret HYPERSPACE_EXPIRED_SESSION
  else
    s <-- session_object sid ;;
    lease <-- get m_lease_interval ;;
    let '(alive, s') := renew_lease now lease s in
    upd_session sid (fun _ => s') ;;;
    ret (if alive then OK_ else HYPERSPACE_EXPIRED_SESSION).

(** [make_heap] puts a session that expires first at the front, [pop_heap] takes it
    out. *)
Fixpoint first_to_expire (ss : gmap Z SessionData) (best : Z) (l : list Z) : Z :=
  match l with
  | [] => best
  | s :: l =>
      let earlier := match ss !! s, ss !! best with Some a, Some b => expire_time a <? expire_time b | _, _ => false end in
      first_to_expire ss (if earlier then s else best) l
  end.
Fixpoint remove_one (x : Z) (l : list Z) : list Z :=
  match l with
  | [] => []
  | y :: l => if y =? x then l else y :: remove_one x l
  end.

Definition next_expired_session (now : Z) : act (option Z) := fun st =>
  match m_session_heap st with
  | [] => (Ok None, st)
  | s :: l =>
      let sid := first_to_expire (sessions st) s l in
      (sd <-- session_object sid ;;
       if is_expired now sd then
         modify (fun st => set_sessions (sessions st) (set_erase sid (m_session_map st)) (remove_one sid (m_session_heap st)) (m_next_session_id st) st) ;;;
         ret (Some sid)
       else ret None) st
  end.

(** ** Events *)

Definition new_event (k : EventKind) : act Event := fun st =>
  (Ok {| ev_id := ms_next_event_id st; ev_kind := k |}, set_event_id (ms_next_event_id st + 1) st).

(** [add_notification] locks the session: in a thread that has it locked this is a
    deadlock. *)
Definition add_notification (sid : Z) (n : Notification) : act unit :=
  s <-- session_object sid ;;
  if s_held s then fault
  else if expired s then ret tt
  else upd_session sid (sd_notifications (fun l => l ++ [n])).

Definition deliver_event_notifications (p : Z) (e : Event) : act unit :=
  n <-- get_node_data p ;;
  for_each (handle_map n) (fun hid =>
    h <-- handle_object hid ;;
    if has (event_mask h) (get_mask (ev_kind e)) then add_notification (h_session h) {| nt_handle := hid; nt_event := e |}
    else ret tt).

Definition deliver_event_notification (hid : Z) (e : Event) : act unit :=
  h <-- handle_object hid ;;
  add_notification (h_session h) {| nt_handle := h_id h; nt_event := e |}.

(** ** Handles and nodes *)

Definition create_handle : act Z := fun st =>
  let h := m_next_handle_number st + 1 in
  (Ok h, set_handles (<[h := {| h_id := h; open_flags := 0; event_mask := 0; h_node := 0; h_session := 0; locked := false |}]> (handles st))
           (m_handle_map st ++ [h]) h st).

Definition has_handle (h : Z) : act bool := get (fun st => set_has h (m_handle_map st)).
Definition erase_handle (h : Z) : act unit :=
  modify (fun st => set_handles (handles st) (set_erase h (m_handle_map st)) (m_next_handle_number st) st).

Definition add_node (name : list Z) : act Z := fun st =>
  let p := next_node st in
  (Ok p, set_nodes (<[p := new_node name]> (nodes st)) (p + 1) (<[name := p]> (m_node_map st)) st).

Definition get_node (name : list Z) : act Z := fun st =>
  match m_node_map st !! name with Some p => (Ok p, st) | None => add_node name st end.

(** [find_parent_node]: the last slash is searched for with [rfind], which gives
    [npos] when there is none; that is greater than zero. *)
Definition find_parent_node (name : list Z) : act (Z * list Z) :=
  match dir_part name with
  | [] => p <-- get_node name ;; ret (p, name)
  | [_] => fun st => (p <-- deref (m_node_map st !! [slash]) ;; ret (p, skipn 1 name)) st
  | d => p <-- get_node (removelast d) ;; ret (p, skipn (length d) name)
  end.

(** ** Locks *)

(** "lock.generation" *)
Definition lock_generation_attr : list Z := [108; 111; 99; 107; 46; 103; 101; 110; 101; 114; 97; 116; 105; 111; 110].

Definition lock_handle (hid mode : Z) : act unit :=
  h <-- handle_object hid ;;
  (if mode =? LOCK_MODE_SHARED then upd_node (h_node h) (nd_shared (set_insert (h_id h)))
   else if mode =? LOCK_MODE_EXCLUSIVE then upd_node (h_node h) (nd_exclusive (h_id h))
   else fault) ;;;
  upd_handle hid (hd_locked true).

Definition lock_handle_with_notification (hid mode : Z) : act unit :=
  lock_handle hid mode ;;;
  h <-- handle_object hid ;;
  n <-- get_node_data (h_node h) ;;
  e <-- new_event (EventLockGranted mode (lock_generation n)) ;;
  deliver_event_notification hid e.

(** The requests at the front of the queue that a released lock goes to, and the
    rest of the queue. *)
Fixpoint shared_requests (l : list LockRequest) : list Z * list LockRequest :=
  match l with
  | r :: l' => if lr_mode r =? LOCK_MODE_SHARED then let '(hs, rest) := shared_requests l' in (lr_handle r :: hs, rest) else ([], l)
  | [] => ([], [])
  end.
Definition next_requests (l : list LockRequest) : Z * list Z * list LockRequest :=
  match l with
  | [] => (0, [], [])
  | r :: l' =>
      if lr_mode r =? LOCK_MODE_EXCLUSIVE then (LOCK_MODE_EXCLUSIVE, [lr_handle r], l')
      else let '(hs, rest) := shared_requests l in (LOCK_MODE_SHARED, hs, rest)
  end.

(** The end of [release_lock]: the lock goes to the requests at the front of the
    queue whose handles are still there. *)
Definition grant_next (hid p : Z) : act unit :=
  n <-- get_node_data p ;;
  match pending_lock_reqs n with
  | [] => ret tt
  | _ =>
      let '(next_mode, hs, rest) := next_requests (pending_lock_reqs n) in
      next_lock_handles <-- get (fun st => List.filter (fun h => set_has h (m_handle_map st)) hs) ;;
      upd_node p (nd_pending (fun _ => rest)) ;;;
      match next_lock_handles with
      | [] => ret tt
      | _ =>
          let generation := lock_generation n + 1 in
          upd_node p (nd_generation generation) ;;;
          fun st =>
            match transaction (db_write (set_xattr_i64 (n_name n) lock_generation_attr generation)) st with
            | (Ok _, st) =>
                (upd_node p (nd_mode next_mode) ;;;
                 for_each next_lock_handles (fun h => if hid =? h then fault else lock_handle_with_notification h next_mode) ;;;
                 e <-- new_event (EventLockAcquired next_mode) ;;
                 deliver_event_notifications p e) st
            | (Throw _, st) => (Ok tt, st)
            | (Fault, st) => (Fault, st)
            end
      end
  end.

Definition release_lock (hid : Z) : act unit :=
  h <-- handle_object hid ;;
  if negb (locked h) then ret tt
  else
    let p := h_node h in
    n <-- get_node_data p ;;
    (if negb (exclusive_lock_handle n =? 0) then
       if h_id h =? exclusive_lock_handle n then upd_node p (nd_exclusive 0) else fault
     else if set_has (h_id h) (shared_lock_handles n) then upd_node p (nd_shared (set_erase (h_id h)))
     else throw FAILED_EXPECTATION) ;;;
    upd_handle hid (hd_locked false) ;;;
    n <-- get_node_data p ;;
    (match shared_lock_handles n with
     | [] => e <-- new_event EventLockReleased ;; deliver_event_notifications p e
     | _ => ret tt
     end) ;;;
    upd_node p (nd_mode 0) ;;;
    grant_next hid p.

(** The end of [destroy_handle], when it was the last handle of the node: an ephemeral
    file goes.  [None] is [true], an error is [false] with what is left in
    [*errorp]. *)
Definition remove_ephemeral (p : Z) : act (option Code) :=
  n <-- get_node_data p ;;
  if ephemeral n then
    '(parent, child) <-- find_parent_node (n_name n) ;;
    e <-- new_event (EventNamed EVENT_MASK_CHILD_NODE_REMOVED child) ;;
    deliver_event_notifications parent e ;;;
    fun st =>
      match transaction (db_write (unlink (n_name n))) st with
      | (Ok _, st) => (Ok None, set_nodes (nodes st) (next_node st) (delete (n_name n) (m_node_map st)) st)
      | (Throw _, st) => (Ok (Some uninitialized), st)
      | (Fault, st) => (Fault, st)
      end
  else ret None.

Definition destroy_handle (hid : Z) : act (option Code) :=
  b <-- has_handle hid ;;
  if negb b then ret (Some HYPERSPACE_INVALID_HANDLE)
  else
    erase_handle hid ;;;
    h <-- handle_object hid ;;
    let p := h_node h in
    upd_node p (nd_handles (set_erase (h_id h))) ;;;
    n <-- get_node_data p ;;
    let refcount := length (handle_map n) in
    release_lock hid ;;;
    match refcount with
    | S _ => ret None
    | O => remove_ephemeral p
    end.

(** ** Expired sessions *)

Definition expire_session (sid : Z) : act unit :=
  upd_session sid expire ;;;
  upd_session sid (sd_held true) ;;;
  s <-- session_object sid ;;
  for_each (s_handles s) (fun h => destroy_handle h ;;; ret tt) ;;;
  upd_session sid (sd_handles (fun _ => [])) ;;;
  upd_session sid (sd_held false).

(** [now i] is what the clock gives in round [i]; the result is [false] when there
    was no fuel for another round. *)
Fixpoint remove_expired_loop (fuel : nat) (now : nat -> Z) (i : nat) : act bool :=
  match fuel with
  | O => ret false
  | S fuel =>
      o <-- next_expired_session (now i) ;;
      match o with
      | None => ret true
      | Some sid => expire_session sid ;;; remove_expired_loop fuel now (S i)
      end
  end.
Definition remove_expired_sessions (now : nat -> Z) : act bool := fun st =>
  remove_expired_loop (S (length (m_session_heap st))) now 0 st.

(** [ServerKeepaliveHandler::handle] of a keepalive message: the session and the
    error that are sent back, if anything is. *)
Definition keepalive (now sid last_known_event : Z) (shutdown : bool) : act (option (Z * Code)) :=
  if shutdown then destroy_session now sid ;;; ret None
  else
    '(sid, error) <-- (if sid =? 0 then s <-- create_session now ;; ret (s, OK_) else e <-- renew_session_lease now sid ;; ret (sid, e)) ;;
    match error with
    | HYPERSPACE_EXPIRED_SESSION => ret (Some (sid, HYPERSPACE_EXPIRED_SESSION))
    | _ =>
        b <-- has_session sid ;;
        if negb b then ret None
        else upd_session sid (purge_notifications last_known_event) ;;; ret (Some (sid, OK_))
    end.

(** ** Requests *)

Definition absolute (name : list Z) : bool := (hd 0 name =? slash) && negb (List.last name 0 =? slash).
Definition assert_ (b : bool) : act unit := if b then ret tt else fault.
Definition need_session (sid : Z) : act unit := b <-- has_session sid ;; if b then ret tt else throw HYPERSPACE_EXPIRED_SESSION.
Definition need_handle (hid : Z) : act HandleData :=
  b <-- has_handle hid ;; if b then handle_object hid else throw HYPERSPACE_INVALID_HANDLE.

Definition mkdir_request (name : list Z) : act unit :=
  '(parent, child) <-- find_parent_node name ;;
  assert_ (absolute name) ;;;
  transaction (
    db_write (mkdir name) ;;;
    e <-- new_event (EventNamed EVENT_MASK_CHILD_NODE_ADDED child) ;;
    deliver_event_notifications parent e).

Definition unlink_request (name : list Z) : act unit :=
  if bytes_eqb name [slash] then throw HYPERSPACE_PERMISSION_DENIED
  else
    '(parent, child) <-- find_parent_node name ;;
    assert_ (absolute name) ;;;
    transaction (
      db_write (unlink name) ;;;
      e <-- new_event (EventNamed EVENT_MASK_CHILD_NODE_REMOVED child) ;;
      deliver_event_notifications parent e).

(** The lock an open asks for, with whether it is announced. *)
Definition open_lock (flags : Z) (n : NodeData) : act (Z * bool) :=
  if has_all flags OPEN_FLAG_LOCK_SHARED then
    if negb (exclusive_lock_handle n =? 0) then throw HYPERSPACE_LOCK_CONFLICT
    else ret (LOCK_MODE_SHARED, match shared_lock_handles n with [] => true | _ => false end)
  else if has_all flags OPEN_FLAG_LOCK_EXCLUSIVE then
    if negb (exclusive_lock_handle n =? 0) || match shared_lock_handles n with [] => false | _ => true end then throw HYPERSPACE_LOCK_CONFLICT
    else ret (LOCK_MODE_EXCLUSIVE, true)
  else ret (0, false).

Fixpoint set_attrs (name : list Z) (attrs : list (list Z * list Z)) : act unit :=
  match attrs with
  | [] => ret tt
  | (a, v) :: attrs => db_write (set_xattr name a v) ;;; set_attrs name attrs
  end.

(** The file an open finds or makes: whether it made it. *)
Definition open_file (name : list Z) (flags : Z) (init_attrs : list (list Z * list Z)) (p : Z) : act bool :=
  existed <-- db_read (fun d => Ok (fst (exists_ name d))) ;;
  if existed then
    if has flags OPEN_FLAG_CREATE && has flags OPEN_FLAG_EXCL then throw HYPERSPACE_FILE_EXISTS
    else if has flags OPEN_FLAG_TEMP then throw HYPERSPACE_FILE_EXISTS
    else
      n <-- get_node_data p ;;
      if lock_generation n =? 0 then
        o <-- db_read (get_xattr_i64 name lock_generation_attr) ;;
        match o with
        | Some g => upd_node p (nd_generation g) ;;; ret false
        | None => upd_node p (nd_generation 1) ;;; db_write (set_xattr_i64 name lock_generation_attr 1) ;;; ret false
        end
      else ret false
  else
    if negb (has flags OPEN_FLAG_CREATE) then throw HYPERSPACE_BAD_PATHNAME
    else
      db_write (create name (has flags OPEN_FLAG_TEMP)) ;;;
      upd_node p (nd_generation 1) ;;;
      db_write (set_xattr_i64 name lock_generation_attr 1) ;;;
      set_attrs name init_attrs ;;;
      (if has flags OPEN_FLAG_TEMP then upd_node p nd_ephemeral else ret tt) ;;;
      ret true.

(** The lock of an open: the generation it has. *)
Definition acquire (hid p : Z) (name : list Z) (mode : Z) (notify : bool) : act Z :=
  n <-- get_node_data p ;;
  let generation := lock_generation n + 1 in
  upd_node p (nd_generation generation) ;;;
  db_write (set_xattr_i64 name lock_generation_attr generation) ;;;
  upd_node p (nd_mode mode) ;;;
  lock_handle hid mode ;;;
  (if notify then e <-- new_event (EventLockAcquired mode) ;; deliver_event_notifications p e else ret tt) ;;;
  ret generation.

Definition open (sid : Z) (name : list Z) (flags mask : Z) (init_attrs : list (list Z * list Z)) : act (Z * bool * Z) :=
  assert_ (hd 0 name =? slash) ;;;
  need_session sid ;;;
  '(parent, child) <-- find_parent_node name ;;
  (if match init_attrs with [] => false | _ => negb (has flags OPEN_FLAG_CREATE) end then throw HYPERSPACE_CREATE_FAILED else ret tt) ;;;
  p <-- get_node name ;;
  transaction (
    n <-- get_node_data p ;;
    '(lock_mode, lock_notify) <-- open_lock flags n ;;
    created <-- open_file name flags init_attrs p ;;
    hid <-- create_handle ;;
    upd_handle hid (fun h => {| h_id := h_id h; open_flags := flags; event_mask := mask; h_node := p; h_session := sid; locked := locked h |}) ;;;
    upd_session sid (sd_handles (set_insert hid)) ;;;
    (if created then
       e <-- new_event (EventNamed EVENT_MASK_CHILD_NODE_ADDED child) ;;
       if bytes_eqb name [slash] then ret tt else deliver_event_notifications parent e
     else ret tt) ;;;
    lock_generation <-- (if negb (lock_mode =? 0) then acquire hid p name lock_mode lock_notify else ret 0) ;;
    upd_node p (nd_handles (fun l => l ++ [hid])) ;;;
    ret (hid, created, lock_generation)).

Definition close (sid hid : Z) : act unit :=
  need_session sid ;;;
  s <-- session_object sid ;;
  upd_session sid (sd_handles (set_erase hid)) ;;;
  if set_has hid (s_handles s) then
    o <-- destroy_handle hid ;;
    match o with None => ret tt | Some e => throw e end
  else ret tt.

Definition attr_set (sid hid : Z) (name value : list Z) : act unit :=
  need_session sid ;;;
  h <-- need_handle hid ;;
  transaction (
    n <-- get_node_data (h_node h) ;;
    db_write (set_xattr (n_name n) name value) ;;;
    e <-- new_event (EventNamed EVENT_MASK_ATTR_SET name) ;;
    deliver_event_notifications (h_node h) e).

Definition attr_get (sid hid : Z) (name : list Z) : act (list Z) :=
  need_session sid ;;;
  h <-- need_handle hid ;;
  transaction (
    n <-- get_node_data (h_node h) ;;
    o <-- db_read (get_xattr (n_name n) name) ;;
    match o with Some v => ret v | None => throw HYPERSPACE_ATTR_NOT_FOUND end).

Definition attr_del (sid hid : Z) (name : list Z) : act unit :=
  need_session sid ;;;
  h <-- need_handle hid ;;
  transaction (
    n <-- get_node_data (h_node h) ;;
    db_write (del_xattr (n_name n) name) ;;;
    e <-- new_event (EventNamed EVENT_MASK_ATTR_DEL name) ;;
    deliver_event_notifications (h_node h) e).

Definition exists_request (name : list Z) : act bool :=
  assert_ (absolute name) ;;; db_read (fun d => Ok (fst (exists_ name d))).

Definition readdir (sid hid : Z) : act (list DirEntry) :=
  need_session sid ;;;
  h <-- need_handle hid ;;
  n <-- get_node_data (h_node h) ;;
  db_read (get_directory_listing (n_name n)).

(** [lock] *)
Definition wait_or_busy (hid p mode : Z) (try_lock : bool) : act (Z * Z) :=
  if try_lock then ret (LOCK_STATUS_BUSY, 0)
  else upd_node p (nd_pending (fun l => l ++ [{| lr_handle := hid; lr_mode := mode |}])) ;;; ret (LOCK_STATUS_PENDING, 0).

(** "At this point we're OK to acquire the lock." *)
Definition lock_now (hid p mode : Z) (n : NodeData) : act (Z * Z) :=
  let notify := negb ((mode =? LOCK_MODE_SHARED) && match shared_lock_handles n with [] => false | _ => true end) in
  let generation := lock_generation n + 1 in
  upd_node p (nd_generation generation) ;;;
  transaction (db_write (set_xattr_i64 (n_name n) lock_generation_attr generation)) ;;;
  upd_node p (nd_mode mode) ;;;
  lock_handle hid mode ;;;
  (if notify then e <-- new_event (EventLockAcquired mode) ;; deliver_event_notifications p e else ret tt) ;;;
  ret (LOCK_STATUS_GRANTED, generation).

Definition lock (sid hid mode : Z) (try_lock : bool) : act (Z * Z) :=
  need_session sid ;;;
  h <-- need_handle hid ;;
  if negb (has (open_flags h) OPEN_FLAG_LOCK) then throw HYPERSPACE_MODE_RESTRICTION
  else if negb (has (open_flags h) OPEN_FLAG_WRITE) then throw HYPERSPACE_MODE_RESTRICTION
  else
    let p := h_node h in
    n <-- get_node_data p ;;
    if cur_lock_mode n =? LOCK_MODE_EXCLUSIVE then wait_or_busy hid p mode try_lock
    else if cur_lock_mode n =? LOCK_MODE_SHARED then
      if mode =? LOCK_MODE_EXCLUSIVE then wait_or_busy hid p mode try_lock
      else if negb (mode =? LOCK_MODE_SHARED) then fault
      else match pending_lock_reqs n with
           | [] => lock_now hid p mode n
           | _ => wait_or_busy hid p mode try_lock
           end
    else lock_now hid p mode n.

Definition release (sid hid : Z) : act unit :=
  need_session sid ;;;
  _h <-- need_handle hid ;;
  release_lock hid.

(** [get_generation_number], on start. *)
Definition generation_attr : list Z := [103; 101; 110; 101; 114; 97; 116; 105; 111; 110].
Definition get_generation_number : act unit :=
  fun st =>
    match transaction (
      o <-- db_read (get_xattr_i32 metadata_file generation_attr) ;;
      let g := u32 (match o with Some g => g | None => 0 end + 1) in
      modify (set_generation g) ;;;
      db_write (set_xattr_i32 metadata_file generation_attr g)) st with
    | (Throw _, st) => (Ok tt, st)
    | r => r
    end.

(** The constructor. *)
Definition init (d : D) (lease : Z) : result unit * Master D :=
  get_generation_number
    {| m_bdb_fs := initialize d; m_lease_interval := lease; m_generation := 0;
       nodes := {[ 0 := new_node [slash] ]}; next_node := 1; m_node_map := {[ [slash] := 0 ]};
       handles := ∅; m_handle_map := []; m_next_handle_number := 1;
       sessions := ∅; m_session_map := []; m_session_heap := []; m_next_session_id := 1; ms_next_event_id := 1 |}.

End Code.
