(* ===== verification/HyperLocks.v ===== *)
(** * Mutual exclusion and fencing in the lock service

    Invariants of [HyperMaster.v] that hold in every reachable state: who holds the
    locks of a node, and that lock generations grow with every lock that is given. *)
Set Warnings "-notation-incompatible-prefix,-clear-no-such-hyp".
From S2P Require Import Prelude Errors Serialization BdbFs HyperMaster.
From stdpp Require Import base gmap list.
From Stdlib Require Import ZArith Lia.
Open Scope Z_scope.
Open Scope act_scope.
Import BerkeleyDbFilesystem.

(** What the invariants are about. *)
Record core := { c_nodes : gmap Z NodeData; c_next : Z; c_map : gmap (list Z) Z; c_handles : gmap Z HandleData; c_hmap : list Z; c_hnext : Z }.

Definition core_of {D} (st : Master D) : core :=
  {| c_nodes := nodes st; c_next := next_node st; c_map := m_node_map st; c_handles := handles st; c_hmap := m_handle_map st; c_hnext := m_next_handle_number st |}.

(** In a run of exclusive locks only ([xo]) there is nothing shared. *)
Record node_ok (xo : bool) (c : core) (p : Z) (n : NodeData) : Prop := {
  no_fresh : p < c_next c;
  no_mode : exclusive_lock_handle n <> 0 -> cur_lock_mode n = LOCK_MODE_EXCLUSIVE;
  no_pending r : In r (pending_lock_reqs n) -> exists h, c_handles c !! lr_handle r = Some h /\ h_node h = p;
  no_shared : xo = true -> shared_lock_handles n = [] /\ forall r, In r (pending_lock_reqs n) -> lr_mode r = LOCK_MODE_EXCLUSIVE }.

Record handle_ok (c : core) (i : Z) (h : HandleData) : Prop := {
  ho_id : h_id h = i;
  ho_range : 0 < i <= c_hnext c;
  ho_locked : locked h = true -> exists n, c_nodes c !! h_node h = Some n /\ (i = exclusive_lock_handle n \/ In i (shared_lock_handles n)) }.

Record inv (xo : bool) (c : core) : Prop := {
  i_nodes p n : c_nodes c !! p = Some n -> node_ok xo c p n;
  i_handles i h : c_handles c !! i = Some h -> handle_ok c i h;
  i_map name p : c_map c !! name = Some p -> exists n, c_nodes c !! p = Some n /\ n_name n = name;
  i_next : 0 < c_hnext c;
  i_open i : set_has i (c_hmap c) = true -> is_Some (c_handles c !! i) }.

(** [counted x n]: the generation of [n] has been read, and [n] is not the node of
    [x], the name of a file that is made. *)
Definition counted (x : option (list Z)) (n : NodeData) : Prop := x <> Some (n_name n) /\ 0 < lock_generation n.

(** A handle that is closed and has no lock. *)
Definition dead (i : Z) (c : core) : Prop := set_has i (c_hmap c) = false /\ exists h, c_handles c !! i = Some h /\ locked h = false.

(** Later: no node and no handle is lost, generations do not decrease, and a handle
    that got its lock meanwhile got it with a greater generation.  Closed handles get
    no locks. *)
Record later (x : option (list Z)) (c c' : core) : Prop := {
  l_node p n : c_nodes c !! p = Some n -> exists n', c_nodes c' !! p = Some n' /\ n_name n' = n_name n /\
    (counted x n -> lock_generation n <= lock_generation n');
  l_handle i h : c_handles c !! i = Some h -> exists h', c_handles c' !! i = Some h' /\ h_node h' = h_node h /\
    (locked h = false -> locked h' = true -> forall n n', c_nodes c !! h_node h = Some n -> c_nodes c' !! h_node h = Some n' ->
     counted x n -> lock_generation n < lock_generation n');
  l_fresh i h' : c_handles c !! i = None -> c_handles c' !! i = Some h' -> locked h' = true ->
    forall n n', c_nodes c !! h_node h' = Some n -> c_nodes c' !! h_node h' = Some n' -> counted x n -> lock_generation n < lock_generation n';
  l_dead i : dead i c -> dead i c' }.

Lemma later_core_refl x c : later x c c.
Proof.
  constructor.
  - intros p n H. exists n. split; [exact H|]. split; [reflexivity|lia].
  - intros i h H. exists h. split; [exact H|]. split; [reflexivity|]. congruence.
  - congruence.
  - auto.
Qed.

Lemma counted_later x c c' p n n' : later x c c' -> c_nodes c !! p = Some n -> c_nodes c' !! p = Some n' -> counted x n ->
  counted x n' /\ lock_generation n <= lock_generation n'.
Proof.
  intros Hl Hn Hn' Hc. destruct (l_node _ _ _ Hl p n Hn) as (n2 & Hn2 & E2 & L2). assert (n2 = n') as -> by congruence.
  specialize (L2 Hc). destruct Hc as [Hx Hg]. split; [split; [congruence|lia]|exact L2].
Qed.

Lemma later_core_trans x c1 c2 c3 : later x c1 c2 -> later x c2 c3 -> later x c1 c3.
Proof.
  intros H12 H23. constructor.
  - intros p n Hn. destruct (l_node _ _ _ H12 p n Hn) as (n2 & Hn2 & E2 & L2). destruct (l_node _ _ _ H23 p n2 Hn2) as (n3 & Hn3 & E3 & L3).
    exists n3. split; [exact Hn3|]. split; [congruence|]. intros Hc. destruct (counted_later _ _ _ _ _ _ H12 Hn Hn2 Hc). specialize (L3 H). lia.
  - intros i h Hh. destruct (l_handle _ _ _ H12 i h Hh) as (h2 & Hh2 & E2 & L2). destruct (l_handle _ _ _ H23 i h2 Hh2) as (h3 & Hh3 & E3 & L3).
    exists h3. split; [exact Hh3|]. split; [congruence|]. intros Hf Ht n n3 Hn Hn3 Hc.
    destruct (l_node _ _ _ H12 _ n Hn) as (n2 & Hn2 & _).
    destruct (counted_later _ _ _ _ _ _ H12 Hn Hn2 Hc) as [Hc2 G2]. destruct (counted_later _ _ _ _ _ _ H23 Hn2 Hn3 Hc2) as [_ G3].
    destruct (locked h2) eqn:Eb.
    + specialize (L2 Hf eq_refl n n2 Hn Hn2 Hc). lia.
    + rewrite E2 in L3. specialize (L3 eq_refl Ht n2 n3 Hn2 Hn3 Hc2). lia.
  - intros i h3 Hno Hh3 Ht n n3 Hn Hn3 Hc.
    destruct (l_node _ _ _ H12 _ n Hn) as (n2 & Hn2 & _).
    destruct (counted_later _ _ _ _ _ _ H12 Hn Hn2 Hc) as [Hc2 G2]. destruct (counted_later _ _ _ _ _ _ H23 Hn2 Hn3 Hc2) as [_ G3].
    destruct (c_handles c2 !! i) as [h2|] eqn:E2.
    + destruct (l_handle _ _ _ H23 i h2 E2) as (h3' & Hh3' & En & L3). assert (h3' = h3) as -> by congruence. rewrite En in *.
      destruct (locked h2) eqn:Eb.
      * pose proof (l_fresh _ _ _ H12 i h2 Hno E2 Eb n n2 Hn Hn2 Hc). lia.
      * specialize (L3 eq_refl Ht n2 n3 Hn2 Hn3 Hc2). lia.
    + pose proof (l_fresh _ _ _ H23 i h3 E2 Hh3 Ht n2 n3 Hn2 Hn3 Hc2). lia.
  - intros i Hd. apply (l_dead _ _ _ H23), (l_dead _ _ _ H12), Hd.
Qed.

(** ** Steps of the core *)

Lemma lookup_alter_is_Some {A} (f : A -> A) (p q : Z) (m : gmap Z A) : is_Some (m !! q) -> is_Some (alter f p m !! q).
Proof.
  intros [y Hy]. destruct (decide (p = q)) as [->|Hne]; [rewrite lookup_alter_eq, Hy|rewrite lookup_alter_ne, Hy by exact Hne]; simpl; eauto.
Qed.

Definition on_node (p : Z) (f : NodeData -> NodeData) (c : core) : core :=
  {| c_nodes := alter f p (c_nodes c); c_next := c_next c; c_map := c_map c; c_handles := c_handles c; c_hmap := c_hmap c; c_hnext := c_hnext c |}.
Definition on_handle (i : Z) (f : HandleData -> HandleData) (c : core) : core :=
  {| c_nodes := c_nodes c; c_next := c_next c; c_map := c_map c; c_handles := alter f i (c_handles c); c_hmap := c_hmap c; c_hnext := c_hnext c |}.

Lemma alter_cases {A} (f : A -> A) (p q : Z) (m : gmap Z A) (y : A) : alter f p m !! q = Some y ->
  exists x, m !! q = Some x /\ (q = p /\ y = f x \/ q <> p /\ y = x).
Proof.
  destruct (decide (q = p)) as [->|Hne].
  - rewrite lookup_alter_eq. destruct (m !! p) as [x|]; simpl; [|discriminate]. intros H. injection H as <-. eauto.
  - rewrite lookup_alter_ne by congruence. eauto.
Qed.

Lemma alter_some {A} (f : A -> A) (p q : Z) (m : gmap Z A) (x : A) : m !! q = Some x ->
  alter f p m !! q = Some (if decide (q = p) then f x else x).
Proof.
  intros H. destruct (decide (q = p)) as [->|Hne]; [rewrite lookup_alter_eq, H; reflexivity|].
  rewrite lookup_alter_ne by congruence. exact H.
Qed.

(** A change of a node that keeps its name. *)
Lemma on_node_later x p f c : (forall n, c_nodes c !! p = Some n -> n_name (f n) = n_name n /\ (counted x n -> lock_generation n <= lock_generation (f n))) ->
  later x c (on_node p f c).
Proof.
  intros Hf. constructor; simpl.
  - intros q n Hn. rewrite (alter_some f p q _ n Hn). eexists. split; [reflexivity|]. destruct (decide (q = p)) as [->|]; [apply Hf, Hn|]. split; [reflexivity|lia].
  - intros i h Hh. exists h. split; [exact Hh|]. split; [reflexivity|]. congruence.
  - congruence.
  - auto.
Qed.

Lemma on_node_inv xo p f c : inv xo c ->
  (forall n, c_nodes c !! p = Some n -> n_name (f n) = n_name n) ->
  (forall n, c_nodes c !! p = Some n -> node_ok xo c p n -> node_ok xo c p (f n)) ->
  (forall n i h, c_nodes c !! p = Some n -> c_handles c !! i = Some h -> h_node h = p -> locked h = true ->
     i = exclusive_lock_handle n \/ In i (shared_lock_handles n) -> i = exclusive_lock_handle (f n) \/ In i (shared_lock_handles (f n))) ->
  inv xo (on_node p f c).
Proof.
  intros Hi Hname Hnode Hlock. constructor; simpl.
  - intros q n Hn. apply alter_cases in Hn as (m & Hm & [[-> ->]|[Hne ->]]).
    + destruct (Hnode m Hm (i_nodes _ _ Hi p m Hm)). constructor; assumption.
    + destruct (i_nodes _ _ Hi q m Hm). constructor; assumption.
  - intros i h Hh. destruct (i_handles _ _ Hi i h Hh) as [H1 H2 H3]. constructor; [exact H1|exact H2|]. intros Hl. simpl.
    destruct (H3 Hl) as (n & Hn & Hin). rewrite (alter_some f p _ _ n Hn). eexists. split; [reflexivity|].
    destruct (decide (h_node h = p)) as [<-|]; [eapply Hlock; eauto|exact Hin].
  - intros name q Hq. destruct (i_map _ _ Hi name q Hq) as (n & Hn & E). rewrite (alter_some f p _ _ n Hn). eexists. split; [reflexivity|].
    destruct (decide (q = p)) as [->|]; [rewrite Hname; assumption|exact E].
  - apply (i_next _ _ Hi).
  - apply (i_open _ _ Hi).
Qed.

Lemma on_handle_later x i f c : (forall h, c_handles c !! i = Some h -> h_node (f h) = h_node h /\ (locked (f h) = true -> locked h = true)) ->
  later x c (on_handle i f c).
Proof.
  intros Hf. constructor; simpl.
  - intros p n Hn. exists n. split; [exact Hn|]. split; [reflexivity|lia].
  - intros j h Hh. rewrite (alter_some f i j _ h Hh). eexists. split; [reflexivity|]. destruct (decide (j = i)) as [->|].
    + destruct (Hf h Hh) as [E1 E2]. split; [exact E1|]. intros H1 H2. rewrite (E2 H2) in H1. discriminate.
    + split; [reflexivity|]. congruence.
  - intros j h' Hno Hh'. apply alter_cases in Hh' as (h & Hh & _). congruence.
  - intros j [Hj (h & Hh & Hl)]. split; [exact Hj|]. simpl. rewrite (alter_some f i j _ h Hh). eexists. split; [reflexivity|].
    destruct (decide (j = i)) as [->|]; [|exact Hl]. destruct (Hf h Hh) as [_ Hl']. destruct (locked (f h)); [rewrite Hl' in Hl by reflexivity; discriminate|reflexivity].
Qed.

(** The lock given to a handle of a node whose generation has been counted up. *)
Definition lock_core (i mode : Z) (h : HandleData) (c : core) : core :=
  on_handle i (hd_locked true)
    (on_node (h_node h) (if mode =? LOCK_MODE_SHARED then nd_shared (set_insert (h_id h)) else nd_exclusive (h_id h)) c).

Lemma set_insert_in x y l : In y (set_insert x l) <-> y = x \/ In y l.
Proof.
  induction l as [|z l IH]; simpl; [intuition congruence|].
  destruct (x <? z); simpl; [intuition congruence|]. destruct (x =? z) eqn:E; simpl; [apply Z.eqb_eq in E; subst; intuition congruence|].
  rewrite IH. intuition congruence.
Qed.

(** When a node may get another holder. *)
Definition may_lock (xo : bool) (mode : Z) (n : NodeData) : Prop :=
  mode = LOCK_MODE_SHARED /\ xo = false \/ mode = LOCK_MODE_EXCLUSIVE /\ cur_lock_mode n = LOCK_MODE_EXCLUSIVE /\ exclusive_lock_handle n = 0.

Lemma lock_node_inv xo i mode h n c : inv xo c -> c_handles c !! i = Some h -> c_nodes c !! h_node h = Some n -> may_lock xo mode n ->
  inv xo (on_node (h_node h) (if mode =? LOCK_MODE_SHARED then nd_shared (set_insert (h_id h)) else nd_exclusive (h_id h)) c).
Proof.
  intros Hi Hh Hn Hm. apply on_node_inv; [exact Hi|..].
  - intros n' _. destruct (mode =? LOCK_MODE_SHARED); reflexivity.
  - intros n' Hn' [N1 N2 N3 N4]. assert (n' = n) as -> by congruence. destruct Hm as [[-> ->]|(-> & Hmode & Hex)]; simpl.
    + constructor; simpl; try assumption. discriminate.
    + constructor; simpl; try assumption. intros _. exact Hmode.
  - intros n' j hj Hn' Hj Hjn Hl Hin. assert (n' = n) as -> by congruence. destruct Hm as [[-> ->]|(-> & Hmode & Hex)]; simpl.
    + destruct Hin as [Hin|Hin]; [left; exact Hin|right; apply set_insert_in; right; exact Hin].
    + destruct Hin as [Hin|Hin]; [|right; exact Hin]. pose proof (ho_range _ _ _ (i_handles _ _ Hi j hj Hj)). lia.
Qed.

Lemma lock_core_inv xo i mode h n c : inv xo c -> c_handles c !! i = Some h -> c_nodes c !! h_node h = Some n -> may_lock xo mode n ->
  inv xo (lock_core i mode h c).
Proof.
  intros Hi Hh Hn Hm. pose proof (i_handles _ _ Hi i h Hh) as [Hid Hr _].
  pose proof (lock_node_inv xo i mode h n c Hi Hh Hn Hm) as H1. pose proof (i_handles _ _ H1) as H2. constructor; simpl.
  - intros p n' Hn'. destruct (i_nodes _ _ H1 p n' Hn') as [N1 N2 N3 N4]. constructor; simpl; try assumption.
    intros r Hr'. destruct (N3 r Hr') as (hr & Hhr & Ep). simpl in Hhr. rewrite (alter_some _ i _ _ hr Hhr). eexists. split; [reflexivity|].
    destruct (decide (lr_handle r = i)); exact Ep.
  - intros j hj Hj. apply alter_cases in Hj as (h0 & Hh0 & [[-> ->]|[Hne ->]]).
    + assert (h0 = h) as -> by congruence. constructor; simpl; [exact Hid|exact Hr|]. intros _.
      rewrite (alter_some _ _ _ _ n Hn), decide_True by reflexivity. eexists. split; [reflexivity|].
      destruct Hm as [[-> ->]|(-> & Hmode & Hex)]; simpl; [right; apply set_insert_in; left|left]; symmetry; exact Hid.
    + destruct (H2 j h0 Hh0) as [A1 A2 A3]. constructor; assumption.
  - apply (i_map _ _ H1).
  - apply (i_next _ _ H1).
  - intros j Hj. apply lookup_alter_is_Some, (i_open _ _ Hi j Hj).
Qed.

(** [raised x c0 c p]: the generation of [p] has been counted up since [c0]. *)
Definition raised (x : option (list Z)) (c0 c : core) (p : Z) : Prop :=
  forall n0 n, c_nodes c0 !! p = Some n0 -> c_nodes c !! p = Some n -> counted x n0 -> lock_generation n0 < lock_generation n.

Lemma lock_core_later x c0 i mode h c : later x c0 c -> c_handles c !! i = Some h -> set_has i (c_hmap c) = true -> raised x c0 c (h_node h) -> later x c0 (lock_core i mode h c).
Proof.
  intros Hl Hh Ha Hr.
  set (f := if mode =? LOCK_MODE_SHARED then nd_shared (set_insert (h_id h)) else nd_exclusive (h_id h)).
  assert (Hf : forall n, lock_generation (f n) = lock_generation n /\ n_name (f n) = n_name n).
  { intros n. unfold f. destruct (mode =? LOCK_MODE_SHARED); auto. }
  assert (H1 : later x c0 (on_node (h_node h) f c)).
  { eapply later_core_trans; [exact Hl|]. apply on_node_later. intros n _. destruct (Hf n) as [-> ->]. split; [reflexivity|lia]. }
  assert (Hr1 : raised x c0 (on_node (h_node h) f c) (h_node h)).
  { intros n0 n Hn0 Hn Hc. simpl in Hn. apply alter_cases in Hn as (n1 & Hn1 & [[_ ->]|[Hne _]]); [|congruence].
    destruct (Hf n1) as [-> _]. exact (Hr n0 n1 Hn0 Hn1 Hc). }
  constructor; simpl.
  - apply (l_node _ _ _ H1).
  - intros j hj Hj. destruct (l_handle _ _ _ H1 j hj Hj) as (h' & Hh' & E & L). simpl in Hh'. rewrite (alter_some _ i j _ h' Hh').
    eexists. split; [reflexivity|]. destruct (decide (j = i)) as [->|]; [|auto]. assert (h' = h) as -> by congruence. simpl.
    split; [exact E|]. intros _ _ n n' Hn Hn' Hc. rewrite <- E in *. exact (Hr1 n n' Hn Hn' Hc).
  - intros j hj Hno Hj. apply alter_cases in Hj as (h' & Hh' & [[-> ->]|[Hne ->]]); [|exact (l_fresh _ _ _ H1 j h' Hno Hh')].
    assert (h' = h) as -> by congruence. simpl. intros _ n n' Hn Hn' Hc. exact (Hr1 n n' Hn Hn' Hc).
  - intros j Hd. destruct (l_dead _ _ _ Hl j Hd) as [Hj (hj & Hhj & Hlj)]. split; [exact Hj|]. simpl.
    rewrite lookup_alter_ne; [eauto|]. intros ->. congruence.
Qed.

(** A lock that is given up. *)
Definition unlock_core (i : Z) (p : Z) (f : NodeData -> NodeData) (c : core) : core := on_handle i (hd_locked false) (on_node p f c).

Lemma set_erase_in x y l : In y (set_erase x l) <-> In y l /\ y <> x.
Proof. unfold set_erase. rewrite filter_In, negb_true_iff, Z.eqb_neq. reflexivity. Qed.

Lemma set_has_in y l : set_has y l = true <-> In y l.
Proof. unfold set_has. rewrite existsb_exists. split; [intros (z & Hz & E); apply Z.eqb_eq in E; congruence|]. intros H. exists y. split; [exact H|apply Z.eqb_refl]. Qed.

Lemma unlock_core_inv xo i h n f c : inv xo c -> c_handles c !! i = Some h -> c_nodes c !! h_node h = Some n ->
  (f = nd_exclusive 0 /\ exclusive_lock_handle n = i \/ f = nd_shared (set_erase i) /\ exclusive_lock_handle n = 0) ->
  inv xo (unlock_core i (h_node h) f c).
Proof.
  intros Hi Hh Hn Hf. constructor; simpl.
  - intros q m Hm. apply alter_cases in Hm as (m' & Hm' & Hc). destruct (i_nodes _ _ Hi q m' Hm') as [N1 N2 N3 N4].
    assert (N3' : forall r, In r (pending_lock_reqs m') -> exists h0, alter (hd_locked false) i (c_handles c) !! lr_handle r = Some h0 /\ h_node h0 = q).
    { intros r Hr. destruct (N3 r Hr) as (hr & Hhr & Ep). rewrite (alter_some _ i _ _ hr Hhr). eexists. split; [reflexivity|].
      destruct (decide (lr_handle r = i)); exact Ep. }
    destruct Hc as [[-> ->]|[Hne ->]]; [|constructor; assumption]. assert (m' = n) as -> by congruence.
    destruct Hf as [[-> Hex]|[-> Hex]]; constructor; simpl; try assumption; try (intros H; congruence).
    intros Hxo. destruct (N4 Hxo) as [-> N4']. split; [reflexivity|exact N4'].
  - intros j hj Hj. apply alter_cases in Hj as (h0 & Hh0 & [[-> ->]|[Hne ->]]).
    + destruct (i_handles _ _ Hi i h0 Hh0) as [A1 A2 A3]. constructor; simpl; [exact A1|exact A2|discriminate].
    + destruct (i_handles _ _ Hi j h0 Hh0) as [A1 A2 A3]. constructor; simpl; [exact A1|exact A2|]. intros Hl.
      destruct (A3 Hl) as (m & Hm & Hin). rewrite (alter_some f _ _ _ m Hm). eexists. split; [reflexivity|].
      destruct (decide (h_node h0 = h_node h)) as [E|]; [|exact Hin]. rewrite E in Hm. assert (m = n) as -> by congruence.
      destruct Hf as [[-> Hex]|[-> Hex]]; simpl.
      * destruct Hin as [Hin|Hin]; [congruence|right; exact Hin].
      * destruct Hin as [Hin|Hin]; [left; exact Hin|right]. apply set_erase_in. auto.
  - intros name q Hq. destruct (i_map _ _ Hi name q Hq) as (m & Hm & E). rewrite (alter_some f _ _ _ m Hm). eexists. split; [reflexivity|].
    destruct (decide (q = h_node h)); [destruct Hf as [[-> _]|[-> _]]|]; exact E.
  - apply (i_next _ _ Hi).
  - intros j Hj. apply lookup_alter_is_Some, (i_open _ _ Hi j Hj).
Qed.

Lemma unlock_core_later x i p f c : (forall n, n_name (f n) = n_name n /\ lock_generation (f n) = lock_generation n) -> later x c (unlock_core i p f c).
Proof.
  intros Hf. eapply later_core_trans; [apply on_node_later|apply on_handle_later].
  - intros n _. destruct (Hf n) as [-> ->]. split; [reflexivity|lia].
  - intros h _. split; [reflexivity|]. discriminate.
Qed.

(** ** Operations *)

Definition wp {D A} (m : act D A) (st : Master D) (Q : result A -> Master D -> Prop) : Prop :=
  match m st with (Fault, _) => True | (r, st') => Q r st' end.

Section Logic.

Context {D : Type} {BT : Btree D}.
Implicit Types st : Master D.

Lemma wp_mono {A} (m : act D A) st (Q Q' : result A -> Master D -> Prop) : (forall r st', Q r st' -> Q' r st') -> wp m st Q -> wp m st Q'.
Proof. unfold wp. destruct (m st) as [[] st']; auto. Qed.

Lemma wp_bind {A B} (m : act D A) (f : A -> act D B) st (Q : result B -> Master D -> Prop) :
  wp m st (fun r st' => match r with Ok a => wp (f a) st' Q | Throw e => Q (Throw e) st' | Fault => True end) -> wp (bind_act m f) st Q.
Proof. unfold wp, bind_act. destruct (m st) as [[] st']; auto. Qed.

Lemma wp_ret {A} (a : A) st (Q : result A -> Master D -> Prop) : Q (Ok a) st -> wp (ret a) st Q.
Proof. auto. Qed.

Lemma wp_throw {A} e st (Q : result A -> Master D -> Prop) : Q (Throw e) st -> wp (throw e) st Q.
Proof. auto. Qed.

Lemma wp_fault {A} st (Q : result A -> Master D -> Prop) : wp fault st Q.
Proof. exact I. Qed.

Lemma wp_get {A} (f : Master D -> A) st Q : Q (Ok (f st)) st -> wp (get f) st Q.
Proof. auto. Qed.

Lemma wp_modify (f : Master D -> Master D) st Q : Q (Ok tt) (f st) -> wp (modify f) st Q.
Proof. auto. Qed.

Lemma wp_node p st Q : (forall n, nodes st !! p = Some n -> Q (Ok n) st) -> wp (get_node_data p) st Q.
Proof. intros H. unfold wp, get_node_data. destruct (nodes st !! p) as [n|]; simpl; [apply H; reflexivity|exact I]. Qed.

Lemma wp_handle i st Q : (forall h, handles st !! i = Some h -> Q (Ok h) st) -> wp (handle_object i) st Q.
Proof. intros H. unfold wp, handle_object. destruct (handles st !! i) as [h|]; simpl; [apply H; reflexivity|exact I]. Qed.

(** [keeps f m]: [m] leaves the part [f] of the state alone. *)
Definition keeps {X A} (f : Master D -> X) (m : act D A) : Prop := forall st, f (snd (m st)) = f st.

Section Keeps.

Context {X : Type} (f : Master D -> X).

Lemma keeps_bind {A B} (m : act D A) (k : A -> act D B) : keeps f m -> (forall a, keeps f (k a)) -> keeps f (bind_act m k).
Proof.
  intros Hm Hk st. unfold bind_act. specialize (Hm st). destruct (m st) as [[a| |] st']; simpl in *; try exact Hm.
  rewrite (Hk a st'). exact Hm.
Qed.

Lemma keeps_ret {A} (a : A) : keeps f (ret a).
Proof. intros st. reflexivity. Qed.
Lemma keeps_throw {A} e : keeps f (@throw D A e).
Proof. intros st. reflexivity. Qed.
Lemma keeps_fault {A} : keeps f (@fault D A).
Proof. intros st. reflexivity. Qed.
Lemma keeps_get {A} (g : Master D -> A) : keeps f (get g).
Proof. intros st. reflexivity. Qed.
Lemma keeps_deref {A} (o : option A) : keeps f (deref o).
Proof. intros st. destruct o; reflexivity. Qed.
Lemma keeps_node p : keeps f (get_node_data p).
Proof. intros st. unfold get_node_data. apply keeps_deref. Qed.
Lemma keeps_handle i : keeps f (handle_object i).
Proof. intros st. unfold handle_object. apply keeps_deref. Qed.
Lemma keeps_session s : keeps f (session_object s).
Proof. intros st. unfold session_object. apply keeps_deref. Qed.
Lemma keeps_db_read {A} (g : D -> result A) : keeps f (db_read g).
Proof. intros st. reflexivity. Qed.
Lemma keeps_has_session s : keeps f (has_session s).
Proof. intros st. reflexivity. Qed.
Lemma keeps_has_handle i : keeps f (has_handle i).
Proof. intros st. reflexivity. Qed.

Lemma keeps_for_each {A} (l : list A) (k : A -> act D unit) : (forall a, keeps f (k a)) -> keeps f (for_each l k).
Proof. intros Hf. induction l as [|a l IH]; simpl; [apply keeps_ret|]. apply keeps_bind; [apply Hf|]. intros _. exact IH. Qed.

Lemma keeps_db_write g : (forall d st, f (set_db d st) = f st) -> keeps f (db_write g).
Proof. intros Hf st. unfold db_write. destruct (g (m_bdb_fs st)); [apply Hf|reflexivity..]. Qed.

Lemma keeps_transaction {A} (m : act D A) : (forall d st, f (set_db d st) = f st) -> keeps f m -> keeps f (transaction m).
Proof. intros Hf Hm st. unfold transaction. specialize (Hm st). destruct (m st) as [[] st']; simpl in *; rewrite ?Hf; exact Hm. Qed.

End Keeps.

End Logic.

(** Operations that leave the core alone. *)
Abbreviation frame := (keeps core_of).

Section CoreFrames.

Context {D : Type} {BT : Btree D}.
Implicit Types st : Master D.

Lemma wp_frame {A} (m : act D A) st (Q : result A -> Master D -> Prop) :
  frame m -> (forall r st', core_of st' = core_of st -> Q r st') -> wp m st Q.
Proof. intros Hf HQ. specialize (Hf st). unfold wp. destruct (m st) as [[] st']; auto. Qed.

Lemma frame_upd_session s f : frame (@upd_session D s f).
Proof. intros st. reflexivity. Qed.
Lemma frame_db_write (f : D -> result D) : frame (db_write f).
Proof. apply keeps_db_write. reflexivity. Qed.
Lemma frame_event k : frame (@new_event D k).
Proof. intros st. reflexivity. Qed.
Lemma frame_transaction {A} (m : act D A) : frame m -> frame (transaction m).
Proof. apply keeps_transaction. reflexivity. Qed.

End CoreFrames.

Create HintDb frames.
#[export] Hint Resolve keeps_ret keeps_throw keeps_fault keeps_get keeps_deref keeps_node keeps_handle keeps_session keeps_db_read keeps_has_session keeps_has_handle : frames.
#[export] Hint Resolve frame_upd_session frame_db_write frame_event : frames.

(** Shows that a program leaves the core alone, or another part of the state. *)
Ltac frame_step :=
  repeat match goal with
  | |- keeps _ (bind_act _ _) => apply keeps_bind; [|intros ?]
  | |- keeps _ (match ?x with _ => _ end) => destruct x
  | |- keeps _ (transaction _) => apply keeps_transaction; [reflexivity|]
  | |- keeps _ (db_write _) => apply keeps_db_write; reflexivity
  | |- keeps _ (for_each _ _) => apply keeps_for_each; intros ?
  | |- keeps _ _ => solve [eauto with frames]
  end.

Section Frames.

Context {D : Type} {BT : Btree D}.

Lemma frame_add_notification s n : frame (@add_notification D s n).
Proof. unfold add_notification. frame_step. Qed.
#[local] Hint Resolve frame_add_notification : frames.

Lemma frame_deliver p e : frame (@deliver_event_notifications D p e).
Proof. unfold deliver_event_notifications. frame_step. Qed.

Lemma frame_deliver_one i e : frame (@deliver_event_notification D i e).
Proof. unfold deliver_event_notification. frame_step. Qed.

Lemma frame_set_attrs name attrs : frame (set_attrs name attrs).
Proof. induction attrs as [|[a v] l IH]; simpl; frame_step; exact IH. Qed.

End Frames.
#[export] Hint Resolve frame_add_notification frame_deliver frame_deliver_one frame_set_attrs : frames.

Section Safe.

Context {D : Type} {BT : Btree D}.
Variable xo : bool.
Variable x : option (list Z).
Implicit Types st : Master D.

Definition good (c0 : core) st : Prop := inv xo (core_of st) /\ later x c0 (core_of st).
Definition safe {A} (m : act D A) : Prop := forall c0 st, good c0 st -> wp m st (fun _ st' => good c0 st').

Lemma good_core c0 st st' : core_of st' = core_of st -> good c0 st -> good c0 st'.
Proof. unfold good. intros ->. auto. Qed.

Lemma safe_frame {A} (m : act D A) : frame m -> safe m.
Proof. intros Hf c0 st Hg. apply wp_frame; [exact Hf|]. intros r st' E. exact (good_core _ _ _ E Hg). Qed.

Lemma safe_bind {A B} (m : act D A) (f : A -> act D B) : safe m -> (forall a, safe (f a)) -> safe (bind_act m f).
Proof.
  intros Hm Hf c0 st Hg. apply wp_bind. eapply wp_mono; [|apply Hm, Hg]. intros [a|e|] st' Hg'; [apply Hf, Hg'|exact Hg'|exact I].
Qed.

Lemma safe_for_each {A} (l : list A) (f : A -> act D unit) : (forall a, safe (f a)) -> safe (for_each l f).
Proof.
  intros Hf. induction l as [|a l IH]; simpl; [apply safe_frame, keeps_ret|]. apply safe_bind; [apply Hf|]. intros _. exact IH.
Qed.

Lemma safe_transaction {A} (m : act D A) : safe m -> safe (transaction m).
Proof.
  intros Hm c0 st Hg. specialize (Hm c0 st Hg). unfold wp, transaction in *. destruct (m st) as [[] st']; exact Hm.
Qed.

Lemma wp_transaction {A} (m : act D A) c0 st : wp m st (fun _ st' => good c0 st') -> wp (transaction m) st (fun _ st' => good c0 st').
Proof. unfold wp, transaction. destruct (m st) as [[] st']; auto. Qed.

Lemma good_trans c0 st c : good c0 st -> inv xo c -> later x (core_of st) c -> inv xo c /\ later x c0 c.
Proof. intros [_ Hl] Hi Hl'. split; [exact Hi|]. exact (later_core_trans _ _ _ _ Hl Hl'). Qed.

(** Changes of a node that have nothing to do with locks. *)
Definition quiet (f : NodeData -> NodeData) : Prop := forall n,
  n_name (f n) = n_name n /\ cur_lock_mode (f n) = cur_lock_mode n /\ lock_generation (f n) = lock_generation n /\
  shared_lock_handles (f n) = shared_lock_handles n /\ exclusive_lock_handle (f n) = exclusive_lock_handle n /\ pending_lock_reqs (f n) = pending_lock_reqs n.

Lemma safe_quiet p f : quiet f -> safe (@upd_node D p f).
Proof.
  intros Hq c0 st Hg. apply wp_modify. apply (good_trans c0 st (on_node p f (core_of st)) Hg).
  - apply on_node_inv; [apply Hg|..].
    + intros n _. apply Hq.
    + intros n _ [N1 N2 N3 N4]. destruct (Hq n) as (E1 & E2 & E3 & E4 & E5 & E6). constructor; rewrite ?E2, ?E4, ?E5, ?E6; assumption.
    + intros n i h _ _ _ _. destruct (Hq n) as (E1 & E2 & E3 & E4 & E5 & E6). rewrite E4, E5. auto.
  - apply on_node_later. intros n _. destruct (Hq n) as (E1 & E2 & E3 & _). split; [exact E1|lia].
Qed.

Lemma safe_generation c0 st p g : good c0 st -> (forall n, nodes st !! p = Some n -> counted x n -> lock_generation n <= g) ->
  wp (upd_node p (nd_generation g)) st (fun r st' => r = Ok tt /\ core_of st' = on_node p (nd_generation g) (core_of st) /\ good c0 st').
Proof.
  intros Hg Hn. apply wp_modify. split; [reflexivity|]. split; [reflexivity|]. apply (good_trans c0 st (on_node p (nd_generation g) (core_of st)) Hg).
  - apply on_node_inv; [apply Hg|..]; auto. intros n _ [N1 N2 N3 N4]. constructor; assumption.
  - apply on_node_later. intros n Hnn. split; [reflexivity|]. exact (Hn n Hnn).
Qed.

Lemma safe_mode c0 st p m : good c0 st -> (forall n, nodes st !! p = Some n -> m = LOCK_MODE_EXCLUSIVE \/ exclusive_lock_handle n = 0) ->
  wp (upd_node p (nd_mode m)) st (fun r st' => r = Ok tt /\ core_of st' = on_node p (nd_mode m) (core_of st) /\ good c0 st').
Proof.
  intros Hg Hn. apply wp_modify. split; [reflexivity|]. split; [reflexivity|]. apply (good_trans c0 st (on_node p (nd_mode m) (core_of st)) Hg).
  - apply on_node_inv; [apply Hg|..]; auto. intros n Hnn [N1 N2 N3 N4]. constructor; try assumption. simpl. destruct (Hn n Hnn) as [->|E]; [auto|congruence].
  - apply on_node_later. intros n _. split; [reflexivity|]. simpl. lia.
Qed.

Lemma safe_push c0 st i h mode : good c0 st -> handles st !! i = Some h -> (xo = true -> mode = LOCK_MODE_EXCLUSIVE) ->
  wp (upd_node (h_node h) (nd_pending (fun l => l ++ [{| lr_handle := i; lr_mode := mode |}]))) st (fun _ st' => good c0 st').
Proof.
  intros Hg Hh Hm. apply wp_modify. apply (good_trans c0 st (on_node (h_node h) (nd_pending (fun l => l ++ [{| lr_handle := i; lr_mode := mode |}])) (core_of st)) Hg).
  - apply on_node_inv; [apply Hg|..]; auto. intros n Hnn [N1 N2 N3 N4]. constructor; simpl; try assumption.
    + intros r Hr. apply in_app_or in Hr as [Hr|[<-|[]]]; [apply N3, Hr|]. exists h. auto.
    + intros Hxo. destruct (N4 Hxo) as [N4a N4b]. split; [exact N4a|]. intros r Hr. apply in_app_or in Hr as [Hr|[<-|[]]]; [apply N4b, Hr|]. apply Hm, Hxo.
  - apply on_node_later. intros n _. split; [reflexivity|]. simpl. lia.
Qed.

Lemma safe_pop c0 st p rest : good c0 st -> (forall n, nodes st !! p = Some n -> forall r, In r rest -> In r (pending_lock_reqs n)) ->
  wp (upd_node p (nd_pending (fun _ => rest))) st (fun r st' => r = Ok tt /\ core_of st' = on_node p (nd_pending (fun _ => rest)) (core_of st) /\ good c0 st').
Proof.
  intros Hg Hn. apply wp_modify. split; [reflexivity|]. split; [reflexivity|]. apply (good_trans c0 st (on_node p (nd_pending (fun _ => rest)) (core_of st)) Hg).
  - apply on_node_inv; [apply Hg|..]; auto. intros n Hnn [N1 N2 N3 N4]. constructor; simpl; try assumption.
    + intros r Hr. apply N3, (Hn n Hnn), Hr.
    + intros Hxo. destruct (N4 Hxo) as [N4a N4b]. split; [exact N4a|]. intros r Hr. apply N4b, (Hn n Hnn), Hr.
  - apply on_node_later. intros n _. split; [reflexivity|]. simpl. lia.
Qed.

Lemma wp_lock_handle c0 st i h n mode : good c0 st -> handles st !! i = Some h -> set_has i (m_handle_map st) = true -> nodes st !! h_node h = Some n -> may_lock xo mode n ->
  raised x c0 (core_of st) (h_node h) ->
  wp (lock_handle i mode) st (fun r st' => r = Ok tt /\ core_of st' = lock_core i mode h (core_of st) /\ good c0 st').
Proof.
  intros Hg Hh Ha Hn Hm Hr. unfold lock_handle. apply wp_bind, wp_handle. intros h' Hh'. assert (h' = h) as -> by congruence. apply wp_bind.
  assert (Hgood : inv xo (lock_core i mode h (core_of st)) /\ later x c0 (lock_core i mode h (core_of st))).
  { split; [apply (lock_core_inv xo i mode h n); [apply Hg|assumption..]|]. apply lock_core_later; [apply Hg|exact Hh|exact Ha|exact Hr]. }
  unfold lock_core in *. destruct Hm as [[-> _]|[-> _]]; simpl; apply wp_modify; apply wp_modify; auto.
Qed.

Lemma raised_generation c0 st p n st1 : good c0 st -> nodes st !! p = Some n ->
  core_of st1 = on_node p (nd_generation (lock_generation n + 1)) (core_of st) -> raised x c0 (core_of st1) p.
Proof.
  intros [_ Hl] Hn -> n0 n1 Hn0 Hn1 Hc. simpl in Hn1. rewrite (alter_some _ p p _ n Hn), decide_True in Hn1 by reflexivity. injection Hn1 as <-.
  destruct (counted_later _ _ _ _ _ _ Hl Hn0 Hn Hc). simpl. lia.
Qed.

Lemma raised_node c0 c p q f : raised x c0 c p -> (forall n, lock_generation (f n) = lock_generation n) -> raised x c0 (on_node q f c) p.
Proof.
  intros Hr Hf n0 n Hn0 Hn Hc. simpl in Hn. apply alter_cases in Hn as (m & Hm & [[-> ->]|[_ ->]]); [rewrite Hf|]; exact (Hr n0 m Hn0 Hm Hc).
Qed.

Definition mode_ok (mode : Z) : Prop := mode = LOCK_MODE_SHARED /\ xo = false \/ mode = LOCK_MODE_EXCLUSIVE.

(** The lock of a node that nobody has exclusively. *)
Lemma wp_take {A} c0 st i h n mode (k : act D A) : good c0 st -> handles st !! i = Some h -> set_has i (m_handle_map st) = true -> nodes st !! h_node h = Some n ->
  exclusive_lock_handle n = 0 -> mode_ok mode -> raised x c0 (core_of st) (h_node h) -> frame k ->
  wp (upd_node (h_node h) (nd_mode mode) ;;; lock_handle i mode ;;; k) st (fun _ st' => good c0 st').
Proof.
  intros Hg Hh Ha Hn Hex Hm Hr Hk. apply wp_bind. eapply wp_mono; [|apply (safe_mode c0 st (h_node h) mode Hg)].
  - intros r st1 (-> & E1 & Hg1). apply wp_bind. eapply wp_mono; [|apply (wp_lock_handle c0 st1 i h (nd_mode mode n) mode Hg1)].
    + intros r st2 (-> & E2 & Hg2). eapply wp_mono; [|apply (safe_frame _ Hk c0 st2 Hg2)]. auto.
    + injection E1 as _ _ _ E _ _. rewrite E. exact Hh.
    + injection E1 as _ _ _ _ E _. rewrite E. exact Ha.
    + injection E1 as E _ _ _ _ _. rewrite E, (alter_some _ _ _ _ n Hn), decide_True; reflexivity.
    + destruct Hm as [[-> ->]| ->]; [left; auto|right; auto].
    + rewrite E1. apply raised_node; [exact Hr|reflexivity].
  - intros n' Hn'. right. congruence.
Qed.

Lemma frame_announce (b : bool) p mode : frame (if b then e <-- @new_event D (EventLockAcquired mode) ;; deliver_event_notifications p e else ret tt).
Proof. destruct b; frame_step. Qed.

Lemma handle_core st st' p f i h : core_of st' = on_node p f (core_of st) -> handles st !! i = Some h -> handles st' !! i = Some h.
Proof. intros E. injection E as _ _ _ E' _ _. rewrite E'. auto. Qed.

Lemma node_core st st' p f n : core_of st' = on_node p f (core_of st) -> nodes st !! p = Some n -> nodes st' !! p = Some (f n).
Proof. intros E Hn. injection E as E' _ _ _ _ _. rewrite E', (alter_some _ _ _ _ n Hn), decide_True; reflexivity. Qed.

Lemma hmap_core st st' p f i : core_of st' = on_node p f (core_of st) -> set_has i (m_handle_map st) = true -> set_has i (m_handle_map st') = true.
Proof. intros E. injection E as _ _ _ _ E' _. rewrite E'. auto. Qed.

Lemma same_core_hmap st st' : core_of st' = core_of st -> m_handle_map st' = m_handle_map st.
Proof. intros E. injection E as _ _ _ _ -> _. reflexivity. Qed.

Lemma same_core_node st st' p : core_of st' = core_of st -> nodes st' !! p = nodes st !! p.
Proof. intros E. injection E as -> _ _ _ _ _. reflexivity. Qed.

Lemma same_core_handle st st' i : core_of st' = core_of st -> handles st' !! i = handles st !! i.
Proof. intros E. injection E as _ _ _ -> _ _. reflexivity. Qed.

Lemma wp_lock_now c0 st i h n mode : good c0 st -> handles st !! i = Some h -> set_has i (m_handle_map st) = true -> nodes st !! h_node h = Some n ->
  exclusive_lock_handle n = 0 -> mode_ok mode -> wp (lock_now i (h_node h) mode n) st (fun _ st' => good c0 st').
Proof.
  intros Hg Hh Ha Hn Hex Hm. unfold lock_now. apply wp_bind. eapply wp_mono; [|apply (safe_generation c0 st _ (lock_generation n + 1) Hg)].
  - intros r st1 (-> & E1 & Hg1). apply wp_bind. apply wp_frame; [apply frame_transaction, frame_db_write|]. intros r st2 E2.
    assert (E3 : core_of st2 = on_node (h_node h) (nd_generation (lock_generation n + 1)) (core_of st)) by congruence.
    pose proof (good_core _ _ _ E2 Hg1) as Hg2. destruct r as [[]|e|]; [|exact Hg2|exact I].
    apply (wp_take c0 st2 i h (nd_generation (lock_generation n + 1) n) mode); try assumption.
    + exact (handle_core _ _ _ _ _ _ E3 Hh).
    + exact (hmap_core _ _ _ _ _ E3 Ha).
    + exact (node_core _ _ _ _ _ E3 Hn).
    + exact (raised_generation c0 st _ n st2 Hg Hn E3).
    + apply keeps_bind; [apply frame_announce|]. intros _. apply keeps_ret.
  - intros n' Hn' _. assert (n' = n) as -> by congruence. lia.
Qed.

Lemma wp_acquire c0 st i h n name mode notify : good c0 st -> handles st !! i = Some h -> set_has i (m_handle_map st) = true -> nodes st !! h_node h = Some n ->
  exclusive_lock_handle n = 0 -> mode_ok mode -> wp (acquire i (h_node h) name mode notify) st (fun _ st' => good c0 st').
Proof.
  intros Hg Hh Ha Hn Hex Hm. unfold acquire. apply wp_bind, wp_node. intros n' Hn'. assert (n' = n) as -> by congruence.
  apply wp_bind. eapply wp_mono; [|apply (safe_generation c0 st _ (lock_generation n + 1) Hg)].
  - intros r st1 (-> & E1 & Hg1). apply wp_bind. apply wp_frame; [apply frame_db_write|]. intros r st2 E2.
    assert (E3 : core_of st2 = on_node (h_node h) (nd_generation (lock_generation n + 1)) (core_of st)) by congruence.
    pose proof (good_core _ _ _ E2 Hg1) as Hg2. destruct r as [[]|e|]; [|exact Hg2|exact I].
    apply (wp_take c0 st2 i h (nd_generation (lock_generation n + 1) n) mode); try assumption.
    + exact (handle_core _ _ _ _ _ _ E3 Hh).
    + exact (hmap_core _ _ _ _ _ E3 Ha).
    + exact (node_core _ _ _ _ _ E3 Hn).
    + exact (raised_generation c0 st _ n st2 Hg Hn E3).
    + apply keeps_bind; [apply frame_announce|]. intros _. apply keeps_ret.
  - intros n'' Hn'' _. assert (n'' = n) as -> by congruence. lia.
Qed.

(** ** Releasing *)

Lemma shared_requests_in l : forall hs rest, shared_requests l = (hs, rest) ->
  (forall h, In h hs -> exists r, In r l /\ lr_handle r = h) /\ forall r, In r rest -> In r l.
Proof.
  induction l as [|r l IH]; intros hs rest; simpl; [intros H; injection H as <- <-; split; [intros h []|auto]|].
  destruct (lr_mode r =? LOCK_MODE_SHARED).
  - destruct (shared_requests l) as [hs' rest'] eqn:E. intros H. injection H as <- <-. destruct (IH hs' rest' eq_refl) as [H1 H2]. split.
    + intros h [<-|Hh]; [eauto|]. destruct (H1 h Hh) as (r' & Hr & E'). eauto.
    + intros r' Hr. auto.
  - intros H. injection H as <- <-. split; [intros h []|auto].
Qed.

Lemma next_requests_in l mode hs rest : next_requests l = (mode, hs, rest) -> l <> [] ->
  (forall h, In h hs -> exists r, In r l /\ lr_handle r = h) /\ (forall r, In r rest -> In r l) /\
  (mode = LOCK_MODE_EXCLUSIVE /\ (exists h, hs = [h]) \/ mode = LOCK_MODE_SHARED /\ exists r, In r l /\ lr_mode r <> LOCK_MODE_EXCLUSIVE).
Proof.
  destruct l as [|r l]; [congruence|]. unfold next_requests. intros H _. destruct (lr_mode r =? LOCK_MODE_EXCLUSIVE) eqn:E.
  - injection H as <- <- <-. split; [intros h [<-|[]]; exists r; simpl; auto|]. split; [simpl; auto|]. left. eauto.
  - destruct (shared_requests (r :: l)) as [hs' rest'] eqn:E'. injection H as <- <- <-. destruct (shared_requests_in _ _ _ E') as [H1 H2].
    split; [exact H1|]. split; [exact H2|]. right. split; [reflexivity|]. exists r. split; [left; reflexivity|]. apply Z.eqb_neq, E.
Qed.

(** The handles [l] are open and handles of node [p]. *)
Definition of_node st (p : Z) (l : list Z) : Prop :=
  forall i, In i l -> (exists h, handles st !! i = Some h /\ h_node h = p) /\ set_has i (m_handle_map st) = true.

Lemma wp_lock_notify c0 st i h n mode : good c0 st -> handles st !! i = Some h -> set_has i (m_handle_map st) = true -> nodes st !! h_node h = Some n -> may_lock xo mode n ->
  raised x c0 (core_of st) (h_node h) ->
  wp (lock_handle_with_notification i mode) st (fun _ st' => good c0 st' /\ core_of st' = lock_core i mode h (core_of st)).
Proof.
  intros Hg Hh Ha Hn Hm Hr. unfold lock_handle_with_notification. apply wp_bind. eapply wp_mono; [|apply (wp_lock_handle c0 st i h n mode); assumption].
  intros r st1 (-> & E1 & Hg1). apply wp_frame; [frame_step|]. intros r st2 E2. split; [exact (good_core _ _ _ E2 Hg1)|congruence].
Qed.

Lemma wp_grant_shared hid p c0 l : xo = false -> forall st, good c0 st -> raised x c0 (core_of st) p -> of_node st p l -> is_Some (nodes st !! p) ->
  wp (for_each l (fun h => if hid =? h then fault else lock_handle_with_notification h LOCK_MODE_SHARED)) st (fun _ st' => good c0 st').
Proof.
  intros Hxo. induction l as [|i l IH]; intros st Hg Hr Hl [n Hn]; simpl; [exact Hg|]. apply wp_bind.
  destruct (hid =? i); [exact I|]. destruct (Hl i (or_introl eq_refl)) as [(h & Hh & <-) Ha].
  eapply wp_mono; [|apply (wp_lock_notify c0 st i h n); [exact Hg|exact Hh|exact Ha|exact Hn|left; auto|exact Hr]].
  intros [[]|e|] st' [Hg' E']; [|exact Hg'|exact I]. apply IH; [exact Hg'|..].
  - rewrite E'. apply raised_node; [exact Hr|]. intros m. destruct (LOCK_MODE_SHARED =? LOCK_MODE_SHARED); reflexivity.
  - intros j Hj. destruct (Hl j (or_intror Hj)) as [(hj & Hhj & En) Haj]. injection E' as _ _ _ E Em _. rewrite E, Em, (alter_some _ _ _ _ hj Hhj).
    split; [|exact Haj]. eexists. split; [reflexivity|]. destruct (decide (j = i)); exact En.
  - injection E' as E _ _ _ _ _. rewrite E, (alter_some _ _ _ _ n Hn). eauto.
Qed.

Lemma wp_grant hid p c0 st n mode l : good c0 st -> raised x c0 (core_of st) p -> of_node st p l -> nodes st !! p = Some n -> exclusive_lock_handle n = 0 ->
  cur_lock_mode n = mode -> (mode = LOCK_MODE_EXCLUSIVE /\ (l = [] \/ exists i, l = [i]) \/ mode = LOCK_MODE_SHARED /\ xo = false) ->
  wp (for_each l (fun h => if hid =? h then fault else lock_handle_with_notification h mode) ;;;
      e <-- new_event (EventLockAcquired mode) ;; deliver_event_notifications p e) st (fun _ st' => good c0 st').
Proof.
  intros Hg Hr Hl Hn Hex Hmode Hm.
  assert (Hk : forall st', good c0 st' -> wp (e <-- new_event (EventLockAcquired mode) ;; deliver_event_notifications p e) st' (fun _ st' => good c0 st')).
  { intros st' Hg'. apply (safe_frame _ (frame_announce true p mode) c0 st' Hg'). }
  apply wp_bind. destruct Hm as [[-> [->|[i ->]]]|[-> Hxo]].
  - apply wp_ret, Hk, Hg.
  - simpl. apply wp_bind. destruct (hid =? i); [exact I|]. destruct (Hl i (or_introl eq_refl)) as [(h & Hh & <-) Ha].
    eapply wp_mono; [|apply (wp_lock_notify c0 st i h n); [exact Hg|exact Hh|exact Ha|exact Hn|right; auto|exact Hr]].
    intros [[]|e|] st' [Hg' _]; [apply wp_ret, Hk, Hg'|exact Hg'|exact I].
  - eapply wp_mono; [|apply (wp_grant_shared hid p c0 l Hxo st Hg Hr Hl); eauto].
    intros [[]|e|] st' Hg'; [apply Hk, Hg'|exact Hg'|exact I].
Qed.

Lemma of_node_core st st' p q f l : core_of st' = on_node q f (core_of st) -> of_node st p l -> of_node st' p l.
Proof.
  intros E Hl i Hi. destruct (Hl i Hi) as [(h & Hh & En) Ha]. split; [|exact (hmap_core _ _ _ _ _ E Ha)].
  exists h. split; [exact (handle_core _ _ _ _ _ _ E Hh)|exact En].
Qed.

(** The generation has been counted up; it is written, and the lock goes on. *)
Lemma wp_grant_write hid p c0 st n mode l : good c0 st -> raised x c0 (core_of st) p -> of_node st p l -> nodes st !! p = Some n -> exclusive_lock_handle n = 0 ->
  (mode = LOCK_MODE_EXCLUSIVE /\ (l = [] \/ exists i, l = [i]) \/ mode = LOCK_MODE_SHARED /\ xo = false) -> forall name generation,
  wp (fun st =>
        match transaction (db_write (set_xattr_i64 name lock_generation_attr generation)) st with
        | (Ok _, st) =>
            (upd_node p (nd_mode mode) ;;;
             for_each l (fun h => if hid =? h then fault else lock_handle_with_notification h mode) ;;;
             e <-- new_event (EventLockAcquired mode) ;;
             deliver_event_notifications p e) st
        | (Throw _, st) => (Ok tt, st)
        | (Fault, st) => (Fault, st)
        end) st (fun _ st' => good c0 st').
Proof.
  intros Hg Hr Hl Hn Hex Hmo name generation. unfold wp.
  pose proof (frame_transaction _ (frame_db_write (set_xattr_i64 name lock_generation_attr generation)) st) as Ht.
  destruct (transaction (db_write (set_xattr_i64 name lock_generation_attr generation)) st) as [[[]|e|] st1]; simpl in Ht; [|exact (good_core _ _ _ Ht Hg)|exact I].
  pose proof (good_core _ _ _ Ht Hg) as Hg1. pose proof (same_core_node _ _ p Ht) as Hn1. rewrite Hn in Hn1.
  apply (wp_bind (upd_node p (nd_mode mode))). eapply wp_mono; [|apply (safe_mode c0 st1 p mode Hg1)].
  2:{ intros m Hm. right. congruence. }
  intros r st2 (-> & E2 & Hg2). apply (wp_grant hid p c0 st2 (nd_mode mode n) mode l); try assumption; try reflexivity.
  - rewrite E2, Ht. apply raised_node; [exact Hr|reflexivity].
  - apply (of_node_core _ _ _ _ _ _ E2). intros j Hj. rewrite (same_core_handle _ _ j Ht), (same_core_hmap _ _ Ht). exact (Hl j Hj).
  - exact (node_core _ _ _ _ _ E2 Hn1).
Qed.

Lemma wp_grant_next hid p c0 st : good c0 st -> (forall n, nodes st !! p = Some n -> exclusive_lock_handle n = 0) ->
  wp (grant_next hid p) st (fun _ st' => good c0 st').
Proof.
  intros Hg Hex. unfold grant_next. apply wp_bind, wp_node. intros n Hn. specialize (Hex n Hn).
  destruct (pending_lock_reqs n) as [|r0 l0] eqn:Ep; [exact Hg|]. rewrite <- Ep.
  destruct (next_requests (pending_lock_reqs n)) as [[mode hs] rest] eqn:En.
  destruct (next_requests_in _ _ _ _ En) as (Hhs & Hrest & Hmode); [congruence|].
  apply wp_bind, wp_get. apply wp_bind. eapply wp_mono; [|apply (safe_pop c0 st p rest Hg); intros m Hm; assert (m = n) as -> by congruence; exact Hrest].
  intros r st1 (-> & E1 & Hg1).
  assert (Hl : of_node st p (List.filter (fun h => set_has h (m_handle_map st)) hs)).
  { intros i Hi. apply filter_In in Hi as [Hi Ha]. split; [|exact Ha]. destruct (Hhs i Hi) as (r & Hr & <-).
    destruct Hg as [Hi' _]. exact (no_pending _ _ _ _ (i_nodes _ _ Hi' p n Hn) r Hr). }
  assert (Hmo : forall l, l = List.filter (fun h => set_has h (m_handle_map st)) hs ->
    mode = LOCK_MODE_EXCLUSIVE /\ (l = [] \/ exists i, l = [i]) \/ mode = LOCK_MODE_SHARED /\ xo = false).
  { intros l ->. destruct Hmode as [[-> [h ->]]|[-> (r & Hr & Hne)]].
    - left. split; [reflexivity|]. simpl. destruct (set_has h (m_handle_map st)); eauto.
    - right. split; [reflexivity|]. destruct xo eqn:Exo; [|reflexivity]. exfalso. apply Hne.
      destruct Hg as [Hi' _]. destruct (no_shared _ _ _ _ (i_nodes _ _ Hi' p n Hn) Exo) as [_ H]. exact (H r Hr). }
  specialize (Hmo _ eq_refl). revert Hl Hmo. generalize (List.filter (fun h => set_has h (m_handle_map st)) hs). intros l Hl Hmo.
  destruct l as [|i l]; [exact Hg1|]. pose proof (node_core _ _ _ _ _ E1 Hn) as Hn1. pose proof (of_node_core _ _ _ _ _ _ E1 Hl) as Hl1.
  apply wp_bind. eapply wp_mono; [|apply (safe_generation c0 st1 p (lock_generation n + 1) Hg1)].
  2:{ intros m Hm _. assert (m = nd_pending (fun _ => rest) n) as -> by congruence. simpl. lia. }
  intros r st2 (-> & E2 & Hg2). pose proof (node_core _ _ _ _ _ E2 Hn1) as Hn2. pose proof (of_node_core _ _ _ _ _ _ E2 Hl1) as Hl2.
  pose proof (raised_generation c0 st1 p _ st2 Hg1 Hn1 E2) as Hr2.
  apply (wp_grant_write hid p c0 st2 (nd_generation (lock_generation n + 1) (nd_pending (fun _ => rest) n))); assumption.
Qed.

Lemma wp_unlock c0 st i h n f : good c0 st -> handles st !! i = Some h -> nodes st !! h_node h = Some n ->
  (f = nd_exclusive 0 /\ exclusive_lock_handle n = i \/ f = nd_shared (set_erase i) /\ exclusive_lock_handle n = 0) ->
  wp (upd_node (h_node h) f ;;; upd_handle i (hd_locked false)) st
    (fun r st' => r = Ok tt /\ good c0 st' /\ nodes st' !! h_node h = Some (f n) /\ exclusive_lock_handle (f n) = 0).
Proof.
  intros Hg Hh Hn Hf. apply wp_bind, wp_modify, wp_modify. split; [reflexivity|]. split; [|split].
  - apply (good_trans c0 st (unlock_core i (h_node h) f (core_of st)) Hg).
    + apply (unlock_core_inv xo i h n); [apply Hg|assumption..].
    + apply unlock_core_later. intros m. destruct Hf as [[-> _]|[-> _]]; auto.
  - simpl. rewrite (alter_some _ _ _ _ n Hn), decide_True; reflexivity.
  - destruct Hf as [[-> _]|[-> E]]; [reflexivity|exact E].
Qed.

Lemma wp_assoc {A B C} (m : act D A) (f : A -> act D B) (g : B -> act D C) st Q :
  wp (bind_act (bind_act m f) g) st Q -> wp (bind_act m (fun a => bind_act (f a) g)) st Q.
Proof. unfold wp, bind_act. destruct (m st) as [[] st']; auto. Qed.

(** The rest of [release_lock], once the lock is given up. *)
Lemma wp_released hid p c0 st n : good c0 st -> nodes st !! p = Some n -> exclusive_lock_handle n = 0 ->
  wp (n <-- get_node_data p ;;
      (match shared_lock_handles n with
       | [] => e <-- new_event EventLockReleased ;; deliver_event_notifications p e
       | _ => ret tt
       end) ;;;
      upd_node p (nd_mode 0) ;;;
      grant_next hid p) st (fun _ st' => good c0 st').
Proof.
  intros Hg Hn Hex. apply wp_bind, wp_node. intros n' Hn'. assert (n' = n) as -> by congruence.
  apply wp_bind. apply wp_frame; [frame_step|]. intros r st1 E1. pose proof (good_core _ _ _ E1 Hg) as Hg1.
  destruct r as [[]|e|]; [|exact Hg1|exact I]. pose proof (same_core_node _ _ p E1) as Hn1. rewrite Hn in Hn1.
  apply wp_bind. eapply wp_mono; [|apply (safe_mode c0 st1 p 0 Hg1); intros m Hm; right; congruence].
  intros r st2 (-> & E2 & Hg2). apply wp_grant_next; [exact Hg2|]. intros m Hm. rewrite (node_core _ _ _ _ _ E2 Hn1) in Hm. injection Hm as <-. exact Hex.
Qed.

Lemma safe_release_lock hid : safe (release_lock hid).
Proof.
  intros c0 st Hg. unfold release_lock. apply wp_bind, wp_handle. intros h Hh. destruct (negb (locked h)); [exact Hg|].
  pose proof (ho_id _ _ _ (i_handles _ _ (proj1 Hg) hid h Hh)) as Hid. rewrite Hid.
  apply wp_bind, wp_node. intros n Hn. destruct (exclusive_lock_handle n =? 0) eqn:Ex; simpl.
  - apply Z.eqb_eq in Ex. destruct (set_has hid (shared_lock_handles n)); [|apply wp_bind, wp_throw, Hg].
    apply wp_assoc, wp_bind. eapply wp_mono; [|apply (wp_unlock c0 st hid h n (nd_shared (set_erase hid))); auto].
    intros r st1 (-> & Hg1 & Hn1 & Hex1). exact (wp_released hid _ c0 st1 _ Hg1 Hn1 Hex1).
  - destruct (hid =? exclusive_lock_handle n) eqn:Ei; [|apply wp_bind, wp_fault]. apply Z.eqb_eq in Ei.
    apply wp_assoc, wp_bind. eapply wp_mono; [|apply (wp_unlock c0 st hid h n (nd_exclusive 0)); auto].
    intros r st1 (-> & Hg1 & Hn1 & Hex1). exact (wp_released hid _ c0 st1 _ Hg1 Hn1 Hex1).
Qed.

(** ** Nodes and handles *)

Lemma good_erase c0 st hid : good c0 st -> good c0 (set_handles (handles st) (set_erase hid (m_handle_map st)) (m_next_handle_number st) st).
Proof.
  intros [[H1 H2 H3 H4 H5] [L1 L2 L3 L4]]. split; constructor; simpl; try assumption.
  - intros p n Hn. destruct (H1 p n Hn) as [N1 N2 N3 N4]. constructor; assumption.
  - intros i h Hh. destruct (H2 i h Hh) as [A1 A2 A3]. constructor; assumption.
  - intros i Hs. apply H5. simpl in *. apply set_has_in in Hs. apply set_erase_in in Hs as [Hs _]. apply set_has_in, Hs.
  - intros i Hd. destruct (L4 i Hd) as [Hi Hh]. split; [|exact Hh]. simpl in *. apply not_true_iff_false. intros H. apply set_has_in, set_erase_in in H as [H _].
    apply set_has_in in H. congruence.
Qed.

Lemma good_unmap c0 st name : good c0 st -> good c0 (set_nodes (nodes st) (next_node st) (delete name (m_node_map st)) st).
Proof.
  intros [[H1 H2 H3 H4 H5] [L1 L2 L3 L4]]. split; constructor; simpl; try assumption.
  - intros p n Hn. destruct (H1 p n Hn) as [N1 N2 N3 N4]. constructor; assumption.
  - intros i h Hh. destruct (H2 i h Hh) as [A1 A2 A3]. constructor; assumption.
  - intros m p Hm. apply lookup_delete_Some in Hm as [_ Hm]. exact (H3 m p Hm).
Qed.

Lemma wp_get_node c0 st name : good c0 st -> wp (get_node name) st (fun r st' => good c0 st' /\ m_bdb_fs st' = m_bdb_fs st /\
  forall p, r = Ok p -> exists n, nodes st' !! p = Some n /\ n_name n = name).
Proof.
  intros Hg. unfold get_node, wp. destruct (m_node_map st !! name) as [p|] eqn:E.
  { split; [exact Hg|]. split; [reflexivity|]. intros p' H. injection H as <-. exact (i_map _ _ (proj1 Hg) name p E). }
  simpl. destruct Hg as [[H1 H2 H3 H4 H5] [L1 L2 L3 L4]].
  assert (Hfree : forall q n, nodes st !! q = Some n -> <[next_node st := new_node name]> (nodes st) !! q = Some n).
  { intros q n Hn. rewrite lookup_insert_ne; [exact Hn|]. pose proof (no_fresh _ _ _ _ (H1 q n Hn)) as Hlt. simpl in Hlt. lia. }
  split; [|split; [reflexivity|]].
  - split; constructor; simpl; try assumption.
    + intros p n Hn. destruct (decide (next_node st = p)) as [<-|Hne].
      * rewrite lookup_insert_eq in Hn. injection Hn as <-. constructor; simpl; [lia|congruence|intros r []|]. intros _. split; [reflexivity|intros r []].
      * rewrite lookup_insert_ne in Hn by exact Hne. destruct (H1 p n Hn) as [N1 N2 N3 N4]. constructor; simpl in *; try assumption. lia.
    + intros i h Hh. destruct (H2 i h Hh) as [A1 A2 A3]. constructor; simpl in *; try assumption. intros Hl. destruct (A3 Hl) as (n & Hn & Hin). eauto.
    + intros m p Hm. destruct (decide (name = m)) as [<-|Hne].
      * rewrite lookup_insert_eq in Hm. injection Hm as <-. rewrite lookup_insert_eq. eauto.
      * rewrite lookup_insert_ne in Hm by exact Hne. destruct (H3 m p Hm) as (n & Hn & En). eauto.
    + intros p n Hn. destruct (L1 p n Hn) as (n' & Hn' & Hc). eauto.
    + intros i h Hh. destruct (L2 i h Hh) as (h' & Hh' & En & Hc). exists h'. split; [exact Hh'|]. split; [exact En|]. intros F T n n' Hn Hn'.
      destruct (L1 _ n Hn) as (n1 & Hn1 & _). rewrite (Hfree _ _ Hn1) in Hn'. injection Hn' as <-. eauto.
    + intros i h' Hno Hh' T n n' Hn Hn'. destruct (L1 _ n Hn) as (n1 & Hn1 & _). rewrite (Hfree _ _ Hn1) in Hn'. injection Hn' as <-. eauto.
  - intros p H. injection H as <-. rewrite lookup_insert_eq. eauto.
Qed.

Lemma wp_find_parent c0 st name : good c0 st -> wp (find_parent_node name) st (fun _ st' => good c0 st' /\ m_bdb_fs st' = m_bdb_fs st).
Proof.
  intros Hg. unfold find_parent_node.
  assert (Hn : forall nm (child : list Z), wp (p <-- get_node nm ;; ret (p, child)) st (fun _ st' => good c0 st' /\ m_bdb_fs st' = m_bdb_fs st)).
  { intros nm child. apply wp_bind. eapply wp_mono; [|apply wp_get_node, Hg]. intros [p|e|] st' (Hg' & Hd & _); [split; assumption|split; assumption|exact I]. }
  destruct (dir_part name) as [|a [|b l]]; [apply Hn| |apply Hn].
  unfold wp, bind_act. destruct (m_node_map st !! [slash]); simpl; auto.
Qed.

Lemma safe_remove_ephemeral uninit p : safe (remove_ephemeral uninit p).
Proof.
  intros c0 st2 Hg2. unfold remove_ephemeral. apply wp_bind, wp_node. intros n2 Hn2. destruct (ephemeral n2); [|exact Hg2].
  apply wp_bind. eapply wp_mono; [|apply wp_find_parent, Hg2]. intros [[parent child]|e|] st3 [Hg3 _]; [|exact Hg3|exact I].
  apply wp_bind. apply wp_frame; [apply frame_event|]. intros r st4 E4. pose proof (good_core _ _ _ E4 Hg3) as Hg4. destruct r as [e|e|]; [|exact Hg4|exact I].
  apply wp_bind. apply wp_frame; [apply frame_deliver|]. intros r st5 E5. pose proof (good_core _ _ _ E5 Hg4) as Hg5. destruct r as [[]|e'|]; [|exact Hg5|exact I].
  unfold wp. pose proof (frame_transaction _ (frame_db_write (unlink (n_name n2))) st5) as Ht.
  destruct (transaction (db_write (unlink (n_name n2))) st5) as [[[]|e'|] st6]; simpl in Ht; [|exact (good_core _ _ _ Ht Hg5)|exact I].
  apply good_unmap. exact (good_core _ _ _ Ht Hg5).
Qed.

Lemma quiet_handles g : quiet (nd_handles g).
Proof. intros n. auto 10. Qed.

Lemma safe_destroy_handle uninit hid : safe (destroy_handle uninit hid).
Proof.
  unfold destroy_handle. apply safe_bind; [apply safe_frame, keeps_has_handle|]. intros b. destruct (negb b); [apply safe_frame, keeps_ret|].
  apply safe_bind; [intros c0 st Hg; apply good_erase, Hg|]. intros _. apply safe_bind; [apply safe_frame, keeps_handle|]. intros h.
  apply safe_bind; [apply safe_quiet, quiet_handles|]. intros _. apply safe_bind; [apply safe_frame, keeps_node|]. intros n.
  apply safe_bind; [apply safe_release_lock|]. intros _. destruct (length (handle_map n)); [apply safe_remove_ephemeral|apply safe_frame, keeps_ret].
Qed.

Lemma safe_expire_session uninit sid : safe (expire_session uninit sid).
Proof.
  unfold expire_session. apply safe_bind; [apply safe_frame, frame_upd_session|]. intros _.
  apply safe_bind; [apply safe_frame, frame_upd_session|]. intros _. apply safe_bind; [apply safe_frame, keeps_session|]. intros s.
  apply safe_bind; [apply safe_for_each; intros h; apply safe_bind; [apply safe_destroy_handle|intros _; apply safe_frame, keeps_ret]|]. intros _.
  apply safe_bind; intros; apply safe_frame, frame_upd_session.
Qed.

Lemma frame_next_expired now : frame (@next_expired_session D now).
Proof.
  intros st. unfold next_expired_session. destruct (m_session_heap st) as [|s l]; [reflexivity|].
  apply (keeps_bind core_of (session_object _)); [apply keeps_session|]. intros sd. destruct (is_expired now sd); [|apply keeps_ret].
  apply keeps_bind; [intros st'; reflexivity|]. intros _. apply keeps_ret.
Qed.

Lemma safe_remove_expired uninit fuel now : forall i, safe (remove_expired_loop uninit fuel now i).
Proof.
  induction fuel as [|fuel IH]; intros i; simpl; [apply safe_frame, keeps_ret|]. apply safe_bind; [apply safe_frame, frame_next_expired|].
  intros [sid|]; [|apply safe_frame, keeps_ret]. apply safe_bind; [apply safe_expire_session|]. intros _. apply IH.
Qed.

(** ** Opening *)

Definition new_handle (i flags mask p sid : Z) : HandleData := {| h_id := i; open_flags := flags; event_mask := mask; h_node := p; h_session := sid; locked := false |}.

Lemma wp_create_handle {A} c0 st flags mask p sid (k : Z -> act D A) Q : good c0 st ->
  (forall i st', good c0 st' -> nodes st' = nodes st -> handles st' !! i = Some (new_handle i flags mask p sid) -> set_has i (m_handle_map st') = true -> wp (k i) st' Q) ->
  wp (hid <-- create_handle ;;
      upd_handle hid (fun h => {| h_id := h_id h; open_flags := flags; event_mask := mask; h_node := p; h_session := sid; locked := locked h |}) ;;;
      k hid) st Q.
Proof.
  intros Hg Hk. apply wp_bind. unfold wp at 1, create_handle. apply wp_bind, wp_modify. apply Hk; clear Hk k Q.
  2: reflexivity.
  2:{ simpl. rewrite lookup_alter_eq, lookup_insert_eq. reflexivity. }
  2:{ apply set_has_in, in_or_app. right. left. reflexivity. }
  destruct Hg as [[H1 H2 H3 H4 H5] [L1 L2 L3 L4]]. set (i := m_next_handle_number st + 1).
  set (f := fun h => {| h_id := h_id h; open_flags := flags; event_mask := mask; h_node := p; h_session := sid; locked := locked h |}).
  set (hs := alter f i (<[i := {| h_id := i; open_flags := 0; event_mask := 0; h_node := 0; h_session := 0; locked := false |}]> (handles st))).
  assert (Hold : forall j h, handles st !! j = Some h -> hs !! j = Some h).
  { intros j h Hh. pose proof (ho_range _ _ _ (H2 j h Hh)) as Hr. simpl in Hr. unfold hs. rewrite lookup_alter_ne, lookup_insert_ne by lia. exact Hh. }
  assert (Hnew : forall j h, hs !! j = Some h -> j = i /\ h = new_handle i flags mask p sid \/ handles st !! j = Some h).
  { intros j h. unfold hs. destruct (decide (i = j)) as [<-|Hne].
    - rewrite lookup_alter_eq, lookup_insert_eq. intros H. injection H as <-. left. auto.
    - rewrite lookup_alter_ne, lookup_insert_ne by exact Hne. auto. }
  split; constructor; simpl; fold i; fold hs.
  - intros q n Hn. destruct (H1 q n Hn) as [N1 N2 N3 N4]. constructor; simpl in *; try assumption. intros r Hr. destruct (N3 r Hr) as (h & Hh & En). eauto.
  - intros j h Hh. destruct (Hnew j h Hh) as [[-> ->]|Hh']; [constructor; simpl; [reflexivity|simpl in H4; unfold i; lia|discriminate]|].
    destruct (H2 j h Hh') as [A1 A2 A3]. constructor; simpl in *; [exact A1|unfold i; lia|exact A3].
  - exact H3.
  - simpl in H4. unfold i. lia.
  - intros j Hj. apply set_has_in, in_app_or in Hj as [Hj|[<-|[]]].
    + apply set_has_in in Hj. destruct (H5 j Hj) as [h Hh]. rewrite (Hold j h Hh). eauto.
    + unfold hs. rewrite lookup_alter_eq, lookup_insert_eq. eauto.
  - exact L1.
  - intros j h Hh. destruct (L2 j h Hh) as (h' & Hh' & Hc). eauto.
  - intros j h' Hno Hh'. destruct (Hnew j h' Hh') as [[-> ->]|Hh'']; [discriminate|eauto].
  - intros j Hd. destruct (L4 j Hd) as [Hj (h & Hh & Hl)]. simpl in *. split; [|simpl; fold i; fold hs; eauto]. simpl. fold i.
    apply not_true_iff_false. rewrite set_has_in. intros H. apply in_app_or in H as [H|[H|[]]]; [apply set_has_in in H; congruence|].
    pose proof (ho_range _ _ _ (H2 j h Hh)) as Hr. simpl in Hr. unfold i in H. lia.
Qed.

Lemma wp_open_file c0 st name flags attrs p n : good c0 st -> nodes st !! p = Some n -> n_name n = name ->
  x = Some name \/ fst (exists_ name (m_bdb_fs st)) = true ->
  wp (open_file name flags attrs p) st (fun _ st' => good c0 st' /\ exists n', nodes st' !! p = Some n' /\ exclusive_lock_handle n' = exclusive_lock_handle n).
Proof.
  intros Hg Hn Hname Hx. set (Q := fun st' => good c0 st' /\ exists n', nodes st' !! p = Some n' /\ exclusive_lock_handle n' = exclusive_lock_handle n).
  assert (HQ : forall st1 st2, core_of st2 = core_of st1 -> Q st1 -> Q st2).
  { intros st1 st2 E (Hg1 & n' & Hn' & Hex). split; [exact (good_core _ _ _ E Hg1)|]. exists n'. rewrite (same_core_node _ _ p E). auto. }
  assert (HF : forall (B : Type) (m : act D B) st1, frame m -> Q st1 -> wp m st1 (fun _ st2 => Q st2)).
  { intros B m st1 Hf Hq. apply wp_frame; [exact Hf|]. intros r st2 E. exact (HQ st1 st2 E Hq). }
  assert (Hgen : forall g st1, core_of st1 = core_of st -> (counted x n -> False) -> wp (upd_node p (nd_generation g)) st1 (fun r st2 => r = Ok tt /\ Q st2)).
  { intros g st1 E Hc. pose proof (same_core_node _ _ p E) as Hn1. rewrite Hn in Hn1.
    eapply wp_mono; [|apply (safe_generation c0 st1 p g (good_core _ _ _ E Hg)); intros m Hm Hcm; exfalso; apply Hc; congruence].
    intros r st2 (-> & E2 & Hg2). split; [reflexivity|]. split; [exact Hg2|]. eexists. split; [exact (node_core _ _ _ _ _ E2 Hn1)|reflexivity]. }
  assert (Q0 : Q st) by (split; eauto).
  change (wp (open_file name flags attrs p) st (fun _ st' => Q st')). unfold open_file. apply wp_bind. unfold wp at 1, db_read.
  destruct (fst (exists_ name (m_bdb_fs st))) eqn:Ee.
  - destruct (has flags OPEN_FLAG_CREATE && has flags OPEN_FLAG_EXCL); [exact Q0|]. destruct (has flags OPEN_FLAG_TEMP); [exact Q0|].
    apply wp_bind, wp_node. intros n' Hn'. assert (n' = n) as -> by congruence. destruct (lock_generation n =? 0) eqn:E0; [|exact Q0].
    apply Z.eqb_eq in E0. assert (Hc : counted x n -> False) by (intros [_ Hc]; lia).
    apply wp_bind. apply wp_frame; [apply keeps_db_read|]. intros r st1 E1. destruct r as [[g|]|e|]; [| |exact (HQ st st1 E1 Q0)|exact I].
    + apply wp_bind. eapply wp_mono; [|apply Hgen; assumption]. intros r st2 [-> Q2]. exact Q2.
    + apply wp_bind. eapply wp_mono; [|apply Hgen; assumption]. intros r st2 [-> Q2]. apply HF; [frame_step|exact Q2].
  - destruct Hx as [Hx|]; [|congruence]. assert (Hc : counted x n -> False) by (intros [Hc _]; congruence).
    destruct (negb (has flags OPEN_FLAG_CREATE)); [exact Q0|]. apply wp_bind. apply wp_frame; [apply frame_db_write|]. intros r st1 E1.
    destruct r as [[]|e|]; [|exact (HQ st st1 E1 Q0)|exact I].
    apply wp_bind. eapply wp_mono; [|apply Hgen; assumption]. intros r st2 [-> Q2].
    apply wp_bind. eapply wp_mono; [|apply (HF _ _ st2 (frame_db_write _) Q2)]. intros r st3 Q3. destruct r as [[]|e|]; [|exact Q3|exact I].
    apply wp_bind. eapply wp_mono; [|apply (HF _ _ st3 (frame_set_attrs _ _) Q3)]. intros r st4 Q4. destruct r as [[]|e|]; [|exact Q4|exact I].
    apply wp_bind. eapply wp_mono with (Q := fun _ st' => Q st'); [intros [[]|e|] st5 Q5; [exact Q5|exact Q5|exact I]|].
    destruct (has flags OPEN_FLAG_TEMP); [|exact Q4]. destruct Q4 as (Hg4 & n4 & Hn4 & Hex4).
    eapply wp_mono; [|apply (wp_modify _ st4 (fun _ st' => st' = set_nodes (alter nd_ephemeral p (nodes st4)) (next_node st4) (m_node_map st4) st4)); reflexivity].
    intros r st5 ->. split; [exact (safe_quiet p nd_ephemeral ltac:(intros m; auto 10) c0 st4 Hg4)|].
    exists (nd_ephemeral n4). simpl. rewrite (alter_some _ _ _ _ n4 Hn4), decide_True by reflexivity. auto.
Qed.

Lemma wp_open_lock st flags n : (xo = true -> has_all flags OPEN_FLAG_LOCK_SHARED = false) ->
  wp (open_lock flags n) st (fun r st' => st' = st /\ forall mode b, r = Ok (mode, b) -> mode <> 0 -> exclusive_lock_handle n = 0 /\ mode_ok mode).
Proof.
  intros Hxo. unfold open_lock, mode_ok. destruct (has_all flags OPEN_FLAG_LOCK_SHARED).
  - destruct (exclusive_lock_handle n =? 0) eqn:E; simpl; (split; [reflexivity|]); intros mode b H; [|discriminate]. injection H as <- _. intros _.
    split; [apply Z.eqb_eq, E|]. left. split; [reflexivity|]. destruct xo; [specialize (Hxo eq_refl); discriminate|reflexivity].
  - destruct (has_all flags OPEN_FLAG_LOCK_EXCLUSIVE).
    + destruct (exclusive_lock_handle n =? 0) eqn:E; simpl; [|split; [reflexivity|discriminate]].
      destruct (shared_lock_handles n); simpl; (split; [reflexivity|]); intros mode b H; [|discriminate]. injection H as <- _. intros _. split; [apply Z.eqb_eq, E|auto].
    + split; [reflexivity|]. intros mode b H Hm. injection H as <- _. congruence.
Qed.

(** The end of an open: the handle is there. *)
Lemma wp_opened c0 st i h n name mode notify (created : bool) : good c0 st -> handles st !! i = Some h -> set_has i (m_handle_map st) = true -> nodes st !! h_node h = Some n ->
  (mode <> 0 -> exclusive_lock_handle n = 0 /\ mode_ok mode) ->
  wp (lock_generation <-- (if negb (mode =? 0) then acquire i (h_node h) name mode notify else ret 0) ;;
      upd_node (h_node h) (nd_handles (fun l => l ++ [i])) ;;;
      ret (i, created, lock_generation)) st (fun _ st' => good c0 st').
Proof.
  intros Hg Hh Ha Hn Hm. apply wp_bind. eapply wp_mono with (Q := fun _ st' => good c0 st').
  - intros [g|e|] st6 Hg6; [|exact Hg6|exact I]. apply wp_bind. eapply wp_mono; [|apply (safe_quiet (h_node h) (nd_handles (fun l => l ++ [i]))); [intros m; auto 10|exact Hg6]].
    intros [[]|e|] st7 Hg7; [exact Hg7|exact Hg7|exact I].
  - destruct (negb (mode =? 0)) eqn:Em; [|exact Hg]. apply negb_true_iff, Z.eqb_neq in Em. destruct (Hm Em) as [Hex Hmo].
    apply (wp_acquire c0 st i h n); assumption.
Qed.

Lemma wp_open c0 st sid name flags mask attrs : good c0 st -> x = Some name \/ fst (exists_ name (m_bdb_fs st)) = true ->
  (xo = true -> has_all flags OPEN_FLAG_LOCK_SHARED = false) -> wp (open sid name flags mask attrs) st (fun _ st' => good c0 st').
Proof.
  intros Hg Hx Hxo. unfold open. apply wp_bind. unfold assert_. destruct (hd 0 name =? slash); [|exact I].
  apply wp_bind. unfold need_session. apply wp_bind, wp_get. destruct (set_has sid (m_session_map st)); [|exact Hg].
  apply wp_bind. eapply wp_mono; [|apply wp_find_parent, Hg]. intros [[parent child]|e|] st1 [Hg1 Hd1]; [|exact Hg1|exact I].
  apply wp_bind. destruct (match attrs with [] => false | _ => negb (has flags OPEN_FLAG_CREATE) end); [exact Hg1|].
  apply wp_bind. eapply wp_mono; [|apply wp_get_node, Hg1]. intros [p|e|] st2 (Hg2 & Hd2 & Hp); [|exact Hg2|exact I].
  destruct (Hp p eq_refl) as (n & Hn & Hname). rewrite <- Hd1, <- Hd2 in Hx. clear Hp Hg Hg1 Hd1 Hd2.
  apply wp_transaction. apply wp_bind, wp_node. intros n' Hn'. assert (n' = n) as -> by congruence.
  apply wp_bind. eapply wp_mono; [|apply (wp_open_lock st2 flags n Hxo)]. intros [[mode notify]|e|] st3 [-> Hm]; [|exact Hg2|exact I]. specialize (Hm mode notify eq_refl).
  apply wp_bind. eapply wp_mono; [|apply (wp_open_file c0 st2 name flags attrs p n); assumption].
  intros [created|e|] st3 (Hg3 & n3 & Hn3 & Hex3); [|exact Hg3|exact I].
  apply (wp_create_handle c0 st3 flags mask p sid); [exact Hg3|]. intros i st4 Hg4 En4 Hi4 Ha4. rewrite <- En4 in Hn3.
  apply wp_bind, wp_modify. apply wp_bind. apply wp_frame; [destruct created; frame_step; destruct (bytes_eqb name [slash]); frame_step|]. intros r st5 E5.
  pose proof (good_core _ _ _ E5 (good_core c0 st4 _ eq_refl Hg4)) as Hg5. destruct r as [[]|e|]; [|exact Hg5|exact I].
  pose proof (same_core_node _ _ p E5) as Hn5. simpl in Hn5. rewrite Hn3 in Hn5. pose proof (same_core_handle _ _ i E5) as Hi5. simpl in Hi5. rewrite Hi4 in Hi5.
  apply (wp_opened c0 st5 i (new_handle i flags mask p sid) n3); try assumption; [rewrite (same_core_hmap _ _ E5); exact Ha4|]. rewrite Hex3. exact Hm.
Qed.

(** ** Requests *)

Lemma bad_mode i mode st Q : mode <> LOCK_MODE_SHARED -> mode <> LOCK_MODE_EXCLUSIVE -> wp (lock_handle i mode) st Q.
Proof.
  intros H1 H2. apply Z.eqb_neq in H1, H2. unfold lock_handle. rewrite H1, H2. apply wp_bind, wp_handle. intros h _. exact I.
Qed.

Lemma wp_lock_mode c0 st i h n mode : good c0 st -> handles st !! i = Some h -> set_has i (m_handle_map st) = true -> nodes st !! h_node h = Some n ->
  exclusive_lock_handle n = 0 -> (xo = true -> mode = LOCK_MODE_EXCLUSIVE) -> wp (lock_now i (h_node h) mode n) st (fun _ st' => good c0 st').
Proof.
  intros Hg Hh Ha Hn Hex Hxo. destruct (Z.eq_dec mode LOCK_MODE_EXCLUSIVE) as [Em|Hm2]; [apply wp_lock_now; try assumption; right; exact Em|].
  assert (Exo : xo = false) by (destruct xo; [specialize (Hxo eq_refl); congruence|reflexivity]).
  destruct (Z.eq_dec mode LOCK_MODE_SHARED) as [Em|Hm1]; [apply wp_lock_now; try assumption; left; auto|].
  unfold lock_now. apply wp_bind. eapply wp_mono; [|apply (safe_generation c0 st _ (lock_generation n + 1) Hg)].
  2:{ intros n' Hn' _. assert (n' = n) as -> by congruence. lia. }
  intros r st1 (-> & E1 & Hg1). apply wp_bind. apply wp_frame; [apply frame_transaction, frame_db_write|]. intros r st2 E2.
  destruct r as [[]|e|]; [|exact (good_core _ _ _ E2 Hg1)|exact I]. apply wp_bind, wp_modify. apply wp_bind. apply bad_mode; assumption.
Qed.

Lemma wp_wait c0 st i h mode try_lock : good c0 st -> handles st !! i = Some h -> (xo = true -> mode = LOCK_MODE_EXCLUSIVE) ->
  wp (wait_or_busy i (h_node h) mode try_lock) st (fun _ st' => good c0 st').
Proof.
  intros Hg Hh Hxo. unfold wait_or_busy. destruct try_lock; [exact Hg|]. apply wp_bind. eapply wp_mono; [|apply (safe_push c0 st i h mode); assumption].
  intros [[]|e|] st' Hg'; [exact Hg'|exact Hg'|exact I].
Qed.

Lemma wp_need_session c0 st sid : good c0 st -> wp (need_session sid) st (fun _ st' => st' = st).
Proof. intros Hg. unfold need_session. apply wp_bind, wp_get. destruct (set_has sid (m_session_map st)); reflexivity. Qed.

Lemma wp_need_handle st hid : wp (need_handle hid) st (fun r st' => st' = st /\ forall h, r = Ok h -> handles st !! hid = Some h /\ set_has hid (m_handle_map st) = true).
Proof.
  unfold need_handle. apply wp_bind, wp_get. destruct (set_has hid (m_handle_map st)) eqn:Ha; [|split; [reflexivity|discriminate]].
  apply wp_handle. intros h Hh. split; [reflexivity|]. intros h' E. injection E as <-. auto.
Qed.

Lemma safe_lock sid hid mode try_lock : (xo = true -> mode = LOCK_MODE_EXCLUSIVE) -> safe (lock sid hid mode try_lock).
Proof.
  intros Hxo c0 st Hg. unfold lock. apply wp_bind. eapply wp_mono; [|apply (wp_need_session c0 st sid Hg)]. intros [[]|e|] st' ->; [|exact Hg|exact I].
  apply wp_bind. eapply wp_mono; [|apply (wp_need_handle st hid)]. intros [h|e|] st' [-> Hh]; [|exact Hg|exact I]. destruct (Hh h eq_refl) as [Hh' Ha]. clear Hh. rename Hh' into Hh.
  destruct (negb (has (open_flags h) OPEN_FLAG_LOCK)); [exact Hg|]. destruct (negb (has (open_flags h) OPEN_FLAG_WRITE)); [exact Hg|].
  apply wp_bind, wp_node. intros n Hn. pose proof (no_mode _ _ _ _ (i_nodes _ _ (proj1 Hg) _ n Hn)) as Hmode.
  destruct (cur_lock_mode n =? LOCK_MODE_EXCLUSIVE) eqn:E1; [apply wp_wait; assumption|]. apply Z.eqb_neq in E1.
  assert (Hex : exclusive_lock_handle n = 0) by (destruct (Z.eq_dec (exclusive_lock_handle n) 0); tauto).
  destruct (cur_lock_mode n =? LOCK_MODE_SHARED) eqn:E2; [|apply wp_lock_mode; assumption].
  destruct (mode =? LOCK_MODE_EXCLUSIVE); [apply wp_wait; assumption|]. destruct (negb (mode =? LOCK_MODE_SHARED)); [exact I|].
  destruct (pending_lock_reqs n); [apply wp_lock_mode; assumption|apply wp_wait; assumption].
Qed.

Lemma safe_release sid hid : safe (release sid hid).
Proof.
  unfold release. apply safe_bind; [intros c0 st Hg; eapply wp_mono; [|apply (wp_need_session c0 st sid Hg)]; intros r st' ->; exact Hg|].
  intros _. apply safe_bind; [intros c0 st Hg; eapply wp_mono; [|apply (wp_need_handle st hid)]; intros r st' [-> _]; exact Hg|].
  intros _. apply safe_release_lock.
Qed.

Lemma safe_close uninit sid hid : safe (close uninit sid hid).
Proof.
  unfold close. apply safe_bind; [intros c0 st Hg; eapply wp_mono; [|apply (wp_need_session c0 st sid Hg)]; intros r st' ->; exact Hg|].
  intros _. apply safe_bind; [apply safe_frame, keeps_session|]. intros s. apply safe_bind; [apply safe_frame, frame_upd_session|]. intros _.
  destruct (set_has hid (s_handles s)); [|apply safe_frame, keeps_ret]. apply safe_bind; [apply safe_destroy_handle|].
  intros [e|]; apply safe_frame; [apply keeps_throw|apply keeps_ret].
Qed.

(** Requests on a name or a handle that have nothing to do with locks. *)
Lemma safe_parent {A} name (k : Z * list Z -> act D A) : (forall r, frame (k r)) -> safe (r <-- find_parent_node name ;; k r).
Proof.
  intros Hk. apply safe_bind; [|intros r; apply safe_frame, Hk]. intros c0 st Hg. eapply wp_mono; [|apply (wp_find_parent c0 st name Hg)]. intros r st' H. apply H.
Qed.

Lemma safe_mkdir name : safe (mkdir_request name).
Proof. apply safe_parent. intros [parent child]. unfold assert_. frame_step. Qed.

Lemma safe_unlink name : safe (unlink_request name).
Proof.
  unfold unlink_request. destruct (bytes_eqb name [slash]); [apply safe_frame, keeps_throw|]. apply safe_parent. intros [parent child]. unfold assert_. frame_step.
Qed.

End Safe.

Section Frames2.

Context {D : Type} {BT : Btree D}.

Lemma frame_need_session s : frame (@need_session D s).
Proof. unfold need_session. frame_step. Qed.
Lemma frame_need_handle i : frame (@need_handle D i).
Proof. unfold need_handle. frame_step. Qed.
#[local] Hint Resolve frame_need_session frame_need_handle : frames.

Lemma frame_attr_set s i a v : frame (attr_set s i a v).
Proof. unfold attr_set. frame_step. Qed.
Lemma frame_attr_get s i a : frame (attr_get s i a).
Proof. unfold attr_get. frame_step. Qed.
Lemma frame_attr_del s i a : frame (attr_del s i a).
Proof. unfold attr_del. frame_step. Qed.
Lemma frame_exists name : frame (exists_request name).
Proof. unfold exists_request, assert_. frame_step. Qed.
Lemma frame_readdir s i : frame (readdir s i).
Proof. unfold readdir. frame_step. Qed.

Lemma frame_keepalive now sid last shutdown : frame (@keepalive D now sid last shutdown).
Proof.
  unfold keepalive, destroy_session, renew_session_lease, erase_session. frame_step; intros st; try reflexivity.
  all: unfold modify; reflexivity.
Qed.

End Frames2.
