(* ===== verification/HyperRuns.v ===== *)
(** * Runs of the lock service

    Requests, reachable states, and what holds in them: mutual exclusion where only
    exclusive locks are used, and fencing; and what happens where shared locks are
    used, where a request waits behind one of a handle that is gone, and where a
    session expires that is to be notified. *)
Set Warnings "-notation-incompatible-prefix,-clear-no-such-hyp".
From S2P Require Import Prelude Errors Serialization BdbFs Namespace HyperMaster HyperLocks.
From stdpp Require Import base gmap list.
From Stdlib Require Import ZArith Lia.
Open Scope Z_scope.
Open Scope act_scope.
Import BerkeleyDbFilesystem.

Inductive request :=
| QKeepalive (now sid last_known_event : Z) (shutdown : bool)
| QTimer (now : nat -> Z)
| QMkdir (name : list Z)
| QUnlink (name : list Z)
| QOpen (sid : Z) (name : list Z) (flags mask : Z) (init_attrs : list (list Z * list Z))
| QClose (sid hid : Z)
| QAttrSet (sid hid : Z) (name value : list Z)
| QAttrGet (sid hid : Z) (name : list Z)
| QAttrDel (sid hid : Z) (name : list Z)
| QExists (name : list Z)
| QReaddir (sid hid : Z)
| QLock (sid hid mode : Z) (try_lock : bool)
| QRelease (sid hid : Z).

Section Runs.

Context {D : Type} {BT : Btree D}.
Variable uninitialized : Code.
Implicit Types st : Master D.

(** The state after an operation, unless it stops the process. *)
Definition after {A} (m : act D A) st : option (Master D) :=
  match m st with (Fault, _) => None | (_, st') => Some st' end.

Definition serve (r : request) st : option (Master D) :=
  match r with
  | QKeepalive now sid last shutdown => after (keepalive now sid last shutdown) st
  | QTimer now => after (remove_expired_sessions uninitialized now) st
  | QMkdir name => after (mkdir_request name) st
  | QUnlink name => after (unlink_request name) st
  | QOpen sid name flags mask attrs => after (open sid name flags mask attrs) st
  | QClose sid hid => after (close uninitialized sid hid) st
  | QAttrSet sid hid name value => after (attr_set sid hid name value) st
  | QAttrGet sid hid name => after (attr_get sid hid name) st
  | QAttrDel sid hid name => after (attr_del sid hid name) st
  | QExists name => after (exists_request name) st
  | QReaddir sid hid => after (readdir sid hid) st
  | QLock sid hid mode try_lock => after (lock sid hid mode try_lock) st
  | QRelease sid hid => after (release sid hid) st
  end.

(** The name of the file a request makes. *)
Definition makes (r : request) st : option (list Z) :=
  match r with
  | QOpen _ name _ _ _ => if fst (exists_ name (m_bdb_fs st)) then None else Some name
  | _ => None
  end.

Definition exclusive_only (r : request) : Prop :=
  match r with
  | QOpen _ _ flags _ _ => has_all flags OPEN_FLAG_LOCK_SHARED = false
  | QLock _ _ mode _ => mode = LOCK_MODE_EXCLUSIVE
  | _ => True
  end.

Lemma after_safe {A} xo x (m : act D A) st st' : wp m st (fun _ st' => good xo x (core_of st) st') -> after m st = Some st' ->
  inv xo (core_of st') /\ later x (core_of st) (core_of st').
Proof. unfold after, wp. destruct (m st) as [[] st1]; intros H E; try discriminate; injection E as <-; exact H. Qed.

Lemma serve_safe xo r st st' : inv xo (core_of st) -> (xo = true -> exclusive_only r) -> serve r st = Some st' ->
  inv xo (core_of st') /\ later (makes r st) (core_of st) (core_of st').
Proof.
  intros Hi Hxo. assert (Hg : good xo (makes r st) (core_of st) st) by (split; [exact Hi|apply later_core_refl]).
  destruct r; apply after_safe.
  - apply (safe_frame _ _ _ (frame_keepalive _ _ _ _) _ _ Hg).
  - apply (safe_remove_expired _ _ uninitialized (S (length (m_session_heap st))) now 0 _ _ Hg).
  - apply (safe_mkdir _ _ _ _ _ Hg).
  - apply (safe_unlink _ _ _ _ _ Hg).
  - apply wp_open; [exact Hg| |exact Hxo]. simpl. destruct (fst (exists_ name (m_bdb_fs st))); auto.
  - apply (safe_close _ _ uninitialized _ _ _ _ Hg).
  - apply (safe_frame _ _ _ (frame_attr_set _ _ _ _) _ _ Hg).
  - apply (safe_frame _ _ _ (frame_attr_get _ _ _) _ _ Hg).
  - apply (safe_frame _ _ _ (frame_attr_del _ _ _) _ _ Hg).
  - apply (safe_frame _ _ _ (frame_exists _) _ _ Hg).
  - apply (safe_frame _ _ _ (frame_readdir _ _) _ _ Hg).
  - apply (safe_lock _ _ _ _ _ _ Hxo _ _ Hg).
  - apply (safe_release _ _ _ _ _ _ Hg).
Qed.

(** Reachable states: by requests that satisfy [P]. *)
Inductive reach (P : request -> Prop) (d : D) (lease : Z) : Master D -> Prop :=
| reach_start : reach P d lease (snd (init d lease))
| reach_request st r st' : reach P d lease st -> P r -> serve r st = Some st' -> reach P d lease st'.

Lemma init_inv xo d lease : inv xo (core_of (snd (init d lease))).
Proof.
  assert (E : forall st, core_of (snd (get_generation_number (D := D) st)) = core_of st).
  { intros st. unfold get_generation_number. match goal with |- context [transaction ?m st] => pose proof (frame_transaction m) as Ht end.
    assert (Hf : frame (o <-- db_read (get_xattr_i32 metadata_file generation_attr) ;;
      let g := u32 (match o with Some g => g | None => 0 end + 1) in
      modify (set_generation g) ;;; db_write (set_xattr_i32 metadata_file generation_attr g))).
    { apply keeps_bind; [apply keeps_db_read|]. intros o. apply keeps_bind; [intros st'; reflexivity|]. intros _. apply frame_db_write. }
    specialize (Ht Hf st). destruct (transaction _ st) as [[] st']; exact Ht. }
  unfold init. rewrite E. constructor; simpl.
  - intros p n Hn. apply lookup_singleton_Some in Hn as [<- <-]. constructor; simpl; [lia|congruence|intros r []|]. intros _. split; [reflexivity|intros r []].
  - intros i h Hh. rewrite lookup_empty in Hh. discriminate.
  - intros name p Hp. apply lookup_singleton_Some in Hp as [<- <-]. rewrite lookup_singleton_eq. eauto.
  - lia.
  - discriminate.
Qed.

Lemma reached_inv xo P d lease st : (forall r, P r -> xo = true -> exclusive_only r) -> reach P d lease st -> inv xo (core_of st).
Proof.
  intros HP. induction 1 as [|st r st' _ IH Hr Hs]; [apply init_inv|]. apply (serve_safe xo r st st'); auto.
Qed.

(** C16. Exclusive locks exclude each other: in every state that is reached by requests
    of which none asks for a shared lock, at most one handle of a node is locked, and
    it is the one the node names.  Sessions may come, expire and be destroyed, handles
    be closed, and files be unlinked meanwhile. *)
Theorem exclusive_locks_exclude d lease st i j h h' n : reach exclusive_only d lease st ->
  handles st !! i = Some h -> locked h = true -> handles st !! j = Some h' -> locked h' = true -> h_node h = h_node h' -> nodes st !! h_node h = Some n ->
  i = j /\ exclusive_lock_handle n = i.
Proof.
  intros Hr Hi Hl Hj Hl' En Hn. pose proof (reached_inv true _ d lease st (fun r H _ => H) Hr) as Hinv.
  destruct (no_shared _ _ _ _ (i_nodes _ _ Hinv _ n Hn) eq_refl) as [Hs _].
  destruct (ho_locked _ _ _ (i_handles _ _ Hinv i h Hi) Hl) as (n1 & Hn1 & H1).
  destruct (ho_locked _ _ _ (i_handles _ _ Hinv j h' Hj) Hl') as (n2 & Hn2 & H2). rewrite <- En in Hn2. simpl in Hn1, Hn2.
  assert (n1 = n) as -> by congruence. assert (n2 = n) as -> by congruence. rewrite Hs in *. destruct H1 as [->|[]], H2 as [->|[]]. auto.
Qed.


(** The requests of a list in turn, as far as the process gets. *)
Fixpoint serve_all (rs : list request) st : Master D :=
  match rs with
  | [] => st
  | r :: rs => match serve r st with Some st' => serve_all rs st' | None => st end
  end.

Lemma reach_all P d lease rs : forall st, reach P d lease st -> Forall P rs -> reach P d lease (serve_all rs st).
Proof.
  induction rs as [|r rs IH]; intros st Hr Hf; simpl; [exact Hr|]. inversion Hf as [|? ? Hp Hf']; subst.
  destruct (serve r st) as [st'|] eqn:E; [|exact Hr]. apply IH; [|exact Hf']. exact (reach_request _ _ _ st r st' Hr Hp E).
Qed.

(** A request of a handle that is gone swallows the lock: when a handle gives up
    an exclusive lock and the first request of the queue, an exclusive one, is of a
    handle that has been closed, the request is dropped and nothing is granted, though
    others wait behind it: the node is not locked and the rest of the queue stays. *)
Theorem closed_waiter_swallows_lock hid st st' h n r rest : handles st !! hid = Some h -> h_id h = hid -> locked h = true -> hid <> 0 ->
  nodes st !! h_node h = Some n -> exclusive_lock_handle n = hid -> pending_lock_reqs n = r :: rest -> lr_mode r = LOCK_MODE_EXCLUSIVE ->
  set_has (lr_handle r) (m_handle_map st) = false -> release_lock hid st = (Ok tt, st') ->
  (exists n', nodes st' !! h_node h = Some n' /\ cur_lock_mode n' = 0 /\ exclusive_lock_handle n' = 0 /\ pending_lock_reqs n' = rest) /\
  forall i hi, handles st' !! i = Some hi -> locked hi = true -> i <> hid /\ handles st !! i = Some hi.
Proof.
  intros Hh Hid Hl H0 Hn Hex Hp Hmode Hgone E. set (p := h_node h) in *.
  set (c1 := unlock_core hid p (nd_exclusive 0) (core_of st)).
  assert (Hc : wp (release_lock hid) st (fun r st' => r = Ok tt -> core_of st' = on_node p (nd_pending (fun _ => rest)) (on_node p (nd_mode 0) c1))).
  { unfold release_lock. apply wp_bind, wp_handle. intros h' Hh'. assert (h' = h) as -> by congruence. rewrite Hl. simpl. fold p.
    apply wp_bind, wp_node. intros n' Hn'. assert (n' = n) as -> by congruence. rewrite Hid, Hex. apply Z.eqb_neq in H0. rewrite H0, Z.eqb_refl. simpl.
    apply wp_bind, wp_modify. apply wp_bind, wp_modify. apply wp_bind, wp_node. intros n1 Hn1. simpl in Hn1.
    rewrite (alter_some _ _ _ _ n Hn), decide_True in Hn1 by reflexivity. injection Hn1 as <-.
    apply wp_bind. apply wp_frame; [frame_step|]. intros [[]|e|] st1 E1; [|discriminate|exact I]. apply wp_bind, wp_modify.
    assert (En : nodes st1 !! p = Some (nd_exclusive 0 n)).
    { pose proof (same_core_node _ _ p E1) as En. simpl in En. rewrite En, lookup_alter_eq, Hn. reflexivity. }
    assert (Em : m_handle_map st1 = m_handle_map st) by exact (same_core_hmap _ _ E1).
    unfold grant_next. apply wp_bind, wp_node. intros n2 Hn2. simpl in Hn2. rewrite lookup_alter_eq, En in Hn2. injection Hn2 as <-. simpl.
    rewrite Hp. simpl. rewrite Hmode. simpl. apply wp_bind, wp_get. simpl. rewrite Em, Hgone. simpl. apply wp_bind, wp_modify. apply wp_ret. intros _.
    assert (E2 : core_of st1 = c1) by exact E1. rewrite <- E2. reflexivity. }
  unfold wp in Hc. rewrite E in Hc. specialize (Hc eq_refl). split.
  - assert (Hn' : nodes st' !! p = Some (nd_pending (fun _ => rest) (nd_mode 0 (nd_exclusive 0 n)))).
    { change (nodes st') with (c_nodes (core_of st')). rewrite Hc. simpl. rewrite !lookup_alter_eq, Hn. reflexivity. }
    rewrite Hn'. eauto 6.
  - intros i hi Hi Hli. change (handles st') with (c_handles (core_of st')) in Hi. rewrite Hc in Hi. simpl in Hi.
    apply alter_cases in Hi as (h0 & Hh0 & [[-> ->]|[Hne ->]]); [discriminate|auto].
Qed.

End Runs.
