(* ===== verification/HyperExpiry.v ===== *)
(** * Expired sessions

    [Master::remove_expired_sessions] ends, and a session it takes out loses all its
    handles and locks. *)
Set Warnings "-notation-incompatible-prefix,-clear-no-such-hyp".
From S2P Require Import Prelude Errors Serialization BdbFs Namespace HyperMaster HyperLocks HyperRuns.
From stdpp Require Import base gmap list.
From Stdlib Require Import ZArith Lia.
Open Scope Z_scope.
Open Scope act_scope.
Import BerkeleyDbFilesystem.

Section Parts.

Context {D : Type} {BT : Btree D} {X : Type} (f : Master D -> X).

(** A part of the state that notifications and locks do not change. *)
Hypothesis f_db : forall d st, f (set_db d st) = f st.
Hypothesis f_nodes : forall ns k nm st, f (set_nodes ns k nm st) = f st.
Hypothesis f_handle : forall i g, keeps f (@upd_handle D i g).
Hypothesis f_event : forall k st, f (set_event_id k st) = f st.
Hypothesis f_notify : forall s g, keeps f (@upd_session D s (sd_notifications g)).

Lemma part_node p g : keeps f (@upd_node D p g).
Proof. intros st. apply f_nodes. Qed.
Lemma part_event k : keeps f (@new_event D k).
Proof. intros st. apply f_event. Qed.
Lemma part_add_node name : keeps f (@add_node D name).
Proof. intros st. apply f_nodes. Qed.
#[local] Hint Resolve f_notify f_handle part_node part_event part_add_node : frames.

(** As [frame_step], for a part. *)
Ltac part_step :=
  repeat match goal with
  | |- keeps _ (bind_act _ _) => apply keeps_bind; [|intros ?]
  | |- keeps _ (match ?x with _ => _ end) => destruct x
  | |- keeps _ (transaction _) => apply keeps_transaction; [exact f_db|]
  | |- keeps _ (db_write _) => apply keeps_db_write; exact f_db
  | |- keeps _ (for_each _ _) => apply keeps_for_each; intros ?
  | |- keeps _ _ => solve [eauto with frames]
  end.

Lemma part_add_notification s n : keeps f (@add_notification D s n).
Proof. unfold add_notification. part_step. Qed.
#[local] Hint Resolve part_add_notification : frames.
Lemma part_deliver p e : keeps f (@deliver_event_notifications D p e).
Proof. unfold deliver_event_notifications. part_step. Qed.
Lemma part_deliver_one i e : keeps f (@deliver_event_notification D i e).
Proof. unfold deliver_event_notification. part_step. Qed.
#[local] Hint Resolve part_deliver part_deliver_one : frames.

Lemma part_lock_handle i mode : keeps f (@lock_handle D i mode).
Proof. unfold lock_handle. part_step. Qed.
#[local] Hint Resolve part_lock_handle : frames.
Lemma part_lock_notify i mode : keeps f (@lock_handle_with_notification D i mode).
Proof. unfold lock_handle_with_notification. part_step. Qed.
#[local] Hint Resolve part_lock_notify : frames.

Lemma part_grant_next hid p : keeps f (grant_next hid p).
Proof.
  unfold grant_next. apply keeps_bind; [apply keeps_node|]. intros n. destruct (pending_lock_reqs n) as [|r l] eqn:E; [apply keeps_ret|].
  destruct (next_requests (r :: l)) as [[mode hs] rest]. apply keeps_bind; [apply keeps_get|]. intros l'. apply keeps_bind; [apply part_node|]. intros _.
  destruct l' as [|i l']; [apply keeps_ret|]. apply keeps_bind; [apply part_node|]. intros _ st.
  assert (Ht : keeps f (transaction (db_write (set_xattr_i64 (n_name n) lock_generation_attr (lock_generation n + 1))))) by part_step.
  specialize (Ht st). destruct (transaction _ st) as [[[]|e|] st']; try exact Ht. simpl in Ht. rewrite <- Ht. clear Ht st.
  match goal with |- f (snd (?m st')) = f st' => cut (keeps f m); [intros H; apply H|] end. part_step.
Qed.
#[local] Hint Resolve part_grant_next : frames.

Lemma part_release_lock hid : keeps f (release_lock hid).
Proof. unfold release_lock. part_step. Qed.
#[local] Hint Resolve part_release_lock : frames.

Lemma part_get_node name : keeps f (@get_node D name).
Proof. intros st. unfold get_node. destruct (m_node_map st !! name); [reflexivity|apply part_add_node]. Qed.
#[local] Hint Resolve part_get_node : frames.

Lemma part_find_parent name : keeps f (@find_parent_node D name).
Proof.
  unfold find_parent_node. destruct (dir_part name) as [|a [|b l]]; [part_step| |part_step].
  intros st. destruct (m_node_map st !! [slash]); reflexivity.
Qed.
#[local] Hint Resolve part_find_parent : frames.

Lemma part_remove_ephemeral uninit p : keeps f (remove_ephemeral uninit p).
Proof.
  unfold remove_ephemeral. apply keeps_bind; [apply keeps_node|]. intros n2. destruct (ephemeral n2); [|apply keeps_ret].
  apply keeps_bind; [apply part_find_parent|]. intros [parent child]. apply keeps_bind; [apply part_event|]. intros e.
  apply keeps_bind; [apply part_deliver|]. intros _ st.
  assert (Ht : keeps f (transaction (db_write (unlink (n_name n2))))) by part_step.
  specialize (Ht st). destruct (transaction _ st) as [[[]|e'|] st']; try exact Ht. simpl. rewrite f_nodes. exact Ht.
Qed.
#[local] Hint Resolve part_remove_ephemeral : frames.

Hypothesis f_erase : forall i, keeps f (@erase_handle D i).
#[local] Hint Resolve f_erase : frames.

Lemma part_destroy_handle uninit hid : keeps f (destroy_handle uninit hid).
Proof. unfold destroy_handle. part_step. Qed.
#[local] Hint Resolve part_destroy_handle : frames.

Hypothesis f_create : keeps f (@create_handle D).
Hypothesis f_session : forall s g, keeps f (@upd_session D s g).
#[local] Hint Resolve f_create f_session : frames.

Lemma part_need_session s : keeps f (@need_session D s).
Proof. unfold need_session. part_step. Qed.
Lemma part_need_handle i : keeps f (@need_handle D i).
Proof. unfold need_handle. part_step. Qed.
Lemma part_assert b : keeps f (@assert_ D b).
Proof. unfold assert_. part_step. Qed.
Lemma part_set_attrs name attrs : keeps f (set_attrs name attrs).
Proof. induction attrs as [|[a v] l IH]; simpl; part_step; exact IH. Qed.
#[local] Hint Resolve part_need_session part_need_handle part_assert part_set_attrs : frames.

Lemma part_open_file name flags attrs p : keeps f (open_file name flags attrs p).
Proof. unfold open_file. part_step. Qed.
Lemma part_open_lock flags n : keeps f (@open_lock D flags n).
Proof. unfold open_lock. part_step. Qed.
Lemma part_acquire i p name mode b : keeps f (acquire i p name mode b).
Proof. unfold acquire. part_step. Qed.
#[local] Hint Resolve part_open_file part_open_lock part_acquire : frames.

Lemma part_open sid name flags mask attrs : keeps f (open sid name flags mask attrs).
Proof. unfold open. part_step. Qed.
Lemma part_close uninit sid i : keeps f (close uninit sid i).
Proof. unfold close. part_step. Qed.
Lemma part_mkdir name : keeps f (mkdir_request name).
Proof. unfold mkdir_request. part_step. Qed.
Lemma part_unlink name : keeps f (unlink_request name).
Proof. unfold unlink_request. part_step. Qed.
Lemma part_attr_set sid i a v : keeps f (attr_set sid i a v).
Proof. unfold attr_set. part_step. Qed.
Lemma part_attr_get sid i a : keeps f (attr_get sid i a).
Proof. unfold attr_get. part_step. Qed.
Lemma part_attr_del sid i a : keeps f (attr_del sid i a).
Proof. unfold attr_del. part_step. Qed.
Lemma part_exists name : keeps f (exists_request name).
Proof. unfold exists_request. part_step. Qed.
Lemma part_readdir sid i : keeps f (readdir sid i).
Proof. unfold readdir. part_step. Qed.
Lemma part_lock_now i p mode n : keeps f (lock_now i p mode n).
Proof. unfold lock_now. part_step. Qed.
Lemma part_wait i p mode b : keeps f (@wait_or_busy D i p mode b).
Proof. unfold wait_or_busy. part_step. Qed.
#[local] Hint Resolve part_lock_now part_wait : frames.
Lemma part_lock sid i mode b : keeps f (lock sid i mode b).
Proof. unfold lock. part_step. Qed.
Lemma part_release sid i : keeps f (release sid i).
Proof. unfold release. part_step. Qed.

End Parts.

(** ** The sessions *)

Section Sessions.

Context {D : Type} {BT : Btree D}.
Variable uninitialized : Code.
Implicit Types st : Master D.

(** What sessions there are, and the heap. *)
Definition known st : gset Z * list Z := (dom (sessions st), m_session_heap st).
(** What notifications leave alone in sessions. *)
Definition owned st : gmap Z (list Z * Z) * list Z := ((fun s => (s_handles s, expire_time s)) <$> sessions st, m_session_heap st).

Lemma known_upd s g : keeps known (@upd_session D s g).
Proof. intros st. unfold known. simpl. rewrite dom_alter_L. reflexivity. Qed.

Lemma owned_upd s g : (forall x, s_handles (g x) = s_handles x /\ expire_time (g x) = expire_time x) -> keeps owned (@upd_session D s g).
Proof.
  intros Hg st. unfold owned. simpl. f_equal. apply map_eq. intros i. rewrite !lookup_fmap. destruct (decide (s = i)) as [<-|Hne].
  - rewrite lookup_alter_eq. destruct (sessions st !! s) as [x|]; simpl; [|reflexivity]. destruct (Hg x) as [-> ->]. reflexivity.
  - rewrite lookup_alter_ne by exact Hne. reflexivity.
Qed.

Lemma known_destroy hid : keeps known (destroy_handle uninitialized hid).
Proof. apply part_destroy_handle; try solve [reflexivity | intros ? ?; reflexivity | intros ? ? ?; reflexivity]. intros s g. apply known_upd. Qed.

Lemma owned_destroy hid : keeps owned (destroy_handle uninitialized hid).
Proof. apply part_destroy_handle; try solve [reflexivity | intros ? ?; reflexivity | intros ? ? ?; reflexivity]. intros s g. apply owned_upd. auto. Qed.

Lemma hmap_release hid : keeps m_handle_map (release_lock (D := D) hid).
Proof. apply part_release_lock; solve [reflexivity | intros ? ? ?; reflexivity]. Qed.

Lemma hmap_ephemeral p : keeps m_handle_map (remove_ephemeral (D := D) uninitialized p).
Proof. apply part_remove_ephemeral; solve [reflexivity | intros ? ? ?; reflexivity]. Qed.

(** ** Handles that are destroyed *)

Lemma dead_core i st st' : core_of st' = core_of st -> dead i (core_of st) -> dead i (core_of st').
Proof. intros ->. auto. Qed.

Lemma wp_release_dead hid st h : inv false (core_of st) -> handles st !! hid = Some h -> set_has hid (m_handle_map st) = false ->
  wp (release_lock hid) st (fun r st' => forall u, r = Ok u -> dead hid (core_of st')).
Proof.
  intros Hi Hh Ha. pose proof (ho_id _ _ _ (i_handles _ _ Hi hid h Hh)) as Hid.
  assert (Hk : forall st1 n, inv false (core_of st1) -> dead hid (core_of st1) -> nodes st1 !! h_node h = Some n -> exclusive_lock_handle n = 0 -> forall Q,
    (forall r st', dead hid (core_of st') -> Q r st') ->
    wp (n <-- get_node_data (h_node h) ;;
      (match shared_lock_handles n with
       | [] => e <-- new_event EventLockReleased ;; deliver_event_notifications (h_node h) e
       | _ => ret tt
       end) ;;;
      upd_node (h_node h) (nd_mode 0) ;;;
      grant_next hid (h_node h)) st1 Q).
  { intros st1 n Hi1 Hd Hn Hex Q HQ. eapply wp_mono; [|apply (wp_released false None hid (h_node h) (core_of st1) st1 n)]; try assumption.
    - intros r st' [_ Hl]. apply HQ. exact (l_dead _ _ _ Hl hid Hd).
    - split; [exact Hi1|apply later_core_refl]. }
  assert (Hu : forall n f0, nodes st !! h_node h = Some n ->
    f0 = nd_exclusive 0 /\ exclusive_lock_handle n = hid \/ f0 = nd_shared (set_erase hid) /\ exclusive_lock_handle n = 0 ->
    wp (upd_node (h_node h) f0 ;;; upd_handle hid (hd_locked false)) st (fun r st1 => r = Ok tt /\ inv false (core_of st1) /\ dead hid (core_of st1) /\
      nodes st1 !! h_node h = Some (f0 n) /\ exclusive_lock_handle (f0 n) = 0)).
  { intros n f0 Hn Hf. pose proof (wp_unlock false None (core_of st) st hid h n f0 (conj Hi (later_core_refl _ _)) Hh Hn Hf) as Hw.
    unfold wp, bind_act in *. simpl in *. destruct Hw as (_ & [Hi1 _] & Hn1 & Hex1). split; [reflexivity|]. split; [exact Hi1|]. split; [|auto].
    split; [exact Ha|]. simpl. rewrite (alter_some _ _ _ _ h Hh), decide_True by reflexivity. eauto. }
  unfold release_lock. apply wp_bind, wp_handle. intros h' Hh'. assert (h' = h) as -> by congruence.
  destruct (locked h) eqn:El; simpl.
  2:{ intros u _. split; [exact Ha|]. exists h. auto. }
  rewrite Hid. apply wp_bind, wp_node. intros n Hn. destruct (exclusive_lock_handle n =? 0) eqn:Ex; simpl.
  - apply Z.eqb_eq in Ex. destruct (set_has hid (shared_lock_handles n)); [|apply wp_bind, wp_throw; discriminate].
    apply wp_assoc, wp_bind. eapply wp_mono; [|apply (Hu n (nd_shared (set_erase hid)) Hn); auto].
    intros r st1 (-> & Hi1 & Hd1 & Hn1 & Hex1). apply (Hk st1 _ Hi1 Hd1 Hn1 Hex1). auto.
  - destruct (hid =? exclusive_lock_handle n) eqn:Ei; [|apply wp_bind, wp_fault]. apply Z.eqb_eq in Ei.
    apply wp_assoc, wp_bind. eapply wp_mono; [|apply (Hu n (nd_exclusive 0) Hn); auto].
    intros r st1 (-> & Hi1 & Hd1 & Hn1 & Hex1). apply (Hk st1 _ Hi1 Hd1 Hn1 Hex1). auto.
Qed.

(** [settled c c']: what was open is open or dead. *)
Definition settled (c c' : core) : Prop := forall i, set_has i (c_hmap c) = true -> set_has i (c_hmap c') = true \/ dead i c'.

Lemma settled_trans c1 c2 c3 : settled c1 c2 -> settled c2 c3 -> later None c2 c3 -> settled c1 c3.
Proof. intros H12 H23 Hl i Hi. destruct (H12 i Hi) as [H|H]; [exact (H23 i H)|right; exact (l_dead _ _ _ Hl i H)]. Qed.

Lemma erase_other i j l : i <> j -> set_has i (set_erase j l) = set_has i l.
Proof.
  intros Hne. apply eq_true_iff_eq. rewrite !set_has_in, set_erase_in. tauto.
Qed.

Lemma erase_same i l : set_has i (set_erase i l) = false.
Proof. apply not_true_iff_false. rewrite set_has_in, set_erase_in. tauto. Qed.

Lemma wp_keeps {A X} (g : Master D -> X) (m : act D A) st Q : keeps g m -> wp m st (fun r st' => g st' = g st -> Q r st') -> wp m st Q.
Proof. intros Hk. specialize (Hk st). unfold wp. destruct (m st) as [[] st']; auto. Qed.

Lemma wp_and {A} (m : act D A) st (Q Q' : result A -> Master D -> Prop) : wp m st Q -> wp m st Q' -> wp m st (fun r st' => Q r st' /\ Q' r st').
Proof. unfold wp. destruct (m st) as [[] st']; auto. Qed.

Lemma wp_destroy hid st h : inv false (core_of st) -> handles st !! hid = Some h -> set_has hid (m_handle_map st) = true ->
  wp (destroy_handle uninitialized hid) st (fun r st' => forall o, r = Ok o -> dead hid (core_of st') /\ m_handle_map st' = set_erase hid (m_handle_map st)).
Proof.
  intros Hi Hh Ha. unfold destroy_handle. apply wp_bind, wp_get. rewrite Ha. simpl. apply wp_bind, wp_modify.
  set (st1 := set_handles (handles st) (set_erase hid (m_handle_map st)) (m_next_handle_number st) st).
  assert (Hg1 : good false None (core_of st) st1) by (apply good_erase; split; [exact Hi|apply later_core_refl]).
  apply wp_bind, wp_handle. intros h' Hh'. simpl in Hh'. assert (h' = h) as -> by congruence.
  apply wp_bind, wp_modify. set (st2 := set_nodes (alter (nd_handles (set_erase (h_id h))) (h_node h) (nodes st1)) (next_node st1) (m_node_map st1) st1).
  assert (Hg2 : good false None (core_of st) st2)
    by exact (safe_quiet false None (h_node h) (nd_handles (set_erase (h_id h))) (quiet_handles _) (core_of st) st1 Hg1).
  apply wp_bind, wp_node. intros n Hn. apply wp_bind. apply (wp_keeps m_handle_map); [apply hmap_release|].
  eapply wp_mono; [|apply wp_and; [apply (wp_release_dead hid st2 h (proj1 Hg2) Hh (erase_same _ _))|apply (safe_release_lock false None hid (core_of st) st2 Hg2)]].
  intros [[]|e|] st3 [Hd3 Hg3] E3; [|discriminate|exact I]. specialize (Hd3 tt eq_refl).
  destruct (length (handle_map n)); [|intros o _; auto].
  apply (wp_keeps m_handle_map); [apply hmap_ephemeral|].
  eapply wp_mono; [|apply (safe_remove_ephemeral false None uninitialized (h_node h) (core_of st3) st3); split; [apply Hg3|apply later_core_refl]].
  intros r st4 [_ Hl] E4 o _. split; [exact (l_dead _ _ _ Hl hid Hd3)|]. rewrite E4, E3. reflexivity.
Qed.

Lemma wp_destroy_settled hid st : inv false (core_of st) ->
  wp (destroy_handle uninitialized hid) st (fun r st' => forall o, r = Ok o -> settled (core_of st) (core_of st') /\ set_has hid (m_handle_map st') = false).
Proof.
  intros Hi. destruct (set_has hid (m_handle_map st)) eqn:Ha.
  - destruct (i_open _ _ Hi hid Ha) as [h Hh]. eapply wp_mono; [|apply (wp_destroy hid st h Hi Hh Ha)]. intros r st' H o Ho. destruct (H o Ho) as [Hd Em].
    split; [|rewrite Em; apply erase_same]. intros i Hset. destruct (decide (i = hid)) as [->|Hne]; [auto|]. left. simpl. rewrite Em, erase_other by exact Hne. exact Hset.
  - unfold destroy_handle. apply wp_bind, wp_get. rewrite Ha. simpl. intros o _. split; [|exact Ha]. intros i Hset. left. exact Hset.
Qed.

Definition destroy_all (l : list Z) : act D unit := for_each l (fun h => destroy_handle uninitialized h ;;; ret tt).

Lemma wp_destroy_all l : forall st, inv false (core_of st) -> wp (destroy_all l) st (fun r st' => r = Ok tt ->
  inv false (core_of st') /\ later None (core_of st) (core_of st') /\ settled (core_of st) (core_of st') /\
  forall h, In h l -> set_has h (m_handle_map st) = true -> dead h (core_of st')).
Proof.
  unfold destroy_all. induction l as [|h l IH]; intros st Hi; simpl.
  - intros _. split; [exact Hi|]. split; [apply later_core_refl|]. split; [intros i; auto|]. intros h [].
  - apply wp_bind, wp_bind. eapply wp_mono; [|apply wp_and; [apply (wp_destroy_settled h st Hi)|apply (safe_destroy_handle false None uninitialized h (core_of st) st); split; [exact Hi|apply later_core_refl]]].
    intros [o|e|] st1 [Hs [Hi1 Hl1]]; [|discriminate|exact I]. destruct (Hs o eq_refl) as [Hs1 Hh1]. apply wp_ret.
    eapply wp_mono; [|apply (IH st1 Hi1)]. intros r st2 H Hr. destruct (H Hr) as (Hi2 & Hl2 & Hs2 & Hd2).
    split; [exact Hi2|]. split; [exact (later_core_trans _ _ _ _ Hl1 Hl2)|]. split; [exact (settled_trans _ _ _ Hs1 Hs2 Hl2)|].
    intros j Hj Hset. destruct (Hs1 j Hset) as [Hj1|Hj1]; [|exact (l_dead _ _ _ Hl2 j Hj1)].
    destruct Hj as [->|Hj]; [simpl in Hj1; congruence|exact (Hd2 j Hj Hj1)].
Qed.

Lemma keeps_destroy_all {X} (g : Master D -> X) l : (forall h, keeps g (destroy_handle uninitialized h)) -> keeps g (destroy_all l).
Proof. intros Hg. apply keeps_for_each. intros h. apply keeps_bind; [apply Hg|]. intros _. apply keeps_ret. Qed.

Lemma expire_fields s : s_handles (expire s) = s_handles s /\ expire_time (expire s) = expire_time s.
Proof. unfold expire. destruct (expired s); auto. Qed.

(** What expiring a session does: its handles are dead, other sessions keep theirs. *)
Lemma wp_expire sid s st : inv false (core_of st) -> sessions st !! sid = Some s -> wp (expire_session uninitialized sid) st (fun r st' => r = Ok tt ->
  inv false (core_of st') /\ later None (core_of st) (core_of st') /\ settled (core_of st) (core_of st') /\
  (forall h, In h (s_handles s) -> set_has h (m_handle_map st) = true -> dead h (core_of st')) /\
  known st' = known st /\ forall i, i <> sid -> (fst (owned st')) !! i = (fst (owned st)) !! i).
Proof.
  intros Hi Hs. unfold expire_session. apply wp_bind, wp_modify. apply wp_bind, wp_modify.
  match goal with |- wp _ ?st1 _ => assert (Ho1 : owned st1 = owned st); [|assert (Hk1 : known st1 = known st); [|assert (Hs1 : sessions st1 !! sid = Some (sd_held true (expire s)))]] end.
  { etransitivity; [apply (owned_upd sid (sd_held true)); auto|apply (owned_upd sid expire), expire_fields]. }
  { etransitivity; [apply known_upd|apply known_upd]. }
  { simpl. rewrite lookup_alter_eq, lookup_alter_eq, Hs. reflexivity. }
  revert Ho1 Hk1 Hs1. match goal with |- context [wp _ ?st1 _] => assert (Hc1 : core_of st1 = core_of st) by reflexivity; generalize dependent st1 end.
  intros st1 Hc1 Ho1 Hk1 Hs1. apply wp_bind. unfold wp at 1, session_object. rewrite Hs1. simpl.
  rewrite <- Hc1 in Hi. apply wp_bind. fold (destroy_all (s_handles (expire s))).
  apply (wp_keeps known); [apply keeps_destroy_all, known_destroy|]. apply (wp_keeps owned); [apply keeps_destroy_all, owned_destroy|].
  eapply wp_mono; [|apply (wp_destroy_all (s_handles (expire s)) st1 Hi)]. intros [[]|e|] st2 H Ho2 Hk2; [|discriminate|exact I].
  destruct (H eq_refl) as (Hi2 & Hl2 & Hse2 & Hd2). rewrite Hc1 in Hl2, Hse2. destruct (expire_fields s) as [Eh _]. rewrite Eh in Hd2.
  injection Hc1 as _ _ _ _ Em _. rewrite Em in Hd2.
  apply wp_bind, wp_modify, wp_modify. intros _. split; [exact Hi2|]. split; [exact Hl2|]. split; [exact Hse2|]. split; [exact Hd2|]. split.
  - rewrite <- Hk1, <- Hk2. etransitivity; [apply known_upd|apply known_upd].
  - intros i Hne. apply (f_equal fst) in Ho1, Ho2. simpl in Ho1, Ho2 |- *. rewrite <- Ho1, <- Ho2. rewrite !lookup_fmap, !lookup_alter_ne by congruence. reflexivity.
Qed.

(** ** The loop *)

Lemma first_min (ss : gmap Z SessionData) l : forall best, (forall i, In i (best :: l) -> is_Some (ss !! i)) ->
  In (first_to_expire ss best l) (best :: l) /\
  forall i a b, In i (best :: l) -> ss !! first_to_expire ss best l = Some a -> ss !! i = Some b -> expire_time a <= expire_time b.
Proof.
  induction l as [|s l IH]; intros best Hs; simpl.
  - split; [auto|]. intros i a b [<-|[]] Ha Hb. assert (a = b) as -> by congruence. lia.
  - destruct (Hs best ltac:(simpl; auto)) as [b Hb]. destruct (Hs s ltac:(simpl; auto)) as [a Ha]. rewrite Ha, Hb.
    destruct (Z.ltb_spec (expire_time a) (expire_time b)) as [Hlt|Hge].
    + destruct (IH s) as [H1 H2]; [intros i Hi; apply Hs; simpl in *; tauto|]. split; [simpl in H1; tauto|].
      intros i c d [<-|[<-|Hi]] Hc Hd; [|apply (H2 s c d); simpl; auto|apply (H2 i c d); simpl; auto].
      assert (d = b) as -> by congruence. pose proof (H2 s c a ltac:(simpl; auto) Hc Ha). lia.
    + destruct (IH best) as [H1 H2]; [intros i Hi; apply Hs; simpl in *; tauto|]. split; [simpl in H1; tauto|].
      intros i c d [<-|[<-|Hi]] Hc Hd; [apply (H2 best c d); simpl; auto| |apply (H2 i c d); simpl; auto].
      assert (d = a) as -> by congruence. pose proof (H2 best c b ltac:(simpl; auto) Hc Hb). lia.
Qed.

Lemma remove_one_length x l : In x l -> length l = S (length (remove_one x l)).
Proof.
  induction l as [|y l IH]; simpl; [intros []|]. destruct (y =? x) eqn:E; [reflexivity|]. intros [->|H]; [rewrite Z.eqb_refl in E; discriminate|].
  simpl. rewrite <- IH by exact H. reflexivity.
Qed.

Lemma remove_one_in x y l : In y l -> y <> x -> In y (remove_one x l).
Proof.
  induction l as [|z l IH]; simpl; [intros []|]. intros H Hne. destruct (Z.eqb_spec z x) as [->|]; [destruct H as [->|H]; [congruence|exact H]|].
  simpl. destruct H as [->|H]; auto.
Qed.

Lemma remove_one_sub x y l : In y (remove_one x l) -> In y l.
Proof. induction l as [|z l IH]; simpl; [auto|]. destruct (z =? x); simpl; tauto. Qed.

(** Every session of the heap is there. *)
Definition heap_ok st : Prop := forall i, In i (m_session_heap st) -> is_Some (sessions st !! i).

Lemma heap_ok_known st st' : known st' = known st -> heap_ok st -> heap_ok st'.
Proof.
  intros E Hh i Hi. apply elem_of_dom. assert (Ed : dom (sessions st') = dom (sessions st)) by (injection E; auto).
  rewrite Ed. apply elem_of_dom, Hh. assert (Eh : m_session_heap st' = m_session_heap st) by (injection E; auto). rewrite <- Eh. exact Hi.
Qed.

(** A round: the session is taken from the heap. *)
Definition take_session (sid : Z) st : Master D :=
  set_sessions (sessions st) (set_erase sid (m_session_map st)) (remove_one sid (m_session_heap st)) (m_next_session_id st) st.

Lemma next_expired_cases now st : heap_ok st ->
  next_expired_session now st = (Ok None, st) /\ (forall i s, In i (m_session_heap st) -> sessions st !! i = Some s -> is_expired now s = false) \/
  exists sid s, next_expired_session now st = (Ok (Some sid), take_session sid st) /\ In sid (m_session_heap st) /\ sessions st !! sid = Some s /\ is_expired now s = true.
Proof.
  intros Hh. unfold next_expired_session. unfold heap_ok in Hh. destruct (m_session_heap st) as [|b l] eqn:El; [left; split; [reflexivity|intros i s []]|].
  destruct (first_min (sessions st) l b Hh) as [Hin Hmin]. destruct (Hh _ Hin) as [s Hs].
  unfold session_object, bind_act. rewrite Hs. simpl. destruct (is_expired now s) eqn:Ex.
  - right. exists (first_to_expire (sessions st) b l), s. split; [|auto]. unfold take_session. simpl. rewrite El. reflexivity.
  - left. split; [reflexivity|]. intros i si Hi Hsi. unfold is_expired in *. pose proof (Hmin i s si Hi Hs Hsi).
    destruct (Z.ltb_spec (expire_time s) now); [discriminate|]. apply Z.ltb_ge. lia.
Qed.

(** What the loop has done after it ended in state [st'], at the latest with the
    clock at [now k]. *)
Definition removed (now : nat -> Z) (i fuel : nat) st st' : Prop :=
  (exists k, (i <= k < i + fuel)%nat /\ forall j s, In j (m_session_heap st') -> sessions st' !! j = Some s -> is_expired (now k) s = false) /\
  later None (core_of st) (core_of st') /\ settled (core_of st) (core_of st') /\
  (forall j, In j (m_session_heap st') -> In j (m_session_heap st)) /\
  forall j s h, In j (m_session_heap st) -> ~ In j (m_session_heap st') -> sessions st !! j = Some s -> In h (s_handles s) ->
    set_has h (m_handle_map st) = true -> dead h (core_of st').

Lemma remove_expired_ends now fuel : forall i st, inv false (core_of st) -> heap_ok st -> (length (m_session_heap st) < fuel)%nat ->
  wp (remove_expired_loop uninitialized fuel now i) st (fun r st' => r <> Ok false /\ (r = Ok true -> removed now i fuel st st')).
Proof.
  induction fuel as [|fuel IH]; intros i st Hi Hh Hf; [lia|]. simpl. apply wp_bind. unfold wp at 1.
  destruct (next_expired_cases (now i) st Hh) as [[-> Hnone]|(sid & s & -> & Hin & Hs & Hex)].
  - split; [discriminate|]. intros _. split; [exists i; split; [lia|exact Hnone]|]. split; [apply later_core_refl|]. split; [intros j; auto|]. split; [auto|]. intros; tauto.
  - apply wp_bind. eapply wp_mono; [|apply (wp_expire sid s (take_session sid st) Hi Hs)].
    intros [[]|e|] st1 H1; [|split; discriminate|exact I]. destruct (H1 eq_refl) as (Hi1 & Hl1 & Hs1 & Hd1 & Hk1 & Ho1).
    assert (Eh : m_session_heap st1 = remove_one sid (m_session_heap st)) by (injection Hk1; auto).
    assert (Hh1 : heap_ok st1).
    { apply (heap_ok_known (take_session sid st) st1 Hk1). intros j Hj. apply Hh, (remove_one_sub sid), Hj. }
    eapply wp_mono; [|apply (IH (S i) st1 Hi1 Hh1)]; [|rewrite Eh; rewrite (remove_one_length sid _ Hin) in Hf; lia].
    intros r st2 [Hr1 Hr2]. split; [exact Hr1|]. intros Hr. destruct (Hr2 Hr) as ((k & Hk & Hnone) & Hl2 & Hs2 & Hsub & Hd2).
    split; [exists k; split; [lia|exact Hnone]|]. split; [exact (later_core_trans _ _ _ _ Hl1 Hl2)|]. split; [exact (settled_trans _ _ _ Hs1 Hs2 Hl2)|].
    split; [intros j Hj; apply Hsub in Hj; rewrite Eh in Hj; exact (remove_one_sub _ _ _ Hj)|].
    intros j sj h Hj Hnj Hsj Hh' Hset. destruct (decide (j = sid)) as [->|Hne].
    + assert (sj = s) as -> by congruence. exact (l_dead _ _ _ Hl2 h (Hd1 h Hh' Hset)).
    + destruct (Hs1 h Hset) as [Hset1|Hdead1]; [|exact (l_dead _ _ _ Hl2 h Hdead1)].
      specialize (Ho1 j Hne). simpl in Ho1. rewrite !lookup_fmap, Hsj in Ho1. destruct (sessions st1 !! j) as [s1|] eqn:E1; [|discriminate]. injection Ho1 as Eo _.
      apply (Hd2 j s1 h); [rewrite Eh; apply remove_one_in; assumption|exact Hnj|exact E1|rewrite Eo; exact Hh'|exact Hset1].
Qed.

(** ** Reachable heaps *)

Lemma known_destroy_session now sid : keeps known (@destroy_session D now sid).
Proof.
  unfold destroy_session. apply keeps_bind; [apply keeps_has_session|]. intros b. destruct (negb b); [apply keeps_ret|].
  apply keeps_bind; [intros st; reflexivity|]. intros _. apply keeps_bind; intros; apply known_upd.
Qed.

Lemma known_renew now sid : keeps known (@renew_session_lease D now sid).
Proof.
  unfold renew_session_lease. apply keeps_bind; [apply keeps_has_session|]. intros b. destruct (negb b); [apply keeps_ret|].
  apply keeps_bind; [apply keeps_session|]. intros x. apply keeps_bind; [apply keeps_get|]. intros lease. destruct (renew_lease now lease x) as [alive x'].
  apply keeps_bind; [apply known_upd|]. intros _. apply keeps_ret.
Qed.

Lemma heap_ok_create now st : heap_ok st -> heap_ok (snd (create_session now st)).
Proof.
  intros Hh j Hj. simpl in *. apply in_app_or in Hj as [Hj|[<-|[]]]; [|rewrite lookup_insert_eq; eauto].
  destruct (Hh j Hj) as [x Hx]. destruct (decide (m_next_session_id st = j)) as [<-|Hne]; [rewrite lookup_insert_eq; eauto|rewrite lookup_insert_ne by exact Hne; eauto].
Qed.

Lemma heap_ok_bind {A B} (m : act D A) (k : A -> act D B) st :
  heap_ok (snd (m st)) -> (forall a st, heap_ok st -> heap_ok (snd (k a st))) -> heap_ok (snd (bind_act m k st)).
Proof. intros Hm Hk. unfold bind_act. destruct (m st) as [[a|e|] st']; [apply Hk, Hm|exact Hm|exact Hm]. Qed.

Lemma heap_ok_keepalive now sid last shutdown st : heap_ok st -> heap_ok (snd (keepalive now sid last shutdown st)).
Proof.
  intros Hh. assert (Hkn : forall A (m : act D A) st, keeps known m -> heap_ok st -> heap_ok (snd (m st))).
  { intros A m st' Hk H. exact (heap_ok_known _ _ (Hk st') H). }
  unfold keepalive. destruct shutdown; [apply Hkn; [|exact Hh]; apply keeps_bind; [apply known_destroy_session|]; intros _; apply keeps_ret|].
  apply heap_ok_bind.
  - destruct (sid =? 0); (apply heap_ok_bind; [|intros a st' H; exact H]); [apply heap_ok_create, Hh|apply Hkn; [apply known_renew|exact Hh]].
  - intros [s e] st' H. apply Hkn; [|exact H].
    assert (Hend : keeps known (b <-- has_session s ;; if negb b then ret None else @upd_session D s (purge_notifications last) ;;; ret (Some (s, OK_)))).
    { apply keeps_bind; [apply keeps_has_session|]. intros b. destruct (negb b); [apply keeps_ret|]. apply keeps_bind; [apply known_upd|]. intros _. apply keeps_ret. }
    destruct e; try exact Hend. apply keeps_ret.
Qed.

Lemma heap_ok_loop now fuel : forall i st, heap_ok st -> heap_ok (snd (remove_expired_loop uninitialized fuel now i st)).
Proof.
  induction fuel as [|fuel IH]; intros i st Hh; [exact Hh|]. simpl. unfold bind_act at 1.
  destruct (next_expired_cases (now i) st Hh) as [[-> _]|(sid & s & -> & _)]; [exact Hh|].
  assert (Ht : heap_ok (take_session sid st)) by (intros j Hj; apply Hh, (remove_one_sub sid), Hj).
  assert (Hk : keeps known (expire_session uninitialized sid)).
  { unfold expire_session. apply keeps_bind; [apply known_upd|]. intros _. apply keeps_bind; [apply known_upd|]. intros _. apply keeps_bind; [apply keeps_session|]. intros x.
    apply keeps_bind; [apply keeps_for_each; intros h; apply keeps_bind; [apply known_destroy|intros _; apply keeps_ret]|]. intros _.
    apply keeps_bind; intros; apply known_upd. }
  specialize (Hk (take_session sid st)). unfold bind_act. pose proof (heap_ok_known _ _ Hk Ht) as H1.
  destruct (expire_session uninitialized sid (take_session sid st)) as [[[]|e|] st1]; [apply IH, H1|exact H1|exact H1].
Qed.

Lemma after_snd {A} (m : act D A) st st' : after m st = Some st' -> st' = snd (m st).
Proof. unfold after. destruct (m st) as [[] st1]; intros H; try discriminate; injection H as <-; reflexivity. Qed.

Lemma heap_ok_serve r st st' : heap_ok st -> serve uninitialized r st = Some st' -> heap_ok st'.
Proof.
  intros Hh. assert (Hk : forall A (m : act D A), keeps known m -> after m st = Some st' -> heap_ok st').
  { intros A m Hk E. apply after_snd in E. subst st'. exact (heap_ok_known _ _ (Hk st) Hh). }
  destruct r; simpl.
  - intros E. apply after_snd in E. subst st'. apply heap_ok_keepalive, Hh.
  - intros E. apply after_snd in E. subst st'. apply heap_ok_loop, Hh.
  - apply Hk. apply part_mkdir; solve [reflexivity | intros ? ? ?; reflexivity | intros ? ?; reflexivity | intros; apply known_upd | apply known_destroy].
  - apply Hk. apply part_unlink; solve [reflexivity | intros ? ? ?; reflexivity | intros ? ?; reflexivity | intros; apply known_upd].
  - apply Hk. apply part_open; solve [reflexivity | intros ? ? ?; reflexivity | intros ? ?; reflexivity | intros ?; reflexivity | intros; apply known_upd].
  - apply Hk. apply part_close; solve [reflexivity | intros ? ? ?; reflexivity | intros ? ?; reflexivity | intros ?; reflexivity | intros; apply known_upd].
  - apply Hk. apply part_attr_set; solve [reflexivity | intros ? ? ?; reflexivity | intros ? ?; reflexivity | intros; apply known_upd].
  - apply Hk. apply part_attr_get; solve [reflexivity | intros ? ? ?; reflexivity | intros ? ?; reflexivity | intros; apply known_upd].
  - apply Hk. apply part_attr_del; solve [reflexivity | intros ? ? ?; reflexivity | intros ? ?; reflexivity | intros; apply known_upd].
  - apply Hk. apply part_exists; solve [reflexivity | intros ? ? ?; reflexivity | intros ? ?; reflexivity | intros; apply known_upd].
  - apply Hk. apply part_readdir; solve [reflexivity | intros ? ? ?; reflexivity | intros ? ?; reflexivity | intros; apply known_upd].
  - apply Hk. apply part_lock; solve [reflexivity | intros ? ? ?; reflexivity | intros ? ?; reflexivity | intros; apply known_upd].
  - apply Hk. apply part_release; solve [reflexivity | intros ? ? ?; reflexivity | intros ? ?; reflexivity | intros; apply known_upd].
Qed.

Lemma reach_heap P d lease st : reach uninitialized P d lease st -> heap_ok st.
Proof.
  induction 1 as [|st r st' _ IH _ Hs]; [|exact (heap_ok_serve r st st' IH Hs)].
  intros i Hi. exfalso. revert Hi. unfold init. set (st0 := {| m_bdb_fs := _ |}).
  assert (E : keeps m_session_heap (get_generation_number (D := D))).
  { intros st. unfold get_generation_number. match goal with |- context [transaction ?m st] => assert (Ht : keeps m_session_heap (transaction m)) end.
    { apply keeps_transaction; [reflexivity|]. apply keeps_bind; [apply keeps_db_read|]. intros o. apply keeps_bind; [intros ?; reflexivity|]. intros _. apply keeps_db_write. reflexivity. }
    specialize (Ht st). destruct (transaction _ st) as [[] st']; exact Ht. }
  rewrite (E st0). simpl. auto.
Qed.


(** C19. Expired sessions lose everything: when [remove_expired_sessions] returns, no
    session that is left was expired when the clock was last read, and every open
    handle of a session that was taken out is closed and holds no lock. *)
Theorem expired_sessions_lose_locks P d lease st st' now : reach uninitialized P d lease st -> remove_expired_sessions uninitialized now st = (Ok true, st') ->
  (exists k, forall sid s, In sid (m_session_heap st') -> sessions st' !! sid = Some s -> is_expired (now k) s = false) /\
  forall sid s hid, In sid (m_session_heap st) -> ~ In sid (m_session_heap st') -> sessions st !! sid = Some s ->
    In hid (s_handles s) -> set_has hid (m_handle_map st) = true ->
    set_has hid (m_handle_map st') = false /\ exists h, handles st' !! hid = Some h /\ locked h = false.
Proof.
  intros Hr E. pose proof (reached_inv uninitialized false P d lease st ltac:(discriminate) Hr) as Hi.
  pose proof (remove_expired_ends now (S (length (m_session_heap st))) 0 st Hi (reach_heap P d lease st Hr) ltac:(lia)) as Hw.
  unfold remove_expired_sessions, wp in *. rewrite E in Hw. destruct Hw as [_ Hw]. destruct (Hw eq_refl) as ((k & _ & Hk) & _ & _ & _ & Hd).
  split; [exists k; exact Hk|exact Hd].
Qed.

End Sessions.
