(* ===== verification/HyperSamples.v ===== *)
(** * Runs of the lock service, evaluated

    Two runs that go wrong, and the states in which the theorems on the lock service
    are applied. *)
Set Warnings "-notation-incompatible-prefix,-clear-no-such-hyp".
From S2P Require Import Prelude Errors Serialization BdbFs Namespace HyperMaster HyperLocks HyperRuns HyperExpiry.
From stdpp Require Import base gmap list.
From Stdlib Require Import ZArith Lia.
Open Scope Z_scope.
Import SortedDb BerkeleyDbFilesystem.

(** The master on an empty data base, with leases of 60 seconds. *)
Definition start : Master db := snd (init empty 60).
Definition run (rs : list request) : Master db := serve_all OK_ rs start.

Definition file : list Z := [47; 102].
Definition create_flags : Z := OPEN_FLAG_WRITE + OPEN_FLAG_LOCK + OPEN_FLAG_CREATE.
Definition open_flags_ : Z := OPEN_FLAG_WRITE + OPEN_FLAG_LOCK.

(** A session with the handles 2, 3 and 4 of a file. *)
Definition three_handles : list request :=
  [QKeepalive 0 0 0 false; QOpen 1 file create_flags 0 []; QOpen 1 file open_flags_ 0 []; QOpen 1 file open_flags_ 0 []].

Lemma reach_run P rs : Forall P rs -> reach OK_ P empty 60 (run rs).
Proof. intros H. apply reach_all; [constructor|exact H]. Qed.

(** Handles 2 and 3 share the lock, 2 releases it, 4 asks for it exclusively. *)
Definition shared_then_exclusive : list request :=
  three_handles ++ [QLock 1 2 LOCK_MODE_SHARED false; QLock 1 3 LOCK_MODE_SHARED false; QRelease 1 2; QLock 1 4 LOCK_MODE_EXCLUSIVE true].

(** A shared lock does not keep an exclusive one off: two handles share a lock, one
    of them releases it, and a third one is granted it exclusively while the second
    still has it; both are locked.  When the second one releases its lock, the process
    stops at an assertion. *)
Theorem exclusive_beside_shared : exists st n h3 h4, reach OK_ (fun _ => True) empty 60 st /\
  nodes st !! 1 = Some n /\ exclusive_lock_handle n = 4 /\ shared_lock_handles n = [3] /\
  handles st !! 3 = Some h3 /\ h_node h3 = 1 /\ locked h3 = true /\ handles st !! 4 = Some h4 /\ h_node h4 = 1 /\ locked h4 = true /\
  serve OK_ (QRelease 1 3) st = None.
Proof.
  exists (run shared_then_exclusive). do 3 eexists. split; [apply reach_run; repeat constructor|].
  split; [vm_compute; reflexivity|]. split; [reflexivity|]. split; [reflexivity|]. split; [vm_compute; reflexivity|].
  split; [reflexivity|]. split; [reflexivity|]. split; [vm_compute; reflexivity|]. split; [reflexivity|]. split; [reflexivity|]. vm_compute. reflexivity.
Qed.

(** A session with a locked handle of a file and another one that is to be told of
    releases. *)
Definition watched_lock : list request :=
  [QKeepalive 0 0 0 false; QOpen 1 file create_flags 0 []; QOpen 1 file open_flags_ EVENT_MASK_LOCK_RELEASED []; QLock 1 2 LOCK_MODE_EXCLUSIVE false].

(** Expiring a session can stop the service: when a session that has locked a file
    and wants to be told of releases through another handle of it expires, the
    thread that removes the session adds a notification to it while it holds the
    mutex of the session, and waits for itself. *)
Theorem expiry_can_deadlock : exists st s, reach OK_ exclusive_only empty 60 st /\
  sessions st !! 1 = Some s /\ is_expired 61000000000 s = true /\ s_held s = false /\
  serve OK_ (QTimer (fun _ => 61000000000)) st = None.
Proof.
  exists (run watched_lock). eexists. split; [apply reach_run; repeat constructor|].
  split; [vm_compute; reflexivity|]. split; [reflexivity|]. split; [reflexivity|]. vm_compute. reflexivity.
Qed.

(** ** The theorems applied *)

Definition one_lock : list request := three_handles ++ [QLock 1 2 LOCK_MODE_EXCLUSIVE false].

Lemma exclusive_locks_exclude_witness : exists h n, handles (run one_lock) !! 2 = Some h /\ locked h = true /\ nodes (run one_lock) !! h_node h = Some n /\ exclusive_lock_handle n = 2.
Proof.
  assert (Hr : reach OK_ exclusive_only empty 60 (run one_lock)) by (apply reach_run; repeat constructor).
  do 2 eexists. split; [vm_compute; reflexivity|]. split; [reflexivity|]. split; [vm_compute; reflexivity|].
  eapply (exclusive_locks_exclude OK_ empty 60 (run one_lock) 2 2 _ _ _ Hr); [vm_compute; reflexivity|reflexivity|vm_compute; reflexivity|reflexivity|reflexivity|vm_compute; reflexivity].
Defined.

Definition before_lock : Master db := run three_handles.
Definition after_lock : Master db := match serve OK_ (QLock 1 2 LOCK_MODE_EXCLUSIVE false) before_lock with Some st => st | None => before_lock end.

Lemma after_lock_is : serve OK_ (QLock 1 2 LOCK_MODE_EXCLUSIVE false) before_lock = Some after_lock.
Proof.
  unfold after_lock. destruct (serve OK_ (QLock 1 2 LOCK_MODE_EXCLUSIVE false) before_lock) eqn:E; [reflexivity|]. vm_compute in E. discriminate.
Qed.


(** Handle 2 has the lock, 3 and 4 wait for it, 3 is closed. *)
Definition closed_waiter : Master db := run (one_lock ++ [QLock 1 3 LOCK_MODE_EXCLUSIVE false; QLock 1 4 LOCK_MODE_EXCLUSIVE false; QClose 1 3]).

Lemma closed_waiter_swallows_lock_witness : exists n', nodes (snd (release_lock 2 closed_waiter)) !! 1 = Some n' /\ exclusive_lock_handle n' = 0 /\
  pending_lock_reqs n' = [{| lr_handle := 4; lr_mode := LOCK_MODE_EXCLUSIVE |}].
Proof.
  destruct (closed_waiter_swallows_lock 2 closed_waiter (snd (release_lock 2 closed_waiter))
    {| h_id := 2; open_flags := create_flags; event_mask := 0; h_node := 1; h_session := 1; locked := true |}
    {| n_name := file; ephemeral := false; handle_map := [2; 4]; cur_lock_mode := LOCK_MODE_EXCLUSIVE; lock_generation := 2; shared_lock_handles := [];
       exclusive_lock_handle := 2; pending_lock_reqs := [{| lr_handle := 3; lr_mode := LOCK_MODE_EXCLUSIVE |}; {| lr_handle := 4; lr_mode := LOCK_MODE_EXCLUSIVE |}] |}
    {| lr_handle := 3; lr_mode := LOCK_MODE_EXCLUSIVE |} [{| lr_handle := 4; lr_mode := LOCK_MODE_EXCLUSIVE |}]) as [(n' & H1 & _ & H2 & H3) _];
    [vm_compute; reflexivity|reflexivity|reflexivity|discriminate|vm_compute; reflexivity|reflexivity|reflexivity|reflexivity|vm_compute; reflexivity| |].
  - destruct (release_lock 2 closed_waiter) as [r st'] eqn:E. assert (Er : r = Ok tt) by (apply (f_equal fst) in E; rewrite <- (E : fst (release_lock 2 closed_waiter) = r); vm_compute; reflexivity).
    rewrite Er. reflexivity.
  - exists n'. auto.
Defined.


(** The session of [one_lock] expires: handle 2 is closed and has no lock. *)
Definition expired_ : Master db := snd (remove_expired_sessions OK_ (fun _ => 61000000000) (run one_lock)).

Lemma expired_sessions_lose_locks_witness : exists h, handles expired_ !! 2 = Some h /\ locked h = false.
Proof.
  assert (Hr : reach OK_ exclusive_only empty 60 (run one_lock)) by (apply reach_run; repeat constructor).
  assert (E : remove_expired_sessions OK_ (fun _ => 61000000000) (run one_lock) = (Ok true, expired_)).
  { unfold expired_. destruct (remove_expired_sessions OK_ (fun _ => 61000000000) (run one_lock)) as [r st'] eqn:E. apply (f_equal fst) in E. simpl in E.
    assert (Er : fst (remove_expired_sessions OK_ (fun _ => 61000000000) (run one_lock)) = Ok true) by (vm_compute; reflexivity). simpl. congruence. }
  destruct (expired_sessions_lose_locks OK_ exclusive_only empty 60 (run one_lock) expired_ (fun _ => 61000000000) Hr E) as [_ H].
  apply (H 1 {| s_id := 1; expired := false; expire_time := 60000000000; s_handles := [2; 3; 4]; notifications := []; s_held := false |} 2);
    [vm_compute; auto|vm_compute; tauto|vm_compute; reflexivity|simpl; auto|vm_compute; reflexivity].
Defined.
