(* ===== verification/LinkedList.v ===== *)
(** * Doubly linked lists

    The caches of the client and of the messaging layer keep their entries in
    doubly linked lists of C structs.  A store maps addresses to nodes; writing
    through a null pointer is a fault.  [seg] says that a list of addresses and
    items is laid out in a store, and the lemmas say what the assignments of the
    code do to it.  The end with no [prev] is the tail, the one with no [next] the
    head, as in the code. *)
Set Warnings "-notation-incompatible-prefix,-clear-no-such-hyp".
From S2P Require Import Prelude Errors.
From stdpp Require Import base gmap list.
Open Scope result_scope.

Abbreviation loc := positive.

Record node (A : Type) := Node { prev : option loc; next : option loc; item : A }.
Arguments Node {A} _ _ _.
Arguments prev {A} _.
Arguments next {A} _.
Arguments item {A} _.
Abbreviation store A := (gmap loc (node A)).

Section Lists.
Context {A : Type}.
Implicit Types (h : store A) (p q : loc) (l r : list (loc * A)).

Definition with_prev (v : option loc) (n : node A) : node A := Node v (next n) (item n).
Definition with_next (v : option loc) (n : node A) : node A := Node (prev n) v (item n).

(** Reading and writing through a pointer. *)
Definition fetch (p : option loc) h : result (node A) :=
  match p with
  | Some p => match h !! p with Some n => Ok n | None => Fault end
  | None => Fault
  end.
Definition assign (g : node A -> node A) (p : option loc) h : result (store A) :=
  match p with
  | Some p => match h !! p with Some _ => Ok (alter g p h) | None => Fault end
  | None => Fault
  end.

(** ** Segments *)

Definition head_or l (nx : option loc) : option loc := match l with [] => nx | (p, _) :: _ => Some p end.
Fixpoint last_or (pv : option loc) l : option loc := match l with [] => pv | (p, _) :: l => last_or (Some p) l end.

Fixpoint seg h (pv : option loc) l (nx : option loc) : Prop :=
  match l with
  | [] => True
  | (p, a) :: l => h !! p = Some (Node pv (head_or l nx) a) /\ seg h (Some p) l nx
  end.

Lemma head_or_app l r nx : head_or (l ++ r) nx = head_or l (head_or r nx).
Proof. now destruct l as [|[] ]. Qed.

Lemma last_or_app l r pv : last_or pv (l ++ r) = last_or (last_or pv l) r.
Proof. revert pv. induction l as [|[p a] l IH]; intros pv; [reflexivity|]. apply IH. Qed.

Lemma last_or_snoc l p a pv : last_or pv (l ++ [(p, a)]) = Some p.
Proof. now rewrite last_or_app. Qed.

Lemma seg_app h pv l r nx : seg h pv (l ++ r) nx <-> seg h pv l (head_or r nx) /\ seg h (last_or pv l) r nx.
Proof.
  revert pv. induction l as [|[p a] l IH]; intros pv; cbn; [tauto|]. rewrite IH, head_or_app. tauto.
Qed.

Lemma seg_at h pv l p a r nx : seg h pv (l ++ (p, a) :: r) nx -> h !! p = Some (Node (last_or pv l) (head_or r nx) a).
Proof. rewrite seg_app. cbn. tauto. Qed.

Lemma seg_frame h h' pv l nx : (forall p, p ∈ l.*1 -> h' !! p = h !! p) -> seg h pv l nx -> seg h' pv l nx.
Proof.
  revert pv. induction l as [|[p a] l IH]; intros pv Hf; cbn; [tauto|]. intros [H1 H2]. split.
  - rewrite Hf; [exact H1|]. apply list_elem_of_here.
  - apply IH; [|exact H2]. intros q Hq. apply Hf. cbn. now apply list_elem_of_further.
Qed.

Lemma seg_other h g q pv l nx : q ∉ l.*1 -> seg h pv l nx -> seg (alter g q h) pv l nx.
Proof.
  intros Hq. apply seg_frame. intros p Hp. apply lookup_alter_ne. intros ->. contradiction.
Qed.

(** The assignments at the two ends of a segment. *)
Definition at_loc (g : node A -> node A) (p : option loc) h : store A := match p with Some p => alter g p h | None => h end.

Lemma last_or_in pv l : last_or pv l = pv \/ exists p, last_or pv l = Some p /\ p ∈ l.*1.
Proof.
  revert pv. induction l as [|[p a] l IH]; intros pv; [now left|]. right. cbn [last_or fmap].
  destruct (IH (Some p)) as [->|(q & -> & Hq)]; eexists; (split; [reflexivity|]).
  - apply list_elem_of_here.
  - now apply list_elem_of_further.
Qed.

Lemma last_or_some p q a l : last_or (Some p) ((q, a) :: l) = last_or None ((q, a) :: l).
Proof. reflexivity. Qed.

Lemma seg_next h pv l nx v : NoDup l.*1 -> seg h pv l nx -> seg (at_loc (with_next v) (last_or None l) h) pv l v.
Proof.
  revert pv. induction l as [|[p a] l IH]; intros pv Hn; [easy|]. cbn [seg fmap] in *. inv Hn. intros [H3 H4].
  destruct l as [|[q b] l].
  - cbn. split; [|easy]. now rewrite lookup_alter_eq, H3.
  - change (last_or None ((p, a) :: (q, b) :: l)) with (last_or None ((q, b) :: l)). split; [|now apply IH].
    destruct (last_or_in None ((q, b) :: l)) as [E|(s & E & Hs)]; rewrite E; cbn [at_loc]; [exact H3|].
    rewrite lookup_alter_ne; [exact H3|]. intros ->. contradiction.
Qed.

Lemma seg_prev h pv l nx v : NoDup l.*1 -> seg h pv l nx -> seg (at_loc (with_prev v) (head_or l None) h) v l nx.
Proof.
  destruct l as [|[p a] l]; intros Hn; [easy|]. inv Hn. cbn [seg head_or at_loc]. intros [H3 H4]. split.
  - now rewrite lookup_alter_eq, H3.
  - now apply seg_other.
Qed.

Lemma seg_not_end h g pv l nx (p : option loc) : (forall q, p = Some q -> q ∉ l.*1) -> seg h pv l nx -> seg (at_loc g p h) pv l nx.
Proof. intros Hp. destruct p as [p|]; cbn; [|easy]. apply seg_other. now apply Hp. Qed.

(** Taking a node out of the chain. *)
Definition bypass l r h : store A :=
  at_loc (with_next (head_or r None)) (last_or None l) (at_loc (with_prev (last_or None l)) (head_or r None) h).

Lemma head_or_in l nx : head_or l nx = nx \/ exists p, head_or l nx = Some p /\ p ∈ l.*1.
Proof. destruct l as [|[p a] l]; [now left|]. right. exists p. split; [reflexivity|apply list_elem_of_here]. Qed.

Lemma bypass_seg h l p a r : NoDup (l ++ (p, a) :: r).*1 -> seg h None (l ++ (p, a) :: r) None -> seg (bypass l r h) None (l ++ r) None.
Proof.
  intros Hn Hs. rewrite fmap_app in Hn. cbn in Hn. apply NoDup_app in Hn as (N1 & N2 & N3). inv N3.
  apply seg_app in Hs as [S1 [_ S2]]. apply seg_app. unfold bypass. split.
  - eapply seg_next; [exact N1|]. apply seg_not_end; [|exact S1]. intros q Hq Hi.
    destruct (head_or_in r None) as [E|(s & E & Hs)]; rewrite E in Hq; [discriminate|]. inv Hq. apply (N2 q Hi). now apply list_elem_of_further.
  - apply seg_not_end; [|now apply (seg_prev _ (Some p))]. intros q Hq Hi.
    destruct (last_or_in None l) as [E|(s & E & Hs)]; rewrite E in Hq; [discriminate|]. inv Hq. apply (N2 q Hs). now apply list_elem_of_further.
Qed.

Lemma at_loc_other g (p : option loc) q h : p <> Some q -> at_loc g p h !! q = h !! q.
Proof. destruct p as [p|]; cbn; [|easy]. intros H. apply lookup_alter_ne. congruence. Qed.

Lemma bypass_other l r h q : q ∉ (l ++ r).*1 -> bypass l r h !! q = h !! q.
Proof.
  rewrite fmap_app. intros Hq. unfold bypass. rewrite !at_loc_other; [reflexivity| |].
  - intros E. destruct (head_or_in r None) as [E'|(s & E' & Hs)]; rewrite E' in E; [discriminate|]. inv E. apply Hq, elem_of_app. now right.
  - intros E. destruct (last_or_in None l) as [E'|(s & E' & Hs)]; rewrite E' in E; [discriminate|]. inv E. apply Hq, elem_of_app. now left.
Qed.

Lemma at_loc_some g (p : option loc) h q : is_Some (at_loc g p h !! q) <-> is_Some (h !! q).
Proof.
  destruct p as [p|]; cbn; [|tauto]. destruct (decide (p = q)) as [->|Hne]; [|now rewrite lookup_alter_ne].
  rewrite lookup_alter_eq. apply fmap_is_Some.
Qed.

Lemma bypass_some l r h q : is_Some (bypass l r h !! q) <-> is_Some (h !! q).
Proof. unfold bypass. now rewrite !at_loc_some. Qed.

(** The list of a structure with its two end pointers: laid out in the store, which
    has nothing else. *)
Record dll h (tail head : option loc) l : Prop := {
  dll_nodup : NoDup l.*1;
  dll_seg : seg h None l None;
  dll_tail : tail = head_or l None;
  dll_head : head = last_or None l;
  dll_all : forall p, is_Some (h !! p) <-> p ∈ l.*1 }.

Lemma dll_empty : dll ∅ None None [].
Proof. split; try easy; [constructor|]. intros p. rewrite lookup_empty. split; [now intros []|intros H; inversion H]. Qed.

Lemma seg_get h pv l nx p a : seg h pv l nx -> (p, a) ∈ l -> exists n, h !! p = Some n /\ item n = a.
Proof.
  revert pv. induction l as [|[q b] l IH]; intros pv Hs Hi; [inversion Hi|]. cbn in Hs. destruct Hs as [H1 H2].
  apply elem_of_cons in Hi as [[= -> ->]|Hi]; [|now apply (IH (Some q))]. eexists. split; [exact H1|reflexivity].
Qed.

Lemma fetch_some h p n : h !! p = Some n -> fetch (Some p) h = Ok n.
Proof. cbn. now intros ->. Qed.

Lemma assign_some h g p : is_Some (h !! p) -> assign g (Some p) h = Ok (alter g p h).
Proof. cbn. now intros [n ->]. Qed.

(** A node taken out and deleted. *)
Lemma dll_delete h tail head l p a r : dll h tail head (l ++ (p, a) :: r) ->
  dll (delete p (bypass l r h)) (head_or (l ++ r) None) (last_or None (l ++ r)) (l ++ r).
Proof.
  intros [N S _ _ D]. pose proof (bypass_seg h l p a r N S) as B. rewrite fmap_app in N. cbn in N.
  pose proof N as N0. apply NoDup_app in N as (N1 & N2 & N3). inv N3.
  assert (Hp : p ∉ (l ++ r).*1).
  { rewrite fmap_app, elem_of_app. intros [Hi|Hi]; [apply (N2 p Hi), list_elem_of_here|contradiction]. }
  split; try reflexivity.
  - rewrite fmap_app. apply NoDup_app. split; [assumption|]. split; [|assumption]. intros q Hq Hr. apply (N2 q Hq). now apply list_elem_of_further.
  - eapply seg_frame; [|exact B]. intros q Hq. apply lookup_delete_ne. intros ->. contradiction.
  - intros q. destruct (decide (p = q)) as [->|Hne].
    + rewrite lookup_delete_eq. split; [now intros []|contradiction].
    + rewrite lookup_delete_ne by assumption. rewrite bypass_some, D. rewrite !fmap_app, !elem_of_app. cbn. rewrite elem_of_cons. split; [|tauto].
      intros [Hi|[->|Hi]]; [now left|congruence|now right].
Qed.

(** A node added at the head. *)
Lemma dll_push_head h tail head l p a : dll h tail head l -> h !! p = None ->
  dll (<[p := Node head None a]> (at_loc (with_next (Some p)) head h)) (head_or (l ++ [(p, a)]) None) (Some p) (l ++ [(p, a)]).
Proof.
  intros [N S -> -> D] Hp.
  assert (Hi : p ∉ l.*1) by (intros Hi; apply D in Hi; rewrite Hp in Hi; now destruct Hi). split.
  - rewrite fmap_app. apply NoDup_app. split; [assumption|]. split; [|apply NoDup_singleton]. intros q Hq Hr. apply list_elem_of_singleton in Hr. now subst.
  - apply seg_app. cbn. split.
    + apply (seg_frame (at_loc (with_next (Some p)) (last_or None l) h)); [|now apply (seg_next _ _ _ None)].
      intros q Hq. apply lookup_insert_ne. intros ->. contradiction.
    + split; [|easy]. apply lookup_insert_eq.
  - reflexivity.
  - now rewrite last_or_snoc.
  - intros q. rewrite fmap_app, elem_of_app. cbn. rewrite list_elem_of_singleton. destruct (decide (p = q)) as [->|Hne].
    + rewrite lookup_insert_eq. split; [auto|eauto].
    + rewrite lookup_insert_ne, at_loc_some, D by assumption. split; [auto|]. intros [H|H]; [exact H|congruence].
Qed.

(** A node added at the tail. *)
Lemma dll_push_tail h tail head l p a : dll h tail head l -> h !! p = None ->
  dll (<[p := Node None tail a]> (at_loc (with_prev (Some p)) tail h)) (Some p) (last_or (Some p) l) ((p, a) :: l).
Proof.
  intros [N S -> -> D] Hp.
  assert (Hi : p ∉ l.*1) by (intros Hi; apply D in Hi; rewrite Hp in Hi; now destruct Hi). split.
  - cbn. now constructor.
  - cbn. split; [apply lookup_insert_eq|].
    apply (seg_frame (at_loc (with_prev (Some p)) (head_or l None) h)); [|now apply (seg_prev _ None)].
    intros q Hq. apply lookup_insert_ne. intros ->. contradiction.
  - reflexivity.
  - reflexivity.
  - intros q. cbn. rewrite elem_of_cons. destruct (decide (p = q)) as [->|Hne].
    + rewrite lookup_insert_eq. split; [auto|eauto].
    + rewrite lookup_insert_ne, at_loc_some, D by assumption. split; [auto|]. intros [H|H]; [congruence|exact H].
Qed.

End Lists.

(** The nodes of a list with one singled out. *)
Lemma dll_node {A} (h : store A) tail head l p a r : dll h tail head (l ++ (p, a) :: r) ->
  h !! p = Some (Node (last_or None l) (head_or r None) a).
Proof. intros D. exact (seg_at _ _ _ _ _ _ _ (dll_seg _ _ _ _ D)). Qed.

Lemma dll_not_in {A} (h : store A) tail head l p a r : dll h tail head (l ++ (p, a) :: r) -> (p ∉ l.*1) /\ (p ∉ r.*1).
Proof.
  intros [N _ _ _ _]. rewrite fmap_app in N. cbn in N. apply NoDup_app in N as (_ & N2 & N3). inv N3. split; [|assumption].
  intros Hi. apply (N2 p Hi), list_elem_of_here.
Qed.

Lemma dll_bound {A} (h : store A) tail head l q : dll h tail head l -> (tail = Some q \/ head = Some q \/ q ∈ l.*1) -> is_Some (h !! q).
Proof.
  intros [N S Ht Hh D] Hq. apply D. destruct Hq as [Hq|[Hq|Hq]]; [| |exact Hq].
  - destruct (head_or_in l None) as [E|(s & E & Hs)]; rewrite Ht, E in Hq; [discriminate|]. now inv Hq.
  - destruct (last_or_in None l) as [E|(s & E & Hs)]; rewrite Hh, E in Hq; [discriminate|]. now inv Hq.
Qed.

(** ** Pointers *)

Lemma head_of {A} (l : list (loc * A)) nx : l <> [] -> head_or l nx = head_or l None.
Proof. now destruct l as [|[]]. Qed.

Lemma last_of {A} (l : list (loc * A)) pv : l <> [] -> last_or pv l = last_or None l.
Proof. now destruct l as [|[]]. Qed.

Lemma last_in {A} (l : list (loc * A)) q : last_or None l = Some q -> q ∈ l.*1.
Proof. intros E. destruct (last_or_in None l) as [E'|(s & E' & Hs)]; rewrite E' in E; [discriminate|]. now inv E. Qed.

Lemma head_in {A} (l : list (loc * A)) q : head_or l None = Some q -> q ∈ l.*1.
Proof. intros E. destruct (head_or_in l None) as [E'|(s & E' & Hs)]; rewrite E' in E; [discriminate|]. now inv E. Qed.

Lemma some_node {A} (l : list (loc * A)) : l <> [] -> exists p q, head_or l None = Some p /\ last_or None l = Some q.
Proof.
  destruct l as [|[p a] l]; [easy|]. intros _. exists p. destruct (last_or_in (Some p) l) as [E|(s & E & _)]; eauto.
Qed.

(** The assignments that take a node out. *)
Lemma assign_ends {A} (h : store A) tail head l p a r g : dll h tail head (l ++ (p, a) :: r) -> forall x,
  (x = last_or None l /\ l <> []) \/ (x = head_or r None /\ r <> []) -> assign g x h = Ok (at_loc g x h).
Proof.
  intros D x Hx.
  assert (H : exists q, x = Some q /\ is_Some (h !! q)).
  { destruct Hx as [[-> Hl]|[-> Hr]].
    - destruct (some_node l Hl) as (_ & q & _ & E). exists q. split; [exact E|]. apply (dll_bound _ _ _ _ q D). right. right.
      rewrite fmap_app, elem_of_app. left. now apply last_in.
    - destruct (some_node r Hr) as (q & _ & E & _). exists q. split; [exact E|]. apply (dll_bound _ _ _ _ q D). right. right.
      rewrite fmap_app, elem_of_app. right. cbn. apply list_elem_of_further. now apply head_in. }
  destruct H as (q & -> & H). now apply assign_some.
Qed.

Lemma assign_after {A} (h : store A) x g y g' : (exists q, y = Some q /\ is_Some (h !! q)) ->
  assign g y (at_loc g' x h) = Ok (at_loc g y (at_loc g' x h)).
Proof. intros (q & -> & H). apply assign_some. now apply at_loc_some. Qed.

(** The two assignments around a node that is taken out, in the other order. *)
Lemma bypass_swap {A} (h : store A) l r : (forall q, q ∈ l.*1 -> q ∉ r.*1) ->
  at_loc (with_prev (last_or None l)) (head_or r None) (at_loc (with_next (head_or r None)) (last_or None l) h) = bypass l r h.
Proof.
  intros Hd. unfold bypass. destruct (last_or None l) as [x|] eqn:Ex; [|reflexivity]. destruct (head_or r None) as [y|] eqn:Ey; [|reflexivity].
  cbn. apply alter_alter_ne. intros ->. exact (Hd _ (last_in _ _ Ex) (head_in _ _ Ey)).
Qed.
