(* ===== verification/LocationCache.v ===== *)
(** * The location cache of clients

    [Hypertable/Lib/LocationCache.{h,cc}]: where the ranges of tables are, by table
    and end row in an ordered map, and by use in a doubly linked list from which
    the entry that was not used for longest is dropped.  Entries that are pegged
    are not dropped.

    [~LocationCache], [display] and [location_to_addr] are left out.  C strings have
    no NUL, and [strcmp] is the order of their bytes. *)
Set Warnings "-notation-incompatible-prefix,-clear-no-such-hyp".
From S2P Require Import Prelude Errors Serialization LinkedList.
From stdpp Require Import base gmap list.
From Stdlib Require Import ZArith Lia Sorted.
Open Scope Z_scope.
Open Scope result_scope.

(** ** Keys *)

(** [LocationCacheKey]: a null pointer stands for the end of the table. *)
Definition key : Type := Z * option (list Z).

(** [operator<] *)
Definition key_lt (x y : key) : bool :=
  if negb (fst x =? fst y) then fst x <? fst y
  else match snd y, snd x with
       | None, None => false
       | None, Some _ => true
       | Some _, None => false
       | Some b, Some a => bytes_ltb a b
       end.

(** ** The cache *)

(** [Value] without its links; the iterator into the map is its key. *)
Record Value := {
  v_key : key; v_start_row : list Z; v_end_row : list Z; v_location : list Z; v_pegged : bool }.

Record LocationCache := {
  m_store : store Value;
  m_location_map : list (key * loc);
  m_location_strings : list (list Z);
  m_head : option loc;
  m_tail : option loc;
  m_max_entries : Z }.

Definition LocationCache_make (max_entries : Z) : LocationCache :=
  {| m_store := ∅; m_location_map := []; m_location_strings := []; m_head := None; m_tail := None; m_max_entries := max_entries |}.

Definition with_list (h : store Value) (head tail : option loc) (c : LocationCache) : LocationCache :=
  {| m_store := h; m_location_map := m_location_map c; m_location_strings := m_location_strings c; m_head := head; m_tail := tail;
     m_max_entries := m_max_entries c |}.
Definition with_map (m : list (key * loc)) (c : LocationCache) : LocationCache :=
  {| m_store := m_store c; m_location_map := m; m_location_strings := m_location_strings c; m_head := m_head c; m_tail := m_tail c;
     m_max_entries := m_max_entries c |}.
Definition with_strings (s : list (list Z)) (c : LocationCache) : LocationCache :=
  {| m_store := m_store c; m_location_map := m_location_map c; m_location_strings := s; m_head := m_head c; m_tail := m_tail c;
     m_max_entries := m_max_entries c |}.

(** [std::map]: entries in the order of their keys. *)
Fixpoint lower_bound (k : key) (m : list (key * loc)) : option (key * loc) :=
  match m with [] => None | (k', p) :: m => if key_lt k' k then lower_bound k m else Some (k', p) end.
Definition map_find (k : key) (m : list (key * loc)) : option loc :=
  match lower_bound k m with Some (k', p) => if key_lt k k' then None else Some p | None => None end.
Fixpoint map_add (k : key) (p : loc) (m : list (key * loc)) : option (list (key * loc)) :=
  match m with
  | [] => Some [(k, p)]
  | (k', p') :: m' =>
      if key_lt k' k then option_map (cons (k', p')) (map_add k p m')
      else if key_lt k k' then Some ((k, p) :: m) else None
  end.
Fixpoint map_erase (k : key) (m : list (key * loc)) : list (key * loc) :=
  match m with
  | [] => []
  | (k', p') :: m => if key_lt k' k || key_lt k k' then (k', p') :: map_erase k m else m
  end.

Definition peq (p : loc) (q : option loc) : bool := bool_decide (Some p = q).

Definition move_to_head (p : loc) (c : LocationCache) : result LocationCache :=
  if peq p (m_head c) then Ok c
  else
    n <- fetch (Some p) (m_store c) ;;
    h <- assign (with_prev (prev n)) (next n) (m_store c) ;;
    '(h, tail) <- match prev n with
                  | None => Ok (h, next n)
                  | Some _ => h <- assign (with_next (next n)) (prev n) h ;; Ok (h, m_tail c)
                  end ;;
    h <- assign (fun n => Node (m_head c) None (item n)) (Some p) h ;;
    h <- assign (with_next (Some p)) (m_head c) h ;;
    Ok (with_list h (Some p) tail c).

(** The links of [remove], and then the entry of the map and the node itself. *)
Definition unlink (p : loc) (n : node Value) (c : LocationCache) : result LocationCache :=
  let h := m_store c in
  if peq p (m_tail c) then
    match next n with
    | Some _ => h <- assign (with_prev None) (next n) h ;; Ok (with_list h (m_head c) (next n) c)
    | None => if peq p (m_head c) then Ok (with_list h None None c) else Fault
    end
  else if peq p (m_head c) then
    h <- assign (with_next None) (prev n) h ;; Ok (with_list h (prev n) (m_tail c) c)
  else
    h <- assign (with_prev (prev n)) (next n) h ;;
    h <- assign (with_next (next n)) (prev n) h ;;
    Ok (with_list h (m_head c) (m_tail c) c).

Definition remove_ (p : loc) (c : LocationCache) : result LocationCache :=
  n <- fetch (Some p) (m_store c) ;;
  c <- unlink p n c ;;
  Ok (with_map (map_erase (v_key (item n)) (m_location_map c)) (with_list (delete p (m_store c)) (m_head c) (m_tail c) c)).

Definition get_constant_location_str (location : list Z) (c : LocationCache) : LocationCache :=
  if existsb (bytes_eqb location) (m_location_strings c) then c else with_strings (location :: m_location_strings c) c.

(** [while (m_location_map.size() >= m_max_entries) ...]; [None] when the rounds are
    used up. *)
Fixpoint make_room (fuel : nat) (c : LocationCache) : option (result LocationCache) :=
  if zlen (m_location_map c) <? m_max_entries c then Some (Ok c)
  else
    match fuel with
    | O => None
    | S fuel =>
        match (match m_tail c with
               | None => Fault
               | Some p => n <- fetch (Some p) (m_store c) ;; if v_pegged (item n) then move_to_head p c else remove_ p c
               end) with
        | Ok c => make_room fuel c
        | Throw e => Some (Throw e)
        | Fault => Some Fault
        end
    end.

(** The new entry at the head, and in the map. *)
Definition add_to_head (p : loc) (v : Value) (c : LocationCache) : result LocationCache :=
  c <- match m_head c with
       | None => match m_tail c with
                 | None => Ok (with_list (<[p := Node None None v]> (m_store c)) (Some p) (Some p) c)
                 | Some _ => Fault
                 end
       | Some q => h <- assign (with_next (Some p)) (Some q) (m_store c) ;;
                   Ok (with_list (<[p := Node (Some q) None v]> h) (Some p) (m_tail c) c)
       end ;;
  match map_add (v_key v) p (m_location_map c) with Some m => Ok (with_map m c) | None => Fault end.

(** [RangeLocationInfo] *)
Record RangeLocationInfo := { rl_start_row : list Z; rl_end_row : list Z; rl_location : list Z }.

Definition new_value (table_id : Z) (i : RangeLocationInfo) (pegged : bool) : Value :=
  {| v_key := (table_id, match rl_end_row i with [] => None | e => Some e end); v_start_row := rl_start_row i; v_end_row := rl_end_row i;
     v_location := rl_location i; v_pegged := pegged |}.

Definition insert_ (fuel : nat) (table_id : Z) (i : RangeLocationInfo) (pegged : bool) (c : LocationCache) : option (result LocationCache) :=
  let v := new_value table_id i pegged in
  let p := fresh (dom (m_store c)) in
  let c := get_constant_location_str (rl_location i) c in
  match (match map_find (v_key v) (m_location_map c) with Some q => remove_ q c | None => Ok c end) with
  | Ok c => match make_room fuel c with
            | Some r => Some (c <- r ;; add_to_head p v c)
            | None => None
            end
  | Throw e => Some (Throw e)
  | Fault => Some Fault
  end.

Definition info_of (v : Value) : RangeLocationInfo :=
  {| rl_start_row := v_start_row v; rl_end_row := v_end_row v; rl_location := v_location v |}.

(** The entry [lookup] and [invalidate] look at. *)
Definition candidate (table_id : Z) (rowkey : list Z) (c : LocationCache) : option loc :=
  match lower_bound (table_id, Some rowkey) (m_location_map c) with
  | Some (k, p) => if fst k =? table_id then Some p else None
  | None => None
  end.

Definition lookup_ (table_id : Z) (rowkey : list Z) (inclusive : bool) (c : LocationCache)
    : result (option RangeLocationInfo * LocationCache) :=
  match candidate table_id rowkey c with
  | None => Ok (None, c)
  | Some p =>
      n <- fetch (Some p) (m_store c) ;;
      let start := v_start_row (item n) in
      if (if inclusive then bytes_ltb rowkey start else bytes_leb rowkey start) then Ok (None, c)
      else
        c <- move_to_head p c ;;
        Ok (Some (info_of (item n)), c)
  end.

Definition invalidate (table_id : Z) (rowkey : list Z) (c : LocationCache) : result (bool * LocationCache) :=
  match candidate table_id rowkey c with
  | None => Ok (false, c)
  | Some p =>
      n <- fetch (Some p) (m_store c) ;;
      if bytes_ltb rowkey (v_start_row (item n)) then Ok (false, c)
      else c <- remove_ p c ;; Ok (true, c)
  end.

(** ** What the cache promises *)

Module LRU.

(** The entries, the one that was not used for longest first; one for each key. *)
Definition without (k : key) (l : list Value) : list Value := List.filter (fun v => key_lt (v_key v) k || key_lt k (v_key v)) l.
Definition touch (v : Value) (l : list Value) : list Value := without (v_key v) l ++ [v].

(** The entry with the least key that is not less than [k]. *)
Fixpoint lower (k : key) (l : list Value) : option Value :=
  match l with
  | [] => None
  | v :: l =>
      if key_lt (v_key v) k then lower k l
      else match lower k l with
           | Some w => if key_lt (v_key w) (v_key v) then Some w else Some v
           | None => Some v
           end
  end.

Definition candidate (table_id : Z) (rowkey : list Z) (l : list Value) : option Value :=
  match lower (table_id, Some rowkey) l with
  | Some v => if fst (v_key v) =? table_id then Some v else None
  | None => None
  end.

Definition lookup (table_id : Z) (rowkey : list Z) (inclusive : bool) (l : list Value) : option RangeLocationInfo * list Value :=
  match candidate table_id rowkey l with
  | Some v => if (if inclusive then bytes_ltb rowkey (v_start_row v) else bytes_leb rowkey (v_start_row v)) then (None, l)
              else (Some (info_of v), touch v l)
  | None => (None, l)
  end.

Definition invalidate (table_id : Z) (rowkey : list Z) (l : list Value) : bool * list Value :=
  match candidate table_id rowkey l with
  | Some v => if bytes_ltb rowkey (v_start_row v) then (false, l) else (true, without (v_key v) l)
  | None => (false, l)
  end.

(** Dropping the first entry that is not pegged; those in front of it count as used. *)
Fixpoint evict (pegged l : list Value) : option (list Value) :=
  match l with
  | [] => None
  | v :: l => if v_pegged v then evict (pegged ++ [v]) l else Some (l ++ pegged)
  end.

Definition insert (max table_id : Z) (i : RangeLocationInfo) (pegged : bool) (l : list Value) : option (list Value) :=
  let v := new_value table_id i pegged in
  let l := without (v_key v) l in
  match (if zlen l <? max then Some l else evict [] l) with
  | Some l => Some (l ++ [v])
  | None => None
  end.

End LRU.
