(* ===== verification/LocationCacheSpec.v ===== *)
(** * The location cache is an LRU cache

    The pointers and the map of [LocationCache.v] represent a list of entries in
    the order of their use, and the operations do what [LRU] says. *)
Set Warnings "-notation-incompatible-prefix,-clear-no-such-hyp".
From S2P Require Import Prelude Errors Serialization LinkedList LocationCache.
From stdpp Require Import base gmap list.
From Stdlib Require Import ZArith Lia Sorted.
Open Scope Z_scope.
Open Scope result_scope.

(** ** The order of keys *)

Lemma key_lt_irrefl k : key_lt k k = false.
Proof.
  unfold key_lt. rewrite Z.eqb_refl. cbn. destruct (snd k) as [a|]; [|reflexivity]. apply bytes_ltb_ge, bytes_lt_irrefl.
Qed.

Lemma key_lt_trans a b c : key_lt a b = true -> key_lt b c = true -> key_lt a c = true.
Proof.
  unfold key_lt. destruct a as [ta a], b as [tb b], c as [tc c]. cbn.
  destruct (Z.eqb_spec ta tb), (Z.eqb_spec tb tc), (Z.eqb_spec ta tc); cbn; subst; try lia; try congruence; rewrite ?Z.ltb_lt in *; try lia.
  destruct a as [a|], b as [b|], c as [c|]; try congruence. rewrite !bytes_ltb_lt. apply bytes_lt_trans.
Qed.

Lemma key_total a b : key_lt a b = false -> key_lt b a = false -> a = b.
Proof.
  unfold key_lt. destruct a as [ta a], b as [tb b]. cbn.
  destruct (Z.eqb_spec ta tb), (Z.eqb_spec tb ta); cbn; subst; try congruence; rewrite ?Z.ltb_ge in *; try lia.
  destruct a as [a|], b as [b|]; try congruence. intros H1 H2. f_equal. f_equal. rewrite bytes_ltb_ge in *.
  destruct (bytes_trichotomy a b) as [H|[H|H]]; congruence || contradiction.
Qed.

Lemma key_lt_asym a b : key_lt a b = true -> key_lt b a = false.
Proof. intros H. destruct (key_lt b a) eqn:E; [|reflexivity]. pose proof (key_lt_trans _ _ _ H E) as X. now rewrite key_lt_irrefl in X. Qed.

Lemma key_lt_le_trans a b c : key_lt a b = true -> key_lt c b = false -> key_lt a c = true.
Proof.
  intros H1 H2. destruct (key_lt a c) eqn:E; [reflexivity|]. destruct (key_lt c a) eqn:E'; [|now rewrite <- (key_total a c E E'), H1 in H2].
  now rewrite (key_lt_trans _ _ _ E' H1) in H2.
Qed.

Definition keys_sorted (m : list (key * loc)) : Prop := StronglySorted (fun a b => key_lt a b = true) m.*1.

Lemma sorted_not_in k m : Forall (fun k' => key_lt k k' = true) m -> k ∉ m.
Proof. rewrite Forall_forall. intros H Hi. specialize (H k Hi). now rewrite key_lt_irrefl in H. Qed.

Lemma sorted_nodup m : keys_sorted m -> NoDup m.*1.
Proof.
  unfold keys_sorted. induction m as [|[k p] m IH]; cbn; [constructor|]. intros H. inv H. constructor; [|auto]. now apply sorted_not_in.
Qed.

Lemma unique_value {K V} (m : list (K * V)) k p q : NoDup m.*1 -> (k, p) ∈ m -> (k, q) ∈ m -> p = q.
Proof.
  intros N Hp Hq. apply list_elem_of_lookup in Hp as [i Hi], Hq as [j Hj].
  assert (i = j) as ->; [|congruence]. apply (NoDup_lookup m.*1 i j k N); rewrite list_lookup_fmap; [now rewrite Hi|now rewrite Hj].
Qed.

(** ** The map *)

Lemma lower_bound_spec k m : keys_sorted m ->
  match lower_bound k m with
  | Some (k', p) => (k', p) ∈ m /\ key_lt k' k = false /\ forall k'', k'' ∈ m.*1 -> key_lt k'' k = false -> key_lt k'' k' = false
  | None => forall k'', k'' ∈ m.*1 -> key_lt k'' k = true
  end.
Proof.
  unfold keys_sorted. induction m as [|[k1 p1] m IH]; intros Hs; cbn [lower_bound fmap] in *; [intros k'' H; inversion H|].
  inv Hs. destruct (key_lt k1 k) eqn:E.
  - specialize (IH H1). destruct (lower_bound k m) as [[k' p]|].
    + destruct IH as (I1 & I2 & I3). split; [now apply list_elem_of_further|]. split; [exact I2|]. intros k'' Hk. apply elem_of_cons in Hk as [->|Hk]; [cbn; congruence|auto].
    + intros k'' Hk. apply elem_of_cons in Hk as [->|Hk]; auto.
  - split; [apply list_elem_of_here|]. split; [exact E|]. intros k'' Hk Hl. apply elem_of_cons in Hk as [->|Hk]; [apply key_lt_irrefl|].
    rewrite Forall_forall in H2. now apply key_lt_asym, H2.
Qed.

Lemma map_find_some k m p : keys_sorted m -> map_find k m = Some p <-> (k, p) ∈ m.
Proof.
  intros Hs. unfold map_find. pose proof (lower_bound_spec k m Hs) as H.
  pose proof (fun k p q => unique_value m k p q (sorted_nodup m Hs)) as U.
  destruct (lower_bound k m) as [[k' q]|].
  - destruct H as (H1 & H2 & H3). destruct (key_lt k k') eqn:E.
    + split; [discriminate|]. intros Hi. rewrite (H3 k) in E; [discriminate| |apply key_lt_irrefl]. apply list_elem_of_fmap. exists (k, p). auto.
    + assert (k' = k) as -> by now apply key_total. split; [now intros [= <-]|]. intros Hi. f_equal. exact (U _ _ _ H1 Hi).
  - split; [discriminate|]. intros Hi. specialize (H k). rewrite key_lt_irrefl in H. discriminate H. apply list_elem_of_fmap. exists (k, p). auto.
Qed.

Lemma map_find_none k m : keys_sorted m -> map_find k m = None -> k ∉ m.*1.
Proof.
  intros Hs E Hi. apply list_elem_of_fmap in Hi as ([k' p] & -> & Hi). apply (map_find_some _ _ _ Hs) in Hi. cbn in *. congruence.
Qed.

Lemma map_erase_spec k p m : keys_sorted m -> (k, p) ∈ m -> m ≡ₚ (k, p) :: map_erase k m /\ keys_sorted (map_erase k m).
Proof.
  unfold keys_sorted. induction m as [|[k1 p1] m IH]; intros Hs Hi; [inversion Hi|]. cbn [fmap map_erase] in *. inv Hs. cbn in H2.
  apply elem_of_cons in Hi as [[= -> ->]|Hi].
  - rewrite key_lt_irrefl. cbn. split; [reflexivity|assumption].
  - assert (E : key_lt k1 k = true) by (rewrite Forall_forall in H2; apply H2, list_elem_of_fmap; exists (k, p); auto).
    rewrite E. cbn [orb fmap]. destruct (IH H1 Hi) as [I1 I2]. split.
    + rewrite I1 at 1. apply Permutation_swap.
    + cbn. constructor; [exact I2|]. rewrite Forall_forall in *. intros k' Hk'. apply H2. rewrite I1. cbn. now apply list_elem_of_further.
Qed.

Lemma map_add_spec k p m : keys_sorted m -> k ∉ m.*1 -> exists m', map_add k p m = Some m' /\ m' ≡ₚ (k, p) :: m /\ keys_sorted m'.
Proof.
  unfold keys_sorted. induction m as [|[k1 p1] m IH]; intros Hs Hi; cbn [map_add fmap] in *.
  - exists [(k, p)]. split; [reflexivity|]. split; [reflexivity|]. repeat constructor.
  - inv Hs. cbn in *. rewrite not_elem_of_cons in Hi. destruct Hi as [Hne Hi]. destruct (key_lt k1 k) eqn:E1.
    + destruct (IH H1 Hi) as (m' & -> & P & S). exists ((k1, p1) :: m'). split; [reflexivity|]. split; [rewrite P; apply Permutation_swap|].
      cbn. constructor; [exact S|]. rewrite Forall_forall in *. intros k' Hk'. rewrite P in Hk'. cbn in Hk'.
      apply elem_of_cons in Hk' as [->|Hk']; auto.
    + destruct (key_lt k k1) eqn:E2; [|exfalso; apply Hne; now apply key_total].
      eexists. split; [reflexivity|]. split; [reflexivity|]. cbn. constructor; [now constructor|]. constructor; [exact E2|].
      eapply Forall_impl; [exact H2|]. intros k' Hk'. exact (key_lt_trans _ _ _ E2 Hk').
Qed.

(** ** Representation *)

Definition entry_of (x : loc * Value) : key * loc := (v_key (snd x), fst x).

Record rep (c : LocationCache) (l : list (loc * Value)) : Prop := {
  r_list : dll (m_store c) (m_tail c) (m_head c) l;
  r_sorted : keys_sorted (m_location_map c);
  r_map : m_location_map c ≡ₚ (entry_of <$> l) }.

Lemma rep_keys c l : rep c l -> NoDup (v_key <$> l.*2).
Proof.
  intros [_ S P]. apply sorted_nodup in S. rewrite P in S. rewrite <- !list_fmap_compose in *. exact S.
Qed.

Lemma rep_size c l : rep c l -> zlen (m_location_map c) = zlen l.
Proof. intros [_ _ P]. unfold zlen. rewrite P, length_fmap. reflexivity. Qed.

Lemma peq_spec p q : reflect (Some p = q) (peq p q).
Proof. unfold peq. apply bool_decide_reflect. Qed.

Lemma unlink_ok c l1 p v l2 : dll (m_store c) (m_tail c) (m_head c) (l1 ++ (p, v) :: l2) ->
  unlink p (Node (last_or None l1) (head_or l2 None) v) c =
  Ok (with_list (bypass l1 l2 (m_store c)) (last_or None (l1 ++ l2)) (head_or (l1 ++ l2) None) c).
Proof.
  intros D. destruct (dll_not_in _ _ _ _ _ _ _ D) as [N1 N2]. unfold unlink. cbn [next prev].
  rewrite (dll_tail _ _ _ _ D), (dll_head _ _ _ _ D), !head_or_app, !last_or_app. cbn [head_or last_or].
  destruct l1 as [|[q b] l1].
  - cbn [head_or last_or]. destruct (peq_spec p (Some p)) as [_|]; [|congruence]. destruct l2 as [|[q b] l2].
    + cbn [head_or last_or]. destruct (peq_spec p (Some p)); [reflexivity|congruence].
    + rewrite (assign_ends _ _ _ [] p v ((q, b) :: l2) _ D) by (right; auto). cbn [bind]. reflexivity.
  - set (l := (q, b) :: l1) in *. assert (Hl : l <> []) by easy. destruct (some_node l Hl) as (x & y & Ex & Ey).
    assert (Hx : p <> x) by (intros ->; apply N1; now apply head_in).
    assert (Ex' : forall nx, head_or l nx = Some x) by (intros nx; now rewrite head_of).
    rewrite !Ex'. destruct (peq_spec p (Some x)); [congruence|]. destruct l2 as [|[s d] l2].
    + cbn [last_or]. destruct (peq_spec p (Some p)) as [_|]; [|congruence].
      rewrite (assign_ends _ _ _ l p v [] _ D) by (left; auto). reflexivity.
    + set (r := (s, d) :: l2) in *. assert (Hr : r <> []) by easy. destruct (some_node r Hr) as (z & w & Ez & Ew).
      assert (Ew' : forall pv, last_or pv r = Some w) by (intros pv; now rewrite last_of).
      assert (Hw : p <> w) by (intros ->; apply N2; now apply last_in). rewrite !Ew'. destruct (peq_spec p (Some w)); [congruence|].
      rewrite (assign_ends _ _ _ l p v r _ D) by (right; auto). cbn [bind]. rewrite assign_after; [reflexivity|].
      exists y. split; [exact Ey|]. apply (dll_bound _ _ _ _ y D). right. right. rewrite fmap_app, elem_of_app. left. now apply last_in.
Qed.

Lemma map_without c l1 p v l2 : rep c (l1 ++ (p, v) :: l2) ->
  map_erase (v_key v) (m_location_map c) ≡ₚ (entry_of <$> (l1 ++ l2)) /\ keys_sorted (map_erase (v_key v) (m_location_map c)).
Proof.
  intros [_ S P]. assert (Hi : (v_key v, p) ∈ m_location_map c).
  { rewrite P. apply list_elem_of_fmap. exists (p, v). split; [reflexivity|]. apply elem_of_app. right. apply list_elem_of_here. }
  destruct (map_erase_spec _ _ _ S Hi) as [P' S']. split; [|exact S']. apply (Permutation_cons_inv (a := (v_key v, p))).
  rewrite <- P', P, !fmap_app. cbn. change (entry_of (p, v)) with (v_key v, p). symmetry. apply Permutation_middle.
Qed.

Lemma remove_ok c l1 p v l2 : rep c (l1 ++ (p, v) :: l2) ->
  exists c', remove_ p c = Ok c' /\ rep c' (l1 ++ l2) /\ m_max_entries c' = m_max_entries c.
Proof.
  intros R. pose proof (r_list _ _ R) as D. destruct (map_without _ _ _ _ _ R) as [P S]. unfold remove_.
  rewrite (fetch_some _ _ _ (dll_node _ _ _ _ _ _ _ D)). cbn [bind]. rewrite (unlink_ok _ _ _ _ _ D). cbn [bind].
  eexists. split; [reflexivity|]. split; [|reflexivity]. split; cbn; [exact (dll_delete _ _ _ _ _ _ _ D)|exact S|exact P].
Qed.

(** Moving a node is deleting it and adding it at the head. *)
Lemma moved_store {A} (hb : store A) p n q v : hb !! p = Some n -> item n = v -> q <> p ->
  alter (with_next (Some p)) q (alter (fun n => Node (Some q) None (item n)) p hb) =
  <[p := Node (Some q) None v]> (alter (with_next (Some p)) q (delete p hb)).
Proof.
  intros Hp Hv Hne. apply map_eq. intros i. destruct (decide (i = p)) as [->|Hi].
  - rewrite lookup_insert_eq, lookup_alter_ne, lookup_alter_eq, Hp by assumption. cbn. now rewrite Hv.
  - rewrite lookup_insert_ne by congruence. destruct (decide (i = q)) as [->|Hq].
    + rewrite !lookup_alter_eq, lookup_alter_ne, lookup_delete_ne by congruence. reflexivity.
    + rewrite !lookup_alter_ne, lookup_delete_ne by congruence. reflexivity.
Qed.

Lemma move_to_head_ok c l1 p v l2 : rep c (l1 ++ (p, v) :: l2) ->
  exists c', move_to_head p c = Ok c' /\ rep c' (l1 ++ l2 ++ [(p, v)]) /\ m_max_entries c' = m_max_entries c.
Proof.
  intros R. pose proof (r_list _ _ R) as D. destruct (dll_not_in _ _ _ _ _ _ _ D) as [N1 N2]. unfold move_to_head.
  destruct (decide (l2 = [])) as [->|Hr].
  { exists c. split; [|split; [exact R|reflexivity]]. destruct (peq_spec p (m_head c)) as [|Hne]; [reflexivity|]. exfalso. apply Hne.
    rewrite (dll_head _ _ _ _ D), last_or_app. reflexivity. }
  destruct (some_node l2 Hr) as (z & w & Ez & Ew). assert (Hw : w <> p) by (intros ->; apply N2; now apply last_in).
  assert (Eh : m_head c = Some w) by (rewrite (dll_head _ _ _ _ D), last_or_app; cbn; now rewrite last_of).
  destruct (peq_spec p (m_head c)) as [Hp|_]; [congruence|].
  rewrite (fetch_some _ _ _ (dll_node _ _ _ _ _ _ _ D)). cbn [bind prev next].
  rewrite (assign_ends _ _ _ l1 p v l2 _ D) by (right; auto). cbn [bind].
  set (h1 := at_loc (with_prev (last_or None l1)) (head_or l2 None) (m_store c)).
  assert (E2 : (match last_or None l1 with
                | None => Ok (h1, head_or l2 None)
                | Some _ => h <- assign (with_next (head_or l2 None)) (last_or None l1) h1 ;; Ok (h, m_tail c)
                end) = Ok (bypass l1 l2 (m_store c), head_or (l1 ++ l2) None)).
  { rewrite head_or_app. destruct (last_or None l1) as [y|] eqn:Ey.
    - assert (Hl : l1 <> []) by (intros ->; discriminate). unfold h1. rewrite assign_after.
      + cbn [bind]. rewrite (dll_tail _ _ _ _ D), head_or_app. unfold bypass. rewrite Ey.
        rewrite (head_of l1 (head_or l2 None)), (head_of l1 (head_or ((p, v) :: l2) None)) by exact Hl. reflexivity.
      + exists y. split; [reflexivity|]. apply (dll_bound _ _ _ _ y D). right. right. rewrite fmap_app, elem_of_app. left. exact (last_in _ _ Ey).
    - assert (l1 = []) as -> by (destruct l1 as [|[q b] l1]; [reflexivity|]; destruct (some_node ((q, b) :: l1)) as (? & ? & _ & E); congruence). reflexivity. }
  rewrite E2. cbn [bind]. set (hb := bypass l1 l2 (m_store c)).
  assert (Hb : exists n, hb !! p = Some n /\ item n = v).
  { unfold hb. rewrite bypass_other; [eexists; split; [exact (dll_node _ _ _ _ _ _ _ D)|reflexivity]|]. rewrite fmap_app, elem_of_app. tauto. }
  destruct Hb as (n & Hn & Hv). rewrite assign_some by eauto. cbn [bind]. rewrite Eh, assign_some.
  2: { rewrite lookup_alter_ne by congruence. apply bypass_some. apply (dll_bound _ _ _ _ w D). auto. }
  cbn [bind]. eexists. split; [reflexivity|]. split; [|reflexivity]. destruct R as [_ S P]. split; cbn.
  - rewrite (moved_store hb p n w v) by assumption. pose proof (dll_delete _ _ _ _ _ _ _ D) as D'. fold hb in D'.
    assert (El : last_or None (l1 ++ l2) = Some w) by (rewrite last_or_app, last_of by exact Hr; exact Ew). rewrite El in D'.
    pose proof (dll_push_head _ _ _ _ p v D' (lookup_delete_eq _ _)) as D2. cbn [at_loc] in D2.
    rewrite app_assoc. rewrite head_or_app in D2. assert (Hne : l1 ++ l2 <> []) by (destruct l1; [exact Hr|easy]).
    rewrite (head_of (l1 ++ l2)) in D2 by exact Hne. exact D2.
  - exact S.
  - rewrite P, !fmap_app. cbn. now rewrite Permutation_app_comm with (l := entry_of <$> l2).
Qed.

(** ** The entry a row belongs to *)

Lemma lower_spec k L :
  match LRU.lower k L with
  | Some v => v ∈ L /\ key_lt (v_key v) k = false /\ forall w, w ∈ L -> key_lt (v_key w) k = false -> key_lt (v_key w) (v_key v) = false
  | None => forall w, w ∈ L -> key_lt (v_key w) k = true
  end.
Proof.
  induction L as [|x L IH]; cbn [LRU.lower]; [intros w H; inversion H|].
  destruct (key_lt (v_key x) k) eqn:E.
  - destruct (LRU.lower k L) as [v|].
    + destruct IH as (I1 & I2 & I3). split; [now apply list_elem_of_further|]. split; [exact I2|].
      intros w Hw. apply elem_of_cons in Hw as [->|Hw]; [congruence|auto].
    + intros w Hw. apply elem_of_cons in Hw as [->|Hw]; auto.
  - destruct (LRU.lower k L) as [v|].
    + destruct IH as (I1 & I2 & I3). destruct (key_lt (v_key v) (v_key x)) eqn:E2.
      * split; [now apply list_elem_of_further|]. split; [exact I2|]. intros w Hw Hk. apply elem_of_cons in Hw as [->|Hw]; [now apply key_lt_asym|auto].
      * split; [apply list_elem_of_here|]. split; [exact E|]. intros w Hw Hk. apply elem_of_cons in Hw as [->|Hw]; [apply key_lt_irrefl|].
        destruct (key_lt (v_key w) (v_key x)) eqn:E3; [|reflexivity]. now rewrite <- (key_lt_le_trans _ _ _ E3 E2), (I3 w Hw Hk).
    + split; [apply list_elem_of_here|]. split; [exact E|]. intros w Hw Hk. apply elem_of_cons in Hw as [->|Hw]; [apply key_lt_irrefl|].
      rewrite (IH w Hw) in Hk. discriminate.
Qed.

Lemma key_inj (L : list Value) v w : NoDup (v_key <$> L) -> v ∈ L -> w ∈ L -> v_key v = v_key w -> v = w.
Proof.
  intros N Hv Hw E. apply list_elem_of_lookup in Hv as [i Hi], Hw as [j Hj].
  assert (i = j) as ->; [|congruence]. apply (NoDup_lookup (v_key <$> L) i j (v_key v) N); rewrite list_lookup_fmap; [now rewrite Hi|now rewrite Hj, E].
Qed.

Lemma map_entry c l k p : rep c l -> (k, p) ∈ m_location_map c -> exists v l1 l2, l = l1 ++ (p, v) :: l2 /\ v_key v = k.
Proof.
  intros [_ _ P] Hi. rewrite P in Hi. apply list_elem_of_fmap in Hi as ([q v] & [= -> ->] & Hi).
  apply list_elem_of_split in Hi as (l1 & l2 & ->). eauto.
Qed.

Lemma in_keys c l w : rep c l -> w ∈ l.*2 -> v_key w ∈ (m_location_map c).*1.
Proof.
  intros [_ _ P] Hw. apply list_elem_of_fmap in Hw as ([q v] & -> & Hw). rewrite P, <- list_fmap_compose. apply list_elem_of_fmap. exists (q, v). auto.
Qed.

Lemma candidate_agrees c l tid row : rep c l ->
  (candidate tid row c = None /\ LRU.candidate tid row l.*2 = None) \/
  exists l1 p v l2, l = l1 ++ (p, v) :: l2 /\ candidate tid row c = Some p /\ LRU.candidate tid row l.*2 = Some v.
Proof.
  intros R. unfold candidate, LRU.candidate. set (k := (tid, Some row)).
  pose proof (lower_bound_spec k _ (r_sorted _ _ R)) as B. pose proof (lower_spec k l.*2) as S.
  destruct (lower_bound k (m_location_map c)) as [[k' p]|], (LRU.lower k l.*2) as [w|].
  - destruct B as (B1 & B2 & B3), S as (S1 & S2 & S3). destruct (map_entry _ _ _ _ R B1) as (v & l1 & l2 & -> & <-).
    assert (Hv : v ∈ (l1 ++ (p, v) :: l2).*2) by (rewrite fmap_app; apply elem_of_app; right; apply list_elem_of_here).
    assert (v = w) as <-.
    { apply (key_inj _ _ _ (rep_keys _ _ R) Hv S1). apply key_total; [now apply S3|]. apply B3; [now apply (in_keys _ _ _ R)|exact S2]. }
    destruct (fst (v_key v) =? tid); [right; exists l1, p, v, l2; auto|left; auto].
  - destruct B as (B1 & B2 & B3). destruct (map_entry _ _ _ _ R B1) as (v & l1 & l2 & -> & <-).
    rewrite (S v) in B2; [discriminate|]. rewrite fmap_app. apply elem_of_app. right. apply list_elem_of_here.
  - destruct S as (S1 & S2 & S3). rewrite (B (v_key w)) in S2; [discriminate|]. now apply (in_keys _ _ _ R).
  - left. auto.
Qed.

Lemma without_id k L : k ∉ (v_key <$> L) -> LRU.without k L = L.
Proof.
  unfold LRU.without. induction L as [|v L IH]; intros Hk; [reflexivity|]. cbn. rewrite fmap_cons, not_elem_of_cons in Hk. destruct Hk as [H1 H2].
  rewrite IH by exact H2. destruct (key_lt (v_key v) k) eqn:E1; [reflexivity|]. destruct (key_lt k (v_key v)) eqn:E2; [reflexivity|].
  exfalso. apply H1. symmetry. now apply key_total.
Qed.

Lemma without_split l1 (v : Value) l2 : NoDup (v_key <$> (l1 ++ v :: l2)) -> LRU.without (v_key v) (l1 ++ v :: l2) = l1 ++ l2.
Proof.
  intros N. rewrite fmap_app in N. cbn in N. apply NoDup_app in N as (N1 & N2 & N3). inv N3.
  unfold LRU.without. rewrite List.filter_app. cbn. rewrite key_lt_irrefl. cbn. change (LRU.without (v_key v) l1 ++ LRU.without (v_key v) l2 = l1 ++ l2).
  rewrite !without_id; [reflexivity|assumption|]. intros Hi. apply (N2 _ Hi), list_elem_of_here.
Qed.

Lemma rep_without c l1 p v l2 : rep c (l1 ++ (p, v) :: l2) -> LRU.without (v_key v) (l1 ++ (p, v) :: l2).*2 = (l1 ++ l2).*2.
Proof.
  intros R. pose proof (rep_keys _ _ R) as N. rewrite (fmap_app snd) in N. rewrite !fmap_app. exact (without_split _ _ _ N).
Qed.

(** ** Operations *)

Lemma lookup_ok c l tid row inc : rep c l ->
  exists c' l', lookup_ tid row inc c = Ok (fst (LRU.lookup tid row inc l.*2), c') /\ rep c' l' /\
    l'.*2 = snd (LRU.lookup tid row inc l.*2) /\ m_max_entries c' = m_max_entries c /\ zlen l' <= zlen l.
Proof.
  intros R. unfold lookup_, LRU.lookup. destruct (candidate_agrees c l tid row R) as [[-> ->]|(l1 & p & v & l2 & -> & -> & ->)]; [exists c, l; auto with lia|].
  rewrite (fetch_some _ _ _ (dll_node _ _ _ _ _ _ _ (r_list _ _ R))). cbn [bind item].
  set (out := if inc then bytes_ltb row (v_start_row v) else _). clearbody out. destruct out; [exists c, (l1 ++ (p, v) :: l2); auto with lia|].
  destruct (move_to_head_ok _ _ _ _ _ R) as (c' & -> & R' & Hm). cbn [bind]. exists c', (l1 ++ l2 ++ [(p, v)]). split; [reflexivity|].
  split; [exact R'|]. split; [|split; [exact Hm|unfold zlen; rewrite !length_app; cbn; lia]].
  unfold LRU.touch. cbn [snd]. rewrite (rep_without _ _ _ _ _ R), !fmap_app, <- app_assoc. reflexivity.
Qed.

Lemma invalidate_ok c l tid row : rep c l ->
  exists c' l', invalidate tid row c = Ok (fst (LRU.invalidate tid row l.*2), c') /\ rep c' l' /\
    l'.*2 = snd (LRU.invalidate tid row l.*2) /\ m_max_entries c' = m_max_entries c /\ zlen l' <= zlen l.
Proof.
  intros R. unfold invalidate, LRU.invalidate. destruct (candidate_agrees c l tid row R) as [[-> ->]|(l1 & p & v & l2 & -> & -> & ->)]; [exists c, l; auto with lia|].
  rewrite (fetch_some _ _ _ (dll_node _ _ _ _ _ _ _ (r_list _ _ R))). cbn [bind item].
  destruct (bytes_ltb _ _); [exists c, (l1 ++ (p, v) :: l2); auto with lia|].
  destruct (remove_ok _ _ _ _ _ R) as (c' & -> & R' & Hm). cbn [bind]. exists c', (l1 ++ l2). split; [reflexivity|].
  split; [exact R'|]. split; [|split; [exact Hm|unfold zlen; rewrite !length_app; cbn; lia]].
  cbn [snd]. now rewrite (rep_without _ _ _ _ _ R).
Qed.

Lemma make_room_unfold fuel c : make_room (S fuel) c =
  if zlen (m_location_map c) <? m_max_entries c then Some (Ok c)
  else match (match m_tail c with
              | None => Fault
              | Some p => n <- fetch (Some p) (m_store c) ;; if v_pegged (item n) then move_to_head p c else remove_ p c
              end) with
       | Ok c => make_room fuel c
       | Throw e => Some (Throw e)
       | Fault => Some Fault
       end.
Proof. reflexivity. Qed.

Lemma room_left fuel c l : rep c l -> zlen l < m_max_entries c -> make_room fuel c = Some (Ok c).
Proof. intros R Hs. destruct fuel; cbn [make_room]; rewrite (rep_size _ _ R), (proj2 (Z.ltb_lt _ _)) by lia; reflexivity. Qed.

(** One round on a full cache, the first entry being [v]. *)
Lemma room_step c p v l : rep c ((p, v) :: l) -> m_max_entries c <= zlen ((p, v) :: l) ->
  exists c', m_max_entries c' = m_max_entries c /\ (forall fuel, make_room (S fuel) c = make_room fuel c') /\
    if v_pegged v then rep c' (l ++ [(p, v)]) else rep c' l.
Proof.
  intros R Hs.
  assert (E : forall fuel, make_room (S fuel) c = match (if v_pegged v then move_to_head p c else remove_ p c) with
    | Ok c => make_room fuel c | Throw e => Some (Throw e) | Fault => Some Fault end).
  { intros fuel. rewrite make_room_unfold, (rep_size _ _ R), (proj2 (Z.ltb_ge _ _)) by lia.
    rewrite (dll_tail _ _ _ _ (r_list _ _ R)). cbn [head_or].
    rewrite (fetch_some _ _ _ (dll_node _ _ _ [] p v l (r_list _ _ R))). reflexivity. }
  destruct (v_pegged v).
  - destruct (move_to_head_ok _ [] _ _ _ R) as (c' & E' & R' & Hm). exists c'. split; [exact Hm|]. split; [|exact R']. intros fuel. now rewrite E, E'.
  - destruct (remove_ok _ [] _ _ _ R) as (c' & E' & R' & Hm). exists c'. split; [exact Hm|]. split; [|exact R']. intros fuel. now rewrite E, E'.
Qed.

Lemma zlen_rotate {A} (x : A) l pg : zlen (l ++ pg ++ [x]) = zlen (x :: l ++ pg).
Proof. unfold zlen. cbn. rewrite !length_app. cbn. lia. Qed.

Lemma cache_room_ok l : forall pg c L', rep c (l ++ pg) -> m_max_entries c = zlen (l ++ pg) -> LRU.evict pg.*2 l.*2 = Some L' ->
  exists c' l', rep c' l' /\ l'.*2 = L' /\ m_max_entries c' = m_max_entries c /\ zlen l' < m_max_entries c /\
    (forall q, q ∈ l'.*1 -> q ∈ (l ++ pg).*1) /\ forall fuel, (length l <= fuel)%nat -> make_room fuel c = Some (Ok c').
Proof.
  induction l as [|[p v] l IH]; intros pg c L' R Hm E; cbn [fmap list_fmap LRU.evict app] in *; [discriminate|].
  destruct (room_step c p v (l ++ pg) R ltac:(lia)) as (c0 & Hm0 & Hf0 & R0). cbn [snd] in E. destruct (v_pegged v).
  - rewrite <- app_assoc in R0. destruct (IH (pg ++ [(p, v)]) c0 L' R0) as (c' & l' & R' & El & Hm' & Hz & Hq & Hf).
    { rewrite Hm0, Hm. symmetry. apply zlen_rotate. }
    { rewrite fmap_app. exact E. }
    exists c', l'. split; [exact R'|]. split; [exact El|]. split; [congruence|]. split; [lia|]. split.
    { intros q Hi. apply Hq in Hi. rewrite !fmap_app, !elem_of_app in Hi. cbn in Hi. rewrite list_elem_of_singleton in Hi.
      cbn. rewrite elem_of_cons, fmap_app, elem_of_app. tauto. }
    intros [|fuel] Hle; [cbn in Hle; lia|].
    rewrite Hf0. apply Hf. cbn in Hle. lia.
  - inv E. assert (Hz : zlen (l ++ pg) < m_max_entries c) by (rewrite Hm; unfold zlen; cbn; lia).
    exists c0, (l ++ pg). split; [exact R0|]. split; [apply fmap_app|]. split; [exact Hm0|]. split; [exact Hz|].
    split; [intros q Hi; cbn; now apply list_elem_of_further|].
    intros [|fuel] Hle; [cbn in Hle; lia|]. rewrite Hf0. apply (room_left _ _ _ R0). lia.
Qed.

(** With nothing but pegged entries there is no end. *)
Lemma make_room_loops fuel : forall c l, rep c l -> l <> [] -> m_max_entries c <= zlen l -> Forall (fun v => v_pegged v = true) l.*2 ->
  make_room fuel c = None.
Proof.
  induction fuel as [|fuel IH]; intros c l R Hne Hm Hp.
  - cbn [make_room]. now rewrite (rep_size _ _ R), (proj2 (Z.ltb_ge _ _)) by lia.
  - destruct l as [|[p v] l]; [congruence|]. destruct (room_step c p v l R Hm) as (c0 & Hm0 & Hf0 & R0). cbn in Hp. inv Hp. cbn in H1. rewrite H1 in R0.
    rewrite Hf0. apply (IH c0 (l ++ [(p, v)]) R0).
    + now destruct l.
    + rewrite Hm0. replace (zlen (l ++ [(p, v)])) with (zlen ((p, v) :: l)); [exact Hm|]. unfold zlen. rewrite length_app. cbn. lia.
    + rewrite fmap_app, Forall_app. split; [assumption|]. repeat constructor. exact H1.
Qed.

Lemma evict_none l : forall pg, LRU.evict pg l = None -> Forall (fun v => v_pegged v = true) l.
Proof.
  induction l as [|v l IH]; intros pg E; [constructor|]. cbn in E. destruct (v_pegged v) eqn:Ev; [|discriminate]. constructor; [exact Ev|]. exact (IH _ E).
Qed.

Lemma add_to_head_ok c l p v : rep c l -> m_store c !! p = None -> v_key v ∉ (v_key <$> l.*2) ->
  exists c', add_to_head p v c = Ok c' /\ rep c' (l ++ [(p, v)]) /\ m_max_entries c' = m_max_entries c.
Proof.
  intros [D S P] Hp Hk. unfold add_to_head.
  assert (Hn : v_key v ∉ (m_location_map c).*1) by (rewrite P, <- list_fmap_compose; rewrite <- list_fmap_compose in Hk; exact Hk).
  destruct (map_add_spec (v_key v) p _ S Hn) as (m & Em & Pm & Sm).
  pose proof (dll_push_head _ _ _ _ p v D Hp) as D'.
  assert (R' : forall c1, m_location_map c1 = m_location_map c -> m_max_entries c1 = m_max_entries c ->
    dll (m_store c1) (m_tail c1) (m_head c1) (l ++ [(p, v)]) ->
    exists c', (match map_add (v_key v) p (m_location_map c1) with Some m => Ok (with_map m c1) | None => Fault end) = Ok c' /\
      rep c' (l ++ [(p, v)]) /\ m_max_entries c' = m_max_entries c).
  { intros c1 Ec Hm D1. rewrite Ec, Em. eexists. split; [reflexivity|]. split; [|exact Hm]. split; cbn; [exact D1|exact Sm|].
    rewrite Pm, P, fmap_app. cbn. apply Permutation_cons_append. }
  destruct (m_head c) as [q|] eqn:Eh.
  - rewrite assign_some by (apply (dll_bound _ _ _ _ q D); auto). cbn [bind]. apply R'; [reflexivity|reflexivity|]. cbn. rewrite (dll_tail _ _ _ _ D).
    assert (Hl : l <> []) by (intros ->; pose proof (dll_head _ _ _ _ D); discriminate).
    rewrite head_or_app in D'. cbn [head_or] in D'. rewrite head_of in D' by exact Hl. exact D'.
  - assert (l = []) as ->.
    { destruct l as [|[q b] l]; [reflexivity|]. destruct (some_node ((q, b) :: l)) as (x & y & _ & E); [easy|].
      pose proof (dll_head _ _ _ _ D) as X. rewrite E in X. discriminate. }
    rewrite (dll_tail _ _ _ _ D). cbn [head_or bind]. apply R'; [reflexivity|reflexivity|]. exact D'.
Qed.

(** A cache that represents a list of entries. *)
Definition represents (c : LocationCache) (L : list Value) : Prop :=
  exists l, rep c l /\ l.*2 = L /\ 0 < m_max_entries c /\ zlen L <= m_max_entries c.

Lemma rep_strings c s l : rep c l -> rep (with_strings s c) l.
Proof. now intros [H1 H2 H3]. Qed.

Lemma rep_constant c s l : rep c l -> rep (get_constant_location_str s c) l /\ m_max_entries (get_constant_location_str s c) = m_max_entries c.
Proof. intros R. unfold get_constant_location_str. destruct (existsb _ _); [auto|]. split; [now apply rep_strings|reflexivity]. Qed.

Lemma rep_fresh c l (l' : list loc) p : rep c l -> (forall q, q ∈ l.*1 -> q ∈ l') -> p ∉ l' -> m_store c !! p = None.
Proof.
  intros R Hi Hp. destruct (m_store c !! p) eqn:E; [|reflexivity]. exfalso. apply Hp, Hi, (dll_all _ _ _ _ (r_list _ _ R)). eauto.
Qed.

(** The old entry of the key is gone. *)
Lemma replace_ok c l k : rep c l ->
  exists c' l', (match map_find k (m_location_map c) with Some q => remove_ q c | None => Ok c end) = Ok c' /\ rep c' l' /\
    l'.*2 = LRU.without k l.*2 /\ m_max_entries c' = m_max_entries c /\ (forall q, q ∈ l'.*1 -> q ∈ l.*1) /\ zlen l' <= zlen l /\ k ∉ (v_key <$> l'.*2).
Proof.
  intros R. destruct (map_find k (m_location_map c)) as [q|] eqn:E.
  - apply (map_find_some _ _ _ (r_sorted _ _ R)) in E. destruct (map_entry _ _ _ _ R E) as (v & l1 & l2 & -> & <-).
    destruct (remove_ok _ _ _ _ _ R) as (c' & -> & R' & Hm). exists c', (l1 ++ l2). split; [reflexivity|]. split; [exact R'|].
    split; [now rewrite (rep_without _ _ _ _ _ R)|]. split; [exact Hm|]. split; [|split].
    + intros x. rewrite !fmap_app, !elem_of_app. cbn. rewrite elem_of_cons. tauto.
    + unfold zlen. rewrite !length_app. cbn. lia.
    + pose proof (rep_keys _ _ R) as N. rewrite !fmap_app in *. cbn in N. apply NoDup_app in N as (N1 & N2 & N3). inv N3.
      rewrite elem_of_app. intros [Hi|Hi]; [apply (N2 _ Hi), list_elem_of_here|contradiction].
  - apply (map_find_none _ _ (r_sorted _ _ R)) in E. exists c, l. split; [reflexivity|]. split; [exact R|].
    assert (Hk : k ∉ (v_key <$> l.*2)) by (rewrite (r_map _ _ R), <- list_fmap_compose in E; rewrite <- list_fmap_compose; exact E).
    split; [now rewrite without_id|]. repeat split; auto. lia.
Qed.

Lemma zlen_snoc {A} (l : list A) x : zlen (l ++ [x]) = zlen l + 1.
Proof. unfold zlen. rewrite length_app. cbn. lia. Qed.

Lemma evict_keys l : forall pg L', LRU.evict pg l = Some L' -> forall v, v ∈ L' -> v ∈ l ++ pg.
Proof.
  induction l as [|x l IH]; intros pg L' E v Hv; [discriminate|]. cbn in E. destruct (v_pegged x).
  - apply (IH _ _ E) in Hv. rewrite app_assoc, elem_of_app, list_elem_of_singleton in Hv. cbn. rewrite elem_of_cons. tauto.
  - inv E. cbn. now apply list_elem_of_further.
Qed.

Lemma cache_insert_ok c L tid i pegged : represents c L ->
  match LRU.insert (m_max_entries c) tid i pegged L with
  | Some L' => exists c', represents c' L' /\ m_max_entries c' = m_max_entries c /\
                 forall fuel, (length L <= fuel)%nat -> insert_ fuel tid i pegged c = Some (Ok c')
  | None => forall fuel, insert_ fuel tid i pegged c = None
  end.
Proof.
  intros (l & R & <- & Hmax & Hsize). unfold LRU.insert, insert_. set (v := new_value tid i pegged). set (p := fresh (dom (m_store c))).
  destruct (rep_constant c (rl_location i) l R) as [R0 M0].
  destruct (replace_ok _ _ (v_key v) R0) as (c1 & l1 & -> & R1 & E1 & M1 & Q1 & Z1 & K1). rewrite <- E1.
  assert (Hp : p ∉ l.*1).
  { intros Hi. apply (dll_all _ _ _ _ (r_list _ _ R)) in Hi. apply elem_of_dom in Hi. exact (is_fresh _ Hi). }
  assert (Zl : zlen l.*2 = zlen l) by (unfold zlen; now rewrite length_fmap).
  assert (Zl1 : zlen l1.*2 = zlen l1) by (unfold zlen; now rewrite length_fmap).
  assert (Add : forall c2 l2, rep c2 l2 -> (forall q, q ∈ l2.*1 -> q ∈ l1.*1) -> (forall w, w ∈ l2.*2 -> w ∈ l1.*2) -> zlen l2 < m_max_entries c ->
    m_max_entries c2 = m_max_entries c -> exists c', add_to_head p v c2 = Ok c' /\ represents c' (l2.*2 ++ [v]) /\ m_max_entries c' = m_max_entries c).
  { intros c2 l2 R2 Q2 V2 Z2 M2. destruct (add_to_head_ok c2 l2 p v R2) as (c' & E' & R' & M').
    - apply (rep_fresh _ _ l.*1 p R2); auto.
    - intros Hk. apply K1. apply list_elem_of_fmap in Hk as (w & -> & Hw). apply list_elem_of_fmap. exists w. auto.
    - exists c'. split; [exact E'|]. split; [|congruence]. exists (l2 ++ [(p, v)]). split; [exact R'|]. split; [now rewrite fmap_app|].
      rewrite zlen_snoc. unfold zlen at 1. rewrite length_fmap. fold (zlen l2). lia. }
  destruct (Z.ltb_spec (zlen l1.*2) (m_max_entries c)) as [Hlt|Hge].
  - destruct (Add c1 l1 R1 ltac:(auto) ltac:(auto) ltac:(lia) ltac:(congruence)) as (c' & E' & R' & M').
    exists c'. split; [exact R'|]. split; [exact M'|]. intros fuel _. rewrite (room_left fuel c1 l1 R1) by lia. cbn [bind]. now rewrite E'.
  - destruct (LRU.evict [] l1.*2) as [L2|] eqn:Ev.
    + destruct (cache_room_ok l1 [] c1 L2) as (c2 & l2 & R2 & <- & M2 & Z2 & Q2 & F2); [now rewrite app_nil_r|rewrite app_nil_r, M1, M0; lia|exact Ev|].
      rewrite app_nil_r in Q2. destruct (Add c2 l2 R2 Q2) as (c' & E' & R' & M'); [|lia|congruence|].
      { intros w Hw. rewrite <- (app_nil_r l1.*2). exact (evict_keys _ _ _ Ev w Hw). }
      exists c'. split; [exact R'|]. split; [exact M'|]. intros fuel Hf. rewrite F2; [cbn [bind]; now rewrite E'|].
      rewrite length_fmap in Hf. unfold zlen in Z1. lia.
    + intros fuel. rewrite (make_room_loops fuel c1 l1 R1); [reflexivity| |lia|exact (evict_none _ _ Ev)]. intros ->. change (m_max_entries c <= 0) in Hge. lia.
Qed.

(** C37. The location cache is a cache of bounded size from which the entry that was
    not used for longest is dropped.  Whatever list of entries, in the order of
    their use, the pointers and the map of a cache represent: [lookup],
    [invalidate] and [insert] answer what the specification says of that list, never
    follow a null pointer and represent the list it gives, which is never longer
    than the limit.  [insert] returns except when the cache is full and every entry
    is pegged: then its loop goes on for ever. *)
Theorem location_cache_refines c L tid row inc i pegged : represents c L ->
  (exists c', lookup_ tid row inc c = Ok (fst (LRU.lookup tid row inc L), c') /\ represents c' (snd (LRU.lookup tid row inc L))) /\
  (exists c', invalidate tid row c = Ok (fst (LRU.invalidate tid row L), c') /\ represents c' (snd (LRU.invalidate tid row L))) /\
  match LRU.insert (m_max_entries c) tid i pegged L with
  | Some L' => exists c', represents c' L' /\ forall fuel, (length L <= fuel)%nat -> insert_ fuel tid i pegged c = Some (Ok c')
  | None => forall fuel, insert_ fuel tid i pegged c = None
  end.
Proof.
  intros R. pose proof (cache_insert_ok c L tid i pegged R) as I. destruct R as (l & R & <- & Hmax & Hsize).
  assert (Zl : zlen l.*2 = zlen l) by (unfold zlen; now rewrite length_fmap). rewrite Zl in Hsize.
  assert (represents_rep : forall c' l', rep c' l' -> m_max_entries c' = m_max_entries c -> zlen l' <= zlen l -> represents c' l'.*2).
  { intros c' l' R' M Hz. exists l'. rewrite M. unfold zlen at 1. rewrite length_fmap. fold (zlen l'). auto with lia. }
  split; [|split].
  - destruct (lookup_ok c l tid row inc R) as (c' & l' & E & R' & El & M & Hz). exists c'. split; [exact E|]. rewrite <- El. auto.
  - destruct (invalidate_ok c l tid row R) as (c' & l' & E & R' & El & M & Hz). exists c'. split; [exact E|]. rewrite <- El. auto.
  - destruct (LRU.insert _ _ _ _ _); [|exact I]. destruct I as (c' & R' & _ & F). eauto.
Qed.

(** A cache of two entries after three insertions. *)
Definition info (s e : list Z) : RangeLocationInfo := {| rl_start_row := s; rl_end_row := e; rl_location := [120] |}.
Definition sample_entries : list Value := [new_value 1 (info [97] [98]) false; new_value 1 (info [98] []) true].

Definition run_insert (tid : Z) (i : RangeLocationInfo) (pegged : bool) (c : LocationCache) : LocationCache :=
  match insert_ 5 tid i pegged c with Some (Ok c) => c | _ => c end.
Definition sample_cache : LocationCache :=
  run_insert 1 (info [98] []) true (run_insert 1 (info [97] [98]) false (run_insert 1 (info [] [97]) false (LocationCache_make 2))).

Lemma empty_represents max : 0 < max -> represents (LocationCache_make max) [].
Proof.
  intros H. exists []. split; [split; cbn; [apply dll_empty|constructor|constructor]|]. split; [reflexivity|]. unfold zlen. cbn. lia.
Qed.

Lemma inserted c L tid i pegged L' : represents c L -> (length L <= 5)%nat -> LRU.insert (m_max_entries c) tid i pegged L = Some L' ->
  represents (run_insert tid i pegged c) L' /\ m_max_entries (run_insert tid i pegged c) = m_max_entries c.
Proof.
  intros R Hl E. pose proof (cache_insert_ok c L tid i pegged R) as I. rewrite E in I. destruct I as (c' & R' & M & F).
  unfold run_insert. rewrite F by exact Hl. auto.
Qed.

Lemma sample_represents : represents sample_cache sample_entries.
Proof.
  destruct (inserted (LocationCache_make 2) [] 1 (info [] [97]) false [new_value 1 (info [] [97]) false]) as [R1 M1];
    [now apply empty_represents|cbn; lia|reflexivity|].
  destruct (inserted _ _ 1 (info [97] [98]) false [new_value 1 (info [] [97]) false; new_value 1 (info [97] [98]) false] R1) as [R2 M2];
    [cbn; lia|now rewrite M1|].
  destruct (inserted _ _ 1 (info [98] []) true sample_entries R2) as [R3 M3]; [cbn; lia|rewrite M2, M1; vm_compute; reflexivity|]. exact R3.
Qed.

Lemma location_cache_refines_witness :
  (exists c', lookup_ 1 [97; 97] false sample_cache = Ok (Some (info [97] [98]), c') /\
     represents c' [new_value 1 (info [98] []) true; new_value 1 (info [97] [98]) false]) /\
  exists c', invalidate 1 [99] sample_cache = Ok (true, c') /\ represents c' [new_value 1 (info [97] [98]) false].
Proof.
  destruct (location_cache_refines sample_cache sample_entries 1 [97; 97] false (info [] []) false sample_represents) as (H1 & _ & _).
  destruct (location_cache_refines sample_cache sample_entries 1 [99] false (info [] []) false sample_represents) as (_ & H2 & _).
  split; [exact H1|exact H2].
Defined.
