(* ===== verification/RequestCache.v ===== *)
(** * The requests that wait for an answer

    [AsyncComm/RequestCache.{h,cc}]: a hash map from the ids of requests to nodes of
    a doubly linked list in the order of insertion, from which the reactor takes
    those that have timed out.  The implementation is related to a queue of
    requests.

    Handlers and dispatch handlers are pointers; zero is null.  Times are numbers. *)
Set Warnings "-notation-incompatible-prefix,-clear-no-such-hyp".
From S2P Require Import Prelude Errors Serialization LinkedList.
From stdpp Require Import base gmap list.
From Stdlib Require Import ZArith Lia.
Open Scope Z_scope.
Open Scope result_scope.

(** [CacheNode] without its links. *)
Record Request := { rq_expire : Z; rq_id : Z; rq_handler : Z; rq_dh : Z }.

Record RequestCache := {
  c_store : store Request; m_id_map : gmap Z loc; c_head : option loc; c_tail : option loc }.

Definition RequestCache_make : RequestCache := {| c_store := ∅; m_id_map := ∅; c_head := None; c_tail := None |}.

Definition insert_request (id handler dh expire : Z) (c : RequestCache) : result RequestCache :=
  let p := fresh (dom (c_store c)) in
  let r := {| rq_expire := expire; rq_id := id; rq_handler := handler; rq_dh := dh |} in
  match m_id_map c !! id with
  | Some _ => Throw FAILED_EXPECTATION
  | None =>
      '(h, head) <- match c_head c with
                    | None => Ok (<[p := Node None None r]> (c_store c), Some p)
                    | Some _ => h <- assign (with_prev (Some p)) (c_tail c) (c_store c) ;;
                                Ok (<[p := Node None (c_tail c) r]> h, c_head c)
                    end ;;
      Ok {| c_store := h; m_id_map := <[id := p]> (m_id_map c); c_head := head; c_tail := Some p |}
  end.

(** [remove]; a null pointer when there is no such request. *)
Definition remove_request (id : Z) (c : RequestCache) : result (Z * RequestCache) :=
  match m_id_map c !! id with
  | None => Ok (0, c)
  | Some p =>
      n <- fetch (Some p) (c_store c) ;;
      '(h, tail) <- match prev n with
                    | None => Ok (c_store c, next n)
                    | Some _ => h <- assign (with_next (next n)) (prev n) (c_store c) ;; Ok (h, c_tail c)
                    end ;;
      '(h, head) <- match next n with
                    | None => Ok (h, prev n)
                    | Some _ => h <- assign (with_prev (prev n)) (next n) h ;; Ok (h, c_head c)
                    end ;;
      Ok (rq_dh (item n), {| c_store := delete p h; m_id_map := delete id (m_id_map c); c_head := head; c_tail := tail |})
  end.

(** The node at the head taken out of the list and of the map. *)
Definition pop_head (p : loc) (n : node Request) (c : RequestCache) : result RequestCache :=
  match m_id_map c !! rq_id (item n) with
  | None => Fault
  | Some _ =>
      '(h, head, tail) <- match prev n with
                          | Some q => h <- assign (with_next None) (Some q) (c_store c) ;; Ok (h, Some q, c_tail c)
                          | None => Ok (c_store c, None, None)
                          end ;;
      Ok {| c_store := delete p h; m_id_map := delete (rq_id (item n)) (m_id_map c); c_head := head; c_tail := tail |}
  end.

(** [get_next_timeout]: the dispatch handler and the handler of a request that has
    timed out, or null and the time the next one does (zero for none).  The rounds
    are bounded; [None] when they are used up. *)
Inductive timeout := Expired (dh handler : Z) | Next (expire : Z).

Fixpoint get_next_timeout (fuel : nat) (now : Z) (c : RequestCache) : option (result (timeout * RequestCache)) :=
  match c_head c with
  | None => Some (Ok (Next 0, c))
  | Some p =>
      match fetch (Some p) (c_store c) with
      | Ok n =>
          if rq_expire (item n) <=? now then
            match fuel with
            | O => None
            | S fuel =>
                match pop_head p n c with
                | Ok c => if negb (rq_handler (item n) =? 0) then Some (Ok (Expired (rq_dh (item n)) (rq_handler (item n)), c))
                          else get_next_timeout fuel now c
                | Throw e => Some (Throw e)
                | Fault => Some Fault
                end
            end
          else Some (Ok (Next (rq_expire (item n)), c))
      | Throw e => Some (Throw e)
      | Fault => Some Fault
      end
  end.

(** [purge_requests]: the dispatch handlers an error is delivered to, through the
    handler, which must not be null when there is one. *)
Definition mark_deleted (handler : Z) (n : node Request) : node Request :=
  let r := item n in
  if rq_handler r =? handler then
    Node (prev n) (next n) {| rq_expire := rq_expire r; rq_id := rq_id r; rq_handler := 0; rq_dh := rq_dh r |}
  else n.

Fixpoint purge_from (fuel : nat) (handler : Z) (p : option loc) (h : store Request) : option (result (list Z * store Request)) :=
  match p with
  | None => Some (Ok ([], h))
  | Some p' =>
      match fuel with
      | O => None
      | S fuel =>
          match fetch p h with
          | Ok n =>
              if (rq_handler (item n) =? handler) && (handler =? 0) then Some Fault
              else match purge_from fuel handler (next n) (alter (mark_deleted handler) p' h) with
                   | Some r => Some ('(l, h) <- r ;; Ok (if rq_handler (item n) =? handler then rq_dh (item n) :: l else l, h))
                   | None => None
                   end
          | Throw e => Some (Throw e)
          | Fault => Some Fault
          end
      end
  end.

Definition purge_requests (fuel : nat) (handler : Z) (c : RequestCache) : option (result (list Z * RequestCache)) :=
  match purge_from fuel handler (c_tail c) (c_store c) with
  | Some r => Some ('(l, h) <- r ;; Ok (l, {| c_store := h; m_id_map := m_id_map c; c_head := c_head c; c_tail := c_tail c |}))
  | None => None
  end.

(** ** What it promises *)

Module Pending.

(** The requests, the newest first; one for each id. *)
Definition remove (id : Z) (l : list Request) : Z * list Request :=
  (match List.find (fun r => rq_id r =? id) l with Some r => rq_dh r | None => 0 end, List.filter (fun r => negb (rq_id r =? id)) l).

Fixpoint next_timeout (now : Z) (oldest_first : list Request) : timeout * list Request :=
  match oldest_first with
  | [] => (Next 0, [])
  | r :: l =>
      if rq_expire r <=? now then
        if negb (rq_handler r =? 0) then (Expired (rq_dh r) (rq_handler r), l) else next_timeout now l
      else (Next (rq_expire r), r :: l)
  end.

Definition unanswered (handler : Z) (r : Request) : Request :=
  if rq_handler r =? handler then {| rq_expire := rq_expire r; rq_id := rq_id r; rq_handler := 0; rq_dh := rq_dh r |} else r.

Definition purge (handler : Z) (l : list Request) : list Z * list Request :=
  (map rq_dh (List.filter (fun r => rq_handler r =? handler) l), map (unanswered handler) l).

End Pending.

(** ** Representation *)

Record shape (c : RequestCache) (l : list (loc * Request)) : Prop := {
  s_list : dll (c_store c) (c_tail c) (c_head c) l;
  s_ids : NoDup (rq_id <$> l.*2);
  s_map : forall id p, m_id_map c !! id = Some p <-> exists r, (p, r) ∈ l /\ rq_id r = id }.

Definition pending (c : RequestCache) (L : list Request) : Prop := exists l, shape c l /\ l.*2 = L.

Lemma shape_in c l id p : shape c l -> m_id_map c !! id = Some p -> exists l1 r l2, l = l1 ++ (p, r) :: l2 /\ rq_id r = id.
Proof. intros S E. apply (s_map _ _ S) in E as (r & Hi & <-). apply list_elem_of_split in Hi as (l1 & l2 & ->). eauto. Qed.

Lemma shape_none c l id : shape c l -> m_id_map c !! id = None -> id ∉ (rq_id <$> l.*2).
Proof.
  intros S E Hi. rewrite <- list_fmap_compose in Hi. apply list_elem_of_fmap in Hi as ([p r] & -> & Hi).
  assert (X : m_id_map c !! rq_id r = Some p) by (apply (s_map _ _ S); eauto). cbn in E. congruence.
Qed.

(** Taking one request out. *)
Lemma shape_delete c l1 p r l2 h head tail : shape c (l1 ++ (p, r) :: l2) -> h = bypass l1 l2 (c_store c) ->
  head = last_or None (l1 ++ l2) -> tail = head_or (l1 ++ l2) None ->
  shape {| c_store := delete p h; m_id_map := delete (rq_id r) (m_id_map c); c_head := head; c_tail := tail |} (l1 ++ l2).
Proof.
  intros [D N M] -> -> ->. rewrite !fmap_app in N. cbn in N. apply NoDup_app in N as (N1 & N2 & N3). inv N3. split; cbn.
  - exact (dll_delete _ _ _ _ _ _ _ D).
  - rewrite !fmap_app. apply NoDup_app. split; [assumption|]. split; [|assumption]. intros x Hx Hy. apply (N2 x Hx). now apply list_elem_of_further.
  - intros id q. destruct (decide (id = rq_id r)) as [->|Hne].
    + rewrite lookup_delete_eq. split; [discriminate|]. intros (r' & Hi & E). exfalso.
      assert (Hk : forall l, (q, r') ∈ l -> rq_id r ∈ (rq_id <$> l.*2)).
      { intros l Hl. rewrite <- E, <- list_fmap_compose. apply list_elem_of_fmap. exists (q, r'). auto. }
      apply elem_of_app in Hi as [Hi|Hi]; apply Hk in Hi; [apply (N2 _ Hi), list_elem_of_here|contradiction].
    + rewrite lookup_delete_ne by congruence. rewrite M. split; intros (r' & Hi & E); exists r'; (split; [|exact E]).
      * rewrite elem_of_app, elem_of_cons in *. destruct Hi as [Hi|[[= -> ->]|Hi]]; [auto|congruence|auto].
      * rewrite elem_of_app, elem_of_cons in *. tauto.
Qed.

(** ** The operations *)

Lemma insert_request_ok c l id handler dh expire : shape c l ->
  match m_id_map c !! id with
  | Some _ => insert_request id handler dh expire c = Throw FAILED_EXPECTATION /\ id ∈ (rq_id <$> l.*2)
  | None => exists c' p, insert_request id handler dh expire c = Ok c' /\
      shape c' ((p, {| rq_expire := expire; rq_id := id; rq_handler := handler; rq_dh := dh |}) :: l) /\ id ∉ (rq_id <$> l.*2)
  end.
Proof.
  intros Sh. unfold insert_request. destruct (m_id_map c !! id) as [p|] eqn:E.
  { split; [reflexivity|]. destruct (shape_in _ _ _ _ Sh E) as (l1 & r & l2 & -> & <-). rewrite !fmap_app, elem_of_app. cbn. right. apply list_elem_of_here. }
  pose proof (shape_none _ _ _ Sh E) as Hid. destruct Sh as [D N M].
  set (p := fresh (dom (c_store c))). set (r := Build_Request expire id handler dh).
  assert (Hp : c_store c !! p = None) by (apply not_elem_of_dom, is_fresh).
  assert (X : (match c_head c with
     | None => Ok (<[p := Node None None r]> (c_store c), Some p)
     | Some _ => h <- assign (with_prev (Some p)) (c_tail c) (c_store c) ;; Ok (<[p := Node None (c_tail c) r]> h, c_head c)
     end) = Ok (<[p := Node None (c_tail c) r]> (at_loc (with_prev (Some p)) (c_tail c) (c_store c)), last_or (Some p) l)).
  { destruct (decide (l = [])) as [->|Hl].
    - rewrite (dll_head _ _ _ _ D), (dll_tail _ _ _ _ D). reflexivity.
    - destruct (some_node l Hl) as (x & y & Ex & Ey). rewrite last_of by assumption. rewrite (dll_head _ _ _ _ D), Ey.
      assert (Et : c_tail c = Some x) by (rewrite (dll_tail _ _ _ _ D); exact Ex). rewrite Et, assign_some; [reflexivity|].
      apply (dll_bound _ _ _ _ x D). now left. }
  rewrite X. cbn [bind]. eexists _, p. split; [reflexivity|]. split; [|exact Hid]. split; cbn.
  - exact (dll_push_tail _ _ _ _ _ _ D Hp).
  - now constructor.
  - intros i q. destruct (decide (i = id)) as [->|Hne].
    + rewrite lookup_insert_eq. split.
      * intros [= <-]. exists r. split; [apply list_elem_of_here|reflexivity].
      * intros (r' & Hi & Ei). apply elem_of_cons in Hi as [[= -> _]|Hi]; [reflexivity|]. exfalso.
        assert (Y : m_id_map c !! id = Some q) by (apply M; eauto). congruence.
    + rewrite lookup_insert_ne by congruence. rewrite M. split; intros (r' & Hi & Ei); exists r'; (split; [|exact Ei]).
      * now apply list_elem_of_further.
      * apply elem_of_cons in Hi as [[= -> ->]|Hi]; [|exact Hi]. cbn in Ei. congruence.
Qed.

(** The pointers the code writes are those of the list without the node. *)
Lemma remove_request_ok c l1 p r l2 : shape c (l1 ++ (p, r) :: l2) ->
  exists c', remove_request (rq_id r) c = Ok (rq_dh r, c') /\ shape c' (l1 ++ l2).
Proof.
  intros Sh. pose proof (s_list _ _ Sh) as D. assert (E : m_id_map c !! rq_id r = Some p).
  { apply (s_map _ _ Sh). exists r. split; [|reflexivity]. apply elem_of_app. right. apply list_elem_of_here. }
  assert (Hd : forall q, q ∈ l1.*1 -> q ∉ l2.*1).
  { pose proof (dll_nodup _ _ _ _ D) as N. rewrite fmap_app in N. cbn in N. apply NoDup_app in N as (_ & N & _).
    intros q Hq Hr. apply (N q Hq). now apply list_elem_of_further. }
  unfold remove_request. rewrite E, (fetch_some _ _ _ (dll_node _ _ _ _ _ _ _ D)). cbn [bind prev next item].
  set (h1 := at_loc (with_next (head_or l2 None)) (last_or None l1) (c_store c)).
  assert (X : (match last_or None l1 with
     | None => Ok (c_store c, head_or l2 None)
     | Some _ => h <- assign (with_next (head_or l2 None)) (last_or None l1) (c_store c) ;; Ok (h, c_tail c)
     end) = Ok (h1, head_or (l1 ++ l2) None)).
  { subst h1. rewrite head_or_app. destruct (decide (l1 = [])) as [->|Hl]; [reflexivity|].
    rewrite (assign_ends _ _ _ l1 p r l2 _ D) by auto. destruct (some_node l1 Hl) as (x & y & Ex & Ey). rewrite Ey. cbn [bind].
    rewrite (dll_tail _ _ _ _ D), head_or_app, (head_of l1 (head_or ((p, r) :: l2) None)), (head_of l1 (head_or l2 None)) by assumption. reflexivity. }
  rewrite X. cbn [bind].
  assert (Y : (match head_or l2 None with
     | None => Ok (h1, last_or None l1)
     | Some _ => h <- assign (with_prev (last_or None l1)) (head_or l2 None) h1 ;; Ok (h, c_head c)
     end) = Ok (bypass l1 l2 (c_store c), last_or None (l1 ++ l2))).
  { rewrite <- (bypass_swap _ _ _ Hd), last_or_app. fold h1. destruct (decide (l2 = [])) as [->|Hl]; [reflexivity|].
    destruct (some_node l2 Hl) as (x & y & Ex & Ey). unfold h1. rewrite assign_after.
    - rewrite Ex. cbn [bind]. rewrite (dll_head _ _ _ _ D), last_or_app. cbn [last_or]. rewrite (last_of l2 (Some p)), (last_of l2 (last_or None l1)) by assumption. reflexivity.
    - exists x. split; [exact Ex|]. apply (dll_bound _ _ _ _ x D). right. right. rewrite fmap_app, elem_of_app. right. cbn.
      apply list_elem_of_further. now apply head_in. }
  rewrite Y. cbn [bind]. eexists. split; [reflexivity|]. now apply (shape_delete c l1 p r l2).
Qed.

Lemma shape_empty : shape RequestCache_make [].
Proof.
  split; cbn; [exact dll_empty|constructor|]. intros id p. rewrite lookup_empty. split; [discriminate|]. intros (r & H & _). inversion H.
Qed.

(** The head taken out. *)
Lemma pop_head_ok c l p r : shape c (l ++ [(p, r)]) -> c_head c = Some p /\
  fetch (Some p) (c_store c) = Ok (Node (last_or None l) None r) /\
  exists c', pop_head p (Node (last_or None l) None r) c = Ok c' /\ shape c' l.
Proof.
  intros Sh. pose proof (s_list _ _ Sh) as D. split; [rewrite (dll_head _ _ _ _ D); apply last_or_snoc|].
  split; [exact (fetch_some _ _ _ (dll_node _ _ _ _ _ _ _ D))|].
  assert (E : m_id_map c !! rq_id r = Some p).
  { apply (s_map _ _ Sh). exists r. split; [|reflexivity]. apply elem_of_app. right. apply list_elem_of_here. }
  unfold pop_head. cbn [item prev]. rewrite E.
  assert (X : (match last_or None l with
     | Some q => h <- assign (with_next None) (Some q) (c_store c) ;; Ok (h, Some q, c_tail c)
     | None => Ok (c_store c, None, None)
     end) = Ok (bypass l [] (c_store c), last_or None l, head_or l None)).
  { destruct (decide (l = [])) as [->|Hl]; [reflexivity|]. pose proof (assign_ends _ _ _ l p r [] (with_next None) D _ (or_introl (conj eq_refl Hl))) as Ha.
    destruct (some_node l Hl) as (x & y & Ex & Ey). rewrite Ey in *. rewrite Ha. cbn [bind]. unfold bypass. rewrite Ey. cbn.
    now rewrite (dll_tail _ _ _ _ D), head_or_app, head_of. }
  rewrite X. cbn [bind]. eexists. split; [reflexivity|].
  pose proof (shape_delete c l p r [] _ (last_or None l) (head_or l None) Sh eq_refl) as Z. rewrite app_nil_r in Z. now apply Z.
Qed.

Lemma timeout_ok now l c fuel : shape c l -> (length l <= fuel)%nat ->
  exists c' l', get_next_timeout fuel now c = Some (Ok (fst (Pending.next_timeout now (rev l.*2)), c')) /\
    shape c' l' /\ rev l'.*2 = snd (Pending.next_timeout now (rev l.*2)).
Proof.
  revert c fuel. induction l as [|[p r] l IH] using rev_ind; intros c fuel Sh Hf.
  - exists c, []. destruct fuel; cbn; rewrite (dll_head _ _ _ _ (s_list _ _ Sh)); auto.
  - destruct (pop_head_ok _ _ _ _ Sh) as (Eh & Ef & c' & Ep & Sh').
    rewrite fmap_app, rev_app_distr. cbn [fmap list_fmap rev app snd Pending.next_timeout].
    rewrite length_app in Hf. cbn in Hf. destruct fuel as [|fuel]; [lia|]. cbn [get_next_timeout]. rewrite Eh, Ef. cbn [item].
    destruct (rq_expire r <=? now).
    + rewrite Ep. destruct (negb (rq_handler r =? 0)); [exists c', l; auto|]. apply IH; [exact Sh'|lia].
    + exists c, (l ++ [(p, r)]). split; [reflexivity|]. split; [exact Sh|]. now rewrite fmap_app, rev_app_distr.
Qed.

(** The list with the requests of a handler marked. *)
Definition marked (handler : Z) (l : list (loc * Request)) : list (loc * Request) := map (fun x => (fst x, Pending.unanswered handler (snd x))) l.

Lemma marked_fst handler l : (marked handler l).*1 = l.*1.
Proof. unfold marked. induction l as [|[p r] l IH]; [reflexivity|]. cbn. now f_equal. Qed.

Lemma marked_snd handler l : (marked handler l).*2 = map (Pending.unanswered handler) l.*2.
Proof. unfold marked. induction l as [|[p r] l IH]; [reflexivity|]. cbn. now f_equal. Qed.

Lemma marked_ends handler l : head_or (marked handler l) None = head_or l None /\ forall pv, last_or pv (marked handler l) = last_or pv l.
Proof.
  split; [now destruct l as [|[]]|]. induction l as [|[p r] l IH]; intros pv; [reflexivity|]. cbn. apply IH.
Qed.

Lemma mark_node handler pv nx r : mark_deleted handler (Node pv nx r) = Node pv nx (Pending.unanswered handler r).
Proof. unfold mark_deleted, Pending.unanswered. cbn. now destruct (rq_handler r =? handler). Qed.

Lemma unanswered_id handler r : rq_id (Pending.unanswered handler r) = rq_id r.
Proof. unfold Pending.unanswered. now destruct (rq_handler r =? handler). Qed.

Lemma purge_from_ok handler l h pv fuel : handler <> 0 -> NoDup l.*1 -> seg h pv l None -> (length l <= fuel)%nat ->
  exists h', purge_from fuel handler (head_or l None) h = Some (Ok (fst (Pending.purge handler l.*2), h')) /\
    seg h' pv (marked handler l) None /\ (forall q, q ∉ l.*1 -> h' !! q = h !! q) /\ (forall q, is_Some (h' !! q) <-> is_Some (h !! q)).
Proof.
  intros H0. revert h pv fuel. induction l as [|[p r] l IH]; intros h pv fuel N Sg Hf.
  - exists h. destruct fuel; cbn; auto 6.
  - cbn in N. inv N. destruct fuel as [|fuel]; [cbn in Hf; lia|]. destruct Sg as [Hp Sg].
    destruct (IH (alter (mark_deleted handler) p h) (Some p) fuel) as (h' & E & Sg' & Fr & Dm); [assumption|now apply seg_other|cbn in Hf; lia|].
    exists h'. cbn [head_or purge_from fetch]. rewrite Hp. cbn [item next].
    rewrite (proj2 (Z.eqb_neq handler 0)), andb_false_r by assumption. rewrite E. cbn [bind]. split; [|split; [|split]].
    + cbn. now destruct (rq_handler r =? handler).
    + change (marked handler ((p, r) :: l)) with ((p, Pending.unanswered handler r) :: marked handler l). cbn [seg].
      rewrite (proj1 (marked_ends handler l)). split; [|exact Sg']. rewrite Fr by assumption. rewrite lookup_alter_eq, Hp. cbn. now rewrite mark_node.
    + intros q Hq. cbn in Hq. rewrite not_elem_of_cons in Hq. destruct Hq as [Hq1 Hq2]. rewrite Fr by assumption. now apply lookup_alter_ne.
    + intros q. rewrite Dm. apply (at_loc_some (mark_deleted handler) (Some p) h q).
Qed.

Lemma purge_ok handler c l fuel : handler <> 0 -> shape c l -> (length l <= fuel)%nat ->
  exists c', purge_requests fuel handler c = Some (Ok (fst (Pending.purge handler l.*2), c')) /\ shape c' (marked handler l).
Proof.
  intros H0 [[N Sg Ht Hh D] Ni M] Hf. destruct (purge_from_ok handler l (c_store c) None fuel H0 N Sg Hf) as (h' & E & Sg' & _ & Dm).
  unfold purge_requests. rewrite Ht, E. cbn [bind]. eexists. split; [reflexivity|]. split; cbn.
  - split; try assumption.
    + now rewrite marked_fst.
    + now rewrite (proj1 (marked_ends handler l)).
    + now rewrite (proj2 (marked_ends handler l)).
    + intros p. now rewrite Dm, marked_fst.
  - rewrite marked_snd.
    replace (rq_id <$> map (Pending.unanswered handler) l.*2) with (rq_id <$> l.*2); [exact Ni|].
    clear. induction l.*2 as [|r t IH]; [reflexivity|]. cbn. rewrite unanswered_id. now f_equal.
  - intros id p. rewrite M. unfold marked. split.
    + intros (r & Hi & <-). exists (Pending.unanswered handler r). split; [|apply unanswered_id]. apply list_elem_of_fmap. now exists (p, r).
    + intros (r & Hi & <-). apply list_elem_of_fmap in Hi as ([q r'] & [= -> ->] & Hi). exists r'. split; [exact Hi|]. symmetry. apply unanswered_id.
Qed.

(** ** Runs *)

Inductive operation :=
  | Insert (id handler dh expire : Z)
  | Remove (id : Z)
  | Timeout (now : Z)
  | Purge (handler : Z).

Inductive answer := Done | Duplicate | Removed (dh : Z) | TimedOut (t : timeout) | Delivered (dhs : list Z) | Broken.

(** One operation of the code; [Broken] when it writes through a bad pointer or uses
    up its rounds. *)
Definition perform (fuel : nat) (o : operation) (c : RequestCache) : answer * RequestCache :=
  match o with
  | Insert id handler dh expire =>
      match insert_request id handler dh expire c with Ok c' => (Done, c') | Throw _ => (Duplicate, c) | Fault => (Broken, c) end
  | Remove id => match remove_request id c with Ok (dh, c') => (Removed dh, c') | _ => (Broken, c) end
  | Timeout now => match get_next_timeout fuel now c with Some (Ok (t, c')) => (TimedOut t, c') | _ => (Broken, c) end
  | Purge handler => match purge_requests fuel handler c with Some (Ok (l, c')) => (Delivered l, c') | _ => (Broken, c) end
  end.

Definition promised (o : operation) (l : list Request) : answer * list Request :=
  match o with
  | Insert id handler dh expire =>
      if bool_decide (id ∈ (rq_id <$> l)) then (Duplicate, l)
      else (Done, {| rq_expire := expire; rq_id := id; rq_handler := handler; rq_dh := dh |} :: l)
  | Remove id => let '(dh, l) := Pending.remove id l in (Removed dh, l)
  | Timeout now => let '(t, l) := Pending.next_timeout now (rev l) in (TimedOut t, rev l)
  | Purge handler => let '(dhs, l) := Pending.purge handler l in (Delivered dhs, l)
  end.

Definition legal (o : operation) : Prop := match o with Purge handler => handler <> 0 | _ => True end.

Lemma find_id l1 r l2 : NoDup (rq_id <$> l1 ++ r :: l2) -> Pending.remove (rq_id r) (l1 ++ r :: l2) = (rq_dh r, l1 ++ l2).
Proof.
  intros N. unfold Pending.remove.
  assert (Hf : forall l, rq_id r ∉ (rq_id <$> l) -> List.find (fun x => rq_id x =? rq_id r) l = None /\ List.filter (fun x => negb (rq_id x =? rq_id r)) l = l).
  { induction l as [|x l IH]; [auto|]. cbn. rewrite not_elem_of_cons. intros [Hx Hl].
    rewrite (proj2 (Z.eqb_neq _ _)) by congruence. destruct (IH Hl) as [-> E]. cbn. now rewrite E. }
  rewrite fmap_app in N. cbn in N. apply NoDup_app in N as (_ & N2 & N3). inv N3.
  assert (Hl1 : rq_id r ∉ (rq_id <$> l1)) by (intros Hi; apply (N2 _ Hi), list_elem_of_here).
  destruct (Hf l1 Hl1) as [F1 G1], (Hf l2 ltac:(assumption)) as [F2 G2]. rewrite List.filter_app. cbn. rewrite G1, G2, Z.eqb_refl. cbn. f_equal.
  clear - F1. induction l1 as [|x l IH]; cbn in *; [now rewrite Z.eqb_refl|]. destruct (rq_id x =? rq_id r); [discriminate|auto].
Qed.

Lemma remove_absent id l : id ∉ (rq_id <$> l) -> Pending.remove id l = (0, l).
Proof.
  unfold Pending.remove. induction l as [|x l IH]; [reflexivity|]. cbn. rewrite not_elem_of_cons. intros [Hx Hl].
  rewrite (proj2 (Z.eqb_neq _ _)) by congruence. cbn. specialize (IH Hl). pose proof (f_equal fst IH) as E1. pose proof (f_equal snd IH) as E2. cbn in E1, E2. f_equal; [exact E1|f_equal; exact E2].
Qed.

Lemma perform_ok fuel o c L : legal o -> pending c L -> (length L <= fuel)%nat ->
  fst (perform fuel o c) = fst (promised o L) /\ pending (snd (perform fuel o c)) (snd (promised o L)).
Proof.
  intros Ho (l & Sh & <-) Hf. rewrite length_fmap in Hf. destruct o as [id handler dh expire|id|now|handler]; cbn [perform promised].
  - pose proof (insert_request_ok c l id handler dh expire Sh) as X. destruct (m_id_map c !! id).
    + destruct X as [-> Hi]. rewrite (bool_decide_eq_true_2 _ Hi). split; [reflexivity|]. now exists l.
    + destruct X as (c' & p & -> & Sh' & Hi). rewrite (bool_decide_eq_false_2 _ Hi). split; [reflexivity|]. eexists. split; [exact Sh'|reflexivity].
  - destruct (m_id_map c !! id) as [p|] eqn:E.
    + destruct (shape_in _ _ _ _ Sh E) as (l1 & r & l2 & -> & <-). destruct (remove_request_ok _ _ _ _ _ Sh) as (c' & -> & Sh').
      pose proof (s_ids _ _ Sh) as N. rewrite fmap_app in *. cbn [fmap list_fmap snd] in *. rewrite (find_id _ _ _ N).
      split; [reflexivity|]. exists (l1 ++ l2). split; [exact Sh'|]. apply fmap_app.
    + unfold remove_request. rewrite E, (remove_absent _ _ (shape_none _ _ _ Sh E)). split; [reflexivity|]. now exists l.
  - destruct (timeout_ok now l c fuel Sh Hf) as (c' & l' & -> & Sh' & E). destruct (Pending.next_timeout now (rev l.*2)) as [t q]. cbn in *.
    split; [reflexivity|]. exists l'. split; [exact Sh'|]. now rewrite <- E, rev_involutive.
  - destruct (purge_ok handler c l fuel Ho Sh Hf) as (c' & -> & Sh'). cbn. split; [reflexivity|]. eexists. split; [exact Sh'|]. apply marked_snd.
Qed.

Fixpoint runs {T} (f : operation -> T -> answer * T) (os : list operation) (c : T) : list answer * T :=
  match os with
  | [] => ([], c)
  | o :: os => let '(a, c) := f o c in let '(l, c) := runs f os c in (a :: l, c)
  end.

Lemma promised_length o L : (length (snd (promised o L)) <= S (length L))%nat.
Proof.
  destruct o as [id handler dh expire|id|now|handler]; cbn [promised].
  - destruct (bool_decide _); cbn; lia.
  - cbn. pose proof (List.filter_length_le (fun r => negb (rq_id r =? id)) L). lia.
  - assert (X : forall q, (length (snd (Pending.next_timeout now q)) <= length q)%nat).
    { induction q as [|r q IH]; [reflexivity|]. cbn. destruct (rq_expire r <=? now); [|reflexivity].
      destruct (negb (rq_handler r =? 0)); cbn; lia. }
    specialize (X (rev L)). destruct (Pending.next_timeout now (rev L)). cbn in *. rewrite length_rev in *. lia.
  - cbn. rewrite length_map. lia.
Qed.

Lemma runs_ok fuel os c L : Forall legal os -> pending c L -> (length L + length os <= fuel)%nat ->
  fst (runs (perform fuel) os c) = fst (runs promised os L) /\ pending (snd (runs (perform fuel) os c)) (snd (runs promised os L)).
Proof.
  intros Ho. revert c L. induction Ho as [|o os Ho Hs IH]; intros c L P Hf; [auto|]. cbn [runs length] in *.
  destruct (perform_ok fuel o c L Ho P ltac:(lia)) as [E P']. pose proof (promised_length o L) as Hl.
  destruct (perform fuel o c) as [a c'], (promised o L) as [b L']. cbn in *. destruct (IH c' L' P' ltac:(lia)) as [E' P''].
  destruct (runs (perform fuel) os c'), (runs promised os L'). cbn in *. split; [congruence|exact P''].
Qed.

(** C38. The cache of outstanding requests, a hash map into a doubly linked list with
    the pointers written by hand, behaves as a queue: whatever sequence of insertions,
    removals, time-outs and purges is carried out from an empty cache, with as many
    rounds allowed as there are operations, every answer is the queue's.  An insertion
    under an id in use is refused and changes nothing; a removal answers null or the
    dispatch handler of the one request with the id; a time-out looks at the oldest
    request first, drops those whose handler was purged and stops at the first that has
    not expired; a purge tells each request of the handler once.  No pointer that is
    null or freed is followed. *)
Theorem request_cache_refines (os : list operation) (fuel : nat) : Forall legal os -> (length os <= fuel)%nat ->
  fst (runs (perform fuel) os RequestCache_make) = fst (runs promised os []).
Proof.
  intros Ho Hf. apply (runs_ok fuel os RequestCache_make []); [exact Ho| |exact Hf]. exists []. split; [exact shape_empty|reflexivity].
Qed.

Lemma request_cache_refines_witness :
  let os := [Insert 1 7 100 50; Insert 2 8 200 20; Insert 2 8 200 20; Insert 3 7 300 60; Remove 2; Timeout 40; Insert 4 9 400 70; Purge 7; Timeout 80; Timeout 80] in
  Forall legal os /\ fst (runs (perform 10) os RequestCache_make) =
    [Done; Done; Duplicate; Done; Removed 200; TimedOut (Next 50); Done; Delivered [300; 100]; TimedOut (Expired 400 9); TimedOut (Next 0)].
Proof.
  cbv zeta. assert (L : Forall legal [Insert 1 7 100 50; Insert 2 8 200 20; Insert 2 8 200 20; Insert 3 7 300 60; Remove 2; Timeout 40; Insert 4 9 400 70; Purge 7; Timeout 80; Timeout 80])
    by (repeat constructor; discriminate).
  split; [exact L|]. rewrite (request_cache_refines _ 10 L) by (cbn; lia). vm_compute. reflexivity.
Defined.

(** ** Which requests time out *)

Lemma next_timeout_sound now q :
  match Pending.next_timeout now q with
  | (Expired dh h, q') => exists dropped r, q = dropped ++ r :: q' /\ rq_dh r = dh /\ rq_handler r = h /\ h <> 0 /\ rq_expire r <= now /\
      Forall (fun x => rq_handler x = 0) dropped
  | (Next t, q') => exists dropped, q = dropped ++ q' /\ Forall (fun x => rq_handler x = 0) dropped /\ (q' = [] /\ t = 0 \/ exists r, head q' = Some r /\ rq_expire r = t /\ now < t)
  end.
Proof.
  induction q as [|r q IH]; [exists []; cbn; auto|]. cbn [Pending.next_timeout]. destruct (Z.leb_spec (rq_expire r) now).
  - destruct (Z.eqb_spec (rq_handler r) 0) as [E|E]; cbn [negb].
    + destruct (Pending.next_timeout now q) as [[dh h|t] q'].
      * destruct IH as (d & x & -> & IH). exists (r :: d), x. intuition auto.
      * destruct IH as (d & -> & Hd & IH). exists (r :: d). auto.
    + exists [], r. auto 7.
  - exists []. split; [reflexivity|]. split; [constructor|]. right. exists r. auto.
Qed.

(** When the requests were inserted in the order of their expiry, an answer that
    nothing has timed out is right about all of them. *)
Lemma next_timeout_complete now q t q' : Sorted.StronglySorted (fun a b => rq_expire a <= rq_expire b) q ->
  Pending.next_timeout now q = (Next t, q') -> Forall (fun r => rq_handler r = 0 \/ now < rq_expire r) q.
Proof.
  intros Hs E. pose proof (next_timeout_sound now q) as X. rewrite E in X. destruct X as (d & -> & Hd & X). apply Forall_app. split.
  - eapply Forall_impl; [exact Hd|]. cbn. auto.
  - destruct X as [[-> _]|(r & Hr & Ht & Hn)]; [constructor|]. destruct q' as [|r' q']; [discriminate|]. cbn in Hr. inv Hr.
    clear - Hs Hn. induction d as [|x d IH]; cbn in Hs; inv Hs; [|auto]. constructor; [auto|].
    eapply Forall_impl; [eassumption|]. cbn. intros y Hy. right. lia.
Qed.

(** It is not when a request with a shorter time-out is inserted later: at time 40 the
    one that expired at 20 is still waiting behind the one that expires at 50. *)
Lemma later_request_waits :
  fst (runs (perform 3) [Insert 1 7 100 50; Insert 2 8 200 20; Timeout 40] RequestCache_make) = [Done; Done; TimedOut (Next 50)].
Proof. vm_compute. reflexivity. Qed.
