(* ===== verification/ScanBlock.v ===== *)
(** * Blocks of scan results

    [RangeServer/FillScanBlock.cc] copies cells from a scanner into a buffer,
    [ResponseCallbackCreateScanner] and [ResponseCallbackFetchScanblock] send it, and
    [ScanBlock] ([Hypertable/Lib/ScanBlock.{h,cc}]) takes it apart at the client. *)
From S2P Require Import Prelude Errors Serialization ByteString Wire CommBuf Key Deletes CellCache Scanner.
From Stdlib Require Import ZArith Lia List Bool.
Import ListNotations.
Open Scope Z_scope.
Open Scope result_scope.

Definition HYPERTABLE_DATA_TRANSFER_BLOCKSIZE : Z := 65500.

(** The bytes a [ByteString] of a cell points to. *)
Definition encoded (s : list Z) : result (list Z) := l <- encode_vi32 (zlen s) ;; Ok (l ++ s).

(** ** The server *)

Section Fill.
Context {S : Type} `{CellListScanner S}.
(** What is in the four bytes that are skipped. *)
Variable junk : Z * Z * Z * Z.

Definition unallocated (d : DynamicBuffer.t) : bool := DynamicBuffer.cap d =? 0.

(** [dbuf.reserve(limit + 4)] on a buffer without memory, and [ptr = base + 4]. *)
Definition allocate (limit : Z) (d : DynamicBuffer.t) : result DynamicBuffer.t :=
  let '(a, b, c, e) := junk in
  d <- DynamicBuffer.reserve DynamicBuffer.no_fresh (u64 (limit + 4)) false d ;;
  DynamicBuffer.put [a; b; c; e] (DynamicBuffer.clear d).

(** One pass through the loop: whether the cell was copied, and [limit], [remaining]
    and the buffer. *)
Definition fill_cell (c : cell) (limit remaining : Z) (d : DynamicBuffer.t) : result (bool * Z * Z * DynamicBuffer.t) :=
  key <- encoded (fst c) ;;
  value <- encoded (snd c) ;;
  key_len <- bs_length (Some key) ;;
  value_len <- bs_length (Some value) ;;
  '(limit, remaining, d) <-
    (if unallocated d then
       let '(limit, remaining) := if limit <? u64 (key_len + value_len) then (u64 (key_len + value_len), u64 (key_len + value_len)) else (limit, remaining) in
       d <- allocate limit d ;; Ok (limit, remaining, d)
     else Ok (limit, remaining, d)) ;;
  if u64 (key_len + value_len) <=? remaining then
    d <- DynamicBuffer.add_unchecked (Some (firstn (Z.to_nat key_len) key)) d ;;
    d <- DynamicBuffer.add_unchecked (Some (firstn (Z.to_nat value_len) value)) d ;;
    Ok (true, limit, u64 (remaining - u64 (key_len + value_len)), d)
  else Ok (false, limit, remaining, d).

(** The loop; [None] when the passes allowed are used up. *)
Fixpoint fill_loop (fuel : nat) (s : S) (limit remaining : Z) (d : DynamicBuffer.t) : option (result (bool * S * Z * DynamicBuffer.t)) :=
  match sc_get s with
  | (None, s) => Some (Ok (false, s, limit, d))
  | (Some c, s) =>
      match fuel with
      | O => None
      | Datatypes.S fuel =>
          match fill_cell c limit remaining d with
          | Ok (true, limit, remaining, d) => fill_loop fuel (sc_forward s) limit remaining d
          | Ok (false, limit, _, d) => Some (Ok (true, s, limit, d))
          | Throw e => Some (Throw e)
          | Fault => Some Fault
          end
      end
  end.

(** The length written over the first four bytes. *)
Definition put_length (d : DynamicBuffer.t) : list Z := encode_i32 (DynamicBuffer.fill d - 4) ++ skipn 4 (DynamicBuffer.data d).

(** Whether there is more, the scanner and the bytes of the buffer. *)
Definition FillScanBlock (fuel : nat) (s : S) : option (result (bool * S * list Z)) :=
  match fill_loop fuel s HYPERTABLE_DATA_TRANSFER_BLOCKSIZE HYPERTABLE_DATA_TRANSFER_BLOCKSIZE (DynamicBuffer.make 0) with
  | Some r =>
      Some ('(more, s, limit, d) <- r ;;
            d <- (if unallocated d then allocate limit d else Ok d) ;;
            Ok (more, s, put_length d))
  | None => None
  end.

End Fill.

(** [response(moreflag, id, ext)] of the two callbacks, to a request with header [h]. *)
Definition scan_response (h : Header) (moreflag id : Z) (ext : list Z) : result (list Z) :=
  c <- message_of (initialize_from_request h) 10 ext [Ok (encode_i32 (code_value OK_)); Ok (encode_i16 moreflag); Ok (encode_i32 id)] ;;
  send_response c.

(** [Protocol::create_error_message] and [ResponseCallback::error]. *)
Definition error_response (h : Header) (error : Z) (msg : list Z) : result (list Z) :=
  c <- message_of (initialize_from_request h) (4 + encoded_length_str16 msg) [] [Ok (encode_i32 error); Ok (encode_str16 msg)] ;;
  send_response c.

(** [ResponseCallback::response_ok]. *)
Definition response_ok (h : Header) : result (list Z) :=
  c <- message_of (initialize_from_request h) 4 [] [Ok (encode_i32 (code_value OK_))] ;;
  send_response c.

(** ** The client *)

(** [Protocol::response_code] of a message. *)
Definition response_code (ev : Event) : result Z :=
  match decode_i32 {| ip := message ev; remain := message_len ev |} with
  | Ok (v, _) => Ok (signed 32 v)
  | Throw c => Ok (code_value c)
  | Fault => Fault
  end.

(** The pairs are pointers into the message: the memory from there on.  The iterator
    is what is left of the vector. *)
Record ScanBlock := {
  m_error : Z; sb_flags : Z; m_scanner_id : Z;
  m_vec : list (list Z * list Z); m_iter : list (list Z * list Z) }.

(** [m_error] is not initialized; [e] is what it happens to be. *)
Definition ScanBlock_make (e : Z) : ScanBlock := {| m_error := e; sb_flags := 0; m_scanner_id := -1; m_vec := []; m_iter := [] |}.

(** The pointers to the pairs in the [togo] bytes from [p] on. *)
Fixpoint load_pairs (fuel : nat) (p : list Z) (togo : Z) : option (result (list (list Z * list Z))) :=
  if 0 <? togo then
    match fuel with
    | O => None
    | S fuel =>
        match (key_len <- bs_length (Some p) ;;
               let v := skipn (Z.to_nat key_len) p in
               value_len <- bs_length (Some v) ;;
               Ok (v, skipn (Z.to_nat value_len) v, togo - key_len - value_len)) with
        | Ok (v, rest, togo) =>
            match load_pairs fuel rest togo with
            | Some r => Some (l <- r ;; Ok ((p, v) :: l))
            | None => None
            end
        | Throw e => Some (Throw e)
        | Fault => Some Fault
        end
    end
  else Some (Ok []).

(** [load]: the code it returns and the block. *)
Definition load_block (fuel : nat) (ev : Event) (b : ScanBlock) : option (result (Z * ScanBlock)) :=
  match response_code ev with
  | Ok e =>
      if negb (e =? code_value OK_) then Some (Ok (e, {| m_error := e; sb_flags := sb_flags b; m_scanner_id := m_scanner_id b; m_vec := []; m_iter := [] |}))
      else
        let start := {| ip := skipn 4 (message ev); remain := u64 (message_len ev - 4) |} in
        match (f <~ decode_i16 ;; i <~ decode_i32 ;; n <~ decode_i32 ;; dret (f, signed 32 i, n)) start with
        | Ok ((f, i, n), s) =>
            match load_pairs fuel (ip s) n with
            | Some r => Some (l <- r ;; Ok (e, {| m_error := e; sb_flags := f; m_scanner_id := i; m_vec := l; m_iter := l |}))
            | None => None
            end
        | Throw c => Some (Ok (code_value c, {| m_error := e; sb_flags := sb_flags b; m_scanner_id := m_scanner_id b; m_vec := []; m_iter := [] |}))
        | Fault => Some Fault
        end
  | Throw e => Some (Throw e)
  | Fault => Some Fault
  end.

Definition sb_size (b : ScanBlock) : Z := zlen (m_vec b).
Definition reset (b : ScanBlock) : ScanBlock :=
  {| m_error := m_error b; sb_flags := sb_flags b; m_scanner_id := m_scanner_id b; m_vec := m_vec b; m_iter := m_vec b |}.
Definition next_pair (b : ScanBlock) : result (option (list Z * list Z) * ScanBlock) :=
  if negb (m_error b =? code_value OK_) then Fault
  else match m_iter b with
       | [] => Ok (None, b)
       | x :: it => Ok (Some x, {| m_error := m_error b; sb_flags := sb_flags b; m_scanner_id := m_scanner_id b; m_vec := m_vec b; m_iter := it |})
       end.
Definition sb_eos (b : ScanBlock) : bool := Z.land (sb_flags b) 1 =? 1.
Definition sb_more (b : ScanBlock) : bool := match m_iter b with [] => false | _ => true end.

(** What a pair points to. *)
Definition pair_cell (x : list Z * list Z) : result cell :=
  '(n, p) <- decode_length (Some (fst x)) ;; k <- content n p ;;
  '(n, p) <- decode_length (Some (snd x)) ;; v <- content n p ;;
  Ok (k, v).

(** ** Lengths *)

Lemma encoded_ok s : zlen s < 2 ^ 32 -> exists m, encoded s = Ok m /\ (forall rest, holds (m ++ rest) s rest) /\
  bs_length (Some m) = Ok (zlen m) /\ zlen s < zlen m <= zlen s + 5.
Proof.
  intros Hs. pose proof (zlen_nonneg s). assert (Hr : in_range 32 (zlen s)) by (split; lia).
  destruct (vi32_encodes _ Hr) as (l & Hl & Hn & _). pose proof (encoded_length_vi32_range (zlen s)).
  unfold encoded. rewrite Hl. cbn [bind]. exists (l ++ s). split; [reflexivity|].
  assert (Hh : forall rest, holds ((l ++ s) ++ rest) s rest) by (intros rest; exists l; rewrite <- app_assoc; auto).
  split; [exact Hh|]. split; [|rewrite zlen_app; lia].
  unfold bs_length. rewrite <- (app_nil_r (l ++ s)) at 1. rewrite (holds_decode _ _ _ (Hh [])). cbn [bind]. rewrite !zlen_app.
  change (zlen []) with 0. f_equal. lia.
Qed.

Lemma bs_length_at m s rest : encoded s = Ok m -> zlen s < 2 ^ 32 -> bs_length (Some (m ++ rest)) = Ok (zlen m).
Proof.
  intros E Hs. destruct (encoded_ok s Hs) as (m' & E' & Hh & Hl & _). rewrite E in E'. injection E' as <-.
  unfold bs_length in *. rewrite (holds_decode _ _ _ (Hh rest)). cbn [bind].
  specialize (Hh []). rewrite app_nil_r in Hh. rewrite (holds_decode _ _ _ Hh) in Hl. cbn [bind] in Hl.
  injection Hl as Hl. f_equal. rewrite !zlen_app in *. change (zlen []) with 0 in Hl. lia.
Qed.

(** The bytes of a cell and of cells in a block. *)
Definition cell_bytes (c : cell) : list Z :=
  match encoded (fst c), encoded (snd c) with Ok k, Ok v => k ++ v | _, _ => [] end.
Definition cells_bytes (l : list cell) : list Z := concat (map cell_bytes l).

(** A cell whose block fits into a message. *)
Definition sendable (c : cell) : Prop := zlen (fst c) < 2 ^ 32 /\ zlen (snd c) < 2 ^ 32 /\ 16 + 10 + 4 + zlen (cell_bytes c) < 2 ^ 32.

Lemma zlen_firstn_all {A} (l : list A) : firstn (Z.to_nat (zlen l)) l = l.
Proof. unfold zlen. now rewrite Nat2Z.id, firstn_all. Qed.

(** The cells of the next block: as many as there is room for, and at least one. *)
Fixpoint fitting (room : Z) (l : list cell) : list cell :=
  match l with
  | [] => []
  | c :: l => if zlen (cell_bytes c) <=? room then c :: fitting (room - zlen (cell_bytes c)) l else []
  end.
Definition block_of (l : list cell) : list cell :=
  match l with
  | [] => []
  | c :: _ => fitting (Z.max HYPERTABLE_DATA_TRANSFER_BLOCKSIZE (zlen (cell_bytes c))) l
  end.
Definition behind_block (l : list cell) : list cell := skipn (length (block_of l)) l.

Lemma fitting_prefix l : forall room, l = fitting room l ++ skipn (length (fitting room l)) l.
Proof.
  induction l as [|c l IH]; intros room; [reflexivity|]. cbn [fitting]. destruct (zlen (cell_bytes c) <=? room); [|reflexivity].
  cbn. f_equal. apply IH.
Qed.

Lemma block_split l : l = block_of l ++ behind_block l.
Proof. unfold behind_block. destruct l as [|c l]; [reflexivity|]. apply fitting_prefix. Qed.

Lemma block_nonempty l : l <> [] -> block_of l <> [].
Proof. destruct l as [|c l]; [easy|]. intros _. cbn [block_of fitting]. now rewrite (proj2 (Z.leb_le _ _)) by lia. Qed.

Lemma block_progress l : l <> [] -> (length (behind_block l) < length l)%nat.
Proof.
  intros Hl. unfold behind_block. rewrite length_skipn. destruct l as [|c l]; [easy|]. cbn [block_of fitting].
  rewrite (proj2 (Z.leb_le _ _)) by lia. cbn. lia.
Qed.

Lemma fitting_size l : forall room, 0 <= room -> zlen (cells_bytes (fitting room l)) <= room.
Proof.
  induction l as [|c l IH]; intros room Hr; [exact Hr|]. cbn [fitting]. destruct (Z.leb_spec (zlen (cell_bytes c)) room); [|exact Hr].
  unfold cells_bytes in *. cbn. rewrite zlen_app. specialize (IH (room - zlen (cell_bytes c)) ltac:(lia)). lia.
Qed.

Lemma block_size l : Forall sendable l -> 0 <= zlen (cells_bytes (block_of l)) < 2 ^ 32 - 30.
Proof.
  intros Hs. split; [apply zlen_nonneg|]. destruct Hs as [|c l (_ & _ & Hc) _]; [easy|].
  pose proof (fitting_size (c :: l) (Z.max HYPERTABLE_DATA_TRANSFER_BLOCKSIZE (zlen (cell_bytes c)))) as X.
  unfold block_of, HYPERTABLE_DATA_TRANSFER_BLOCKSIZE in *. lia.
Qed.

(** ** Filling *)

Section Filling.
Context {S : Type} `{CellListScanner S}.
Variable junk : Z * Z * Z * Z.

(** The state of the loop: nothing allocated yet, or the cells taken behind four
    bytes, with the room counted. *)
Record filled (limit remaining : Z) (d : DynamicBuffer.t) (taken : list cell) : Prop := {
  fd_bytes : exists j, length j = 4%nat /\ DynamicBuffer.data d = j ++ cells_bytes taken;
  fd_cap : DynamicBuffer.cap d = limit + 4;
  fd_room : 0 <= remaining /\ limit = remaining + zlen (cells_bytes taken);
  fd_limit : HYPERTABLE_DATA_TRANSFER_BLOCKSIZE <= limit < 2 ^ 32 - 30 }.

Definition nothing (d : DynamicBuffer.t) : Prop := d = DynamicBuffer.make 0.

Lemma allocate_ok limit d : nothing d -> HYPERTABLE_DATA_TRANSFER_BLOCKSIZE <= limit < 2 ^ 32 - 30 ->
  exists d', allocate junk limit d = Ok d' /\ filled limit limit d' [].
Proof.
  intros -> Hl. unfold HYPERTABLE_DATA_TRANSFER_BLOCKSIZE in *. unfold allocate. destruct junk as [[[a b] c] e].
  unfold DynamicBuffer.reserve. change (DynamicBuffer.remaining (DynamicBuffer.make 0)) with 0.
  rewrite (wrap_small 64 (limit + 4)) by (unfold in_range; lia). rewrite (proj2 (Z.ltb_lt _ _)) by lia.
  change (DynamicBuffer.fill (DynamicBuffer.make 0)) with 0. unfold DynamicBuffer.grow. rewrite Z.add_0_l, wrap_small by (unfold in_range; lia).
  change (DynamicBuffer.fill (DynamicBuffer.make 0)) with 0. rewrite (proj2 (Z.ltb_ge _ _)) by lia. cbn [bind].
  unfold DynamicBuffer.put, DynamicBuffer.clear. unfold DynamicBuffer.fill. cbn [DynamicBuffer.data DynamicBuffer.cap].
  change (zlen []) with 0. change (zlen [a; b; c; e]) with 4. rewrite (proj2 (Z.leb_le _ _)) by lia.
  eexists. split; [reflexivity|]. split; cbn [DynamicBuffer.data DynamicBuffer.cap].
  - exists [a; b; c; e]. auto.
  - reflexivity.
  - change (zlen (cells_bytes [])) with 0. lia.
  - unfold HYPERTABLE_DATA_TRANSFER_BLOCKSIZE. lia.
Qed.

Lemma filled_fill limit remaining d taken : filled limit remaining d taken -> DynamicBuffer.fill d = 4 + zlen (cells_bytes taken).
Proof. intros [(j & Hj & E) _ _ _]. unfold DynamicBuffer.fill. rewrite E, zlen_app. unfold zlen at 1. rewrite Hj. reflexivity. Qed.

Lemma filled_allocated limit remaining d taken : filled limit remaining d taken -> unallocated d = false.
Proof. intros [_ E _ [Hl _]]. unfold unallocated. rewrite E. unfold HYPERTABLE_DATA_TRANSFER_BLOCKSIZE in Hl. apply Z.eqb_neq. lia. Qed.

(** A cell is copied exactly when there is room for it. *)
Lemma add_room_ok l d : DynamicBuffer.fill d + zlen l <= DynamicBuffer.cap d ->
  DynamicBuffer.add_unchecked (Some l) d = Ok {| DynamicBuffer.data := DynamicBuffer.data d ++ l; DynamicBuffer.cap := DynamicBuffer.cap d;
    DynamicBuffer.size := DynamicBuffer.size d; DynamicBuffer.own := DynamicBuffer.own d |}.
Proof. intros Hf. unfold DynamicBuffer.add_unchecked, DynamicBuffer.put. now rewrite (proj2 (Z.leb_le _ _)). Qed.

Lemma cells_bytes_snoc l c : cells_bytes (l ++ [c]) = cells_bytes l ++ cell_bytes c.
Proof. unfold cells_bytes. rewrite map_app, concat_app. cbn. now rewrite app_nil_r. Qed.

Lemma cell_parts c : sendable c -> exists k v, encoded (fst c) = Ok k /\ encoded (snd c) = Ok v /\ cell_bytes c = k ++ v /\
  bs_length (Some k) = Ok (zlen k) /\ bs_length (Some v) = Ok (zlen v) /\ zlen (cell_bytes c) = zlen k + zlen v.
Proof.
  intros (Hk & Hv & _). destruct (encoded_ok _ Hk) as (k & Ek & _ & Lk & _), (encoded_ok _ Hv) as (v & Ev & _ & Lv & _).
  exists k, v. unfold cell_bytes. rewrite Ek, Ev, zlen_app. auto 7.
Qed.

Lemma fill_cell_more c limit remaining d taken : sendable c -> filled limit remaining d taken ->
  if zlen (cell_bytes c) <=? remaining
  then exists d', fill_cell junk c limit remaining d = Ok (true, limit, remaining - zlen (cell_bytes c), d') /\
         filled limit (remaining - zlen (cell_bytes c)) d' (taken ++ [c])
  else fill_cell junk c limit remaining d = Ok (false, limit, remaining, d).
Proof.
  intros Hc F. destruct (cell_parts c Hc) as (k & v & Ek & Ev & Eb & Lk & Lv & Lb). destruct Hc as (_ & _ & Hmax).
  pose proof (zlen_nonneg k). pose proof (zlen_nonneg v). pose proof (zlen_nonneg (cells_bytes taken)) as Hnn.
  unfold fill_cell. rewrite Ek, Ev. cbn [bind]. rewrite Lk, Lv. cbn [bind]. rewrite (filled_allocated _ _ _ _ F). cbn [bind].
  rewrite (wrap_small 64 (zlen k + zlen v)) by (unfold in_range; lia). rewrite <- Lb.
  pose proof (filled_fill _ _ _ _ F) as Hf. destruct F as [(j & Hj & Ed) Hcap [Hr0 Hr] Hl].
  unfold HYPERTABLE_DATA_TRANSFER_BLOCKSIZE in *.
  destruct (Z.leb_spec (zlen (cell_bytes c)) remaining) as [Hle|]; [|reflexivity].
  rewrite !zlen_firstn_all, (add_room_ok k) by lia. cbn [bind]. rewrite add_room_ok by (unfold DynamicBuffer.fill in *; cbn; rewrite zlen_app; lia).
  cbn [bind DynamicBuffer.data DynamicBuffer.cap DynamicBuffer.size DynamicBuffer.own]. rewrite wrap_small by (unfold in_range; lia).
  eexists. split; [reflexivity|]. split; cbn.
  - exists j. split; [exact Hj|]. now rewrite Ed, cells_bytes_snoc, Eb, <- !app_assoc.
  - exact Hcap.
  - rewrite cells_bytes_snoc, zlen_app. lia.
  - exact Hl.
Qed.

(** The first cell always fits: the buffer is made as large as it needs. *)
Lemma fill_cell_first c d : sendable c -> nothing d ->
  exists limit d', fill_cell junk c HYPERTABLE_DATA_TRANSFER_BLOCKSIZE HYPERTABLE_DATA_TRANSFER_BLOCKSIZE d =
      Ok (true, limit, limit - zlen (cell_bytes c), d') /\ filled limit (limit - zlen (cell_bytes c)) d' [c] /\
    limit = Z.max HYPERTABLE_DATA_TRANSFER_BLOCKSIZE (zlen (cell_bytes c)).
Proof.
  intros Hc Hd. destruct (cell_parts c Hc) as (k & v & Ek & Ev & Eb & Lk & Lv & Lb).
  pose proof (zlen_nonneg k). pose proof (zlen_nonneg v). pose proof Hc as (_ & _ & Hmax).
  set (limit := Z.max HYPERTABLE_DATA_TRANSFER_BLOCKSIZE (zlen (cell_bytes c))).
  destruct (allocate_ok limit d Hd) as (d1 & E1 & F1); [unfold limit, HYPERTABLE_DATA_TRANSFER_BLOCKSIZE; lia|].
  pose proof (fill_cell_more c limit limit d1 [] Hc F1) as X. rewrite (proj2 (Z.leb_le _ _)) in X by (unfold limit; lia).
  destruct X as (d' & E & F). exists limit, d'. split; [|split; [exact F|reflexivity]]. rewrite <- E.
  unfold fill_cell. rewrite Ek, Ev. cbn [bind]. rewrite Lk, Lv. cbn [bind]. rewrite (filled_allocated _ _ _ _ F1).
  rewrite Hd. change (unallocated (DynamicBuffer.make 0)) with true. cbv iota.
  rewrite !(wrap_small 64 (zlen k + zlen v)) by (unfold in_range; lia). rewrite <- Lb.
  replace (if HYPERTABLE_DATA_TRANSFER_BLOCKSIZE <? zlen (cell_bytes c) then (zlen (cell_bytes c), zlen (cell_bytes c))
           else (HYPERTABLE_DATA_TRANSFER_BLOCKSIZE, HYPERTABLE_DATA_TRANSFER_BLOCKSIZE)) with (limit, limit).
  - cbv iota beta. rewrite <- Hd, E1. reflexivity.
  - unfold limit. destruct (Z.ltb_spec HYPERTABLE_DATA_TRANSFER_BLOCKSIZE (zlen (cell_bytes c))); f_equal; lia.
Qed.

Lemma fill_loop_more l : forall s fuel limit remaining d taken, sc_inv s -> sc_cells s = l -> Forall sendable l -> (length l <= fuel)%nat ->
  filled limit remaining d taken ->
  exists s' d' room, fill_loop junk fuel s limit remaining d =
      Some (Ok (match skipn (length (fitting remaining l)) l with [] => false | _ => true end, s', limit, d')) /\
    filled limit room d' (taken ++ fitting remaining l) /\ sc_inv s' /\ sc_cells s' = skipn (length (fitting remaining l)) l.
Proof.
  induction l as [|c l IH]; intros s fuel limit remaining d taken Hi Hc Hs Hf F.
  - destruct (sc_get_spec s Hi) as (G1 & G2 & G3 & _). rewrite Hc in *. destruct (sc_get s) as [o s'] eqn:E. cbn in G1, G2, G3. subst o.
    exists s', d, remaining. destruct fuel; cbn [fill_loop]; rewrite E; cbn; rewrite app_nil_r; auto.
  - inversion_clear Hs as [|? ? Hc1 Hs']. destruct (sc_get s) as [o s'] eqn:E.
    destruct (sc_get_spec s Hi) as (G1 & _). rewrite E, Hc in G1. cbn in G1. subst o. destruct (get_ready _ _ _ Hi E) as (Hi' & E' & Hc' & _).
    destruct fuel as [|fuel]; [cbn in Hf; lia|]. cbn [fill_loop fitting]. rewrite E.
    pose proof (fill_cell_more c limit remaining d taken Hc1 F) as X. destruct (zlen (cell_bytes c) <=? remaining).
    + destruct X as (d' & -> & F'). destruct (sc_forward_spec s' c Hi' E') as [Hn Hni]. rewrite Hc', Hc in Hn. cbn [tl] in Hn.
      destruct (IH _ fuel limit _ d' (taken ++ [c]) Hni Hn Hs' ltac:(cbn in Hf; lia) F') as (s2 & d2 & room & E2 & F2 & R).
      exists s2, d2, room. rewrite <- app_assoc in F2. split; [exact E2|]. split; [exact F2|exact R].
    + rewrite X. exists s', d, remaining. rewrite app_nil_r. cbn. rewrite Hc', Hc. auto.
Qed.

Lemma put_length_ok limit remaining d taken : filled limit remaining d taken ->
  put_length d = encode_i32 (zlen (cells_bytes taken)) ++ cells_bytes taken.
Proof.
  intros F. unfold put_length. rewrite (filled_fill _ _ _ _ F). destruct F as [(j & Hj & E) _ _ _]. rewrite E.
  replace (skipn 4 (j ++ cells_bytes taken)) with (cells_bytes taken) by (rewrite <- Hj; now rewrite skipn_app, skipn_all, Nat.sub_diag).
  do 2 f_equal. lia.
Qed.

(** The buffer has the cells of the next block behind their length; the scanner is
    left at the first cell that is not in it. *)
Lemma FillScanBlock_ok s fuel : sc_inv s -> Forall sendable (sc_cells s) -> (length (sc_cells s) <= fuel)%nat ->
  exists s', FillScanBlock junk fuel s =
      Some (Ok (match behind_block (sc_cells s) with [] => false | _ => true end, s',
                encode_i32 (zlen (cells_bytes (block_of (sc_cells s)))) ++ cells_bytes (block_of (sc_cells s)))) /\
    sc_inv s' /\ sc_cells s' = behind_block (sc_cells s).
Proof.
  intros Hi Hs Hf. unfold FillScanBlock. destruct (sc_get s) as [o s'] eqn:E. destruct (sc_get_spec s Hi) as (G1 & G2 & G3 & _).
  rewrite E in G1, G2, G3. cbn in G1, G2, G3. destruct (sc_cells s) as [|c l] eqn:Hc; cbn in G1; subst o.
  - exists s'. assert (E0 : forall lim, fill_loop junk fuel s lim lim (DynamicBuffer.make 0) = Some (Ok (false, s', lim, DynamicBuffer.make 0)))
      by (intros lim; destruct fuel; cbn [fill_loop]; now rewrite E).
    rewrite E0. cbn [bind]. change (unallocated (DynamicBuffer.make 0)) with true. cbv iota.
    destruct (allocate_ok HYPERTABLE_DATA_TRANSFER_BLOCKSIZE (DynamicBuffer.make 0)) as (d & -> & F); [reflexivity|unfold HYPERTABLE_DATA_TRANSFER_BLOCKSIZE; lia|].
    cbn [bind]. rewrite (put_length_ok _ _ _ _ F). auto.
  - inversion_clear Hs as [|? ? Hc1 Hs']. destruct (get_ready _ _ _ Hi E) as (Hi' & E' & Hc' & _).
    destruct fuel as [|fuel]; [cbn in Hf; lia|]. cbn [fill_loop]. rewrite E.
    destruct (fill_cell_first c (DynamicBuffer.make 0) Hc1 eq_refl) as (limit & d & -> & F & Hl).
    destruct (sc_forward_spec s' c Hi' E') as [Hn Hni]. rewrite Hc', Hc in Hn. cbn [tl] in Hn.
    destruct (fill_loop_more l _ fuel limit _ d [c] Hni Hn Hs' ltac:(cbn in Hf; lia) F) as (s2 & d2 & room & -> & F2 & Hi2 & Hc2).
    cbn [bind]. rewrite (filled_allocated _ _ _ _ F2). cbn [bind]. rewrite (put_length_ok _ _ _ _ F2).
    assert (Eb : block_of (c :: l) = [c] ++ fitting (limit - zlen (cell_bytes c)) l).
    { cbn [block_of fitting]. rewrite <- Hl, (proj2 (Z.leb_le _ _)) by lia. reflexivity. }
    exists s2. unfold behind_block. rewrite Eb. cbn [length app skipn]. auto.
Qed.

End Filling.

(** ** The response *)

Lemma response_sent h n ext es l : wf_builder (initialize_from_request h) -> cat es = Ok l -> zlen l = n -> 16 + n + zlen ext < 2 ^ 32 ->
  (c <- message_of (initialize_from_request h) n ext es ;; send_response c) =
  Ok (Header_bytes {| version := VERSION; protocol := protocol h; flags := Z.land (flags h) FLAGS_MASK_REQUEST; header_len := sizeof_Header;
                      id := id h; gid := gid h; total_len := 16 + n + zlen ext |} ++ l ++ ext).
Proof.
  intros Hhb El <- Hn. pose proof (zlen_nonneg l). pose proof (zlen_nonneg ext). unfold message_of, CommBuf_make, sizeof_Header.
  rewrite (wrap_small 32 (zlen l + 16)), (wrap_small 32 (zlen ext)), wrap_small by (split; lia).
  unfold put at 1. cbn [cb_data cb_size cb_ext app]. unfold HeaderBuilder_encode. rewrite zlen_Header_bytes.
  change (zlen (@nil Z)) with 0. rewrite (proj2 (Z.leb_le _ _)) by lia. cbn [bind].
  rewrite (append_all_ok es _ l El) by (cbn [cb_data cb_size]; rewrite zlen_Header_bytes; lia).
  cbn [bind cb_data cb_size cb_ext]. unfold send_response, reset_data_pointers. cbn [cb_data cb_size cb_ext].
  rewrite zlen_app, zlen_Header_bytes, (proj2 (Z.eqb_eq _ _)) by lia. cbn [bind].
  destruct Hhb as (H1 & H2 & H3 & H4). rewrite Header_read_bytes.
  - cbn [bind flags id set_total_len m_flags m_protocol m_group_id m_total_len m_id initialize_from_request].
    rewrite patch_header_bytes, <- app_assoc.
    cbn [version protocol flags header_len id gid total_len]. do 4 f_equal. lia.
  - repeat split; cbn [version protocol flags header_len id gid total_len set_total_len m_flags m_protocol m_group_id m_total_len m_id];
      try apply H1; try apply H2; try apply H3; try apply H4; unfold VERSION, sizeof_Header; lia.
Qed.

(** The event a response arrives as. *)
Lemma response_received h n ext es l conn : wf_header h -> cat es = Ok l -> zlen l = n -> 16 + n + zlen ext < 2 ^ 32 ->
  exists bytes ev, (c <- message_of (initialize_from_request h) n ext es ;; send_response c) = Ok bytes /\
    Event_make conn bytes = Ok ev /\ message ev = l ++ ext /\ message_len ev = zlen (l ++ ext).
Proof.
  intros Hh El Hn Hm. pose proof (zlen_nonneg l). pose proof (zlen_nonneg ext). destruct Hh as (H1 & H2 & H3 & H4 & H5 & H6 & H7).
  eexists _, _. split; [apply response_sent; [|exact El|exact Hn|exact Hm]|].
  - unfold wf_builder. cbn. auto.
  - split; [apply Event_received|auto].
    + unfold wf_header. cbn [version protocol flags header_len id gid total_len].
      assert (L : forall x, is_byte x -> is_byte (Z.land x FLAGS_MASK_REQUEST)).
      { intros x _. replace (Z.land x FLAGS_MASK_REQUEST) with (wrap 8 (Z.land x FLAGS_MASK_REQUEST)); [apply wrap_range; lia|].
        rewrite <- land_ones_low, <- Z.land_assoc by lia. reflexivity. }
      repeat split; try apply H2; try (apply L; apply H3); try apply H5; try apply H6; unfold VERSION, sizeof_Header; lia.
    + reflexivity.
    + cbn [total_len]. rewrite zlen_app. lia.
Qed.

(** ** Loading *)

(** The pointers into the bytes of cells that [rest] follows. *)
Fixpoint pointers (l : list cell) (rest : list Z) : list (list Z * list Z) :=
  match l with
  | [] => []
  | c :: l => match encoded (fst c) with
              | Ok k => (cell_bytes c ++ cells_bytes l ++ rest, skipn (length k) (cell_bytes c ++ cells_bytes l ++ rest)) :: pointers l rest
              | _ => []
              end
  end.

Lemma skipn_front {A} (a b : list A) : skipn (Z.to_nat (zlen a)) (a ++ b) = b.
Proof. unfold zlen. rewrite Nat2Z.id. apply skipn_app_exact. Qed.

Lemma load_pairs_ok l rest : forall fuel, Forall sendable l -> (length l <= fuel)%nat ->
  load_pairs fuel (cells_bytes l ++ rest) (zlen (cells_bytes l)) = Some (Ok (pointers l rest)).
Proof.
  induction l as [|c l IH]; intros fuel Hs Hf; [now destruct fuel|]. inversion_clear Hs as [|? ? Hc Hs'].
  destruct fuel as [|fuel]; [cbn in Hf; lia|]. destruct (cell_parts c Hc) as (k & v & Ek & Ev & Eb & _ & _ & Lb).
  destruct Hc as (Hk & Hv & _). destruct (encoded_ok _ Hk) as (k' & Ek' & _ & _ & Lk). rewrite Ek in Ek'. injection Ek' as <-.
  pose proof (zlen_nonneg (fst c)). pose proof (zlen_nonneg v). pose proof (zlen_nonneg (cells_bytes l)).
  assert (E : cells_bytes (c :: l) = cell_bytes c ++ cells_bytes l) by reflexivity.
  cbn [load_pairs pointers]. rewrite E, zlen_app, (proj2 (Z.ltb_lt _ _)) by lia. rewrite Ek. rewrite <- !app_assoc.
  assert (Ep : cell_bytes c ++ cells_bytes l ++ rest = k ++ v ++ cells_bytes l ++ rest) by (rewrite Eb; now rewrite <- app_assoc).
  rewrite !Ep, (bs_length_at k _ _ Ek Hk). cbn [bind]. rewrite skipn_front, (bs_length_at v _ _ Ev Hv). cbn [bind]. rewrite skipn_front.
  replace (zlen (cell_bytes c) + zlen (cells_bytes l) - zlen k - zlen v) with (zlen (cells_bytes l)) by lia.
  rewrite IH by (assumption || (cbn in Hf; lia)). cbn [bind].
  now rewrite skipn_app_exact.
Qed.

(** The pair points to the cell. *)
Definition points (x : list Z * list Z) (c : cell) : Prop := (exists r, holds (fst x) (fst c) r) /\ (exists r, holds (snd x) (snd c) r).

Lemma points_cell x c : points x c -> pair_cell x = Ok c.
Proof.
  intros [[r Hk] [r' Hv]]. unfold pair_cell, decode_length. rewrite (holds_decode _ _ _ Hk). cbn [bind]. rewrite content_app by reflexivity.
  cbn [bind]. rewrite (holds_decode _ _ _ Hv). cbn [bind]. rewrite content_app by reflexivity. cbn [bind]. now destruct c.
Qed.

Lemma pointers_point l rest : Forall sendable l -> Forall2 points (pointers l rest) l.
Proof.
  induction 1 as [|c l Hc Hs IH]; [constructor|]. cbn [pointers]. destruct (cell_parts c Hc) as (k & v & Ek & Ev & Eb & _).
  destruct Hc as (Hk & Hv & _). rewrite Ek. constructor; [|exact IH].
  destruct (encoded_ok _ Hk) as (k' & Ek' & Hhk & _), (encoded_ok _ Hv) as (v' & Ev' & Hhv & _).
  rewrite Ek in Ek'. rewrite Ev in Ev'. injection Ek' as <-. injection Ev' as <-.
  rewrite Eb, <- app_assoc, skipn_app_exact. split; eexists; [apply Hhk|apply Hhv].
Qed.

(** A response with the cells [l], loaded. *)
Lemma load_block_ok ev b fuel flag i l : 0 <= flag < 2 ^ 16 -> Forall sendable l -> zlen (cells_bytes l) < 2 ^ 32 - 30 -> (length l <= fuel)%nat ->
  message ev = (encode_i32 (code_value OK_) ++ encode_i16 flag ++ encode_i32 i) ++ encode_i32 (zlen (cells_bytes l)) ++ cells_bytes l ->
  message_len ev = zlen (message ev) ->
  exists ps, load_block fuel ev b = Some (Ok (code_value OK_, {| m_error := code_value OK_; sb_flags := flag; m_scanner_id := i32 i; m_vec := ps; m_iter := ps |})) /\
    Forall2 points ps l.
Proof.
  intros Hfl Hs Hn Hf Em El. exists (pointers l []). split; [|now apply pointers_point]. pose proof (zlen_nonneg (cells_bytes l)).
  assert (L4 : forall v, zlen (encode_i32 v) = 4) by reflexivity. assert (L2 : forall v, zlen (encode_i16 v) = 2) by reflexivity.
  rewrite Em, !zlen_app, !L4, L2 in El. unfold load_block, response_code. rewrite Em, El, <- !app_assoc.
  rewrite decode_i32_encode by lia. change (signed 32 (u32 (code_value OK_))) with (code_value OK_). rewrite Z.eqb_refl. cbn [negb].
  change 4%nat with (length (encode_i32 (code_value OK_))). rewrite skipn_app_exact, wrap_small by (unfold in_range; lia).
  unfold dbind. rewrite decode_i16_encode by lia. cbn [bind]. rewrite decode_i32_encode by lia. cbn [bind].
  rewrite decode_i32_encode by lia. cbn [bind dret ip]. rewrite !wrap_small by (unfold in_range; lia).
  rewrite <- (app_nil_r (cells_bytes l)) at 1. rewrite load_pairs_ok by assumption. cbn [bind].
  unfold signed. now rewrite wrap_idem by lia.
Qed.
