(* ===== verification/ScanService.v ===== *)
(** * Scanners that a range server keeps for its clients

    [RangeServer/ScannerMap.{h,cc}] and the handlers [create_scanner],
    [fetch_scanblock] and [destroy_scanner] of [RangeServer.cc], with the client's
    side of [RangeServerClient.cc]: a scan is answered in blocks, and between two
    blocks its scanner waits in the map under an id.

    The server is related to one that keeps lists of cells.  A handler is one step;
    the scanner a fetch uses is the one in the map. *)
Set Warnings "-notation-incompatible-prefix,-clear-no-such-hyp".
From S2P Require Import Prelude Errors Serialization ByteString Wire CommBuf Scanner ScanBlock.
From stdpp Require Import base gmap list.
From Stdlib Require Import ZArith Lia String Ascii.
Open Scope Z_scope.
Open Scope result_scope.

Definition text (s : string) : list Z := map (fun c => Z.of_nat (nat_of_ascii c)) (list_ascii_of_string s).

(** ** The map *)

Section Service.
Context {S : Type} `{CellListScanner S}.

Record ScanInfo := { scanner_ptr : S; range_ptr : Z; last_access : Z }.

Record ScannerMap := { m_scanner_map : gmap Z ScanInfo; ms_next_id : Z }.

Definition ScannerMap_make : ScannerMap := {| m_scanner_map := ∅; ms_next_id := 0 |}.

Definition with_scanners (m : gmap Z ScanInfo) (sm : ScannerMap) : ScannerMap := {| m_scanner_map := m; ms_next_id := ms_next_id sm |}.

(** [put]; [atomic_inc_return] on a 32-bit counter. *)
Definition put_scanner (now : Z) (s : S) (range : Z) (sm : ScannerMap) : Z * ScannerMap :=
  let id := u32 (ms_next_id sm + 1) in
  (id, {| m_scanner_map := <[id := {| scanner_ptr := s; range_ptr := range; last_access := now |}]> (m_scanner_map sm); ms_next_id := id |}).

Definition get_scanner (now id : Z) (sm : ScannerMap) : option (S * Z) * ScannerMap :=
  match m_scanner_map sm !! id with
  | None => (None, sm)
  | Some i => (Some (scanner_ptr i, range_ptr i),
               with_scanners (<[id := {| scanner_ptr := scanner_ptr i; range_ptr := range_ptr i; last_access := now |}]> (m_scanner_map sm)) sm)
  end.

Definition remove_scanner (id : Z) (sm : ScannerMap) : bool * ScannerMap :=
  (match m_scanner_map sm !! id with Some _ => true | None => false end, with_scanners (delete id (m_scanner_map sm)) sm).

Definition purge_expired (now expire_time : Z) (sm : ScannerMap) : ScannerMap :=
  with_scanners (base.filter (fun x => ~ expire_time < now - last_access (snd x)) (m_scanner_map sm)) sm.

(** The scanner a handler has moved on: the map has a pointer to it. *)
Definition moved (id : Z) (s : S) (sm : ScannerMap) : ScannerMap :=
  with_scanners (alter (fun i => {| scanner_ptr := s; range_ptr := range_ptr i; last_access := last_access i |}) id (m_scanner_map sm)) sm.

(** ** The handlers *)

Variable junk : Z * Z * Z * Z.

(** What comes of looking the table and the range up and of [Range::create_scanner]:
    the scanner and the range, or the exception with its text. *)
Definition lookup_outcome : Type := S * Z + Code * list Z.

Definition create_scanner (fuel : nat) (h : Header) (spec : ScanSpec) (found : lookup_outcome) (now : Z) (sm : ScannerMap)
  : option (result (list Z * ScannerMap)) :=
  let refuse c msg := Some (bytes <- error_response h (code_value c) msg ;; Ok (bytes, sm)) in
  if Nat.ltb 1 (List.length (row_intervals spec)) then refuse RANGESERVER_BAD_SCAN_SPEC (text "can only scan one row interval")
  else if Nat.ltb 0 (List.length (row_intervals spec)) && Nat.ltb 0 (List.length (cell_intervals spec)) then
    refuse RANGESERVER_BAD_SCAN_SPEC (text "both row and cell intervals defined")
  else if Nat.ltb 1 (List.length (cell_intervals spec)) then refuse RANGESERVER_BAD_SCAN_SPEC (text "can only scan one cell interval")
  else match found with
       | inr (c, msg) => refuse c msg
       | inl (s, range) =>
           match FillScanBlock junk fuel s with
           | Some r =>
               Some ('(more, s, rbuf) <- r ;;
                     let '(id, sm) := if more : bool then put_scanner now s range sm else (0, sm) in
                     bytes <- scan_response h (if more then 0 else 1) id rbuf ;;
                     Ok (bytes, sm))
           | None => None
           end
       end.

Definition fetch_scanblock (fuel : nat) (h : Header) (scanner_id now : Z) (sm : ScannerMap) : option (result (list Z * ScannerMap)) :=
  match get_scanner now scanner_id sm with
  | (None, sm) => Some (bytes <- error_response h (code_value RANGESERVER_INVALID_SCANNER_ID) (decimal (i32 scanner_id)) ;; Ok (bytes, sm))
  | (Some (s, _), sm) =>
      match FillScanBlock junk fuel s with
      | Some r =>
          Some ('(more, s, rbuf) <- r ;;
                let sm := moved scanner_id s sm in
                let sm := if more : bool then sm else snd (remove_scanner scanner_id sm) in
                bytes <- scan_response h (if more then 0 else 1) scanner_id rbuf ;;
                Ok (bytes, sm))
      | None => None
      end
  end.

Definition destroy_scanner (h : Header) (scanner_id : Z) (sm : ScannerMap) : result (list Z * ScannerMap) :=
  let sm := snd (remove_scanner scanner_id sm) in bytes <- response_ok h ;; Ok (bytes, sm).

Inductive request :=
  | Create (spec : ScanSpec) (found : lookup_outcome) (now : Z)
  | Fetch (scanner_id now : Z)
  | Destroy (scanner_id : Z)
  | PurgeExpired (now expire_time : Z).

(** One request, with the header it came with; purging is not answered. *)
Definition serve (fuel : nat) (h : Header) (r : request) (sm : ScannerMap) : option (result (list Z * ScannerMap)) :=
  match r with
  | Create spec found now => create_scanner fuel h spec found now sm
  | Fetch id now => fetch_scanblock fuel h id now sm
  | Destroy id => Some (destroy_scanner h id sm)
  | PurgeExpired now t => Some (Ok ([], purge_expired now t sm))
  end.

(** ** The client *)

Inductive reply := Block (last : bool) (scanner_id : Z) (l : list cell) | Refused (error : Z).

Fixpoint pair_cells (l : list (list Z * list Z)) : result (list cell) :=
  match l with
  | [] => Ok []
  | x :: l => c <- pair_cell x ;; cs <- pair_cells l ;; Ok (c :: cs)
  end.

(** [create_scanner] and [fetch_scanblock] of [RangeServerClient] with the bytes of
    the response: an error is thrown, a block is loaded into [b]. *)
Definition receive (fuel : nat) (conn : Z) (bytes : list Z) (b : ScanBlock) : option (result (Z + ScanBlock)) :=
  match Event_make conn bytes with
  | Ok ev =>
      match response_code ev with
      | Ok e =>
          if negb (e =? code_value OK_) then Some (Ok (inl e))
          else match load_block fuel ev b with
               | Some r => Some ('(e, b) <- r ;; if e =? code_value OK_ then Ok (inr b) else Throw FAILED_EXPECTATION)
               | None => None
               end
      | Throw e => Some (Throw e)
      | Fault => Some Fault
      end
  | Throw e => Some (Throw e)
  | Fault => Some Fault
  end.

(** What is in it. *)
Definition read_reply (fuel : nat) (conn : Z) (bytes : list Z) : option (result reply) :=
  match receive fuel conn bytes (ScanBlock_make 0) with
  | Some r => Some (x <- r ;; match x with
                              | inl e => Ok (Refused e)
                              | inr b => l <- pair_cells (m_vec b) ;; Ok (Block (sb_eos b) (m_scanner_id b) l)
                              end)
  | None => None
  end.

End Service.
Arguments ScanInfo S : clear implicits.
Arguments ScannerMap S : clear implicits.
Arguments request S : clear implicits.
Arguments lookup_outcome S : clear implicits.

(** ** What the service promises *)

(** A server that keeps the cells still to be sent. *)
Record cursor := { c_cells : list cell; c_range : Z; c_access : Z }.
Record cursors := { cs_map : gmap Z cursor; cs_next : Z }.

Section Promise.
Context {S : Type} `{CellListScanner S}.

Definition bad_spec (spec : ScanSpec) : bool :=
  Nat.ltb 1 (List.length (row_intervals spec)) || Nat.ltb 1 (List.length (cell_intervals spec)) ||
  Nat.ltb 0 (List.length (row_intervals spec)) && Nat.ltb 0 (List.length (cell_intervals spec)).

(** The reply to a request, if it is one for a block, and the cursors. *)
Definition answer (r : request S) (cs : cursors) : option reply * cursors :=
  match r with
  | Create spec found now =>
      if bad_spec spec then (Some (Refused (code_value RANGESERVER_BAD_SCAN_SPEC)), cs)
      else match found with
           | inr (c, _) => (Some (Refused (code_value c)), cs)
           | inl (s, range) =>
               let l := sc_cells s in
               match behind_block l with
               | [] => (Some (Block true 0 (block_of l)), cs)
               | rest => let id := u32 (cs_next cs + 1) in
                         (Some (Block false (i32 id) (block_of l)),
                          {| cs_map := <[id := {| c_cells := rest; c_range := range; c_access := now |}]> (cs_map cs); cs_next := id |})
               end
           end
  | Fetch id now =>
      match cs_map cs !! id with
      | None => (Some (Refused (code_value RANGESERVER_INVALID_SCANNER_ID)), cs)
      | Some c =>
          match behind_block (c_cells c) with
          | [] => (Some (Block true (i32 id) (block_of (c_cells c))), {| cs_map := delete id (cs_map cs); cs_next := cs_next cs |})
          | rest => (Some (Block false (i32 id) (block_of (c_cells c))),
                     {| cs_map := <[id := {| c_cells := rest; c_range := c_range c; c_access := now |}]> (cs_map cs); cs_next := cs_next cs |})
          end
      end
  | Destroy id => (None, {| cs_map := delete id (cs_map cs); cs_next := cs_next cs |})
  | PurgeExpired now t => (None, {| cs_map := base.filter (fun x => ~ t < now - c_access (snd x)) (cs_map cs); cs_next := cs_next cs |})
  end.

(** ** Refinement *)

Definition cursor_of (i : ScanInfo S) : cursor := {| c_cells := sc_cells (scanner_ptr i); c_range := range_ptr i; c_access := last_access i |}.
Definition cursors_of (sm : ScannerMap S) : cursors := {| cs_map := cursor_of <$> m_scanner_map sm; cs_next := ms_next_id sm |}.

Definition good_scanner (fuel : nat) (s : S) : Prop := sc_inv s /\ Forall sendable (sc_cells s) /\ (List.length (sc_cells s) <= fuel)%nat.
Definition good_map (fuel : nat) (sm : ScannerMap S) : Prop := map_Forall (fun _ i => good_scanner fuel (scanner_ptr i)) (m_scanner_map sm).

Definition good_request (fuel : nat) (r : request S) : Prop :=
  match r with
  | Create _ (inl (s, _)) _ => good_scanner fuel s
  | Create _ (inr (c, msg)) _ => c <> OK_ /\ zlen msg < 2 ^ 16
  | Fetch id _ => 0 <= id < 2 ^ 32
  | _ => True
  end.

Variable junk : Z * Z * Z * Z.

Lemma code_signed c : i32 (u32 (code_value c)) = code_value c.
Proof. destruct c; reflexivity. Qed.

Lemma code_not_ok c : c <> OK_ -> (code_value c =? code_value OK_) = false.
Proof. intros Hc. apply Z.eqb_neq. intros E. apply Hc. now apply code_value_inj. Qed.

Lemma refused_ok fuel conn h c msg : wf_header h -> c <> OK_ -> zlen msg < 2 ^ 16 ->
  exists bytes, error_response h (code_value c) msg = Ok bytes /\ read_reply fuel conn bytes = Some (Ok (Refused (code_value c))).
Proof.
  intros Hh Hc Hm. pose proof (zlen_nonneg msg) as Hn. pose proof (str16_bytes msg Hm) as Es.
  assert (E : zlen (encode_i32 (code_value c) ++ encode_str16 msg) = 4 + encoded_length_str16 msg).
  { rewrite Es, !zlen_app. change (zlen (encode_i32 _)) with 4. change (zlen (encode_i16 _)) with 2. change (zlen [0]) with 1.
    unfold encoded_length_str16. lia. }
  destruct (response_received h (4 + encoded_length_str16 msg) [] [Ok (encode_i32 (code_value c)); Ok (encode_str16 msg)]
    (encode_i32 (code_value c) ++ encode_str16 msg) conn Hh) as (bytes & ev & Eb & Ee & Em & El).
  - cbn [cat bind]. now rewrite app_nil_r.
  - exact E.
  - change (zlen (@nil Z)) with 0. unfold encoded_length_str16. lia.
  - exists bytes. split; [exact Eb|]. unfold read_reply, receive. rewrite Ee. unfold response_code. rewrite El, Em, app_nil_r, <- ?app_assoc.
    rewrite decode_i32_encode by (rewrite E; unfold encoded_length_str16; lia). rewrite code_signed, (code_not_ok _ Hc). reflexivity.
Qed.

Lemma pair_cells_ok ps l : Forall2 points ps l -> pair_cells ps = Ok l.
Proof. induction 1 as [|p c ps l Hp Hs IH]; [reflexivity|]. cbn. rewrite (points_cell _ _ Hp). cbn [bind]. now rewrite IH. Qed.

Lemma block_sendable l : Forall sendable l -> Forall sendable (block_of l) /\ Forall sendable (behind_block l).
Proof. intros Hs. rewrite (block_split l) in Hs. now apply Forall_app in Hs. Qed.

Lemma block_length l : (List.length (block_of l) <= List.length l)%nat /\ (List.length (behind_block l) <= List.length l)%nat.
Proof. pose proof (f_equal (@List.length cell) (block_split l)) as E. rewrite length_app in E. lia. Qed.

Lemma block_received fuel conn h flag i l b : wf_header h -> flag = 0 \/ flag = 1 -> Forall sendable l -> (List.length l <= fuel)%nat ->
  exists bytes ps, scan_response h flag i (encode_i32 (zlen (cells_bytes (block_of l))) ++ cells_bytes (block_of l)) = Ok bytes /\
    receive fuel conn bytes b =
      Some (Ok (inr {| m_error := code_value OK_; sb_flags := flag; m_scanner_id := i32 i; m_vec := ps; m_iter := ps |})) /\
    Forall2 points ps (block_of l).
Proof.
  intros Hh Hfl Hs Hf. destruct (block_sendable l Hs) as [Hb _]. pose proof (block_size l Hs) as Hz. destruct (block_length l) as [Hbl _].
  set (n := zlen (cells_bytes (block_of l))) in *.
  destruct (response_received h 10 (encode_i32 n ++ cells_bytes (block_of l)) [Ok (encode_i32 (code_value OK_)); Ok (encode_i16 flag); Ok (encode_i32 i)]
    (encode_i32 (code_value OK_) ++ encode_i16 flag ++ encode_i32 i) conn Hh) as (bytes & ev & Eb & Ee & Em & El).
  - cbn [cat bind]. now rewrite app_nil_r.
  - reflexivity.
  - rewrite zlen_app. fold n. change (zlen (encode_i32 n)) with 4. lia.
  - destruct (load_block_ok ev b fuel flag i (block_of l)) as (ps & Ep & Hp);
      [destruct Hfl; lia|exact Hb|fold n; lia|lia|exact Em|now rewrite El, Em|].
    exists bytes, ps. split; [exact Eb|]. split; [|exact Hp]. unfold receive. rewrite Ee.
    assert (Er : response_code ev = Ok (code_value OK_)).
    { unfold response_code. rewrite El, Em, <- !app_assoc. rewrite decode_i32_encode; [reflexivity|]. rewrite !zlen_app. fold n.
      change (zlen (encode_i32 _)) with 4. change (zlen (encode_i16 _)) with 2. lia. }
    rewrite Er, Z.eqb_refl. cbn [negb]. rewrite Ep. cbn [bind]. now rewrite Z.eqb_refl.
Qed.

Lemma block_ok fuel conn h flag i l : wf_header h -> flag = 0 \/ flag = 1 -> Forall sendable l -> (List.length l <= fuel)%nat ->
  exists bytes, scan_response h flag i (encode_i32 (zlen (cells_bytes (block_of l))) ++ cells_bytes (block_of l)) = Ok bytes /\
    read_reply fuel conn bytes = Some (Ok (Block (flag =? 1) (i32 i) (block_of l))).
Proof.
  intros Hh Hfl Hs Hf. destruct (block_received fuel conn h flag i l (ScanBlock_make 0) Hh Hfl Hs Hf) as (bytes & ps & Eb & Er & Hp).
  exists bytes. split; [exact Eb|]. unfold read_reply. rewrite Er. cbn [bind m_vec]. rewrite (pair_cells_ok _ _ Hp). cbn [bind].
  unfold sb_eos. cbn [sb_flags m_scanner_id]. do 3 f_equal. now destruct Hfl as [-> | ->].
Qed.
(** A request served and its response read. *)
Definition exchange (fuel : nat) (conn : Z) (h : Header) (r : request S) (sm : ScannerMap S) : option (result (option reply * ScannerMap S)) :=
  match serve junk fuel h r sm with
  | Some (Ok (bytes, sm)) =>
      match r with
      | Create _ _ _ | Fetch _ _ =>
          match read_reply fuel conn bytes with
          | Some x => Some (x <- x ;; Ok (Some x, sm))
          | None => None
          end
      | _ => Some (Ok (None, sm))
      end
  | Some (Throw e) => Some (Throw e)
  | Some Fault => Some Fault
  | None => None
  end.

(** The map with a scanner put in, moved on or taken out. *)
Lemma good_insert fuel sm id i n : good_map fuel sm -> good_scanner fuel (scanner_ptr i) ->
  good_map fuel {| m_scanner_map := <[id := i]> (m_scanner_map sm); ms_next_id := n |}.
Proof. intros Hm Hi. apply map_Forall_insert_2; assumption. Qed.

Lemma good_delete fuel sm id : good_map fuel sm -> good_map fuel (with_scanners (delete id (m_scanner_map sm)) sm).
Proof. intros Hm. now apply map_Forall_delete. Qed.

Lemma filled_scanner fuel s : good_scanner fuel s -> exists s', FillScanBlock junk fuel s =
    Some (Ok (match behind_block (sc_cells s) with [] => false | _ => true end, s',
              encode_i32 (zlen (cells_bytes (block_of (sc_cells s)))) ++ cells_bytes (block_of (sc_cells s)))) /\
  good_scanner fuel s' /\ sc_cells s' = behind_block (sc_cells s).
Proof.
  intros (Hi & Hs & Hf). destruct (FillScanBlock_ok junk s fuel Hi Hs Hf) as (s' & E & Hi' & Hc). exists s'. split; [exact E|].
  split; [|exact Hc]. split; [exact Hi'|]. rewrite Hc. split; [apply (block_sendable _ Hs)|]. pose proof (block_length (sc_cells s)). lia.
Qed.

Lemma refuse_exchange fuel conn h c msg sm : wf_header h -> c <> OK_ -> zlen msg < 2 ^ 16 -> good_map fuel sm ->
  exists bytes, (bytes <- error_response h (code_value c) msg ;; Ok (bytes, sm)) = Ok (bytes, sm) /\
    read_reply fuel conn bytes = Some (Ok (Refused (code_value c))).
Proof. intros Hh Hc Hm _. destruct (refused_ok fuel conn h c msg Hh Hc Hm) as (bytes & -> & E). exists bytes. auto. Qed.

Lemma create_ok fuel conn h spec found now sm : wf_header h -> good_map fuel sm -> good_request fuel (Create spec found now) ->
  exists sm', exchange fuel conn h (Create spec found now) sm = Some (Ok (fst (answer (Create spec found now) (cursors_of sm)), sm')) /\
    cursors_of sm' = snd (answer (Create spec found now) (cursors_of sm)) /\ good_map fuel sm'.
Proof.
  intros Hh Hm Hr. unfold exchange, serve, create_scanner. cbn [answer]. unfold bad_spec.
  assert (Rf : forall msg, zlen msg < 2 ^ 16 -> exists sm', match Some (bytes <- error_response h (code_value RANGESERVER_BAD_SCAN_SPEC) msg ;; Ok (bytes, sm)) with
      | Some (Ok (bytes, sm)) => match read_reply fuel conn bytes with Some x => Some (x <- x ;; Ok (Some x, sm)) | None => None end
      | Some (Throw e) => Some (Throw e) | Some Fault => Some Fault | None => None end = Some (Ok (Some (Refused (code_value RANGESERVER_BAD_SCAN_SPEC)), sm')) /\
      cursors_of sm' = cursors_of sm /\ good_map fuel sm').
  { intros msg Hl. destruct (refuse_exchange fuel conn h RANGESERVER_BAD_SCAN_SPEC msg sm Hh ltac:(discriminate) Hl Hm) as (bytes & -> & ->). cbn. eauto. }
  destruct (Nat.ltb 1 (List.length (row_intervals spec))); [apply Rf; reflexivity|].
  destruct (Nat.ltb 0 (List.length (row_intervals spec)) && Nat.ltb 0 (List.length (cell_intervals spec))); rewrite ?orb_true_r; [apply Rf; reflexivity|].
  destruct (Nat.ltb 1 (List.length (cell_intervals spec))); cbn [orb]; [apply Rf; reflexivity|].
  destruct found as [[s range]|[c msg]]; cbn in Hr.
  - destruct (filled_scanner fuel s Hr) as (s' & -> & Hg & Hc). destruct Hr as (_ & Hs & Hf). cbn [bind].
    destruct (behind_block (sc_cells s)) as [|x rest] eqn:Eb; cbv iota beta.
    + destruct (block_ok fuel conn h 1 0 (sc_cells s) Hh (or_intror eq_refl) Hs Hf) as (bytes & -> & Er). cbn [bind]. rewrite Er. cbn [bind fst snd]. eauto.
    + cbn [put_scanner].
      destruct (block_ok fuel conn h 0 (u32 (ms_next_id sm + 1)) (sc_cells s) Hh (or_introl eq_refl) Hs Hf) as (bytes & -> & Er). cbn [bind]. rewrite Er. cbn [bind fst snd].
      eexists. split; [reflexivity|]. split; [|now apply good_insert]. unfold cursors_of. cbn. rewrite fmap_insert. unfold cursor_of at 1. cbn. now rewrite Hc.
  - destruct Hr as [Hc Hl]. destruct (refuse_exchange fuel conn h c msg sm Hh Hc Hl Hm) as (bytes & -> & ->). cbn. eauto.
Qed.

Lemma decimal_short n : zlen (decimal n) < 2 ^ 16.
Proof.
  assert (D : forall k x, zlen (dec_digits k x) <= Z.of_nat k).
  { induction k as [|k IH]; intros x; [reflexivity|]. cbn [dec_digits]. rewrite zlen_app. change (zlen [48 + x mod 10]) with 1.
    specialize (IH (x / 10)). destruct (x <? 10); [change (zlen []) with 0|]; lia. }
  unfold decimal. destruct (n <? 0); [|specialize (D 10%nat n); lia]. specialize (D 10%nat (- n)).
  change (45 :: dec_digits 10 (- n)) with ([45] ++ dec_digits 10 (- n)). rewrite zlen_app. change (zlen [45]) with 1. lia.
Qed.

Lemma fetch_ok fuel conn h id now sm : wf_header h -> good_map fuel sm -> 0 <= id < 2 ^ 32 ->
  exists sm', exchange fuel conn h (Fetch id now) sm = Some (Ok (fst (answer (Fetch id now) (cursors_of sm)), sm')) /\
    cursors_of sm' = snd (answer (Fetch id now) (cursors_of sm)) /\ good_map fuel sm'.
Proof.
  intros Hh Hm Hid. unfold exchange, serve, fetch_scanblock, get_scanner. cbn [answer cursors_of cs_map cs_next]. rewrite lookup_fmap.
  destruct (m_scanner_map sm !! id) as [i|] eqn:E; cbn [fmap option_fmap option_map].
  - pose proof (Hm _ _ E) as Hg. destruct (filled_scanner fuel _ Hg) as (s' & -> & Hg' & Hc). destruct Hg as (_ & Hs & Hf). cbn [bind].
    set (sm1 := with_scanners _ sm). cbn [cursor_of c_cells c_range c_access].
    destruct (behind_block (sc_cells (scanner_ptr i))) as [|x rest] eqn:Eb; cbv iota beta zeta.
    + destruct (block_ok fuel conn h 1 id _ Hh (or_intror eq_refl) Hs Hf) as (bytes & -> & Er). cbn [bind]. rewrite Er. cbn [bind fst snd].
      eexists. split; [reflexivity|]. unfold remove_scanner, moved, with_scanners, cursors_of. cbn.
      rewrite delete_alter_eq, delete_insert_eq. split; [now rewrite fmap_delete|]. now apply (good_delete fuel sm).
    + destruct (block_ok fuel conn h 0 id _ Hh (or_introl eq_refl) Hs Hf) as (bytes & -> & Er). cbn [bind]. rewrite Er. cbn [bind fst snd].
      eexists. split; [reflexivity|]. unfold moved, with_scanners, cursors_of. cbn. rewrite alter_insert_eq. cbn. split.
      * rewrite fmap_insert. unfold cursor_of at 1. cbn. now rewrite Hc.
      * now apply (good_insert fuel sm).
  - destruct (refuse_exchange fuel conn h RANGESERVER_INVALID_SCANNER_ID (decimal (i32 id)) sm Hh ltac:(discriminate) (decimal_short _) Hm) as (bytes & -> & ->).
    cbn. eauto.
Qed.

Lemma exchange_ok fuel conn h r sm : wf_header h -> good_map fuel sm -> good_request fuel r ->
  exists sm', exchange fuel conn h r sm = Some (Ok (fst (answer r (cursors_of sm)), sm')) /\
    cursors_of sm' = snd (answer r (cursors_of sm)) /\ good_map fuel sm'.
Proof.
  intros Hh Hm Hr. destruct r as [spec found now|id now|id|now t].
  - now apply create_ok.
  - now apply fetch_ok.
  - unfold exchange, serve, destroy_scanner, response_ok.
    destruct (response_received h 4 [] [Ok (encode_i32 (code_value OK_))] (encode_i32 (code_value OK_)) conn Hh) as (bytes & ev & -> & _);
      [reflexivity|reflexivity|change (zlen (@nil Z)) with 0; lia|].
    cbn [bind]. eexists. split; [reflexivity|]. split; [|now apply good_delete]. unfold cursors_of. cbn. now rewrite fmap_delete.
  - eexists. split; [reflexivity|]. split.
    + unfold cursors_of. cbn. f_equal. now rewrite map_filter_fmap.
    + apply map_Forall_lookup. intros k i E. apply map_lookup_filter_Some in E as [E _]. exact (Hm _ _ E).
Qed.

(** ** Runs *)

(** A request as it arrives. *)
Record call := { k_conn : Z; k_header : Header; k_request : request S }.

Fixpoint exchanges (fuel : nat) (l : list call) (sm : ScannerMap S) : option (result (list (option reply) * ScannerMap S)) :=
  match l with
  | [] => Some (Ok ([], sm))
  | k :: l =>
      match exchange fuel (k_conn k) (k_header k) (k_request k) sm with
      | Some (Ok (x, sm)) =>
          match exchanges fuel l sm with
          | Some r => Some ('(xs, sm) <- r ;; Ok (x :: xs, sm))
          | None => None
          end
      | Some (Throw e) => Some (Throw e)
      | Some Fault => Some Fault
      | None => None
      end
  end.

Fixpoint answers (l : list call) (cs : cursors) : list (option reply) * cursors :=
  match l with
  | [] => ([], cs)
  | k :: l => let '(x, cs) := answer (k_request k) cs in let '(xs, cs) := answers l cs in (x :: xs, cs)
  end.

Definition good_call (fuel : nat) (k : call) : Prop := wf_header (k_header k) /\ good_request fuel (k_request k).

Lemma exchanges_ok fuel l : Forall (good_call fuel) l -> forall sm, good_map fuel sm ->
  exists sm', exchanges fuel l sm = Some (Ok (fst (answers l (cursors_of sm)), sm')) /\
    cursors_of sm' = snd (answers l (cursors_of sm)) /\ good_map fuel sm'.
Proof.
  induction 1 as [|k l [Hh Hr] Hl IH]; intros sm Hm; [cbn; eauto|]. cbn [exchanges answers].
  destruct (exchange_ok fuel (k_conn k) (k_header k) (k_request k) sm Hh Hm Hr) as (sm1 & -> & E1 & Hm1).
  destruct (answer (k_request k) (cursors_of sm)) as [x cs1]. cbn in E1. subst cs1.
  destruct (IH sm1 Hm1) as (sm2 & -> & E2 & Hm2). destruct (answers l (cursors_of sm1)) as [xs cs2]. cbn in *. eauto.
Qed.

(** ** One scan among others *)

Record turn := { t_conn : Z; t_header : Header; t_now : Z }.

Inductive scanned := Complete (l : list cell) (sm : ScannerMap S) | BrokenOff (error : Z) | Failed.

(** The client fetches until a block is the last; before each of its requests the
    server has others to serve. *)
Fixpoint fetch_blocks (fuel : nat) (turns : list (list call * turn)) (scanner_id : Z) (sm : ScannerMap S) : scanned :=
  match turns with
  | [] => Failed
  | (others, t) :: turns =>
      match exchanges fuel others sm with
      | Some (Ok (_, sm)) =>
          match exchange fuel (t_conn t) (t_header t) (Fetch (u32 scanner_id) (t_now t)) sm with
          | Some (Ok (Some (Block last i l), sm)) =>
              if last then Complete l sm
              else match fetch_blocks fuel turns i sm with Complete l' sm => Complete (l ++ l') sm | x => x end
          | Some (Ok (Some (Refused e), _)) => BrokenOff e
          | _ => Failed
          end
      | _ => Failed
      end
  end.

Definition scan_blocks (fuel : nat) (t : turn) (spec : ScanSpec) (found : lookup_outcome S) (turns : list (list call * turn)) (sm : ScannerMap S) : scanned :=
  match exchange fuel (t_conn t) (t_header t) (Create spec found (t_now t)) sm with
  | Some (Ok (Some (Block last i l), sm)) =>
      if last then Complete l sm
      else match fetch_blocks fuel turns i sm with Complete l' sm => Complete (l ++ l') sm | x => x end
  | Some (Ok (Some (Refused e), _)) => BrokenOff e
  | _ => Failed
  end.

(** Requests of others that leave the scanner [id] alone between the times [t0] and
    [t1]: for other scanners, or purging what was not used for at least that long. *)
Definition apart (id t0 t1 : Z) (r : request S) : Prop :=
  match r with
  | Create _ _ _ => True
  | Fetch i _ => i <> id
  | Destroy i => i <> id
  | PurgeExpired now t => now <= t1 /\ t1 - t0 <= t
  end.

(** The cursor of the scan, and how far the counter of ids has come since. *)
Record waiting (id t0 t1 : Z) (k : Z) (l : list cell) (cs : cursors) : Prop := {
  w_cursor : exists range now, cs_map cs !! id = Some {| c_cells := l; c_range := range; c_access := now |} /\ t0 <= now;
  w_next : exists j, 0 <= j <= k /\ cs_next cs = u32 (id + j) }.

Lemma answer_apart id t0 t1 k l r cs : 0 <= id < 2 ^ 32 -> apart id t0 t1 r -> k + 1 < 2 ^ 32 -> waiting id t0 t1 k l cs ->
  waiting id t0 t1 (k + 1) l (snd (answer r cs)).
Proof.
  intros Hid Ha Hk [(range & now & E & Ht) (j & Hj & En)].
  assert (Hn : exists j, 0 <= j <= k + 1 /\ cs_next cs = u32 (id + j)) by (exists j; split; [lia|exact En]).
  assert (Same : waiting id t0 t1 (k + 1) l cs) by (split; eauto).
  destruct r as [spec found now'|i now'|i|now' t]; cbn [answer apart] in *.
  - destruct (bad_spec spec); [exact Same|]. destruct found as [[s rg]|[c msg]]; [|exact Same].
    destruct (behind_block (sc_cells s)) as [|x rest]; [exact Same|]. cbn [snd].
    assert (En1 : u32 (cs_next cs + 1) = u32 (id + (j + 1))).
    { rewrite En. unfold wrap. rewrite Z.add_assoc, Zplus_mod_idemp_l. reflexivity. }
    split; cbn; rewrite En1; [|exists (j + 1); split; [lia|reflexivity]]. exists range, now. split; [|exact Ht]. rewrite lookup_insert_ne; [exact E|].
    unfold wrap. intros Eq. apply (Z.mod_small id (2 ^ 32)) in Hid as Hs. rewrite <- Hs in Eq at 2. apply (f_equal (fun z => (z - id) mod 2 ^ 32)) in Eq.
    rewrite !Zminus_mod_idemp_l in Eq. rewrite Z.sub_diag in Eq. replace (id + (j + 1) - id) with (j + 1) in Eq by lia.
    rewrite Z.mod_small, Z.mod_0_l in Eq by lia. lia.
  - destruct (cs_map cs !! i) as [c|]; [|exact Same]. destruct (behind_block (c_cells c)); cbn [snd]; (split; cbn; [|exact Hn]); exists range, now; (split; [|exact Ht]).
    + now rewrite lookup_delete_ne.
    + now rewrite lookup_insert_ne.
  - split; cbn; [|exact Hn]. exists range, now. split; [|exact Ht]. now rewrite lookup_delete_ne.
  - split; cbn; [|exact Hn]. exists range, now. split; [|exact Ht]. apply map_lookup_filter_Some. split; [exact E|]. cbn. lia.
Qed.

Lemma answers_apart id t0 t1 l ks : 0 <= id < 2 ^ 32 -> Forall (fun c => apart id t0 t1 (k_request c)) ks -> forall k cs, k + zlen ks < 2 ^ 32 ->
  waiting id t0 t1 k l cs -> waiting id t0 t1 (k + zlen ks) l (snd (answers ks cs)).
Proof.
  intros Hid. induction 1 as [|c ks Hc Hs IH]; intros k cs Hk W.
  - change (zlen []) with 0. now rewrite Z.add_0_r.
  - assert (Ez : zlen (c :: ks) = 1 + zlen ks) by (unfold zlen; cbn; lia). rewrite Ez in *. cbn [answers].
    pose proof (zlen_nonneg ks). assert (Hk1 : k + 1 < 2 ^ 32) by lia. pose proof (answer_apart _ _ _ _ _ _ _ Hid Hc Hk1 W) as W1. destruct (answer (k_request c) cs) as [x cs1]. cbn in W1.
    specialize (IH (k + 1) cs1 ltac:(lia) W1). destruct (answers ks cs1) as [xs cs2]. cbn in *. now rewrite Z.add_assoc.
Qed.

(** Everything others ask for during the scan. *)
Definition busy (turns : list (list call * turn)) : Z := zlen (List.concat (map fst turns)).

Record quiet (fuel : nat) (id t0 t1 : Z) (turns : list (list call * turn)) : Prop := {
  q_calls : Forall (fun x => Forall (good_call fuel) (fst x) /\ Forall (fun c => apart id t0 t1 (k_request c)) (fst x)) turns;
  q_turns : Forall (fun x => wf_header (t_header (snd x)) /\ t0 <= t_now (snd x)) turns }.

Lemma id_back id : 0 <= id < 2 ^ 32 -> u32 (i32 id) = id.
Proof. intros Hid. rewrite wrap_signed by lia. now apply wrap_small. Qed.

Lemma fetch_blocks_ok fuel id t0 t1 turns : 0 <= id < 2 ^ 32 -> forall k l sm, quiet fuel id t0 t1 turns -> k + busy turns < 2 ^ 32 ->
  good_map fuel sm -> waiting id t0 t1 k l (cursors_of sm) -> l <> [] -> (List.length l <= List.length turns)%nat ->
  exists sm', fetch_blocks fuel turns (i32 id) sm = Complete l sm' /\ good_map fuel sm' /\ m_scanner_map sm' !! id = None.
Proof.
  intros Hid. induction turns as [|[others t] turns IH]; intros k l sm [Qc Qt] Hk Hm W Hl Hlen.
  { destruct l; [easy|cbn in Hlen; lia]. }
  inversion_clear Qc as [|? ? [Hg Ha] Qc']. inversion_clear Qt as [|? ? [Hh Ht] Qt']. cbn [fst snd] in *.
  assert (Eb : busy ((others, t) :: turns) = zlen others + busy turns) by (unfold busy; cbn; now rewrite zlen_app). rewrite Eb in Hk.
  pose proof (zlen_nonneg others). assert (Hbn : 0 <= busy turns) by apply zlen_nonneg. cbn [fetch_blocks].
  destruct (exchanges_ok fuel others Hg sm Hm) as (sm1 & -> & E1 & Hm1). assert (Hk1 : k + zlen others < 2 ^ 32) by lia.
  pose proof (answers_apart id t0 t1 l others Hid Ha k _ Hk1 W) as W1. rewrite <- E1 in W1.
  rewrite (id_back _ Hid).
  destruct (exchange_ok fuel (t_conn t) (t_header t) (Fetch id (t_now t)) sm1 Hh Hm1 Hid) as (sm2 & -> & E2 & Hm2).
  destruct W1 as [(range & now & Ec & _) (j & Hj & En)]. cbn [answer] in *. rewrite Ec in *. cbn [c_cells c_range] in *.
  destruct (behind_block l) as [|y rest] eqn:Er; cbn [fst snd] in *.
  - exists sm2. split; [|split; [exact Hm2|]].
    + f_equal. rewrite (block_split l) at 2. rewrite Er. now rewrite app_nil_r.
    + apply (f_equal cs_map) in E2. cbn in E2. apply (f_equal (fun m => m !! id)) in E2. rewrite lookup_delete_eq, lookup_fmap in E2. now destruct (m_scanner_map sm2 !! id).
  - destruct (IH (k + zlen others) (y :: rest) sm2) as (sm3 & -> & Hm3 & Hn3); try assumption; try easy; [lia| | |].
    + rewrite E2. split; cbn; [|eauto]. exists range, (t_now t). rewrite lookup_insert_eq. auto.
    + pose proof (block_progress l Hl) as Hp. rewrite Er in Hp. cbn in *. lia.
    + exists sm3. split; [|auto]. f_equal. rewrite (block_split l) at 2. now rewrite Er.
Qed.

(** C10. A scan is transferred exactly.  Whatever state the server is in and whatever it
    serves for other clients in between, a client that creates a scanner and fetches
    until a block is marked as the last gets the cells of the scanner, each of them once
    and in order; the server then has no scanner for it any more.  This goes through the
    bytes of every response: cells are copied into blocks of 65500 bytes, or one cell
    that is larger, sent, and taken apart by the client.  The others may create, use and
    destroy scanners, and scanners may be purged that were not used for longer than the
    scan lasts; ids may wrap around at 32 bits, as long as fewer than 2 ^ 32 requests
    come in between. *)
Theorem scan_transfer_exact fuel t spec s range t0 t1 turns sm :
  good_map fuel sm -> good_scanner fuel s -> bad_spec spec = false -> wf_header (t_header t) -> t0 <= t_now t ->
  quiet fuel (u32 (ms_next_id sm + 1)) t0 t1 turns -> busy turns < 2 ^ 32 -> (List.length (sc_cells s) <= List.length turns)%nat ->
  exists sm', scan_blocks fuel t spec (inl (s, range)) turns sm = Complete (sc_cells s) sm' /\ good_map fuel sm' /\
    (behind_block (sc_cells s) <> [] -> m_scanner_map sm' !! u32 (ms_next_id sm + 1) = None).
Proof.
  intros Hm Hs Hb Hh Ht Q Hn Hlen. unfold scan_blocks.
  destruct (exchange_ok fuel (t_conn t) (t_header t) (Create spec (inl (s, range)) (t_now t)) sm Hh Hm Hs) as (sm1 & -> & E1 & Hm1).
  cbn [answer] in *. rewrite Hb in *. cbn [cs_next cursors_of] in *. set (id := u32 (ms_next_id sm + 1)) in *.
  assert (Hid : 0 <= id < 2 ^ 32) by (apply wrap_range; lia). pose proof (block_split (sc_cells s)) as Es.
  destruct (behind_block (sc_cells s)) as [|x rest] eqn:Er; cbn [fst snd] in *.
  - exists sm1. rewrite app_nil_r in Es. rewrite <- Es. split; [reflexivity|]. split; [exact Hm1|easy].
  - destruct (fetch_blocks_ok fuel id t0 t1 turns Hid 0 (x :: rest) sm1 Q) as (sm2 & -> & Hm2 & Hd); [lia|exact Hm1| |easy| |].
    + rewrite E1. split; cbn; [|exists 0; split; [lia|]; rewrite Z.add_0_r; symmetry; now apply wrap_small].
      exists range, (t_now t). rewrite lookup_insert_eq. auto.
    + pose proof (f_equal (@List.length cell) Es) as Hl. rewrite length_app in Hl. lia.
    + exists sm2. rewrite Es at 2. auto.
Qed.

End Promise.

(** ** A sample *)

(** A scanner over a list of cells. *)
Definition list_scanner : CellListScanner (list cell).
Proof.
  refine {| sc_get l := (hd_error l, l); sc_forward l := List.tl l; sc_inv _ := True; sc_cells l := l |}; auto.
Defined.

Section Sample.
#[local] Existing Instance list_scanner.

(** Three cells with values of 40000 bytes: a block each. *)
Definition sample_value (b : Z) : list Z := repeat b (Z.to_nat 40000).
Definition sample_scan : list cell := [([1; 2], sample_value 7); ([1; 3], sample_value 8); ([1; 4], sample_value 9)].
Definition sample_header : Header := {| version := 1; protocol := 4; flags := 1; header_len := 16; id := 5; gid := 0; total_len := 22 |}.
Definition sample_turn (now : Z) : turn := {| t_conn := 3; t_header := sample_header; t_now := now |}.
Definition sample_call (r : request (list cell)) : call := {| k_conn := 4; k_header := sample_header; k_request := r |}.
Definition sample_turns : list (list call * turn) :=
  [([sample_call (Create ScanSpec_make (inl (sample_scan, 77)) 101); sample_call (Fetch 2 102)], sample_turn 103);
   ([sample_call (PurgeExpired 104 100); sample_call (Fetch 9 104)], sample_turn 105);
   ([sample_call (Destroy 2)], sample_turn 106)].

Lemma sample_scan_good : good_scanner 3 sample_scan.
Proof. split; [exact I|]. split; [|cbn; lia]. repeat constructor; vm_compute; reflexivity. Qed.

Lemma sample_header_ok : wf_header sample_header.
Proof. repeat split; cbn; lia. Qed.

Lemma scan_transfer_exact_witness : exists sm',
  scan_blocks (0, 0, 0, 0) 3 (sample_turn 100) ScanSpec_make (inl (sample_scan, 55)) sample_turns ScannerMap_make = Complete sample_scan sm' /\
  List.length (behind_block sample_scan) = 2%nat.
Proof.
  assert (Q : quiet 3 (u32 (0 + 1)) 100 110 sample_turns).
  { split; repeat constructor; cbn; try exact sample_header_ok; try exact sample_scan_good; try lia; try discriminate. all: vm_compute; discriminate. }
  destruct (scan_transfer_exact (0, 0, 0, 0) 3 (sample_turn 100) ScanSpec_make sample_scan 55 100 110 sample_turns ScannerMap_make)
    as (sm' & E & _ & _); [apply map_Forall_empty|exact sample_scan_good|reflexivity|exact sample_header_ok|cbn; lia|exact Q|vm_compute; reflexivity|cbn; lia|].
  exists sm'. split; [exact E|]. vm_compute. reflexivity.
Defined.

End Sample.
