(* ===== verification/IntervalScanner.v ===== *)
(** * Scanning an interval of rows from the client

    [Hypertable/Lib/IntervalScanner.{h,cc}]: a scan visits the ranges of a table that
    have rows of its interval one after the other; in each it creates a scanner at the
    range server and takes its blocks, fetching the next block ahead if that may pay.

    What the scanner calls, the location cache, the range locator, the clock and the
    range servers, is an interface, [Network], over a state of its own; [Serves] says
    what a scan may rely on. *)
Set Warnings "-notation-incompatible-prefix,-clear-no-such-hyp".
From S2P Require Import Prelude Errors Serialization ByteString Key Deletes CellCache Scanner MergeScanner Wire CommBuf ScanBlock LinkedList LocationCache.
From stdpp Require Import base list.
From Stdlib Require Import ZArith Lia.
Open Scope Z_scope.
Open Scope result_scope.

(** ** Calls *)

(** A call changes the state around the scanner and returns or throws; [None] when the
    rounds allowed to a loop are used up. *)
Definition io (W A : Type) : Type := W -> option (result A * W).

Section Io.
Context {W : Type}.
Definition io_ret {A} (a : A) : io W A := fun w => Some (Ok a, w).
Definition io_throw {A} (c : Code) : io W A := fun w => Some (Throw c, w).
Definition io_fault {A} : io W A := fun w => Some (Fault, w).
Definition io_of {A} (r : result A) : io W A := fun w => Some (r, w).
Definition io_bind {A B} (m : io W A) (f : A -> io W B) : io W B := fun w =>
  match m w with
  | Some (Ok a, w) => f a w
  | Some (Throw c, w) => Some (Throw c, w)
  | Some (Fault, w) => Some (Fault, w)
  | None => None
  end.
Definition io_try {A} (m : io W A) : io W (A + Code) := fun w =>
  match m w with
  | Some (Ok a, w) => Some (Ok (inl a), w)
  | Some (Throw c, w) => Some (Ok (inr c), w)
  | Some (Fault, w) => Some (Fault, w)
  | None => None
  end.
Definition out_of_rounds {A} : io W A := fun _ => None.
End Io.
Declare Scope io_scope.
Notation "x <-- m ;; f" := (io_bind m (fun x => f)) (at level 100, m at next level, f at level 200, right associativity) : io_scope.
Open Scope io_scope.

Record Network (W : Type) := {
  n_lookup : list Z -> io W (option RangeLocationInfo);
  n_find_loop : list Z -> bool -> io W RangeLocationInfo;
  n_expired : io W bool;
  n_short : io W bool;
  n_addr : list Z -> option Z;
  n_create : Z -> list Z -> list Z -> ScanSpec -> io W ScanBlock;
  n_fetch : Z -> Z -> ScanBlock -> io W ScanBlock;
  n_send_fetch : Z -> Z -> io W unit;
  n_wait : ScanBlock -> io W ScanBlock;
  n_destroy : Z -> Z -> io W unit }.
Arguments n_lookup {W} n _. Arguments n_find_loop {W} n _ _. Arguments n_expired {W} n. Arguments n_short {W} n.
Arguments n_addr {W} n _. Arguments n_create {W} n _ _ _ _. Arguments n_fetch {W} n _ _ _. Arguments n_send_fetch {W} n _ _.
Arguments n_wait {W} n _. Arguments n_destroy {W} n _ _.

(** ** The scanner *)

(** Intervals as a client gives them; a string may be null. *)
Record RowIntervalArg := { ra_start : option (list Z); ra_start_inclusive : bool; ra_end : option (list Z); ra_end_inclusive : bool }.
Record CellIntervalArg := {
  ca_start_row : option (list Z); ca_start_column : option (list Z); ca_start_inclusive : bool;
  ca_end_row : option (list Z); ca_end_column : option (list Z); ca_end_inclusive : bool }.
Record ScanArg := {
  sa_row_limit : Z; sa_max_versions : Z; sa_columns : list (list Z); sa_rows : list RowIntervalArg;
  sa_cells : list CellIntervalArg; sa_time : Z * Z; sa_return_deletes : bool }.

Record IntervalScanner := {
  m_spec : ScanSpec; m_started : bool; m_eos : bool; m_scanblock : ScanBlock; m_cur_row : list Z;
  m_range_info : RangeLocationInfo; m_cur_addr : Z; m_readahead : bool; m_fetch_outstanding : bool;
  m_start_row : list Z; m_end_row : list Z; m_end_inclusive : bool; m_rows_seen : Z }.

Definition or_default (d : list Z) (s : option (list Z)) : list Z := match s with Some s => s | None => d end.

(** What the constructor makes of the intervals: those of the specification that is
    sent, the rows of the scan, and whether the end is included. *)
Definition intervals (a : ScanArg) : result (list RowInterval * list CellInterval * list Z * list Z * bool) :=
  match sa_rows a, sa_cells a with
  | r :: _, _ =>
      let start_row := or_default [] (ra_start r) in
      let end_row := or_default END_ROW_MARKER (ra_end r) in
      if bytes_ltb end_row start_row then Throw RANGESERVER_BAD_SCAN_SPEC
      else if bytes_eqb start_row end_row && negb (ra_start_inclusive r) && negb (ra_end_inclusive r) then Throw RANGESERVER_BAD_SCAN_SPEC
      else Ok ([{| ri_start := start_row; ri_start_inclusive := ra_start_inclusive r; ri_end := end_row; ri_end_inclusive := ra_end_inclusive r |}],
               [], start_row, end_row, ra_end_inclusive r)
  | [], c :: _ =>
      let start_row := or_default [] (ca_start_row c) in
      match ca_start_column c with
      | None => Throw RANGESERVER_BAD_SCAN_SPEC
      | Some start_column =>
          let end_row := or_default END_ROW_MARKER (ca_end_row c) in
          match ca_end_column c with
          | None => Throw RANGESERVER_BAD_SCAN_SPEC
          | Some end_column =>
              if bytes_ltb end_row start_row then Throw RANGESERVER_BAD_SCAN_SPEC
              else if bytes_eqb start_row end_row && bytes_ltb end_column start_column then Throw RANGESERVER_BAD_SCAN_SPEC
              else if bytes_eqb start_row end_row && bytes_eqb start_column end_column && negb (ca_start_inclusive c) && negb (ca_end_inclusive c) then
                Throw RANGESERVER_BAD_SCAN_SPEC
              else match ca_start_row c, ca_end_row c with
                   | Some s, Some e =>
                       Ok ([], [{| ci_start_row := start_row; ci_start_column := start_column; ci_start_inclusive := ca_start_inclusive c;
                                   ci_end_row := end_row; ci_end_column := end_column; ci_end_inclusive := ca_end_inclusive c |}], s, e, true)
                   | _, _ => Fault
                   end
          end
      end
  | [], [] =>
      Ok ([{| ri_start := []; ri_start_inclusive := false; ri_end := END_ROW_MARKER; ri_end_inclusive := false |}], [], [], END_ROW_MARKER, false)
  end.

(** The constructor; [e] is what happens to be in the block's error field, and the
    range is not set yet. *)
Definition IntervalScanner_make (e : Z) (a : ScanArg) : result IntervalScanner :=
  if negb (bool_decide (sa_rows a = [])) && negb (bool_decide (sa_cells a = [])) then Throw RANGESERVER_BAD_SCAN_SPEC
  else if Nat.ltb 1 (length (sa_rows a)) then Throw FAILED_EXPECTATION
  else
    '(ris, cis, start_row, end_row, incl) <- intervals a ;;
    Ok {| m_spec := {| row_limit := sa_row_limit a; max_versions := sa_max_versions a; columns := sa_columns a; row_intervals := ris;
                       cell_intervals := cis; time_interval := sa_time a; return_deletes := sa_return_deletes a |};
          m_started := false; m_eos := false; m_scanblock := ScanBlock_make e; m_cur_row := [];
          m_range_info := {| rl_start_row := []; rl_end_row := []; rl_location := [] |}; m_cur_addr := 0;
          m_readahead := negb ((sa_row_limit a =? 1) || bytes_eqb start_row end_row);
          m_fetch_outstanding := false; m_start_row := start_row; m_end_row := end_row; m_end_inclusive := incl; m_rows_seen := 0 |}.

Section Scan.
Context {W : Type} (net : Network W).
(** The name of a column family in the schema. *)
Variable family_name : Z -> option (list Z).

Definition with_scan (b : ScanBlock) (i : RangeLocationInfo) (addr : Z) (outstanding : bool) (s : IntervalScanner) : IntervalScanner :=
  {| m_spec := m_spec s; m_started := true; m_eos := m_eos s; m_scanblock := b; m_cur_row := m_cur_row s; m_range_info := i; m_cur_addr := addr;
     m_readahead := m_readahead s; m_fetch_outstanding := outstanding; m_start_row := m_start_row s; m_end_row := m_end_row s;
     m_end_inclusive := m_end_inclusive s; m_rows_seen := m_rows_seen s |}.
Definition with_row (b : ScanBlock) (eos : bool) (row : list Z) (seen : Z) (s : IntervalScanner) : IntervalScanner :=
  {| m_spec := m_spec s; m_started := m_started s; m_eos := eos; m_scanblock := b; m_cur_row := row; m_range_info := m_range_info s; m_cur_addr := m_cur_addr s;
     m_readahead := m_readahead s; m_fetch_outstanding := m_fetch_outstanding s; m_start_row := m_start_row s; m_end_row := m_end_row s;
     m_end_inclusive := m_end_inclusive s; m_rows_seen := seen |}.

(** The first part of [find_range_and_start_scan]: from the cache or else the locator,
    again unless time is up. *)
Fixpoint locate (fuel : nat) (row_key : list Z) : io W RangeLocationInfo :=
  x <-- io_try (o <-- n_lookup net row_key ;; match o with Some i => io_ret i | None => n_find_loop net row_key false end) ;;
  match x with
  | inl i => io_ret i
  | inr c =>
      if Code_eq_dec c REQUEST_TIMEOUT then io_throw c
      else expired <-- n_expired net ;;
           if expired : bool then io_throw REQUEST_TIMEOUT
           else match fuel with O => out_of_rounds | S fuel => locate fuel row_key end
  end.

(** The loop that creates the scanner. *)
Fixpoint start_scan (fuel : nat) (row_key : list Z) (spec : ScanSpec) (i : RangeLocationInfo) : io W (RangeLocationInfo * Z * ScanBlock) :=
  match n_addr net (rl_location i) with
  | None => io_throw INVALID_METADATA
  | Some addr =>
      x <-- io_try (n_create net addr (rl_start_row i) (rl_end_row i) spec) ;;
      match x with
      | inl b => io_ret (i, addr, b)
      | inr c =>
          short <-- n_short net ;;
          if short : bool then io_throw c
          else i <-- n_find_loop net row_key true ;;
               match fuel with O => out_of_rounds | S fuel => start_scan fuel row_key spec i end
      end
  end.

(** The next block asked for ahead. *)
Definition read_ahead (addr : Z) (b : ScanBlock) (readahead : bool) : io W bool :=
  if readahead && negb (sb_eos b) then _ <-- n_send_fetch net addr (m_scanner_id b) ;; io_ret true else io_ret false.

Definition find_range_and_start_scan (fuel : nat) (row_key : list Z) (s : IntervalScanner) : io W IntervalScanner :=
  i <-- locate fuel row_key ;;
  r <-- start_scan fuel row_key (m_spec s) i ;;
  let '(i, addr, b) := r in
  outstanding <-- read_ahead addr b (m_readahead s) ;;
  io_ret (with_scan b i addr outstanding s).

(** [destroy_scanner], and the scan is over. *)
Definition finish (b : ScanBlock) (row : list Z) (seen : Z) (s : IntervalScanner) : io W IntervalScanner :=
  _ <-- n_destroy net (m_cur_addr s) (m_scanner_id b) ;; io_ret (with_row b true row seen s).

(** The loop of [next] until the block has a pair; [false] at the end of the scan. *)
Fixpoint fill_up (fuel : nat) (s : IntervalScanner) : io W (bool * IntervalScanner) :=
  let b := m_scanblock s in
  if sb_more b then io_ret (true, s)
  else match fuel with
  | O => out_of_rounds
  | S fuel' =>
      if sb_eos b then
        if bytes_eqb (rl_end_row (m_range_info s)) END_ROW_MARKER || bytes_leb (m_end_row s) (rl_end_row (m_range_info s)) then
          s <-- finish b (m_cur_row s) (m_rows_seen s) s ;; io_ret (false, s)
        else s <-- find_range_and_start_scan fuel (rl_end_row (m_range_info s) ++ [1]) s ;; fill_up fuel' s
      else if m_fetch_outstanding s then
        b <-- n_wait net b ;;
        outstanding <-- read_ahead (m_cur_addr s) b (m_readahead s) ;;
        fill_up fuel' (with_scan b (m_range_info s) (m_cur_addr s) outstanding s)
      else
        b <-- n_fetch net (m_cur_addr s) (m_scanner_id b) b ;;
        fill_up fuel' (with_scan b (m_range_info s) (m_cur_addr s) false s)
  end.

Record Cell := { c_row_key : list Z; c_column_family : option (list Z); c_column_qualifier : list Z; c_timestamp : Z; c_value : list Z; c_flag : Z }.

(** A C string at a pointer. *)
Definition string_at (p : list Z) : result (list Z) := match cstr p with Some s => Ok s | None => Fault end.

Definition beyond_end (s : IntervalScanner) (row : list Z) : bool :=
  if m_end_inclusive s then bytes_ltb (m_end_row s) row else bytes_leb (m_end_row s) row.

(** What [next] does with a pair. *)
Definition take_pair (x : list Z * list Z) (b : ScanBlock) (s : IntervalScanner) : io W (option Cell * IntervalScanner) :=
  o <-- io_of (load (fst x)) ;;
  match o with
  | None => io_throw BAD_KEY
  | Some k =>
      r <-- io_of (string_at (row k)) ;;
      if bytes_eqb r END_ROW_MARKER || beyond_end s r then s <-- finish b (m_cur_row s) (m_rows_seen s) s ;; io_ret (None, s)
      else
        let seen := if bytes_eqb (m_cur_row s) r then m_rows_seen s else i32 (m_rows_seen s + 1) in
        if negb (bytes_eqb (m_cur_row s) r) && (0 <? row_limit (m_spec s)) && (row_limit (m_spec s) <? seen) then
          s <-- finish b r seen s ;; io_ret (None, s)
        else
          q <-- io_of (string_at (column_qualifier k)) ;;
          v <-- io_of ('(n, p) <- decode_length (Some (snd x)) ;; content n p) ;;
          io_ret (Some {| c_row_key := r; c_column_family := family_name (column_family_code k); c_column_qualifier := q;
                          c_timestamp := u64 (timestamp k); c_value := v; c_flag := flag k |}, with_row b (m_eos s) r seen s)
  end.

Definition next_cell (fuel : nat) (s : IntervalScanner) : io W (option Cell * IntervalScanner) :=
  if m_eos s then io_ret (None, s)
  else
    s <-- (if m_started s then io_ret s else find_range_and_start_scan fuel (m_start_row s) s) ;;
    r <-- fill_up fuel s ;;
    let '(more, s) := r in
    if negb more then io_ret (None, s)
    else
      r <-- io_of (next_pair (m_scanblock s)) ;;
      match r with
      | (Some x, b) => take_pair x b s
      | (None, b) => s <-- finish b (m_cur_row s) (m_rows_seen s) s ;; io_ret (None, s)
      end.

(** A client that reads until the end. *)
Fixpoint read_cells (fuel n : nat) (s : IntervalScanner) : io W (list Cell * IntervalScanner) :=
  match n with
  | O => out_of_rounds
  | S n =>
      r <-- next_cell fuel s ;;
      match r with
      | (None, s) => io_ret ([], s)
      | (Some c, s) => r <-- read_cells fuel n s ;; io_ret (c :: fst r, snd r)
      end
  end.

End Scan.
