(* ===== verification/IntervalScan.v ===== *)
(** * What an interval scan returns

    [Serves] states what [IntervalScanner] relies on: the table is divided into ranges,
    the locator finds the one a row is in, and the range servers give the cells of a
    range in blocks.  Against it the scan is shown to return the cells of all the ranges
    of its interval, in order, up to its end row and row limit. *)
Set Warnings "-notation-incompatible-prefix,-clear-no-such-hyp".
From S2P Require Import Prelude Errors Serialization ByteString Key Deletes CellCache Scanner MergeScanner Wire CommBuf ScanBlock LinkedList LocationCache IntervalScanner.
From stdpp Require Import base list.
From Stdlib Require Import ZArith Lia.
Open Scope Z_scope.
Open Scope result_scope.
Open Scope io_scope.

(** ** The interface *)

(** The rows a range is responsible for; the first range also for the empty row. *)
Definition covers (r : RangeLocationInfo) (row : list Z) : Prop :=
  (bytes_lt (rl_start_row r) row \/ row = [] /\ rl_start_row r = []) /\ bytes_leb row (rl_end_row r) = true.

(** Ranges that follow one another up to the end of the table. *)
Fixpoint divided (l : list RangeLocationInfo) : Prop :=
  match l with
  | [] => False
  | [r] => rl_end_row r = END_ROW_MARKER
  | r :: (r' :: _) as l => rl_start_row r' = rl_end_row r /\ rl_end_row r <> [] /\ bytes_lt (rl_end_row r) (rl_end_row r') /\
                           no_nul (rl_end_row r') /\ wf_bytes (rl_end_row r') /\ rl_end_row r <> END_ROW_MARKER /\ divided l
  end.

(** A block with the first of the cells [l]; a scanner is left open for the others. *)
Definition gives (opened : Z -> list cell -> Prop) (b : ScanBlock) (l : list cell) : Prop :=
  m_error b = code_value OK_ /\ exists l1 l2, Forall2 points (m_iter b) l1 /\ l = l1 ++ l2 /\
    if sb_eos b then l2 = [] else l1 <> [] /\ opened (m_scanner_id b) l2.

Class Serves {W : Type} (net : Network W) (spec : ScanSpec) := {
  sv_table : list RangeLocationInfo;
  sv_cells : RangeLocationInfo -> list cell;
  sv_ok : W -> Prop;
  sv_open : W -> Z -> Z -> list cell -> Prop;
  sv_coming : W -> Z -> list cell -> Prop;
  sv_divided : divided sv_table;
  sv_locate w r row : sv_ok w -> r ∈ sv_table -> covers r row -> exists o w1, n_lookup net row w = Some (Ok o, w1) /\ sv_ok w1 /\
    (o = Some r \/ o = None /\ exists w2, n_find_loop net row false w1 = Some (Ok r, w2) /\ sv_ok w2);
  sv_addr r : r ∈ sv_table -> exists a, n_addr net (rl_location r) = Some a;
  sv_create w r a : sv_ok w -> r ∈ sv_table -> n_addr net (rl_location r) = Some a ->
    exists b w', n_create net a (rl_start_row r) (rl_end_row r) spec w = Some (Ok b, w') /\ sv_ok w' /\ gives (sv_open w' a) b (sv_cells r);
  sv_fetch w a i l b : sv_ok w -> sv_open w a i l ->
    exists b' w', n_fetch net a i b w = Some (Ok b', w') /\ sv_ok w' /\ gives (sv_open w' a) b' l;
  sv_send w a i l : sv_ok w -> sv_open w a i l -> exists w', n_send_fetch net a i w = Some (Ok tt, w') /\ sv_ok w' /\ sv_coming w' a l;
  sv_wait w a l b : sv_ok w -> sv_coming w a l ->
    exists b' w', n_wait net b w = Some (Ok b', w') /\ sv_ok w' /\ gives (sv_open w' a) b' l;
  sv_destroy w a i : sv_ok w -> exists w', n_destroy net a i w = Some (Ok tt, w') /\ sv_ok w' }.

(** ** The result *)

(** The ranges a scan to [end_row] visits. *)
Definition last_range (end_row : list Z) (r : RangeLocationInfo) : bool :=
  bytes_eqb (rl_end_row r) END_ROW_MARKER || bytes_leb end_row (rl_end_row r).
Fixpoint visited (end_row : list Z) (l : list RangeLocationInfo) : list RangeLocationInfo :=
  match l with
  | [] => []
  | r :: l => r :: if last_range end_row r then [] else visited end_row l
  end.

(** The cells up to the end row and the row limit; [row] is that of the cell before and
    [seen] the number of rows so far. *)
Fixpoint wanted_cells (s : IntervalScanner) (row : list Z) (seen : Z) (l : list cell) : list (KeyComps * list Z) :=
  match l with
  | [] => []
  | c :: l =>
      match parse_key (fst c) with
      | None => []
      | Some k =>
          let seen := if bytes_eqb row (k_row k) then seen else i32 (seen + 1) in
          if bytes_eqb (k_row k) END_ROW_MARKER || beyond_end s (k_row k) then []
          else if negb (bytes_eqb row (k_row k)) && (0 <? row_limit (m_spec s)) && (row_limit (m_spec s) <? seen) then []
          else (k, snd c) :: wanted_cells s (k_row k) seen l
      end
  end.

Definition cell_view (family_name : Z -> option (list Z)) (x : KeyComps * list Z) : Cell :=
  let k := fst x in
  {| c_row_key := k_row k; c_column_family := family_name (k_family k); c_column_qualifier := k_qual k; c_timestamp := u64 (k_ts k);
     c_value := snd x; c_flag := k_flag k |}.

(** ** Rows *)

(** The row behind the end of a range is in the next one. *)
Lemma next_row a b : no_nul b -> wf_bytes b -> bytes_lt a b -> bytes_leb (a ++ [1]) b = true.
Proof.
  revert b. unfold bytes_leb, bytes_lt. induction a as [|x a IH]; intros [|y b] Hn Hw; cbn [app bytes_cmp]; try discriminate.
  - intros _. inversion_clear Hn. inversion_clear Hw. unfold is_byte, in_range in *. destruct (Z.compare_spec 1 y); [now destruct b|reflexivity|lia].
  - inv Hn. inv Hw. destruct (x ?= y); [|reflexivity|discriminate]. now apply IH.
Qed.

Lemma row_behind a : bytes_lt a (a ++ [1]).
Proof. unfold bytes_lt. induction a as [|x a IH]; [reflexivity|]. cbn. now rewrite Z.compare_refl. Qed.

Lemma next_covered r r' : rl_start_row r' = rl_end_row r -> bytes_lt (rl_end_row r) (rl_end_row r') -> no_nul (rl_end_row r') -> wf_bytes (rl_end_row r') ->
  covers r' (rl_end_row r ++ [1]).
Proof. intros E Hl Hn Hw. split; [left; rewrite E; apply row_behind|]. now apply next_row. Qed.

Lemma divided_tail l l' : divided (l ++ l') -> l' <> [] -> divided l'.
Proof.
  induction l as [|r l IH]; [easy|]. intros Hd Hl. apply IH; [|exact Hl]. cbn in Hd. destruct (l ++ l') eqn:E; [|now repeat apply proj2 in Hd].
  destruct l; [cbn in E; congruence|discriminate].
Qed.

(** ** The scan *)

Section Scan.
Context {W : Type} (net : Network W) (spec : ScanSpec) {SV : Serves net spec} (family_name : Z -> option (list Z)).

Lemma io_bind_ok {A B} (m : io W A) (f : A -> io W B) w a w' : m w = Some (Ok a, w') -> io_bind m f w = f a w'.
Proof. unfold io_bind. now intros ->. Qed.

Lemma locate_ok fuel row r w : sv_ok w -> r ∈ sv_table -> covers r row -> exists w', locate net fuel row w = Some (Ok r, w') /\ sv_ok w'.
Proof.
  intros Hw Hr Hc. destruct (sv_locate w r row Hw Hr Hc) as (o & w1 & E1 & Hw1 & Ho).
  assert (X : exists w', io_bind (n_lookup net row) (fun o => match o with Some i => io_ret i | None => n_find_loop net row false end) w = Some (Ok r, w') /\ sv_ok w').
  { rewrite (io_bind_ok _ _ _ _ _ E1). destruct Ho as [->|(-> & w2 & E2 & Hw2)]; [exists w1|exists w2]; auto. }
  destruct X as (w' & E & Hw'). exists w'. split; [|exact Hw']. destruct fuel; cbn [locate]; (erewrite io_bind_ok; [|unfold io_try; rewrite E; reflexivity]); reflexivity.
Qed.

Lemma start_ok fuel row r w : sv_ok w -> r ∈ sv_table ->
  exists a b w', start_scan net fuel row spec r w = Some (Ok (r, a, b), w') /\ sv_ok w' /\ gives (sv_open w' a) b (sv_cells r).
Proof.
  intros Hw Hr. destruct (sv_addr r Hr) as [a Ha]. destruct (sv_create w r a Hw Hr Ha) as (b & w' & E & Hw' & G). exists a, b, w'.
  split; [|auto]. destruct fuel; cbn [start_scan]; rewrite Ha; (erewrite io_bind_ok; [|unfold io_try; rewrite E; reflexivity]); reflexivity.
Qed.

(** The cells [l] of the range the scanner is in are those of its block and what the
    server or the network has of them. *)
Definition held (w : W) (a : Z) (b : ScanBlock) (outstanding : bool) (l : list cell) : Prop :=
  m_error b = code_value OK_ /\ exists l1 l2, Forall2 points (m_iter b) l1 /\ l = l1 ++ l2 /\
    if sb_eos b then l2 = [] else if outstanding then sv_coming w a l2 else sv_open w a (m_scanner_id b) l2.

(** A new block has cells, or is the last one. *)
Definition fresh_block (b : ScanBlock) : Prop := sb_eos b = true \/ sb_more b = true.

Lemma read_ahead_ok a b ra l w : sv_ok w -> gives (sv_open w a) b l ->
  exists o w', read_ahead net a b ra w = Some (Ok o, w') /\ sv_ok w' /\ held w' a b o l /\ fresh_block b.
Proof.
  intros Hw (He & l1 & l2 & Hp & El & Hl). unfold read_ahead, held, fresh_block. destruct (sb_eos b).
  - rewrite andb_false_r. exists false, w. unfold io_ret. eauto 10.
  - destruct Hl as [Hne Ho]. assert (Hm : sb_more b = true) by (unfold sb_more; destruct (m_iter b); [inversion Hp; congruence|reflexivity]).
    destruct ra; cbn [andb negb].
    + destruct (sv_send w a (m_scanner_id b) l2 Hw Ho) as (w' & E & Hw' & Hc). exists true, w'. rewrite (io_bind_ok _ _ _ _ _ E). unfold io_ret. eauto 10.
    + exists false, w. unfold io_ret. eauto 10.
Qed.

(** What the scanner keeps while it goes through blocks and ranges. *)
Record scan_alike (s s' : IntervalScanner) : Prop := {
  a_spec : m_spec s' = m_spec s; a_row : m_cur_row s' = m_cur_row s; a_end : m_end_row s' = m_end_row s;
  a_incl : m_end_inclusive s' = m_end_inclusive s; a_seen : m_rows_seen s' = m_rows_seen s }.

Lemma scan_alike_refl s : scan_alike s s.
Proof. split; reflexivity. Qed.

Lemma scan_alike_trans s s' s'' : scan_alike s s' -> scan_alike s' s'' -> scan_alike s s''.
Proof. intros [] []. split; congruence. Qed.

Definition later (end_row : list Z) (r : RangeLocationInfo) (after : list RangeLocationInfo) : list cell :=
  concat (map sv_cells (if last_range end_row r then [] else visited end_row after)).

(** The scanner is in the range [r], with [after] behind it, and has the cells [L] to go
    through. *)
Record inside (w : W) (s : IntervalScanner) (after : list RangeLocationInfo) (L : list cell) : Prop := {
  in_ok : sv_ok w;
  in_started : m_started s = true;
  in_eos : m_eos s = false;
  in_spec : m_spec s = spec;
  in_table : exists before, sv_table = before ++ m_range_info s :: after;
  in_held : exists l, held w (m_cur_addr s) (m_scanblock s) (m_fetch_outstanding s) l /\ L = l ++ later (m_end_row s) (m_range_info s) after }.

Lemma find_range_ok fuel row s w before r after : sv_ok w -> m_eos s = false -> m_spec s = spec -> sv_table = before ++ r :: after -> covers r row ->
  exists s' w', find_range_and_start_scan net fuel row s w = Some (Ok s', w') /\ scan_alike s s' /\ fresh_block (m_scanblock s') /\ m_range_info s' = r /\
    inside w' s' after (concat (map sv_cells (visited (m_end_row s) (r :: after)))).
Proof.
  intros Hw He Hs Ht Hc. assert (Hr : r ∈ sv_table) by (rewrite Ht, elem_of_app; right; apply list_elem_of_here).
  destruct (locate_ok fuel row r w Hw Hr Hc) as (w1 & E1 & Hw1). destruct (start_ok fuel row r w1 Hw1 Hr) as (a & b & w2 & E2 & Hw2 & G).
  destruct (read_ahead_ok a b (m_readahead s) _ w2 Hw2 G) as (o & w3 & E3 & Hw3 & Hh & Hf).
  exists (with_scan b r a o s), w3. unfold find_range_and_start_scan. rewrite (io_bind_ok _ _ _ _ _ E1), Hs, (io_bind_ok _ _ _ _ _ E2), (io_bind_ok _ _ _ _ _ E3).
  split; [reflexivity|]. split; [split; reflexivity|]. split; [exact Hf|]. split; [reflexivity|]. split; cbn; try assumption; eauto.
Qed.

(** One round of the loop on a block that is used up: the end, the next block or the
    next range. *)
Lemma last_or_next s after before : sv_table = before ++ m_range_info s :: after ->
  last_range (m_end_row s) (m_range_info s) = true \/
  exists r' after', after = r' :: after' /\ covers r' (rl_end_row (m_range_info s) ++ [1]) /\ last_range (m_end_row s) (m_range_info s) = false.
Proof.
  intros Ht. destruct (last_range (m_end_row s) (m_range_info s)) eqn:E; [now left|right].
  pose proof sv_divided as D. rewrite Ht in D. apply divided_tail in D; [|easy]. destruct after as [|r' after].
  - unfold last_range in E. apply orb_false_iff in E as [E _]. apply bytes_eqb_neq in E. cbn in D. congruence.
  - exists r', after. destruct D as (D1 & _ & D2 & D3 & D4 & D5 & _). split; [reflexivity|]. split; [now apply next_covered|reflexivity].
Qed.

Lemma fill_up_ok fuel : forall s w after L, inside w s after L ->
  (length after + (if sb_more (m_scanblock s) || sb_eos (m_scanblock s) then 0 else 1) < fuel)%nat ->
  exists s' w', fill_up net fuel s w = Some (Ok (match L with [] => false | _ => true end, s'), w') /\ scan_alike s s' /\
    match L with
    | [] => m_eos s' = true /\ sv_ok w'
    | _ => sb_more (m_scanblock s') = true /\ exists after', inside w' s' after' L /\ (length after' <= length after)%nat
    end.
Proof.
  induction fuel as [|fuel IH]; intros s w after L I Hf; [lia|]. pose proof I as [Hw Hst He Hsp [before Ht] (l & (Herr & l1 & l2 & Hp & El & Hrest) & EL)].
  cbn [fill_up]. destruct (sb_more (m_scanblock s)) eqn:Em.
  { assert (Hne : L <> []). { unfold sb_more in Em. destruct (m_iter (m_scanblock s)); [discriminate|]. inversion Hp; subst. discriminate. }
    exists s, w. destruct L as [|c L]; [easy|]. split; [reflexivity|]. split; [apply scan_alike_refl|]. split; [exact Em|]. exists after. auto. }
  assert (l1 = []) as ->. { unfold sb_more in Em. destruct (m_iter (m_scanblock s)); [now inversion Hp|discriminate]. }
  cbn [app] in El. subst l2. destruct (sb_eos (m_scanblock s)) eqn:Ee.
  - subst l. cbn [app] in EL. fold (last_range (m_end_row s) (m_range_info s)).
    destruct (last_or_next s after before Ht) as [El|(r' & after' & -> & Hc & El)]; rewrite El; unfold later in EL; rewrite El in EL; cbn [map concat] in EL.
    + subst L. destruct (sv_destroy w (m_cur_addr s) (m_scanner_id (m_scanblock s)) Hw) as (w' & Ed & Hw').
      eexists _, w'. unfold finish. unfold io_bind. rewrite Ed. split; [reflexivity|]. split; [split; reflexivity|]. auto.
    + assert (Ht' : sv_table = (before ++ [m_range_info s]) ++ r' :: after') by (rewrite <- app_assoc; exact Ht).
      destruct (find_range_ok (S fuel) (rl_end_row (m_range_info s) ++ [1]) s w _ r' after' Hw He Hsp Ht' Hc) as (s1 & w1 & E1 & A1 & F1 & R1 & I1).
      rewrite <- EL in I1. rewrite (io_bind_ok _ _ _ _ _ E1).
      destruct (IH s1 w1 after' L I1) as (s2 & w2 & E2 & A2 & R2).
      { destruct F1 as [F1|F1]; rewrite F1, ?orb_true_r; cbn [length orb] in *; lia. }
      exists s2, w2. split; [exact E2|]. split; [exact (scan_alike_trans _ _ _ A1 A2)|]. destruct L; [exact R2|]. destruct R2 as (M & af & I2 & Hl).
      split; [exact M|]. exists af. split; [exact I2|]. cbn. lia.
  - assert (Hf' : (length after < fuel)%nat) by (cbn in Hf; lia). clear Hf.
    assert (Next : forall b w1, gives (sv_open w1 (m_cur_addr s)) b l -> sv_ok w1 -> forall ra, exists s2 w2,
      (o <-- read_ahead net (m_cur_addr s) b ra ;; fill_up net fuel (with_scan b (m_range_info s) (m_cur_addr s) o s)) w1 =
        Some (Ok (match L with [] => false | _ => true end, s2), w2) /\ scan_alike s s2 /\
      match L with
      | [] => m_eos s2 = true /\ sv_ok w2
      | _ => sb_more (m_scanblock s2) = true /\ exists after', inside w2 s2 after' L /\ (length after' <= length after)%nat
      end).
    { intros b w1 G Hw1 ra. destruct (read_ahead_ok _ b ra l w1 Hw1 G) as (o & w2 & E2 & Hw2 & Hh & Hfb).
      destruct (IH (with_scan b (m_range_info s) (m_cur_addr s) o s) w2 after L) as (s3 & w3 & E3 & A3 & R3).
      - split; cbn; eauto.
      - destruct Hfb as [F|F]; cbn; rewrite F, ?orb_true_r; cbn; lia.
      - exists s3, w3. rewrite (io_bind_ok _ _ _ _ _ E2). split; [exact E3|]. split; [|exact R3].
        eapply scan_alike_trans; [|exact A3]. split; reflexivity. }
    destruct (m_fetch_outstanding s).
    + destruct (sv_wait w _ _ (m_scanblock s) Hw Hrest) as (b & w1 & E1 & Hw1 & G). rewrite (io_bind_ok _ _ _ _ _ E1).
      destruct (Next b w1 G Hw1 (m_readahead s)) as (s2 & w2 & E2 & R). exists s2, w2. auto.
    + destruct (sv_fetch w _ _ _ (m_scanblock s) Hw Hrest) as (b & w1 & E1 & Hw1 & G). rewrite (io_bind_ok _ _ _ _ _ E1).
      destruct (Next b w1 G Hw1 false) as (s2 & w2 & E2 & R). exists s2, w2.
      split; [exact E2|exact R].
Qed.

(** ** Cells *)

Lemma load_points x c k : points x c -> fst c = pack k -> wf_comps k ->
  exists K, load (fst x) = Ok (Some K) /\ string_at (row K) = Ok (k_row k) /\ string_at (column_qualifier K) = Ok (k_qual k) /\
    timestamp K = k_ts k /\ column_family_code K = k_family k /\ flag K = k_flag k.
Proof.
  intros [(rest & l & El & Em & Hl) _] Ek (Hr & _ & _ & Hq & _ & _ & Ht). rewrite Em, Ek. rewrite Ek in El, Hl. unfold pack in El, Hl. rewrite zlen_write_key in El, Hl.
  unfold pack. rewrite (load_packed l _ _ _ _ _ rest El Hl Hr Hq) by (now apply wrap_range). eexists. split; [reflexivity|].
  cbn [row column_qualifier timestamp column_family_code flag qual_or_empty]. unfold string_at. rewrite write_key_shape, <- app_assoc. cbn [app qual_or_empty].
  rewrite !cstr_app, signed_u64 by assumption. auto.
Qed.

Lemma good_parse c : good_cell c -> exists k, parse_key (fst c) = Some k /\ fst c = pack k /\ wf_comps k.
Proof. intros (k & Hk & E). exists k. rewrite E. split; [now apply parse_pack|auto]. Qed.

(** What [take_pair] does is what [wanted_cells] says of the first cell. *)
Lemma take_pair_ok x c b s w L : points x c -> good_cell c -> sv_ok w ->
  exists s' w', take_pair net family_name x b s w =
      Some (Ok (option_map (cell_view family_name) (hd_error (wanted_cells s (m_cur_row s) (m_rows_seen s) (c :: L))), s'), w') /\
    match wanted_cells s (m_cur_row s) (m_rows_seen s) (c :: L) with
    | [] => m_eos s' = true /\ sv_ok w'
    | _ :: l => w' = w /\ exists row seen, s' = with_row b (m_eos s) row seen s /\ l = wanted_cells s row seen L
    end.
Proof.
  intros Hp Hg Hw. destruct (good_parse c Hg) as (k & Ek & Epk & Hk). destruct (load_points x c k Hp Epk Hk) as (K & El & Er & Eq & Et & Ef & Efl).
  assert (Fin : forall row seen, exists s' w', (s <-- finish net b row seen s ;; io_ret (None, s)) w = Some (Ok (None : option Cell, s'), w') /\ m_eos s' = true /\ sv_ok w').
  { intros row seen. destruct (sv_destroy w (m_cur_addr s) (m_scanner_id b) Hw) as (w' & Ed & Hw'). eexists _, w'. unfold finish, io_bind. rewrite Ed. split; [reflexivity|]. auto. }
  cbn [wanted_cells]. rewrite Ek. unfold take_pair. rewrite El. change (io_of (Ok ?a)) with (@io_ret W _ a). unfold io_ret at 1. unfold io_bind at 1.
  rewrite Er. unfold io_bind at 1. unfold io_of at 1.
  destruct (bytes_eqb (k_row k) END_ROW_MARKER || beyond_end s (k_row k)); [destruct (Fin (m_cur_row s) (m_rows_seen s)) as (s' & w' & E & R); exists s', w'; auto|].
  set (seen := if bytes_eqb (m_cur_row s) (k_row k) then m_rows_seen s else i32 (m_rows_seen s + 1)).
  destruct (negb (bytes_eqb (m_cur_row s) (k_row k)) && (0 <? row_limit (m_spec s)) && (row_limit (m_spec s) <? seen));
    [destruct (Fin (k_row k) seen) as (s' & w' & E & R); exists s', w'; auto|].
  rewrite Eq. destruct Hp as [_ [r Hv]]. unfold decode_length. rewrite (holds_decode _ _ _ Hv). cbn [bind]. rewrite content_app by reflexivity.
  eexists _, w. split; [|split; [reflexivity|]; exists (k_row k), seen; auto]. unfold io_bind, io_of, io_ret. cbn [hd_error option_map]. unfold cell_view. cbn [fst snd].
  rewrite Et, Ef, Efl. reflexivity.
Qed.

Lemma wanted_alike s s' l : m_spec s' = m_spec s -> m_end_row s' = m_end_row s -> m_end_inclusive s' = m_end_inclusive s ->
  forall row seen, wanted_cells s' row seen l = wanted_cells s row seen l.
Proof.
  intros E1 E2 E3. induction l as [|c l IH]; intros row seen; [reflexivity|]. cbn [wanted_cells]. destruct (parse_key (fst c)); [|reflexivity].
  unfold beyond_end. rewrite E1, E2, E3, IH. reflexivity.
Qed.

(** The pair at the iterator. *)
Lemma take_first w s after L : inside w s after L -> sb_more (m_scanblock s) = true ->
  exists x b c L', next_pair (m_scanblock s) = Ok (Some x, b) /\ points x c /\ L = c :: L' /\
    forall row seen, inside w (with_row b false row seen s) after L'.
Proof.
  intros [Hw Hst He Hsp Ht (l & (Herr & l1 & l2 & Hp & El & Hr) & EL)] Hm. unfold sb_more in Hm. unfold next_pair. rewrite Herr, Z.eqb_refl. cbn [negb].
  destruct (m_iter (m_scanblock s)) as [|x it] eqn:Ei; [discriminate|]. inversion Hp as [|? c ? l1' Hx Hp' E1 E2]. subst l1 l L.
  eexists x, _, c, (l1' ++ l2 ++ later (m_end_row s) (m_range_info s) after). split; [reflexivity|]. split; [exact Hx|]. split; [cbn; now rewrite <- app_assoc|].
  intros row seen. split; cbn; try assumption; try reflexivity. exists (l1' ++ l2). split; [|now rewrite <- app_assoc]. split; [reflexivity|]. exists l1', l2. auto.
Qed.

Lemma next_ok fuel s w after L : inside w s after L -> Forall good_cell L -> (length after + 1 < fuel)%nat ->
  exists s' w', next_cell net family_name fuel s w =
      Some (Ok (option_map (cell_view family_name) (hd_error (wanted_cells s (m_cur_row s) (m_rows_seen s) L)), s'), w') /\
    match wanted_cells s (m_cur_row s) (m_rows_seen s) L with
    | [] => m_eos s' = true /\ sv_ok w'
    | _ :: l => exists c L' after', L = c :: L' /\ inside w' s' after' L' /\ (length after' <= length after)%nat /\
        l = wanted_cells s' (m_cur_row s') (m_rows_seen s') L'
    end.
Proof.
  intros I Hg Hf. unfold next_cell. rewrite (in_eos _ _ _ _ I), (in_started _ _ _ _ I). rewrite (io_bind_ok (io_ret s) _ w s w eq_refl).
  destruct (fill_up_ok fuel s w after L I) as (s1 & w1 & E1 & A & R); [destruct (sb_more _ || sb_eos _); lia|].
  rewrite (io_bind_ok _ _ _ _ _ E1). destruct L as [|c0 L0]; [cbn [negb]; exists s1, w1; auto|]. cbn [negb].
  destruct R as (Hm & after1 & I1 & Hl1). destruct (take_first _ _ _ _ I1 Hm) as (x & b & c & L' & En & Hx & [= -> ->] & Hin).
  inversion_clear Hg as [|? ? Hc HL].
  destruct (take_pair_ok x c b s1 w1 L' Hx Hc (in_ok _ _ _ _ I1)) as (s2 & w2 & E2 & R2).
  rewrite En, (io_bind_ok (io_of _) _ w1 (Some x, b) w1 eq_refl).
  destruct A as [A1 A2 A3 A4 A5]. rewrite A2, A5, (wanted_alike s s1) in E2, R2 by assumption.
  exists s2, w2. split; [exact E2|]. destruct (wanted_cells s (m_cur_row s) (m_rows_seen s) (c :: L')) as [|y l]; [exact R2|].
  destruct R2 as (-> & row & seen & -> & El). exists c, L', after1. split; [reflexivity|]. rewrite (in_eos _ _ _ _ I1). split; [apply Hin|]. split; [exact Hl1|].
  rewrite El. cbn [m_cur_row m_rows_seen with_row]. symmetry. now apply wanted_alike.
Qed.

Lemma read_cells_ok fuel L : forall n s w after, inside w s after L -> Forall good_cell L -> (length after + 1 < fuel)%nat -> (length L < n)%nat ->
  exists s' w', read_cells net family_name fuel n s w =
      Some (Ok (map (cell_view family_name) (wanted_cells s (m_cur_row s) (m_rows_seen s) L), s'), w') /\ m_eos s' = true /\ sv_ok w'.
Proof.
  induction L as [|c L IH]; intros n s w after I Hg Hf Hn; (destruct n as [|n]; [cbn in Hn; lia|]); cbn [read_cells];
    destruct (next_ok fuel s w after _ I Hg Hf) as (s1 & w1 & E1 & R1); rewrite (io_bind_ok _ _ _ _ _ E1).
  - cbn in *. exists s1, w1. auto.
  - destruct (wanted_cells s (m_cur_row s) (m_rows_seen s) (c :: L)) as [|y l]; cbn [hd_error option_map]; [exists s1, w1; auto|].
    destruct R1 as (c' & L' & after1 & [= <- <-] & I1 & Hl1 & El). inversion_clear Hg as [|? ? _ Hg'].
    destruct (IH n s1 w1 after1 I1 Hg' ltac:(lia) ltac:(cbn in Hn; lia)) as (s2 & w2 & E2 & R2).
    exists s2, w2. rewrite (io_bind_ok _ _ _ _ _ E2). split; [|exact R2]. cbn [fst snd map]. now rewrite El.
Qed.

(** When nothing is beyond the end row and there is no limit, everything is wanted. *)
Lemma wanted_all s l : row_limit (m_spec s) <= 0 ->
  Forall (fun c => exists k, parse_key (fst c) = Some k /\ k_row k <> END_ROW_MARKER /\ beyond_end s (k_row k) = false) l ->
  forall row seen, map fst (wanted_cells s row seen l) = omap (fun c => parse_key (fst c)) l /\ map snd (wanted_cells s row seen l) = map snd l.
Proof.
  intros Hl. induction 1 as [|c l (k & Ek & Hr & Hp) Hs IH]; intros row seen; [auto|]. cbn. rewrite Ek, Hp. apply bytes_eqb_neq in Hr. rewrite Hr. cbn [orb].
  rewrite (proj2 (Z.ltb_ge 0 (row_limit (m_spec s)))) by lia. rewrite andb_false_r. cbn [andb map fst snd].
  destruct (IH (k_row k) (if bytes_eqb row (k_row k) then seen else i32 (seen + 1))) as [-> ->]. auto.
Qed.
End Scan.

Lemma IntervalScanner_made e a s : IntervalScanner_make e a = Ok s -> m_started s = false /\ m_eos s = false /\ m_cur_row s = [] /\ m_rows_seen s = 0.
Proof.
  unfold IntervalScanner_make. destruct (negb (bool_decide (sa_rows a = [])) && negb (bool_decide (sa_cells a = []))); [discriminate|].
  destruct (Nat.ltb 1 (length (sa_rows a))); [discriminate|]. intros E. apply bind_ok in E as ([[[[? ?] ?] ?] ?] & _ & [= <-]). auto.
Qed.

Lemma io_bind_same {W A B} (m m' : io W A) (f : A -> io W B) w w' : m w = m' w' -> io_bind m f w = io_bind m' f w'.
Proof. unfold io_bind. now intros ->. Qed.

(** C11. A scan of an interval of rows returns what the range servers have in it.  The
    client starts in the range its first row is in, takes the blocks of that range, with
    or without asking for the next one ahead, and goes on to the range behind it, until a
    range ends at or behind the end of the interval.  What [next] returns until it
    returns false are the cells of all these ranges in order, cut off at the first row
    that is past the end row or, with a row limit, at the first row beyond it; rows are
    counted across ranges.  Every call of [next] returns, after at most as many rounds as
    there are ranges and two. *)
Theorem interval_scan_correct {W : Type} (net : Network W) (e : Z) (a : ScanArg) (s : IntervalScanner) {SV : Serves net (m_spec s)}
  family_name fuel n w before r after :
  IntervalScanner_make e a = Ok s -> sv_ok w -> sv_table = before ++ r :: after -> covers r (m_start_row s) ->
  Forall good_cell (concat (map sv_cells (visited (m_end_row s) (r :: after)))) ->
  (length after + 1 < fuel)%nat -> (length (concat (map sv_cells (visited (m_end_row s) (r :: after)))) < n)%nat ->
  exists s' w', read_cells net family_name fuel n s w =
      Some (Ok (map (cell_view family_name) (wanted_cells s [] 0 (concat (map sv_cells (visited (m_end_row s) (r :: after))))), s'), w') /\
    m_eos s' = true /\ sv_ok w'.
Proof.
  intros Hmake Hw Ht Hc Hg Hf Hn. destruct (IntervalScanner_made _ _ _ Hmake) as (E1 & E2 & E3 & E4).
  destruct (find_range_ok net (m_spec s) fuel (m_start_row s) s w before r after Hw E2 eq_refl Ht Hc) as (s1 & w1 & Ef & A & _ & _ & I).
  destruct (read_cells_ok net (m_spec s) family_name fuel _ n s1 w1 after I Hg Hf Hn) as (s2 & w2 & Er & R).
  exists s2, w2. split; [|exact R]. destruct A as [A1 A2 A3 A4 A5]. rewrite A2, A5, E3, E4, (wanted_alike s s1) in Er by assumption. rewrite <- Er.
  destruct n as [|n]; [lia|]. cbn [read_cells]. apply io_bind_same. unfold next_cell. rewrite E1, E2, (in_eos _ _ _ _ _ _ I), (in_started _ _ _ _ _ _ I).
  now rewrite (io_bind_ok _ _ _ _ _ Ef).
Qed.
