(* ===== verification/ScanNet.v ===== *)
(** * Interval scans served by a range server

    The network of a client and the range server of [ScanService]: requests are served
    on the server's map of scanners and their responses, as bytes, are loaded by the
    client.  It has what [IntervalScan] asks of a network, so that a scan is carried from
    the scanners of the ranges to the cells the client returns.  The locator is a list
    of the ranges of the table. *)
Set Warnings "-notation-incompatible-prefix,-clear-no-such-hyp".
From S2P Require Import Prelude Errors Serialization ByteString Key Deletes CellCache Scanner MergeScanner Wire CommBuf ScanBlock LinkedList LocationCache ScanService IntervalScanner IntervalScan.
From stdpp Require Import base gmap list.
From Stdlib Require Import ZArith Lia.
Open Scope Z_scope.
Open Scope result_scope.
Open Scope io_scope.

Section Net.
Context {S : Type} `{CellListScanner S}.
Variables (junk : Z * Z * Z * Z) (fuel : nat) (conn : Z) (h : Header) (table : list RangeLocationInfo) (scanner_for : RangeLocationInfo -> S).

(** The scanners of the server, and the id of a fetch that was sent and not answered. *)
Record world := { w_scanners : ScannerMap S; w_sent : option Z }.

Definition covers_b (r : RangeLocationInfo) (row : list Z) : bool :=
  (bytes_ltb (rl_start_row r) row || bool_decide (row = [] /\ rl_start_row r = [])) && bytes_leb row (rl_end_row r).

(** A request for a block. *)
Definition ask (r : request S) (b : ScanBlock) : io world ScanBlock := fun w =>
  match serve junk fuel h r (w_scanners w) with
  | Some (Ok (bytes, sm)) =>
      match receive fuel conn bytes b with
      | Some (Ok (inr b)) => Some (Ok b, {| w_scanners := sm; w_sent := w_sent w |})
      | Some (Ok (inl e)) => Some (match code_of_value e with Some c => Throw c | None => Fault end, {| w_scanners := sm; w_sent := w_sent w |})
      | Some (Throw c) => Some (Throw c, w)
      | Some Fault => Some (Fault, w)
      | None => None
      end
  | Some (Throw c) => Some (Throw c, w)
  | Some Fault => Some (Fault, w)
  | None => None
  end.

Definition find_range (f : RangeLocationInfo -> bool) : option RangeLocationInfo := List.find f table.

Definition server_net : Network world := {|
  n_lookup row := io_ret None;
  n_find_loop row hard := match find_range (fun r => covers_b r row) with Some r => io_ret r | None => io_throw REQUEST_TIMEOUT end;
  n_expired := io_ret false;
  n_short := io_ret true;
  n_addr location := Some 0;
  n_create a start end_ spec :=
    match find_range (fun r => bytes_eqb (rl_start_row r) start && bytes_eqb (rl_end_row r) end_) with
    | Some r => ask (Create spec (inl (scanner_for r, 0)) 0) (ScanBlock_make 0)
    | None => io_throw RANGESERVER_RANGE_NOT_FOUND
    end;
  n_fetch a i b := ask (Fetch (u32 i) 0) b;
  n_send_fetch a i := fun w => Some (Ok tt, {| w_scanners := w_scanners w; w_sent := Some (u32 i) |});
  n_wait b := fun w => match w_sent w with
                       | Some i => ask (Fetch i 0) b {| w_scanners := w_scanners w; w_sent := None |}
                       | None => None
                       end;
  n_destroy a i := fun w =>
    match destroy_scanner h (u32 i) (w_scanners w) with
    | Ok (_, sm) => Some (Ok tt, {| w_scanners := sm; w_sent := w_sent w |})
    | Throw c => Some (Throw c, w)
    | Fault => Some (Fault, w)
    end |}.

(** ** What it promises *)

Hypothesis Hh : wf_header h.
Hypothesis Hdiv : divided table.
Hypothesis Hgood : forall r, r ∈ table -> good_scanner fuel (scanner_for r).

Definition kept (sm : ScannerMap S) (id : Z) (l : list cell) : Prop :=
  0 <= id < 2 ^ 32 /\ exists i, m_scanner_map sm !! id = Some i /\ sc_cells (scanner_ptr i) = l.

Definition block (flag id : Z) (ps : list (list Z * list Z)) : ScanBlock :=
  {| m_error := code_value OK_; sb_flags := flag; m_scanner_id := i32 id; m_vec := ps; m_iter := ps |}.

(** A block that was served, and the rest that is kept for it. *)
Definition block_served (sm : ScannerMap S) (b : ScanBlock) (l : list cell) : Prop :=
  good_map fuel sm /\ gives (fun i l => kept sm (u32 i) l) b l.

Lemma served_gives sm flag id ps l : good_map fuel sm -> Forall2 points ps (block_of l) ->
  match behind_block l with [] => flag = 1 | rest => flag = 0 /\ kept sm id rest end -> block_served sm (block flag id ps) l.
Proof.
  intros Hm Hp Hb. split; [exact Hm|]. split; [reflexivity|]. exists (block_of l), (behind_block l). split; [exact Hp|]. split; [apply block_split|].
  unfold sb_eos. cbn [sb_flags block m_scanner_id]. destruct (behind_block l) as [|c rest] eqn:E; [now subst flag|]. destruct Hb as [-> Hk]. cbn. split.
  - apply block_nonempty. intros ->. discriminate.
  - rewrite (id_back id (proj1 Hk)). exact Hk.
Qed.

Lemma create_served spec s sm b : bad_spec spec = false -> good_scanner fuel s -> good_map fuel sm ->
  exists bytes sm' b', serve junk fuel h (Create spec (inl (s, 0)) 0) sm = Some (Ok (bytes, sm')) /\
    receive fuel conn bytes b = Some (Ok (inr b')) /\ block_served sm' b' (sc_cells s).
Proof.
  intros Hb Hs Hm. destruct (filled_scanner junk fuel s Hs) as (s' & E & Hs' & Hc). destruct Hs as (_ & Hsend & Hf).
  unfold serve, create_scanner. unfold bad_spec in Hb. apply orb_false_iff in Hb as [Hb Hb3]. apply orb_false_iff in Hb as [Hb1 Hb2].
  rewrite Hb1, Hb2, Hb3, E. cbn [bind]. destruct (behind_block (sc_cells s)) as [|c rest] eqn:Er; cbv iota beta.
  - destruct (block_received fuel conn h 1 0 (sc_cells s) b Hh (or_intror eq_refl) Hsend Hf) as (bytes & ps & -> & Erc & Hp). cbn [bind].
    exists bytes, sm, (block 1 0 ps). split; [reflexivity|]. split; [exact Erc|]. apply served_gives; [exact Hm|exact Hp|now rewrite Er].
  - cbn [put_scanner]. set (id := u32 (ms_next_id sm + 1)).
    destruct (block_received fuel conn h 0 id (sc_cells s) b Hh (or_introl eq_refl) Hsend Hf) as (bytes & ps & -> & Erc & Hp). cbn [bind].
    eexists bytes, _, (block 0 id ps). split; [reflexivity|]. split; [exact Erc|]. apply served_gives; [now apply good_insert|exact Hp|rewrite Er].
    split; [reflexivity|]. split; [apply wrap_range; lia|]. eexists. cbn. rewrite lookup_insert_eq. split; [reflexivity|]. exact Hc.
Qed.

Lemma fetch_served id l sm b : kept sm id l -> good_map fuel sm ->
  exists bytes sm' b', serve junk fuel h (Fetch id 0) sm = Some (Ok (bytes, sm')) /\ receive fuel conn bytes b = Some (Ok (inr b')) /\ block_served sm' b' l.
Proof.
  intros (Hid & i & Ei & Hl) Hm. pose proof (Hm _ _ Ei) as Hs. destruct (filled_scanner junk fuel _ Hs) as (s' & E & Hs' & Hc). destruct Hs as (_ & Hsend & Hf).
  rewrite Hl in *. unfold serve, fetch_scanblock, get_scanner. rewrite Ei, E. cbn [bind]. destruct (behind_block l) as [|c rest] eqn:Er; cbv iota beta zeta.
  - destruct (block_received fuel conn h 1 id l b Hh (or_intror eq_refl) Hsend Hf) as (bytes & ps & -> & Erc & Hp). cbn [bind].
    eexists bytes, _, (block 1 id ps). split; [reflexivity|]. split; [exact Erc|]. apply served_gives; [|exact Hp|now rewrite Er].
    unfold remove_scanner, moved, with_scanners. cbn. rewrite delete_alter_eq, delete_insert_eq. now apply (good_delete fuel sm).
  - destruct (block_received fuel conn h 0 id l b Hh (or_introl eq_refl) Hsend Hf) as (bytes & ps & -> & Erc & Hp). cbn [bind].
    eexists bytes, _, (block 0 id ps). split; [reflexivity|]. split; [exact Erc|]. unfold moved, with_scanners. cbn. rewrite alter_insert_eq. cbn.
    apply served_gives; [now apply (good_insert fuel sm)|exact Hp|rewrite Er]. split; [reflexivity|]. split; [exact Hid|]. eexists. cbn. rewrite lookup_insert_eq. auto.
Qed.

Lemma ask_ok r b w sm' bytes b' : serve junk fuel h r (w_scanners w) = Some (Ok (bytes, sm')) -> receive fuel conn bytes b = Some (Ok (inr b')) ->
  ask r b w = Some (Ok b', {| w_scanners := sm'; w_sent := w_sent w |}).
Proof. unfold ask. now intros -> ->. Qed.

(** The range a row is in is the only one that covers it. *)
Lemma covers_spec r row : covers_b r row = true <-> covers r row.
Proof.
  unfold covers_b, covers. rewrite andb_true_iff, orb_true_iff, bytes_ltb_lt, bool_decide_eq_true. tauto.
Qed.

Lemma bytes_le_lt a b c : bytes_leb a b = true -> bytes_lt b c -> bytes_lt a c.
Proof. intros Hab Hbc. apply bytes_leb_le in Hab as [Hab| ->]; [exact (bytes_lt_trans _ _ _ Hab Hbc)|exact Hbc]. Qed.

Lemma divided_after r l r' : divided (r :: l) -> r' ∈ l -> bytes_leb (rl_end_row r) (rl_start_row r') = true /\ bytes_lt (rl_end_row r) (rl_end_row r').
Proof.
  revert r. induction l as [|x l IH]; intros r Hd Hi; [inversion Hi|]. destruct Hd as (E & _ & Hl & _ & _ & _ & Hd). apply elem_of_cons in Hi as [->|Hi].
  - rewrite E. split; [apply bytes_leb_le; now right|exact Hl].
  - destruct (IH x Hd Hi) as [H1 H2]. split; [|exact (bytes_lt_trans _ _ _ Hl H2)]. apply bytes_leb_le. left.
    apply bytes_leb_le in H1 as [H1|<-]; [exact (bytes_lt_trans _ _ _ Hl H1)|exact Hl].
Qed.

Lemma find_only (l : list RangeLocationInfo) f r : r ∈ l -> f r = true -> (forall r', r' ∈ l -> f r' = true -> r' = r) -> List.find f l = Some r.
Proof.
  intros Hi Hf Hu. destruct (List.find f l) as [r'|] eqn:E.
  - apply List.find_some in E as [Hi' Hf']. f_equal. apply Hu; [now apply list_elem_of_In|exact Hf'].
  - rewrite (List.find_none _ _ E r) in Hf; [easy|]. now apply list_elem_of_In.
Qed.

Lemma covers_once l : divided l -> forall r r' row, r ∈ l -> r' ∈ l -> covers r row -> covers r' row -> r' = r.
Proof.
  induction l as [|x l IH]; intros Hd r r' row Hr Hr' Hc Hc'; [inversion Hr|].
  assert (Clash : forall y, y ∈ l -> covers x row -> covers y row -> False).
  { intros y Hy [_ Hx] [[Hs|[-> Hs]] _]; destruct (divided_after x l y Hd Hy) as [H1 H2].
    - apply (bytes_lt_irrefl row). apply bytes_leb_le in H1 as [H1|H1].
      + exact (bytes_lt_trans _ _ _ (bytes_le_lt _ _ _ Hx H1) Hs).
      + rewrite H1 in Hx. exact (bytes_le_lt _ _ _ Hx Hs).
    - rewrite Hs in H1. destruct l as [|z l]; [inversion Hy|]. destruct Hd as (_ & Hne & _). apply bytes_leb_le in H1 as [H1|H1]; [|easy].
      unfold bytes_lt in H1. now destruct (rl_end_row x). }
  apply elem_of_cons in Hr as [->|Hr]; apply elem_of_cons in Hr' as [->|Hr'].
  - reflexivity.
  - destruct (Clash r' Hr' Hc Hc').
  - destruct (Clash r Hr Hc' Hc).
  - destruct l as [|z l]; [inversion Hr|]. apply (IH ltac:(now repeat apply proj2 in Hd) r r' row); assumption.
Qed.

Lemma bounds_once l : divided l -> forall r r', r ∈ l -> r' ∈ l -> rl_end_row r' = rl_end_row r -> r' = r.
Proof.
  induction l as [|x l IH]; intros Hd r r' Hr Hr' E; [inversion Hr|].
  assert (Clash : forall y, y ∈ l -> rl_end_row y = rl_end_row x -> False).
  { intros y Hy Ey. destruct (divided_after x l y Hd Hy) as [_ Hlt]. rewrite Ey in Hlt. exact (bytes_lt_irrefl _ Hlt). }
  apply elem_of_cons in Hr as [->|Hr]; apply elem_of_cons in Hr' as [->|Hr'].
  - reflexivity.
  - destruct (Clash r' Hr' E).
  - destruct (Clash r Hr (eq_sym E)).
  - destruct l as [|z l]; [inversion Hr|]. apply (IH ltac:(now repeat apply proj2 in Hd) r r'); assumption.
Qed.

(** ** The instance *)

Lemma net_locate r row : r ∈ table -> covers r row -> find_range (fun r => covers_b r row) = Some r.
Proof.
  intros Hr Hc. apply find_only; [exact Hr|now apply covers_spec|]. intros r' Hr' Hc'. apply covers_spec in Hc'. now apply (covers_once table Hdiv r r' row).
Qed.

Lemma net_range r : r ∈ table -> find_range (fun x => bytes_eqb (rl_start_row x) (rl_start_row r) && bytes_eqb (rl_end_row x) (rl_end_row r)) = Some r.
Proof.
  intros Hr. apply find_only; [exact Hr|now rewrite !(proj2 (bytes_eqb_eq _ _) eq_refl)|].
  intros r' Hr' E. apply andb_true_iff in E as [_ E]. apply bytes_eqb_eq in E. now apply (bounds_once table Hdiv).
Qed.

Definition server_serves spec (Hb : bad_spec spec = false) : Serves server_net spec.
Proof.
  refine {| sv_table := table; sv_cells r := sc_cells (scanner_for r); sv_ok w := good_map fuel (w_scanners w);
            sv_open w a i l := kept (w_scanners w) (u32 i) l; sv_coming w a l := exists i, w_sent w = Some i /\ kept (w_scanners w) i l |}.
  - exact Hdiv.
  - intros w r row Hw Hr Hc. exists None, w. split; [reflexivity|]. split; [exact Hw|]. right. split; [reflexivity|]. exists w. cbn. now rewrite (net_locate r row Hr Hc).
  - intros r _. exists 0. reflexivity.
  - intros w r a Hw Hr _. destruct (create_served spec (scanner_for r) (w_scanners w) (ScanBlock_make 0) Hb (Hgood r Hr) Hw) as (bytes & sm & b & Es & Er & Hm & G).
    exists b. eexists. cbn. rewrite (net_range r Hr), (ask_ok _ _ _ _ _ _ Es Er). split; [reflexivity|]. split; [exact Hm|exact G].
  - intros w a i l b Hw Ho. destruct (fetch_served (u32 i) l (w_scanners w) b Ho Hw) as (bytes & sm & b' & Es & Er & Hm & G).
    exists b'. eexists. cbn. rewrite (ask_ok _ _ _ _ _ _ Es Er). split; [reflexivity|]. split; [exact Hm|exact G].
  - intros w a i l Hw Ho. eexists. cbn. split; [reflexivity|]. split; [exact Hw|]. exists (u32 i). auto.
  - intros w a l b Hw (i & Ei & Ho). destruct (fetch_served i l (w_scanners w) b Ho Hw) as (bytes & sm & b' & Es & Er & Hm & G).
    exists b'. eexists. cbn. rewrite Ei, (ask_ok (Fetch i 0) b {| w_scanners := w_scanners w; w_sent := None |} _ _ _ Es Er). split; [reflexivity|]. split; [exact Hm|exact G].
  - intros w a i Hw. cbn. unfold destroy_scanner, response_ok.
    destruct (response_received h 4 [] [Ok (encode_i32 (code_value OK_))] (encode_i32 (code_value OK_)) conn Hh) as (bytes & ev & -> & _);
      [reflexivity|reflexivity|change (zlen (@nil Z)) with 0; lia|]. cbn [bind]. eexists. split; [reflexivity|]. now apply good_delete.
Defined.
End Net.

(** ** A sample: two ranges, a scan over both *)

Definition sample_cell (row : list Z) (ts : Z) (value : list Z) : cell :=
  (pack {| k_row := row; k_family := 1; k_qual := [113]; k_flag := FLAG_INSERT; k_ts := ts |}, value).
Definition sample_first : RangeLocationInfo := {| rl_start_row := []; rl_end_row := [109]; rl_location := [97; 95; 49] |}.
Definition sample_second : RangeLocationInfo := {| rl_start_row := [109]; rl_end_row := END_ROW_MARKER; rl_location := [98; 95; 49] |}.
Definition sample_scanner (r : RangeLocationInfo) : list cell :=
  if bytes_eqb (rl_start_row r) [] then [sample_cell [98] 5 (sample_value 7); sample_cell [99] 6 (sample_value 8)]
  else [sample_cell [110] 7 [1]; sample_cell [121] 8 [2]].
Definition sample_arg : ScanArg :=
  {| sa_row_limit := 0; sa_max_versions := 0; sa_columns := [];
     sa_rows := [{| ra_start := Some [98]; ra_start_inclusive := true; ra_end := Some [120]; ra_end_inclusive := true |}];
     sa_cells := []; sa_time := (0, END_OF_TIME); sa_return_deletes := false |}.
Definition sample_interval : IntervalScanner :=
  {| m_spec := {| row_limit := 0; max_versions := 0; columns := [];
                  row_intervals := [{| ri_start := [98]; ri_start_inclusive := true; ri_end := [120]; ri_end_inclusive := true |}];
                  cell_intervals := []; time_interval := (0, END_OF_TIME); return_deletes := false |};
     m_started := false; m_eos := false; m_scanblock := ScanBlock_make 0; m_cur_row := [];
     m_range_info := {| rl_start_row := []; rl_end_row := []; rl_location := [] |}; m_cur_addr := 0; m_readahead := true;
     m_fetch_outstanding := false; m_start_row := [98]; m_end_row := [120]; m_end_inclusive := true; m_rows_seen := 0 |}.
Definition sample_family (f : Z) : option (list Z) := if f =? 1 then Some [102] else None.

Section Sample.
#[local] Existing Instance list_scanner.

Definition sample_net : Network (@world (list cell)) :=
  server_net (0, 0, 0, 0) 4 3 sample_header [sample_first; sample_second] sample_scanner.

Lemma sample_divided : divided [sample_first; sample_second].
Proof. cbn. repeat split; try discriminate; repeat constructor; discriminate. Qed.

Lemma sample_scanners r : r ∈ [sample_first; sample_second] -> good_scanner 4 (sample_scanner r).
Proof.
  intros Hr. apply elem_of_cons in Hr as [->|Hr]; [|apply list_elem_of_singleton in Hr as ->]; (split; [exact I|]; split; [|cbn; lia]);
    repeat constructor; vm_compute; reflexivity.
Qed.

Lemma sample_cell_good row ts v : no_nul row -> wf_bytes row -> - 2 ^ 63 <= ts < 2 ^ 63 -> good_cell (sample_cell row ts v).
Proof. intros H1 H2 H3. eexists. split; [|reflexivity]. repeat split; cbn; try assumption; try lia; repeat constructor; try discriminate; cbn; lia. Qed.

(** The client returns three cells, the first two in blocks of their own, and ends at the
    row 121. *)
Lemma interval_scan_correct_witness : IntervalScanner_make 0 sample_arg = Ok sample_interval /\
  exists s' w', read_cells sample_net sample_family 4 5 sample_interval {| w_scanners := ScannerMap_make; w_sent := None |} =
    Some (Ok (map (cell_view sample_family)
      [({| k_row := [98]; k_family := 1; k_qual := [113]; k_flag := FLAG_INSERT; k_ts := 5 |}, sample_value 7);
       ({| k_row := [99]; k_family := 1; k_qual := [113]; k_flag := FLAG_INSERT; k_ts := 6 |}, sample_value 8);
       ({| k_row := [110]; k_family := 1; k_qual := [113]; k_flag := FLAG_INSERT; k_ts := 7 |}, [1])], s'), w').
Proof.
  split; [reflexivity|].
  destruct (interval_scan_correct sample_net 0 sample_arg sample_interval
    (SV := server_serves (0, 0, 0, 0) 4 3 sample_header [sample_first; sample_second] sample_scanner sample_header_ok sample_divided sample_scanners (m_spec sample_interval) eq_refl)
    sample_family 4 5 {| w_scanners := ScannerMap_make; w_sent := None |} [] sample_first [sample_second] eq_refl) as (s' & w' & E & _).
  - apply map_Forall_empty.
  - reflexivity.
  - split; [left; reflexivity|reflexivity].
  - cbn [visited map concat app sv_cells server_serves]. repeat constructor; apply sample_cell_good; repeat constructor; try discriminate; cbn; lia.
  - cbn. lia.
  - cbn. lia.
  - exists s', w'. refine (eq_trans E _). do 4 f_equal.
Defined.
End Sample.
