(* ===== verification/MetaLog.v ===== *)
(** * The meta log of a range server

    [Hypertable/Lib/MetaLogDfsBase.cc], [MetaLogReaderDfsBase.cc],
    [MetaLogEntryBase.cc], [RangeServerMetaLog.{h,cc}], [RangeServerMetaLogReader.cc]
    and the entries and their factory: which ranges a range server has loaded, and how
    far it has come with splitting them, as a file of entries with checksums.

    The checksum is that of zlib, which the code calls; [Crc32] has what is used of it. *)
From S2P Require Import Prelude Errors Serialization ByteString Wire.
From Stdlib Require Import ZArith Lia List Bool.
Import ListNotations.
Open Scope Z_scope.
Open Scope result_scope.

(** [crc32] and [crc32_update]: a checksum of a string is updated by what follows. *)
Class Crc32 := {
  crc32 : list Z -> Z;
  crc32_update : Z -> list Z -> Z;
  crc32_range l : in_range 32 (crc32 l);
  crc32_update_app a b : crc32_update (crc32 a) b = crc32 (a ++ b) }.

(** ** Entries *)

Inductive MetaLogEntry :=
| RangeLoaded (t : TableIdentifier) (r : RangeSpec) (s : RangeState)
| SplitStart (t : TableIdentifier) (r split_off : RangeSpec) (s : RangeState)
| SplitShrunk (t : TableIdentifier) (r : RangeSpec) (s : RangeState)
| SplitDone (t : TableIdentifier) (r : RangeSpec)
| MoveStart (t : TableIdentifier) (r : RangeSpec) (s : RangeState)
| MovePrepared (t : TableIdentifier) (r : RangeSpec)
| MoveDone (t : TableIdentifier) (r : RangeSpec)
| DropTable (t : TableIdentifier).

Definition RS_SPLIT_START : Z := 1.
Definition RS_SPLIT_SHRUNK : Z := 2.
Definition RS_SPLIT_DONE : Z := 3.
Definition RS_RANGE_LOADED : Z := 4.
Definition RS_MOVE_START : Z := 5.
Definition RS_MOVE_PREPARED : Z := 6.
Definition RS_MOVE_DONE : Z := 7.
Definition RS_DROP_TABLE : Z := 8.

Definition get_type (e : MetaLogEntry) : Z :=
  match e with
  | RangeLoaded _ _ _ => RS_RANGE_LOADED
  | SplitStart _ _ _ _ => RS_SPLIT_START
  | SplitShrunk _ _ _ => RS_SPLIT_SHRUNK
  | SplitDone _ _ => RS_SPLIT_DONE
  | MoveStart _ _ _ => RS_MOVE_START
  | MovePrepared _ _ => RS_MOVE_PREPARED
  | MoveDone _ _ => RS_MOVE_DONE
  | DropTable _ => RS_DROP_TABLE
  end.

(** An entry with the time it was made. *)
Record stamped := { e_timestamp : Z; e_entry : MetaLogEntry }.

(** [buf.ensure(n)] and encoding at [buf.ptr]. *)
Definition put_encoded (n : Z) (e : result (list Z)) (d : DynamicBuffer.t) : result DynamicBuffer.t :=
  d <- DynamicBuffer.ensure n d ;; l <- e ;; DynamicBuffer.put l d.

(** [MetaLogEntryRangeBase::write], [MetaLogEntryRangeCommon::write],
    [SplitStart::write], [DropTable::write]. *)
Definition write_base (t : TableIdentifier) (r : RangeSpec) (d : DynamicBuffer.t) : result DynamicBuffer.t :=
  put_encoded (TableIdentifier_encoded_length t + RangeSpec_encoded_length r) (cat [TableIdentifier_encode t; RangeSpec_encode r]) d.
Definition write_common (t : TableIdentifier) (r : RangeSpec) (s : RangeState) (d : DynamicBuffer.t) : result DynamicBuffer.t :=
  d <- write_base t r d ;; put_encoded (RangeState_encoded_length s) (RangeState_encode s) d.

Definition entry_write (e : MetaLogEntry) (d : DynamicBuffer.t) : result DynamicBuffer.t :=
  match e with
  | RangeLoaded t r s | SplitShrunk t r s | MoveStart t r s => write_common t r s d
  | SplitStart t r split_off s => d <- write_common t r s d ;; put_encoded (RangeSpec_encoded_length split_off) (RangeSpec_encode split_off) d
  | SplitDone t r | MovePrepared t r | MoveDone t r => write_base t r d
  | DropTable t => put_encoded (TableIdentifier_encoded_length t) (TableIdentifier_encode t) d
  end.

(** The [read] functions. *)
Definition read_base : dec (TableIdentifier * RangeSpec) := t <~ TableIdentifier_decode ;; r <~ RangeSpec_decode ;; dret (t, r).
Definition read_common : dec (TableIdentifier * RangeSpec * RangeState) :=
  x <~ read_base ;; s <~ RangeState_decode ;; dret (x, s).

(** [new_from_payload] *)
Definition new_from_payload (type : Z) (payload : list Z) : result MetaLogEntry :=
  let run {A} (d : dec A) : result A := r <- d {| ip := payload; remain := zlen payload |} ;; Ok (fst r) in
  if type =? RS_SPLIT_START then
    '(t, r, s, o) <- run (x <~ read_common ;; o <~ RangeSpec_decode ;; dret (x, o)) ;; Ok (SplitStart t r o s)
  else if type =? RS_SPLIT_SHRUNK then '(t, r, s) <- run read_common ;; Ok (SplitShrunk t r s)
  else if type =? RS_SPLIT_DONE then '(t, r) <- run read_base ;; Ok (SplitDone t r)
  else if type =? RS_RANGE_LOADED then '(t, r, s) <- run read_common ;; Ok (RangeLoaded t r s)
  else if type =? RS_MOVE_START then '(t, r, s) <- run read_common ;; Ok (MoveStart t r s)
  else if type =? RS_MOVE_PREPARED then '(t, r) <- run read_base ;; Ok (MovePrepared t r)
  else if type =? RS_MOVE_DONE then '(t, r) <- run read_base ;; Ok (MoveDone t r)
  else if type =? RS_DROP_TABLE then t <- run TableIdentifier_decode ;; Ok (DropTable t)
  else Throw METALOG_ENTRY_BAD_TYPE.

(** ** The file *)

Definition ML_ENTRY_HEADER_SIZE : Z := 17.
Definition RSML_HEADER_SIZE : Z := 7.
Definition ML_ENTRY_BUFFER_RESERVE : Z := ML_ENTRY_HEADER_SIZE + 512.
Definition RSML_VERSION : Z := 0x0100.
Definition RSML_PREFIX : list Z := [72; 82; 83; 77; 76].

Definition RSML_header : list Z := RSML_PREFIX ++ encode_i16 RSML_VERSION.

Section Log.
Context `{Crc32}.

(** [MetaLogDfsBase::write]: the bytes that are appended.  [ptr] is moved over the
    header first, which is filled out at the end; what was there does not matter. *)
Definition write_entry (x : stamped) : result (list Z) :=
  d <- DynamicBuffer.reserve DynamicBuffer.no_fresh ML_ENTRY_BUFFER_RESERVE false (DynamicBuffer.make 0) ;;
  d <- DynamicBuffer.put (repeat 0 17) d ;;
  d <- entry_write (e_entry x) d ;;
  let payload := skipn 17 (DynamicBuffer.data d) in
  let rest := encode_i64 (e_timestamp x) ++ encode_i8 (get_type (e_entry x)) ++ encode_i32 (DynamicBuffer.fill d - ML_ENTRY_HEADER_SIZE) ++ payload in
  Ok (encode_i32 (crc32 rest) ++ rest).

(** The reader: the bytes its descriptor has in front of it, [m_cur] and [m_file_size]. *)
Record Reader := { rd_rest : list Z; rd_cur : Z; rd_size : Z }.

(** [fs->read(fd, buf, n)]: as many bytes as there are, up to [n]. *)
Definition fs_read (n : Z) (rd : Reader) : list Z * Reader :=
  let l := firstn (Z.to_nat n) (rd_rest rd) in
  (l, {| rd_rest := skipn (Z.to_nat n) (rd_rest rd); rd_cur := rd_cur rd + zlen l; rd_size := rd_size rd |}).

Definition Reader_open (file : list Z) : Reader := {| rd_rest := file; rd_cur := 0; rd_size := zlen file |}.

(** The constructor of [RangeServerMetaLogReader]: the prefix is not looked at. *)
Definition RangeServerMetaLogReader_make (file : list Z) : result Reader :=
  let '(buf, rd) := fs_read RSML_HEADER_SIZE (Reader_open file) in
  if negb (zlen buf =? RSML_HEADER_SIZE) then Throw METALOG_BAD_RS_HEADER
  else '(v, _) <- decode_i16 {| ip := skipn (length RSML_PREFIX) buf; remain := RSML_HEADER_SIZE |} ;;
       if negb (v =? RSML_VERSION) then Throw METALOG_VERSION_MISMATCH else Ok rd.

Record ScanEntry := { se_type : Z; se_checksum : Z; se_timestamp : Z; se_payload_size : Z; se_buf : list Z }.

(** [MetaLogReaderDfsBase::next] *)
Definition next_entry (rd : Reader) : result (option ScanEntry * Reader) :=
  if rd_size rd <=? rd_cur rd then Ok (None, rd)
  else
    let '(buf, rd) := fs_read ML_ENTRY_HEADER_SIZE rd in
    if negb (zlen buf =? ML_ENTRY_HEADER_SIZE) then Throw METALOG_ENTRY_TRUNCATED
    else
      '(c, ts, ty, n, _) <- (x <- (c <~ decode_i32 ;; ts <~ decode_i64 ;; ty <~ decode_i8 ;; n <~ decode_i32 ;; dret (c, ts, ty, n))
                               {| ip := buf; remain := ML_ENTRY_HEADER_SIZE |} ;; Ok x) ;;
      let '(payload, rd) := fs_read n rd in
      if negb (zlen payload =? n) then Throw METALOG_ENTRY_TRUNCATED
      else if negb (c =? crc32_update (crc32 (skipn 4 buf)) payload) then Throw METALOG_CHECKSUM_MISMATCH
      else Ok (Some {| se_type := ty; se_checksum := c; se_timestamp := ts; se_payload_size := n; se_buf := payload |}, rd).

(** [RangeServerMetaLogReader::read] *)
Definition read_entry (rd : Reader) : result (option stamped * Reader) :=
  '(o, rd) <- next_entry rd ;;
  match o with
  | None => Ok (None, rd)
  | Some s => e <- new_from_payload (se_type s) (se_buf s) ;; Ok (Some {| e_timestamp := se_timestamp s; e_entry := e |}, rd)
  end.

(** ** Round trip *)

Definition ok_entry (e : MetaLogEntry) : Prop :=
  match e with
  | RangeLoaded t r s | SplitShrunk t r s | MoveStart t r s => ok_TableIdentifier t /\ ok_RangeSpec r /\ ok_RangeState s
  | SplitStart t r o s => ok_TableIdentifier t /\ ok_RangeSpec r /\ ok_RangeSpec o /\ ok_RangeState s
  | SplitDone t r | MovePrepared t r | MoveDone t r => ok_TableIdentifier t /\ ok_RangeSpec r
  | DropTable t => ok_TableIdentifier t
  end.

(** The encoded length of the payload. *)
Definition entry_length (e : MetaLogEntry) : Z :=
  match e with
  | RangeLoaded t r s | SplitShrunk t r s | MoveStart t r s => TableIdentifier_encoded_length t + RangeSpec_encoded_length r + RangeState_encoded_length s
  | SplitStart t r o s => TableIdentifier_encoded_length t + RangeSpec_encoded_length r + RangeState_encoded_length s + RangeSpec_encoded_length o
  | SplitDone t r | MovePrepared t r | MoveDone t r => TableIdentifier_encoded_length t + RangeSpec_encoded_length r
  | DropTable t => TableIdentifier_encoded_length t
  end.

Definition storable (x : stamped) : Prop := in_range 64 (e_timestamp x) /\ ok_entry (e_entry x) /\ entry_length (e_entry x) < 2 ^ 31.

Lemma put_encoded_ok n e d l : DynamicBuffer.wf d -> e = Ok l -> zlen l = n -> (DynamicBuffer.fill d + n) * 3 / 2 < 2 ^ 32 ->
  exists d', put_encoded n e d = Ok d' /\ DynamicBuffer.wf d' /\ DynamicBuffer.data d' = DynamicBuffer.data d ++ l.
Proof.
  intros Hw -> <- Hb. pose proof (zlen_nonneg l). destruct (DynamicBuffer.ensure_ok (zlen l) d Hw ltac:(lia) Hb) as (d1 & E1 & W1 & D1 & R1).
  unfold put_encoded. rewrite E1. cbn [bind]. assert (F : DynamicBuffer.fill d1 = DynamicBuffer.fill d) by (unfold DynamicBuffer.fill; now rewrite D1).
  destruct (DynamicBuffer.put_ok l d1) as (d2 & E2 & W2 & D2 & _); [lia|exact W1|]. exists d2. now rewrite E2, D2, D1.
Qed.

(** Payloads: what is written is what is read. *)
Lemma codec_base t r : ok_TableIdentifier t -> ok_RangeSpec r ->
  codec (cat [TableIdentifier_encode t; RangeSpec_encode r]) (TableIdentifier_encoded_length t + RangeSpec_encoded_length r) read_base (t, r).
Proof.
  intros Ht Hr. eapply codec_len; [eapply codec_bind; [now apply codec_TableIdentifier|]; eapply codec_bind; [now apply codec_RangeSpec|apply codec_ret]|lia].
Qed.

Lemma codec_common t r st : ok_TableIdentifier t -> ok_RangeSpec r -> ok_RangeState st ->
  codec (cat [cat [TableIdentifier_encode t; RangeSpec_encode r]; RangeState_encode st])
    (TableIdentifier_encoded_length t + RangeSpec_encoded_length r + RangeState_encoded_length st) read_common (t, r, st).
Proof.
  intros Ht Hr Hs. eapply codec_len; [eapply codec_bind; [now apply codec_base|]; eapply codec_bind; [now apply codec_RangeState|apply codec_ret]|lia].
Qed.

Lemma codec_start t r o st : ok_TableIdentifier t -> ok_RangeSpec r -> ok_RangeSpec o -> ok_RangeState st ->
  codec (cat [cat [cat [TableIdentifier_encode t; RangeSpec_encode r]; RangeState_encode st]; RangeSpec_encode o])
    (TableIdentifier_encoded_length t + RangeSpec_encoded_length r + RangeState_encoded_length st + RangeSpec_encoded_length o)
    (x <~ read_common ;; o <~ RangeSpec_decode ;; dret (x, o)) (t, r, st, o).
Proof.
  intros Ht Hr Ho Hs. eapply codec_len; [eapply codec_bind; [now apply codec_common|]; eapply codec_bind; [now apply codec_RangeSpec|apply codec_ret]|lia].
Qed.

Lemma run_codec {A} e n (d : dec A) a l : codec e n d a -> e = Ok l -> n < 2 ^ 64 -> (r <- d {| ip := l; remain := zlen l |} ;; Ok (fst r)) = Ok a.
Proof.
  intros (l' & E & N & R) El Hn. rewrite El in E. injection E as <-. rewrite <- (app_nil_r l) at 1. rewrite R by lia. reflexivity.
Qed.

Lemma cat2 a b la lb : a = Ok la -> b = Ok lb -> cat [a; b] = Ok (la ++ lb).
Proof. intros -> ->. cbn. now rewrite app_nil_r. Qed.

(** Room for [n] more bytes below the limit of the buffers. *)
Lemma room a b : 0 <= a -> 0 <= b -> a + b < 2 ^ 31 + 64 -> (a + b) * 3 / 2 < 2 ^ 32.
Proof. intros. apply Z.div_lt_upper_bound; lia. Qed.

(** The three shapes of payloads. *)
Lemma write_base_ok t r d : ok_TableIdentifier t -> ok_RangeSpec r -> DynamicBuffer.wf d ->
  (DynamicBuffer.fill d + (TableIdentifier_encoded_length t + RangeSpec_encoded_length r)) * 3 / 2 < 2 ^ 32 ->
  exists l d', cat [TableIdentifier_encode t; RangeSpec_encode r] = Ok l /\ write_base t r d = Ok d' /\ DynamicBuffer.wf d' /\
    DynamicBuffer.data d' = DynamicBuffer.data d ++ l /\ zlen l = TableIdentifier_encoded_length t + RangeSpec_encoded_length r.
Proof.
  intros Ht Hr Hw Hb. destruct (codec_base t r Ht Hr) as (l & E & N & _).
  destruct (put_encoded_ok _ _ d l Hw E N Hb) as (d' & E' & W' & D'). exists l, d'. auto.
Qed.

Lemma fill_app d d' l : DynamicBuffer.data d' = DynamicBuffer.data d ++ l -> DynamicBuffer.fill d' = DynamicBuffer.fill d + zlen l.
Proof. unfold DynamicBuffer.fill. intros ->. apply zlen_app. Qed.

Lemma write_common_ok t r s d : ok_TableIdentifier t -> ok_RangeSpec r -> ok_RangeState s -> DynamicBuffer.wf d ->
  DynamicBuffer.fill d + (TableIdentifier_encoded_length t + RangeSpec_encoded_length r + RangeState_encoded_length s) < 2 ^ 31 + 64 ->
  exists l d', cat [cat [TableIdentifier_encode t; RangeSpec_encode r]; RangeState_encode s] = Ok l /\ write_common t r s d = Ok d' /\ DynamicBuffer.wf d' /\
    DynamicBuffer.data d' = DynamicBuffer.data d ++ l /\ zlen l = TableIdentifier_encoded_length t + RangeSpec_encoded_length r + RangeState_encoded_length s.
Proof.
  intros Ht Hr Hs Hw Hb. pose proof (DynamicBuffer.fill_nonneg d) as Hf. destruct (codec_base t r Ht Hr) as (l1 & E1 & N1 & _), (codec_RangeState s Hs) as (l2 & E2 & N2 & _).
  pose proof (zlen_nonneg l1). pose proof (zlen_nonneg l2).
  destruct (put_encoded_ok _ _ d l1 Hw E1 N1) as (d1 & X1 & W1 & D1); [apply room; lia|]. pose proof (fill_app _ _ _ D1) as F1.
  destruct (put_encoded_ok _ _ d1 l2 W1 E2 N2) as (d2 & X2 & W2 & D2); [apply room; lia|].
  exists (l1 ++ l2), d2. split; [now apply cat2|]. unfold write_common, write_base. rewrite X1. cbn [bind]. rewrite X2.
  split; [reflexivity|]. split; [exact W2|]. rewrite D2, D1, app_assoc, zlen_app. split; [reflexivity|lia].
Qed.

Lemma entry_write_ok e d : ok_entry e -> DynamicBuffer.wf d -> DynamicBuffer.fill d + entry_length e < 2 ^ 31 + 64 ->
  exists l d', entry_write e d = Ok d' /\ DynamicBuffer.wf d' /\ DynamicBuffer.data d' = DynamicBuffer.data d ++ l /\ zlen l = entry_length e /\
    new_from_payload (get_type e) l = Ok e.
Proof.
  intros He Hw Hb. pose proof (DynamicBuffer.fill_nonneg d) as Hf.
  assert (Common : forall t r s, ok_TableIdentifier t -> ok_RangeSpec r -> ok_RangeState s ->
    DynamicBuffer.fill d + (TableIdentifier_encoded_length t + RangeSpec_encoded_length r + RangeState_encoded_length s) < 2 ^ 31 + 64 ->
    exists l d', write_common t r s d = Ok d' /\ DynamicBuffer.wf d' /\ DynamicBuffer.data d' = DynamicBuffer.data d ++ l /\
      zlen l = TableIdentifier_encoded_length t + RangeSpec_encoded_length r + RangeState_encoded_length s /\
      (x <- read_common {| ip := l; remain := zlen l |} ;; Ok (fst x)) = Ok (t, r, s)).
  { intros t r s Ht Hr Hs Hl. destruct (write_common_ok t r s d Ht Hr Hs Hw Hl) as (l & d' & E & X & W & D & N). exists l, d'.
    repeat (split; [assumption|]). eapply run_codec; [now apply codec_common|exact E|lia]. }
  assert (Base : forall t r, ok_TableIdentifier t -> ok_RangeSpec r -> DynamicBuffer.fill d + (TableIdentifier_encoded_length t + RangeSpec_encoded_length r) < 2 ^ 31 + 64 ->
    exists l d', write_base t r d = Ok d' /\ DynamicBuffer.wf d' /\ DynamicBuffer.data d' = DynamicBuffer.data d ++ l /\
      zlen l = TableIdentifier_encoded_length t + RangeSpec_encoded_length r /\ (x <- read_base {| ip := l; remain := zlen l |} ;; Ok (fst x)) = Ok (t, r)).
  { intros t r Ht Hr Hl. destruct (codec_base t r Ht Hr) as (l0 & _ & N0 & _). pose proof (zlen_nonneg l0).
    destruct (write_base_ok t r d Ht Hr Hw) as (l & d' & E & X & W & D & N); [apply room; lia|]. exists l, d'.
    repeat (split; [assumption|]). eapply run_codec; [now apply codec_base|exact E|lia]. }
  destruct e as [t r s|t r o s|t r s|t r|t r s|t r|t r|t]; cbn [ok_entry entry_length entry_write get_type] in *; unfold new_from_payload; cbn [Z.eqb Pos.eqb];
    try (destruct He as (Ht & Hr & Hs); destruct (Common t r s Ht Hr Hs Hb) as (l & d' & X & W & D & N & R); exists l, d'; rewrite R; auto 6; fail);
    try (destruct He as (Ht & Hr); destruct (Base t r Ht Hr Hb) as (l & d' & X & W & D & N & R); exists l, d'; rewrite R; auto 6; fail).
  - destruct He as (Ht & Hr & Ho & Hs). destruct (codec_RangeSpec o Ho) as (l2 & E2 & N2 & _). pose proof (zlen_nonneg l2).
    destruct (write_common_ok t r s d Ht Hr Hs Hw) as (l & d' & E & X & W & D & N); [lia|].
    pose proof (fill_app _ _ _ D) as F. pose proof (zlen_nonneg l). destruct (put_encoded_ok _ _ d' l2 W E2 N2) as (d2 & X2 & W2 & D2); [apply room; lia|].
    exists (l ++ l2), d2. rewrite X. cbn [bind]. split; [exact X2|]. split; [exact W2|]. rewrite D2, D, app_assoc. split; [reflexivity|].
    split; [rewrite zlen_app; lia|]. rewrite (run_codec _ _ _ _ _ (codec_start t r o s Ht Hr Ho Hs) (cat2 _ _ _ _ E E2)) by lia. reflexivity.
  - destruct (codec_TableIdentifier t He) as (l & E & N & R). pose proof (zlen_nonneg l).
    destruct (put_encoded_ok _ _ d l Hw E N) as (d' & X & W & D); [apply room; lia|]. exists l, d'. repeat (split; [assumption|]).
    rewrite (run_codec _ _ _ _ _ (codec_TableIdentifier t He) E) by lia. reflexivity.
Qed.

(** The bytes of an entry. *)
Definition entry_bytes (x : stamped) (payload : list Z) : list Z :=
  encode_i64 (e_timestamp x) ++ encode_i8 (get_type (e_entry x)) ++ encode_i32 (zlen payload) ++ payload.

Lemma write_entry_ok x : storable x -> exists payload, write_entry x = Ok (encode_i32 (crc32 (entry_bytes x payload)) ++ entry_bytes x payload) /\
  zlen payload = entry_length (e_entry x) /\ new_from_payload (get_type (e_entry x)) payload = Ok (e_entry x).
Proof.
  intros (Ht & He & Hn). unfold write_entry. set (d0 := {| DynamicBuffer.data := repeat 0 17; DynamicBuffer.cap := 529; DynamicBuffer.size := 529; DynamicBuffer.own := true |}).
  assert (E0 : (d <- DynamicBuffer.reserve DynamicBuffer.no_fresh ML_ENTRY_BUFFER_RESERVE false (DynamicBuffer.make 0) ;; DynamicBuffer.put (repeat 0 17) d) = Ok d0) by reflexivity.
  apply bind_ok in E0 as (d1 & -> & E0). cbn [bind]. rewrite E0. cbn [bind].
  destruct (entry_write_ok (e_entry x) d0 He) as (l & d' & X & W & D & N & R).
  - unfold DynamicBuffer.wf, DynamicBuffer.fill, in_range. cbn. lia.
  - change (DynamicBuffer.fill d0) with 17. lia.
  - rewrite X. cbn [bind]. rewrite (fill_app _ _ _ D). change (DynamicBuffer.fill d0) with 17. unfold ML_ENTRY_HEADER_SIZE.
    exists l. rewrite D. change (skipn 17 (DynamicBuffer.data d0 ++ l)) with l. replace (17 + zlen l - 17) with (zlen l) by lia. auto.
Qed.


Lemma get_type_byte e : in_range 8 (get_type e).
Proof. destruct e; split; easy. Qed.

(** Reading what was written. *)
Lemma fs_read_app l rest cur size : fs_read (zlen l) {| rd_rest := l ++ rest; rd_cur := cur; rd_size := size |} =
  (l, {| rd_rest := rest; rd_cur := cur + zlen l; rd_size := size |}).
Proof. unfold fs_read, zlen. cbn [rd_rest rd_cur rd_size]. now rewrite Nat2Z.id, firstn_app_exact, skipn_app_exact. Qed.

(** The header of an entry. *)
Definition entry_header (x : stamped) (payload : list Z) : list Z :=
  encode_i32 (crc32 (entry_bytes x payload)) ++ encode_i64 (e_timestamp x) ++ encode_i8 (get_type (e_entry x)) ++ encode_i32 (zlen payload).

Lemma header_split x payload : encode_i32 (crc32 (entry_bytes x payload)) ++ entry_bytes x payload = entry_header x payload ++ payload.
Proof. unfold entry_header, entry_bytes. now rewrite <- !app_assoc. Qed.

Lemma zlen_header x payload : zlen (entry_header x payload) = ML_ENTRY_HEADER_SIZE.
Proof. reflexivity. Qed.

Lemma decode_header x payload : in_range 64 (e_timestamp x) -> zlen payload < 2 ^ 32 ->
  (c <~ decode_i32 ;; ts <~ decode_i64 ;; ty <~ decode_i8 ;; n <~ decode_i32 ;; dret (c, ts, ty, n)) {| ip := entry_header x payload; remain := ML_ENTRY_HEADER_SIZE |} =
  Ok ((crc32 (entry_bytes x payload), e_timestamp x, get_type (e_entry x), zlen payload), {| ip := []; remain := 0 |}).
Proof.
  intros Ht Hn. pose proof (zlen_nonneg payload). unfold entry_header, ML_ENTRY_HEADER_SIZE, dbind.
  rewrite decode_i32_encode by lia. cbn [bind]. rewrite decode_i64_encode by lia. cbn [bind]. rewrite decode_i8_encode by lia. cbn [bind].
  rewrite <- (app_nil_r (encode_i32 (zlen payload))), decode_i32_encode by lia. cbn [bind dret].
  rewrite !wrap_small by (apply crc32_range || apply get_type_byte || assumption || (split; lia)). reflexivity.
Qed.

Lemma next_entry_ok x payload rest cur size : in_range 64 (e_timestamp x) -> zlen payload < 2 ^ 32 -> cur < size ->
  next_entry {| rd_rest := entry_header x payload ++ payload ++ rest; rd_cur := cur; rd_size := size |} =
  Ok (Some {| se_type := get_type (e_entry x); se_checksum := crc32 (entry_bytes x payload); se_timestamp := e_timestamp x;
              se_payload_size := zlen payload; se_buf := payload |},
      {| rd_rest := rest; rd_cur := cur + ML_ENTRY_HEADER_SIZE + zlen payload; rd_size := size |}).
Proof.
  intros Ht Hn Hc. unfold next_entry. cbn [rd_size rd_cur]. rewrite (proj2 (Z.leb_gt _ _)) by assumption.
  rewrite <- (zlen_header x payload), fs_read_app, Z.eqb_refl. cbn [negb]. rewrite (zlen_header x payload), (decode_header x payload Ht Hn). cbn [bind].
  rewrite fs_read_app, Z.eqb_refl. cbn [negb]. replace (skipn 4 (entry_header x payload)) with (skipn 4 (entry_header x payload ++ [])) by (now rewrite app_nil_r).
  change (skipn 4 (entry_header x payload ++ [])) with ((encode_i64 (e_timestamp x) ++ encode_i8 (get_type (e_entry x)) ++ encode_i32 (zlen payload)) ++ []).
  rewrite app_nil_r, crc32_update_app, <- !app_assoc. fold (entry_bytes x payload). now rewrite Z.eqb_refl.
Qed.

(** An entry that was written is read back, and what follows it is left. *)
Lemma read_entry_ok x l rest cur size : storable x -> write_entry x = Ok l -> cur + zlen l <= size ->
  read_entry {| rd_rest := l ++ rest; rd_cur := cur; rd_size := size |} = Ok (Some x, {| rd_rest := rest; rd_cur := cur + zlen l; rd_size := size |}).
Proof.
  intros Hx E Hc. destruct (write_entry_ok x Hx) as (payload & Ew & Hn & Hp). rewrite Ew in E. apply Ok_inj in E. subst l.
  rewrite header_split in Hc |- *. destruct Hx as (Ht & _ & Hl). rewrite !zlen_app, zlen_header in Hc |- *. unfold ML_ENTRY_HEADER_SIZE in Hc |- *.
  pose proof (zlen_nonneg payload). unfold read_entry. rewrite <- app_assoc.
  rewrite (next_entry_ok x payload rest) by (assumption || lia). cbn [bind se_type se_buf se_timestamp]. rewrite Hp. cbn [bind].
  unfold ML_ENTRY_HEADER_SIZE. rewrite Z.add_assoc. now destruct x.
Qed.

Lemma cat_written x xs bytes : cat (map write_entry (x :: xs)) = Ok bytes ->
  exists l bs, write_entry x = Ok l /\ cat (map write_entry xs) = Ok bs /\ bytes = l ++ bs.
Proof.
  cbn [map cat]. intros E. apply bind_ok in E as (l & El & E). apply bind_ok in E as (bs & Eb & E). apply Ok_inj in E. eauto.
Qed.

Lemma written_all xs : Forall storable xs -> exists bytes, cat (map write_entry xs) = Ok bytes.
Proof.
  induction 1 as [|x xs Hx _ (bs & Eb)]; [now exists []|]. destruct (write_entry_ok x Hx) as (payload & Ew & _). cbn [map cat]. rewrite Ew, Eb. cbn [bind]. eauto.
Qed.

Lemma cat_app l l' a b : cat l = Ok a -> cat l' = Ok b -> cat (l ++ l') = Ok (a ++ b).
Proof.
  revert a. induction l as [|r l IH]; intros a E E'; [apply Ok_inj in E; now subst a|]. cbn [cat app] in E |- *. apply bind_ok in E as (x & -> & E).
  apply bind_ok in E as (y & Ey & E). apply Ok_inj in E. subst a. cbn [bind]. rewrite (IH y Ey E'). cbn [bind]. now rewrite app_assoc.
Qed.

(** One that is cut off is not. *)
Lemma read_torn x part more cur : storable x -> write_entry x = Ok (part ++ more) -> part <> [] -> more <> [] ->
  read_entry {| rd_rest := part; rd_cur := cur; rd_size := cur + zlen part |} = Throw METALOG_ENTRY_TRUNCATED.
Proof.
  intros Hx E Hp Hm. destruct (write_entry_ok x Hx) as (payload & Ew & Hn & _). rewrite Ew, header_split in E. apply Ok_inj in E. destruct Hx as (Ht & _ & Hl).
  assert (Hlen : 0 < zlen part) by (destruct part; [easy|unfold zlen; cbn; lia]).
  assert (Hlm : 0 < zlen more) by (destruct more; [easy|unfold zlen; cbn; lia]).
  pose proof (f_equal zlen E) as Ez. rewrite !zlen_app, zlen_header in Ez.
  unfold read_entry, next_entry. cbn [rd_size rd_cur]. rewrite (proj2 (Z.leb_gt _ _)) by lia. unfold fs_read at 1. cbn [rd_rest rd_cur rd_size].
  destruct (Z.ltb_spec (zlen part) ML_ENTRY_HEADER_SIZE) as [Hshort|Hlong].
  - rewrite firstn_all2 by (unfold zlen in Hshort; lia). rewrite (proj2 (Z.eqb_neq _ _)) by lia. reflexivity.
  - assert (Es : exists q, part = entry_header x payload ++ q /\ zlen q < zlen payload).
    { exists (skipn 17 part). assert (L : length (entry_header x payload) = 17%nat) by reflexivity. split.
      - rewrite <- (firstn_skipn 17 part) at 1. f_equal. assert (F : firstn 17 (entry_header x payload ++ payload) = firstn 17 (part ++ more)) by now rewrite E.
        rewrite <- L in F at 1. rewrite firstn_app_exact, firstn_app in F. replace (17 - length part)%nat with O in F by (unfold zlen, ML_ENTRY_HEADER_SIZE in Hlong; lia).
        cbn [firstn] in F. now rewrite app_nil_r in F.
      - unfold zlen in *. rewrite length_skipn. unfold ML_ENTRY_HEADER_SIZE in *. lia. }
    destruct Es as (q & -> & Hq). pose proof (zlen_nonneg q). change (Z.to_nat ML_ENTRY_HEADER_SIZE) with (length (entry_header x payload)).
    rewrite firstn_app_exact, skipn_app_exact, zlen_header, Z.eqb_refl. cbn [negb]. rewrite (decode_header x payload Ht) by lia. cbn [bind].
    unfold fs_read. cbn [rd_rest rd_cur rd_size]. rewrite firstn_all2 by (unfold zlen in *; lia). rewrite (proj2 (Z.eqb_neq _ _)) by lia. reflexivity.
Qed.

Lemma open_log bytes : RangeServerMetaLogReader_make (RSML_header ++ bytes) =
  Ok {| rd_rest := bytes; rd_cur := 7; rd_size := 7 + zlen bytes |}.
Proof.
  unfold RangeServerMetaLogReader_make, Reader_open. change RSML_HEADER_SIZE with (zlen RSML_header). rewrite fs_read_app, Z.eqb_refl, zlen_app.
  reflexivity.
Qed.

End Log.
