(* ===== verification/MetaLogRanges.v ===== *)
(** * The range states a meta log records

    [RangeServerMetaLogReader::load_range_states] of
    [Hypertable/Lib/RangeServerMetaLogReader.cc]: a server that starts again reads its
    meta log from the beginning, and has for every range it had loaded where the range
    begins and ends and how far it was with a split. *)
From S2P Require Import Prelude Errors Serialization ByteString Wire MetaLog.
From Stdlib Require Import ZArith Lia List Bool Sorted.
Import ListNotations.
Open Scope Z_scope.
Open Scope result_scope.

Record RangeStateInfo := {
  si_table : TableIdentifier; si_range : RangeSpec; si_state : RangeState; si_timestamp : Z; si_transactions : list stamped }.

(** ** [RsiSet] *)

(** What [RsiSetTraits] compares: the table's id and the C string of the end row. *)
Definition rsi_key := (Z * list Z)%type.
Definition key_of (t : TableIdentifier) (r : RangeSpec) : rsi_key := (ti_id t, until_nul (rs_end_row r)).
Definition info_key (i : RangeStateInfo) : rsi_key := key_of (si_table i) (si_range i).

Definition rsi_ltb (x y : rsi_key) : bool :=
  if fst x <? fst y then true else if fst y <? fst x then false else bytes_ltb (snd x) (snd y).

(** The set, in its order. *)
Definition RsiSet := list RangeStateInfo.

Fixpoint rsi_find (k : rsi_key) (s : RsiSet) : option RangeStateInfo :=
  match s with
  | [] => None
  | i :: s => if rsi_ltb (info_key i) k then rsi_find k s else if rsi_ltb k (info_key i) then None else Some i
  end.
Fixpoint rsi_insert (i : RangeStateInfo) (s : RsiSet) : RsiSet :=
  match s with
  | [] => [i]
  | j :: s' => if rsi_ltb (info_key j) (info_key i) then j :: rsi_insert i s'
               else if rsi_ltb (info_key i) (info_key j) then i :: s else s
  end.
(** [( *it)->... = ...]: the element found is changed where it is. *)
Fixpoint rsi_alter (f : RangeStateInfo -> RangeStateInfo) (k : rsi_key) (s : RsiSet) : RsiSet :=
  match s with
  | [] => []
  | i :: s => if rsi_ltb (info_key i) k then i :: rsi_alter f k s else f i :: s
  end.

(** ** [load_entry] *)

Definition add_transaction (x : stamped) (st : RangeState) (i : RangeStateInfo) : RangeStateInfo :=
  {| si_table := si_table i; si_range := si_range i; si_state := st; si_timestamp := si_timestamp i; si_transactions := si_transactions i ++ [x] |}.
Definition set_range (r : RangeSpec) (i : RangeStateInfo) : RangeStateInfo :=
  {| si_table := si_table i; si_range := r; si_state := si_state i; si_timestamp := si_timestamp i; si_transactions := si_transactions i |}.
Definition end_transaction (i : RangeStateInfo) : RangeStateInfo :=
  {| si_table := si_table i; si_range := si_range i; si_state := RangeState_clear (si_state i); si_timestamp := si_timestamp i; si_transactions := [] |}.

(** [transactions.front()->get_type() == RS_SPLIT_START] *)
Definition is_splitting (i : RangeStateInfo) : bool :=
  match si_transactions i with [] => false | x :: _ => get_type (e_entry x) =? RS_SPLIT_START end.

Definition load_entry (s : RsiSet) (x : stamped) : result RsiSet :=
  match e_entry x with
  | RangeLoaded t r st =>
      Ok (rsi_insert {| si_table := t; si_range := r; si_state := st; si_timestamp := e_timestamp x; si_transactions := [] |} s)
  | SplitStart t r _ st =>
      match rsi_find (key_of t r) s with
      | None => Throw METALOG_ENTRY_BAD_ORDER
      | Some _ => Ok (rsi_alter (add_transaction x st) (key_of t r) s)
      end
  | SplitDone t r =>
      match rsi_find (key_of t r) s with
      | Some i => if is_splitting i then Ok (rsi_alter end_transaction (key_of t r) s) else Throw METALOG_ENTRY_BAD_ORDER
      | None => Throw METALOG_ENTRY_BAD_ORDER
      end
  | SplitShrunk t r st =>
      match rsi_find (key_of t r) s with
      | Some i => if is_splitting i then Ok (rsi_alter (fun i => set_range r (add_transaction x st i)) (key_of t r) s)
                  else Throw METALOG_ENTRY_BAD_ORDER
      | None => Throw METALOG_ENTRY_BAD_ORDER
      end
  | MoveStart _ _ _ | MovePrepared _ _ | MoveDone _ _ => Ok s
  | DropTable t => Ok (filter (fun i => negb (ti_id (si_table i) =? ti_id t)) s)
  end.

Fixpoint load_entries (s : RsiSet) (l : list stamped) : result RsiSet :=
  match l with
  | [] => Ok s
  | x :: l => s <- load_entry s x ;; load_entries s l
  end.

Section Load.
Context `{Crc32}.

(** [for (MetaLogEntry *p = read(); p; p = read())]; [None] when the rounds allowed are used up. *)
Fixpoint load_loop (fuel : nat) (rd : Reader) (s : RsiSet) : option (result (RsiSet * Reader)) :=
  match fuel with
  | O => None
  | S fuel =>
      match read_entry rd with
      | Ok (None, rd) => Some (Ok (s, rd))
      | Ok (Some x, rd) =>
          match load_entry s x with
          | Ok s => load_loop fuel rd s
          | Throw c => Some (Throw c)
          | Fault => Some Fault
          end
      | Throw c => Some (Throw c)
      | Fault => Some Fault
      end
  end.

(** A reader with the states it has loaded. *)
Record StateReader := { sr_reader : Reader; m_range_states : list RangeStateInfo }.

Definition StateReader_make (file : list Z) : result StateReader :=
  rd <- RangeServerMetaLogReader_make file ;; Ok {| sr_reader := rd; m_range_states := [] |}.

Definition load_here (fuel : nat) (sr : StateReader) : option (result StateReader) :=
  match load_loop fuel (sr_reader sr) [] with
  | Some r => Some ('(s, rd) <- r ;; Ok {| sr_reader := rd; m_range_states := m_range_states sr ++ s |})
  | None => None
  end.

(** [file]: what the log holds when the reader opens it once more. *)
Definition load_range_states (fuel : nat) (force : bool) (file : list Z) (sr : StateReader) : option (result StateReader) :=
  if negb force && negb (zlen (m_range_states sr) =? 0) then Some (Ok sr)
  else if RSML_HEADER_SIZE <? rd_cur (sr_reader sr) then
    match StateReader_make file with
    | Ok p =>
        match load_here fuel p with
        | Some r => Some (p <- r ;; Ok {| sr_reader := sr_reader sr; m_range_states := m_range_states p |})
        | None => None
        end
    | Throw c => Some (Throw c)
    | Fault => Some Fault
    end
  else load_here fuel sr.

(** What a server that starts does: [new RangeServerMetaLogReader] and [load_range_states]. *)
Definition recover_states (fuel : nat) (file : list Z) : option (result (list RangeStateInfo)) :=
  match StateReader_make file with
  | Ok sr => match load_range_states fuel false file sr with Some r => Some (sr <- r ;; Ok (m_range_states sr)) | None => None end
  | Throw c => Some (Throw c)
  | Fault => Some Fault
  end.

(** ** Reading and loading *)

Lemma load_entries_app l l' : forall s, load_entries s (l ++ l') = (s <- load_entries s l ;; load_entries s l').
Proof. induction l as [|x l IH]; intros s; [reflexivity|]. cbn [load_entries app]. destruct (load_entry s x); cbn [bind]; auto. Qed.

(** The entries in front of more of the file are loaded one after the other. *)
Lemma load_loop_app xs : Forall storable xs -> forall bytes rest cur size fuel s, cat (map write_entry xs) = Ok bytes -> cur + zlen bytes <= size ->
  load_loop (length xs + fuel) {| rd_rest := bytes ++ rest; rd_cur := cur; rd_size := size |} s =
  match load_entries s xs with
  | Ok s => load_loop fuel {| rd_rest := rest; rd_cur := cur + zlen bytes; rd_size := size |} s
  | Throw c => Some (Throw c)
  | Fault => Some Fault
  end.
Proof.
  induction 1 as [|x xs Hx Hs IH]; intros bytes rest cur size fuel s E Hc.
  - cbn in E. injection E as <-. change (zlen []) with 0. now rewrite Z.add_0_r.
  - apply cat_written in E as (l & bs & El & Eb & ->). rewrite zlen_app in Hc |- *. pose proof (zlen_nonneg bs).
    cbn [length Nat.add load_loop]. rewrite <- app_assoc, (read_entry_ok x l) by (assumption || lia). cbn [load_entries].
    destruct (load_entry s x) as [s'| |]; cbn [bind]; try reflexivity. rewrite (IH bs rest) by (assumption || lia). now rewrite Z.add_assoc.
Qed.

Lemma open_states bytes : StateReader_make (RSML_header ++ bytes) =
  Ok {| sr_reader := {| rd_rest := bytes; rd_cur := 7; rd_size := 7 + zlen bytes |}; m_range_states := [] |}.
Proof. unfold StateReader_make. now rewrite open_log. Qed.

(** A log that was written completely: the states are those its entries make. *)
Lemma recover_whole xs bytes fuel : Forall storable xs -> cat (map write_entry xs) = Ok bytes ->
  recover_states (length xs + S fuel) (RSML_header ++ bytes) = Some (load_entries [] xs).
Proof.
  intros Hs E. unfold recover_states. rewrite open_states. cbn [load_range_states m_range_states sr_reader rd_cur negb andb zlen length Z.of_nat Z.eqb RSML_HEADER_SIZE Z.ltb Z.compare Pos.compare Pos.compare_cont].
  unfold load_here. cbn [sr_reader m_range_states]. rewrite <- (app_nil_r bytes) at 1. rewrite (load_loop_app xs Hs bytes []) by (exact E || lia).
  destruct (load_entries [] xs) as [s| |]; try reflexivity. cbn [load_loop]. unfold read_entry, next_entry. cbn [rd_size rd_cur]. now rewrite Z.leb_refl.
Qed.

(** One whose last entry is cut off cannot be loaded. *)
Lemma recover_torn xs s bytes x part more fuel : Forall storable xs -> cat (map write_entry xs) = Ok bytes -> load_entries [] xs = Ok s ->
  storable x -> write_entry x = Ok (part ++ more) -> part <> [] -> more <> [] ->
  recover_states (length xs + S fuel) (RSML_header ++ bytes ++ part) = Some (Throw METALOG_ENTRY_TRUNCATED).
Proof.
  intros Hs E El Hx Ex Hp Hm. pose proof (zlen_nonneg part). unfold recover_states. rewrite open_states.
  cbn [load_range_states m_range_states sr_reader rd_cur negb andb zlen length Z.of_nat Z.eqb RSML_HEADER_SIZE Z.ltb Z.compare Pos.compare Pos.compare_cont].
  unfold load_here. cbn [sr_reader m_range_states]. rewrite (load_loop_app xs Hs bytes part) by (exact E || (rewrite zlen_app; lia)). rewrite El.
  cbn [load_loop]. rewrite zlen_app, Z.add_assoc. now rewrite (read_torn x part more) by assumption.
Qed.

(** Once loaded, the states are kept; loading them by force opens the log once more
    and gives those of the entries it then has. *)
Lemma load_again xs bytes fuel fuel' sr file : Forall storable xs -> cat (map write_entry xs) = Ok bytes -> load_entries [] xs = Ok (m_range_states sr) ->
  7 < rd_cur (sr_reader sr) -> m_range_states sr <> [] ->
  load_range_states fuel' false file sr = Some (Ok sr) /\
  load_range_states (length xs + S fuel) true (RSML_header ++ bytes) sr = Some (Ok sr).
Proof.
  intros Hs E El Hc Hn. split.
  - unfold load_range_states. destruct (m_range_states sr); [easy|reflexivity].
  - unfold load_range_states. cbn [negb andb]. unfold RSML_HEADER_SIZE. rewrite (proj2 (Z.ltb_lt _ _)) by assumption. rewrite open_states. unfold load_here.
    cbn [sr_reader m_range_states]. rewrite <- (app_nil_r bytes) at 1. rewrite (load_loop_app xs Hs bytes []) by (exact E || lia). rewrite El.
    cbn [load_loop]. unfold read_entry, next_entry. cbn [rd_size rd_cur]. rewrite Z.leb_refl. cbn. now destruct sr.
Qed.
End Load.

(** ** The set as a map *)

Lemma rsi_ltb_irrefl x : rsi_ltb x x = false.
Proof. unfold rsi_ltb. rewrite Z.ltb_irrefl. apply bytes_ltb_ge. apply bytes_lt_irrefl. Qed.

Lemma rsi_ltb_spec x y : rsi_ltb x y = true <-> fst x < fst y \/ (fst x = fst y /\ bytes_lt (snd x) (snd y)).
Proof.
  unfold rsi_ltb. destruct (Z.ltb_spec (fst x) (fst y)); [split; [auto|reflexivity]|]. destruct (Z.ltb_spec (fst y) (fst x)); [split; [discriminate|lia]|].
  rewrite bytes_ltb_lt. split; [right; split; [lia|assumption]|]. intros [?|[_ ?]]; [lia|assumption].
Qed.

Lemma rsi_ltb_trans x y z : rsi_ltb x y = true -> rsi_ltb y z = true -> rsi_ltb x z = true.
Proof.
  rewrite !rsi_ltb_spec. intros [?|[E1 H1]] [?|[E2 H2]]; [left; lia..|]. right. split; [lia|]. eapply bytes_lt_trans; eassumption.
Qed.

Lemma rsi_ltb_antisym x y : rsi_ltb x y = true -> rsi_ltb y x = false.
Proof. intros E. destruct (rsi_ltb y x) eqn:F; [|reflexivity]. rewrite <- (rsi_ltb_irrefl x). symmetry. eapply rsi_ltb_trans; eassumption. Qed.

Lemma rsi_ltb_eq x y : rsi_ltb x y = false -> rsi_ltb y x = false -> x = y.
Proof.
  intros E F. assert (H1 : ~ rsi_ltb x y = true) by congruence. assert (H2 : ~ rsi_ltb y x = true) by congruence. rewrite rsi_ltb_spec in H1, H2.
  destruct x as [a u], y as [b v]. cbn in *. assert (a = b) by lia. subst b. f_equal. destruct (bytes_trichotomy u v) as [H|[H|H]]; [tauto|assumption|tauto].
Qed.

Definition sorted (s : RsiSet) : Prop := StronglySorted (fun i j => rsi_ltb (info_key i) (info_key j) = true) s.

Lemma rsi_find_key k s i : rsi_find k s = Some i -> info_key i = k.
Proof.
  induction s as [|j s IH]; [discriminate|]. cbn [rsi_find]. destruct (rsi_ltb (info_key j) k) eqn:E; [assumption|].
  destruct (rsi_ltb k (info_key j)) eqn:F; [discriminate|]. intros [= <-]. now apply rsi_ltb_eq.
Qed.

(** A key in front of all elements is not found. *)
Lemma rsi_find_before k s : Forall (fun j => rsi_ltb k (info_key j) = true) s -> rsi_find k s = None.
Proof. destruct 1 as [|j s Hj _]; [reflexivity|]. cbn [rsi_find]. now rewrite (rsi_ltb_antisym _ _ Hj), Hj. Qed.

Lemma before_all (k k' : rsi_key) s : rsi_ltb k k' = true -> Forall (fun j => rsi_ltb k' (info_key j) = true) s -> Forall (fun j => rsi_ltb k (info_key j) = true) s.
Proof. intros Hk. apply Forall_impl. intros j. now apply rsi_ltb_trans. Qed.

Lemma rsi_insert_ok i s : sorted s -> sorted (rsi_insert i s) /\
  rsi_find (info_key i) (rsi_insert i s) = Some (match rsi_find (info_key i) s with Some j => j | None => i end) /\
  (forall k, k <> info_key i -> rsi_find k (rsi_insert i s) = rsi_find k s) /\
  (forall k, rsi_ltb k (info_key i) = true -> Forall (fun j => rsi_ltb k (info_key j) = true) s -> Forall (fun j => rsi_ltb k (info_key j) = true) (rsi_insert i s)).
Proof.
  induction 1 as [|j s Hs (IH1 & IH2 & IH3 & IH4) Hj]; cbn [rsi_insert rsi_find].
  - rewrite rsi_ltb_irrefl. repeat split; [repeat constructor| |intros k Hk _; now constructor].
    intros k Hk. destruct (rsi_ltb (info_key i) k) eqn:E; [reflexivity|]. destruct (rsi_ltb k (info_key i)) eqn:F; [reflexivity|]. now destruct Hk; apply rsi_ltb_eq.
  - destruct (rsi_ltb (info_key j) (info_key i)) eqn:E.
    + cbn [rsi_find]. rewrite E. split; [constructor; [assumption|now apply IH4]|]. split; [assumption|]. split; [intros k Hk; now rewrite IH3|].
      intros k Hk Hf. inversion Hf; subst. constructor; auto.
    + destruct (rsi_ltb (info_key i) (info_key j)) eqn:F.
      * assert (Hb : Forall (fun x => rsi_ltb (info_key i) (info_key x) = true) (j :: s)) by (constructor; [assumption|now apply (before_all _ (info_key j))]).
        split; [constructor; [now constructor|assumption]|]. cbn [rsi_find]. rewrite rsi_ltb_irrefl. split; [reflexivity|]. split; [|intros; now constructor].
        intros k Hk. destruct (rsi_ltb (info_key i) k) eqn:G; [reflexivity|]. destruct (rsi_ltb k (info_key i)) eqn:G'; [|now destruct Hk; apply rsi_ltb_eq].
        change (None = rsi_find k (j :: s)). symmetry. apply rsi_find_before. now apply (before_all _ (info_key i)).
      * cbn [rsi_find]. rewrite E, F. repeat split; auto. now constructor.
Qed.

Lemma rsi_alter_ok f k s : sorted s -> (forall i, rsi_find k s = Some i -> info_key (f i) = k) -> forall i, rsi_find k s = Some i ->
  sorted (rsi_alter f k s) /\ rsi_find k (rsi_alter f k s) = Some (f i) /\ (forall k', k' <> k -> rsi_find k' (rsi_alter f k s) = rsi_find k' s) /\
  (forall k', Forall (fun j => rsi_ltb k' (info_key j) = true) s -> Forall (fun j => rsi_ltb k' (info_key j) = true) (rsi_alter f k s)).
Proof.
  induction 1 as [|j s Hs IH Hj]; [discriminate|]. cbn [rsi_find rsi_alter]. intros Hf i. destruct (rsi_ltb (info_key j) k) eqn:E.
  - intros Hi. destruct (IH Hf i Hi) as (IH1 & IH2 & IH3 & IH4). cbn [rsi_find]. rewrite E. split; [constructor; auto|]. split; [assumption|].
    split; [intros k' Hk; now rewrite IH3|]. intros k' Hk'. inversion Hk'; subst. constructor; auto.
  - destruct (rsi_ltb k (info_key j)) eqn:F; [discriminate|]. intros [= <-]. assert (Ek : info_key (f j) = info_key j) by (rewrite (Hf j eq_refl); symmetry; now apply rsi_ltb_eq).
    cbn [rsi_find]. rewrite Ek, E, F. split; [constructor; [assumption|now rewrite Ek]|]. split; [reflexivity|].
    split; [|intros k' Hk'; inversion Hk'; subst; constructor; [now rewrite Ek|assumption]]. intros k' Hk'. destruct (rsi_ltb (info_key j) k') eqn:G; [reflexivity|].
    destruct (rsi_ltb k' (info_key j)) eqn:G'; [reflexivity|]. destruct Hk'. rewrite (rsi_ltb_eq _ _ G' G). symmetry. now apply rsi_ltb_eq.
Qed.

Lemma rsi_filter_ok (f : Z -> bool) s : sorted s -> sorted (filter (fun i => f (ti_id (si_table i))) s) /\
  forall k, rsi_find k (filter (fun i => f (ti_id (si_table i))) s) = if f (fst k) then rsi_find k s else None.
Proof.
  induction 1 as [|j s Hs [IH1 IH2] Hj]; [split; [constructor|]; intros k; now destruct (f (fst k))|].
  assert (Hn : forall k, rsi_ltb (info_key j) k = false -> rsi_ltb k (info_key j) = true -> (if f (fst k) then rsi_find k s else None) = None).
  { intros k _ F. rewrite rsi_find_before by now apply (before_all _ (info_key j)). now destruct (f (fst k)). }
  cbn [filter]. destruct (f (ti_id (si_table j))) eqn:Ef.
  - split; [constructor; [assumption|]|]. { rewrite Forall_forall in Hj |- *. intros x Hx. apply filter_In in Hx as [Hx _]. auto. }
    intros k. cbn [rsi_find]. destruct (rsi_ltb (info_key j) k) eqn:E; [apply IH2|]. destruct (rsi_ltb k (info_key j)) eqn:F; [now destruct (f (fst k))|].
    replace (fst k) with (ti_id (si_table j)) by (rewrite <- (rsi_ltb_eq _ _ E F); reflexivity). now rewrite Ef.
  - split; [assumption|]. intros k. rewrite IH2. cbn [rsi_find]. destruct (rsi_ltb (info_key j) k) eqn:E; [reflexivity|].
    destruct (rsi_ltb k (info_key j)) eqn:F; [now rewrite Hn by assumption; destruct (f (fst k))|].
    replace (fst k) with (ti_id (si_table j)) by (rewrite <- (rsi_ltb_eq _ _ E F); reflexivity). now rewrite Ef.
Qed.

(** ** What is recorded of one range *)

(** The range an entry is about, and what it makes of what was recorded of it. *)
Definition about (e : MetaLogEntry) : option rsi_key :=
  match e with
  | RangeLoaded t r _ | SplitStart t r _ _ | SplitShrunk t r _ | SplitDone t r => Some (key_of t r)
  | MoveStart _ _ _ | MovePrepared _ _ | MoveDone _ _ | DropTable _ => None
  end.

Definition replay (o : option RangeStateInfo) (x : stamped) : result (option RangeStateInfo) :=
  match e_entry x, o with
  | RangeLoaded t r st, None => Ok (Some {| si_table := t; si_range := r; si_state := st; si_timestamp := e_timestamp x; si_transactions := [] |})
  | SplitStart _ _ _ st, Some i => Ok (Some (add_transaction x st i))
  | SplitShrunk _ r st, Some i => if is_splitting i then Ok (Some (set_range r (add_transaction x st i))) else Throw METALOG_ENTRY_BAD_ORDER
  | SplitDone _ _, Some i => if is_splitting i then Ok (Some (end_transaction i)) else Throw METALOG_ENTRY_BAD_ORDER
  | SplitStart _ _ _ _, None | SplitShrunk _ _ _, None | SplitDone _ _, None => Throw METALOG_ENTRY_BAD_ORDER
  | _, o => Ok o
  end.

(** An entry changes what is recorded of its range, and of no other. *)
Lemma load_entry_at s x k : sorted s -> about (e_entry x) = Some k ->
  match replay (rsi_find k s) x with
  | Ok o => exists s', load_entry s x = Ok s' /\ sorted s' /\ rsi_find k s' = o /\ forall k', k' <> k -> rsi_find k' s' = rsi_find k' s
  | Throw c => load_entry s x = Throw c
  | Fault => False
  end.
Proof.
  intros Hs. unfold load_entry, replay. destruct x as [ts e]. cbn [e_entry e_timestamp]. destruct e as [t r st|t r o st|t r st|t r|t r st|t r|t r|t]; try discriminate; intros [= <-].
  - set (i := Build_RangeStateInfo t r st ts []). destruct (rsi_insert_ok i s Hs) as (H1 & H2 & H3 & _). change (info_key i) with (key_of t r) in *.
    destruct (rsi_find (key_of t r) s) eqn:E; (eexists; split; [reflexivity|]; split; [assumption|]; split; [now rewrite H2|assumption]).
  - destruct (rsi_find (key_of t r) s) as [i|] eqn:E; [|reflexivity]. destruct (rsi_alter_ok (add_transaction {| e_timestamp := ts; e_entry := SplitStart t r o st |} st) (key_of t r) s Hs) with (i := i) as (H1 & H2 & H3 & _); eauto.
    intros j Hj. now apply rsi_find_key in Hj.
  - destruct (rsi_find (key_of t r) s) as [i|] eqn:E; [|reflexivity]. destruct (is_splitting i); [|reflexivity].
    destruct (rsi_alter_ok (fun i => set_range r (add_transaction {| e_timestamp := ts; e_entry := SplitShrunk t r st |} st i)) (key_of t r) s Hs) with (i := i) as (H1 & H2 & H3 & _); eauto.
    intros j Hj. apply rsi_find_key in Hj. unfold info_key, key_of in Hj |- *. cbn. congruence.
  - destruct (rsi_find (key_of t r) s) as [i|] eqn:E; [|reflexivity]. destruct (is_splitting i); [|reflexivity].
    destruct (rsi_alter_ok end_transaction (key_of t r) s Hs) with (i := i) as (H1 & H2 & H3 & _); eauto.
    intros j Hj. now apply rsi_find_key in Hj.
Qed.

Lemma load_entry_sorted s x s' : sorted s -> load_entry s x = Ok s' -> sorted s'.
Proof.
  intros Hs E. destruct (about (e_entry x)) as [k|] eqn:Ea.
  - pose proof (load_entry_at s x k Hs Ea) as H. destruct (replay _ x) as [o| |]; [|congruence|easy]. destruct H as (s2 & E2 & H2 & _). congruence.
  - unfold load_entry in E. destruct (e_entry x); try discriminate; apply Ok_inj in E; subst; try assumption. now apply (rsi_filter_ok (fun id => negb (id =? ti_id t))).
Qed.

Lemma load_sorted l : forall s s', sorted s -> load_entries s l = Ok s' -> sorted s'.
Proof.
  induction l as [|x l IH]; intros s s' Hs E; [now apply Ok_inj in E; subst|]. cbn [load_entries] in E. apply bind_ok in E as (s1 & E1 & E).
  eapply IH; [|eassumption]. eapply load_entry_sorted; eassumption.
Qed.

(** After [DropTable] no range of the table is left; other tables keep theirs. *)
Lemma drop_table_loaded s ts t : sorted s -> exists s', load_entry s {| e_timestamp := ts; e_entry := DropTable t |} = Ok s' /\ sorted s' /\
  forall k, rsi_find k s' = if fst k =? ti_id t then None else rsi_find k s.
Proof.
  intros Hs. destruct (rsi_filter_ok (fun id => negb (id =? ti_id t)) s Hs) as [H1 H2]. eexists. split; [reflexivity|]. split; [exact H1|].
  intros k. rewrite H2. now destruct (fst k =? ti_id t).
Qed.
