(* ===== verification/MetaLogFiles.v ===== *)
(** * The file of a meta log

    [Hypertable/Lib/MetaLogDfsBase.cc] and [RangeServerMetaLog.cc]: opening the log,
    which copies one that exists to a new file of the same name, writing entries to it,
    and purging it. The file system is an argument, the class [LogFs]; what is relied on
    is [LogFsLaws], and that calls succeed is [Works]. *)
From S2P Require Import Prelude Errors Serialization ByteString Wire MetaLog MetaLogRanges.
From Stdlib Require Import ZArith Lia List Bool.
Import ListNotations.
Open Scope Z_scope.
Open Scope result_scope.

(** [Hypertable/Lib/Filesystem.h], the calls of the meta log. A path names a file, and a
    descriptor stands for the file, whatever its name becomes; reading keeps the position
    with the caller. Calls give the new state also when they fail. *)
Class LogFs (F : Type) := {
  fs_file : F -> list Z -> option nat;
  fs_bytes : F -> nat -> list Z;
  fs_exists : list Z -> F -> result bool * F;
  fs_rename : list Z -> list Z -> F -> result unit * F;
  fs_open : list Z -> F -> result nat * F;
  fs_create : list Z -> bool -> F -> result nat * F;
  fs_pread : nat -> Z -> Z -> F -> result (list Z) * F;
  fs_append : nat -> list Z -> F -> result Z * F;
  fs_close : nat -> F -> result unit * F;
  fs_remove : list Z -> F -> result unit * F }.

(** The paths other than [ps], and the files other than [ns], are as they were. *)
Definition kept {F} `{LogFs F} (ps : list (list Z)) (ns : list nat) (f f' : F) : Prop :=
  (forall p, ~ In p ps -> fs_file f' p = fs_file f p) /\ forall n, ~ In n ns -> fs_bytes f' n = fs_bytes f n.

(** What a call does that succeeds; the end of a file is where a read is short. *)
Class LogFsLaws (F : Type) `{LogFs F} := {
  fs_named f p q n : fs_file f p = Some n -> fs_file f q = Some n -> p = q;
  exists_ok p f b f' : fs_exists p f = (Ok b, f') -> kept [] [] f f' /\ b = (match fs_file f p with Some _ => true | None => false end);
  rename_ok p q f f' n : fs_rename p q f = (Ok tt, f') -> fs_file f p = Some n -> p <> q ->
    kept [p; q] [] f f' /\ fs_file f' p = None /\ fs_file f' q = Some n;
  open_ok p f n f' : fs_open p f = (Ok n, f') -> kept [] [] f f' /\ fs_file f p = Some n;
  create_new p b f n f' : fs_create p b f = (Ok n, f') -> fs_file f p = None ->
    kept [p] [n] f f' /\ fs_file f' p = Some n /\ fs_bytes f' n = [] /\ forall q, fs_file f q <> Some n;
  create_old p f n m f' : fs_create p false f = (Ok n, f') -> fs_file f p = Some m -> kept [] [] f f' /\ n = m;
  pread_ok n pos len f l f' : fs_pread n pos len f = (Ok l, f') ->
    kept [] [] f f' /\ l = firstn (Z.to_nat len) (skipn (Z.to_nat pos) (fs_bytes f n));
  append_ok n b f k f' : fs_append n b f = (Ok k, f') -> kept [] [n] f f' /\ k = zlen b /\ fs_bytes f' n = fs_bytes f n ++ b;
  close_ok n f f' : fs_close n f = (Ok tt, f') -> kept [] [] f f';
  remove_ok p f f' : fs_remove p f = (Ok tt, f') -> kept [p] [] f f' /\ fs_file f' p = None }.

(** Calls that may be made succeed. *)
Class Works (F : Type) `{LogFs F} := {
  exists_works p f : exists b f', fs_exists p f = (Ok b, f');
  rename_works p q f n : fs_file f p = Some n -> exists f', fs_rename p q f = (Ok tt, f');
  open_works p f n : fs_file f p = Some n -> exists m f', fs_open p f = (Ok m, f');
  create_works p b f : exists n f', fs_create p b f = (Ok n, f');
  pread_works n pos len f : exists l f', fs_pread n pos len f = (Ok l, f');
  append_works n b f : exists k f', fs_append n b f = (Ok k, f');
  close_works n f : exists f', fs_close n f = (Ok tt, f');
  remove_works p f n : fs_file f p = Some n -> exists f', fs_remove p f = (Ok tt, f') }.

Section Files.
Context {F : Type} `{FS : LogFs F} `{Crc : Crc32}.

(** ** Code that calls the file system *)

Definition fsm (A : Type) := F -> result A * F.
Definition fs_ret {A} (a : A) : fsm A := fun f => (Ok a, f).
Definition fs_lift {A} (r : result A) : fsm A := fun f => (r, f).
Definition fs_bind {A B} (m : fsm A) (k : A -> fsm B) : fsm B := fun f =>
  let '(r, f) := m f in match r with Ok a => k a f | Throw c => (Throw c, f) | Fault => (Fault, f) end.

Notation "x <== m ;; k" := (fs_bind m (fun x => k)) (at level 100, m at next level, k at level 200, right associativity).

Record MetaLogFile := { ml_newfile : bool; ml_path : list Z; ml_fd : nat }.

Definition DFS_XFER_SIZE : Z := 32768.
Definition tmp_path (path : list Z) : list Z := path ++ [46; 116; 109; 112].

(** [while (nread == DFS_XFER_SIZE)], with the number of rounds it may take. *)
Fixpoint copy_loop (rounds : nat) (tmp_fd : nat) (pos : Z) (fd : nat) : fsm unit :=
  match rounds with
  | O => fs_lift Fault
  | S rounds =>
      buf <== fs_pread tmp_fd pos DFS_XFER_SIZE ;;
      _ <== (if 0 <? zlen buf
             then nwritten <== fs_append fd buf ;; if negb (nwritten =? zlen buf) then fs_lift (Throw DFSBROKER_IO_ERROR) else fs_ret tt
             else fs_ret tt) ;;
      if zlen buf =? DFS_XFER_SIZE then copy_loop rounds tmp_fd (pos + DFS_XFER_SIZE) fd else fs_ret tt
  end.

(** A file of [n] bytes takes [n / DFS_XFER_SIZE + 1] rounds. *)
Definition copy_file (tmp_fd fd : nat) : fsm unit := fun f =>
  copy_loop (S (Z.to_nat (zlen (fs_bytes f tmp_fd) / DFS_XFER_SIZE))) tmp_fd 0 fd f.

Definition MetaLogDfsBase_make (path : list Z) : fsm MetaLogFile :=
  e <== fs_exists path ;;
  if e : bool then
    _ <== fs_rename path (tmp_path path) ;;
    tmp_fd <== fs_open (tmp_path path) ;;
    fd <== fs_create path false ;;
    _ <== copy_file tmp_fd fd ;;
    _ <== fs_close tmp_fd ;;
    _ <== fs_remove (tmp_path path) ;;
    fs_ret {| ml_newfile := false; ml_path := path; ml_fd := fd |}
  else fd <== fs_create path false ;; fs_ret {| ml_newfile := true; ml_path := path; ml_fd := fd |}.

Definition RangeServerMetaLog_make (path : list Z) : fsm MetaLogFile :=
  l <== MetaLogDfsBase_make path ;;
  if negb (ml_newfile l) then fs_ret l
  else n <== fs_append (ml_fd l) RSML_header ;; if negb (n =? RSML_HEADER_SIZE) then fs_lift (Throw DFSBROKER_IO_ERROR) else fs_ret l.

(** [MetaLogDfsBase::write]; what [append] returns is not looked at. *)
Definition log_write (l : MetaLogFile) (x : stamped) : fsm unit :=
  b <== fs_lift (write_entry x) ;; _ <== fs_append (ml_fd l) b ;; fs_ret tt.
Fixpoint log_writes (l : MetaLogFile) (xs : list stamped) : fsm unit :=
  match xs with [] => fs_ret tt | x :: xs => _ <== log_write l x ;; log_writes l xs end.

(** [RangeServerMetaLog::purge]: [now] is the time of the new entries, [pid] that of the
    process as a string, [order] what [std::sort] makes of the entries. *)
Definition purged_entries (now : Z) (rs : list RangeStateInfo) : list stamped :=
  flat_map (fun i => match si_transactions i with
    | [] => [{| e_timestamp := now; e_entry := RangeLoaded (si_table i) (si_range i)
                 {| st_state := STEADY; st_timestamp := {| logical := 0; real := 0 |}; st_soft_limit := st_soft_limit (si_state i);
                    st_transfer_log := []; st_split_point := []; st_old_start_row := [] |} |}]
    | l => l
    end) rs.
Definition save_path (path : list Z) : list Z := path ++ [46; 115; 97; 118; 101].
Definition log_purge (now : Z) (pid : list Z) (order : list stamped -> list stamped) (rs : list RangeStateInfo) (l : MetaLogFile) : fsm MetaLogFile :=
  fd <== fs_create (ml_path l ++ pid) true ;;
  _ <== log_writes l (order (purged_entries now rs)) ;;
  _ <== fs_close fd ;;
  _ <== fs_rename (ml_path l) (save_path (ml_path l)) ;;
  _ <== fs_rename (ml_path l ++ pid) (ml_path l) ;;
  fd <== fs_create (ml_path l) false ;;
  fs_ret {| ml_newfile := ml_newfile l; ml_path := ml_path l; ml_fd := fd |}.

(** What the log of a path holds. *)
Definition log_bytes (path : list Z) (f : F) : option (list Z) := match fs_file f path with Some n => Some (fs_bytes f n) | None => None end.

(** ** Opening and writing *)

Context {Laws : LogFsLaws F} {Wk : Works F}.

Lemma bind_run {A B} (m : fsm A) (k : A -> fsm B) f a f' : m f = (Ok a, f') -> fs_bind m k f = k a f'.
Proof. unfold fs_bind. now intros ->. Qed.

Lemma kept_refl f : kept [] [] f f.
Proof. now split. Qed.

Lemma kept_trans ps ns f1 f2 f3 : kept ps ns f1 f2 -> kept ps ns f2 f3 -> kept ps ns f1 f3.
Proof. intros [A1 A2] [B1 B2]. split; intros x Hx; [rewrite B1, A1|rewrite B2, A2]; auto. Qed.

Lemma kept_more ps ns ps' ns' f f' : incl ps ps' -> incl ns ns' -> kept ps ns f f' -> kept ps' ns' f f'.
Proof. intros Hp Hn [A B]. split; intros x Hx; [apply A|apply B]; auto. Qed.

Lemma xfer_pos : 0 < DFS_XFER_SIZE.
Proof. reflexivity. Qed.
#[local] Opaque DFS_XFER_SIZE.

(** What is behind [pos] is copied, in pieces. *)
Lemma copy_loop_ok rounds tmp fd : tmp <> fd -> forall pos f, 0 <= pos <= zlen (fs_bytes f tmp) -> (zlen (fs_bytes f tmp) - pos) / DFS_XFER_SIZE < Z.of_nat rounds ->
  exists f', copy_loop rounds tmp pos fd f = (Ok tt, f') /\ kept [] [fd] f f' /\ fs_bytes f' fd = fs_bytes f fd ++ skipn (Z.to_nat pos) (fs_bytes f tmp).
Proof.
  intros Hne. pose proof xfer_pos as HX. induction rounds as [|rounds IH]; intros pos f Hp Hr.
  { pose proof (Z.div_pos (zlen (fs_bytes f tmp) - pos) DFS_XFER_SIZE). lia. }
  cbn [copy_loop]. destruct (pread_works tmp pos DFS_XFER_SIZE f) as (l & f1 & E1). rewrite (bind_run _ _ _ _ _ E1). apply pread_ok in E1 as [K1 El].
  set (rest := skipn (Z.to_nat pos) (fs_bytes f tmp)) in *.
  assert (Lr : zlen rest = zlen (fs_bytes f tmp) - pos) by (unfold rest, zlen in *; rewrite length_skipn; lia).
  assert (Ha : exists f2, (if 0 <? zlen l then nwritten <== fs_append fd l ;; if negb (nwritten =? zlen l) then fs_lift (Throw DFSBROKER_IO_ERROR) else fs_ret tt else fs_ret tt) f1
      = (Ok tt, f2) /\ kept [] [fd] f1 f2 /\ fs_bytes f2 fd = fs_bytes f1 fd ++ l).
  { destruct (Z.ltb_spec 0 (zlen l)) as [Hl|Hl].
    - destruct (append_works fd l f1) as (k & f2 & E2). rewrite (bind_run _ _ _ _ _ E2). apply append_ok in E2 as (K2 & -> & B2). rewrite Z.eqb_refl. exists f2. now repeat split; try apply K2.
    - exists f1. split; [reflexivity|]. split; [apply (kept_more [] []); [easy|easy|apply kept_refl]|]. destruct l; [now rewrite app_nil_r|unfold zlen in Hl; cbn in Hl; lia]. }
  destruct Ha as (f2 & E2 & K2 & B2). rewrite (bind_run _ _ _ _ _ E2).
  assert (Bt : fs_bytes f2 tmp = fs_bytes f tmp) by (rewrite (proj2 K2), (proj2 K1); [reflexivity|easy|intros [->|[]]; now apply Hne]).
  assert (K : kept [] [fd] f f2) by (eapply kept_trans; [apply (kept_more [] [] [] [fd] f f1); [easy|easy|exact K1]|exact K2]).
  assert (B : fs_bytes f2 fd = fs_bytes f fd ++ l) by (rewrite B2; f_equal; now apply K1).
  destruct (Z.eqb_spec (zlen l) DFS_XFER_SIZE) as [Hl|Hl].
  - assert (Hlen : DFS_XFER_SIZE <= zlen rest) by (rewrite <- Hl, El; unfold zlen; rewrite length_firstn; lia).
    destruct (IH (pos + DFS_XFER_SIZE) f2) as (f3 & E3 & K3 & B3); [rewrite Bt; lia| |].
    { rewrite Bt. replace (zlen (fs_bytes f tmp) - (pos + DFS_XFER_SIZE)) with (zlen (fs_bytes f tmp) - pos + (-1) * DFS_XFER_SIZE) by lia.
      rewrite Z.div_add by lia. lia. }
    exists f3. split; [assumption|]. split; [now apply (kept_trans _ _ _ f2)|]. rewrite B3, B, Bt, <- app_assoc, El. f_equal.
    rewrite <- (firstn_skipn (Z.to_nat DFS_XFER_SIZE) rest) at 2. f_equal. unfold rest. rewrite skipn_skipn. f_equal. lia.
  - exists f2. split; [reflexivity|]. split; [assumption|]. rewrite B. f_equal. rewrite El. apply firstn_all2.
    assert (zlen l < DFS_XFER_SIZE) by (assert (zlen l <= DFS_XFER_SIZE) by (rewrite El; unfold zlen; rewrite length_firstn; lia); lia).
    rewrite El in H. unfold zlen in H. rewrite length_firstn in H. lia.
Qed.

Lemma tmp_other path : path <> tmp_path path.
Proof. intros E. apply (f_equal (@length Z)) in E. unfold tmp_path in E. rewrite length_app in E. cbn in E. lia. Qed.

(** Files with other names keep what they hold. *)
Lemma log_bytes_kept ps ns f f' p : kept ps ns f f' -> ~ In p ps -> (forall n, fs_file f p = Some n -> ~ In n ns) -> log_bytes p f' = log_bytes p f.
Proof. intros [A B] Hp Hn. unfold log_bytes. rewrite (A p Hp). destruct (fs_file f p) as [n|] eqn:E; [|reflexivity]. now rewrite B by auto. Qed.

(** An existing log: its contents, in a new file of its name. *)
Lemma open_old path f n : fs_file f path = Some n ->
  exists l f', MetaLogDfsBase_make path f = (Ok l, f') /\ ml_newfile l = false /\ fs_file f' path = Some (ml_fd l) /\ fs_bytes f' (ml_fd l) = fs_bytes f n /\
    forall p, p <> path -> p <> tmp_path path -> log_bytes p f' = log_bytes p f.
Proof.
  intros En. pose proof (tmp_other path) as Ht. unfold MetaLogDfsBase_make.
  destruct (exists_works path f) as (b & f1 & E1). rewrite (bind_run _ _ _ _ _ E1). apply exists_ok in E1 as [K1 ->]. rewrite En.
  assert (N1 : fs_file f1 path = Some n) by now rewrite (proj1 K1).
  destruct (rename_works path (tmp_path path) f1 n N1) as (f2 & E2). rewrite (bind_run _ _ _ _ _ E2). apply (rename_ok _ _ _ _ n) in E2 as (K2 & N2 & T2); [|assumption..].
  destruct (open_works (tmp_path path) f2 n T2) as (m & f3 & E3). rewrite (bind_run _ _ _ _ _ E3). apply open_ok in E3 as [K3 M3]. rewrite T2 in M3. injection M3 as <-.
  assert (N3 : fs_file f3 path = None) by now rewrite (proj1 K3). assert (T3 : fs_file f3 (tmp_path path) = Some n) by now rewrite (proj1 K3).
  destruct (create_works path false f3) as (fd & f4 & E4). rewrite (bind_run _ _ _ _ _ E4). apply create_new in E4 as (K4 & N4 & B4 & F4); [|assumption].
  assert (Hfd : n <> fd) by (intros ->; now apply (F4 (tmp_path path))).
  assert (B4' : fs_bytes f4 n = fs_bytes f n) by (rewrite (proj2 K4) by (intros [->|[]]; now apply Hfd); rewrite (proj2 K3), (proj2 K2), (proj2 K1); auto).
  unfold copy_file at 1. destruct (copy_loop_ok (S (Z.to_nat (zlen (fs_bytes f4 n) / DFS_XFER_SIZE))) n fd Hfd 0 f4) as (f5 & E5 & K5 & B5).
  { pose proof (zlen_nonneg (fs_bytes f4 n)). lia. }
  { rewrite Z.sub_0_r. pose proof (zlen_nonneg (fs_bytes f4 n)). pose proof xfer_pos. pose proof (Z.div_pos (zlen (fs_bytes f4 n)) DFS_XFER_SIZE). lia. }
  rewrite (bind_run (copy_file n fd) _ _ _ _ E5). destruct (close_works n f5) as (f6 & E6). rewrite (bind_run _ _ _ _ _ E6). apply close_ok in E6 as K6.
  assert (T6 : fs_file f6 (tmp_path path) = Some n) by (rewrite (proj1 K6), (proj1 K5), (proj1 K4); auto; intros [E|[]]; now apply Ht).
  destruct (remove_works (tmp_path path) f6 n T6) as (f7 & E7). rewrite (bind_run _ _ _ _ _ E7). apply remove_ok in E7 as [K7 _].
  eexists _, f7. split; [reflexivity|]. cbn [ml_newfile ml_fd]. split; [reflexivity|].
  split; [rewrite (proj1 K7), (proj1 K6), (proj1 K5); auto; intros [E|[]]; now apply Ht|]. split; [rewrite (proj2 K7), (proj2 K6), B5, B4, B4' by auto; reflexivity|].
  intros p Hp Hq. assert (Hl : forall q, In q [tmp_path path] \/ In q [path] -> q <> p) by (intros q [[<-|[]]|[<-|[]]]; auto).
  rewrite (log_bytes_kept [tmp_path path] [] f6 f7), (log_bytes_kept [] [] f5 f6) by (auto; intros [E|[]]; auto).
  assert (Hm : forall m, fs_file f3 p = Some m -> m <> fd) by (intros m Em ->; exact (F4 p Em)).
  assert (E34 : fs_file f4 p = fs_file f3 p) by (apply K4; intros [E|[]]; auto).
  rewrite (log_bytes_kept [] [fd] f4 f5), (log_bytes_kept [path] [fd] f3 f4) by (auto; try (intros m Em [E|[]]; subst; apply (Hm m); congruence); intros [E|[]]; auto).
  rewrite (log_bytes_kept [] [] f2 f3), (log_bytes_kept [path; tmp_path path] [] f1 f2), (log_bytes_kept [] [] f f1) by (auto; intros [E|[E|[]]]; auto). reflexivity.
Qed.

(** A log that is new gets the header. *)
Lemma open_new path f : fs_file f path = None ->
  exists l f', RangeServerMetaLog_make path f = (Ok l, f') /\ fs_file f' path = Some (ml_fd l) /\ fs_bytes f' (ml_fd l) = RSML_header /\
    forall p, p <> path -> log_bytes p f' = log_bytes p f.
Proof.
  intros En. unfold RangeServerMetaLog_make. destruct (exists_works path f) as (b & f1 & E1). destruct (create_works path false f1) as (fd & f2 & E2).
  assert (Em : MetaLogDfsBase_make path f = (Ok {| ml_newfile := true; ml_path := path; ml_fd := fd |}, f2)).
  { unfold MetaLogDfsBase_make. rewrite (bind_run _ _ _ _ _ E1). apply exists_ok in E1 as [K1 ->]. rewrite En. now rewrite (bind_run _ _ _ _ _ E2). }
  rewrite (bind_run _ _ _ _ _ Em). cbn [ml_newfile negb ml_fd]. apply exists_ok in E1 as [K1 _]. apply create_new in E2 as (K2 & N2 & B2 & F2); [|now rewrite (proj1 K1)].
  destruct (append_works fd RSML_header f2) as (k & f3 & E3). rewrite (bind_run _ _ _ _ _ E3). apply append_ok in E3 as (K3 & -> & B3).
  eexists _, f3. split; [reflexivity|]. cbn [ml_fd]. split; [now rewrite (proj1 K3)|]. split; [now rewrite B3, B2|]. intros p Hp.
  assert (Hm : forall m, fs_file f1 p = Some m -> ~ In m [fd]) by (intros m Em2 [<-|[]]; exact (F2 p Em2)).
  assert (E12 : fs_file f2 p = fs_file f1 p) by (apply K2; intros [->|[]]; auto).
  rewrite (log_bytes_kept [] [fd] f2 f3) by (auto; intros m; rewrite E12; auto). rewrite (log_bytes_kept [path] [fd] f1 f2) by (auto; intros [->|[]]; auto).
  now rewrite (log_bytes_kept [] [] f f1) by auto.
Qed.

(** Entries are added to the file of the log. *)
Lemma log_writes_ok l xs : Forall storable xs -> forall bytes f, cat (map write_entry xs) = Ok bytes ->
  exists f', log_writes l xs f = (Ok tt, f') /\ kept [] [ml_fd l] f f' /\ fs_bytes f' (ml_fd l) = fs_bytes f (ml_fd l) ++ bytes.
Proof.
  induction 1 as [|x xs Hx _ IH]; intros bytes f Eb.
  - apply Ok_inj in Eb. subst bytes. exists f. rewrite app_nil_r. repeat split.
  - apply cat_written in Eb as (b & bs & Ew & Es & ->). destruct (append_works (ml_fd l) b f) as (k & f1 & E1).
    assert (Ex : log_write l x f = (Ok tt, f1)) by (unfold log_write; rewrite (bind_run _ _ f b f) by (unfold fs_lift; now rewrite Ew); now rewrite (bind_run _ _ _ _ _ E1)).
    cbn [log_writes]. rewrite (bind_run _ _ _ _ _ Ex). apply append_ok in E1 as (K1 & _ & B1). destruct (IH bs f1 Es) as (f2 & E2 & K2 & B2). exists f2.
    split; [assumption|]. split; [now apply (kept_trans _ _ _ f1)|]. now rewrite B2, B1, app_assoc.
Qed.

Lemma open_log_file path f n : fs_file f path = Some n ->
  exists l f', RangeServerMetaLog_make path f = (Ok l, f') /\ fs_file f' path = Some (ml_fd l) /\ fs_bytes f' (ml_fd l) = fs_bytes f n /\
    forall p, p <> path -> p <> tmp_path path -> log_bytes p f' = log_bytes p f.
Proof.
  intros En. destruct (open_old path f n En) as (l & f' & E & Hn & H). exists l, f'. split; [|assumption]. unfold RangeServerMetaLog_make.
  rewrite (bind_run _ _ _ _ _ E). now rewrite Hn.
Qed.

(** C13. A server that starts again opens the meta log it had written, however long it
    is, and goes on writing to it: the next time it starts, the states it loads are
    those of all entries, the ones from before and the new ones, in the order in which
    they were written; and a log that is opened for the first time is one without
    ranges. Other files are left alone. *)
Theorem meta_log_continues path xs ys bytes f fuel : Forall storable (xs ++ ys) -> cat (map write_entry xs) = Ok bytes ->
  log_bytes path f = Some (RSML_header ++ bytes) \/ (log_bytes path f = None /\ xs = []) ->
  exists l f1 f2 file, RangeServerMetaLog_make path f = (Ok l, f1) /\ log_writes l ys f1 = (Ok tt, f2) /\ log_bytes path f2 = Some file /\
    recover_states (length (xs ++ ys) + S fuel) file = Some (load_entries [] (xs ++ ys)) /\
    forall p, p <> path -> p <> tmp_path path -> log_bytes p f2 = log_bytes p f.
Proof.
  intros Hs Ex Hf. destruct (Forall_app storable xs ys) as [Ha _]. destruct (Ha Hs) as [_ Hy].
  destruct (written_all ys Hy) as (more & Ey).
  assert (Ho : exists l f1, RangeServerMetaLog_make path f = (Ok l, f1) /\ fs_file f1 path = Some (ml_fd l) /\ fs_bytes f1 (ml_fd l) = RSML_header ++ bytes /\
    forall p, p <> path -> p <> tmp_path path -> log_bytes p f1 = log_bytes p f).
  { unfold log_bytes in Hf. destruct (fs_file f path) as [n|] eqn:En.
    - destruct Hf as [Hf|[Hf _]]; [|discriminate]. apply (f_equal (fun o => match o with Some b => b | None => [] end)) in Hf. cbv beta iota in Hf.
      destruct (open_log_file path f n En) as (l & f1 & E1 & N1 & B1 & O1). exists l, f1. rewrite <- Hf. auto.
    - destruct Hf as [Hf|[_ ->]]; [discriminate|]. apply Ok_inj in Ex. subst bytes. destruct (open_new path f En) as (l & f1 & E1 & N1 & B1 & O1). exists l, f1. rewrite app_nil_r. auto. }
  destruct Ho as (l & f1 & E1 & N1 & B1 & O1). destruct (log_writes_ok l ys Hy more f1 Ey) as (f2 & E2 & K2 & B2).
  exists l, f1, f2, (RSML_header ++ bytes ++ more). split; [assumption|]. split; [assumption|].
  split; [unfold log_bytes; rewrite (proj1 K2), N1, B2, B1 by auto; now rewrite <- app_assoc|].
  split; [apply recover_whole; [assumption|rewrite map_app; now apply cat_app]|].
  intros p Hp Hq. rewrite (log_bytes_kept [] [ml_fd l] f1 f2) by (auto; intros m Em [<-|[]]; now apply Hp, (fs_named f1 p path (ml_fd l))). auto.
Qed.

(** Purging the log writes the entries to the file that is replaced: a file without
    even the header takes its place. *)
Lemma purge_empties now pid order rs l f : Forall storable (order (purged_entries now rs)) -> fs_file f (ml_path l) = Some (ml_fd l) ->
  fs_file f (ml_path l ++ pid) = None -> pid <> [] -> ml_path l ++ pid <> save_path (ml_path l) ->
  exists l' f', log_purge now pid order rs l f = (Ok l', f') /\ log_bytes (ml_path l) f' = Some [] /\
    forall fuel, recover_states fuel [] = Some (Throw METALOG_BAD_RS_HEADER).
Proof.
  intros Hs Hl Ht Hp Hq. assert (Hsave : ml_path l <> save_path (ml_path l)).
  { intros E. apply (f_equal (@length Z)) in E. unfold save_path in E. rewrite length_app in E. cbn in E. lia. }
  assert (Htmp : ml_path l ++ pid <> ml_path l).
  { intros E. rewrite <- (app_nil_r (ml_path l)) in E at 2. now apply app_inv_head in E. }
  set (path := ml_path l) in *. set (tmp := path ++ pid) in *. unfold log_purge. fold path. fold tmp.
  destruct (create_works tmp true f) as (fd & f1 & E1). rewrite (bind_run _ _ _ _ _ E1). apply create_new in E1 as (K1 & N1 & B1 & F1); [|assumption].
  assert (Hfd : fd <> ml_fd l) by (intros ->; now apply (F1 path)).
  destruct (written_all _ Hs) as (bytes & Eb). destruct (log_writes_ok l _ Hs bytes f1 Eb) as (f2 & E2 & K2 & _). rewrite (bind_run _ _ _ _ _ E2).
  destruct (close_works fd f2) as (f3 & E3). rewrite (bind_run _ _ _ _ _ E3). apply close_ok in E3 as K3.
  assert (P3 : fs_file f3 path = Some (ml_fd l)) by (rewrite (proj1 K3), (proj1 K2), (proj1 K1); auto; intros [E|[]]; now apply Htmp).
  assert (T3 : fs_file f3 tmp = Some fd) by (rewrite (proj1 K3), (proj1 K2); auto).
  assert (B3 : fs_bytes f3 fd = []) by (rewrite (proj2 K3), (proj2 K2); auto; intros [E|[]]; now apply Hfd).
  destruct (rename_works path (save_path path) f3 _ P3) as (f4 & E4). rewrite (bind_run _ _ _ _ _ E4). apply (rename_ok _ _ _ _ (ml_fd l)) in E4 as (K4 & N4 & _); [|assumption..].
  assert (T4 : fs_file f4 tmp = Some fd) by (rewrite (proj1 K4); auto; intros [E|[E|[]]]; [now apply Htmp|now apply Hq]).
  destruct (rename_works tmp path f4 _ T4) as (f5 & E5). rewrite (bind_run _ _ _ _ _ E5). apply (rename_ok _ _ _ _ fd) in E5 as (K5 & _ & N5); [|assumption..].
  destruct (create_works path false f5) as (fd' & f6 & E6). rewrite (bind_run _ _ _ _ _ E6). apply (create_old _ _ _ fd) in E6 as [K6 ->]; [|assumption].
  eexists _, f6. split; [reflexivity|]. split; [|reflexivity]. unfold log_bytes. rewrite (proj1 K6), N5, (proj2 K6), (proj2 K5), (proj2 K4), B3 by auto. reflexivity.
Qed.
End Files.

(** ** Stopping while the log is opened *)

Section Stopping.
Context {F : Type} `{FS : LogFs F} `{Crc : Crc32}.

(** A file system whose client stops after a number of calls. *)
Definition spend {A} (op : F -> result A * F) (s : nat * F) : result A * (nat * F) :=
  match s with
  | (O, f) => (Fault, (O, f))
  | (S n, f) => let '(r, f) := op f in (r, (n, f))
  end.

Definition stopping : LogFs (nat * F) :=
  {| fs_file s := fs_file (snd s); fs_bytes s := fs_bytes (snd s); fs_exists p := spend (fs_exists p); fs_rename p q := spend (fs_rename p q);
     fs_open p := spend (fs_open p); fs_create p b := spend (fs_create p b); fs_pread n pos len := spend (fs_pread n pos len);
     fs_append n b := spend (fs_append n b); fs_close n := spend (fs_close n); fs_remove p := spend (fs_remove p) |}.

Context {Laws : LogFsLaws F} {Wk : Works F}.

(** C39. Opening an existing meta log is not atomic: a server that stops after the log
    was renamed and before it was copied back finds no log when it starts again, makes
    a new one, and from then on has none of the ranges it had recorded; they are still
    in the file with the temporary name, which nothing reads. *)
Theorem reopening_can_lose_log path f n : fs_file f path = Some n ->
  exists f1 l f2 file, RangeServerMetaLog_make (FS := stopping) path (2%nat, f) = (Fault, (O, f1)) /\ log_bytes path f1 = None /\
    RangeServerMetaLog_make path f1 = (Ok l, f2) /\ log_bytes path f2 = Some file /\ recover_states 1 file = Some (Ok []) /\
    log_bytes (tmp_path path) f2 = log_bytes path f.
Proof.
  intros En. pose proof (tmp_other path) as Ht. destruct (exists_works path f) as (b & f1 & E1). pose proof E1 as E1'. apply exists_ok in E1 as [K1 ->]. rewrite En in E1'.
  destruct (rename_works path (tmp_path path) f1 n) as (f2 & E2); [now rewrite (proj1 K1)|]. pose proof E2 as E2'.
  apply (rename_ok _ _ _ _ n) in E2 as (K2 & N2 & T2); [|now rewrite (proj1 K1)|assumption].
  destruct (open_new path f2 N2) as (l & f3 & E3 & N3 & B3 & O3). exists f2, l, f3, RSML_header.
  split; [|split; [unfold log_bytes; now rewrite N2|split; [assumption|split; [unfold log_bytes; now rewrite N3, B3|split; [|]]]]].
  - assert (X1 : fs_exists (LogFs := stopping) path (2%nat, f) = (Ok true, (1%nat, f1))) by (cbn; now rewrite E1').
    assert (X2 : fs_rename (LogFs := stopping) path (tmp_path path) (1%nat, f1) = (Ok tt, (O, f2))) by (cbn; now rewrite E2').
    assert (X : MetaLogDfsBase_make (FS := stopping) path (2%nat, f) = (Fault, (O, f2))).
    { unfold MetaLogDfsBase_make. rewrite (bind_run _ _ _ _ _ X1). cbn beta iota. now rewrite (bind_run _ _ _ _ _ X2). }
    unfold RangeServerMetaLog_make, fs_bind at 1. now rewrite X.
  - rewrite <- (app_nil_r RSML_header). exact (recover_whole [] [] 0 (Forall_nil _) eq_refl).
  - rewrite O3 by auto. unfold log_bytes. rewrite T2, En, (proj2 K2), (proj2 K1); auto.
Qed.
End Stopping.
