(* ===== verification/MetaLogSplit.v ===== *)
(** * Splits and the meta log

    [Range::split] of Range.v writes an entry to the meta log after every step. A
    server that stops at any point and loads its meta log finds the range as the last
    step that was recorded left it. *)
From S2P Require Import Prelude Errors Serialization ByteString Key Deletes CellCache Scanner MergeScanner Selection.
From S2P Require Import Schema Wire ScanContext BlockCodec CellStore CellStoreScanner AccessGroup Compaction Shrink Range MetaLog MetaLogRanges.
From Stdlib Require Import ZArith Lia List Bool.
Import ListNotations.
Open Scope Z_scope.
Open Scope result_scope.
Import Range.

Section MetaLogSplit.
Context {St W Sc E : Type} {OP : CellStoreOps St W Sc E} {CS : CellListScanner Sc}.
Context {Q : PriorityQueue (ScannerState (cached + Sc)) ss_key}.
Context {Crc : Crc32}.

Abbreviation range := (@Range.t St).

(** [RangeServerMetaLog::log_split_start], [log_split_shrunk] and [log_split_done]. *)
Definition log_entry (c : call) : list MetaLogEntry :=
  match c with
  | LogSplitStart id old new s => [SplitStart id old new s]
  | LogSplitShrunk id r s => [SplitShrunk id r s]
  | LogSplitDone id r => [SplitDone id r]
  | StartRow _ _ | Files _ _ _ | ReportSplit _ _ _ _ => []
  end.
Definition logged (calls : list call) : list MetaLogEntry := flat_map log_entry calls.

Definition spec_of (r : range) : RangeSpec := {| rs_start_row := m_start_row r; rs_end_row := m_end_row (r_info r) |}.
Definition range_key (r : range) : rsi_key := key_of (m_identifier (r_info r)) (spec_of r).

(** What the meta log has recorded is the range that is in memory, but for the soft
    limit: the one a split ends with is not written. *)
Record mirrors (r : range) (i : RangeStateInfo) : Prop := {
  mi_key : info_key i = range_key r;
  mi_range : si_range i = spec_of r;
  mi_state : si_state i = with_limit (st_soft_limit (si_state i)) (m_state (r_status r));
  mi_under_way : st_state (m_state (r_status r)) <> STEADY -> is_splitting i = true;
  mi_idle : st_state (m_state (r_status r)) = STEADY -> si_transactions i = [];
  mi_shrunk : st_state (m_state (r_status r)) = SPLIT_SHRUNK ->
    st_timestamp (m_state (r_status r)) = {| logical := 0; real := 0 |} /\ st_split_point (m_state (r_status r)) = [] }.

(** ** The steps of a split *)

Definition same_shell (r r' : range) : Prop := r_info r' = r_info r /\ m_start_row r' = m_start_row r /\ r_status r' = r_status r.

Lemma each_group_shell f n : forall i w r w' r', each_group f n i w r = Ok (w', r') -> same_shell r r'.
Proof.
  induction n as [|n IH]; intros i w r w' r' H; cbn [each_group] in H; [apply Ok_inj in H; inv H; repeat split|].
  apply bind_ok in H as ((i1 & a) & E1 & H). apply bind_ok in H as ((w1 & a1) & E2 & H). apply IH in H as (H1 & H2 & H3). now repeat split.
Qed.

Lemma choose_shell r code r' : choose_split_row r = Ok (code, r') ->
  r_info r' = r_info r /\ m_start_row r' = m_start_row r /\ m_state (r_status r') = m_state (r_status r).
Proof.
  unfold choose_split_row, row_overflow. intros H. apply bind_ok in H as (rows & _ & H). apply bind_ok in H as (rows2 & _ & H).
  destruct rows2 as [|x l]; [apply Ok_inj in H; inv H; repeat split|]. destruct (outside _ _).
  - apply bind_ok in H as (cached & _ & H). destruct cached as [|y k]; [apply Ok_inj in H; inv H; repeat split|].
    destruct (outside _ _); apply Ok_inj in H; inv H; repeat split.
  - apply Ok_inj in H; inv H; repeat split.
Qed.

Lemma attempts_one n limit c l : attempts n limit c = Ok l -> l = [c].
Proof. unfold attempts. destruct (Nat.leb n limit); [|discriminate]. now intros [= <-]. Qed.

(** A range after [split_install_log]: as before, or with the split recorded. *)
Definition installed (r r' : range) (calls : list call) : Prop :=
  r_info r' = r_info r /\ m_start_row r' = m_start_row r /\
  exists off, logged calls = [SplitStart (m_identifier (r_info r)) (spec_of r) off (m_state (r_status r'))] /\
    st_state (m_state (r_status r')) = SPLIT_LOG_INSTALLED.

Lemma install_logged g (e : @split_env E) r code r' calls : split_install_log g e r = Ok (code, r', calls) ->
  (is_ok code = false /\ logged calls = [] /\ r_info r' = r_info r /\ m_start_row r' = m_start_row r /\ m_state (r_status r') = m_state (r_status r)) \/
  (is_ok code = true /\ installed r r' calls).
Proof.
  unfold split_install_log. intros H. apply bind_ok in H as ((c & r1) & Ec & H). apply choose_shell in Ec as (H1 & H2 & H3).
  destruct (is_ok c) eqn:Ek; cbn [negb] in H; [right|left].
  - destruct (se_dirs e); [|discriminate]. cbn [negb] in H. apply bind_ok in H as (l & El & H). apply attempts_one in El. apply Ok_inj in H. inv H.
    split; [reflexivity|]. unfold installed. cbn. unfold spec_of. rewrite H1, H2. repeat split. eexists. split; reflexivity.
  - apply Ok_inj in H. inv H. auto.
Qed.

Definition shrunk_to (r r' : range) (calls : list call) : Prop :=
  r_info r' = r_info r /\ m_start_row r' = st_split_point (m_state (r_status r)) /\
  logged calls = [SplitShrunk (m_identifier (r_info r)) (spec_of r') (m_state (r_status r'))] /\
  st_state (m_state (r_status r')) = SPLIT_SHRUNK /\ st_timestamp (m_state (r_status r')) = {| logical := 0; real := 0 |} /\
  st_split_point (m_state (r_status r')) = [] /\ st_old_start_row (m_state (r_status r')) = m_start_row r.

Lemma logged_app l l' : logged (l ++ l') = logged l ++ logged l'.
Proof. apply flat_map_app. Qed.

Lemma logged_cons c l : logged (c :: l) = log_entry c ++ logged l.
Proof. reflexivity. Qed.

Lemma logged_files (f : AccessGroup.t -> call) (l : list (@AccessGroup.t St)) : (forall a, log_entry (f a) = []) -> logged (map f l) = [].
Proof. intros H. induction l as [|a l IH]; [reflexivity|]. unfold logged. cbn [map flat_map]. rewrite H. exact IH. Qed.

Lemma shrink_logged g e w r w' r' calls : split_compact_and_shrink g e w r = Ok (w', r', calls) -> shrunk_to r r' calls.
Proof.
  unfold split_compact_and_shrink. intros H. apply bind_ok in H as ((w1 & r1) & E1 & H). unfold compact_all, all_groups in E1. apply each_group_shell in E1 as (A1 & A2 & A3).
  destruct (se_metadata e); [|discriminate]. cbn [negb] in H. apply bind_ok in H as ((w2 & r2) & E2 & H). unfold shrink_groups, all_groups in E2.
  apply each_group_shell in E2 as (B1 & B2 & B3). cbn [r_info with_status with_start_row m_start_row r_status] in B1, B2, B3.
  destruct (m_split_log (r_status r2)); [|discriminate]. apply bind_ok in H as (l' & El & H). apply attempts_one in El. apply Ok_inj in H. inv H.
  unfold shrunk_to. cbn [r_info with_status m_start_row r_status set_state m_state st_state st_timestamp st_split_point st_old_start_row].
  cbn [app]. rewrite 2!logged_cons, logged_app, logged_files by reflexivity.
  unfold spec_of. cbn. rewrite B1, B2, A1. repeat split.
Qed.

Lemma notify_logged g (e : @split_env E) r code r' calls : split_notify_master g e r = Ok (code, r', calls) ->
  m_end_row (r_info r') = m_end_row (r_info r) /\ ti_id (m_identifier (r_info r')) = ti_id (m_identifier (r_info r)) /\ m_start_row r' = m_start_row r /\
  ((is_ok code = false /\ logged calls = [] /\ m_state (r_status r') = m_state (r_status r)) \/
   (is_ok code = true /\ logged calls = [SplitDone (m_identifier (r_info r')) (spec_of r)] /\ st_state (m_state (r_status r')) = STEADY /\
    st_timestamp (m_state (r_status r')) = st_timestamp (m_state (r_status r)) /\ st_transfer_log (m_state (r_status r')) = [] /\
    st_split_point (m_state (r_status r')) = st_split_point (m_state (r_status r)) /\ st_old_start_row (m_state (r_status r')) = [])).
Proof.
  unfold split_notify_master. destruct (is_ok (se_master e)) eqn:Em; cbn [negb]; intros H.
  - apply bind_ok in H as (l & El & H). apply attempts_one in El. apply Ok_inj in H. inv H. repeat split. right. repeat split.
  - apply Ok_inj in H. inv H. repeat split. left. repeat split. assumption.
Qed.

(** ** Loading the entries of a split *)

Fixpoint replays (o : option RangeStateInfo) (l : list stamped) : result (option RangeStateInfo) :=
  match l with [] => Ok o | x :: l => o <- replay o x ;; replays o l end.

(** Where a server that stopped during the split of [r] into [r'] finds the range:
    untouched, with its transfer log, shrunk, or split. *)
Inductive part_way (r r' : range) (i : RangeStateInfo) : Prop :=
| at_start : mirrors r i -> part_way r r' i
| at_installed : st_state (si_state i) = SPLIT_LOG_INSTALLED -> si_range i = spec_of r -> st_split_point (si_state i) = m_start_row r' -> part_way r r' i
| at_shrunk : st_state (si_state i) = SPLIT_SHRUNK -> si_range i = spec_of r' -> st_old_start_row (si_state i) = m_start_row r -> part_way r r' i
| at_end : mirrors r' i -> part_way r r' i.

Lemma mirrors_ext r r' i : range_key r' = range_key r -> spec_of r' = spec_of r -> m_state (r_status r') = m_state (r_status r) -> mirrors r i -> mirrors r' i.
Proof. intros E1 E2 E3 [H1 H2 H3 H4 H5 H6]. split; rewrite ?E1, ?E2, ?E3; assumption. Qed.

(** Every step of a split, from what was recorded before to what is recorded after it. *)
Definition step_recorded (r : range) (e : MetaLogEntry) (r' : range) : Prop :=
  forall i x, mirrors r i -> e_entry x = e -> exists i', replay (Some i) x = Ok (Some i') /\ mirrors r' i'.

Lemma key_same r r' : r_info r' = r_info r -> range_key r' = range_key r.
Proof. unfold range_key, key_of, spec_of. cbn. now intros ->. Qed.

Lemma install_recorded r r' off : st_state (m_state (r_status r)) = STEADY -> r_info r' = r_info r -> m_start_row r' = m_start_row r ->
  st_state (m_state (r_status r')) = SPLIT_LOG_INSTALLED ->
  step_recorded r (SplitStart (m_identifier (r_info r)) (spec_of r) off (m_state (r_status r'))) r'.
Proof.
  intros Hs H1 H2 H3 i x [K1 K2 _ _ K5 _] Ex. unfold replay. rewrite Ex. eexists. split; [reflexivity|].
  split; cbn; rewrite ?H3; try discriminate.
  - rewrite (key_same r r' H1). exact K1.
  - unfold spec_of in *. rewrite H1, H2. exact K2.
  - now destruct (m_state (r_status r')).
  - intros _. unfold is_splitting. cbn. rewrite (K5 Hs). cbn. now rewrite Ex.
Qed.

Lemma shrink_recorded r r' : st_state (m_state (r_status r)) = SPLIT_LOG_INSTALLED -> r_info r' = r_info r ->
  st_state (m_state (r_status r')) = SPLIT_SHRUNK -> st_timestamp (m_state (r_status r')) = {| logical := 0; real := 0 |} ->
  st_split_point (m_state (r_status r')) = [] ->
  step_recorded r (SplitShrunk (m_identifier (r_info r)) (spec_of r') (m_state (r_status r'))) r'.
Proof.
  intros Hs H1 H3 H4 H5 i x [K1 K2 _ K4 _ _] Ex. assert (K6 : is_splitting i = true) by (apply K4; now rewrite Hs). unfold replay. rewrite Ex, K6. eexists. split; [reflexivity|].
  split; cbn; rewrite ?H3; try discriminate; auto.
  - unfold info_key, range_key, key_of, spec_of in *. cbn in *. rewrite K2 in K1. cbn in K1. congruence.
  - now destruct (m_state (r_status r')).
  - intros _. unfold is_splitting in *. cbn. now destruct (si_transactions i).
Qed.

Lemma done_recorded r r' : st_state (m_state (r_status r)) = SPLIT_SHRUNK -> range_key r' = range_key r -> spec_of r' = spec_of r ->
  st_state (m_state (r_status r')) = STEADY -> st_timestamp (m_state (r_status r')) = st_timestamp (m_state (r_status r)) ->
  st_transfer_log (m_state (r_status r')) = [] -> st_split_point (m_state (r_status r')) = st_split_point (m_state (r_status r)) ->
  st_old_start_row (m_state (r_status r')) = [] ->
  step_recorded r (SplitDone (m_identifier (r_info r')) (spec_of r)) r'.
Proof.
  intros Hs H1 H2 H3 H4 H5 H6 H7 i x [K1 K2 _ K4 _ K5] Ex. assert (K6 : is_splitting i = true) by (apply K4; now rewrite Hs). destruct (K5 Hs) as [K7 K8].
  unfold replay. rewrite Ex, K6. eexists. split; [reflexivity|].
  split; cbn; rewrite ?H3; try discriminate; try congruence; auto.
  - now rewrite H1.
  - unfold RangeState_clear, with_limit. cbn. rewrite H3, H4, H5, H6, H7, K7, K8. reflexivity.
Qed.

(** ** Stopping in between *)

Definition recorded (r0 rn r r' : range) (es : list MetaLogEntry) : Prop :=
  forall i ys n, mirrors r i -> map e_entry ys = firstn n es ->
  exists i', replays (Some i) ys = Ok (Some i') /\ part_way r0 rn i' /\ (exists rm, mirrors rm i') /\ (map e_entry ys = es -> mirrors r' i').

Lemma recorded_nil r0 rn r : (forall i, mirrors r i -> part_way r0 rn i) -> recorded r0 rn r r [].
Proof.
  intros H i ys n Hm Ey. rewrite firstn_nil in Ey. apply map_eq_nil in Ey. subst ys. exists i. cbn. eauto 6.
Qed.

Lemma recorded_cons r0 rn r r1 r' e es : (forall i, mirrors r i -> part_way r0 rn i) -> step_recorded r e r1 -> recorded r0 rn r1 r' es ->
  recorded r0 rn r r' (e :: es).
Proof.
  intros H Hs Hr i ys n Hm Ey. destruct n as [|n], ys as [|x ys]; try discriminate; [exists i; cbn; split; [reflexivity|split; [auto|split; [eauto|discriminate]]]|].
  cbn in Ey. injection Ey as E1 E2. destruct (Hs i x Hm E1) as (i1 & Ei & Hm1). destruct (Hr i1 ys n Hm1 E2) as (i' & Ei' & Hp & He & Hf).
  exists i'. cbn [replays]. rewrite Ei. cbn [bind]. split; [assumption|]. split; [assumption|]. split; [assumption|]. cbn. intros [= _ ?]. auto.
Qed.

Lemma recorded_end r0 rn r r' r2 es : range_key r2 = range_key r' -> spec_of r2 = spec_of r' -> m_state (r_status r2) = m_state (r_status r') ->
  recorded r0 rn r r' es -> recorded r0 rn r r2 es.
Proof.
  intros E1 E2 E3 H i ys n Hm Ey. destruct (H i ys n Hm Ey) as (i' & Hi & Hp & Hx & Hf). exists i'. split; [assumption|]. split; [assumption|]. split; [assumption|].
  intros He. exact (mirrors_ext r' r2 i' E1 E2 E3 (Hf He)).
Qed.

Abbreviation entries_of r es := (Forall (fun e => about e = Some (range_key r)) es).

Lemma shrunk_part g (e : @split_env E) w r code w' r' calls : st_state (m_state (r_status r)) = SPLIT_SHRUNK -> split_from_shrunk g e w r = Ok (code, w', r', calls) ->
  range_key r' = range_key r /\ spec_of r' = spec_of r /\ entries_of r (logged calls) /\
  forall r0 rn, (forall i, mirrors r i -> part_way r0 rn i) -> (forall i, mirrors r' i -> part_way r0 rn i) -> recorded r0 rn r r' (logged calls).
Proof.
  intros Hs H. unfold split_from_shrunk in H. apply bind_ok in H as (((c & r1) & l) & En & H). apply Ok_inj in H. inv H.
  apply notify_logged in En as (H1 & H2 & H3 & H).
  assert (Ek : range_key r' = range_key r) by (unfold range_key, key_of, spec_of; cbn; congruence).
  assert (Es : spec_of r' = spec_of r) by (unfold spec_of; congruence). split; [assumption|]. split; [assumption|].
  destruct H as [(_ & El & Et)|(_ & El & Et & T1 & T2 & T3 & T4)]; rewrite El.
  - split; [constructor|]. intros r0 rn P1 _. apply (recorded_end r0 rn r r r' [] Ek Es Et). now apply recorded_nil.
  - split; [repeat constructor; cbn; unfold range_key, key_of; now rewrite H2|]. intros r0 rn P1 P2. apply recorded_cons with r'; [assumption|now apply done_recorded|now apply recorded_nil].
Qed.

Lemma installed_part g e w r code w' r' calls : st_state (m_state (r_status r)) = SPLIT_LOG_INSTALLED -> split_from_installed g e w r = Ok (code, w', r', calls) ->
  range_key r' = range_key r /\ m_start_row r' = st_split_point (m_state (r_status r)) /\ entries_of r (logged calls) /\
  forall r0 rn, m_start_row r0 = m_start_row r -> spec_of rn = spec_of r' -> (forall i, mirrors r i -> part_way r0 rn i) -> (forall i, mirrors r' i -> part_way r0 rn i) ->
    recorded r0 rn r r' (logged calls).
Proof.
  intros Hs H. unfold split_from_installed in H. apply bind_ok in H as (((w1 & r1) & l1) & E1 & H). apply bind_ok in H as ((((c & w2) & r2) & l2) & E2 & H).
  apply Ok_inj in H. inv H. apply shrink_logged in E1 as (H1 & H2 & H3 & H4 & H5 & H6 & H7).
  destruct (shrunk_part g e _ r1 _ _ r' l2 H4 E2) as (K1 & K2 & K3 & K4). rewrite (key_same r r1 H1) in *.
  rewrite logged_app, H3. split; [assumption|]. split; [injection K2 as K2 _; congruence|].
  split; [constructor; [unfold about, range_key, key_of, spec_of; cbn; now rewrite H1|assumption]|].
  intros r0 rn R1 R2 P1 P2. apply recorded_cons with r1; [assumption|now apply shrink_recorded|]. apply K4; [|assumption].
  intros i [_ M2 M4 _ _ _]. apply at_shrunk; [now rewrite M4|congruence|rewrite M4; cbn; congruence].
Qed.

Lemma steady_part g e w r code w' r' calls : st_state (m_state (r_status r)) = STEADY -> split_from_steady g e w r = Ok (code, w', r', calls) ->
  range_key r' = range_key r /\ entries_of r (logged calls) /\
  forall rn, spec_of rn = spec_of r' -> (forall i, mirrors r' i -> part_way r rn i) -> recorded r rn r r' (logged calls).
Proof.
  intros Hs H. unfold split_from_steady in H. apply bind_ok in H as (((c & r1) & l1) & E1 & H).
  apply install_logged in E1 as [(Ec & El & H1 & H2 & H3)|(Ec & H1 & H2 & off & El & H3)]; rewrite Ec in H; cbn [negb] in H.
  - apply Ok_inj in H. inv H. rewrite El. split; [now apply key_same|]. split; [constructor|]. intros rn _ _.
    apply (recorded_end r rn r r r'); [now apply key_same|unfold spec_of; congruence|assumption|apply recorded_nil; intros; now apply at_start].
  - apply bind_ok in H as ((((c2 & w2) & r2) & l2) & E2 & H). apply Ok_inj in H. inv H.
    destruct (installed_part g e w r1 _ _ r' l2 H3 E2) as (K1 & K2 & K3 & K4). rewrite (key_same r r1 H1) in *. rewrite logged_app, El.
    split; [assumption|]. split; [constructor; [reflexivity|assumption]|]. intros rn Hn P2.
    apply recorded_cons with r1; [intros; now apply at_start|now apply install_recorded|]. apply K4; [congruence|assumption| |assumption].
    intros i [_ M2 M4 _ _ _]. apply at_installed; [now rewrite M4|rewrite M2; unfold spec_of; congruence|].
    injection Hn as Hn _. rewrite M4. cbn. congruence.
Qed.

Lemma split_logged g e w r code w' r' calls : split g e w r = Ok (code, w', r', calls) ->
  recorded r r' r r' (logged calls) /\ entries_of r (logged calls).
Proof.
  unfold split. destruct (negb _ || _); [discriminate|]. intros H. apply bind_ok in H as ((((c & w1) & r1) & l1) & H & F). apply Ok_inj in F. inv F.
  set (rn := with_status (set_maintenance false (r_status r1)) r1) in *.
  assert (Pe : forall i, mirrors r1 i -> part_way r rn i) by (intros i Hi; apply at_end; now apply (mirrors_ext r1)).
  destruct (Z.eqb_spec (st_state (m_state (r_status r))) STEADY) as [Es|_].
  { destruct (steady_part g e _ r _ _ r1 _ Es H) as (K1 & K2 & K3). split; [|assumption]. apply (recorded_end r rn r r1 rn); auto. }
  destruct (Z.eqb_spec (st_state (m_state (r_status r))) SPLIT_LOG_INSTALLED) as [Es|_].
  { destruct (installed_part g e _ r _ _ r1 _ Es H) as (K1 & K2 & K3 & K4). split; [|assumption]. apply (recorded_end r rn r r1 rn); auto.
    apply K4; auto. intros; now apply at_start. }
  destruct (Z.eqb_spec (st_state (m_state (r_status r))) SPLIT_SHRUNK) as [Es|_].
  { destruct (shrunk_part g e _ r _ _ r1 _ Es H) as (K1 & K2 & K3 & K4). split; [|assumption]. apply (recorded_end r rn r r1 rn); auto.
    apply K4; auto. intros; now apply at_start. }
  apply Ok_inj in H. inv H. split; [|constructor]. apply (recorded_end r1 rn r1 r1 rn); auto. now apply recorded_nil.
Qed.

(** ** The range made from what was recorded *)

Lemma shell_trans r1 r2 r3 : same_shell r1 r2 -> same_shell r2 r3 -> same_shell r1 r3.
Proof. intros (A1 & A2 & A3) (B1 & B2 & B3). repeat split; congruence. Qed.

Lemma load_files_shell g fuel i l : forall w r w' r', load_files g fuel i l w r = Ok (w', r') -> same_shell r r'.
Proof.
  induction l as [|f l IH]; intros w r w' r' H; cbn [load_files] in H; [apply Ok_inj in H; inv H; repeat split|]. apply bind_ok in H as ((w1 & r1) & E1 & H).
  apply shell_trans with r1; [|now apply IH in H]. unfold load_file in E1. destruct (disk g f) as [st|]; [|apply Ok_inj in E1; inv E1; repeat split].
  apply bind_ok in E1 as ([st'|] & _ & E1); [|apply Ok_inj in E1; inv E1; repeat split]. apply bind_ok in E1 as ((j & a) & _ & E1). apply bind_ok in E1 as ((w2 & a2) & _ & E1).
  apply Ok_inj in E1. inv E1. repeat split.
Qed.

Lemma load_stores_shell g fuel l : forall w r w' r', load_cell_stores g fuel l w r = Ok (w', r') -> same_shell r r'.
Proof.
  induction l as [|(name & files) l IH]; intros w r w' r' H; cbn [load_cell_stores] in H; [apply Ok_inj in H; inv H; repeat split|].
  destruct (map_index _ _) as [p m]. apply bind_ok in H as ((w1 & r1) & E1 & H). apply shell_trans with r1; [|now apply IH in H].
  destruct p as [i|]; [|apply Ok_inj in E1; inv E1; repeat split]. apply load_files_shell in E1 as (A1 & A2 & A3). now repeat split.
Qed.

Lemma made_mirrors g fuel id sch i metadata w w' r' : (exists rm, mirrors rm i) -> ti_id id = ti_id (si_table i) ->
  make g fuel id sch (si_range i) (si_state i) metadata w = Ok (w', r') -> mirrors r' i.
Proof.
  intros (rm & [K1 K2 K3 K4 K5 K6]) Hid H. unfold make in H. apply bind_ok in H as (((m & v) & fv) & _ & H). apply bind_ok in H as ((w1 & r1) & E1 & H).
  apply load_stores_shell in E1 as (A1 & A2 & A3). cbn [r_info m_start_row r_status] in A1, A2, A3.
  assert (Em : m_state (r_status r1) = with_limit (soft_limit_in g (st_soft_limit (si_state i))) (si_state i)) by now rewrite A3.
  assert (Hst : m_state (r_status rm) = with_limit (st_soft_limit (m_state (r_status rm))) (si_state i)) by (rewrite K3; now destruct (m_state (r_status rm))).
  assert (Hr : mirrors r1 i).
  { rewrite Hst in K4, K5, K6. cbn in K4, K5, K6. split; rewrite ?Em; cbn; try assumption.
    - unfold info_key, range_key, key_of, spec_of. rewrite A1. cbn. now rewrite Hid.
    - unfold spec_of. rewrite A1, A2. cbn. now destruct (si_range i).
    - now destruct (si_state i). }
  apply Ok_inj in H. inv H. destruct (_ =? _); [|assumption]. now apply (mirrors_ext r1).
Qed.

(** ** From the entries of a range to the set of all ranges *)

Lemma load_replays k ys : Forall (fun y => about (e_entry y) = Some k) ys -> forall s o, sorted s -> replays (rsi_find k s) ys = Ok o ->
  exists s', load_entries s ys = Ok s' /\ rsi_find k s' = o /\ forall k', k' <> k -> rsi_find k' s' = rsi_find k' s.
Proof.
  induction 1 as [|y ys Hy _ IH]; intros s o Hs Ho; [apply Ok_inj in Ho; subst o; exists s; cbn; auto|]. cbn [replays] in Ho. apply bind_ok in Ho as (o1 & E1 & Ho).
  pose proof (load_entry_at s y k Hs Hy) as H. rewrite E1 in H. destruct H as (s1 & L1 & S1 & F1 & O1). rewrite <- F1 in Ho.
  destruct (IH s1 o S1 Ho) as (s' & L' & F' & O'). exists s'. cbn [load_entries]. rewrite L1. cbn [bind]. split; [assumption|]. split; [assumption|].
  intros k' Hk. now rewrite O', O1.
Qed.


(** An entry for the end of a split that was written twice, as by the attempt after one
    that failed late, makes the log one that cannot be loaded. *)
Lemma done_twice r i x y s : sorted s -> rsi_find (range_key r) s = Some i -> is_splitting i = true ->
  e_entry x = SplitDone (m_identifier (r_info r)) (spec_of r) -> e_entry y = e_entry x ->
  load_entries s [x; y] = Throw METALOG_ENTRY_BAD_ORDER.
Proof.
  intros Hs Hf Hi Ex Ey. pose proof (load_entry_at s x (range_key r) Hs) as H. rewrite Ex in H. specialize (H eq_refl). unfold replay in H. rewrite Ex, Hf, Hi in H.
  destruct H as (s1 & E1 & S1 & F1 & _). cbn [load_entries]. rewrite E1. cbn [bind]. unfold load_entry. rewrite Ey, Ex.
  change (key_of (m_identifier (r_info r)) (spec_of r)) with (range_key r). now rewrite F1.
Qed.
End MetaLogSplit.
