(* ===== verification/MetaLogSamples.v ===== *)
(** * A concrete meta log

    Instances of the theorems on meta logs: the checksum computed bit by bit, and the
    log of the range of RangeSamples.v, which is being split at [s]. *)
From S2P Require Import Prelude Errors Serialization ByteString Key Deletes CellCache Scanner MergeScanner Selection.
From S2P Require Import Schema Wire ScanContext BlockCodec BufferedReader CellStore BlockCache CellStoreScanner AccessGroup.
From S2P Require Import Compaction StoreV0 GroupSamples Shrink Range RangeSamples MetaLog MetaLogRanges MetaLogFiles MetaLogSplit.
From Stdlib Require Import ZArith Lia List Bool.
Import ListNotations.
Open Scope Z_scope.
Open Scope result_scope.
Import Range.

(** ** CRC-32 *)

Definition crc_bit (c : Z) : Z := if Z.odd c then Z.lxor (Z.shiftr c 1) 0xEDB88320 else Z.shiftr c 1.
Definition crc_byte (c b : Z) : Z := Nat.iter 8 crc_bit (Z.lxor c (u8 b)).
Definition crc_update (c : Z) (l : list Z) : Z := Z.lxor (fold_left crc_byte l (Z.lxor c 0xFFFFFFFF)) 0xFFFFFFFF.

Lemma lxor_32 a b : in_range 32 a -> in_range 32 b -> in_range 32 (Z.lxor a b).
Proof.
  unfold in_range. intros [A1 A2] [B1 B2]. assert (H : 0 <= Z.lxor a b) by (apply Z.lxor_nonneg; tauto). split; [assumption|].
  destruct (Z.eq_dec (Z.lxor a b) 0) as [->|Hn]; [reflexivity|]. apply Z.log2_lt_pow2; [lia|]. pose proof (Z.log2_lxor a b A1 B1).
  assert (Z.log2 a < 32) by (destruct (Z.eq_dec a 0) as [->|]; [reflexivity|apply Z.log2_lt_pow2; lia]).
  assert (Z.log2 b < 32) by (destruct (Z.eq_dec b 0) as [->|]; [reflexivity|apply Z.log2_lt_pow2; lia]). lia.
Qed.

Lemma crc_bit_32 c : in_range 32 c -> in_range 32 (crc_bit c).
Proof.
  intros Hc. assert (H : in_range 32 (Z.shiftr c 1)).
  { unfold in_range in *. rewrite Z.shiftr_div_pow2 by lia. split; [apply Z.div_pos; lia|]. apply Z.div_lt_upper_bound; lia. }
  unfold crc_bit. destruct (Z.odd c); [apply lxor_32; [assumption|split; [discriminate|reflexivity]]|assumption].
Qed.

Lemma crc_byte_32 c b : in_range 32 c -> in_range 32 (crc_byte c b).
Proof.
  intros Hc. unfold crc_byte. assert (H : in_range 32 (Z.lxor c (u8 b))).
  { apply lxor_32; [assumption|]. unfold in_range, u8, wrap. pose proof (Z.mod_pos_bound b (2 ^ 8)). lia. }
  revert H. generalize (Z.lxor c (u8 b)) 8%nat. intros d n Hd. induction n as [|n IH]; [exact Hd|]. cbn [Nat.iter]. now apply crc_bit_32.
Qed.

Lemma crc_fold_32 l : forall c, in_range 32 c -> in_range 32 (fold_left crc_byte l c).
Proof. induction l as [|b l IH]; intros c Hc; [exact Hc|]. cbn [fold_left]. apply IH. now apply crc_byte_32. Qed.

Lemma crc_32 l : in_range 32 (crc_update 0 l).
Proof. apply lxor_32; [apply crc_fold_32|]; split; easy. Qed.

Lemma crc_app a b : crc_update (crc_update 0 a) b = crc_update 0 (a ++ b).
Proof. unfold crc_update. rewrite Z.lxor_assoc, Z.lxor_nilpotent, Z.lxor_0_r, Z.lxor_0_l, fold_left_app. reflexivity. Qed.

#[export] Instance crc_bits : Crc32 :=
  {| crc32 := crc_update 0; crc32_update := crc_update; crc32_range := crc_32; crc32_update_app := crc_app |}.

(** The checksum of the digits 1 to 9 that descriptions of CRC-32 give. *)
Lemma crc_check : crc32 [49; 50; 51; 52; 53; 54; 55; 56; 57] = 0xCBF43926.
Proof. vm_compute. reflexivity. Qed.

(** ** A split that stops after the range has shrunk *)

#[local] Instance log_ops : CellStoreOps StoreV0.Store StoreV0.Writing StoreV0.Scan StoreV0.Calls :=
  StoreV0.store_ops codec_repeat (fun _ => CellStoreScanner.cold_cache) [].
#[local] Instance log_scanner : CellListScanner StoreV0.Scan :=
  StoreV0.store_scanner codec_repeat (fun _ => CellStoreScanner.cold_cache) [] lossless_repeat sample_coherent.

Definition loaded_state : RangeState :=
  {| st_state := STEADY; st_timestamp := {| logical := 0; real := 0 |}; st_soft_limit := 1000; st_transfer_log := []; st_split_point := []; st_old_start_row := [] |}.
Definition shrunk_state : RangeState :=
  {| st_state := SPLIT_SHRUNK; st_timestamp := {| logical := 0; real := 0 |}; st_soft_limit := 1000; st_transfer_log := [47; 108];
     st_split_point := []; st_old_start_row := [97] |}.
Definition whole_spec : RangeSpec := {| rs_start_row := [97]; rs_end_row := [122] |}.
Definition upper_spec : RangeSpec := {| rs_start_row := [115]; rs_end_row := [122] |}.
Definition before_split : list stamped :=
  [{| e_timestamp := 10; e_entry := RangeLoaded table_identifier whole_spec loaded_state |};
   {| e_timestamp := 20; e_entry := SplitStart table_identifier whole_spec {| rs_start_row := [97]; rs_end_row := [115] |} split_state |}].
Definition after_shrink : list stamped := [{| e_timestamp := 30; e_entry := SplitShrunk table_identifier upper_spec shrunk_state |}].

Lemma split_logs : exists w' r' calls, split (range_globals (fun _ => None)) split_environment two_world sample_range = Ok (OK_, w', r', calls) /\
  map e_entry after_shrink = firstn 1 (logged calls) /\ m_start_row r' = [115].
Proof. do 3 eexists. vm_compute. repeat split. Qed.

Lemma sample_storable : Forall storable (before_split ++ after_shrink).
Proof. repeat constructor; try (vm_compute; intuition discriminate); vm_compute; reflexivity. Qed.

Definition half_way : RangeStateInfo :=
  {| si_table := table_identifier; si_range := whole_spec; si_state := split_state; si_timestamp := 10; si_transactions := tl before_split |}.

Lemma half_way_mirrors : mirrors sample_range half_way.
Proof. split; try reflexivity; discriminate. Qed.


(** ** A file system in memory *)

(** The name of every file that was made, if it still has one, and the bytes of all. *)
Record Disk := { dk_names : list (option (list Z)); dk_bytes : nat -> list Z }.

Definition is_name (p : list Z) (o : option (list Z)) : bool := match o with Some q => bytes_eqb p q | None => false end.
Fixpoint index (p : list Z) (l : list (option (list Z))) : option nat :=
  match l with
  | [] => None
  | o :: l => if is_name p o then Some O else match index p l with Some n => Some (S n) | None => None end
  end.
Definition set_bytes (n : nat) (b : list Z) (g : nat -> list Z) : nat -> list Z := fun m => if Nat.eqb m n then b else g m.
Definition renamed (p q : list Z) (o : option (list Z)) : option (list Z) := if is_name q o then None else if is_name p o then Some q else o.
Definition unnamed (p : list Z) (o : option (list Z)) : option (list Z) := if is_name p o then None else o.

#[local] Instance disk_fs : LogFs Disk :=
  {| fs_file d p := index p (dk_names d);
     fs_bytes := dk_bytes;
     fs_exists p d := (Ok (match index p (dk_names d) with Some _ => true | None => false end), d);
     fs_rename p q d := (Ok tt, {| dk_names := map (renamed p q) (dk_names d); dk_bytes := dk_bytes d |});
     fs_open p d := (match index p (dk_names d) with Some n => Ok n | None => Throw DFSBROKER_BAD_FILENAME end, d);
     fs_create p b d :=
       match index p (dk_names d) with
       | Some n => (Ok n, if b then {| dk_names := dk_names d; dk_bytes := set_bytes n [] (dk_bytes d) |} else d)
       | None => let n := length (dk_names d) in (Ok n, {| dk_names := dk_names d ++ [Some p]; dk_bytes := set_bytes n [] (dk_bytes d) |})
       end;
     fs_pread n pos len d := (Ok (firstn (Z.to_nat len) (skipn (Z.to_nat pos) (dk_bytes d n))), d);
     fs_append n b d := (Ok (zlen b), {| dk_names := dk_names d; dk_bytes := set_bytes n (dk_bytes d n ++ b) (dk_bytes d) |});
     fs_close _ d := (Ok tt, d);
     fs_remove p d := (Ok tt, {| dk_names := map (unnamed p) (dk_names d); dk_bytes := dk_bytes d |}) |}.

Lemma is_name_eq p o : is_name p o = true <-> o = Some p.
Proof. destruct o as [q|]; cbn; [rewrite bytes_eqb_eq|]; split; congruence. Qed.

Lemma index_nth p l n : index p l = Some n -> nth_error l n = Some (Some p).
Proof.
  revert n. induction l as [|o l IH]; intros n; cbn [index]; [discriminate|]. destruct (is_name p o) eqn:Eo.
  - apply is_name_eq in Eo as ->. now intros [= <-].
  - destruct (index p l) as [m|]; [|discriminate]. intros [= <-]. now apply IH.
Qed.

(** A change of names after which [r] is what [r0] was. *)
Lemma index_map (g : option (list Z) -> option (list Z)) r r0 l : (forall o, g o = Some r <-> o = Some r0) -> index r (map g l) = index r0 l.
Proof.
  intros H. induction l as [|o l IH]; [reflexivity|]. cbn [map index]. rewrite IH. replace (is_name r (g o)) with (is_name r0 o); [reflexivity|].
  apply eq_true_iff_eq. rewrite !is_name_eq. symmetry. apply H.
Qed.

Lemma index_gone (g : option (list Z) -> option (list Z)) r l : (forall o, g o <> Some r) -> index r (map g l) = None.
Proof.
  intros H. induction l as [|o l IH]; [reflexivity|]. cbn [map index]. rewrite IH. destruct (is_name r (g o)) eqn:E; [|reflexivity]. apply is_name_eq in E. now apply H in E.
Qed.

Lemma index_app p l q : index p (l ++ [Some q]) = match index p l with Some n => Some n | None => if bytes_eqb p q then Some (length l) else None end.
Proof.
  induction l as [|o l IH]; cbn; [now destruct (bytes_eqb p q)|]. rewrite IH. destruct (is_name p o); [reflexivity|]. destruct (index p l); [reflexivity|].
  now destruct (bytes_eqb p q).
Qed.

Lemma set_bytes_same n b g : set_bytes n b g n = b.
Proof. unfold set_bytes. now rewrite Nat.eqb_refl. Qed.

Lemma set_bytes_other n b g m : ~ In m [n] -> set_bytes n b g m = g m.
Proof. intros H. unfold set_bytes. destruct (Nat.eqb_spec m n) as [->|]; [|reflexivity]. destruct H. now left. Qed.

Ltac by_names := intros o; repeat match goal with |- context [is_name ?p o] => let X := fresh in destruct (is_name p o) eqn:X; [apply is_name_eq in X; subst o|] end;
  split; try congruence; try (intros ->; exfalso; match goal with X : is_name ?p (Some ?p) = false |- _ => pose proof (proj2 (is_name_eq p (Some p)) eq_refl); congruence end).

#[local] Instance disk_laws : LogFsLaws Disk.
Proof.
  split.
  - intros f p q n Hp Hq. apply index_nth in Hp, Hq. congruence.
  - intros p f b f' E. injection E as <- <-. now repeat split.
  - intros p q f f' n E Hp Hpq. injection E as <-. cbn in *. repeat split; cbn.
    + intros r Hr. apply index_map. unfold renamed. by_names; try (intros [= ->]; exfalso; apply Hr; cbn; auto).
    + apply index_gone. unfold renamed. intros o. destruct (is_name q o); [discriminate|]. destruct (is_name p o) eqn:X; [congruence|]. intros ->.
      pose proof (proj2 (is_name_eq p (Some p)) eq_refl). congruence.
    + rewrite <- Hp. apply index_map. unfold renamed. by_names.
  - intros p f n f' E. cbn in *. destruct (index p (dk_names f)); [|discriminate]. injection E as <- <-. now repeat split.
  - intros p b f n f' E Hp. cbn in *. rewrite Hp in E. injection E as <- <-. cbn. rewrite set_bytes_same, index_app, Hp. repeat split; cbn.
    + intros r Hr. rewrite index_app. destruct (index r (dk_names f)); [reflexivity|]. destruct (bytes_eqb r p) eqn:X; [|reflexivity]. apply bytes_eqb_eq in X. subst. destruct Hr. now left.
    + intros m Hm. now apply set_bytes_other.
    + now rewrite (proj2 (bytes_eqb_eq p p) eq_refl).
    + intros q Hq. apply index_nth in Hq. assert (nth_error (dk_names f) (length (dk_names f)) = None) by now apply nth_error_None. congruence.
  - intros p f n m f' E Hp. cbn in *. rewrite Hp in E. injection E as <- <-. now repeat split.
  - intros n pos len f l f' E. injection E as <- <-. now repeat split.
  - intros n b f k f' E. injection E as <- <-. cbn. rewrite set_bytes_same. repeat split. intros m Hm. now apply set_bytes_other.
  - intros n f f' E. injection E as <-. now repeat split.
  - intros p f f' E. injection E as <-. cbn. repeat split; cbn.
    + intros r Hr. apply index_map. unfold unnamed. by_names; try (intros [= ->]; exfalso; apply Hr; cbn; auto).
    + apply index_gone. unfold unnamed. intros o. destruct (is_name p o) eqn:X; [discriminate|]. intros ->. pose proof (proj2 (is_name_eq p (Some p)) eq_refl). congruence.
Qed.

#[local] Instance disk_works : Works Disk.
Proof.
  split; try (intros; cbn; eauto; fail).
  - intros p f n Hn. cbn in *. rewrite Hn. eauto.
  - intros p b f. cbn. destruct (index p (dk_names f)); eauto.
Qed.

Definition sample_bytes : list Z := match cat (map write_entry before_split) with Ok b => b | _ => [] end.
Definition sample_disk : Disk := {| dk_names := [Some [108]]; dk_bytes := fun _ => RSML_header ++ sample_bytes |}.

(** Witness of [meta_log_continues]: the log is opened while the split is under way, and
    the range shrinks after that. *)
Lemma meta_log_continues_witness :
  exists l f1 f2 file, RangeServerMetaLog_make [108] sample_disk = (Ok l, f1) /\ log_writes l after_shrink f1 = (Ok tt, f2) /\
    log_bytes [108] f2 = Some file /\ recover_states 4 file = Some (load_entries [] (before_split ++ after_shrink)).
Proof.
  destruct (meta_log_continues [108] before_split after_shrink sample_bytes sample_disk 0) as (l & f1 & f2 & file & E1 & E2 & E3 & E4 & _).
  - exact sample_storable.
  - vm_compute. reflexivity.
  - left. reflexivity.
  - exists l, f1, f2, file. now repeat split.
Defined.

Lemma reopening_can_lose_log_witness :
  exists f1, RangeServerMetaLog_make (FS := stopping) [108] (2%nat, sample_disk) = (Fault, (O, f1)) /\ log_bytes [108] f1 = None /\
    recover_states 3 (RSML_header ++ sample_bytes) = Some (Ok [half_way]).
Proof.
  destruct (reopening_can_lose_log [108] sample_disk 0%nat) as (f1 & l & f2 & file & E1 & E2 & _).
  - reflexivity.
  - exists f1. split; [exact E1|]. split; [exact E2|]. vm_compute. reflexivity.
Defined.
