(* ===== verification/ApplicationQueue.v ===== *)
(** * The application queue

    [AsyncComm/ApplicationQueue.h]: requests wait in a list for worker threads; those of
    one thread group are carried out one at a time and in their order. Every section under
    a mutex is one step of one thread, and so is what a thread does between two of them;
    the flag [shutdown] is read under a mutex and written under none. *)
Set Warnings "-notation-incompatible-prefix".
From S2P Require Import Prelude Errors.
From stdpp Require Import base gmap list.
From Stdlib Require Import ZArith Lia.
Open Scope Z_scope.
Open Scope result_scope.

Module ApplicationQueue.

(** A request, with the thread group it belongs to. *)
Record Handler := { h_id : Z; h_thread_group : Z }.

Record UsageRec := { ur_thread_group : Z; ur_running : bool; ur_outstanding : Z }.

(** [wr_usage] is the address of a [UsageRec]. *)
Record WorkRec := { wr_handler : Handler; wr_usage : option nat }.

(** Where a worker is: before the mutex of the queue; with the mutex, about to wait, for
    an empty queue or ([again]) for one in which nothing can be taken; waiting; woken from
    the second of the waits; in [run]; after it. *)
Inductive phase :=
| Top
| Checked (again : bool)
| Waiting (again : bool)
| Woken
| Running (r : WorkRec)
| Ran (r : WorkRec)
| Exited.

(** [ApplicationQueueState] with the memory of its records, the workers, and the calls of
    [add] that have not reached the queue yet; [notifying] counts the calls of [shutdown]
    between their two statements. [pushed] and [started] are the records in the order in which they
    came into the queue and were taken from it, [late] that one came after the shutdown. *)
Record State := {
  queue : list WorkRec; heap : gmap nat UsageRec; fresh_usage : nat; usage_map : gmap Z nat; shutdown : bool;
  workers : list phase; adding : list WorkRec; notifying : nat;
  pushed : list WorkRec; started : list WorkRec; late : bool }.

(** ** The parts of the state that change *)

Definition with_usage (h : gmap nat UsageRec) (n : nat) (m : gmap Z nat) (s : State) : State :=
  {| queue := queue s; heap := h; fresh_usage := n; usage_map := m; shutdown := shutdown s; workers := workers s;
     adding := adding s; notifying := notifying s; pushed := pushed s; started := started s; late := late s |}.
Definition with_workers (w : list phase) (s : State) : State :=
  {| queue := queue s; heap := heap s; fresh_usage := fresh_usage s; usage_map := usage_map s; shutdown := shutdown s; workers := w;
     adding := adding s; notifying := notifying s; pushed := pushed s; started := started s; late := late s |}.
Definition with_adding (l : list WorkRec) (s : State) : State :=
  {| queue := queue s; heap := heap s; fresh_usage := fresh_usage s; usage_map := usage_map s; shutdown := shutdown s; workers := workers s;
     adding := l; notifying := notifying s; pushed := pushed s; started := started s; late := late s |}.
Definition with_shutdown (b : bool) (n : nat) (s : State) : State :=
  {| queue := queue s; heap := heap s; fresh_usage := fresh_usage s; usage_map := usage_map s; shutdown := b; workers := workers s;
     adding := adding s; notifying := n; pushed := pushed s; started := started s; late := late s |}.
Definition push_back (r : WorkRec) (s : State) : State :=
  {| queue := queue s ++ [r]; heap := heap s; fresh_usage := fresh_usage s; usage_map := usage_map s; shutdown := shutdown s; workers := workers s;
     adding := adding s; notifying := notifying s; pushed := pushed s ++ [r]; started := started s; late := late s || shutdown s |}.
Definition take_out (r : WorkRec) (q : list WorkRec) (s : State) : State :=
  {| queue := q; heap := heap s; fresh_usage := fresh_usage s; usage_map := usage_map s; shutdown := shutdown s; workers := workers s;
     adding := adding s; notifying := notifying s; pushed := pushed s; started := started s ++ [r]; late := late s |}.
Definition set_phase (w : nat) (p : phase) (s : State) : State := with_workers (<[w := p]> (workers s)) s.

(** A queue with [n] workers. *)
Definition make (n : nat) : State :=
  {| queue := []; heap := ∅; fresh_usage := 0; usage_map := ∅; shutdown := false; workers := replicate n Top;
     adding := []; notifying := 0; pushed := []; started := []; late := false |}.

(** ** [Worker] *)

(** The loop over the queue: the first record whose group has nothing running, and the others. *)
Fixpoint scan (h : gmap nat UsageRec) (q : list WorkRec) : result (option (WorkRec * list WorkRec)) :=
  match q with
  | [] => Ok None
  | r :: q =>
      let next := o <- scan h q ;; Ok (match o with Some (x, q') => Some (x, r :: q') | None => None end) in
      match wr_usage r with
      | None => Ok (Some (r, q))
      | Some u => match h !! u with
                  | None => Fault
                  | Some ur => if ur_running ur then next else Ok (Some (r, q))
                  end
      end
  end.

Definition set_running (b : bool) (ur : UsageRec) : UsageRec :=
  {| ur_thread_group := ur_thread_group ur; ur_running := b; ur_outstanding := ur_outstanding ur |}.
Definition add_outstanding (n : Z) (ur : UsageRec) : UsageRec :=
  {| ur_thread_group := ur_thread_group ur; ur_running := ur_running ur; ur_outstanding := ur_outstanding ur + n |}.

(** The section under [queue_mutex], up to [run] or up to a wait. *)
Definition look (w : nat) (s : State) : result State :=
  match queue s with
  | [] => Ok (set_phase w (if shutdown s then Exited else Checked false) s)
  | q =>
      o <- scan (heap s) q ;;
      match o with
      | None => Ok (set_phase w (if shutdown s then Exited else Checked true) s)
      | Some (r, q) =>
          let h := match wr_usage r with Some u => alter (set_running true) u (heap s) | None => heap s end in
          Ok (set_phase w (Running r) (with_usage h (fresh_usage s) (usage_map s) (take_out r q s)))
      end
  end.

(** After [run]: the section under [usage_mutex]. *)
Definition finish (w : nat) (r : WorkRec) (s : State) : result State :=
  match wr_usage r with
  | None => Ok (set_phase w Top s)
  | Some u =>
      match heap s !! u with
      | None => Fault
      | Some ur =>
          let ur := add_outstanding (-1) (set_running false ur) in
          let s := set_phase w Top s in
          Ok (if ur_outstanding ur =? 0
              then with_usage (delete u (heap s)) (fresh_usage s) (delete (ur_thread_group ur) (usage_map s)) s
              else with_usage (<[u := ur]> (heap s)) (fresh_usage s) (usage_map s) s)
      end
  end.

(** ** [add] *)

Definition new_usage (g : Z) : UsageRec := {| ur_thread_group := g; ur_running := false; ur_outstanding := 1 |}.

(** The section under [usage_mutex]. *)
Definition add (h : Handler) (s : State) : result State :=
  let g := h_thread_group h in
  if g =? 0 then Ok (with_adding (adding s ++ [{| wr_handler := h; wr_usage := None |}]) s)
  else
    match usage_map s !! g with
    | Some u =>
        match heap s !! u with
        | None => Fault
        | Some ur => Ok (with_adding (adding s ++ [{| wr_handler := h; wr_usage := Some u |}])
                           (with_usage (<[u := add_outstanding 1 ur]> (heap s)) (fresh_usage s) (usage_map s) s))
        end
    | None =>
        let u := fresh_usage s in
        Ok (with_adding (adding s ++ [{| wr_handler := h; wr_usage := Some u |}])
              (with_usage (<[u := new_usage g]> (heap s)) (S u) (<[g := u]> (usage_map s)) s))
    end.

Definition woken (p : phase) : phase := match p with Waiting true => Woken | Waiting false => Top | p => p end.
Definition is_waiting (p : phase) : bool := match p with Waiting _ => true | _ => false end.
Definition is_checked (p : phase) : bool := match p with Checked _ => true | _ => false end.

(** No worker has the mutex of the queue. *)
Definition unlocked (s : State) : bool := negb (existsb is_checked (workers s)).

(** [notify_one]: one of the workers that wait, if any does. *)
Definition notified (w : option nat) (s : State) : option State :=
  match w with
  | None => if existsb is_waiting (workers s) then None else Some s
  | Some w => match workers s !! w with
              | Some (Waiting b) => Some (set_phase w (woken (Waiting b)) s)
              | _ => None
              end
  end.

(** ** The steps of the threads *)

Inductive label :=
| LAdd (h : Handler)               (** [add] up to the second section *)
| LPush (i : nat) (w : option nat) (** its second section, for one of the calls of [add] *)
| LLook (w : nat)                  (** a worker takes the mutex and looks for a request *)
| LWait (w : nat)                  (** it begins to wait and lets go of the mutex *)
| LSpurious (w : nat)              (** a wait ends without reason *)
| LAgain (w : nat)                 (** after the second wait *)
| LRun (w : nat)                   (** [run] returns *)
| LFinish (w : nat)
| LShutdown
| LNotifyAll.

(** [None] when the thread cannot make the step. *)
Definition step (l : label) (s : State) : option (result State) :=
  match l with
  | LAdd h => Some (add h s)
  | LPush i w =>
      match adding s !! i with
      | None => None
      | Some r =>
          if unlocked s then
            match notified w (push_back r (with_adding (delete i (adding s)) s)) with Some s => Some (Ok s) | None => None end
          else None
      end
  | LLook w => match workers s !! w with Some Top => if unlocked s then Some (look w s) else None | _ => None end
  | LWait w => match workers s !! w with Some (Checked b) => Some (Ok (set_phase w (Waiting b) s)) | _ => None end
  | LSpurious w => match workers s !! w with Some (Waiting b) => Some (Ok (set_phase w (woken (Waiting b)) s)) | _ => None end
  | LAgain w =>
      match workers s !! w with
      | Some Woken => if unlocked s then Some (Ok (set_phase w (if shutdown s then Exited else Top) s)) else None
      | _ => None
      end
  | LRun w => match workers s !! w with Some (Running r) => Some (Ok (set_phase w (Ran r) s)) | _ => None end
  | LFinish w => match workers s !! w with Some (Ran r) => Some (finish w r s) | _ => None end
  | LShutdown => Some (Ok (with_shutdown true (S (notifying s)) s))
  | LNotifyAll => match notifying s with
                  | O => None
                  | S n => Some (Ok (with_shutdown (shutdown s) n (with_workers (map woken (workers s)) s)))
                  end
  end.

Inductive reachable (n : nat) : State -> Prop :=
| reach_make : reachable n (make n)
| reach_step l s s' : reachable n s -> step l s = Some (Ok s') -> reachable n s'.

(** ** Counting references *)

Fixpoint refs (u : nat) (l : list WorkRec) : Z :=
  match l with [] => 0 | r :: l => (if decide (wr_usage r = Some u) then 1 else 0) + refs u l end.

Definition busy1 (p : phase) : list WorkRec := match p with Running r | Ran r => [r] | _ => [] end.
Definition busy (ws : list phase) : list WorkRec := flat_map busy1 ws.

Lemma refs_app u l l' : refs u (l ++ l') = refs u l + refs u l'.
Proof. induction l as [|r l IH]; cbn [refs app]; [reflexivity|]. rewrite IH. lia. Qed.

Lemma refs_same u l l' : l ≡ₚ l' -> refs u l = refs u l'.
Proof. induction 1; cbn [refs]; lia. Qed.

Lemma refs_ge u l : 0 <= refs u l.
Proof. induction l as [|r l IH]; cbn [refs]; [lia|]. destruct (decide _); lia. Qed.

Lemma refs_pos u l r : r ∈ l -> wr_usage r = Some u -> 0 < refs u l.
Proof.
  intros H E. induction H as [x l|x y l Hl IH]; cbn [refs].
  - rewrite decide_True by assumption. pose proof (refs_ge u l). lia.
  - specialize (IH E). destruct (decide _); lia.
Qed.

Lemma refs_zero u l : (forall r, r ∈ l -> wr_usage r <> Some u) -> refs u l = 0.
Proof.
  induction l as [|r l IH]; intros H; [reflexivity|]. cbn [refs]. rewrite decide_False by (apply H; apply list_elem_of_here).
  rewrite IH; [reflexivity|]. intros x Hx. apply H. now apply list_elem_of_further.
Qed.

(** One worker, and the others. *)
Lemma busy_split ws w p0 : ws !! w = Some p0 ->
  exists rest, busy ws ≡ₚ busy1 p0 ++ rest /\ forall p, busy (<[w := p]> ws) ≡ₚ busy1 p ++ rest.
Proof.
  intros H. exists (busy (take w ws) ++ busy (drop (S w) ws)). pose proof (take_drop_middle ws w p0 H) as E. split.
  - rewrite <- E at 1. unfold busy. rewrite flat_map_app. cbn [flat_map]. rewrite !(app_assoc). apply Permutation_app_tail, Permutation_app_comm.
  - intros p. rewrite insert_take_drop by (apply lookup_lt_is_Some; eauto). unfold busy. rewrite flat_map_app. cbn [flat_map]. rewrite !(app_assoc).
    apply Permutation_app_tail, Permutation_app_comm.
Qed.

Lemma busy_elem ws w p r : ws !! w = Some p -> r ∈ busy1 p -> r ∈ busy ws.
Proof. intros H Hr. destruct (busy_split ws w p H) as (rest & E & _). rewrite E. apply elem_of_app. now left. Qed.

(** ** What is known of the usage records *)

(** What a record says of its group is so. *)
Definition placed (h : gmap nat UsageRec) (r : WorkRec) : Prop :=
  match wr_usage r with
  | None => h_thread_group (wr_handler r) = 0
  | Some u => exists ur, h !! u = Some ur /\ ur_thread_group ur = h_thread_group (wr_handler r)
  end.

(** [W] are the records that wait, [B] those in the hands of workers. *)
Record usage_inv (h : gmap nat UsageRec) (m : gmap Z nat) (n : nat) (W B : list WorkRec) : Prop := {
  ui_map g u : m !! g = Some u -> exists ur, h !! u = Some ur /\ ur_thread_group ur = g;
  ui_group u ur : h !! u = Some ur -> m !! ur_thread_group ur = Some u /\ ur_thread_group ur <> 0 /\ (u < n)%nat;
  ui_refs u ur : h !! u = Some ur -> ur_outstanding ur = refs u W + refs u B /\ 0 < refs u W + refs u B;
  ui_busy u ur : h !! u = Some ur -> refs u B = if ur_running ur then 1 else 0;
  ui_placed : Forall (placed h) (W ++ B) }.

Lemma usage_inv_perm h m n W W' B B' : W ≡ₚ W' -> B ≡ₚ B' -> usage_inv h m n W B -> usage_inv h m n W' B'.
Proof.
  intros HW HB [I1 I2 I3 I4 I5]. split; auto.
  - intros u ur E. rewrite <- (refs_same u W W' HW), <- (refs_same u B B' HB). auto.
  - intros u ur E. rewrite <- (refs_same u B B' HB). auto.
  - now rewrite <- HW, <- HB.
Qed.

(** A change of the records that keeps their groups. *)
Lemma placed_mono h h' r : (forall u ur, h !! u = Some ur -> wr_usage r = Some u -> exists ur', h' !! u = Some ur' /\ ur_thread_group ur' = ur_thread_group ur) -> placed h r -> placed h' r.
Proof.
  intros H. unfold placed. destruct (wr_usage r) as [u|] eqn:E; [|auto]. intros (ur & E1 & E2). destruct (H u ur E1 eq_refl) as (ur' & E3 & E4). exists ur'. split; congruence.
Qed.

(** One usage record changes, its group does not. *)
Lemma lookup_changed (h : gmap nat UsageRec) u ur ur' : h !! u = Some ur -> ur_thread_group ur' = ur_thread_group ur ->
  forall v vr, h !! v = Some vr -> exists vr', <[u := ur']> h !! v = Some vr' /\ ur_thread_group vr' = ur_thread_group vr.
Proof.
  intros Hu Hg v vr E. destruct (decide (v = u)) as [->|Hn]; [rewrite lookup_insert_eq; eexists; split; [reflexivity|congruence]|].
  rewrite lookup_insert_ne by congruence. eauto.
Qed.

(** The invariant after a change of one usage record and of the lists. *)
Lemma usage_changed h m n W B W' B' u ur ur' : usage_inv h m n W B -> h !! u = Some ur -> ur_thread_group ur' = ur_thread_group ur ->
  ur_outstanding ur' = refs u W' + refs u B' -> 0 < refs u W' + refs u B' -> refs u B' = (if ur_running ur' then 1 else 0) ->
  (forall v, v <> u -> refs v W' = refs v W /\ refs v B' = refs v B \/ refs v W' + refs v B' = refs v W + refs v B /\ refs v B' = refs v B) ->
  (forall r, r ∈ W' ++ B' -> r ∈ W ++ B \/ (wr_usage r = Some u /\ h_thread_group (wr_handler r) = ur_thread_group ur)) ->
  usage_inv (<[u := ur']> h) m n W' B'.
Proof.
  intros [I1 I2 I3 I4 I5] Hu Hg Ho Hp Hb Hv Hr. pose proof (lookup_changed h u ur ur' Hu Hg) as Hc. split.
  - intros g v E. destruct (I1 g v E) as (vr & Ev & Eg). destruct (Hc v vr Ev) as (vr' & E1 & E2). exists vr'. split; congruence.
  - intros v vr E. destruct (decide (v = u)) as [->|Hn].
    + rewrite lookup_insert_eq in E. injection E as <-. rewrite Hg. auto.
    + rewrite lookup_insert_ne in E by congruence. auto.
  - intros v vr E. destruct (decide (v = u)) as [->|Hn].
    + rewrite lookup_insert_eq in E. injection E as <-. auto.
    + rewrite lookup_insert_ne in E by congruence. destruct (I3 v vr E). destruct (Hv v Hn); lia.
  - intros v vr E. destruct (decide (v = u)) as [->|Hn].
    + rewrite lookup_insert_eq in E. injection E as <-. auto.
    + rewrite lookup_insert_ne in E by congruence. rewrite <- (I4 v vr E). destruct (Hv v Hn); lia.
  - rewrite Forall_forall in I5 |- *. intros r H. apply Hr in H as [H|[E1 E2]].
    + apply (placed_mono h); [|now apply I5]. intros v vr E _. now apply Hc.
    + unfold placed. rewrite E1. exists ur'. rewrite lookup_insert_eq. split; congruence.
Qed.

Section Usage.
Context (h : gmap nat UsageRec) (m : gmap Z nat) (n : nat).

Lemma add_ungrouped W B r : usage_inv h m n W B -> wr_usage r = None -> h_thread_group (wr_handler r) = 0 -> usage_inv h m n (r :: W) B.
Proof.
  intros [I1 I2 I3 I4 I5] Hu Hg. split; auto.
  - intros u ur E. cbn [refs]. rewrite decide_False by congruence. destruct (I3 u ur E). lia.
  - cbn [app]. constructor; [unfold placed; now rewrite Hu|assumption].
Qed.

Lemma add_grouped W B r u ur : usage_inv h m n W B -> wr_usage r = Some u -> m !! h_thread_group (wr_handler r) = Some u -> h !! u = Some ur ->
  usage_inv (<[u := add_outstanding 1 ur]> h) m n (r :: W) B.
Proof.
  intros I Hu Hm Hh. pose proof I as [I1 I2 I3 I4 I5]. destruct (I3 u ur Hh). apply (usage_changed h m n W B _ _ u ur); auto; cbn [refs add_outstanding ur_outstanding ur_running].
  - rewrite decide_True by assumption. lia.
  - rewrite decide_True by assumption. lia.
  - now apply I4.
  - intros v Hn. left. rewrite decide_False by congruence. lia.
  - intros x Hx. cbn [app] in Hx. apply elem_of_cons in Hx as [->|Hx]; [right|now left]. split; [assumption|]. destruct (I1 _ _ Hm) as (ur2 & E3 & E4). congruence.
Qed.

Lemma add_new_group W B r : usage_inv h m n W B -> wr_usage r = Some n -> h_thread_group (wr_handler r) <> 0 -> m !! h_thread_group (wr_handler r) = None ->
  usage_inv (<[n := new_usage (h_thread_group (wr_handler r))]> h) (<[h_thread_group (wr_handler r) := n]> m) (S n) (r :: W) B.
Proof.
  intros [I1 I2 I3 I4 I5] Hu Hg Hm. set (g := h_thread_group (wr_handler r)) in *.
  assert (Hn : h !! n = None). { destruct (h !! n) as [ur|] eqn:E; [|reflexivity]. apply I2 in E as (_ & _ & ?). lia. }
  assert (HL : refs n (W ++ B) = 0).
  { apply refs_zero. intros x Hx E. rewrite Forall_forall in I5. specialize (I5 x Hx). unfold placed in I5. rewrite E in I5. destruct I5 as (ur & E1 & _). congruence. }
  rewrite refs_app in HL. pose proof (refs_ge n W). pose proof (refs_ge n B). split.
  - intros g' u E. destruct (decide (g' = g)) as [->|Hne].
    + rewrite lookup_insert_eq in E. injection E as <-. exists (new_usage g). now rewrite lookup_insert_eq.
    + rewrite lookup_insert_ne in E by congruence. destruct (I1 g' u E) as (ur & E1 & E2). exists ur. rewrite lookup_insert_ne; [auto|]. intros ->. congruence.
  - intros u ur E. destruct (decide (u = n)) as [->|Hne].
    + rewrite lookup_insert_eq in E. injection E as <-. cbn. rewrite lookup_insert_eq. repeat split; [assumption|lia].
    + rewrite lookup_insert_ne in E by congruence. destruct (I2 u ur E) as (E1 & E2 & E3). rewrite lookup_insert_ne by congruence. repeat split; [assumption..|lia].
  - intros u ur E. cbn [refs]. destruct (decide (u = n)) as [->|Hne].
    + rewrite lookup_insert_eq in E. injection E as <-. cbn. rewrite decide_True by assumption. lia.
    + rewrite lookup_insert_ne in E by congruence. destruct (I3 u ur E). rewrite decide_False by congruence. lia.
  - intros u ur E. destruct (decide (u = n)) as [->|Hne].
    + rewrite lookup_insert_eq in E. injection E as <-. cbn. lia.
    + rewrite lookup_insert_ne in E by congruence. auto.
  - cbn [app]. constructor; [unfold placed; rewrite Hu; exists (new_usage g); now rewrite lookup_insert_eq|]. eapply Forall_impl; [exact I5|]. intros x.
    apply placed_mono. intros u ur E _. exists ur. rewrite lookup_insert_ne; [auto|]. intros ->. congruence.
Qed.

(** A record is taken whose group has nothing running. *)
Definition available (r : WorkRec) : Prop := match wr_usage r with None => True | Some u => exists ur, h !! u = Some ur /\ ur_running ur = false end.

Lemma take_usage W B r : usage_inv h m n (r :: W) B -> available r ->
  usage_inv (match wr_usage r with Some u => alter (set_running true) u h | None => h end) m n W (r :: B).
Proof.
  intros I Ha. pose proof I as [I1 I2 I3 I4 I5]. unfold available in Ha. destruct (wr_usage r) as [u|] eqn:Hu.
  - destruct Ha as (ur & Hh & Hr). replace (alter (set_running true) u h) with (<[u := set_running true ur]> h).
    2:{ apply map_eq. intros v. destruct (decide (v = u)) as [->|Hn]; [now rewrite lookup_insert_eq, lookup_alter_eq, Hh|]. now rewrite lookup_insert_ne, lookup_alter_ne by congruence. }
    destruct (I3 u ur Hh) as [E1 E2]. pose proof (I4 u ur Hh) as E3. rewrite Hr in E3. cbn [refs] in E1, E2. rewrite decide_True in E1, E2 by assumption.
    apply (usage_changed h m n (r :: W) B _ _ u ur); auto; cbn [refs set_running ur_outstanding ur_running]; rewrite ?(decide_True (P := wr_usage r = Some u)) by assumption; try lia.
    + intros v Hn. left. rewrite !decide_False by congruence. lia.
    + intros x Hx. left. cbn [app]. now rewrite Permutation_middle.
  - split; auto.
    + intros u ur E. destruct (I3 u ur E) as [E1 E2]. cbn [refs] in *. rewrite decide_False in * by congruence. lia.
    + intros u ur E. cbn [refs]. rewrite decide_False by congruence. rewrite <- (I4 u ur E). lia.
    + rewrite <- Permutation_middle. exact I5.
Qed.

(** It is given back. *)
Lemma finish_usage W B r u ur : usage_inv h m n W (r :: B) -> wr_usage r = Some u -> h !! u = Some ur ->
  let ur' := add_outstanding (-1) (set_running false ur) in
  if ur_outstanding ur' =? 0 then usage_inv (delete u h) (delete (ur_thread_group ur') m) n W B else usage_inv (<[u := ur']> h) m n W B.
Proof.
  intros I Hu Hh ur'. pose proof I as [I1 I2 I3 I4 I5]. destruct (I3 u ur Hh) as [E1 E2]. pose proof (I4 u ur Hh) as E3. cbn [refs] in E1, E2, E3.
  rewrite decide_True in E1, E2, E3 by assumption. pose proof (refs_ge u B). pose proof (refs_ge u W).
  assert (HB : refs u B = 0) by (destruct (ur_running ur); lia). cbn [ur_outstanding add_outstanding set_running ur'] in *.
  destruct (Z.eqb_spec (ur_outstanding ur + -1) 0) as [Hz|Hz].
  - assert (HW : refs u (W ++ B) = 0) by (rewrite refs_app; lia). destruct (I2 u ur Hh) as (M1 & M2 & M3). split.
    + intros g v E. apply lookup_delete_Some in E as [Hg E]. destruct (I1 g v E) as (vr & Ev & Eg). exists vr. rewrite lookup_delete_ne; [auto|]. intros <-. cbn in Hg. congruence.
    + intros v vr E. apply lookup_delete_Some in E as [Hn E]. destruct (I2 v vr E) as (K1 & K2 & K3). rewrite lookup_delete_ne; [auto|]. cbn. congruence.
    + intros v vr E. apply lookup_delete_Some in E as [Hn E]. destruct (I3 v vr E) as [K1 K2]. cbn [refs] in K1, K2. rewrite decide_False in K1, K2 by congruence. lia.
    + intros v vr E. apply lookup_delete_Some in E as [Hn E]. rewrite <- (I4 v vr E). cbn [refs]. rewrite decide_False by congruence. lia.
    + rewrite <- Permutation_middle in I5. inversion I5 as [|? ? _ I6]; subst. rewrite Forall_forall in I6 |- *. intros x Hx. apply (placed_mono h); [|now apply I6].
      intros v vr E Ev. exists vr. rewrite lookup_delete_ne; [auto|]. intros <-. pose proof (refs_pos u _ x Hx Ev). lia.
  - subst ur'. apply (usage_changed h m n W (r :: B) _ _ u ur); auto; cbn [add_outstanding set_running ur_outstanding ur_running]; try lia.
    + intros v Hn. left. cbn [refs]. rewrite decide_False by congruence. lia.
    + intros x Hx. left. apply elem_of_app in Hx as [Hx|Hx]; apply elem_of_app; [now left|right; now apply list_elem_of_further].
Qed.

(** ** Taking requests from the queue *)

Definition blocked (r : WorkRec) : Prop := exists u ur, wr_usage r = Some u /\ h !! u = Some ur /\ ur_running ur = true.

Lemma scan_ok q : Forall (placed h) q -> exists o, scan h q = Ok o /\
  match o with
  | None => Forall blocked q
  | Some (r, q') => exists q1 q2, q = q1 ++ r :: q2 /\ q' = q1 ++ q2 /\ available r /\ Forall blocked q1
  end.
Proof.
  induction 1 as [|r q Hr Hq IH]; [exists None; now split|]. cbn [scan].
  assert (Hhead : available r -> exists o, Ok (Some (r, q)) = Ok o /\
    match o with None => Forall blocked (r :: q) | Some (x, q') => exists q1 q2, r :: q = q1 ++ x :: q2 /\ q' = q1 ++ q2 /\ available x /\ Forall blocked q1 end).
  { intros Ha. exists (Some (r, q)). split; [reflexivity|]. exists [], q. repeat split; [assumption|constructor]. }
  unfold placed, available in *. destruct (wr_usage r) as [u|] eqn:Eu; [|now apply Hhead].
  destruct Hr as (ur & Eh & _). rewrite Eh. destruct (ur_running ur) eqn:Er; [|apply Hhead; eauto].
  destruct IH as (o & -> & Ho). cbn [bind]. assert (Hb : blocked r) by (exists u, ur; auto). eexists. split; [reflexivity|].
  destruct o as [[x q']|]; [|now constructor]. destruct Ho as (q1 & q2 & -> & -> & Ha & Hf). exists (r :: q1), q2. repeat split; [assumption|now constructor].
Qed.
End Usage.

(** The requests of a thread group. *)
Definition of_group (g : Z) (l : list WorkRec) : list WorkRec := List.filter (fun r => h_thread_group (wr_handler r) =? g) l.

Lemma of_group_app g l l' : of_group g (l ++ l') = of_group g l ++ of_group g l'.
Proof. unfold of_group. induction l as [|r l IH]; [reflexivity|]. cbn. rewrite IH. now destruct (_ =? g). Qed.

Lemma of_group_cons g r l : of_group g (r :: l) = (if h_thread_group (wr_handler r) =? g then [r] else []) ++ of_group g l.
Proof. unfold of_group. cbn. now destruct (_ =? g). Qed.
#[local] Arguments of_group : simpl never.
#[local] Arguments busy : simpl never.

(** The first request that can be taken is the first of its group. *)
Lemma first_of_group h m n W B q1 r : usage_inv h m n W B -> placed h r -> available h r -> Forall (blocked h) q1 -> Forall (placed h) q1 ->
  h_thread_group (wr_handler r) <> 0 -> of_group (h_thread_group (wr_handler r)) q1 = [].
Proof.
  intros I Hp Ha Hb Hq Hg. induction q1 as [|x q1 IH]; [reflexivity|]. inversion Hb as [|? ? (u & ur & E1 & E2 & E3) Hb']; inversion Hq as [|? ? Hx Hq']; subst.
  rewrite of_group_cons. destruct (Z.eqb_spec (h_thread_group (wr_handler x)) (h_thread_group (wr_handler r))) as [E|_]; [|now apply IH]. exfalso.
  unfold placed in Hp, Hx. rewrite E1 in Hx. destruct Hx as (ur1 & H1 & G1). unfold available in Ha. destruct (wr_usage r) as [v|]; [|congruence].
  destruct Ha as (vr & H2 & R2). destruct Hp as (vr' & H2' & G2). pose proof (ui_group _ _ _ _ _ I u ur E2) as (M1 & _). pose proof (ui_group _ _ _ _ _ I v vr H2) as (M2 & _).
  assert (ur_thread_group ur = ur_thread_group vr) by congruence. assert (u = v) by congruence. subst. congruence.
Qed.

(** ** The invariant *)

Record inv (s : State) : Prop := {
  in_usage : usage_inv (heap s) (usage_map s) (fresh_usage s) (adding s ++ queue s) (busy (workers s));
  in_order g : g <> 0 -> of_group g (started s) ++ of_group g (queue s) = of_group g (pushed s);
  in_all : started s ++ queue s ≡ₚ pushed s }.

Lemma make_inv n : inv (make n).
Proof.
  assert (E : busy (replicate n Top) = []) by (induction n as [|n IH]; [reflexivity|exact IH]).
  split; [|reflexivity|reflexivity]. change (usage_inv ∅ ∅ 0 [] (busy (replicate n Top))). rewrite E. split; intros; try (rewrite lookup_empty in *; discriminate). constructor.
Qed.

Lemma phase_inv s w p0 p : inv s -> workers s !! w = Some p0 -> busy1 p = busy1 p0 -> inv (set_phase w p s).
Proof.
  intros [I1 I2 I3] Hw Hp. split; [|exact I2|exact I3]. cbn. destruct (busy_split (workers s) w p0 Hw) as (rest & E0 & E).
  apply (usage_inv_perm _ _ _ (adding s ++ queue s) _ (busy (workers s))); [reflexivity| |exact I1]. now rewrite E0, E, Hp.
Qed.

Lemma add_inv h s : inv s -> exists s', add h s = Ok s' /\ inv s'.
Proof.
  intros [I1 I2 I3]. unfold add. destruct (Z.eqb_spec (h_thread_group h) 0) as [Hg|Hg].
  - eexists. split; [reflexivity|]. split; [|exact I2|exact I3]. cbn. apply (usage_inv_perm _ _ _ ({| wr_handler := h; wr_usage := None |} :: adding s ++ queue s) _ (busy (workers s))).
    + rewrite <- app_assoc. apply Permutation_middle.
    + reflexivity.
    + now apply add_ungrouped.
  - destruct (usage_map s !! h_thread_group h) as [u|] eqn:Em.
    + destruct (ui_map _ _ _ _ _ I1 _ _ Em) as (ur & Eh & Eg). rewrite Eh. eexists. split; [reflexivity|]. split; [|exact I2|exact I3]. cbn.
      apply (usage_inv_perm _ _ _ ({| wr_handler := h; wr_usage := Some u |} :: adding s ++ queue s) _ (busy (workers s))).
      * rewrite <- app_assoc. apply Permutation_middle.
      * reflexivity.
      * now apply add_grouped.
    + eexists. split; [reflexivity|]. split; [|exact I2|exact I3]. cbn.
      apply (usage_inv_perm _ _ _ ({| wr_handler := h; wr_usage := Some (fresh_usage s) |} :: adding s ++ queue s) _ (busy (workers s))).
      * rewrite <- app_assoc. apply Permutation_middle.
      * reflexivity.
      * now apply (add_new_group (heap s) (usage_map s) (fresh_usage s) _ _ {| wr_handler := h; wr_usage := Some (fresh_usage s) |}).
Qed.

Lemma push_inv s i r : inv s -> adding s !! i = Some r -> inv (push_back r (with_adding (delete i (adding s)) s)).
Proof.
  intros [I1 I2 I3] Hi. split; cbn.
  - apply (usage_inv_perm _ _ _ (adding s ++ queue s) _ (busy (workers s))); [|reflexivity|assumption].
    transitivity ((r :: delete i (adding s)) ++ queue s); [apply Permutation_app_tail; exact (delete_Permutation (adding s) i r Hi)|].
    cbn [app]. rewrite app_assoc. apply Permutation_cons_append.
  - intros g Hg. rewrite !of_group_app, app_assoc. now rewrite I2.
  - rewrite app_assoc. now rewrite I3.
Qed.

Lemma queue_placed s : inv s -> Forall (placed (heap s)) (queue s).
Proof. intros [I1 _ _]. pose proof (ui_placed _ _ _ _ _ I1) as H. rewrite !Forall_app in H. tauto. Qed.

(** What a worker finds when it looks. *)
Lemma look_cases s w : inv s -> workers s !! w = Some Top ->
  (Forall (blocked (heap s)) (queue s) /\ exists p, (p = Exited /\ shutdown s = true \/ shutdown s = false /\ p = Checked (match queue s with [] => false | _ => true end)) /\
     look w s = Ok (set_phase w p s)) \/
  (exists q1 r q2, queue s = q1 ++ r :: q2 /\ available (heap s) r /\ Forall (blocked (heap s)) q1 /\
     look w s = Ok (set_phase w (Running r) (with_usage (match wr_usage r with Some u => alter (set_running true) u (heap s) | None => heap s end)
       (fresh_usage s) (usage_map s) (take_out r (q1 ++ q2) s)))).
Proof.
  intros I Hw. pose proof (queue_placed s I) as Hq. destruct (scan_ok (heap s) (queue s) Hq) as (o & Es & Ho). unfold look. destruct (queue s) as [|r q] eqn:Eq.
  - left. split; [constructor|]. exists (if shutdown s then Exited else Checked false). split; [destruct (shutdown s); auto|reflexivity].
  - rewrite Es. cbn [bind]. destruct o as [[x q']|].
    + right. destruct Ho as (q1 & q2 & E1 & -> & Ha & Hb). exists q1, x, q2. auto.
    + left. split; [assumption|]. exists (if shutdown s then Exited else Checked true). split; [destruct (shutdown s); auto|reflexivity].
Qed.

Lemma look_inv s w : inv s -> workers s !! w = Some Top -> exists s', look w s = Ok s' /\ inv s'.
Proof.
  intros I Hw. destruct (look_cases s w I Hw) as [(Hb & p & Hp & ->)|(q1 & r & q2 & Eq & Ha & Hb & ->)].
  - eexists. split; [reflexivity|]. apply (phase_inv s w Top); [assumption..|]. now destruct Hp as [[-> _]|[_ ->]].
  - eexists. split; [reflexivity|]. pose proof (queue_placed s I) as Hq. destruct I as [I1 I2 I3]. rewrite Eq in *. destruct (busy_split (workers s) w Top Hw) as (rest & E0 & E). split; cbn.
    + apply (usage_inv_perm _ _ _ (adding s ++ q1 ++ q2) _ (r :: busy (workers s))); [reflexivity|now rewrite E0, E|].
      apply take_usage; [|assumption]. apply (usage_inv_perm _ _ _ (adding s ++ q1 ++ r :: q2) _ (busy (workers s))); [|reflexivity|assumption]. rewrite !app_assoc. symmetry. apply Permutation_middle.
    + intros g Hg. specialize (I2 g Hg). rewrite of_group_app in I2. rewrite <- I2, !of_group_app, !of_group_cons, <- !app_assoc. f_equal.
      destruct (Z.eqb_spec (h_thread_group (wr_handler r)) g) as [E1|_]; [|reflexivity].
      rewrite Forall_app, Forall_cons in Hq. destruct Hq as (Hq1 & Hr & _). subst g. now rewrite (first_of_group _ _ _ _ _ q1 r I1 Hr Ha Hb Hq1 Hg).
    + rewrite <- I3, <- (app_assoc (started s)). apply Permutation_app_head. cbn [app]. apply Permutation_middle.
Qed.

Lemma finish_inv s w r : inv s -> workers s !! w = Some (Ran r) -> exists s', finish w r s = Ok s' /\ inv s'.
Proof.
  intros [I1 I2 I3] Hw. destruct (busy_split (workers s) w (Ran r) Hw) as (rest & E0 & E). specialize (E Top). cbn in E0, E.
  assert (I : usage_inv (heap s) (usage_map s) (fresh_usage s) (adding s ++ queue s) (r :: rest)) by (apply (usage_inv_perm _ _ _ (adding s ++ queue s) _ (busy (workers s))); auto).
  unfold finish. destruct (wr_usage r) as [u|] eqn:Eu.
  - assert (Hp : placed (heap s) r). { pose proof (ui_placed _ _ _ _ _ I) as H. rewrite Forall_app, Forall_cons in H. tauto. }
    unfold placed in Hp. rewrite Eu in Hp. destruct Hp as (ur & Eh & _). rewrite Eh. eexists. split; [reflexivity|].
    pose proof (finish_usage _ _ _ _ rest r u ur I Eu Eh) as H. cbn zeta in H. destruct (_ =? 0); (split; [|exact I2|exact I3]); cbn;
      (apply (usage_inv_perm _ _ _ (adding s ++ queue s) _ rest); [reflexivity|now symmetry|exact H]).
  - eexists. split; [reflexivity|]. split; [|exact I2|exact I3]. cbn. apply (usage_inv_perm _ _ _ (adding s ++ queue s) _ rest); [reflexivity|now symmetry|].
    destruct I as [J1 J2 J3 J4 J5]. split; auto.
    + intros u ur Eh. destruct (J3 u ur Eh) as [K1 K2]. cbn [refs] in K1, K2. rewrite decide_False in K1, K2 by congruence. lia.
    + intros u ur Eh. rewrite <- (J4 u ur Eh). cbn [refs]. rewrite decide_False by congruence. lia.
    + rewrite Forall_app, Forall_cons in J5. rewrite Forall_app. tauto.
Qed.

Lemma busy_woken ws : busy (map woken ws) = busy ws.
Proof. induction ws as [|p ws IH]; [reflexivity|]. unfold busy in *. cbn. rewrite IH. now destruct p as [|b|[]| | | |]. Qed.

(** No step follows a pointer to a record that was deleted, and every one keeps the invariant. *)
Lemma queue_step_inv l s x : inv s -> step l s = Some x -> exists s', x = Ok s' /\ inv s'.
Proof.
  intros I. destruct l as [h|i w|w|w|w|w|w|w| |]; cbn [step].
  - intros [= <-]. now apply add_inv.
  - destruct (adding s !! i) as [r|] eqn:Ei; [|discriminate]. destruct (unlocked s); [|discriminate]. pose proof (push_inv s i r I Ei) as Ip.
    set (s1 := push_back r _) in *. unfold notified. destruct w as [w|].
    + destruct (workers s1 !! w) as [[|b|b| | | |]|] eqn:Ew; try discriminate. intros [= <-]. eexists. split; [reflexivity|]. apply (phase_inv s1 w (Waiting b)); auto. now destruct b.
    + destruct (existsb _ _); [discriminate|]. intros [= <-]. eauto.
  - destruct (workers s !! w) as [[]|] eqn:Ew; try discriminate. destruct (unlocked s); [|discriminate]. intros [= <-]. now apply look_inv.
  - destruct (workers s !! w) as [[|b|b| | | |]|] eqn:Ew; try discriminate. intros [= <-]. eexists. split; [reflexivity|]. now apply (phase_inv s w (Checked b)).
  - destruct (workers s !! w) as [[|b|b| | | |]|] eqn:Ew; try discriminate. intros [= <-]. eexists. split; [reflexivity|]. apply (phase_inv s w (Waiting b)); auto. now destruct b.
  - destruct (workers s !! w) as [[]|] eqn:Ew; try discriminate. destruct (unlocked s); [|discriminate]. intros [= <-]. eexists. split; [reflexivity|].
    apply (phase_inv s w Woken); auto. now destruct (shutdown s).
  - destruct (workers s !! w) as [[]|] eqn:Ew; try discriminate. intros [= <-]. eexists. split; [reflexivity|]. now apply (phase_inv s w (Running r)).
  - destruct (workers s !! w) as [[]|] eqn:Ew; try discriminate. intros [= <-]. now apply finish_inv.
  - intros [= <-]. eexists. split; [reflexivity|]. destruct I. now split.
  - destruct (notifying s); [discriminate|]. intros [= <-]. eexists. split; [reflexivity|]. destruct I as [I1 I2 I3]. split; auto. cbn. now rewrite busy_woken.
Qed.

Lemma queue_reachable_inv n s : reachable n s -> inv s.
Proof. induction 1 as [|l s s' _ IH E]; [apply make_inv|]. apply queue_step_inv in E as (s2 & E & ?); [|assumption]. injection E as <-. assumption. Qed.

(** ** One request of a group at a time *)

Lemma busy_two ws i j p p' r r' : ws !! i = Some p -> ws !! j = Some p' -> i <> j -> r ∈ busy1 p -> r' ∈ busy1 p' ->
  exists rest, busy ws ≡ₚ r :: r' :: rest.
Proof.
  intros Hi Hj Hij Hr Hr'. destruct (busy_split ws i p Hi) as (rest & E0 & E). specialize (E Exited). cbn [busy1 app] in E.
  destruct (busy_split (<[i := Exited]> ws) j p') as (rest2 & E2 & _); [now rewrite list_lookup_insert_ne|].
  assert (Ep : busy1 p = [r]) by (destruct p; cbn in Hr |- *; try (now apply not_elem_of_nil in Hr); apply list_elem_of_singleton in Hr; now subst).
  assert (Ep' : busy1 p' = [r']) by (destruct p'; cbn in Hr' |- *; try (now apply not_elem_of_nil in Hr'); apply list_elem_of_singleton in Hr'; now subst).
  exists rest2. rewrite E0, Ep, <- E, E2, Ep'. reflexivity.
Qed.

(** C14. Whatever the threads do, no step follows a pointer to a usage record that was
    deleted; of the requests of a thread group, one at most is in the hands of a worker;
    and workers begin with them in the order in which they came into the queue. *)
Theorem requests_serialized n s : reachable n s ->
  (forall l x, step l s = Some x -> exists s', x = Ok s') /\
  (forall i j p p' r r', workers s !! i = Some p -> workers s !! j = Some p' -> i <> j -> r ∈ busy1 p -> r' ∈ busy1 p' ->
     h_thread_group (wr_handler r) = h_thread_group (wr_handler r') -> h_thread_group (wr_handler r) = 0) /\
  (forall g, g <> 0 -> exists rest, of_group g (pushed s) = of_group g (started s) ++ rest).
Proof.
  intros H. apply queue_reachable_inv in H as I. split; [|split].
  - intros l x E. destruct (queue_step_inv l s x I E) as (s' & -> & _). eauto.
  - intros i j p p' r r' Hi Hj Hij Hr Hr' Hg. destruct (busy_two _ i j p p' r r' Hi Hj Hij Hr Hr') as (rest & E). pose proof (in_usage s I) as U.
    assert (P : placed (heap s) r /\ placed (heap s) r') by (pose proof (ui_placed _ _ _ _ _ U) as P; rewrite Forall_app, E, !Forall_cons in P; tauto).
    unfold placed in P. destruct (wr_usage r) as [u|] eqn:Eu; [|tauto]. destruct P as [(ur & E1 & E2) P]. exfalso.
    destruct (ui_group _ _ _ _ _ U u ur E1) as (M1 & M2 & _). destruct (wr_usage r') as [v|] eqn:Ev; [|congruence]. destruct P as (vr & E3 & E4).
    destruct (ui_group _ _ _ _ _ U v vr E3) as (M3 & _). assert (u = v) by congruence. subst v. pose proof (ui_busy _ _ _ _ _ U u ur E1) as B.
    rewrite (refs_same u _ _ E) in B. cbn [refs] in B. rewrite !decide_True in B by assumption. pose proof (refs_ge u rest). destruct (ur_running ur); lia.
  - intros g Hg. exists (of_group g (queue s)). now rewrite (in_order s I g Hg).
Qed.

(** ** Workers that will look at the queue again *)

Definition active (p : phase) : bool := match p with Top | Woken | Running _ | Ran _ => true | _ => false end.
(** Those that look at it before they exit. *)
Definition reliable (p : phase) : bool := match p with Top | Running _ | Ran _ | Waiting false | Checked false => true | _ => false end.

Definition some_worker (f : phase -> bool) (s : State) : Prop := exists w p, workers s !! w = Some p /\ f p = true.

Lemma some_set f s w p0 p : workers s !! w = Some p0 -> (f p0 = true -> f p = true) -> some_worker f s -> some_worker f (set_phase w p s).
Proof.
  intros Hw Hp (v & q & Hv & Hq). destruct (decide (v = w)) as [->|Hn].
  - exists w, p. split; [|apply Hp; congruence]. cbn. apply list_lookup_insert_eq. apply lookup_lt_is_Some. eauto.
  - exists v, q. split; [|assumption]. cbn. now rewrite list_lookup_insert_ne by congruence.
Qed.

Lemma some_new f s w p0 p : workers s !! w = Some p0 -> f p = true -> some_worker f (set_phase w p s).
Proof. intros Hw Hp. exists w, p. split; [|assumption]. cbn. apply list_lookup_insert_eq. apply lookup_lt_is_Some. eauto. Qed.

Record alive (s : State) : Prop := {
  al_workers : workers s <> [];
  al_exit w : shutdown s = false -> workers s !! w <> Some Exited;
  al_lock i j b b' : workers s !! i = Some (Checked b) -> workers s !! j = Some (Checked b') -> i = j;
  al_active r : shutdown s = false -> r ∈ queue s -> available (heap s) r -> some_worker active s;
  al_reliable : late s = false -> shutdown s = false \/ queue s <> [] -> some_worker reliable s }.

Lemma set_lookup s w p v q : workers (set_phase w p s) !! v = Some q -> (v = w /\ q = p) \/ (v <> w /\ workers s !! v = Some q).
Proof.
  cbn. intros H. destruct (decide (v = w)) as [->|Hn].
  - left. split; [reflexivity|]. assert (L : (w < length (workers s))%nat) by (apply lookup_lt_Some in H; now rewrite length_insert in H). rewrite list_lookup_insert_eq in H by assumption. congruence.
  - right. split; [assumption|]. now rewrite list_lookup_insert_ne in H by congruence.
Qed.

Lemma unlocked_none s w b : unlocked s = true -> workers s !! w <> Some (Checked b).
Proof.
  unfold unlocked. intros H E. apply negb_true_iff in H. assert (T : existsb is_checked (workers s) = true); [|congruence].
  apply existsb_exists. exists (Checked b). split; [|reflexivity]. apply list_elem_of_In. eapply list_elem_of_lookup_2; eassumption.
Qed.

(** A step that changes the phase of one worker, and the queue and the usage records in a
    way that makes no request available. *)
Lemma alive_set s s1 w p0 p : alive s -> workers s1 = workers s -> workers s !! w = Some p0 -> shutdown s1 = shutdown s -> (late s1 = false -> late s = false) ->
  (p = Exited -> shutdown s = true) ->
  (forall b, p = Checked b -> unlocked s = true) ->
  (forall r, shutdown s = false -> r ∈ queue s1 -> available (heap s1) r -> active p = true \/ (active p0 = false /\ r ∈ queue s /\ available (heap s) r)) ->
  (late s1 = false -> shutdown s = false \/ queue s1 <> [] ->
     reliable p = true \/ (reliable p0 = false /\ (shutdown s = false \/ queue s <> [])) \/ some_worker reliable (set_phase w p s1)) ->
  alive (set_phase w p s1).
Proof.
  intros [A1 A2 A3 A4 A5] Ew Hw Es El Hx Hc Ha Hr. rewrite <- Ew in Hw. split.
  - cbn. intros E. apply (f_equal length) in E. rewrite length_insert, Ew in E. destruct (workers s); [easy|discriminate].
  - cbn [shutdown set_phase with_workers]. rewrite Es. intros v Hs E. apply set_lookup in E as [[-> E]|[_ E]]; [symmetry in E; apply Hx in E; congruence|]. rewrite Ew in E. now apply (A2 v).
  - intros i j b b' Hi Hj. apply set_lookup in Hi as [[-> Hi]|[Hi' Hi]]; apply set_lookup in Hj as [[-> Hj]|[Hj' Hj]]; auto; rewrite ?Ew in *.
    + symmetry in Hi. apply Hc in Hi. now apply (unlocked_none s j b') in Hi.
    + symmetry in Hj. apply Hc in Hj. now apply (unlocked_none s i b) in Hj.
    + eauto.
  - cbn [shutdown queue heap set_phase with_workers]. rewrite Es. intros r Hs Hq Hv. destruct (Ha r Hs Hq Hv) as [H|(H1 & H2 & H3)]; [now apply (some_new _ s1 w p0)|].
    apply (some_set _ s1 w p0); [assumption|congruence|]. destruct (A4 r Hs H2 H3) as (v & q & Hv1 & Hv2). exists v, q. now rewrite Ew.
  - cbn [shutdown queue late set_phase with_workers]. rewrite Es. intros Hl Hq. destruct (Hr Hl Hq) as [H|[(H1 & H2)|H]]; [now apply (some_new _ s1 w p0)| |assumption].
    apply (some_set _ s1 w p0); [assumption|congruence|]. destruct (A5 (El Hl) H2) as (v & q & Hv1 & Hv2). exists v, q. now rewrite Ew.
Qed.

(** One that changes the phase only. *)
Lemma alive_phase s w p0 p : alive s -> workers s !! w = Some p0 -> (p = Exited -> shutdown s = true) -> (forall b, p = Checked b -> unlocked s = true) ->
  (active p0 = true -> active p = true \/ shutdown s = true \/ Forall (blocked (heap s)) (queue s)) ->
  (reliable p0 = true -> reliable p = true \/ (shutdown s = true /\ queue s = []) \/ some_worker reliable (set_phase w p s)) -> alive (set_phase w p s).
Proof.
  intros A Hw Hx Hc Ha Hr. apply (alive_set s s w p0); auto.
  - intros r Hs Hq Hv. destruct (active p0) eqn:E0; [|auto]. destruct (Ha eq_refl) as [H|[H|H]]; [auto|congruence|]. exfalso.
    rewrite Forall_forall in H. destruct (H r Hq) as (u & ur & E1 & E2 & E3). unfold available in Hv. rewrite E1 in Hv. destruct Hv as (ur' & E4 & E5). congruence.
  - intros Hl Hq. destruct (reliable p0) eqn:E0; [|auto]. destruct (Hr eq_refl) as [H|[[H1 H2]|H]]; auto. destruct Hq; congruence.
Qed.

Lemma busy_worker ws x : x ∈ busy ws -> exists w p, ws !! w = Some p /\ busy1 p = [x].
Proof.
  unfold busy. intros H. apply list_elem_of_In, in_flat_map in H as (p & Hp & Hx). apply list_elem_of_In, list_elem_of_lookup in Hp as (w & Hw). exists w, p. split; [assumption|].
  destruct p; cbn in Hx |- *; try easy; destruct Hx as [->|[]]; reflexivity.
Qed.

(** A request waits for one of its group that a worker has. *)
Lemma blocked_busy s r : inv s -> blocked (heap s) r -> exists w p x, workers s !! w = Some p /\ busy1 p = [x] /\ wr_usage x = wr_usage r.
Proof.
  intros I (u & ur & E1 & E2 & E3). pose proof (ui_busy _ _ _ _ _ (in_usage s I) u ur E2) as B. rewrite E3 in B.
  destruct (decide (Exists (fun x => wr_usage x = Some u) (busy (workers s)))) as [H|H].
  - apply Exists_exists in H as (x & Hx & Ex). destruct (busy_worker _ x Hx) as (w & p & Hw & Hp). exists w, p, x. split; [assumption|]. split; [assumption|congruence].
  - rewrite refs_zero in B; [discriminate|]. intros x Hx Ex. apply H. apply Exists_exists. eauto.
Qed.

Lemma busy_reliable p x : busy1 p = [x] -> reliable p = true /\ active p = true.
Proof. destruct p; try discriminate; auto. Qed.

Lemma look_alive s w s' : inv s -> alive s -> workers s !! w = Some Top -> unlocked s = true -> look w s = Ok s' -> alive s'.
Proof.
  intros I A Hw Hu E. destruct (look_cases s w I Hw) as [(Hb & p & Hp & E')|(q1 & r & q2 & Eq & Ha & Hb & E')]; rewrite E' in E; apply Ok_inj in E; subst s'.
  - apply (alive_phase s w Top); auto.
    + intros ->. now destruct Hp as [[_ ?]|[_ ?]].
    + intros _. destruct (queue s) as [|r q] eqn:Eq; [destruct Hp as [[-> ?]|[_ ->]]; auto|]. right. right.
      inversion Hb as [|? ? Hr _]; subst. destruct (blocked_busy s r I Hr) as (v & p' & x & Hv & Hx & _). exists v, p'. split; [|now destruct (busy_reliable p' x Hx)].
      cbn. rewrite list_lookup_insert_ne; [assumption|]. intros <-. rewrite Hw in Hv. injection Hv as <-. discriminate.
  - apply (alive_set s _ w Top); auto; discriminate.
Qed.

(** A change of the usage records that makes no request available. *)
Lemma alive_usage s s' : alive s -> workers s' = workers s -> queue s' = queue s -> shutdown s' = shutdown s -> late s' = late s ->
  (forall r, r ∈ queue s -> available (heap s') r -> available (heap s) r) -> alive s'.
Proof.
  intros [A1 A2 A3 A4 A5] E1 E2 E3 E4 H. assert (Hs : forall f, some_worker f s -> some_worker f s') by (unfold some_worker; now rewrite E1). split.
  - now rewrite E1.
  - intros w. rewrite E1, E3. auto.
  - intros i j b b'. rewrite E1. eauto.
  - intros r. rewrite E3, E2. eauto.
  - rewrite E4, E3, E2. eauto.
Qed.

Lemma add_alive h s s' : inv s -> alive s -> add h s = Ok s' -> alive s'.
Proof.
  intros I A. pose proof (queue_placed s I) as Hq. rewrite Forall_forall in Hq. unfold add. destruct (_ =? 0).
  { intros E. apply Ok_inj in E. subst s'. now apply (alive_usage s). }
  assert (H : forall u ur, (forall vr, heap s !! u = Some vr -> ur_running vr = ur_running ur) -> forall r, r ∈ queue s -> available (<[u := ur]> (heap s)) r -> available (heap s) r).
  { intros u ur Hu r Hr. specialize (Hq r Hr). unfold placed, available in *. destruct (wr_usage r) as [v|]; [|auto]. destruct Hq as (vr & Ev & _). intros (vr' & E1 & E2).
    exists vr. split; [assumption|]. destruct (decide (v = u)) as [->|Hn]; [rewrite lookup_insert_eq in E1; injection E1 as <-; rewrite (Hu vr Ev); assumption|].
    rewrite lookup_insert_ne in E1 by congruence. congruence. }
  destruct (usage_map s !! _) as [u|] eqn:Em.
  - destruct (heap s !! u) as [ur|] eqn:Eh; [|discriminate]. intros E. apply Ok_inj in E. subst s'. apply (alive_usage s); auto. apply H. intros vr E. rewrite Eh in E. now injection E as <-.
  - intros E. apply Ok_inj in E. subst s'. apply (alive_usage s); auto. apply H. intros vr E. apply (ui_group _ _ _ _ _ (in_usage s I)) in E as (_ & _ & ?). lia.
Qed.

Lemma push_alive s i r w s' : alive s -> unlocked s = true -> notified w (push_back r (with_adding (delete i (adding s)) s)) = Some s' -> alive s'.
Proof.
  intros A Hu. pose proof A as [A1 A2 A3 A4 A5]. set (s1 := push_back r _). assert (Hl : late s1 = false -> late s = false /\ shutdown s = false) by apply orb_false_iff.
  unfold notified. destruct w as [w|].
  - destruct (workers s1 !! w) as [[|b|b| | | |]|] eqn:Ew; try discriminate. intros E. injection E as <-. change (workers s1) with (workers s) in Ew. apply (alive_set s s1 w (Waiting b)); auto.
    + intros H. now apply Hl in H.
    + intros E. destruct b; discriminate E.
    + intros. left. now destruct b.
    + intros H _. apply Hl in H as [_ H]. destruct b; auto.
  - destruct (existsb _ _) eqn:Ex; [discriminate|]. intros E. injection E as <-. split; auto.
    + intros x Hs _ _. change (shutdown s = false) in Hs. destruct (workers s) as [|p ws] eqn:Ews; [easy|]. exists 0%nat, p. change (workers s1) with (workers s). rewrite Ews. split; [reflexivity|].
      change (workers s1) with (workers s) in Ex. rewrite Ews in Ex. cbn in Ex. apply orb_false_iff in Ex as [Ex _]. unfold unlocked in Hu. rewrite Ews in Hu. cbn in Hu.
      specialize (A2 0%nat Hs). destruct p; auto; discriminate.
    + intros H _. apply Hl in H as [H1 H2]. exact (A5 H1 (or_introl H2)).
Qed.

Lemma woken_alive s n : alive s -> alive (with_shutdown (shutdown s) n (with_workers (map woken (workers s)) s)).
Proof.
  intros [A1 A2 A3 A4 A5].
  assert (Hm : forall w q, map woken (workers s) !! w = Some q -> exists p, workers s !! w = Some p /\ q = woken p).
  { intros w q H. change (woken <$> workers s) with (map woken (workers s)) in H. apply (list_lookup_fmap_Some woken) in H as (p & -> & H). eauto. }
  assert (Hs : forall f, (forall p, f p = true -> f (woken p) = true) -> some_worker f s -> some_worker f (with_shutdown (shutdown s) n (with_workers (map woken (workers s)) s))).
  { intros f Hf (w & p & Hw & Hp). exists w, (woken p). split; [|auto]. cbn. apply (list_lookup_fmap_Some woken). eauto. }
  split; cbn.
  - destruct (workers s); [easy|discriminate].
  - intros w Hsh E. apply Hm in E as (p & Hw & Hp). apply (A2 w Hsh). rewrite Hw. destruct p as [|b|[]| | | |]; try discriminate. reflexivity.
  - intros i j b b' Hi Hj. apply Hm in Hi as (p & Hi & Hp). apply Hm in Hj as (p' & Hj & Hp').
    destruct p as [|?|[]| | | |]; try discriminate. destruct p' as [|?|[]| | | |]; try discriminate. eauto.
  - intros r Hsh Hq Hv. apply Hs; [intros [|b|[]| | | |]; auto|eauto].
  - intros Hl Hq. apply Hs; [intros [|b|[]| | | |]; auto|auto].
Qed.

Lemma step_alive l s s' : inv s -> alive s -> step l s = Some (Ok s') -> alive s'.
Proof.
  intros I A. destruct l as [h|i w|w|w|w|w|w|w| |]; cbn [step].
  - intros E. injection E as E. now apply (add_alive h s).
  - destruct (adding s !! i) as [r|]; [|discriminate]. destruct (unlocked s) eqn:Hu; [|discriminate]. destruct (notified w _) as [s1|] eqn:En; [|discriminate].
    intros E. injection E as <-. now apply (push_alive s i r w).
  - destruct (workers s !! w) as [[]|] eqn:Ew; try discriminate. destruct (unlocked s) eqn:Hu; [|discriminate]. intros E. injection E as E. now apply (look_alive s w).
  - destruct (workers s !! w) as [[|b|b| | | |]|] eqn:Ew; try discriminate. intros E. injection E as <-. apply (alive_phase s w (Checked b)); auto; discriminate.
  - destruct (workers s !! w) as [[|b|b| | | |]|] eqn:Ew; try discriminate. intros E. injection E as <-. apply (alive_phase s w (Waiting b)); auto; destruct b; auto; discriminate.
  - destruct (workers s !! w) as [[]|] eqn:Ew; try discriminate. destruct (unlocked s) eqn:Hu; [|discriminate]. intros E. injection E as <-. destruct (shutdown s) eqn:Es.
    + apply (alive_phase s w Woken); auto; discriminate.
    + apply (alive_phase s w Woken); auto; discriminate.
  - destruct (workers s !! w) as [[]|] eqn:Ew; try discriminate. intros E. injection E as <-. apply (alive_phase s w (Running r)); auto; discriminate.
  - destruct (workers s !! w) as [[]|] eqn:Ew; try discriminate. intros E. injection E as E. unfold finish in E. destruct (wr_usage r) as [u|].
    + destruct (heap s !! u) as [ur|]; [|discriminate]. apply Ok_inj in E. subst s'.
      destruct (_ =? 0); match goal with |- alive (with_usage ?h ?k ?m (set_phase _ _ _)) => change (alive (set_phase w Top (with_usage h k m s))) end;
        (apply (alive_set s _ w (Ran r)); auto; discriminate).
    + apply Ok_inj in E. subst s'. apply (alive_phase s w (Ran r)); auto; discriminate.
  - intros E. injection E as <-. destruct A as [A1 A2 A3 A4 A5]. split; auto; try discriminate. intros Hl [H|H]; [discriminate|]. apply A5; auto.
  - destruct (notifying s) as [|n]; [discriminate|]. intros E. injection E as <-. now apply woken_alive.
Qed.

Lemma make_alive n : alive (make (S n)).
Proof.
  split; cbn; try discriminate.
  - intros w _ H. change (replicate (S n) Top !! w = Some Exited) in H. apply lookup_replicate in H as [? _]. discriminate.
  - intros i j b b' H. change (replicate (S n) Top !! i = Some (Checked b)) in H. apply lookup_replicate in H as [? _]. discriminate.
  - intros r _ H. now apply not_elem_of_nil in H.
  - intros _ _. exists 0%nat, Top. now split.
Qed.

Lemma reachable_alive n s : reachable (S n) s -> alive s.
Proof.
  induction 1 as [|l s s' H IH E]; [apply make_alive|]. apply (step_alive l s); auto. now apply queue_reachable_inv in H.
Qed.

(** ** Progress *)

(** Several steps, none of which stops. *)
Fixpoint runs (ls : list label) (s : State) : option State :=
  match ls with
  | [] => Some s
  | l :: ls => match step l s with Some (Ok s) => runs ls s | _ => None end
  end.

(** Steps that workers make by themselves. *)
Definition by_worker (l : label) : bool := match l with LLook _ | LWait _ | LAgain _ | LRun _ | LFinish _ => true | _ => false end.

Lemma runs_app ls ls' s s' : runs ls s = Some s' -> runs (ls ++ ls') s = runs ls' s'.
Proof.
  revert s. induction ls as [|l ls IH]; intros s; cbn [runs app]; [now intros [= ->]|]. destruct (step l s) as [[s1| |]|]; [apply IH|discriminate..].
Qed.

(** The worker that has the mutex lets go of it. *)
Lemma release s : alive s -> exists ls s', Forall (fun l => by_worker l = true) ls /\ runs ls s = Some s' /\ unlocked s' = true /\
  (exists ws, s' = with_workers ws s) /\ forall w p, workers s !! w = Some p -> is_checked p = false -> workers s' !! w = Some p.
Proof.
  intros A. destruct (unlocked s) eqn:Hu.
  { exists [], s. repeat split; [constructor|assumption|exists (workers s); now destruct s|auto]. }
  apply negb_false_iff, existsb_exists in Hu as (p & Hp & Hc). apply list_elem_of_In, list_elem_of_lookup in Hp as (w & Hw). destruct p as [|b| | | | |]; try discriminate.
  exists [LWait w], (set_phase w (Waiting b) s). split; [repeat constructor|]. split; [cbn; now rewrite Hw|]. split; [|split].
  - apply negb_true_iff. destruct (existsb _ _) eqn:Ex; [|reflexivity]. apply existsb_exists in Ex as (q & Hq & Hcq). apply list_elem_of_In, list_elem_of_lookup in Hq as (v & Hv).
    apply set_lookup in Hv as [[-> ->]|[Hn Hv]]; [discriminate|]. destruct q; try discriminate. now destruct (al_lock s A v w again b).
  - exists (<[w := Waiting b]> (workers s)). reflexivity.
  - intros v q Hv Hq. cbn. rewrite list_lookup_insert_ne; [assumption|]. intros <-. rewrite Hw in Hv. injection Hv as <-. discriminate.
Qed.

(** A worker at the top begins with a request when there is one that can be taken. *)
Lemma look_starts s w r : inv s -> workers s !! w = Some Top -> unlocked s = true -> r ∈ queue s -> available (heap s) r ->
  exists s' x, runs [LLook w] s = Some s' /\ x ∈ queue s /\ started s' = started s ++ [x].
Proof.
  intros I Hw Hu Hr Ha. cbn [runs step]. rewrite Hw, Hu. destruct (look_cases s w I Hw) as [(Hb & _)|(q1 & x & q2 & Eq & _ & _ & E)].
  - exfalso. rewrite Forall_forall in Hb. destruct (Hb r Hr) as (u & ur & E1 & E2 & E3). unfold available in Ha. rewrite E1 in Ha. destruct Ha as (ur' & E4 & E5). congruence.
  - rewrite E. eexists _, x. split; [reflexivity|]. split; [|reflexivity]. rewrite Eq. apply elem_of_app. right. apply list_elem_of_here.
Qed.

Lemma unlocked_set s w p : unlocked s = true -> is_checked p = false -> unlocked (set_phase w p s) = true.
Proof.
  intros Hu Hp. apply negb_true_iff. destruct (existsb _ _) eqn:Ex; [|reflexivity]. apply existsb_exists in Ex as (q & Hq & Hc). apply list_elem_of_In, list_elem_of_lookup in Hq as (v & Hv).
  apply set_lookup in Hv as [[_ ->]|[_ Hv]]; [congruence|]. destruct q; try discriminate. now apply (unlocked_none s v again) in Hu.
Qed.

(** A worker that is through with [run] gives the record back and begins with the next. *)
Lemma ran_starts s w x r : inv s -> workers s !! w = Some (Ran x) -> unlocked s = true -> r ∈ queue s -> available (heap s) r \/ (wr_usage r = wr_usage x /\ wr_usage x <> None) ->
  exists s' y, runs [LFinish w; LLook w] s = Some s' /\ y ∈ queue s /\ started s' = started s ++ [y].
Proof.
  intros I Hw Hu Hr Ha. destruct (finish_inv s w x I Hw) as (s1 & E1 & I1). assert (S1 : step (LFinish w) s = Some (Ok s1)) by (cbn [step]; now rewrite Hw, E1).
  assert (H : queue s1 = queue s /\ started s1 = started s /\ workers s1 = workers (set_phase w Top s) /\
    forall u ur, heap s1 !! u = Some ur -> (wr_usage x = Some u /\ ur_running ur = false) \/ (wr_usage x <> Some u /\ heap s !! u = Some ur)).
  { unfold finish in E1. destruct (wr_usage x) as [u|]; [|apply Ok_inj in E1; subst s1; repeat split; right; split; [discriminate|assumption]].
    destruct (heap s !! u) as [ur|]; [|discriminate]. apply Ok_inj in E1. subst s1. destruct (_ =? 0); repeat split; cbn [heap with_usage set_phase with_workers]; intros v vr E.
    - apply lookup_delete_Some in E as [Hn E]. right. split; congruence.
    - destruct (decide (v = u)) as [->|Hn]; [rewrite lookup_insert_eq in E; injection E as <-; now left|]. rewrite lookup_insert_ne in E by congruence. right. split; congruence. }
  destruct H as (Q1 & T1 & W1 & H1). destruct (look_starts s1 w r) as (s' & y & E2 & Hy & Hs); auto.
  - rewrite W1. cbn. apply list_lookup_insert_eq. apply lookup_lt_is_Some. eauto.
  - pose proof (unlocked_set s w Top Hu eq_refl) as H. unfold unlocked in *. now rewrite W1.
  - now rewrite Q1.
  - pose proof (queue_placed s1 I1) as P. rewrite Forall_forall in P. rewrite <- Q1 in Hr. specialize (P r Hr). unfold placed, available in *.
    destruct (wr_usage r) as [u|] eqn:Eu; [|exact Logic.I]. destruct P as (ur & E3 & _). exists ur. split; [assumption|]. destruct (H1 u ur E3) as [[_ ?]|[Hn E4]]; [assumption|].
    destruct Ha as [(vr & E5 & E6)|[Ha _]]; congruence.
  - exists s', y. rewrite <- Q1, <- T1. split; [|auto]. cbn [runs]. rewrite S1. exact E2.
Qed.

Lemma run_starts s w p x r : inv s -> workers s !! w = Some p -> busy1 p = [x] -> unlocked s = true -> r ∈ queue s -> available (heap s) r \/ (wr_usage r = wr_usage x /\ wr_usage x <> None) ->
  exists ls s' y, Forall (fun l => by_worker l = true) ls /\ runs ls s = Some s' /\ y ∈ queue s /\ started s' = started s ++ [y].
Proof.
  intros I Hw Hp Hu Hr Ha. destruct p as [| | | |z|z|]; try discriminate; injection Hp as ->.
  - assert (S1 : step (LRun w) s = Some (Ok (set_phase w (Ran x) s))) by (cbn; now rewrite Hw). destruct (queue_step_inv _ s _ I S1) as (s1 & E1 & I1). injection E1 as <-.
    destruct (ran_starts (set_phase w (Ran x) s) w x r) as (s' & y & E & Hy & Hs); auto.
    + cbn. apply list_lookup_insert_eq. apply lookup_lt_is_Some. eauto.
    + now apply unlocked_set.
    + exists [LRun w; LFinish w; LLook w], s', y. split; [repeat constructor|]. split; [|auto]. cbn [runs]. rewrite S1. exact E.
  - destruct (ran_starts s w x r) as (s' & y & E & Hy & Hs); auto. exists [LFinish w; LLook w], s', y. split; [repeat constructor|auto].
Qed.

(** C15. The queue never stalls: as long as it is not shut down, whatever state it is in,
    when requests are waiting then the workers can go on by themselves, without a new
    request and without a wait ending for no reason, and one of them begins with a
    request that was waiting. *)
Theorem queue_never_stalls n s : reachable (S n) s -> shutdown s = false -> queue s <> [] ->
  exists ls s' r, Forall (fun l => by_worker l = true) ls /\ runs ls s = Some s' /\ r ∈ queue s /\ started s' = started s ++ [r].
Proof.
  intros H Hs Hq. pose proof (queue_reachable_inv _ _ H) as I0. pose proof (reachable_alive _ _ H) as A0. destruct (release s A0) as (ls & s1 & Hls & E1 & Hu & (ws & Es1) & Hk).
  assert (I : inv s1). { clear - I0 E1. revert s I0 E1. induction ls as [|l ls IH]; intros s I0 E1; cbn in E1; [now injection E1 as <-|].
    destruct (step l s) as [[s2| |]|] eqn:E; try discriminate. apply (IH s2); [|assumption]. destruct (queue_step_inv l s _ I0 E) as (s3 & E3 & ?). injection E3 as <-. assumption. }
  enough (G : exists ls' s' r, Forall (fun l => by_worker l = true) ls' /\ runs ls' s1 = Some s' /\ r ∈ queue s /\ started s' = started s ++ [r]).
  { destruct G as (ls' & s' & r & G1 & G2 & G3). exists (ls ++ ls'), s', r. split; [now apply Forall_app|]. split; [|assumption]. now rewrite (runs_app ls ls' s s1 E1). }
  assert (Eq : queue s1 = queue s /\ heap s1 = heap s /\ started s1 = started s /\ shutdown s1 = false) by (rewrite Es1; auto). destruct Eq as (Eq & Eh & Et & Esh).
  destruct (queue s) as [|r q] eqn:Eqs; [easy|]. rewrite <- Eq, <- Et. assert (Hr : r ∈ queue s1) by (rewrite Eq; apply list_elem_of_here).
  pose proof (queue_placed s1 I) as P. rewrite Forall_forall in P. specialize (P r Hr).
  assert (D : available (heap s1) r \/ blocked (heap s1) r).
  { unfold available, blocked, placed in *. destruct (wr_usage r) as [u|]; [|auto]. destruct P as (ur & E & _). destruct (ur_running ur) eqn:Er; [right|left]; eauto. }
  destruct D as [Ha|Hb].
  - destruct (al_active s A0 r) as (w & p & Hw & Hp); [assumption|rewrite Eqs; apply list_elem_of_here|now rewrite <- Eh|].
    assert (Hw1 : workers s1 !! w = Some p) by (apply Hk; [assumption|destruct p; auto; discriminate]). destruct p as [|b|b| |x|x|]; try discriminate.
    + destruct (look_starts s1 w r I Hw1 Hu Hr Ha) as (s' & x & E & Hx & Hst). exists [LLook w], s', x. split; [repeat constructor|auto].
    + assert (S1 : step (LAgain w) s1 = Some (Ok (set_phase w Top s1))) by (cbn; now rewrite Hw1, Hu, Esh). destruct (queue_step_inv _ s1 _ I S1) as (s2 & E2 & I2). injection E2 as <-.
      destruct (look_starts (set_phase w Top s1) w r I2) as (s' & x & E & Hx & Hst); auto; [cbn; apply list_lookup_insert_eq; apply lookup_lt_is_Some; eauto|now apply unlocked_set|].
      exists [LAgain w; LLook w], s', x. split; [repeat constructor|]. split; [|auto]. cbn [runs]. rewrite S1. exact E.
    + now apply (run_starts s1 w (Running x) x r); auto.
    + now apply (run_starts s1 w (Ran x) x r); auto.
  - destruct (blocked_busy s1 r I Hb) as (w & p & x & Hw & Hp & Hx). apply (run_starts s1 w p x r); auto. right. split; [auto|]. rewrite Hx. destruct Hb as (u & ur & -> & _). discriminate.
Qed.

(** ** Shutdown *)

(** C40. A queue that is shut down, and to which no request comes after that, loses none:
    when all workers have exited, every request that was added was carried out. *)
Theorem shutdown_drains n s : reachable (S n) s -> late s = false -> (forall w p, workers s !! w = Some p -> p = Exited) ->
  queue s = [] /\ busy (workers s) = [] /\ started s ≡ₚ pushed s.
Proof.
  intros H Hl Hx. pose proof (queue_reachable_inv _ _ H) as I. pose proof (reachable_alive _ _ H) as A.
  assert (Hq : queue s = []).
  { destruct (queue s) as [|r q] eqn:E; [reflexivity|]. destruct (al_reliable s A Hl) as (w & p & Hw & Hp); [right; now rewrite E|]. apply Hx in Hw. subst p. discriminate. }
  split; [assumption|]. split.
  - destruct (busy (workers s)) as [|x l] eqn:E; [reflexivity|]. destruct (busy_worker (workers s) x) as (w & p & Hw & Hp); [rewrite E; apply list_elem_of_here|]. apply Hx in Hw. subst p. discriminate.
  - rewrite <- (in_all s I), Hq. now rewrite app_nil_r.
Qed.

(** A shutdown can pass a worker by, between its look at the flag and its wait: the worker
    then waits for good, and [join] with it. *)
Lemma shutdown_can_be_missed : exists s, runs [LLook 0; LShutdown; LNotifyAll; LWait 0] (make 1) = Some s /\ shutdown s = true /\ notifying s = O /\
  workers s = [Waiting false] /\ forall l, by_worker l = true -> step l s = None.
Proof.
  eexists. split; [vm_compute; reflexivity|]. repeat split. intros [h|i w|w|w|w|w|w|w| |] Hl; try discriminate; destruct w as [|[|w]]; reflexivity.
Qed.

(** ** Concrete runs *)

(** Witnesses: two workers; two requests of one group, the second while the first runs. *)
Definition first_request : Handler := {| h_id := 1; h_thread_group := 9 |}.
Definition second_request : Handler := {| h_id := 2; h_thread_group := 9 |}.
Definition two_requests : list label :=
  [LAdd first_request; LPush 0 None; LLook 0; LAdd second_request; LPush 0 None; LLook 1].

Lemma runs_reachable n ls : forall s s', reachable n s -> runs ls s = Some s' -> reachable n s'.
Proof.
  induction ls as [|l ls IH]; intros s s' H E; cbn in E; [now injection E as <-|]. destruct (step l s) as [[s1| |]|] eqn:El; try discriminate. apply (IH s1); [|assumption]. now apply (reach_step n l s).
Qed.

(** The state after a run that is possible. *)
Definition state_after (n : nat) (ls : list label) : State := match runs ls (make n) with Some s => s | None => make n end.

Lemma state_reachable n ls : reachable n (state_after n ls).
Proof. unfold state_after. destruct (runs ls (make n)) as [s|] eqn:E; [|constructor]. apply (runs_reachable n ls (make n)); [constructor|assumption]. Qed.

Lemma requests_serialized_witness :
  (forall l x, step l (state_after 2 two_requests) = Some x -> exists s', x = Ok s') /\
  exists rest, of_group 9 (pushed (state_after 2 two_requests)) = of_group 9 (started (state_after 2 two_requests)) ++ rest.
Proof.
  destruct (requests_serialized 2 (state_after 2 two_requests) (state_reachable 2 two_requests)) as (H1 & _ & H3). split; [exact H1|]. apply H3. discriminate.
Defined.

Lemma queue_never_stalls_witness : exists ls s' r, Forall (fun l => by_worker l = true) ls /\ runs ls (state_after 2 two_requests) = Some s' /\
  started s' = started (state_after 2 two_requests) ++ [r] /\ wr_handler r = second_request.
Proof.
  destruct (queue_never_stalls 1 (state_after 2 two_requests) (state_reachable 2 two_requests)) as (ls & s' & r & H1 & H2 & H3 & H4).
  - vm_compute. reflexivity.
  - vm_compute. discriminate.
  - exists ls, s', r. split; [exact H1|]. split; [exact H2|]. split; [exact H4|].
    replace (queue (state_after 2 two_requests)) with [{| wr_handler := second_request; wr_usage := Some 0%nat |}] in H3 by (vm_compute; reflexivity).
    apply list_elem_of_singleton in H3. now subst r.
Defined.

Definition shut_down : list label := two_requests ++ [LWait 1; LShutdown; LNotifyAll; LAgain 1; LRun 0; LFinish 0; LLook 0; LRun 0; LFinish 0; LLook 0].

Lemma shutdown_drains_witness : queue (state_after 2 shut_down) = [] /\ busy (workers (state_after 2 shut_down)) = [] /\
  started (state_after 2 shut_down) ≡ₚ pushed (state_after 2 shut_down) /\ length (pushed (state_after 2 shut_down)) = 2%nat.
Proof.
  destruct (shutdown_drains 1 (state_after 2 shut_down)) as (H1 & H2 & H3).
  - exact (state_reachable 2 shut_down).
  - vm_compute. reflexivity.
  - replace (workers (state_after 2 shut_down)) with [Exited; Exited] by (vm_compute; reflexivity). intros w p H. apply list_elem_of_lookup_2 in H. repeat (apply elem_of_cons in H as [->|H]; [reflexivity|]). now apply not_elem_of_nil in H.
  - split; [exact H1|]. split; [exact H2|]. split; [exact H3|]. vm_compute. reflexivity.
Defined.
End ApplicationQueue.
